(* ===== verification/_CoqProject ===== *)
-Q . S2P
Prelude.v
CommBuffer.v
Mpu.v
MpuFacts.v
MpuMalloc.v
MpuMallocFacts.v
ElfImageCheck.v
ElfSection.v
Loader.v
LoaderFacts.v
SymbolOps.v
CpuControl.v
CpuControlFacts.v
Bus.v
CpuCallback.v
ThreadControl.v
Token.v
TokenFacts.v
DbgParser.v
DbgParserFacts.v
DwarfLine.v
DwarfLineFacts.v
DwarfInfo.v
DwarfInfoFacts.v
DwarfType.v
DwarfTypeFacts.v
DebugInfo.v
Containers.v
DbgExecutor.v
DbgExecutorFacts.v
DbgSession.v
DwarfPrint.v
DwarfPrintFacts.v
DeviceConfig.v
DeviceConfigFacts.v
Emulator.v
EmulatorFacts.v
Hakoniwa.v
HakoniwaFacts.v
IdleSpinHalt.v
HostFunction.v
HostFunctionFacts.v
Mpthread.v
SerialFifo.v
SerialFifoFacts.v
SystemCall.v
SystemCallFacts.v
GdbRsp.v
GdbRspFacts.v
Options.v
OptionsFacts.v
MrosList.v
MrosTopic.v
MrosTopicFacts.v
MrosComm.v
MrosConnector.v
MrosConnectorFacts.v
MrosPacket.v
MrosPacketFacts.v
