(* ===== verification/Prelude.v ===== *)
(** * Athrill: a verification library for the CPU-independent core of the emulator

    Athrill runs embedded programs on a host.  A guest program is loaded from an ELF
    file into host buffers, executed by a target CPU (a separate project that is linked
    in), and watched by a debugger that runs in its own thread.  This library models
    the parts every target shares and proves what makes them correct.

    ** How the parts work together

    Start-up reads the device configuration and the memory map.  The loader checks the ELF
    image, asks the memory protection unit (MPU) for a region per line of the memory map,
    and copies the segments into the host buffers of these regions.  Part of the RAM may be
    handed to the guest heap, which divides regions into blocks of fixed sizes.  The
    execution loop then runs clock by clock: the devices tick, each core executes an
    instruction, and the clock moves on, in batches and jumps when the debugger is off.  As
    an asset of Hakoniwa the loop waits at the end of the time the simulated world has
    reached.  A core that idles or spins is halted, and a call of a configured guest function
    is served by a function of the host.

    The CPU reads and writes guest memory through the bus, which logs each access and passes
    it to the MPU; the MPU finds the region and calls its operations.  Around each
    instruction the debugger is notified: it may stop the core, and it records function
    changes, stack frames, the profile and data accesses, for which it looks addresses up in
    the symbol tables.  Stopping and resuming is a hand-over between the CPU thread and the
    debugger thread.  The debugger reads lines, cuts them into tokens, parses them into
    commands and executes them, and logs them so that they can be replayed; source positions
    come from the DWARF line table, the types of the variables it prints from the DWARF
    entries.  A device exchanges bytes with the host through FIFO
    buffers that threads of its own empty and fill, and the guest reaches files, sockets and
    the heap through a device call.

    ** Files

    Paths are relative to [src/src/].

    - [Prelude]: return codes ([inc/std_errno.h]), outcomes of C code, machine integers,
      arrays and byte blocks, little-endian values, and the tactics used throughout.
    - [CommBuffer]: [lib/comm_buffer.c]; the FIFO and linear buffers.
    - [Mpu], [MpuFacts]: [device/mpu/mpu.c] and its headers; the region tables, the two
      searches with their remembered index, creation of regions, typed accesses, host
      pointers.
    - [MpuMalloc], [MpuMallocFacts]: [device/mpu/mpu_malloc.c]; the guest heap.
    - [ElfImageCheck]: [lib/loader/elf_image_check.c] and the structures of
      [lib/loader/elf.h]; [ElfSection]: [lib/dwarf/elf_section.c]; symbols and sections.
    - [Loader], [LoaderFacts]: [device/mpu/loader/loader.c]; mapping, loading and
      reloading, with the code-cache registry of [cpu/cpu.h].
    - [SymbolOps]: [lib/symbol_ops.c]; symbol tables and their sorted index.
    - [CpuControl], [CpuControlFacts]:
      [debugger/executor/cpu_control/dbg_cpu_control.c]; break points, watch points,
      continue timer, function log, stack frames, access statistics, profile.
    - [Bus]: [bus/bus.c], [bus/bus.h]; the access log and the accesses through it.
    - [CpuCallback]: [dbg_cpu_callback.c]; the notifications around an instruction.
    - [ThreadControl]: [dbg_cpu_thread_control.c]; the hand-over between the threads, as
      a step relation.
    - [Token], [TokenFacts]: [lib/token.c]; lines cut into typed tokens.
    - [DbgParser], [DbgParserFacts]: [debugger/parser/]; the commands of the debugger.
    - [DwarfLine], [DwarfLineFacts]: [lib/dwarf/elf_dwarf_line.c] and the address mapping
      [lib/file_address_mapping.c] it feeds; [Containers]: [lib/object_container.h],
      [lib/hash.c].
    - [DwarfInfo], [DwarfInfoFacts]: [lib/dwarf/elf_dwarf_abbrev.c], [elf_dwarf_info.c],
      [elf_dwarf_info_ops.c] and the loading of [elf_dwarf_loc.c]; abbreviations, entries,
      location lists.  [DwarfType], [DwarfTypeFacts]: [lib/dwarf/data_type/]; the types,
      variables and functions built from the entries.  [DebugInfo]: the readers as the loader
      runs them.  [DwarfPrint], [DwarfPrintFacts]: [dbg_print_data_type.c] under
      [debugger/executor/], and the address of a local variable ([elf_dwarf_loc.c]).
    - [DbgExecutor], [DbgExecutorFacts], [DbgSession]: the execution of commands
      ([debugger/executor/]), the command line with its operation log ([lib/cui/cui_ops.c]).
    - [DeviceConfig], [DeviceConfigFacts]: the configuration files read by
      [main/cpuemu.cpp] and [lib/file.c].
    - [Emulator], [EmulatorFacts]: start-up and the execution loop of [main/cpuemu.cpp],
      and the guest's device calls of [device/peripheral/athrill_device.c].
    - [Hakoniwa], [HakoniwaFacts]: [hakoniwa/athrill_hakoniwa.cpp].
    - [IdleSpinHalt]: [main/athrill_idle_spin_halt.c]; [HostFunction], [HostFunctionFacts]:
      [main/athrill_host_function.c].
    - [Mpthread]: [device/peripheral/athrill_mpthread.c]; threads of devices, as a step
      relation.  [SerialFifo], [SerialFifoFacts]: [device/peripheral/serial/fifo/].
    - [SystemCall], [SystemCallFacts]: [device/peripheral/athrill_syscall_device.c] with the
      interface [apl/include/athrill_syscall.h] it shares with the guest.
    - [GdbRsp], [GdbRspFacts]: [debugger/rsp/]; the GDB remote serial protocol.
    - [Options], [OptionsFacts]: [main/option/] and the loading of a file in [lib/file.c].
    - The ROS device, under [device/peripheral/mros-dev/]: [MrosList], the macros of circular
      lists; [MrosTopic], [MrosTopicFacts], names, memory, topics and nodes; [MrosComm], TCP
      clients and the topic data they carry; [MrosConnector], [MrosConnectorFacts], the
      connectors between nodes and topics, the two runs that move topic data, and the calls of
      the device ([ros_cimpl.c]); [MrosPacket], [MrosPacketFacts], the encoder and decoder of
      packets.

    ** Conventions

    Definitions carry the names of the source.  Pure C functions are functions; a
    function that changes a static variable or an argument takes the state and returns
    the new one.  A function that can dereference a null or dangling pointer, leave an
    array, fail an [ASSERT], divide by zero, shift too far or never end returns [outcome]: [Ok] with
    its result or [Fault] with the reason, so that absence of such behaviour is a theorem
    and not a property of the encoding.  Error codes are ordinary results.  Unsigned
    integers are [Z] with the wrap-around written out ([u8], [u32], [u64], and [uaddr] at
    the width of a guest address, which is 32 or 64 by class [AddrWidth]).  A buffer is a
    list of bytes; a pointer into a host buffer is a block number and an offset; a pointer
    into a table that [realloc] moves carries the table's generation.  What [malloc]
    returns is an argument.  A host function is the tree of the calls it makes.

    Threads are step relations ([ThreadControl], [Mpthread], [SerialFifo]) whose steps are
    the code between two points where another thread can be seen: taking or leaving a mutex,
    waiting, and each access to a shared variable outside of a mutex.

    Loops are structural in the number of iterations the source bounds them with.  The
    binary search of [SymbolOps] runs with fuel [count + 1], more than its halvings; the
    loop over the access log of [CpuCallback] with 129, one more than the log holds; the
    readers of files and of the line table with the number of bytes left plus one, since
    every iteration reads a byte; the theorems prove the result, so the fuel is never what
    ends them.  The readers of the DWARF entries and of location lists do the same,
    except that a length in the file may take them back to bytes they have read: then they go
    round until no memory is left, or for ever ([Hang]).  The recursions over entries and over
    types take one more than there are entries or types: deeper than that, one is inside
    itself.  The loop of the emulator and the wait for the world of Hakoniwa, which may
    go on for ever, take a number of iterations; their theorems hold for every number, or
    give one that is enough.

    Parameters stand for code outside the repository: the operations of device libraries
    and the permission check of the target CPU (class [MpuConfig] of [Mpu]), the target
    with its CPU, devices and interrupt controller (class [TargetMachine] of [Emulator]), the
    services of the host (class [HostFiles] of [DeviceConfig]), the library of Hakoniwa
    (class [HakoniwaCore]), the operating system behind the guest's system calls (class
    [HostOS] of [SystemCall]), the socket and the register adapter of the debug server
    (classes [RspSocket] and [GdbTarget] of [GdbRsp]), the text of floating point numbers in
    [DwarfPrint], the sockets of the ROS device (class [SockOps] of [MrosComm]) and the
    resolution of host names in [MrosPacket].  The readers of debug information are parameters of [Loader] and put in by
    [DebugInfo]; the typed printers are parameters of [DbgExecutor] and given in [DwarfPrint].

    ** What the theorems show

    - MPU: guest accesses never leave the host buffers; on plain memory they are loads and
      stores on a flat byte memory; the remembered index changes nothing; read-only regions stay
      unchanged; adding a region disturbs no other; host pointers cover what was asked for.
    - Guest heap: blocks held by a well-behaved guest never overlap, in every reachable state;
      each operation does what it says on every branch.
    - Images: the check reads only inside the file and accepts exactly the well-formed images;
      readers of accepted images stay inside the file; a reload restores guest memory to what
      the image says, unless a segment is larger than the address space; the rows of the line
      table are those of the line program without the ends of its sequences, and an address is
      mapped to the nearest row.
    - Debug information: abbreviations and entries written by the rules of DWARF are read back,
      with every value the reader can hold; types are built in the order of the file and each
      reference ends at the first object of the entry it names; the chain of references behind a
      type is followed to its end unless it is endless; a value of a sound type is printed
      without a fault, an array in row-major order.
    - Buffers: the FIFO is a bounded queue, the access log a bounded stack; the bytes that pass
      through a serial channel keep their order under every interleaving of its threads.
    - Debugger: the indexed symbol search equals a scan; permanent break points are exactly the
      addresses listed, and a break point that is typed stops the running core; watch points are
      a map and fire when an access touches them; the function log is a bounded history; frames
      follow the stack pointer; access counts add up; a core stops exactly when it should.
      Tokens are the words of a line; a command typed in any of its forms is read back; what is
      not a command is refused; replaying the operation log restores the state of the debugger.
    - Configuration: a key has the value of its first line; a memory map that is written out is
      read back.
    - Command line: the loop over the options ends, and options are read as they are spelled.
    - Execution: batches and jumps over idle clocks give the run of the plain loop; as an asset
      of Hakoniwa no instruction runs at or after the world time, and the wait ends when that
      time advances; a core is halted only as the policies say; a host function stays inside
      guest memory and off ROM.
    - Threads: no wake-up is lost, waiting for a run sees that run, and can always end; a device
      thread that is started runs.
    - System calls: a call that returns has moved or resized no region; [malloc] answers with a
      block of the heap or with null; a read from a channel delivers what the channel holds or
      an error; the flags of [open] reach the host unchanged.
    - Debug server: it stays inside its buffers, the packet and the frame among them, whatever a
      client sends; a packet that is sent is the packet that is read; memory written is memory
      read back; the break points are the set the client made.
    - ROS device: its lists are sequences; topics are a registry of formal names; what a
      publisher publishes reaches every subscriber of the node once, and nothing is left behind;
      the header of a connection is read as it was written.
    - Faults found in the code are theorems too: a region at the top of the address space is
      never found, the heap keeps pointers into a table that moves, an accepted image can lead
      the DWARF probe outside the file, removing temporary break points disables permanent ones,
      a full frame is overrun, the first device access of a batch delays an event, a batch runs
      ahead of the world time when no device has an event or a reset takes its bound away, a
      segment larger than the address space is cleared beyond its region, short references in
      the debug information are cut, the line table does not know where a sequence ends, a byte
      moved into a full serial ring is dropped without notice, a system call trusts lengths and
      names that the guest wrote, a break point at address 0 is removed in name only, what
      follows a list of children in the debug information becomes a child itself, an enumeration
      is printed twice, an entry of a packet makes its decoder go round for ever.

    ** Not modelled

    Of the ROS device the threads that stand for its tasks, the initialisation of its network
    and the glue to device libraries are left out: they call the operating system or hand
    pointers on.  TCP and UDP ([lib/tcp/], [lib/udp/]), the terminal, the loading of
    shared libraries and the log of instructions ([lib/dbg_log.h]) only pass data to the host
    or to the target.  Sleeping that keeps pace with real time, the editor file and the
    formats of printed text are left out.  [lib/loader/elf_common.h] holds constants of which
    the loader uses the few that are modelled. *)

From stdpp Require Export base list numbers relations.
From Stdlib Require Export ZArith Lia ZifyBool.

Open Scope Z_scope.

(** ** Return codes ([src/src/inc/std_errno.h]) *)

Inductive Std_ReturnType :=
  | STD_E_OK
  | STD_E_DECODE
  | STD_E_EXEC
  | STD_E_SEGV
  | STD_E_INVALID
  | STD_E_NOENT
  | STD_E_LIMIT
  | STD_E_PERM.

#[export] Instance Std_ReturnType_eq_dec : EqDecision Std_ReturnType.
Proof. solve_decision. Defined.

Definition std_ok (e : Std_ReturnType) : bool :=
  match e with STD_E_OK => true | _ => false end.

(** ** Outcomes

    A C function either returns, or its execution reaches a point where the
    program is no longer defined: a null, dangling or out-of-bounds access, a failed
    [ASSERT] (which exits the process), a division by zero, a shift by the
    width or more.  [Hang] stands for a loop that goes round for ever.  Functions that cannot do any of these are plain functions;
    the others are written in the monad below. *)

Inductive fault :=
  | NullDeref
  | OutOfBounds
  | UseAfterFree
  | AssertFail
  | DivByZero
  | BadShift
  | Hang.

Inductive outcome (A : Type) :=
  | Ok (a : A)
  | Fault (f : fault).
Arguments Ok {A} _.
Arguments Fault {A} _.

#[export] Instance outcome_ret : MRet outcome := λ A a, Ok a.
#[export] Instance outcome_bind : MBind outcome := λ A B k m,
  match m with Ok a => k a | Fault f => Fault f end.
#[export] Instance outcome_fmap : FMap outcome := λ A B g m,
  match m with Ok a => Ok (g a) | Fault f => Fault f end.

Definition assert_c (b : bool) : outcome () :=
  if b then Ok () else Fault AssertFail.

Definition oob {A} (o : option A) : outcome A :=
  match o with Some a => Ok a | None => Fault OutOfBounds end.

Definition is_ok {A} (m : outcome A) : Prop := ∃ a, m = Ok a.

Lemma bind_ok {A B} (m : outcome A) (k : A → outcome B) b :
  m ≫= k = Ok b ↔ ∃ a, m = Ok a ∧ k a = Ok b.
Proof. destruct m; simpl; split; [eauto | by intros (? & [= <-] & ?) | done | by intros (? & [=] & ?)]. Qed.

Lemma is_ok_bind {A B} (m : outcome A) (k : A → outcome B) :
  is_ok m → (∀ a, m = Ok a → is_ok (k a)) → is_ok (m ≫= k).
Proof. intros [a ->] H. by apply H. Qed.

Lemma is_ok_ret {A} (a : A) : is_ok (Ok a).
Proof. by exists a. Qed.

(** ** Machine integers: an unsigned [w]-bit value is a [Z] in [0, 2^w) *)

Definition wrap (w x : Z) : Z := x mod 2 ^ w.
Abbreviation u8 := (wrap 8).
Abbreviation u16 := (wrap 16).
Abbreviation u32 := (wrap 32).
Abbreviation u64 := (wrap 64).

Definition in_width (w x : Z) : Prop := 0 ≤ x < 2 ^ w.

Lemma wrap_in_width w x : 0 ≤ w → in_width w (wrap w x).
Proof. intros. unfold in_width, wrap. apply Z.mod_pos_bound. lia. Qed.

Lemma wrap_id w x : in_width w x → wrap w x = x.
Proof. intros. by apply Z.mod_small. Qed.

(** The width of a guest address ([AthrillAddrType]) is a build option: 32 or 64. *)
Class AddrWidth := {
  ATHRILL_ADDRESS_WIDTH : Z;
  addr_width_ok : ATHRILL_ADDRESS_WIDTH = 32 ∨ ATHRILL_ADDRESS_WIDTH = 64;
}.

Definition addr_width_32 : AddrWidth := {| addr_width_ok := or_introl eq_refl |}.
Definition addr_width_64 : AddrWidth := {| addr_width_ok := or_intror eq_refl |}.

Section addresses.
Context `{AddrWidth}.

(** The number of guest addresses. *)
Definition ADDR_SPACE : Z := 2 ^ ATHRILL_ADDRESS_WIDTH.
Definition ATHRILL_ADDR_MAX : Z := ADDR_SPACE - 1.
(** Conversion to [AthrillAddrType]. *)
Definition uaddr (x : Z) : Z := wrap ATHRILL_ADDRESS_WIDTH x.
Definition is_addr (x : Z) : Prop := 0 ≤ x < ADDR_SPACE.

Lemma addr_space_range : 2 ^ 32 ≤ ADDR_SPACE ≤ 2 ^ 64.
Proof. unfold ADDR_SPACE. destruct addr_width_ok as [-> | ->]; lia. Qed.

Lemma uaddr_range x : is_addr (uaddr x).
Proof. unfold is_addr, uaddr, wrap. apply Z.mod_pos_bound. pose proof addr_space_range. lia. Qed.

Lemma uaddr_id x : is_addr x → uaddr x = x.
Proof. intros. by apply Z.mod_small. Qed.

Lemma land_addr_max x : is_addr x → Z.land x ATHRILL_ADDR_MAX = x.
Proof.
  intros Hx. unfold ATHRILL_ADDR_MAX, ADDR_SPACE in *.
  replace (2 ^ ATHRILL_ADDRESS_WIDTH - 1) with (Z.ones ATHRILL_ADDRESS_WIDTH)
    by (rewrite Z.ones_equiv; lia).
  rewrite Z.land_ones by (destruct addr_width_ok as [-> | ->]; lia).
  apply Z.mod_small. exact Hx.
Qed.
End addresses.
#[export] Hint Resolve uaddr_range : core.

(** ** Arrays: lists indexed by [Z]; an index outside the list is [None] *)

Definition zlen {A} (l : list A) : Z := Z.of_nat (length l).

Definition zget {A} (l : list A) (i : Z) : option A :=
  if i <? 0 then None else l !! Z.to_nat i.

Definition zset {A} (l : list A) (i : Z) (x : A) : option (list A) :=
  if (0 <=? i) && (i <? zlen l) then Some (<[Z.to_nat i := x]> l) else None.

Definition zput {A} (l : list A) (i : Z) (x : A) : list A := <[Z.to_nat i := x]> l.

Section arrays.
Context {A : Type}.
Implicit Types (l : list A) (i j : Z) (x : A).

Lemma zlen_nonneg l : 0 ≤ zlen l.
Proof. unfold zlen. lia. Qed.

Lemma zget_range l i x : zget l i = Some x → 0 ≤ i < zlen l.
Proof.
  unfold zget, zlen. destruct (Z.ltb_spec i 0); [done|].
  intros ?%lookup_lt_Some. lia.
Qed.

Lemma zget_is_Some l i : 0 ≤ i < zlen l → ∃ x, zget l i = Some x.
Proof.
  unfold zget, zlen. intros. destruct (Z.ltb_spec i 0); [lia|].
  apply lookup_lt_is_Some. lia.
Qed.

Lemma zget_None l i : i < 0 ∨ zlen l ≤ i → zget l i = None.
Proof.
  unfold zget, zlen. intros. destruct (Z.ltb_spec i 0); [done|].
  apply lookup_ge_None. lia.
Qed.

Lemma zlen_zput l i x : zlen (zput l i x) = zlen l.
Proof. unfold zlen, zput. by rewrite length_insert. Qed.

Lemma zget_zput_eq l i x : 0 ≤ i < zlen l → zget (zput l i x) i = Some x.
Proof.
  unfold zget, zput, zlen. intros. destruct (Z.ltb_spec i 0); [lia|].
  apply list_lookup_insert_eq. lia.
Qed.

Lemma zget_zput_ne l i j x :
  0 ≤ i → i ≠ j → zget (zput l i x) j = zget l j.
Proof.
  unfold zget, zput. intros. destruct (Z.ltb_spec j 0); [done|].
  apply list_lookup_insert_ne. lia.
Qed.

Lemma zset_Some l i x l' :
  zset l i x = Some l' ↔ 0 ≤ i < zlen l ∧ l' = zput l i x.
Proof.
  unfold zset, zput. destruct (_ && _) eqn:E; split.
  - intros [= <-]. split; [lia|done].
  - by intros [_ ->].
  - done.
  - intros [? _]. lia.
Qed.

Lemma zget_app_l l1 l2 i : i < zlen l1 → zget (l1 ++ l2) i = zget l1 i.
Proof.
  unfold zget, zlen. intros. destruct (Z.ltb_spec i 0); [done|].
  apply lookup_app_l. lia.
Qed.

Lemma zget_app_r l1 l2 i :
  zlen l1 ≤ i → zget (l1 ++ l2) i = zget l2 (i - zlen l1).
Proof.
  unfold zget, zlen. intros. destruct (Z.ltb_spec i 0); [lia|].
  rewrite lookup_app_r by lia. destruct (Z.ltb_spec (i - Z.of_nat (length l1)) 0); [lia|].
  f_equal. lia.
Qed.

Lemma zget_lookup l (n : nat) : zget l (Z.of_nat n) = l !! n.
Proof. unfold zget. destruct (Z.ltb_spec (Z.of_nat n) 0); [lia|]. f_equal. lia. Qed.

Lemma zget_elem l i x : zget l i = Some x → x ∈ l.
Proof.
  unfold zget. destruct (_ <? _); [done|]. apply list_elem_of_lookup_2.
Qed.

Lemma zget_ext l l' : (∀ i, 0 ≤ i → zget l i = zget l' i) → l = l'.
Proof.
  intros H. apply list_eq. intros i. rewrite <- !zget_lookup. apply H. lia.
Qed.

Lemma zlen_app l1 l2 : zlen (l1 ++ l2) = zlen l1 + zlen l2.
Proof. unfold zlen. rewrite length_app. lia. Qed.
End arrays.

Lemma zget_snoc {A} (l : list A) x i y :
  zget (l ++ [x]) i = Some y → zget l i = Some y ∨ i = zlen l ∧ y = x.
Proof.
  intros Hk. pose proof (zget_range _ _ _ Hk) as Hrg. rewrite zlen_app in Hrg.
  destruct (decide (i < zlen l)); [left; by rewrite zget_app_l in Hk|right].
  assert (i = zlen l) as -> by (unfold zlen in *; simpl in *; lia). split; [done|].
  rewrite zget_app_r, Z.sub_diag in Hk by lia. by injection Hk.
Qed.

Lemma seqZ_snoc m n : 0 ≤ n → seqZ m (n + 1) = seqZ m n ++ [m + n].
Proof. intros. by rewrite seqZ_app by lia. Qed.

(** ** Byte blocks: ranges read and written as a whole *)

Definition bytes_at (l : list Z) (off n : Z) : option (list Z) :=
  if (0 <=? off) && (0 <=? n) && (off + n <=? zlen l)
  then Some (take (Z.to_nat n) (drop (Z.to_nat off) l)) else None.

Definition bytes_put (l : list Z) (off : Z) (bs : list Z) : list Z :=
  take (Z.to_nat off) l ++ bs ++ drop (Z.to_nat off + length bs) l.

Definition bytes_set (l : list Z) (off : Z) (bs : list Z) : option (list Z) :=
  if (0 <=? off) && (off + zlen bs <=? zlen l)
  then Some (bytes_put l off bs) else None.

Lemma bytes_at_Some l off n :
  0 ≤ off → 0 ≤ n → off + n ≤ zlen l →
  ∃ bs, bytes_at l off n = Some bs ∧ zlen bs = n.
Proof.
  intros. unfold bytes_at.
  replace (_ && _ && _) with true by lia. eexists; split; [done|].
  unfold zlen in *. rewrite length_take, length_drop. lia.
Qed.

Lemma bytes_at_lookup l off n bs i :
  bytes_at l off n = Some bs → 0 ≤ i < n → zget bs i = zget l (off + i).
Proof.
  unfold bytes_at. destruct (_ && _) eqn:E; [|done]. intros [= <-] ?.
  unfold zget. destruct (Z.ltb_spec i 0), (Z.ltb_spec (off + i) 0); try lia.
  rewrite lookup_take_lt, lookup_drop by lia. f_equal. lia.
Qed.

Lemma bytes_at_len l off n bs : bytes_at l off n = Some bs → zlen bs = n.
Proof.
  unfold bytes_at. destruct (_ && _) eqn:E; [|done]. intros [= <-].
  unfold zlen in *. rewrite length_take, length_drop. lia.
Qed.

Lemma bytes_at_range l off n bs :
  bytes_at l off n = Some bs → 0 ≤ off ∧ 0 ≤ n ∧ off + n ≤ zlen l.
Proof. unfold bytes_at. destruct (_ && _) eqn:E; [|done]. intros _. lia. Qed.

Lemma bytes_set_Some l off bs l' :
  bytes_set l off bs = Some l' ↔
  0 ≤ off ∧ off + zlen bs ≤ zlen l ∧ l' = bytes_put l off bs.
Proof.
  unfold bytes_set. destruct (_ && _) eqn:E; split.
  - intros [= <-]. split_and!; [lia|lia|done].
  - by intros (_ & _ & ->).
  - done.
  - lia.
Qed.

Lemma bytes_put_len l off bs :
  0 ≤ off → off + zlen bs ≤ zlen l → zlen (bytes_put l off bs) = zlen l.
Proof.
  unfold bytes_put, zlen. intros. rewrite !length_app, length_take, length_drop. lia.
Qed.

Lemma bytes_put_lookup_in l off bs i :
  0 ≤ off → off + zlen bs ≤ zlen l → off ≤ i < off + zlen bs →
  zget (bytes_put l off bs) i = zget bs (i - off).
Proof.
  unfold zget, bytes_put, zlen. intros.
  destruct (Z.ltb_spec i 0), (Z.ltb_spec (i - off) 0); try lia.
  rewrite lookup_app_r; rewrite length_take; [|lia].
  rewrite lookup_app_l by lia. f_equal. lia.
Qed.

Lemma bytes_put_lookup_out l off bs i :
  0 ≤ off → off + zlen bs ≤ zlen l → i < off ∨ off + zlen bs ≤ i →
  zget (bytes_put l off bs) i = zget l i.
Proof.
  unfold zget, bytes_put, zlen. intros.
  destruct (Z.ltb_spec i 0); [done|].
  destruct (decide (i < off)).
  - rewrite lookup_app_l by (rewrite length_take; lia). apply lookup_take_lt. lia.
  - rewrite lookup_app_r; rewrite length_take; [|lia].
    rewrite lookup_app_r by lia. rewrite lookup_drop. f_equal. lia.
Qed.

Lemma bytes_at_put_same l off bs :
  0 ≤ off → off + zlen bs ≤ zlen l →
  bytes_at (bytes_put l off bs) off (zlen bs) = Some bs.
Proof.
  intros. unfold bytes_at. rewrite bytes_put_len by lia. pose proof (zlen_nonneg bs).
  replace (_ && _ && _) with true by lia. f_equal.
  unfold bytes_put, zlen in *.
  rewrite drop_app_length' by (rewrite length_take; lia).
  apply take_app_length'. lia.
Qed.

Lemma bytes_at_ext l l' off n :
  zlen l = zlen l' → (∀ i, off ≤ i < off + n → zget l i = zget l' i) →
  bytes_at l off n = bytes_at l' off n.
Proof.
  intros Hlen Hext. unfold bytes_at. rewrite Hlen.
  destruct (_ && _) eqn:E; [|done]. f_equal. apply list_eq. intros i.
  destruct (decide (Z.of_nat i < n)).
  - rewrite !lookup_take_lt, !lookup_drop by lia.
    specialize (Hext (off + Z.of_nat i)). unfold zget in Hext.
    destruct (Z.ltb_spec (off + Z.of_nat i) 0); [lia|].
    replace (Z.to_nat off + i)%nat with (Z.to_nat (off + Z.of_nat i)) by lia.
    apply Hext. lia.
  - rewrite !lookup_take_ge by lia. done.
Qed.

Lemma bytes_at_put_disjoint l off bs off' n :
  0 ≤ off → off + zlen bs ≤ zlen l → off' + n ≤ off ∨ off + zlen bs ≤ off' →
  bytes_at (bytes_put l off bs) off' n = bytes_at l off' n.
Proof.
  intros. apply bytes_at_ext; [by apply bytes_put_len|].
  intros. apply bytes_put_lookup_out; lia.
Qed.

Lemma bytes_put_nil l off : bytes_put l off [] = l.
Proof. unfold bytes_put. simpl. rewrite Nat.add_0_r. apply take_drop. Qed.

Lemma bytes_put_cons l off b bs :
  0 ≤ off → off + 1 + zlen bs ≤ zlen l →
  bytes_put (zput l off b) (off + 1) bs = bytes_put l off (b :: bs).
Proof.
  intros. pose proof (zlen_nonneg bs).
  assert (Hc : zlen (b :: bs) = 1 + zlen bs) by (unfold zlen; simpl; lia).
  apply zget_ext. intros i Hi.
  destruct (decide (off + 1 ≤ i < off + 1 + zlen bs)).
  - rewrite !bytes_put_lookup_in by (rewrite ?zlen_zput; lia).
    change (b :: bs) with ([b] ++ bs). rewrite (zget_app_r [b] bs (i - off)) by (unfold zlen; simpl; lia).
    f_equal. unfold zlen. simpl. lia.
  - rewrite (bytes_put_lookup_out (zput l off b)) by (rewrite ?zlen_zput; lia).
    destruct (decide (i = off)) as [->|].
    + rewrite bytes_put_lookup_in, zget_zput_eq by lia. by rewrite Z.sub_diag.
    + rewrite bytes_put_lookup_out, zget_zput_ne by lia. done.
Qed.

Lemma bytes_put_app l off bs bs' :
  0 ≤ off → off + zlen bs + zlen bs' ≤ zlen l →
  bytes_put (bytes_put l off bs) (off + zlen bs) bs' = bytes_put l off (bs ++ bs').
Proof.
  intros. pose proof (zlen_nonneg bs). pose proof (zlen_nonneg bs'). apply zget_ext. intros i Hi.
  assert (zlen (bs ++ bs') = zlen bs + zlen bs') by apply zlen_app.
  assert (zlen (bytes_put l off bs) = zlen l) by (apply bytes_put_len; lia).
  destruct (decide (off + zlen bs ≤ i < off + zlen bs + zlen bs')).
  - rewrite !bytes_put_lookup_in, zget_app_r by lia. f_equal. lia.
  - rewrite (bytes_put_lookup_out (bytes_put l off bs)) by lia. destruct (decide (off ≤ i < off + zlen bs)).
    + rewrite !bytes_put_lookup_in, zget_app_l by lia. done.
    + rewrite !bytes_put_lookup_out by lia. done.
Qed.

Lemma bytes_put_snoc l off bs b :
  0 ≤ off → off + zlen bs < zlen l → zput (bytes_put l off bs) (off + zlen bs) b = bytes_put l off (bs ++ [b]).
Proof.
  intros. pose proof (zlen_nonneg bs). rewrite <- bytes_put_app by (try change (zlen [b]) with 1; lia).
  rewrite <- (bytes_put_cons _ _ b []), bytes_put_nil by (rewrite ?bytes_put_len; try change (zlen (@nil Z)) with 0; lia). done.
Qed.

Lemma bytes_at_put_prefix l off bs bs' :
  0 ≤ off → off + zlen (bs ++ bs') ≤ zlen l → bytes_at (bytes_put l off (bs ++ bs')) off (zlen bs) = Some bs.
Proof.
  intros Hoff Hl. rewrite zlen_app in Hl. pose proof (zlen_nonneg bs). pose proof (zlen_nonneg bs'). rewrite <- bytes_put_app by lia.
  rewrite bytes_at_put_disjoint; [apply bytes_at_put_same; lia|lia| |lia].
  rewrite bytes_put_len by lia. lia.
Qed.

(** ** Little-endian values, as the supported hosts store them *)

Fixpoint le_val (bs : list Z) : Z :=
  match bs with
  | [] => 0
  | b :: bs' => b + 256 * le_val bs'
  end.

Fixpoint le_bytes (n : nat) (z : Z) : list Z :=
  match n with
  | O => []
  | S n' => z mod 256 :: le_bytes n' (z / 256)
  end.

Definition is_byte (b : Z) : Prop := 0 ≤ b < 256.

Lemma le_bytes_len n z : zlen (le_bytes n z) = Z.of_nat n.
Proof. unfold zlen. revert z. induction n; intros; simpl; [done|]. rewrite Nat2Z.inj_succ, IHn. lia. Qed.

Lemma le_bytes_is_byte n z : Forall is_byte (le_bytes n z).
Proof.
  revert z. induction n; intros; simpl; constructor; [|done].
  unfold is_byte. apply Z.mod_pos_bound. lia.
Qed.

Lemma le_val_bytes n z : le_val (le_bytes n z) = z mod 2 ^ (8 * Z.of_nat n).
Proof.
  revert z. induction n as [|n IH]; intros z; simpl le_bytes; simpl le_val.
  - change (8 * Z.of_nat 0) with 0. by rewrite Z.pow_0_r, Z.mod_1_r.
  - rewrite IH. replace (2 ^ (8 * Z.of_nat (S n))) with (256 * 2 ^ (8 * Z.of_nat n)).
    + rewrite Z.rem_mul_r by lia. done.
    + replace (8 * Z.of_nat (S n)) with (8 + 8 * Z.of_nat n) by lia.
      rewrite Z.pow_add_r by lia. done.
Qed.

Lemma le_val_range bs : Forall is_byte bs → 0 ≤ le_val bs < 2 ^ (8 * zlen bs).
Proof.
  induction 1 as [|b bs Hb _ IH]; simpl; [done|]. unfold is_byte in Hb.
  replace (8 * zlen (b :: bs)) with (8 + 8 * zlen bs) by (unfold zlen; simpl; lia).
  rewrite Z.pow_add_r by (pose proof (zlen_nonneg bs); lia).
  change (2 ^ 8) with 256. lia.
Qed.

(** ** Invariants of a step relation *)

Lemma rtc_preserve {A} (R : relation A) (P : A → Prop) x y :
  (∀ a b, P a → R a b → P b) → rtc R x y → P x → P y.
Proof. intros Hp Hr. induction Hr; eauto. Qed.

(** ** Automation *)

Create HintDb athrill.
Create Rewrite HintDb athrill.
#[export] Hint Resolve zlen_nonneg wrap_in_width is_ok_ret le_bytes_is_byte : athrill.
#[export] Hint Rewrite @zlen_zput @zlen_app le_bytes_len : athrill.

(** Peel a chain of monadic binds equal to [Ok]. *)
Ltac inv_ok :=
  repeat match goal with
  | H : _ ≫= _ = Ok _ |- _ =>
      apply bind_ok in H; destruct H as (? & ? & H)
  | H : Ok _ = Ok _ |- _ => injection H as H
  | H : Fault _ = Ok _ |- _ => discriminate H
  | H : Ok _ = Fault _ |- _ => discriminate H
  | H : oob ?o = Ok _ |- _ =>
      let E := fresh "E" in destruct o eqn:E; simpl in H; [|discriminate H]
  | H : assert_c ?b = Ok _ |- _ =>
      let E := fresh "E" in destruct b eqn:E; simpl in H; [|discriminate H]
  end.

(** Split every [if] on a boolean in the goal, keeping the equation. *)
Ltac split_if :=
  match goal with
  | |- context [if ?b then _ else _] =>
      match type of b with bool => let E := fresh "E" in destruct b eqn:E end
  end.

Ltac split_if_in H :=
  match type of H with
  | context [if ?b then _ else _] =>
      match type of b with bool => let E := fresh "E" in destruct b eqn:E end
  end.

(** Linear arithmetic with division and remainder by constants. *)
Ltac zdiv := Z.div_mod_to_equations; lia.
