(* ===== verification/CommBuffer.v ===== *)
(** * Communication buffers ([src/src/lib/comm_buffer.c], [comm_buffer.h])

    The ring buffer that the serial devices and the UDP/TCP front ends share:
    [CommFifoBufferType] with its four counters and its heap block, every
    operation of the file, an abstract bounded queue, and the theorem that any
    sequence of operations on the ring behaves as the queue does. *)

From S2P Require Import Prelude.

Open Scope Z_scope.

(** [data] is [None] for a null pointer, else the block it points to. *)
Record CommFifoBufferType := mkFifo {
  max_size : Z;
  count : Z;
  rx_off : Z;
  tx_off : Z;
  data : option (list Z);
}.

Definition with_data (f : CommFifoBufferType) (d : option (list Z)) : CommFifoBufferType :=
  mkFifo (max_size f) (count f) (rx_off f) (tx_off f) d.

Definition COMM_FIFO_IS_EMPTY (f : CommFifoBufferType) : bool := count f =? 0.
Definition COMM_FIFO_IS_FULL (f : CommFifoBufferType) : bool := max_size f <=? count f.

(** [fifop] is the caller's structure ([None] for a null pointer); [mem] is what
    [malloc(size)] returned: [None], or a block of [size] bytes of any content. *)
Definition comm_fifo_buffer_create (mem : option (list Z)) (size : Z)
    (fifop : option CommFifoBufferType) : Std_ReturnType * option CommFifoBufferType :=
  match fifop with
  | None => (STD_E_INVALID, None)
  | Some f =>
      match mem with
      | None => (STD_E_LIMIT, Some (with_data f None))
      | Some d => (STD_E_OK, Some (mkFifo size 0 0 0 (Some d)))
      end
  end.

(** The heap block behind [data]; dereferencing a null pointer is a fault. *)
Definition fifo_block (f : CommFifoBufferType) : outcome (list Z) :=
  match data f with Some d => Ok d | None => Fault NullDeref end.

Definition fifo_buffer_add (f : CommFifoBufferType) (c : Z)
    : outcome (Std_ReturnType * CommFifoBufferType) :=
  if max_size f <=? count f then Ok (STD_E_LIMIT, f)
  else
    d ← fifo_block f;
    d' ← oob (zset d (tx_off f) c);
    let tx := u32 (tx_off f + 1) in
    let tx := if max_size f <=? tx then 0 else tx in
    Ok (STD_E_OK, mkFifo (max_size f) (u32 (count f + 1)) (rx_off f) tx (Some d')).

(** The loop of [comm_fifo_buffer_add]: [n] iterations left, [i] the index. *)
Fixpoint fifo_add_loop (n : nat) (i : Z) (datap : list Z) (f : CommFifoBufferType) (res : Z)
    : outcome (Std_ReturnType * CommFifoBufferType * Z) :=
  match n with
  | O => Ok (STD_E_OK, f, res)
  | S n' =>
      c ← oob (zget datap i);
      '(err, f') ← fifo_buffer_add f c;
      if std_ok err then fifo_add_loop n' (i + 1) datap f' (u32 (res + 1))
      else Ok (err, f', res)
  end.

Definition comm_fifo_buffer_add (f : CommFifoBufferType) (datap : list Z) (datalen : Z)
    : outcome (Std_ReturnType * CommFifoBufferType * Z) :=
  if max_size f <=? count f then Ok (STD_E_LIMIT, f, 0)
  else fifo_add_loop (Z.to_nat datalen) 0 datap f 0.

Definition fifo_buffer_get (f : CommFifoBufferType)
    : outcome (Std_ReturnType * CommFifoBufferType * option Z) :=
  if count f =? 0 then Ok (STD_E_NOENT, f, None)
  else
    d ← fifo_block f;
    c ← oob (zget d (rx_off f));
    let rx := u32 (rx_off f + 1) in
    let rx := if max_size f <=? rx then 0 else rx in
    Ok (STD_E_OK, mkFifo (max_size f) (u32 (count f - 1)) rx (tx_off f) (Some d), Some c).

(** The loop of [comm_fifo_buffer_get] writes into the caller's buffer [out]. *)
Fixpoint fifo_get_loop (n : nat) (i : Z) (f : CommFifoBufferType) (out : list Z) (res : Z)
    : outcome (Std_ReturnType * CommFifoBufferType * list Z * Z) :=
  match n with
  | O => Ok (STD_E_OK, f, out, res)
  | S n' =>
      '(err, f', c) ← fifo_buffer_get f;
      match c with
      | Some c => out' ← oob (zset out i c); fifo_get_loop n' (i + 1) f' out' (u32 (res + 1))
      | None => Ok (err, f', out, res)
      end
  end.

Definition comm_fifo_buffer_get (f : CommFifoBufferType) (out : list Z) (datalen : Z)
    : outcome (Std_ReturnType * CommFifoBufferType * list Z * Z) :=
  if count f =? 0 then Ok (STD_E_NOENT, f, out, 0)
  else fifo_get_loop (Z.to_nat datalen) 0 f out 0.

Definition comm_fifo_buffer_close (fifop : option CommFifoBufferType) : option CommFifoBufferType :=
  match fifop with
  | Some f => Some (mkFifo (max_size f) 0 0 0 (data f))
  | None => None
  end.

Definition comm_fifo_buffer_destroy (fifop : option CommFifoBufferType) : option CommFifoBufferType :=
  match fifop with
  | Some f => Some (mkFifo 0 0 0 0 None)
  | None => None
  end.

Record CommBufferType := mkCommBuffer { cb_max_size : Z; cb_data : option (list Z) }.

Definition comm_buffer_create (mem : option (list Z)) (size : Z) (bufferp : option CommBufferType)
    : Std_ReturnType * option CommBufferType :=
  match bufferp with
  | None => (STD_E_INVALID, None)
  | Some b =>
      match mem with
      | None => (STD_E_LIMIT, Some (mkCommBuffer (cb_max_size b) None))
      | Some d => (STD_E_OK, Some (mkCommBuffer size (Some d)))
      end
  end.

Definition comm_buffer_destroy (bufferp : option CommBufferType) : option CommBufferType :=
  match bufferp with
  | Some b => Some (mkCommBuffer 0 None)
  | None => None
  end.

(** ** Invariant and abstraction *)

Record fifo_wf (f : CommFifoBufferType) : Prop := {
  wf_max : 0 ≤ max_size f < 2 ^ 32;
  wf_data : ∃ d, data f = Some d ∧ zlen d = max_size f;
  wf_count : 0 ≤ count f ≤ max_size f;
  wf_rx : 0 < max_size f → 0 ≤ rx_off f < max_size f;
  wf_tx : 0 < max_size f → tx_off f = (rx_off f + count f) mod max_size f;
}.

Definition slot (m : Z) (d : list Z) (k : Z) : Z := default 0 (zget d (k mod m)).

(** The queued characters, oldest first. *)
Definition contents (f : CommFifoBufferType) : list Z :=
  match data f with
  | Some d => (λ k, slot (max_size f) d (rx_off f + k)) <$> seqZ 0 (count f)
  | None => []
  end.

(** ** The abstract bounded queue *)

Definition q_add (cap : Z) (q bs : list Z) : Std_ReturnType * list Z * Z :=
  let room := cap - zlen q in
  let n := Z.min room (zlen bs) in
  let err := if (room <=? 0) || (room <? zlen bs) then STD_E_LIMIT else STD_E_OK in
  (err, q ++ take (Z.to_nat n) bs, n).

Definition q_get (q : list Z) (n : Z) : Std_ReturnType * list Z * list Z :=
  let err := if (zlen q =? 0) || (zlen q <? n) then STD_E_NOENT else STD_E_OK in
  (err, take (Z.to_nat n) q, drop (Z.to_nat n) q).

(** ** Ring arithmetic *)

Lemma ring_next m i :
  0 < m < 2 ^ 32 → 0 ≤ i < m →
  (if m <=? u32 (i + 1) then 0 else u32 (i + 1)) = (i + 1) mod m.
Proof.
  intros. rewrite (wrap_id 32) by (unfold in_width; lia). destruct (Z.leb_spec m (i + 1)).
  - replace (i + 1) with m by lia. by rewrite Z.mod_same by lia.
  - by rewrite Z.mod_small by lia.
Qed.

Lemma ring_slot_ne m i c k :
  0 < m → 0 ≤ i < m → 0 ≤ k < c → c < m → (i + c) mod m ≠ (i + k) mod m.
Proof.
  intros Hm Hi Hk Hc E.
  assert (H : (c - k) mod m = 0).
  { replace (c - k) with ((i + c) - (i + k)) by lia.
    rewrite Zminus_mod, E, Z.sub_diag. by apply Z.mod_0_l; lia. }
  rewrite Z.mod_small in H by lia. lia.
Qed.

Lemma contents_len f : fifo_wf f → zlen (contents f) = count f.
Proof.
  intros [? (d & Hd & ?) ? ? ?]. unfold contents. rewrite Hd.
  unfold zlen. rewrite length_fmap, length_seqZ. lia.
Qed.

Lemma fifo_buffer_add_full f c :
  fifo_wf f → count f = max_size f → fifo_buffer_add f c = Ok (STD_E_LIMIT, f).
Proof. intros Hwf E. unfold fifo_buffer_add. by rewrite E, Z.leb_refl. Qed.

Lemma fifo_buffer_add_room f c :
  fifo_wf f → count f < max_size f →
  ∃ f', fifo_buffer_add f c = Ok (STD_E_OK, f') ∧ fifo_wf f' ∧
        max_size f' = max_size f ∧ contents f' = contents f ++ [c].
Proof.
  intros [Hm (d & Hd & Hl) Hc Hrx Htx] Hroom.
  specialize (Hrx ltac:(lia)). specialize (Htx ltac:(lia)).
  pose proof (Z.mod_pos_bound (rx_off f + count f) (max_size f) ltac:(lia)) as Hb.
  unfold fifo_buffer_add, fifo_block. rewrite Hd.
  replace (max_size f <=? count f) with false by lia. simpl.
  unfold zset. replace (_ && _) with true by lia. simpl.
  rewrite ring_next by lia. rewrite (wrap_id 32 (count f + 1)) by (unfold in_width; lia).
  eexists; split; [done|]. split_and!; [|done|].
  - split; simpl; [lia| |lia|lia|].
    + eexists; split; [done|]. change (<[_:=_]> d) with (zput d (tx_off f) c).
      by rewrite zlen_zput.
    + intros _. rewrite Htx, Zplus_mod_idemp_l. f_equal. lia.
  - unfold contents; simpl. rewrite Hd.
    change (<[_:=_]> d) with (zput d (tx_off f) c).
    rewrite seqZ_snoc by lia. rewrite fmap_app. simpl. f_equal.
    + apply list_fmap_ext. intros i k Hk%lookup_seqZ. unfold slot.
      rewrite zget_zput_ne; [done|lia|]. rewrite Htx. apply ring_slot_ne; lia.
    + f_equal. unfold slot. rewrite Z.add_0_l, <- Htx.
      by rewrite zget_zput_eq by lia.
Qed.

Lemma fifo_buffer_get_room f :
  fifo_wf f → 0 < count f →
  ∃ f' c, fifo_buffer_get f = Ok (STD_E_OK, f', Some c) ∧ fifo_wf f' ∧
        max_size f' = max_size f ∧ contents f = c :: contents f'.
Proof.
  intros [Hm (d & Hd & Hl) Hc Hrx Htx] Hpos.
  specialize (Hrx ltac:(lia)). specialize (Htx ltac:(lia)).
  destruct (zget_is_Some d (rx_off f)) as [c Hget]; [lia|].
  unfold fifo_buffer_get, fifo_block. rewrite Hd.
  replace (count f =? 0) with false by lia. simpl. rewrite Hget. simpl.
  rewrite ring_next by lia. rewrite (wrap_id 32 (count f - 1)) by (unfold in_width; lia).
  eexists _, c; split; [done|]. split_and!; [|done|].
  - split; simpl; [lia|eauto|lia| |].
    + intros _. apply Z.mod_pos_bound. lia.
    + intros _. rewrite Htx, Zplus_mod_idemp_l. f_equal. lia.
  - unfold contents; simpl. rewrite Hd. rewrite seqZ_cons by lia. simpl. f_equal.
    + unfold slot. rewrite Z.add_0_r, Z.mod_small by lia. by rewrite Hget.
    + replace (Z.pred (count f)) with (count f - 1) by lia.
      replace (Z.succ 0) with (1 + 0) by lia. rewrite <- fmap_add_seqZ, <- list_fmap_compose.
      apply list_fmap_ext. intros i k _. unfold slot; simpl.
      rewrite Zplus_mod_idemp_l. do 3 f_equal. lia.
Qed.

(** ** The loops *)

Lemma drop_S_zget (l : list Z) i c :
  0 ≤ i → zget l i = Some c → drop (Z.to_nat i) l = c :: drop (Z.to_nat (i + 1)) l.
Proof.
  intros Hi. unfold zget. destruct (Z.ltb_spec i 0); [lia|]. intros Hl.
  replace (Z.to_nat (i + 1)) with (S (Z.to_nat i)) by lia. by apply drop_S.
Qed.

Lemma fifo_add_loop_spec n : ∀ i datap f res,
  fifo_wf f → 0 ≤ i → i + Z.of_nat n ≤ zlen datap → 0 ≤ res → res + Z.of_nat n < 2 ^ 32 →
  let k := Z.min (max_size f - count f) (Z.of_nat n) in
  ∃ f', fifo_add_loop n i datap f res =
          Ok (if max_size f - count f <? Z.of_nat n then STD_E_LIMIT else STD_E_OK, f', res + k) ∧
        fifo_wf f' ∧ max_size f' = max_size f ∧
        contents f' = contents f ++ take (Z.to_nat k) (drop (Z.to_nat i) datap).
Proof.
  induction n as [|n IH]; intros i datap f res Hwf Hi Hlen Hr Hres k.
  - pose proof (wf_count f Hwf). exists f. simpl.
    replace (max_size f - count f <? Z.of_nat 0) with false by lia.
    replace k with 0 by lia. rewrite Z.add_0_r, app_nil_r. done.
  - pose proof (wf_count f Hwf) as Hc. simpl fifo_add_loop.
    destruct (zget_is_Some datap i) as [c Hget]; [lia|]. rewrite Hget. simpl.
    destruct (decide (count f = max_size f)) as [E|E].
    + rewrite fifo_buffer_add_full by done. simpl. exists f.
      replace (max_size f - count f <? Z.of_nat (S n)) with true by lia.
      replace k with 0 by lia. rewrite Z.add_0_r, app_nil_r. done.
    + destruct (fifo_buffer_add_room f c) as (f1 & -> & Hwf1 & Hmax1 & Hcont1); [done|lia|].
      simpl. rewrite (wrap_id 32) by (unfold in_width; lia).
      assert (Hcnt : count f1 = count f + 1).
      { rewrite <- !contents_len, Hcont1 by done. autorewrite with athrill. done. }
      destruct (IH (i + 1) datap f1 (res + 1)) as (f2 & -> & Hwf2 & Hmax2 & Hcont2);
        [done|lia..|]. exists f2. rewrite Hmax1, Hcnt in *. split_and!; [|done|lia|].
      * do 2 f_equal; [f_equal|unfold k; lia]. repeat split_if; first [done | lia].
      * rewrite Hcont2, Hcont1, <- app_assoc. f_equal. rewrite (drop_S_zget datap i c) by done.
        replace (Z.to_nat k) with (S (Z.to_nat (Z.min (max_size f - (count f + 1)) (Z.of_nat n)))) by lia.
        done.
Qed.

Lemma fifo_get_loop_spec n : ∀ i f out res,
  fifo_wf f → 0 ≤ i → i + Z.of_nat n ≤ zlen out → 0 ≤ res → res + Z.of_nat n < 2 ^ 32 →
  let k := Z.min (count f) (Z.of_nat n) in
  ∃ f', fifo_get_loop n i f out res =
          Ok (if count f <? Z.of_nat n then STD_E_NOENT else STD_E_OK, f',
              bytes_put out i (take (Z.to_nat k) (contents f)), res + k) ∧
        fifo_wf f' ∧ max_size f' = max_size f ∧ contents f' = drop (Z.to_nat k) (contents f).
Proof.
  induction n as [|n IH]; intros i f out res Hwf Hi Hlen Hr Hres k.
  - pose proof (wf_count f Hwf). exists f. simpl.
    replace (count f <? Z.of_nat 0) with false by lia.
    replace k with 0 by lia. simpl. by rewrite Z.add_0_r, bytes_put_nil.
  - pose proof (wf_count f Hwf) as Hc. simpl fifo_get_loop.
    destruct (decide (count f = 0)) as [E|E].
    + unfold fifo_buffer_get. rewrite E. simpl. exists f.
      replace k with 0 by lia. simpl. by rewrite Z.add_0_r, bytes_put_nil.
    + destruct (fifo_buffer_get_room f) as (f1 & c & -> & Hwf1 & Hmax1 & Hcont1); [done|lia|].
      simpl. unfold zset. replace (_ && _) with true by lia. simpl.
      rewrite (wrap_id 32) by (unfold in_width; lia).
      assert (Hcnt : count f = count f1 + 1).
      { rewrite <- !contents_len, Hcont1 by done. unfold zlen. simpl. lia. }
      destruct (IH (i + 1) f1 (zput out i c) (res + 1)) as (f2 & Hrun & Hwf2 & Hmax2 & Hcont2);
        [done|autorewrite with athrill; lia..|]. unfold zput in Hrun. rewrite Hrun.
      exists f2. split_and!; [|done|lia|].
      * do 2 f_equal; [|unfold k; lia]. f_equal.
        -- f_equal. repeat split_if; first [done | lia].
        -- rewrite Hcont1.
           replace (Z.to_nat k) with (S (Z.to_nat (Z.min (count f1) (Z.of_nat n)))) by lia.
           simpl take. unfold zput. rewrite <- bytes_put_cons; [done|lia|].
           unfold zlen in *. rewrite length_take. lia.
      * rewrite Hcont2, Hcont1.
        replace (Z.to_nat k) with (S (Z.to_nat (Z.min (count f1) (Z.of_nat n)))) by lia. done.
Qed.

(** ** Functional behaviour *)

Theorem comm_fifo_buffer_create_spec d size f :
  zlen d = size → 0 ≤ size < 2 ^ 32 →
  ∃ f', comm_fifo_buffer_create (Some d) size (Some f) = (STD_E_OK, Some f') ∧
        fifo_wf f' ∧ max_size f' = size ∧ contents f' = [].
Proof.
  intros. eexists; split; [done|]. split_and!; [|done|done].
  split; simpl; [lia|eauto|lia|lia|]. intros. by rewrite Z.mod_0_l by lia.
Qed.

Lemma comm_fifo_buffer_add_spec f bs :
  fifo_wf f → zlen bs < 2 ^ 32 →
  ∃ err f' res, comm_fifo_buffer_add f bs (zlen bs) = Ok (err, f', res) ∧
    fifo_wf f' ∧ max_size f' = max_size f ∧
    (err, contents f', res) = q_add (max_size f) (contents f) bs.
Proof.
  intros Hwf Hbs. pose proof (wf_count f Hwf) as Hc. pose proof (zlen_nonneg bs).
  unfold comm_fifo_buffer_add, q_add. rewrite contents_len by done.
  destruct (Z.leb_spec (max_size f) (count f)).
  - exists STD_E_LIMIT, f, 0. split_and!; [done..|].
    replace (_ || _) with true by lia. rewrite Z.min_l by lia.
    replace (Z.to_nat (max_size f - count f)) with O by lia. simpl.
    rewrite app_nil_r. do 2 f_equal. lia.
  - destruct (fifo_add_loop_spec (Z.to_nat (zlen bs)) 0 bs f 0) as (f' & -> & Hwf' & Hm & Hcont);
      [done|lia..|]. eexists _, f', _. split; [done|]. split_and!; [done..|].
    rewrite Hcont, Z2Nat.id, drop_0 by lia. do 2 f_equal. repeat split_if; first [done|lia].
Qed.

Lemma comm_fifo_buffer_get_spec f out n :
  fifo_wf f → 0 ≤ n → n = zlen out → n < 2 ^ 32 →
  ∃ err f' out' res, comm_fifo_buffer_get f out n = Ok (err, f', out', res) ∧
    fifo_wf f' ∧ max_size f' = max_size f ∧ zlen out' = n ∧
    (err, take (Z.to_nat res) out', contents f') = q_get (contents f) n.
Proof.
  intros Hwf Hn -> Hlt. pose proof (wf_count f Hwf) as Hc.
  unfold comm_fifo_buffer_get, q_get. rewrite contents_len by done.
  destruct (Z.eqb_spec (count f) 0) as [E|E]; simpl.
  - exists STD_E_NOENT, f, out, 0. split_and!; [done..|].
    assert (contents f = []) as ->; [|by rewrite take_nil, drop_nil].
    apply length_zero_iff_nil. pose proof (contents_len f Hwf). unfold zlen in *. lia.
  - destruct (fifo_get_loop_spec (Z.to_nat (zlen out)) 0 f out 0) as (f' & -> & Hwf' & Hm & Hcont);
      [done|lia..|]. rewrite Z2Nat.id in * by lia.
    pose proof (contents_len f Hwf) as Hlc. unfold zlen in Hlc.
    eexists _, f', _, _. split; [done|]. split_and!; [done..| |].
    + rewrite bytes_put_len; [done|lia|]. unfold zlen in *. rewrite length_take. lia.
    + rewrite Hcont. simpl. unfold bytes_put. simpl.
      assert (∀ (q : list Z), Z.of_nat (length q) = count f →
        take (Z.to_nat (Z.min (count f) (zlen out))) q = take (Z.to_nat (zlen out)) q ∧
        drop (Z.to_nat (Z.min (count f) (zlen out))) q = drop (Z.to_nat (zlen out)) q) as Hmin.
      { intros q Hq. destruct (decide (count f ≤ zlen out)).
        - rewrite !take_ge, !drop_ge by lia. done.
        - by rewrite Z.min_r by lia. }
      destruct (Hmin _ Hlc) as [Ht ->]. rewrite Ht.
      rewrite take_app_length' by (rewrite length_take; lia). done.
Qed.

(** ** Refinement: the ring is a bounded queue under every sequence of calls *)

Inductive fifo_op :=
  | OpAdd (bs : list Z)
  | OpGet (n : Z)
  | OpClose.

Inductive fifo_out :=
  | OutAdd (err : Std_ReturnType) (res : Z)
  | OutGet (err : Std_ReturnType) (bs : list Z)
  | OutClose.

(** The calls of [comm_buffer.c], with a caller's buffer of [n] bytes for a get. *)
Definition fifo_step (f : CommFifoBufferType) (o : fifo_op)
    : outcome (fifo_out * CommFifoBufferType) :=
  match o with
  | OpAdd bs =>
      '(err, f', res) ← comm_fifo_buffer_add f bs (zlen bs);
      Ok (OutAdd err res, f')
  | OpGet n =>
      '(err, f', out, res) ← comm_fifo_buffer_get f (replicate (Z.to_nat n) 0) n;
      Ok (OutGet err (take (Z.to_nat res) out), f')
  | OpClose => Ok (OutClose, default f (comm_fifo_buffer_close (Some f)))
  end.

Definition queue_step (cap : Z) (q : list Z) (o : fifo_op) : fifo_out * list Z :=
  match o with
  | OpAdd bs => let '(err, q', res) := q_add cap q bs in (OutAdd err res, q')
  | OpGet n => let '(err, out, q') := q_get q n in (OutGet err out, q')
  | OpClose => (OutClose, [])
  end.

Fixpoint fifo_run (ops : list fifo_op) (f : CommFifoBufferType)
    : outcome (list fifo_out * CommFifoBufferType) :=
  match ops with
  | [] => Ok ([], f)
  | o :: ops' =>
      '(out, f') ← fifo_step f o;
      '(outs, f'') ← fifo_run ops' f';
      Ok (out :: outs, f'')
  end.

Fixpoint queue_run (cap : Z) (ops : list fifo_op) (q : list Z) : list fifo_out * list Z :=
  match ops with
  | [] => ([], q)
  | o :: ops' =>
      let '(out, q') := queue_step cap q o in
      let '(outs, q'') := queue_run cap ops' q' in (out :: outs, q'')
  end.

(** Lengths are [uint32] arguments. *)
Definition op_sized (o : fifo_op) : Prop :=
  match o with
  | OpAdd bs => zlen bs < 2 ^ 32
  | OpGet n => 0 ≤ n < 2 ^ 32
  | OpClose => True
  end.

Lemma fifo_step_refines f o :
  fifo_wf f → op_sized o →
  ∃ out f', fifo_step f o = Ok (out, f') ∧ fifo_wf f' ∧ max_size f' = max_size f ∧
            (out, contents f') = queue_step (max_size f) (contents f) o.
Proof.
  intros Hwf Ho. destruct o as [bs|n|]; cbn [fifo_step queue_step op_sized] in *.
  - destruct (comm_fifo_buffer_add_spec f bs) as (err & f' & res & -> & ? & ? & <-); [done..|].
    by eexists _, _.
  - destruct (comm_fifo_buffer_get_spec f (replicate (Z.to_nat n) 0) n)
      as (err & f' & out & res & -> & ? & ? & ? & <-); [done|lia| |lia|by eexists _, _].
    unfold zlen. rewrite length_replicate. lia.
  - eexists _, _. split; [done|]. destruct Hwf as [? (d & Hd & ?) ? ? ?].
    split_and!; [|done|].
    + split; simpl; [lia|eauto|lia|lia|]. intros. by rewrite Z.mod_0_l by lia.
    + unfold contents. simpl. by rewrite Hd.
Qed.

Lemma fifo_run_refines ops : ∀ f,
  fifo_wf f → Forall op_sized ops →
  ∃ outs f', fifo_run ops f = Ok (outs, f') ∧ fifo_wf f' ∧ max_size f' = max_size f ∧
             (outs, contents f') = queue_run (max_size f) ops (contents f).
Proof.
  induction ops as [|o ops IH]; intros f Hwf Hops; simpl; [by eexists _, _|].
  apply Forall_cons_iff in Hops as [Ho Hops].
  destruct (fifo_step_refines f o) as (out & f1 & -> & Hwf1 & Hm1 & Hs); [done..|].
  destruct (IH f1) as (outs & f2 & Hr & Hwf2 & Hm2 & Hq); [done..|]. simpl. rewrite Hr.
  eexists _, f2. split; [done|]. split_and!; [done|congruence|].
  by rewrite <- Hs, <- Hm1, <- Hq.
Qed.

(** C12: a ring buffer made by [comm_fifo_buffer_create] answers every sequence of
    [comm_fifo_buffer_add], [comm_fifo_buffer_get] and [comm_fifo_buffer_close]
    calls exactly as a bounded FIFO queue of the same capacity does: the same
    return codes, the same transfer counts and the same bytes in the same order,
    and no call reads or writes outside the block. *)
Theorem comm_fifo_refines_queue (d : list Z) (size : Z) (f0 : CommFifoBufferType) (ops : list fifo_op)
    (Hd : zlen d = size) (Hsize : 0 ≤ size < 2 ^ 32) (Hops : Forall op_sized ops) :
  ∃ f outs f',
    comm_fifo_buffer_create (Some d) size (Some f0) = (STD_E_OK, Some f) ∧
    fifo_run ops f = Ok (outs, f') ∧
    queue_run size ops [] = (outs, contents f').
Proof.
  destruct (comm_fifo_buffer_create_spec d size f0) as (f & Hc & Hwf & Hm & Hcont); [done..|].
  destruct (fifo_run_refines ops f) as (outs & f' & Hr & _ & _ & Hq); [done..|].
  exists f, outs, f'. by rewrite Hq, Hm, Hcont.
Qed.

Definition fifo_demo_ops : list fifo_op :=
  [OpAdd [1; 2; 3]; OpGet 2; OpAdd [4; 5]; OpAdd [6]; OpGet 9; OpGet 1; OpClose; OpAdd [7]].

Lemma comm_fifo_refines_queue_witness :
  ∃ f outs f',
    comm_fifo_buffer_create (Some [0; 0; 0]) 3 (Some (mkFifo 0 0 0 0 None)) = (STD_E_OK, Some f) ∧
    fifo_run fifo_demo_ops f = Ok (outs, f') ∧
    queue_run 3 fifo_demo_ops [] = (outs, contents f').
Proof.
  apply (comm_fifo_refines_queue [0; 0; 0] 3 (mkFifo 0 0 0 0 None) fifo_demo_ops).
  - reflexivity.
  - lia.
  - repeat constructor; simpl; try lia.
Defined.
