(* ===== verification/Mpu.v ===== *)
(** * The memory protection unit ([src/src/device/mpu/mpu.c], [mpu.h], [mpu_types.h], [mpu_ops.h])

    Every guest access goes through here.  The unit keeps a table of dynamic
    regions (ROM, RAM, MMAP, MALLOC and external devices, added while a program
    is loaded) and the target's static table.  An access is resolved to the
    first region that contains it and is then carried out by the region's
    operations on its host buffer.

    The state is [mpu_state]: the two tables, the host buffers (a finite map
    from block identifiers, so that two regions can share a buffer), the state
    of the external devices, and the index each of the two search routines
    remembers.  Operations of external devices and the CPU's permission check
    are parameters ([MpuConfig]). *)

From S2P Require Import Prelude.
From stdpp Require Import gmap.
Open Scope Z_scope.

Inductive MpuAddressRegionEnumType :=
  | READONLY_MEMORY
  | GLOBAL_MEMORY
  | LOCAL_MEMORY
  | PRIVATE_MEMORY
  | DEVICE
  | REGION_UNKNOWN.

#[export] Instance region_type_eq_dec : EqDecision MpuAddressRegionEnumType.
Proof. solve_decision. Defined.

Inductive MpuAddressGetType :=
  | MpuAddressGetType_ROM
  | MpuAddressGetType_RAM
  | MpuAddressGetType_MMAP
  | MpuAddressGetType_MALLOC.

#[export] Instance get_type_eq_dec : EqDecision MpuAddressGetType.
Proof. solve_decision. Defined.

Inductive CpuMemoryAccessType := CpuMemoryAccess_READ | CpuMemoryAccess_WRITE.

(** A region's operation table is a pointer; only its identity matters to the
    unit: the built-in table, or the table of an external device. *)
Inductive mpu_ops :=
  | default_memory_operation
  | external_operation (n : nat).

#[export] Instance mpu_ops_eq_dec : EqDecision mpu_ops.
Proof. solve_decision. Defined.

(** [r_data] is the block identifier of the host buffer, [None] for a null pointer. *)
Record MpuAddressRegionType := mkRegion {
  r_type : MpuAddressRegionEnumType;
  r_is_malloc : bool;
  r_permission : Z;
  r_start : Z;
  r_size : Z;
  r_mask : Z;
  r_data : option nat;
  r_ops : mpu_ops;
}.

Definition MPU_ADDRESS_REGION_PERM_ALL : Z := 0xFFFFFFFF.

(** Access widths of the get/put families: 8, 16 and 32 bits. *)
Inductive access_width := W8 | W16 | W32.
Definition nbytes (w : access_width) : Z := match w with W8 => 1 | W16 => 2 | W32 => 4 end.
Definition nbits (w : access_width) : Z := 8 * nbytes w.

(** The host buffers. *)
Abbreviation host_mem := (gmap nat (list Z)).

(** The operation table of an external device; a null function pointer is [None].
    [D] is the devices' own state. *)
Record MpuAddressRegionOperationType (D : Type) := mkOps {
  op_get : access_width →
    option (MpuAddressRegionType → Z → Z → Z → host_mem * D → outcome (Std_ReturnType * Z * (host_mem * D)));
  op_put : access_width →
    option (MpuAddressRegionType → Z → Z → Z → host_mem * D → outcome (Std_ReturnType * (host_mem * D)));
  op_get_pointer :
    option (MpuAddressRegionType → Z → Z → host_mem * D → outcome (Std_ReturnType * option (nat * Z)));
}.
Arguments op_get {D} _ _.
Arguments op_put {D} _ _.
Arguments op_get_pointer {D} _.

(** What the target and the build options provide. *)
Class MpuConfig (D : Type) := {
  mpu_addr_width :: AddrWidth;
  SEARCH_REGION_OPTIMIZE : bool;
  CPU_HAS_PERMISSION : Z → MpuAddressRegionEnumType → CpuMemoryAccessType → Z → Z → bool;
  external_ops : nat → MpuAddressRegionOperationType D;
}.

(** A pointer into the dynamic table: the table is one heap array that every
    added region reallocates, so a pointer is good only while the table it was
    taken from lives ([map_gen] counts the reallocations). *)
Abbreviation region_ref := (nat * Z)%type.

(** What an external-device library exports ([AthrillExDeviceType]): which
    functions it has, its operation table and its buffer, if any. *)
Record AthrillExDeviceType := mkExDev {
  e_devinit : bool;
  e_supply_clock : bool;
  e_ops : option mpu_ops;
  e_datap : option nat;
}.

Record mpu_state (D : Type) := mkMpu {
  dynamic_map : list MpuAddressRegionType;
  map_gen : nat;
  static_map : list MpuAddressRegionType;
  host : host_mem;
  next_block : nat;
  devices : D;
  previous_index_w : Z;
  previous_index_r : Z;
  exdevs : list (AthrillExDeviceType * region_ref);
}.
Arguments mkMpu {D} _ _ _ _ _ _ _ _ _.
Arguments map_gen {D} _.
Arguments exdevs {D} _.
Arguments dynamic_map {D} _.
Arguments static_map {D} _.
Arguments host {D} _.
Arguments next_block {D} _.
Arguments devices {D} _.
Arguments previous_index_w {D} _.
Arguments previous_index_r {D} _.

Definition with_host {D} (s : mpu_state D) (h : host_mem) (d : D) : mpu_state D :=
  mkMpu (dynamic_map s) (map_gen s) (static_map s) h (next_block s) d
    (previous_index_w s) (previous_index_r s) (exdevs s).
Definition with_previous_w {D} (s : mpu_state D) (i : Z) : mpu_state D :=
  mkMpu (dynamic_map s) (map_gen s) (static_map s) (host s) (next_block s) (devices s)
    i (previous_index_r s) (exdevs s).
Definition with_previous_r {D} (s : mpu_state D) (i : Z) : mpu_state D :=
  mkMpu (dynamic_map s) (map_gen s) (static_map s) (host s) (next_block s) (devices s)
    (previous_index_w s) i (exdevs s).
Definition with_map {D} (s : mpu_state D) (l : list MpuAddressRegionType) (g : nat) : mpu_state D :=
  mkMpu l g (static_map s) (host s) (next_block s) (devices s)
    (previous_index_w s) (previous_index_r s) (exdevs s).
(** A new host buffer. *)
Definition alloc_block {D} (s : mpu_state D) (blk : list Z) : nat * mpu_state D :=
  (next_block s,
   mkMpu (dynamic_map s) (map_gen s) (static_map s) (<[next_block s := blk]> (host s))
     (S (next_block s)) (devices s) (previous_index_w s) (previous_index_r s) (exdevs s)).
Definition add_exdev {D} (s : mpu_state D) (e : AthrillExDeviceType * region_ref) : mpu_state D :=
  mkMpu (dynamic_map s) (map_gen s) (static_map s) (host s) (next_block s) (devices s)
    (previous_index_w s) (previous_index_r s) (exdevs s ++ [e]).

Section mpu.
Context {D : Type} `{MpuConfig D}.
Implicit Types (r : MpuAddressRegionType) (s : mpu_state D).

(** ** Region searches *)

Definition region_covers r (addr search_size : Z) : bool :=
  let start := r_start r in
  let end_ := uaddr (start + r_size r) in
  let paddr_str := Z.land addr (r_mask r) in
  let paddr_end := uaddr (paddr_str + search_size) in
  ((start <=? paddr_str) && (paddr_str <? end_)) &&
  ((start <? paddr_end) && (paddr_end <=? end_)).

Definition previous_region_covers (previous : Z) (addr search_size : Z) s
    : option MpuAddressRegionType :=
  if (previous <? 0) || (zlen (dynamic_map s) <=? previous) then None
  else
    match zget (dynamic_map s) previous with
    | Some r =>
        match r_data r with
        | None => None
        | Some _ => if region_covers r addr search_size then Some r else None
        end
    | None => None
    end.

(** First region of a table that contains the access, with its index. *)
Fixpoint first_covering (i : Z) (l : list MpuAddressRegionType) (addr search_size : Z)
    : option (Z * MpuAddressRegionType) :=
  match l with
  | [] => None
  | r :: l' =>
      if region_covers r addr search_size then Some (i, r)
      else first_covering (i + 1) l' addr search_size
  end.

(** The two loops shared by [search_region] and [search_region_r]; the second
    component is the new remembered index, if the search sets it. *)
Definition search_tables (addr search_size : Z) s : option MpuAddressRegionType * option Z :=
  match first_covering 0 (dynamic_map s) addr search_size with
  | Some (i, r) =>
      match r_data r with
      | None => (None, None)
      | Some _ => (Some r, Some i)
      end
  | None =>
      match first_covering 0 (static_map s) addr search_size with
      | Some (_, r) => (Some r, None)
      | None => (None, None)
      end
  end.

Definition search_with (previous : Z) (addr search_size : Z) s
    : option MpuAddressRegionType * Z :=
  if SEARCH_REGION_OPTIMIZE then
    match previous_region_covers previous addr search_size s with
    | Some r => (Some r, previous)
    | None =>
        let '(found, set) := search_tables addr search_size s in
        (found, default previous set)
    end
  else (fst (search_tables addr search_size s), previous).

Definition search_region (core_id addr search_size : Z) s
    : option MpuAddressRegionType * mpu_state D :=
  let '(found, p) := search_with (previous_index_w s) addr search_size s in
  (found, with_previous_w s p).

Definition search_region_r (core_id addr search_size : Z) s
    : option MpuAddressRegionType * mpu_state D :=
  if SEARCH_REGION_OPTIMIZE then
    let '(found, p) := search_with (previous_index_r s) addr search_size s in
    (found, with_previous_r s p)
  else search_region core_id addr search_size s.

Definition mpu_address_search_region (addr size : Z) s : option (Z * MpuAddressRegionType) :=
  first_covering 0 (dynamic_map s) addr size.

Definition mpu_address_get_rom (addr size : Z) s : option nat :=
  match mpu_address_search_region addr size s with
  | Some (_, r) => if decide (r_type r = READONLY_MEMORY) then r_data r else None
  | None => None
  end.

Definition mpu_address_get_ram (addr size : Z) s : option nat :=
  match mpu_address_search_region addr size s with
  | Some (_, r) => if decide (r_type r = GLOBAL_MEMORY) then r_data r else None
  | None => None
  end.

(** ** Adding regions *)

(** Append one region: [realloc] makes a new table. *)
Definition push_region s r : mpu_state D :=
  with_map s (dynamic_map s ++ [r]) (S (map_gen s)).

(** [mem] is what [malloc] or [calloc] returned ([None] for null): a block of
    [size] bytes, of any content for [malloc]; [mmap_addr] is the mapped file. *)
Definition mpu_address_set_rom_ram (getType : MpuAddressGetType) (addr size : Z)
    (mmap_addr : option nat) (mem : option (list Z)) s : outcome (option nat * mpu_state D) :=
  match mpu_address_search_region addr size s with
  | Some (_, r) => Ok (r_data r, s)
  | None =>
      let region ty mal d :=
        mkRegion ty mal MPU_ADDRESS_REGION_PERM_ALL addr size ATHRILL_ADDR_MAX d
          default_memory_operation in
      match getType with
      | MpuAddressGetType_ROM =>
          match mem with
          | None => Fault AssertFail
          | Some blk =>
              let '(b, s') := alloc_block s blk in
              Ok (Some b, push_region s' (region READONLY_MEMORY false (Some b)))
          end
      | MpuAddressGetType_RAM =>
          match mem with
          | None => Fault AssertFail
          | Some blk =>
              let '(b, s') := alloc_block s (replicate (length blk) 0) in
              Ok (Some b, push_region s' (region GLOBAL_MEMORY false (Some b)))
          end
      | MpuAddressGetType_MMAP =>
          match mmap_addr with
          | None => Fault AssertFail
          | Some b => Ok (Some b, push_region s (region GLOBAL_MEMORY false (Some b)))
          end
      | MpuAddressGetType_MALLOC =>
          Ok (None, push_region s (region GLOBAL_MEMORY true None))
      end
  end.

(** [exdev] is the library's [athrill_ex_device] symbol; [None] if it has none. *)
Definition mpu_address_set_dev (addr size : Z) (exdev : option AthrillExDeviceType)
    (mem : option (list Z)) s : outcome (option nat * mpu_state D) :=
  match mpu_address_search_region addr size s with
  | Some _ => Ok (None, s)
  | None =>
      match exdev with
      | None => Ok (None, s)
      | Some e =>
          if negb (e_devinit e) then Ok (None, s)
          else if negb (e_supply_clock e) then Ok (None, s)
          else
            let ops := default default_memory_operation (e_ops e) in
            '(datap, s) ←
              match e_datap e with
              | Some b => Ok (b, s)
              | None =>
                  match mem with
                  | None => Fault AssertFail
                  | Some blk => Ok (alloc_block s (replicate (length blk) 0))
                  end
              end;
            let s := push_region s
              (mkRegion DEVICE false MPU_ADDRESS_REGION_PERM_ALL addr size ATHRILL_ADDR_MAX
                 (Some datap) ops) in
            let e' := mkExDev (e_devinit e) (e_supply_clock e) (Some ops) (Some datap) in
            Ok (Some datap,
                add_exdev s (e', (map_gen s, zlen (dynamic_map s) - 1)))
      end
  end.

(** The region type at an address; the size of the access is not considered. *)
Definition region_contains r (addr : Z) : bool :=
  let end_ := uaddr (r_start r + r_size r) in
  let paddr_str := Z.land addr (r_mask r) in
  (r_start r <=? paddr_str) && (paddr_str <? end_).

Fixpoint first_containing (l : list MpuAddressRegionType) (addr : Z)
    : option MpuAddressRegionType :=
  match l with
  | [] => None
  | r :: l' => if region_contains r addr then Some r else first_containing l' addr
  end.

(** The second component is what [*is_malloc] is set to, if it is. *)
Definition mpu_address_region_type_get (addr : Z) s : MpuAddressRegionEnumType * option bool :=
  match first_containing (dynamic_map s) addr with
  | Some r => (r_type r, Some (r_is_malloc r))
  | None =>
      match first_containing (static_map s) addr with
      | Some r => (r_type r, Some false)
      | None => (REGION_UNKNOWN, None)
      end
  end.

(** ** The built-in memory operations *)

Definition region_block r (h : host_mem) : outcome (nat * list Z) :=
  match r_data r with
  | None => Fault NullDeref
  | Some b => match h !! b with Some blk => Ok (b, blk) | None => Fault OutOfBounds end
  end.

Definition memory_get_data (w : access_width) r (core_id addr : Z) (h : host_mem)
    : outcome (Std_ReturnType * Z) :=
  let off := uaddr (addr - r_start r) in
  '(_, blk) ← region_block r h;
  bs ← oob (bytes_at blk off (nbytes w));
  Ok (STD_E_OK, le_val bs).

Definition memory_put_data (w : access_width) r (core_id addr data : Z) (h : host_mem)
    : outcome (Std_ReturnType * host_mem) :=
  let off := uaddr (addr - r_start r) in
  '(b, blk) ← region_block r h;
  blk' ← oob (bytes_set blk off (le_bytes (Z.to_nat (nbytes w)) data));
  Ok (STD_E_OK, <[b := blk']> h).

(** The host pointer [&data[off]]: forming it past the block's end is not defined. *)
Definition memory_get_pointer r (core_id addr : Z) (h : host_mem)
    : outcome (Std_ReturnType * option (nat * Z)) :=
  let off := uaddr (addr - r_start r) in
  '(b, blk) ← region_block r h;
  if off <=? zlen blk then Ok (STD_E_OK, Some (b, off)) else Fault OutOfBounds.

Definition memory_get_data8 := memory_get_data W8.
Definition memory_get_data16 := memory_get_data W16.
Definition memory_get_data32 := memory_get_data W32.
Definition memory_put_data8 := memory_put_data W8.
Definition memory_put_data16 := memory_put_data W16.
Definition memory_put_data32 := memory_put_data W32.

(** The table [default_memory_operation]. *)
Definition default_ops : MpuAddressRegionOperationType D := {|
  op_get w := Some (λ r core_id addr _ hd,
    '(e, v) ← match w with
              | W8 => memory_get_data8 r core_id addr hd.1
              | W16 => memory_get_data16 r core_id addr hd.1
              | W32 => memory_get_data32 r core_id addr hd.1
              end;
    Ok (e, v, hd));
  op_put w := Some (λ r core_id addr data hd,
    '(e, h) ← match w with
              | W8 => memory_put_data8 r core_id addr data hd.1
              | W16 => memory_put_data16 r core_id addr data hd.1
              | W32 => memory_put_data32 r core_id addr data hd.1
              end;
    Ok (e, (h, hd.2)));
  op_get_pointer := Some (λ r core_id addr hd, memory_get_pointer r core_id addr hd.1);
|}.

Definition ops_of r : MpuAddressRegionOperationType D :=
  match r_ops r with
  | default_memory_operation => default_ops
  | external_operation n => external_ops n
  end.

(** ** Guest accesses *)

(** [data] is the value of the caller's variable, which an access that fails
    before it reaches the region leaves as it was. *)
Definition mpu_get_data (w : access_width) (core_id addr data : Z) s
    : outcome (Std_ReturnType * Z * mpu_state D) :=
  let '(region, s) := search_region_r core_id addr (nbytes w) s in
  match region with
  | None => Ok (STD_E_SEGV, data, s)
  | Some r =>
      match op_get (ops_of r) w with
      | None => Ok (STD_E_SEGV, data, s)
      | Some get =>
          if negb (CPU_HAS_PERMISSION core_id (r_type r) CpuMemoryAccess_READ addr (nbytes w))
          then Ok (STD_E_SEGV, data, s)
          else
            let paddr := Z.land addr (r_mask r) in
            '(err, v, (h, d)) ← get r core_id paddr data (host s, devices s);
            Ok (err, v, with_host s h d)
      end
  end.

Definition mpu_put_data (w : access_width) (core_id addr data : Z) s
    : outcome (Std_ReturnType * mpu_state D) :=
  let '(region, s) := search_region core_id addr (nbytes w) s in
  match region with
  | None => Ok (STD_E_SEGV, s)
  | Some r =>
      match op_put (ops_of r) w with
      | None => Ok (STD_E_SEGV, s)
      | Some put =>
          if decide (r_type r = READONLY_MEMORY) then Ok (STD_E_SEGV, s)
          else if negb (CPU_HAS_PERMISSION core_id (r_type r) CpuMemoryAccess_WRITE addr (nbytes w))
          then Ok (STD_E_SEGV, s)
          else
            let paddr := Z.land addr (r_mask r) in
            '(err, (h, d)) ← put r core_id paddr data (host s, devices s);
            Ok (err, with_host s h d)
      end
  end.

Definition mpu_get_data8 := mpu_get_data W8.
Definition mpu_get_data16 := mpu_get_data W16.
Definition mpu_get_data32 := mpu_get_data W32.
Definition mpu_put_data8 := mpu_put_data W8.
Definition mpu_put_data16 := mpu_put_data W16.
Definition mpu_put_data32 := mpu_put_data W32.

(** The plain-memory test shared by [mpu_get_memory_window] and
    [mpu_get_host_memory]: built-in operations, an unmasked region, ROM or RAM. *)
Definition is_plain_memory r : bool :=
  bool_decide (r_data r ≠ None) &&
  bool_decide (r_ops r = default_memory_operation) &&
  (r_mask r =? ATHRILL_ADDR_MAX) &&
  (bool_decide (r_type r = GLOBAL_MEMORY) || bool_decide (r_type r = READONLY_MEMORY)).

(** On success: start, size, host buffer and writability. *)
Definition mpu_get_memory_window (core_id addr : Z) s
    : Std_ReturnType * option (Z * Z * option nat * bool) * mpu_state D :=
  let '(region, s) := search_region core_id addr 1 s in
  match region with
  | None => (STD_E_NOENT, None, s)
  | Some r =>
      if negb (is_plain_memory r) then (STD_E_NOENT, None, s)
      else (STD_E_OK,
            Some (r_start r, r_size r, r_data r, bool_decide (r_type r = GLOBAL_MEMORY)), s)
  end.

(** On success: the host pointer, [None] for a null pointer (an empty range). *)
Definition mpu_get_host_memory (core_id addr size : Z) (write : bool) s
    : outcome (Std_ReturnType * option (option (nat * Z)) * mpu_state D) :=
  let access := if write then CpuMemoryAccess_WRITE else CpuMemoryAccess_READ in
  if size =? 0 then Ok (STD_E_OK, Some None, s)
  else
    let end_ := uaddr (addr + size) in
    if end_ <? addr then Ok (STD_E_SEGV, None, s)
    else
      let '(region, s) := search_region core_id addr size s in
      match region with
      | None => Ok (STD_E_SEGV, None, s)
      | Some r =>
          if negb (is_plain_memory r) ||
             (write && negb (bool_decide (r_type r = GLOBAL_MEMORY))) ||
             negb (CPU_HAS_PERMISSION core_id (r_type r) access addr size)
          then Ok (STD_E_SEGV, None, s)
          else
            '(b, blk) ← region_block r (host s);
            let off := uaddr (addr - r_start r) in
            if off <=? zlen blk then Ok (STD_E_OK, Some (Some (b, off)), s)
            else Fault OutOfBounds
      end.

Definition mpu_get_pointer (core_id addr : Z) s
    : outcome (Std_ReturnType * option (nat * Z) * mpu_state D) :=
  let '(region, s) := search_region core_id addr 1 s in
  match region with
  | None => Ok (STD_E_SEGV, None, s)
  | Some r =>
      match op_get_pointer (ops_of r) with
      | None => Ok (STD_E_INVALID, None, s)
      | Some gp =>
          let paddr := Z.land addr (r_mask r) in
          '(err, p) ← gp r core_id paddr (host s, devices s);
          Ok (err, p, s)
      end
  end.
End mpu.
