(* ===== verification/MpuFacts.v ===== *)
(** * Correctness of the memory protection unit

    The invariant [mpu_wf] of the region tables, its preservation by every
    access, the equivalence of the remembered-index search with the plain one,
    and the refinement of the unit to a byte-addressed memory. *)

From S2P Require Import Prelude Mpu.
From stdpp Require Import gmap.
Open Scope Z_scope.

(** ** Host memories of the same shape: the same blocks with the same lengths *)

Definition same_shape (h h' : host_mem) : Prop := ∀ b, zlen <$> h !! b = zlen <$> h' !! b.

#[export] Instance same_shape_equiv : Equivalence same_shape.
Proof.
  split; [by intros h b|intros h1 h2 Hs b; by rewrite Hs|].
  intros h1 h2 h3 H1 H2 b. by rewrite H1.
Qed.

Lemma same_shape_put (h : host_mem) b blk off bs :
  h !! b = Some blk → 0 ≤ off → off + zlen bs ≤ zlen blk →
  same_shape h (<[b := bytes_put blk off bs]> h).
Proof.
  intros Hb ?? b'. destruct (decide (b = b')) as [->|].
  - rewrite lookup_insert_eq, Hb. simpl. by rewrite bytes_put_len.
  - by rewrite lookup_insert_ne.
Qed.

Section facts.
Context {D : Type} `{MpuConfig D}.
Implicit Types (r : MpuAddressRegionType) (s : mpu_state D) (h : host_mem).

(** ** Invariant *)

Record region_wf h r : Prop := {
  rw_start : 0 ≤ r_start r;
  rw_size : 0 < r_size r ≤ ADDR_SPACE - 4;
  rw_end : r_start r + r_size r < ADDR_SPACE;
  rw_mask : 0 ≤ r_mask r;
  rw_block : r_ops r = default_memory_operation → ∀ b, r_data r = Some b →
    ∃ blk, h !! b = Some blk ∧ zlen blk = r_size r;
}.

Definition disjoint_regions r1 r2 : Prop :=
  r_start r1 + r_size r1 ≤ r_start r2 ∨ r_start r2 + r_size r2 ≤ r_start r1.

Record mpu_wf s : Prop := {
  wf_dynamic : Forall (region_wf (host s)) (dynamic_map s);
  wf_unmasked : Forall (λ r, r_mask r = ATHRILL_ADDR_MAX) (dynamic_map s);
  wf_static : Forall (region_wf (host s)) (static_map s);
  wf_static_data :
    Forall (λ r, r_ops r = default_memory_operation → is_Some (r_data r)) (static_map s);
  wf_disjoint : ∀ i j r1 r2, i ≠ j →
    zget (dynamic_map s) i = Some r1 → zget (dynamic_map s) j = Some r2 →
    disjoint_regions r1 r2;
  wf_fresh : ∀ b, (next_block s ≤ b)%nat → host s !! b = None;
  wf_blocks : Forall (λ r, ∀ b, r_data r = Some b → (b < next_block s)%nat) (dynamic_map s);
}.

(** What the unit relies on in an external device's operations: they return,
    and they do not free or resize host buffers. *)
Record external_ok : Prop := {
  ext_get : ∀ n w get r c a v hd, op_get (external_ops n) w = Some get →
    ∃ e v' hd', get r c a v hd = Ok (e, v', hd') ∧ same_shape hd.1 hd'.1;
  ext_put : ∀ n w put r c a v hd, op_put (external_ops n) w = Some put →
    ∃ e hd', put r c a v hd = Ok (e, hd') ∧ same_shape hd.1 hd'.1;
  ext_ptr : ∀ n gp r c a hd, op_get_pointer (external_ops n) = Some gp →
    is_ok (gp r c a hd);
}.

#[export] Instance region_wf_proper : Proper (same_shape ==> eq ==> iff) region_wf.
Proof.
  assert (∀ h h' r, same_shape h h' → region_wf h r → region_wf h' r) as Hmono.
  { intros h h' r Hs [? ? ? ? Hb]. split; try done. intros Ho b Hd.
    destruct (Hb Ho b Hd) as (blk & Hl & ?). specialize (Hs b). rewrite Hl in Hs.
    destruct (h' !! b) as [blk'|]; [|done]. injection Hs as Hs. exists blk'. split; [done|congruence]. }
  intros h h' Hs r ? <-. split; apply Hmono; [done|by symmetry].
Qed.

Lemma mpu_wf_host s h d :
  same_shape (host s) h → (∀ b, (next_block s ≤ b)%nat → h !! b = None) →
  mpu_wf s → mpu_wf (with_host s h d).
Proof.
  intros Hs Hf [Hd Hm Hst Hsd Hdis _ Hbl]. split; simpl; try done.
  - eapply Forall_impl; [exact Hd|]. intros r. by rewrite Hs.
  - eapply Forall_impl; [exact Hst|]. intros r. by rewrite Hs.
Qed.

Lemma same_shape_fresh s h :
  mpu_wf s → same_shape (host s) h → ∀ b, (next_block s ≤ b)%nat → h !! b = None.
Proof.
  intros Hwf Hs b Hb. specialize (Hs b). rewrite (wf_fresh s Hwf b Hb) in Hs.
  by destruct (h !! b).
Qed.

(** ** The containment test *)

Lemma land_nonneg_le x m : 0 ≤ x → 0 ≤ m → 0 ≤ Z.land x m ≤ x.
Proof.
  intros Hx Hm. split; [by apply Z.land_nonneg; left|].
  rewrite <- (Z2N.id x), <- (Z2N.id m) by done. rewrite <- N2Z.inj_land.
  apply N2Z.inj_le. apply N.land_le_l.
Qed.

(** An access whose end does not wrap, or a short one. *)
Definition access_ok (addr n : Z) : Prop :=
  is_addr addr ∧ 0 < n ∧ (n ≤ 4 ∨ addr + n < ADDR_SPACE).

Lemma access_ok_short addr n : is_addr addr → 0 < n ≤ 4 → access_ok addr n.
Proof. unfold access_ok. intros. split_and!; [done|lia|left; lia]. Qed.

Lemma access_ok_width addr w : is_addr addr → access_ok addr (nbytes w).
Proof. intros. apply access_ok_short; [done|]. destruct w; simpl; lia. Qed.

Lemma region_covers_spec h r addr n :
  region_wf h r → access_ok addr n →
  region_covers r addr n = true ↔
  r_start r ≤ Z.land addr (r_mask r) ∧ Z.land addr (r_mask r) + n ≤ r_start r + r_size r.
Proof.
  intros [Hs Hz He Hm _] (Ha & Hn & Hsh). unfold region_covers, is_addr in *.
  pose proof (land_nonneg_le addr (r_mask r) ltac:(lia) Hm).
  rewrite (uaddr_id (r_start r + r_size r)) by (unfold is_addr; lia).
  set (ps := Z.land addr (r_mask r)) in *.
  destruct (decide (ps + n < ADDR_SPACE)).
  - rewrite uaddr_id by (unfold is_addr; lia). lia.
  - assert (uaddr (ps + n) = ps + n - ADDR_SPACE) as ->; [|lia].
    unfold uaddr, wrap. fold ADDR_SPACE. symmetry.
    apply Z.mod_unique with 1; lia.
Qed.

(** A region that reaches the top of the address space is never found: its
    end wraps to zero. *)
Lemma region_covers_top r addr n :
  0 ≤ r_start r → r_start r + r_size r = ADDR_SPACE → region_covers r addr n = false.
Proof.
  intros Hst He. unfold region_covers.
  assert (uaddr (r_start r + r_size r) = 0) as ->.
  { rewrite He. unfold uaddr, wrap. fold ADDR_SPACE. apply Z.mod_same.
    pose proof addr_space_range. lia. }
  pose proof (uaddr_range (Z.land addr (r_mask r) + n)) as Hp. unfold is_addr in Hp. lia.
Qed.

(** ** Searches *)

Lemma first_covering_Some l : ∀ i addr n j r,
  first_covering i l addr n = Some (j, r) →
  i ≤ j ∧ zget l (j - i) = Some r ∧ region_covers r addr n = true.
Proof.
  induction l as [|r0 l IH]; intros i addr n j r; simpl; [done|].
  destruct (region_covers r0 addr n) eqn:E.
  - intros [= <- <-]. by rewrite Z.sub_diag.
  - intros (? & Hg & ?)%IH. split_and!; [lia| |done].
    change (r0 :: l) with ([r0] ++ l). rewrite zget_app_r by (unfold zlen; simpl; lia).
    rewrite <- Hg. f_equal. unfold zlen. simpl. lia.
Qed.

Lemma first_covering_None l : ∀ i addr n,
  first_covering i l addr n = None ↔ Forall (λ r, region_covers r addr n = false) l.
Proof.
  induction l as [|r0 l IH]; intros i addr n; simpl; [by split|].
  rewrite Forall_cons. destruct (region_covers r0 addr n) eqn:E; [by split; [|intros [? _]]|].
  rewrite IH. tauto.
Qed.

Lemma first_covering_unique l addr n : ∀ i j r,
  zget l j = Some r → region_covers r addr n = true →
  (∀ k r', zget l k = Some r' → region_covers r' addr n = true → k = j) →
  first_covering i l addr n = Some (i + j, r).
Proof.
  induction l as [|r0 l IH]; intros i j r Hj Hc Hu.
  { rewrite zget_None in Hj by (unfold zlen; simpl; lia). done. }
  simpl. pose proof (zget_range _ _ _ Hj) as Hr.
  destruct (region_covers r0 addr n) eqn:E.
  - assert (0 = j) as <- by (eapply Hu; [|exact E]; done).
    injection Hj as ->. by rewrite Z.add_0_r.
  - assert (j ≠ 0) by (intros ->; injection Hj as ->; congruence).
    assert (Htl : ∀ k, 0 ≤ k → zget (r0 :: l) (k + 1) = zget l k).
    { intros k Hk. change (r0 :: l) with ([r0] ++ l).
      rewrite zget_app_r by (unfold zlen; simpl; lia). f_equal. unfold zlen. simpl. lia. }
    rewrite (IH (i + 1) (j - 1) r); [do 2 f_equal; lia| |done|].
    + rewrite <- Htl by lia. by replace (j - 1 + 1) with j by lia.
    + intros k r' Hk Hc'. pose proof (zget_range _ _ _ Hk).
      assert (k + 1 = j); [|lia]. eapply Hu; [|done]. by rewrite Htl by lia.
Qed.

Lemma wf_region s i r : mpu_wf s → zget (dynamic_map s) i = Some r →
  region_wf (host s) r ∧ r_mask r = ATHRILL_ADDR_MAX.
Proof.
  intros Hwf Hi%zget_elem. split.
  - by apply (proj1 (Forall_forall _ _) (wf_dynamic s Hwf)).
  - by apply (proj1 (Forall_forall _ _) (wf_unmasked s Hwf)).
Qed.

(** In a well-formed table at most one dynamic region contains an access. *)
Lemma covering_unique s addr n i j r1 r2 :
  mpu_wf s → access_ok addr n →
  zget (dynamic_map s) i = Some r1 → region_covers r1 addr n = true →
  zget (dynamic_map s) j = Some r2 → region_covers r2 addr n = true → i = j.
Proof.
  intros Hwf Hacc H1 C1 H2 C2. pose proof (proj1 Hacc) as Ha. pose proof (proj1 (proj2 Hacc)).
  destruct (wf_region s i r1 Hwf H1) as [W1 M1], (wf_region s j r2 Hwf H2) as [W2 M2].
  pose proof (rw_size _ _ W1). pose proof (rw_size _ _ W2).
  rewrite (region_covers_spec (host s)) in C1 by (done || lia).
  rewrite (region_covers_spec (host s)) in C2 by (done || lia).
  rewrite M1, land_addr_max in C1 by done. rewrite M2, land_addr_max in C2 by done.
  destruct (decide (i = j)) as [|Hne]; [done|].
  destruct (wf_disjoint s Hwf i j r1 r2); [done..|lia|lia].
Qed.

Lemma first_covering_dynamic s addr n j r :
  mpu_wf s → access_ok addr n →
  zget (dynamic_map s) j = Some r → region_covers r addr n = true →
  first_covering 0 (dynamic_map s) addr n = Some (j, r).
Proof.
  intros. change j with (0 + j). apply first_covering_unique; [done..|].
  intros. by eapply covering_unique.
Qed.

(** The remembered index changes no result: whatever index is remembered. *)
Lemma search_with_fst s previous addr n :
  mpu_wf s → access_ok addr n →
  fst (search_with previous addr n s) = fst (search_tables addr n s).
Proof.
  intros Hwf Hacc. unfold search_with. destruct SEARCH_REGION_OPTIMIZE; [|done].
  unfold previous_region_covers. repeat split_if; simpl; try by destruct (search_tables _ _ _).
  destruct (zget (dynamic_map s) previous) as [r|] eqn:Hg; [|by destruct (search_tables _ _ _)].
  destruct (r_data r) as [b|] eqn:Hd; [|by destruct (search_tables _ _ _)].
  destruct (region_covers r addr n) eqn:Hc; [|by destruct (search_tables _ _ _)]. simpl.
  unfold search_tables. rewrite (first_covering_dynamic s addr n previous r) by done.
  by rewrite Hd.
Qed.

(** States that differ at most in the remembered indices. *)
Definition same_but_previous s s' : Prop :=
  ∃ i j, s' = with_previous_r (with_previous_w s i) j.

Lemma same_but_previous_refl s : same_but_previous s s.
Proof. exists (previous_index_w s), (previous_index_r s). by destruct s. Qed.

Lemma same_but_previous_wf s s' : same_but_previous s s' → mpu_wf s → mpu_wf s'.
Proof. intros (i & j & ->) [? ? ? ? ? ? ?]. by split. Qed.

Lemma search_region_eq c addr n s :
  mpu_wf s → access_ok addr n →
  ∃ s', search_region c addr n s = (fst (search_tables addr n s), s') ∧ same_but_previous s s'.
Proof.
  intros. unfold search_region. rewrite <- (search_with_fst s (previous_index_w s)) by done.
  destruct (search_with _ _ _ _) as [f p]. simpl. eexists; split; [done|].
  exists p, (previous_index_r s). by destruct s.
Qed.

Lemma search_region_r_eq c addr n s :
  mpu_wf s → access_ok addr n →
  ∃ s', search_region_r c addr n s = (fst (search_tables addr n s), s') ∧ same_but_previous s s'.
Proof.
  intros. unfold search_region_r. destruct SEARCH_REGION_OPTIMIZE; [|by apply search_region_eq].
  rewrite <- (search_with_fst s (previous_index_r s)) by done.
  destruct (search_with _ _ _ _) as [f p]. simpl. eexists; split; [done|].
  exists (previous_index_w s), p. by destruct s.
Qed.

Lemma search_tables_found s addr n r :
  mpu_wf s → access_ok addr n → fst (search_tables addr n s) = Some r →
  region_wf (host s) r ∧ region_covers r addr n = true ∧
  (r_ops r = default_memory_operation → is_Some (r_data r)).
Proof.
  intros Hwf Hacc. unfold search_tables.
  destruct (first_covering 0 (dynamic_map s) addr n) as [[i r']|] eqn:E.
  - destruct (r_data r') as [b|] eqn:Hd; [|done]. intros [= <-].
    apply first_covering_Some in E as (_ & Hg & Hc).
    destruct (wf_region s _ r' Hwf Hg). rewrite Hd. split_and!; eauto.
  - destruct (first_covering 0 (static_map s) addr n) as [[i r']|] eqn:E'; [|done].
    intros [= <-]. apply first_covering_Some in E' as (_ & Hg%zget_elem & Hc).
    split_and!; [|done|].
    + by apply (proj1 (Forall_forall _ _) (wf_static s Hwf)).
    + by apply (proj1 (Forall_forall _ _) (wf_static_data s Hwf)).
Qed.

Lemma nbytes_range w : 0 < nbytes w ≤ 4.
Proof. destruct w; simpl; lia. Qed.

(** Where an access to a built-in region lands in its buffer. *)
Lemma region_offset h r addr n b :
  region_wf h r → access_ok addr n → region_covers r addr n = true →
  r_ops r = default_memory_operation → r_data r = Some b →
  let off := Z.land addr (r_mask r) - r_start r in
  ∃ blk, h !! b = Some blk ∧ zlen blk = r_size r ∧
         uaddr (Z.land addr (r_mask r) - r_start r) = off ∧ 0 ≤ off ∧ off + n ≤ zlen blk.
Proof.
  intros Hw Hacc Hc Ho Hd off. pose proof (proj1 (proj2 Hacc)). pose proof (rw_size _ _ Hw). pose proof (rw_start _ _ Hw).
  pose proof (rw_end _ _ Hw).
  rewrite (region_covers_spec h) in Hc by (done || lia).
  destruct (rw_block _ _ Hw Ho b Hd) as (blk & Hb & Hl). exists blk.
  split_and!; [done|done| |unfold off; lia|unfold off; lia].
  apply uaddr_id. unfold is_addr. lia.
Qed.

Lemma memory_get_data_ok h w r c addr b :
  region_wf h r → is_addr addr → region_covers r addr (nbytes w) = true →
  r_ops r = default_memory_operation → r_data r = Some b →
  ∃ blk bs, h !! b = Some blk ∧
    bytes_at blk (Z.land addr (r_mask r) - r_start r) (nbytes w) = Some bs ∧
    memory_get_data w r c (Z.land addr (r_mask r)) h = Ok (STD_E_OK, le_val bs).
Proof.
  intros Hw Ha Hc Ho Hd. pose proof (nbytes_range w).
  destruct (region_offset h r addr (nbytes w) b) as (blk & Hb & Hl & Hu & ? & ?); [by auto using access_ok_width..|].
  destruct (bytes_at_Some blk (Z.land addr (r_mask r) - r_start r) (nbytes w))
    as (bs & Hbs & _); [lia..|].
  exists blk, bs. split_and!; [done..|]. unfold memory_get_data, region_block.
  rewrite Hd, Hb. simpl. by rewrite Hu, Hbs.
Qed.

Lemma memory_put_data_ok h w r c addr b v :
  region_wf h r → is_addr addr → region_covers r addr (nbytes w) = true →
  r_ops r = default_memory_operation → r_data r = Some b →
  ∃ blk, h !! b = Some blk ∧ zlen blk = r_size r ∧
    let off := Z.land addr (r_mask r) - r_start r in
    let bs := le_bytes (Z.to_nat (nbytes w)) v in
    0 ≤ off ∧ off + zlen bs ≤ zlen blk ∧
    memory_put_data w r c (Z.land addr (r_mask r)) v h =
      Ok (STD_E_OK, <[b := bytes_put blk off bs]> h).
Proof.
  intros Hw Ha Hc Ho Hd. pose proof (nbytes_range w).
  destruct (region_offset h r addr (nbytes w) b) as (blk & Hb & Hl & Hu & ? & ?); [by auto using access_ok_width..|].
  exists blk. split_and!; [done..|]. intros off bs.
  assert (zlen bs = nbytes w) as Hbs by (unfold bs; rewrite le_bytes_len; lia).
  split_and!; [done|lia|]. unfold memory_put_data, region_block. rewrite Hd, Hb. simpl.
  rewrite Hu. fold off. unfold bytes_set. fold bs.
  replace (_ && _) with true by lia. done.
Qed.

Lemma default_get w : ∃ get, op_get default_ops w = Some get ∧ ∀ r c a v hd,
  get r c a v hd = ('(e, x) ← memory_get_data w r c a hd.1; Ok (e, x, hd)).
Proof. destruct w; by eexists. Qed.

Lemma default_put w : ∃ put, op_put default_ops w = Some put ∧ ∀ r c a v hd,
  put r c a v hd = ('(e, h) ← memory_put_data w r c a v hd.1; Ok (e, (h, hd.2))).
Proof. destruct w; by eexists. Qed.

Lemma with_host_id s : with_host s (host s) (devices s) = s.
Proof. by destruct s. Qed.

(** A read that reaches a built-in region returns the bytes of its buffer. *)
Lemma mpu_get_data_default w c addr v s r b :
  mpu_wf s → is_addr addr → fst (search_tables addr (nbytes w) s) = Some r →
  r_ops r = default_memory_operation → r_data r = Some b →
  CPU_HAS_PERMISSION c (r_type r) CpuMemoryAccess_READ addr (nbytes w) = true →
  ∃ blk bs s', host s !! b = Some blk ∧
    bytes_at blk (Z.land addr (r_mask r) - r_start r) (nbytes w) = Some bs ∧
    mpu_get_data w c addr v s = Ok (STD_E_OK, le_val bs, s') ∧ same_but_previous s s'.
Proof.
  intros Hwf Ha Hf Ho Hd Hp. pose proof (nbytes_range w) as Hn.
  destruct (search_tables_found s addr (nbytes w) r) as (Hw & Hc & _); [by auto using access_ok_width..|].
  destruct (search_region_r_eq c addr (nbytes w) s) as (s' & Hs & Hsb); [by auto using access_ok_width..|].
  destruct (memory_get_data_ok (host s) w r c addr b) as (blk & bs & Hb & Hbs & Hg); [done..|].
  exists blk, bs, s'. split_and!; [done..| |done].
  unfold mpu_get_data. rewrite Hs, Hf. unfold ops_of. rewrite Ho.
  destruct (default_get w) as (get & -> & Hget). rewrite Hp. simpl. rewrite Hget. simpl.
  destruct Hsb as (i & j & ->). simpl. rewrite Hg. simpl. done.
Qed.

Lemma mpu_put_data_default w c addr v s r b :
  mpu_wf s → is_addr addr → fst (search_tables addr (nbytes w) s) = Some r →
  r_ops r = default_memory_operation → r_data r = Some b → r_type r ≠ READONLY_MEMORY →
  CPU_HAS_PERMISSION c (r_type r) CpuMemoryAccess_WRITE addr (nbytes w) = true →
  ∃ blk s', host s !! b = Some blk ∧ zlen blk = r_size r ∧ same_but_previous s s' ∧
    let off := Z.land addr (r_mask r) - r_start r in
    let bs := le_bytes (Z.to_nat (nbytes w)) v in
    0 ≤ off ∧ off + zlen bs ≤ zlen blk ∧
    mpu_put_data w c addr v s =
      Ok (STD_E_OK, with_host s' (<[b := bytes_put blk off bs]> (host s)) (devices s)).
Proof.
  intros Hwf Ha Hf Ho Hd Ht Hp. pose proof (nbytes_range w) as Hn.
  destruct (search_tables_found s addr (nbytes w) r) as (Hw & Hc & _); [by auto using access_ok_width..|].
  destruct (search_region_eq c addr (nbytes w) s) as (s' & Hs & Hsb); [by auto using access_ok_width..|].
  destruct (memory_put_data_ok (host s) w r c addr b v) as (blk & Hb & Hl & H1 & H2 & Hg); [done..|].
  exists blk, s'. split_and!; [done..|].
  unfold mpu_put_data. rewrite Hs, Hf. unfold ops_of. rewrite Ho.
  destruct (default_put w) as (put & -> & Hput). rewrite decide_False by done.
  rewrite Hp. simpl. rewrite Hput. destruct Hsb as (i & j & ->). simpl. by rewrite Hg.
Qed.

Lemma mpu_get_data_ok (w : access_width) (c addr v : Z) s
    (Hext : external_ok) (Hwf : mpu_wf s) (Ha : is_addr addr) :
  ∃ err v' s', mpu_get_data w c addr v s = Ok (err, v', s') ∧ mpu_wf s'.
Proof.
  pose proof (nbytes_range w) as Hn.
  destruct (search_region_r_eq c addr (nbytes w) s) as (s' & Hs & Hsb); [by auto using access_ok_width..|].
  pose proof (same_but_previous_wf _ _ Hsb Hwf) as Hwf'.
  destruct (fst (search_tables addr (nbytes w) s)) as [r|] eqn:Hf;
    [|unfold mpu_get_data; rewrite Hs; eauto].
  destruct (search_tables_found s addr (nbytes w) r) as (Hw & Hc & Hdata); [by auto using access_ok_width..|].
  destruct (CPU_HAS_PERMISSION c (r_type r) CpuMemoryAccess_READ addr (nbytes w)) eqn:Hp.
  - destruct (r_ops r) as [|n] eqn:Ho.
    + destruct Hdata as [b Hd]; [done|].
      destruct (mpu_get_data_default w c addr v s r b) as (blk & bs & s2 & _ & _ & -> & Hsb2);
        eauto 10 using same_but_previous_wf.
    + unfold mpu_get_data. rewrite Hs. unfold ops_of. rewrite Ho.
      destruct (op_get (external_ops n) w) as [get|] eqn:Hg; [|eauto].
      rewrite Hp. simpl.
      destruct (ext_get Hext n w get r c (Z.land addr (r_mask r)) v (host s', devices s') Hg)
        as (e & x & [h d] & -> & Hsh). simpl. eexists _, _, _. split; [done|].
      apply mpu_wf_host; [done| |done]. by apply same_shape_fresh.
  - unfold mpu_get_data. rewrite Hs. destruct (op_get (ops_of r) w); [rewrite Hp|]; simpl; eauto.
Qed.

(** C6: on a well-formed memory map a guest read of any width, at any address and
    by any core, returns: no null, dangling or out-of-bounds host access happens,
    and the map stays well formed.  External devices are only assumed to return
    and to keep the host buffers. *)
Theorem mpu_get_data_safe (w : access_width) (c addr v : Z) s
    (Hext : external_ok) (Hwf : mpu_wf s) (Ha : is_addr addr) :
  ∃ err v' s', mpu_get_data w c addr v s = Ok (err, v', s') ∧ mpu_wf s'.
Proof. by apply mpu_get_data_ok. Qed.

Lemma mpu_put_data_ok (w : access_width) (c addr v : Z) s
    (Hext : external_ok) (Hwf : mpu_wf s) (Ha : is_addr addr) :
  ∃ err s', mpu_put_data w c addr v s = Ok (err, s') ∧ mpu_wf s'.
Proof.
  pose proof (nbytes_range w) as Hn.
  destruct (search_region_eq c addr (nbytes w) s) as (s' & Hs & Hsb); [by auto using access_ok_width..|].
  pose proof (same_but_previous_wf _ _ Hsb Hwf) as Hwf'.
  destruct (fst (search_tables addr (nbytes w) s)) as [r|] eqn:Hf;
    [|unfold mpu_put_data; rewrite Hs; eauto].
  destruct (search_tables_found s addr (nbytes w) r) as (Hw & Hc & Hdata); [by auto using access_ok_width..|].
  destruct (CPU_HAS_PERMISSION c (r_type r) CpuMemoryAccess_WRITE addr (nbytes w)) eqn:Hp,
    (decide (r_type r = READONLY_MEMORY)) as [Ht|Ht].
  2: { destruct (r_ops r) as [|n] eqn:Ho.
    - destruct Hdata as [b Hd]; [done|].
      destruct (mpu_put_data_default w c addr v s r b)
        as (blk & s2 & Hb & Hl & Hsb2 & H1 & H2 & ->); [done..|].
      eexists _, _. split; [done|]. pose proof (same_shape_put (host s) b blk _ _ Hb H1 H2) as Hsh.
      destruct Hsb2 as (i & j & ->). apply mpu_wf_host; [done|by apply (same_shape_fresh s)|].
      by apply (same_but_previous_wf s); [eexists _, _|].
    - unfold mpu_put_data. rewrite Hs. unfold ops_of. rewrite Ho.
      destruct (op_put (external_ops n) w) as [put|] eqn:Hg; [|eauto].
      rewrite decide_False by done. rewrite Hp. simpl.
      destruct (ext_put Hext n w put r c (Z.land addr (r_mask r)) v (host s', devices s') Hg)
        as (e & [h d] & -> & Hsh). simpl. eexists _, _. split; [done|].
      apply mpu_wf_host; [done| |done]. by apply same_shape_fresh. }
  all: unfold mpu_put_data; rewrite Hs; destruct (op_put (ops_of r) w);
    rewrite ?Hp; simpl; try case_decide; try congruence; eauto.
Qed.

(** C7: the same for guest writes. *)
Theorem mpu_put_data_safe (w : access_width) (c addr v : Z) s
    (Hext : external_ok) (Hwf : mpu_wf s) (Ha : is_addr addr) :
  ∃ err s', mpu_put_data w c addr v s = Ok (err, s') ∧ mpu_wf s'.
Proof. by apply mpu_put_data_ok. Qed.

(** ** Refinement to a byte-addressed memory *)

(** The guest's plain memory: the byte at an address of a dynamic region with
    built-in operations. *)
Definition region_byte (h : host_mem) r (a : Z) : option Z :=
  match r_ops r with
  | default_memory_operation =>
      b ← r_data r; blk ← h !! b; zget blk (a - r_start r)
  | external_operation _ => None
  end.

Definition guest_byte s (a : Z) : option Z :=
  match first_covering 0 (dynamic_map s) a 1 with
  | Some (_, r) => region_byte (host s) r a
  | None => None
  end.

(** The abstract memory and its two operations. *)
Definition gstore (m : Z → option Z) (addr : Z) (bs : list Z) : Z → option Z := λ a,
  if (addr <=? a) && (a <? addr + zlen bs) then zget bs (a - addr) else m a.
Definition gload (m : Z → option Z) (addr n : Z) : option (list Z) :=
  mapM m (seqZ addr n).

(** No two dynamic regions share a host buffer. *)
Definition unaliased s : Prop := ∀ i j r1 r2 b,
  zget (dynamic_map s) i = Some r1 → zget (dynamic_map s) j = Some r2 →
  r_data r1 = Some b → r_data r2 = Some b → i = j.

(** The access lies in one dynamic region with built-in operations and a buffer. *)
Definition plain_at s (addr n : Z) r : Prop :=
  (∃ i, first_covering 0 (dynamic_map s) addr n = Some (i, r)) ∧
  r_ops r = default_memory_operation ∧ is_Some (r_data r).

Lemma plain_at_found s addr n r : plain_at s addr n r → fst (search_tables addr n s) = Some r.
Proof.
  intros ((i & Hf) & _ & b & Hd). unfold search_tables. by rewrite Hf, Hd.
Qed.

(** The bytes of an access are in the same region as the access. *)
Lemma plain_at_byte s addr n r a :
  mpu_wf s → is_addr addr → 0 < n ≤ 4 → plain_at s addr n r → addr ≤ a < addr + n →
  guest_byte s a = region_byte (host s) r a ∧ is_addr a.
Proof.
  intros Hwf Ha Hn ((i & Hf) & Ho & b & Hd) Hr. pose proof (access_ok_short addr n Ha Hn).
  apply first_covering_Some in Hf as (_ & Hg & Hc). rewrite Z.sub_0_r in Hg.
  destruct (wf_region s i r Hwf Hg) as [Hw Hm]. pose proof (rw_size _ _ Hw).
  pose proof (rw_start _ _ Hw). pose proof (rw_end _ _ Hw).
  rewrite (region_covers_spec (host s)), Hm, land_addr_max in Hc by (done || lia).
  assert (is_addr a) as Haa by (unfold is_addr in *; lia). split; [|done].
  pose proof (access_ok_short a 1 Haa ltac:(lia)).
  unfold guest_byte. rewrite (first_covering_dynamic s a 1 i r); [done..|].
  rewrite (region_covers_spec (host s)), Hm, land_addr_max by (done || lia). lia.
Qed.

Lemma plain_at_offset s addr n r :
  mpu_wf s → is_addr addr → plain_at s addr n r → Z.land addr (r_mask r) = addr.
Proof.
  intros Hwf Ha ((i & Hf) & _). apply first_covering_Some in Hf as (_ & Hg & _).
  destruct (wf_region s _ r Hwf Hg) as [_ ->]. by apply land_addr_max.
Qed.

Lemma gload_spec m addr bs :
  (∀ i, 0 ≤ i < zlen bs → m (addr + i) = zget bs i) → gload m addr (zlen bs) = Some bs.
Proof.
  intros Hm. unfold gload. apply mapM_Some_2. apply Forall2_same_length_lookup_2.
  - rewrite length_seqZ. unfold zlen. lia.
  - intros i a x Hs Hx. apply lookup_seqZ in Hs as [-> _]. rewrite Hm, zget_lookup; [done|].
    apply lookup_lt_Some in Hx. unfold zlen. lia.
Qed.

Lemma get_plain_ok (w : access_width) (c addr v : Z) s r
    (Hwf : mpu_wf s) (Ha : is_addr addr) (Hplain : plain_at s addr (nbytes w) r)
    (Hperm : CPU_HAS_PERMISSION c (r_type r) CpuMemoryAccess_READ addr (nbytes w) = true) :
  ∃ bs s', gload (guest_byte s) addr (nbytes w) = Some bs ∧
    mpu_get_data w c addr v s = Ok (STD_E_OK, le_val bs, s') ∧ same_but_previous s s'.
Proof.
  pose proof (nbytes_range w) as Hn. pose proof Hplain as (_ & Ho & b & Hd).
  destruct (mpu_get_data_default w c addr v s r b) as (blk & bs & s' & Hb & Hbs & Hg & Hsb);
    [done|done|by apply plain_at_found|done..|].
  exists bs, s'. split_and!; [|done..].
  rewrite (plain_at_offset s addr (nbytes w) r) in Hbs by done.
  rewrite <- (bytes_at_len _ _ _ _ Hbs) at 1. apply gload_spec.
  rewrite (bytes_at_len _ _ _ _ Hbs). intros i Hi.
  destruct (plain_at_byte s addr (nbytes w) r (addr + i)) as [-> _]; [done|done|lia|done|lia|].
  unfold region_byte. rewrite Ho, Hd. simpl. rewrite Hb. simpl.
  rewrite (bytes_at_lookup _ _ _ _ _ Hbs) by done. f_equal. lia.
Qed.

(** C8: a guest read of 1, 2 or 4 bytes in plain memory returns the little-endian
    value of the bytes stored at those addresses. *)
Theorem mpu_get_data_refines (w : access_width) (c addr v : Z) s r
    (Hwf : mpu_wf s) (Ha : is_addr addr) (Hplain : plain_at s addr (nbytes w) r)
    (Hperm : CPU_HAS_PERMISSION c (r_type r) CpuMemoryAccess_READ addr (nbytes w) = true) :
  ∃ bs s', gload (guest_byte s) addr (nbytes w) = Some bs ∧
    mpu_get_data w c addr v s = Ok (STD_E_OK, le_val bs, s') ∧ same_but_previous s s'.
Proof. by apply (get_plain_ok w c addr v s r). Qed.

(** Updating the buffer of one region is an update of the guest's bytes. *)
Lemma guest_byte_update s s' i r b blk addr bs d :
  mpu_wf s → unaliased s → same_but_previous s s' →
  zget (dynamic_map s) i = Some r → r_ops r = default_memory_operation → r_data r = Some b →
  host s !! b = Some blk → zlen blk = r_size r →
  0 ≤ addr - r_start r → addr - r_start r + zlen bs ≤ zlen blk →
  ∀ a, is_addr a →
  guest_byte (with_host s' (<[b := bytes_put blk (addr - r_start r) bs]> (host s)) d) a =
  gstore (guest_byte s) addr bs a.
Proof.
  intros Hwf Hun (pi & pj & ->) Hi Ho Hd Hb Hl Hlo Hhi a Ha. unfold guest_byte at 1. simpl.
  destruct (wf_region s i r Hwf Hi) as [Hw Hm].
  pose proof (rw_size _ _ Hw). pose proof (rw_start _ _ Hw). pose proof (rw_end _ _ Hw).
  pose proof (access_ok_short a 1 Ha ltac:(lia)). set (h' := <[b := _]> (host s)).
  assert (Hin : r_start r ≤ a < r_start r + r_size r →
    first_covering 0 (dynamic_map s) a 1 = Some (i, r)).
  { intros Hr. apply first_covering_dynamic; [done..|].
    rewrite (region_covers_spec (host s)), Hm, land_addr_max by (done || lia). lia. }
  unfold gstore, guest_byte.
  destruct (first_covering 0 (dynamic_map s) a 1) as [[j r2]|] eqn:Hf.
  2: { destruct (_ && _) eqn:E; [|done]. by discriminate (Hin ltac:(lia)). }
  apply first_covering_Some in Hf as (_ & Hj & Hc). rewrite Z.sub_0_r in Hj.
  destruct (decide (j = i)) as [->|Hne].
  - assert (r2 = r) as -> by congruence. unfold region_byte. rewrite Ho, Hd. simpl.
    unfold h'. rewrite lookup_insert_eq, Hb. simpl.
    destruct (_ && _) eqn:E.
    + rewrite bytes_put_lookup_in by lia. f_equal. lia.
    + rewrite bytes_put_lookup_out by lia. done.
  - destruct (_ && _) eqn:E.
    { specialize (Hin ltac:(lia)). congruence. }
    unfold region_byte. destruct (r_ops r2); [|done].
    destruct (r_data r2) as [b2|] eqn:Hd2; [|done]. simpl. unfold h'.
    rewrite lookup_insert_ne; [done|]. intros ->. apply Hne. by eapply Hun.
Qed.

Lemma put_plain_ok (w : access_width) (c addr v : Z) s r
    (Hwf : mpu_wf s) (Hun : unaliased s) (Ha : is_addr addr)
    (Hplain : plain_at s addr (nbytes w) r) (Hrw : r_type r ≠ READONLY_MEMORY)
    (Hperm : CPU_HAS_PERMISSION c (r_type r) CpuMemoryAccess_WRITE addr (nbytes w) = true) :
  ∃ s', mpu_put_data w c addr v s = Ok (STD_E_OK, s') ∧ mpu_wf s' ∧
    dynamic_map s' = dynamic_map s ∧
    ∀ a, is_addr a → guest_byte s' a = gstore (guest_byte s) addr (le_bytes (Z.to_nat (nbytes w)) v) a.
Proof.
  pose proof (nbytes_range w) as Hn. pose proof Hplain as ((i & Hf) & Ho & b & Hd).
  destruct (mpu_put_data_default w c addr v s r b) as (blk & s' & Hb & Hl & Hsb & H1 & H2 & Hput);
    [done|done|by apply plain_at_found|done..|].
  pose proof (same_shape_put (host s) b blk _ _ Hb H1 H2) as Hsh.
  rewrite (plain_at_offset s addr (nbytes w) r) in H1, H2, Hput, Hsh by done.
  eexists. split; [exact Hput|]. apply first_covering_Some in Hf as (_ & Hg & _). split.
  - pose proof (same_but_previous_wf s s' Hsb Hwf) as Hwf'. destruct Hsb as (pi & pj & ->).
    apply mpu_wf_host; [done|by apply (same_shape_fresh s)|done].
  - split; [by destruct Hsb as (? & ? & ->)|]. intros a Haa. eapply guest_byte_update; eauto.
Qed.

(** C1: a guest write of 1, 2 or 4 bytes to writable plain memory succeeds and
    changes exactly the addressed bytes, to the little-endian bytes of the value:
    every other byte of the guest's memory keeps its value. *)
Theorem mpu_put_data_refines (w : access_width) (c addr v : Z) s r
    (Hwf : mpu_wf s) (Hun : unaliased s) (Ha : is_addr addr)
    (Hplain : plain_at s addr (nbytes w) r) (Hrw : r_type r ≠ READONLY_MEMORY)
    (Hperm : CPU_HAS_PERMISSION c (r_type r) CpuMemoryAccess_WRITE addr (nbytes w) = true) :
  ∃ s', mpu_put_data w c addr v s = Ok (STD_E_OK, s') ∧
    dynamic_map s' = dynamic_map s ∧
    ∀ a, is_addr a →
      guest_byte s' a =
      gstore (guest_byte s) addr (le_bytes (Z.to_nat (nbytes w)) v) a.
Proof.
  destruct (put_plain_ok w c addr v s r) as (s' & Hput & _ & Hmap & Hbytes); [done..|]. by exists s'.
Qed.

(** what is written is what is read back: after a successful write of a
    [w]-bit value, a read of the same width at the same address returns it. *)
Theorem mpu_put_get_roundtrip (w : access_width) (c addr v v0 : Z) s r
    (Hwf : mpu_wf s) (Hun : unaliased s) (Ha : is_addr addr)
    (Hplain : plain_at s addr (nbytes w) r) (Hrw : r_type r ≠ READONLY_MEMORY)
    (Hpw : CPU_HAS_PERMISSION c (r_type r) CpuMemoryAccess_WRITE addr (nbytes w) = true)
    (Hpr : CPU_HAS_PERMISSION c (r_type r) CpuMemoryAccess_READ addr (nbytes w) = true)
    (Hv : in_width (nbits w) v) :
  ∃ s' s'', mpu_put_data w c addr v s = Ok (STD_E_OK, s') ∧
            mpu_get_data w c addr v0 s' = Ok (STD_E_OK, v, s'').
Proof.
  pose proof (nbytes_range w) as Hn. pose proof Hplain as ((i & Hf) & Ho & b & Hd).
  destruct (mpu_put_data_default w c addr v s r b) as (blk & s' & Hb & Hl & Hsb & H1 & H2 & Hput);
    [done|done|by apply plain_at_found|done..|].
  pose proof (same_shape_put (host s) b blk _ _ Hb H1 H2) as Hsh.
  assert (Hwf' : mpu_wf (with_host s' (<[b := bytes_put blk (Z.land addr (r_mask r) - r_start r)
      (le_bytes (Z.to_nat (nbytes w)) v)]> (host s)) (devices s))).
  { destruct Hsb as (pi & pj & ->). apply mpu_wf_host; [done|by apply (same_shape_fresh s)|].
    by apply (same_but_previous_wf s); [eexists _, _|]. }
  edestruct (mpu_get_data_default w c addr v0) as (blk' & bs & s'' & Hb' & Hbs & Hget & _);
    [exact Hwf'|done| |exact Ho|exact Hd|exact Hpr|].
  { destruct Hsb as (pi & pj & ->). unfold search_tables. simpl. by rewrite Hf, Hd. }
  eexists _, s''. split; [exact Hput|]. rewrite Hget. do 3 f_equal.
  simpl in Hb'. rewrite lookup_insert_eq in Hb'. injection Hb' as <-.
  assert (Hlen : zlen (le_bytes (Z.to_nat (nbytes w)) v) = nbytes w)
    by (rewrite le_bytes_len; lia).
  pose proof (bytes_at_put_same blk _ _ H1 H2) as Hsame. rewrite Hlen in Hsame.
  rewrite Hsame in Hbs. injection Hbs as <-. rewrite le_val_bytes, Z2Nat.id by lia.
  apply wrap_id. exact Hv.
Qed.

(** ** The remembered index *)

(** C15: the remembered region index is only an optimisation: whatever index each
    search routine remembers, on a well-formed map both return exactly the region
    that the two plain table scans find. *)
Theorem search_region_cache_transparent (c addr n : Z) s
    (Hwf : mpu_wf s) (Hacc : access_ok addr n) :
  fst (search_region c addr n s) = fst (search_tables addr n s) ∧
  fst (search_region_r c addr n s) = fst (search_tables addr n s).
Proof.
  destruct (search_region_eq c addr n s) as (s1 & -> & _); [done..|].
  destruct (search_region_r_eq c addr n s) as (s2 & -> & _); [done..|]. done.
Qed.

Lemma search_with_covers previous addr n s r :
  fst (search_with previous addr n s) = Some r → region_covers r addr n = true.
Proof.
  assert (Ht : fst (search_tables addr n s) = Some r → region_covers r addr n = true).
  { unfold search_tables. destruct (first_covering 0 (dynamic_map s) addr n) as [[i r']|] eqn:E.
    - destruct (r_data r'); [|done]. intros [= <-]. by apply first_covering_Some in E as (_ & _ & ?).
    - destruct (first_covering 0 (static_map s) addr n) as [[i r']|] eqn:E'; [|done].
      intros [= <-]. by apply first_covering_Some in E' as (_ & _ & ?). }
  unfold search_with. destruct SEARCH_REGION_OPTIMIZE; [|done].
  destruct (previous_region_covers _ _ _ _) as [r'|] eqn:E.
  - intros [= <-]. unfold previous_region_covers in E. repeat split_if_in E; [done|].
    repeat case_match; congruence.
  - by destruct (search_tables _ _ _).
Qed.

(** a region that ends exactly at the top of the address space is never the
    result of a search, so no guest access reaches it: the end of the region is
    computed in [AthrillAddrType] and wraps to zero. *)
Theorem region_at_top_unreachable (c addr n : Z) s r
    (Hs : 0 ≤ r_start r) (Htop : r_start r + r_size r = ADDR_SPACE) :
  fst (search_region c addr n s) ≠ Some r ∧ fst (search_region_r c addr n s) ≠ Some r.
Proof.
  assert (H0 : ∀ p, fst (search_with p addr n s) ≠ Some r).
  { intros p Hf%search_with_covers. by rewrite region_covers_top in Hf. }
  assert (H1 : fst (search_region c addr n s) ≠ Some r).
  { unfold search_region. specialize (H0 (previous_index_w s)). by destruct (search_with _ _ _ _). }
  split; [done|]. unfold search_region_r. destruct SEARCH_REGION_OPTIMIZE; [|done].
  specialize (H0 (previous_index_r s)). by destruct (search_with _ _ _ _).
Qed.

(** ** ROM *)

(** What an external device may not do to keep a buffer intact. *)
Definition external_keeps (b : nat) : Prop :=
  ∀ n w put r c a v h d e h' d',
    op_put (external_ops n) w = Some put → put r c a v (h, d) = Ok (e, (h', d')) → h' !! b = h !! b.

(** Only one region owns a buffer that no static region uses. *)
Lemma search_tables_owner s addr n r i rom b : unaliased s → Forall (λ r, r_data r ≠ Some b) (static_map s) →
  zget (dynamic_map s) i = Some rom → r_data rom = Some b → r_data r = Some b → fst (search_tables addr n s) = Some r → r = rom.
Proof.
  intros Hun Hstatic Hi Hb Hdata Hf. unfold search_tables in Hf.
  destruct (first_covering 0 (dynamic_map s) _ _) as [[j r']|] eqn:Ef.
  - destruct (r_data r') eqn:Hd'; [|done]. injection Hf as ->.
    apply first_covering_Some in Ef as (_ & Hj & _).
    pose proof (Hun _ _ _ _ b Hj Hi Hdata Hb) as Hij. rewrite Hij in Hj. congruence.
  - destruct (first_covering 0 (static_map s) _ _) as [[j r']|] eqn:E'; [|done].
    injection Hf as ->. apply first_covering_Some in E' as (_ & Hj%zget_elem & _).
    destruct (proj1 (Forall_forall _ _) Hstatic r Hj). done.
Qed.

(** C14: the contents of a ROM region cannot be changed by the guest: no write, at
    any address, of any width, by any core, changes the region's buffer. *)
Theorem rom_is_immutable (w : access_width) (c addr v : Z) s s' err i rom b
    (Hwf : mpu_wf s) (Hun : unaliased s) (Ha : is_addr addr)
    (Hstatic : Forall (λ r, r_data r ≠ Some b) (static_map s))
    (Hext : external_keeps b)
    (Hi : zget (dynamic_map s) i = Some rom) (Hrom : r_type rom = READONLY_MEMORY)
    (Hb : r_data rom = Some b)
    (Hput : mpu_put_data w c addr v s = Ok (err, s')) :
  host s' !! b = host s !! b.
Proof.
  destruct (search_region_eq c addr (nbytes w) s) as (s1 & Hs & Hsb); [by auto using access_ok_width..|].
  assert (Hh : host s1 = host s) by (by destruct Hsb as (? & ? & ->)).
  unfold mpu_put_data in Hput. rewrite Hs in Hput.
  destruct (fst (search_tables addr (nbytes w) s)) as [r|] eqn:Hf; [|by simplify_eq; congruence].
  destruct (op_put (ops_of r) w) as [put|] eqn:Hp; [|by simplify_eq; congruence].
  case_decide as Ht; [by simplify_eq; congruence|].
  split_if_in Hput; [by simplify_eq; congruence|].
  apply bind_ok in Hput as ([e [h d]] & Hrun & [= <- <-]). simpl. rewrite <- Hh.
  unfold ops_of in Hp. destruct (r_ops r) as [|n] eqn:Ho; [|by eapply Hext].
  destruct (default_put w) as (put' & Hd & Hspec). rewrite Hd in Hp. injection Hp as <-.
  rewrite Hspec in Hrun. unfold memory_put_data, region_block in Hrun.
  destruct (r_data r) as [b'|] eqn:Hdata; [|done]. simpl in Hrun.
  destruct (host s1 !! b') as [blk|] eqn:Hblk; [|done]. simpl in Hrun.
  destruct (bytes_set _ _ _); [|done]. simpl in Hrun. injection Hrun as <- <- <-.
  rewrite lookup_insert_ne; [done|]. intros ->. apply Ht. by rewrite (search_tables_owner _ _ _ _ _ _ _ Hun Hstatic Hi Hb Hdata Hf).
Qed.

(** ** Adding regions *)

Lemma region_wf_alloc s blk r :
  mpu_wf s → region_wf (host s) r → region_wf (<[next_block s := blk]> (host s)) r.
Proof.
  intros Hwf [? ? ? ? Hb]. split; try done. intros Ho b Hd.
  destruct (Hb Ho b Hd) as (blk' & Hl & ?). exists blk'. split; [|done].
  rewrite lookup_insert_ne; [done|]. intros <-.
  by rewrite (wf_fresh s Hwf) in Hl by lia.
Qed.

Lemma disjoint_snoc l r :
  (∀ i j r1 r2, i ≠ j → zget l i = Some r1 → zget l j = Some r2 → disjoint_regions r1 r2) →
  Forall (disjoint_regions r) l →
  ∀ i j r1 r2, i ≠ j → zget (l ++ [r]) i = Some r1 → zget (l ++ [r]) j = Some r2 →
  disjoint_regions r1 r2.
Proof.
  intros Hl Hr i j r1 r2 Hne H1 H2.
  rewrite Forall_forall in Hr.
  destruct (zget_snoc _ _ _ _ H1) as [G1|[-> ->]], (zget_snoc _ _ _ _ H2) as [G2|[-> ->]].
  - by apply (Hl i j).
  - apply zget_elem in G1. apply Hr in G1. unfold disjoint_regions in *. tauto.
  - apply zget_elem in G2. by apply Hr.
  - done.
Qed.

(** What the caller of [mpu_address_set_rom_ram] must know of a new region. *)
Definition fits s (addr size : Z) : Prop :=
  0 ≤ addr ∧ 0 < size ≤ ADDR_SPACE - 4 ∧ addr + size < ADDR_SPACE ∧
  Forall (λ r, addr + size ≤ r_start r ∨ r_start r + r_size r ≤ addr) (dynamic_map s).

Lemma push_region_wf s blk r :
  mpu_wf s → fits s (r_start r) (r_size r) → zlen blk = r_size r →
  r_mask r = ATHRILL_ADDR_MAX → r_data r = Some (next_block s) →
  mpu_wf (push_region (snd (alloc_block s blk)) r).
Proof.
  intros Hwf (Ha & Hz & He & Hd) Hl Hm Hdata. pose proof addr_space_range.
  pose proof Hwf as [H1 H2 H3 H4 H5 H6 H7]. split; simpl.
  - apply Forall_app. split; [eapply Forall_impl; [exact H1|]; intros; by apply region_wf_alloc|].
    apply Forall_singleton. split; [done|done|done|rewrite Hm; unfold ATHRILL_ADDR_MAX; lia|].
    intros _ b. rewrite Hdata. intros [= <-]. exists blk. by rewrite lookup_insert_eq.
  - apply Forall_app. split; [done|by apply Forall_singleton].
  - eapply Forall_impl; [exact H3|]. intros. by apply region_wf_alloc.
  - done.
  - apply disjoint_snoc; [done|]. eapply Forall_impl; [exact Hd|]. intros x. unfold disjoint_regions. lia.
  - intros b Hb. rewrite lookup_insert_ne by lia. apply H6. lia.
  - apply Forall_app. split.
    + eapply Forall_impl; [exact H7|]. simpl. intros x Hx b Hb. specialize (Hx b Hb). lia.
    + apply Forall_singleton. rewrite Hdata. intros b [= <-]. lia.
Qed.

Lemma push_region_unaliased s blk r :
  mpu_wf s → unaliased s → r_data r = Some (next_block s) →
  unaliased (push_region (snd (alloc_block s blk)) r).
Proof.
  intros Hwf Hun Hd i j r1 r2 b H1 H2 D1 D2. simpl in *.
  pose proof (proj1 (Forall_forall _ _) (wf_blocks s Hwf)) as Hbl.
  destruct (zget_snoc _ _ _ _ H1) as [G1|[-> ->]], (zget_snoc _ _ _ _ H2) as [G2|[-> ->]].
  - by eapply Hun.
  - apply zget_elem in G1. specialize (Hbl _ G1 b D1). assert (b = next_block s) by congruence. lia.
  - apply zget_elem in G2. specialize (Hbl _ G2 b D2). assert (b = next_block s) by congruence. lia.
  - done.
Qed.

Lemma fits_not_covered s addr size :
  mpu_wf s → fits s addr size → first_covering 0 (dynamic_map s) addr size = None.
Proof.
  intros Hwf (Ha & Hz & He & Hd). apply first_covering_None. apply Forall_forall. intros r Hr.
  assert (Hacc : access_ok addr size) by (unfold access_ok, is_addr; split_and!; lia).
  rewrite Forall_forall in Hd. pose proof (wf_dynamic s Hwf) as Hw. rewrite Forall_forall in Hw.
  pose proof (wf_unmasked s Hwf) as Hm. rewrite Forall_forall in Hm.
  destruct (region_covers r addr size) eqn:E; [|done].
  rewrite (region_covers_spec (host s)), (Hm r Hr), land_addr_max in E; [|by apply Hacc|by apply Hw|done].
  destruct (Hd r Hr); pose proof (rw_size _ _ (Hw r Hr)); lia.
Qed.

(** loading a ROM or RAM region that overlaps no other keeps the map well
    formed, gives the region a buffer of its own (zeroed for RAM), and leaves
    every byte of the memory that was mapped before as it was. *)
Theorem mpu_address_set_rom_ram_ok (ty : MpuAddressGetType) (addr size : Z) mmap blk s
    (Hwf : mpu_wf s) (Hun : unaliased s) (Hfit : fits s addr size) (Hblk : zlen blk = size)
    (Hty : ty = MpuAddressGetType_ROM ∨ ty = MpuAddressGetType_RAM) :
  ∃ b s' r, mpu_address_set_rom_ram ty addr size mmap (Some blk) s = Ok (Some b, s') ∧
    mpu_wf s' ∧ unaliased s' ∧ dynamic_map s' = dynamic_map s ++ [r] ∧ host s !! b = None ∧
    r_start r = addr ∧ r_size r = size ∧ r_data r = Some b ∧
    (ty = MpuAddressGetType_RAM → host s' !! b = Some (replicate (length blk) 0)) ∧
    ∀ a, is_Some (guest_byte s a) → guest_byte s' a = guest_byte s a.
Proof.
  assert (Hkeep : ∀ blk' r a, is_Some (guest_byte s a) →
    guest_byte (push_region (snd (alloc_block s blk')) r) a = guest_byte s a).
  { intros blk' r a [x Hx]. unfold guest_byte in *. simpl.
    destruct (first_covering 0 (dynamic_map s) a 1) as [[i r']|] eqn:E; [|done].
    assert (first_covering 0 (dynamic_map s ++ [r]) a 1 = Some (i, r')) as ->.
    { revert E. generalize 0. induction (dynamic_map s) as [|q l IH]; intros k; simpl; [done|].
      destruct (region_covers q a 1); [done|apply IH]. }
    rewrite Hx. unfold region_byte in *. destruct (r_ops r'); [|done].
    destruct (r_data r') as [b|]; [|done]. simpl in *.
    destruct (host s !! b) as [blkb|] eqn:Hb; [|done]. simpl in Hx.
    rewrite lookup_insert_ne; [by rewrite Hb|]. intros <-. by rewrite (wf_fresh s Hwf) in Hb by lia. }
  unfold mpu_address_set_rom_ram, mpu_address_search_region.
  rewrite fits_not_covered by done.
  assert (host s !! next_block s = None) by (apply (wf_fresh s Hwf); lia).
  destruct Hty as [-> | ->]; eexists _, _, _; (split; [reflexivity|]); split_and!;
    try reflexivity; try done.
  - apply (push_region_wf s blk (mkRegion _ _ _ addr size _ _ _)); done.
  - by apply (push_region_unaliased s blk).
  - intros a Ha. apply (Hkeep blk); done.
  - apply (push_region_wf s (replicate (length blk) 0) (mkRegion _ _ _ addr size _ _ _)); try done.
    unfold zlen. by rewrite length_replicate.
  - by apply (push_region_unaliased s (replicate (length blk) 0)).
  - intros _. simpl. by rewrite lookup_insert_eq.
  - intros a Ha. apply (Hkeep (replicate (length blk) 0)); done.
Qed.

(** ** Host pointers *)

(** The buffer behind a host pointer. *)
Lemma get_host_memory_ok (c addr size : Z) (write : bool) s
    (Hwf : mpu_wf s) (Ha : is_addr addr) (Hsize : is_addr size) :
  ∃ err p s', mpu_get_host_memory c addr size write s = Ok (err, p, s') ∧ same_but_previous s s' ∧ mpu_wf s' ∧
    (err ≠ STD_E_OK → err = STD_E_SEGV ∧ p = None) ∧
    (err = STD_E_OK → size ≠ 0 →
      ∃ r b blk, fst (search_tables addr size s) = Some r ∧
        r_data r = Some b ∧ host s !! b = Some blk ∧
        p = Some (Some (b, addr - r_start r)) ∧
        0 ≤ addr - r_start r ∧ addr - r_start r + size ≤ zlen blk ∧
        (write = true → r_type r = GLOBAL_MEMORY)).
Proof.
  unfold mpu_get_host_memory. unfold is_addr in *.
  destruct (Z.eqb_spec size 0) as [->|Hz].
  { eexists _, _, _. split; [done|]. split_and!; [apply same_but_previous_refl|done|done|lia]. }
  destruct (Z.ltb_spec (uaddr (addr + size)) addr) as [Hw|Hw].
  { eexists _, _, _. split; [done|]. split_and!; [apply same_but_previous_refl|done..]. }
  assert (Hacc : access_ok addr size).
  { unfold access_ok, is_addr. split_and!; [lia..|right].
    destruct (decide (addr + size < ADDR_SPACE)); [done|].
    assert (uaddr (addr + size) = addr + size - ADDR_SPACE); [|lia].
    unfold uaddr, wrap. fold ADDR_SPACE. symmetry. apply Z.mod_unique with 1; lia. }
  destruct (search_region_eq c addr size s) as (s' & -> & Hsb); [done..|].
  pose proof (same_but_previous_wf _ _ Hsb Hwf) as Hwf'.
  destruct (fst (search_tables addr size s)) as [r|] eqn:Hf;
    [|by eexists _, _, _; split; [done|]; split_and!].
  split_if; [by eexists _, _, _; split; [done|]; split_and!|].
  destruct (search_tables_found s addr size r) as (Hrw & Hc & _); [done..|].
  unfold is_plain_memory in E. repeat case_bool_decide; simpl in E; try done;
    destruct (r_data r) as [b|] eqn:Hd; try done;
    (destruct (region_offset (host s) r addr size b) as (blk & Hb & Hl & Hu & Hlo & Hhi); [done..|]);
    assert (r_mask r = ATHRILL_ADDR_MAX) as Hm by (destruct write; lia);
    rewrite Hm, land_addr_max in Hu, Hlo, Hhi by done;
    pose proof Hsb as (pi & pj & ->); unfold region_block; rewrite Hd; simpl; rewrite Hb; simpl;
    rewrite Hu; replace (addr - r_start r <=? zlen blk) with true by lia;
    (eexists _, _, _; split; [done|]; split_and!; [done|done|done|]);
    intros _ _; exists r, b, blk; split_and!; try done; intros ->; exfalso; lia.
Qed.

(** C39: [mpu_get_host_memory] never leaves the mapped buffers: it always returns,
    and when it hands out a pointer, the whole range [addr, addr + size) lies in
    one plain region and the pointer's range lies inside that region's buffer; a
    pointer for writing is never into ROM. *)
Theorem mpu_get_host_memory_safe (c addr size : Z) (write : bool) s
    (Hwf : mpu_wf s) (Ha : is_addr addr) (Hsize : is_addr size) :
  ∃ err p s', mpu_get_host_memory c addr size write s = Ok (err, p, s') ∧ mpu_wf s' ∧
    (err ≠ STD_E_OK → err = STD_E_SEGV ∧ p = None) ∧
    (err = STD_E_OK → size ≠ 0 →
      ∃ r b blk, fst (search_tables addr size s) = Some r ∧
        r_data r = Some b ∧ host s !! b = Some blk ∧
        p = Some (Some (b, addr - r_start r)) ∧
        0 ≤ addr - r_start r ∧ addr - r_start r + size ≤ zlen blk ∧
        (write = true → r_type r = GLOBAL_MEMORY)).
Proof.
  destruct (get_host_memory_ok c addr size write s Hwf Ha Hsize) as (err & p & s' & Hr & _ & Hok). by exists err, p, s'.
Qed.
End facts.

(** ** A concrete memory map: a ROM and a RAM region on a 32-bit bus *)

Module MpuDemo.
Definition config : MpuConfig () := {|
  mpu_addr_width := addr_width_32;
  SEARCH_REGION_OPTIMIZE := true;
  CPU_HAS_PERMISSION := λ _ _ _ _ _, true;
  external_ops := λ _, mkOps () (λ _, None) (λ _, None) None;
|}.
#[local] Existing Instance config.

Definition rom : MpuAddressRegionType :=
  mkRegion READONLY_MEMORY false MPU_ADDRESS_REGION_PERM_ALL 0 8 0xFFFFFFFF (Some O)
    default_memory_operation.
Definition ram : MpuAddressRegionType :=
  mkRegion GLOBAL_MEMORY false MPU_ADDRESS_REGION_PERM_ALL 0x100 16 0xFFFFFFFF (Some 1%nat)
    default_memory_operation.
Definition mpu : mpu_state () :=
  mkMpu [rom; ram] 2 [] {[O := replicate 8 7; 1%nat := replicate 16 0]} 2 () 1 (-1) [].

Lemma external : external_ok.
Proof. by split. Qed.

Lemma space : ADDR_SPACE = 2 ^ 32.
Proof. done. Qed.

Ltac region_cases :=
  repeat match goal with
  | Hx : zget ?l ?i = Some _ |- _ =>
      let Hr := fresh "Hr" in
      pose proof (zget_range _ _ _ Hx) as Hr;
      first
        [ assert (i = 0) by (unfold zlen in Hr; simpl in Hr; lia); subst i;
          injection Hx as <-
        | assert (i = 0 ∨ i = 1) as [-> | ->] by (unfold zlen in Hr; simpl in Hr; lia);
          injection Hx as <- ]; clear Hr
  end.

Lemma wf : mpu_wf mpu.
Proof.
  split; simpl.
  - repeat constructor; rewrite ?space; simpl; try lia; intros _ b [= <-]; by eexists.
  - by repeat constructor.
  - constructor.
  - constructor.
  - intros i j r1 r2 Hne Hi Hj. region_cases; unfold disjoint_regions; simpl; lia.
  - intros b Hb. by rewrite lookup_insert_ne, lookup_singleton_ne by lia.
  - apply Forall_cons; split; [|apply Forall_singleton]; simpl; intros b [= <-]; lia.
Qed.

Lemma no_alias : unaliased mpu.
Proof. intros i j r1 r2 b Hi Hj. simpl in *. region_cases; simpl; congruence. Qed.

Lemma plain : plain_at mpu 0x104 4 ram.
Proof. split; [exists 1; reflexivity|]. split; [done|by eexists]. Qed.

Lemma get_safe_witness :
  ∃ err v' s', mpu_get_data W32 0 0x104 9 mpu = Ok (err, v', s') ∧ mpu_wf s'.
Proof. apply (mpu_get_data_safe W32 0 0x104 9 mpu external wf). unfold is_addr. rewrite space. lia. Defined.

Lemma put_safe_witness :
  ∃ err s', mpu_put_data W16 0 0x104 9 mpu = Ok (err, s') ∧ mpu_wf s'.
Proof. apply (mpu_put_data_safe W16 0 0x104 9 mpu external wf). unfold is_addr. rewrite space. lia. Defined.

Lemma get_refines_witness :
  ∃ bs s', gload (guest_byte mpu) 0x104 4 = Some bs ∧
    mpu_get_data W32 0 0x104 9 mpu = Ok (STD_E_OK, le_val bs, s') ∧ same_but_previous mpu s'.
Proof.
  apply (mpu_get_data_refines W32 0 0x104 9 mpu ram wf).
  - unfold is_addr. rewrite space. lia.
  - exact plain.
  - reflexivity.
Defined.

Lemma put_refines_witness :
  ∃ s', mpu_put_data W32 0 0x104 0xA1B2C3D4 mpu = Ok (STD_E_OK, s') ∧
    dynamic_map s' = dynamic_map mpu ∧
    ∀ a, is_addr a →
      guest_byte s' a = gstore (guest_byte mpu) 0x104 (le_bytes 4 0xA1B2C3D4) a.
Proof.
  apply (mpu_put_data_refines W32 0 0x104 0xA1B2C3D4 mpu ram wf no_alias).
  - unfold is_addr. rewrite space. lia.
  - exact plain.
  - discriminate.
  - reflexivity.
Defined.

Lemma roundtrip_witness :
  ∃ s' s'', mpu_put_data W32 0 0x104 0xA1B2C3D4 mpu = Ok (STD_E_OK, s') ∧
            mpu_get_data W32 0 0x104 0 s' = Ok (STD_E_OK, 0xA1B2C3D4, s'').
Proof.
  apply (mpu_put_get_roundtrip W32 0 0x104 0xA1B2C3D4 0 mpu ram wf no_alias).
  - unfold is_addr. rewrite space. lia.
  - exact plain.
  - discriminate.
  - reflexivity.
  - reflexivity.
  - split; [done|reflexivity].
Defined.

Lemma cache_witness :
  fst (search_region 0 0x104 4 mpu) = fst (search_tables 0x104 4 mpu) ∧
  fst (search_region_r 0 0x104 4 mpu) = fst (search_tables 0x104 4 mpu).
Proof.
  apply (search_region_cache_transparent 0 0x104 4 mpu wf).
  apply access_ok_short; [unfold is_addr; rewrite space|]; lia.
Defined.

(** A 4 KiB RAM region at the very top of a 32-bit address space. *)
Definition top_ram : MpuAddressRegionType :=
  mkRegion GLOBAL_MEMORY false MPU_ADDRESS_REGION_PERM_ALL 0xFFFFF000 0x1000 0xFFFFFFFF (Some 2%nat)
    default_memory_operation.

Lemma top_witness :
  let s := push_region mpu top_ram in
  fst (search_region 0 0xFFFFF800 4 s) ≠ Some top_ram ∧
  fst (search_region_r 0 0xFFFFF800 4 s) ≠ Some top_ram.
Proof. apply (region_at_top_unreachable 0 0xFFFFF800 4 (push_region mpu top_ram) top_ram);
  [done|reflexivity].
Defined.

Lemma rom_witness :
  ∃ s', mpu_put_data W32 0 4 0x12345678 mpu = Ok (STD_E_SEGV, s') ∧ host s' !! O = host mpu !! O.
Proof.
  eexists. split; [reflexivity|].
  apply (rom_is_immutable W32 0 4 0x12345678 mpu _ STD_E_SEGV 0 rom O wf no_alias).
  - unfold is_addr. rewrite space. lia.
  - constructor.
  - intros n w put r c a v h d e h' d'. discriminate.
  - reflexivity.
  - reflexivity.
  - reflexivity.
  - reflexivity.
Defined.

Lemma set_rom_ram_witness :
  ∃ b s' r, mpu_address_set_rom_ram MpuAddressGetType_RAM 0x200 4 None (Some [1; 2; 3; 4]) mpu
      = Ok (Some b, s') ∧
    mpu_wf s' ∧ unaliased s' ∧ dynamic_map s' = dynamic_map mpu ++ [r] ∧ host mpu !! b = None ∧
    r_start r = 0x200 ∧ r_size r = 4 ∧ r_data r = Some b ∧
    (MpuAddressGetType_RAM = MpuAddressGetType_RAM → host s' !! b = Some (replicate 4 0)) ∧
    ∀ a, is_Some (guest_byte mpu a) → guest_byte s' a = guest_byte mpu a.
Proof.
  apply (mpu_address_set_rom_ram_ok MpuAddressGetType_RAM 0x200 4 None [1; 2; 3; 4] mpu wf no_alias).
  - unfold fits. rewrite space. split_and!; try lia. repeat constructor; simpl; lia.
  - reflexivity.
  - by right.
Defined.

Lemma host_memory_witness :
  ∃ err p s', mpu_get_host_memory 0 0x100 16 true mpu = Ok (err, p, s') ∧ mpu_wf s' ∧
    (err ≠ STD_E_OK → err = STD_E_SEGV ∧ p = None) ∧
    (err = STD_E_OK → 16 ≠ 0 →
      ∃ r b blk, fst (search_tables 0x100 16 mpu) = Some r ∧
        r_data r = Some b ∧ host mpu !! b = Some blk ∧
        p = Some (Some (b, 0x100 - r_start r)) ∧
        0 ≤ 0x100 - r_start r ∧ 0x100 - r_start r + 16 ≤ zlen blk ∧
        (true = true → r_type r = GLOBAL_MEMORY)).
Proof.
  apply (mpu_get_host_memory_safe 0 0x100 16 true mpu wf);
    unfold is_addr; rewrite space; lia.
Defined.
End MpuDemo.
