(* ===== verification/MpuMalloc.v ===== *)
(** * The guest heap ([src/src/device/mpu/mpu_malloc.c], [mpu_address_set_malloc_region] of [mpu.c])

    A MALLOC area of the memory map is cut into regions of 1 MiB.  Ten regions
    form a group: the region with index [i] of a group serves blocks of
    [32 * 2^i] bytes, and a bitmap says which of its blocks are taken.  The host
    buffer of a region is allocated when its first block is.

    The allocator keeps pointers into the unit's dynamic table ([region_ref]);
    reading one after the table has moved is the fault [UseAfterFree].  What
    [malloc] returns is an argument ([None] for null). *)

From S2P Require Import Prelude Mpu MpuFacts.
From stdpp Require Import gmap.
Open Scope Z_scope.

Definition MPU_MALLOC_REGION_UNIT_SIZE : Z := 1024.
Definition MPU_MALLOC_REGION_UNIT_GROUP_NUM : Z := 10.
Definition MallocSize_Num : Z := 10.

Record MallocDataInfoType := mkInfo {
  memsize : Z;
  bitmaxnum : Z;
  bitmapsize : Z;
}.

Definition SIZE_TO_BITMAXNUM (size : Z) : Z := (MPU_MALLOC_REGION_UNIT_SIZE * 1024) / size.
Definition SIZE_TO_BITMAPSIZE (size : Z) : Z := ((SIZE_TO_BITMAXNUM size + 63) / 64) * 8.

Definition malloc_data_info (size : Z) : MallocDataInfoType :=
  mkInfo size (SIZE_TO_BITMAXNUM size) (SIZE_TO_BITMAPSIZE size).
Definition malloc_data_info_table : list MallocDataInfoType :=
  malloc_data_info <$> [32; 64; 128; 256; 512; 1024; 2048; 4096; 8192; 16384].

(** ** The bitmap of a unit *)

Definition BIT_IS_FREE8 (bits8 index : Z) : bool := Z.land (Z.shiftl 1 index) bits8 =? 0.
Definition BIT_SET (bits8 index : Z) : Z := Z.lor (Z.shiftl 1 index) bits8.
Definition BIT_CLR (bits8 index : Z) : Z := Z.land (Z.lnot (Z.shiftl 1 index)) bits8.

(** First 64-bit word that is not all ones, or the number of words. *)
Fixpoint find_word (n : nat) (bit64_off : Z) (bitmap : list Z) : outcome Z :=
  match n with
  | O => Ok bit64_off
  | S n' =>
      w ← oob (bytes_at bitmap (8 * bit64_off) 8);
      if u64 (Z.lnot (le_val w)) =? 0 then find_word n' (bit64_off + 1) bitmap
      else Ok bit64_off
  end.

(** The inner loop over the bits of a byte: the first free one, or 8. *)
Fixpoint find_mod (n : nat) (bit8_mod bits8 : Z) : Z :=
  match n with
  | O => bit8_mod
  | S n' => if BIT_IS_FREE8 bits8 bit8_mod then bit8_mod else find_mod n' (bit8_mod + 1) bits8
  end.

(** The loop over the bytes of the word.  The byte is promoted to [int] before
    it is complemented, as in the source. *)
Fixpoint find_byte (n : nat) (bit8_off bit8_mod : Z) (bitmap8 : list Z) : outcome (Z * Z) :=
  match n with
  | O => Ok (bit8_off, bit8_mod)
  | S n' =>
      b ← oob (zget bitmap8 bit8_off);
      if u32 (Z.lnot b) =? 0 then find_byte n' (bit8_off + 1) bit8_mod bitmap8
      else
        let m := find_mod 8 0 b in
        if m <? 8 then Ok (bit8_off, m) else find_byte n' (bit8_off + 1) m bitmap8
  end.

Definition set_bit (bitmap : option (list Z)) (bitmaxnum bitmapsize : Z)
    : outcome (Z * option (list Z)) :=
  match bitmap with
  | None => Fault NullDeref
  | Some bm =>
      let bit64_num := bitmapsize / 8 in
      bit64_off ← find_word (Z.to_nat bit64_num) 0 bm;
      if bit64_off =? bit64_num then Ok (-1, Some bm)
      else
        w ← oob (bytes_at bm (8 * bit64_off) 8);
        '(bit8_off, bit8_mod) ← find_byte 8 0 0 w;
        let ret := u32 (bit64_off * 64 + bit8_off * 8 + bit8_mod) in
        if bitmaxnum <=? ret then Ok (-1, Some bm)
        else
          let a := 8 * bit64_off + bit8_off in
          b ← oob (zget bm a);
          bm' ← oob (zset bm a (u8 (BIT_SET b bit8_mod)));
          Ok (ret, Some bm')
  end.

(** ** Units, groups and the area *)

Record MallocRegionUnitType := mkUnit {
  u_region : option region_ref;
  u_bitmap : option (list Z);
  bitfreenum : Z;
}.

Record MallocRegionGroupType := mkGroup {
  unit_num : Z;
  unit_ : list MallocRegionUnitType;
}.

(** [groups] is [None] while the pointer is null; [group_num] is its length. *)
Record MallocRegionType := mkMallocRegion { groups : option (list MallocRegionGroupType) }.

Definition malloc_region_init : MallocRegionType := mkMallocRegion None.
Definition group_list (m : MallocRegionType) : list MallocRegionGroupType := default [] (groups m).
Definition group_num (m : MallocRegionType) : Z := zlen (group_list m).

Definition get_unit (m : MallocRegionType) (j i : Z) : outcome MallocRegionUnitType :=
  g ← oob (zget (group_list m) j);
  oob (zget (unit_ g) i).

Definition put_unit (m : MallocRegionType) (j i : Z) (u : MallocRegionUnitType) : MallocRegionType :=
  match zget (group_list m) j with
  | None => m
  | Some g =>
      mkMallocRegion (Some (zput (group_list m) j (mkGroup (unit_num g) (zput (unit_ g) i u))))
  end.

Definition size_of_class (i : Z) : outcome MallocDataInfoType :=
  oob (zget malloc_data_info_table i).

(** The smallest class that is large enough, or -1. *)
Fixpoint find_class (i : Z) (l : list MallocDataInfoType) (size : Z) : Z :=
  match l with
  | [] => -1
  | d :: l' => if size <=? memsize d then i else find_class (i + 1) l' size
  end.

(** One pass over the groups for class [i], and the pass over the classes. *)
Fixpoint find_group (n : nat) (j i : Z) (m : MallocRegionType)
    : outcome (option (Z * MallocRegionUnitType)) :=
  match n with
  | O => Ok None
  | S n' =>
      u ← get_unit m j i;
      if 0 <? bitfreenum u then Ok (Some (j, u)) else find_group n' (j + 1) i m
  end.

Fixpoint find_free (n : nat) (i : Z) (m : MallocRegionType)
    : outcome (option (Z * Z * MallocRegionUnitType)) :=
  match n with
  | O => Ok None
  | S n' =>
      o ← find_group (Z.to_nat (group_num m)) 0 i m;
      match o with
      | Some (j, u) => Ok (Some (i, j, u))
      | None => find_free n' (i + 1) m
      end
  end.

Section malloc.
Context {D : Type} `{MpuConfig D}.
Implicit Types (s : mpu_state D) (m : MallocRegionType).

(** [*region]: a null pointer, a pointer into a table that has been
    reallocated, or a live one. *)
Definition deref_region s (p : option region_ref) : outcome (Z * MpuAddressRegionType) :=
  match p with
  | None => Fault NullDeref
  | Some (g, x) =>
      if decide (g = map_gen s) then r ← oob (zget (dynamic_map s) x); Ok (x, r)
      else Fault UseAfterFree
  end.

Definition set_region_data s (x : Z) (r : MpuAddressRegionType) (b : nat) : mpu_state D :=
  with_map s
    (zput (dynamic_map s) x
       (mkRegion (r_type r) (r_is_malloc r) (r_permission r) (r_start r) (r_size r) (r_mask r)
          (Some b) (r_ops r)))
    (map_gen s).

Definition mpu_malloc_get_memory (size : Z) (mem : option (list Z)) s m
    : outcome (Z * mpu_state D * MallocRegionType) :=
  let candidate_index := find_class 0 malloc_data_info_table size in
  if candidate_index <? 0 then Ok (0, s, m)
  else
    found ← find_free (Z.to_nat (MallocSize_Num - candidate_index)) candidate_index m;
    match found with
    | None => Ok (0, s, m)
    | Some (i, j, unit) =>
        d ← size_of_class i;
        '(index, bm) ← set_bit (u_bitmap unit) (bitmaxnum d) (bitmapsize d);
        if index <? 0 then Ok (0, s, put_unit m j i (mkUnit (u_region unit) bm (bitfreenum unit)))
        else
          '(x, r) ← deref_region s (u_region unit);
          s' ←
            match r_data r with
            | Some _ => Ok s
            | None =>
                match mem with
                | None => Fault AssertFail
                | Some blk =>
                    let '(b, s') := alloc_block s blk in Ok (set_region_data s' x r b)
                end
            end;
          let unit' := mkUnit (u_region unit) bm (u32 (bitfreenum unit - 1)) in
          Ok (u32 (uaddr (r_start r + u32 (index * memsize d))), s', put_unit m j i unit')
    end.

(** [search_unit] visits class by class, and group by group within a class. *)
Fixpoint search_group (n : nat) (j i addr : Z) s m
    : outcome (option (Z * MallocRegionUnitType * MpuAddressRegionType)) :=
  match n with
  | O => Ok None
  | S n' =>
      u ← get_unit m j i;
      '(_, r) ← deref_region s (u_region u);
      if (r_start r <=? addr) && (addr <? uaddr (r_start r + r_size r)) then Ok (Some (j, u, r))
      else search_group n' (j + 1) i addr s m
  end.

Fixpoint search_class (n : nat) (i addr : Z) s m
    : outcome (option (Z * Z * MallocRegionUnitType * MpuAddressRegionType)) :=
  match n with
  | O => Ok None
  | S n' =>
      o ← search_group (Z.to_nat (group_num m)) 0 i addr s m;
      match o with
      | Some (j, u, r) => Ok (Some (i, j, u, r))
      | None => search_class n' (i + 1) addr s m
      end
  end.

Definition search_unit (addr : Z) s m
    : outcome (option (Z * Z * MallocRegionUnitType * MpuAddressRegionType)) :=
  search_class (Z.to_nat MallocSize_Num) 0 addr s m.

Definition mpu_malloc_rel_memory (addr : Z) s m : outcome MallocRegionType :=
  o ← search_unit addr s m;
  match o with
  | None => Ok m
  | Some (i, j, unit, r) =>
      d ← size_of_class i;
      let bits := u32 (uaddr (addr - r_start r) / memsize d) in
      let bit64_off := bits / 64 in
      let bit64_mod := bits mod 64 in
      let bit8_off := bit64_mod / 8 in
      let bit8_mod := bit64_mod mod 8 in
      let a := 8 * bit64_off + bit8_off in
      match u_bitmap unit with
      | None => Fault NullDeref
      | Some bm =>
          b ← oob (zget bm a);
          bm' ← oob (zset bm a (u8 (BIT_CLR b bit8_mod)));
          Ok (put_unit m j i (mkUnit (u_region unit) (Some bm') (u32 (bitfreenum unit + 1))))
      end
  end.

Definition mpu_malloc_ref_size (addr : Z) s m : outcome Z :=
  o ← search_unit addr s m;
  match o with
  | None => Fault AssertFail
  | Some (i, _, _, _) => d ← size_of_class i; Ok (memsize d)
  end.

(** ** Registering regions *)

Definition group_init : MallocRegionGroupType :=
  mkGroup 0 ((λ d, mkUnit None None (bitmaxnum d)) <$> malloc_data_info_table).

(** [malloc_ok]: the bitmap could be allocated; it is cleared before the null check. *)
Definition group_add_region (malloc_ok : bool) (g : MallocRegionGroupType) (region : option region_ref)
    : outcome MallocRegionGroupType :=
  let index := unit_num g in
  u ← oob (zget (unit_ g) index);
  d ← size_of_class index;
  if negb malloc_ok then Fault NullDeref
  else
    let u' := mkUnit region (Some (replicate (Z.to_nat (bitmapsize d)) 0)) (bitfreenum u) in
    Ok (mkGroup (u32 (index + 1)) (zput (unit_ g) index u')).

Definition group_has_free_unit (g : MallocRegionGroupType) : bool :=
  (unit_num g <? MallocSize_Num) ||
  existsb (λ u, bool_decide (u_region u = None)) (take (Z.to_nat (unit_num g)) (unit_ g)).

(** The group to add to, appended if it is new, and its index. *)
Definition group_alloc (malloc_ok : bool) m : outcome (Z * MallocRegionType) :=
  if negb malloc_ok then Fault AssertFail
  else Ok (group_num m, mkMallocRegion (Some (group_list m ++ [group_init]))).

Definition group_get (malloc_ok : bool) m : outcome (Z * MallocRegionType) :=
  match groups m with
  | None => group_alloc malloc_ok m
  | Some gs =>
      let index := group_num m - 1 in
      g ← oob (zget gs index);
      if group_has_free_unit g then Ok (index, m) else group_alloc malloc_ok m
  end.

Definition mpu_malloc_add_region (malloc_ok : bool) (region : option region_ref) m
    : outcome MallocRegionType :=
  '(j, m) ← group_get malloc_ok m;
  g ← oob (zget (group_list m) j);
  g' ← group_add_region malloc_ok g region;
  Ok (mkMallocRegion (Some (zput (group_list m) j g'))).

Definition mpu_address_set_malloc_region (malloc_ok : bool) (addr size : Z) s m
    : outcome MallocRegionType :=
  let region := match mpu_address_search_region addr size s with
                | Some (x, _) => Some (map_gen s, x)
                | None => None
                end in
  mpu_malloc_add_region malloc_ok region m.
End malloc.
