(* ===== verification/MpuMallocFacts.v ===== *)
(** * The guest heap: what its operations guarantee

    The bitmap of a unit is read as a set of taken blocks ([bit_of]); [set_bit]
    takes the first free one.  A heap is well formed ([heap_wf]) when every unit
    has its region and a bitmap whose free bits its counter counts, and the
    regions are disjoint.  Under that invariant allocation and release are the
    insertion and the removal of one block in the set of live blocks, and live
    blocks never overlap. *)

From S2P Require Import Prelude Mpu MpuFacts MpuMalloc.
From stdpp Require Import gmap.
Open Scope Z_scope.

(** ** Bits of bytes *)

Lemma testbit_shiftl_1 i j : 0 ≤ i → Z.testbit (Z.shiftl 1 i) j = (i =? j).
Proof. intros. rewrite Z.shiftl_1_l. by apply Z.pow2_bits_eqb. Qed.

Lemma BIT_IS_FREE8_spec b i : 0 ≤ i → BIT_IS_FREE8 b i = negb (Z.testbit b i).
Proof.
  intros Hi. unfold BIT_IS_FREE8. destruct (Z.testbit b i) eqn:E; simpl.
  - apply Z.eqb_neq. intros H0. assert (Z.testbit (Z.land (Z.shiftl 1 i) b) i = false) as Hf
      by (by rewrite H0, Z.bits_0).
    rewrite Z.land_spec, testbit_shiftl_1, Z.eqb_refl, E in Hf by done. done.
  - apply Z.eqb_eq. apply Z.bits_inj'. intros j Hj.
    rewrite Z.land_spec, testbit_shiftl_1, Z.bits_0 by done.
    destruct (Z.eqb_spec i j) as [->|]; [by rewrite E|done].
Qed.

Lemma byte_high b j : is_byte b → 8 ≤ j → Z.testbit b j = false.
Proof.
  intros [? ?] ?. destruct (decide (b = 0)) as [->|]; [apply Z.bits_0|].
  apply Z.bits_above_log2; [lia|]. assert (Z.log2 b < 8); [|lia].
  apply Z.log2_lt_pow2; lia.
Qed.

Lemma byte_ext b c : is_byte b → is_byte c →
  (∀ j, 0 ≤ j < 8 → Z.testbit b j = Z.testbit c j) → b = c.
Proof.
  intros Hb Hc He. apply Z.bits_inj'. intros j Hj.
  destruct (decide (j < 8)); [by apply He|]. by rewrite !byte_high by (done || lia).
Qed.

Lemma wrap_bit w x j : 0 ≤ w → Z.testbit (wrap w x) j = (j <? w) && Z.testbit x j.
Proof.
  intros. unfold wrap. destruct (Z.ltb_spec j w).
  - destruct (decide (0 ≤ j)); [by apply Z.mod_pow2_bits_low|]. by rewrite !Z.testbit_neg_r by lia.
  - by apply Z.mod_pow2_bits_high.
Qed.

Lemma byte_u8 x : is_byte (u8 x).
Proof. apply wrap_in_width. lia. Qed.

Lemma BIT_SET_bit b i j : 0 ≤ i < 8 → 0 ≤ j < 8 →
  Z.testbit (u8 (BIT_SET b i)) j = (i =? j) || Z.testbit b j.
Proof.
  intros. rewrite wrap_bit by lia. unfold BIT_SET.
  rewrite Z.lor_spec, testbit_shiftl_1 by lia. by replace (j <? 8) with true by lia.
Qed.

Lemma BIT_CLR_bit b i j : 0 ≤ i < 8 → 0 ≤ j < 8 →
  Z.testbit (u8 (BIT_CLR b i)) j = negb (i =? j) && Z.testbit b j.
Proof.
  intros. rewrite wrap_bit by lia. unfold BIT_CLR.
  rewrite Z.land_spec, Z.lnot_spec, testbit_shiftl_1 by lia. by replace (j <? 8) with true by lia.
Qed.

Lemma byte_255_bits b : is_byte b → (b = 255 ↔ ∀ j, 0 ≤ j < 8 → Z.testbit b j = true).
Proof.
  intros Hb. split.
  - intros -> j Hj. change 255 with (Z.ones 8). apply Z.ones_spec_low. lia.
  - intros Ha. apply byte_ext; [done|split; lia|]. intros j Hj. rewrite Ha by done.
    change 255 with (Z.ones 8). symmetry. apply Z.ones_spec_low. lia.
Qed.

Lemma u64_lnot_0 w : in_width 64 w → (u64 (Z.lnot w) =? 0) = (w =? 2 ^ 64 - 1).
Proof.
  unfold in_width, wrap, Z.lnot. intros [? ?].
  replace (Z.pred (- w)) with (2 ^ 64 - 1 - w + (-1) * 2 ^ 64) by lia.
  rewrite Z.mod_add, Z.mod_small by lia. lia.
Qed.

Lemma u32_lnot_byte b : is_byte b → (u32 (Z.lnot b) =? 0) = false.
Proof.
  unfold is_byte, wrap, Z.lnot. intros [? ?].
  replace (Z.pred (- b)) with (2 ^ 32 - 1 - b + (-1) * 2 ^ 32) by lia.
  rewrite Z.mod_add, Z.mod_small by lia. lia.
Qed.

Lemma le_val_ones bs : Forall is_byte bs →
  (le_val bs = 2 ^ (8 * zlen bs) - 1 ↔ Forall (λ b, b = 255) bs).
Proof.
  induction 1 as [|b bs Hb Hbs IH]; [done|].
  replace (8 * zlen (b :: bs)) with (8 + 8 * zlen bs) by (unfold zlen; simpl; lia).
  rewrite Z.pow_add_r by (pose proof (zlen_nonneg bs); lia). change (2 ^ 8) with 256.
  cbn [le_val]. rewrite Forall_cons. pose proof (le_val_range bs Hbs). unfold is_byte in Hb.
  rewrite <- IH. lia.
Qed.

(** ** The bitmap as a set *)

Definition bit_of (bm : list Z) (k : Z) : bool :=
  Z.testbit (default 0 (zget bm (k / 8))) (k mod 8).

Lemma bit_of_byte bm a b j : zget bm a = Some b → 0 ≤ j < 8 → bit_of bm (8 * a + j) = Z.testbit b j.
Proof.
  intros Ha Hj. unfold bit_of.
  replace ((8 * a + j) / 8) with a by (apply Z.div_unique with j; lia).
  replace ((8 * a + j) mod 8) with j by (apply Z.mod_unique with a; lia).
  by rewrite Ha.
Qed.

Lemma bit_of_zput bm a b' k : 0 ≤ a < zlen bm → 0 ≤ k →
  bit_of (zput bm a b') k = if k / 8 =? a then Z.testbit b' (k mod 8) else bit_of bm k.
Proof.
  intros Ha Hk. unfold bit_of. destruct (Z.eqb_spec (k / 8) a) as [->|].
  - by rewrite zget_zput_eq.
  - by rewrite zget_zput_ne by lia.
Qed.

Lemma bit_set_at bm k b j : 0 ≤ k → 0 ≤ j → zget bm (k / 8) = Some b →
  bit_of (zput bm (k / 8) (u8 (BIT_SET b (k mod 8)))) j = (k =? j) || bit_of bm j.
Proof.
  intros Hk Hj Hb. pose proof (zget_range _ _ _ Hb).
  rewrite bit_of_zput by lia.
  destruct (Z.eqb_spec (j / 8) (k / 8)) as [He|He].
  - rewrite BIT_SET_bit by (apply Z.mod_pos_bound; lia).
    unfold bit_of. rewrite He, Hb. simpl. f_equal.
    zdiv.
  - replace (k =? j) with false by (symmetry; apply Z.eqb_neq; congruence). done.
Qed.

Lemma bit_clr_at bm k b j : 0 ≤ k → 0 ≤ j → zget bm (k / 8) = Some b →
  bit_of (zput bm (k / 8) (u8 (BIT_CLR b (k mod 8)))) j = negb (k =? j) && bit_of bm j.
Proof.
  intros Hk Hj Hb. pose proof (zget_range _ _ _ Hb).
  rewrite bit_of_zput by lia.
  destruct (Z.eqb_spec (j / 8) (k / 8)) as [He|He].
  - rewrite BIT_CLR_bit by (apply Z.mod_pos_bound; lia).
    unfold bit_of. rewrite He, Hb. simpl. do 2 f_equal.
    zdiv.
  - replace (k =? j) with false by (symmetry; apply Z.eqb_neq; congruence). done.
Qed.

(** ** [set_bit] takes the first free bit *)

Lemma find_mod_spec n m b : 0 ≤ m →
  let r := find_mod n m b in
  m ≤ r ≤ m + Z.of_nat n ∧
  (∀ j, m ≤ j < r → Z.testbit b j = true) ∧
  (r < m + Z.of_nat n → Z.testbit b r = false).
Proof.
  revert m. induction n as [|n IH]; intros m Hm; simpl.
  { split_and!; lia. }
  rewrite BIT_IS_FREE8_spec by done. destruct (Z.testbit b m) eqn:E; simpl.
  - destruct (IH (m + 1)) as (H1 & H2 & H3); [lia|]. split_and!; [lia|lia| |intros; apply H3; lia].
    intros j Hj. destruct (decide (j = m)) as [->|]; [done|]. apply H2. lia.
  - split_and!; [lia|lia|lia|done].
Qed.

Lemma find_byte_spec n off md w : Forall is_byte w → 0 ≤ off → off + Z.of_nat n = zlen w →
  ∃ o mo, find_byte n off md w = Ok (o, mo) ∧ off ≤ o ≤ zlen w ∧
    (∀ a, off ≤ a < o → zget w a = Some 255) ∧
    (o < zlen w → ∃ b, zget w o = Some b ∧ 0 ≤ mo < 8 ∧ Z.testbit b mo = false ∧
      ∀ j, 0 ≤ j < mo → Z.testbit b j = true).
Proof.
  intros Hw. revert off md. induction n as [|n IH]; intros off md Ho Hl; simpl.
  { exists off, md. split_and!; [done|lia|lia|lia|lia]. }
  destruct (zget_is_Some w off) as [b Hb]; [lia|]. rewrite Hb. simpl.
  assert (is_byte b) as Hbb.
  { rewrite Forall_forall in Hw. by apply Hw, (zget_elem _ off). }
  rewrite u32_lnot_byte by done. fold (find_mod 8 0 b).
  destruct (find_mod_spec 8 0 b) as (H1 & H2 & H3); [lia|].
  destruct (Z.ltb_spec (find_mod 8 0 b) 8).
  - exists off, (find_mod 8 0 b). split_and!; [done|lia|lia|lia|].
    intros _. exists b. split_and!; [done|lia|lia|apply H3; lia|]. intros. apply H2. lia.
  - assert (b = 255) as ->. { apply byte_255_bits; [done|]. intros j Hj. apply H2. lia. }
    destruct (IH (off + 1) (find_mod 8 0 255)) as (o & mo & He & Hr & Ha & Hf); [lia|lia|].
    exists o, mo. split_and!; [done|lia|lia| |done].
    intros a Ha'. destruct (decide (a = off)) as [->|]; [done|]. apply Ha. lia.
Qed.

Definition bitmap_wf (bm : list Z) (nwords : Z) : Prop :=
  Forall is_byte bm ∧ zlen bm = 8 * nwords.

Lemma bitmap_word bm nw o : bitmap_wf bm nw → 0 ≤ o < nw →
  ∃ w, bytes_at bm (8 * o) 8 = Some w ∧ Forall is_byte w ∧ zlen w = 8 ∧
       ∀ a, 0 ≤ a < 8 → zget w a = zget bm (8 * o + a).
Proof.
  intros [Hb Hl] Ho. destruct (bytes_at_Some bm (8 * o) 8) as (w & Hw & Hwl); [lia|lia|lia|].
  exists w. split_and!; [done| |done|].
  - unfold bytes_at in Hw. destruct (_ && _); [|done]. injection Hw as <-.
    by apply Forall_take, Forall_drop.
  - intros a Ha. by apply (bytes_at_lookup bm (8 * o) 8).
Qed.

(** A word is all ones exactly when none of its 64 blocks is free. *)
Lemma word_full bm nw o w : bitmap_wf bm nw → 0 ≤ o < nw →
  bytes_at bm (8 * o) 8 = Some w →
  (u64 (Z.lnot (le_val w)) =? 0) = true ↔ ∀ a, 0 ≤ a < 8 → zget w a = Some 255.
Proof.
  intros Hbm Ho Hw. destruct (bitmap_word bm nw o Hbm Ho) as (w' & Hw' & Hb & Hl & _).
  rewrite Hw in Hw'. injection Hw' as <-. pose proof (le_val_range w Hb) as Hr. rewrite Hl in Hr.
  rewrite u64_lnot_0, Z.eqb_eq by exact Hr.
  pose proof (le_val_ones w Hb) as Ho'. rewrite Hl in Ho'. change (8 * 8) with 64 in Ho'.
  rewrite Ho'. split.
  - intros Hf a Ha. destruct (zget_is_Some w a) as [b Hb']; [lia|]. rewrite Hb'.
    rewrite Forall_forall in Hf. f_equal. by apply Hf, (zget_elem _ a).
  - intros Ha. apply Forall_lookup. intros i b Hi. pose proof (lookup_lt_Some _ _ _ Hi).
    rewrite <- zget_lookup, Ha in Hi by (unfold zlen in Hl; lia). congruence.
Qed.

Lemma byte_full_bits bm a k : zget bm a = Some 255 → 8 * a ≤ k < 8 * a + 8 → bit_of bm k = true.
Proof.
  intros Ha Hk. replace k with (8 * a + (k - 8 * a)) by lia.
  rewrite (bit_of_byte _ _ 255) by (done || lia). apply byte_255_bits; [split; lia|done|lia].
Qed.

Lemma find_word_spec bm nw n o : bitmap_wf bm nw → 0 ≤ o → o + Z.of_nat n = nw →
  ∃ o', find_word n o bm = Ok o' ∧ o ≤ o' ≤ nw ∧
    (∀ k, 64 * o ≤ k < 64 * o' → bit_of bm k = true) ∧
    (o' < nw → ∃ w, bytes_at bm (8 * o') 8 = Some w ∧
      ¬ ∀ a, 0 ≤ a < 8 → zget w a = Some 255).
Proof.
  intros Hbm. revert o. induction n as [|n IH]; intros o Ho Hl; simpl.
  { exists o. split_and!; [done|lia|lia|lia|lia]. }
  destruct (bitmap_word bm nw o Hbm) as (w & Hw & Hb & Hwl & Hz); [lia|]. rewrite Hw. simpl.
  pose proof (word_full bm nw o w Hbm ltac:(lia) Hw) as Hfull.
  destruct (_ =? 0) eqn:E.
  - destruct (IH (o + 1)) as (o' & Hf & Hr & Hk & He); [lia|lia|].
    exists o'. split_and!; [done|lia|lia| |done].
    intros k Hk'. destruct (decide (64 * (o + 1) ≤ k)); [apply Hk; lia|].
    apply (byte_full_bits _ (k / 8)); [|zdiv].
    replace (k / 8) with (8 * o + (k / 8 - 8 * o)) by lia.
    rewrite <- Hz by (zdiv).
    apply Hfull; [done|]. zdiv.
  - exists o. split_and!; [done|lia|lia|lia|]. intros _. exists w. split; [done|].
    intros Ha. apply Hfull in Ha. congruence.
Qed.

(** Either every block is taken and nothing changes, or the first free block is taken. *)
Lemma set_bit_spec bm nw : bitmap_wf bm nw → 64 * nw < 2 ^ 31 →
  (set_bit (Some bm) (64 * nw) (8 * nw) = Ok (-1, Some bm) ∧
    ∀ k, 0 ≤ k < 64 * nw → bit_of bm k = true) ∨
  (∃ k b, 0 ≤ k < 64 * nw ∧ zget bm (k / 8) = Some b ∧ bit_of bm k = false ∧
    (∀ j, 0 ≤ j < k → bit_of bm j = true) ∧
    set_bit (Some bm) (64 * nw) (8 * nw)
      = Ok (k, Some (zput bm (k / 8) (u8 (BIT_SET b (k mod 8)))))).
Proof.
  intros Hbm Hs. assert (0 ≤ nw) by (destruct Hbm; pose proof (zlen_nonneg bm); lia).
  unfold set_bit. replace (8 * nw / 8) with nw by (apply Z.div_unique with 0; lia).
  destruct (find_word_spec bm nw (Z.to_nat nw) 0 Hbm) as (o & -> & Hr & Hk & Hf); [lia|lia|].
  cbn [mbind outcome_bind]. destruct (Z.eqb_spec o nw) as [->|Ho].
  { left. split; [done|]. intros. apply Hk. lia. }
  right. destruct Hf as (w & Hw & Hnf); [lia|]. rewrite Hw. cbn [oob mbind outcome_bind].
  destruct (bitmap_word bm nw o Hbm) as (w' & Hw' & Hb & Hl & Hz); [lia|].
  rewrite Hw in Hw'. injection Hw' as <-.
  destruct (find_byte_spec 8 0 0 w Hb) as (bo & mo & -> & Hbr & Hpre & Hbit); [lia|lia|].
  cbn [mbind outcome_bind]. assert (bo < 8) as Hbo.
  { destruct (decide (bo < 8)); [done|]. exfalso. apply Hnf. intros. apply Hpre. lia. }
  destruct Hbit as (b & Hgb & Hmo & Hfree & Hlow); [lia|].
  set (k := 64 * o + 8 * bo + mo).
  assert (Hk8 : k / 8 = 8 * o + bo) by (symmetry; apply Z.div_unique with mo; lia).
  assert (Hkm : k mod 8 = mo) by (symmetry; apply Z.mod_unique with (8 * o + bo); lia).
  assert (Hgk : zget bm (8 * o + bo) = Some b) by (rewrite <- Hz by lia; done).
  assert (Hu : u32 (o * 64 + bo * 8 + mo) = k) by (unfold k; rewrite wrap_id by (unfold in_width; lia); lia).
  rewrite Hu. replace (64 * nw <=? k) with false by lia.
  rewrite Hgk. cbn [oob mbind outcome_bind].
  rewrite (proj2 (zset_Some bm (8 * o + bo) _ _)) by (split; [by apply (zget_range _ _ b)|done]).
  exists k, b. rewrite Hk8, Hkm. split_and!; [lia|lia|done| | |done].
  - replace k with (8 * (8 * o + bo) + mo) by lia. by rewrite (bit_of_byte _ _ b).
  - intros j Hj. destruct (decide (j < 64 * o)); [apply Hk; lia|].
    destruct (decide (j < 64 * o + 8 * bo)).
    + apply (byte_full_bits _ (j / 8)); [|zdiv].
      replace (j / 8) with (8 * o + (j / 8 - 8 * o)) by lia.
      rewrite <- Hz by (zdiv).
      apply Hpre. zdiv.
    + replace j with (8 * (8 * o + bo) + (j - 64 * o - 8 * bo)) by lia.
      rewrite (bit_of_byte _ _ b) by (done || lia). apply Hlow. lia.
Qed.

(** ** Counting free blocks *)

Fixpoint free_count (bm : list Z) (n : nat) : Z :=
  match n with
  | O => 0
  | S n' => free_count bm n' + if bit_of bm (Z.of_nat n') then 0 else 1
  end.

Lemma free_count_range bm n : 0 ≤ free_count bm n ≤ Z.of_nat n.
Proof. induction n; simpl; [lia|]. destruct (bit_of _ _); lia. Qed.

Lemma free_count_pos bm n k : 0 ≤ k < Z.of_nat n → bit_of bm k = false → 0 < free_count bm n.
Proof.
  intros Hk Hb. induction n as [|n IH]; [lia|]. simpl. pose proof (free_count_range bm n).
  destruct (decide (k = Z.of_nat n)) as [->|]; [rewrite Hb; lia|].
  specialize (IH ltac:(lia)). destruct (bit_of bm (Z.of_nat n)); lia.
Qed.

Lemma free_count_zero bm n : (∀ k, 0 ≤ k < Z.of_nat n → bit_of bm k = true) → free_count bm n = 0.
Proof.
  intros Hb. induction n as [|n IH]; [done|]. simpl. rewrite Hb by lia. rewrite IH; [done|].
  intros. apply Hb. lia.
Qed.

(** [bm'] differs from [bm] only at block [k], which it takes. *)
Lemma free_count_take bm bm' k n :
  (∀ j, 0 ≤ j → bit_of bm' j = (k =? j) || bit_of bm j) → bit_of bm k = false → 0 ≤ k →
  free_count bm' n = free_count bm n - if k <? Z.of_nat n then 1 else 0.
Proof.
  intros He Hk Hp. induction n as [|n IH]; [cbn [free_count]; case_match; lia|].
  cbn [free_count]. rewrite IH, He by lia.
  destruct (Z.eqb_spec k (Z.of_nat n)) as [->|]; cbn [orb]; [rewrite Hk|];
    repeat case_match; lia.
Qed.

Lemma free_count_release bm bm' k n :
  (∀ j, 0 ≤ j → bit_of bm' j = negb (k =? j) && bit_of bm j) → bit_of bm k = true → 0 ≤ k →
  free_count bm' n = free_count bm n + if k <? Z.of_nat n then 1 else 0.
Proof.
  intros He Hk Hp. induction n as [|n IH]; [cbn [free_count]; case_match; lia|].
  cbn [free_count]. rewrite IH, He by lia.
  destruct (Z.eqb_spec k (Z.of_nat n)) as [->|]; cbn [negb andb]; [rewrite Hk|];
    repeat case_match; lia.
Qed.

(** ** Size classes *)

Definition class_size (i : Z) : Z := 32 * 2 ^ i.
Definition nwords (i : Z) : Z := 512 / 2 ^ i.

Ltac class_cases i :=
  assert (i = 0 ∨ i = 1 ∨ i = 2 ∨ i = 3 ∨ i = 4 ∨ i = 5 ∨ i = 6 ∨ i = 7 ∨ i = 8 ∨ i = 9) as Hcase by lia;
  destruct_or? Hcase; subst i.

Lemma class_info i : 0 ≤ i < 10 →
  size_of_class i = Ok (mkInfo (class_size i) (64 * nwords i) (8 * nwords i)).
Proof. intros. class_cases i; reflexivity. Qed.

Lemma class_bounds i : 0 ≤ i < 10 →
  32 ≤ class_size i ≤ 16384 ∧ 1 ≤ nwords i ≤ 512 ∧ class_size i * (64 * nwords i) = 2 ^ 20.
Proof. intros. class_cases i; vm_compute; intuition congruence. Qed.

Lemma class_size_mono i i' : 0 ≤ i ≤ i' → class_size i ≤ class_size i'.
Proof. intros. unfold class_size. apply Zmult_le_compat_l; [apply Z.pow_le_mono_r|]; lia. Qed.

(** The candidate class is the smallest one that is large enough. *)
Lemma find_class_spec size :
  let c := find_class 0 malloc_data_info_table size in
  (c = -1 ∧ 16384 < size) ∨
  (0 ≤ c < 10 ∧ size ≤ class_size c ∧ ∀ i, 0 ≤ i < c → class_size i < size).
Proof.
  simpl. repeat (case_match; [right; split; [lia|]; split; [unfold class_size; simpl; lia|];
    intros i Hi; first [lia | class_cases i; unfold class_size; simpl; lia]|]).
  left. split; [done|lia].
Qed.

(** ** The invariant *)

Section heap.
Context {D : Type} `{MpuConfig D}.
Implicit Types (s : mpu_state D) (m : MallocRegionType) (u : MallocRegionUnitType).

Record unit_region_ok s u (x : Z) (r : MpuAddressRegionType) : Prop := {
  ur_ref : u_region u = Some (map_gen s, x);
  ur_get : zget (dynamic_map s) x = Some r;
  ur_size : r_size r = 2 ^ 20;
  ur_start : 0 < r_start r;
  ur_end : r_start r + 2 ^ 20 ≤ 2 ^ 32;
}.

Record unit_bitmap_ok (i : Z) u (bm : list Z) : Prop := {
  ub_bitmap : u_bitmap u = Some bm;
  ub_wf : bitmap_wf bm (nwords i);
  ub_count : bitfreenum u = free_count bm (Z.to_nat (64 * nwords i));
}.

Record heap_wf s m : Prop := {
  hw_mpu : mpu_wf s;
  hw_unit : ∀ j i, 0 ≤ j < group_num m → 0 ≤ i < 10 →
    ∃ u x r bm, get_unit m j i = Ok u ∧ unit_region_ok s u x r ∧ unit_bitmap_ok i u bm;
  hw_range : ∀ j i u, get_unit m j i = Ok u → 0 ≤ j < group_num m ∧ 0 ≤ i < 10;
  hw_distinct : ∀ j i u j' i' u', get_unit m j i = Ok u → get_unit m j' i' = Ok u' →
    u_region u = u_region u' → j = j' ∧ i = i';
  hw_complete : Forall (λ g, unit_num g = 10) (group_list m);
  hw_nonempty : groups m ≠ Some [];
}.

(** A block: group, class and index.  Its address, whether it is taken. *)
Abbreviation block := (Z * Z * Z)%type.

Definition valid_block m (b : block) : Prop :=
  let '(j, i, k) := b in 0 ≤ j < group_num m ∧ 0 ≤ i < 10 ∧ 0 ≤ k < 64 * nwords i.

Definition live m (b : block) : Prop :=
  let '(j, i, k) := b in
  valid_block m b ∧
  ∃ u bm, get_unit m j i = Ok u ∧ u_bitmap u = Some bm ∧ bit_of bm k = true.

Definition block_addr s m (b : block) (a : Z) : Prop :=
  let '(j, i, k) := b in
  ∃ u x r, get_unit m j i = Ok u ∧ unit_region_ok s u x r ∧ a = r_start r + k * class_size i.

(** ** Reading and updating units *)

Lemma get_unit_Some m j i u :
  get_unit m j i = Ok u ↔ ∃ g, zget (group_list m) j = Some g ∧ zget (unit_ g) i = Some u.
Proof.
  unfold get_unit. split.
  - intros Hg. inv_ok. subst. eauto.
  - intros (g & -> & Hu). simpl. by rewrite Hu.
Qed.

Lemma group_list_put m j i u g : zget (group_list m) j = Some g →
  group_list (put_unit m j i u) = zput (group_list m) j (mkGroup (unit_num g) (zput (unit_ g) i u)).
Proof. intros Hg. unfold put_unit. by rewrite Hg. Qed.

Lemma get_put_unit m j i u0 u j' i' : get_unit m j i = Ok u0 →
  get_unit (put_unit m j i u) j' i' = if (j =? j') && (i =? i') then Ok u else get_unit m j' i'.
Proof.
  intros (g & Hg & Hu)%get_unit_Some. pose proof (zget_range _ _ _ Hg). pose proof (zget_range _ _ _ Hu).
  unfold get_unit. rewrite (group_list_put m j i u g Hg).
  destruct (Z.eqb_spec j j') as [<-|].
  - rewrite zget_zput_eq, Hg by done. cbn [oob mbind outcome_bind unit_ andb].
    destruct (Z.eqb_spec i i') as [<-|]; [by rewrite zget_zput_eq|].
    by rewrite zget_zput_ne by lia.
  - by rewrite zget_zput_ne by lia.
Qed.

Lemma group_num_put m j i u : group_num (put_unit m j i u) = group_num m.
Proof.
  unfold group_num. destruct (zget (group_list m) j) as [g|] eqn:E.
  - by rewrite (group_list_put m j i u g), zlen_zput.
  - unfold put_unit. by rewrite E.
Qed.

(** The unit keeps its region; only its bitmap and counter change. *)
Lemma live_put m j i u0 bm bm' n : get_unit m j i = Ok u0 → u_bitmap u0 = Some bm →
  let m' := put_unit m j i (mkUnit (u_region u0) (Some bm') n) in
  ∀ j' i' k', live m' (j', i', k') ↔
    valid_block m (j', i', k') ∧
    (if (j =? j') && (i =? i') then bit_of bm' k' = true else live m (j', i', k')).
Proof.
  intros Hu Hb m' j' i' k'. unfold m', live, valid_block. rewrite group_num_put.
  rewrite (get_put_unit m j i u0) by done. destruct (_ && _); split.
  - intros (Hv & u & b & [= <-] & Hub & Hk). simpl in Hub. injection Hub as <-. done.
  - intros (Hv & Hk). split; [done|]. by eexists _, bm'.
  - by intros [Hv Hx].
  - by intros (Hv & [_ Hx]).
Qed.

Lemma heap_wf_put s m j i u0 bm' n : heap_wf s m → get_unit m j i = Ok u0 →
  unit_bitmap_ok i (mkUnit (u_region u0) (Some bm') n) bm' →
  heap_wf s (put_unit m j i (mkUnit (u_region u0) (Some bm') n)).
Proof.
  intros [Hs Hu Hr Hd Hcp Hne] H0 Hb.
  assert (Hreg : ∀ j' i' u', get_unit (put_unit m j i (mkUnit (u_region u0) (Some bm') n)) j' i' = Ok u' →
    ∃ u, get_unit m j' i' = Ok u ∧ u_region u = u_region u').
  { intros j' i' u'. rewrite (get_put_unit m j i u0) by done. destruct (_ && _) eqn:E.
    - apply andb_true_iff in E as [->%Z.eqb_eq ->%Z.eqb_eq]. intros [= <-]. by exists u0.
    - intros ?. by exists u'. }
  split; [done| | | | |].
  - intros j' i' Hj Hi. rewrite group_num_put in Hj.
    rewrite (get_put_unit m j i u0) by done. destruct (_ && _) eqn:E; [|by apply Hu].
    apply andb_true_iff in E as [->%Z.eqb_eq ->%Z.eqb_eq].
    destruct (Hu j' i' Hj Hi) as (u & x & r & bm & Hg & [? ? ? ? ?] & _).
    rewrite H0 in Hg. injection Hg as <-. by eexists _, x, r, bm'.
  - intros j' i' u' (u & Hg & _)%Hreg. rewrite group_num_put. by eapply Hr.
  - intros j1 i1 u1 j2 i2 u2 (v1 & G1 & E1)%Hreg (v2 & G2 & E2)%Hreg He.
    eapply Hd; [exact G1|exact G2|congruence].
  - apply get_unit_Some in H0 as (g & Hg & _). rewrite (group_list_put m j i _ g) by done.
    apply Forall_insert; [done|]. simpl. rewrite Forall_forall in Hcp. eapply Hcp, zget_elem, Hg.
  - apply get_unit_Some in H0 as (g & Hg & _). unfold put_unit. rewrite Hg. simpl. intros Hn.
    injection Hn as Hn. apply (f_equal zlen) in Hn. rewrite zlen_zput in Hn.
    pose proof (zget_range _ _ _ Hg). change (zlen (@nil MallocRegionGroupType)) with 0 in Hn. lia.
Qed.

(** Giving a region its host buffer changes nothing the heap looks at. *)
Lemma zget_set_region_data s x r b y :
  zget (dynamic_map s) x = Some r →
  zget (dynamic_map (set_region_data s x r b)) y =
    if x =? y then Some (mkRegion (r_type r) (r_is_malloc r) (r_permission r) (r_start r)
                           (r_size r) (r_mask r) (Some b) (r_ops r))
    else zget (dynamic_map s) y.
Proof.
  intros Hx. pose proof (zget_range _ _ _ Hx). simpl. destruct (Z.eqb_spec x y) as [<-|].
  - by rewrite zget_zput_eq.
  - by rewrite zget_zput_ne by lia.
Qed.

Lemma region_data_wf s x r blk : mpu_wf s → zget (dynamic_map s) x = Some r →
  zlen blk = r_size r →
  mpu_wf (set_region_data (snd (alloc_block s blk)) x r (next_block s)).
Proof.
  intros [W1 W2 W3 W4 W5 W6 W7] Hx Hl.
  assert (Hext : ∀ r', region_wf (host s) r' → region_wf (<[next_block s := blk]> (host s)) r').
  { intros r' [? ? ? ? Hb]. split; try done. intros Ho b Hbd.
    destruct (Hb Ho b Hbd) as (blk' & Hg & ?). exists blk'. split; [|done].
    rewrite lookup_insert_ne; [done|]. intros <-. by rewrite W6 in Hg. }
  assert (Hr : region_wf (host s) r) by (eapply Forall_forall; [exact W1|by eapply zget_elem]).
  assert (Hput : ∀ (P : MpuAddressRegionType → Prop) l r', Forall P l → P r' → Forall P (zput l x r')).
  { intros P l r' Hf Hp. by apply Forall_insert. }
  split; simpl.
  - apply Hput; [eapply Forall_impl; [exact W1|exact Hext]|].
    destruct (Hext r Hr) as [? ? ? ? _]. split; try done. intros _ b [= <-].
    exists blk. by rewrite lookup_insert_eq.
  - apply Hput; [done|]. simpl. rewrite Forall_forall in W2. by eapply W2, zget_elem.
  - eapply Forall_impl; [exact W3|exact Hext].
  - done.
  - intros i j r1 r2 Hij Hi Hj.
    assert (Hget : ∀ i r1, zget (zput (dynamic_map s) x
      (mkRegion (r_type r) (r_is_malloc r) (r_permission r) (r_start r) (r_size r) (r_mask r)
        (Some (next_block s)) (r_ops r))) i = Some r1 →
      ∃ r1', zget (dynamic_map s) i = Some r1' ∧ r_start r1' = r_start r1 ∧ r_size r1' = r_size r1).
    { intros i' r' Hi'. pose proof (zget_range _ _ _ Hx). destruct (decide (x = i')) as [<-|].
      - rewrite zget_zput_eq in Hi' by done. injection Hi' as <-. by exists r.
      - rewrite zget_zput_ne in Hi' by lia. by exists r'. }
    destruct (Hget i r1 Hi) as (r1' & G1 & E1 & F1), (Hget j r2 Hj) as (r2' & G2 & E2 & F2).
    specialize (W5 i j r1' r2' Hij G1 G2). unfold disjoint_regions in *. lia.
  - intros b Hb. rewrite lookup_insert_ne by lia. apply W6. lia.
  - apply Hput; [|simpl; intros b [= <-]; lia].
    eapply Forall_impl; [exact W7|]. simpl. intros r' Hb b Hbd. specialize (Hb b Hbd). lia.
Qed.

Lemma unit_region_data s x r b u y r' :
  zget (dynamic_map s) x = Some r → unit_region_ok s u y r' →
  ∃ r'', unit_region_ok (set_region_data s x r b) u y r'' ∧ r_start r'' = r_start r'.
Proof.
  intros Hx [? Hy ? ? ?]. destruct (Z.eqb_spec x y) as [->|Hne].
  - rewrite Hx in Hy. injection Hy as <-. eexists. split; [split; [done| |..]|].
    + by rewrite zget_set_region_data, Z.eqb_refl.
    + done.
    + done.
    + done.
    + done.
  - exists r'. split; [split; try done|done].
    rewrite zget_set_region_data by done. by rewrite (proj2 (Z.eqb_neq x y) Hne).
Qed.

Lemma heap_wf_data s m x r blk : heap_wf s m → zget (dynamic_map s) x = Some r →
  zlen blk = r_size r →
  heap_wf (set_region_data (snd (alloc_block s blk)) x r (next_block s)) m.
Proof.
  intros [Hs Hu Hr Hd Hcp Hne] Hx Hl. split; [by apply region_data_wf| |done|done|done|done].
  intros j i Hj Hi. destruct (Hu j i Hj Hi) as (u & y & r' & bm & Hg & Hreg & Hb).
  destruct (unit_region_data (snd (alloc_block s blk)) x r (next_block s) u y r') as (r'' & Hr'' & _);
    [done|by destruct Hreg|]. by exists u, y, r'', bm.
Qed.

Lemma heap_unit s m j i u : heap_wf s m → get_unit m j i = Ok u →
  0 ≤ j < group_num m ∧ 0 ≤ i < 10 ∧ ∃ x r bm, unit_region_ok s u x r ∧ unit_bitmap_ok i u bm.
Proof.
  intros Hw Hg. destruct (hw_range s m Hw j i u Hg) as [Hj Hi].
  destruct (hw_unit s m Hw j i Hj Hi) as (u' & x & r & bm & Hg' & ? & ?).
  rewrite Hg in Hg'. injection Hg' as <-. eauto 10.
Qed.

(** ** Finding a unit with a free block *)

Lemma find_group_spec s m i n j : heap_wf s m → 0 ≤ i < 10 → 0 ≤ j → j + Z.of_nat n = group_num m →
  (find_group n j i m = Ok None ∧
    ∀ j' u, j ≤ j' → get_unit m j' i = Ok u → bitfreenum u ≤ 0) ∨
  (∃ j' u, find_group n j i m = Ok (Some (j', u)) ∧ get_unit m j' i = Ok u ∧ 0 < bitfreenum u).
Proof.
  intros Hw Hi. revert j. induction n as [|n IH]; intros j Hj Hn; simpl.
  { left. split; [done|]. intros j' u Hj' Hg. apply (heap_unit s m) in Hg; [lia|done]. }
  destruct (hw_unit s m Hw j i) as (u & x & r & bm & Hg & _); [lia|done|]. rewrite Hg. simpl.
  destruct (Z.ltb_spec 0 (bitfreenum u)).
  - right. by exists j, u.
  - destruct (IH (j + 1)) as [[-> Ha]|Hs]; [lia|lia| |by right].
    left. split; [done|]. intros j' u' Hj' Hg'. destruct (decide (j' = j)) as [->|].
    + congruence.
    + eapply Ha; [|exact Hg']. lia.
Qed.

Lemma find_free_spec s m n i : heap_wf s m → 0 ≤ i → i + Z.of_nat n = 10 →
  (find_free n i m = Ok None ∧
    ∀ i' j' u, i ≤ i' → get_unit m j' i' = Ok u → bitfreenum u ≤ 0) ∨
  (∃ i' j' u, find_free n i m = Ok (Some (i', j', u)) ∧ i ≤ i' ∧
    get_unit m j' i' = Ok u ∧ 0 < bitfreenum u).
Proof.
  intros Hw. revert i. induction n as [|n IH]; intros i Hi Hn; simpl.
  { left. split; [done|]. intros i' j' u Hi' Hg. apply (heap_unit s m) in Hg; [lia|done]. }
  destruct (find_group_spec s m i (Z.to_nat (group_num m)) 0 Hw) as [[-> Ha]|(j & u & -> & Hg & Hf)];
    [lia|lia|unfold group_num, zlen; lia| |right; exists i, j, u; split_and!; [done|lia|done|done]].
  simpl. destruct (IH (i + 1)) as [[-> Hb]|(i' & j' & u & -> & ? & ?)]; [lia|lia| |].
  - left. split; [done|]. intros i' j' u Hi' Hg. destruct (decide (i' = i)) as [->|].
    + eapply Ha; [|exact Hg]. apply (heap_unit s m) in Hg; [lia|done].
    + eapply (Hb i'); [|exact Hg]. lia.
  - right. exists i', j', u. split_and!; [done|lia|tauto|tauto].
Qed.

(** The counter of a unit is positive exactly when a block is free. *)
Lemma unit_full m j i u bm k : unit_bitmap_ok i u bm → get_unit m j i = Ok u →
  bitfreenum u ≤ 0 → valid_block m (j, i, k) → live m (j, i, k).
Proof.
  intros [Hb Hw Hc] Hg Hz Hv. split; [done|]. exists u, bm. split_and!; [done|done|].
  destruct (bit_of bm k) eqn:E; [done|]. exfalso.
  destruct Hv as (_ & _ & Hk). pose proof (free_count_pos bm (Z.to_nat (64 * nwords i)) k).
  rewrite Hc in Hz. assert (0 < free_count bm (Z.to_nat (64 * nwords i))); [|lia].
  apply (free_count_pos _ _ k); [lia|done].
Qed.

Lemma count_in_u32 i bm : 0 ≤ i < 10 → 0 ≤ free_count bm (Z.to_nat (64 * nwords i)) < 2 ^ 31.
Proof.
  intros Hi. pose proof (free_count_range bm (Z.to_nat (64 * nwords i))).
  pose proof (class_bounds i Hi). lia.
Qed.

(** Taking the first free block [k] of a unit that has one. *)
Lemma take_block s m j i u bm : heap_wf s m → get_unit m j i = Ok u → unit_bitmap_ok i u bm →
  0 < bitfreenum u →
  ∃ k bm', 0 ≤ k < 64 * nwords i ∧ bit_of bm k = false ∧
    set_bit (u_bitmap u) (64 * nwords i) (8 * nwords i) = Ok (k, Some bm') ∧
    (∀ k', 0 ≤ k' → bit_of bm' k' = (k =? k') || bit_of bm k') ∧
    unit_bitmap_ok i (mkUnit (u_region u) (Some bm') (u32 (bitfreenum u - 1))) bm'.
Proof.
  intros Hw Hg Hub Hf. destruct Hub as [Hb Hbw Hc].
  destruct (heap_unit s m j i u Hw Hg) as (_ & Hi & _).
  pose proof (class_bounds i Hi) as (_ & Hn & _). pose proof (count_in_u32 i bm Hi) as Hcr.
  destruct (set_bit_spec bm (nwords i) Hbw ltac:(lia)) as [[_ Hall]|(k & b & Hk & Hgb & Hbit & _ & He)].
  { rewrite Hc, free_count_zero in Hf; [done|]. intros. apply Hall. lia. }
  exists k, (zput bm (k / 8) (u8 (BIT_SET b (k mod 8)))).
  assert (Hbits : ∀ k', 0 ≤ k' →
    bit_of (zput bm (k / 8) (u8 (BIT_SET b (k mod 8)))) k' = (k =? k') || bit_of bm k').
  { intros k' Hk'. apply bit_set_at; [lia|done|done]. }
  rewrite Hb. split_and!; [lia|lia|done|done|done|]. split; simpl; [done| |].
  - destruct Hbw as [Hby Hl]. split; [|by rewrite zlen_zput].
    apply Forall_insert; [done|apply byte_u8].
  - rewrite (free_count_take bm _ k) by (done || lia). rewrite Hc.
    replace (k <? _) with true by lia. apply wrap_id. unfold in_width. rewrite Hc in Hf. lia.
Qed.

Definition block_size (b : block) : Z := class_size b.1.2.

(** What allocation promises. *)
Definition get_memory_post size s m (a : Z) s' m' : Prop :=
  heap_wf s' m' ∧ group_num m' = group_num m ∧
  (∀ b x, block_addr s m b x → block_addr s' m' b x) ∧
  ((a = 0 ∧ s' = s ∧ m' = m ∧ ∀ b, valid_block m b → size ≤ block_size b → live m b) ∨
   (∃ b, valid_block m b ∧ size ≤ block_size b ∧ ¬ live m b ∧ block_addr s' m' b a ∧ 0 < a ∧
     ∀ b', live m' b' ↔ live m b' ∨ b' = b)).

Lemma block_addr_put s m j i u bm n b x : get_unit m j i = Ok u → block_addr s m b x →
  block_addr s (put_unit m j i (mkUnit (u_region u) bm n)) b x.
Proof.
  destruct b as [[j' i'] k]. intros Hu (u' & y & r & Hg & [R1 R2 R3 R4 R5] & ->).
  destruct ((j =? j') && (i =? i')) eqn:E.
  - apply andb_true_iff in E as [->%Z.eqb_eq ->%Z.eqb_eq].
    rewrite Hu in Hg. injection Hg as <-. eexists _, y, r.
    rewrite (get_put_unit m j' i' u), !Z.eqb_refl by done. split; [done|]. split; [by split|done].
  - exists u', y, r. rewrite (get_put_unit m j i u), E by done. split; [done|]. split; [by split|done].
Qed.

Lemma block_addr_data s m x r b bl a : zget (dynamic_map s) x = Some r → block_addr s m bl a →
  block_addr (set_region_data s x r b) m bl a.
Proof.
  destruct bl as [[j i] k]. intros Hx (u & y & r' & Hg & Hr & ->).
  destruct (unit_region_data s x r b u y r' Hx Hr) as (r'' & Hr'' & Hst).
  exists u, y, r''. by rewrite Hst.
Qed.

Lemma block_addr_alloc s m blk bl a :
  block_addr s m bl a → block_addr (snd (alloc_block s blk)) m bl a.
Proof.
  destruct bl as [[j i] k]. intros (u & y & r' & Hg & [? ? ? ? ?] & ->). by exists u, y, r'.
Qed.

Lemma live_take s m j i u bm bm' n k : heap_wf s m → get_unit m j i = Ok u →
  unit_bitmap_ok i u bm → 0 ≤ k < 64 * nwords i →
  (∀ k', 0 ≤ k' → bit_of bm' k' = (k =? k') || bit_of bm k') →
  ∀ b, live (put_unit m j i (mkUnit (u_region u) (Some bm') n)) b ↔ live m b ∨ b = (j, i, k).
Proof.
  intros Hw Hg [Hb _ _] Hk Hbits [[j' i'] k'].
  destruct (heap_unit s m j i u Hw Hg) as (Hj & Hi & _).
  rewrite (live_put m j i u bm) by done. destruct ((j =? j') && (i =? i')) eqn:E.
  - apply andb_true_iff in E as [->%Z.eqb_eq ->%Z.eqb_eq]. split.
    + intros [Hv Hl]. rewrite Hbits in Hl by (destruct Hv; lia).
      destruct (Z.eqb_spec k k') as [->|]; [by right|]. left. split; [done|]. by exists u, bm.
    + intros [[Hv (u' & bm'' & Hg' & Hb' & Hl)]|[= ->]].
      * split; [done|]. rewrite Hbits by (destruct Hv; lia). rewrite Hg in Hg'. injection Hg' as <-.
        rewrite Hb in Hb'. injection Hb' as <-. rewrite Hl. by rewrite orb_true_r.
      * split; [done|]. rewrite Hbits, Z.eqb_refl by lia. done.
  - split; [by intros [_ ?]; left|]. intros [Hl|[= -> -> ->]].
    + split; [by destruct Hl|done].
    + by rewrite !Z.eqb_refl in E.
Qed.

Lemma deref_region_ok s u x r : unit_region_ok s u x r → deref_region s (u_region u) = Ok (x, r).
Proof. intros [-> Hg _ _ _]. unfold deref_region. rewrite decide_True by done. by rewrite Hg. Qed.

Lemma block_fits i k : 0 ≤ i < 10 → 0 ≤ k < 64 * nwords i →
  0 ≤ k * class_size i ∧ k * class_size i + class_size i ≤ 2 ^ 20.
Proof. intros Hi Hk. destruct (class_bounds i Hi) as (? & ? & Hs). nia. Qed.

Lemma block_addr_value s u x r i k : unit_region_ok s u x r → 0 ≤ i < 10 → 0 ≤ k < 64 * nwords i →
  u32 (uaddr (r_start r + u32 (k * class_size i))) = r_start r + k * class_size i.
Proof.
  intros [_ _ _ Hst Hend] Hi Hk. pose proof (block_fits i k Hi Hk) as [? ?].
  pose proof addr_space_range. pose proof (class_bounds i Hi).
  rewrite (wrap_id 32 (k * class_size i)) by (unfold in_width; lia).
  rewrite uaddr_id by (unfold is_addr; lia). apply wrap_id. unfold in_width. lia.
Qed.

(** The state after block [k] of unit [(j, i)] has been marked as taken. *)
Lemma get_memory_taken size s s' m j i u x r bm bm' n k : heap_wf s m → heap_wf s' m →
  (∀ b y, block_addr s m b y → block_addr s' m b y) →
  get_unit m j i = Ok u → unit_region_ok s u x r → unit_bitmap_ok i u bm →
  size ≤ class_size i → 0 ≤ k < 64 * nwords i → bit_of bm k = false →
  (∀ k', 0 ≤ k' → bit_of bm' k' = (k =? k') || bit_of bm k') →
  unit_bitmap_ok i (mkUnit (u_region u) (Some bm') n) bm' →
  get_memory_post size s m (r_start r + k * class_size i) s'
    (put_unit m j i (mkUnit (u_region u) (Some bm') n)).
Proof.
  intros Hw Hw' Haddr Hg Hreg Hub Hsz Hk Hfree Hbits Hub'.
  destruct (heap_unit s m j i u Hw Hg) as (Hj & Hi & _).
  set (m' := put_unit m j i _).
  assert (Hmon : ∀ b y, block_addr s m b y → block_addr s' m' b y)
    by (intros; by apply block_addr_put, Haddr).
  split_and!; [by apply heap_wf_put|apply group_num_put|done|right].
  exists (j, i, k). split_and!; [unfold valid_block; lia|done|..].
  - intros [_ (u' & bm'' & Hg' & Hb' & Hl)]. rewrite Hg in Hg'. injection Hg' as <-.
    destruct Hub as [Hb _ _]. congruence.
  - apply Hmon. by exists u, x, r.
  - pose proof (block_fits i k Hi Hk). destruct Hreg. lia.
  - by apply (live_take s m j i u bm).
Qed.

(** Allocation on a well-formed heap always returns and meets [get_memory_post]. *)
Lemma get_memory_ok size blk s m :
  heap_wf s m → zlen blk = 2 ^ 20 →
  ∃ a s' m', mpu_malloc_get_memory size (Some blk) s m = Ok (a, s', m') ∧
    get_memory_post size s m a s' m'.
Proof.
  intros Hw Hblk. unfold mpu_malloc_get_memory.
  destruct (find_class_spec size) as [[Hc Hbig]|(Hc & Hsz & Hmin)].
  { rewrite Hc. simpl. eexists _, _, _. split; [done|]. split_and!; [done|done|done|].
    left. split_and!; [done..|]. intros [[j i] k] (_ & Hi & _) Hle. unfold block_size in Hle. simpl in Hle.
    pose proof (class_bounds i Hi). lia. }
  set (c := find_class 0 malloc_data_info_table size) in *.
  replace (c <? 0) with false by lia.
  destruct (find_free_spec s m (Z.to_nat (MallocSize_Num - c)) c Hw)
    as [[-> Hfull]|(i & j & u & -> & Hci & Hg & Hf)]; [lia|unfold MallocSize_Num; lia|..];
    cbn [mbind outcome_bind].
  { eexists _, _, _. split; [done|]. split_and!; [done|done|done|]. left. split_and!; [done..|].
    intros [[j i] k] Hv Hle. pose proof Hv as (Hj & Hi & Hk). unfold block_size in Hle. simpl in Hle.
    destruct (hw_unit s m Hw j i Hj Hi) as (u & x & r & bm & Hg & _ & Hub).
    eapply unit_full; [done|done| |done]. eapply Hfull; [|done].
    destruct (decide (i < c)); [|lia]. specialize (Hmin i). lia. }
  destruct (heap_unit s m j i u Hw Hg) as (Hj & Hi & x & r & bm & Hreg & Hub).
  destruct (take_block s m j i u bm Hw Hg Hub Hf) as (k & bm' & Hk & Hfree & Hset & Hbits & Hub').
  rewrite class_info by done. cbn [mbind outcome_bind bitmaxnum bitmapsize memsize].
  rewrite Hset. cbn [mbind outcome_bind]. replace (k <? 0) with false by lia.
  rewrite (deref_region_ok s u x r Hreg). cbn [mbind outcome_bind].
  pose proof (block_addr_value s u x r i k Hreg Hi Hk) as Hval.
  pose proof Hreg as [Href Hget Hrs Hst Hend].
  assert (Hpost : ∀ s', heap_wf s' m → (∀ b y, block_addr s m b y → block_addr s' m b y) →
    get_memory_post size s m (r_start r + k * class_size i) s'
      (put_unit m j i (mkUnit (u_region u) (Some bm') (u32 (bitfreenum u - 1))))).
  { intros s' Hw' Haddr. eapply get_memory_taken; try done.
    pose proof (class_size_mono c i). lia. }
  rewrite Hval. destruct (r_data r) eqn:Hdata; cbn [mbind outcome_bind].
  - eexists _, _, _. split; [done|]. apply Hpost; done.
  - destruct (alloc_block s blk) as [b s'] eqn:Ea. cbn [mbind outcome_bind].
    injection Ea as Hb Hs'. eexists _, _, _. split; [done|]. apply Hpost; subst b s'.
    + apply heap_wf_data; [done|done|congruence].
    + intros. by apply (block_addr_data (snd (alloc_block s blk))), block_addr_alloc.
Qed.

(** ** Releasing a block *)

Definition in_region (r : MpuAddressRegionType) (addr : Z) : Prop :=
  r_start r ≤ addr < r_start r + r_size r.

Lemma region_end s u x r : mpu_wf s → unit_region_ok s u x r → uaddr (r_start r + r_size r) = r_start r + r_size r.
Proof.
  intros Hs [_ Hg _ Hst _]. apply uaddr_id.
  assert (region_wf (host s) r) as [? ? ? _ _].
  { eapply Forall_forall; [apply (wf_dynamic s Hs)|by eapply zget_elem]. }
  unfold is_addr. lia.
Qed.

Lemma search_group_spec s m addr i n j : heap_wf s m → 0 ≤ i < 10 → 0 ≤ j →
  j + Z.of_nat n = group_num m →
  (search_group n j i addr s m = Ok None ∧
    ∀ j' u x r, j ≤ j' → get_unit m j' i = Ok u → unit_region_ok s u x r → ¬ in_region r addr) ∨
  (∃ j' u x r, search_group n j i addr s m = Ok (Some (j', u, r)) ∧ get_unit m j' i = Ok u ∧
    unit_region_ok s u x r ∧ in_region r addr).
Proof.
  intros Hw Hi. revert j. induction n as [|n IH]; intros j Hj Hn; simpl.
  { left. split; [done|]. intros j' u x r Hj' Hg. apply (heap_unit s m) in Hg; [lia|done]. }
  destruct (hw_unit s m Hw j i) as (u & x & r & bm & Hg & Hreg & _); [lia|done|]. rewrite Hg. simpl.
  rewrite (deref_region_ok s u x r Hreg). simpl. rewrite (region_end s u x r (hw_mpu s m Hw) Hreg).
  destruct (_ && _) eqn:E.
  - right. exists j, u, x, r. split_and!; [done..|unfold in_region; lia].
  - destruct (IH (j + 1)) as [[-> Ha]|Hs]; [lia|lia| |by right].
    left. split; [done|]. intros j' u' x' r' Hj' Hg' Hr'. destruct (decide (j' = j)) as [->|].
    + rewrite Hg in Hg'. injection Hg' as <-. destruct Hreg as [R1 R2 _ _ _], Hr' as [R1' R2' _ _ _].
      rewrite R1 in R1'. injection R1' as <-. rewrite R2 in R2'. injection R2' as <-.
      unfold in_region. lia.
    + eapply Ha; [|exact Hg'|exact Hr']. lia.
Qed.

Lemma search_class_spec s m addr n i : heap_wf s m → 0 ≤ i → i + Z.of_nat n = 10 →
  (search_class n i addr s m = Ok None ∧
    ∀ i' j' u x r, i ≤ i' → get_unit m j' i' = Ok u → unit_region_ok s u x r → ¬ in_region r addr) ∨
  (∃ i' j' u x r, search_class n i addr s m = Ok (Some (i', j', u, r)) ∧ get_unit m j' i' = Ok u ∧
    unit_region_ok s u x r ∧ in_region r addr).
Proof.
  intros Hw. revert i. induction n as [|n IH]; intros i Hi Hn; simpl.
  { left. split; [done|]. intros i' j' u x r Hi' Hg. apply (heap_unit s m) in Hg; [lia|done]. }
  destruct (search_group_spec s m addr i (Z.to_nat (group_num m)) 0 Hw)
    as [[-> Ha]|(j & u & x & r & -> & Hg & Hr & Hin)];
    [lia|lia|unfold group_num, zlen; lia| |right; by exists i, j, u, x, r].
  simpl. destruct (IH (i + 1)) as [[-> Hb]|(i' & j' & u & x & r & -> & ?)]; [lia|lia| |].
  - left. split; [done|]. intros i' j' u x r Hi' Hg Hr. destruct (decide (i' = i)) as [->|].
    + eapply Ha; [|exact Hg|exact Hr]. apply (heap_unit s m) in Hg; [lia|done].
    + eapply (Hb i'); [|exact Hg|exact Hr]. lia.
  - right. by exists i', j', u, x, r.
Qed.

(** A unit is found exactly by the addresses of its region. *)
Lemma search_unit_found s m addr j i u x r : heap_wf s m → get_unit m j i = Ok u →
  unit_region_ok s u x r → in_region r addr → search_unit addr s m = Ok (Some (i, j, u, r)).
Proof.
  intros Hw Hg Hr Hin. unfold search_unit.
  destruct (search_class_spec s m addr (Z.to_nat MallocSize_Num) 0 Hw)
    as [[_ Ha]|(i' & j' & u' & x' & r' & -> & Hg' & Hr' & Hin')]; [lia|done|..].
  { exfalso. eapply Ha; [|exact Hg|exact Hr|exact Hin].
    destruct (heap_unit s m j i u Hw Hg) as (_ & ? & _). lia. }
  assert (x = x') as <-.
  { destruct (decide (x = x')); [done|]. exfalso.
    pose proof (wf_disjoint s (hw_mpu s m Hw) x x' r r' ltac:(done) (ur_get _ _ _ _ Hr) (ur_get _ _ _ _ Hr')).
    unfold disjoint_regions, in_region in *. lia. }
  destruct (hw_distinct s m Hw j i u j' i' u') as [<- <-]; [done|done|destruct Hr, Hr'; congruence|].
  destruct Hr, Hr'. congruence.
Qed.

Lemma live_release s m j i u bm bm' n k : heap_wf s m → get_unit m j i = Ok u →
  unit_bitmap_ok i u bm →
  (∀ k', 0 ≤ k' → bit_of bm' k' = negb (k =? k') && bit_of bm k') →
  ∀ b, live (put_unit m j i (mkUnit (u_region u) (Some bm') n)) b ↔ live m b ∧ b ≠ (j, i, k).
Proof.
  intros Hw Hg [Hb _ _] Hbits [[j' i'] k'].
  rewrite (live_put m j i u bm) by done. destruct ((j =? j') && (i =? i')) eqn:E.
  - apply andb_true_iff in E as [->%Z.eqb_eq ->%Z.eqb_eq]. split.
    + intros [Hv Hl]. rewrite Hbits in Hl by (destruct Hv; lia).
      apply andb_true_iff in Hl as [Hne Hl]. split; [split; [done|by exists u, bm]|].
      intros [= ->]. by rewrite Z.eqb_refl in Hne.
    + intros [[Hv (u' & bm'' & Hg' & Hb' & Hl)] Hne]. split; [done|].
      rewrite Hg in Hg'. injection Hg' as <-. rewrite Hb in Hb'. injection Hb' as <-.
      rewrite Hbits, Hl by (destruct Hv; lia). destruct (Z.eqb_spec k k') as [->|]; [done|done].
  - split; [|by intros [Hl _]; split; [by destruct Hl|]].
    intros [_ Hl]. split; [done|]. intros [= -> -> ->]. by rewrite !Z.eqb_refl in E.
Qed.

Definition in_block s m (b : block) (addr : Z) : Prop :=
  ∃ a, block_addr s m b a ∧ a ≤ addr < a + block_size b.

Lemma rel_memory_ok s m b addr : heap_wf s m → live m b → in_block s m b addr →
  ∃ m', mpu_malloc_rel_memory addr s m = Ok m' ∧ heap_wf s m' ∧ group_num m' = group_num m ∧
    (∀ b' x, block_addr s m b' x → block_addr s m' b' x) ∧
    ∀ b', live m' b' ↔ live m b' ∧ b' ≠ b.
Proof.
  destruct b as [[j i] k]. intros Hw Hl (a & (u & x & r & Hg & Hreg & ->) & Ha).
  unfold block_size in Ha. simpl in Ha.
  destruct (heap_unit s m j i u Hw Hg) as (Hj & Hi & _ & _ & bm & _ & Hub).
  destruct Hl as [(_ & _ & Hk) (u' & bm' & Hg' & Hb' & Hbit)].
  rewrite Hg in Hg'. injection Hg' as <-. pose proof Hub as [Hb Hbw Hc].
  rewrite Hb in Hb'. injection Hb' as <-.
  pose proof (block_fits i k Hi Hk) as [? ?]. pose proof Hreg as [_ _ Hsz Hst Hend].
  pose proof (class_bounds i Hi) as (Hcs & Hnw & _). pose proof (count_in_u32 i bm Hi) as Hcr.
  unfold mpu_malloc_rel_memory.
  rewrite (search_unit_found s m addr j i u x r Hw Hg Hreg) by (unfold in_region; lia).
  cbn [mbind outcome_bind]. rewrite class_info by done. cbn [mbind outcome_bind memsize].
  pose proof addr_space_range.
  rewrite uaddr_id by (unfold is_addr; lia).
  replace ((addr - r_start r) / class_size i) with k by (apply Z.div_unique with (addr - r_start r - k * class_size i); lia).
  rewrite (wrap_id 32 k) by (unfold in_width; lia). rewrite Hb.
  replace (8 * (k / 64) + (k mod 64) / 8) with (k / 8) by zdiv.
  replace ((k mod 64) mod 8) with (k mod 8) by zdiv.
  destruct (zget_is_Some bm (k / 8)) as [c Hgc]; [destruct Hbw; zdiv|]. rewrite Hgc.
  cbn [oob mbind outcome_bind].
  rewrite (proj2 (zset_Some bm (k / 8) _ _)) by (split; [by apply (zget_range _ _ c)|done]).
  cbn [oob mbind outcome_bind].
  assert (Hbits : ∀ k', 0 ≤ k' →
    bit_of (zput bm (k / 8) (u8 (BIT_CLR c (k mod 8)))) k' = negb (k =? k') && bit_of bm k').
  { intros k' Hk'. apply bit_clr_at; [lia|done|done]. }
  eexists. split; [done|]. split_and!.
  - apply heap_wf_put; [done|done|]. split; [done| |].
    + destruct Hbw as [Hby Hlen]. split; [|by rewrite zlen_zput].
      apply Forall_insert; [done|apply byte_u8].
    + simpl. rewrite (free_count_release bm _ k) by (done || lia). rewrite Hc.
      replace (k <? _) with true by lia. apply wrap_id. unfold in_width. lia.
  - apply group_num_put.
  - intros. by apply block_addr_put.
  - by apply (live_release s m j i u bm).
Qed.

(** ** A client of the heap *)

(** Two different blocks never share an address. *)
Lemma blocks_disjoint s m b b' a a' : heap_wf s m → valid_block m b → valid_block m b' → b ≠ b' →
  block_addr s m b a → block_addr s m b' a' →
  a + block_size b ≤ a' ∨ a' + block_size b' ≤ a.
Proof.
  destruct b as [[j i] k], b' as [[j' i'] k'].
  intros Hw (Hj & Hi & Hk) (Hj' & Hi' & Hk') Hne (u & x & r & Hg & Hr & ->) (u' & x' & r' & Hg' & Hr' & ->).
  unfold block_size. simpl. pose proof (block_fits i k Hi Hk). pose proof (block_fits i' k' Hi' Hk').
  destruct (decide (x = x')) as [<-|Hx].
  - destruct (hw_distinct s m Hw j i u j' i' u') as [<- <-]; [done|done|destruct Hr, Hr'; congruence|].
    assert (r = r') as <- by (destruct Hr, Hr'; congruence).
    pose proof (class_bounds i Hi). assert (k ≠ k') by congruence. nia.
  - pose proof (wf_disjoint s (hw_mpu s m Hw) x x' r r' Hx (ur_get _ _ _ _ Hr) (ur_get _ _ _ _ Hr')).
    destruct Hr, Hr'. unfold disjoint_regions in *. lia.
Qed.

(** A client holds addresses with the sizes it asked for, and releases only what it holds. *)
Inductive heap_step : mpu_state D * MallocRegionType * list (Z * Z) →
    mpu_state D * MallocRegionType * list (Z * Z) → Prop :=
  | step_get s m held size blk a s' m' :
      zlen blk = 2 ^ 20 →
      mpu_malloc_get_memory size (Some blk) s m = Ok (a, s', m') →
      heap_step (s, m, held) (s', m', if a =? 0 then held else (a, size) :: held)
  | step_rel s m held1 a size held2 m' :
      mpu_malloc_rel_memory a s m = Ok m' →
      heap_step (s, m, held1 ++ (a, size) :: held2) (s, m', held1 ++ held2).

(** The client's list is the heap's live blocks, one by one. *)
Record held_wf s m (held : list (Z * Z)) (bs : list block) : Prop := {
  hd_live : ∀ b, live m b ↔ b ∈ bs;
  hd_nodup : NoDup bs;
  hd_held : Forall2 (λ h b, block_addr s m b h.1 ∧ h.2 ≤ block_size b) held bs;
}.

Definition heap_inv (c : mpu_state D * MallocRegionType * list (Z * Z)) : Prop :=
  let '(s, m, held) := c in heap_wf s m ∧ ∃ bs, held_wf s m held bs.

Lemma heap_step_inv c c' : heap_inv c → heap_step c c' → heap_inv c'.
Proof.
  intros Hinv Hst. destruct Hst as [s m held size blk a s' m' Hblk Hget|s m held1 a size held2 m' Hrel];
    destruct Hinv as (Hw & bs & [Hlive Hnd Hheld]).
  - destruct (get_memory_ok size blk s m Hw Hblk) as (a1 & s1 & m1 & Hget' & Hw' & _ & Haddr & Hcase).
    rewrite Hget in Hget'. injection Hget' as <- <- <-.
    destruct Hcase as [(-> & -> & -> & _)|(b & Hv & Hsz & Hnl & Hba & Hpos & Hl')].
    { simpl. split; [done|]. by exists bs. }
    replace (a =? 0) with false by lia. split; [done|]. exists (b :: bs). split.
    + intros b'. rewrite Hl', Hlive, elem_of_cons. tauto.
    + constructor; [by rewrite <- Hlive|done].
    + constructor; [done|]. eapply Forall2_impl; [exact Hheld|]. simpl. intros h b' [? ?]. auto.
  - apply Forall2_app_inv_l in Hheld as (bs1 & bs2 & H1 & H2 & ->).
    apply Forall2_cons_inv_l in H2 as (b & bs2' & [Hba Hsz] & H2 & ->). simpl in *.
    assert (Hlb : live m b) by (rewrite Hlive, elem_of_app, elem_of_cons; auto).
    destruct (rel_memory_ok s m b a Hw Hlb) as (m1 & Hrel' & Hw' & _ & Haddr & Hl').
    { exists a. split; [done|]. destruct b as [[j i] k]. unfold block_size. simpl.
      destruct Hlb as [(_ & Hi & _) _]. pose proof (class_bounds i Hi). lia. }
    rewrite Hrel in Hrel'. injection Hrel' as <-. split; [done|]. exists (bs1 ++ bs2').
    apply NoDup_app in Hnd as (N1 & Nd & N2). apply NoDup_cons in N2 as [Nb N2]. split.
    + intros b'. rewrite Hl', Hlive, !elem_of_app, elem_of_cons. split; [tauto|].
      intros Hin. split; [tauto|]. intros ->. destruct Hin as [Hin|Hin]; [|done].
      apply (Nd _ Hin), elem_of_cons. auto.
    + apply NoDup_app. split_and!; [done| |done]. intros y Hy Hy'. apply (Nd y Hy), elem_of_cons. auto.
    + apply Forall2_app; (eapply Forall2_impl; [done|]); simpl; intros h b' [? ?]; auto.
Qed.

(** Allocation is total and exact.  On a well-formed heap it either takes one block that
    was free and is large enough and returns its address, all other blocks staying as they
    were, or it returns 0, changes nothing, and every block that is large enough is taken. *)
Theorem mpu_malloc_get_memory_spec (size : Z) (blk : list Z) s m
    (Hw : heap_wf s m) (Hblk : zlen blk = 2 ^ 20) :
  ∃ a s' m', mpu_malloc_get_memory size (Some blk) s m = Ok (a, s', m') ∧
    heap_wf s' m' ∧
    ((a = 0 ∧ s' = s ∧ m' = m ∧ ∀ b, valid_block m b → size ≤ block_size b → live m b) ∨
     (∃ b, valid_block m b ∧ size ≤ block_size b ∧ ¬ live m b ∧ block_addr s' m' b a ∧ 0 < a ∧
       ∀ b', live m' b' ↔ live m b' ∨ b' = b)).
Proof.
  destruct (get_memory_ok size blk s m Hw Hblk) as (a & s' & m' & He & Hw' & _ & _ & Hc).
  by exists a, s', m'.
Qed.

(** C2: A guest that releases only what it holds never gets overlapping memory.  In every
    state reachable from a heap with no live block, two blocks it holds do not share a byte,
    and every further allocation or release of a held block returns without a fault. *)
Theorem heap_clients_disjoint s0 m0 s m held
    (Hw : heap_wf s0 m0) (Hnone : ∀ b, ¬ live m0 b)
    (Hsteps : rtc heap_step (s0, m0, []) (s, m, held)) :
  (∀ p q a n a' n', p ≠ q → held !! p = Some (a, n) → held !! q = Some (a', n') →
    a + n ≤ a' ∨ a' + n' ≤ a) ∧
  (∀ size blk, zlen blk = 2 ^ 20 → is_ok (mpu_malloc_get_memory size (Some blk) s m)) ∧
  (∀ a n, (a, n) ∈ held → is_ok (mpu_malloc_rel_memory a s m)).
Proof.
  assert (heap_inv (s, m, held)) as (Hws & bs & [Hl Hnd Hh]).
  { eapply (rtc_preserve _ heap_inv); [|exact Hsteps|].
    - intros c c' Hi Hs. by eapply heap_step_inv.
    - split; [done|]. exists []. split; [|constructor|constructor].
      intros b. split; [by intros ?%Hnone|by intros ?%elem_of_nil]. }
  assert (Hval : ∀ b, b ∈ bs → valid_block m b).
  { intros [[j i] k] Hb. apply Hl in Hb. apply Hb. }
  split_and!.
  - intros p q a n a' n' Hpq Hp Hq.
    destruct (Forall2_lookup_l _ _ _ _ _ Hh Hp) as (b & Hb & Ha & Hn).
    destruct (Forall2_lookup_l _ _ _ _ _ Hh Hq) as (b' & Hb' & Ha' & Hn').
    destruct (blocks_disjoint s m b b' a a'); [done| | | |done|done|simpl in *; lia|simpl in *; lia].
    + by eapply Hval, list_elem_of_lookup_2.
    + by eapply Hval, list_elem_of_lookup_2.
    + intros ->. apply Hpq. by eapply NoDup_lookup.
  - intros size blk Hb. destruct (get_memory_ok size blk s m Hws Hb) as (? & ? & ? & ? & _). by eexists.
  - intros a n [p Hp]%list_elem_of_lookup_1.
    destruct (Forall2_lookup_l _ _ _ _ _ Hh Hp) as (b & Hb & Ha & Hn).
    assert (Hb' : live m b) by (by eapply Hl, list_elem_of_lookup_2).
    destruct (rel_memory_ok s m b a Hws Hb') as (m' & ? & _); [|by eexists].
    exists a. split; [done|]. destruct b as [[j i] k]. unfold block_size. simpl.
    destruct Hb' as [(_ & Hi & _) _]. pose proof (class_bounds i Hi). lia.
Qed.

(** The heap's pointers dangle once the region table grows: an allocation that finds a
    free block after any later region has been added reads a region through a pointer into
    the table that the reallocation has released. *)
Theorem malloc_region_dangles (size : Z) mem s m r (b : block)
    (Hw : heap_wf s m) (Hv : valid_block m b) (Hsz : size ≤ block_size b) (Hfree : ¬ live m b) :
  mpu_malloc_get_memory size mem (push_region s r) m = Fault UseAfterFree.
Proof.
  destruct b as [[j0 i0] k0]. pose proof Hv as (Hj0 & Hi0 & Hk0).
  unfold block_size in Hsz. simpl in Hsz. pose proof (class_bounds i0 Hi0) as Hcb.
  unfold mpu_malloc_get_memory.
  destruct (find_class_spec size) as [[Hc Hbig]|(Hc & _ & Hmin)]; [lia|].
  set (c := find_class 0 malloc_data_info_table size) in *.
  replace (c <? 0) with false by lia.
  destruct (find_free_spec s m (Z.to_nat (MallocSize_Num - c)) c Hw)
    as [[-> Hfull]|(i & j & u & -> & Hci & Hg & Hf)]; [lia|unfold MallocSize_Num; lia|..];
    cbn [mbind outcome_bind].
  { exfalso. destruct (hw_unit s m Hw j0 i0 Hj0 Hi0) as (u & x & r' & bm & Hg & _ & Hub).
    apply Hfree. eapply unit_full; [done|done| |done]. eapply (Hfull i0); [|done].
    destruct (decide (i0 < c)); [|lia]. specialize (Hmin i0). lia. }
  destruct (heap_unit s m j i u Hw Hg) as (Hj & Hi & x & r' & bm & Hreg & Hub).
  destruct (take_block s m j i u bm Hw Hg Hub Hf) as (k & bm' & Hk & _ & Hset & _).
  rewrite class_info by done. cbn [mbind outcome_bind bitmaxnum bitmapsize memsize].
  rewrite Hset. cbn [mbind outcome_bind]. replace (k <? 0) with false by lia.
  destruct Hreg as [Href _ _ _ _]. unfold deref_region. rewrite Href, decide_False; [done|].
  simpl. lia.
Qed.

(** ** Registering regions *)

Fixpoint add_regions (refs : list region_ref) m : outcome MallocRegionType :=
  match refs with
  | [] => Ok m
  | x :: refs' => m' ← mpu_malloc_add_region true (Some x) m; add_regions refs' m'
  end.

Lemma zip_with_snoc {A B C} (f : A → B → C) (l : list A) (k : list B) x d :
  k !! length l = Some d → zip_with f (l ++ [x]) k = zip_with f l k ++ [f x d].
Proof.
  revert k. induction l as [|a l IH]; intros [|b k] Hk; try done; simpl in *.
  - injection Hk as ->. by destruct k.
  - by rewrite IH.
Qed.

(** A group after its first [length refs] regions. *)
Definition part_group (refs : list region_ref) : MallocRegionGroupType :=
  mkGroup (zlen refs)
    (zip_with (λ x d, mkUnit (Some x) (Some (replicate (Z.to_nat (bitmapsize d)) 0)) (bitmaxnum d))
       refs malloc_data_info_table ++
     ((λ d, mkUnit None None (bitmaxnum d)) <$> drop (length refs) malloc_data_info_table)).

Lemma part_group_unit refs x : (length refs < 10)%nat →
  ∃ d, size_of_class (zlen refs) = Ok d ∧
    malloc_data_info_table !! length refs = Some d ∧
    zget (unit_ (part_group refs)) (zlen refs) = Some (mkUnit None None (bitmaxnum d)) ∧
    zput (unit_ (part_group refs)) (zlen refs)
      (mkUnit (Some x) (Some (replicate (Z.to_nat (bitmapsize d)) 0)) (bitmaxnum d))
    = unit_ (part_group (refs ++ [x])).
Proof.
  intros Hl. destruct (lookup_lt_is_Some_2 malloc_data_info_table (length refs)) as [d Hd]; [done|].
  exists d. unfold size_of_class, zlen. rewrite zget_lookup, Hd. unfold zput. rewrite Nat2Z.id.
  cbn [part_group unit_]. rewrite length_app. cbn [length]. rewrite Nat.add_1_r.
  rewrite (drop_S _ d) by done. rewrite fmap_cons.
  set (f := λ x d, mkUnit _ _ _).
  assert (Hz : length (zip_with f refs malloc_data_info_table) = length refs)
    by (rewrite length_zip_with; change (length malloc_data_info_table) with 10%nat; lia).
  split_and!; [done|done| |].
  - rewrite zget_lookup, lookup_app_r, Hz, Nat.sub_diag by lia. done.
  - rewrite insert_app_r_alt, Hz, Nat.sub_diag by lia. cbn [list_insert].
    rewrite (zip_with_snoc f refs _ x d) by done. by rewrite <- app_assoc.
Qed.

Lemma add_region_part gs refs x : (1 ≤ length refs < 10)%nat →
  mpu_malloc_add_region true (Some x) (mkMallocRegion (Some (gs ++ [part_group refs])))
  = Ok (mkMallocRegion (Some (gs ++ [part_group (refs ++ [x])]))).
Proof.
  intros Hl. destruct (part_group_unit refs x) as (d & Hd & _ & Hu & Hput); [lia|].
  unfold mpu_malloc_add_region, group_get, group_num, group_list. cbn [groups default from_option id].
  assert (Hlast : zget (gs ++ [part_group refs]) (zlen (gs ++ [part_group refs]) - 1)
    = Some (part_group refs)).
  { rewrite zlen_app. unfold zlen at 2. simpl length.
    rewrite zget_app_r by lia. by replace (_ - _) with 0 by lia. }
  rewrite Hlast. cbn [oob mbind outcome_bind].
  replace (group_has_free_unit (part_group refs)) with true
    by (unfold group_has_free_unit, part_group, MallocSize_Num, zlen; cbn [unit_num];
        replace (Z.of_nat (length refs) <? 10) with true by lia; done).
  cbn [mbind outcome_bind groups default from_option id]. rewrite Hlast.
  cbn [oob mbind outcome_bind]. unfold group_add_region.
  change (unit_num (part_group refs)) with (zlen refs). rewrite Hu, Hd.
  cbn [oob mbind outcome_bind negb bitfreenum]. rewrite Hput. do 3 f_equal.
  rewrite zlen_app. change (zlen [part_group refs]) with 1.
  replace (zlen gs + 1 - 1) with (zlen gs) by lia. unfold zput, zlen. rewrite Nat2Z.id.
  rewrite insert_app_r_alt, Nat.sub_diag by done. simpl. do 2 f_equal.
  unfold part_group. f_equal. rewrite wrap_id; [rewrite zlen_app; done|]. unfold in_width. lia.
Qed.

(** A complete heap opens a new group for the next region. *)
Lemma add_region_new s m x : heap_wf s m →
  mpu_malloc_add_region true (Some x) m
  = Ok (mkMallocRegion (Some (group_list m ++ [part_group [x]]))).
Proof.
  intros Hw. assert (Hget : group_get true m = group_alloc true m).
  { unfold group_get. destruct (groups m) as [gs|] eqn:Hgs; [|done].
    assert (gs ≠ []) as Hnil by (intros ->; by apply (hw_nonempty s m Hw)).
    assert (group_list m = gs) as Hgl by (unfold group_list; by rewrite Hgs).
    assert (0 < zlen gs) by (destruct gs; [done|unfold zlen; simpl; lia]).
    unfold group_num. rewrite Hgl. destruct (zget_is_Some gs (zlen gs - 1)) as [g Hg]; [lia|].
    rewrite Hg. cbn [oob mbind outcome_bind].
    replace (group_has_free_unit g) with false; [done|]. symmetry. unfold group_has_free_unit.
    pose proof (hw_complete s m Hw) as Hcp. rewrite Hgl, Forall_forall in Hcp.
    rewrite (Hcp g) by (by eapply zget_elem). simpl.
    apply not_true_is_false. rewrite existsb_exists. intros (u & Hin & Hnone%bool_decide_eq_true).
    apply list_elem_of_In, elem_of_take in Hin as (k & Hk & Hlt).
    destruct (heap_unit s m (zlen gs - 1) (Z.of_nat k) u Hw) as (_ & _ & ? & ? & ? & [Href _ _ _ _] & _);
      [|congruence].
    apply get_unit_Some. exists g. rewrite Hgl, zget_lookup. done. }
  unfold mpu_malloc_add_region. rewrite Hget. cbn [group_alloc negb mbind outcome_bind].
  unfold group_list at 1 3. cbn [groups default from_option id].
  rewrite zget_app_r by (unfold group_num; lia). unfold group_num. rewrite Z.sub_diag.
  change (zget [group_init] 0) with (Some (part_group [])). cbn [oob mbind outcome_bind].
  destruct (part_group_unit [] x) as (d & Hd & _ & Hu & Hput); [simpl; lia|].
  unfold group_add_region. change (unit_num (part_group [])) with (zlen (@nil region_ref)).
  rewrite Hu, Hd. cbn [oob mbind outcome_bind negb bitfreenum]. rewrite Hput. do 3 f_equal.
  unfold zput, zlen. rewrite Nat2Z.id, insert_app_r_alt, Nat.sub_diag by done. done.
Qed.

Lemma add_regions_part gs refs refs' : (1 ≤ length refs')%nat → (length refs' + length refs ≤ 10)%nat →
  add_regions refs (mkMallocRegion (Some (gs ++ [part_group refs'])))
  = Ok (mkMallocRegion (Some (gs ++ [part_group (refs' ++ refs)]))).
Proof.
  revert refs'. induction refs as [|x refs IH]; intros refs' H1 H2; simpl in *; [by rewrite app_nil_r|].
  rewrite add_region_part by lia. cbn [mbind outcome_bind].
  rewrite IH by (rewrite length_app; simpl; lia). by rewrite <- app_assoc.
Qed.

Lemma bit_of_zeros n k : bit_of (replicate n 0) k = false.
Proof.
  unfold bit_of, zget. destruct (_ <? 0); simpl; [apply Z.bits_0|].
  destruct (replicate n 0 !! _) eqn:E; simpl; [|apply Z.bits_0].
  apply lookup_replicate in E as [-> _]. apply Z.bits_0.
Qed.

Lemma free_count_zeros n c : free_count (replicate n 0) c = Z.of_nat c.
Proof. induction c; cbn [free_count]; [done|]. rewrite IHc, bit_of_zeros. lia. Qed.

(** The regions that can join the heap: in the table, 1 MiB each, not yet used. *)
Record joinable s m (x : Z) : Prop := {
  jn_region : ∃ r, zget (dynamic_map s) x = Some r ∧ r_size r = 2 ^ 20 ∧ 0 < r_start r ∧
    r_start r + 2 ^ 20 ≤ 2 ^ 32;
  jn_new : ∀ j i u, get_unit m j i = Ok u → u_region u ≠ Some (map_gen s, x);
}.

Lemma part_group_full refs i : length refs = 10%nat → 0 ≤ i →
  zget (unit_ (part_group refs)) i =
    x ← zget refs i;
    Some (mkUnit (Some x) (Some (replicate (Z.to_nat (8 * nwords i)) 0)) (64 * nwords i)).
Proof.
  intros Hl Hi. unfold part_group. cbn [unit_]. rewrite Hl.
  change (drop 10 malloc_data_info_table) with (@nil MallocDataInfoType).
  rewrite app_nil_r. unfold zget. replace (i <? 0) with false by lia.
  rewrite lookup_zip_with. destruct (refs !! Z.to_nat i) as [x|] eqn:E; [|done]. simpl.
  assert (Hi10 : 0 ≤ i < 10) by (apply lookup_lt_Some in E; lia).
  pose proof (class_info i Hi10) as Hc. unfold size_of_class in Hc.
  rewrite <- (Z2Nat.id i) in Hc at 1 by lia. rewrite zget_lookup in Hc.
  destruct (malloc_data_info_table !! Z.to_nat i); [|done]. injection Hc as ->. done.
Qed.

(** A heap with one more group, made of the regions at the table indices [xs]. *)
Definition refs_of s (xs : list Z) : list region_ref := (λ x, (map_gen s, x)) <$> xs.
Definition with_group m (refs : list region_ref) : MallocRegionType :=
  mkMallocRegion (Some (group_list m ++ [part_group refs])).

Lemma with_group_num m refs : group_num (with_group m refs) = group_num m + 1.
Proof. unfold group_num at 1. unfold with_group, group_list at 1. simpl. by rewrite zlen_app. Qed.

Lemma with_group_old m refs j i : j < group_num m → get_unit (with_group m refs) j i = get_unit m j i.
Proof.
  intros Hj. unfold get_unit. change (group_list (with_group m refs)) with (group_list m ++ [part_group refs]).
  by rewrite zget_app_l.
Qed.

Lemma with_group_new s m xs i u : length xs = 10%nat →
  get_unit (with_group m (refs_of s xs)) (group_num m) i = Ok u ↔
  ∃ x, zget xs i = Some x ∧
    u = mkUnit (Some (map_gen s, x)) (Some (replicate (Z.to_nat (8 * nwords i)) 0)) (64 * nwords i).
Proof.
  intros Hl. assert (length (refs_of s xs) = 10%nat) by (unfold refs_of; by rewrite length_fmap).
  unfold get_unit. change (group_list (with_group m ?r)) with (group_list m ++ [part_group r]).
  rewrite zget_app_r by (unfold group_num; lia).
  unfold group_num. rewrite Z.sub_diag. change (zget [?g] 0) with (Some g).
  cbn [oob mbind outcome_bind]. destruct (decide (0 ≤ i)).
  - rewrite part_group_full by done. unfold refs_of, zget. replace (i <? 0) with false by lia.
    rewrite list_lookup_fmap. destruct (xs !! Z.to_nat i) as [x|]; simpl.
    + split; [intros [= <-]; eauto|by intros (? & [= ->] & ->)].
    + by split; [|intros (? & ? & _)].
  - rewrite !zget_None by lia. by split; [|intros (? & ? & _)].
Qed.

Lemma add_regions_group s m xs : heap_wf s m → length xs = 10%nat →
  add_regions (refs_of s xs) m = Ok (with_group m (refs_of s xs)).
Proof.
  intros Hw Hl. assert (Hr : length (refs_of s xs) = 10%nat) by (unfold refs_of; by rewrite length_fmap).
  destruct (refs_of s xs) as [|y ys]; [done|]. simpl. rewrite (add_region_new s) by done.
  cbn [mbind outcome_bind]. rewrite add_regions_part; [done|simpl; lia|simpl in *; lia].
Qed.

Lemma with_group_wf s m xs : heap_wf s m → length xs = 10%nat → NoDup xs →
  Forall (joinable s m) xs → heap_wf s (with_group m (refs_of s xs)).
Proof.
  intros Hw Hl Hnd Hj. rewrite Forall_forall in Hj.
  assert (Hcase : ∀ j i u, get_unit (with_group m (refs_of s xs)) j i = Ok u →
    get_unit m j i = Ok u ∨ j = group_num m ∧
    ∃ x, zget xs i = Some x ∧ u_region u = Some (map_gen s, x)).
  { intros j i u Hg. destruct (decide (j < group_num m)).
    - left. by rewrite with_group_old in Hg.
    - assert (j = group_num m) as ->.
      { apply get_unit_Some in Hg as (g & Hg & _). apply zget_range in Hg.
        pose proof (with_group_num m (refs_of s xs)) as Hn. unfold group_num in *. lia. }
      right. split; [done|]. apply (with_group_new s m xs i u Hl) in Hg as (x & Hx & ->). eauto. }
  split.
  - apply Hw.
  - intros j i Hjr Hi. rewrite with_group_num in Hjr. destruct (decide (j < group_num m)).
    { rewrite with_group_old by done. apply Hw; lia. }
    assert (j = group_num m) as -> by lia.
    destruct (zget_is_Some xs i) as [x Hx]; [unfold zlen; lia|].
    destruct (Hj x) as [(r & Hr & ? & ? & ?) _]; [by eapply zget_elem|].
    eexists _, x, r, _. split; [apply (with_group_new s m xs i _ Hl); eauto|]. split; split; try done.
    + split; [apply Forall_replicate; split; lia|]. unfold zlen. rewrite length_replicate.
      pose proof (class_bounds i Hi). lia.
    + rewrite free_count_zeros. simpl. pose proof (class_bounds i Hi). lia.
  - intros j i u Hg. rewrite with_group_num. destruct (Hcase j i u Hg) as [Ho|(-> & x & Hx & _)].
    + pose proof (hw_range s m Hw j i u Ho). lia.
    + apply zget_range in Hx. unfold zlen in Hx. pose proof (zlen_nonneg (group_list m)).
      unfold group_num. lia.
  - intros j i u j' i' u' Hg Hg' He.
    destruct (Hcase _ _ _ Hg) as [Ho|(-> & x & Hx & Hu)], (Hcase _ _ _ Hg') as [Ho'|(-> & x' & Hx' & Hu')].
    + by apply (hw_distinct s m Hw j i u j' i' u').
    + exfalso. destruct (Hj x') as [_ Hn]; [by eapply zget_elem|]. eapply Hn; [exact Ho|congruence].
    + exfalso. destruct (Hj x) as [_ Hn]; [by eapply zget_elem|]. eapply Hn; [exact Ho'|congruence].
    + split; [done|]. rewrite Hu, Hu' in He. injection He as <-.
      pose proof (zget_range _ _ _ Hx). pose proof (zget_range _ _ _ Hx').
      rewrite <- (Z2Nat.id i), <- (Z2Nat.id i') by lia. f_equal.
      eapply NoDup_lookup; [done| |]; rewrite <- zget_lookup, Z2Nat.id by lia; done.
  - apply Forall_app. split; [apply Hw|]. apply Forall_singleton. unfold part_group. simpl.
    unfold zlen, refs_of. rewrite length_fmap. lia.
  - simpl. intros [= Hn]. by destruct (group_list m).
Qed.

(** Registering ten 1 MiB regions that the heap does not use yet adds one complete group:
    no call fails, the heap stays well formed, and exactly the blocks that were live are live. *)
Theorem mpu_malloc_add_group_ok s m (xs : list Z)
    (Hw : heap_wf s m) (Hl : length xs = 10%nat) (Hnd : NoDup xs) (Hj : Forall (joinable s m) xs) :
  ∃ m', add_regions (refs_of s xs) m = Ok m' ∧ heap_wf s m' ∧
    group_num m' = group_num m + 1 ∧ ∀ b, live m' b ↔ live m b.
Proof.
  eexists. split; [by apply add_regions_group|]. split; [by apply with_group_wf|].
  split; [apply with_group_num|]. intros [[j i] k]. unfold live, valid_block.
  rewrite with_group_num. split.
  - intros ((Hjr & Hi & Hk) & u & bm & Hg & Hb & Hbit). destruct (decide (j < group_num m)).
    { rewrite with_group_old in Hg by done. split; [lia|]. by exists u, bm. }
    assert (j = group_num m) as -> by lia.
    apply (with_group_new s m xs i u Hl) in Hg as (x & _ & ->). simpl in Hb. injection Hb as <-.
    by rewrite bit_of_zeros in Hbit.
  - intros ((Hjr & Hi & Hk) & u & bm & Hg & Hb & Hbit). split; [lia|]. exists u, bm.
    by rewrite with_group_old by lia.
Qed.

(** Before any region is registered the heap is well formed and empty. *)
Lemma heap_wf_init s : mpu_wf s → heap_wf s malloc_region_init.
Proof.
  intros Hs. assert (Hg : ∀ j i u, get_unit malloc_region_init j i = Ok u → False).
  { intros j i u (g & Hg & _)%get_unit_Some. apply zget_range in Hg. unfold zlen in Hg. simpl in Hg. lia. }
  split; [done| | | |constructor|done].
  - intros j i Hj. unfold group_num, zlen in Hj. simpl in Hj. lia.
  - intros j i u Hu. by apply Hg in Hu.
  - intros j i u j' i' u' Hu. by apply Hg in Hu.
Qed.
End heap.

(** ** A heap of 10 MiB at 0x70000000 *)

Module MallocDemo.
#[local] Existing Instance MpuDemo.config.

Definition region (i : Z) : MpuAddressRegionType :=
  mkRegion GLOBAL_MEMORY true MPU_ADDRESS_REGION_PERM_ALL (0x70000000 + i * 2 ^ 20) (2 ^ 20)
    0xFFFFFFFF None default_memory_operation.
Definition indices : list Z := seqZ 0 10.
Definition mpu : mpu_state () := mkMpu (region <$> indices) 10 [] ∅ 0 () (-1) (-1) [].
Definition heap : MallocRegionType := with_group malloc_region_init (refs_of mpu indices).

Lemma region_get i r : zget (dynamic_map mpu) i = Some r → r = region i ∧ 0 ≤ i < 10.
Proof.
  unfold zget. destruct (_ <? 0) eqn:E; [done|]. cbn [dynamic_map mpu]. rewrite list_lookup_fmap.
  destruct (indices !! Z.to_nat i) as [j|] eqn:Ej; [|done]. intros [= <-].
  apply lookup_seqZ in Ej as [-> Hr]. replace (0 + _) with i by lia. split; [done|lia].
Qed.

Lemma get_region i : 0 ≤ i < 10 → zget (dynamic_map mpu) i = Some (region i).
Proof.
  intros Hi. destruct (zget_is_Some (dynamic_map mpu) i) as [r Hr]; [done|].
  rewrite Hr. by destruct (region_get i r Hr) as [-> _].
Qed.

Lemma mpu_ok : mpu_wf mpu.
Proof.
  assert (Hall : ∀ P : MpuAddressRegionType → Prop, (∀ i, 0 ≤ i < 10 → P (region i)) → Forall P (dynamic_map mpu)).
  { intros P HP. apply Forall_fmap, Forall_forall. intros i Hi%elem_of_seqZ. apply HP. lia. }
  pose proof MpuDemo.space as Hsp.
  split.
  - apply Hall. intros i Hi. split; cbn [region r_start r_size r_mask r_data]; rewrite ?Hsp; try lia. done.
  - by apply Hall.
  - constructor.
  - constructor.
  - intros i j r1 r2 Hne [-> Hi]%region_get [-> Hj]%region_get.
    unfold disjoint_regions. cbn [region r_start r_size]. lia.
  - done.
  - by apply Hall.
Qed.

Lemma heap_init : heap_wf mpu malloc_region_init.
Proof. apply heap_wf_init, mpu_ok. Qed.

Lemma can_join : Forall (joinable mpu malloc_region_init) indices.
Proof.
  apply Forall_forall. intros i Hi%elem_of_seqZ. split.
  - exists (region i). split; [apply get_region; lia|]. simpl. lia.
  - intros j k u (Hj & _)%(hw_range _ _ heap_init). unfold group_num, zlen in Hj. simpl in Hj. lia.
Qed.

Lemma indices_nodup : NoDup indices.
Proof. apply NoDup_seqZ. Qed.

Lemma heap_ok : heap_wf mpu heap.
Proof. by apply with_group_wf; [apply heap_init| |apply indices_nodup|apply can_join]. Qed.

Lemma heap_empty b : ¬ live heap b.
Proof.
  destruct b as [[j i] k]. intros ((Hj & _) & u & bm & Hg & Hb & Hbit).
  unfold heap in Hj. rewrite with_group_num in Hj.
  change (group_num malloc_region_init) with 0 in Hj. assert (j = 0) as -> by lia.
  apply (with_group_new mpu malloc_region_init indices i u eq_refl) in Hg as (x & _ & ->).
  simpl in Hb. injection Hb as <-. by rewrite bit_of_zeros in Hbit.
Qed.

Definition block_1MiB : list Z := replicate (Z.to_nat (2 ^ 20)) 0.
Lemma block_len : zlen block_1MiB = 2 ^ 20.
Proof. unfold zlen, block_1MiB. rewrite length_replicate. lia. Qed.

Lemma get_memory_witness :
  ∃ a s' m', mpu_malloc_get_memory 5000 (Some block_1MiB) mpu heap = Ok (a, s', m') ∧
    heap_wf s' m' ∧
    ((a = 0 ∧ s' = mpu ∧ m' = heap ∧ ∀ b, valid_block heap b → 5000 ≤ block_size b → live heap b) ∨
     (∃ b, valid_block heap b ∧ 5000 ≤ block_size b ∧ ¬ live heap b ∧ block_addr s' m' b a ∧ 0 < a ∧
       ∀ b', live m' b' ↔ live heap b' ∨ b' = b)).
Proof. apply (mpu_malloc_get_memory_spec 5000 block_1MiB mpu heap heap_ok block_len). Defined.

(** The first request for 5000 bytes gets the first block of the 8 KiB class. *)
Lemma first_block :
  match mpu_malloc_get_memory 5000 (Some block_1MiB) mpu heap with
  | Ok (a, _, _) => a = 0x70000000 + 8 * 2 ^ 20
  | Fault _ => False
  end.
Proof. reflexivity. Qed.

(** Two requests that both succeed. *)
Lemma two_blocks : ∃ s m a1 a2, rtc heap_step (mpu, heap, []) (s, m, [(a2, 100); (a1, 5000)]).
Proof.
  destruct (get_memory_ok 5000 block_1MiB mpu heap heap_ok block_len)
    as (a1 & s1 & m1 & G1 & W1 & N1 & _ & [(-> & _ & _ & Hf)|(b1 & V1 & Z1 & _ & _ & P1 & L1)]).
  { exfalso. apply (heap_empty (0, 8, 0)), Hf; [|vm_compute; congruence].
    unfold valid_block. split_and!; vm_compute; congruence. }
  destruct (get_memory_ok 100 block_1MiB s1 m1 W1 block_len)
    as (a2 & s2 & m2 & G2 & _ & _ & _ & [(-> & _ & _ & Hf)|(b2 & _ & _ & _ & _ & P2 & _)]).
  { exfalso. assert (live m1 (0, 2, 0)) as [Hl|<-]%L1.
    - apply Hf; [|vm_compute; congruence]. unfold valid_block. rewrite N1.
      split_and!; vm_compute; congruence.
    - by apply heap_empty in Hl.
    - unfold block_size, class_size in Z1. simpl in Z1. lia. }
  exists s2, m2, a1, a2. pose proof (step_get mpu heap [] 5000 _ _ _ _ block_len G1) as S1.
  pose proof (step_get s1 m1 [(a1, 5000)] 100 _ _ _ _ block_len G2) as S2.
  rewrite (proj2 (Z.eqb_neq a1 0)) in S1 by lia. rewrite (proj2 (Z.eqb_neq a2 0)) in S2 by lia.
  eapply rtc_l; [exact S1|]. by apply rtc_once.
Qed.

Lemma clients_witness : ∃ s m a1 a2,
  rtc heap_step (mpu, heap, []) (s, m, [(a2, 100); (a1, 5000)]) ∧
  (a2 + 100 ≤ a1 ∨ a1 + 5000 ≤ a2).
Proof.
  destruct two_blocks as (s & m & a1 & a2 & Hr).
  destruct (heap_clients_disjoint mpu heap s m _ heap_ok heap_empty Hr) as [Hd _].
  exists s, m, a1, a2. split; [exact Hr|]. exact (Hd O 1%nat a2 100 a1 5000 ltac:(done) eq_refl eq_refl).
Defined.

Lemma dangles_witness :
  mpu_malloc_get_memory 5000 (Some block_1MiB) (push_region mpu MpuDemo.ram) heap = Fault UseAfterFree.
Proof.
  apply (malloc_region_dangles 5000 _ mpu heap MpuDemo.ram (0, 8, 0) heap_ok).
  - unfold valid_block. split_and!; vm_compute; congruence.
  - vm_compute. congruence.
  - apply heap_empty.
Defined.

Lemma add_group_witness :
  ∃ m', add_regions (refs_of mpu indices) malloc_region_init = Ok m' ∧ heap_wf mpu m' ∧
    group_num m' = group_num malloc_region_init + 1 ∧
    ∀ b, live m' b ↔ live malloc_region_init b.
Proof.
  apply (mpu_malloc_add_group_ok mpu malloc_region_init indices heap_init eq_refl indices_nodup can_join).
Defined.
End MallocDemo.
