(* ===== verification/ElfImageCheck.v ===== *)
(** * Checking an ELF image before it is read ([src/src/lib/loader/elf_image_check.c], [elf.h])

    An image is the list of the file's bytes; every read of it is bounds
    checked by the model ([OutOfBounds]).  The structures of [elf.h] are
    decoded from their bytes with the layout of the source's declarations.

    [elf_image_check] decides a declarative well-formedness predicate
    ([image_wf]), and never reads outside the file while doing so. *)

From S2P Require Import Prelude.
Open Scope Z_scope.

(** ** The structures of [elf.h] *)

(** The [n]-byte little-endian field at offset [off] of a structure. *)
Definition fld (bs : list Z) (off n : nat) : Z := le_val (take n (drop off bs)).

Record Elf_Ehdr := mkEhdr {
  e_ident : list Z;
  e_type : Z; e_machine : Z; e_version : Z; e_entry : Z; e_phoff : Z; e_shoff : Z; e_flags : Z;
  e_ehsize : Z; e_phentsize : Z; e_phnum : Z; e_shentsize : Z; e_shnum : Z; e_shstrndx : Z;
}.
Definition Elf32_Ehdr (b : list Z) : Elf_Ehdr :=
  mkEhdr (take 16 b) (fld b 16 2) (fld b 18 2) (fld b 20 4) (fld b 24 4) (fld b 28 4) (fld b 32 4)
    (fld b 36 4) (fld b 40 2) (fld b 42 2) (fld b 44 2) (fld b 46 2) (fld b 48 2) (fld b 50 2).
Definition Elf64_Ehdr (b : list Z) : Elf_Ehdr :=
  mkEhdr (take 16 b) (fld b 16 2) (fld b 18 2) (fld b 20 4) (fld b 24 8) (fld b 32 8) (fld b 40 8)
    (fld b 48 4) (fld b 52 2) (fld b 54 2) (fld b 56 2) (fld b 58 2) (fld b 60 2) (fld b 62 2).

Record Elf_Phdr := mkPhdr {
  p_type : Z; p_offset : Z; p_vaddr : Z; p_paddr : Z; p_filesz : Z; p_memsz : Z; p_flags : Z;
  p_align : Z;
}.
Definition Elf32_Phdr (b : list Z) : Elf_Phdr :=
  mkPhdr (fld b 0 4) (fld b 4 4) (fld b 8 4) (fld b 12 4) (fld b 16 4) (fld b 20 4) (fld b 24 4) (fld b 28 4).
Definition Elf64_Phdr (b : list Z) : Elf_Phdr :=
  mkPhdr (fld b 0 4) (fld b 8 8) (fld b 16 8) (fld b 24 8) (fld b 32 8) (fld b 40 8) (fld b 4 4) (fld b 48 8).

Record Elf_Shdr := mkShdr {
  sh_name : Z; sh_type : Z; sh_flags : Z; sh_addr : Z; sh_offset : Z; sh_size : Z; sh_link : Z;
  sh_info : Z; sh_addralign : Z; sh_entsize : Z;
}.
Definition Elf32_Shdr (b : list Z) : Elf_Shdr :=
  mkShdr (fld b 0 4) (fld b 4 4) (fld b 8 4) (fld b 12 4) (fld b 16 4) (fld b 20 4) (fld b 24 4)
    (fld b 28 4) (fld b 32 4) (fld b 36 4).
Definition Elf64_Shdr (b : list Z) : Elf_Shdr :=
  mkShdr (fld b 0 4) (fld b 4 4) (fld b 8 8) (fld b 16 8) (fld b 24 8) (fld b 32 8) (fld b 40 4)
    (fld b 44 4) (fld b 48 8) (fld b 56 8).

Record Elf_Sym := mkSym {
  st_name : Z; st_value : Z; st_size : Z; st_info : Z; st_other : Z; st_shndx : Z;
}.
Definition Elf32_Sym (b : list Z) : Elf_Sym :=
  mkSym (fld b 0 4) (fld b 4 4) (fld b 8 4) (fld b 12 1) (fld b 13 1) (fld b 14 2).
Definition Elf64_Sym (b : list Z) : Elf_Sym :=
  mkSym (fld b 0 4) (fld b 8 8) (fld b 16 8) (fld b 4 1) (fld b 5 1) (fld b 6 2).

Definition EI_NIDENT : Z := 16.
Definition ELFCLASS32 : Z := 1.
Definition ELFCLASS64 : Z := 2.
Definition ELFDATA2LSB : Z := 1.
Definition SHT_NULL : Z := 0.
Definition SHT_SYMTAB : Z := 2.
Definition SHT_STRTAB : Z := 3.
Definition SHT_NOBITS : Z := 8.
Definition PT_LOAD : Z := 1.

Definition sizeof_Ehdr (is_64 : bool) : Z := if is_64 then 64 else 52.
Definition sizeof_Phdr (is_64 : bool) : Z := if is_64 then 56 else 32.
Definition sizeof_Shdr (is_64 : bool) : Z := if is_64 then 64 else 40.
Definition sizeof_Sym (is_64 : bool) : Z := if is_64 then 24 else 16.

(** [EI_CLASS] is byte 4 and [EI_DATA] byte 5 of the identification. *)
Definition elf_byte (data : list Z) (i : Z) : outcome Z := oob (zget data i).

Definition IS_ELF (data : list Z) : outcome bool :=
  b0 ← elf_byte data 0; b1 ← elf_byte data 1; b2 ← elf_byte data 2; b3 ← elf_byte data 3;
  Ok ((b0 =? 0x7f) && (b1 =? 0x45) && (b2 =? 0x4c) && (b3 =? 0x46)).

(** ** The checks *)

Record ElfHeaderView := mkHeaderView {
  is_64 : bool;
  phoff : Z; shoff : Z; phentsize : Z; phnum : Z; shentsize : Z; shnum : Z; shstrndx : Z;
}.
Record ElfProgramView := mkProgramView { pv_type : Z; pv_offset : Z; pv_filesz : Z; pv_memsz : Z }.
Record ElfSectionView := mkSectionView {
  sv_name : Z; sv_type : Z; sv_offset : Z; sv_size : Z; sv_link : Z; sv_entsize : Z;
}.

Definition range_is_inside (offset size elf_size : Z) : bool :=
  if elf_size <? offset then false else size <=? elf_size - offset.

Definition table_is_inside (offset count entry_size elf_size : Z) : bool :=
  if count =? 0 then true
  else if elf_size / count <? entry_size then false
  else range_is_inside offset (u64 (count * entry_size)) elf_size.

Definition header_view (is_64 : bool) (e : Elf_Ehdr) : ElfHeaderView :=
  mkHeaderView is_64 (e_phoff e) (e_shoff e) (e_phentsize e) (e_phnum e) (e_shentsize e)
    (e_shnum e) (e_shstrndx e).

(** [None] for [STD_E_INVALID]. *)
Definition read_header (data : list Z) (elf_size : Z) : outcome (option ElfHeaderView) :=
  if elf_size <? EI_NIDENT then Ok None
  else
    magic ← IS_ELF data;
    if negb magic then Ok None
    else
      ei_data ← elf_byte data 5;
      if negb (ei_data =? ELFDATA2LSB) then Ok None
      else
        ei_class ← elf_byte data 4;
        if ei_class =? ELFCLASS32 then
          if elf_size <? sizeof_Ehdr false then Ok None
          else b ← oob (bytes_at data 0 (sizeof_Ehdr false)); Ok (Some (header_view false (Elf32_Ehdr b)))
        else if ei_class =? ELFCLASS64 then
          if elf_size <? sizeof_Ehdr true then Ok None
          else b ← oob (bytes_at data 0 (sizeof_Ehdr true)); Ok (Some (header_view true (Elf64_Ehdr b)))
        else Ok None.

Definition program_view (is_64 : bool) (b : list Z) : ElfProgramView :=
  let p := if is_64 then Elf64_Phdr b else Elf32_Phdr b in
  mkProgramView (p_type p) (p_offset p) (p_filesz p) (p_memsz p).

Definition read_program (data : list Z) (h : ElfHeaderView) (index : Z) : outcome ElfProgramView :=
  b ← oob (bytes_at data (phoff h + index * phentsize h) (sizeof_Phdr (is_64 h)));
  Ok (program_view (is_64 h) b).

Definition section_view (is_64 : bool) (b : list Z) : ElfSectionView :=
  let s := if is_64 then Elf64_Shdr b else Elf32_Shdr b in
  mkSectionView (sh_name s) (sh_type s) (sh_offset s) (sh_size s) (sh_link s) (sh_entsize s).

Definition read_section (data : list Z) (h : ElfHeaderView) (index : Z) : outcome ElfSectionView :=
  b ← oob (bytes_at data (shoff h + index * shentsize h) (sizeof_Shdr (is_64 h)));
  Ok (section_view (is_64 h) b).

Definition read_symbol_name (data : list Z) (h : ElfHeaderView) (offset : Z) : outcome Z :=
  b ← oob (bytes_at data offset (sizeof_Sym (is_64 h)));
  Ok (st_name (if is_64 h then Elf64_Sym b else Elf32_Sym b)).

(** A loop over [i .. i + n): [continue] is [Ok STD_E_OK], a return any other code. *)
Fixpoint for_each (n : nat) (i : Z) (body : Z → outcome Std_ReturnType) : outcome Std_ReturnType :=
  match n with
  | O => Ok STD_E_OK
  | S n' =>
      err ← body i;
      if std_ok err then for_each n' (i + 1) body else Ok err
  end.

Definition check_programs (data : list Z) (elf_size : Z) (h : ElfHeaderView) : outcome Std_ReturnType :=
  if phnum h =? 0 then Ok STD_E_OK
  else if phentsize h <? sizeof_Phdr (is_64 h) then Ok STD_E_INVALID
  else if negb (table_is_inside (phoff h) (phnum h) (phentsize h) elf_size) then Ok STD_E_INVALID
  else
    for_each (Z.to_nat (phnum h)) 0 (λ i,
      p ← read_program data h i;
      if negb (pv_type p =? PT_LOAD) then Ok STD_E_OK
      else if negb (range_is_inside (pv_offset p) (pv_filesz p) elf_size) then Ok STD_E_INVALID
      else if pv_memsz p <? pv_filesz p then Ok STD_E_INVALID
      else Ok STD_E_OK).

Definition string_table_is_valid (data : list Z) (s : ElfSectionView) : outcome bool :=
  if negb (sv_type s =? SHT_STRTAB) then Ok false
  else if sv_size s =? 0 then Ok false
  else b ← elf_byte data (u64 (sv_offset s + sv_size s - 1)); Ok (b =? 0).

Definition check_symbol_table (data : list Z) (h : ElfHeaderView) (symtab : ElfSectionView)
    : outcome Std_ReturnType :=
  let entry_size := sizeof_Sym (is_64 h) in
  if negb (sv_entsize symtab =? 0) && negb (sv_entsize symtab =? entry_size) then Ok STD_E_INVALID
  else if shnum h <=? sv_link symtab then Ok STD_E_INVALID
  else
    strtab ← read_section data h (sv_link symtab);
    valid ← string_table_is_valid data strtab;
    if negb valid then Ok STD_E_INVALID
    else
      for_each (Z.to_nat (sv_size symtab / entry_size)) 0 (λ i,
        name ← read_symbol_name data h (u64 (sv_offset symtab + i * entry_size));
        if sv_size strtab <=? name then Ok STD_E_INVALID else Ok STD_E_OK).

Definition check_sections (data : list Z) (elf_size : Z) (h : ElfHeaderView) : outcome Std_ReturnType :=
  if shnum h =? 0 then Ok STD_E_OK
  else if shentsize h <? sizeof_Shdr (is_64 h) then Ok STD_E_INVALID
  else if negb (table_is_inside (shoff h) (shnum h) (shentsize h) elf_size) then Ok STD_E_INVALID
  else
    r ← for_each (Z.to_nat (shnum h)) 0 (λ i,
      s ← read_section data h i;
      if (sv_type s =? SHT_NULL) || (sv_type s =? SHT_NOBITS) then Ok STD_E_OK
      else if negb (range_is_inside (sv_offset s) (sv_size s) elf_size) then Ok STD_E_INVALID
      else Ok STD_E_OK);
    if negb (std_ok r) then Ok r
    else if shnum h <=? shstrndx h then Ok STD_E_INVALID
    else
      names ← read_section data h (shstrndx h);
      valid ← string_table_is_valid data names;
      if negb valid then Ok STD_E_INVALID
      else
        for_each (Z.to_nat (shnum h)) 0 (λ i,
          s ← read_section data h i;
          if sv_size names <=? sv_name s then Ok STD_E_INVALID
          else if sv_type s =? SHT_SYMTAB then
            r ← check_symbol_table data h s;
            if negb (std_ok r) then Ok STD_E_INVALID else Ok STD_E_OK
          else Ok STD_E_OK).

Definition elf_image_check (data : list Z) (elf_size : Z) : outcome Std_ReturnType :=
  h ← read_header data elf_size;
  match h with
  | None => Ok STD_E_INVALID
  | Some h =>
      r ← check_programs data elf_size h;
      if negb (std_ok r) then Ok STD_E_INVALID
      else
        r ← check_sections data elf_size h;
        if negb (std_ok r) then Ok STD_E_INVALID else Ok STD_E_OK
  end.

(** ** What a well-formed image is *)

Definition program_at (data : list Z) (h : ElfHeaderView) (i : Z) : ElfProgramView :=
  program_view (is_64 h)
    (default [] (bytes_at data (phoff h + i * phentsize h) (sizeof_Phdr (is_64 h)))).
Definition section_at (data : list Z) (h : ElfHeaderView) (i : Z) : ElfSectionView :=
  section_view (is_64 h)
    (default [] (bytes_at data (shoff h + i * shentsize h) (sizeof_Shdr (is_64 h)))).
Definition symbol_name_at (data : list Z) (h : ElfHeaderView) (off : Z) : Z :=
  let b := default [] (bytes_at data off (sizeof_Sym (is_64 h))) in
  st_name (if is_64 h then Elf64_Sym b else Elf32_Sym b).

(** Little endian, of a known class, and as long as its header. *)
Definition header_wf (data : list Z) (h : ElfHeaderView) : Prop :=
  take 4 data = [0x7f; 0x45; 0x4c; 0x46] ∧ zget data 5 = Some ELFDATA2LSB ∧
  zget data 4 = Some (if is_64 h then ELFCLASS64 else ELFCLASS32) ∧
  sizeof_Ehdr (is_64 h) ≤ zlen data ∧
  h = header_view (is_64 h)
        ((if is_64 h then Elf64_Ehdr else Elf32_Ehdr)
           (default [] (bytes_at data 0 (sizeof_Ehdr (is_64 h))))).

Definition programs_wf (data : list Z) (h : ElfHeaderView) : Prop :=
  phnum h ≠ 0 →
  sizeof_Phdr (is_64 h) ≤ phentsize h ∧
  phoff h + phnum h * phentsize h ≤ zlen data ∧
  ∀ i, 0 ≤ i < phnum h →
    let p := program_at data h i in
    pv_type p = PT_LOAD → pv_offset p + pv_filesz p ≤ zlen data ∧ pv_filesz p ≤ pv_memsz p.

Definition string_table_wf (data : list Z) (s : ElfSectionView) : Prop :=
  sv_type s = SHT_STRTAB ∧ 0 < sv_size s ∧ zget data (sv_offset s + sv_size s - 1) = Some 0.

Definition symbol_table_wf (data : list Z) (h : ElfHeaderView) (s : ElfSectionView) : Prop :=
  let entry_size := sizeof_Sym (is_64 h) in
  let strtab := section_at data h (sv_link s) in
  (sv_entsize s = 0 ∨ sv_entsize s = entry_size) ∧ sv_link s < shnum h ∧
  string_table_wf data strtab ∧
  ∀ k, 0 ≤ k < sv_size s / entry_size →
    symbol_name_at data h (sv_offset s + k * entry_size) < sv_size strtab.

Definition sections_wf (data : list Z) (h : ElfHeaderView) : Prop :=
  shnum h ≠ 0 →
  sizeof_Shdr (is_64 h) ≤ shentsize h ∧
  shoff h + shnum h * shentsize h ≤ zlen data ∧
  (∀ i, 0 ≤ i < shnum h →
    let s := section_at data h i in
    sv_type s ≠ SHT_NULL → sv_type s ≠ SHT_NOBITS → sv_offset s + sv_size s ≤ zlen data) ∧
  shstrndx h < shnum h ∧
  string_table_wf data (section_at data h (shstrndx h)) ∧
  ∀ i, 0 ≤ i < shnum h →
    let s := section_at data h i in
    sv_name s < sv_size (section_at data h (shstrndx h)) ∧
    (sv_type s = SHT_SYMTAB → symbol_table_wf data h s).

Definition image_wf (data : list Z) : Prop :=
  ∃ h, header_wf data h ∧ programs_wf data h ∧ sections_wf data h.

(** ** Fields are in range *)

Lemma fld_range b off n : Forall is_byte b → 0 ≤ fld b off n < 2 ^ (8 * Z.of_nat n).
Proof.
  intros Hb. unfold fld. assert (Hf : Forall is_byte (take n (drop off b))) by (by apply Forall_take, Forall_drop).
  pose proof (le_val_range _ Hf) as Hr. split; [lia|].
  eapply Z.lt_le_trans; [apply Hr|]. apply Z.pow_le_mono_r; [lia|].
  unfold zlen. rewrite length_take. lia.
Qed.

Lemma bytes_at_bytes data off n : Forall is_byte data → Forall is_byte (default [] (bytes_at data off n)).
Proof.
  intros Hd. unfold bytes_at. destruct (_ && _); simpl; [|constructor].
  by apply Forall_take, Forall_drop.
Qed.


Record header_range (h : ElfHeaderView) : Prop := {
  hr_phoff : 0 ≤ phoff h < 2 ^ 64; hr_shoff : 0 ≤ shoff h < 2 ^ 64;
  hr_phentsize : 0 ≤ phentsize h < 2 ^ 16; hr_phnum : 0 ≤ phnum h < 2 ^ 16;
  hr_shentsize : 0 ≤ shentsize h < 2 ^ 16; hr_shnum : 0 ≤ shnum h < 2 ^ 16;
  hr_shstrndx : 0 ≤ shstrndx h < 2 ^ 16;
}.

Lemma header_view_range c b : Forall is_byte b →
  header_range (header_view c ((if c then Elf64_Ehdr else Elf32_Ehdr) b)).
Proof.
  intros Hb. destruct c; split; simpl;
    match goal with |- 0 ≤ fld b ?o ?n < _ => pose proof (fld_range b o n Hb) end; lia.
Qed.

Lemma section_view_range c b : Forall is_byte b →
  let s := section_view c b in
  0 ≤ sv_name s ∧ 0 ≤ sv_offset s < 2 ^ 64 ∧ 0 ≤ sv_size s < 2 ^ 64 ∧ 0 ≤ sv_link s.
Proof.
  intros Hb. destruct c; simpl; split_and!;
    match goal with |- context [fld b ?o ?n] => pose proof (fld_range b o n Hb) end; lia.
Qed.

Lemma program_view_range c b : Forall is_byte b →
  let p := program_view c b in 0 ≤ pv_offset p ∧ 0 ≤ pv_filesz p.
Proof.
  intros Hb. destruct c; simpl; split;
    match goal with |- context [fld b ?o ?n] => pose proof (fld_range b o n Hb) end; lia.
Qed.

Lemma range_is_inside_spec off n sz : 0 ≤ n → range_is_inside off n sz = true ↔ off + n ≤ sz.
Proof. intros. unfold range_is_inside. destruct (Z.ltb_spec sz off); lia. Qed.

Lemma table_is_inside_spec off count entry sz :
  0 < count < 2 ^ 32 → 0 ≤ entry < 2 ^ 32 → 0 ≤ off → 0 ≤ sz < 2 ^ 64 →
  table_is_inside off count entry sz = true ↔ off + count * entry ≤ sz.
Proof.
  intros. unfold table_is_inside. replace (count =? 0) with false by lia.
  pose proof (Z.mul_div_le sz count ltac:(lia)). pose proof (Z.mul_succ_div_gt sz count ltac:(lia)).
  destruct (Z.ltb_spec (sz / count) entry); [split; [done|nia]|].
  rewrite wrap_id by (unfold in_width; nia). apply range_is_inside_spec. nia.
Qed.

(** ** Checks that decide a property *)

(** The check returns, and its code says whether [P] holds. *)
Definition checks (m : outcome Std_ReturnType) (P : Prop) : Prop :=
  m = Ok STD_E_OK ∧ P ∨ m = Ok STD_E_INVALID ∧ ¬ P.

#[export] Instance checks_proper m : Proper (iff ==> iff) (checks m).
Proof. intros P Q HPQ. unfold checks. by rewrite HPQ. Qed.

Lemma checks_ok P : P → checks (Ok STD_E_OK) P.
Proof. by left. Qed.

Lemma checks_invalid (P : Prop) : ¬ P → checks (Ok STD_E_INVALID) P.
Proof. by right. Qed.

Lemma checks_known m (P Q : Prop) : P → checks m Q → checks m (P ∧ Q).
Proof. intros HP [[-> ?]|[-> ?]]; [by left|right]. split; [done|tauto]. Qed.

Lemma checks_guard b m P : (b = false → checks m P) →
  checks (if b then Ok STD_E_INVALID else m) (b = false ∧ P).
Proof.
  intros Hm. destruct b; [right; split; [done|by intros []]|].
  destruct (Hm eq_refl) as [[-> ?]|[-> ?]]; [by left|right]. split; [done|tauto].
Qed.

Lemma checks_seq m k P Q : checks m P → (P → checks k Q) →
  checks (r ← m; if negb (std_ok r) then Ok STD_E_INVALID else k) (P ∧ Q).
Proof.
  intros [[-> HP]|[-> HP]] Hk; simpl.
  - destruct (Hk HP) as [[-> ?]|[-> ?]]; [by left|right]. split; [done|tauto].
  - right. split; [done|tauto].
Qed.

Lemma checks_last m P : checks m P →
  checks (r ← m; if negb (std_ok r) then Ok STD_E_INVALID else Ok STD_E_OK) P.
Proof. intros [[-> ?]|[-> ?]]; [by left|by right]. Qed.

Lemma checks_for_each n i body (P : Z → Prop) :
  (∀ j, i ≤ j < i + Z.of_nat n → checks (body j) (P j)) →
  checks (for_each n i body) (∀ j, i ≤ j < i + Z.of_nat n → P j).
Proof.
  revert i. induction n as [|n IH]; intros i Hb; simpl; [left; split; [done|lia]|].
  destruct (Hb i) as [[-> HP]|[-> HP]]; [lia| |].
  - simpl. destruct (IH (i + 1)) as [[-> Hr]|[-> Hr]].
    + intros j Hj. apply Hb. lia.
    + left. split; [done|]. intros j Hj. destruct (decide (j = i)) as [->|]; [done|]. apply Hr. lia.
    + right. split; [done|]. intros Ha. apply Hr. intros j Hj. apply Ha. lia.
  - right. split; [done|]. intros Ha. apply HP, Ha. lia.
Qed.

Lemma checks_for_count n body (P : Z → Prop) : 0 ≤ n →
  (∀ j, 0 ≤ j < n → checks (body j) (P j)) →
  checks (for_each (Z.to_nat n) 0 body) (∀ j, 0 ≤ j < n → P j).
Proof.
  intros Hn Hb. pose proof (checks_for_each (Z.to_nat n) 0 body P) as Hf.
  rewrite Z2Nat.id, Z.add_0_l in Hf by done. by apply Hf.
Qed.

Section check.
Context (data : list Z) (Hbytes : Forall is_byte data) (Hsize : zlen data < 2 ^ 64).
Implicit Types (h : ElfHeaderView) (s : ElfSectionView).

Lemma struct_read off n : 0 ≤ off → 0 ≤ n → off + n ≤ zlen data →
  oob (bytes_at data off n) = Ok (default [] (bytes_at data off n)).
Proof. intros. destruct (bytes_at_Some data off n) as (b & -> & _); done. Qed.

Lemma section_at_range h i :
  let s := section_at data h i in
  0 ≤ sv_name s ∧ 0 ≤ sv_offset s < 2 ^ 64 ∧ 0 ≤ sv_size s < 2 ^ 64 ∧ 0 ≤ sv_link s.
Proof. apply section_view_range, bytes_at_bytes, Hbytes. Qed.

Lemma read_section_ok h i : header_range h → 0 ≤ i < shnum h →
  sizeof_Shdr (is_64 h) ≤ shentsize h → shoff h + shnum h * shentsize h ≤ zlen data →
  read_section data h i = Ok (section_at data h i).
Proof.
  intros Hr Hi Hsz Hin. destruct Hr. unfold read_section.
  rewrite struct_read; [done|nia|destruct (is_64 h); simpl; lia|nia].
Qed.

Lemma read_program_ok h i : header_range h → 0 ≤ i < phnum h →
  sizeof_Phdr (is_64 h) ≤ phentsize h → phoff h + phnum h * phentsize h ≤ zlen data →
  read_program data h i = Ok (program_at data h i).
Proof.
  intros Hr Hi Hsz Hin. destruct Hr. unfold read_program.
  rewrite struct_read; [done|nia|destruct (is_64 h); simpl; lia|nia].
Qed.

Lemma check_load_spec p : 0 ≤ pv_filesz p →
  checks
    (if negb (pv_type p =? PT_LOAD) then Ok STD_E_OK
     else if negb (range_is_inside (pv_offset p) (pv_filesz p) (zlen data)) then Ok STD_E_INVALID
     else if pv_memsz p <? pv_filesz p then Ok STD_E_INVALID
     else Ok STD_E_OK)
    (pv_type p = PT_LOAD → pv_offset p + pv_filesz p ≤ zlen data ∧ pv_filesz p ≤ pv_memsz p).
Proof.
  intros Hfs. pose proof (range_is_inside_spec (pv_offset p) (pv_filesz p) (zlen data) Hfs) as Hri.
  destruct (Z.eqb_spec (pv_type p) PT_LOAD); simpl; [|by apply checks_ok].
  destruct (range_is_inside _ _ _); simpl; [|apply checks_invalid; intuition congruence].
  destruct (Z.ltb_spec (pv_memsz p) (pv_filesz p)).
  - apply checks_invalid. intros Ha. destruct Ha; [done|lia].
  - apply checks_ok. split; [by apply Hri|done].
Qed.

Lemma check_programs_spec h : header_range h →
  checks (check_programs data (zlen data) h) (programs_wf data h).
Proof.
  intros Hr. unfold check_programs, programs_wf.
  destruct (Z.eqb_spec (phnum h) 0) as [|Hn]; [by left|].
  pose proof Hr as [? ? ? ? _ _ _]. pose proof (zlen_nonneg data).
  assert (Hcond : ∀ Q : Prop, (phnum h ≠ 0 → Q) ↔ Q) by tauto. rewrite Hcond.
  destruct (Z.ltb_spec (phentsize h) (sizeof_Phdr (is_64 h)));
    [apply checks_invalid; intros [? _]; lia|].
  destruct (table_is_inside _ _ _ _) eqn:Ht; cbn [negb].
  - apply table_is_inside_spec in Ht; [|lia..].
    do 2 (apply checks_known; [done|]).
    apply checks_for_count; [lia|]. intros i Hi. rewrite read_program_ok by (done || lia).
    cbn [mbind outcome_bind]. apply check_load_spec.
    by apply program_view_range, bytes_at_bytes.
  - apply checks_invalid. intros (_ & Ha & _). apply not_true_iff_false in Ht. apply Ht.
    apply table_is_inside_spec; lia.
Qed.

Lemma string_table_spec s : 0 ≤ sv_offset s → 0 ≤ sv_size s < 2 ^ 64 →
  (sv_type s = SHT_STRTAB → sv_offset s + sv_size s ≤ zlen data) →
  ∃ b, string_table_is_valid data s = Ok b ∧ (b = true ↔ string_table_wf data s).
Proof.
  intros Ho Hs Hin. unfold string_table_is_valid, string_table_wf.
  destruct (Z.eqb_spec (sv_type s) SHT_STRTAB) as [Ht|]; simpl; [|exists false; by split; [|split; [|tauto]]].
  specialize (Hin Ht). destruct (Z.eqb_spec (sv_size s) 0); [exists false; split; [done|split; [done|lia]]|].
  rewrite wrap_id by (unfold in_width; lia).
  destruct (zget_is_Some data (sv_offset s + sv_size s - 1)) as [b Hb]; [lia|].
  unfold elf_byte. rewrite Hb. simpl. exists (b =? 0). split; [done|].
  rewrite Z.eqb_eq. split; [intros ->; split_and!; [done|lia|done]|]. by intros (_ & _ & [= ->]).
Qed.

Record tables_inside h : Prop := {
  ti_range : header_range h;
  ti_entry : sizeof_Shdr (is_64 h) ≤ shentsize h;
  ti_inside : shoff h + shnum h * shentsize h ≤ zlen data;
  ti_contents : ∀ i, 0 ≤ i < shnum h →
    let s := section_at data h i in
    sv_type s ≠ SHT_NULL → sv_type s ≠ SHT_NOBITS → sv_offset s + sv_size s ≤ zlen data;
}.

Lemma string_table_at h i : tables_inside h → 0 ≤ i < shnum h →
  ∃ b, string_table_is_valid data (section_at data h i) = Ok b ∧
       (b = true ↔ string_table_wf data (section_at data h i)).
Proof.
  intros Ht Hi. destruct (section_at_range h i) as (_ & ? & ? & _). apply string_table_spec; [lia|lia|].
  intros Hty. by apply (ti_contents h Ht i Hi); rewrite Hty.
Qed.

Lemma read_symbol_name_ok h off : 0 ≤ off → off + sizeof_Sym (is_64 h) ≤ zlen data →
  read_symbol_name data h off = Ok (symbol_name_at data h off).
Proof.
  intros. unfold read_symbol_name. rewrite struct_read; [done|done|destruct (is_64 h); simpl; lia|done].
Qed.

Lemma check_symbol_table_spec h i : tables_inside h → 0 ≤ i < shnum h →
  let s := section_at data h i in
  sv_type s = SHT_SYMTAB →
  checks (check_symbol_table data h s) (symbol_table_wf data h s).
Proof.
  intros Ht Hi s Hty. destruct (section_at_range h i) as (_ & Hof & Hsz & Hlk). fold s in Hof, Hsz, Hlk.
  assert (Hin : sv_offset s + sv_size s ≤ zlen data) by (apply (ti_contents h Ht i Hi); fold s; by rewrite Hty).
  assert (Hes : 0 < sizeof_Sym (is_64 h)) by (destruct (is_64 h); simpl; lia).
  unfold check_symbol_table, symbol_table_wf.
  destruct (negb (sv_entsize s =? 0) && negb (sv_entsize s =? sizeof_Sym (is_64 h))) eqn:Ee.
  { apply checks_invalid. intros [[?|?] _]; lia. }
  apply checks_known; [lia|].
  destruct (Z.leb_spec (shnum h) (sv_link s)); [apply checks_invalid; intros [? _]; lia|].
  apply checks_known; [done|]. pose proof Ht as [Hr He Hti _].
  rewrite read_section_ok by (done || lia). cbn [mbind outcome_bind].
  destruct (string_table_at h (sv_link s) Ht) as (b & -> & Hb); [lia|]. cbn [mbind outcome_bind].
  destruct b; cbn [negb]; [|apply checks_invalid; intros [Hw _]; by apply Hb in Hw].
  apply checks_known; [by apply Hb|]. apply checks_for_count; [apply Z.div_pos; lia|].
  intros k Hk. pose proof (Z.mul_div_le (sv_size s) (sizeof_Sym (is_64 h)) Hes).
  assert (k * sizeof_Sym (is_64 h) + sizeof_Sym (is_64 h) ≤ sv_size s) by nia.
  rewrite wrap_id by (unfold in_width; nia). rewrite read_symbol_name_ok by nia.
  cbn [mbind outcome_bind]. destruct (Z.leb_spec (sv_size (section_at data h (sv_link s)))
    (symbol_name_at data h (sv_offset s + k * sizeof_Sym (is_64 h)))) as [Hle|Hlt];
    [apply checks_invalid; lia|apply checks_ok; lia].
Qed.

Lemma check_contents_spec s : 0 ≤ sv_size s →
  checks
    (if (sv_type s =? SHT_NULL) || (sv_type s =? SHT_NOBITS) then Ok STD_E_OK
     else if negb (range_is_inside (sv_offset s) (sv_size s) (zlen data)) then Ok STD_E_INVALID
     else Ok STD_E_OK)
    (sv_type s ≠ SHT_NULL → sv_type s ≠ SHT_NOBITS → sv_offset s + sv_size s ≤ zlen data).
Proof.
  intros Hs. pose proof (range_is_inside_spec (sv_offset s) (sv_size s) (zlen data) Hs) as Hri.
  destruct (Z.eqb_spec (sv_type s) SHT_NULL); simpl; [by apply checks_ok|].
  destruct (Z.eqb_spec (sv_type s) SHT_NOBITS); simpl; [by apply checks_ok|].
  destruct (range_is_inside _ _ _); simpl; [apply checks_ok|apply checks_invalid]; intuition congruence.
Qed.

Lemma check_names_spec h : tables_inside h →
  checks
    (for_each (Z.to_nat (shnum h)) 0 (λ i,
      s ← read_section data h i;
      if sv_size (section_at data h (shstrndx h)) <=? sv_name s then Ok STD_E_INVALID
      else if sv_type s =? SHT_SYMTAB then
        r ← check_symbol_table data h s;
        if negb (std_ok r) then Ok STD_E_INVALID else Ok STD_E_OK
      else Ok STD_E_OK))
    (∀ i, 0 ≤ i < shnum h →
      let s := section_at data h i in
      sv_name s < sv_size (section_at data h (shstrndx h)) ∧
      (sv_type s = SHT_SYMTAB → symbol_table_wf data h s)).
Proof.
  intros Ht. pose proof Ht as [Hr He Hin _]. apply checks_for_count; [destruct Hr; lia|]. intros i Hi.
  rewrite read_section_ok by done. cbn [mbind outcome_bind].
  destruct (Z.leb_spec (sv_size (section_at data h (shstrndx h))) (sv_name (section_at data h i))).
  { apply checks_invalid. intros [? _]. lia. }
  apply checks_known; [done|]. destruct (Z.eqb_spec (sv_type (section_at data h i)) SHT_SYMTAB) as [Hty|Hty].
  - destruct (checks_last _ _ (check_symbol_table_spec h i Ht Hi Hty)) as [[-> ?]|[-> Hn]];
      [by apply checks_ok|by apply checks_invalid; auto].
  - by apply checks_ok.
Qed.

Lemma check_sections_spec h : header_range h →
  checks (check_sections data (zlen data) h) (sections_wf data h).
Proof.
  intros Hr. unfold check_sections, sections_wf.
  destruct (Z.eqb_spec (shnum h) 0) as [|Hn]; [by left|].
  pose proof Hr as [_ ? _ _ ? ? ?]. pose proof (zlen_nonneg data).
  assert (Hcond : ∀ Q : Prop, (shnum h ≠ 0 → Q) ↔ Q) by tauto. rewrite Hcond.
  destruct (Z.ltb_spec (shentsize h) (sizeof_Shdr (is_64 h)));
    [apply checks_invalid; intros [? _]; lia|]. apply checks_known; [done|].
  pose proof (table_is_inside_spec (shoff h) (shnum h) (shentsize h) (zlen data)) as Hti.
  destruct (table_is_inside _ _ _ _) eqn:Et; cbn [negb];
    [|apply checks_invalid; intros [Hi _]; apply Hti in Hi; [done|lia..]].
  assert (Hin : shoff h + shnum h * shentsize h ≤ zlen data) by (apply Hti; [lia..|done]).
  apply checks_known; [done|].
  match goal with |- checks (r ← ?m; _) _ => assert (Hc : checks m (∀ i, 0 ≤ i < shnum h →
    let s := section_at data h i in
    sv_type s ≠ SHT_NULL → sv_type s ≠ SHT_NOBITS → sv_offset s + sv_size s ≤ zlen data)) end.
  { apply checks_for_count; [lia|]. intros i Hi. rewrite read_section_ok by done.
    apply check_contents_spec. destruct (section_at_range h i) as (_ & _ & ? & _). lia. }
  destruct Hc as [[-> Hc]|[-> Hc]]; cbn [mbind outcome_bind std_ok negb];
    [|apply checks_invalid; by intros [? _]].
  apply checks_known; [done|].
  destruct (Z.leb_spec (shnum h) (shstrndx h)); [apply checks_invalid; intros [? _]; lia|].
  apply checks_known; [done|].
  assert (Ht : tables_inside h) by (by split).
  rewrite read_section_ok by (done || lia). cbn [mbind outcome_bind].
  destruct (string_table_at h (shstrndx h) Ht) as (b & -> & Hb); [lia|]. cbn [mbind outcome_bind].
  destruct b; cbn [negb]; [|apply checks_invalid; intros [Hw _]; by apply Hb in Hw].
  apply checks_known; [by apply Hb|]. by apply check_names_spec.
Qed.

Lemma magic_spec : 16 ≤ zlen data → ∃ b, IS_ELF data = Ok b ∧ (b = true ↔ take 4 data = [0x7f; 0x45; 0x4c; 0x46]).
Proof.
  intros Hl. unfold IS_ELF, elf_byte. clear Hbytes Hsize.
  destruct data as [|b0 [|b1 [|b2 [|b3 l]]]]; try (unfold zlen in Hl; simpl in Hl; lia).
  eexists. split; [reflexivity|]. simpl.
  rewrite !andb_true_iff, !Z.eqb_eq. split; [by intros [[[-> ->] ->] ->]|by intros [= -> -> -> ->]].
Qed.

Lemma header_wf_class h c : header_wf data h → zget data 4 = Some c →
  c = if is_64 h then ELFCLASS64 else ELFCLASS32.
Proof. intros (_ & _ & Hc & _) Hc'. congruence. Qed.

Lemma header_wf_unique h h' : header_wf data h → header_wf data h' → h = h'.
Proof.
  intros Hw Hw'. assert (is_64 h = is_64 h') as He.
  { destruct Hw as (_ & _ & Hc & _), Hw' as (_ & _ & Hc' & _). rewrite Hc in Hc'.
    by destruct (is_64 h), (is_64 h'). }
  destruct Hw as (_ & _ & _ & _ & ->), Hw' as (_ & _ & _ & _ & ->). by rewrite He.
Qed.

Lemma header_wf_range h : header_wf data h → header_range h.
Proof. intros (_ & _ & _ & _ & ->). by apply header_view_range, bytes_at_bytes. Qed.

Lemma read_header_spec :
  (∃ h, read_header data (zlen data) = Ok (Some h) ∧ header_wf data h) ∨
  (read_header data (zlen data) = Ok None ∧ ∀ h, ¬ header_wf data h).
Proof.
  unfold read_header, EI_NIDENT. destruct (Z.ltb_spec (zlen data) 16) as [Hs|Hs].
  { right. split; [done|]. intros h (_ & _ & _ & Hl & _). destruct (is_64 h); simpl in Hl; lia. }
  destruct (magic_spec Hs) as (m & -> & Hm). cbn [mbind outcome_bind].
  destruct m; cbn [negb];
    [|right; split; [done|]; intros h (Hmg & _); by apply Hm in Hmg].
  destruct (zget_is_Some data 5) as [d Hd]; [lia|]. destruct (zget_is_Some data 4) as [c Hc]; [lia|].
  unfold elf_byte. rewrite Hd, Hc. cbn [oob mbind outcome_bind].
  destruct (Z.eqb_spec d ELFDATA2LSB) as [->|]; cbn [negb];
    [|right; split; [done|]; intros h (_ & Hd' & _); congruence].
  assert (Hgo : ∀ k : bool, c = (if k then ELFCLASS64 else ELFCLASS32) →
    let r := if zlen data <? sizeof_Ehdr k then Ok None
             else b ← oob (bytes_at data 0 (sizeof_Ehdr k));
                  Ok (Some (header_view k ((if k then Elf64_Ehdr else Elf32_Ehdr) b))) in
    (∃ h, r = Ok (Some h) ∧ header_wf data h) ∨ (r = Ok None ∧ ∀ h, ¬ header_wf data h)).
  { intros k Hk. destruct (Z.ltb_spec (zlen data) (sizeof_Ehdr k)); cbv zeta.
    - right. split; [done|]. intros h Hw. pose proof (header_wf_class h c Hw Hc) as Hk'.
      destruct Hw as (_ & _ & _ & Hl & _). rewrite Hk in Hk'. destruct k, (is_64 h); try done; lia.
    - left. rewrite struct_read by (destruct k; simpl in *; lia). cbn [mbind outcome_bind].
      eexists. split; [done|]. split_and!; [by apply Hm|done|by rewrite Hc, Hk|done|done]. }
  destruct (Z.eqb_spec c ELFCLASS32) as [H1|H1]; [exact (Hgo false H1)|].
  destruct (Z.eqb_spec c ELFCLASS64) as [H2|H2]; [exact (Hgo true H2)|].
  right. split; [done|]. intros h Hw. pose proof (header_wf_class h c Hw Hc). by destruct (is_64 h).
Qed.

Lemma image_check_decides : checks (elf_image_check data (zlen data)) (image_wf data).
Proof.
  unfold elf_image_check, image_wf.
  destruct read_header_spec as [(h & -> & Hw)|[-> Hn]]; cbn [mbind outcome_bind];
    [|apply checks_invalid; by intros (h & Hw & _); apply (Hn h)].
  assert (Heq : (∃ h, header_wf data h ∧ programs_wf data h ∧ sections_wf data h) ↔
    programs_wf data h ∧ sections_wf data h).
  { split; [|eauto]. intros (h' & Hw' & ?). by rewrite (header_wf_unique h h'). }
  rewrite Heq. apply checks_seq; [by apply check_programs_spec, header_wf_range|].
  intros _. by apply checks_last, check_sections_spec, header_wf_range.
Qed.
End check.

(** C5: The image check is memory safe and exact.  For every file it reads only inside the
    file, returns [STD_E_OK] or [STD_E_INVALID], and returns [STD_E_OK] exactly when the image
    is well formed: header, program table, every [PT_LOAD], section table, contents and names
    of sections, and every symbol name lie inside the file, and the string tables end in NUL. *)
Theorem elf_image_check_spec (data : list Z)
    (Hbytes : Forall is_byte data) (Hsize : zlen data < 2 ^ 64) :
  ∃ err, elf_image_check data (zlen data) = Ok err ∧ (err = STD_E_OK ∨ err = STD_E_INVALID) ∧
    (err = STD_E_OK ↔ image_wf data).
Proof.
  destruct (image_check_decides data Hbytes Hsize) as [[-> Hw]|[-> Hw]]; eexists.
  - split_and!; [done|by left|done].
  - split_and!; [done|by right|done].
Qed.

(** ** A small image: a 32-bit header, one segment of four bytes, no sections *)

Definition demo_image : list Z :=
  [0x7f; 0x45; 0x4c; 0x46; 1; 1; 1; 0; 0; 0; 0; 0; 0; 0; 0; 0] ++
  le_bytes 2 2 ++ le_bytes 2 87 ++ le_bytes 4 1 ++ le_bytes 4 0x100 ++ le_bytes 4 52 ++ le_bytes 4 0 ++
  le_bytes 4 0 ++ le_bytes 2 52 ++ le_bytes 2 32 ++ le_bytes 2 1 ++ le_bytes 2 40 ++ le_bytes 2 0 ++
  le_bytes 2 0 ++
  le_bytes 4 1 ++ le_bytes 4 84 ++ le_bytes 4 0x100 ++ le_bytes 4 0x100 ++ le_bytes 4 4 ++ le_bytes 4 8 ++
  le_bytes 4 7 ++ le_bytes 4 4 ++ [1; 2; 3; 4].

Lemma demo_image_bytes : Forall is_byte demo_image.
Proof. repeat constructor; vm_compute; congruence. Qed.

Lemma elf_image_check_witness :
  ∃ err, elf_image_check demo_image (zlen demo_image) = Ok err ∧ (err = STD_E_OK ∨ err = STD_E_INVALID) ∧
    (err = STD_E_OK ↔ image_wf demo_image).
Proof. apply (elf_image_check_spec demo_image demo_image_bytes). reflexivity. Defined.

Example demo_image_ok : elf_image_check demo_image (zlen demo_image) = Ok STD_E_OK.
Proof. reflexivity. Qed.
