(* ===== verification/ElfSection.v ===== *)
(** * Symbols and sections of a loaded image ([src/src/lib/dwarf/elf_section.c])

    The readers follow pointers into the image without checks of their own.  A
    pointer is an offset into the image here, a null pointer is [None], and every
    read is bounds checked by the model.  The file's static variables are the
    record [elf_statics].

    The theorems show that on an image accepted by [elf_image_check] the symbol
    reader never leaves the file and every symbol name is a NUL-terminated
    string of it, and the same for the search of a section by name. *)

From S2P Require Import Prelude ElfImageCheck.
Open Scope Z_scope.

(** The [n]-byte field at [off]. *)
Definition rd (data : list Z) (off n : Z) : outcome Z :=
  b ← oob (bytes_at data off n); Ok (le_val b).

(** Fields of the headers through pointers. *)
Definition hdr_shoff (data : list Z) (k : bool) : outcome Z := if k then rd data 40 8 else rd data 32 4.
Definition hdr_shentsize (data : list Z) (k : bool) : outcome Z := rd data (if k then 58 else 46) 2.
Definition hdr_shnum (data : list Z) (k : bool) : outcome Z := rd data (if k then 60 else 48) 2.
Definition hdr_shstrndx (data : list Z) (k : bool) : outcome Z := rd data (if k then 62 else 50) 2.

Definition shdr_name (data : list Z) (p : Z) : outcome Z := rd data p 4.
Definition shdr_type (data : list Z) (p : Z) : outcome Z := rd data (p + 4) 4.
Definition shdr_offset (data : list Z) (k : bool) (p : Z) : outcome Z :=
  if k then rd data (p + 24) 8 else rd data (p + 16) 4.
Definition shdr_size (data : list Z) (k : bool) (p : Z) : outcome Z :=
  if k then rd data (p + 32) 8 else rd data (p + 20) 4.
Definition shdr_link (data : list Z) (k : bool) (p : Z) : outcome Z :=
  if k then rd data (p + 40) 4 else rd data (p + 24) 4.
Definition shdr_entsize (data : list Z) (p : Z) : outcome Z := rd data (p + 56) 8.

(** The string a [char*] points to. *)
Fixpoint take_cstr (l : list Z) : option (list Z) :=
  match l with
  | [] => None
  | c :: l' => if c =? 0 then Some [] else cons c <$> take_cstr l'
  end.
Definition cstr_at (data : list Z) (p : Z) : outcome (list Z) :=
  if p <? 0 then Fault OutOfBounds else oob (take_cstr (drop (Z.to_nat p) data)).

Inductive ElfSymbolEnumType :=
  | SYMBOL_TYPE_OBJECT | SYMBOL_TYPE_FUNC | SYMBOL_TYPE_NOTYPE | SYMBOL_TYPE_NOSUP.

Record ElfSymbolType := mkElfSymbol {
  sym_name : Z; sym_size : Z; sym_addr : Z; sym_type : ElfSymbolEnumType;
}.

Record elf_statics := mkElfStatics {
  symbol_shdr : option Z;
  symbol_sym : Z;
  symbol_num : Z;
  string_shdr : option Z;
  string_shdata : Z;
  section_name : option Z;
  elf_is_64 : bool;
  elf64_symbols : option Z;
  elf64_symbol_num : Z;
  elf64_string_data : option Z;
}.
Definition elf_statics_init : elf_statics := mkElfStatics None 0 0 None 0 None false None 0 None.

(** First section of a type, scanning from [i]. *)
Fixpoint find_symtab64 (n : nat) (i shoff entsize : Z) (data : list Z) : outcome (option Z) :=
  match n with
  | O => Ok None
  | S n' =>
      let p := u64 (shoff + i * entsize) in
      ty ← shdr_type data p;
      if ty =? SHT_SYMTAB then Ok (Some p) else find_symtab64 n' (i + 1) shoff entsize data
  end.

Definition elf_symbol_load64 (data : list Z) (st : elf_statics) : outcome (Std_ReturnType * elf_statics) :=
  let st := mkElfStatics (symbol_shdr st) (symbol_sym st) (symbol_num st) (string_shdr st)
              (string_shdata st) (section_name st) true None 0 None in
  shnum ← hdr_shnum data true;
  shentsize ← hdr_shentsize data true;
  if (shnum =? 0) || (shentsize <? sizeof_Shdr true) then Ok (STD_E_INVALID, st)
  else
    shoff ← hdr_shoff data true;
    symhdr ← find_symtab64 (Z.to_nat shnum) 0 shoff shentsize data;
    match symhdr with
    | None => Ok (STD_E_INVALID, st)
    | Some p =>
        link ← shdr_link data true p;
        size ← shdr_size data true p;
        if (shnum <=? link) || (0xffffffff <? size) then Ok (STD_E_INVALID, st)
        else
          let q := u64 (shoff + link * shentsize) in
          ty ← shdr_type data q;
          if negb (ty =? SHT_STRTAB) then Ok (STD_E_INVALID, st)
          else
            offset ← shdr_offset data true p;
            entsize ← shdr_entsize data p;
            stroff ← shdr_offset data true q;
            let num := u32 (size / (if entsize =? 0 then sizeof_Sym true else entsize)) in
            Ok (STD_E_OK, mkElfStatics (symbol_shdr st) (symbol_sym st) (symbol_num st)
                  (string_shdr st) (string_shdata st) (section_name st) true
                  (Some offset) num (Some stroff))
    end.

(** The 32-bit loops: the section name table, then the symbol and string tables. *)
Fixpoint find_section_name (n : nat) (i shoff entsize shstrndx : Z) (data : list Z)
    (name : option Z) : outcome (option Z) :=
  match n with
  | O => Ok name
  | S n' =>
      if negb (i =? shstrndx) then find_section_name n' (i + 1) shoff entsize shstrndx data name
      else o ← shdr_offset data false (u32 (shoff + i * entsize)); Ok (Some o)
  end.

Fixpoint search_sections32 (n : nat) (i shoff entsize shstrndx : Z) (data : list Z)
    (st : elf_statics) : outcome elf_statics :=
  match n with
  | O => Ok st
  | S n' =>
      let p := u32 (shoff + i * entsize) in
      if i =? shstrndx then search_sections32 n' (i + 1) shoff entsize shstrndx data st
      else
        ty ← shdr_type data p;
        st ←
          (if ty =? SHT_SYMTAB then
             offset ← shdr_offset data false p;
             size ← shdr_size data false p;
             Ok (mkElfStatics (Some p) offset (size / sizeof_Sym false) (string_shdr st)
                   (string_shdata st) (section_name st) (elf_is_64 st) (elf64_symbols st)
                   (elf64_symbol_num st) (elf64_string_data st))
           else if ty =? SHT_STRTAB then
             offset ← shdr_offset data false p;
             Ok (mkElfStatics (symbol_shdr st) (symbol_sym st) (symbol_num st) (Some p) offset
                   (section_name st) (elf_is_64 st) (elf64_symbols st) (elf64_symbol_num st)
                   (elf64_string_data st))
           else Ok st);
        search_sections32 n' (i + 1) shoff entsize shstrndx data st
  end.

Definition elf_symbol_load32 (data : list Z) (st : elf_statics) : outcome (Std_ReturnType * elf_statics) :=
  shstrndx ← hdr_shstrndx data false;
  shnum ← hdr_shnum data false;
  shoff ← hdr_shoff data false;
  shentsize ← hdr_shentsize data false;
  name ← find_section_name (Z.to_nat shnum) 0 shoff shentsize shstrndx data (section_name st);
  let st := mkElfStatics (symbol_shdr st) (symbol_sym st) (symbol_num st) (string_shdr st)
              (string_shdata st) name false (elf64_symbols st) (elf64_symbol_num st)
              (elf64_string_data st) in
  st ← search_sections32 (Z.to_nat shnum) 0 shoff shentsize shstrndx data st;
  match symbol_shdr st, string_shdr st with
  | Some p, Some _ =>
      link ← shdr_link data false p;
      let q := u32 (shoff + link * shentsize) in
      o ← shdr_offset data false q;
      Ok (STD_E_OK, mkElfStatics (symbol_shdr st) (symbol_sym st) (symbol_num st) (Some q) o
            (section_name st) false (elf64_symbols st) (elf64_symbol_num st) (elf64_string_data st))
  | _, _ => Ok (STD_E_INVALID, st)
  end.

Definition elf_symbol_load (data : list Z) (st : elf_statics) : outcome (Std_ReturnType * elf_statics) :=
  c ← elf_byte data 4;
  if c =? ELFCLASS64 then elf_symbol_load64 data st else elf_symbol_load32 data st.

Definition elfsym_get_symbol_num (st : elf_statics) : Std_ReturnType * option Z :=
  if elf_is_64 st then
    match elf64_symbols st with
    | None => (STD_E_INVALID, None)
    | Some _ => (STD_E_OK, Some (elf64_symbol_num st))
    end
  else
    match symbol_shdr st, string_shdr st with
    | Some _, Some _ => (STD_E_OK, Some (symbol_num st))
    | _, _ => (STD_E_INVALID, None)
    end.

Definition symbol_type_of (info : Z) : ElfSymbolEnumType :=
  let t := Z.land info 0x0f in
  if t =? 1 then SYMBOL_TYPE_OBJECT else if t =? 2 then SYMBOL_TYPE_FUNC
  else if t =? 0 then SYMBOL_TYPE_NOTYPE else SYMBOL_TYPE_NOSUP.

Definition elfsym_get_symbol `{AddrWidth} (data : list Z) (index : Z) (st : elf_statics)
    : outcome (Std_ReturnType * option ElfSymbolType) :=
  if elf_is_64 st then
    match elf64_symbols st with
    | None => Ok (STD_E_INVALID, None)
    | Some syms =>
        if elf64_symbol_num st <=? index then Ok (STD_E_INVALID, None)
        else
          let s := syms + 24 * index in
          size ← rd data (s + 16) 8;
          if 0xffffffff <? size then Ok (STD_E_INVALID, None)
          else
            value ← rd data (s + 8) 8;
            info ← rd data (s + 4) 1;
            name ← rd data s 4;
            match elf64_string_data st with
            | None => Fault NullDeref
            | Some str => Ok (STD_E_OK, Some (mkElfSymbol (str + name) (u32 size) (uaddr value) (symbol_type_of info)))
            end
    end
  else
    match symbol_shdr st, string_shdr st with
    | Some _, Some _ =>
        let s := symbol_sym st + 16 * index in
        value ← rd data (s + 4) 4;
        size ← rd data (s + 8) 4;
        info ← rd data (s + 12) 1;
        name ← rd data s 4;
        Ok (STD_E_OK, Some (mkElfSymbol (string_shdata st + name) size (uaddr value) (symbol_type_of info)))
    | _, _ => Ok (STD_E_INVALID, None)
    end.

(** ** Sections by name *)

Fixpoint find_section64 (n : nat) (i shoff entsize names : Z) (data key : list Z)
    : outcome (Std_ReturnType * option (Z * Z)) :=
  match n with
  | O => Ok (STD_E_NOENT, None)
  | S n' =>
      let p := u64 (shoff + i * entsize) in
      name ← shdr_name data p;
      str ← cstr_at data (names + name);
      if bool_decide (str = key) then
        size ← shdr_size data true p;
        if 0xffffffff <? size then Ok (STD_E_INVALID, None)
        else offset ← shdr_offset data true p; Ok (STD_E_OK, Some (offset, u32 size))
      else find_section64 n' (i + 1) shoff entsize names data key
  end.

Fixpoint find_section32 (n : nat) (i shoff entsize shstrndx : Z) (names : option Z) (data key : list Z)
    : outcome (Std_ReturnType * option (Z * Z)) :=
  match n with
  | O => Ok (STD_E_NOENT, None)
  | S n' =>
      let p := u32 (shoff + i * entsize) in
      if i =? shstrndx then find_section32 n' (i + 1) shoff entsize shstrndx names data key
      else
        name ← shdr_name data p;
        match names with
        | None => Fault NullDeref
        | Some np =>
            str ← cstr_at data (np + name);
            if negb (zlen key =? zlen str) then
              find_section32 n' (i + 1) shoff entsize shstrndx names data key
            else if negb (bool_decide (str = key)) then
              find_section32 n' (i + 1) shoff entsize shstrndx names data key
            else
              offset ← shdr_offset data false p;
              size ← shdr_size data false p;
              Ok (STD_E_OK, Some (offset, size))
        end
  end.

(** On success: the offset and size of the section. *)
Definition elf_section_get (data key : list Z) (st : elf_statics)
    : outcome (Std_ReturnType * option (Z * Z)) :=
  c ← elf_byte data 4;
  if c =? ELFCLASS64 then
    shstrndx ← hdr_shstrndx data true;
    shnum ← hdr_shnum data true;
    if shnum <=? shstrndx then Ok (STD_E_NOENT, None)
    else
      shoff ← hdr_shoff data true;
      shentsize ← hdr_shentsize data true;
      names ← shdr_offset data true (u64 (shoff + shstrndx * shentsize));
      find_section64 (Z.to_nat shnum) 0 shoff shentsize names data key
  else
    shstrndx ← hdr_shstrndx data false;
    shnum ← hdr_shnum data false;
    shoff ← hdr_shoff data false;
    shentsize ← hdr_shentsize data false;
    find_section32 (Z.to_nat shnum) 0 shoff shentsize shstrndx (section_name st) data key.

(** [".debug_info"] and [".debug_line"]. *)
Definition SECTION_DWARF_INFO_NAME : list Z := [46; 100; 101; 98; 117; 103; 95; 105; 110; 102; 111].
Definition SECTION_DWARF_LINE_NAME : list Z := [46; 100; 101; 98; 117; 103; 95; 108; 105; 110; 101].
Definition elf_section_get_dwarf_line (data : list Z) (st : elf_statics) :=
  elf_section_get data SECTION_DWARF_LINE_NAME st.

(** ** Little-endian fields of a section, byte by byte *)

Definition elf_get_data8 (data : list Z) (off : Z) : outcome Z := elf_byte data off.
Definition elf_get_data16 (data : list Z) (off : Z) : outcome Z :=
  b0 ← elf_byte data off; b1 ← elf_byte data (u32 (off + 1));
  Ok (u16 (Z.lor (Z.shiftl b0 0) (Z.shiftl b1 8))).
Definition elf_get_data32 (data : list Z) (off : Z) : outcome Z :=
  b0 ← elf_byte data off; b1 ← elf_byte data (u32 (off + 1));
  b2 ← elf_byte data (u32 (off + 2)); b3 ← elf_byte data (u32 (off + 3));
  Ok (u32 (Z.lor (Z.lor (Z.lor (Z.shiftl b0 0) (Z.shiftl b1 8)) (Z.shiftl b2 16)) (Z.shiftl b3 24))).
Definition elf_get_data64 (data : list Z) (off : Z) : outcome Z :=
  b0 ← elf_byte data off; b1 ← elf_byte data (u32 (off + 1));
  b2 ← elf_byte data (u32 (off + 2)); b3 ← elf_byte data (u32 (off + 3));
  b4 ← elf_byte data (u32 (off + 4)); b5 ← elf_byte data (u32 (off + 5));
  b6 ← elf_byte data (u32 (off + 6)); b7 ← elf_byte data (u32 (off + 7));
  Ok (le_val [b0; b1; b2; b3; b4; b5; b6; b7]).
(** A floating point number is the bits of its union with an integer or with bytes. *)
Definition elf_get_float32 (data : list Z) (off : Z) : outcome Z :=
  b0 ← elf_byte data off; b1 ← elf_byte data (u32 (off + 1));
  b2 ← elf_byte data (u32 (off + 2)); b3 ← elf_byte data (u32 (off + 3));
  Ok (u32 (Z.lor (Z.lor (Z.lor (Z.shiftl b0 0) (Z.shiftl b1 8)) (Z.shiftl b2 16)) (Z.shiftl b3 24))).
Definition elf_get_float64 (data : list Z) (off : Z) : outcome Z :=
  b0 ← elf_byte data off; b1 ← elf_byte data (u32 (off + 1));
  b2 ← elf_byte data (u32 (off + 2)); b3 ← elf_byte data (u32 (off + 3));
  b4 ← elf_byte data (u32 (off + 4)); b5 ← elf_byte data (u32 (off + 5));
  b6 ← elf_byte data (u32 (off + 6)); b7 ← elf_byte data (u32 (off + 7));
  Ok (le_val [b0; b1; b2; b3; b4; b5; b6; b7]).

(** ** Reading fields of a checked image *)

Lemma bytes_at_sub data p N b off n : bytes_at data p N = Some b → 0 ≤ off → 0 ≤ n → off + n ≤ N →
  bytes_at data (p + off) n = Some (take (Z.to_nat n) (drop (Z.to_nat off) b)).
Proof.
  intros Hb Ho Hn Hle. pose proof (bytes_at_range _ _ _ _ Hb) as (? & ? & ?).
  unfold bytes_at in *. destruct (_ && _ && _) eqn:E in Hb; [|done]. injection Hb as <-.
  replace (_ && _ && _) with true by lia. f_equal.
  rewrite skipn_firstn_comm, drop_drop, take_take. f_equal; [lia|]. f_equal. lia.
Qed.

Lemma rd_fld data p N b off n : bytes_at data p N = Some b → 0 ≤ off → 0 ≤ n → off + n ≤ N →
  rd data (p + off) n = Ok (fld b (Z.to_nat off) (Z.to_nat n)).
Proof. intros Hb Ho Hn Hle. unfold rd. by rewrite (bytes_at_sub data p N b off n). Qed.

Section checked.
Context (data : list Z) (Hbytes : Forall is_byte data) (Hsize : zlen data < 2 ^ 64).
Context (h : ElfHeaderView) (Hh : header_wf data h).

Lemma hdr_field off n : 0 ≤ off → 0 ≤ n → off + n ≤ sizeof_Ehdr (is_64 h) →
  rd data off n
  = Ok (fld (default [] (bytes_at data 0 (sizeof_Ehdr (is_64 h)))) (Z.to_nat off) (Z.to_nat n)).
Proof.
  intros Ho Hn Hle. destruct Hh as (_ & _ & _ & Hl & _).
  destruct (bytes_at_Some data 0 (sizeof_Ehdr (is_64 h))) as (b & Hb & _); [lia|lia|lia|].
  rewrite Hb. cbn [default from_option id]. by apply (rd_fld data 0 _ b off n) in Hb.
Qed.

Ltac hdr_solve f :=
  let He := fresh in
  unfold f; destruct Hh as (_ & _ & _ & _ & He);
  destruct (is_64 h) eqn:Ek; (rewrite hdr_field by (rewrite ?Ek; simpl; lia)); rewrite Ek;
  rewrite He; done.

Lemma hdr_shoff_ok : hdr_shoff data (is_64 h) = Ok (shoff h).
Proof. hdr_solve hdr_shoff. Qed.
Lemma hdr_shentsize_ok : hdr_shentsize data (is_64 h) = Ok (shentsize h).
Proof. hdr_solve hdr_shentsize. Qed.
Lemma hdr_shnum_ok : hdr_shnum data (is_64 h) = Ok (shnum h).
Proof. hdr_solve hdr_shnum. Qed.
Lemma hdr_shstrndx_ok : hdr_shstrndx data (is_64 h) = Ok (shstrndx h).
Proof. hdr_solve hdr_shstrndx. Qed.

Lemma class_byte : elf_byte data 4 = Ok (if is_64 h then ELFCLASS64 else ELFCLASS32).
Proof. destruct Hh as (_ & _ & Hc & _). unfold elf_byte. by rewrite Hc. Qed.

Context (Ht : tables_inside data h).

Definition shdr_ptr (i : Z) : Z := shoff h + i * shentsize h.

Lemma shdr_ptr_range i : 0 ≤ i < shnum h →
  0 ≤ shdr_ptr i ∧ shdr_ptr i + sizeof_Shdr (is_64 h) ≤ zlen data.
Proof. intros Hi. destruct Ht as [[] ? ? _]. unfold shdr_ptr. nia. Qed.

Lemma shdr_ptr_u64 i : 0 ≤ i < shnum h → u64 (shoff h + i * shentsize h) = shdr_ptr i.
Proof.
  intros Hi. pose proof (shdr_ptr_range i Hi). apply wrap_id. unfold in_width, shdr_ptr in *.
  destruct (is_64 h); simpl in *; lia.
Qed.

Lemma shdr_field i off n : 0 ≤ i < shnum h → 0 ≤ off → 0 ≤ n → off + n ≤ sizeof_Shdr (is_64 h) →
  rd data (shdr_ptr i + off) n
  = Ok (fld (default [] (bytes_at data (shdr_ptr i) (sizeof_Shdr (is_64 h)))) (Z.to_nat off) (Z.to_nat n)).
Proof.
  intros Hi Ho Hn Hle. pose proof (shdr_ptr_range i Hi).
  destruct (bytes_at_Some data (shdr_ptr i) (sizeof_Shdr (is_64 h))) as (b & Hb & _); [lia|lia|lia|].
  rewrite Hb. cbn [default from_option id]. by apply (rd_fld data _ _ b off n) in Hb.
Qed.

Ltac shdr_solve f i :=
  unfold f, section_at, section_view; fold (shdr_ptr i);
  destruct (is_64 h) eqn:Ek; first [rewrite shdr_field by (rewrite ?Ek; simpl; lia)
    | replace (rd data (shdr_ptr i)) with (rd data (shdr_ptr i + 0)) by (f_equal; lia);
      rewrite shdr_field by (rewrite ?Ek; simpl; lia)]; by rewrite Ek.

Lemma shdr_name_ok i : 0 ≤ i < shnum h → shdr_name data (shdr_ptr i) = Ok (sv_name (section_at data h i)).
Proof. intros Hi. shdr_solve shdr_name i. Qed.
Lemma shdr_type_ok i : 0 ≤ i < shnum h → shdr_type data (shdr_ptr i) = Ok (sv_type (section_at data h i)).
Proof. intros Hi. shdr_solve shdr_type i. Qed.
Lemma shdr_offset_ok i : 0 ≤ i < shnum h →
  shdr_offset data (is_64 h) (shdr_ptr i) = Ok (sv_offset (section_at data h i)).
Proof. intros Hi. shdr_solve shdr_offset i. Qed.
Lemma shdr_size_ok i : 0 ≤ i < shnum h →
  shdr_size data (is_64 h) (shdr_ptr i) = Ok (sv_size (section_at data h i)).
Proof. intros Hi. shdr_solve shdr_size i. Qed.
Lemma shdr_link_ok i : 0 ≤ i < shnum h →
  shdr_link data (is_64 h) (shdr_ptr i) = Ok (sv_link (section_at data h i)).
Proof. intros Hi. shdr_solve shdr_link i. Qed.
Lemma shdr_entsize_ok i : 0 ≤ i < shnum h → is_64 h = true →
  shdr_entsize data (shdr_ptr i) = Ok (sv_entsize (section_at data h i)).
Proof. intros Hi Hk. shdr_solve shdr_entsize i. Qed.

(** A pointer to a NUL-terminated string of the file. *)
Definition is_cstr (p : Z) : Prop := is_ok (cstr_at data p).

Lemma take_cstr_ok (l : list Z) k : l !! k = Some 0 → is_Some (take_cstr l).
Proof.
  revert k. induction l as [|c l IH]; intros k Hk; [done|]. simpl.
  destruct (Z.eqb_spec c 0); [by eexists|]. destruct k as [|k]; [by injection Hk|].
  destruct (IH k Hk) as [s ->]. by eexists.
Qed.

Lemma string_is_cstr s off : string_table_wf data s → 0 ≤ sv_offset s → 0 ≤ off < sv_size s →
  is_cstr (sv_offset s + off).
Proof.
  intros (_ & _ & Hz) Ho Hoff. unfold is_cstr, cstr_at.
  replace (_ <? 0) with false by lia. unfold zget in Hz. destruct (_ <? 0); [done|].
  destruct (take_cstr_ok (drop (Z.to_nat (sv_offset s + off)) data)
    (Z.to_nat (sv_offset s + sv_size s - 1) - Z.to_nat (sv_offset s + off))) as [str ->].
  - rewrite lookup_drop, <- Hz. f_equal. lia.
  - by eexists.
Qed.

(** ** The 64-bit symbol table *)

Lemma find_symtab64_ok n i : 0 ≤ i → i + Z.of_nat n = shnum h →
  ∃ o, find_symtab64 n i (shoff h) (shentsize h) data = Ok o ∧
    ∀ p, o = Some p → ∃ j, 0 ≤ j < shnum h ∧ p = shdr_ptr j ∧ sv_type (section_at data h j) = SHT_SYMTAB.
Proof.
  revert i. induction n as [|n IH]; intros i Hi Hn; cbn [find_symtab64]; [by exists None|].
  rewrite shdr_ptr_u64, shdr_type_ok by lia. cbn [mbind outcome_bind].
  destruct (Z.eqb_spec (sv_type (section_at data h i)) SHT_SYMTAB) as [Hty|]; [|apply IH; lia].
  eexists. split; [done|]. intros p [= <-]. exists i. split_and!; [lia|lia|done|done].
Qed.

(** The symbols of section [j]: where they are, how many, and where their names are. *)
Record symbols_of (j : Z) (sym num str : Z) : Prop := {
  so_range : 0 ≤ j < shnum h;
  so_type : sv_type (section_at data h j) = SHT_SYMTAB;
  so_sym : sym = sv_offset (section_at data h j);
  so_num : num = sv_size (section_at data h j) / sizeof_Sym (is_64 h);
  so_str : str = sv_offset (section_at data h (sv_link (section_at data h j)));
}.

Lemma symtab_wf_at j : sections_wf data h → 0 ≤ j < shnum h →
  sv_type (section_at data h j) = SHT_SYMTAB → symbol_table_wf data h (section_at data h j).
Proof.
  intros Hw Hj Hty. destruct Hw as (_ & _ & _ & _ & _ & Hn); [lia|]. by apply (Hn j Hj).
Qed.

Lemma symbol_load64_ok : sections_wf data h → is_64 h = true →
  ∃ err st, elf_symbol_load64 data elf_statics_init = Ok (err, st) ∧
    (err = STD_E_OK → elf_is_64 st = true ∧ ∃ j sym str, elf64_symbols st = Some sym ∧
      elf64_string_data st = Some str ∧ symbols_of j sym (elf64_symbol_num st) str).
Proof.
  intros Hw Hk. unfold elf_symbol_load64. pose proof Ht as [Hr Hent _ _].
  pose proof hdr_shnum_ok as E1. pose proof hdr_shentsize_ok as E2. pose proof hdr_shoff_ok as E3.
  rewrite Hk in E1, E2, E3, Hent. rewrite E1, E2. cbn [mbind outcome_bind].
  destruct (_ || _) eqn:Eg; [eexists _, _; by split|]. rewrite E3. cbn [mbind outcome_bind].
  destruct (find_symtab64_ok (Z.to_nat (shnum h)) 0) as (o & -> & Ho); [lia|destruct Hr; lia|].
  cbn [mbind outcome_bind]. destruct o as [p|]; [|eexists _, _; by split].
  destruct (Ho p eq_refl) as (j & Hj & -> & Hty).
  pose proof (symtab_wf_at j Hw Hj Hty) as (Hes & Hlk & (Hst & _) & _).
  destruct (section_at_range data Hbytes h j) as (_ & _ & Hsz & Hl0).
  pose proof (shdr_link_ok j Hj) as L1. pose proof (shdr_size_ok j Hj) as L2.
  pose proof (shdr_offset_ok j Hj) as L3. rewrite Hk in L1, L2, L3. rewrite L1, L2.
  cbn [mbind outcome_bind].
  destruct ((shnum h <=? sv_link (section_at data h j)) || (0xffffffff <? sv_size (section_at data h j))) eqn:Eg2;
    [eexists _, _; by split|].
  rewrite shdr_ptr_u64, shdr_type_ok, Hst by lia. cbn [mbind outcome_bind negb].
  rewrite Z.eqb_refl. cbn [negb]. rewrite L3, shdr_entsize_ok by done. cbn [mbind outcome_bind].
  pose proof (shdr_offset_ok (sv_link (section_at data h j)) ltac:(lia)) as L4. rewrite Hk in L4.
  rewrite L4. cbn [mbind outcome_bind]. eexists _, _. split; [done|]. intros _. split; [done|].
  exists j. eexists _, _. split_and!; [done|done|]. split; [lia|done|done| |done].
  rewrite Hk in Hes. cbn [elf64_symbol_num].
  replace (if sv_entsize (section_at data h j) =? 0 then sizeof_Sym true else sv_entsize (section_at data h j))
    with 24
    by (destruct (Z.eqb_spec (sv_entsize (section_at data h j)) 0); [done|]; destruct Hes; [lia|done]).
  rewrite Hk. change (sizeof_Sym true) with 24. apply wrap_id. unfold in_width. zdiv.
Qed.

(** ** The 32-bit symbol table *)

Context (Hsize32 : zlen data ≤ 2 ^ 32).

Lemma shdr_ptr_u32 i : 0 ≤ i < shnum h → u32 (shoff h + i * shentsize h) = shdr_ptr i.
Proof.
  intros Hi. pose proof (shdr_ptr_range i Hi). apply wrap_id. unfold in_width, shdr_ptr in *.
  destruct (is_64 h); simpl in *; lia.
Qed.

Lemma find_section_name_ok n i : is_64 h = false → 0 ≤ i ≤ shstrndx h → shstrndx h < i + Z.of_nat n →
  i + Z.of_nat n = shnum h →
  find_section_name n i (shoff h) (shentsize h) (shstrndx h) data None
  = Ok (Some (sv_offset (section_at data h (shstrndx h)))).
Proof.
  intros Hk. revert i. induction n as [|n IH]; intros i Hi Hlt Hn; cbn [find_section_name]; [lia|].
  destruct (Z.eqb_spec i (shstrndx h)) as [->|Hne]; cbn [negb]; [|apply IH; lia].
  pose proof (shdr_offset_ok (shstrndx h) ltac:(lia)) as L. rewrite Hk in L.
  rewrite shdr_ptr_u32, L by lia. done.
Qed.

Definition symbols32 (st : elf_statics) : Prop :=
  ∀ p, symbol_shdr st = Some p → ∃ j str, p = shdr_ptr j ∧ symbols_of j (symbol_sym st) (symbol_num st) str.

Lemma search_sections32_ok n i st : is_64 h = false → 0 ≤ i → i + Z.of_nat n = shnum h → symbols32 st →
  ∃ st', search_sections32 n i (shoff h) (shentsize h) (shstrndx h) data st = Ok st' ∧ symbols32 st' ∧
    section_name st' = section_name st.
Proof.
  intros Hk. revert i st. induction n as [|n IH]; intros i st Hi Hn Hs; cbn [search_sections32]; [by exists st|].
  destruct (i =? shstrndx h); [apply IH; [lia|lia|done]|].
  rewrite shdr_ptr_u32, shdr_type_ok by lia. cbn [mbind outcome_bind].
  pose proof (shdr_offset_ok i ltac:(lia)) as L1. pose proof (shdr_size_ok i ltac:(lia)) as L2.
  rewrite Hk in L1, L2.
  destruct (Z.eqb_spec (sv_type (section_at data h i)) SHT_SYMTAB) as [Hty|].
  - rewrite L1, L2. cbn [mbind outcome_bind].
    match goal with |- ∃ _, search_sections32 _ _ _ _ _ _ ?st1 = _ ∧ _ => destruct (IH (i + 1) st1) as (st' & ? & ? & Hnm) end;
      [lia|lia| |by exists st'].
    intros p [= <-]. exists i. eexists. split; [done|]. split; [lia|done|done| |done]. by rewrite Hk.
  - destruct (_ =? SHT_STRTAB).
    + rewrite L1. cbn [mbind outcome_bind].
      match goal with |- ∃ _, search_sections32 _ _ _ _ _ _ ?st1 = _ ∧ _ => destruct (IH (i + 1) st1) as (st' & ? & ? & Hnm) end;
        [lia|lia|exact Hs|by exists st'].
    + cbn [mbind outcome_bind]. apply IH; [lia|lia|done].
Qed.

Lemma symbol_load32_ok : sections_wf data h → is_64 h = false → shnum h ≠ 0 →
  ∃ err st, elf_symbol_load32 data elf_statics_init = Ok (err, st) ∧
    section_name st = Some (sv_offset (section_at data h (shstrndx h))) ∧
    (err = STD_E_OK → elf_is_64 st = false ∧ is_Some (symbol_shdr st) ∧ is_Some (string_shdr st) ∧
      ∃ j, symbols_of j (symbol_sym st) (symbol_num st) (string_shdata st)).
Proof.
  intros Hw Hk Hn0. unfold elf_symbol_load32. pose proof Ht as [Hr _ _ _].
  pose proof (Hw Hn0) as (_ & _ & _ & Hstr & _).
  pose proof hdr_shnum_ok as E1. pose proof hdr_shentsize_ok as E2. pose proof hdr_shoff_ok as E3.
  pose proof hdr_shstrndx_ok as E4. rewrite Hk in E1, E2, E3, E4. rewrite E4, E1, E3, E2.
  cbn [mbind outcome_bind section_name elf_statics_init].
  rewrite find_section_name_ok by (done || destruct Hr; lia). cbn [mbind outcome_bind].
  match goal with |- context [search_sections32 _ _ _ _ _ _ ?st1] =>
    destruct (search_sections32_ok (Z.to_nat (shnum h)) 0 st1) as (st & -> & Hs & Hnm) end;
    [done|lia|destruct Hr; lia|by intros p|].
  cbn [mbind outcome_bind].
  destruct (symbol_shdr st) as [p|] eqn:Ep; [|eexists _, _; by split].
  destruct (string_shdr st) as [q|] eqn:Eq; [|eexists _, _; by split].
  destruct (Hs p Ep) as (j & str & -> & Hso). pose proof Hso as [Hj Hty Hsym Hnum _].
  pose proof (symtab_wf_at j Hw Hj Hty) as (_ & Hlk & _ & _).
  destruct (section_at_range data Hbytes h j) as (_ & _ & _ & Hl0).
  pose proof (shdr_link_ok j Hj) as L1. rewrite Hk in L1. rewrite L1. cbn [mbind outcome_bind].
  pose proof (shdr_offset_ok (sv_link (section_at data h j)) ltac:(lia)) as L4. rewrite Hk in L4.
  rewrite shdr_ptr_u32, L4 by lia. cbn [mbind outcome_bind]. eexists _, _. split; [done|].
  split; [done|]. intros _. split_and!; [done|by eexists|by eexists|]. by exists j.
Qed.

(** Every field of entry [index] of the symbol table lies inside the file. *)
Lemma symbol_field j sym num str index off n : symbols_of j sym num str → 0 ≤ index < num →
  0 ≤ off → 0 ≤ n → off + n ≤ sizeof_Sym (is_64 h) →
  rd data (sym + sizeof_Sym (is_64 h) * index + off) n
  = Ok (fld (default [] (bytes_at data (sym + index * sizeof_Sym (is_64 h)) (sizeof_Sym (is_64 h))))
         (Z.to_nat off) (Z.to_nat n)).
Proof.
  intros [Hj Hty -> -> _] Hi Ho Hn Hle.
  destruct (section_at_range data Hbytes h j) as (_ & Hof & Hsz & _).
  assert (Hin : sv_offset (section_at data h j) + sv_size (section_at data h j) ≤ zlen data)
    by (apply (ti_contents data h Ht j Hj); by rewrite Hty).
  set (e := sizeof_Sym (is_64 h)) in *. set (sz := sv_size (section_at data h j)) in *.
  assert (He : 0 < e) by (unfold e; destruct (is_64 h); simpl; lia).
  pose proof (Z.mul_div_le sz e He).
  destruct (bytes_at_Some data (sv_offset (section_at data h j) + index * e) e) as (b & Hb & _); [nia|lia|nia|].
  rewrite Hb. cbn [default from_option id]. rewrite (Z.mul_comm e index).
  by apply (rd_fld data _ _ b off n) in Hb.
Qed.

Lemma symbol_name_cstr j sym num str index : sections_wf data h → symbols_of j sym num str → 0 ≤ index < num →
  is_cstr (str + symbol_name_at data h (sym + index * sizeof_Sym (is_64 h))).
Proof.
  intros Hw Hso Hi. pose proof Hso as [Hj Hty -> -> ->].
  pose proof (symtab_wf_at j Hw Hj Hty) as (_ & Hlk & Hst & Hnm).
  apply string_is_cstr; [done| |split; [|by apply Hnm]].
  - apply (section_at_range data Hbytes h).
  - unfold symbol_name_at. destruct (is_64 h); apply fld_range, bytes_at_bytes, Hbytes.
Qed.

Lemma get_symbol_ok `{AddrWidth} st j sym num str index : sections_wf data h → symbols_of j sym num str →
  0 ≤ index < num → elf_is_64 st = is_64 h →
  (if is_64 h then elf64_symbols st = Some sym ∧ elf64_symbol_num st = num ∧ elf64_string_data st = Some str
   else is_Some (symbol_shdr st) ∧ is_Some (string_shdr st) ∧ symbol_sym st = sym ∧ string_shdata st = str) →
  ∃ err o, elfsym_get_symbol data index st = Ok (err, o) ∧
    (err = STD_E_OK ↔ is_Some o) ∧ ∀ y, o = Some y → is_cstr (sym_name y).
Proof.
  intros Hw Hso Hi He Hst. unfold elfsym_get_symbol. rewrite He.
  pose proof (symbol_name_cstr j sym num str index Hw Hso Hi) as Hc.
  pose proof (λ off n, symbol_field j sym num str index off n Hso Hi) as Hf.
  unfold symbol_name_at in Hc. destruct (is_64 h) eqn:Hk.
  - destruct Hst as (-> & -> & ->). replace (num <=? index) with false by lia.
    change (sizeof_Sym true) with 24 in *.
    rewrite (Hf 16 8) by lia. cbn [mbind outcome_bind].
    destruct (_ <? _); [exists STD_E_INVALID, None; split_and!; [done|split; [done|by intros []]|done]|].
    rewrite (Hf 8 8), (Hf 4 1) by lia. specialize (Hf 0 4). rewrite Z.add_0_r in Hf.
    rewrite Hf by lia. cbn [mbind outcome_bind]. eexists _, _. split_and!; [done|by split; eauto|].
    by intros y [= <-].
  - destruct Hst as ([p ->] & [q ->] & -> & ->). change (sizeof_Sym false) with 16 in *.
    rewrite (Hf 4 4), (Hf 8 4), (Hf 12 1) by lia. specialize (Hf 0 4). rewrite Z.add_0_r in Hf.
    rewrite Hf by lia. cbn [mbind outcome_bind]. eexists _, _. split_and!; [done|by split; eauto|].
    by intros y [= <-].
Qed.

(** ** Sections by name *)

(** Section [i] is the one found for [key]. *)
Definition section_named (key : list Z) (i off size : Z) : Prop :=
  0 ≤ i < shnum h ∧ off = sv_offset (section_at data h i) ∧ size = sv_size (section_at data h i) ∧
  cstr_at data (sv_offset (section_at data h (shstrndx h)) + sv_name (section_at data h i)) = Ok key.

Lemma section_name_cstr i : sections_wf data h → 0 ≤ i < shnum h →
  is_ok (cstr_at data (sv_offset (section_at data h (shstrndx h)) + sv_name (section_at data h i))).
Proof.
  intros Hw Hi. destruct Hw as (_ & _ & _ & _ & Hst & Hn); [lia|]. destruct (Hn i Hi) as [Hnm _].
  destruct (section_at_range data Hbytes h i) as (? & _).
  destruct (section_at_range data Hbytes h (shstrndx h)) as (_ & ? & _).
  apply (string_is_cstr (section_at data h (shstrndx h))); [done|lia|lia].
Qed.

Definition section_get_post (key : list Z) (m : outcome (Std_ReturnType * option (Z * Z))) : Prop :=
  ∃ err o, m = Ok (err, o) ∧ (err = STD_E_OK ↔ is_Some o) ∧
    ∀ off size, o = Some (off, size) → ∃ i, section_named key i off size.

Lemma section_get_none key err : err ≠ STD_E_OK → section_get_post key (Ok (err, None)).
Proof. intros He. exists err, None. split_and!; [done| |done]. split; [done|by intros []]. Qed.

Lemma section_get_found key i off size : section_named key i off size →
  section_get_post key (Ok (STD_E_OK, Some (off, size))).
Proof. intros Hs. eexists _, _. split_and!; [done|by split; eauto|]. intros ?? [= <- <-]. eauto. Qed.

Lemma find_section64_ok key n i : sections_wf data h → is_64 h = true → 0 ≤ i → i + Z.of_nat n = shnum h →
  section_get_post key
    (find_section64 n i (shoff h) (shentsize h) (sv_offset (section_at data h (shstrndx h))) data key).
Proof.
  intros Hw Hk. revert i. induction n as [|n IH]; intros i Hi Hn; cbn [find_section64];
    [by apply section_get_none|].
  rewrite shdr_ptr_u64, shdr_name_ok by lia. cbn [mbind outcome_bind].
  destruct (section_name_cstr i Hw) as [str Hstr]; [lia|]. rewrite Hstr. cbn [mbind outcome_bind].
  case_bool_decide as Hkey; [subst key|apply IH; lia].
  pose proof (shdr_size_ok i ltac:(lia)) as L2. pose proof (shdr_offset_ok i ltac:(lia)) as L3.
  rewrite Hk in L2, L3. rewrite L2, L3. cbn [mbind outcome_bind].
  destruct (section_at_range data Hbytes h i) as (_ & _ & ? & _).
  destruct (Z.ltb_spec 0xffffffff (sv_size (section_at data h i))); [by apply section_get_none|].
  apply (section_get_found str i). split_and!; [lia|lia|done| |done]. apply wrap_id. unfold in_width. lia.
Qed.

Lemma find_section32_ok key n i : sections_wf data h → is_64 h = false → 0 ≤ i → i + Z.of_nat n = shnum h →
  section_get_post key
    (find_section32 n i (shoff h) (shentsize h) (shstrndx h)
       (Some (sv_offset (section_at data h (shstrndx h)))) data key).
Proof.
  intros Hw Hk. revert i. induction n as [|n IH]; intros i Hi Hn; cbn [find_section32];
    [by apply section_get_none|].
  destruct (i =? shstrndx h); [apply IH; lia|].
  rewrite shdr_ptr_u32, shdr_name_ok by lia. cbn [mbind outcome_bind].
  destruct (section_name_cstr i Hw) as [str Hstr]; [lia|]. rewrite Hstr. cbn [mbind outcome_bind].
  destruct (negb (_ =? _)); [apply IH; lia|].
  case_bool_decide as Hkey; cbn [negb]; [subst key|apply IH; lia].
  pose proof (shdr_size_ok i ltac:(lia)) as L2. pose proof (shdr_offset_ok i ltac:(lia)) as L3.
  rewrite Hk in L2, L3. rewrite L3, L2. cbn [mbind outcome_bind].
  apply (section_get_found str i). split_and!; [lia|lia|done|done|done].
Qed.
End checked.

(** ** What the check buys *)

Lemma sections_tables data h : header_range h → sections_wf data h → shnum h ≠ 0 → tables_inside data h.
Proof. intros Hr Hw Hn. destruct (Hw Hn) as (? & ? & ? & _). by split. Qed.

(** On an image that passes the check, the symbol reader stays inside the file: loading the
    symbol table returns, and when it succeeds every symbol index below the reported number can
    be read and its name is a NUL-terminated string of the file. *)
Theorem elf_symbols_safe `{AddrWidth} (data : list Z)
    (Hbytes : Forall is_byte data) (Hsize : zlen data ≤ 2 ^ 32) (Hwf : image_wf data) :
  ∃ err st, elf_symbol_load data elf_statics_init = Ok (err, st) ∧
    (err = STD_E_OK → ∃ num, elfsym_get_symbol_num st = (STD_E_OK, Some num) ∧
      ∀ index, 0 ≤ index < num →
        ∃ err' o, elfsym_get_symbol data index st = Ok (err', o) ∧
          (err' = STD_E_OK ↔ is_Some o) ∧
          ∀ y, o = Some y → is_ok (cstr_at data (sym_name y))).
Proof.
  destruct Hwf as (h & Hh & _ & Hw). pose proof (header_wf_range data Hbytes h Hh) as Hr.
  unfold elf_symbol_load. rewrite (class_byte data h Hh). cbn [mbind outcome_bind].
  destruct (decide (shnum h = 0)) as [H0|H0].
  { pose proof (hdr_shnum_ok data h Hh) as E1. pose proof (hdr_shentsize_ok data h Hh) as E2.
    pose proof (hdr_shoff_ok data h Hh) as E3. pose proof (hdr_shstrndx_ok data h Hh) as E4.
    destruct (is_64 h) eqn:Hk; simpl.
    - unfold elf_symbol_load64. rewrite E1, E2, H0. simpl. eexists _, _. by split.
    - unfold elf_symbol_load32. rewrite E4, E1, E3, E2, H0. simpl. eexists _, _. by split. }
  pose proof (sections_tables data h Hr Hw H0) as Ht. destruct (is_64 h) eqn:Hk.
  - destruct (symbol_load64_ok data Hbytes ltac:(lia) h Hh Ht Hw Hk) as (err & st & Hl & Hok).
    exists err, st. split; [done|]. intros He. destruct (Hok He) as (H64 & j & sym & str & Hs & Hstr & Hso).
    exists (elf64_symbol_num st). split; [unfold elfsym_get_symbol_num; by rewrite H64, Hs|].
    intros index Hi. eapply (get_symbol_ok data Hbytes h Ht); [done|done|done|congruence|].
    by rewrite Hk.
  - destruct (symbol_load32_ok data Hbytes h Hh Ht Hsize Hw Hk H0) as (err & st & Hl & _ & Hok).
    exists err, st. split; [done|]. intros He. destruct (Hok He) as (H64 & Hsh & Hst & j & Hso).
    exists (symbol_num st). split; [unfold elfsym_get_symbol_num; destruct Hsh as [? ->], Hst as [? ->]; by rewrite H64|].
    intros index Hi. eapply (get_symbol_ok data Hbytes h Ht); [done|done|done|congruence|].
    by rewrite Hk.
Qed.

(** On an image that passes the check, the search of a section by name stays inside the
    file and its string tables; what it finds is the offset and size of a section with that
    name, and the section's bytes lie inside the file unless its type says it has none. *)
Theorem elf_section_get_safe (data key : list Z) (err0 : Std_ReturnType) (st : elf_statics)
    (Hbytes : Forall is_byte data) (Hsize : zlen data ≤ 2 ^ 32) (Hwf : image_wf data)
    (Hload : elf_symbol_load data elf_statics_init = Ok (err0, st)) :
  ∃ err o, elf_section_get data key st = Ok (err, o) ∧ (err = STD_E_OK ↔ is_Some o) ∧
    ∀ off size, o = Some (off, size) → ∃ h i, header_wf data h ∧
      section_named data h key i off size ∧
      (sv_type (section_at data h i) ≠ SHT_NULL → sv_type (section_at data h i) ≠ SHT_NOBITS →
       off + size ≤ zlen data).
Proof.
  destruct Hwf as (h & Hh & _ & Hw). pose proof (header_wf_range data Hbytes h Hh) as Hr.
  assert (Hpost : section_get_post data h key (elf_section_get data key st)).
  { unfold elf_section_get. unfold elf_symbol_load in Hload. rewrite (class_byte data h Hh) in *.
    cbn [mbind outcome_bind] in *.
    pose proof (hdr_shnum_ok data h Hh) as E1. pose proof (hdr_shentsize_ok data h Hh) as E2.
    pose proof (hdr_shoff_ok data h Hh) as E3. pose proof (hdr_shstrndx_ok data h Hh) as E4.
    destruct (is_64 h) eqn:Hk; cbn [Z.eqb] in *; change (ELFCLASS64 =? ELFCLASS64) with true in *;
      change (ELFCLASS32 =? ELFCLASS64) with false in *; cbv iota in *; rewrite E4, E1, E3, E2;
      cbn [mbind outcome_bind].
    - destruct (Z.leb_spec (shnum h) (shstrndx h)); [by apply section_get_none|].
      assert (H0 : shnum h ≠ 0) by (destruct Hr; lia).
      pose proof (sections_tables data h Hr Hw H0) as Ht.
      rewrite (shdr_ptr_u64 data ltac:(lia) h Ht) by (destruct Hr; lia).
      pose proof (shdr_offset_ok data h Ht (shstrndx h)) as L. rewrite Hk in L.
      rewrite L by (destruct Hr; lia). cbn [mbind outcome_bind].
      apply find_section64_ok; try done; destruct Hr; lia.
    - destruct (decide (shnum h = 0)) as [->|H0]; [by apply section_get_none|].
      pose proof (sections_tables data h Hr Hw H0) as Ht.
      destruct (symbol_load32_ok data Hbytes h Hh Ht Hsize Hw Hk H0) as (err & st' & Hl & Hn & _).
      rewrite Hload in Hl. injection Hl as <- <-. rewrite Hn.
      apply find_section32_ok; try done; destruct Hr; lia. }
  destruct Hpost as (err & o & He & Hiff & Hs). exists err, o. split_and!; [done|done|].
  intros off size Ho. destruct (Hs off size Ho) as (i & Hi). exists h, i. split_and!; [done|done|].
  intros Hn1 Hn2. destruct Hi as (Hi & -> & -> & _).
  destruct Hw as (_ & _ & Hc & _); [lia|]. by apply Hc.
Qed.

(** ** Byte-wise fields are the little-endian values *)

Lemma lor_shift a b n : 0 ≤ n → 0 ≤ a < 2 ^ n → Z.lor a (Z.shiftl b n) = a + b * 2 ^ n.
Proof.
  intros Hn Ha. rewrite Z.shiftl_mul_pow2 by done.
  assert (H0 : Z.land a (b * 2 ^ n) = 0).
  { apply Z.bits_inj'. intros i Hi. rewrite Z.land_spec, Z.bits_0.
    destruct (decide (i < n)); [rewrite Z.mul_pow2_bits_low by done; apply andb_false_r|].
    by rewrite (proj1 (Z.bounded_iff_bits_nonneg n a Hn ltac:(lia)) ltac:(lia)) by lia. }
  by rewrite <- Z.lxor_lor, <- Z.add_nocarry_lxor by done.
Qed.

(** The byte-wise 32-bit read of a section is the little-endian value of its four bytes. *)
Lemma elf_get_data32_le (data : list Z) (off : Z)
    (Hbytes : Forall is_byte data) (Hin : 0 ≤ off ∧ off + 4 ≤ zlen data) (Hoff : off + 4 ≤ 2 ^ 32) :
  elf_get_data32 data off = rd data off 4.
Proof.
  assert (Hb : ∀ i, 0 ≤ i < 4 → ∃ b, zget data (off + i) = Some b ∧ is_byte b).
  { intros i Hi. destruct (zget_is_Some data (off + i)) as [b Hb]; [lia|]. exists b. split; [done|].
    rewrite Forall_forall in Hbytes. by eapply Hbytes, zget_elem. }
  destruct (Hb 0) as (b0 & E0 & [? ?]), (Hb 1) as (b1 & E1 & [? ?]),
    (Hb 2) as (b2 & E2 & [? ?]), (Hb 3) as (b3 & E3 & [? ?]); [lia..|]. rewrite Z.add_0_r in E0.
  unfold elf_get_data32, elf_byte, rd.
  rewrite !wrap_id by (unfold in_width; lia). rewrite E0, E1, E2, E3. cbn [oob mbind outcome_bind].
  destruct (bytes_at_Some data off 4) as (bs & Hbs & Hl); [lia|lia|lia|]. rewrite Hbs. cbn [oob mbind outcome_bind].
  assert (bs = [b0; b1; b2; b3]) as ->.
  { destruct bs as [|a0 [|a1 [|a2 [|a3 [|]]]]]; try (unfold zlen in Hl; simpl in Hl; lia).
    pose proof (bytes_at_lookup data off 4 _ 0 Hbs ltac:(lia)) as F0. pose proof (bytes_at_lookup data off 4 _ 1 Hbs ltac:(lia)) as F1.
    pose proof (bytes_at_lookup data off 4 _ 2 Hbs ltac:(lia)) as F2. pose proof (bytes_at_lookup data off 4 _ 3 Hbs ltac:(lia)) as F3.
    rewrite Z.add_0_r in F0. rewrite E0 in F0. rewrite E1 in F1. rewrite E2 in F2. rewrite E3 in F3.
    unfold zget in *. simpl in *.
    by injection F0 as ->; injection F1 as ->; injection F2 as ->; injection F3 as ->. }
  f_equal. change (Z.shiftl b0 0) with b0. rewrite (lor_shift b0 b1 8), (lor_shift (b0 + b1 * 2 ^ 8) b2 16),
    (lor_shift (b0 + b1 * 2 ^ 8 + b2 * 2 ^ 16) b3 24) by lia.
  rewrite wrap_id; cbn [le_val]; [lia|].
  unfold in_width. lia.
Qed.

(** ** A small image with symbols

    Sections: the null section, the section names, a symbol table with one symbol and its
    string table.  The layout is header (0), names (52), strings (84), symbols (96), section
    table (112). *)
Module SectionDemo.
Definition shdr32 (name type off size link entsize : Z) : list Z :=
  le_bytes 4 name ++ le_bytes 4 type ++ le_bytes 4 0 ++ le_bytes 4 0 ++ le_bytes 4 off ++
  le_bytes 4 size ++ le_bytes 4 link ++ le_bytes 4 0 ++ le_bytes 4 0 ++ le_bytes 4 entsize.

(** A 32-bit header with a section table of [num] entries at [off], names in section 1. *)
Definition ehdr32 (off num : Z) : list Z :=
  [0x7f; 0x45; 0x4c; 0x46; 1; 1; 1; 0; 0; 0; 0; 0; 0; 0; 0; 0] ++
  le_bytes 2 2 ++ le_bytes 2 87 ++ le_bytes 4 1 ++ le_bytes 4 0x100 ++ le_bytes 4 0 ++ le_bytes 4 off ++
  le_bytes 4 0 ++ le_bytes 2 52 ++ le_bytes 2 32 ++ le_bytes 2 0 ++ le_bytes 2 40 ++ le_bytes 2 num ++
  le_bytes 2 1.

Definition names : list Z := replicate 12 0 ++ SECTION_DWARF_LINE_NAME ++ replicate 9 0.
Definition image : list Z :=
  ehdr32 112 4 ++ names ++ [0; 109; 97; 105; 110; 0; 0; 0; 0; 0; 0; 0] ++
  (le_bytes 4 1 ++ le_bytes 4 0x1000 ++ le_bytes 4 8 ++ [2; 0; 0; 0]) ++
  shdr32 0 0 0 0 0 0 ++ shdr32 0 3 52 32 0 0 ++ shdr32 0 2 96 16 3 16 ++ shdr32 12 3 84 12 0 0.

Lemma image_bytes : Forall is_byte image.
Proof. repeat constructor; vm_compute; congruence. Qed.

Lemma image_ok : image_wf image.
Proof.
  destruct (image_check_decides image image_bytes) as [[_ Hw]|[He _]]; [done|exact Hw|].
  vm_compute in He. discriminate.
Qed.

Lemma symbols_witness :
  ∃ err st, elf_symbol_load image elf_statics_init = Ok (err, st) ∧
    (err = STD_E_OK → ∃ num, elfsym_get_symbol_num st = (STD_E_OK, Some num) ∧
      ∀ index, 0 ≤ index < num →
        ∃ err' o, elfsym_get_symbol (H := addr_width_32) image index st = Ok (err', o) ∧
          (err' = STD_E_OK ↔ is_Some o) ∧
          ∀ y, o = Some y → is_ok (cstr_at image (sym_name y))).
Proof. apply (elf_symbols_safe (H := addr_width_32) image image_bytes); [done|exact image_ok]. Defined.

(** The symbol is found, with its name. *)
Example symbol_main :
  ('(_, st) ← elf_symbol_load image elf_statics_init;
   '(_, o) ← elfsym_get_symbol (H := addr_width_32) image 0 st;
   match o with
   | Some y => n ← cstr_at image (sym_name y); Ok (n, sym_addr y, sym_type y)
   | None => Fault NullDeref
   end) = Ok ([109; 97; 105; 110], 0x1000, SYMBOL_TYPE_FUNC).
Proof. reflexivity. Qed.

(** The statics after loading; the string table carries the name looked for. *)
Definition loaded : elf_statics :=
  mkElfStatics (Some 192) 96 1 (Some 232) 84 (Some 52) false None 0 None.

Lemma section_get_witness :
  ∃ err o, elf_section_get image SECTION_DWARF_LINE_NAME loaded = Ok (err, o) ∧
    (err = STD_E_OK ↔ is_Some o) ∧
    ∀ off size, o = Some (off, size) → ∃ h i, header_wf image h ∧
      section_named image h SECTION_DWARF_LINE_NAME i off size ∧
      (sv_type (section_at image h i) ≠ SHT_NULL → sv_type (section_at image h i) ≠ SHT_NOBITS →
       off + size ≤ zlen image).
Proof.
  apply (elf_section_get_safe image SECTION_DWARF_LINE_NAME STD_E_OK loaded image_bytes); [done|exact image_ok|reflexivity].
Defined.

Example section_found : elf_section_get image SECTION_DWARF_LINE_NAME loaded = Ok (STD_E_OK, Some (84, 12)).
Proof. reflexivity. Qed.

Lemma data32_witness : elf_get_data32 image 0 = rd image 0 4.
Proof. apply (elf_get_data32_le image 0 image_bytes); [split; done|done]. Defined.
End SectionDemo.
