(* ===== verification/Loader.v ===== *)
(** * Loading a program ([src/src/device/mpu/loader/loader.c], code cache of [src/src/cpu/cpu.h])

    [elf_load] maps the regions of the memory configuration into the unit, copies
    the loadable segments of the image to their physical addresses and reads the
    symbols; [elf_reload] restores the memory of a program that is mapped
    already.  The state collects what these functions change: the unit, the guest
    heap, the code cache and the symbol reader's statics.

    The device libraries, the machine number of the target and the DWARF readers
    are parameters ([LoaderConfig]); what [malloc] returns is one too.  [DebugInfo] puts the
    readers in. *)

From S2P Require Import Prelude Mpu MpuFacts MpuMalloc ElfImageCheck ElfSection.
From stdpp Require Import gmap.
Open Scope Z_scope.

Inductive MemoryAddressImplType :=
  | MemoryAddressImplType_ROM
  | MemoryAddressImplType_RAM
  | MemoryAddressImplType_MMAP
  | MemoryAddressImplType_MALLOC
  | MemoryAddressImplType_DEV.

#[export] Instance impl_type_eq_dec : EqDecision MemoryAddressImplType.
Proof. solve_decision. Defined.

(** A line of the memory configuration: [m_size] is in KiB (in bytes for a device). *)
Record MemoryAddressType := mkMemory {
  m_type : MemoryAddressImplType;
  m_start : Z;
  m_size : Z;
  m_mmap_addr : option nat;
  m_extdev : option AthrillExDeviceType;
  m_executable : bool;
  m_elf_load_from_vaddr : bool;
}.

Record MemoryAddressMapType := mkMemap {
  rom : list MemoryAddressType;
  ram : list MemoryAddressType;
  dev : list MemoryAddressType;
}.

(** The cast [(MpuAddressGetType)type]; the memory map holds no device in its
    ROM and RAM tables. *)
Definition get_type_of (t : MemoryAddressImplType) : MpuAddressGetType :=
  match t with
  | MemoryAddressImplType_ROM => MpuAddressGetType_ROM
  | MemoryAddressImplType_RAM => MpuAddressGetType_RAM
  | MemoryAddressImplType_MMAP => MpuAddressGetType_MMAP
  | MemoryAddressImplType_MALLOC | MemoryAddressImplType_DEV => MpuAddressGetType_MALLOC
  end.

Definition CPU_CONFIG_CORE_ID_0 : Z := 0.
Definition PF_X : Z := 1.

Class LoaderConfig := {
  ELF_MACHINE_TYPE : Z;
  EXDEV_ENABLE : bool;
  malloc_ : Z → option (list Z);
  malloc_bitmap_ok : bool;
  DEBUG_FUNC_DISABLE_DEBUG_DATA_TYPE : bool;
  (* the readers of one debug section each, defined in [DebugInfo]: do they accept the image? *)
  elf_dwarf_line_load : list Z → elf_statics → outcome Std_ReturnType;
  elf_dwarf_abbrev_load : list Z → elf_statics → outcome Std_ReturnType;
  elf_dwarf_info_load : list Z → elf_statics → outcome Std_ReturnType;
  elf_dwarf_loc_load : list Z → elf_statics → outcome Std_ReturnType;
  dwarf_build_data_type_set : list Z → elf_statics → outcome ();
}.

(** ** The code cache *)

Record CachedOperationCodeType := mkCached { code_start_addr : Z; code_size : Z }.
Record code_cache := mkCache { cached_code : list CachedOperationCodeType; last : option CachedOperationCodeType }.

Section cache.
Context `{AddrWidth}.

Definition cached_contains (c : CachedOperationCodeType) (pc : Z) : bool :=
  (code_start_addr c <=? pc) && (pc <? uaddr (code_start_addr c + code_size c)).

Definition virtual_cpu_get_cached_code (pc : Z) (c : code_cache) : option CachedOperationCodeType * code_cache :=
  let search :=
    match list_find (λ x, cached_contains x pc = true) (cached_code c) with
    | Some (_, x) => (Some x, mkCache (cached_code c) (Some x))
    | None => (None, c)
    end in
  match last c with
  | Some l => if cached_contains l pc then (Some l, c) else search
  | None => search
  end.

Definition virtual_cpu_cache_code_add_with_check (memsz start_addr : Z) (c : code_cache) : code_cache :=
  let '(found, c) := virtual_cpu_get_cached_code start_addr c in
  match found with
  | Some _ => c
  | None => mkCache (cached_code c ++ [mkCached start_addr memsz]) (last c)
  end.
End cache.

Record loader_state (D : Type) := mkLoader {
  l_mpu : mpu_state D;
  l_heap : MallocRegionType;
  l_cache : code_cache;
  l_elf : elf_statics;
}.
Arguments mkLoader {D} _ _ _ _.
Arguments l_mpu {D} _.
Arguments l_heap {D} _.
Arguments l_cache {D} _.
Arguments l_elf {D} _.

Section loader.
Context {D : Type} `{MpuConfig D} `{LoaderConfig}.
Implicit Types (s : mpu_state D) (st : loader_state D).

Definition with_mpu st s : loader_state D := mkLoader s (l_heap st) (l_cache st) (l_elf st).
Definition with_cache st c : loader_state D := mkLoader (l_mpu st) (l_heap st) c (l_elf st).

(** ** Segments *)

Definition memory_region_covers (r : MemoryAddressType) (addr size : Z) (size_is_kb : bool) : bool :=
  let region_size := if size_is_kb then uaddr (m_size r * 1024) else m_size r in
  if addr <? m_start r then false
  else
    let offset := addr - m_start r in
    (offset <=? region_size) && (size <=? region_size - offset).

Definition memory_map_covers (memap : MemoryAddressMapType) (addr size : Z) : bool :=
  existsb (λ r, memory_region_covers r addr size true) (rom memap) ||
  existsb (λ r, negb (bool_decide (m_type r = MemoryAddressImplType_MALLOC)) &&
                memory_region_covers r addr size true) (ram memap) ||
  existsb (λ r, memory_region_covers r addr size false) (dev memap).

(** Writing through a host pointer. *)
Definition host_write s (p : nat * Z) (bs : list Z) : outcome (mpu_state D) :=
  match host s !! p.1 with
  | None => Fault OutOfBounds
  | Some blk => blk' ← oob (bytes_set blk p.2 bs); Ok (with_host s (<[p.1 := blk']> (host s)) (devices s))
  end.

Definition deref_ptr (p : option (nat * Z)) : outcome (nat * Z) :=
  match p with None => Fault NullDeref | Some p => Ok p end.

Definition load_segment (data : list Z) (offset load_addr file_size memory_size : Z)
    (memap : MemoryAddressMapType) s : outcome (Std_ReturnType * mpu_state D) :=
  if (memory_size <? file_size) || negb (memory_map_covers memap (uaddr load_addr) (uaddr memory_size))
  then Ok (STD_E_NOENT, s)
  else if memory_size =? 0 then Ok (STD_E_OK, s)
  else
    '(err, p, s) ← mpu_get_pointer CPU_CONFIG_CORE_ID_0 (uaddr load_addr) s;
    if negb (std_ok err) then Ok (STD_E_INVALID, s)
    else
      ptr ← deref_ptr p;
      bs ← oob (bytes_at data offset file_size);
      s ← host_write s ptr bs;
      s ← host_write s (ptr.1, ptr.2 + file_size) (replicate (Z.to_nat (memory_size - file_size)) 0);
      Ok (STD_E_OK, s).

Definition phdr_at (data : list Z) (k : bool) (phoff phentsize i : Z) : outcome Elf_Phdr :=
  b ← oob (bytes_at data (phoff + u32 (phentsize * i)) (sizeof_Phdr k));
  Ok ((if k then Elf64_Phdr else Elf32_Phdr) b).

(** A loop over a table of the memory map; it stops at the first error. *)
Fixpoint for_regions {S} (l : list MemoryAddressType) (body : MemoryAddressType → S → outcome (Std_ReturnType * S))
    (x : S) : outcome (Std_ReturnType * S) :=
  match l with
  | [] => Ok (STD_E_OK, x)
  | r :: l' =>
      '(err, x) ← body r x;
      if std_ok err then for_regions l' body x else Ok (err, x)
  end.

(** ** Restoring a loaded program *)

Definition clear_region (r : MemoryAddressType) s : outcome (Std_ReturnType * mpu_state D) :=
  '(err, p, s) ← mpu_get_pointer CPU_CONFIG_CORE_ID_0 (m_start r) s;
  if negb (std_ok err) then Ok (STD_E_INVALID, s)
  else
    ptr ← deref_ptr p;
    s ← host_write s ptr (replicate (Z.to_nat (uaddr (m_size r * 1024))) 0);
    Ok (STD_E_OK, s).

Definition clear_ram (r : MemoryAddressType) s : outcome (Std_ReturnType * mpu_state D) :=
  if decide (m_type r = MemoryAddressImplType_MALLOC) then Ok (STD_E_OK, s) else clear_region r s.

(** Segments [i .. i + n): one that cannot be placed is skipped. *)
Fixpoint reload_segments (n : nat) (i : Z) (data : list Z) (k : bool) (phoff phentsize : Z)
    (memap : MemoryAddressMapType) s : outcome (Std_ReturnType * mpu_state D) :=
  match n with
  | O => Ok (STD_E_OK, s)
  | S n' =>
      p ← phdr_at data k phoff phentsize i;
      if negb (p_type p =? PT_LOAD) then reload_segments n' (i + 1) data k phoff phentsize memap s
      else
        '(err, s) ← load_segment data (p_offset p) (p_paddr p) (p_filesz p) (p_memsz p) memap s;
        if decide (err = STD_E_INVALID) then Ok (err, s)
        else reload_segments n' (i + 1) data k phoff phentsize memap s
  end.

Definition ehdr_of (data : list Z) (k : bool) : outcome Elf_Ehdr :=
  b ← oob (bytes_at data 0 (sizeof_Ehdr k));
  Ok ((if k then Elf64_Ehdr else Elf32_Ehdr) b).

(** [Elf_Check] and [Elf64_Check]: identification, type, machine and version. *)
Definition elf_header_check (k : bool) (e : Elf_Ehdr) : Std_ReturnType :=
  let id := λ i, default 0 (zget (e_ident e) i) in
  if negb ((id 0 =? 0x7f) && (id 1 =? 0x45) && (id 2 =? 0x4c) && (id 3 =? 0x46)) then STD_E_INVALID
  else if negb (id 4 =? (if k then ELFCLASS64 else ELFCLASS32)) then STD_E_INVALID
  else if negb (id 5 =? ELFDATA2LSB) then STD_E_INVALID
  else if negb (id 6 =? 1) then STD_E_INVALID
  else if negb (id 7 =? 0) then STD_E_INVALID
  else if negb (id 8 =? 0) then STD_E_INVALID
  else if negb (e_type e =? 2) then STD_E_INVALID
  else if negb (e_machine e =? ELF_MACHINE_TYPE) then STD_E_INVALID
  else if negb (e_version e =? 1) then STD_E_INVALID
  else STD_E_OK.
Definition Elf_Check : Elf_Ehdr → Std_ReturnType := elf_header_check false.
Definition Elf64_Check : Elf_Ehdr → Std_ReturnType := elf_header_check true.

Definition reload_class (k : bool) (data : list Z) (memap : MemoryAddressMapType) s
    : outcome (Std_ReturnType * mpu_state D) :=
  e ← ehdr_of data k;
  if negb (std_ok ((if k then Elf64_Check else Elf_Check) e)) then Ok (STD_E_INVALID, s)
  else
    '(err, s) ← for_regions (rom memap) clear_region s;
    if negb (std_ok err) then Ok (err, s)
    else
      '(err, s) ← for_regions (ram memap) clear_ram s;
      if negb (std_ok err) then Ok (err, s)
      else reload_segments (Z.to_nat (e_phnum e)) 0 data k (e_phoff e) (e_phentsize e) memap s.

Definition elf_reload (data : list Z) (elf_size : Z) (memap : MemoryAddressMapType) s
    : outcome (Std_ReturnType * mpu_state D) :=
  err ← elf_image_check data elf_size;
  if negb (std_ok err) then Ok (STD_E_INVALID, s)
  else
    c ← elf_byte data 4;
    reload_class (c =? ELFCLASS64) data memap s.

Definition binary_load (data : list Z) (load_addr : Z) s : outcome (Std_ReturnType * mpu_state D) :=
  '(err, p, s) ← mpu_get_pointer CPU_CONFIG_CORE_ID_0 load_addr s;
  if negb (std_ok err) then Ok (err, s)
  else ptr ← deref_ptr p; s ← host_write s ptr data; Ok (STD_E_OK, s).

(** ** Mapping the memory configuration *)

Definition set_cache_code_from_map (r : MemoryAddressType) st : loader_state D :=
  if m_executable r
  then with_cache st (virtual_cpu_cache_code_add_with_check (u32 (uaddr (m_size r * 1024))) (m_start r) (l_cache st))
  else st.

Definition map_rom (r : MemoryAddressType) st : outcome (Std_ReturnType * loader_state D) :=
  let size := uaddr (m_size r * 1024) in
  '(ptr, s) ← mpu_address_set_rom_ram (get_type_of (m_type r)) (m_start r) size None (malloc_ size) (l_mpu st);
  let st := with_mpu st s in
  match ptr with
  | None => Ok (STD_E_INVALID, st)
  | Some _ => Ok (STD_E_OK, set_cache_code_from_map r st)
  end.

(** The regions of a MALLOC area: one per unit, without a buffer. *)
Fixpoint map_malloc (n : nat) (start : Z) (t : MpuAddressGetType) s : outcome (mpu_state D) :=
  match n with
  | O => Ok s
  | S n' =>
      let size := MPU_MALLOC_REGION_UNIT_SIZE * 1024 in
      '(_, s) ← mpu_address_set_rom_ram t start size None (malloc_ size) s;
      map_malloc n' (uaddr (start + size)) t s
  end.

Definition map_ram (r : MemoryAddressType) st : outcome (Std_ReturnType * loader_state D) :=
  if decide (m_type r = MemoryAddressImplType_MALLOC) then
    s ← map_malloc (Z.to_nat (u32 (m_size r / MPU_MALLOC_REGION_UNIT_SIZE))) (m_start r)
          (get_type_of (m_type r)) (l_mpu st);
    Ok (STD_E_OK, set_cache_code_from_map r (with_mpu st s))
  else
    let size := uaddr (m_size r * 1024) in
    '(ptr, s) ← mpu_address_set_rom_ram (get_type_of (m_type r)) (m_start r) size (m_mmap_addr r)
                  (malloc_ size) (l_mpu st);
    let st := with_mpu st s in
    match ptr with
    | None => Ok (STD_E_INVALID, st)
    | Some _ => Ok (STD_E_OK, set_cache_code_from_map r st)
    end.

Fixpoint malloc_regions (n : nat) (start : Z) s (m : MallocRegionType) : outcome MallocRegionType :=
  match n with
  | O => Ok m
  | S n' =>
      let size := MPU_MALLOC_REGION_UNIT_SIZE * 1024 in
      m ← mpu_address_set_malloc_region malloc_bitmap_ok start size s m;
      malloc_regions n' (uaddr (start + size)) s m
  end.

Definition set_malloc_region (r : MemoryAddressType) st : outcome (Std_ReturnType * loader_state D) :=
  if decide (m_type r = MemoryAddressImplType_MALLOC) then
    m ← malloc_regions (Z.to_nat (u32 (m_size r / MPU_MALLOC_REGION_UNIT_SIZE))) (m_start r)
          (l_mpu st) (l_heap st);
    Ok (STD_E_OK, mkLoader (l_mpu st) m (l_cache st) (l_elf st))
  else Ok (STD_E_OK, st).

Definition map_dev (r : MemoryAddressType) st : outcome (Std_ReturnType * loader_state D) :=
  '(ptr, s) ← mpu_address_set_dev (m_start r) (m_size r) (m_extdev r) (malloc_ (m_size r)) (l_mpu st);
  let st := with_mpu st s in
  match ptr with
  | None => Ok (STD_E_INVALID, st)
  | Some _ => Ok (STD_E_OK, st)
  end.

(** The four mapping loops, shared by the two classes. *)
Definition map_memory (memap : MemoryAddressMapType) st : outcome (Std_ReturnType * loader_state D) :=
  '(err, st) ← for_regions (rom memap) map_rom st;
  if negb (std_ok err) then Ok (err, st)
  else
    '(err, st) ← for_regions (ram memap) map_ram st;
    if negb (std_ok err) then Ok (err, st)
    else
      '(err, st) ← for_regions (ram memap) set_malloc_region st;
      if negb (std_ok err) then Ok (err, st)
      else if EXDEV_ENABLE then for_regions (dev memap) map_dev st else Ok (STD_E_OK, st).

(** ** Loading *)

Fixpoint set_cache_code_from_elf (n : nat) (i : Z) (data : list Z) (phoff phentsize : Z) st
    : outcome (loader_state D) :=
  match n with
  | O => Ok st
  | S n' =>
      p ← phdr_at data false phoff phentsize i;
      let st := if Z.land (p_flags p) PF_X =? PF_X
                then with_cache st (virtual_cpu_cache_code_add_with_check (p_memsz p) (uaddr (p_vaddr p)) (l_cache st))
                else st in
      set_cache_code_from_elf n' (i + 1) data phoff phentsize st
  end.

Fixpoint load_segments32 (n : nat) (i : Z) (data : list Z) (phoff phentsize : Z)
    (memap : MemoryAddressMapType) st : outcome (Std_ReturnType * loader_state D) :=
  match n with
  | O => Ok (STD_E_OK, st)
  | S n' =>
      p ← phdr_at data false phoff phentsize i;
      if negb (p_type p =? PT_LOAD) then load_segments32 n' (i + 1) data phoff phentsize memap st
      else
        '(err, s) ← load_segment data (p_offset p) (p_paddr p) (p_filesz p) (p_memsz p) memap (l_mpu st);
        let st := with_mpu st s in
        if decide (err = STD_E_NOENT) then load_segments32 n' (i + 1) data phoff phentsize memap st
        else if negb (std_ok err) then Ok (STD_E_INVALID, st)
        else load_segments32 n' (i + 1) data phoff phentsize memap st
  end.

Definition Elf_LoadProgram (data : list Z) (e : Elf_Ehdr) (memap : MemoryAddressMapType) st
    : outcome (Std_ReturnType * loader_state D) :=
  '(err, st) ← map_memory memap st;
  if negb (std_ok err) then Ok (err, st)
  else
    st ← set_cache_code_from_elf (Z.to_nat (e_phnum e)) 0 data (e_phoff e) (e_phentsize e) st;
    load_segments32 (Z.to_nat (e_phnum e)) 0 data (e_phoff e) (e_phentsize e) memap st.

Definition above_bus (p : Elf_Phdr) : bool :=
  (ATHRILL_ADDRESS_WIDTH =? 32) &&
  ((0xffffffff <? p_paddr p) || (0xffffffff <? p_vaddr p) || (0xffffffff <? p_filesz p) ||
   (0xffffffff <? p_memsz p) || (2 ^ 64 - 1 - p_paddr p <? p_memsz p) ||
   (0x100000000 <? u64 (p_paddr p + p_memsz p))).

Fixpoint load_segments64 (n : nat) (i : Z) (data : list Z) (phoff phentsize : Z)
    (memap : MemoryAddressMapType) st : outcome (Std_ReturnType * loader_state D) :=
  match n with
  | O => Ok (STD_E_OK, st)
  | S n' =>
      p ← phdr_at data true phoff phentsize i;
      if negb (p_type p =? PT_LOAD) then load_segments64 n' (i + 1) data phoff phentsize memap st
      else if above_bus p then Ok (STD_E_INVALID, st)
      else
        let st := if negb (Z.land (p_flags p) PF_X =? 0)
                  then with_cache st (virtual_cpu_cache_code_add_with_check (u32 (p_memsz p)) (uaddr (p_vaddr p)) (l_cache st))
                  else st in
        '(err, s) ← load_segment data (p_offset p) (p_paddr p) (p_filesz p) (p_memsz p) memap (l_mpu st);
        let st := with_mpu st s in
        if decide (err = STD_E_NOENT) then load_segments64 n' (i + 1) data phoff phentsize memap st
        else if negb (std_ok err) then Ok (STD_E_INVALID, st)
        else load_segments64 n' (i + 1) data phoff phentsize memap st
  end.

Definition Elf64_LoadProgram (data : list Z) (e : Elf_Ehdr) (memap : MemoryAddressMapType) st
    : outcome (Std_ReturnType * loader_state D) :=
  '(err, st) ← map_memory memap st;
  if negb (std_ok err) then Ok (err, st)
  else load_segments64 (Z.to_nat (e_phnum e)) 0 data (e_phoff e) (e_phentsize e) memap st.

(** ** Debug information *)

Definition dwarf_version_is_supported (data name : list Z) (e : elf_statics) : outcome bool :=
  '(err, o) ← elf_section_get data name e;
  if negb (std_ok err) then Ok true
  else
    match o with
    | None => Fault NullDeref
    | Some (off, size) =>
        if size <? 6 then Ok true
        else
          b4 ← elf_byte data (off + 4);
          b5 ← elf_byte data (off + 5);
          Ok (negb (4 <? u16 (Z.lor b4 (Z.shiftl b5 8))))
    end.

Definition dwarf_is_supported (data : list Z) (e : elf_statics) : outcome bool :=
  l ← dwarf_version_is_supported data SECTION_DWARF_LINE_NAME e;
  if negb l then Ok false
  else
    i ← dwarf_version_is_supported data SECTION_DWARF_INFO_NAME e;
    if negb i then Ok false else Ok true.

Definition load_debug_information (data : list Z) (is_64 : bool) (e : elf_statics) : outcome () :=
  sup ← dwarf_is_supported data e;
  if negb sup then Ok ()
  else
    err ← elf_dwarf_line_load data e;
    if negb (std_ok err) then Ok ()
    else
      err ← elf_dwarf_abbrev_load data e;
      if negb (std_ok err) then Ok ()
      else
        err ← elf_dwarf_info_load data e;
        if negb (std_ok err) then Ok ()
        else
          err ← elf_dwarf_loc_load data e;
          if negb (std_ok err) then Ok ()
          else if is_64 then Ok ()
          else if DEBUG_FUNC_DISABLE_DEBUG_DATA_TYPE then Ok ()
          else dwarf_build_data_type_set data e.

(** The third component is the entry address, once it is set. *)
Definition elf_load (data : list Z) (elf_size : Z) (memap : MemoryAddressMapType) st
    : outcome (Std_ReturnType * loader_state D * option Z) :=
  err ← elf_image_check data elf_size;
  if negb (std_ok err) then Ok (err, st, None)
  else
    c ← elf_byte data 4;
    let k := c =? ELFCLASS64 in
    e ← ehdr_of data k;
    if negb (std_ok ((if k then Elf64_Check else Elf_Check) e)) then Ok (STD_E_INVALID, st, None)
    else if k && (ATHRILL_ADDRESS_WIDTH =? 32) && (0xffffffff <? e_entry e) then Ok (STD_E_INVALID, st, None)
    else
      let entry := uaddr (e_entry e) in
      '(err, st) ← (if k then Elf64_LoadProgram else Elf_LoadProgram) data e memap st;
      if negb (std_ok err) then Ok (err, st, Some entry)
      else
        '(err, es) ← elf_symbol_load data (l_elf st);
        let st := mkLoader (l_mpu st) (l_heap st) (l_cache st) es in
        if negb (std_ok err) then Ok (err, st, Some entry)
        else
          _ ← load_debug_information data k es;
          Ok (STD_E_OK, st, Some entry).
End loader.
