(* ===== verification/LoaderFacts.v ===== *)
(** * Loading a program: what reaches the guest's memory

    The effect of a segment on the guest's memory is a [gstore] of its file bytes
    followed by zeros.  When the memory configuration is mapped ([mapped]), every
    segment of a checked image is either stored whole or left out, and nothing is
    ever written outside the host buffers. *)

From S2P Require Import Prelude Mpu MpuFacts MpuMalloc ElfImageCheck ElfSection Loader.
From stdpp Require Import gmap.
Open Scope Z_scope.

Section loader.
Context {D : Type} `{MpuConfig D}.
Implicit Types (s : mpu_state D).

(** A guest range inside one region with built-in operations and a buffer. *)
Definition in_plain s (start size : Z) (x : Z) (r : MpuAddressRegionType) (b : nat) : Prop :=
  zget (dynamic_map s) x = Some r ∧ r_ops r = default_memory_operation ∧ r_data r = Some b ∧
  r_start r ≤ start ∧ start + size ≤ r_start r + r_size r.

Definition plain_entry s (size_of : MemoryAddressType → Z) (e : MemoryAddressType) : Prop :=
  0 < size_of e ∧ ∃ x r b, in_plain s (m_start e) (size_of e) x r b.

Definition kb_size (e : MemoryAddressType) : Z := uaddr (m_size e * 1024).

(** Every region of the configuration that has a buffer is mapped. *)
Record mapped s (memap : MemoryAddressMapType) : Prop := {
  mp_rom : Forall (plain_entry s kb_size) (rom memap);
  mp_ram : Forall (λ e, m_type e ≠ MemoryAddressImplType_MALLOC → plain_entry s kb_size e) (ram memap);
  mp_dev : Forall (plain_entry s m_size) (dev memap);
}.

Lemma mapped_ext s s' memap : dynamic_map s' = dynamic_map s → mapped s memap → mapped s' memap.
Proof. intros He [Hr Ha Hd]. by split; unfold plain_entry, in_plain in *; rewrite He. Qed.

Lemma in_plain_ext s s' st n x r b : dynamic_map s' = dynamic_map s → in_plain s st n x r b → in_plain s' st n x r b.
Proof. intros He. unfold in_plain. by rewrite He. Qed.

Lemma in_plain_region s start size x r b : mpu_wf s → in_plain s start size x r b →
  region_wf (host s) r ∧ r_mask r = ATHRILL_ADDR_MAX ∧
  ∃ blk, host s !! b = Some blk ∧ zlen blk = r_size r.
Proof.
  intros Hwf (Hx & Ho & Hd & _). destruct (wf_region s x r Hwf Hx) as [Hw Hm].
  split_and!; [done|done|]. by apply (rw_block _ _ Hw).
Qed.

Lemma same_but_previous_guest s s' : same_but_previous s s' →
  dynamic_map s' = dynamic_map s ∧ host s' = host s ∧ ∀ a, guest_byte s' a = guest_byte s a.
Proof. intros (i & j & ->). done. Qed.

(** The pointer to an address of a plain region. *)
Lemma get_pointer_plain c s addr size x r b : mpu_wf s → 0 < size → in_plain s addr size x r b →
  ∃ s', mpu_get_pointer c addr s = Ok (STD_E_OK, Some (b, addr - r_start r), s') ∧ same_but_previous s s'.
Proof.
  intros Hwf Hsz Hin. pose proof Hin as (Hx & Ho & Hd & Hlo & Hhi).
  destruct (in_plain_region s addr size x r b Hwf Hin) as (Hw & Hm & blk & Hb & Hl).
  pose proof (rw_start _ _ Hw). pose proof (rw_end _ _ Hw). pose proof (rw_size _ _ Hw).
  assert (Ha : is_addr addr) by (unfold is_addr; lia).
  pose proof (access_ok_short addr 1 Ha ltac:(lia)) as Hacc.
  assert (Hc : region_covers r addr 1 = true).
  { rewrite (region_covers_spec (host s)), Hm, land_addr_max by (done || lia). lia. }
  destruct (search_region_eq c addr 1 s Hwf Hacc) as (s' & Hs & Hsb).
  unfold mpu_get_pointer. rewrite Hs. unfold search_tables.
  rewrite (first_covering_dynamic s addr 1 x r) by done. rewrite Hd. cbn [fst].
  unfold ops_of. rewrite Ho. cbn [default_ops op_get_pointer].
  rewrite Hm, land_addr_max by done. unfold memory_get_pointer, region_block.
  destruct (same_but_previous_guest s s' Hsb) as (_ & Hh & _). cbn [fst]. rewrite Hd, Hh, Hb.
  cbn [mbind outcome_bind]. rewrite uaddr_id by (unfold is_addr; lia).
  replace (_ <=? _) with true by lia. cbn [mbind outcome_bind]. by exists s'.
Qed.

(** Writing inside a plain region is a store to the guest's memory. *)
Lemma host_write_plain s addr bs x r b : mpu_wf s → unaliased s → in_plain s addr (zlen bs) x r b →
  ∃ s', host_write s (b, addr - r_start r) bs = Ok s' ∧ mpu_wf s' ∧ dynamic_map s' = dynamic_map s ∧
    ∀ a, is_addr a → guest_byte s' a = gstore (guest_byte s) addr bs a.
Proof.
  intros Hwf Hun Hin. pose proof Hin as (Hx & Ho & Hd & Hlo & Hhi).
  destruct (in_plain_region s addr (zlen bs) x r b Hwf Hin) as (Hw & Hm & blk & Hb & Hl).
  unfold host_write. cbn [fst snd]. rewrite Hb.
  rewrite (proj2 (bytes_set_Some blk (addr - r_start r) bs _)) by (split_and!; [lia|lia|done]).
  cbn [oob mbind outcome_bind]. eexists. split; [done|].
  pose proof (same_shape_put (host s) b blk (addr - r_start r) bs Hb ltac:(lia) ltac:(lia)) as Hsh.
  split_and!; [|done|].
  - apply mpu_wf_host; [done|by apply (same_shape_fresh s)|done].
  - by apply (guest_byte_update s s x r b blk); try done; [apply same_but_previous_refl|lia|lia].
Qed.

Lemma gstore_app m addr bs cs a :
  gstore (gstore m addr bs) (addr + zlen bs) cs a = gstore m addr (bs ++ cs) a.
Proof.
  unfold gstore. rewrite zlen_app. pose proof (zlen_nonneg bs). pose proof (zlen_nonneg cs).
  destruct (decide (addr ≤ a < addr + zlen bs)).
  - replace ((_ <=? a) && (a <? _)) with false by lia. replace (_ && _) with true by lia.
    replace (_ && _) with true by lia. rewrite zget_app_l by lia. done.
  - destruct (decide (addr + zlen bs ≤ a < addr + zlen bs + zlen cs)).
    + replace (_ && _) with true by lia. replace (_ && _) with true by lia.
      rewrite zget_app_r by lia. f_equal. lia.
    + repeat (replace (_ && _) with false by lia). done.
Qed.

Lemma gstore_ext m m' addr bs a : (∀ a, is_addr a → m a = m' a) → is_addr a →
  gstore m addr bs a = gstore m' addr bs a.
Proof. intros He Ha. unfold gstore. case_match; [done|by apply He]. Qed.

(** ** One segment *)

Definition segment_bytes (data : list Z) (offset file_size memory_size : Z) : list Z :=
  default [] (bytes_at data offset file_size) ++ replicate (Z.to_nat (memory_size - file_size)) 0.

Lemma entry_covers s size_of e addr n : plain_entry s size_of e →
  m_start e ≤ addr → addr + n ≤ m_start e + size_of e → ∃ x r b, in_plain s addr n x r b.
Proof.
  intros (_ & x & r & b & Hx & Ho & Hd & Hlo & Hhi) Ha Hn. exists x, r, b. split_and!; [done..|lia|lia].
Qed.

Lemma map_covers_plain s memap addr n : mapped s memap → memory_map_covers memap addr n = true →
  ∃ x r b, in_plain s addr n x r b.
Proof.
  intros [Hr Ha Hd] Hc. unfold memory_map_covers in Hc. rewrite !orb_true_iff, !existsb_exists in Hc.
  assert (Hkb : ∀ e, memory_region_covers e addr n true = true → m_start e ≤ addr ∧ addr + n ≤ m_start e + kb_size e)
    by (intros e; unfold memory_region_covers, kb_size; case_match; lia).
  rewrite Forall_forall in Hr, Ha, Hd. destruct Hc as [[(e & Hin & Hc)|(e & Hin & Hc)]|(e & Hin & Hc)];
    apply list_elem_of_In in Hin.
  - apply Hkb in Hc as [? ?]. by eapply entry_covers; [by apply Hr|lia|].
  - apply andb_true_iff in Hc as [Hty [? ?]%Hkb].
    apply negb_true_iff, bool_decide_eq_false in Hty. by eapply entry_covers; [by apply Ha|lia|].
  - eapply entry_covers; [by apply Hd| |]; unfold memory_region_covers in Hc; case_match; lia.
Qed.

Lemma load_segment_ok data offset load_addr file_size memory_size memap s :
  mpu_wf s → unaliased s → mapped s memap →
  0 ≤ offset → 0 ≤ file_size ≤ memory_size → memory_size < ADDR_SPACE → offset + file_size ≤ zlen data →
  ∃ err s', load_segment data offset load_addr file_size memory_size memap s = Ok (err, s') ∧
    mpu_wf s' ∧ dynamic_map s' = dynamic_map s ∧
    err = (if memory_map_covers memap (uaddr load_addr) memory_size then STD_E_OK else STD_E_NOENT) ∧
    ∀ a, is_addr a → guest_byte s' a =
      if memory_map_covers memap (uaddr load_addr) memory_size
      then gstore (guest_byte s) (uaddr load_addr) (segment_bytes data offset file_size memory_size) a
      else guest_byte s a.
Proof.
  intros Hwf Hun Hmap Ho Hf Hm Hin. unfold load_segment.
  rewrite (uaddr_id memory_size) by (unfold is_addr; lia).
  replace (memory_size <? file_size) with false by lia. cbn [orb].
  destruct (memory_map_covers memap (uaddr load_addr) memory_size) eqn:Hc; cbn [negb];
    [|eexists _, s; by split_and!].
  destruct (bytes_at_Some data offset file_size) as (bs & Hbs & Hbl); [lia..|].
  destruct (Z.eqb_spec memory_size 0) as [->|Hn0].
  { eexists _, s. split_and!; try done. intros a Ha. unfold segment_bytes. rewrite Hbs.
    unfold gstore. rewrite zlen_app. cbn [default from_option id]. unfold zlen at 2. rewrite length_replicate.
    replace (_ && _) with false by lia. done. }
  destruct (map_covers_plain s memap _ _ Hmap Hc) as (x & r & b & Hpl).
  destruct (get_pointer_plain CPU_CONFIG_CORE_ID_0 s (uaddr load_addr) memory_size x r b Hwf ltac:(lia) Hpl) as (s1 & Hgp & Hsb).
  rewrite Hgp. cbn [mbind outcome_bind std_ok negb deref_ptr]. rewrite Hbs. cbn [oob mbind outcome_bind].
  destruct (same_but_previous_guest s s1 Hsb) as (Hd1 & Hh1 & Hg1).
  assert (Hwf1 : mpu_wf s1) by (by eapply same_but_previous_wf).
  assert (Hun1 : unaliased s1) by (unfold unaliased; by rewrite Hd1).
  pose proof Hpl as (Hx & Hop & Hdt & Hlo & Hhi).
  destruct (host_write_plain s1 (uaddr load_addr) bs x r b Hwf1 Hun1) as (s2 & -> & Hwf2 & Hd2 & Hg2).
  { split_and!; [by rewrite Hd1|done|done|lia|lia]. }
  cbn [mbind outcome_bind fst snd].
  assert (Hun2 : unaliased s2) by (unfold unaliased; by rewrite Hd2).
  set (zs := replicate (Z.to_nat (memory_size - file_size)) 0).
  assert (Hzl : zlen zs = memory_size - file_size) by (unfold zlen, zs; rewrite length_replicate; lia).
  destruct (host_write_plain s2 (uaddr load_addr + zlen bs) zs x r b Hwf2 Hun2) as (s3 & Hw3 & Hwf3 & Hd3 & Hg3).
  { split_and!; [by rewrite Hd2, Hd1|done|done|pose proof (zlen_nonneg bs); lia|lia]. }
  replace (uaddr load_addr - r_start r + file_size) with (uaddr load_addr + zlen bs - r_start r) by lia.
  rewrite Hw3. cbn [mbind outcome_bind]. eexists _, s3. split_and!; [done|done|congruence|done|].
  intros a Ha. rewrite Hg3 by done. unfold segment_bytes. rewrite Hbs. cbn [default from_option id].
  fold zs. rewrite <- gstore_app. apply gstore_ext; [|done]. intros a' Ha'. rewrite Hg2 by done.
  apply gstore_ext; [|done]. intros. apply Hg1.
Qed.

(** A covered range lies inside the address space. *)
Lemma covers_below s memap addr n : mpu_wf s → mapped s memap → memory_map_covers memap addr n = true → n < ADDR_SPACE.
Proof.
  intros Hwf Hmap Hc. destruct (map_covers_plain s memap _ _ Hmap Hc) as (x & r & b & Hpl).
  destruct (in_plain_region s addr n x r b Hwf Hpl) as (Hw & _). destruct Hpl as (_ & _ & _ & Hlo & Hhi).
  pose proof (rw_start _ _ Hw). pose proof (rw_end _ _ Hw). pose proof (rw_size _ _ Hw). lia.
Qed.

(** The check for a segment's place is made on its size cut to the width of an address, but
    its memory is cleared in full: a segment of a 64-bit image whose size does not fit a
    32-bit bus, and whose size cut to 32 bits does, overruns the buffer of the region. *)
Lemma oversized_segment_overruns data offset load_addr file_size memory_size memap s :
  mpu_wf s → unaliased s → mapped s memap →
  0 ≤ offset → 0 ≤ file_size ≤ memory_size → offset + file_size ≤ zlen data →
  ADDR_SPACE ≤ memory_size → 0 < uaddr memory_size → memory_map_covers memap (uaddr load_addr) (uaddr memory_size) = true →
  load_segment data offset load_addr file_size memory_size memap s = Fault OutOfBounds.
Proof.
  intros Hwf Hun Hmap Ho Hf Hin Hbig Hn0 Hc. unfold load_segment. rewrite Hc.
  replace (memory_size <? file_size) with false by lia. cbn [orb negb].
  rewrite (proj2 (Z.eqb_neq memory_size 0)) by (pose proof addr_space_range; lia).
  destruct (map_covers_plain s memap _ _ Hmap Hc) as (x & r & b & Hpl).
  destruct (get_pointer_plain CPU_CONFIG_CORE_ID_0 s (uaddr load_addr) _ x r b Hwf Hn0 Hpl) as (s1 & -> & Hsb).
  destruct (bytes_at_Some data offset file_size) as (bs & Hbs & Hbl); [lia..|].
  cbn [mbind outcome_bind std_ok negb deref_ptr]. rewrite Hbs. cbn [oob mbind outcome_bind].
  destruct (same_but_previous_guest s s1 Hsb) as (Hd1 & Hh1 & _).
  destruct (in_plain_region s _ _ x r b Hwf Hpl) as (Hw & _ & blk & Hb & Hl). destruct Hpl as (_ & _ & _ & Hlo & Hhi).
  pose proof (rw_start _ _ Hw). pose proof (rw_end _ _ Hw). pose proof (rw_size _ _ Hw).
  assert (host_write s1 (b, uaddr load_addr - r_start r) bs =
    (blk' ← oob (bytes_set blk (uaddr load_addr - r_start r) bs); Ok (with_host s1 (<[b := blk']> (host s1)) (devices s1)))) as ->
    by (unfold host_write; cbn [fst snd]; by rewrite Hh1, Hb).
  destruct (bytes_set blk _ bs) as [blk'|] eqn:Hset; [|done]. cbn [oob mbind outcome_bind].
  apply bytes_set_Some in Hset as (? & ? & ->). unfold host_write. cbn [fst snd host with_host]. rewrite Hh1.
  rewrite lookup_insert_eq.
  destruct (bytes_set _ _ (replicate _ 0)) as [?|] eqn:Hset; [|done]. exfalso.
  apply bytes_set_Some in Hset as (_ & Hle & _). rewrite bytes_put_len in Hle by lia.
  unfold zlen at 1 in Hle. rewrite length_replicate in Hle. lia.
Qed.

(** A segment is stored whole or left out, whatever its size, unless it overruns. *)
Lemma place_segment_ok data offset load_addr file_size memory_size memap s :
  mpu_wf s → unaliased s → mapped s memap →
  0 ≤ offset → 0 ≤ file_size ≤ memory_size →
  (memory_map_covers memap (uaddr load_addr) (uaddr memory_size) = true → memory_size < ADDR_SPACE) →
  offset + file_size ≤ zlen data →
  ∃ err s', load_segment data offset load_addr file_size memory_size memap s = Ok (err, s') ∧
    mpu_wf s' ∧ dynamic_map s' = dynamic_map s ∧
    err = (if memory_map_covers memap (uaddr load_addr) memory_size then STD_E_OK else STD_E_NOENT) ∧
    ∀ a, is_addr a → guest_byte s' a =
      if memory_map_covers memap (uaddr load_addr) memory_size
      then gstore (guest_byte s) (uaddr load_addr) (segment_bytes data offset file_size memory_size) a
      else guest_byte s a.
Proof.
  intros Hwf Hun Hmap Ho Hf Hsize Hin. destruct (decide (memory_size < ADDR_SPACE)) as [Hm|Hm]; [by apply load_segment_ok|].
  assert (memory_map_covers memap (uaddr load_addr) memory_size = false) as ->.
  { apply not_true_is_false. intros Hc%(covers_below s); [done|done|done]. }
  unfold load_segment. destruct (memory_map_covers _ _ _) eqn:Hc; [by specialize (Hsize eq_refl)|].
  rewrite orb_true_r. by eexists _, s.
Qed.

(** ** All segments *)

Definition phdr_view (data : list Z) (k : bool) (phoff phentsize i : Z) : Elf_Phdr :=
  (if k then Elf64_Phdr else Elf32_Phdr) (default [] (bytes_at data (phoff + i * phentsize) (sizeof_Phdr k))).

(** What one program header does to the guest's memory. *)
Definition place (data : list Z) (memap : MemoryAddressMapType) (m : Z → option Z) (p : Elf_Phdr) : Z → option Z :=
  if (p_type p =? PT_LOAD) && memory_map_covers memap (uaddr (p_paddr p)) (p_memsz p)
  then gstore m (uaddr (p_paddr p)) (segment_bytes data (p_offset p) (p_filesz p) (p_memsz p))
  else m.

Lemma place_ext data memap m m' p : (∀ a, is_addr a → m a = m' a) →
  ∀ a, is_addr a → place data memap m p a = place data memap m' p a.
Proof. intros He a Ha. unfold place, gstore. repeat case_match; auto. Qed.

Lemma place_list_ext data memap ps m m' : (∀ a, is_addr a → m a = m' a) →
  ∀ a, is_addr a → foldl (place data memap) m ps a = foldl (place data memap) m' ps a.
Proof.
  revert m m'. induction ps as [|p ps IH]; intros m m' He a Ha; simpl; [by apply He|].
  apply IH; [|done]. by apply place_ext.
Qed.

Definition phdrs (data : list Z) (h : ElfHeaderView) : list Elf_Phdr :=
  phdr_view data (is_64 h) (phoff h) (phentsize h) <$> seqZ 0 (phnum h).

(** Every loadable segment that the configuration covers, as the loader checks it, has a size
    that fits an address. *)
Definition segments_fit (data : list Z) (memap : MemoryAddressMapType) (h : ElfHeaderView) : Prop :=
  ∀ i, 0 ≤ i < phnum h → let p := phdr_view data (is_64 h) (phoff h) (phentsize h) i in
    p_type p = PT_LOAD → memory_map_covers memap (uaddr (p_paddr p)) (uaddr (p_memsz p)) = true → p_memsz p < ADDR_SPACE.

Lemma phdr_at_ok data h i : header_range h → programs_wf data h → 0 ≤ i < phnum h →
  phdr_at data (is_64 h) (phoff h) (phentsize h) i = Ok (phdr_view data (is_64 h) (phoff h) (phentsize h) i).
Proof.
  intros Hr Hw Hi. destruct (Hw ltac:(lia)) as (He & Hin & _). destruct Hr. unfold phdr_at, phdr_view.
  rewrite wrap_id by (unfold in_width; nia). rewrite (Z.mul_comm (phentsize h) i).
  rewrite struct_read; [done|nia|destruct (is_64 h); simpl; lia|nia].
Qed.

(** The loader's view of a program header and the check's view agree. *)
Lemma phdr_program data h i : let p := phdr_view data (is_64 h) (phoff h) (phentsize h) i in
  program_at data h i = mkProgramView (p_type p) (p_offset p) (p_filesz p) (p_memsz p).
Proof. unfold program_at, program_view, phdr_view. by destruct (is_64 h). Qed.

Lemma phdr_range data h i : Forall is_byte data →
  let p := phdr_view data (is_64 h) (phoff h) (phentsize h) i in 0 ≤ p_offset p ∧ 0 ≤ p_filesz p.
Proof.
  intros Hb. unfold phdr_view. pose proof (bytes_at_bytes data (phoff h + i * phentsize h) (sizeof_Phdr (is_64 h)) Hb) as Hb'.
  destruct (is_64 h); simpl; split; by apply fld_range.
Qed.

Record mem_ok s memap : Prop := {
  mo_wf : mpu_wf s;
  mo_unaliased : unaliased s;
  mo_mapped : mapped s memap;
}.

Lemma mem_ok_ext s s' memap : dynamic_map s' = dynamic_map s → mpu_wf s' → mem_ok s memap → mem_ok s' memap.
Proof.
  intros Hd Hw [_ Hu Hm]. split; [done|unfold unaliased; by rewrite Hd|by apply (mapped_ext s)].
Qed.

Lemma reload_segments_ok data h memap n i s : Forall is_byte data → header_range h →
  programs_wf data h → segments_fit data memap h → mem_ok s memap →
  0 ≤ i → i + Z.of_nat n = phnum h →
  ∃ s', reload_segments n i data (is_64 h) (phoff h) (phentsize h) memap s = Ok (STD_E_OK, s') ∧
    mem_ok s' memap ∧ dynamic_map s' = dynamic_map s ∧
    ∀ a, is_addr a → guest_byte s' a =
      foldl (place data memap) (guest_byte s)
        (phdr_view data (is_64 h) (phoff h) (phentsize h) <$> seqZ i (Z.of_nat n)) a.
Proof.
  intros Hb Hr Hw Hfit. revert i s. induction n as [|n IH]; intros i s Hok Hi Hn; cbn [reload_segments].
  { exists s. split_and!; done. }
  rewrite phdr_at_ok by (done || lia). cbn [mbind outcome_bind].
  rewrite seqZ_cons by lia. rewrite fmap_cons. cbn [foldl]. replace (Z.pred (Z.of_nat (S n))) with (Z.of_nat n) by lia.
  replace (Z.succ i) with (i + 1) by lia.
  pose proof (phdr_program data h i) as Hpv. pose proof (phdr_range data h i Hb) as [Hpo Hpf].
  pose proof (Hfit i ltac:(lia)) as Hfi. cbv zeta in Hpv, Hpo, Hpf, Hfi.
  set (p := phdr_view data (is_64 h) (phoff h) (phentsize h) i) in *. unfold place at 2.
  destruct (Z.eqb_spec (p_type p) PT_LOAD) as [Hty|Hty]; cbn [negb andb]; [|apply IH; [done|lia|lia]].
  destruct (Hw ltac:(lia)) as (_ & _ & Hld). specialize (Hld i ltac:(lia)). cbv zeta in Hld.
  rewrite Hpv in Hld. destruct (Hld Hty) as [Hinf Hfm]. cbn [pv_offset pv_filesz pv_memsz] in Hinf, Hfm.
  destruct Hok as [Hwf Hun Hmap].
  destruct (place_segment_ok data (p_offset p) (p_paddr p) (p_filesz p) (p_memsz p) memap s)
    as (err & s1 & Hls & Hwf1 & Hd1 & Herr & Hg1); [done|done|done|done|lia|by apply Hfi|done|].
  rewrite Hls. cbn [mbind outcome_bind]. rewrite decide_False by (rewrite Herr; by case_match).
  destruct (IH (i + 1) s1) as (s' & He & Hok' & Hd' & Hg'); [|lia|lia|].
  { by apply (mem_ok_ext s). }
  exists s'. split_and!; [done|done|congruence|]. intros a Ha. rewrite Hg' by done.
  apply place_list_ext; [|done]. intros a' Ha'. rewrite Hg1 by done. by case_match.
Qed.

(** ** Clearing the regions of the configuration *)

Definition clear_entry (m : Z → option Z) (e : MemoryAddressType) : Z → option Z :=
  gstore m (m_start e) (replicate (Z.to_nat (kb_size e)) 0).

Lemma clear_list_ext es m m' : (∀ a, is_addr a → m a = m' a) →
  ∀ a, is_addr a → foldl clear_entry m es a = foldl clear_entry m' es a.
Proof.
  revert m m'. induction es as [|e es IH]; intros m m' He a Ha; simpl; [by apply He|].
  apply IH; [|done]. intros. by apply gstore_ext.
Qed.

Lemma clear_region_ok memap e s : mem_ok s memap → plain_entry s kb_size e →
  ∃ s', clear_region e s = Ok (STD_E_OK, s') ∧ mem_ok s' memap ∧ dynamic_map s' = dynamic_map s ∧
    ∀ a, is_addr a → guest_byte s' a = clear_entry (guest_byte s) e a.
Proof.
  intros Hok (Hsz & x & r & b & Hpl). pose proof Hok as [Hwf Hun Hmap]. unfold clear_region.
  destruct (get_pointer_plain CPU_CONFIG_CORE_ID_0 s (m_start e) (kb_size e) x r b Hwf Hsz Hpl) as (s1 & -> & Hsb).
  cbn [mbind outcome_bind std_ok negb deref_ptr].
  destruct (same_but_previous_guest s s1 Hsb) as (Hd1 & Hh1 & Hg1).
  assert (Hok1 : mem_ok s1 memap) by (by apply (mem_ok_ext s); [|eapply same_but_previous_wf|]).
  pose proof Hok1 as [Hwf1 Hun1 _]. fold (kb_size e).
  set (zs := replicate (Z.to_nat (kb_size e)) 0).
  assert (Hzl : zlen zs = kb_size e) by (unfold zlen, zs; rewrite length_replicate; lia).
  destruct (host_write_plain s1 (m_start e) zs x r b Hwf1 Hun1) as (s2 & -> & Hwf2 & Hd2 & Hg2).
  { rewrite Hzl. by apply (in_plain_ext s). }
  cbn [mbind outcome_bind]. eexists. split_and!; [done|by apply (mem_ok_ext s1)|congruence|].
  intros a Ha. rewrite Hg2 by done. apply gstore_ext; [|done]. intros. apply Hg1.
Qed.

Lemma clear_regions_ok memap es body s :
  (∀ e s, e ∈ es → body e s = clear_region e s) →
  mem_ok s memap → Forall (plain_entry s kb_size) es →
  ∃ s', for_regions es body s = Ok (STD_E_OK, s') ∧ mem_ok s' memap ∧
    dynamic_map s' = dynamic_map s ∧
    ∀ a, is_addr a → guest_byte s' a = foldl clear_entry (guest_byte s) es a.
Proof.
  revert s. induction es as [|e es IH]; intros s Hb Hok Hes; cbn [for_regions]; [by exists s|].
  apply Forall_cons_1 in Hes as [He Hes]. rewrite Hb by (apply list_elem_of_here).
  destruct (clear_region_ok memap e s Hok He) as (s1 & -> & Hok1 & Hd1 & Hg1).
  cbn [mbind outcome_bind std_ok]. destruct (IH s1) as (s2 & -> & Hok2 & Hd2 & Hg2).
  - intros. apply Hb. by apply list_elem_of_further.
  - done.
  - eapply Forall_impl; [exact Hes|]. intros e' (? & x & r & b & Hpl). split; [done|].
    exists x, r, b. by apply (in_plain_ext s).
  - exists s2. split_and!; [done|done|congruence|]. intros a Ha. rewrite Hg2 by done.
    cbn [foldl]. by apply clear_list_ext.
Qed.

Definition plain_ram (memap : MemoryAddressMapType) : list MemoryAddressType :=
  filter (λ e, m_type e ≠ MemoryAddressImplType_MALLOC) (ram memap).

Lemma clear_ram_filter es s :
  for_regions es clear_ram s
  = for_regions (filter (λ e, m_type e ≠ MemoryAddressImplType_MALLOC) es) clear_region s.
Proof.
  revert s. induction es as [|e es IH]; intros s; [done|]. cbn [for_regions].
  destruct (decide (m_type e = MemoryAddressImplType_MALLOC)) as [Hty|Hty].
  - rewrite filter_cons_False by (intros Hn; by apply Hn).
    assert (clear_ram e s = Ok (STD_E_OK, s)) as -> by (unfold clear_ram; by rewrite decide_True).
    apply IH.
  - rewrite filter_cons_True by done.
    assert (clear_ram e s = clear_region e s) as -> by (unfold clear_ram; by rewrite decide_False).
    cbn [for_regions]. destruct (clear_region e s) as [[err s1]|]; [|done]. simpl.
    destruct (std_ok err); [apply IH|done].
Qed.

(** The guest's memory after a reload, as a function of the memory before it. *)
Definition reload_memory (data : list Z) (h : ElfHeaderView) (memap : MemoryAddressMapType)
    (m : Z → option Z) : Z → option Z :=
  foldl (place data memap) (foldl clear_entry (foldl clear_entry m (rom memap)) (plain_ram memap))
    (phdrs data h).

Lemma ehdr_of_ok data h : header_wf data h →
  ∃ e, ehdr_of data (is_64 h) = Ok e ∧ h = header_view (is_64 h) e.
Proof.
  intros (_ & _ & _ & Hl & Hh). unfold ehdr_of.
  rewrite struct_read; [|lia|destruct (is_64 h); simpl; lia|lia].
  cbn [mbind outcome_bind]. eexists. split; [done|]. exact Hh.
Qed.

Lemma image_class data h : header_wf data h → elf_byte data 4 = Ok (if is_64 h then ELFCLASS64 else ELFCLASS32) ∧
  ((if is_64 h then ELFCLASS64 else ELFCLASS32) =? ELFCLASS64) = is_64 h.
Proof. intros Hw. split; [by apply class_byte|]. by destruct (is_64 h). Qed.

(** An image of 32 bits fits any bus, and any image fits a bus of 64 bits. *)
Lemma phdr_fits data h memap : Forall is_byte data → is_64 h = false ∨ ADDR_SPACE = 2 ^ 64 → segments_fit data memap h.
Proof.
  intros Hb Hk i Hi p _ _. unfold p, phdr_view.
  pose proof (bytes_at_bytes data (phoff h + i * phentsize h) (sizeof_Phdr (is_64 h)) Hb) as Hb'.
  pose proof addr_space_range. destruct (is_64 h); cbn [p_memsz Elf32_Phdr Elf64_Phdr];
    (eapply Z.lt_le_trans; [apply fld_range, Hb'|]).
  - destruct Hk as [?| ->]; done.
  - change (8 * Z.of_nat 4) with 32. lia.
Qed.

(** C4: Restoring a program ([elf_reload]) is safe and exact.  With the configuration mapped in
    a well-formed unit, any file is either rejected with the memory untouched, or the guest's
    memory becomes what the image says: the configured ROM and RAM cleared, then every loadable
    segment that the configuration covers stored at its physical address, its file bytes
    followed by zeros up to its memory size.  No write leaves a host buffer.  One case is
    excluded, by [segments_fit]: a 64-bit image on a 32-bit bus with a segment of 4 GiB or more
    that passes the check of its place because the check cuts its size to 32 bits; such a
    segment does overrun ([oversized_segment_overruns]). *)
Theorem elf_reload_restores `{LoaderConfig} (data : list Z) (memap : MemoryAddressMapType) s
    (Hbytes : Forall is_byte data) (Hsize : zlen data < 2 ^ 64) (Hok : mem_ok s memap)
    (Hfit : ∀ h, header_wf data h → segments_fit data memap h) :
  ∃ err s', elf_reload data (zlen data) memap s = Ok (err, s') ∧ mem_ok s' memap ∧
    dynamic_map s' = dynamic_map s ∧
    ((err = STD_E_INVALID ∧ s' = s) ∨
     (err = STD_E_OK ∧ ∃ h, header_wf data h ∧ image_wf data ∧
       ∀ a, is_addr a → guest_byte s' a = reload_memory data h memap (guest_byte s) a)).
Proof.
  unfold elf_reload. destruct (image_check_decides data Hbytes Hsize) as [[-> Hw]|[-> _]];
    cbn [mbind outcome_bind std_ok negb]; [|eexists _, s; split_and!; auto].
  pose proof Hw as (h & Hh & Hp & _). pose proof (header_wf_range data Hbytes h Hh) as Hr.
  destruct (image_class data h Hh) as [-> Hk]. cbn [mbind outcome_bind]. rewrite Hk. clear Hk.
  unfold reload_class. destruct (ehdr_of_ok data h Hh) as (e & -> & He). cbn [mbind outcome_bind].
  destruct (std_ok _) eqn:Hchk; cbn [negb]; [|eexists _, s; split_and!; auto].
  pose proof Hok as [_ _ [Hrom Hram _]].
  destruct (clear_regions_ok memap (rom memap) clear_region s) as (s1 & -> & Hok1 & Hd1 & Hg1); [done..|].
  cbn [mbind outcome_bind std_ok negb]. rewrite clear_ram_filter. fold (plain_ram memap).
  destruct (clear_regions_ok memap (plain_ram memap) clear_region s1) as (s2 & -> & Hok2 & Hd2 & Hg2); [done|done| |].
  { apply Forall_forall. intros e' [Hty Hin]%list_elem_of_filter. pose proof Hok1 as [_ _ [_ Hram1 _]].
    rewrite Forall_forall in Hram1. by apply Hram1. }
  cbn [mbind outcome_bind std_ok negb].
  replace (e_phnum e) with (phnum h) by (by rewrite He). replace (e_phoff e) with (phoff h) by (by rewrite He).
  replace (e_phentsize e) with (phentsize h) by (by rewrite He).
  destruct (reload_segments_ok data h memap (Z.to_nat (phnum h)) 0 s2) as (s3 & -> & Hok3 & Hd3 & Hg3);
    [done|done|done|by apply Hfit|done|lia|destruct Hr; lia|].
  eexists _, s3. split_and!; [done|done|congruence|]. right. split; [done|]. exists h. split_and!; [done|done|].
  intros a Ha. rewrite Hg3 by done. unfold reload_memory, phdrs. rewrite Z2Nat.id by (destruct Hr; lia).
  apply place_list_ext; [|done]. intros a' Ha'. rewrite Hg2 by done. by apply clear_list_ext.
Qed.
End loader.

(** ** A section without contents

    As [SectionDemo.image], with a [.debug_line] section of type [SHT_NOBITS] whose offset
    lies past the end of the file. *)
Module NobitsDemo.
Import SectionDemo.

Definition image : list Z :=
  ehdr32 112 5 ++ names ++ [0; 109; 97; 105; 110; 0; 0; 0; 0; 0; 0; 0] ++
  (le_bytes 4 1 ++ le_bytes 4 0x1000 ++ le_bytes 4 8 ++ [2; 0; 0; 0]) ++
  shdr32 0 0 0 0 0 0 ++ shdr32 0 3 52 32 0 0 ++ shdr32 0 2 96 16 3 16 ++ shdr32 0 3 84 12 0 0 ++
  shdr32 12 8 0x100000 64 0 0.
End NobitsDemo.

(** An image can pass [elf_image_check], have its symbols loaded, and still make the probe
    of the DWARF version read outside the file: the check skips sections without file contents,
    the probe does not. *)
Theorem dwarf_probe_leaves_file :
  elf_image_check NobitsDemo.image (zlen NobitsDemo.image) = Ok STD_E_OK ∧
  ∃ st, elf_symbol_load NobitsDemo.image elf_statics_init = Ok (STD_E_OK, st) ∧
    dwarf_version_is_supported NobitsDemo.image SECTION_DWARF_LINE_NAME st = Fault OutOfBounds.
Proof. split; [reflexivity|]. eexists. split; reflexivity. Qed.

(** ** A reload on a unit with one RAM region *)

Module LoaderDemo.
#[local] Existing Instance MpuDemo.config.

Definition config : LoaderConfig := {|
  ELF_MACHINE_TYPE := 87;
  EXDEV_ENABLE := false;
  malloc_ := λ n, Some (replicate (Z.to_nat n) 0xCC);
  malloc_bitmap_ok := true;
  DEBUG_FUNC_DISABLE_DEBUG_DATA_TYPE := true;
  elf_dwarf_line_load := λ _ _, Ok STD_E_NOENT;
  elf_dwarf_abbrev_load := λ _ _, Ok STD_E_NOENT;
  elf_dwarf_info_load := λ _ _, Ok STD_E_NOENT;
  elf_dwarf_loc_load := λ _ _, Ok STD_E_NOENT;
  dwarf_build_data_type_set := λ _ _, Ok ();
|}.
#[local] Existing Instance config.

Definition region : MpuAddressRegionType :=
  mkRegion GLOBAL_MEMORY false MPU_ADDRESS_REGION_PERM_ALL 0 1024 0xFFFFFFFF (Some O) default_memory_operation.
Definition mpu : mpu_state () := mkMpu [region] 1 [] {[O := replicate 1024 7]} 1 () (-1) (-1) [].
Definition memap : MemoryAddressMapType :=
  mkMemap [] [mkMemory MemoryAddressImplType_RAM 0 1 None None false false] [].

Lemma demo_region_at i r : zget (dynamic_map mpu) i = Some r → i = 0 ∧ r = region.
Proof.
  intros Hg. pose proof (zget_range _ _ _ Hg) as Hr. unfold zlen in Hr. simpl in Hr.
  assert (i = 0) as -> by lia. injection Hg as <-. done.
Qed.

Lemma mpu_mem_ok : mem_ok mpu memap.
Proof.
  split; [split|..].
  - apply Forall_singleton. pose proof MpuDemo.space as Hsp.
    split; cbn [region r_start r_size r_mask r_data]; rewrite ?Hsp; [lia..|].
    intros _ b [= <-]. eexists. split; [reflexivity|]. done.
  - by apply Forall_singleton.
  - constructor.
  - constructor.
  - by intros i j r1 r2 Hne [-> _]%demo_region_at [-> _]%demo_region_at.
  - intros b Hb. simpl in *. by rewrite lookup_singleton_ne by lia.
  - apply Forall_singleton. simpl. intros b [= <-]. lia.
  - by intros i j r1 r2 b [-> _]%demo_region_at [-> _]%demo_region_at.
  - split; [constructor| |constructor]. apply Forall_singleton. intros _. split; [done|].
    exists 0, region, O. split_and!; done.
Qed.

Lemma reload_witness :
  ∃ err s', elf_reload demo_image (zlen demo_image) memap mpu = Ok (err, s') ∧ mem_ok s' memap ∧
    dynamic_map s' = dynamic_map mpu ∧
    ((err = STD_E_INVALID ∧ s' = mpu) ∨
     (err = STD_E_OK ∧ ∃ h, header_wf demo_image h ∧ image_wf demo_image ∧
       ∀ a, is_addr a → guest_byte s' a = reload_memory demo_image h memap (guest_byte mpu) a)).
Proof.
  apply (elf_reload_restores demo_image memap mpu demo_image_bytes); [done|exact mpu_mem_ok|].
  intros h Hh. apply phdr_fits; [exact demo_image_bytes|]. left.
  destruct Hh as (_ & _ & Hc & _ & Hv). destruct (is_64 h) eqn:Hk; [by vm_compute in Hc|done].
Defined.

(** The four file bytes, then zeros; the byte before the segment is cleared. *)
Example reload_bytes :
  match elf_reload demo_image (zlen demo_image) memap mpu with
  | Ok (STD_E_OK, s) => guest_byte s <$> seqZ 0xFF 10
  | _ => []
  end = Some <$> [0; 1; 2; 3; 4; 0; 0; 0; 0; 0].
Proof. vm_compute. reflexivity. Qed.
End LoaderDemo.
