(* ===== verification/SymbolOps.v ===== *)
(** * Symbol tables of the debugger ([src/src/lib/symbol_ops.c])

    Functions and global variables are kept in two growing tables.  An address
    is looked up through an index of symbol ids sorted by start address, built
    on demand, and through the last result.

    [qsort] with the source's comparison, a strict total order on ids, is
    [merge_sort]; a table is a list, and its reserved capacity is left out.
    The theorems show that the indexed search finds what a scan of the table
    finds, and that the remembered result never makes a lookup wrong. *)

From S2P Require Import Prelude.
From stdpp Require Import sorting.
Open Scope Z_scope.

Record DbgSymbolType := mkSymbol {
  s_name : list Z;
  s_addr : Z;
  s_size : Z;
  enter_sp : list Z;
}.

Record SymbolRangeIndex := mkIndex {
  built_count : Z;
  order : list Z;
  max_end : list Z;
}.

(** One table with its index and its last result. *)
Record symbol_table := mkTable {
  symbols : list DbgSymbolType;
  range_index : SymbolRangeIndex;
  last_id : Z;
}.

Record symbol_state := mkSymbols { symbol_func : symbol_table; symbol_gl : symbol_table }.

Definition empty_table : symbol_table := mkTable [] (mkIndex 0 [] []) (-1).
Definition symbol_init : symbol_state := mkSymbols empty_table empty_table.

Definition symbol_get_func_num (st : symbol_state) : Z := zlen (symbols (symbol_func st)).
Definition symbol_get_gl_num (st : symbol_state) : Z := zlen (symbols (symbol_gl st)).

Definition table_add (sym : DbgSymbolType) (t : symbol_table) : symbol_table :=
  mkTable (symbols t ++ [sym]) (range_index t) (last_id t).
Definition symbol_gl_add (sym : DbgSymbolType) (st : symbol_state) : symbol_state :=
  mkSymbols (symbol_func st) (table_add sym (symbol_gl st)).
Definition symbol_func_add (sym : DbgSymbolType) (st : symbol_state) : symbol_state :=
  mkSymbols (table_add sym (symbol_func st)) (symbol_gl st).

Lemma StronglySorted_lookup_lt {A} (R : relation A) l i j a b :
  StronglySorted R l → l !! i = Some a → l !! j = Some b → (i < j)%nat → R a b.
Proof.
  intros Hs. revert i j. induction Hs as [|x l Hs IH Hx]; intros i j Hi Hj Hij; [done|].
  destruct j as [|j]; [lia|]. destruct i as [|i]; simpl in *.
  - injection Hi as <-. rewrite Forall_forall in Hx. by eapply Hx, list_elem_of_lookup_2.
  - eapply IH; [done|done|lia].
Qed.

Section lookup.
Context `{AddrWidth}.
Implicit Types (table : list DbgSymbolType) (t : symbol_table) (index : SymbolRangeIndex).

Definition sym_end (s : DbgSymbolType) : Z := uaddr (s_addr s + s_size s).

(** ** The index *)

Definition start_of table (id : Z) : Z := default 0 (s_addr <$> zget table id).

Definition symbol_compare_start table (a b : Z) : Z :=
  if negb (start_of table a =? start_of table b)
  then (if start_of table a <? start_of table b then -1 else 1)
  else if a <? b then -1 else if b <? a then 1 else 0.

Definition start_le table (a b : Z) : Prop := symbol_compare_start table a b ≤ 0.
#[export] Instance start_le_dec table a b : Decision (start_le table a b).
Proof. unfold start_le. apply _. Defined.

(** [max_end[k]]: the running maximum of the ends along the order. *)
Fixpoint running_max table (m : Z) (ids : list Z) : list Z :=
  match ids with
  | [] => []
  | id :: ids' =>
      let e := default 0 (sym_end <$> zget table id) in
      let m' := if m <? e then e else m in
      m' :: running_max table m' ids'
  end.

Definition symbol_index_build table (count : Z) : SymbolRangeIndex :=
  let order := merge_sort (start_le table) (seqZ 0 count) in
  mkIndex count order (running_max table 0 order).

(** The binary search: the number of symbols that start at or below [addr].
    [fuel] bounds the number of halvings. *)
Fixpoint search_low (fuel : nat) (low high : Z) table index (addr : Z) : outcome Z :=
  match fuel with
  | O => Ok low
  | S fuel' =>
      if low <? high then
        let middle := low + (high - low) / 2 in
        id ← oob (zget (order index) middle);
        sym ← oob (zget table id);
        if s_addr sym <=? addr then search_low fuel' (middle + 1) high table index addr
        else search_low fuel' low middle table index addr
      else Ok low
  end.

(** The backward scan from position [k]. *)
Fixpoint scan_back (k : nat) (found : Z) table index (addr : Z) : outcome Z :=
  match k with
  | O => Ok found
  | S k' =>
      e ← oob (zget (max_end index) (Z.of_nat k'));
      if e <=? addr then Ok found
      else
        id ← oob (zget (order index) (Z.of_nat k'));
        sym ← oob (zget table id);
        let found := if (addr <? sym_end sym) && ((found <? 0) || (id <? u32 found)) then id else found in
        scan_back k' found table index addr
  end.

Definition symbol_index_find index table (count addr : Z) : outcome (Z * SymbolRangeIndex) :=
  let index := if built_count index =? count then index else symbol_index_build table count in
  low ← search_low (S (Z.to_nat count)) 0 count table index addr;
  found ← scan_back (Z.to_nat low) (-1) table index addr;
  Ok (found, index).

(** ** Lookups *)

(** [symbol_pc2funcid] and [symbol_addr2glid]: the id, its address, the new table. *)
Definition table_lookup (a : Z) t : outcome (Z * option Z * symbol_table) :=
  hit ←
    (if 0 <=? last_id t then
       sym ← oob (zget (symbols t) (last_id t));
       Ok (if (s_addr sym <=? a) && (a <? sym_end sym) then Some (s_addr sym) else None)
     else Ok None);
  match hit with
  | Some addr => Ok (last_id t, Some addr, t)
  | None =>
      '(found, index) ← symbol_index_find (range_index t) (symbols t) (zlen (symbols t)) a;
      if 0 <=? found then
        sym ← oob (zget (symbols t) found);
        Ok (found, Some (s_addr sym), mkTable (symbols t) index found)
      else Ok (found, None, mkTable (symbols t) index (last_id t))
  end.

Definition symbol_pc2funcid (pc : Z) (st : symbol_state) : outcome (Z * option Z * symbol_state) :=
  '(id, a, t) ← table_lookup pc (symbol_func st); Ok (id, a, mkSymbols t (symbol_gl st)).
Definition symbol_addr2glid (addr : Z) (st : symbol_state) : outcome (Z * option Z * symbol_state) :=
  '(id, a, t) ← table_lookup addr (symbol_gl st); Ok (id, a, mkSymbols (symbol_func st) t).

(** A scan by name: the first id with that name. *)
Fixpoint find_name (i : Z) (name : list Z) (len : Z) table : option (Z * DbgSymbolType) :=
  match table with
  | [] => None
  | s :: table' =>
      if negb (len =? zlen (s_name s)) then find_name (i + 1) name len table'
      else if negb (bool_decide (take (Z.to_nat len) name = take (Z.to_nat len) (s_name s)))
      then find_name (i + 1) name len table'
      else Some (i, s)
  end.

(** The result, and the address and size stored through the caller's pointers. *)
Definition symbol_get_func (name : list Z) (len : Z) (st : symbol_state) : Z * option (Z * Z) :=
  match find_name 0 name len (symbols (symbol_func st)) with
  | Some (_, s) => (0, Some (s_addr s, s_size s))
  | None => (-1, None)
  end.
Definition symbol_get_gl (name : list Z) (len : Z) (st : symbol_state) : Z * option (Z * Z) :=
  match find_name 0 name len (symbols (symbol_gl st)) with
  | Some (i, s) => (i, Some (s_addr s, s_size s))
  | None => (-1, None)
  end.

Fixpoint scan_pc (pc : Z) table : option (list Z) :=
  match table with
  | [] => None
  | s :: table' =>
      if pc <? s_addr s then scan_pc pc table'
      else if sym_end s <=? pc then scan_pc pc table'
      else Some (s_name s)
  end.
Definition symbol_pc2func (pc : Z) (st : symbol_state) : option (list Z) :=
  scan_pc pc (symbols (symbol_func st)).

Definition symbol_funcid2funcname (id : Z) (st : symbol_state) : outcome (list Z) :=
  if id <? 0 then Ok [117; 110; 107; 110; 111; 119; 110]
  else s ← oob (zget (symbols (symbol_func st)) id); Ok (s_name s).
Definition symbol_funcid2funcaddr (id : Z) (st : symbol_state) : outcome Z :=
  s ← oob (zget (symbols (symbol_func st)) id); Ok (s_addr s).
Definition symbol_funcid2funcsize (id : Z) (st : symbol_state) : outcome Z :=
  s ← oob (zget (symbols (symbol_func st)) id); Ok (s_size s).
Definition symbol_glid2glname (id : Z) (st : symbol_state) : outcome (list Z) :=
  s ← oob (zget (symbols (symbol_gl st)) id); Ok (s_name s).
Definition symbol_glid2gladdr (id : Z) (st : symbol_state) : outcome Z :=
  s ← oob (zget (symbols (symbol_gl st)) id); Ok (s_addr s).

(** The stack pointer a function was entered with, per core. *)
Definition symbol_set_pc (funcid core_id sp : Z) (st : symbol_state) : outcome symbol_state :=
  let t := symbol_func st in
  s ← oob (zget (symbols t) funcid);
  sps ← oob (zset (enter_sp s) core_id sp);
  Ok (mkSymbols
        (mkTable (zput (symbols t) funcid (mkSymbol (s_name s) (s_addr s) (s_size s) sps))
           (range_index t) (last_id t)) (symbol_gl st)).
Definition symbol_get_entered_sp (funcid core_id : Z) (st : symbol_state) : outcome Z :=
  s ← oob (zget (symbols (symbol_func st)) funcid);
  oob (zget (enter_sp s) core_id).

(** The candidates printed for a prefix: at most [show_num] of them. *)
Fixpoint candidates (name : list Z) (show_num : nat) table : list (list Z) :=
  match table with
  | [] => []
  | s :: table' =>
      if zlen (s_name s) <? zlen name then candidates name show_num table'
      else if negb (bool_decide (take (length name) (s_name s) = name)) then candidates name show_num table'
      else
        match show_num with
        | O => []
        | S n => s_name s :: candidates name n table'
        end
  end.
Definition symbol_print_gl (name : list Z) (show_num : nat) (st : symbol_state) : list (list Z) :=
  candidates name show_num (symbols (symbol_gl st)).
Definition symbol_print_func (name : list Z) (show_num : nat) (st : symbol_state) : list (list Z) :=
  candidates name show_num (symbols (symbol_func st)).

(** ** Reference: a scan of the table *)

Definition contains (a : Z) (s : DbgSymbolType) : bool := (s_addr s <=? a) && (a <? sym_end s).

(** The lowest id whose range contains the address. *)
Definition lowest_id table (a id : Z) : Prop :=
  (∃ s, zget table id = Some s ∧ contains a s = true) ∧
  ∀ j s, j < id → zget table j = Some s → contains a s = false.

Definition find_spec table (a found : Z) : Prop :=
  (found = -1 ∧ ∀ j s, zget table j = Some s → contains a s = false) ∨
  (0 ≤ found ∧ lowest_id table a found).

Definition index_ok index table : Prop := index = symbol_index_build table (zlen table).

(** The order sorts the ids by start address. *)
Lemma start_le_spec table a b :
  start_le table a b ↔ start_of table a < start_of table b ∨ start_of table a = start_of table b ∧ a ≤ b.
Proof. unfold start_le, symbol_compare_start. repeat case_match; lia. Qed.

#[export] Instance start_le_trans table : Transitive (start_le table).
Proof. intros a b c. rewrite !start_le_spec. lia. Qed.
#[export] Instance start_le_total table : Total (start_le table).
Proof. intros a b. rewrite !start_le_spec. lia. Qed.

Section sorted.
Context table (Hlen : zlen table < 2 ^ 31).
Let index := symbol_index_build table (zlen table).

Lemma order_perm : order index ≡ₚ seqZ 0 (zlen table).
Proof. apply merge_sort_Permutation. Qed.

Lemma order_len : zlen (order index) = zlen table.
Proof. unfold zlen at 1. rewrite order_perm, length_seqZ. pose proof (zlen_nonneg table). lia. Qed.

Lemma order_in k id : zget (order index) k = Some id → ∃ s, zget table id = Some s ∧ 0 ≤ id < zlen table.
Proof.
  intros Hk%zget_elem. rewrite order_perm in Hk. apply elem_of_seqZ in Hk.
  destruct (zget_is_Some table id) as [s Hs]; [lia|]. exists s. split; [done|lia].
Qed.

Lemma order_all id s : zget table id = Some s → ∃ k, zget (order index) k = Some id.
Proof.
  intros Hid. assert (id ∈ order index) as Hin.
  { rewrite order_perm. apply elem_of_seqZ. pose proof (zget_range _ _ _ Hid). lia. }
  apply list_elem_of_lookup_1 in Hin as [k Hk]. exists (Z.of_nat k). by rewrite zget_lookup.
Qed.

Lemma order_sorted i j a b : 0 ≤ i ≤ j → zget (order index) i = Some a → zget (order index) j = Some b →
  start_of table a ≤ start_of table b.
Proof.
  intros Hij Hi Hj. destruct (decide (i = j)) as [<-|Hne]; [rewrite Hi in Hj; injection Hj as <-; lia|].
  unfold zget in *. destruct (i <? 0) eqn:?, (j <? 0) eqn:?; try lia.
  pose proof (StronglySorted_merge_sort (start_le table) (seqZ 0 (zlen table))) as Hs.
  change (order index) with (merge_sort (start_le table) (seqZ 0 (zlen table))) in Hi, Hj.
  assert (start_le table a b) as Hab%start_le_spec; [|lia].
  eapply (StronglySorted_lookup_lt (start_le table)); [exact Hs|exact Hi|exact Hj|lia].
Qed.

Lemma running_max_spec m ids k id : ids !! k = Some id → (∃ me, running_max table m ids !! k = Some me) ∧
  (∀ me, running_max table m ids !! k = Some me → m ≤ me ∧
    ∀ i id' s, (i ≤ k)%nat → ids !! i = Some id' → zget table id' = Some s → sym_end s ≤ me).
Proof.
  revert m k. induction ids as [|x ids IH]; intros m k Hk; [done|]. cbn [running_max].
  set (e' := default 0 (sym_end <$> zget table x)). set (m' := if m <? e' then e' else m).
  assert (Hm' : m ≤ m' ∧ e' ≤ m') by (unfold m'; case_match; lia).
  destruct k as [|k]; simpl in *.
  - split; [by eexists|]. intros me [= <-]. split; [lia|]. intros i id' s Hi Hi' Hs.
    destruct i; [|lia]. injection Hi' as <-. unfold e' in Hm'. rewrite Hs in Hm'. simpl in Hm'. lia.
  - destruct (IH m' k Hk) as (Hex & Hall). split; [done|]. intros me Hme.
    destruct (Hall me Hme) as [Hle Hb]. split; [lia|]. intros i id' s Hi Hi' Hs. destruct i as [|i]; simpl in *.
    + injection Hi' as <-. unfold e' in Hm'. rewrite Hs in Hm'. simpl in Hm'. lia.
    + eapply (Hb i); [lia|done|done].
Qed.

Lemma max_end_spec k : 0 ≤ k < zlen table → ∃ me, zget (max_end index) k = Some me ∧
  ∀ i id s, 0 ≤ i ≤ k → zget (order index) i = Some id → zget table id = Some s → sym_end s ≤ me.
Proof.
  intros Hk. destruct (zget_is_Some (order index) k) as [id Hid]; [by rewrite order_len|].
  unfold zget in *. destruct (k <? 0) eqn:?; [lia|].
  destruct (running_max_spec 0 (order index) (Z.to_nat k) id Hid) as ((me & Hme) & Hall).
  exists me. split; [done|]. intros i id' s Hi Hi' Hs. destruct (i <? 0) eqn:?; [lia|].
  eapply (proj2 (Hall me Hme) (Z.to_nat i)); [lia|done|exact Hs].
Qed.

(** ** The binary search *)

Lemma search_low_ok addr fuel low high : 0 ≤ low ≤ high → high ≤ zlen table → high - low < Z.of_nat fuel →
  (∀ k id, k < low → zget (order index) k = Some id → start_of table id ≤ addr) →
  (∀ k id, high ≤ k → zget (order index) k = Some id → addr < start_of table id) →
  ∃ l, search_low fuel low high table index addr = Ok l ∧ 0 ≤ l ≤ zlen table ∧
    (∀ k id, k < l → zget (order index) k = Some id → start_of table id ≤ addr) ∧
    (∀ k id, l ≤ k → zget (order index) k = Some id → addr < start_of table id).
Proof.
  revert low high. induction fuel as [|fuel IH]; intros low high Hlh Hh Hf Hlo Hhi; [lia|].
  cbn [search_low]. destruct (Z.ltb_spec low high) as [Hlt|Hge].
  2: { exists low. assert (low = high) as -> by lia. split_and!; [done|lia|lia|done|done]. }
  assert (Hm : low ≤ low + (high - low) / 2 < high) by zdiv. set (mid := low + (high - low) / 2) in *.
  destruct (zget_is_Some (order index) mid) as [id Hid]; [rewrite order_len; lia|].
  rewrite Hid. cbn [oob mbind outcome_bind]. destruct (order_in mid id Hid) as (sym & Hsym & _).
  rewrite Hsym. cbn [oob mbind outcome_bind].
  assert (Hst : start_of table id = s_addr sym) by (unfold start_of; by rewrite Hsym).
  destruct (Z.leb_spec (s_addr sym) addr) as [Hle|Hgt].
  - apply IH; [lia|lia|lia| |done]. intros k id' Hk Hid'. pose proof (zget_range _ _ _ Hid').
    pose proof (order_sorted k mid id' id ltac:(lia) Hid' Hid). lia.
  - apply IH; [lia|lia|lia|done|]. intros k id' Hk Hid'.
    pose proof (order_sorted mid k id id' ltac:(lia) Hid Hid'). lia.
Qed.

(** ** The backward scan *)

(** [found] is the lowest id among positions [k ..] that contains [addr]. *)
Definition best_from (addr k found : Z) : Prop :=
  (found = -1 ∨ 0 ≤ found ∧ ∃ s, zget table found = Some s ∧ contains addr s = true) ∧
  ∀ i id s, k ≤ i → zget (order index) i = Some id → zget table id = Some s → contains addr s = true →
    0 ≤ found ≤ id.

Lemma scan_back_ok addr l k found : Z.of_nat k ≤ l ≤ zlen table →
  (∀ i id, i < l → zget (order index) i = Some id → start_of table id ≤ addr) →
  best_from addr (Z.of_nat k) found →
  ∃ f, scan_back k found table index addr = Ok f ∧ best_from addr 0 f.
Proof.
  intros Hkl Hlow. revert found Hkl. induction k as [|k IH]; intros found Hkl Hb; cbn [scan_back]; [by exists found|].
  destruct (max_end_spec (Z.of_nat k) ltac:(lia)) as (me & Hme & Hub). rewrite Hme. cbn [oob mbind outcome_bind].
  destruct Hb as [Hf Hall]. destruct (Z.leb_spec me addr) as [Hle|Hgt].
  { exists found. split; [done|]. split; [done|]. intros i id s Hi Hid Hs Hc.
    destruct (decide (Z.of_nat k < i)); [apply (Hall i id s); [lia|done..]|].
    pose proof (Hub i id s ltac:(lia) Hid Hs). unfold contains in Hc. lia. }
  destruct (zget_is_Some (order index) (Z.of_nat k)) as [id Hid]; [rewrite order_len; lia|].
  rewrite Hid. cbn [oob mbind outcome_bind]. destruct (order_in _ id Hid) as (sym & Hsym & Hidr).
  rewrite Hsym. cbn [oob mbind outcome_bind].
  assert (Hst : s_addr sym ≤ addr).
  { pose proof (Hlow (Z.of_nat k) id ltac:(lia) Hid) as Hs. unfold start_of in Hs. by rewrite Hsym in Hs. }
  assert (Hfr : found = -1 ∨ 0 ≤ found < zlen table).
  { destruct Hf as [->|(? & s & Hs & _)]; [by left|right]. apply zget_range in Hs. lia. }
  set (hit := (addr <? sym_end sym) && ((found <? 0) || (id <? u32 found))).
  apply IH; [lia|]. assert (Hu : 0 ≤ found → u32 found = found) by (intros; apply wrap_id; unfold in_width; lia).
  destruct hit eqn:Hh; unfold hit in Hh; split.
  - right. split; [lia|]. exists sym. split; [done|]. unfold contains. lia.
  - intros i id' s Hi Hid' Hs Hc. destruct (decide (i = Z.of_nat k)) as [->|]; [rewrite Hid in Hid'; injection Hid' as <-; lia|].
    pose proof (Hall i id' s ltac:(lia) Hid' Hs Hc). lia.
  - done.
  - intros i id' s Hi Hid' Hs Hc. destruct (decide (i = Z.of_nat k)) as [->|]; [|by apply (Hall i id' s); [lia|..]].
    rewrite Hid in Hid'. injection Hid' as <-. rewrite Hsym in Hs. injection Hs as <-. unfold contains in Hc. lia.
Qed.
End sorted.

Lemma index_find_ok index table addr : zlen table < 2 ^ 31 →
  (built_count index = zlen table → index_ok index table) →
  ∃ f index', symbol_index_find index table (zlen table) addr = Ok (f, index') ∧
    index_ok index' table ∧ find_spec table addr f.
Proof.
  intros Hlen Hidx. unfold symbol_index_find.
  assert (Hb : (if built_count index =? zlen table then index else symbol_index_build table (zlen table))
    = symbol_index_build table (zlen table)) by (destruct (Z.eqb_spec (built_count index) (zlen table)); [by apply Hidx|done]).
  rewrite Hb. set (idx := symbol_index_build table (zlen table)).
  destruct (search_low_ok table addr (S (Z.to_nat (zlen table))) 0 (zlen table)) as (l & Hl & Hlr & Hlo & Hhi).
  { pose proof (zlen_nonneg table). lia. }
  { lia. }
  { lia. }
  { intros k id Hk Hid. apply zget_range in Hid. lia. }
  { intros k id Hk Hid. apply zget_range in Hid. rewrite order_len in Hid. lia. }
  fold idx in Hl. rewrite Hl. cbn [mbind outcome_bind].
  destruct (scan_back_ok table Hlen addr l (Z.to_nat l) (-1)) as (f & Hf & Hbest & Hall); [lia|done| |].
  { split; [by left|]. intros i id s Hi Hid Hs Hc. pose proof (Hhi i id ltac:(lia) Hid) as Hgt.
    unfold start_of in Hgt. rewrite Hs in Hgt. simpl in Hgt. unfold contains in Hc. lia. }
  fold idx in Hf. rewrite Hf. cbn [mbind outcome_bind]. exists f, idx. split_and!; [done|done|].
  assert (Hmin : ∀ j s, zget table j = Some s → contains addr s = true → 0 ≤ f ≤ j).
  { intros j s Hj Hc. destruct (order_all table j s Hj) as (k & Hk).
    eapply (Hall k); [apply zget_range in Hk; lia|done|done|done]. }
  destruct Hbest as [->|(H0 & Hs)]; [left|right].
  - split; [done|]. intros j s Hj. apply not_true_is_false. intros Hc. specialize (Hmin j s Hj Hc). lia.
  - split; [done|]. split; [done|]. intros j s Hj Hg. apply not_true_is_false. intros Hc.
    specialize (Hmin j s Hg Hc). lia.
Qed.

(** ** Tables *)

(** The index is that of a prefix of the table; the last result is a symbol. *)
Record table_wf t : Prop := {
  tw_len : zlen (symbols t) < 2 ^ 31;
  tw_index : ∃ n, 0 ≤ n ≤ zlen (symbols t) ∧ built_count (range_index t) = n ∧
    range_index t = symbol_index_build (take (Z.to_nat n) (symbols t)) n;
  tw_last : last_id t = -1 ∨ 0 ≤ last_id t < zlen (symbols t);
}.

Lemma empty_table_wf : table_wf empty_table.
Proof. split; [done| |by left]. exists 0. by split_and!. Qed.

Lemma table_add_wf sym t : table_wf t → zlen (symbols t) + 1 < 2 ^ 31 → table_wf (table_add sym t).
Proof.
  intros [Hl (n & Hn & Hb & Hi) Hlast] Hlt.
  assert (Hz : zlen (symbols t ++ [sym]) = zlen (symbols t) + 1) by (rewrite zlen_app; done).
  split; simpl; rewrite ?Hz; [done| |lia]. exists n. split_and!; [lia|lia|done|].
  rewrite take_app_le by (unfold zlen in Hn; lia). done.
Qed.

Lemma index_current t : table_wf t → built_count (range_index t) = zlen (symbols t) →
  index_ok (range_index t) (symbols t).
Proof.
  intros [_ (n & Hn & Hb & Hi) _] Hc. unfold index_ok. rewrite Hi, <- Hc, Hb.
  rewrite take_ge; [done|]. unfold zlen in Hc. lia.
Qed.

Lemma index_table_wf t index id : zlen (symbols t) < 2 ^ 31 → index_ok index (symbols t) →
  id = -1 ∨ 0 ≤ id < zlen (symbols t) → table_wf (mkTable (symbols t) index id).
Proof.
  intros Hl Hi Hid. split; simpl; [done| |done]. exists (zlen (symbols t)).
  split_and!; [apply zlen_nonneg|lia|by rewrite Hi|]. rewrite take_ge by (unfold zlen; lia). done.
Qed.

(** The result of a lookup, as the source documents it. *)
Definition lookup_spec t (addr id : Z) (a : option Z) : Prop :=
  (id = -1 ∧ a = None ∧ ∀ j s, zget (symbols t) j = Some s → contains addr s = false) ∨
  (∃ s, zget (symbols t) id = Some s ∧ contains addr s = true ∧ a = Some (s_addr s) ∧
    (id = last_id t ∨ lowest_id (symbols t) addr id)).

Lemma table_lookup_ok addr t : table_wf t →
  ∃ id a t', table_lookup addr t = Ok (id, a, t') ∧ table_wf t' ∧ symbols t' = symbols t ∧
    lookup_spec t addr id a ∧ (0 ≤ id → last_id t' = id).
Proof.
  intros Hw. pose proof Hw as [Hlen _ Hlast]. unfold table_lookup.
  destruct (index_find_ok (range_index t) (symbols t) addr Hlen (index_current t Hw))
    as (f & index' & Hf & Hok & Hspec).
  assert (Hmiss : ∃ id a t',
    ('(found, index) ← symbol_index_find (range_index t) (symbols t) (zlen (symbols t)) addr;
     if 0 <=? found then
       sym ← oob (zget (symbols t) found);
       Ok (found, Some (s_addr sym), mkTable (symbols t) index found)
     else Ok (found, None, mkTable (symbols t) index (last_id t))) = Ok (id, a, t') ∧
    table_wf t' ∧ symbols t' = symbols t ∧ lookup_spec t addr id a ∧ (0 ≤ id → last_id t' = id)).
  { rewrite Hf. cbn [mbind outcome_bind]. destruct Hspec as [[-> Hn]|[H0 [(s & Hs & Hc) Hmin]]].
    - eexists _, _, _. split_and!; [done|by apply index_table_wf|done|by left|done].
    - replace (0 <=? f) with true by lia. rewrite Hs. cbn [oob mbind outcome_bind].
      pose proof (zget_range _ _ _ Hs). eexists _, _, _.
      split_and!; [done|apply index_table_wf; [done..|lia]|done| |done].
      right. exists s. split_and!; [done..|]. right. split; eauto. }
  destruct (Z.leb_spec 0 (last_id t)) as [H0|H0]; [|exact Hmiss].
  destruct (zget_is_Some (symbols t) (last_id t)) as [s Hs]; [lia|]. rewrite Hs. cbn [oob mbind outcome_bind].
  destruct (_ && _) eqn:Hc; [|exact Hmiss].
  eexists _, _, t. split_and!; [done..| |done]. right. exists s. by split_and!; [..|left].
Qed.

Definition symbols_wf (st : symbol_state) : Prop := table_wf (symbol_func st) ∧ table_wf (symbol_gl st).

(** Address lookup through the sorted index agrees with a scan of the table: for any index
    that is current or of another size, the search returns the lowest id whose range contains
    the address, or -1 when no range does, and it leaves a current index behind. *)
Theorem symbol_index_find_lowest (index : SymbolRangeIndex) table (addr : Z)
    (Hlen : zlen table < 2 ^ 31) (Hidx : built_count index = zlen table → index_ok index table) :
  ∃ f index', symbol_index_find index table (zlen table) addr = Ok (f, index') ∧
    index_ok index' table ∧
    ((f = -1 ∧ ∀ j s, zget table j = Some s → contains addr s = false) ∨
     (0 ≤ f ∧ (∃ s, zget table f = Some s ∧ contains addr s = true) ∧
       ∀ j s, j < f → zget table j = Some s → contains addr s = false)).
Proof. by apply index_find_ok. Qed.

(** Whatever was looked up before, looking up a program counter or a data address returns a
    symbol whose range contains it, either the last result or the lowest such id, or -1
    exactly when no symbol contains it; the tables stay well formed. *)
Theorem symbol_lookup_documented (a : Z) (st : symbol_state) (Hst : symbols_wf st) :
  (∃ id p st', symbol_pc2funcid a st = Ok (id, p, st') ∧ symbols_wf st' ∧
    symbols (symbol_func st') = symbols (symbol_func st) ∧ symbol_gl st' = symbol_gl st ∧
    lookup_spec (symbol_func st) a id p) ∧
  (∃ id p st', symbol_addr2glid a st = Ok (id, p, st') ∧ symbols_wf st' ∧
    symbols (symbol_gl st') = symbols (symbol_gl st) ∧ symbol_func st' = symbol_func st ∧
    lookup_spec (symbol_gl st) a id p).
Proof.
  destruct Hst as [Hf Hg]. split.
  - destruct (table_lookup_ok a (symbol_func st) Hf) as (id & p & t' & Hl & Hw & Hs & Hsp & _).
    unfold symbol_pc2funcid. rewrite Hl. cbn [mbind outcome_bind]. eexists _, _, _. by split_and!.
  - destruct (table_lookup_ok a (symbol_gl st) Hg) as (id & p & t' & Hl & Hw & Hs & Hsp & _).
    unfold symbol_addr2glid. rewrite Hl. cbn [mbind outcome_bind]. eexists _, _, _. by split_and!.
Qed.
End lookup.

(** ** Three overlapping functions *)

Module SymbolDemo.
#[local] Existing Instance addr_width_32.
Definition table : list DbgSymbolType :=
  [mkSymbol [109] 0x200 0x40 [0]; mkSymbol [102] 0x100 0x200 [0]; mkSymbol [103] 0x100 0x10 [0]].
Definition state : symbol_state :=
  foldr symbol_func_add symbol_init (reverse table).

Lemma state_wf : symbols_wf state.
Proof.
  split; [|apply empty_table_wf]. repeat (apply table_add_wf; [|done]). apply empty_table_wf.
Qed.

Lemma index_find_witness :
  ∃ f index', symbol_index_find (mkIndex 0 [] []) table (zlen table) 0x108 = Ok (f, index') ∧
    index_ok index' table ∧
    ((f = -1 ∧ ∀ j s, zget table j = Some s → contains 0x108 s = false) ∨
     (0 ≤ f ∧ (∃ s, zget table f = Some s ∧ contains 0x108 s = true) ∧
       ∀ j s, j < f → zget table j = Some s → contains 0x108 s = false)).
Proof. apply (symbol_index_find_lowest (mkIndex 0 [] []) table 0x108); [done|]. intros [=]. Defined.

(** 0x210 is in the first two; 0x108 in the last two; 0x300 in none. *)
Example index_find_values :
  (λ a, fst <$> symbol_index_find (mkIndex 0 [] []) table 3 a) <$> [0x210; 0x108; 0x300]
  = [Ok 0; Ok 1; Ok (-1)].
Proof. reflexivity. Qed.

Lemma lookup_witness :
  (∃ id p st', symbol_pc2funcid 0x108 state = Ok (id, p, st') ∧ symbols_wf st' ∧
    symbols (symbol_func st') = symbols (symbol_func state) ∧ symbol_gl st' = symbol_gl state ∧
    lookup_spec (symbol_func state) 0x108 id p) ∧
  (∃ id p st', symbol_addr2glid 0x108 state = Ok (id, p, st') ∧ symbols_wf st' ∧
    symbols (symbol_gl st') = symbols (symbol_gl state) ∧ symbol_func st' = symbol_func state ∧
    lookup_spec (symbol_gl state) 0x108 id p).
Proof. apply (symbol_lookup_documented 0x108 state state_wf). Defined.
End SymbolDemo.
