(* ===== verification/CpuControl.v ===== *)
(** * Debugger control of the CPU ([src/src/debugger/executor/cpu_control/dbg_cpu_control.c])

    The state the debugger keeps about the running program, one part per section:
    break points, data watch points, the continue timer, the debugged core and the
    debug mode, the function log of each core, the stack frames of each stack
    variable, the access statistics of each global variable and the profile.

    Symbol lookups go through [SymbolOps]; the clock, the current core and its
    stack pointer are arguments.  Printing source lines in an editor is left out. *)

From S2P Require Import Prelude SymbolOps.
Open Scope Z_scope.

(** ** Break points *)

Inductive BreakPointEumType := BREAK_POINT_TYPE_FOREVER | BREAK_POINT_TYPE_ONLY_ONCE.
#[export] Instance break_type_eq_dec : EqDecision BreakPointEumType.
Proof. solve_decision. Defined.

Definition DBG_CPU_CONTROL_BREAK_SETSIZE : Z := 128.

Record DbgCpuCtrlBreakPointType := mkBreak { b_is_set : bool; b_type : BreakPointEumType; b_addr : Z }.

(** The counter is a signed [int]. *)
Record break_state := mkBreaks { break_points : list DbgCpuCtrlBreakPointType; break_points_num : Z }.

(** Slot 0 holds a permanent break point at address 0, which the counter does not count. *)
Definition break_init : break_state :=
  mkBreaks (mkBreak true BREAK_POINT_TYPE_FOREVER 0 ::
            replicate 127 (mkBreak false BREAK_POINT_TYPE_FOREVER 0)) 0.

Fixpoint find_index {A} (i : Z) (l : list A) (p : A → bool) : option (Z * A) :=
  match l with
  | [] => None
  | x :: l' => if p x then Some (i, x) else find_index (i + 1) l' p
  end.

Definition search_free_break_point_space (st : break_state) : option (Z * DbgCpuCtrlBreakPointType) :=
  find_index 0 (break_points st) (λ b, negb (b_is_set b)).
Definition search_break_point (addr : Z) (st : break_state) : option (Z * DbgCpuCtrlBreakPointType) :=
  find_index 0 (break_points st) (λ b, b_is_set b && (b_addr b =? addr)).
Definition search_break_point_with_type (addr : Z) (type : BreakPointEumType) (st : break_state)
    : option (Z * DbgCpuCtrlBreakPointType) :=
  find_index 0 (break_points st) (λ b, b_is_set b && bool_decide (b_type b = type) && (b_addr b =? addr)).

Definition cpuctrl_get_break (index : Z) (st : break_state) : option Z :=
  if DBG_CPU_CONTROL_BREAK_SETSIZE <=? index then None
  else b ← zget (break_points st) index; if b_is_set b then Some (b_addr b) else None.

Definition cpuctrl_is_break_point (addr : Z) (st : break_state) : bool :=
  if 0 <? break_points_num st then
    match search_break_point addr st with Some _ => true | None => false end
  else
    match zget (break_points st) 0 with Some b => b_addr b =? addr | None => false end.

Definition cpuctrl_set_break (addr : Z) (type : BreakPointEumType) (st : break_state) : bool * break_state :=
  match search_break_point_with_type addr type st with
  | Some _ => (true, st)
  | None =>
      match search_free_break_point_space st with
      | Some (i, _) =>
          (true, mkBreaks (zput (break_points st) i (mkBreak true type addr))
                   (if decide (type = BREAK_POINT_TYPE_ONLY_ONCE) then break_points_num st
                    else break_points_num st + 1))
      | None => (false, st)
      end
  end.

(** The index is not checked against the size of the table. *)
Definition cpuctrl_del_break (index : Z) (st : break_state) : outcome (bool * break_state) :=
  if 0 <? index then
    b ← oob (zget (break_points st) index);
    let num := if b_is_set b then break_points_num st - 1 else break_points_num st in
    Ok (true, mkBreaks (zput (break_points st) index (mkBreak false (b_type b) (b_addr b))) num)
  else Ok (false, st).

Fixpoint del_breaks (n : nat) (i : Z) (type : BreakPointEumType) (st : break_state) : outcome break_state :=
  match n with
  | O => Ok st
  | S n' =>
      b ← oob (zget (break_points st) i);
      st ← (if decide (b_type b = type) then '(_, st) ← cpuctrl_del_break i st; Ok st else Ok st);
      del_breaks n' (i + 1) type st
  end.

Definition cpuctrl_del_all_break (type : BreakPointEumType) (st : break_state) : outcome break_state :=
  st ← del_breaks (Z.to_nat DBG_CPU_CONTROL_BREAK_SETSIZE) 0 type st;
  Ok (if decide (type = BREAK_POINT_TYPE_ONLY_ONCE) then st else mkBreaks (break_points st) 0).

(** ** Data watch points *)

Inductive DataWatchPointEumType :=
  | DATA_WATCH_POINT_TYPE_READ | DATA_WATCH_POINT_TYPE_WRITE | DATA_WATCH_POINT_TYPE_RW.
#[export] Instance watch_type_eq_dec : EqDecision DataWatchPointEumType.
Proof. solve_decision. Defined.

Definition DBG_CPU_CONTROL_WATCH_DATA_SETSIZE : Z := 128.

Record DbgCpuCtrlDataWatchType := mkWatch {
  w_is_set : bool; w_type : DataWatchPointEumType; w_addr : Z; w_size : Z;
}.
Definition watch_state := list DbgCpuCtrlDataWatchType.
Definition watch_init : watch_state := replicate 128 (mkWatch false DATA_WATCH_POINT_TYPE_READ 0 0).

(** The search of [cpuctrl_is_break_read_access] and [cpuctrl_is_break_write_access]:
    [skip] is the type the access does not trigger.  The arithmetic is that of [uint32],
    except for [access_addr], which has the width of an address. *)
Definition watch_hit (skip : DataWatchPointEumType) (access_addr access_end : Z) (w : DbgCpuCtrlDataWatchType) : bool :=
  w_is_set w && negb (bool_decide (w_type w = skip)) &&
  negb (access_end <=? w_addr w) && negb (u32 (w_addr w + w_size w) <=? access_addr).

Definition break_access (skip : DataWatchPointEumType) (access_addr size : Z) (ws : watch_state) : Z :=
  match find_index 0 ws (watch_hit skip access_addr (u32 (access_addr + size))) with
  | Some (i, _) => i
  | None => -1
  end.

Definition cpuctrl_get_data_watch_point (index : Z) (ws : watch_state)
    : option (Z * Z * DataWatchPointEumType) :=
  if DBG_CPU_CONTROL_WATCH_DATA_SETSIZE <=? index then None
  else w ← zget ws index; if w_is_set w then Some (w_addr w, w_size w, w_type w) else None.

Definition cpuctrl_set_data_watch (type : DataWatchPointEumType) (addr size : Z) (ws : watch_state)
    : bool * watch_state :=
  match find_index 0 ws (λ w, w_is_set w && (w_addr w =? addr)) with
  | Some (i, _) => (true, zput ws i (mkWatch true type addr size))
  | None =>
      match find_index 0 ws (λ w, negb (w_is_set w)) with
      | Some (i, _) => (true, zput ws i (mkWatch true type addr size))
      | None => (false, ws)
      end
  end.

Definition cpuctrl_del_data_watch_point (delno : Z) (ws : watch_state) : bool * watch_state :=
  if DBG_CPU_CONTROL_WATCH_DATA_SETSIZE <=? delno then (false, ws)
  else
    match zget ws delno with
    | Some w => (true, zput ws delno (mkWatch false (w_type w) (w_addr w) (w_size w)))
    | None => (true, ws)
    end.

Definition cpuctrl_del_all_data_watch_points (ws : watch_state) : watch_state :=
  foldl (λ ws i, snd (cpuctrl_del_data_watch_point i ws)) ws (seqZ 0 DBG_CPU_CONTROL_WATCH_DATA_SETSIZE).

(** ** Continue timer, debugged core, debug mode *)

Record DbgCpuContType := mkCont { is_timeout : bool; cont_clocks : Z }.
Record DbgCpuStoppedCoreType := mkStopped { is_stopped : bool; stopped_core_id : Z }.

Inductive DbgCpuctrlDbgModeType :=
  | DBG_CPUCTRL_DBG_MODE_NONE | DBG_CPUCTRL_DBG_MODE_NORMAL | DBG_CPUCTRL_DBG_MODE_FORCE.
#[export] Instance dbg_mode_eq_dec : EqDecision DbgCpuctrlDbgModeType.
Proof. solve_decision. Defined.

Record run_state := mkRun {
  dbg_cpu_cont : list DbgCpuContType;
  dbg_cpu_stopped_core : DbgCpuStoppedCoreType;
  dbg_cpuctrl_dbg_mode : DbgCpuctrlDbgModeType;
  dbg_cpu_debug_mode : list bool;
}.
Definition run_init (cores : nat) : run_state :=
  mkRun (replicate cores (mkCont false 0)) (mkStopped false 0) DBG_CPUCTRL_DBG_MODE_NORMAL
    (replicate cores false).

Definition dbg_cpu_debug_mode_set (core_id : Z) (mode : bool) (st : run_state) : outcome run_state :=
  l ← oob (zset (dbg_cpu_debug_mode st) core_id mode);
  Ok (mkRun (dbg_cpu_cont st) (dbg_cpu_stopped_core st) (dbg_cpuctrl_dbg_mode st) l).
Definition dbg_cpu_debug_mode_get (core_id : Z) (st : run_state) : outcome bool :=
  oob (zget (dbg_cpu_debug_mode st) core_id).

(** The timer of the core that stopped last. *)
Definition cpuctrl_set_cont_clocks (timeout : bool) (clocks : Z) (st : run_state) : outcome run_state :=
  l ← oob (zset (dbg_cpu_cont st) (stopped_core_id (dbg_cpu_stopped_core st)) (mkCont timeout clocks));
  Ok (mkRun l (dbg_cpu_stopped_core st) (dbg_cpuctrl_dbg_mode st) (dbg_cpu_debug_mode st)).

Definition cpuctrl_is_timeout_cont_clocks (core_id : Z) (st : run_state) : outcome (bool * run_state) :=
  c ← oob (zget (dbg_cpu_cont st) core_id);
  if is_timeout c then
    if 1 <? cont_clocks c then
      Ok (false, mkRun (zput (dbg_cpu_cont st) core_id (mkCont true (cont_clocks c - 1)))
                   (dbg_cpu_stopped_core st) (dbg_cpuctrl_dbg_mode st) (dbg_cpu_debug_mode st))
    else Ok (true, st)
  else Ok (false, st).

Definition with_stopped (st : run_state) (s : DbgCpuStoppedCoreType) : run_state :=
  mkRun (dbg_cpu_cont st) s (dbg_cpuctrl_dbg_mode st) (dbg_cpu_debug_mode st).
Definition cpuctrl_set_current_debugged_core (core_id : Z) (st : run_state) : run_state :=
  with_stopped st (mkStopped true core_id).
Definition cpuctrl_get_current_debugged_core (st : run_state) : option Z :=
  if is_stopped (dbg_cpu_stopped_core st) then Some (stopped_core_id (dbg_cpu_stopped_core st)) else None.
Definition cpuctrl_clr_current_debugged_core (st : run_state) : run_state :=
  with_stopped st (mkStopped false (stopped_core_id (dbg_cpu_stopped_core st))).

Definition with_mode (st : run_state) (m : DbgCpuctrlDbgModeType) : run_state :=
  mkRun (dbg_cpu_cont st) (dbg_cpu_stopped_core st) m (dbg_cpu_debug_mode st).
Definition cpuctrl_is_debug_mode (st : run_state) : bool :=
  negb (bool_decide (dbg_cpuctrl_dbg_mode st = DBG_CPUCTRL_DBG_MODE_NONE)).
(** Entering the debugger stops the clock of the run, leaving it starts it again; the
    second component says which happened. *)
Inductive elaps_event := elaps_none | elaps_start | elaps_end.
Definition cpuctrl_set_debug_mode (on : bool) (st : run_state) : run_state * elaps_event :=
  if on then
    (with_mode st DBG_CPUCTRL_DBG_MODE_NORMAL,
     if decide (dbg_cpuctrl_dbg_mode st = DBG_CPUCTRL_DBG_MODE_NORMAL) then elaps_none else elaps_end)
  else
    (with_mode st DBG_CPUCTRL_DBG_MODE_NONE,
     if decide (dbg_cpuctrl_dbg_mode st = DBG_CPUCTRL_DBG_MODE_NONE) then elaps_none else elaps_start).
Definition cpuctrl_set_force_break (st : run_state) : run_state * elaps_event := cpuctrl_set_debug_mode true st.
Definition cpuctrl_is_force_debug_mode (st : run_state) : bool :=
  bool_decide (dbg_cpuctrl_dbg_mode st = DBG_CPUCTRL_DBG_MODE_FORCE).
Definition cpuctrl_set_force_debug_mode (st : run_state) : run_state := with_mode st DBG_CPUCTRL_DBG_MODE_FORCE.

Section symbolic.
Context `{AddrWidth}.

(** ** Function log of a core *)

Record DbgFuncLogTraceEntryType := mkTraceEntry {
  t_sp : Z; t_funcid : Z; t_funcoff : Z; t_funcpc : Z; t_funcname : list Z;
}.
Record DbgFuncLogTraceType := mkTrace {
  t_current : Z; t_lognum : Z; t_logmax : Z; entry_array : list DbgFuncLogTraceEntryType;
}.

(** [mem] is the array [malloc] returned: [entry_num] entries of any content. *)
Definition cpuctrl_init_func_log_trace (entry_num : Z) (mem : option (list DbgFuncLogTraceEntryType))
    : outcome DbgFuncLogTraceType :=
  match mem with
  | None => Fault AssertFail
  | Some a => Ok (mkTrace 0 0 entry_num a)
  end.

Definition cpuctrl_set_func_log_trace (pc sp : Z) (ss : symbol_state) (t : DbgFuncLogTraceType)
    : outcome (symbol_state * DbgFuncLogTraceType) :=
  '(funcid, a, ss) ← symbol_pc2funcid pc ss;
  if funcid <? 0 then Ok (ss, t)
  else
    let funcpc := default 0 a in
    name ← symbol_funcid2funcname funcid ss;
    next ←
      (if 0 <? t_lognum t then
         e ← oob (zget (entry_array t) (t_current t));
         if t_funcpc e =? funcpc then Ok None
         else
           let next := u32 (t_current t + 1) in
           Ok (Some (if t_logmax t <=? next then 0 else next))
       else Ok (Some 0));
    match next with
    | None => Ok (ss, t)
    | Some next =>
        let e := mkTraceEntry sp (u32 funcid) (u32 (pc - funcpc)) (u32 funcpc) name in
        arr ← oob (zset (entry_array t) next e);
        Ok (ss, mkTrace next (if t_lognum t <? t_logmax t then t_lognum t + 1 else t_lognum t)
                  (t_logmax t) arr)
    end.

Definition cpuctrl_get_func_log_trace_num (t : DbgFuncLogTraceType) : Z := t_lognum t.

(** The [bt_number]-th entry before the current one. *)
Definition cpuctrl_get_func_log_trace_info (bt_number : Z) (t : DbgFuncLogTraceType)
    : outcome (option DbgFuncLogTraceEntryType) :=
  if t_logmax t <=? bt_number then Ok None
  else if t_lognum t <=? bt_number then Ok None
  else
    let off := if bt_number <=? t_current t then t_current t - bt_number
               else t_logmax t - (bt_number - t_current t) in
    e ← oob (zget (entry_array t) off); Ok (Some e).

(** ** Stack frames *)

Definition DBG_STACK_LOG_SIZE : Z := 1024.
Definition DBG_STACK_NUM : Z := 1024.

Record DbgFuncFrameType := mkFrame { f_current : Z; f_lognum : Z; f_sp : list Z }.
Definition frame_init : list DbgFuncFrameType :=
  replicate (Z.to_nat DBG_STACK_NUM) (mkFrame 0 0 (replicate (Z.to_nat DBG_STACK_LOG_SIZE) 0)).

(** The first recorded frame with this stack pointer. *)
Fixpoint find_frame (n : nat) (prev sp : Z) (f : DbgFuncFrameType) : outcome (option Z) :=
  match n with
  | O => Ok None
  | S n' =>
      x ← oob (zget (f_sp f) prev);
      if x =? sp then Ok (Some prev) else find_frame n' (prev + 1) sp f
  end.

Definition frame_push (sp : Z) (f : DbgFuncFrameType) : outcome DbgFuncFrameType :=
  next ←
    (if 0 <? f_lognum f then
       x ← oob (zget (f_sp f) (f_current f));
       if x =? sp then Ok (inl f)
       else
         o ← find_frame (Z.to_nat (f_lognum f)) 0 sp f;
         match o with
         | Some prev => Ok (inl (mkFrame prev (prev + 1) (f_sp f)))
         | None =>
             let next := u32 (f_current f + 1) in
             _ ← assert_c (next <=? DBG_STACK_LOG_SIZE);
             Ok (inr next)
         end
     else Ok (inr 0));
  match next with
  | inl f' => Ok f'
  | inr next =>
      l ← oob (zset (f_sp f) next sp);
      Ok (mkFrame next (u32 (f_lognum f + 1)) l)
  end.

Definition cpuctrl_set_stack_pointer (sp : Z) (ss : symbol_state) (fs : list DbgFuncFrameType)
    : outcome (symbol_state * list DbgFuncFrameType) :=
  '(glid, _, ss) ← symbol_addr2glid sp ss;
  if glid <? 0 then Ok (ss, fs)
  else
    f ← oob (zget fs glid);
    f' ← frame_push sp f;
    fs' ← oob (zset fs glid f');
    Ok (ss, fs').

Definition cpuctrl_get_stack_pointer (glid bt_number : Z) (fs : list DbgFuncFrameType)
    : outcome (Std_ReturnType * option Z) :=
  f ← oob (zget fs glid);
  if f_lognum f <=? 1 then Ok (STD_E_NOENT, None)
  else if f_lognum f <=? bt_number then Ok (STD_E_NOENT, None)
  else x ← oob (zget (f_sp f) bt_number); Ok (STD_E_OK, Some x).

(** ** Access statistics *)

Definition ACCESS_TYPE_READ : Z := 1.
Definition ACCESS_TYPE_WRITE : Z := 2.

Record DataAccessContextType := mkContext {
  a_type : Z; a_core_id : Z; a_sp : Z; a_funcid : Z; a_num : Z; a_time : Z;
}.
(** The contexts are the elements of an object container, in order. *)
Record DataAccessInfoType := mkAccessInfo {
  region_type : Z; access_num : Z; access_context : list DataAccessContextType;
}.

(** The entries of [data_access_info_table_gl]: [None] for a null pointer. *)
Definition access_table := list (option DataAccessInfoType).

Definition same_context (type core sp funcid : Z) (c : DataAccessContextType) : bool :=
  (a_type c =? type) && (a_core_id c =? core) && (a_sp c =? sp) && (a_funcid c =? funcid).

(** [sp_glid] is the stack variable the stack pointer is in. *)
Definition context_add (type core sp_glid funcid clocks : Z) (info : DataAccessInfoType) : DataAccessInfoType :=
  let bump c := mkContext (a_type c) (a_core_id c) (a_sp c) (a_funcid c) (u64 (a_num c + 1)) clocks in
  let l := access_context info in
  let l' :=
    match find_index 0 l (same_context type core sp_glid funcid) with
    | Some (i, c) => zput l i (bump c)
    | None => l ++ [bump (mkContext type core sp_glid funcid 0 0)]
    end in
  mkAccessInfo (region_type info) (u64 (access_num info + 1)) l'.

(** The warning about reading a variable that was never written is switched off by the build
    ([SUPRESS_DETECT_WARNING_MESSAGE]). *)
Definition cpuctrl_access_context_add (type current_sp core funcid clocks : Z) (ss : symbol_state)
    (info : DataAccessInfoType) : outcome (symbol_state * DataAccessInfoType) :=
  '(glid, _, ss) ← symbol_addr2glid current_sp ss;
  if glid <? 0 then Ok (ss, info)
  else Ok (ss, context_add type core (u32 glid) funcid clocks info).

(** The loop over the bytes of the access: one entry per variable it touches in a row.  The
    warning after it is switched off by the build too. *)
Fixpoint set_access_loop (n : nat) (i prev_glid type access_addr current_sp core funcid clocks : Z)
    (ss : symbol_state) (tbl : access_table) : outcome (symbol_state * access_table) :=
  match n with
  | O => Ok (ss, tbl)
  | S n' =>
      '(glid, _, ss) ← symbol_addr2glid (uaddr (access_addr + i)) ss;
      if glid <? 0 then set_access_loop n' (i + 1) prev_glid type access_addr current_sp core funcid clocks ss tbl
      else if glid =? prev_glid then
        set_access_loop n' (i + 1) prev_glid type access_addr current_sp core funcid clocks ss tbl
      else
        o ← oob (zget tbl glid);
        match o with
        | None => set_access_loop n' (i + 1) prev_glid type access_addr current_sp core funcid clocks ss tbl
        | Some info =>
            '(ss, info) ← cpuctrl_access_context_add type current_sp core funcid clocks ss info;
            set_access_loop n' (i + 1) glid type access_addr current_sp core funcid clocks ss
              (zput tbl glid (Some info))
        end
  end.

Definition cpuctrl_set_access (type access_addr size current_sp core funcid clocks : Z)
    (ss : symbol_state) (tbl : access_table) : outcome (symbol_state * access_table) :=
  set_access_loop (Z.to_nat size) 0 (-1) type access_addr current_sp core funcid clocks ss tbl.

(** A guest access as the debugger sees it: statistics first, then the watch points. *)
Definition cpuctrl_is_break_read_access (access_addr size current_sp core funcid clocks : Z)
    (ss : symbol_state) (tbl : access_table) (ws : watch_state)
    : outcome (Z * symbol_state * access_table) :=
  '(ss, tbl) ← cpuctrl_set_access ACCESS_TYPE_READ access_addr size current_sp core funcid clocks ss tbl;
  Ok (break_access DATA_WATCH_POINT_TYPE_WRITE access_addr size ws, ss, tbl).
Definition cpuctrl_is_break_write_access (access_addr size current_sp core funcid clocks : Z)
    (ss : symbol_state) (tbl : access_table) (ws : watch_state)
    : outcome (Z * symbol_state * access_table) :=
  '(ss, tbl) ← cpuctrl_set_access ACCESS_TYPE_WRITE access_addr size current_sp core funcid clocks ss tbl;
  Ok (break_access DATA_WATCH_POINT_TYPE_READ access_addr size ws, ss, tbl).

(** Whether a store of [size] bytes leaves the variable the stack pointer is in. *)
Fixpoint leaves_stack (n : nat) (i start_addr stack_glid : Z) (ss : symbol_state) : outcome (bool * symbol_state) :=
  match n with
  | O => Ok (false, ss)
  | S n' =>
      '(glid, _, ss) ← symbol_addr2glid (uaddr (u32 (start_addr + i))) ss;
      if negb (glid =? stack_glid) then Ok (true, ss)
      else leaves_stack n' (i + 1) start_addr stack_glid ss
  end.
Definition cpu_may_store_on_stack_overflow (start_addr size current_sp : Z) (ss : symbol_state)
    : outcome (bool * symbol_state) :=
  '(stack_glid, _, ss) ← symbol_addr2glid current_sp ss;
  leaves_stack (Z.to_nat size) 0 start_addr stack_glid ss.

(** ** Profile of a core *)

Record CpuProfileType := mkProfile {
  call_num : Z; start_time : Z; func_time : Z; total_time : Z; recursive_num : Z; sp_func_enter : Z;
}.
Record profile_state := mkProfiles { prof : list CpuProfileType; prev_funcid : Z; current_funcid : Z }.

Definition profile_init (func_num : Z) : profile_state :=
  mkProfiles (replicate (Z.to_nat func_num) (mkProfile 0 0 0 0 0 0)) 0 func_num.

(** The first function still entered whose stack pointer at entry is the current one. *)
Definition leave_function (sp clocks : Z) (l : list CpuProfileType) : list CpuProfileType :=
  match find_index 0 l (λ p, (0 <? recursive_num p) && (sp =? sp_func_enter p)) with
  | Some (i, p) =>
      zput l i (mkProfile (call_num p) (start_time p) (func_time p)
                  (u64 (total_time p + u64 (clocks - start_time p))) (recursive_num p - 1) (sp_func_enter p))
  | None => l
  end.

Definition cpuctrl_profile_collect (pc sp clocks : Z) (ss : symbol_state) (ps : profile_state)
    : outcome (symbol_state * profile_state) :=
  '(funcid, _, ss) ← symbol_pc2funcid pc ss;
  if funcid <? 0 then Ok (ss, ps)
  else
    funcpc ← symbol_funcid2funcaddr funcid ss;
    '(l, prev) ←
      (if pc =? u32 funcpc then
         p ← oob (zget (prof ps) funcid);
         let p := mkProfile (u64 (call_num p + 1)) (start_time p) (func_time p) (total_time p)
                    (recursive_num p) (sp_func_enter p) in
         let p := if recursive_num p =? 0
                  then mkProfile (call_num p) clocks (func_time p) (total_time p) (recursive_num p + 1) sp
                  else p in
         Ok (zput (prof ps) funcid p, prev_funcid ps)
       else if negb (current_funcid ps =? funcid) then
         Ok (leave_function sp clocks (prof ps), current_funcid ps)
       else Ok (prof ps, prev_funcid ps));
    p ← oob (zget l funcid);
    let p := mkProfile (call_num p) (start_time p) (u64 (func_time p + 1)) (total_time p)
               (recursive_num p) (sp_func_enter p) in
    Ok (ss, mkProfiles (zput l funcid p) prev funcid).

Definition cpuctrl_profile_get (funcid : Z) (ps : profile_state) : outcome CpuProfileType :=
  oob (zget (prof ps) funcid).
End symbolic.
