(* ===== verification/CpuControlFacts.v ===== *)
(** * Theorems on the debugger's control of the CPU

    Break points and their counter, watch points, the function log as a bounded
    history, the stack frames, and the access statistics of [CpuControl]. *)

From S2P Require Import Prelude SymbolOps CpuControl.
Open Scope Z_scope.

(** ** The search of a table *)

Section find.
Context {A : Type} (p : A → bool).

Lemma find_index_Some (l : list A) i0 i x : find_index i0 l p = Some (i, x) →
  i0 ≤ i ∧ zget l (i - i0) = Some x ∧ p x = true ∧ ∀ j y, j < i - i0 → zget l j = Some y → p y = false.
Proof.
  revert i0. induction l as [|y l IH]; intros i0; simpl; [done|]. destruct (p y) eqn:E.
  - intros [= <- <-]. rewrite Z.sub_diag. split_and!; [lia|done|done|].
    intros j z Hj Hz. pose proof (zget_range _ _ _ Hz). lia.
  - intros (Hi & Hx & Hp & Hall)%IH. split_and!; [lia| |done|].
    + replace (i - i0) with (zlen [y] + (i - (i0 + 1))) by (unfold zlen; simpl; lia).
      change (y :: l) with ([y] ++ l). rewrite zget_app_r by lia. rewrite <- Hx. f_equal. lia.
    + intros j z Hj Hz. pose proof (zget_range _ _ _ Hz). destruct (decide (j = 0)) as [->|].
      * by injection Hz as <-.
      * apply (Hall (j - 1)); [lia|]. change (y :: l) with ([y] ++ l) in Hz.
        rewrite zget_app_r in Hz by (unfold zlen; simpl; lia). exact Hz.
Qed.

Lemma find_index_None (l : list A) i0 : find_index i0 l p = None → ∀ j y, zget l j = Some y → p y = false.
Proof.
  revert i0. induction l as [|y l IH]; intros i0; simpl; [intros _ j y Hz; by rewrite zget_None in Hz by (unfold zlen; simpl; lia)|].
  destruct (p y) eqn:E; [done|]. intros HN j z Hz. pose proof (zget_range _ _ _ Hz). destruct (decide (j = 0)) as [->|].
  - by injection Hz as <-.
  - apply (IH _ HN (j - 1)). change (y :: l) with ([y] ++ l) in Hz.
    rewrite zget_app_r in Hz by (unfold zlen; simpl; lia). exact Hz.
Qed.

Lemma find_index_0 (l : list A) i x : find_index 0 l p = Some (i, x) →
  0 ≤ i < zlen l ∧ zget l i = Some x ∧ p x = true ∧ ∀ j y, j < i → zget l j = Some y → p y = false.
Proof.
  intros (Hi & Hx & Hp & Hall)%find_index_Some. rewrite Z.sub_0_r in *.
  pose proof (zget_range _ _ _ Hx). done.
Qed.

Lemma find_index_exists (l : list A) j y : zget l j = Some y → p y = true → ∃ i x, find_index 0 l p = Some (i, x).
Proof.
  intros Hy Hp. destruct (find_index 0 l p) as [[i x]|] eqn:E; [eauto|].
  by rewrite (find_index_None l 0 E j y Hy) in Hp.
Qed.

(** Counting the elements that satisfy [p]. *)
Definition count (l : list A) : Z := zlen (filter p l).

Lemma count_cons x l : count (x :: l) = (if p x then 1 else 0) + count l.
Proof. unfold count, zlen. rewrite filter_cons. destruct (p x); simpl; lia. Qed.

Lemma count_nonneg l : 0 ≤ count l.
Proof. apply zlen_nonneg. Qed.

Lemma count_zput l i x y : zget l i = Some x →
  count (zput l i y) = count l - (if p x then 1 else 0) + (if p y then 1 else 0).
Proof.
  unfold zget, zput. destruct (i <? 0); [done|]. generalize (Z.to_nat i). clear i.
  induction l as [|z l IH]; intros i Hi; [done|]. destruct i as [|i]; simpl in *.
  - injection Hi as <-. rewrite !count_cons. lia.
  - rewrite !count_cons, (IH i) by done. lia.
Qed.

Lemma count_pos l i x : zget l i = Some x → p x = true → 1 ≤ count l.
Proof.
  intros Hx Hp. pose proof (count_nonneg (zput l i x)) as Hn.
  destruct (decide (0 < count l)); [lia|]. exfalso. unfold count, zlen in *.
  destruct (filter p l) as [|z zs] eqn:E; [|simpl in *; lia].
  assert (x ∈ filter p l) as Hin.
  { apply list_elem_of_filter. split; [by rewrite Hp|by eapply zget_elem]. }
  rewrite E in Hin. by apply elem_of_nil in Hin.
Qed.

Lemma count_zero l : (∀ j y, zget l j = Some y → p y = false) → count l = 0.
Proof.
  intros Hall. destruct (decide (count l = 0)) as [|Hne]; [done|]. exfalso. unfold count, zlen in Hne.
  destruct (filter p l) as [|z zs] eqn:E; [simpl in Hne; lia|].
  assert (z ∈ filter p l) as [Hp Hin]%list_elem_of_filter by (rewrite E; left).
  apply list_elem_of_lookup_1 in Hin as [k Hk]. rewrite <- zget_lookup in Hk.
  rewrite (Hall _ _ Hk) in Hp. done.
Qed.
End find.

Lemma count_pointwise {A} (p q : A → bool) (l l' : list A) : zlen l = zlen l' →
  (∀ j x, zget l j = Some x → ∃ y, zget l' j = Some y ∧ p y = q x) → count p l' = count q l.
Proof.
  revert l'. induction l as [|x l IH]; intros [|y l'] Hlen Hall; unfold zlen in Hlen; simpl in Hlen; [done|lia|lia|].
  rewrite !count_cons. destruct (Hall 0 x eq_refl) as (y' & [= <-] & ->). f_equal.
  apply IH; [unfold zlen; lia|]. intros j z Hz. pose proof (zget_range _ _ _ Hz).
  assert (Hs : ∀ (w : A) k, zget (w :: k) (j + 1) = zget k j).
  { intros w k. change (w :: k) with ([w] ++ k). rewrite zget_app_r by (unfold zlen; simpl; lia). f_equal.
    unfold zlen; simpl; lia. }
  destruct (Hall (j + 1) z) as (z' & Hz' & ?); [by rewrite Hs|]. rewrite Hs in Hz'. eauto.
Qed.

Lemma count_all {A} (p : A → bool) (l : list A) : (∀ j x, zget l j = Some x → p x = true) → count p l = zlen l.
Proof.
  intros Hall. transitivity (count (λ _, true) l).
  - apply count_pointwise; [done|]. eauto.
  - clear. induction l as [|x l IH]; [done|]. rewrite count_cons, IH. unfold zlen. simpl. lia.
Qed.

(** ** Break points *)

(** The well-formed table: 128 slots, slot 0 the permanent point at address 0. *)
Record break_wf (st : break_state) : Prop := {
  bw_len : zlen (break_points st) = 128;
  bw_zero : zget (break_points st) 0 = Some (mkBreak true BREAK_POINT_TYPE_FOREVER 0);
}.

Definition is_forever (b : DbgCpuCtrlBreakPointType) : bool :=
  b_is_set b && bool_decide (b_type b = BREAK_POINT_TYPE_FOREVER).
Definition is_once (b : DbgCpuCtrlBreakPointType) : bool :=
  b_is_set b && bool_decide (b_type b = BREAK_POINT_TYPE_ONLY_ONCE).

(** The counter is the number of the permanent points but that of slot 0. *)
Definition break_counted (st : break_state) : Prop :=
  break_points_num st = count is_forever (break_points st) - 1.

Lemma break_init_wf : break_wf break_init.
Proof. by split. Qed.
Lemma break_init_counted : break_counted break_init.
Proof. reflexivity. Qed.

Lemma get_break_Some i st a : break_wf st →
  cpuctrl_get_break i st = Some a ↔ ∃ b, zget (break_points st) i = Some b ∧ b_is_set b = true ∧ b_addr b = a.
Proof.
  intros [Hl _]. unfold cpuctrl_get_break, DBG_CPU_CONTROL_BREAK_SETSIZE. split.
  - destruct (Z.leb_spec 128 i); [done|]. destruct (zget _ i) as [b|]; [|done]. simpl.
    destruct (b_is_set b) eqn:E; [|done]. intros [= <-]. eauto.
  - intros (b & Hb & Hs & <-). pose proof (zget_range _ _ _ Hb). destruct (Z.leb_spec 128 i); [lia|].
    rewrite Hb. simpl. by rewrite Hs.
Qed.

Lemma set_break_wf addr type st : break_wf st → break_wf (snd (cpuctrl_set_break addr type st)).
Proof.
  intros [Hl Hz]. unfold cpuctrl_set_break, search_free_break_point_space.
  destruct (search_break_point_with_type _ _ _); [by split|].
  destruct (find_index _ _ _) as [[i b]|] eqn:E; [|by split].
  apply find_index_0 in E as (Hi & Hb & Hf & _).
  split; simpl; [by rewrite zlen_zput|]. rewrite zget_zput_ne; [done|lia|].
  intros ->. rewrite Hz in Hb. by injection Hb as <-.
Qed.

(** What [cpuctrl_set_break] does to the table: nothing, or one free slot is taken. *)
Lemma set_break_cases addr type st : break_wf st →
  let '(ok, st') := cpuctrl_set_break addr type st in
  (ok = true ∧ st' = st ∧ (∃ i b, zget (break_points st) i = Some b ∧ b_is_set b = true ∧ b_type b = type ∧ b_addr b = addr)) ∨
  (ok = true ∧ ∃ i b, 0 < i < 128 ∧ zget (break_points st) i = Some b ∧ b_is_set b = false ∧
     (∀ j y, j < i → zget (break_points st) j = Some y → b_is_set y = true) ∧
     st' = mkBreaks (zput (break_points st) i (mkBreak true type addr))
             (if decide (type = BREAK_POINT_TYPE_ONLY_ONCE) then break_points_num st else break_points_num st + 1)) ∨
  (ok = false ∧ st' = st ∧ ∀ i b, zget (break_points st) i = Some b → b_is_set b = true).
Proof.
  intros [Hl Hz]. unfold cpuctrl_set_break, search_break_point_with_type, search_free_break_point_space.
  destruct (find_index 0 (break_points st) (λ b, b_is_set b && _ && _)) as [[i b]|] eqn:E.
  - apply find_index_0 in E as (Hi & Hb & Hf & _). left. split_and!; [done|done|]. exists i, b.
    apply andb_prop in Hf as [[? ?%bool_decide_eq_true]%andb_prop ?]. split_and!; [done|done|done|lia].
  - destruct (find_index 0 _ (λ b, negb (b_is_set b))) as [[i b]|] eqn:E'.
    + apply find_index_0 in E' as (Hi & Hb & Hf & Hall). right; left. split; [done|]. exists i, b.
      assert (i ≠ 0). { intros ->. rewrite Hz in Hb. by injection Hb as <-. }
      split_and!; [lia|lia|done|by apply negb_true_iff| |done].
      intros j y Hj Hy. by apply negb_false_iff, (Hall j).
    + right; right. split_and!; [done|done|]. intros i b Hb. apply negb_false_iff. by eapply find_index_None in E'.
Qed.

Lemma set_break_counted addr type st : break_wf st → break_counted st →
  break_counted (snd (cpuctrl_set_break addr type st)).
Proof.
  intros Hwf Hc. pose proof (set_break_cases addr type st Hwf) as H.
  destruct (cpuctrl_set_break addr type st) as [ok st'].
  destruct H as [(_ & -> & _)|[(_ & i & b & Hi & Hb & Hs & _ & ->)|(_ & -> & _)]]; [done| |done].
  unfold break_counted in *. simpl. rewrite (count_zput _ _ _ _ _ Hb). unfold is_forever at 2 3. rewrite Hs. simpl.
  destruct type; simpl; lia.
Qed.

Lemma del_break_ok index st : break_wf st → 0 < index < 128 →
  ∃ b, zget (break_points st) index = Some b ∧
    cpuctrl_del_break index st =
      Ok (true, mkBreaks (zput (break_points st) index (mkBreak false (b_type b) (b_addr b)))
                  (if b_is_set b then break_points_num st - 1 else break_points_num st)) ∧
    break_wf (mkBreaks (zput (break_points st) index (mkBreak false (b_type b) (b_addr b)))
                  (if b_is_set b then break_points_num st - 1 else break_points_num st)).
Proof.
  intros [Hl Hz] Hi. destruct (zget_is_Some (break_points st) index) as [b Hb]; [lia|].
  exists b. split; [done|]. unfold cpuctrl_del_break. destruct (Z.ltb_spec 0 index); [|lia].
  rewrite Hb. cbn [oob mbind outcome_bind]. split; [done|].
  split; simpl; [by rewrite zlen_zput|]. rewrite zget_zput_ne; [done|lia|lia].
Qed.

(** The effect of a deletion on one slot. *)
Definition cleared (type : BreakPointEumType) (j : Z) (b : DbgCpuCtrlBreakPointType) : DbgCpuCtrlBreakPointType :=
  if (0 <? j) && bool_decide (b_type b = type) then mkBreak false (b_type b) (b_addr b) else b.

Lemma del_breaks_ok type n i st : break_wf st → 0 ≤ i → i + Z.of_nat n ≤ 128 →
  ∃ st', del_breaks n i type st = Ok st' ∧ break_wf st' ∧
    (∀ j b, zget (break_points st) j = Some b →
       zget (break_points st') j = Some (if (i <=? j) && (j <? i + Z.of_nat n) then cleared type j b else b)) ∧
    break_points_num st' - count b_is_set (break_points st') = break_points_num st - count b_is_set (break_points st).
Proof.
  revert i st. induction n as [|n IH]; intros i st Hwf Hi Hn; cbn [del_breaks].
  { exists st. split_and!; [done|done| |done]. intros j b Hb. replace (_ && _) with false by lia. done. }
  destruct (zget_is_Some (break_points st) i) as [b Hb]; [rewrite (bw_len _ Hwf); lia|].
  rewrite Hb. cbn [oob mbind outcome_bind].
  assert (∃ st1, (if decide (b_type b = type) then '(_, st) ← cpuctrl_del_break i st; Ok st else Ok st) = Ok st1 ∧
    break_wf st1 ∧ (∀ j y, zget (break_points st) j = Some y →
      zget (break_points st1) j = Some (if j =? i then cleared type j y else y)) ∧
    break_points_num st1 - count b_is_set (break_points st1) = break_points_num st - count b_is_set (break_points st))
    as (st1 & -> & Hwf1 & Hg1 & Hn1).
  { unfold cleared. destruct (decide (b_type b = type)) as [Ht|Ht].
    - destruct (decide (i = 0)) as [->|].
      + exists st. unfold cpuctrl_del_break. simpl. split_and!; [done|done| |done].
        intros j y Hy. repeat case_match; [lia|done|done].
      + destruct (del_break_ok i st Hwf) as (b' & Hb' & -> & Hwf'); [lia|].
        rewrite Hb in Hb'. injection Hb' as <-. eexists. split; [reflexivity|]. split; [done|]. split; simpl.
        * intros j y Hy. destruct (Z.eqb_spec j i) as [->|].
          -- rewrite Hb in Hy. injection Hy as <-. rewrite zget_zput_eq by (by eapply zget_range).
             rewrite bool_decide_eq_true_2 by done. replace (0 <? i) with true by lia. done.
          -- by rewrite zget_zput_ne by lia.
        * rewrite (count_zput _ _ _ _ _ Hb). simpl. destruct (b_is_set b); lia.
    - exists st. split_and!; [done|done| |done]. intros j y Hy. destruct (Z.eqb_spec j i) as [->|]; [|done].
      rewrite Hb in Hy. injection Hy as <-. rewrite bool_decide_eq_false_2 by done. by rewrite andb_false_r. }
  cbn [mbind outcome_bind]. destruct (IH (i + 1) st1 Hwf1) as (st' & -> & Hwf' & Hg & Hn'); [lia|lia|].
  exists st'. split_and!; [done|done| |lia]. intros j y Hy. apply Hg1, Hg in Hy. rewrite Hy. f_equal.
  destruct (Z.eqb_spec j i) as [->|].
  - replace (_ && _) with false by lia. replace (_ && _) with true by lia. done.
  - replace ((i + 1 <=? j) && _) with ((i <=? j) && (j <? i + Z.of_nat (S n))) by lia. done.
Qed.

Lemma del_all_ok type st : break_wf st →
  ∃ st', cpuctrl_del_all_break type st = Ok st' ∧ break_wf st' ∧
    (∀ j b, zget (break_points st) j = Some b → zget (break_points st') j = Some (cleared type j b)) ∧
    break_points_num st' =
      if decide (type = BREAK_POINT_TYPE_ONLY_ONCE)
      then break_points_num st - count b_is_set (break_points st) + count b_is_set (break_points st') else 0.
Proof.
  intros Hwf. unfold cpuctrl_del_all_break.
  destruct (del_breaks_ok type (Z.to_nat DBG_CPU_CONTROL_BREAK_SETSIZE) 0 st Hwf) as (st' & -> & Hwf' & Hg & Hn); [lia|done|].
  cbn [mbind outcome_bind].
  assert (Hg' : ∀ j b, zget (break_points st) j = Some b → zget (break_points st') j = Some (cleared type j b)).
  { intros j b Hb. rewrite (Hg j b Hb). pose proof (zget_range _ _ _ Hb). rewrite (bw_len _ Hwf) in *.
    unfold DBG_CPU_CONTROL_BREAK_SETSIZE. replace (_ && _) with true by lia. done. }
  destruct (decide (type = _)).
  - exists st'. split_and!; [done|done|done|lia].
  - eexists. split; [done|]. split_and!; [by destruct Hwf'; split|done|done].
Qed.

(** The commands of a user who sets permanent points only. *)
Inductive break_op := op_set (addr : Z) | op_del (index : Z) | op_del_all.
Definition break_op_ok (op : break_op) : Prop :=
  match op with op_del index => index < DBG_CPU_CONTROL_BREAK_SETSIZE | _ => True end.
Definition break_step (op : break_op) (st : break_state) : outcome break_state :=
  match op with
  | op_set addr => Ok (snd (cpuctrl_set_break addr BREAK_POINT_TYPE_FOREVER st))
  | op_del index => '(_, st) ← cpuctrl_del_break index st; Ok st
  | op_del_all => cpuctrl_del_all_break BREAK_POINT_TYPE_FOREVER st
  end.
Fixpoint break_run (ops : list break_op) (st : break_state) : outcome break_state :=
  match ops with
  | [] => Ok st
  | op :: ops => st ← break_step op st; break_run ops st
  end.

Record permanent (st : break_state) : Prop := {
  pm_wf : break_wf st;
  pm_counted : break_counted st;
  pm_type : ∀ i b, zget (break_points st) i = Some b → b_type b = BREAK_POINT_TYPE_FOREVER;
}.

Lemma zget_zput_inv {A} (l : list A) i j x y : 0 ≤ i < zlen l →
  zget (zput l i x) j = Some y → (j = i ∧ y = x) ∨ (j ≠ i ∧ zget l j = Some y).
Proof.
  intros Hi. destruct (decide (j = i)) as [->|].
  - rewrite zget_zput_eq by lia. intros [= <-]. by left.
  - rewrite zget_zput_ne by lia. by right.
Qed.

Lemma break_step_permanent op st : permanent st → break_op_ok op →
  ∃ st', break_step op st = Ok st' ∧ permanent st'.
Proof.
  intros [Hwf Hc Ht] Hop. destruct op as [addr|index|]; cbn [break_step].
  - eexists. split; [done|]. split; [by apply set_break_wf|by apply set_break_counted|].
    pose proof (set_break_cases addr BREAK_POINT_TYPE_FOREVER st Hwf) as H.
    destruct (cpuctrl_set_break _ _ st) as [ok st'].
    destruct H as [(_ & -> & _)|[(_ & i & b & Hi & Hb & _ & _ & ->)|(_ & -> & _)]]; [done| |done].
    simpl. intros j y [[-> ->]|[_ Hy]]%zget_zput_inv; [done|eauto|rewrite (bw_len _ Hwf); lia].
  - simpl in Hop. unfold DBG_CPU_CONTROL_BREAK_SETSIZE in Hop. destruct (decide (0 < index)) as [Hi|Hi].
    + destruct (del_break_ok index st Hwf) as (b & Hb & -> & Hwf'); [lia|].
      cbn [mbind outcome_bind]. eexists. split; [done|]. split; [done| |]; simpl.
      * unfold break_counted in *. simpl. rewrite (count_zput _ _ _ _ _ Hb). unfold is_forever at 2 3. simpl.
        rewrite (Ht _ _ Hb). rewrite bool_decide_eq_true_2 by done. destruct (b_is_set b); simpl; lia.
      * intros j y [[-> ->]|[_ Hy]]%zget_zput_inv; [simpl; eauto|eauto|rewrite (bw_len _ Hwf); lia].
    + unfold cpuctrl_del_break. replace (0 <? index) with false by lia. exists st. split; [done|by split].
  - destruct (del_all_ok BREAK_POINT_TYPE_FOREVER st Hwf) as (st' & -> & Hwf' & Hg & Hn).
    exists st'. split; [done|]. rewrite decide_False in Hn by done.
    assert (Hback : ∀ j y, zget (break_points st') j = Some y →
      ∃ b, zget (break_points st) j = Some b ∧ y = cleared BREAK_POINT_TYPE_FOREVER j b).
    { intros j y Hy. destruct (zget_is_Some (break_points st) j) as [b Hb].
      - rewrite (bw_len _ Hwf), <- (bw_len _ Hwf'). by eapply zget_range.
      - exists b. split; [done|]. rewrite (Hg _ _ Hb) in Hy. by injection Hy. }
    split; [done| |].
    + unfold break_counted. rewrite Hn.
      assert (count is_forever (zput (break_points st') 0 (mkBreak false BREAK_POINT_TYPE_FOREVER 0)) = 0) as Hz.
      { apply count_zero. intros j y [[-> ->]|[Hne (b & Hb & ->)%Hback]]%zget_zput_inv;
          [done| |rewrite (bw_len _ Hwf'); lia].
        unfold cleared. rewrite (Ht _ _ Hb). pose proof (zget_range _ _ _ Hb).
        replace (0 <? j) with true by lia. done. }
      rewrite (count_zput _ _ _ _ _ (bw_zero _ Hwf')) in Hz. unfold is_forever at 2 3 in Hz. simpl in Hz. lia.
    + intros j y (b & Hb & ->)%Hback. unfold cleared. case_match; simpl; eauto.
Qed.

Lemma is_break_any st a : break_wf st → break_points_num st > 0 →
  cpuctrl_is_break_point a st = true ↔ ∃ i, cpuctrl_get_break i st = Some a.
Proof.
  intros Hwf Hn. unfold cpuctrl_is_break_point. replace (0 <? break_points_num st) with true by lia.
  unfold search_break_point. split.
  - destruct (find_index _ _ _) as [[i b]|] eqn:E; [intros _|done].
    apply find_index_0 in E as (_ & Hb & Hp & _). exists i. apply get_break_Some; [done|].
    exists b. apply andb_prop in Hp as [? ?]. split_and!; [done|done|lia].
  - intros [i (b & Hb & Hs & <-)%get_break_Some]; [|done].
    destruct (find_index_exists (λ y, b_is_set y && (b_addr y =? b_addr b)) _ _ _ Hb) as (k & y & ->); [|done].
    rewrite Hs. lia.
Qed.

Lemma is_break_zero st a : break_wf st → break_points_num st ≤ 0 → cpuctrl_is_break_point a st = (a =? 0).
Proof.
  intros Hwf Hn. unfold cpuctrl_is_break_point. replace (0 <? break_points_num st) with false by lia.
  rewrite (bw_zero _ Hwf). apply Z.eqb_sym.
Qed.

(** The program stops at the addresses the table lists, as long as the counter is positive;
    else only at address 0. *)
Definition stops_at (st : break_state) (a : Z) : Prop :=
  (0 < break_points_num st ∧ ∃ i, cpuctrl_get_break i st = Some a) ∨ (break_points_num st ≤ 0 ∧ a = 0).
Lemma is_break_stops st a : break_wf st → cpuctrl_is_break_point a st = true ↔ stops_at st a.
Proof.
  intros Hwf. unfold stops_at. destruct (decide (0 < break_points_num st)) as [Hn|Hn].
  - rewrite is_break_any by (done || lia). split; [by left|]. intros [[_ ?]|[? _]]; [done|lia].
  - rewrite is_break_zero by (done || lia). split; [right; lia|]. intros [[? _]|[_ ->]]; [lia|done].
Qed.

Lemma permanent_hit st a : permanent st →
  cpuctrl_is_break_point a st = true ↔ ∃ i, cpuctrl_get_break i st = Some a.
Proof.
  intros [Hwf Hc Ht]. destruct (decide (0 < break_points_num st)); [apply is_break_any; [done|lia]|].
  rewrite is_break_zero by (done || lia). split.
  - intros Ha. exists 0. apply get_break_Some; [done|]. eexists. split; [apply (bw_zero _ Hwf)|]. simpl. split; [done|lia].
  - intros [i (b & Hb & Hs & <-)%get_break_Some]; [|done]. unfold break_counted in Hc.
    destruct (decide (i = 0)) as [->|Hne].
    + rewrite (bw_zero _ Hwf) in Hb. by injection Hb as <-.
    + exfalso. pose proof (count_zput is_forever _ _ _ (mkBreak false BREAK_POINT_TYPE_FOREVER 0) Hb) as Hcz.
      unfold is_forever at 3 4 in Hcz. rewrite Hs, (Ht _ _ Hb) in Hcz. simpl in Hcz.
      pose proof (count_pos is_forever (zput (break_points st) i (mkBreak false BREAK_POINT_TYPE_FOREVER 0)) 0
        (mkBreak true BREAK_POINT_TYPE_FOREVER 0)) as Hp.
      rewrite zget_zput_ne in Hp by (pose proof (zget_range _ _ _ Hb); lia).
      specialize (Hp (bw_zero _ Hwf) eq_refl). lia.
Qed.

(** A command that deletes past the table faults; any other sequence of commands keeps to it. *)
Lemma break_step_faults op st : break_wf st → ¬ break_op_ok op → break_step op st = Fault OutOfBounds.
Proof.
  intros Hwf Hop. destruct op as [|index|]; [by destruct Hop|cbn [break_op_ok break_step] in *|by destruct Hop].
  unfold DBG_CPU_CONTROL_BREAK_SETSIZE, cpuctrl_del_break in *. replace (0 <? index) with true by lia.
  by rewrite zget_None by (rewrite (bw_len _ Hwf); lia).
Qed.
Lemma break_run_permanent ops st : permanent st →
  (Forall break_op_ok ops ∧ ∃ st', break_run ops st = Ok st' ∧ permanent st') ∨
  (Exists (λ op, ¬ break_op_ok op) ops ∧ break_run ops st = Fault OutOfBounds).
Proof.
  induction ops as [|op ops IH] in st |- *; intros Hst; cbn [break_run]; [left; eauto|].
  assert (break_op_ok op ∨ ¬ break_op_ok op) as [Hop|Hop] by (destruct op; cbn; [tauto|lia|tauto]).
  - destruct (break_step_permanent op st Hst Hop) as (st1 & -> & Hst1). cbn [mbind outcome_bind].
    destruct (IH _ Hst1) as [[? ?]|[? ?]]; [left; by split; [constructor|]|right; by split; [apply Exists_cons_tl|]].
  - right. split; [by apply Exists_cons_hd|]. by rewrite (break_step_faults _ _ (pm_wf _ Hst) Hop).
Qed.

(** C10: For every sequence of commands that set permanent break points and delete them by
    index or all at once: if every deleted index is inside the table of 128, no command
    faults, the counter is the number of points set, and the program stops at exactly the
    addresses the table lists; if one is not, the access outside of the table is where the
    sequence ends ([cpuctrl_del_break] does not check its index). *)
Theorem break_points_refine_set (ops : list break_op) :
  (Forall break_op_ok ops ∧
   ∃ st, break_run ops break_init = Ok st ∧
     break_points_num st = count is_forever (break_points st) - 1 ∧
     ∀ a, cpuctrl_is_break_point a st = true ↔ ∃ i, cpuctrl_get_break i st = Some a) ∨
  (Exists (λ op, ¬ break_op_ok op) ops ∧ break_run ops break_init = Fault OutOfBounds).
Proof.
  destruct (break_run_permanent ops break_init) as [[Hops (st & Hr & Hst)]|?]; [|left|by right].
  { split; [apply break_init_wf|apply break_init_counted|]. intros i b Hb%zget_elem. unfold break_init in Hb. simpl in Hb.
    repeat (apply elem_of_cons in Hb as [->|Hb]; [done|]). by apply elem_of_nil in Hb. }
  split; [done|]. exists st. split_and!; [done|apply Hst|]. intros a. by apply permanent_hit.
Qed.

(** Setting a break point either leaves the table as it is, when the address has a
    point of the same type, or takes the first free slot and changes no other, or fails
    with all 128 slots in use. *)
Theorem cpuctrl_set_break_spec (addr : Z) (type : BreakPointEumType) (st : break_state) (Hwf : break_wf st) :
  let '(ok, st') := cpuctrl_set_break addr type st in
  break_wf st' ∧
  (ok = true → ∃ i b, cpuctrl_get_break i st' = Some addr ∧
    zget (break_points st') i = Some b ∧ b_type b = type ∧
    (∀ j, j ≠ i → cpuctrl_get_break j st' = cpuctrl_get_break j st) ∧
    (cpuctrl_get_break i st = None ∨ st' = st)) ∧
  (ok = false → st' = st ∧ ∀ i, 0 ≤ i < 128 → cpuctrl_get_break i st ≠ None).
Proof.
  pose proof (set_break_wf addr type st Hwf) as Hwf'. pose proof (set_break_cases addr type st Hwf) as H.
  destruct (cpuctrl_set_break addr type st) as [ok st']. split; [done|]. simpl in Hwf'.
  destruct H as [(-> & -> & i & b & Hb & Hs & Ht & Ha)|[(-> & i & b & Hi & Hb & Hs & _ & ->)|(-> & -> & Hall)]].
  - split; [|done]. intros _. exists i, b. split_and!; [apply get_break_Some; eauto|done|done|done|by right].
  - split; [|done]. intros _. exists i, (mkBreak true type addr). pose proof (bw_len _ Hwf).
    split_and!; [apply get_break_Some; [done|]; eexists; split; [apply zget_zput_eq; lia|done]
                |apply zget_zput_eq; lia|done| |].
    + intros j Hj. unfold cpuctrl_get_break. simpl. rewrite zget_zput_ne by lia. done.
    + left. unfold cpuctrl_get_break. rewrite Hb. simpl. rewrite Hs. by destruct (_ <=? _).
  - split; [done|]. intros _. split; [done|]. intros i Hi. pose proof (bw_len _ Hwf).
    destruct (zget_is_Some (break_points st) i) as [b Hb]; [lia|].
    unfold cpuctrl_get_break, DBG_CPU_CONTROL_BREAK_SETSIZE. rewrite Hb. simpl. rewrite (Hall _ _ Hb).
    by replace (128 <=? i) with false by lia.
Qed.

(** The removal of the temporary points at a stop leaves the permanent ones in the table, and
    takes from the counter what the temporary ones never added. *)
Lemma del_once_ok st : break_wf st →
  ∃ st', cpuctrl_del_all_break BREAK_POINT_TYPE_ONLY_ONCE st = Ok st' ∧ break_wf st' ∧
    (∀ i, cpuctrl_get_break i st' = (b ← zget (break_points st) i; if is_forever b then Some (b_addr b) else None)) ∧
    break_points_num st' = break_points_num st - count is_once (break_points st).
Proof.
  intros Hwf. destruct (del_all_ok BREAK_POINT_TYPE_ONLY_ONCE st Hwf) as (st' & -> & Hwf' & Hg & Hn).
  assert (Hkept : ∀ j b, zget (break_points st) j = Some b →
    zget (break_points st') j = Some (if bool_decide (b_type b = BREAK_POINT_TYPE_ONLY_ONCE) then mkBreak false (b_type b) (b_addr b) else b)).
  { intros j b Hb. rewrite (Hg _ _ Hb). unfold cleared. destruct (decide (j = 0)) as [->|Hne].
    - rewrite (bw_zero _ Hwf) in Hb. by injection Hb as <-.
    - pose proof (zget_range _ _ _ Hb). by replace (0 <? j) with true by lia. }
  exists st'. split_and!; [done|done| |].
  - intros i. destruct (zget (break_points st) i) as [b|] eqn:E; cbn [mbind option_bind].
    + pose proof (zget_range _ _ _ E) as Hi. rewrite (bw_len _ Hwf) in Hi. unfold cpuctrl_get_break, DBG_CPU_CONTROL_BREAK_SETSIZE.
      replace (128 <=? i) with false by lia. rewrite (Hkept _ _ E). unfold is_forever. cbn [mbind option_bind]. by destruct b as [[] [] ?].
    + unfold cpuctrl_get_break. destruct (zget (break_points st') i) as [b'|] eqn:E'; [|by destruct (_ <=? _)].
      apply zget_range in E'. rewrite (bw_len _ Hwf'), <- (bw_len _ Hwf) in E'. destruct (zget_is_Some _ _ E'). congruence.
  - rewrite decide_True in Hn by done. rewrite Hn.
    assert (count b_is_set (break_points st) = count is_forever (break_points st) + count is_once (break_points st)) as ->.
    { clear. induction (break_points st) as [|b l IH]; [done|]. rewrite !count_cons, IH. unfold is_forever, is_once.
      destruct b as [[] [] ?]; simpl; lia. }
    assert (count b_is_set (break_points st') = count is_forever (break_points st)) as ->; [|lia].
    apply count_pointwise; [by rewrite (bw_len _ Hwf), (bw_len _ Hwf')|]. intros j b Hb.
    rewrite (Hkept _ _ Hb). eexists. split; [done|]. unfold is_forever. by destruct b as [[] [] ?].
Qed.

(** Removing the temporary points at a stop lowers the counter for points it never
    counted: with at least as many temporary as permanent points set, no permanent point
    stops the program any more, although the table still lists them all. *)
Theorem once_points_disable_permanent (st : break_state) (Hwf : break_wf st) (Hc : break_counted st)
    (Hmany : count is_forever (break_points st) - 1 ≤ count is_once (break_points st)) :
  ∃ st', cpuctrl_del_all_break BREAK_POINT_TYPE_ONLY_ONCE st = Ok st' ∧
    (∀ i b, zget (break_points st) i = Some b → is_forever b = true → cpuctrl_get_break i st' = Some (b_addr b)) ∧
    (∀ a, a ≠ 0 → cpuctrl_is_break_point a st' = false).
Proof.
  destruct (del_once_ok st Hwf) as (st' & -> & Hwf' & Hg & Hn). exists st'. split; [done|]. split.
  - intros i b Hb Hf. rewrite Hg, Hb. cbn [mbind option_bind]. by rewrite Hf.
  - intros a Ha. rewrite is_break_zero; [lia|done|]. rewrite Hn, Hc. lia.
Qed.

(** A temporary point set while no permanent one is, such as that of the return
    command, is listed but never stops the program. *)
Theorem once_point_alone_ignored (a : Z) :
  let st := snd (cpuctrl_set_break a BREAK_POINT_TYPE_ONLY_ONCE break_init) in
  cpuctrl_get_break 1 st = Some a ∧ ∀ b, cpuctrl_is_break_point b st = (b =? 0).
Proof.
  pose proof (set_break_cases a BREAK_POINT_TYPE_ONLY_ONCE break_init break_init_wf) as H.
  assert (Hnone : search_break_point_with_type a BREAK_POINT_TYPE_ONLY_ONCE break_init = None) by done.
  split.
  - unfold cpuctrl_set_break. rewrite Hnone. reflexivity.
  - intros b. apply is_break_zero; [apply set_break_wf, break_init_wf|].
    unfold cpuctrl_set_break. rewrite Hnone. simpl. lia.
Qed.

(** ** Watch points *)

Definition watched (ws : watch_state) (addr size : Z) (type : DataWatchPointEumType) : Prop :=
  ∃ i, cpuctrl_get_data_watch_point i ws = Some (addr, size, type).

(** 128 slots, at most one point per address. *)
Record watch_wf (ws : watch_state) : Prop := {
  ww_len : zlen ws = 128;
  ww_inj : ∀ i j v w, zget ws i = Some v → zget ws j = Some w → w_is_set v = true → w_is_set w = true →
    w_addr v = w_addr w → i = j;
}.

Lemma get_watch_Some ws i x : watch_wf ws →
  cpuctrl_get_data_watch_point i ws = Some x ↔
  ∃ w, zget ws i = Some w ∧ w_is_set w = true ∧ x = (w_addr w, w_size w, w_type w).
Proof.
  intros [Hl _]. unfold cpuctrl_get_data_watch_point, DBG_CPU_CONTROL_WATCH_DATA_SETSIZE. split.
  - destruct (Z.leb_spec 128 i); [done|]. destruct (zget ws i) as [w|]; [|done]. simpl.
    destruct (w_is_set w) eqn:E; [|done]. intros [= <-]. eauto.
  - intros (w & Hw & Hs & ->). pose proof (zget_range _ _ _ Hw). destruct (Z.leb_spec 128 i); [lia|].
    rewrite Hw. simpl. by rewrite Hs.
Qed.

(** Writing a set point for [addr] over a slot that is free or has that address. *)
Lemma watch_put ws i w type addr size : watch_wf ws → zget ws i = Some w →
  (∀ j v, j ≠ i → zget ws j = Some v → w_is_set v = true → w_addr v ≠ addr) →
  (w_is_set w = true → w_addr w = addr) →
  watch_wf (zput ws i (mkWatch true type addr size)) ∧
  ∀ a s t, watched (zput ws i (mkWatch true type addr size)) a s t ↔
    if decide (a = addr) then s = size ∧ t = type else watched ws a s t.
Proof.
  intros Hwf Hw Hother Hsame. pose proof (zget_range _ _ _ Hw) as Hi. pose proof (ww_len _ Hwf) as Hl.
  assert (Hwf' : watch_wf (zput ws i (mkWatch true type addr size))).
  { split; [by rewrite zlen_zput|].
    intros j k v u [[-> ->]|[Hj Hv]]%zget_zput_inv [[-> ->]|[Hk Hu]]%zget_zput_inv Hvs Hus Ha; try done; simpl in *.
    - by destruct (Hother k u Hk Hu Hus).
    - by destruct (Hother j v Hj Hv Hvs).
    - by eapply (ww_inj _ Hwf). }
  split; [done|]. intros a s t. unfold watched. setoid_rewrite get_watch_Some; [|done..]. split.
  - intros (j & v & [[-> ->]|[Hj Hv]]%zget_zput_inv & Hvs & [= -> -> ->]); [|  |done]; simpl.
    + by rewrite decide_True by done.
    + rewrite decide_False by eauto. exists j. apply get_watch_Some; eauto.
  - destruct (decide (a = addr)) as [->|Hne].
    + intros [-> ->]. exists i. eexists. split; [by apply zget_zput_eq|done].
    + intros [j (v & Hv & Hvs & [= -> -> ->])%get_watch_Some]; [|done]. exists j, v. split; [|done].
      rewrite zget_zput_ne; [done|lia|]. intros <-. rewrite Hw in Hv. injection Hv as <-. by apply Hne, Hsame.
Qed.

(** The watch points behave as a map from addresses to a size and a type: setting one
    replaces the entry of its address and leaves the others; it fails only when the
    address has none and all 128 slots are in use. *)
Theorem cpuctrl_set_data_watch_spec (type : DataWatchPointEumType) (addr size : Z) (ws : watch_state)
    (Hwf : watch_wf ws) :
  let '(ok, ws') := cpuctrl_set_data_watch type addr size ws in
  watch_wf ws' ∧
  if ok then ∀ a s t, watched ws' a s t ↔ if decide (a = addr) then s = size ∧ t = type else watched ws a s t
  else ws' = ws ∧ count w_is_set ws = 128 ∧ ∀ s t, ¬ watched ws addr s t.
Proof.
  unfold cpuctrl_set_data_watch. destruct (find_index 0 ws (λ w, w_is_set w && _)) as [[i w]|] eqn:E.
  - apply find_index_0 in E as (Hi & Hw & [Hs Ha]%andb_prop & _). apply (watch_put _ _ w); [done|done| |lia].
    intros j v Hj Hv Hvs Heq. apply Hj. eapply (ww_inj _ Hwf); [done|done|done|done|lia].
  - pose proof (find_index_None _ _ _ E) as Hno. simpl in Hno.
    assert (Hno' : ∀ j v, zget ws j = Some v → w_is_set v = true → w_addr v ≠ addr).
    { intros j v Hv Hvs Ha. specialize (Hno j v Hv). rewrite Hvs in Hno. simpl in Hno. lia. }
    destruct (find_index 0 ws (λ w, negb (w_is_set w))) as [[i w]|] eqn:E'.
    + apply find_index_0 in E' as (Hi & Hw & Hs%negb_true_iff & _). apply (watch_put _ _ w); [done|done|eauto|congruence].
    + split_and!; [done|done| |].
      * rewrite <- (ww_len _ Hwf). apply count_all. intros j x Hx.
        by apply negb_false_iff, (find_index_None _ _ _ E' j).
      * intros s t [i (w & Hw & Hs & [= Ha _ _])%get_watch_Some]; [|done]. by eapply Hno'.
Qed.

(** A point fires on an access of the other kind too only if it is of type [RW]. *)
Definition triggers (skip : DataWatchPointEumType) (addr size : Z) (w : DbgCpuCtrlDataWatchType) : Prop :=
  w_is_set w = true ∧ w_type w ≠ skip ∧ w_addr w < addr + size ∧ addr < w_addr w + w_size w.

(** An access that does not wrap stops at the first watch point of a matching type
    that shares a byte with it, and at none when no point does. *)
Theorem break_access_spec (skip : DataWatchPointEumType) (addr size : Z) (ws : watch_state)
    (Hacc : 0 ≤ addr ∧ 0 ≤ size ∧ addr + size < 2 ^ 32)
    (Hws : ∀ i w, zget ws i = Some w → w_is_set w = true → 0 ≤ w_addr w ∧ 0 ≤ w_size w ∧ w_addr w + w_size w < 2 ^ 32) :
  let r := break_access skip addr size ws in
  (r = -1 ∧ ∀ i w, zget ws i = Some w → ¬ triggers skip addr size w) ∨
  (∃ w, zget ws r = Some w ∧ triggers skip addr size w ∧
     ∀ j v, j < r → zget ws j = Some v → ¬ triggers skip addr size v).
Proof.
  assert (Hhit : ∀ i w, zget ws i = Some w →
    watch_hit skip addr (u32 (addr + size)) w = true ↔ triggers skip addr size w).
  { intros i w Hw. unfold watch_hit, triggers. rewrite (wrap_id 32 (addr + size)) by (unfold in_width; lia).
    destruct (w_is_set w) eqn:Hs; [|by split; [|intros [? _]]]. destruct (Hws i w Hw Hs) as (? & ? & ?).
    rewrite (wrap_id 32 (w_addr w + w_size w)) by (unfold in_width; lia).
    destruct (bool_decide (w_type w = skip)) eqn:Ht.
    - apply bool_decide_eq_true in Ht. simpl. split; [done|]. by intros (_ & ? & _).
    - apply bool_decide_eq_false in Ht. simpl. split; [intros ?; split_and!; [done|done|lia|lia]|intros (_ & _ & ? & ?); lia]. }
  unfold break_access. destruct (find_index _ _ _) as [[i w]|] eqn:E.
  - right. apply find_index_0 in E as (Hi & Hw & Hp & Hall). exists w. split_and!; [done|by eapply Hhit|].
    intros j v Hj Hv Ht%(Hhit j v Hv). by rewrite (Hall j v Hj Hv) in Ht.
  - left. split; [done|]. intros i w Hw Ht%(Hhit i w Hw). by rewrite (find_index_None _ _ _ E i w Hw) in Ht.
Qed.

Section symbolic_facts.
Context `{AddrWidth}.

(** ** The function log is a bounded history *)

Record trace_wf (t : DbgFuncLogTraceType) : Prop := {
  tr_max : 0 < t_logmax t < 2 ^ 32;
  tr_len : zlen (entry_array t) = t_logmax t;
  tr_num : 0 ≤ t_lognum t ≤ t_logmax t;
  tr_cur : 0 ≤ t_current t < t_logmax t;
  tr_fill : 0 < t_lognum t < t_logmax t → t_current t = t_lognum t - 1;
}.

(** [h] lists what the log shows, the latest entry first. *)
Definition traced (t : DbgFuncLogTraceType) (h : list DbgFuncLogTraceEntryType) : Prop :=
  cpuctrl_get_func_log_trace_num t = zlen h ∧
  ∀ k, 0 ≤ k → cpuctrl_get_func_log_trace_info k t = Ok (zget h k).

(** A log of at most [max] entries, where only a change of function is recorded. *)
Definition log_entry (max : Z) (e : DbgFuncLogTraceEntryType) (h : list DbgFuncLogTraceEntryType)
    : list DbgFuncLogTraceEntryType :=
  match h with
  | e0 :: _ => if t_funcpc e0 =? t_funcpc e then h else take (Z.to_nat max) (e :: h)
  | [] => [e]
  end.

(** The offset of the [k]-th latest entry. *)
Definition trace_off (t : DbgFuncLogTraceType) (k : Z) : Z :=
  if k <=? t_current t then t_current t - k else t_logmax t - (k - t_current t).

Lemma trace_info_eq t k : trace_wf t → 0 ≤ k → cpuctrl_get_func_log_trace_info k t =
  Ok (if k <? t_lognum t then zget (entry_array t) (trace_off t k) else None).
Proof.
  intros [Hm Hl Hn Hc Hf] Hk. unfold cpuctrl_get_func_log_trace_info. fold (trace_off t k).
  destruct (Z.ltb_spec k (t_lognum t)).
  - replace (t_logmax t <=? k) with false by lia. replace (t_lognum t <=? k) with false by lia.
    destruct (zget_is_Some (entry_array t) (trace_off t k)) as [e ->]; [|done].
    rewrite Hl. unfold trace_off. case_match; lia.
  - replace (t_lognum t <=? k) with true by lia. by destruct (_ <=? _).
Qed.

Lemma zget_cons {A} (x : A) l k : zget (x :: l) k = if k =? 0 then Some x else zget l (k - 1).
Proof.
  destruct (Z.eqb_spec k 0) as [->|]; [done|]. change (x :: l) with ([x] ++ l).
  destruct (decide (k < 0)); [rewrite !zget_None by lia; done|].
  rewrite zget_app_r by (unfold zlen; simpl; lia). f_equal.
Qed.

Lemma zget_take {A} (l : list A) n k : zget (take (Z.to_nat n) l) k = if k <? n then zget l k else None.
Proof.
  unfold zget. destruct (Z.ltb_spec k 0); [by destruct (_ <? _)|]. destruct (Z.ltb_spec k n).
  - by rewrite lookup_take_lt by lia.
  - by rewrite lookup_take_ge by lia.
Qed.

Lemma trace_push t h e : trace_wf t → traced t h →
  let next := if 0 <? t_lognum t then (if t_logmax t <=? u32 (t_current t + 1) then 0 else u32 (t_current t + 1)) else 0 in
  let t' := mkTrace next (if t_lognum t <? t_logmax t then t_lognum t + 1 else t_lognum t) (t_logmax t)
              (zput (entry_array t) next e) in
  0 ≤ next < t_logmax t ∧ trace_wf t' ∧ traced t' (take (Z.to_nat (t_logmax t)) (e :: h)).
Proof.
  intros Hwf [Hh Hk] next t'. pose proof Hwf as [Hm Hl Hn Hc Hf]. unfold cpuctrl_get_func_log_trace_num in Hh.
  assert (Hnext : (t_lognum t = 0 ∧ next = 0) ∨
    0 < t_lognum t ∧ next = if t_current t + 1 =? t_logmax t then 0 else t_current t + 1).
  { unfold next. destruct (Z.ltb_spec 0 (t_lognum t)); [right|left; lia]. split; [done|].
    rewrite wrap_id by (unfold in_width; lia).
    destruct (Z.eqb_spec (t_current t + 1) (t_logmax t)), (Z.leb_spec (t_logmax t) (t_current t + 1)); lia. }
  assert (Hr : 0 ≤ next < t_logmax t) by (destruct Hnext as [[? ->]|[? ->]]; [|case_match]; lia).
  clearbody next.
  assert (Hnum : (if t_lognum t <? t_logmax t then t_lognum t + 1 else t_lognum t) =
    Z.min (t_lognum t + 1) (t_logmax t)) by (destruct (Z.ltb_spec (t_lognum t) (t_logmax t)); lia).
  unfold t' in *. rewrite Hnum. clear t' Hnum.
  set (t' := mkTrace next (Z.min (t_lognum t + 1) (t_logmax t)) (t_logmax t) (zput (entry_array t) next e)).
  assert (Hwf' : trace_wf t').
  { split; simpl; [lia|by rewrite zlen_zput|lia|lia|]. intros Hlt.
    destruct Hnext as [[? ->]|[? ->]]; [lia|]. destruct (Z.eqb_spec (t_current t + 1) (t_logmax t)); lia. }
  split; [done|]. split; [done|]. split.
  - unfold zlen in *. rewrite length_take. simpl. lia.
  - intros k Hk0. rewrite trace_info_eq by done. simpl. rewrite zget_take, zget_cons. f_equal.
    destruct (Z.eqb_spec k 0) as [->|Hne].
    + replace (0 <? t_logmax t) with true by lia.
      replace (0 <? Z.min _ _) with true by lia.
      unfold trace_off. simpl. replace (0 <=? next) with true by lia. rewrite Z.sub_0_r. apply zget_zput_eq. lia.
    + assert (Hkk := Hk (k - 1)). rewrite trace_info_eq in Hkk by (done || lia).
      assert (Hoff : k - 1 < t_lognum t → k < t_logmax t → trace_off t' k = trace_off t (k - 1) ∧ trace_off t' k ≠ next).
      { unfold trace_off. simpl. intros. destruct Hnext as [[? ->]|[? ->]]; [lia|]. repeat case_match; lia. }
      destruct (Z.ltb_spec k (t_logmax t)) as [Hlt|Hge].
      * injection (Hkk ltac:(lia)) as <-. destruct (Z.ltb_spec (k - 1) (t_lognum t)).
        -- destruct Hoff as [<- Hoff]; [done|done|]. rewrite zget_zput_ne by lia.
           replace (k <? _) with true by lia. done.
        -- replace (k <? _) with false by lia. done.
      * replace (k <? _) with false by lia. done.
Qed.

Lemma func_log_ok (pc sp : Z) (ss : symbol_state) (t : DbgFuncLogTraceType)
    (h : list DbgFuncLogTraceEntryType) (Hss : symbols_wf ss) (Hwf : trace_wf t) (Hh : traced t h)
    (Hpc : in_width 32 pc)
    (Haddr : ∀ id s, zget (symbols (symbol_func ss)) id = Some s → is_addr (s_addr s)) :
  ∃ found ss' t', cpuctrl_set_func_log_trace pc sp ss t = Ok (ss', t') ∧ symbols_wf ss' ∧ trace_wf t' ∧
    (symbols (symbol_func ss') = symbols (symbol_func ss) ∧ symbol_gl ss' = symbol_gl ss) ∧
    ((found = None ∧ traced t' h ∧
       ∀ j s, zget (symbols (symbol_func ss)) j = Some s → contains pc s = false) ∨
     (∃ id s, found = Some id ∧ zget (symbols (symbol_func ss)) id = Some s ∧ contains pc s = true ∧
       traced t' (log_entry (t_logmax t)
         (mkTraceEntry sp (u32 id) (u32 (pc - s_addr s)) (u32 (s_addr s)) (s_name s)) h))).
Proof.
  destruct Hss as [Hf Hg]. unfold cpuctrl_set_func_log_trace, symbol_pc2funcid.
  destruct (table_lookup_ok pc (symbol_func ss) Hf) as (id & a & tb & -> & Htb & Hsy & Hsp & _).
  cbn [mbind outcome_bind]. destruct Hsp as [(-> & -> & Hnone)|(s & Hs & Hct & -> & _)].
  { simpl. exists None, (mkSymbols tb (symbol_gl ss)), t. split_and!; [done..|]. left. by split_and!. }
  pose proof (zget_range _ _ _ Hs) as Hid. replace (id <? 0) with false by lia.
  unfold symbol_funcid2funcname. replace (id <? 0) with false by lia. cbn [symbol_func].
  cbn [from_option Datatypes.id].
  rewrite Hsy, Hs. cbn [oob mbind outcome_bind].
  set (e := mkTraceEntry sp _ _ _ _).
  assert (Hpos : u32 (s_addr s) = s_addr s).
  { apply wrap_id. specialize (Haddr _ _ Hs). unfold contains, in_width, is_addr in *. lia. }
  destruct (trace_push t h e Hwf Hh) as (Hr & Hwf' & Htr). pose proof Hh as [Hnum Hk].
  unfold cpuctrl_get_func_log_trace_num in Hnum. specialize (Hk 0 ltac:(lia)).
  rewrite trace_info_eq in Hk by (done || lia). injection Hk as Hk. unfold trace_off in Hk.
  replace (0 <=? t_current t) with true in Hk by (destruct Hwf; lia). rewrite Z.sub_0_r in Hk.
  destruct (Z.ltb_spec 0 (t_lognum t)) as [Hpos'|Hz].
  - destruct h as [|e0 h]; [unfold zlen in Hnum; simpl in Hnum; lia|]. rewrite Hk. cbn [oob zget mbind outcome_bind].
    change (zget (e0 :: h) 0) with (Some e0). cbn [oob mbind outcome_bind].
    assert (He : s_addr s = t_funcpc e) by done. rewrite He.
    assert (Hlog : (if t_funcpc e0 =? t_funcpc e then e0 :: h else take (Z.to_nat (t_logmax t)) (e :: e0 :: h)) =
      log_entry (t_logmax t) (mkTraceEntry sp (u32 id) (u32 (pc - s_addr s)) (u32 (s_addr s)) (s_name s)) (e0 :: h)) by done.
    destruct (t_funcpc e0 =? t_funcpc e) eqn:E.
    + exists (Some id), (mkSymbols tb (symbol_gl ss)), t. split_and!; [done..|].
      right. exists id, s. split_and!; [done..|]. by rewrite <- Hlog.
    + eexists (Some id), _, _. cbn [mbind outcome_bind oob].
      erewrite (proj2 (zset_Some _ _ _ _)) by (split; [destruct Hwf; lia|done]). cbn [mbind outcome_bind oob].
      split_and!; [done|done|exact Hwf'|done|done|]. right. exists id, s. split_and!; [done..|]. by rewrite <- Hlog.
  - destruct h as [|e0 h]; [|unfold zlen in Hnum; simpl in Hnum; lia]. cbn [mbind outcome_bind].
    eexists (Some id), _, _.
    erewrite (proj2 (zset_Some _ _ _ _)) by (split; [destruct Hwf; lia|done]). cbn [mbind outcome_bind oob].
    split_and!; [done|done|exact Hwf'|done|done|]. right. exists id, s. split_and!; [done..|]. fold e. simpl.
    destruct (Z.to_nat (t_logmax t)) eqn:?; [destruct Hwf; lia|].
    simpl in Htr. by rewrite take_nil in Htr.
Qed.

(** C13: The function log of a core is a bounded history: an executed program counter adds
    the function that contains it in front, unless that function is already the latest,
    and the oldest entry is dropped when the log is full; outside every function nothing
    is logged. *)
Theorem func_log_refines_history (pc sp : Z) (ss : symbol_state) (t : DbgFuncLogTraceType)
    (h : list DbgFuncLogTraceEntryType) (Hss : symbols_wf ss) (Hwf : trace_wf t) (Hh : traced t h)
    (Hpc : in_width 32 pc)
    (Haddr : ∀ id s, zget (symbols (symbol_func ss)) id = Some s → is_addr (s_addr s)) :
  ∃ found ss' t', cpuctrl_set_func_log_trace pc sp ss t = Ok (ss', t') ∧ symbols_wf ss' ∧ trace_wf t' ∧
    ((found = None ∧ traced t' h ∧
       ∀ j s, zget (symbols (symbol_func ss)) j = Some s → contains pc s = false) ∨
     (∃ id s, found = Some id ∧ zget (symbols (symbol_func ss)) id = Some s ∧ contains pc s = true ∧
       traced t' (log_entry (t_logmax t)
         (mkTraceEntry sp (u32 id) (u32 (pc - s_addr s)) (u32 (s_addr s)) (s_name s)) h))).
Proof.
  destruct (func_log_ok pc sp ss t h Hss Hwf Hh Hpc Haddr) as (found & ss' & t' & ? & ? & ? & _ & ?).
  by exists found, ss', t'.
Qed.

(** ** The frames of a stack variable *)

(** The stack pointers recorded, the oldest first. *)
Definition frame_stack (f : DbgFuncFrameType) : list Z := take (Z.to_nat (f_lognum f)) (f_sp f).

Record frame_wf (f : DbgFuncFrameType) : Prop := {
  fr_len : zlen (f_sp f) = 1024;
  fr_num : 0 ≤ f_lognum f ≤ 1024;
  fr_cur : 0 < f_lognum f → f_current f = f_lognum f - 1;
  fr_nodup : NoDup (frame_stack f);
}.

Lemma frame_stack_len f : frame_wf f → zlen (frame_stack f) = f_lognum f.
Proof. intros [Hl Hn _ _]. unfold frame_stack, zlen in *. rewrite length_take. lia. Qed.

Lemma frame_stack_get f i : zget (frame_stack f) i = if i <? f_lognum f then zget (f_sp f) i else None.
Proof. apply zget_take. Qed.

Lemma find_frame_ok n prev sp f : frame_wf f → 0 ≤ prev → prev + Z.of_nat n = f_lognum f →
  ∃ o, find_frame n prev sp f = Ok o ∧
    match o with
    | Some k => prev ≤ k < f_lognum f ∧ zget (f_sp f) k = Some sp
    | None => ∀ k, prev ≤ k < f_lognum f → zget (f_sp f) k ≠ Some sp
    end.
Proof.
  intros Hwf. revert prev. induction n as [|n IH]; intros prev Hp Hn; cbn [find_frame].
  { exists None. split; [done|]. lia. }
  destruct (zget_is_Some (f_sp f) prev) as [x Hx]; [pose proof (fr_len _ Hwf); pose proof (fr_num _ Hwf); lia|].
  rewrite Hx. cbn [oob mbind outcome_bind]. destruct (Z.eqb_spec x sp) as [->|Hne].
  - exists (Some prev). split; [done|]. split; [lia|done].
  - destruct (IH (prev + 1)) as (o & -> & Ho); [lia|lia|]. exists o. split; [done|]. destruct o as [k|].
    + destruct Ho. split; [lia|done].
    + intros k Hk. destruct (decide (k = prev)) as [->|]; [congruence|apply Ho; lia].
Qed.

(** Cutting the recorded frames after position [k]. *)
Lemma frame_cut f k sp : frame_wf f → 0 ≤ k < f_lognum f → zget (f_sp f) k = Some sp →
  frame_wf (mkFrame k (k + 1) (f_sp f)) ∧
  ∃ l2, frame_stack f = take (Z.to_nat k) (f_sp f) ++ sp :: l2 ∧
    frame_stack (mkFrame k (k + 1) (f_sp f)) = take (Z.to_nat k) (f_sp f) ++ [sp].
Proof.
  intros [Hl Hn Hc Hd] Hk Hsp.
  assert (Hk' : f_sp f !! Z.to_nat k = Some sp) by (unfold zget in Hsp; by destruct (k <? 0)).
  assert (Hcut : frame_stack (mkFrame k (k + 1) (f_sp f)) = take (Z.to_nat k) (f_sp f) ++ [sp]).
  { unfold frame_stack. simpl. replace (Z.to_nat (k + 1)) with (S (Z.to_nat k)) by lia. by apply take_S_r. }
  assert (Hall : frame_stack f = (take (Z.to_nat k) (f_sp f) ++ [sp]) ++ drop (S (Z.to_nat k)) (frame_stack f)).
  { rewrite <- (take_drop (S (Z.to_nat k)) (frame_stack f)) at 1. f_equal. rewrite <- Hcut. unfold frame_stack. simpl.
    rewrite take_take. f_equal. lia. }
  split.
  - split; simpl; [done|lia|lia|]. rewrite Hcut. rewrite Hall in Hd. by apply NoDup_app in Hd as [? _].
  - eexists. split; [rewrite Hall, <- app_assoc; done|done].
Qed.

Lemma frame_push_ok sp f : frame_wf f →
  (∃ l1 l2 f', frame_stack f = l1 ++ sp :: l2 ∧ frame_push sp f = Ok f' ∧ frame_wf f' ∧ frame_stack f' = l1 ++ [sp]) ∨
  ((sp ∉ frame_stack f) ∧ zlen (frame_stack f) < DBG_STACK_LOG_SIZE ∧
   ∃ f', frame_push sp f = Ok f' ∧ frame_wf f' ∧ frame_stack f' = frame_stack f ++ [sp]) ∨
  ((sp ∉ frame_stack f) ∧ zlen (frame_stack f) = DBG_STACK_LOG_SIZE ∧ frame_push sp f = Fault OutOfBounds).
Proof.
  intros Hwf. pose proof Hwf as [Hl Hn Hc Hd]. rewrite (frame_stack_len _ Hwf). unfold DBG_STACK_LOG_SIZE.
  assert (Hnew : ∀ next, next = f_lognum f → next < 1024 → sp ∉ frame_stack f →
    ∃ f', (l ← oob (zset (f_sp f) next sp); Ok (mkFrame next (u32 (f_lognum f + 1)) l)) = Ok f' ∧
      frame_wf f' ∧ frame_stack f' = frame_stack f ++ [sp]).
  { intros next -> Hlt Hnin. erewrite (proj2 (zset_Some _ _ _ _)) by (split; [lia|done]).
    cbn [oob mbind outcome_bind]. rewrite wrap_id by (unfold in_width; lia). eexists. split; [done|].
    assert (Hst : frame_stack (mkFrame (f_lognum f) (f_lognum f + 1) (zput (f_sp f) (f_lognum f) sp)) =
      frame_stack f ++ [sp]).
    { unfold frame_stack, zput. simpl. replace (Z.to_nat (f_lognum f + 1)) with (S (Z.to_nat (f_lognum f))) by lia.
      erewrite take_S_r by (apply list_lookup_insert_eq; unfold zlen in Hl; lia). f_equal.
      apply take_insert_ge. lia. }
    split; [|done]. split; simpl; [by rewrite zlen_zput|lia|lia|]. rewrite Hst. apply NoDup_app.
    split_and!; [done| |apply NoDup_singleton]. intros x Hx ->%list_elem_of_singleton. done. }
  unfold frame_push. destruct (Z.ltb_spec 0 (f_lognum f)) as [Hpos|Hz].
  - destruct (zget_is_Some (f_sp f) (f_current f)) as [x Hx]; [lia|].
    rewrite Hx. cbn [oob mbind outcome_bind]. rewrite Hc in * by lia.
    destruct (Z.eqb_spec x sp) as [->|Hne].
    + left. destruct (frame_cut f (f_lognum f - 1) sp Hwf ltac:(lia) Hx) as (_ & l2 & Hall & Hcut).
      eexists _, l2, f. split_and!; [done|done|done|]. rewrite <- Hcut. unfold frame_stack. simpl. f_equal. lia.
    + destruct (find_frame_ok (Z.to_nat (f_lognum f)) 0 sp f Hwf) as (o & -> & Ho); [lia|lia|].
      cbn [mbind outcome_bind]. destruct o as [k|].
      * left. destruct Ho as [Hk Hsp]. destruct (frame_cut f k sp Hwf ltac:(lia) Hsp) as (Hwf' & l2 & Hall & Hcut).
        eexists _, l2, _. by split_and!.
      * assert (Hnin : sp ∉ frame_stack f).
        { intros [i Hi]%list_elem_of_lookup_1. rewrite <- zget_lookup, frame_stack_get in Hi.
          destruct (Z.ltb_spec (Z.of_nat i) (f_lognum f)); [|done]. eapply Ho; [|exact Hi]. lia. }
        right. replace (u32 (f_lognum f - 1 + 1)) with (f_lognum f) by (rewrite wrap_id; unfold in_width; lia).
        unfold assert_c, DBG_STACK_LOG_SIZE. replace (f_lognum f <=? 1024) with true by lia. cbn [mbind outcome_bind].
        destruct (decide (f_lognum f < 1024)) as [Hlt|Hge].
        -- left. split; [done|]. split; [done|]. by apply Hnew.
        -- right. split_and!; [done|lia|]. unfold zset. replace (f_lognum f <? zlen (f_sp f)) with false by lia.
           by rewrite andb_false_r.
  - right. left. cbn [mbind outcome_bind].
    assert (Hnin : sp ∉ frame_stack f).
    { unfold frame_stack. replace (Z.to_nat (f_lognum f)) with 0%nat by lia. apply not_elem_of_nil. }
    split_and!; [done|lia|]. apply Hnew; [lia|lia|done].
Qed.

Definition frames_wf (fs : list DbgFuncFrameType) : Prop := zlen fs = DBG_STACK_NUM ∧ Forall frame_wf fs.

(** The symbol state a lookup leaves is well formed and has the same symbols. *)
Definition same_symbols (ss ss' : symbol_state) : Prop :=
  symbols_wf ss' ∧ symbols (symbol_func ss') = symbols (symbol_func ss) ∧
  symbols (symbol_gl ss') = symbols (symbol_gl ss).

Lemma set_stack_pointer_ok (sp : Z) (ss : symbol_state) (fs : list DbgFuncFrameType)
    (Hss : symbols_wf ss) (Hfs : frames_wf fs) (Hgl : symbol_get_gl_num ss ≤ DBG_STACK_NUM) :
  (∃ ss', cpuctrl_set_stack_pointer sp ss fs = Ok (ss', fs) ∧ same_symbols ss ss' ∧
     ∀ j s, zget (symbols (symbol_gl ss)) j = Some s → contains sp s = false) ∨
  (∃ glid s f, zget (symbols (symbol_gl ss)) glid = Some s ∧ contains sp s = true ∧ zget fs glid = Some f ∧
     ((∃ l1 l2 ss' f', frame_stack f = l1 ++ sp :: l2 ∧ frame_stack f' = l1 ++ [sp] ∧ same_symbols ss ss' ∧
         cpuctrl_set_stack_pointer sp ss fs = Ok (ss', zput fs glid f') ∧ frames_wf (zput fs glid f')) ∨
      (∃ ss' f', (sp ∉ frame_stack f) ∧ zlen (frame_stack f) < DBG_STACK_LOG_SIZE ∧ frame_stack f' = frame_stack f ++ [sp] ∧
         same_symbols ss ss' ∧
         cpuctrl_set_stack_pointer sp ss fs = Ok (ss', zput fs glid f') ∧ frames_wf (zput fs glid f')) ∨
      ((sp ∉ frame_stack f) ∧ zlen (frame_stack f) = DBG_STACK_LOG_SIZE ∧
         cpuctrl_set_stack_pointer sp ss fs = Fault OutOfBounds))).
Proof.
  destruct Hss as [Hfn Hg], Hfs as [Hlen Hall]. unfold cpuctrl_set_stack_pointer, symbol_addr2glid.
  destruct (table_lookup_ok sp (symbol_gl ss) Hg) as (id & a & tb & -> & Htb & Hsy & Hsp & _).
  cbn [mbind outcome_bind]. destruct Hsp as [(-> & -> & Hnone)|(s & Hs & Hct & -> & _)].
  { left. eexists. by split_and!. }
  right. assert (Hsame : same_symbols ss (mkSymbols (symbol_func ss) tb)) by by split_and!.
  pose proof (zget_range _ _ _ Hs) as Hid. unfold symbol_get_gl_num in Hgl.
  destruct (zget_is_Some fs id) as [f Hf]; [lia|]. exists id, s, f. split_and!; [done..|].
  replace (id <? 0) with false by lia. rewrite Hf. cbn [oob mbind outcome_bind].
  assert (Hset : ∀ f', zset fs id f' = Some (zput fs id f')) by (intros f'; apply zset_Some; split; [lia|done]).
  assert (Hwf : ∀ f', frame_wf f' → frames_wf (zput fs id f')).
  { intros f' Hf'. split; [by rewrite zlen_zput|]. unfold zput. by apply Forall_insert. }
  rewrite Forall_forall in Hall. destruct (frame_push_ok sp f) as [(l1 & l2 & f' & ? & Hp & ? & ?)|[(? & ? & f' & Hp & ? & ?)|(? & ? & Hp)]].
  - by eapply Hall, zget_elem.
  - left. rewrite Hp. cbn [mbind outcome_bind]. rewrite Hset. eexists l1, l2, _, f'. split_and!; [done|done|by apply Hsame..|done|by apply Hwf].
  - right; left. rewrite Hp. cbn [mbind outcome_bind]. rewrite Hset. eexists _, f'. split_and!; [done|done|done|by apply Hsame..|done|by apply Hwf].
  - right; right. rewrite Hp. by split_and!.
Qed.

(** The frames of a stack variable follow the stack pointer: a recorded value cuts the
    stack back to it, a new value is pushed, values never repeat and no other variable's
    frames change.  With 1024 values recorded a new one passes the check meant to stop it
    and is written past the end of the array. *)
Theorem cpuctrl_set_stack_pointer_spec (sp : Z) (ss : symbol_state) (fs : list DbgFuncFrameType)
    (Hss : symbols_wf ss) (Hfs : frames_wf fs) (Hgl : symbol_get_gl_num ss ≤ DBG_STACK_NUM) :
  (∃ ss', cpuctrl_set_stack_pointer sp ss fs = Ok (ss', fs) ∧
     ∀ j s, zget (symbols (symbol_gl ss)) j = Some s → contains sp s = false) ∨
  (∃ glid s f, zget (symbols (symbol_gl ss)) glid = Some s ∧ contains sp s = true ∧ zget fs glid = Some f ∧
     ((∃ l1 l2 ss' f', frame_stack f = l1 ++ sp :: l2 ∧ frame_stack f' = l1 ++ [sp] ∧
         cpuctrl_set_stack_pointer sp ss fs = Ok (ss', zput fs glid f') ∧ frames_wf (zput fs glid f')) ∨
      (∃ ss' f', (sp ∉ frame_stack f) ∧ zlen (frame_stack f) < DBG_STACK_LOG_SIZE ∧ frame_stack f' = frame_stack f ++ [sp] ∧
         cpuctrl_set_stack_pointer sp ss fs = Ok (ss', zput fs glid f') ∧ frames_wf (zput fs glid f')) ∨
      ((sp ∉ frame_stack f) ∧ zlen (frame_stack f) = DBG_STACK_LOG_SIZE ∧
         cpuctrl_set_stack_pointer sp ss fs = Fault OutOfBounds))).
Proof.
  destruct (set_stack_pointer_ok sp ss fs Hss Hfs Hgl) as [(ss' & ? & _ & ?)|(glid & s & f & ? & ? & ? & Hc)]; [left; eauto|].
  right. exists glid, s, f. split_and!; [done..|].
  destruct Hc as [(l1 & l2 & ss' & f' & ? & ? & _ & ? & ?)|[(ss' & f' & ? & ? & ? & _ & ? & ?)|?]].
  - left. by exists l1, l2, ss', f'.
  - right; left. by exists ss', f'.
  - by right; right.
Qed.

(** ** Access statistics *)

Definition context_key (c : DataAccessContextType) : Z * Z * Z * Z := (a_type c, a_core_id c, a_sp c, a_funcid c).
Fixpoint sum_num (l : list DataAccessContextType) : Z :=
  match l with [] => 0 | c :: l => a_num c + sum_num l end.

(** One context per key; the total is the sum of the contexts, up to wrap-around. *)
Record access_wf (info : DataAccessInfoType) : Prop := {
  ac_nodup : NoDup (context_key <$> access_context info);
  ac_sum : u64 (access_num info) = u64 (sum_num (access_context info));
}.

(** How often a key was counted. *)
Fixpoint key_count (key : Z * Z * Z * Z) (l : list DataAccessContextType) : Z :=
  match l with
  | [] => 0
  | c :: l => if bool_decide (context_key c = key) then a_num c else key_count key l
  end.
Definition access_count (key : Z * Z * Z * Z) (info : DataAccessInfoType) : Z := key_count key (access_context info).

Lemma same_context_key type core sp funcid c :
  same_context type core sp funcid c = bool_decide (context_key c = (type, core, sp, funcid)).
Proof.
  unfold same_context, context_key. case_bool_decide as Hd.
  - injection Hd as -> -> -> ->. rewrite !Z.eqb_refl. done.
  - apply not_true_iff_false. intros Ht. apply Hd. repeat f_equal; lia.
Qed.

Lemma find_index_ext {A} (p q : A → bool) i l : (∀ x, p x = q x) → find_index i l p = find_index i l q.
Proof. intros He. revert i. induction l as [|x l IH]; intros i; simpl; [done|]. by rewrite He, IH. Qed.

Lemma sum_num_zput l i c d : zget l i = Some c → sum_num (zput l i d) = sum_num l - a_num c + a_num d.
Proof.
  unfold zget, zput. destruct (i <? 0); [done|]. generalize (Z.to_nat i). clear i.
  induction l as [|x l IH]; intros i Hi; [done|]. destruct i as [|i]; simpl in *.
  - injection Hi as <-. lia.
  - rewrite (IH i) by done. lia.
Qed.

Lemma sum_num_app l1 l2 : sum_num (l1 ++ l2) = sum_num l1 + sum_num l2.
Proof. induction l1; simpl; lia. Qed.

Lemma u64_succ a b : u64 a = u64 b → u64 (a + 1) = u64 (b + 1).
Proof. unfold wrap. intros Hab. rewrite (Z.add_mod a), (Z.add_mod b), Hab by lia. done. Qed.
Lemma u64_u64 a : u64 (u64 a) = u64 a.
Proof. unfold wrap. by rewrite Z.mod_mod by lia. Qed.

(** The context found, or the end of the list. *)
Lemma context_add_ok type core sp funcid clocks info : access_wf info →
  access_wf (context_add type core sp funcid clocks info).
Proof.
  intros [Hnd Hsum]. unfold context_add.
  rewrite (find_index_ext _ (λ c, bool_decide (context_key c = (type, core, sp, funcid))) 0)
    by (intros; apply same_context_key).
  destruct (find_index _ _ _) as [[i c]|] eqn:E.
  - apply find_index_0 in E as (Hi & Hc & _ & _). split; simpl.
    + replace (context_key <$> zput _ i _) with (context_key <$> access_context info); [done|].
      apply zget_ext. intros j Hj. unfold zget, zput in *. destruct (j <? 0) eqn:?, (i <? 0) eqn:?; try lia.
      rewrite list_fmap_insert. destruct (decide (i = j)) as [->|]; [|rewrite list_lookup_insert_ne by lia; done].
      rewrite list_lookup_insert_eq by (rewrite length_fmap; unfold zlen in Hi; lia).
      by rewrite list_lookup_fmap, Hc.
    + rewrite (sum_num_zput _ _ _ _ Hc). simpl. rewrite u64_u64. apply u64_succ in Hsum. rewrite Hsum.
      unfold wrap. rewrite Zplus_mod_idemp_r. f_equal. lia.
  - pose proof (find_index_None _ _ _ E) as Hno. split; simpl.
    + rewrite fmap_app. apply NoDup_app. split_and!; [done| |apply NoDup_singleton].
      intros k [c [-> Hc]]%list_elem_of_fmap Hk%list_elem_of_singleton.
      apply list_elem_of_lookup_1 in Hc as [n Hn]. rewrite <- zget_lookup in Hn.
      apply Hno in Hn. by rewrite bool_decide_eq_true_2 in Hn by done.
    + rewrite sum_num_app. simpl. rewrite u64_u64. apply u64_succ in Hsum. rewrite Hsum. f_equal.
Qed.

Lemma find_index_shift {A} (p : A → bool) i l :
  find_index (i + 1) l p = (λ '(j, x), (j + 1, x)) <$> find_index i l p.
Proof. revert i. induction l as [|x l IH]; intros i; simpl; [done|]. destruct (p x); [done|apply IH]. Qed.

Lemma key_count_app key l c : key_count key (l ++ [c]) =
  if existsb (λ d, bool_decide (context_key d = key)) l then key_count key l
  else if bool_decide (context_key c = key) then a_num c else 0.
Proof. induction l as [|d l IH]; simpl; [done|]. destruct (bool_decide (context_key d = key)); [done|apply IH]. Qed.

Lemma key_count_update key bump fresh l :
  (∀ c, context_key (bump c) = context_key c ∧ a_num (bump c) = u64 (a_num c + 1)) →
  context_key fresh = key → a_num fresh = 1 →
  ∀ k, key_count k (match find_index 0 l (λ c, bool_decide (context_key c = key)) with
                    | Some (i, c) => zput l i (bump c) | None => l ++ [fresh] end) =
       if bool_decide (k = key) then u64 (key_count key l + 1) else key_count k l.
Proof.
  intros Hb Hf Hn k. induction l as [|d l IH].
  { simpl. rewrite Hf, Hn. repeat case_bool_decide; first [done | congruence]. }
  simpl find_index. simpl key_count at 2 3. destruct (bool_decide (context_key d = key)) eqn:E.
  - change (zput (d :: l) 0 (bump d)) with (bump d :: l). simpl. destruct (Hb d) as [-> ->].
    apply bool_decide_eq_true in E. rewrite E. repeat case_bool_decide; congruence.
  - rewrite (find_index_shift _ 0). destruct (find_index 0 l _) as [[i c]|] eqn:E'; simpl.
    + apply find_index_0 in E' as (Hi & _).
      assert (Hz : zput (d :: l) (i + 1) (bump c) = d :: zput l i (bump c)).
      { unfold zput. replace (Z.to_nat (i + 1)) with (S (Z.to_nat i)) by lia. done. }
      rewrite Hz. simpl. rewrite IH. apply bool_decide_eq_false in E. repeat case_bool_decide; congruence.
    + rewrite IH. apply bool_decide_eq_false in E. repeat case_bool_decide; congruence.
Qed.

(** Recording an access counts it once, for its own kind, core, stack and function:
    the total and the count of that key grow by one, every other count stays, and the
    contexts keep distinct keys that add up to the total. *)
Theorem context_add_spec (type core sp funcid clocks : Z) (info : DataAccessInfoType) (Hwf : access_wf info) :
  let info' := context_add type core sp funcid clocks info in
  access_wf info' ∧ access_num info' = u64 (access_num info + 1) ∧
  ∀ key, access_count key info' =
    if bool_decide (key = (type, core, sp, funcid)) then u64 (access_count key info + 1) else access_count key info.
Proof.
  split_and!; [by apply context_add_ok|done|]. intros key. unfold access_count, context_add. cbn [access_context].
  rewrite (find_index_ext _ (λ c, bool_decide (context_key c = (type, core, sp, funcid))) 0)
    by (intros; apply same_context_key).
  rewrite (key_count_update (type, core, sp, funcid)); [|done..]. by case_bool_decide as Hk; [rewrite Hk|].
Qed.

Definition table_ok (tbl : access_table) : Prop :=
  Forall (λ o, match o with Some info => access_wf info | None => True end) tbl.

Lemma set_access_ok type core sp funcid clocks access_addr n i prev ss tbl :
  symbols_wf ss → zlen tbl = symbol_get_gl_num ss → table_ok tbl →
  ∃ ss' tbl', set_access_loop n i prev type access_addr sp core funcid clocks ss tbl = Ok (ss', tbl') ∧
    symbols_wf ss' ∧ symbol_func ss' = symbol_func ss ∧ symbols (symbol_gl ss') = symbols (symbol_gl ss) ∧ zlen tbl' = zlen tbl ∧ table_ok tbl' ∧
    ∀ j, zget tbl j = Some None ↔ zget tbl' j = Some None.
Proof.
  revert i prev ss tbl. induction n as [|n IH]; intros i prev ss tbl Hss Hlen Htb; cbn [set_access_loop].
  { eexists _, _. by split_and!. }
  destruct Hss as [Hf Hg]. unfold symbol_addr2glid at 1.
  destruct (table_lookup_ok (uaddr (access_addr + i)) (symbol_gl ss) Hg) as (id & a & g & -> & Hg' & Hsy & Hsp & _).
  cbn [mbind outcome_bind]. set (ss1 := mkSymbols (symbol_func ss) g).
  assert (Hss1 : symbols_wf ss1) by by split.
  assert (Hnum : symbol_get_gl_num ss1 = symbol_get_gl_num ss) by (unfold symbol_get_gl_num; simpl; by rewrite Hsy).
  assert (Hskip : ∀ p, ∃ ss' tbl', set_access_loop n (i + 1) p type access_addr sp core funcid clocks ss1 tbl = Ok (ss', tbl') ∧
    symbols_wf ss' ∧ symbol_func ss' = symbol_func ss ∧ symbols (symbol_gl ss') = symbols (symbol_gl ss) ∧ zlen tbl' = zlen tbl ∧ table_ok tbl' ∧
    ∀ j, zget tbl j = Some None ↔ zget tbl' j = Some None).
  { intros p. rewrite <- Hsy. change (symbols g) with (symbols (symbol_gl ss1)).
    destruct (IH (i + 1) p ss1 tbl) as (ss2 & tbl2 & ?); [done|lia|done|]. by exists ss2, tbl2. }
  destruct (Z.ltb_spec id 0) as [|Hid]; [apply Hskip|]. destruct (id =? prev); [apply Hskip|].
  destruct Hsp as [(-> & _)|(s & Hs & _)]; [lia|]. pose proof (zget_range _ _ _ Hs).
  destruct (zget_is_Some tbl id) as [o Ho]; [unfold symbol_get_gl_num in *; lia|].
  rewrite Ho. cbn [oob mbind outcome_bind]. destruct o as [info|]; [|apply Hskip].
  unfold cpuctrl_access_context_add, symbol_addr2glid at 1.
  destruct (table_lookup_ok sp (symbol_gl ss1) (proj2 Hss1)) as (id2 & a2 & g2 & -> & Hg2 & Hsy2 & _ & _).
  cbn [mbind outcome_bind]. set (ss2 := mkSymbols (symbol_func ss1) g2).
  set (info' := if id2 <? 0 then info else context_add type core (u32 id2) funcid clocks info).
  replace (if id2 <? 0 then _ else _) with (@Ok (symbol_state * DataAccessInfoType) (ss2, info'))
    by (unfold info'; by destruct (id2 <? 0)).
  cbn [mbind outcome_bind].
  assert (Hinfo : access_wf info).
  { eapply (Forall_lookup_1 _ _ (Z.to_nat id) (Some info) Htb). unfold zget in Ho. by destruct (id <? 0). }
  assert (Hinfo' : access_wf info') by (unfold info'; case_match; [done|by apply context_add_ok]).
  destruct (IH (i + 1) id ss2 (zput tbl id (Some info'))) as (ss' & tbl' & -> & Hss' & Hfn' & Hsy' & Hl' & Ht' & Hn').
  { by split. }
  { rewrite zlen_zput, Hlen, <- Hnum. unfold symbol_get_gl_num, ss2. cbn [symbol_gl]. by rewrite Hsy2. }
  { unfold zput. by apply Forall_insert. }
  rewrite zlen_zput in Hl'. exists ss', tbl'. split_and!; [done|done|done|rewrite Hsy'; simpl; by rewrite Hsy2|done|done|].
  intros j. rewrite <- Hn'. destruct (decide (j = id)) as [->|Hne]; [|by rewrite zget_zput_ne by lia].
  rewrite zget_zput_eq by (by eapply zget_range). rewrite Ho. split; discriminate.
Qed.

(** Watching the guest's accesses never fails: for any access to any address the
    statistics stay consistent, no entry appears or disappears, and the stop reported is
    the one the watch points of the kind of access ask for. *)
Theorem access_statistics_consistent (access_addr size sp core funcid clocks : Z) (ss : symbol_state)
    (tbl : access_table) (ws : watch_state)
    (Hss : symbols_wf ss) (Hlen : zlen tbl = symbol_get_gl_num ss) (Htb : table_ok tbl) :
  (∃ ss' tbl', cpuctrl_is_break_read_access access_addr size sp core funcid clocks ss tbl ws =
     Ok (break_access DATA_WATCH_POINT_TYPE_WRITE access_addr size ws, ss', tbl') ∧
     symbols_wf ss' ∧ zlen tbl' = symbol_get_gl_num ss' ∧ table_ok tbl' ∧
     ∀ j, zget tbl j = Some None ↔ zget tbl' j = Some None) ∧
  (∃ ss' tbl', cpuctrl_is_break_write_access access_addr size sp core funcid clocks ss tbl ws =
     Ok (break_access DATA_WATCH_POINT_TYPE_READ access_addr size ws, ss', tbl') ∧
     symbols_wf ss' ∧ zlen tbl' = symbol_get_gl_num ss' ∧ table_ok tbl' ∧
     ∀ j, zget tbl j = Some None ↔ zget tbl' j = Some None).
Proof.
  assert (Hall : ∀ type, ∃ ss' tbl',
    cpuctrl_set_access type access_addr size sp core funcid clocks ss tbl = Ok (ss', tbl') ∧
    symbols_wf ss' ∧ zlen tbl' = symbol_get_gl_num ss' ∧ table_ok tbl' ∧
    ∀ j, zget tbl j = Some None ↔ zget tbl' j = Some None).
  { intros type. unfold cpuctrl_set_access.
    destruct (set_access_ok type core sp funcid clocks access_addr (Z.to_nat size) 0 (-1) ss tbl Hss Hlen Htb)
      as (ss' & tbl' & -> & Hss' & _ & Hsy & Hl & Ht & Hn).
    exists ss', tbl'. split_and!; [done|done| |done|done]. rewrite Hl, Hlen. unfold symbol_get_gl_num. by rewrite Hsy. }
  unfold cpuctrl_is_break_read_access, cpuctrl_is_break_write_access. split.
  - destruct (Hall ACCESS_TYPE_READ) as (ss' & tbl' & -> & ?). cbn [mbind outcome_bind]. eauto.
  - destruct (Hall ACCESS_TYPE_WRITE) as (ss' & tbl' & -> & ?). cbn [mbind outcome_bind]. eauto.
Qed.
End symbolic_facts.

(** ** Small programs under the debugger *)

Module ControlDemo.
#[local] Existing Instance addr_width_32.

(** Set two points, delete the first, set it again. *)
Definition ops : list break_op := [op_set 0x100; op_set 0x200; op_del 1; op_set 0x100; op_set 0].

Lemma break_points_witness :
  (Forall break_op_ok ops ∧
   ∃ st, break_run ops break_init = Ok st ∧
     break_points_num st = count is_forever (break_points st) - 1 ∧
     ∀ a, cpuctrl_is_break_point a st = true ↔ ∃ i, cpuctrl_get_break i st = Some a) ∨
  (Exists (λ op, ¬ break_op_ok op) ops ∧ break_run ops break_init = Fault OutOfBounds).
Proof. apply (break_points_refine_set ops). Defined.

Example break_points_values :
  (st ← break_run ops break_init;
   Ok (break_points_num st, (λ a, cpuctrl_is_break_point a st) <$> [0; 0x100; 0x200; 0x300])) =
  Ok (2, [true; true; true; false]).
Proof. reflexivity. Qed.

(** A permanent point at 0x100 and the temporary point of a return to 0x200. *)
Definition mixed : break_state :=
  snd (cpuctrl_set_break 0x200 BREAK_POINT_TYPE_ONLY_ONCE
         (snd (cpuctrl_set_break 0x100 BREAK_POINT_TYPE_FOREVER break_init))).
Lemma mixed_wf : break_wf mixed.
Proof. apply set_break_wf, set_break_wf, break_init_wf. Qed.

Lemma set_break_witness :
  let '(ok, st') := cpuctrl_set_break 0x300 BREAK_POINT_TYPE_FOREVER mixed in
  break_wf st' ∧
  (ok = true → ∃ i b, cpuctrl_get_break i st' = Some 0x300 ∧
    zget (break_points st') i = Some b ∧ b_type b = BREAK_POINT_TYPE_FOREVER ∧
    (∀ j, j ≠ i → cpuctrl_get_break j st' = cpuctrl_get_break j mixed) ∧
    (cpuctrl_get_break i mixed = None ∨ st' = mixed)) ∧
  (ok = false → st' = mixed ∧ ∀ i, 0 ≤ i < 128 → cpuctrl_get_break i mixed ≠ None).
Proof. apply (cpuctrl_set_break_spec 0x300 BREAK_POINT_TYPE_FOREVER mixed mixed_wf). Defined.

Lemma once_disable_witness :
  ∃ st', cpuctrl_del_all_break BREAK_POINT_TYPE_ONLY_ONCE mixed = Ok st' ∧
    (∀ i b, zget (break_points mixed) i = Some b → is_forever b = true → cpuctrl_get_break i st' = Some (b_addr b)) ∧
    (∀ a, a ≠ 0 → cpuctrl_is_break_point a st' = false).
Proof.
  apply (once_points_disable_permanent mixed mixed_wf).
  - apply set_break_counted; [apply set_break_wf, break_init_wf|]. apply set_break_counted; [apply break_init_wf|apply break_init_counted].
  - by vm_compute.
Defined.

(** A watched word, then one replaced. *)
Definition watches : watch_state := snd (cpuctrl_set_data_watch DATA_WATCH_POINT_TYPE_WRITE 0x100 4 watch_init).
Lemma watch_init_wf : watch_wf watch_init.
Proof.
  split; [done|]. intros i j v w Hv%zget_elem _ Hs. unfold watch_init in Hv.
  apply elem_of_replicate in Hv as [-> _]. done.
Qed.

Lemma data_watch_witness :
  let '(ok, ws') := cpuctrl_set_data_watch DATA_WATCH_POINT_TYPE_RW 0x100 8 watch_init in
  watch_wf ws' ∧
  if ok then ∀ a s t, watched ws' a s t ↔
    if decide (a = 0x100) then s = 8 ∧ t = DATA_WATCH_POINT_TYPE_RW else watched watch_init a s t
  else ws' = watch_init ∧ count w_is_set watch_init = 128 ∧ ∀ s t, ¬ watched watch_init 0x100 s t.
Proof. apply (cpuctrl_set_data_watch_spec DATA_WATCH_POINT_TYPE_RW 0x100 8 watch_init watch_init_wf). Defined.

Lemma break_access_witness :
  let r := break_access DATA_WATCH_POINT_TYPE_READ 0x102 4 watches in
  (r = -1 ∧ ∀ i w, zget watches i = Some w → ¬ triggers DATA_WATCH_POINT_TYPE_READ 0x102 4 w) ∨
  (∃ w, zget watches r = Some w ∧ triggers DATA_WATCH_POINT_TYPE_READ 0x102 4 w ∧
     ∀ j v, j < r → zget watches j = Some v → ¬ triggers DATA_WATCH_POINT_TYPE_READ 0x102 4 v).
Proof.
  apply (break_access_spec DATA_WATCH_POINT_TYPE_READ 0x102 4 watches); [done|].
  intros i w Hw%zget_elem Hs. unfold watches in Hw. simpl in Hw.
  repeat (apply elem_of_cons in Hw as [->|Hw]; [done|]). by apply elem_of_nil in Hw.
Defined.

Example break_access_values :
  break_access DATA_WATCH_POINT_TYPE_READ 0x102 4 watches = 0 ∧
  break_access DATA_WATCH_POINT_TYPE_WRITE 0x102 4 watches = -1 ∧
  break_access DATA_WATCH_POINT_TYPE_READ 0x104 4 watches = -1.
Proof. done. Qed.

(** A log of three entries in the program of [SymbolDemo]. *)
Definition log_mem : list DbgFuncLogTraceEntryType := replicate 3 (mkTraceEntry 0 0 0 0 []).
Definition log_init : DbgFuncLogTraceType := mkTrace 0 0 3 log_mem.

Lemma log_init_ok : cpuctrl_init_func_log_trace 3 (Some log_mem) = Ok log_init ∧ trace_wf log_init ∧ traced log_init [].
Proof.
  assert (Hwf : trace_wf log_init) by (split; [done|done|simpl; lia|done|simpl; lia]).
  split_and!; [done|done|]. split; [done|]. intros k Hk. rewrite trace_info_eq by done. simpl.
  replace (k <? 0) with false by lia. by rewrite zget_None by (unfold zlen; simpl; lia).
Qed.

Lemma func_log_witness :
  ∃ found ss' t', cpuctrl_set_func_log_trace 0x208 0x8000 SymbolDemo.state log_init = Ok (ss', t') ∧ symbols_wf ss' ∧ trace_wf t' ∧
    ((found = None ∧ traced t' [] ∧
       ∀ j s, zget (symbols (symbol_func SymbolDemo.state)) j = Some s → contains 0x208 s = false) ∨
     (∃ id s, found = Some id ∧ zget (symbols (symbol_func SymbolDemo.state)) id = Some s ∧ contains 0x208 s = true ∧
       traced t' (log_entry (t_logmax log_init)
         (mkTraceEntry 0x8000 (u32 id) (u32 (0x208 - s_addr s)) (u32 (s_addr s)) (s_name s)) []))).
Proof.
  apply (func_log_refines_history 0x208 0x8000 SymbolDemo.state log_init []).
  - apply SymbolDemo.state_wf.
  - apply log_init_ok.
  - apply log_init_ok.
  - done.
  - intros id s Hs%zget_elem. simpl in Hs.
    repeat (apply elem_of_cons in Hs as [->|Hs]; [done|]). by apply elem_of_nil in Hs.
Defined.

(** One stack variable and one data variable. *)
Definition stacks : symbol_state :=
  symbol_gl_add (mkSymbol [115] 0x8000 0x100 []) (symbol_gl_add (mkSymbol [118] 0x100 4 []) symbol_init).
Lemma stacks_wf : symbols_wf stacks.
Proof. split; [apply empty_table_wf|]. repeat (apply table_add_wf; [|done]). apply empty_table_wf. Qed.

Lemma frame_init_wf : frames_wf frame_init.
Proof.
  split; [unfold frame_init, zlen; by rewrite length_replicate|]. unfold frame_init. apply Forall_replicate.
  split; cbn [f_sp f_lognum]; [unfold zlen; by rewrite length_replicate|lia|lia|apply NoDup_nil_2].
Qed.

Lemma stack_pointer_witness :
  (∃ ss', cpuctrl_set_stack_pointer 0x8080 stacks frame_init = Ok (ss', frame_init) ∧
     ∀ j s, zget (symbols (symbol_gl stacks)) j = Some s → contains 0x8080 s = false) ∨
  (∃ glid s f, zget (symbols (symbol_gl stacks)) glid = Some s ∧ contains 0x8080 s = true ∧ zget frame_init glid = Some f ∧
     ((∃ l1 l2 ss' f', frame_stack f = l1 ++ 0x8080 :: l2 ∧ frame_stack f' = l1 ++ [0x8080] ∧
         cpuctrl_set_stack_pointer 0x8080 stacks frame_init = Ok (ss', zput frame_init glid f') ∧ frames_wf (zput frame_init glid f')) ∨
      (∃ ss' f', (0x8080 ∉ frame_stack f) ∧ zlen (frame_stack f) < DBG_STACK_LOG_SIZE ∧ frame_stack f' = frame_stack f ++ [0x8080] ∧
         cpuctrl_set_stack_pointer 0x8080 stacks frame_init = Ok (ss', zput frame_init glid f') ∧ frames_wf (zput frame_init glid f')) ∨
      ((0x8080 ∉ frame_stack f) ∧ zlen (frame_stack f) = DBG_STACK_LOG_SIZE ∧
         cpuctrl_set_stack_pointer 0x8080 stacks frame_init = Fault OutOfBounds))).
Proof. apply (cpuctrl_set_stack_pointer_spec 0x8080 stacks frame_init stacks_wf frame_init_wf). by vm_compute. Defined.

Definition info0 : DataAccessInfoType := mkAccessInfo 0 0 [].
Lemma info0_wf : access_wf info0.
Proof. split; [apply NoDup_nil_2|done]. Qed.

Lemma context_add_witness :
  let info' := context_add ACCESS_TYPE_READ 0 1 7 100 info0 in
  access_wf info' ∧ access_num info' = u64 (access_num info0 + 1) ∧
  ∀ key, access_count key info' =
    if bool_decide (key = (ACCESS_TYPE_READ, 0, 1, 7)) then u64 (access_count key info0 + 1) else access_count key info0.
Proof. apply (context_add_spec ACCESS_TYPE_READ 0 1 7 100 info0 info0_wf). Defined.

Lemma access_witness :
  let tbl := [Some info0; None] in
  (∃ ss' tbl', cpuctrl_is_break_read_access 0xfe 8 0x8080 0 7 100 stacks tbl watches =
     Ok (break_access DATA_WATCH_POINT_TYPE_WRITE 0xfe 8 watches, ss', tbl') ∧
     symbols_wf ss' ∧ zlen tbl' = symbol_get_gl_num ss' ∧ table_ok tbl' ∧
     ∀ j, zget tbl j = Some None ↔ zget tbl' j = Some None) ∧
  (∃ ss' tbl', cpuctrl_is_break_write_access 0xfe 8 0x8080 0 7 100 stacks tbl watches =
     Ok (break_access DATA_WATCH_POINT_TYPE_READ 0xfe 8 watches, ss', tbl') ∧
     symbols_wf ss' ∧ zlen tbl' = symbol_get_gl_num ss' ∧ table_ok tbl' ∧
     ∀ j, zget tbl j = Some None ↔ zget tbl' j = Some None).
Proof.
  apply (access_statistics_consistent 0xfe 8 0x8080 0 7 100 stacks [Some info0; None] watches stacks_wf); [done|].
  repeat constructor; apply info0_wf.
Defined.

(** The access touches the data variable once, from the stack variable. *)
Example access_values :
  ('(r, _, tbl) ← cpuctrl_is_break_write_access 0xfe 8 0x8080 0 7 100 stacks [Some info0; None] watches;
   Ok (r, map (λ o, access_num (default info0 o)) tbl)) = Ok (0, [1; 0]).
Proof. reflexivity. Qed.
End ControlDemo.
