(* ===== verification/Bus.v ===== *)
(** * The bus and its access log ([src/src/bus/bus.c], [bus.h])

    Guest loads and stores pass through the bus, which records them in a log of
    128 entries before they reach the memory protection unit.  The debugger
    takes the entries out again, the latest first, after each instruction. *)

From S2P Require Import Prelude Mpu.
Open Scope Z_scope.

Inductive BusAccessType := BUS_ACCESS_TYPE_NONE | BUS_ACCESS_TYPE_READ | BUS_ACCESS_TYPE_WRITE.
#[export] Instance bus_type_eq_dec : EqDecision BusAccessType.
Proof. solve_decision. Defined.

Definition BUS_ACCESS_LOG_SIZE : Z := 128.

Record BusAccessLogType := mkAccess {
  access_type : BusAccessType;
  access_size : Z;
  access_addr : Z;
  access_last_data : Z;
}.

(** The array and the number of entries in use. *)
Record bus_log := mkLog { bus_access_log_size : Z; bus_access_log : list BusAccessLogType }.
Definition bus_log_init : bus_log :=
  mkLog 0 (replicate (Z.to_nat BUS_ACCESS_LOG_SIZE) (mkAccess BUS_ACCESS_TYPE_NONE 0 0 0)).

Definition bus_access_set_log (a : BusAccessLogType) (l : bus_log) : outcome bus_log :=
  if decide (access_type a = BUS_ACCESS_TYPE_NONE) then Ok (mkLog 0 (bus_access_log l))
  else if BUS_ACCESS_LOG_SIZE <=? bus_access_log_size l then Ok l
  else
    arr ← oob (zset (bus_access_log l) (bus_access_log_size l) a);
    Ok (mkLog (bus_access_log_size l + 1) arr).

Definition bus_access_get_log (l : bus_log) : outcome (option BusAccessLogType * bus_log) :=
  if bus_access_log_size l =? 0 then Ok (None, l)
  else
    let n := bus_access_log_size l - 1 in
    a ← oob (zget (bus_access_log l) n);
    Ok (Some a, mkLog n (bus_access_log l)).

(** ** Accesses through the bus *)

Section access.
Context {D : Type} `{MpuConfig D}.

(** A load; on an error the log holds whatever the caller's variable held. *)
Definition bus_get_data (w : access_width) (core_id addr data : Z) (s : mpu_state D) (l : bus_log)
    : outcome (Std_ReturnType * Z * mpu_state D * bus_log) :=
  '(err, v, s) ← mpu_get_data w core_id addr data s;
  l ← bus_access_set_log (mkAccess BUS_ACCESS_TYPE_READ (nbytes w) addr v) l;
  Ok (err, v, s, l).

(** A store is logged before it is tried. *)
Definition bus_put_data (w : access_width) (core_id addr data : Z) (s : mpu_state D) (l : bus_log)
    : outcome (Std_ReturnType * mpu_state D * bus_log) :=
  l ← bus_access_set_log (mkAccess BUS_ACCESS_TYPE_WRITE (nbytes w) addr data) l;
  '(err, s) ← mpu_put_data w core_id addr data s;
  Ok (err, s, l).

Definition bus_get_data8 := bus_get_data W8.
Definition bus_get_data16 := bus_get_data W16.
Definition bus_get_data32 := bus_get_data W32.
Definition bus_put_data8 := bus_put_data W8.
Definition bus_put_data16 := bus_put_data W16.
Definition bus_put_data32 := bus_put_data W32.

Definition bus_get_pointer (core_id addr : Z) (s : mpu_state D)
    : outcome (Std_ReturnType * option (nat * Z) * mpu_state D) := mpu_get_pointer core_id addr s.
End access.

(** ** The log is a bounded stack *)

Definition log_wf (l : bus_log) : Prop :=
  zlen (bus_access_log l) = BUS_ACCESS_LOG_SIZE ∧ 0 ≤ bus_access_log_size l ≤ BUS_ACCESS_LOG_SIZE.

(** The entries in use, the earliest first. *)
Definition logged (l : bus_log) : list BusAccessLogType :=
  take (Z.to_nat (bus_access_log_size l)) (bus_access_log l).

Lemma bus_log_init_wf : log_wf bus_log_init.
Proof. done. Qed.

Lemma logged_len l : log_wf l → zlen (logged l) = bus_access_log_size l.
Proof. intros [Hl Hn]. unfold logged, zlen in *. rewrite length_take. lia. Qed.

Lemma set_log_ok a l : log_wf l → access_type a ≠ BUS_ACCESS_TYPE_NONE →
  ∃ l', bus_access_set_log a l = Ok l' ∧ log_wf l' ∧
    logged l' = if zlen (logged l) <? BUS_ACCESS_LOG_SIZE then logged l ++ [a] else logged l.
Proof.
  intros Hwf Ha. pose proof (logged_len l Hwf) as Hll. destruct Hwf as [Hl Hn]. unfold bus_access_set_log.
  rewrite decide_False by done. rewrite Hll.
  destruct (Z.leb_spec BUS_ACCESS_LOG_SIZE (bus_access_log_size l)) as [Hge|Hlt].
  { exists l. replace (_ <? _) with false by lia. done. }
  replace (_ <? _) with true by lia. erewrite (proj2 (zset_Some _ _ _ _)) by (split; [lia|done]).
  cbn [oob mbind outcome_bind]. eexists. split; [done|]. split; [split; simpl; [by rewrite zlen_zput|lia]|].
  unfold logged, zput. simpl. replace (Z.to_nat (bus_access_log_size l + 1)) with (S (Z.to_nat (bus_access_log_size l))) by lia.
  erewrite take_S_r by (apply list_lookup_insert_eq; unfold zlen in Hl; lia). f_equal. apply take_insert_ge. lia.
Qed.

Lemma get_log_ok l : log_wf l →
  (logged l = [] ∧ bus_access_get_log l = Ok (None, l)) ∨
  (∃ a l', bus_access_get_log l = Ok (Some a, l') ∧ log_wf l' ∧ logged l = logged l' ++ [a]).
Proof.
  intros Hwf. pose proof (logged_len l Hwf) as Hll. destruct Hwf as [Hl Hn]. unfold bus_access_get_log.
  destruct (Z.eqb_spec (bus_access_log_size l) 0) as [Hz|Hnz].
  { left. split; [|done]. unfold logged. by rewrite Hz. }
  right. destruct (zget_is_Some (bus_access_log l) (bus_access_log_size l - 1)) as [a Ha]; [lia|].
  rewrite Ha. cbn [oob mbind outcome_bind]. eexists a, _. split; [done|]. split; [split; simpl; [done|lia]|].
  unfold logged. simpl. replace (Z.to_nat (bus_access_log_size l)) with (S (Z.to_nat (bus_access_log_size l - 1))) by lia.
  apply take_S_r. unfold zget in Ha. by destruct (_ <? 0).
Qed.

(** Record a list of accesses; take [n] entries out. *)
Fixpoint log_all (accs : list BusAccessLogType) (l : bus_log) : outcome bus_log :=
  match accs with
  | [] => Ok l
  | a :: accs => l ← bus_access_set_log a l; log_all accs l
  end.
Fixpoint drain (n : nat) (l : bus_log) : outcome (list BusAccessLogType * bus_log) :=
  match n with
  | O => Ok ([], l)
  | S n' =>
      '(o, l) ← bus_access_get_log l;
      match o with
      | None => Ok ([], l)
      | Some a => '(r, l) ← drain n' l; Ok (a :: r, l)
      end
  end.

Lemma log_all_ok accs l : log_wf l → Forall (λ a, access_type a ≠ BUS_ACCESS_TYPE_NONE) accs →
  ∃ l', log_all accs l = Ok l' ∧ log_wf l' ∧
    logged l' = take (Z.to_nat BUS_ACCESS_LOG_SIZE) (logged l ++ accs).
Proof.
  intros Hwf Hall. revert l Hwf. induction Hall as [|a accs Ha _ IH]; intros l Hwf; cbn [log_all].
  - exists l. split_and!; [done|by destruct Hwf..|]. rewrite app_nil_r, take_ge; [done|].
    pose proof (logged_len l Hwf). destruct Hwf. unfold zlen, BUS_ACCESS_LOG_SIZE in *. lia.
  - destruct (set_log_ok a l Hwf Ha) as (l1 & -> & Hwf1 & Hl1). cbn [mbind outcome_bind].
    destruct (IH l1 Hwf1) as (l' & -> & Hwf' & Hl'). exists l'. split_and!; [done|by destruct Hwf'..|].
    rewrite Hl', Hl1. destruct (Z.ltb_spec (zlen (logged l)) BUS_ACCESS_LOG_SIZE) as [|Hge].
    + by rewrite <- app_assoc.
    + unfold zlen in Hge. by rewrite !take_app_le by lia.
Qed.

Lemma drain_ok n l : log_wf l → zlen (logged l) < Z.of_nat n →
  ∃ l', drain n l = Ok (reverse (logged l), l') ∧ log_wf l' ∧ logged l' = [].
Proof.
  revert l. induction n as [|n IH]; intros l Hwf Hn; [pose proof (zlen_nonneg (logged l)); lia|]. cbn [drain].
  destruct (get_log_ok l Hwf) as [[Hz ->]|(a & l' & -> & Hwf' & Hl)]; cbn [mbind outcome_bind].
  - exists l. by rewrite Hz.
  - destruct (IH l' Hwf') as (l2 & -> & Hwf2 & Hl2).
    { rewrite Hl, zlen_app in Hn. unfold zlen in *. simpl in Hn. lia. }
    cbn [mbind outcome_bind]. exists l2. split; [|done]. by rewrite Hl, reverse_snoc.
Qed.

(** After the log is cleared, the accesses of an instruction come out of it in reverse
    order; with more than 128 of them the first 128 are kept and the others lost. *)
Theorem bus_log_is_bounded_stack (accs : list BusAccessLogType) (l : bus_log) (Hwf : log_wf l)
    (Haccs : Forall (λ a, access_type a ≠ BUS_ACCESS_TYPE_NONE) accs) (n : nat) (Hn : (128 < n)%nat) :
  ∃ l0 l1 l2, bus_access_set_log (mkAccess BUS_ACCESS_TYPE_NONE 8 0 0) l = Ok l0 ∧
    log_all accs l0 = Ok l1 ∧ drain n l1 = Ok (reverse (take 128 accs), l2) ∧ logged l2 = [].
Proof.
  eexists _. cut (∃ l1 l2, log_all accs (mkLog 0 (bus_access_log l)) = Ok l1 ∧
    drain n l1 = Ok (reverse (take 128 accs), l2) ∧ logged l2 = []).
  { intros (l1 & l2 & ?). exists l1, l2. split; [|done]. unfold bus_access_set_log. by rewrite decide_True by done. }
  destruct (log_all_ok accs (mkLog 0 (bus_access_log l))) as (l1 & -> & Hwf1 & Hl1).
  { destruct Hwf as [Hl _]. split; [done|]. unfold BUS_ACCESS_LOG_SIZE. simpl. lia. }
  { done. }
  change (logged l1 = take 128 accs) in Hl1.
  destruct (drain_ok n l1 Hwf1) as (l2 & Hd & _ & He).
  { rewrite Hl1. unfold zlen. rewrite length_take. lia. }
  exists l1, l2. by rewrite <- Hl1.
Qed.

Definition three_accesses : list BusAccessLogType :=
  [mkAccess BUS_ACCESS_TYPE_READ 4 0x100 7; mkAccess BUS_ACCESS_TYPE_WRITE 2 0x104 1;
   mkAccess BUS_ACCESS_TYPE_READ 1 0x200 0].

Lemma bus_log_witness :
  ∃ l0 l1 l2, bus_access_set_log (mkAccess BUS_ACCESS_TYPE_NONE 8 0 0) bus_log_init = Ok l0 ∧
    log_all three_accesses l0 = Ok l1 ∧ drain 200 l1 = Ok (reverse (take 128 three_accesses), l2) ∧ logged l2 = [].
Proof.
  apply (bus_log_is_bounded_stack three_accesses bus_log_init bus_log_init_wf); [|lia].
  by repeat constructor.
Defined.
