(* ===== verification/CpuCallback.v ===== *)
(** * Debugger callbacks around an instruction ([src/src/debugger/executor/cpu_control/dbg_cpu_callback.c])

    The execution loop tells the debugger when a core is about to execute an
    instruction and when it has: the first call may stop the core, the second
    feeds the function log, the profile, the stack frames and the watch points.

    [dbg_state] collects the state of [CpuControl].  The program counter, the stack
    pointer, the clock and the feature switches are arguments; the core is the current
    one, as in the execution loop; what the calls print
    and the flush of the debug log are left out.  A call that stops the core returns
    [true] where the source waits for the debugger. *)

From S2P Require Import Prelude SymbolOps CpuControl CpuControlFacts Mpu Bus.
Open Scope Z_scope.

Record dbg_state := mkDbg {
  d_breaks : break_state;
  d_watches : watch_state;
  d_run : run_state;
  d_syms : symbol_state;
  d_access : access_table;
  d_trace : list DbgFuncLogTraceType;
  d_prof : list profile_state;
  d_frames : list DbgFuncFrameType;
  current_pc : Z;
  current_funcid : Z;
  current_sp : Z;
}.

Definition with_breaks (b : break_state) (st : dbg_state) : dbg_state :=
  mkDbg b (d_watches st) (d_run st) (d_syms st) (d_access st) (d_trace st) (d_prof st) (d_frames st)
    (current_pc st) (current_funcid st) (current_sp st).
Definition with_run (r : run_state) (st : dbg_state) : dbg_state :=
  mkDbg (d_breaks st) (d_watches st) r (d_syms st) (d_access st) (d_trace st) (d_prof st) (d_frames st)
    (current_pc st) (current_funcid st) (current_sp st).
Definition with_syms (ss : symbol_state) (st : dbg_state) : dbg_state :=
  mkDbg (d_breaks st) (d_watches st) (d_run st) ss (d_access st) (d_trace st) (d_prof st) (d_frames st)
    (current_pc st) (current_funcid st) (current_sp st).
Definition with_access (t : access_table) (st : dbg_state) : dbg_state :=
  mkDbg (d_breaks st) (d_watches st) (d_run st) (d_syms st) t (d_trace st) (d_prof st) (d_frames st)
    (current_pc st) (current_funcid st) (current_sp st).
Definition with_trace (t : list DbgFuncLogTraceType) (st : dbg_state) : dbg_state :=
  mkDbg (d_breaks st) (d_watches st) (d_run st) (d_syms st) (d_access st) t (d_prof st) (d_frames st)
    (current_pc st) (current_funcid st) (current_sp st).
Definition with_prof (p : list profile_state) (st : dbg_state) : dbg_state :=
  mkDbg (d_breaks st) (d_watches st) (d_run st) (d_syms st) (d_access st) (d_trace st) p (d_frames st)
    (current_pc st) (current_funcid st) (current_sp st).
Definition with_frames (f : list DbgFuncFrameType) (st : dbg_state) : dbg_state :=
  mkDbg (d_breaks st) (d_watches st) (d_run st) (d_syms st) (d_access st) (d_trace st) (d_prof st) f
    (current_pc st) (current_funcid st) (current_sp st).

Record DbgCpuCallbackFuncEnableType := mkEnable {
  enable_ft : Z; enable_bt : Z; enable_prof : Z; enable_watch : Z;
}.

Section callbacks.
Context `{AddrWidth}.

(** ** Before the instruction *)

Definition dbg_cpu_callback_start (pc sp : Z) (st : dbg_state) : outcome dbg_state :=
  '(funcid, _, ss) ← symbol_pc2funcid pc (d_syms st);
  Ok (mkDbg (d_breaks st) (d_watches st) (d_run st) ss (d_access st) (d_trace st) (d_prof st) (d_frames st)
        pc funcid sp).

Definition dbg_notify_cpu_clock_supply_start (core_id pc : Z) (st : dbg_state) : outcome (bool * dbg_state) :=
  let is_debug_mode := cpuctrl_is_debug_mode (d_run st) in
  watched_core ← (if cpuctrl_is_force_debug_mode (d_run st) then Ok true
                  else dbg_cpu_debug_mode_get core_id (d_run st));
  if negb watched_core then Ok (false, st)
  else
    '(timeout, run) ← cpuctrl_is_timeout_cont_clocks core_id (d_run st);
    let st := with_run run st in
    '(need_stop, st) ←
      (if (timeout : bool) then Ok (true, st)
       else if cpuctrl_is_break_point pc (d_breaks st) then
         '(_, _, ss) ← symbol_pc2funcid pc (d_syms st); Ok (true, with_syms ss st)
       else Ok (is_debug_mode, st));
    if negb need_stop then Ok (false, st)
    else
      let run := cpuctrl_set_current_debugged_core core_id (d_run st) in
      let '(run, _) := cpuctrl_set_debug_mode true run in
      bs ← cpuctrl_del_all_break BREAK_POINT_TYPE_ONLY_ONCE (d_breaks st);
      Ok (true, with_breaks bs (with_run run st)).

(** ** After the instruction *)

(** The loop over the access log; [n] bounds the number of entries. *)
Fixpoint watch_loop (n : nat) (core_id clocks : Z) (need_stop : bool) (l : bus_log) (st : dbg_state)
    : outcome (bool * bus_log * dbg_state) :=
  match n with
  | O => Ok (need_stop, l, st)
  | S n' =>
      '(o, l) ← bus_access_get_log l;
      match o with
      | None => Ok (need_stop, l, st)
      | Some a =>
          let check := match access_type a with
                       | BUS_ACCESS_TYPE_READ => Some cpuctrl_is_break_read_access
                       | BUS_ACCESS_TYPE_WRITE => Some cpuctrl_is_break_write_access
                       | BUS_ACCESS_TYPE_NONE => None
                       end in
          match check with
          | None => watch_loop n' core_id clocks need_stop l st
          | Some check =>
              '(inx, ss, tbl) ← check (access_addr a) (access_size a) (current_sp st) core_id
                                  (u32 (current_funcid st)) clocks (d_syms st) (d_access st) (d_watches st);
              watch_loop n' core_id clocks (need_stop || (0 <=? inx)) l (with_access tbl (with_syms ss st))
          end
      end
  end.

(** More entries than the log holds, so that the loop always ends by emptying it. *)
Definition WATCH_FUEL : nat := 129.

Definition dbg_notify_cpu_clock_supply_end (core_id pc sp current_core_sp clocks : Z)
    (enable_dbg : DbgCpuCallbackFuncEnableType) (l : bus_log) (st : dbg_state) : outcome (bus_log * dbg_state) :=
  st ← (if enable_ft enable_dbg =? 1 then
          t ← oob (zget (d_trace st) core_id);
          '(ss, t) ← cpuctrl_set_func_log_trace pc sp (d_syms st) t;
          Ok (with_trace (zput (d_trace st) core_id t) (with_syms ss st))
        else Ok st);
  st ← (if enable_prof enable_dbg =? 1 then
          p ← oob (zget (d_prof st) core_id);
          '(ss, p) ← cpuctrl_profile_collect pc current_core_sp clocks (d_syms st) p;
          Ok (with_prof (zput (d_prof st) core_id p) (with_syms ss st))
        else Ok st);
  st ← (if enable_bt enable_dbg =? 1 then
          '(ss, f) ← cpuctrl_set_stack_pointer sp (d_syms st) (d_frames st);
          Ok (with_frames f (with_syms ss st))
        else Ok st);
  if enable_watch enable_dbg =? 1 then
    '(need_stop, l, st) ← watch_loop WATCH_FUEL core_id clocks false l st;
    Ok (l, if (need_stop : bool) then with_run (fst (cpuctrl_set_debug_mode true (d_run st))) st else st)
  else Ok (l, st).

(** ** When a core stops *)

(** Every core has its state; the symbol tables, the break points and the counts are consistent. *)
Record dbg_wf (cores : Z) (st : dbg_state) : Prop := {
  dw_cont : zlen (dbg_cpu_cont (d_run st)) = cores;
  dw_mode : zlen (dbg_cpu_debug_mode (d_run st)) = cores;
  dw_breaks : permanent (d_breaks st);
  dw_syms : symbols_wf (d_syms st);
  dw_access : zlen (d_access st) = symbol_get_gl_num (d_syms st) ∧ table_ok (d_access st);
}.

(** The core is under the debugger's control. *)
Definition controlled (core_id : Z) (r : run_state) : Prop :=
  cpuctrl_is_force_debug_mode r = true ∨ zget (dbg_cpu_debug_mode r) core_id = Some true.
(** The continue timer of the core has run out. *)
Definition timed_out (core_id : Z) (r : run_state) : Prop :=
  ∃ c, zget (dbg_cpu_cont r) core_id = Some c ∧ is_timeout c = true ∧ cont_clocks c ≤ 1.

Lemma cont_timer_ok core_id r : 0 ≤ core_id < zlen (dbg_cpu_cont r) →
  ∃ b r', cpuctrl_is_timeout_cont_clocks core_id r = Ok (b, r') ∧ (b = true ↔ timed_out core_id r) ∧
    zlen (dbg_cpu_cont r') = zlen (dbg_cpu_cont r) ∧ dbg_cpu_debug_mode r' = dbg_cpu_debug_mode r ∧
    dbg_cpuctrl_dbg_mode r' = dbg_cpuctrl_dbg_mode r.
Proof.
  intros Hc. destruct (zget_is_Some (dbg_cpu_cont r) core_id Hc) as [c Hg]. unfold cpuctrl_is_timeout_cont_clocks.
  rewrite Hg. cbn [oob mbind outcome_bind]. unfold timed_out. destruct (is_timeout c) eqn:Et.
  - destruct (Z.ltb_spec 1 (cont_clocks c)) as [Hlt|Hge].
    + eexists _, _. split; [done|]. split; [|simpl; by rewrite zlen_zput].
      split; [done|]. intros (c' & Hc' & _ & ?). rewrite Hg in Hc'. injection Hc' as <-. lia.
    + eexists _, _. split; [done|]. split; [|done]. split; [|done]. intros _. exists c. split_and!; [done|done|lia].
  - eexists _, _. split; [done|]. split; [|done]. split; [done|].
    intros (c' & Hc' & ? & _). rewrite Hg in Hc'. injection Hc' as <-. congruence.
Qed.

Lemma controlled_ok core_id r : 0 ≤ core_id < zlen (dbg_cpu_debug_mode r) →
  ∃ w, (if cpuctrl_is_force_debug_mode r then Ok true else oob (zget (dbg_cpu_debug_mode r) core_id)) = Ok w ∧
    (w = true ↔ controlled core_id r).
Proof.
  intros Hc. unfold controlled. destruct (cpuctrl_is_force_debug_mode r); [exists true; split; [done|]; split; [by left|done]|].
  destruct (zget_is_Some (dbg_cpu_debug_mode r) core_id Hc) as [w Hw]. exists w. rewrite Hw.
  split; [done|]. split; [intros ->; by right|]. intros [|[= ->]]; done.
Qed.

(** The same without a word on the types of the break points: those of [return] are temporary. *)
Record dbg_inv (cores : Z) (st : dbg_state) : Prop := {
  di_cont : zlen (dbg_cpu_cont (d_run st)) = cores;
  di_mode : zlen (dbg_cpu_debug_mode (d_run st)) = cores;
  di_breaks : break_wf (d_breaks st);
  di_syms : symbols_wf (d_syms st);
  di_access : zlen (d_access st) = symbol_get_gl_num (d_syms st) ∧ table_ok (d_access st);
}.
Lemma dbg_wf_inv cores st : dbg_wf cores st ↔ dbg_inv cores st ∧ permanent (d_breaks st).
Proof. split; [intros []; split; [split|]|intros [[] ?]; split]; try done. by apply pm_wf. Qed.

Lemma permanent_del_once st : permanent st →
  ∃ st', cpuctrl_del_all_break BREAK_POINT_TYPE_ONLY_ONCE st = Ok st' ∧ permanent st' ∧
    ∀ i, cpuctrl_get_break i st' = cpuctrl_get_break i st.
Proof.
  intros [Hwf Hc Ht]. destruct (del_all_ok BREAK_POINT_TYPE_ONLY_ONCE st Hwf) as (st' & -> & Hwf' & Hg & Hn).
  assert (Heq : break_points st' = break_points st).
  { apply zget_ext. intros i Hi. destruct (zget (break_points st) i) as [b|] eqn:E.
    - rewrite (Hg _ _ E). unfold cleared. rewrite (Ht _ _ E). by rewrite andb_false_r.
    - apply zget_None. right. rewrite (bw_len _ Hwf'), <- (bw_len _ Hwf). destruct (decide (i < zlen (break_points st))); [|lia].
      destruct (zget_is_Some (break_points st) i) as [? E']; [lia|]. congruence. }
  exists st'. split; [done|]. split; [split|].
  - done.
  - unfold break_counted in *. rewrite Heq. rewrite decide_True in Hn by done. rewrite Heq in Hn. lia.
  - by rewrite Heq.
  - intros i. unfold cpuctrl_get_break. by rewrite Heq.
Qed.

(** What the break points are after a stop, or without one. *)
Definition breaks_after (stop : bool) (st st' : break_state) : Prop :=
  if stop then
    (∀ i, cpuctrl_get_break i st' = (b ← zget (break_points st) i; if is_forever b then Some (b_addr b) else None)) ∧
    break_points_num st' = break_points_num st - count is_once (break_points st) ∧
    (permanent st → permanent st')
  else st' = st.

Lemma supply_start_any (cores core_id pc : Z) (st : dbg_state)
    (Hwf : dbg_inv cores st) (Hcore : 0 ≤ core_id < cores) :
  ∃ stop st', dbg_notify_cpu_clock_supply_start core_id pc st = Ok (stop, st') ∧ dbg_inv cores st' ∧
    (stop = true ↔ controlled core_id (d_run st) ∧
       (timed_out core_id (d_run st) ∨ stops_at (d_breaks st) pc ∨ cpuctrl_is_debug_mode (d_run st) = true)) ∧
    (stop = true → cpuctrl_get_current_debugged_core (d_run st') = Some core_id ∧
       dbg_cpuctrl_dbg_mode (d_run st') = DBG_CPUCTRL_DBG_MODE_NORMAL) ∧
    breaks_after stop (d_breaks st) (d_breaks st').
Proof.
  pose proof Hwf as [Hc Hm Hb Hs Ha]. unfold dbg_notify_cpu_clock_supply_start, dbg_cpu_debug_mode_get.
  destruct (controlled_ok core_id (d_run st)) as (w & -> & Hw); [lia|].
  cbn [mbind outcome_bind]. destruct w; cbn [negb].
  2: { exists false, st. split_and!; [done|done|split; [done|intros [?%Hw _]; done]|done|done]. }
  assert (Hctl : controlled core_id (d_run st)) by by apply Hw.
  destruct (cont_timer_ok core_id (d_run st)) as (b & r & -> & Hb' & Hl & Hd & Hmode); [lia|]. cbn [mbind outcome_bind].
  assert (∃ stop ss, (if b then Ok (true, with_run r st)
      else if cpuctrl_is_break_point pc (d_breaks (with_run r st)) then
        '(_, _, ss) ← symbol_pc2funcid pc (d_syms (with_run r st)); Ok (true, with_syms ss (with_run r st))
      else Ok (cpuctrl_is_debug_mode (d_run st), with_run r st) : outcome (bool * dbg_state)) =
      Ok (stop, with_syms ss (with_run r st)) ∧ symbols_wf ss ∧ symbol_get_gl_num ss = symbol_get_gl_num (d_syms st) ∧
    (stop = true ↔ timed_out core_id (d_run st) ∨ stops_at (d_breaks st) pc ∨
      cpuctrl_is_debug_mode (d_run st) = true)) as (stop & ss & Heq & Hss & Hnum & Hstop).
  { destruct b.
    - exists true, (d_syms st). split_and!; [by destruct st|done|done|].
      split; [|done]. intros _. left. by apply Hb'.
    - pose proof (is_break_stops (d_breaks st) pc Hb) as Hhit. simpl.
      destruct (cpuctrl_is_break_point pc (d_breaks st)) eqn:Eb.
      + unfold symbol_pc2funcid. destruct Hs as [Hf Hg].
        destruct (table_lookup_ok pc (symbol_func (d_syms st)) Hf) as (id & a & t & -> & Htb & _).
        cbn [mbind outcome_bind]. eexists true, _. split; [done|]. split; [by split|]. split; [done|].
        split; [|done]. intros _. right. left. by apply Hhit.
      + exists (cpuctrl_is_debug_mode (d_run st)), (d_syms st).
        split_and!; [by destruct st|done|done|].
        split; [by right; right|]. intros [Ht|[Hi|Hm']]; [by apply Hb' in Ht|by apply Hhit in Hi|done]. }
  rewrite Heq. cbn [mbind outcome_bind].
  assert (Hwf1 : dbg_inv cores (with_syms ss (with_run r st))).
  { split; simpl; [lia|by rewrite Hd|done|done|by rewrite Hnum]. }
  destruct stop; cbn [negb].
  - destruct (del_once_ok (d_breaks st) Hb) as (bs & Hdel & Hbs & Hget & Hcount).
    assert (permanent (d_breaks st) → permanent bs) as Hperm.
    { intros (bs' & Hdel' & Hbs' & _)%permanent_del_once. rewrite Hdel in Hdel'. by injection Hdel' as ->. }
    simpl. rewrite Hdel. cbn [mbind outcome_bind].
    eexists true, _. split; [done|]. split; [by split; simpl; destruct Hwf1|]. split_and!; [|done|done].
    split; [|done]. intros _. split; [done|]. by apply Hstop.
  - eexists false, _. split; [done|]. split_and!; [done| |done|done]. split; [done|]. intros [_ ?%Hstop]. done.
Qed.

(** With permanent points only, the program stops at what the table lists, and nothing is removed. *)
Lemma supply_start_ok (cores core_id pc : Z) (st : dbg_state)
    (Hwf : dbg_wf cores st) (Hcore : 0 ≤ core_id < cores) :
  ∃ stop st', dbg_notify_cpu_clock_supply_start core_id pc st = Ok (stop, st') ∧ dbg_wf cores st' ∧
    (stop = true ↔ controlled core_id (d_run st) ∧
       (timed_out core_id (d_run st) ∨ (∃ i, cpuctrl_get_break i (d_breaks st) = Some pc) ∨
        cpuctrl_is_debug_mode (d_run st) = true)) ∧
    (stop = true → cpuctrl_get_current_debugged_core (d_run st') = Some core_id ∧
       dbg_cpuctrl_dbg_mode (d_run st') = DBG_CPUCTRL_DBG_MODE_NORMAL) ∧
    ∀ i, cpuctrl_get_break i (d_breaks st') = cpuctrl_get_break i (d_breaks st).
Proof.
  apply dbg_wf_inv in Hwf as [Hinv Hp]. destruct (supply_start_any cores core_id pc st Hinv Hcore) as (stop & st' & Hr & Hinv' & Hstop & Hcur & Hb).
  exists stop, st'. split; [done|].
  rewrite <- (permanent_hit _ pc Hp), (is_break_stops _ pc (pm_wf _ Hp)).
  assert (permanent (d_breaks st') ∧ ∀ i, cpuctrl_get_break i (d_breaks st') = cpuctrl_get_break i (d_breaks st)) as [Hp' Hget].
  { destruct stop; [|by rewrite Hb]. destruct Hb as (Hg & _ & Hk). split; [by apply Hk|]. intros i. rewrite Hg.
    destruct (zget (break_points (d_breaks st)) i) as [b|] eqn:E; cbn [mbind option_bind].
    - unfold is_forever, cpuctrl_get_break, DBG_CPU_CONTROL_BREAK_SETSIZE. pose proof (zget_range _ _ _ E) as Hi.
      rewrite (bw_len _ (pm_wf _ Hp)) in Hi. replace (128 <=? i) with false by lia. rewrite (pm_type _ Hp _ _ E), E.
      cbn [mbind option_bind]. by destruct (b_is_set b).
    - unfold cpuctrl_get_break. rewrite E. by destruct (_ <=? _). }
  split_and!; [by apply dbg_wf_inv|done..].
Qed.

(** C11: Before an instruction a core stops exactly when it is under control and its continue
    timer has run out, the debugger asked for a stop, or there is a break point at its program
    counter: the address is in the table and the counter of permanent points is positive (or
    the counter is not, and the address is 0).  A stop makes it the debugged core, enters
    debug mode, and leaves of the break points exactly the permanent ones in the table; but it
    takes the temporary ones, such as that of the command [return], from a counter that never
    counted them.  The call never fails.  If all points are permanent, the counter is right,
    so that the core stops at exactly the addresses of the table, and they stay. *)
Theorem clock_supply_start_stops (cores core_id pc : Z) (st : dbg_state)
    (Hwf : dbg_inv cores st) (Hcore : 0 ≤ core_id < cores) :
  ∃ stop st', dbg_notify_cpu_clock_supply_start core_id pc st = Ok (stop, st') ∧ dbg_inv cores st' ∧
    (stop = true ↔ controlled core_id (d_run st) ∧
       (timed_out core_id (d_run st) ∨ stops_at (d_breaks st) pc ∨ cpuctrl_is_debug_mode (d_run st) = true)) ∧
    (stop = true → cpuctrl_get_current_debugged_core (d_run st') = Some core_id ∧
       dbg_cpuctrl_dbg_mode (d_run st') = DBG_CPUCTRL_DBG_MODE_NORMAL) ∧
    breaks_after stop (d_breaks st) (d_breaks st') ∧
    (permanent (d_breaks st) → stops_at (d_breaks st) pc ↔ ∃ i, cpuctrl_get_break i (d_breaks st) = Some pc).
Proof.
  destruct (supply_start_any cores core_id pc st Hwf Hcore) as (stop & st' & ? & ? & ? & ? & ?).
  exists stop, st'. split_and!; [done..|]. intros Hp. by rewrite <- (permanent_hit _ pc Hp), (is_break_stops _ pc (pm_wf _ Hp)).
Qed.
(** Call the timer check of a core [n] times. *)
Fixpoint timer_calls (n : nat) (core_id : Z) (r : run_state) : outcome (list bool * run_state) :=
  match n with
  | O => Ok ([], r)
  | S n' =>
      '(b, r) ← cpuctrl_is_timeout_cont_clocks core_id r;
      '(bs, r) ← timer_calls n' core_id r;
      Ok (b :: bs, r)
  end.

Lemma timer_calls_app n m core_id r :
  timer_calls (n + m) core_id r =
    ('(bs, r) ← timer_calls n core_id r; '(bs', r) ← timer_calls m core_id r; Ok (bs ++ bs', r)).
Proof.
  revert r. induction n as [|n IH]; intros r; simpl.
  - destruct (timer_calls m core_id r) as [[bs r']|]; done.
  - destruct (cpuctrl_is_timeout_cont_clocks core_id r) as [[b r1]|]; simpl; [|done]. rewrite IH.
    destruct (timer_calls n core_id r1) as [[bs r2]|]; simpl; [|done].
    destruct (timer_calls m core_id r2) as [[bs' r3]|]; done.
Qed.

Lemma timer_running n core_id r c : zget (dbg_cpu_cont r) core_id = Some (mkCont true c) → Z.of_nat n < c →
  ∃ r', timer_calls n core_id r = Ok (replicate n false, r') ∧
    zget (dbg_cpu_cont r') core_id = Some (mkCont true (c - Z.of_nat n)).
Proof.
  revert r c. induction n as [|n IH]; intros r c Hg Hn; cbn [timer_calls].
  { exists r. split; [done|]. rewrite Hg. repeat f_equal. lia. }
  unfold cpuctrl_is_timeout_cont_clocks. rewrite Hg. cbn [oob mbind outcome_bind is_timeout cont_clocks].
  replace (1 <? c) with true by lia. cbn [mbind outcome_bind].
  destruct (IH (mkRun (zput (dbg_cpu_cont r) core_id (mkCont true (c - 1))) (dbg_cpu_stopped_core r)
                  (dbg_cpuctrl_dbg_mode r) (dbg_cpu_debug_mode r)) (c - 1)) as (r' & -> & Hr').
  { simpl. apply zget_zput_eq. by eapply zget_range. }
  { lia. }
  cbn [mbind outcome_bind]. exists r'. split; [done|]. rewrite Hr'. do 2 f_equal. lia.
Qed.

Lemma timer_expired m core_id r c : zget (dbg_cpu_cont r) core_id = Some (mkCont true c) → c ≤ 1 →
  timer_calls m core_id r = Ok (replicate m true, r).
Proof.
  intros Hg Hc. induction m as [|m IH]; cbn [timer_calls]; [done|].
  unfold cpuctrl_is_timeout_cont_clocks. rewrite Hg. cbn [oob mbind outcome_bind is_timeout cont_clocks].
  replace (1 <? c) with false by lia. cbn [mbind outcome_bind]. by rewrite IH.
Qed.

(** Continuing for [n + 1] clocks lets the stopped core pass [n] instructions and stops it
    before the next, and before every later one until the timer is set again. *)
Theorem cont_timer_counts (n m : nat) (r : run_state)
    (Hcore : 0 ≤ stopped_core_id (dbg_cpu_stopped_core r) < zlen (dbg_cpu_cont r)) :
  ∃ r1 r2, cpuctrl_set_cont_clocks true (Z.of_nat (S n)) r = Ok r1 ∧
    timer_calls (n + m) (stopped_core_id (dbg_cpu_stopped_core r)) r1 =
      Ok (replicate n false ++ replicate m true, r2).
Proof.
  unfold cpuctrl_set_cont_clocks. erewrite (proj2 (zset_Some _ _ _ _)) by (split; [done|reflexivity]).
  cbn [oob mbind outcome_bind]. set (core := stopped_core_id _). set (r1 := mkRun _ _ _ _).
  assert (Hg : zget (dbg_cpu_cont r1) core = Some (mkCont true (Z.of_nat (S n)))) by (simpl; by apply zget_zput_eq).
  destruct (timer_running n core r1 _ Hg) as (r2 & Hr & Hg2); [lia|]. exists r1, r2. split; [done|].
  rewrite timer_calls_app, Hr. cbn [mbind outcome_bind].
  rewrite (timer_expired m core r2 _ Hg2) by lia. done.
Qed.

(** ** After an instruction *)

(** The access stops the core. *)
Definition fires (ws : watch_state) (a : BusAccessLogType) : bool :=
  match access_type a with
  | BUS_ACCESS_TYPE_READ => 0 <=? break_access DATA_WATCH_POINT_TYPE_WRITE (access_addr a) (access_size a) ws
  | BUS_ACCESS_TYPE_WRITE => 0 <=? break_access DATA_WATCH_POINT_TYPE_READ (access_addr a) (access_size a) ws
  | BUS_ACCESS_TYPE_NONE => false
  end.

(** What feeding one access or one feature keeps. *)
Record dbg_keeps (st st' : dbg_state) : Prop := {
  dk_breaks : d_breaks st' = d_breaks st;
  dk_watches : d_watches st' = d_watches st;
  dk_run : d_run st' = d_run st;
  dk_syms : same_symbols (d_syms st) (d_syms st');
  dk_access : zlen (d_access st') = zlen (d_access st) ∧ table_ok (d_access st');
}.

Lemma dbg_keeps_trans st1 st2 st3 : dbg_keeps st1 st2 → dbg_keeps st2 st3 → dbg_keeps st1 st3.
Proof.
  intros [? ? ? (? & Hf & Hg) [? ?]] [? ? ? (? & Hf' & Hg') [? ?]].
  split; [congruence..| |split; [congruence|done]]. split_and!; [done|by rewrite Hf'|by rewrite Hg'].
Qed.

Lemma check_ok core_id clocks a st check skip :
  (check = cpuctrl_is_break_read_access ∧ skip = DATA_WATCH_POINT_TYPE_WRITE ∨
   check = cpuctrl_is_break_write_access ∧ skip = DATA_WATCH_POINT_TYPE_READ) →
  symbols_wf (d_syms st) → zlen (d_access st) = symbol_get_gl_num (d_syms st) → table_ok (d_access st) →
  ∃ ss tbl, check (access_addr a) (access_size a) (current_sp st) core_id
      (u32 (current_funcid st)) clocks (d_syms st) (d_access st) (d_watches st) =
    Ok (break_access skip (access_addr a) (access_size a) (d_watches st), ss, tbl) ∧
    dbg_keeps st (with_access tbl (with_syms ss st)).
Proof.
  intros Hc Hss Hl Ht.
  assert (Hall : ∀ type, ∃ ss tbl, cpuctrl_set_access type (access_addr a) (access_size a) (current_sp st) core_id
      (u32 (current_funcid st)) clocks (d_syms st) (d_access st) = Ok (ss, tbl) ∧
    dbg_keeps st (with_access tbl (with_syms ss st))).
  { intros type. unfold cpuctrl_set_access.
    destruct (set_access_ok type core_id (current_sp st) (u32 (current_funcid st)) clocks (access_addr a)
      (Z.to_nat (access_size a)) 0 (-1) _ _ Hss Hl Ht) as (ss & tbl & -> & Hss' & Hf & Hg & Hl' & Ht' & _).
    exists ss, tbl. split; [done|]. split; [done|done|done| |by split]. split_and!; [done|simpl; by rewrite Hf|done]. }
  destruct Hc as [[-> ->]|[-> ->]];
    [destruct (Hall ACCESS_TYPE_READ) as (ss & tbl & Hs & ?)|destruct (Hall ACCESS_TYPE_WRITE) as (ss & tbl & Hs & ?)];
    exists ss, tbl; (split; [|done]); unfold cpuctrl_is_break_read_access, cpuctrl_is_break_write_access; by rewrite Hs.
Qed.

Lemma watch_loop_ok core_id clocks n ns l st : log_wf l → zlen (logged l) < Z.of_nat n →
  symbols_wf (d_syms st) → zlen (d_access st) = symbol_get_gl_num (d_syms st) → table_ok (d_access st) →
  ∃ l' st', watch_loop n core_id clocks ns l st =
      Ok (ns || existsb (fires (d_watches st)) (reverse (logged l)), l', st') ∧
    logged l' = [] ∧ dbg_keeps st st'.
Proof.
  revert ns l st. induction n as [|n IH]; intros ns l st Hl Hn Hss Hlen Ht; [pose proof (zlen_nonneg (logged l)); lia|].
  cbn [watch_loop]. destruct (get_log_ok l Hl) as [[Hz ->]|(a & l1 & -> & Hl1 & Hlog)]; cbn [mbind outcome_bind].
  { exists l, st. rewrite Hz. simpl. rewrite orb_false_r. split_and!; [done|done|]. by split. }
  assert (Hn1 : zlen (logged l1) < Z.of_nat n) by (rewrite Hlog, zlen_app in Hn; unfold zlen in *; simpl in Hn; lia).
  rewrite Hlog, reverse_snoc. simpl existsb.
  assert (Hstep : ∀ check skip,
    (check = cpuctrl_is_break_read_access ∧ skip = DATA_WATCH_POINT_TYPE_WRITE ∨
     check = cpuctrl_is_break_write_access ∧ skip = DATA_WATCH_POINT_TYPE_READ) →
    fires (d_watches st) a = (0 <=? break_access skip (access_addr a) (access_size a) (d_watches st)) →
    ∃ l' st', ('(inx, ss, tbl) ← check (access_addr a) (access_size a) (current_sp st) core_id
                 (u32 (current_funcid st)) clocks (d_syms st) (d_access st) (d_watches st);
       watch_loop n core_id clocks (ns || (0 <=? inx)) l1 (with_access tbl (with_syms ss st))) =
      Ok (ns || (fires (d_watches st) a || existsb (fires (d_watches st)) (reverse (logged l1))), l', st') ∧
      logged l' = [] ∧ dbg_keeps st st').
  { intros check skip Hc Hf. destruct (check_ok core_id clocks a st check skip Hc Hss Hlen Ht) as (ss & tbl & -> & Hk).
    cbn [mbind outcome_bind]. pose proof Hk as [_ _ _ (Hss' & Hfs & Hgs) [Hl' Ht']].
    destruct (IH (ns || (0 <=? break_access skip (access_addr a) (access_size a) (d_watches st))) l1
      (with_access tbl (with_syms ss st)) Hl1 Hn1 Hss') as (l' & st' & -> & He & Hk'); [|done|].
    - rewrite Hl', Hlen. unfold symbol_get_gl_num. by rewrite Hgs.
    - exists l', st'. split; [by rewrite Hf, orb_assoc|]. split; [done|]. by eapply dbg_keeps_trans. }
  destruct (access_type a) eqn:Ea.
  - destruct (IH ns l1 st Hl1 Hn1 Hss Hlen Ht) as (l' & st' & -> & ? & ?). exists l', st'.
    unfold fires at 2. by rewrite Ea.
  - apply (Hstep _ DATA_WATCH_POINT_TYPE_WRITE); [by left|]. unfold fires. by rewrite Ea.
  - apply (Hstep _ DATA_WATCH_POINT_TYPE_READ); [by right|]. unfold fires. by rewrite Ea.
Qed.

Lemma profile_collect_ok pc sp clocks ss ps : symbols_wf ss → zlen (prof ps) = symbol_get_func_num ss →
  ∃ ss' ps', cpuctrl_profile_collect pc sp clocks ss ps = Ok (ss', ps') ∧ same_symbols ss ss' ∧
    zlen (prof ps') = zlen (prof ps).
Proof.
  intros [Hf Hg] Hl. unfold cpuctrl_profile_collect, symbol_pc2funcid.
  destruct (table_lookup_ok pc (symbol_func ss) Hf) as (id & a & t & -> & Htb & Hsy & Hsp & _). cbn [mbind outcome_bind].
  set (ss1 := mkSymbols t (symbol_gl ss)). assert (Hsame : same_symbols ss ss1) by by split_and!.
  destruct (Z.ltb_spec id 0) as [|Hid]; [by exists ss1, ps|].
  destruct Hsp as [(-> & _)|(s & Hs & _)]; [lia|]. pose proof (zget_range _ _ _ Hs).
  unfold symbol_funcid2funcaddr. cbn [symbol_func ss1]. rewrite Hsy, Hs. cbn [oob mbind outcome_bind].
  unfold symbol_get_func_num in Hl.
  match goal with |- context [if pc =? ?x then ?y else ?z] => set (m := if pc =? x then y else z) end.
  assert (∃ l prev, m = Ok (l, prev) ∧ zlen l = zlen (prof ps)) as (l & prev & -> & Hll).
  { unfold m. destruct (pc =? _).
    - destruct (zget_is_Some (prof ps) id) as [p ->]; [lia|]. cbn [oob mbind outcome_bind]. eexists _, _.
      split; [done|]. apply zlen_zput.
    - destruct (negb _); [|by eexists _, _]. eexists _, _. split; [done|]. unfold leave_function.
      destruct (find_index _ _ _) as [[i p]|]; [apply zlen_zput|done]. }
  cbn [mbind outcome_bind]. destruct (zget_is_Some l id) as [p ->]; [lia|]. cbn [oob mbind outcome_bind].
  eexists ss1, _. split; [done|]. split; [done|]. simpl. by rewrite zlen_zput.
Qed.

(** What each enabled feature relies on: the log, the profile and the frames exist for the
    core and its symbols, and no frame is full. *)
Record end_ok (core_id pc : Z) (e : DbgCpuCallbackFuncEnableType) (st : dbg_state) : Prop := {
  eo_ft : enable_ft e = 1 → in_width 32 pc ∧
    (∀ id s, zget (symbols (symbol_func (d_syms st))) id = Some s → is_addr (s_addr s)) ∧
    ∃ t h, zget (d_trace st) core_id = Some t ∧ trace_wf t ∧ traced t h;
  eo_prof : enable_prof e = 1 →
    ∃ p, zget (d_prof st) core_id = Some p ∧ zlen (prof p) = symbol_get_func_num (d_syms st);
  eo_bt : enable_bt e = 1 → frames_wf (d_frames st) ∧ symbol_get_gl_num (d_syms st) ≤ DBG_STACK_NUM ∧
    ∀ i f, zget (d_frames st) i = Some f → zlen (frame_stack f) < DBG_STACK_LOG_SIZE;
}.

(** The function log, the profile and the frames for one instruction. *)
Lemma feed_log_ok core_id pc sp e st : end_ok core_id pc e st → symbols_wf (d_syms st) → table_ok (d_access st) →
  ∃ st', (if enable_ft e =? 1 then
       t ← oob (zget (d_trace st) core_id);
       '(ss, t) ← cpuctrl_set_func_log_trace pc sp (d_syms st) t;
       Ok (with_trace (zput (d_trace st) core_id t) (with_syms ss st))
     else Ok st) = Ok st' ∧ dbg_keeps st st' ∧ d_prof st' = d_prof st ∧ d_frames st' = d_frames st.
Proof.
  intros [Hft _ _] Hss Ht. destruct (Z.eqb_spec (enable_ft e) 1) as [He|]; [|exists st; split; [done|]; by split].
  destruct (Hft He) as (Hpc & Haddr & t & h & Hg & Hwf & Htr). rewrite Hg. cbn [oob mbind outcome_bind].
  destruct (func_log_ok pc sp (d_syms st) t h Hss Hwf Htr Hpc Haddr) as (fd & ss & t' & -> & Hss' & _ & [Hs1 Hs2] & _).
  cbn [mbind outcome_bind]. eexists. split; [done|]. split; [|done]. split; [done|done|done| |by split].
  split_and!; [done|done|simpl; by rewrite Hs2].
Qed.

Lemma feed_profile_ok core_id pc sp clocks e st st1 : end_ok core_id pc e st → dbg_keeps st st1 → d_prof st1 = d_prof st →
  ∃ st', (if enable_prof e =? 1 then
       p ← oob (zget (d_prof st1) core_id);
       '(ss, p) ← cpuctrl_profile_collect pc sp clocks (d_syms st1) p;
       Ok (with_prof (zput (d_prof st1) core_id p) (with_syms ss st1))
     else Ok st1) = Ok st' ∧ dbg_keeps st1 st' ∧ d_frames st' = d_frames st1.
Proof.
  intros [_ Hpr _] [_ _ _ (Hss1 & Hsf1 & Hsg1) [_ Ht1]] Hp1.
  destruct (Z.eqb_spec (enable_prof e) 1) as [He|]; [|exists st1; split; [done|]; by split].
  destruct (Hpr He) as (p & Hg & Hl). rewrite Hp1, Hg. cbn [oob mbind outcome_bind].
  destruct (profile_collect_ok pc sp clocks (d_syms st1) p Hss1) as (ss & p' & -> & Hs & _).
  { rewrite Hl. unfold symbol_get_func_num. by rewrite Hsf1. }
  cbn [mbind outcome_bind]. eexists. split; [done|]. split; [|done]. by split.
Qed.

Lemma feed_frames_ok core_id pc sp e st st2 : end_ok core_id pc e st → dbg_keeps st st2 → d_frames st2 = d_frames st →
  ∃ st', (if enable_bt e =? 1 then
       '(ss, f) ← cpuctrl_set_stack_pointer sp (d_syms st2) (d_frames st2);
       Ok (with_frames f (with_syms ss st2))
     else Ok st2) = Ok st' ∧ dbg_keeps st2 st'.
Proof.
  intros [_ _ Hbt] [_ _ _ (Hss2 & Hsf2 & Hsg2) [_ Ht2]] Hf2.
  destruct (Z.eqb_spec (enable_bt e) 1) as [He|]; [|exists st2; split; [done|]; by split].
  destruct (Hbt He) as (Hfw & Hn & Hroom). rewrite Hf2.
  destruct (set_stack_pointer_ok sp (d_syms st2) (d_frames st) Hss2 Hfw) as
    [(ss & -> & Hs & _)|(g & s & f & _ & _ & Hf & [(l1 & l2 & ss & f' & _ & _ & Hs & -> & _)
      |[(ss & f' & _ & _ & _ & Hs & -> & _)|(_ & Hfull & _)]])].
  { unfold symbol_get_gl_num in *. by rewrite Hsg2. }
  1-3: cbn [mbind outcome_bind]; eexists; split; [done|]; by split.
  specialize (Hroom _ _ Hf). lia.
Qed.

(** After an instruction the debugger records it without failing, takes every access out of
    the bus log and enters debug mode exactly when watching is on and one of them touches
    a watch point of its kind; break points and watch points stay as they are. *)
Theorem clock_supply_end_watches (cores core_id pc sp current_core_sp clocks : Z) (e : DbgCpuCallbackFuncEnableType)
    (l : bus_log) (st : dbg_state) (Hwf : dbg_wf cores st) (Hl : log_wf l) (He : end_ok core_id pc e st) :
  ∃ l' st', dbg_notify_cpu_clock_supply_end core_id pc sp current_core_sp clocks e l st = Ok (l', st') ∧
    dbg_wf cores st' ∧ (enable_watch e = 1 → logged l' = []) ∧
    dbg_cpuctrl_dbg_mode (d_run st') =
      (if (enable_watch e =? 1) && existsb (fires (d_watches st)) (logged l)
       then DBG_CPUCTRL_DBG_MODE_NORMAL else dbg_cpuctrl_dbg_mode (d_run st)) ∧
    d_breaks st' = d_breaks st ∧ d_watches st' = d_watches st.
Proof.
  pose proof Hwf as [Hc Hm Hb Hs [Hal Hat]]. unfold dbg_notify_cpu_clock_supply_end.
  destruct (feed_log_ok core_id pc sp e st He Hs Hat) as (st1 & -> & Hk1 & Hp1 & Hf1). cbn [mbind outcome_bind].
  destruct (feed_profile_ok core_id pc current_core_sp clocks e st st1 He Hk1 Hp1) as (st2 & -> & Hk2 & Hf2).
  cbn [mbind outcome_bind]. pose proof (dbg_keeps_trans _ _ _ Hk1 Hk2) as Hk12.
  destruct (feed_frames_ok core_id pc sp e st st2 He Hk12) as (st3 & -> & Hk3); [congruence|].
  cbn [mbind outcome_bind]. pose proof (dbg_keeps_trans _ _ _ Hk12 Hk3) as Hk.
  assert (Hkeep : ∀ st', dbg_keeps st st' → dbg_wf cores st').
  { intros st' [Hkb Hkw Hkr (Hks & _ & Hkg) [Hka Hkt]]. split; rewrite ?Hkr, ?Hkb; [done..|].
    split; [|done]. rewrite Hka, Hal. unfold symbol_get_gl_num. by rewrite Hkg. }
  destruct (Z.eqb_spec (enable_watch e) 1) as [Hw|Hw].
  2: { exists l, st3. split; [done|]. split; [by apply Hkeep|]. destruct Hk as [? ? Hkr _ _]. by rewrite Hkr. }
  pose proof (Hkeep _ Hk) as [_ _ _ Hs3 [Hal3 Hat3]].
  destruct (watch_loop_ok core_id clocks WATCH_FUEL false l st3 Hl) as (l' & st4 & -> & Hlog & Hk4); [|done|done|done|].
  { rewrite logged_len by done. destruct Hl as [_ Hn]. unfold BUS_ACCESS_LOG_SIZE, WATCH_FUEL in *. lia. }
  pose proof (dbg_keeps_trans _ _ _ Hk Hk4) as Hk'. rewrite (dk_watches _ _ Hk). cbn [mbind outcome_bind orb andb].
  replace (existsb (fires (d_watches st)) (reverse (logged l))) with (existsb (fires (d_watches st)) (logged l)).
  2: { apply eq_true_iff_eq. rewrite !existsb_exists. setoid_rewrite <- list_elem_of_In. by setoid_rewrite elem_of_reverse. }
  pose proof (Hkeep _ Hk') as Hwf'. destruct Hk' as [Hkb Hkw Hkr _ _].
  eexists l', _. split; [done|]. split; [|split; [done|]].
  - destruct (existsb _ _); [|done]. by split; simpl; destruct Hwf'.
  - destruct (existsb _ _); simpl; rewrite ?Hkr; by split_and!.
Qed.
End callbacks.

(** ** One core, one break point, one watched word *)

Module CallbackDemo.
#[local] Existing Instance addr_width_32.
Import ControlDemo.

Definition breaks : break_state := snd (cpuctrl_set_break 0x208 BREAK_POINT_TYPE_FOREVER break_init).
Definition run : run_state :=
  mkRun [mkCont false 0] (mkStopped false 0) DBG_CPUCTRL_DBG_MODE_NONE [true].
(** The functions of [SymbolDemo], the variables of [ControlDemo]. *)
Definition syms : symbol_state := mkSymbols (symbol_func SymbolDemo.state) (symbol_gl stacks).
Definition dbg : dbg_state :=
  mkDbg breaks watches run syms [Some info0; None] [log_init] [profile_init 3] frame_init 0 0 0x8080.

Lemma breaks_permanent : permanent breaks.
Proof.
  split; [apply set_break_wf, break_init_wf|apply set_break_counted; [apply break_init_wf|apply break_init_counted]|].
  intros i b Hb%zget_elem. simpl in Hb.
  repeat (apply elem_of_cons in Hb as [->|Hb]; [done|]). by apply elem_of_nil in Hb.
Qed.

Lemma dbg_ok : dbg_wf 1 dbg.
Proof.
  split; [done|done|apply breaks_permanent|split; [apply SymbolDemo.state_wf|apply stacks_wf]|].
  split; [done|]. repeat constructor; apply info0_wf.
Qed.

(** The break point of [return] beside the permanent one. *)
Definition returning : dbg_state := with_breaks (snd (cpuctrl_set_break 0x20c BREAK_POINT_TYPE_ONLY_ONCE breaks)) dbg.
Lemma returning_inv : dbg_inv 1 returning.
Proof. destruct dbg_ok. split; [done|done|by apply set_break_wf, pm_wf|done|done]. Qed.
Lemma supply_start_witness :
  ∃ stop st', dbg_notify_cpu_clock_supply_start 0 0x20c returning = Ok (stop, st') ∧ dbg_inv 1 st' ∧
    (stop = true ↔ controlled 0 (d_run returning) ∧
       (timed_out 0 (d_run returning) ∨ stops_at (d_breaks returning) 0x20c ∨ cpuctrl_is_debug_mode (d_run returning) = true)) ∧
    (stop = true → cpuctrl_get_current_debugged_core (d_run st') = Some 0 ∧
       dbg_cpuctrl_dbg_mode (d_run st') = DBG_CPUCTRL_DBG_MODE_NORMAL) ∧
    breaks_after stop (d_breaks returning) (d_breaks st') ∧
    (permanent (d_breaks returning) → stops_at (d_breaks returning) 0x20c ↔ ∃ i, cpuctrl_get_break i (d_breaks returning) = Some 0x20c).
Proof. apply (clock_supply_start_stops 1 0 0x20c returning returning_inv). lia. Defined.

(** The stop at the point of [return] removes it, and the permanent point is hit no more. *)
Example returning_values :
  ('(stop, st) ← dbg_notify_cpu_clock_supply_start 0 0x20c returning;
   Ok (stop, (λ i, cpuctrl_get_break i (d_breaks st)) <$> [0; 1; 2], cpuctrl_is_break_point 0x208 (d_breaks st))) =
  Ok (true, [Some 0; Some 0x208; None], false).
Proof. reflexivity. Qed.

(** It stops at the break point and nowhere else. *)
Example supply_start_values :
  (λ pc, fst <$> dbg_notify_cpu_clock_supply_start 0 pc dbg) <$> [0x206; 0x208; 0x20a] = [Ok false; Ok true; Ok false].
Proof. reflexivity. Qed.

Lemma cont_timer_witness :
  ∃ r1 r2, cpuctrl_set_cont_clocks true (Z.of_nat 4) run = Ok r1 ∧
    timer_calls (3 + 2) (stopped_core_id (dbg_cpu_stopped_core run)) r1 =
      Ok (replicate 3 false ++ replicate 2 true, r2).
Proof. apply (cont_timer_counts 3 2 run). done. Defined.

Definition log : bus_log := default bus_log_init (match log_all three_accesses bus_log_init with Ok l => Some l | _ => None end).
Definition enable : DbgCpuCallbackFuncEnableType := mkEnable 1 1 1 1.

Lemma log_ok : log_wf log.
Proof. by vm_compute. Qed.

Lemma end_features : end_ok 0 0x208 enable dbg.
Proof.
  split; intros _.
  - split; [done|]. split.
    + intros id s Hs%zget_elem. simpl in Hs.
      repeat (apply elem_of_cons in Hs as [->|Hs]; [done|]). by apply elem_of_nil in Hs.
    + exists log_init, []. split; [done|]. apply log_init_ok.
  - by exists (profile_init 3).
  - split; [apply frame_init_wf|]. split; [by vm_compute|]. intros i f Hf%zget_elem.
    unfold dbg in Hf. cbn [d_frames] in Hf. unfold frame_init in Hf. apply elem_of_replicate in Hf as [-> _]. done.
Qed.

Lemma supply_end_witness :
  ∃ l' st', dbg_notify_cpu_clock_supply_end 0 0x208 0x8080 0x8080 5 enable log dbg = Ok (l', st') ∧
    dbg_wf 1 st' ∧ (enable_watch enable = 1 → logged l' = []) ∧
    dbg_cpuctrl_dbg_mode (d_run st') =
      (if (enable_watch enable =? 1) && existsb (fires (d_watches dbg)) (logged log)
       then DBG_CPUCTRL_DBG_MODE_NORMAL else dbg_cpuctrl_dbg_mode (d_run dbg)) ∧
    d_breaks st' = d_breaks dbg ∧ d_watches st' = d_watches dbg.
Proof. apply (clock_supply_end_watches 1 0 0x208 0x8080 0x8080 5 enable log dbg dbg_ok log_ok end_features). Defined.
End CallbackDemo.
