(* ===== verification/ThreadControl.v ===== *)
(** * Hand-over between the debugger and the CPU thread
      ([src/src/debugger/executor/cpu_control/dbg_cpu_thread_control.c])

    The CPU thread waits on a condition variable when it stops; the debugger
    wakes it and may wait until it has stopped again by polling.  All of it
    happens under one mutex, so the code between taking the mutex and releasing
    it (or waiting on a condition variable, which releases it) is one atomic step.

    [thr_step] is the step relation: who moves is an event, so that the order of
    steps in an execution can be spoken about.  Signals wake a waiting thread and
    are lost otherwise; a thread may also wake without a signal. *)

From S2P Require Import Prelude.
Open Scope Z_scope.

Inductive DbgCpuThrStateType := THREAD_STATE_RUNNING | THREAD_STATE_WAIT.
#[export] Instance thr_state_eq_dec : EqDecision DbgCpuThrStateType.
Proof. solve_decision. Defined.

(** Where a thread is: the CPU thread before it exists, outside the functions of this
    file, waiting on [cpu_cv], and woken but not yet in possession of the mutex. *)
Inductive cpu_pos := cpu_absent | cpu_running | cpu_blocked | cpu_woken.
#[export] Instance cpu_pos_eq_dec : EqDecision cpu_pos.
Proof. solve_decision. Defined.
(** The debugger: outside, asleep in one of the two polling loops, waiting on [dbg_cv], woken. *)
Inductive dbg_pos := dbg_outside | dbg_polls_request | dbg_polls_state | dbg_blocked | dbg_woken.
#[export] Instance dbg_pos_eq_dec : EqDecision dbg_pos.
Proof. solve_decision. Defined.

Record thr := mkThr {
  cputhr_wakeup_requested : bool;
  cputhr_state : DbgCpuThrStateType;
  dbgthr_state : DbgCpuThrStateType;
  cpu_at : cpu_pos;
  dbg_at : dbg_pos;
}.

Definition thr_init : thr := mkThr false THREAD_STATE_WAIT THREAD_STATE_RUNNING cpu_absent dbg_outside.

(** ** Atomic pieces *)

Definition cputhr_control_start (s : thr) : thr :=
  mkThr (cputhr_wakeup_requested s) THREAD_STATE_RUNNING (dbgthr_state s) cpu_running (dbg_at s).

(** [pthread_cond_signal(&cpu_cv)] and [pthread_cond_signal(&dbg_cv)]. *)
Definition signal_cpu (s : thr) : thr :=
  mkThr (cputhr_wakeup_requested s) (cputhr_state s) (dbgthr_state s)
    (if decide (cpu_at s = cpu_blocked) then cpu_woken else cpu_at s) (dbg_at s).
Definition signal_dbg (s : thr) : thr :=
  mkThr (cputhr_wakeup_requested s) (cputhr_state s) (dbgthr_state s) (cpu_at s)
    (if decide (dbg_at s = dbg_blocked) then dbg_woken else dbg_at s).

(** The loop of [cputhr_control_cpu_wait], from its condition on: take the request and
    run, or wait. *)
Definition cpu_wait_loop (s : thr) : thr :=
  if cputhr_wakeup_requested s
  then mkThr false THREAD_STATE_RUNNING (dbgthr_state s) cpu_running (dbg_at s)
  else mkThr false (cputhr_state s) (dbgthr_state s) cpu_blocked (dbg_at s).
Definition cputhr_control_cpu_wait (s : thr) : thr :=
  cpu_wait_loop (mkThr (cputhr_wakeup_requested s) THREAD_STATE_WAIT (dbgthr_state s) (cpu_at s) (dbg_at s)).

Definition with_dbg (p : dbg_pos) (s : thr) : thr :=
  mkThr (cputhr_wakeup_requested s) (cputhr_state s) (dbgthr_state s) (cpu_at s) p.

Definition cputhr_control_dbg_wakeup_cpu (s : thr) : thr :=
  signal_cpu (mkThr true (cputhr_state s) (dbgthr_state s) (cpu_at s) (dbg_at s)).

(** The condition of each polling loop. *)
Definition request_pending (s : thr) : bool :=
  cputhr_wakeup_requested s || bool_decide (cputhr_state s = THREAD_STATE_RUNNING).
Definition cpu_seen_running (s : thr) : bool := bool_decide (cputhr_state s = THREAD_STATE_RUNNING).

(** A polling loop goes on or leaves the function. *)
Definition poll (cond : thr → bool) (p : dbg_pos) (s : thr) : thr :=
  with_dbg (if cond s then p else dbg_outside) s.

Definition cputhr_control_dbg_wakeup_cpu_and_wait_for_cpu_stopped (s : thr) : thr :=
  poll request_pending dbg_polls_request (cputhr_control_dbg_wakeup_cpu s).
Definition cputhr_control_dbg_waitfor_cpu_stopped (s : thr) : thr :=
  poll cpu_seen_running dbg_polls_state s.

Definition cputhr_control_dbg_wait (s : thr) : thr :=
  mkThr (cputhr_wakeup_requested s) (cputhr_state s) THREAD_STATE_WAIT (cpu_at s) dbg_blocked.
Definition dbg_wait_end (s : thr) : thr :=
  mkThr (cputhr_wakeup_requested s) (cputhr_state s) THREAD_STATE_RUNNING (cpu_at s) dbg_outside.
Definition cputhr_control_cpu_wakeup_dbg (s : thr) : thr := signal_dbg s.

(** ** Executions *)

Inductive event :=
  | ev_start
  | ev_cpu_wait | ev_cpu_resume | ev_cpu_spurious | ev_cpu_wakeup_dbg
  | ev_wakeup | ev_wakeup_and_wait | ev_poll_request | ev_waitfor | ev_poll_state
  | ev_dbg_wait | ev_dbg_resume | ev_dbg_spurious.

Inductive thr_step : thr → event → thr → Prop :=
  | step_start s : cpu_at s = cpu_absent → dbg_at s = dbg_outside →
      thr_step s ev_start (cputhr_control_start s)
  | step_cpu_wait s : cpu_at s = cpu_running → thr_step s ev_cpu_wait (cputhr_control_cpu_wait s)
  | step_cpu_resume s : cpu_at s = cpu_woken → thr_step s ev_cpu_resume (cpu_wait_loop s)
  | step_cpu_spurious s : cpu_at s = cpu_blocked →
      thr_step s ev_cpu_spurious (mkThr (cputhr_wakeup_requested s) (cputhr_state s) (dbgthr_state s) cpu_woken (dbg_at s))
  | step_cpu_wakeup_dbg s : cpu_at s = cpu_running →
      thr_step s ev_cpu_wakeup_dbg (cputhr_control_cpu_wakeup_dbg s)
  | step_wakeup s : dbg_at s = dbg_outside → thr_step s ev_wakeup (cputhr_control_dbg_wakeup_cpu s)
  | step_wakeup_and_wait s : dbg_at s = dbg_outside →
      thr_step s ev_wakeup_and_wait (cputhr_control_dbg_wakeup_cpu_and_wait_for_cpu_stopped s)
  | step_poll_request s : dbg_at s = dbg_polls_request →
      thr_step s ev_poll_request (poll request_pending dbg_polls_request s)
  | step_waitfor s : dbg_at s = dbg_outside → thr_step s ev_waitfor (cputhr_control_dbg_waitfor_cpu_stopped s)
  | step_poll_state s : dbg_at s = dbg_polls_state →
      thr_step s ev_poll_state (poll cpu_seen_running dbg_polls_state s)
  | step_dbg_wait s : dbg_at s = dbg_outside → thr_step s ev_dbg_wait (cputhr_control_dbg_wait s)
  | step_dbg_resume s : dbg_at s = dbg_woken → thr_step s ev_dbg_resume (dbg_wait_end s)
  | step_dbg_spurious s : dbg_at s = dbg_blocked → thr_step s ev_dbg_spurious (with_dbg dbg_woken s).

(** An execution is a list of events with the states it passes through. *)
Inductive thr_exec : thr → list event → thr → Prop :=
  | exec_nil s : thr_exec s [] s
  | exec_cons s ev s1 evs s2 : thr_step s ev s1 → thr_exec s1 evs s2 → thr_exec s (ev :: evs) s2.

Definition reachable (s : thr) : Prop := ∃ evs, thr_exec thr_init evs s.

(** The CPU thread takes the pending request in this step. *)
Definition takes (s : thr) (ev : event) : Prop :=
  cputhr_wakeup_requested s = true ∧ (ev = ev_cpu_wait ∨ ev = ev_cpu_resume).

(** ** Invariant *)

Record thr_inv (s : thr) : Prop := {
  ti_request : cputhr_wakeup_requested s = true → cpu_at s ≠ cpu_blocked;
  ti_running : cputhr_state s = THREAD_STATE_RUNNING ↔ cpu_at s = cpu_running;
}.

(** Case analysis of one step on concrete positions. *)
Ltac thr_cases :=
  unfold cputhr_control_start, cputhr_control_cpu_wait, cpu_wait_loop, cputhr_control_cpu_wakeup_dbg,
    cputhr_control_dbg_wakeup_cpu, cputhr_control_dbg_wakeup_cpu_and_wait_for_cpu_stopped,
    cputhr_control_dbg_waitfor_cpu_stopped, cputhr_control_dbg_wait, dbg_wait_end, poll, with_dbg,
    signal_cpu, signal_dbg in *; simpl in *;
  repeat (case_match || case_decide); simpl in *; first [split; naive_solver | naive_solver | idtac].

Lemma thr_step_inv s ev s' : thr_inv s → thr_step s ev s' → thr_inv s'.
Proof.
  intros [Hr Hrun] Hst. destruct s as [req st dst c d]. simpl in *.
  inversion Hst; subst; simpl in *; subst; thr_cases.
Qed.

Lemma thr_exec_inv s evs s' : thr_exec s evs s' → thr_inv s → thr_inv s'.
Proof. induction 1; eauto using thr_step_inv. Qed.

Lemma reachable_inv s : reachable s → thr_inv s.
Proof. intros [evs He]. apply (thr_exec_inv _ _ _ He). by split. Qed.

(** C9: No wake-up is lost: whenever a request is pending and the CPU thread exists, it is not
    asleep, and its next step in the wait takes the request and runs, in whatever order
    the two threads came to that point. *)
Theorem no_lost_wakeup (s : thr) (Hs : reachable s) (Hreq : cputhr_wakeup_requested s = true)
    (Hcpu : cpu_at s ≠ cpu_absent) :
  cpu_at s ≠ cpu_blocked ∧
  (∃ ev s', thr_step s ev s' ∧ takes s ev) ∧
  ∀ ev s', thr_step s ev s' → takes s ev →
    cpu_at s' = cpu_running ∧ cputhr_state s' = THREAD_STATE_RUNNING ∧ cputhr_wakeup_requested s' = false.
Proof.
  destruct (reachable_inv s Hs) as [Hr Hrun]. specialize (Hr Hreq). split_and!; [done| |].
  - destruct (cpu_at s) eqn:Ec; [done| |done|].
    + eexists ev_cpu_wait, _. split; [by constructor|]. by split; [|left].
    + eexists ev_cpu_resume, _. split; [by constructor|]. by split; [|right].
  - intros ev s' Hst [_ [->| ->]]; inversion Hst; subst; unfold cputhr_control_cpu_wait, cpu_wait_loop; simpl;
      rewrite Hreq; done.
Qed.

(** From a state with a pending request, either it is still pending or some step took it. *)
Lemma request_taken s evs s' : thr_exec s evs s' → cputhr_wakeup_requested s = true →
  cputhr_wakeup_requested s' = true ∨
  (cpu_at s' ≠ cpu_absent ∧
   ∃ evs1 ev evs2 sa, evs = evs1 ++ ev :: evs2 ∧ thr_exec s evs1 sa ∧ takes sa ev).
Proof.
  intros He Hreq. induction He as [s|s ev s1 evs s2 Hst He IH]; [by left|].
  destruct (cputhr_wakeup_requested s1) eqn:E1.
  - destruct (IH eq_refl) as [|[Hc (evs1 & ev' & evs2 & sa & -> & Hex & Ht)]]; [by left|].
    right. split; [done|]. exists (ev :: evs1), ev', evs2, sa. split; [done|]. by split; [econstructor|].
  - right. split.
    + assert (Hc1 : cpu_at s1 ≠ cpu_absent).
      { destruct s as [req st dst c d]. simpl in *. subst. inversion Hst; subst; simpl in *; subst; thr_cases. }
      clear -He Hc1. induction He as [|s ev s1' evs s2 Hst He IH]; [done|]. apply IH.
      destruct s as [req st dst c d]. simpl in *. inversion Hst; subst; simpl in *; subst; thr_cases.
    + exists [], ev, evs, s. split; [done|]. split; [apply exec_nil|]. split; [done|].
      destruct s as [req st dst c d]. simpl in *. subst. inversion Hst; subst; simpl in *; subst; thr_cases; by auto.
Qed.

(** C3: When waking the CPU and waiting for it returns, the CPU has taken a request made after
    the call started, and it is stopped again: the debugger never takes the stop before
    the run for the one after it. *)
Theorem wakeup_and_wait_has_run (s s1 s2 s3 : thr) (evs : list event) (Hs : reachable s)
    (Hcall : thr_step s ev_wakeup_and_wait s1) (Hrun : thr_exec s1 evs s2)
    (Hpoll : thr_step s2 ev_poll_request s3) (Hret : dbg_at s3 = dbg_outside) :
  (∃ evs1 ev evs2 sa, evs = evs1 ++ ev :: evs2 ∧ thr_exec s1 evs1 sa ∧ takes sa ev) ∧
  cputhr_wakeup_requested s3 = false ∧ (cpu_at s3 = cpu_blocked ∨ cpu_at s3 = cpu_woken).
Proof.
  assert (Hreq1 : cputhr_wakeup_requested s1 = true) by (inversion Hcall; done).
  assert (Hinv2 : thr_inv s2) by (eapply thr_exec_inv, thr_step_inv; [done|by apply reachable_inv|done]).
  assert (request_pending s2 = false ∧ s3 = with_dbg dbg_outside s2) as [Hp ->].
  { inversion Hpoll; subst. unfold poll in *. destruct (request_pending s2); done. }
  unfold request_pending in Hp. apply orb_false_iff in Hp as [Hnr Hnrun%bool_decide_eq_false].
  destruct (request_taken s1 evs s2 Hrun Hreq1) as [|[Hc Ht]]; [congruence|].
  split_and!; [done|done|]. simpl. destruct Hinv2 as [_ Hi].
  destruct (cpu_at s2); [done|by destruct Hnrun; apply Hi|by left|by right].
Qed.

(** Waiting for the CPU can always end: from every state in which the debugger polls, with
    the CPU thread started, steps of the CPU thread alone lead to one where the next poll
    returns. *)
Theorem wakeup_and_wait_can_return (s : thr) (Hs : reachable s) (Hpolls : dbg_at s = dbg_polls_request)
    (Hcpu : cpu_at s ≠ cpu_absent) :
  ∃ evs s1 s2, Forall (λ ev, ev = ev_cpu_wait ∨ ev = ev_cpu_resume) evs ∧ thr_exec s evs s1 ∧
    thr_step s1 ev_poll_request s2 ∧ dbg_at s2 = dbg_outside.
Proof.
  destruct (reachable_inv s Hs) as [Hr Hrun]. destruct s as [req st dst c d]. simpl in *. subst d.
  assert (Hdone : ∀ st' c', st' = THREAD_STATE_WAIT →
    thr_step (mkThr false st' dst c' dbg_polls_request) ev_poll_request (mkThr false st' dst c' dbg_outside)).
  { intros st' c' ->. by apply (step_poll_request (mkThr false THREAD_STATE_WAIT dst c' dbg_polls_request)). }
  assert (Hstop : ∀ st', thr_step (mkThr false st' dst cpu_running dbg_polls_request) ev_cpu_wait
    (mkThr false THREAD_STATE_WAIT dst cpu_blocked dbg_polls_request)).
  { intros st'. by apply (step_cpu_wait (mkThr false st' dst cpu_running dbg_polls_request)). }
  assert (Hwait : c ≠ cpu_running → st = THREAD_STATE_WAIT) by (destruct st; [intros; exfalso; naive_solver|done]).
  destruct req; [specialize (Hr eq_refl)|]; destruct c; try done.
  - exists [ev_cpu_wait; ev_cpu_wait]. do 2 eexists. split; [by repeat (constructor; [by left|])|]. split.
    + eapply exec_cons; [by apply step_cpu_wait|]. eapply exec_cons; [apply Hstop|constructor].
    + split; [by apply Hdone|done].
  - exists [ev_cpu_resume; ev_cpu_wait]. do 2 eexists. split; [constructor; [by right|constructor; [by left|constructor]]|]. split.
    + eapply exec_cons; [by apply step_cpu_resume|]. eapply exec_cons; [apply Hstop|constructor].
    + split; [by apply Hdone|done].
  - exists [ev_cpu_wait]. do 2 eexists. split; [by repeat (constructor; [by left|])|]. split.
    + eapply exec_cons; [apply Hstop|constructor].
    + split; [by apply Hdone|done].
  - exists []. do 2 eexists. split; [constructor|]. split; [constructor|]. split; [by apply Hdone, Hwait|done].
  - exists []. do 2 eexists. split; [constructor|]. split; [constructor|]. split; [by apply Hdone, Hwait|done].
Qed.

(** ** A request made before the CPU waits *)

Module ThreadDemo.
Definition started : thr := cputhr_control_start thr_init.
(** The debugger asks for a run and starts polling while the CPU is still on its way to the wait. *)
Definition asked : thr := cputhr_control_dbg_wakeup_cpu_and_wait_for_cpu_stopped started.
Definition taken : thr := cputhr_control_cpu_wait asked.
Definition stopped : thr := cputhr_control_cpu_wait taken.

Lemma started_reachable : reachable started.
Proof. exists [ev_start]. eapply exec_cons; [by apply step_start|apply exec_nil]. Qed.
Lemma asked_reachable : reachable asked.
Proof.
  exists [ev_start; ev_wakeup_and_wait]. eapply exec_cons; [by apply step_start|].
  eapply exec_cons; [by apply step_wakeup_and_wait|apply exec_nil].
Qed.

Lemma no_lost_wakeup_witness :
  cpu_at asked ≠ cpu_blocked ∧
  (∃ ev s', thr_step asked ev s' ∧ takes asked ev) ∧
  ∀ ev s', thr_step asked ev s' → takes asked ev →
    cpu_at s' = cpu_running ∧ cputhr_state s' = THREAD_STATE_RUNNING ∧ cputhr_wakeup_requested s' = false.
Proof. apply (no_lost_wakeup asked asked_reachable); done. Defined.

Lemma has_run_witness :
  (∃ evs1 ev evs2 sa, [ev_cpu_wait; ev_cpu_wait] = evs1 ++ ev :: evs2 ∧ thr_exec asked evs1 sa ∧ takes sa ev) ∧
  cputhr_wakeup_requested (with_dbg dbg_outside stopped) = false ∧
  (cpu_at (with_dbg dbg_outside stopped) = cpu_blocked ∨ cpu_at (with_dbg dbg_outside stopped) = cpu_woken).
Proof.
  apply (wakeup_and_wait_has_run started asked stopped (with_dbg dbg_outside stopped) [ev_cpu_wait; ev_cpu_wait] started_reachable).
  - by apply step_wakeup_and_wait.
  - apply (exec_cons _ _ taken); [by apply step_cpu_wait|].
    apply (exec_cons _ _ stopped); [by apply step_cpu_wait|apply exec_nil].
  - by apply (step_poll_request stopped).
  - done.
Defined.

Lemma can_return_witness :
  ∃ evs s1 s2, Forall (λ ev, ev = ev_cpu_wait ∨ ev = ev_cpu_resume) evs ∧ thr_exec asked evs s1 ∧
    thr_step s1 ev_poll_request s2 ∧ dbg_at s2 = dbg_outside.
Proof. apply (wakeup_and_wait_can_return asked asked_reachable); done. Defined.
End ThreadDemo.
