(* ===== verification/Token.v ===== *)
(** * Tokens of a command line ([src/src/lib/token.c], [token.h])

    A line is split at delimiters into at most 128 tokens, each a decimal
    number, a hexadecimal number or a string.

    A token's value is a C union of two numbers and a string.  It is modelled by
    the memory of its largest member: the decimal value shares the bytes of the
    string's length, the hexadecimal value those of the length and, with 64-bit
    addresses, of the first four characters.  Containers are not cleared before
    they are filled, so what they held before is an argument of the split. *)

From Stdlib Require Import String Ascii.
From S2P Require Import Prelude.
Open Scope Z_scope.

(** The characters of a literal. *)
Definition str_of (s : string) : list Z := map (λ c, Z.of_N (N_of_ascii c)) (list_ascii_of_string s).

Inductive TokenEnumType := TOKEN_TYPE_VALUE_HEX | TOKEN_TYPE_VALUE_DEC | TOKEN_TYPE_STRING | TOKEN_TYPE_UNKNOWN.
#[export] Instance token_type_eq_dec : EqDecision TokenEnumType.
Proof. solve_decision. Defined.

Definition TOKEN_STRING_MAX_SIZE : Z := 4096.
Definition TOKEN_CONTAINER_MAX_SIZE : Z := 128.

Record TokenStringType := mkStr { ts_len : Z; ts_str : list Z }.
Record TokenValueType := mkTok { tk_type : TokenEnumType; tk_body : TokenStringType }.
Record TokenContainerType := mkTokens { tk_num : Z; tk_array : list TokenValueType }.

(** A string constant; the rest of its array is zero. *)
Definition token_const (s : string) : TokenStringType := mkStr (zlen (str_of s)) (str_of s).

(** ** Characters and numbers of the C library *)

Definition isspace (c : Z) : bool := ((9 <=? c) && (c <=? 13)) || (c =? 32).
Definition NUL : Z := 0.

(** The value of a character as a digit of some base. *)
Definition digit_of (c : Z) : option Z :=
  if (48 <=? c) && (c <=? 57) then Some (c - 48)
  else if (97 <=? c) && (c <=? 102) then Some (c - 87)
  else if (65 <=? c) && (c <=? 70) then Some (c - 55)
  else None.
Definition is_digit (base c : Z) : bool :=
  match digit_of c with Some d => d <? base | None => false end.

Fixpoint span_digits (base : Z) (s : list Z) : list Z * list Z :=
  match s with
  | c :: s' => if is_digit base c then let '(ds, r) := span_digits base s' in (c :: ds, r) else ([], s)
  | [] => ([], [])
  end.
Definition digits_val (base : Z) (ds : list Z) : Z :=
  foldl (λ v c, v * base + default 0 (digit_of c)) 0 ds.

Fixpoint skip_space (s : list Z) : list Z :=
  match s with c :: s' => if isspace c then skip_space s' else s | [] => [] end.
Definition get_sign (s : list Z) : bool * list Z :=
  match s with
  | c :: s' => if c =? 45 then (true, s') else if c =? 43 then (false, s') else (false, s)
  | [] => (false, [])
  end.

(** The string at a pointer: up to the terminating NUL. *)
Fixpoint cstring (s : list Z) : list Z :=
  match s with c :: s' => if c =? NUL then [] else c :: cstring s' | [] => [] end.

(** [strtol(s, &end, 10)] with a 64-bit [long]: the value, what is left at [end], and
    whether [errno] stayed 0. *)
Definition strtol (s : list Z) : Z * list Z * bool :=
  let '(neg, s1) := get_sign (skip_space s) in
  let '(ds, rest) := span_digits 10 s1 in
  match ds with
  | [] => (0, s, true)
  | _ =>
      let v := if neg then - digits_val 10 ds else digits_val 10 ds in
      if v <? - 2 ^ 63 then (- 2 ^ 63, rest, false)
      else if 2 ^ 63 <=? v then (2 ^ 63 - 1, rest, false)
      else (v, rest, true)
  end.

(** The optional prefix of a hexadecimal number: taken only before a digit. *)
Definition skip_0x (s : list Z) : list Z :=
  match s with
  | z :: x :: d :: r =>
      if (z =? 48) && ((x =? 120) || (x =? 88)) && is_digit 16 d then d :: r else s
  | _ => s
  end.
(** [strtoull(s, &end, 16)]. *)
Definition strtoull16 (s : list Z) : Z * list Z * bool :=
  let '(neg, s1) := get_sign (skip_space s) in
  let '(ds, rest) := span_digits 16 (skip_0x s1) in
  match ds with
  | [] => (0, s, true)
  | _ =>
      let v := digits_val 16 ds in
      if 2 ^ 64 <=? v then (2 ^ 64 - 1, rest, false)
      else (if neg then u64 (- v) else v, rest, true)
  end.

(** [strncmp] reports equality: both strings agree up to [n] characters or to a NUL. *)
Fixpoint strncmp_eq (n : nat) (a b : list Z) : bool :=
  match n with
  | O => true
  | S n' =>
      let x := default NUL (head a) in
      let y := default NUL (head b) in
      if negb (x =? y) then false
      else if x =? NUL then true
      else strncmp_eq n' (tail a) (tail b)
  end.

(** ** Strings *)

Definition token_strcmp (str1 str2 : TokenStringType) : bool :=
  if negb (ts_len str1 =? ts_len str2) then false
  else strncmp_eq (Z.to_nat (ts_len str1)) (ts_str str1) (ts_str str2).

(** Copy the characters of [src] over [dest] at [off] and terminate them. *)
Definition put_terminated (dest : list Z) (off : Z) (src : list Z) : outcome (list Z) :=
  d ← oob (bytes_set dest off src);
  oob (zset d (off + zlen src) NUL).

Definition token_merge (dest src : TokenStringType) : outcome (bool * TokenStringType) :=
  if TOKEN_STRING_MAX_SIZE - 1 <? u32 (ts_len dest + ts_len src) then Ok (false, dest)
  else
    s ← oob (bytes_at (ts_str src) 0 (ts_len src));
    d ← put_terminated (ts_str dest) (ts_len dest) s;
    Ok (true, mkStr (u32 (ts_len dest + ts_len src)) d).

(** [src] is the C string; a length of 4096 passes the check. *)
Definition token_string_set (dest : TokenStringType) (src : list Z) : outcome (bool * TokenStringType) :=
  let len := u32 (zlen src) in
  if TOKEN_STRING_MAX_SIZE <? len then Ok (false, dest)
  else
    d ← put_terminated (ts_str dest) 0 src;
    Ok (true, mkStr len d).

(** The index of the first carriage return, line feed or blank before [n]. *)
Fixpoint find_newline (n : nat) (i : Z) (s : list Z) : Z :=
  match n with
  | O => i
  | S n' =>
      let c := default NUL (zget s i) in
      if (c =? 13) || (c =? 10) || (c =? 32) then i else find_newline n' (i + 1) s
  end.
Definition token_trim_newline (token : TokenStringType) : TokenStringType :=
  mkStr (find_newline (Z.to_nat (ts_len token)) 0 (ts_str token)) (ts_str token).

(** ** Values *)

Section tokens.
Context `{AddrWidth}.

(** The members of the union. *)
Definition body_str (t : TokenValueType) : TokenStringType := tk_body t.
Definition body_dec (t : TokenValueType) : Z := ts_len (tk_body t).
Definition body_hex (t : TokenValueType) : Z :=
  if ATHRILL_ADDRESS_WIDTH =? 64
  then ts_len (tk_body t) + 2 ^ 32 * le_val (take 4 (ts_str (tk_body t)))
  else ts_len (tk_body t).
Definition put_dec (v : Z) (t : TokenValueType) : TokenValueType :=
  mkTok TOKEN_TYPE_VALUE_DEC (mkStr v (ts_str (tk_body t))).
Definition put_hex (v : Z) (t : TokenValueType) : TokenValueType :=
  mkTok TOKEN_TYPE_VALUE_HEX
    (mkStr (u32 v)
       (if ATHRILL_ADDRESS_WIDTH =? 64
        then bytes_put (ts_str (tk_body t)) 0 (le_bytes 4 (v / 2 ^ 32))
        else ts_str (tk_body t))).
Definition put_str (s : TokenStringType) : TokenValueType := mkTok TOKEN_TYPE_STRING s.

(** ** Splitting *)

Definition is_delimiter (c : Z) (ex_c : option Z) : bool :=
  if isspace c then true
  else if c =? 44 then true
  else if c =? 58 then true
  else if c =? NUL then true
  else match ex_c with Some d => c =? d | None => false end.

(** The value of the token in the buffer, over what the entry held. *)
Definition token_value (buffer : TokenStringType) (old : TokenValueType) : TokenValueType :=
  let s := cstring (ts_str buffer) in
  let '(ret32, end10, ok10) := strtol s in
  if ok10 && bool_decide (end10 = []) then put_dec (u32 ret32) old
  else if (2 <? ts_len buffer) && (default NUL (zget (ts_str buffer) 0) =? 48) &&
          (default NUL (zget (ts_str buffer) 1) =? 120) then
    let '(ret64, end16, ok16) := strtoull16 s in
    if ok16 && bool_decide (end16 = []) then put_hex (uaddr ret64) old
    else put_str buffer
  else put_str buffer.

Definition set_token (c : TokenContainerType) (buffer : TokenStringType) : outcome TokenContainerType :=
  let inx := u32 (tk_num c - 1) in
  str ← oob (zset (ts_str buffer) (ts_len buffer) NUL);
  let buffer := mkStr (ts_len buffer) str in
  old ← oob (zget (tk_array c) inx);
  arr ← oob (zset (tk_array c) inx (token_value buffer old));
  Ok (mkTokens (tk_num c) arr).

Inductive TokenCheckStateType := TOKEN_CHECK_STATE_DEMILITER | TOKEN_CHECK_STATE_CODE.

(** Append the character to the buffer; at the end of the line the token is complete. *)
Definition push_char (c : Z) (last : bool) (cont : TokenContainerType) (buffer : TokenStringType)
    : outcome (TokenCheckStateType * TokenContainerType * TokenStringType) :=
  str ← oob (zset (ts_str buffer) (ts_len buffer) c);
  let buffer := mkStr (ts_len buffer + 1) str in
  if last then
    cont ← set_token cont buffer;
    Ok (TOKEN_CHECK_STATE_DEMILITER, cont, mkStr 0 (ts_str buffer))
  else Ok (TOKEN_CHECK_STATE_CODE, cont, buffer).

(** The loop: [str] is what is left of the line. *)
Fixpoint split_loop (str : list Z) (state : TokenCheckStateType) (demiliter : option Z)
    (cont : TokenContainerType) (buffer : TokenStringType) : outcome (Std_ReturnType * TokenContainerType) :=
  match str with
  | [] => Ok (STD_E_OK, cont)
  | c :: str' =>
      let last := match str' with [] => true | _ => false end in
      match state with
      | TOKEN_CHECK_STATE_DEMILITER =>
          if is_delimiter c demiliter then split_loop str' TOKEN_CHECK_STATE_DEMILITER demiliter cont buffer
          else if TOKEN_CONTAINER_MAX_SIZE <? tk_num cont then Ok (STD_E_INVALID, cont)
          else
            '(state, cont, buffer) ← push_char c last (mkTokens (tk_num cont + 1) (tk_array cont)) buffer;
            split_loop str' state demiliter cont buffer
      | TOKEN_CHECK_STATE_CODE =>
          if is_delimiter c demiliter then
            cont ← set_token cont buffer;
            split_loop str' TOKEN_CHECK_STATE_DEMILITER demiliter cont (mkStr 0 (ts_str buffer))
          else if TOKEN_STRING_MAX_SIZE - 1 <=? ts_len buffer then Ok (STD_E_INVALID, cont)
          else
            '(state, cont, buffer) ← push_char c last cont buffer;
            split_loop str' state demiliter cont buffer
      end
  end.

(** [stale] is what the container held, [junk] what the local buffer held. *)
Definition token_split_common (stale : TokenContainerType) (junk : list Z) (str : list Z) (demiliter : option Z)
    : outcome (Std_ReturnType * TokenContainerType) :=
  split_loop str TOKEN_CHECK_STATE_DEMILITER demiliter (mkTokens 0 (tk_array stale)) (mkStr 0 junk).
Definition token_split (stale : TokenContainerType) (junk str : list Z) : outcome (Std_ReturnType * TokenContainerType) :=
  token_split_common stale junk str None.
Definition token_split_with_delimiter (stale : TokenContainerType) (junk str : list Z) (delimiter : Z)
    : outcome (Std_ReturnType * TokenContainerType) :=
  token_split_common stale junk str (Some delimiter).

(** ** Merging tokens back into a string *)

(** The digits of a number, most significant first; [fuel] bounds their number. *)
Fixpoint digits (fuel : nat) (base n : Z) (acc : list Z) : list Z :=
  match fuel with
  | O => acc
  | S fuel' =>
      let d := n mod base in
      let c := if d <? 10 then 48 + d else 87 + d in
      if n / base =? 0 then c :: acc else digits fuel' base (n / base) (c :: acc)
  end.
(** [%u] and [%x] of a value below 2^64. *)
Definition print_dec (n : Z) : list Z := digits 64 10 n [].
Definition print_hex (n : Z) : list Z := digits 64 16 n [].
(** [%d] of a [uint32]. *)
Definition print_int (n : Z) : list Z :=
  if n <? 2 ^ 31 then print_dec n else 45 :: print_dec (2 ^ 32 - n).

(** [sprintf] into the 4096 bytes of a local string: the result and its terminator must fit. *)
Definition sprintf_token (junk s : list Z) : outcome TokenStringType :=
  d ← put_terminated junk 0 s; Ok (mkStr (zlen s) d).

Definition token_text (t : TokenValueType) : option (list Z) :=
  match tk_type t with
  | TOKEN_TYPE_STRING => Some (cstring (ts_str (body_str t)) ++ [32])
  | TOKEN_TYPE_VALUE_DEC => Some (print_int (body_dec t) ++ [32])
  | TOKEN_TYPE_VALUE_HEX => Some (str_of "0x" ++ print_hex (body_hex t) ++ [32])
  | TOKEN_TYPE_UNKNOWN => None
  end.
Fixpoint merge_loop (n : nat) (i : Z) (c : TokenContainerType) (junk : list Z) (out : TokenStringType)
    : outcome TokenStringType :=
  match n with
  | O => Ok out
  | S n' =>
      t ← oob (zget (tk_array c) i);
      out ← match token_text t with
            | Some s => tmp ← sprintf_token junk s; '(_, out) ← token_merge out tmp; Ok out
            | None => Ok out
            end;
      merge_loop n' (i + 1) c junk out
  end.
Definition token_split_merge (c : TokenContainerType) (start_index : Z) (junk : list Z) (out : TokenStringType)
    : outcome (bool * TokenStringType) :=
  out ← merge_loop (Z.to_nat (tk_num c - start_index)) start_index c junk out; Ok (true, out).
End tokens.
