(* ===== verification/TokenFacts.v ===== *)
(** * What the tokeniser computes

    A line is a list of words separated by delimiters.  [split_ends] says what
    splitting such a list must give; [token_split] gives it for every line, whatever the
    container held.  Numbers survive printing and reading. *)

From Stdlib Require Import String Ascii.
From S2P Require Import Prelude Token.
Open Scope Z_scope.

(** ** Words *)

(** The maximal runs of characters that are no delimiters; [acc] is the word begun. *)
Fixpoint words_from (d : option Z) (acc s : list Z) : list (list Z) :=
  match s with
  | [] => match acc with [] => [] | _ => [acc] end
  | c :: s' =>
      if is_delimiter c d then
        match acc with [] => words_from d [] s' | _ => acc :: words_from d [] s' end
      else words_from d (acc ++ [c]) s'
  end.
Definition words (d : option Z) (s : list Z) : list (list Z) := words_from d [] s.

(** What a word means. *)
Inductive word_value := VDec (n : Z) | VHex (n : Z) | VStr (s : list Z).
#[export] Instance word_value_eq_dec : EqDecision word_value.
Proof. solve_decision. Defined.

Section tokens.
Context `{AddrWidth}.

Definition classify (w : list Z) : word_value :=
  let '(v10, end10, ok10) := strtol w in
  let '(v16, end16, ok16) := strtoull16 w in
  if ok10 && bool_decide (end10 = []) then VDec (u32 v10)
  else if (2 <? zlen w) && bool_decide (take 2 w = str_of "0x") && ok16 && bool_decide (end16 = [])
  then VHex (uaddr v16)
  else VStr w.

(** What a token means. *)
Definition tok_value (t : TokenValueType) : option word_value :=
  match tk_type t with
  | TOKEN_TYPE_VALUE_DEC => Some (VDec (body_dec t))
  | TOKEN_TYPE_VALUE_HEX => Some (VHex (body_hex t))
  | TOKEN_TYPE_STRING =>
      Some (VStr (take (Z.to_nat (ts_len (body_str t))) (ts_str (body_str t))))
  | TOKEN_TYPE_UNKNOWN => None
  end.

(** The array of a token's string has its declared size, the first member is a [uint32], and
    a string is terminated. *)
Definition tok_wf (t : TokenValueType) : Prop :=
  zlen (ts_str (tk_body t)) = TOKEN_STRING_MAX_SIZE ∧ in_width 32 (ts_len (tk_body t)) ∧
  (tk_type t = TOKEN_TYPE_STRING →
     0 ≤ ts_len (tk_body t) ∧ zget (ts_str (tk_body t)) (ts_len (tk_body t)) = Some NUL ∧
     Forall (λ c, c ≠ NUL) (take (Z.to_nat (ts_len (tk_body t))) (ts_str (tk_body t)))).
Definition tokens_wf (arr : list TokenValueType) : Prop :=
  zlen arr = TOKEN_CONTAINER_MAX_SIZE ∧ Forall tok_wf arr.

(** [split_ends k arr ws r]: with [k] tokens stored in [arr], the words [ws] still to come
    lead to [r]. *)
Inductive split_ends : Z → list TokenValueType → list (list Z) →
    outcome (Std_ReturnType * TokenContainerType) → Prop :=
  | ends_ok k arr : split_ends k arr [] (Ok (STD_E_OK, mkTokens k arr))
  | ends_long k arr w ws :
      TOKEN_STRING_MAX_SIZE - 1 < zlen w →
      split_ends k arr (w :: ws) (Ok (STD_E_INVALID, mkTokens (k + 1) arr))
  | ends_full k arr w ws :
      zlen w ≤ TOKEN_STRING_MAX_SIZE - 1 → k = TOKEN_CONTAINER_MAX_SIZE →
      split_ends k arr (w :: ws) (Fault OutOfBounds)
  | ends_word k arr w ws t r :
      zlen w ≤ TOKEN_STRING_MAX_SIZE - 1 → k < TOKEN_CONTAINER_MAX_SIZE →
      tok_value t = Some (classify w) → tok_wf t →
      split_ends (k + 1) (zput arr k t) ws r →
      split_ends k arr (w :: ws) r.

(** ** One token *)

Lemma cstring_app w r : Forall (λ c, c ≠ NUL) w → cstring (w ++ NUL :: r) = w.
Proof.
  induction 1 as [|c w Hc _ IH]; simpl; [done|].
  destruct (Z.eqb_spec c NUL); [done|]. by rewrite IH.
Qed.

(** The buffer holds the word [w]. *)
Definition holds (buffer : TokenStringType) (w : list Z) : Prop :=
  zlen (ts_str buffer) = TOKEN_STRING_MAX_SIZE ∧ ts_len buffer = zlen w ∧
  take (length w) (ts_str buffer) = w ∧ zlen w ≤ TOKEN_STRING_MAX_SIZE - 1.

Lemma holds_terminated buffer w :
  holds buffer w →
  ∃ r, zset (ts_str buffer) (ts_len buffer) NUL = Some (w ++ NUL :: r) ∧
       zlen (w ++ NUL :: r) = TOKEN_STRING_MAX_SIZE.
Proof.
  intros (Hlen & -> & Htake & Hw). exists (drop (S (length w)) (ts_str buffer)).
  assert (Hs : zset (ts_str buffer) (zlen w) NUL = Some (zput (ts_str buffer) (zlen w) NUL)).
  { apply zset_Some. pose proof (zlen_nonneg w). split; [lia|done]. }
  assert (Heq : zput (ts_str buffer) (zlen w) NUL = w ++ NUL :: drop (S (length w)) (ts_str buffer)).
  { unfold zput, zlen. rewrite Nat2Z.id. rewrite insert_take_drop by (unfold zlen, TOKEN_STRING_MAX_SIZE in *; lia).
    by rewrite Htake. }
  rewrite Hs, Heq. split; [done|]. by rewrite <- Heq, zlen_zput.
Qed.

Lemma holds_push buffer w c :
  holds buffer w → zlen w < TOKEN_STRING_MAX_SIZE - 1 →
  ∃ s, zset (ts_str buffer) (ts_len buffer) c = Some s ∧
       holds (mkStr (ts_len buffer + 1) s) (w ++ [c]).
Proof.
  intros (Hlen & -> & Htake & Hw) Hlt. exists (zput (ts_str buffer) (zlen w) c).
  pose proof (zlen_nonneg w). split; [apply zset_Some; split; [lia|done]|].
  unfold holds. cbn. rewrite zlen_zput, zlen_app. split_and!; [done|done| |unfold zlen; simpl; unfold zlen in *; lia].
  unfold zput, zlen in *. rewrite Nat2Z.id, insert_take_drop by lia.
  rewrite Htake, length_app. simpl. rewrite cons_middle, app_assoc.
  apply take_app_length'. rewrite length_app. done.
Qed.

Lemma holds_nil buffer : holds buffer [] → ∀ s, zlen s = TOKEN_STRING_MAX_SIZE → holds (mkStr 0 s) [].
Proof. intros _ s Hs. unfold holds. cbn. by split_and!. Qed.

Lemma body_hex_put v t : tok_wf t → is_addr v → body_hex (put_hex v t) = v.
Proof.
  intros [Hl _] Hv. unfold body_hex, put_hex, is_addr, ADDR_SPACE, TOKEN_STRING_MAX_SIZE in *. cbn [ts_len ts_str tk_body].
  destruct addr_width_ok as [E|E]; rewrite E in *; cbn [Z.eqb Pos.eqb].
  - apply wrap_id. exact Hv.
  - set (bs := le_bytes 4 (v / 2 ^ 32)).
    assert (zlen bs = 4) by apply le_bytes_len.
    pose proof (bytes_at_put_same (ts_str (tk_body t)) 0 bs ltac:(lia) ltac:(lia)) as Hb.
    unfold bytes_at in Hb. destruct (_ && _); [|done]. apply (inj Some) in Hb.
    rewrite drop_0 in Hb. replace (Z.to_nat (zlen bs)) with 4%nat in Hb by lia. rewrite Hb.
    unfold bs. rewrite le_val_bytes. change (8 * Z.of_nat 4) with 32.
    rewrite (Z.mod_small (v / 2 ^ 32)) by zdiv. unfold wrap. zdiv.
Qed.

Lemma put_hex_wf v t : tok_wf t → tok_wf (put_hex v t).
Proof.
  intros [Hl _]. split; [|split; [by apply wrap_in_width|done]]. unfold put_hex, TOKEN_STRING_MAX_SIZE in *. cbn [ts_str tk_body]. split_if; [|done].
  rewrite bytes_put_len by (rewrite ?le_bytes_len; lia). done.
Qed.

Lemma put_dec_wf v t : tok_wf t → in_width 32 v → tok_wf (put_dec v t).
Proof. intros [Hl _]. by split. Qed.

Lemma first_two w r :
  2 < zlen w →
  (default NUL (zget (w ++ r) 0) =? 48) && (default NUL (zget (w ++ r) 1) =? 120) =
  bool_decide (take 2 w = str_of "0x").
Proof.
  intros Hl. destruct w as [|a [|b w]]; [unfold zlen in Hl; simpl in Hl; lia..|].
  unfold zget. simpl. change (str_of "0x") with [48; 120].
  case_bool_decide as E; simplify_eq; [done|].
  apply andb_false_iff. destruct (Z.eqb_spec a 48), (Z.eqb_spec b 120); subst; auto. by destruct E.
Qed.

Lemma token_value_spec w r old :
  Forall (λ c, c ≠ NUL) w → tok_wf old → zlen (w ++ NUL :: r) = TOKEN_STRING_MAX_SIZE →
  let t := token_value (mkStr (zlen w) (w ++ NUL :: r)) old in
  tok_value t = Some (classify w) ∧ tok_wf t.
Proof.
  intros Hw Hold Hlen. unfold token_value, classify. cbn [ts_str ts_len].
  rewrite cstring_app by done.
  assert (Hstr : tok_value (put_str (mkStr (zlen w) (w ++ NUL :: r))) = Some (VStr w) ∧
                 tok_wf (put_str (mkStr (zlen w) (w ++ NUL :: r)))).
  { assert (Hu : take (Z.to_nat (zlen w)) (w ++ NUL :: r) = w)
      by (apply take_app_length'; unfold zlen; lia).
    split; [unfold tok_value; cbn; by rewrite Hu|]. split; [done|]. cbn. split.
    { pose proof (zlen_nonneg w). rewrite zlen_app in Hlen. unfold in_width, TOKEN_STRING_MAX_SIZE in *.
      pose proof (zlen_nonneg (NUL :: r)). lia. }
    intros _.
    rewrite Hu. split_and!; [apply zlen_nonneg| |done]. by rewrite zget_app_r, Z.sub_diag by lia. }
  destruct (strtol w) as [[v10 end10] ok10], (strtoull16 w) as [[v16 end16] ok16].
  destruct (ok10 && _); [split; [done|by apply put_dec_wf, wrap_in_width]|].
  destruct (2 <? zlen w) eqn:E; cbn [andb]; [|done].
  rewrite <- (first_two w (NUL :: r)) by lia.
  destruct ((_ =? 48) && _); cbn [andb]; [|done]. destruct (ok16 && _); [|done].
  split; [|by apply put_hex_wf]. unfold tok_value. cbn [tk_type put_hex].
  by rewrite body_hex_put.
Qed.

(** Storing the word in the buffer as token [k]. *)
Lemma set_token_spec k arr buffer w :
  tokens_wf arr → holds buffer w → Forall (λ c, c ≠ NUL) w → 0 ≤ k ≤ TOKEN_CONTAINER_MAX_SIZE →
  (k = TOKEN_CONTAINER_MAX_SIZE ∧ set_token (mkTokens (k + 1) arr) buffer = Fault OutOfBounds) ∨
  (k < TOKEN_CONTAINER_MAX_SIZE ∧ ∃ t,
     set_token (mkTokens (k + 1) arr) buffer = Ok (mkTokens (k + 1) (zput arr k t)) ∧
     tok_value t = Some (classify w) ∧ tok_wf t).
Proof.
  intros [Hla Hwf] Hh Hnn Hk. destruct (holds_terminated _ _ Hh) as (r & Hz & Hl).
  destruct Hh as (_ & Hlen & _ & Hw). unfold set_token, TOKEN_CONTAINER_MAX_SIZE in *. cbn [tk_num tk_array].
  replace (u32 (k + 1 - 1)) with k by (unfold wrap; zdiv).
  rewrite Hz. cbn [oob mbind outcome_bind].
  destruct (decide (k = 128)) as [->|]; [left|right].
  - rewrite zget_None by lia. done.
  - destruct (zget_is_Some arr k) as [old Ho]; [lia|]. rewrite Ho. cbn [oob mbind outcome_bind].
    pose proof (Forall_forall tok_wf arr) as [Hf _].
    destruct (token_value_spec w r old Hnn (Hf Hwf old (zget_elem _ _ _ Ho)) Hl) as [Hv Hwf'].
    rewrite Hlen. erewrite (proj2 (zset_Some _ _ _ _)) by (split; [lia|done]). cbn.
    split; [lia|]. eauto.
Qed.

Lemma tokens_wf_put arr k t : tokens_wf arr → tok_wf t → tokens_wf (zput arr k t).
Proof. intros [? ?] ?. split; [by rewrite zlen_zput|]. unfold zput. by apply Forall_insert. Qed.

(** ** The loop *)

Lemma not_delimiter_nonnul c d : is_delimiter c d = false → c ≠ NUL.
Proof. intros E ->. unfold is_delimiter in E. by vm_compute in E. Qed.

Lemma words_from_head d acc s :
  acc ≠ [] → ∃ x ws, words_from d acc s = (acc ++ x) :: ws.
Proof.
  revert acc. induction s as [|c s IH]; intros acc Ha; simpl.
  - exists [], []. destruct acc; [done|by rewrite app_nil_r].
  - destruct (is_delimiter c d).
    + exists [], (words_from d [] s). rewrite app_nil_r. by destruct acc.
    + destruct (IH (acc ++ [c])) as (x & ws & ->); [by destruct acc|].
      exists (c :: x), ws. by rewrite <- app_assoc.
Qed.

Lemma split_loop_spec d s :
  (∀ k arr buffer,
     tokens_wf arr → zlen (ts_str buffer) = TOKEN_STRING_MAX_SIZE → ts_len buffer = 0 →
     0 ≤ k ≤ TOKEN_CONTAINER_MAX_SIZE →
     split_ends k arr (words_from d [] s)
       (split_loop s TOKEN_CHECK_STATE_DEMILITER d (mkTokens k arr) buffer)) ∧
  (∀ k arr buffer acc,
     tokens_wf arr → holds buffer acc → acc ≠ [] → s ≠ [] → Forall (λ c, c ≠ NUL) acc →
     0 ≤ k ≤ TOKEN_CONTAINER_MAX_SIZE →
     split_ends k arr (words_from d acc s)
       (split_loop s TOKEN_CHECK_STATE_CODE d (mkTokens (k + 1) arr) buffer)).
Proof.
  induction s as [|c s [IHd IHc]]; [split; [intros; constructor|done]|].
  (* storing a complete word and going on after a delimiter *)
  assert (Hstore : ∀ k arr buffer w,
    tokens_wf arr → holds buffer w → Forall (λ c, c ≠ NUL) w → 0 ≤ k ≤ TOKEN_CONTAINER_MAX_SIZE →
    split_ends k arr (w :: words_from d [] s)
      (cont ← set_token (mkTokens (k + 1) arr) buffer;
       split_loop s TOKEN_CHECK_STATE_DEMILITER d cont (mkStr 0 (ts_str buffer)))).
  { intros k arr buffer w Hwf Hh Hnn Hk. pose proof Hh as (Hlen & _ & _ & Hw).
    destruct (set_token_spec k arr buffer w) as [[-> ->]|[Hlt (t & -> & Ht & Htw)]]; try done.
    - by apply ends_full.
    - cbn. eapply ends_word; try done. apply IHd; try done; [by apply tokens_wf_put|lia]. }
  (* adding a character to the word begun *)
  assert (Hpush : ∀ k arr buffer acc,
    tokens_wf arr → holds buffer acc → Forall (λ c, c ≠ NUL) (acc ++ [c]) →
    zlen acc < TOKEN_STRING_MAX_SIZE - 1 → 0 ≤ k ≤ TOKEN_CONTAINER_MAX_SIZE →
    split_ends k arr (words_from d (acc ++ [c]) s)
      ('(state, cont, buffer) ← push_char c (match s with [] => true | _ => false end)
                                  (mkTokens (k + 1) arr) buffer;
       split_loop s state d cont buffer)).
  { intros k arr buffer acc Hwf Hh Hnn Hlt Hk. unfold push_char.
    destruct (holds_push buffer acc c Hh Hlt) as (str & -> & Hh'). cbn [oob mbind outcome_bind].
    destruct s as [|c' s'].
    - specialize (Hstore k arr _ _ Hwf Hh' Hnn Hk). cbn [words_from] in *.
      destruct (set_token _ _); destruct acc; exact Hstore.
    - by apply IHc; [| |destruct acc| | |]. }
  split.
  - intros k arr buffer Hwf Hlen Hz Hk. cbn [split_loop words_from].
    destruct (is_delimiter c d) eqn:Ed; [by apply IHd|]. cbn [tk_num tk_array].
    destruct (Z.ltb_spec TOKEN_CONTAINER_MAX_SIZE k); [lia|]. apply (Hpush k arr buffer []); try done.
    repeat constructor. by eapply not_delimiter_nonnul.
  - intros k arr buffer acc Hwf Hh Ha _ Hnn Hk. cbn [split_loop words_from].
    destruct (is_delimiter c d) eqn:Ed.
    { specialize (Hstore k arr buffer acc Hwf Hh Hnn Hk). by destruct acc. }
    pose proof Hh as (_ & Hl & _ & Hle). rewrite Hl.
    destruct (Z.leb_spec (TOKEN_STRING_MAX_SIZE - 1) (zlen acc)).
    + destruct (words_from_head d (acc ++ [c]) s) as (x & ws & ->); [by destruct acc|].
      apply ends_long. rewrite !zlen_app. pose proof (zlen_nonneg x). change (zlen [c]) with 1. lia.
    + apply Hpush; try done. apply Forall_app. split; [done|].
      repeat constructor. by eapply not_delimiter_nonnul.
Qed.

(** The outcome on a line whose words all fit. *)
Lemma split_ends_fit k arr ws r :
  split_ends k arr ws r → 0 ≤ k → k + zlen ws ≤ TOKEN_CONTAINER_MAX_SIZE → tokens_wf arr →
  Forall (λ w, zlen w ≤ TOKEN_STRING_MAX_SIZE - 1) ws →
  ∃ arr', r = Ok (STD_E_OK, mkTokens (k + zlen ws) arr') ∧ tokens_wf arr' ∧
    (∀ i w, zget ws i = Some w →
       ∃ t, zget arr' (k + i) = Some t ∧ tok_value t = Some (classify w) ∧ tok_wf t) ∧
    (∀ i, i < k ∨ k + zlen ws ≤ i → zget arr' i = zget arr i).
Proof.
  induction 1 as [k arr|k arr w ws Hw|k arr w ws Hw Hk|k arr w ws t r Hw Hk Ht Htw He IH];
    intros H0 Hle Hwf Hall.
  - exists arr. change (zlen []) with 0. rewrite Z.add_0_r. split_and!; try done.
    intros i w Hg%zget_range. change (zlen []) with 0 in Hg. lia.
  - inversion Hall. lia.
  - assert (zlen (w :: ws) = 1 + zlen ws) by (unfold zlen; simpl; lia). pose proof (zlen_nonneg ws). lia.
  - assert (Hc : zlen (w :: ws) = 1 + zlen ws) by (unfold zlen; simpl; lia). rewrite Hc in *.
    pose proof Hwf as [Hla _]. pose proof (zlen_nonneg ws).
    destruct IH as (arr' & -> & Hwf' & Hin & Hout); [lia|lia|by apply tokens_wf_put|by inversion Hall|].
    exists arr'. split_and!; [by rewrite Z.add_assoc|done| |].
    + intros i w' Hg. pose proof (zget_range _ _ _ Hg). destruct (decide (i = 0)) as [->|].
      * assert (w' = w) as -> by (by injection Hg). exists t. split; [|done].
        rewrite Z.add_0_r, Hout, zget_zput_eq by lia. done.
      * replace (k + i) with (k + 1 + (i - 1)) by lia. apply Hin.
        rewrite <- Hg. change (w :: ws) with ([w] ++ ws). symmetry. apply zget_app_r. change (zlen [w]) with 1. lia.
    + intros i Hi. rewrite Hout by lia. apply zget_zput_ne; lia.
Qed.

Lemma token_split_words stale junk line :
  tokens_wf (tk_array stale) → zlen junk = TOKEN_STRING_MAX_SIZE →
  split_ends 0 (tk_array stale) (words None line) (token_split stale junk line).
Proof. intros. by apply split_loop_spec. Qed.

(** Splitting a line: whatever the container and the buffer held, [token_split] yields
    one token per word of the line, in order, each with the value of its word
    (a decimal number, a hexadecimal number or the characters), keeps the entries beyond
    them, answers [STD_E_INVALID] at the first word longer than 4095 characters, and leaves
    the array exactly when a 129th word completes. *)
Theorem token_split_spec stale junk line :
  tokens_wf (tk_array stale) → zlen junk = TOKEN_STRING_MAX_SIZE →
  split_ends 0 (tk_array stale) (words None line) (token_split stale junk line).
Proof. apply token_split_words. Qed.
End tokens.

(** ** Numbers survive printing and reading *)

Definition digit_char (d : Z) : Z := if d <? 10 then 48 + d else 87 + d.

Lemma digit_of_char d : 0 ≤ d < 16 → digit_of (digit_char d) = Some d.
Proof.
  intros. unfold digit_char, digit_of. destruct (Z.ltb_spec d 10).
  - replace (_ && _) with true by lia. f_equal. lia.
  - replace (_ && _) with false by lia. replace (_ && _) with true by lia. f_equal. lia.
Qed.

Lemma digits_val_snoc base ds c :
  digits_val base (ds ++ [c]) = digits_val base ds * base + default 0 (digit_of c).
Proof. unfold digits_val. by rewrite foldl_app. Qed.

Lemma digits_spec fuel base n acc :
  2 ≤ base ≤ 16 → (0 < fuel)%nat → 0 ≤ n < base ^ Z.of_nat fuel →
  ∃ ds, digits fuel base n acc = ds ++ acc ∧ ds ≠ [] ∧
        Forall (λ c, is_digit base c = true) ds ∧ digits_val base ds = n.
Proof.
  intros Hb. revert n acc. induction fuel as [|fuel IH]; intros n acc Hf Hn; [lia|].
  cbn [digits]. fold (digit_char (n mod base)).
  pose proof (Z.mod_pos_bound n base ltac:(lia)) as Hm.
  pose proof (Z.div_mod n base ltac:(lia)) as Hdm.
  assert (Hd : digit_of (digit_char (n mod base)) = Some (n mod base)) by (apply digit_of_char; lia).
  assert (Hdig : is_digit base (digit_char (n mod base)) = true) by (unfold is_digit; rewrite Hd; lia).
  destruct (Z.eqb_spec (n / base) 0) as [E|E].
  - exists [digit_char (n mod base)]. split_and!; [done|done|by constructor|].
    unfold digits_val. simpl. rewrite Hd. simpl. lia.
  - assert (Hq : 0 ≤ n / base < base ^ Z.of_nat fuel).
    { split; [apply Z.div_pos; lia|]. apply Z.div_lt_upper_bound; [lia|].
      rewrite Nat2Z.inj_succ, Z.pow_succ_r in Hn by lia. lia. }
    destruct (IH (n / base) (digit_char (n mod base) :: acc)) as (ds & -> & Hne & Hall & Hv); [|done|].
    { destruct fuel; [|lia]. simpl in Hq. change (base ^ 0) with 1 in Hq. lia. }
    exists (ds ++ [digit_char (n mod base)]). split_and!.
    + by rewrite <- app_assoc.
    + by destruct ds.
    + apply Forall_app. by split; [|constructor].
    + rewrite digits_val_snoc, Hv, Hd. simpl. lia.
Qed.

Lemma span_digits_all base ds :
  Forall (λ c, is_digit base c = true) ds → span_digits base ds = (ds, []).
Proof. induction 1 as [|c ds Hc _ IH]; simpl; [done|]. by rewrite Hc, IH. Qed.

(** A digit is neither a blank nor a sign. *)
Lemma digit_first base c s :
  is_digit base c = true → get_sign (skip_space (c :: s)) = (false, c :: s).
Proof.
  intros Hc. assert (48 ≤ c) as Hge.
  { unfold is_digit, digit_of in Hc. repeat (split_if_in Hc; [lia|]). done. }
  assert (c ≠ NUL) by (unfold NUL; lia). cbn [skip_space].
  replace (isspace c) with false by (unfold isspace; lia). cbn [get_sign].
  by replace (c =? 45) with false by lia; replace (c =? 43) with false by lia.
Qed.

Lemma strtol_print n : 0 ≤ n < 2 ^ 63 → strtol (print_dec n) = (n, [], true).
Proof.
  intros Hn. unfold print_dec.
  destruct (digits_spec 64 10 n [] ltac:(lia) ltac:(lia)) as (ds & -> & Hne & Hall & Hv).
  { split; [lia|]. etrans; [apply Hn|]. vm_compute. done. }
  rewrite app_nil_r. destruct ds as [|c ds]; [done|]. unfold strtol.
  rewrite (digit_first 10) by (by inversion Hall). rewrite span_digits_all, Hv by done.
  replace (n <? - 2 ^ 63) with false by lia. by replace (2 ^ 63 <=? n) with false by lia.
Qed.

Lemma strtoull16_print n : 0 ≤ n < 2 ^ 64 → strtoull16 (str_of "0x" ++ print_hex n) = (n, [], true).
Proof.
  intros Hn. unfold print_hex.
  destruct (digits_spec 64 16 n [] ltac:(lia) ltac:(lia)) as (ds & -> & Hne & Hall & Hv).
  { split; [lia|]. etrans; [apply Hn|]. vm_compute. done. }
  rewrite app_nil_r. destruct ds as [|c ds]; [done|]. unfold strtoull16.
  change (str_of "0x" ++ c :: ds) with (48 :: 120 :: c :: ds).
  rewrite (digit_first 16) by done. cbn [skip_0x]. pose proof (Forall_inv Hall) as Hc. cbn beta in Hc. rewrite Hc.
  cbn [Z.eqb Pos.eqb andb orb]. rewrite span_digits_all, Hv by done.
  by replace (2 ^ 64 <=? n) with false by lia.
Qed.

Section read_back.
Context `{AddrWidth}.

Lemma classify_dec n : 0 ≤ n < 2 ^ 32 → classify (print_dec n) = VDec n.
Proof.
  intros. unfold classify. rewrite strtol_print by lia.
  destruct (strtoull16 _) as [[? ?] ?]. rewrite bool_decide_true by done. simpl. by rewrite wrap_id.
Qed.

Lemma print_hex_nonempty n : 0 ≤ n < 2 ^ 64 → 0 < zlen (print_hex n).
Proof.
  intros Hn. unfold print_hex.
  destruct (digits_spec 64 16 n [] ltac:(lia) ltac:(lia)) as (ds & -> & Hne & _).
  { split; [lia|]. etrans; [apply Hn|]. vm_compute. done. }
  destruct ds; [done|]. unfold zlen. simpl. lia.
Qed.

Lemma classify_hex n : is_addr n → classify (str_of "0x" ++ print_hex n) = VHex n.
Proof.
  intros Hn. pose proof addr_space_range. unfold is_addr in Hn. unfold classify.
  rewrite strtoull16_print by lia. change (str_of "0x" ++ ?s) with (48 :: 120 :: s).
  replace (strtol (48 :: 120 :: print_hex n)) with (0, 120 :: print_hex n, true) by done.
  rewrite (bool_decide_false (_ :: _ = _)) by done. cbn [andb].
  pose proof (print_hex_nonempty n ltac:(lia)).
  replace (2 <? zlen _) with true by (unfold zlen in *; simpl; lia).
  rewrite !bool_decide_true by done. simpl. by rewrite uaddr_id.
Qed.

(** ** Comparing with a keyword *)

Lemma strncmp_eq_spec a b n :
  Forall (λ c, c ≠ NUL) b → length b = n →
  strncmp_eq n a b = true ↔ take n a = b ∧ (n ≤ length a)%nat.
Proof.
  intros Hb <-. revert a. induction Hb as [|c b Hc _ IH]; intros a; [simpl; split; [split; [done|lia]|done]|].
  destruct a as [|x a]; cbn [length strncmp_eq head tail default from_option take]; unfold id in *.
  - destruct (Z.eqb_spec NUL c); [congruence|]. simpl. split; [done|intros [? _]; done].
  - destruct (Z.eqb_spec x c) as [->|]; simpl.
    + destruct (Z.eqb_spec c NUL); [done|]. rewrite IH. split; intros []; split; try lia; congruence.
    + split; [done|]. intros [? _]. congruence.
Qed.

(** A string token equals a keyword exactly when its characters do. *)
Lemma token_strcmp_list t (l : list Z) :
  tok_wf t → tk_type t = TOKEN_TYPE_STRING → Forall (λ c, c ≠ NUL) l →
  token_strcmp (body_str t) (mkStr (zlen l) l) = bool_decide (tok_value t = Some (VStr l)).
Proof.
  intros (Hl & _ & Hs) Ht Hn. destruct (Hs Ht) as (H0 & Hg & _). apply zget_range in Hg.
  unfold token_strcmp, tok_value, body_str. rewrite Ht. cbn [ts_len ts_str].
  set (b := tk_body t) in *.
  assert (Hlen : length (take (Z.to_nat (ts_len b)) (ts_str b)) = Z.to_nat (ts_len b))
    by (rewrite length_take; unfold zlen in *; lia).
  destruct (Z.eqb_spec (ts_len b) (zlen l)) as [E|E]; simpl.
  - apply eq_true_iff_eq. rewrite bool_decide_eq_true, strncmp_eq_spec by (done || unfold zlen in *; lia).
    split; [by intros [-> _]|]. intros [= Heq]. split; [done|unfold zlen in *; lia].
  - symmetry. apply bool_decide_eq_false. intros [= Heq]. rewrite <- Heq in E. unfold zlen in *. lia.
Qed.
Lemma token_strcmp_spec t (s : string) :
  tok_wf t → tk_type t = TOKEN_TYPE_STRING → Forall (λ c, c ≠ NUL) (str_of s) →
  token_strcmp (body_str t) (token_const s) = bool_decide (tok_value t = Some (VStr (str_of s))).
Proof. apply token_strcmp_list. Qed.
End read_back.

(** ** Boundary cases *)

Definition blank_token : TokenValueType := mkTok TOKEN_TYPE_UNKNOWN (mkStr 0 (replicate 4096 0)).

Lemma token_split_spec_witness :
  split_ends (H := addr_width_32) 0 (replicate 128 blank_token)
    [str_of "watch"; str_of "rw"; str_of "0x1f"; str_of "4"]
    (token_split (H := addr_width_32) (mkTokens 7 (replicate 128 blank_token)) (replicate 4096 1)
       (str_of " watch rw,0x1f  4")).
Proof.
  change [str_of "watch"; str_of "rw"; str_of "0x1f"; str_of "4"] with (words None (str_of " watch rw,0x1f  4")).
  apply (token_split_spec (H := addr_width_32) (mkTokens 7 (replicate 128 blank_token)) (replicate 4096 1)); [|done].
  split; [done|]. apply Forall_replicate. by split.
Defined.

(** A string of 4096 characters passes the check of [token_string_set]; its terminator does not fit. *)
Lemma token_string_set_overrun :
  token_string_set (mkStr 0 (replicate 4096 0)) (replicate 4096 97) = Fault OutOfBounds.
Proof. by vm_compute. Qed.

(** A token of 4095 characters, which the tokeniser accepts, overruns the text buffer of
    [token_split_merge] by its blank and terminator. *)
Lemma token_split_merge_overrun :
  let t := put_str (mkStr 4095 (replicate 4095 97 ++ [NUL])) in
  token_split_merge (H := addr_width_32) (mkTokens 1 [t]) 0 (replicate 4096 0) (mkStr 0 (replicate 4096 0)) =
  Fault OutOfBounds.
Proof. by vm_compute. Qed.
