(* ===== verification/DbgParser.v ===== *)
(** * The debugger's command parser

    [src/src/debugger/interaction/front/parser/dbg_parser.c], [dbg_parser_config.c],
    [concrete_parser/dbg_std_parser.c] and [.h]: a line is split into tokens, offered to
    the parser of each command in the order of a table, and becomes the one command object
    [parse_command], which an empty line repeats.

    Each parser writes its structure over the zeroed bytes of [parsed_args].  The bytes
    are read as another structure only when a parser that failed has written to them; the
    parser that may follow then, [dbg_parse_data_access_info], overwrites all of its own,
    so reading another structure as zero loses nothing. *)

From Stdlib Require Import String Ascii.
From S2P Require Import Prelude Token.
Open Scope Z_scope.

(** ** Commands *)

Inductive DbgCmdStdIdType :=
  | DBG_CMD_STD_ID_PARSE_ERROR | DBG_CMD_STD_ID_BREAK | DBG_CMD_STD_ID_DELETE
  | DBG_CMD_STD_ID_CONT | DBG_CMD_STD_ID_CORE | DBG_CMD_STD_ID_INTR
  | DBG_CMD_STD_ID_DATA_WATCH | DBG_CMD_STD_ID_ELAPS | DBG_CMD_STD_ID_NEXT
  | DBG_CMD_STD_ID_RETURN | DBG_CMD_STD_ID_VIEW | DBG_CMD_STD_ID_PRINT
  | DBG_CMD_STD_ID_MEMSET | DBG_CMD_STD_ID_QUIT | DBG_CMD_STD_ID_EXIT
  | DBG_CMD_STD_ID_SERIALIN | DBG_CMD_STD_ID_INFO_CPU | DBG_CMD_STD_ID_FUNC_TRACE
  | DBG_CMD_STD_ID_DATA_ACCESS_INFO | DBG_CMD_STD_ID_BACK_TRACE | DBG_CMD_STD_ID_PROFILE
  | DBG_CMD_STD_ID_LIST | DBG_CMD_STD_ID_HELP | DBG_CMD_STD_ID_TARGET.
#[export] Instance std_id_eq_dec : EqDecision DbgCmdStdIdType.
Proof. solve_decision. Defined.

(** The functions [run] points to. *)
Inductive executor_fn :=
  | dbg_std_executor_parse_error | dbg_std_executor_break | dbg_std_executor_delete
  | dbg_std_executor_cont | dbg_std_executor_core | dbg_std_executor_watch_data
  | dbg_std_executor_intr | dbg_std_executor_next | dbg_std_executor_return
  | dbg_std_executor_quit | dbg_std_executor_exit | dbg_std_executor_elaps
  | dbg_std_executor_view | dbg_std_executor_print | dbg_std_executor_memset
  | dbg_std_executor_serialin | dbg_std_executor_info_cpu | dbg_std_executor_func_trace
  | dbg_std_executor_data_access_info | dbg_std_executor_back_trace
  | dbg_std_executor_profile | dbg_std_executor_list | dbg_std_executor_help.
#[export] Instance executor_fn_eq_dec : EqDecision executor_fn.
Proof. solve_decision. Defined.

(** ** Arguments *)

Definition zero_string : TokenStringType := mkStr 0 (replicate 4096 0).

Inductive DbgCmdBreakType :=
  | DBG_CMD_BBREAK_SET | DBG_CMD_BBREAK_SET_SYMBOL | DBG_CMD_BREAK_SET_FILE_LINE | DBG_CMD_BREAK_INFO.
Record DbgCmdExecutorBreakType := mkBreakArgs {
  ba_type : DbgCmdBreakType; break_addr : Z; ba_symbol : TokenStringType; ba_line : Z }.

Inductive DbgCmdDeleteType := DBG_CMD_DELETE_ALL | DBG_CMD_DELETE_ONE.
Record DbgCmdExecutorDeleteType := mkDeleteArgs { da_type : DbgCmdDeleteType; delete_break_no : Z }.

Inductive DbgCmdContType := DBG_CMD_CONT_ALL | DBG_CMD_CONT_CLOCKS.
Record DbgCmdExecutorContType := mkContArgs { ca_type : DbgCmdContType; cont_clocks : Z }.

Inductive DbgCmdCoreType := DBG_CMD_CORE_ALL | DBG_CMD_CORE_SINGLE | DBG_CMD_CORE_SHOW.
Record DbgCmdExecutorCoreType := mkCoreArgs {
  co_type : DbgCmdCoreType; co_core_id : Z; co_is_debug_mode : bool }.

Inductive DbgCmdDPrintType :=
  | DBG_CMD_PRINT_SYMBOL | DBG_CMD_PRINT_ADDR | DBG_CMD_PRINT_ADDR_SIZE | DBG_CMD_PRINT_ADDR_TYPE.
Record DbgCmdExecutorPrintType := mkPrintArgs {
  pa_type : DbgCmdDPrintType; pa_symbol : TokenStringType; pa_addr : Z; pa_size : Z;
  pa_dataType : TokenStringType; pa_dataTypeName : TokenStringType }.

Record DbgCmdExecutorMemsetType := mkMemsetArgs { ma_addr : Z; ma_value : Z }.
Record DbgCmdExecutorSerialInType := mkSerialArgs { sa_channel : Z; sa_input : TokenStringType }.
Record DbgCmdExecutorInfoCpuType := mkInfoCpuArgs { ia_type : DbgCmdCoreType; ia_core_id : Z }.
(** [bt_way]: false for the latest first, true for the oldest first. *)
Record DbgCmdExecutorFuncTraceType := mkFuncTraceArgs { bt_number : Z; bt_way : bool }.

Inductive DbgCmdDWatchDataType :=
  | DBG_CMD_WATCH_SET | DBG_CMD_WATCH_SET_SYMBOL | DBG_CMD_WATCH_DELETE_ONE
  | DBG_CMD_WATCH_DELETE_ALL | DBG_CMD_WATCH_INFO.
Definition DBG_CMD_WATCH_TYPE_READ : Z := 1.
Definition DBG_CMD_WATCH_TYPE_WRITE : Z := 16.
Definition DBG_CMD_WATCH_TYPE_RW : Z := Z.lor DBG_CMD_WATCH_TYPE_READ DBG_CMD_WATCH_TYPE_WRITE.
Record DbgCmdExecutorWatchDataType := mkWatchArgs {
  wa_type : DbgCmdDWatchDataType; wa_watch_type : Z; wa_symbol : TokenStringType;
  wa_addr : Z; wa_size : Z; wa_delno : Z }.

Record DbgCmdExecutorDataAccessInfoType := mkDataAccessArgs { dai_symbol : TokenStringType }.
Record DbgCmdExecutorIntrType := mkIntrArgs { intno : Z }.

(** What the buffer [parsed_args] holds. *)
Inductive parsed_bytes :=
  | A_Zero
  | A_Break (a : DbgCmdExecutorBreakType)
  | A_Delete (a : DbgCmdExecutorDeleteType)
  | A_Cont (a : DbgCmdExecutorContType)
  | A_Core (a : DbgCmdExecutorCoreType)
  | A_Print (a : DbgCmdExecutorPrintType)
  | A_Memset (a : DbgCmdExecutorMemsetType)
  | A_Serial (a : DbgCmdExecutorSerialInType)
  | A_InfoCpu (a : DbgCmdExecutorInfoCpuType)
  | A_FuncTrace (a : DbgCmdExecutorFuncTraceType)
  | A_Watch (a : DbgCmdExecutorWatchDataType)
  | A_DataAccess (a : DbgCmdExecutorDataAccessInfoType)
  | A_Intr (a : DbgCmdExecutorIntrType)
  | A_Help.

(** The buffer read as the structure of each command. *)
Definition break_args p := match p with A_Break a => a | _ => mkBreakArgs DBG_CMD_BBREAK_SET 0 zero_string 0 end.
Definition delete_args p := match p with A_Delete a => a | _ => mkDeleteArgs DBG_CMD_DELETE_ALL 0 end.
Definition cont_args p := match p with A_Cont a => a | _ => mkContArgs DBG_CMD_CONT_ALL 0 end.
Definition core_args p := match p with A_Core a => a | _ => mkCoreArgs DBG_CMD_CORE_ALL 0 false end.
Definition print_args p := match p with A_Print a => a
  | _ => mkPrintArgs DBG_CMD_PRINT_SYMBOL zero_string 0 0 zero_string zero_string end.
Definition memset_args p := match p with A_Memset a => a | _ => mkMemsetArgs 0 0 end.
Definition serial_args p := match p with A_Serial a => a | _ => mkSerialArgs 0 zero_string end.
Definition info_cpu_args p := match p with A_InfoCpu a => a | _ => mkInfoCpuArgs DBG_CMD_CORE_ALL 0 end.
Definition func_trace_args p := match p with A_FuncTrace a => a | _ => mkFuncTraceArgs 0 false end.
Definition watch_args p := match p with A_Watch a => a
  | _ => mkWatchArgs DBG_CMD_WATCH_SET 0 zero_string 0 0 0 end.
Definition data_access_args p := match p with A_DataAccess a => a | _ => mkDataAccessArgs zero_string end.
Definition intr_args p := match p with A_Intr a => a | _ => mkIntrArgs 0 end.

Definition DBG_CMD_BUFFER_SIZE : Z := 4096 * 256.

(** [original_str] up to its terminator. *)
Record DbgCmdExecutorType := mkExec {
  std_id : DbgCmdStdIdType;
  original_str : list Z;
  parsed_args : parsed_bytes;
  run : executor_fn;
  result_ok : bool;
}.

Definition set_args (p : parsed_bytes) (arg : DbgCmdExecutorType) : DbgCmdExecutorType :=
  mkExec (std_id arg) (original_str arg) p (run arg) (result_ok arg).
Definition set_id (i : DbgCmdStdIdType) (arg : DbgCmdExecutorType) : DbgCmdExecutorType :=
  mkExec i (original_str arg) (parsed_args arg) (run arg) (result_ok arg).
Definition set_run (f : executor_fn) (arg : DbgCmdExecutorType) : DbgCmdExecutorType :=
  mkExec (std_id arg) (original_str arg) (parsed_args arg) f (result_ok arg).
Definition set_result_ok (arg : DbgCmdExecutorType) : DbgCmdExecutorType :=
  mkExec (std_id arg) (original_str arg) (parsed_args arg) (run arg) true.

(** ** The parsers

    The result says whether the command was recognised; a parser that does not recognise
    it may still have written to the object. *)

Section parsers.
Context `{AddrWidth}.
(** [cpu_config_get_core_id_num()], and what the stack held where [token_split_merge] keeps
    its local string. *)
Context (core_id_num : Z) (junk : list Z).

Definition zero_token : TokenValueType := mkTok TOKEN_TYPE_VALUE_HEX zero_string.
Definition tok (c : TokenContainerType) (i : Z) : TokenValueType := default zero_token (zget (tk_array c) i).
Definition type_is (c : TokenContainerType) (i : Z) (ty : TokenEnumType) : bool :=
  bool_decide (tk_type (tok c i) = ty).
Definition str_is (c : TokenContainerType) (i : Z) (s : string) : bool :=
  token_strcmp (body_str (tok c i)) (token_const s).

Definition no_match (arg : DbgCmdExecutorType) : bool * DbgCmdExecutorType := (false, arg).
Definition matched (i : DbgCmdStdIdType) (f : executor_fn) (p : parsed_bytes) (arg : DbgCmdExecutorType)
    : bool * DbgCmdExecutorType :=
  (true, set_run f (set_id i (set_args p arg))).

Definition dbg_parse_break (arg : DbgCmdExecutorType) (c : TokenContainerType) : bool * DbgCmdExecutorType :=
  let a := break_args (parsed_args arg) in
  let yes p := matched DBG_CMD_STD_ID_BREAK dbg_std_executor_break (A_Break p) arg in
  if negb (tk_num c =? 2) && negb (tk_num c =? 3) then no_match arg
  else if negb (type_is c 0 TOKEN_TYPE_STRING) then no_match arg
  else if str_is c 0 "break" || str_is c 0 "b" then
    if type_is c 1 TOKEN_TYPE_VALUE_HEX then
      yes (mkBreakArgs DBG_CMD_BBREAK_SET (body_hex (tok c 1)) (ba_symbol a) (ba_line a))
    else if type_is c 1 TOKEN_TYPE_STRING then
      if tk_num c =? 2 then
        yes (mkBreakArgs DBG_CMD_BBREAK_SET_SYMBOL (break_addr a) (body_str (tok c 1)) (ba_line a))
      else if (tk_num c =? 3) && type_is c 2 TOKEN_TYPE_VALUE_DEC then
        yes (mkBreakArgs DBG_CMD_BREAK_SET_FILE_LINE (break_addr a) (body_str (tok c 1)) (body_dec (tok c 2)))
      else no_match arg
    else no_match arg
  else if str_is c 0 "info" then
    if str_is c 1 "break" then yes (mkBreakArgs DBG_CMD_BREAK_INFO (break_addr a) (ba_symbol a) (ba_line a))
    else no_match arg
  else no_match arg.

Definition dbg_parse_watch_data (arg : DbgCmdExecutorType) (c : TokenContainerType) : bool * DbgCmdExecutorType :=
  let a := watch_args (parsed_args arg) in
  let yes p := matched DBG_CMD_STD_ID_DATA_WATCH dbg_std_executor_watch_data (A_Watch p) arg in
  let no_set wt := no_match (set_args (A_Watch (mkWatchArgs (wa_type a) wt (wa_symbol a) (wa_addr a) (wa_size a) (wa_delno a))) arg) in
  (* set: symbol or address and size *)
  let set_point wt :=
    if (tk_num c =? 3) && type_is c 2 TOKEN_TYPE_STRING then
      yes (mkWatchArgs DBG_CMD_WATCH_SET_SYMBOL wt (body_str (tok c 2)) (wa_addr a) (wa_size a) (wa_delno a))
    else if (tk_num c =? 4) && type_is c 2 TOKEN_TYPE_VALUE_HEX && type_is c 3 TOKEN_TYPE_VALUE_DEC then
      yes (mkWatchArgs DBG_CMD_WATCH_SET wt (wa_symbol a) (body_hex (tok c 2)) (body_dec (tok c 3)) (wa_delno a))
    else no_set wt in
  let set_kind :=
    if str_is c 1 "r" then set_point DBG_CMD_WATCH_TYPE_READ
    else if str_is c 1 "w" then set_point DBG_CMD_WATCH_TYPE_WRITE
    else if str_is c 1 "rw" then set_point DBG_CMD_WATCH_TYPE_RW
    else no_match arg in
  if tk_num c <? 2 then no_match arg
  else if negb (type_is c 0 TOKEN_TYPE_STRING) then no_match arg
  else if negb (type_is c 1 TOKEN_TYPE_STRING) then no_match arg
  else if str_is c 0 "watch" || str_is c 0 "w" then
    if str_is c 1 "d" && (tk_num c =? 2) then
      yes (mkWatchArgs DBG_CMD_WATCH_DELETE_ALL (wa_watch_type a) (wa_symbol a) (wa_addr a) (wa_size a) (wa_delno a))
    else if str_is c 1 "d" && ((tk_num c =? 3) && type_is c 2 TOKEN_TYPE_VALUE_DEC) then
      yes (mkWatchArgs DBG_CMD_WATCH_DELETE_ONE (wa_watch_type a) (wa_symbol a) (wa_addr a) (wa_size a) (body_dec (tok c 2)))
    else set_kind
  else if str_is c 0 "info" then
    if str_is c 1 "watch" then
      yes (mkWatchArgs DBG_CMD_WATCH_INFO (wa_watch_type a) (wa_symbol a) (wa_addr a) (wa_size a) (wa_delno a))
    else no_match arg
  else no_match arg.

Definition dbg_parse_delete (arg : DbgCmdExecutorType) (c : TokenContainerType) : bool * DbgCmdExecutorType :=
  let a := delete_args (parsed_args arg) in
  let yes p := matched DBG_CMD_STD_ID_DELETE dbg_std_executor_delete (A_Delete p) arg in
  if 2 <? tk_num c then no_match arg
  else if negb (type_is c 0 TOKEN_TYPE_STRING) then no_match arg
  else if str_is c 0 "delete" || str_is c 0 "d" then
    if tk_num c =? 1 then yes (mkDeleteArgs DBG_CMD_DELETE_ALL (delete_break_no a))
    else if (tk_num c =? 2) && type_is c 1 TOKEN_TYPE_VALUE_DEC then
      yes (mkDeleteArgs DBG_CMD_DELETE_ONE (body_dec (tok c 1)))
    else no_match arg
  else no_match arg.

Definition dbg_parse_cont (arg : DbgCmdExecutorType) (c : TokenContainerType) : bool * DbgCmdExecutorType :=
  let a := cont_args (parsed_args arg) in
  if 2 <? tk_num c then no_match arg
  else if negb (type_is c 0 TOKEN_TYPE_STRING) then no_match arg
  else if (tk_num c =? 2) && negb (type_is c 1 TOKEN_TYPE_VALUE_DEC) then no_match arg
  else if str_is c 0 "cont" || str_is c 0 "c" then
    matched DBG_CMD_STD_ID_CONT dbg_std_executor_cont
      (A_Cont (if tk_num c =? 1 then mkContArgs DBG_CMD_CONT_ALL (cont_clocks a)
               else mkContArgs DBG_CMD_CONT_CLOCKS (body_dec (tok c 1)))) arg
  else no_match arg.

Definition dbg_parse_core (arg : DbgCmdExecutorType) (c : TokenContainerType) : bool * DbgCmdExecutorType :=
  let a := core_args (parsed_args arg) in
  let yes p := matched DBG_CMD_STD_ID_CORE dbg_std_executor_core (A_Core p) arg in
  if negb (tk_num c =? 1) && negb (tk_num c =? 3) then no_match arg
  else if negb (type_is c 0 TOKEN_TYPE_STRING) then no_match arg
  else if (tk_num c =? 3) &&
          ((if type_is c 1 TOKEN_TYPE_STRING then negb (str_is c 1 "all")
            else if negb (type_is c 1 TOKEN_TYPE_VALUE_DEC) then true
            else core_id_num <=? body_dec (tok c 1)) ||
           negb (type_is c 2 TOKEN_TYPE_STRING)) then no_match arg
  else if str_is c 0 "core" then
    if tk_num c =? 3 then
      if type_is c 1 TOKEN_TYPE_STRING then
        let p := mkCoreArgs DBG_CMD_CORE_ALL (co_core_id a) true in
        if negb (str_is c 2 "t") then no_match (set_id DBG_CMD_STD_ID_CORE (set_args (A_Core p) arg))
        else yes p
      else yes (mkCoreArgs DBG_CMD_CORE_SINGLE (body_dec (tok c 1)) (str_is c 2 "t"))
    else yes (mkCoreArgs DBG_CMD_CORE_SHOW (co_core_id a) (co_is_debug_mode a))
  else no_match arg.

Definition dbg_parse_intr (arg : DbgCmdExecutorType) (c : TokenContainerType) : bool * DbgCmdExecutorType :=
  if negb (tk_num c =? 2) then no_match arg
  else if negb (type_is c 0 TOKEN_TYPE_STRING) then no_match arg
  else if negb (type_is c 1 TOKEN_TYPE_VALUE_DEC) then no_match arg
  else if str_is c 0 "intr" || str_is c 0 "i" then
    matched DBG_CMD_STD_ID_INTR dbg_std_executor_intr (A_Intr (mkIntrArgs (body_dec (tok c 1)))) arg
  else no_match arg.

(** A command of one word: [keys] are its spellings. *)
Definition parse_word (keys : list string) (i : DbgCmdStdIdType) (f : executor_fn) (p : parsed_bytes)
    (arg : DbgCmdExecutorType) (c : TokenContainerType) : bool * DbgCmdExecutorType :=
  if negb (tk_num c =? 1) then no_match arg
  else if negb (type_is c 0 TOKEN_TYPE_STRING) then no_match arg
  else if existsb (str_is c 0) keys then matched i f p arg
  else no_match arg.

Definition dbg_parse_elaps (arg : DbgCmdExecutorType) :=
  parse_word ["elaps"; "e"]%string DBG_CMD_STD_ID_ELAPS dbg_std_executor_elaps (parsed_args arg) arg.
Definition dbg_parse_next (arg : DbgCmdExecutorType) :=
  parse_word ["next"; "n"]%string DBG_CMD_STD_ID_NEXT dbg_std_executor_next (parsed_args arg) arg.
Definition dbg_parse_return (arg : DbgCmdExecutorType) :=
  parse_word ["return"; "r"]%string DBG_CMD_STD_ID_RETURN dbg_std_executor_return (parsed_args arg) arg.
Definition dbg_parse_view (arg : DbgCmdExecutorType) :=
  parse_word ["view"; "v"]%string DBG_CMD_STD_ID_VIEW dbg_std_executor_view (parsed_args arg) arg.
Definition dbg_parse_quit (arg : DbgCmdExecutorType) :=
  parse_word ["quit"; "q"]%string DBG_CMD_STD_ID_QUIT dbg_std_executor_quit (parsed_args arg) arg.
Definition dbg_parse_list (arg : DbgCmdExecutorType) :=
  parse_word ["list"; "l"]%string DBG_CMD_STD_ID_LIST dbg_std_executor_list (parsed_args arg) arg.
Definition dbg_parse_exit (arg : DbgCmdExecutorType) :=
  parse_word ["exit"]%string DBG_CMD_STD_ID_EXIT dbg_std_executor_exit (parsed_args arg) arg.
Definition dbg_parse_back_trace (arg : DbgCmdExecutorType) :=
  parse_word ["bt"]%string DBG_CMD_STD_ID_BACK_TRACE dbg_std_executor_back_trace (parsed_args arg) arg.
Definition dbg_parse_profile (arg : DbgCmdExecutorType) :=
  parse_word ["prof"]%string DBG_CMD_STD_ID_PROFILE dbg_std_executor_profile (parsed_args arg) arg.
Definition dbg_parse_help (arg : DbgCmdExecutorType) :=
  parse_word ["help"]%string DBG_CMD_STD_ID_HELP dbg_std_executor_help A_Help arg.

(** The address is read from the decimal member of the union. *)
Definition dbg_parse_print (arg : DbgCmdExecutorType) (c : TokenContainerType) : bool * DbgCmdExecutorType :=
  let a := print_args (parsed_args arg) in
  let yes p := matched DBG_CMD_STD_ID_PRINT dbg_std_executor_print (A_Print p) arg in
  if negb (tk_num c =? 2) && negb (tk_num c =? 3) && negb (tk_num c =? 4) then no_match arg
  else if negb (type_is c 0 TOKEN_TYPE_STRING) then no_match arg
  else if negb (str_is c 0 "print") && negb (str_is c 0 "p") then no_match arg
  else if tk_num c =? 2 then
    if type_is c 1 TOKEN_TYPE_STRING then
      yes (mkPrintArgs DBG_CMD_PRINT_SYMBOL (body_str (tok c 1)) (pa_addr a) (pa_size a) (pa_dataType a) (pa_dataTypeName a))
    else if type_is c 1 TOKEN_TYPE_VALUE_HEX then
      yes (mkPrintArgs DBG_CMD_PRINT_ADDR (pa_symbol a) (body_dec (tok c 1)) (pa_size a) (pa_dataType a) (pa_dataTypeName a))
    else no_match arg
  else if tk_num c =? 3 then
    if type_is c 1 TOKEN_TYPE_VALUE_HEX && type_is c 2 TOKEN_TYPE_VALUE_DEC then
      yes (mkPrintArgs DBG_CMD_PRINT_ADDR_SIZE (pa_symbol a) (body_dec (tok c 1)) (body_dec (tok c 2)) (pa_dataType a) (pa_dataTypeName a))
    else no_match arg
  else if type_is c 1 TOKEN_TYPE_VALUE_HEX && type_is c 2 TOKEN_TYPE_STRING && type_is c 3 TOKEN_TYPE_STRING then
    yes (mkPrintArgs DBG_CMD_PRINT_ADDR_TYPE (pa_symbol a) (body_dec (tok c 1)) (pa_size a) (body_str (tok c 2)) (body_str (tok c 3)))
  else no_match arg.

(** [std_id] is not set. *)
Definition dbg_parse_memset (arg : DbgCmdExecutorType) (c : TokenContainerType) : bool * DbgCmdExecutorType :=
  if negb (tk_num c =? 3) then no_match arg
  else if negb (type_is c 0 TOKEN_TYPE_STRING) then no_match arg
  else if negb (str_is c 0 "set") && negb (str_is c 0 "s") then no_match arg
  else if negb (type_is c 1 TOKEN_TYPE_VALUE_HEX) then no_match arg
  else if negb (type_is c 2 TOKEN_TYPE_VALUE_DEC) then no_match arg
  else (true, set_run dbg_std_executor_memset
                (set_args (A_Memset (mkMemsetArgs (body_hex (tok c 1)) (u8 (body_dec (tok c 2))))) arg)).

Definition dbg_parse_serialin (arg : DbgCmdExecutorType) (c : TokenContainerType)
    : outcome (bool * DbgCmdExecutorType) :=
  let a := serial_args (parsed_args arg) in
  if tk_num c <? 3 then Ok (no_match arg)
  else if negb (type_is c 0 TOKEN_TYPE_STRING) then Ok (no_match arg)
  else if negb (type_is c 1 TOKEN_TYPE_VALUE_DEC) then Ok (no_match arg)
  else if str_is c 0 "serial" || str_is c 0 "S" then
    '(_, input) ← token_split_merge c 2 junk (sa_input a);
    Ok (matched DBG_CMD_STD_ID_SERIALIN dbg_std_executor_serialin
          (A_Serial (mkSerialArgs (body_dec (tok c 1)) (token_trim_newline input))) arg)
  else Ok (no_match arg).

Definition dbg_parse_info_cpu (arg : DbgCmdExecutorType) (c : TokenContainerType) : bool * DbgCmdExecutorType :=
  let a := info_cpu_args (parsed_args arg) in
  if negb (tk_num c =? 1) && negb (tk_num c =? 2) then no_match arg
  else if negb (type_is c 0 TOKEN_TYPE_STRING) then no_match arg
  else if (tk_num c =? 2) && negb (type_is c 1 TOKEN_TYPE_VALUE_DEC) then no_match arg
  else if str_is c 0 "cpu" then
    matched DBG_CMD_STD_ID_INFO_CPU dbg_std_executor_info_cpu
      (A_InfoCpu (if tk_num c =? 1 then mkInfoCpuArgs DBG_CMD_CORE_ALL (ia_core_id a)
                  else mkInfoCpuArgs DBG_CMD_CORE_SINGLE (body_dec (tok c 1)))) arg
  else no_match arg.

Definition dbg_parse_func_trace (arg : DbgCmdExecutorType) (c : TokenContainerType) : bool * DbgCmdExecutorType :=
  let a := func_trace_args (parsed_args arg) in
  if negb (tk_num c =? 2) && negb (tk_num c =? 3) then no_match arg
  else
    let way := tk_num c =? 3 in
    let arg := set_args (A_FuncTrace (mkFuncTraceArgs (bt_number a) way)) arg in
    if negb (type_is c 0 TOKEN_TYPE_STRING) then no_match arg
    else if negb (type_is c 1 TOKEN_TYPE_VALUE_DEC) then no_match arg
    else if str_is c 0 "ft" then
      matched DBG_CMD_STD_ID_FUNC_TRACE dbg_std_executor_func_trace
        (A_FuncTrace (mkFuncTraceArgs (body_dec (tok c 1)) way)) arg
    else no_match arg.

Definition dbg_parse_data_access_info (arg : DbgCmdExecutorType) (c : TokenContainerType)
    : bool * DbgCmdExecutorType :=
  if negb (tk_num c =? 2) then no_match arg
  else if negb (type_is c 0 TOKEN_TYPE_STRING) then no_match arg
  else if negb (type_is c 1 TOKEN_TYPE_STRING) then no_match arg
  else if str_is c 0 "access" then
    matched DBG_CMD_STD_ID_DATA_ACCESS_INFO dbg_std_executor_data_access_info
      (A_DataAccess (mkDataAccessArgs (body_str (tok c 1)))) arg
  else no_match arg.

(** ** The table and the parser *)

Definition parser := DbgCmdExecutorType → TokenContainerType → outcome (bool * DbgCmdExecutorType).
Definition pure (p : DbgCmdExecutorType → TokenContainerType → bool * DbgCmdExecutorType) : parser :=
  λ arg c, Ok (p arg c).

Definition dbg_cmd_parser_std_table : list parser :=
  [ pure dbg_parse_break; pure dbg_parse_delete; pure dbg_parse_intr; pure dbg_parse_watch_data;
    pure dbg_parse_cont; pure dbg_parse_core; pure dbg_parse_elaps; pure dbg_parse_next;
    pure dbg_parse_return; pure dbg_parse_view; pure dbg_parse_print; pure dbg_parse_memset;
    pure dbg_parse_quit; pure dbg_parse_exit; dbg_parse_serialin; pure dbg_parse_info_cpu;
    pure dbg_parse_func_trace; pure dbg_parse_data_access_info; pure dbg_parse_back_trace;
    pure dbg_parse_profile; pure dbg_parse_list; pure dbg_parse_help ].

Fixpoint try_parsers (ps : list parser) (arg : DbgCmdExecutorType) (c : TokenContainerType)
    : outcome (bool * DbgCmdExecutorType) :=
  match ps with
  | [] => Ok (false, arg)
  | p :: ps' =>
      '(b, arg) ← p arg c;
      if (b : bool) then Ok (true, arg) else try_parsers ps' arg c
  end.

Definition can_execute (debug_mode : bool) (arg : DbgCmdExecutorType) : bool :=
  if debug_mode then negb (bool_decide (std_id arg = DBG_CMD_STD_ID_QUIT))
  else bool_decide (std_id arg = DBG_CMD_STD_ID_QUIT).

(** [last_command] is either NULL or the address of [parse_command]. *)
Record parser_state := mkParser { last_command : bool; parse_command : DbgCmdExecutorType }.

(** The parser: whether a command is returned (it is [parse_command]) or NULL.
    [stale] and [buf] are what the stack held where the tokens and the buffer of
    [token_split] lie; [debug_mode] is [cpuctrl_is_debug_mode()]. *)
Definition dbg_parse (debug_mode : bool) (stale : TokenContainerType) (buf : list Z)
    (str : list Z) (st : parser_state) : outcome (bool * parser_state) :=
  if (zlen str =? 0) && last_command st then Ok (true, st)
  else if DBG_CMD_BUFFER_SIZE <=? zlen str then Fault OutOfBounds
  else
    let arg := mkExec DBG_CMD_STD_ID_PARSE_ERROR str A_Zero dbg_std_executor_parse_error
                 (result_ok (parse_command st)) in
    '(err, c) ← token_split stale buf str;
    if negb (std_ok err) then Ok (true, mkParser false arg)
    else
      '(found, arg) ← try_parsers dbg_cmd_parser_std_table arg c;
      if negb found then Ok (true, mkParser false arg)
      else if negb (can_execute debug_mode arg) then Ok (false, mkParser (last_command st) arg)
      else Ok (true, mkParser true arg).
End parsers.

(** ** The list of commands [help] prints *)

Record help_opt := mkOpt { semantics : string; description : string }.
Record help_cmd := mkHelp { name : string; name_shortcut : option string; opts : list help_opt }.

Definition help_list : list help_cmd :=
  ([
    mkHelp "break" (Some "b")
      [mkOpt "break {<addr(hex)>|<funcname>}"
         "set a break point. Break points are shown using 'info break' command.";
       mkOpt "break <file> <lineno>"
         "set a break point on the {<file>, <lineno>}. Break points are shown using 'info break' command."];
    mkHelp "delete" (Some "d")
      [mkOpt "delete"
         "delete all break points";
       mkOpt "delete <break_no>"
         "delete the break point of <break_no>"];
    mkHelp "watch" (Some "w")
      [mkOpt "watch {r|w|rw} {<addr(hex)> size(dec)|<variable_name>}"
         "set a watch point. Watch points are shown using 'info watch' command.";
       mkOpt "watch d"
         "delete all watch points";
       mkOpt "watch d <watch_no>"
         "delete the watch point of <watch_no>"];
    mkHelp "cont" (Some "c")
      [mkOpt "cont"
         "continue program";
       mkOpt "cont <clocks>"
         "continue program until cpu has elapsed <clocks> times"];
    mkHelp "core" None
      [mkOpt "core <core_id> <debug_mode>"
         "set cpu(core_id(all|<id>)) <debug_mode(t|f)>";
       mkOpt "core"
         "show cpu debug_mode"];
    mkHelp "intr" (Some "i")
      [mkOpt "intr <intno>"
         "generate an interruption of <intno>"];
    mkHelp "elaps" (Some "e")
      [mkOpt "elaps"
         "show elapsed cpu clocks"];
    mkHelp "next" (Some "n")
      [mkOpt "next"
         "step forward"];
    mkHelp "return" (Some "r")
      [mkOpt "return"
         "return from the current function"];
    mkHelp "view" (Some "v")
      [mkOpt "view"
         "select the logging mode"];
    mkHelp "print" (Some "p")
      [mkOpt "print <variable_name>"
         "show memory information of the <variable_name>";
       mkOpt "print <addr(hex)> <size>"
         "show memory information from <addr> to (<addr> + <size>)";
       mkOpt "print <addr(hex)> <type(s|c|t)> <typename>"
         "show memory information from <addr> by <typename>)"];
    mkHelp "set" (Some "s")
      [mkOpt "set <addr(hex)> <value>"
         "set <value> on memory <addr> by byte"];
    mkHelp "quit" (Some "q")
      [mkOpt "quit"
         "quit form CPU mode"];
    mkHelp "exit" None
      [mkOpt "exit"
         "exit from this program"];
    mkHelp "serial" (Some "S")
      [mkOpt "serial <channel> <input_data(string)>"
         "set <input_data> on the serial(<channel>) as an input"];
    mkHelp "cpu" None
      [mkOpt "cpu"
         "show all cpu registers";
       mkOpt "cpu <core_id>"
         "show cpu(<core_id>)"];
    mkHelp "ft" None
      [mkOpt "ft <number>"
         "show function trace log(show size=<number>) from latest log";
       mkOpt "ft <number> r"
         "show function trace log(show size=<number>) from oldest log"];
    mkHelp "access" None
      [mkOpt "access <variable_name>"
         "show variable access functions"];
    mkHelp "bt" None
      [mkOpt "bt"
         "show back trace result"];
    mkHelp "prof" None
      [mkOpt "profile"
         "show profile result"];
    mkHelp "list" (Some "l")
      [mkOpt "list"
         "show the program code where the pc is stopped."];
    mkHelp "help" None
      [mkOpt "help"
         "show all commands"]
  ])%string.
