(* ===== verification/DbgParserFacts.v ===== *)
(** * The command language of the debugger

    The commands are given as an abstract type with the words that spell them; the parser
    reads every spelling back as the command.  Lines that spell no command are refused. *)

From Stdlib Require Import String Ascii.
From S2P Require Import Prelude Token TokenFacts DbgParser.
Open Scope Z_scope.

(** ** Lines made of words *)

Fixpoint join (ws : list (list Z)) : list Z :=
  match ws with
  | [] => []
  | [w] => w
  | w :: ws' => w ++ 32 :: join ws'
  end.

(** A word: not empty, without delimiters, short enough for a token. *)
Definition is_word (w : list Z) : Prop :=
  w ≠ [] ∧ Forall (λ c, is_delimiter c None = false) w ∧ zlen w ≤ TOKEN_STRING_MAX_SIZE - 1.

Lemma words_from_word acc w s :
  Forall (λ c, is_delimiter c None = false) w →
  words_from None acc (w ++ s) = words_from None (acc ++ w) s.
Proof.
  intros Hw. revert acc. induction Hw as [|c w Hc _ IH]; intros acc; simpl.
  - by rewrite app_nil_r.
  - rewrite Hc, IH. by rewrite <- app_assoc.
Qed.

Lemma words_join ws : Forall is_word ws → words None (join ws) = ws.
Proof.
  unfold words. induction 1 as [|w ws (Hne & Hd & _) _ IH]; [done|].
  destruct ws as [|w' ws].
  - simpl. rewrite <- (app_nil_r w) at 1. rewrite words_from_word by done. by destruct w.
  - change (join (w :: w' :: ws)) with (w ++ 32 :: join (w' :: ws)).
    rewrite words_from_word by done. simpl app. cbn [words_from].
    replace (is_delimiter 32 None) with true by done. rewrite IH. by destruct w.
Qed.

(** ** Tokens by their values *)

Section facts.
Context `{AddrWidth} (core_id_num : Z) (junk : list Z).

Definition tok_is (t : TokenValueType) (v : word_value) : Prop := tok_wf t ∧ tok_value t = Some v.

(** The container holds tokens of the given values. *)
Definition tokens_are (c : TokenContainerType) (vs : list word_value) : Prop :=
  tk_num c = zlen vs ∧ zlen vs ≤ TOKEN_CONTAINER_MAX_SIZE ∧
  ∀ i v, zget vs i = Some v → zget (tk_array c) i = Some (tok c i) ∧ tok_is (tok c i) v.

Definition type_of (v : word_value) : TokenEnumType :=
  match v with
  | VDec _ => TOKEN_TYPE_VALUE_DEC | VHex _ => TOKEN_TYPE_VALUE_HEX | VStr _ => TOKEN_TYPE_STRING
  end.

Lemma tok_is_type t v : tok_is t v → tk_type t = type_of v.
Proof. intros [_ Hv]. unfold tok_value in Hv. destruct (tk_type t); by simplify_eq. Qed.

Lemma tok_is_dec t n : tok_is t (VDec n) → body_dec t = n.
Proof. intros [_ Hv]. unfold tok_value in Hv. destruct (tk_type t); by simplify_eq. Qed.

Lemma tok_is_hex t n : tok_is t (VHex n) → body_hex t = n.
Proof. intros [_ Hv]. unfold tok_value in Hv. destruct (tk_type t); by simplify_eq. Qed.

(** The decimal member of a hexadecimal token: its low 32 bits. *)
Lemma tok_is_hex_low t n : tok_is t (VHex n) → body_dec t = u32 n.
Proof.
  intros Hv. rewrite <- (tok_is_hex _ _ Hv). destruct Hv as [(_ & Hw & _) _].
  unfold body_dec, body_hex, in_width, wrap in *. split_if.
  - rewrite Z.mul_comm, Z.mod_add by lia. symmetry. by apply Z.mod_small.
  - symmetry. by apply Z.mod_small.
Qed.

Definition str_val (s : TokenStringType) : list Z := take (Z.to_nat (ts_len s)) (ts_str s).

Lemma tok_is_str t w : tok_is t (VStr w) → str_val (body_str t) = w.
Proof. intros [_ Hv]. unfold tok_value in Hv. destruct (tk_type t); by simplify_eq. Qed.

Definition plain (s : string) : bool := forallb (λ c, negb (c =? NUL)) (str_of s).

Lemma str_is_val c i w s :
  tok_is (tok c i) (VStr w) → plain s = true → str_is c i s = bool_decide (w = str_of s).
Proof.
  intros Ht Hs. pose proof (tok_is_type _ _ Ht) as Hty. destruct Ht as [Hwf Hv].
  unfold str_is. rewrite token_strcmp_spec; [|done|done|].
  - rewrite Hv. apply bool_decide_ext. split; [by intros [= ->]|by intros ->].
  - apply Forall_forall. intros x Hx. unfold plain in Hs. rewrite forallb_forall in Hs.
    specialize (Hs x (proj1 (list_elem_of_In _ _) Hx)). by destruct (Z.eqb_spec x NUL).
Qed.

Lemma type_is_val c i v ty :
  tok_is (tok c i) v → type_is c i ty = bool_decide (type_of v = ty).
Proof. intros Ht. unfold type_is. by rewrite (tok_is_type _ _ Ht). Qed.

(** ** Parsers skip what they do not know *)

(** The keywords of the parsers, in the order of the table. *)
Definition keywords : list (list string) :=
  [ ["break"; "b"; "info"]; ["delete"; "d"]; ["intr"; "i"]; ["watch"; "w"; "info"];
    ["cont"; "c"]; ["core"]; ["elaps"; "e"]; ["next"; "n"]; ["return"; "r"]; ["view"; "v"];
    ["print"; "p"]; ["set"; "s"]; ["quit"; "q"]; ["exit"]; ["serial"; "S"]; ["cpu"]; ["ft"];
    ["access"]; ["bt"]; ["prof"]; ["list"; "l"]; ["help"] ]%string.

Lemma set_args_same arg : set_args (parsed_args arg) arg = arg.
Proof. by destruct arg. Qed.

Lemma tokens_first c v vs : tokens_are c (v :: vs) → tok_is (tok c 0) v.
Proof. intros (_ & _ & Hv). by apply Hv. Qed.

(** No keyword of the parser matches. *)
Definition strange (c : TokenContainerType) (ks : list string) : Prop :=
  Forall (λ s, str_is c 0 s = false) ks.

Lemma strange_first c k vs ks :
  tokens_are c (VStr k :: vs) → forallb plain ks = true → Forall (λ s, k ≠ str_of s) ks → strange c ks.
Proof.
  intros Hc Hp Hk. pose proof (tokens_first _ _ _ Hc) as H0. unfold strange.
  rewrite Forall_forall in *. intros s Hs. rewrite (str_is_val _ _ _ _ H0).
  - by apply bool_decide_eq_false, Hk.
  - rewrite forallb_forall in Hp. by apply Hp, list_elem_of_In.
Qed.

(** What a parser that passes may do to the object: [ft] notes the direction. *)
Definition passed (arg arg' : DbgCmdExecutorType) : Prop :=
  ∃ q, arg' = set_args q arg ∧ (q = parsed_args arg ∨ ∃ f, q = A_FuncTrace f).
#[local] Instance passed_refl : Reflexive passed.
Proof. intros arg. exists (parsed_args arg). rewrite set_args_same. eauto. Qed.
#[local] Instance passed_trans : Transitive passed.
Proof.
  intros arg arg' arg'' (q & -> & Hq) (q' & -> & Hq'). exists q'. split; [done|]. simpl in Hq'.
  destruct Hq' as [->|?]; eauto.
Qed.
Definition passes (p : parser) (ks : list string) : Prop :=
  ∀ arg c, strange c ks → ∃ arg', p arg c = Ok (false, arg') ∧ passed arg arg'.

Ltac skip_parser :=
  let arg := fresh "arg" in let c := fresh "c" in let Hs := fresh "Hs" in
  intros arg c Hs; unfold strange in Hs;
  repeat match goal with
  | H : Forall _ (_ :: _) |- _ => apply Forall_cons in H; destruct H as [? H]
  | H : Forall _ [] |- _ => clear H
  end;
  unfold pure, dbg_parse_serialin, dbg_parse_break, dbg_parse_delete, dbg_parse_intr,
    dbg_parse_watch_data, dbg_parse_cont, dbg_parse_core, dbg_parse_print, dbg_parse_memset,
    dbg_parse_info_cpu, dbg_parse_func_trace, dbg_parse_data_access_info, dbg_parse_elaps,
    dbg_parse_next, dbg_parse_return, dbg_parse_view, dbg_parse_quit, dbg_parse_exit,
    dbg_parse_back_trace, dbg_parse_profile, dbg_parse_list, dbg_parse_help, parse_word;
  cbn [existsb];
  repeat match goal with H : str_is _ _ _ = false |- _ => rewrite H; clear H end;
  cbn [negb andb orb];
  repeat split_if;
  (eexists; split; [reflexivity|]); first [ reflexivity | eexists; split; [reflexivity|eauto] ].

Lemma table_skips : Forall2 passes (dbg_cmd_parser_std_table core_id_num junk) keywords.
Proof. repeat (apply Forall2_cons; split; [skip_parser|]). apply Forall2_nil_2. Qed.

(** Parsers none of whose keywords begins the line are passed over. *)
Lemma try_skip ps kss rest arg c :
  Forall2 passes ps kss → strange c (concat kss) →
  ∃ arg', try_parsers (ps ++ rest) arg c = try_parsers rest arg' c ∧ passed arg arg'.
Proof.
  intros Hps. revert arg. induction Hps as [|p ks ps kss Hp _ IH]; intros arg Hs.
  - by exists arg.
  - simpl in Hs. apply Forall_app in Hs as [Hk Hs]. destruct (Hp arg c Hk) as (arg1 & Hq & H1).
    destruct (IH arg1 Hs) as (arg2 & Hq' & H2). exists arg2. split; [|by etrans].
    cbn [app try_parsers]. rewrite Hq. cbn [mbind outcome_bind]. by rewrite Hq'.
Qed.

(** The [j]-th parser is the first that may know the line. *)
Lemma try_reach (j : nat) p arg c :
  dbg_cmd_parser_std_table core_id_num junk !! j = Some p → strange c (concat (take j keywords)) →
  ∃ arg' rest, try_parsers (dbg_cmd_parser_std_table core_id_num junk) arg c =
               try_parsers (p :: rest) arg' c ∧ passed arg arg'.
Proof.
  intros Hp Hs. set (table := dbg_cmd_parser_std_table core_id_num junk) in *.
  rewrite <- (take_drop j table). rewrite (drop_S _ _ _ Hp).
  destruct (try_skip (take j table) (take j keywords) (p :: drop (S j) table) arg c) as (arg' & Hq & ?); eauto.
  apply Forall2_take, table_skips.
Qed.

Lemma try_none arg c :
  strange c (concat keywords) →
  ∃ arg', try_parsers (dbg_cmd_parser_std_table core_id_num junk) arg c = Ok (false, arg') ∧ passed arg arg'.
Proof.
  intros Hs. destruct (try_skip _ _ [] arg c table_skips Hs) as (arg' & Hq & ?).
  rewrite app_nil_r in Hq. by exists arg'.
Qed.
End facts.

(** ** Commands and their spelling *)

Inductive watch_kind := WatchRead | WatchWrite | WatchRw.

Inductive command :=
  | BreakAddr (a : Z) | BreakSymbol (s : list Z) | BreakLine (f : list Z) (n : Z) | BreakInfo
  | Delete (n : option Z) | Intr (n : Z)
  | WatchAddr (k : watch_kind) (a n : Z) | WatchSymbol (k : watch_kind) (s : list Z)
  | WatchDelete (n : option Z) | WatchInfo
  | Cont (n : option Z) | CoreShow | CoreAll | CoreSet (id : Z) (b : bool)
  | Elaps | Next | Return | View | Quit | Exit | BackTrace | Profile | ListCode | Help
  | PrintSymbol (s : list Z) | PrintAddr (a : Z) | PrintRange (a n : Z) | PrintTyped (a : Z) (ty nm : list Z)
  | Memset (a v : Z) | Serial (ch : Z) (s : list Z) | Cpu (n : option Z)
  | FuncTrace (n : Z) (oldest : bool) | Access (s : list Z).

(** The words of a command; [short] chooses the abbreviation where there is one. *)
Section spelling.
Context (short : bool).
Definition key (long abbr : string) : list Z := str_of (if short then abbr else long).
Definition hexw (a : Z) : list Z := str_of "0x" ++ print_hex a.
Definition kind_word (k : watch_kind) : list Z :=
  str_of match k with WatchRead => "r" | WatchWrite => "w" | WatchRw => "rw" end.
Definition opt_word (n : option Z) : list (list Z) := match n with Some n => [print_dec n] | None => [] end.

Definition spell (c : command) : list (list Z) :=
  match c with
  | BreakAddr a => [key "break" "b"; hexw a]
  | BreakSymbol s => [key "break" "b"; s]
  | BreakLine f n => [key "break" "b"; f; print_dec n]
  | BreakInfo => [str_of "info"; str_of "break"]
  | Delete n => key "delete" "d" :: opt_word n
  | Intr n => [key "intr" "i"; print_dec n]
  | WatchAddr k a n => [key "watch" "w"; kind_word k; hexw a; print_dec n]
  | WatchSymbol k s => [key "watch" "w"; kind_word k; s]
  | WatchDelete n => key "watch" "w" :: str_of "d" :: opt_word n
  | WatchInfo => [str_of "info"; str_of "watch"]
  | Cont n => key "cont" "c" :: opt_word n
  | CoreShow => [str_of "core"]
  | CoreAll => [str_of "core"; str_of "all"; str_of "t"]
  | CoreSet id b => [str_of "core"; print_dec id; str_of (if b then "t" else "f")]
  | Elaps => [key "elaps" "e"] | Next => [key "next" "n"] | Return => [key "return" "r"]
  | View => [key "view" "v"] | Quit => [key "quit" "q"] | Exit => [str_of "exit"]
  | BackTrace => [str_of "bt"] | Profile => [str_of "prof"] | ListCode => [key "list" "l"]
  | Help => [str_of "help"]
  | PrintSymbol s => [key "print" "p"; s]
  | PrintAddr a => [key "print" "p"; hexw a]
  | PrintRange a n => [key "print" "p"; hexw a; print_dec n]
  | PrintTyped a ty nm => [key "print" "p"; hexw a; ty; nm]
  | Memset a v => [key "set" "s"; hexw a; print_dec v]
  | Serial ch s => [key "serial" "S"; print_dec ch; s]
  | Cpu n => str_of "cpu" :: opt_word n
  | FuncTrace n oldest => str_of "ft" :: print_dec n :: if oldest then [str_of "r"] else []
  | Access s => [str_of "access"; s]
  end.
End spelling.

Section grammar.
Context `{AddrWidth} (core_id_num : Z) (junk : list Z).

Definition is_symbol (s : list Z) : Prop := is_word s ∧ classify s = VStr s.
Definition opt_ok (n : option Z) : Prop := match n with Some n => in_width 32 n | None => True end.

(** The arguments a command may have. *)
Definition command_wf (c : command) : Prop :=
  match c with
  | BreakAddr a | PrintAddr a => is_addr a
  | BreakSymbol s | PrintSymbol s | WatchSymbol _ s | Access s => is_symbol s
  | BreakLine f n => is_symbol f ∧ in_width 32 n
  | Delete n | WatchDelete n | Cont n | Cpu n => opt_ok n
  | Intr n | FuncTrace n _ => in_width 32 n
  | WatchAddr _ a n | PrintRange a n | Memset a n => is_addr a ∧ in_width 32 n
  | CoreSet id _ => in_width 32 id ∧ id < core_id_num
  | PrintTyped a ty nm => is_addr a ∧ is_symbol ty ∧ is_symbol nm
  | Serial ch s => in_width 32 ch ∧ is_symbol s ∧ zlen s ≤ TOKEN_STRING_MAX_SIZE - 2
  | _ => True
  end.

(** What the words of a command mean. *)
Definition opt_value (n : option Z) : list word_value := match n with Some n => [VDec n] | None => [] end.
Definition values (short : bool) (c : command) : list word_value :=
  match c with
  | BreakAddr a => [VStr (key short "break" "b"); VHex a]
  | BreakSymbol s => [VStr (key short "break" "b"); VStr s]
  | BreakLine f n => [VStr (key short "break" "b"); VStr f; VDec n]
  | BreakInfo => [VStr (str_of "info"); VStr (str_of "break")]
  | Delete n => VStr (key short "delete" "d") :: opt_value n
  | Intr n => [VStr (key short "intr" "i"); VDec n]
  | WatchAddr k a n => [VStr (key short "watch" "w"); VStr (kind_word k); VHex a; VDec n]
  | WatchSymbol k s => [VStr (key short "watch" "w"); VStr (kind_word k); VStr s]
  | WatchDelete n => VStr (key short "watch" "w") :: VStr (str_of "d") :: opt_value n
  | WatchInfo => [VStr (str_of "info"); VStr (str_of "watch")]
  | Cont n => VStr (key short "cont" "c") :: opt_value n
  | CoreShow => [VStr (str_of "core")]
  | CoreAll => [VStr (str_of "core"); VStr (str_of "all"); VStr (str_of "t")]
  | CoreSet id b => [VStr (str_of "core"); VDec id; VStr (str_of (if b then "t" else "f"))]
  | PrintSymbol s => [VStr (key short "print" "p"); VStr s]
  | PrintAddr a => [VStr (key short "print" "p"); VHex a]
  | PrintRange a n => [VStr (key short "print" "p"); VHex a; VDec n]
  | PrintTyped a ty nm => [VStr (key short "print" "p"); VHex a; VStr ty; VStr nm]
  | Memset a v => [VStr (key short "set" "s"); VHex a; VDec v]
  | Serial ch s => [VStr (key short "serial" "S"); VDec ch; VStr s]
  | Cpu n => VStr (str_of "cpu") :: opt_value n
  | FuncTrace n oldest => VStr (str_of "ft") :: VDec n :: if oldest then [VStr (str_of "r")] else []
  | Access s => [VStr (str_of "access"); VStr s]
  | _ => map VStr (spell short c)
  end.

Lemma digits_len fuel base n acc : zlen (digits fuel base n acc) ≤ Z.of_nat fuel + zlen acc.
Proof.
  revert n acc. induction fuel as [|fuel IH]; intros n acc; [simpl; lia|]. cbn [digits].
  assert (Hc : ∀ x, zlen (x :: acc) = 1 + zlen acc) by (intros; unfold zlen; simpl; lia).
  split_if; [rewrite Hc; lia|]. etrans; [apply IH|]. rewrite Hc. lia.
Qed.

Lemma digit_not_delimiter base c : is_digit base c = true → is_delimiter c None = false.
Proof.
  intros Hd. unfold is_digit, digit_of in Hd. unfold is_delimiter, isspace, NUL.
  destruct ((48 <=? c) && (c <=? 57)) eqn:?, ((97 <=? c) && (c <=? 102)) eqn:?,
    ((65 <=? c) && (c <=? 70)) eqn:?; try done;
  replace (((9 <=? c) && (c <=? 13)) || (c =? 32)) with false by lia;
  replace (c =? 44) with false by lia; replace (c =? 58) with false by lia; by replace (c =? 0) with false by lia.
Qed.

Lemma digits_word fuel base n :
  2 ≤ base ≤ 16 → (0 < fuel ≤ 64)%nat → 0 ≤ n < base ^ Z.of_nat fuel → is_word (digits fuel base n []).
Proof.
  intros Hb Hf Hn. pose proof (digits_len fuel base n []) as Hlen.
  destruct (digits_spec fuel base n [] Hb ltac:(lia) Hn) as (ds & E & Hne & Hall & _).
  rewrite E, app_nil_r in *. split_and!; [done| |].
  - eapply Forall_impl; [exact Hall|]. intros c. apply digit_not_delimiter.
  - change (zlen (@nil Z)) with 0 in Hlen. unfold TOKEN_STRING_MAX_SIZE. lia.
Qed.

Lemma print_dec_word n : in_width 32 n → is_word (print_dec n).
Proof.
  intros [? Hn]. apply digits_word; [lia|lia|]. split; [done|]. etrans; [exact Hn|]. by vm_compute.
Qed.

Lemma hexw_word a : is_addr a → is_word (hexw a).
Proof.
  intros [? Ha]. pose proof addr_space_range.
  destruct (digits_word 64 16 a) as (_ & Hd & Hl); [lia|lia| |].
  { split; [done|]. eapply Z.lt_le_trans; [exact Ha|]. etrans; [apply addr_space_range|]. by vm_compute. }
  pose proof (digits_len 64 16 a []) as Hlen. change (zlen (@nil Z)) with 0 in Hlen.
  split_and!; [done| |].
  - apply Forall_app. split; [|exact Hd]. change (str_of "0x") with [48; 120]. by repeat constructor.
  - unfold hexw. rewrite zlen_app. change (zlen (str_of "0x")) with 2. unfold print_hex, TOKEN_STRING_MAX_SIZE. lia.
Qed.

(** Keywords are words. *)
Definition lit_ok (s : string) : bool :=
  negb (zlen (str_of s) =? 0) && forallb (λ c, negb (is_delimiter c None)) (str_of s) &&
  (zlen (str_of s) <=? 4095).
Lemma lit_word s : lit_ok s = true → is_word (str_of s).
Proof.
  unfold lit_ok. intros [[Hn Hd]%andb_prop Hl]%andb_prop. split_and!.
  - intros E. by rewrite E in Hn.
  - apply Forall_forall. intros c Hc. rewrite forallb_forall in Hd.
    specialize (Hd c (proj1 (list_elem_of_In _ _) Hc)). by destruct (is_delimiter c None).
  - unfold TOKEN_STRING_MAX_SIZE. lia.
Qed.

Ltac word_list :=
  repeat first
    [ apply Forall_nil; exact I
    | apply Forall_cons; split
    | apply print_dec_word; assumption
    | apply hexw_word; assumption
    | apply lit_word; reflexivity
    | assumption ].

Lemma spell_words short c : command_wf c → Forall is_word (spell short c).
Proof.
  destruct c; simpl; unfold is_symbol, opt_ok; intros Hwf; destruct_and?;
    repeat match goal with n : option Z |- _ => destruct n | b : bool |- _ => destruct b
      | k : watch_kind |- _ => destruct k end;
    unfold key, kind_word; simpl; word_list.
Qed.

Lemma spell_values short c : command_wf c → map classify (spell short c) = values short c.
Proof.
  destruct c; simpl; unfold is_symbol, opt_ok; intros Hwf; destruct_and?;
    repeat match goal with n : option Z |- _ => destruct n | b : bool |- _ => destruct b
      | k : watch_kind |- _ => destruct k end;
    unfold key, kind_word, hexw; cbn [map opt_word opt_value app];
    rewrite ?classify_dec, ?classify_hex by assumption;
    repeat match goal with H : classify ?s = VStr ?s |- _ => rewrite H; clear H end; reflexivity.
Qed.

(** The tokens of a spelled command, whatever the stack held. *)
Lemma spell_tokens short cmd stale buf :
  command_wf cmd → tokens_wf (tk_array stale) → zlen buf = TOKEN_STRING_MAX_SIZE →
  ∃ c, token_split stale buf (join (spell short cmd)) = Ok (STD_E_OK, c) ∧ tokens_are c (values short cmd).
Proof.
  intros Hwf Hst Hb. pose proof (spell_words short cmd Hwf) as Hw.
  pose proof (token_split_words stale buf (join (spell short cmd)) Hst Hb) as He.
  rewrite words_join in He by done.
  assert (Hn : zlen (spell short cmd) ≤ 4).
  { unfold zlen. destruct cmd; simpl; repeat match goal with n : option Z |- _ => destruct n
      | b : bool |- _ => destruct b end; simpl; lia. }
  destruct (split_ends_fit _ _ _ _ He) as (arr & -> & Hawf & Hin & _); [lia|unfold TOKEN_CONTAINER_MAX_SIZE; lia|done| |].
  { eapply Forall_impl; [exact Hw|]. by intros w (_ & _ & ?). }
  eexists; split; [done|]. rewrite <- spell_values by done. unfold tokens_are. cbn [tk_num tk_array].
  assert (Hz : zlen (map classify (spell short cmd)) = zlen (spell short cmd)) by (unfold zlen; by rewrite length_map).
  rewrite Hz. split_and!; [lia|unfold TOKEN_CONTAINER_MAX_SIZE; lia|].
  intros i v Hv. assert (Hw' : ∃ w, zget (spell short cmd) i = Some w ∧ v = classify w).
  { unfold zget in *. destruct (i <? 0); [done|]. rewrite list_lookup_fmap in Hv.
    destruct (_ !! _) as [w|] eqn:E; simplify_eq/=. eauto. }
  destruct Hw' as (w & Hg & ->). destruct (Hin i w Hg) as (t & Ht & Hv' & Htw).
  rewrite Z.add_0_l in Ht. unfold tok. cbn [tk_array]. rewrite Ht. by split.
Qed.

(** ** Reading commands back *)

(** The identifier and the function of a command. *)
Definition command_fn (c : command) : DbgCmdStdIdType * executor_fn :=
  match c with
  | BreakAddr _ | BreakSymbol _ | BreakLine _ _ | BreakInfo => (DBG_CMD_STD_ID_BREAK, dbg_std_executor_break)
  | Delete _ => (DBG_CMD_STD_ID_DELETE, dbg_std_executor_delete)
  | Intr _ => (DBG_CMD_STD_ID_INTR, dbg_std_executor_intr)
  | WatchAddr _ _ _ | WatchSymbol _ _ | WatchDelete _ | WatchInfo =>
      (DBG_CMD_STD_ID_DATA_WATCH, dbg_std_executor_watch_data)
  | Cont _ => (DBG_CMD_STD_ID_CONT, dbg_std_executor_cont)
  | CoreShow | CoreAll | CoreSet _ _ => (DBG_CMD_STD_ID_CORE, dbg_std_executor_core)
  | Elaps => (DBG_CMD_STD_ID_ELAPS, dbg_std_executor_elaps)
  | Next => (DBG_CMD_STD_ID_NEXT, dbg_std_executor_next)
  | Return => (DBG_CMD_STD_ID_RETURN, dbg_std_executor_return)
  | View => (DBG_CMD_STD_ID_VIEW, dbg_std_executor_view)
  | Quit => (DBG_CMD_STD_ID_QUIT, dbg_std_executor_quit)
  | Exit => (DBG_CMD_STD_ID_EXIT, dbg_std_executor_exit)
  | BackTrace => (DBG_CMD_STD_ID_BACK_TRACE, dbg_std_executor_back_trace)
  | Profile => (DBG_CMD_STD_ID_PROFILE, dbg_std_executor_profile)
  | ListCode => (DBG_CMD_STD_ID_LIST, dbg_std_executor_list)
  | Help => (DBG_CMD_STD_ID_HELP, dbg_std_executor_help)
  | PrintSymbol _ | PrintAddr _ | PrintRange _ _ | PrintTyped _ _ _ => (DBG_CMD_STD_ID_PRINT, dbg_std_executor_print)
  | Memset _ _ => (DBG_CMD_STD_ID_PARSE_ERROR, dbg_std_executor_memset)
  | Serial _ _ => (DBG_CMD_STD_ID_SERIALIN, dbg_std_executor_serialin)
  | Cpu _ => (DBG_CMD_STD_ID_INFO_CPU, dbg_std_executor_info_cpu)
  | FuncTrace _ _ => (DBG_CMD_STD_ID_FUNC_TRACE, dbg_std_executor_func_trace)
  | Access _ => (DBG_CMD_STD_ID_DATA_ACCESS_INFO, dbg_std_executor_data_access_info)
  end.

Definition kind_bits (k : watch_kind) : Z :=
  match k with
  | WatchRead => DBG_CMD_WATCH_TYPE_READ | WatchWrite => DBG_CMD_WATCH_TYPE_WRITE | WatchRw => DBG_CMD_WATCH_TYPE_RW
  end.

Lemma cstring_str t w : tok_is t (VStr w) → cstring (ts_str (body_str t)) = w ∧ Forall (λ c, c ≠ NUL) w.
Proof.
  intros Ht. pose proof (tok_is_type _ _ Ht) as Hty. pose proof (tok_is_str _ _ Ht) as Hv.
  destruct Ht as [(Hl & _ & Hs) _]. destruct (Hs Hty) as (H0 & Hg & Hn).
  unfold str_val, body_str in *. set (b := tk_body t) in *. rewrite Hv in Hn. split; [|done].
  rewrite <- (take_drop (Z.to_nat (ts_len b)) (ts_str b)), Hv.
  assert (Hd : drop (Z.to_nat (ts_len b)) (ts_str b) = NUL :: drop (S (Z.to_nat (ts_len b))) (ts_str b)).
  { apply drop_S. unfold zget in Hg. destruct (ts_len b <? 0); [done|exact Hg]. }
  rewrite Hd. by apply cstring_app.
Qed.

(** A stored string reads as [w] by its length and by its terminator. *)
Definition text_is (t : TokenStringType) (w : list Z) : Prop :=
  ts_len t = zlen w ∧ str_val t = w ∧ cstring (ts_str t) = w.
Lemma tok_is_text t w : tok_is t (VStr w) → text_is (body_str t) w.
Proof.
  intros Ht. destruct (cstring_str t w Ht) as [Hc _]. pose proof (tok_is_str _ _ Ht) as Hv.
  split_and!; [|done|done]. rewrite <- Hv. pose proof (tok_is_type _ _ Ht) as Hty.
  destruct Ht as [(Hl & Hb & Hs) _]. destruct (Hs Hty) as (Hp & Hr%zget_range & _).
  unfold str_val, body_str, zlen in *. rewrite length_take. lia.
Qed.

(** The arguments of a command.  The object keeps the address of [print] in 32 bits and the
    value of [set] in 8: a larger number is not claimed to be read. *)
Definition has_args (c : command) (p : parsed_bytes) : Prop :=
  match c with
  | BreakAddr a => ba_type (break_args p) = DBG_CMD_BBREAK_SET ∧ break_addr (break_args p) = a
  | BreakSymbol s => ba_type (break_args p) = DBG_CMD_BBREAK_SET_SYMBOL ∧ text_is (ba_symbol (break_args p)) s
  | BreakLine f n => ba_type (break_args p) = DBG_CMD_BREAK_SET_FILE_LINE ∧
      text_is (ba_symbol (break_args p)) f ∧ ba_line (break_args p) = n
  | BreakInfo => ba_type (break_args p) = DBG_CMD_BREAK_INFO
  | Delete None => da_type (delete_args p) = DBG_CMD_DELETE_ALL
  | Delete (Some n) => delete_args p = mkDeleteArgs DBG_CMD_DELETE_ONE n
  | Intr n => intr_args p = mkIntrArgs n
  | WatchAddr k a n => wa_type (watch_args p) = DBG_CMD_WATCH_SET ∧ wa_watch_type (watch_args p) = kind_bits k ∧
      wa_addr (watch_args p) = a ∧ wa_size (watch_args p) = n
  | WatchSymbol k s => wa_type (watch_args p) = DBG_CMD_WATCH_SET_SYMBOL ∧
      wa_watch_type (watch_args p) = kind_bits k ∧ text_is (wa_symbol (watch_args p)) s
  | WatchDelete None => wa_type (watch_args p) = DBG_CMD_WATCH_DELETE_ALL
  | WatchDelete (Some n) => wa_type (watch_args p) = DBG_CMD_WATCH_DELETE_ONE ∧ wa_delno (watch_args p) = n
  | WatchInfo => wa_type (watch_args p) = DBG_CMD_WATCH_INFO
  | Cont None => ca_type (cont_args p) = DBG_CMD_CONT_ALL
  | Cont (Some n) => cont_args p = mkContArgs DBG_CMD_CONT_CLOCKS n
  | CoreShow => co_type (core_args p) = DBG_CMD_CORE_SHOW
  | CoreAll => co_type (core_args p) = DBG_CMD_CORE_ALL ∧ co_is_debug_mode (core_args p) = true
  | CoreSet id b => core_args p = mkCoreArgs DBG_CMD_CORE_SINGLE id b
  | PrintSymbol s => pa_type (print_args p) = DBG_CMD_PRINT_SYMBOL ∧ text_is (pa_symbol (print_args p)) s
  | PrintAddr a => pa_type (print_args p) = DBG_CMD_PRINT_ADDR ∧ (in_width 32 a → pa_addr (print_args p) = a)
  | PrintRange a n => pa_type (print_args p) = DBG_CMD_PRINT_ADDR_SIZE ∧ (in_width 32 a → pa_addr (print_args p) = a) ∧
      pa_size (print_args p) = n
  | PrintTyped a ty nm => pa_type (print_args p) = DBG_CMD_PRINT_ADDR_TYPE ∧ (in_width 32 a → pa_addr (print_args p) = a) ∧
      text_is (pa_dataType (print_args p)) ty ∧ text_is (pa_dataTypeName (print_args p)) nm
  | Memset a v => ma_addr (memset_args p) = a ∧ (is_byte v → ma_value (memset_args p) = v)
  | Serial ch s => sa_channel (serial_args p) = ch ∧ str_val (sa_input (serial_args p)) = s
  | Cpu None => ia_type (info_cpu_args p) = DBG_CMD_CORE_ALL
  | Cpu (Some n) => info_cpu_args p = mkInfoCpuArgs DBG_CMD_CORE_SINGLE n
  | FuncTrace n oldest => func_trace_args p = mkFuncTraceArgs n oldest
  | Access s => text_is (dai_symbol (data_access_args p)) s
  | _ => True
  end.

Definition is_command (c : command) (arg : DbgCmdExecutorType) : Prop :=
  std_id arg = fst (command_fn c) ∧ run arg = snd (command_fn c) ∧ has_args c (parsed_args arg).

(** What the parsers of [print] and [set] store. *)
Definition stores (c : command) (p : parsed_bytes) : Prop :=
  match c with
  | PrintAddr a => pa_type (print_args p) = DBG_CMD_PRINT_ADDR ∧ pa_addr (print_args p) = u32 a
  | PrintRange a n => pa_type (print_args p) = DBG_CMD_PRINT_ADDR_SIZE ∧ pa_addr (print_args p) = u32 a ∧
      pa_size (print_args p) = n
  | PrintTyped a ty nm => pa_type (print_args p) = DBG_CMD_PRINT_ADDR_TYPE ∧ pa_addr (print_args p) = u32 a ∧
      text_is (pa_dataType (print_args p)) ty ∧ text_is (pa_dataTypeName (print_args p)) nm
  | Memset a v => memset_args p = mkMemsetArgs a (u8 v)
  | c => has_args c p
  end.
Lemma stores_args c p : stores c p → has_args c p.
Proof.
  destruct c; cbn [stores has_args]; try done.
  - intros [? ->]. split; [done|]. apply wrap_id.
  - intros (? & -> & ?). split_and!; [done|apply wrap_id|done].
  - intros (? & -> & ? & ?). split_and!; [done|apply wrap_id|done..].
  - intros ->. split; [done|]. intros Hv. cbn. apply wrap_id. exact Hv.
Qed.

(** The input of [serial]: the text of the tokens, cut at its first blank. *)

Lemma find_newline_word w r :
  Forall (λ c, is_delimiter c None = false) w →
  find_newline (length w + 1) 0 (w ++ 32 :: r) = zlen w.
Proof.
  intros Hw. assert (Hgen : ∀ pre, find_newline (length w + 1) (zlen pre) (pre ++ w ++ 32 :: r) = zlen (pre ++ w)).
  { induction Hw as [|c w Hc _ IH]; intros pre; cbn [find_newline length Nat.add app].
    - rewrite zget_app_r, Z.sub_diag by lia. cbn. by rewrite app_nil_r.
    - rewrite zget_app_r, Z.sub_diag by lia. change (default NUL (zget (c :: w ++ 32 :: r) 0)) with c.
      unfold is_delimiter, isspace in Hc.
      destruct (c =? 13) eqn:E1, (c =? 10) eqn:E2, (c =? 32) eqn:E3; cbn [orb];
        try (exfalso; revert Hc; repeat (split_if; try done); lia).
      specialize (IH (pre ++ [c])). rewrite <- !app_assoc in IH. cbn [app] in IH.
      rewrite <- IH. f_equal. rewrite zlen_app. done. }
  exact (Hgen []).
Qed.

Lemma put_terminated_0 dest s :
  zlen s < zlen dest → ∃ r, put_terminated dest 0 s = Ok (s ++ NUL :: r).
Proof.
  intros Hl. pose proof (zlen_nonneg s). unfold put_terminated.
  erewrite (proj2 (bytes_set_Some _ _ _ _)) by (split_and!; [lia|lia|done]). cbn [oob mbind outcome_bind].
  destruct (drop (length s) dest) as [|x r] eqn:Ed.
  { apply (f_equal length) in Ed. rewrite length_drop in Ed. unfold zlen in *. simpl in Ed. lia. }
  exists r. change (bytes_put dest 0 s) with (s ++ drop (length s) dest). rewrite Ed.
  erewrite (proj2 (zset_Some _ _ _ _)).
  2: { split; [|done]. rewrite zlen_app. pose proof (zlen_nonneg r). unfold zlen in *. simpl. lia. }
  cbn [oob]. do 2 f_equal. unfold zput, zlen. replace (Z.to_nat (0 + _)) with (length s + 0)%nat by lia.
  by rewrite insert_app_r.
Qed.

Lemma serial_input c k ch w :
  tokens_are c [VStr k; VDec ch; VStr w] → is_word w → zlen w ≤ TOKEN_STRING_MAX_SIZE - 2 →
  zlen junk = TOKEN_STRING_MAX_SIZE →
  ∃ s, token_split_merge c 2 junk zero_string = Ok (true, s) ∧ str_val (token_trim_newline s) = w.
Proof.
  intros (Hn & _ & Hv) (_ & Hd & _) Hl Hj. destruct (Hv 2 (VStr w) eq_refl) as [Ha Ht].
  destruct (cstring_str _ _ Ht) as [Hc Hnn]. pose proof (tok_is_type _ _ Ht) as Hty.
  unfold token_split_merge. rewrite Hn. change (Z.to_nat (zlen [VStr k; VDec ch; VStr w] - 2)) with 1%nat.
  cbn [merge_loop]. rewrite Ha. cbn [oob mbind outcome_bind]. unfold token_text. rewrite Hty. cbn [type_of].
  rewrite Hc. unfold sprintf_token. pose proof (zlen_nonneg w). unfold TOKEN_STRING_MAX_SIZE in *.
  assert (Hw : zlen (w ++ [32]) = zlen w + 1) by (by rewrite zlen_app).
  destruct (put_terminated_0 junk (w ++ [32])) as [r ->]; [lia|]. cbn [mbind outcome_bind].
  unfold token_merge. cbn [ts_len ts_str zero_string]. rewrite Z.add_0_l, Hw.
  rewrite wrap_id by (unfold in_width; lia).
  replace (TOKEN_STRING_MAX_SIZE - 1 <? zlen w + 1) with false by (unfold TOKEN_STRING_MAX_SIZE; lia).
  assert (Hb : bytes_at ((w ++ [32]) ++ NUL :: r) 0 (zlen w + 1) = Some (w ++ [32])).
  { unfold bytes_at. pose proof (zlen_app (w ++ [32]) (NUL :: r)). pose proof (zlen_nonneg (NUL :: r)).
    replace (_ && _ && _) with true by lia. f_equal. rewrite drop_0, <- Hw.
    apply take_app_length'. unfold zlen. lia. }
  rewrite Hb. cbn [oob mbind outcome_bind].
  destruct (put_terminated_0 (replicate 4096 0) (w ++ [32])) as [r' ->].
  { rewrite Hw. change (zlen (replicate 4096 0)) with 4096. lia. }
  cbn [mbind outcome_bind]. eexists; split; [done|].
  unfold str_val, token_trim_newline. cbn [ts_len ts_str]. rewrite <- app_assoc. cbn [app].
  replace (Z.to_nat (zlen w + 1)) with (length w + 1)%nat by (unfold zlen; lia).
  rewrite find_newline_word by done. apply take_app_length'. unfold zlen. lia.
Qed.

(** Evaluate the tests of a parser on tokens of known values. *)
Ltac eval_tests :=
  repeat match goal with
  | H : tok_is (tok ?c ?i) ?v |- context [type_is ?c ?i ?ty] => rewrite (type_is_val c i v ty H)
  | H : tok_is (tok ?c ?i) (VStr ?w) |- context [str_is ?c ?i ?s] =>
      rewrite (str_is_val c i w s H) by reflexivity
  | |- context [bool_decide ?P] =>
      let b := eval vm_compute in (bool_decide P) in
      match b with true => idtac | false => idtac end; change (bool_decide P) with b
  end; cbn [negb andb orb existsb].
Ltac known_tokens Hc :=
  let Hn := fresh "Hn" in
  match type of Hc with tokens_are ?c ?vs =>
    let n := eval vm_compute in (zlen vs) in pose proof (proj1 Hc : tk_num c = n) as Hn end;
  pose proof (proj2 (proj2 (proj2 Hc) 0 _ eq_refl));
  try pose proof (proj2 (proj2 (proj2 Hc) 1 _ eq_refl));
  try pose proof (proj2 (proj2 (proj2 Hc) 2 _ eq_refl));
  try pose proof (proj2 (proj2 (proj2 Hc) 3 _ eq_refl)).
(** Go to the [j]-th parser, which knows the first word. *)
Ltac reach arg c Hc j :=
  let q := fresh "q" in let rest := fresh "rest" in let Hq := fresh "Hq" in
  destruct (try_reach core_id_num junk j _ arg c eq_refl) as (? & rest & -> & q & -> & Hq);
  [ apply (strange_first c _ _ _ Hc); [reflexivity|refine (bool_decide_eq_true_1 _ _); vm_compute; reflexivity] |];
  cbn [try_parsers].
Ltac known_values :=
  repeat match goal with
  | H : tok_is _ (VDec _) |- _ => apply tok_is_dec in H
  | H : tok_is _ (VHex _) |- _ =>
      let Hl := fresh H in pose proof (tok_is_hex_low _ _ H) as Hl; apply tok_is_hex in H
  | H : tok_is _ (VStr _) |- _ => apply tok_is_text in H
  end.
Ltac hit :=
  unfold pure, dbg_parse_break, dbg_parse_delete, dbg_parse_intr,
    dbg_parse_watch_data, dbg_parse_cont, dbg_parse_core, dbg_parse_print, dbg_parse_memset,
    dbg_parse_info_cpu, dbg_parse_func_trace, dbg_parse_data_access_info, dbg_parse_elaps,
    dbg_parse_next, dbg_parse_return, dbg_parse_view, dbg_parse_quit, dbg_parse_exit,
    dbg_parse_back_trace, dbg_parse_profile, dbg_parse_list, dbg_parse_help, parse_word;
  repeat match goal with H : tk_num ?c = _ |- _ => rewrite H; clear H end;
  cbn [existsb Z.eqb Pos.eqb Z.ltb Z.compare Pos.compare Pos.compare_cont negb andb orb];
  eval_tests; cbn [mbind outcome_bind]; eexists; split; [reflexivity|];
  known_values;
  repeat match goal with H : context [tok ?c ?i] |- _ => generalize dependent (tok c i); intros end;
  cbn; split_and!; try done; congruence.

(** The parser of each command, by its place in the table. *)
Definition parser_index (c : command) : nat :=
  match c with
  | BreakAddr _ | BreakSymbol _ | BreakLine _ _ | BreakInfo => 0
  | Delete _ => 1 | Intr _ => 2
  | WatchAddr _ _ _ | WatchSymbol _ _ | WatchDelete _ | WatchInfo => 3
  | Cont _ => 4 | CoreShow | CoreAll | CoreSet _ _ => 5
  | Elaps => 6 | Next => 7 | Return => 8 | View => 9
  | PrintSymbol _ | PrintAddr _ | PrintRange _ _ | PrintTyped _ _ _ => 10
  | Memset _ _ => 11 | Quit => 12 | Exit => 13 | Serial _ _ => 14 | Cpu _ => 15
  | FuncTrace _ _ => 16 | Access _ => 17 | BackTrace => 18 | Profile => 19
  | ListCode => 20 | Help => 21
  end.

Lemma try_stores short cmd c arg :
  command_wf cmd → zlen junk = TOKEN_STRING_MAX_SIZE → tokens_are c (values short cmd) →
  std_id arg = DBG_CMD_STD_ID_PARSE_ERROR → parsed_args arg = A_Zero →
  ∃ arg', try_parsers (dbg_cmd_parser_std_table core_id_num junk) arg c = Ok (true, arg') ∧
    original_str arg' = original_str arg ∧ result_ok arg' = result_ok arg ∧
    std_id arg' = fst (command_fn cmd) ∧ run arg' = snd (command_fn cmd) ∧ stores cmd (parsed_args arg').
Proof.
  intros Hwf Hj Hc Hid Hz.
  destruct cmd as [| | | |[?|]| | |k|[?|]| |[?|]| | |id b| | | | | | | | | | | | | | | |ch s|[?|]|? b|];
  try (match type of Hc with tokens_are _ (values _ ?cmd) =>
    let j := eval cbv in (parser_index cmd) in
    destruct short; try (destruct b); try (destruct k); cbn [values opt_value map spell key] in Hc; known_tokens Hc; reach arg c Hc j; hit
    end).
  - (* info watch: the parser of break knows the first word, too *)
    cbn [values map spell] in Hc. known_tokens Hc.
    assert (Hb : dbg_parse_break arg c = (false, arg)).
    { unfold dbg_parse_break. rewrite Hn. cbn [Z.eqb Pos.eqb negb andb]. by eval_tests. }
    set (table := dbg_cmd_parser_std_table core_id_num junk).
    assert (Ht : try_parsers table arg c = try_parsers (take 2 (tail table) ++ drop 3 table) arg c).
    { transitivity (mbind (λ '(b, arg), if (b : bool) then Ok (true, arg) else try_parsers (tail table) arg c)
                      (pure dbg_parse_break arg c)); [done|].
      unfold pure. by rewrite Hb. }
    rewrite Ht. destruct (try_skip (take 2 (tail table)) (take 2 (tail keywords)) (drop 3 table) arg c) as (? & -> & q & -> & _).
    + apply Forall2_take. pose proof (table_skips core_id_num junk) as Hsk. by inversion Hsk.
    + apply (strange_first c _ _ _ Hc); [done|]. refine (bool_decide_eq_true_1 _ _). by vm_compute.
    + cbn [table drop dbg_cmd_parser_std_table try_parsers]. hit.
  - (* core: the number is checked *)
    cbn in Hwf. destruct b; cbn [values] in Hc; known_tokens Hc; reach arg c Hc 5%nat;
      unfold pure, dbg_parse_core; rewrite Hn, (tok_is_dec (tok c 1) id) by done;
      replace (core_id_num <=? id) with false by lia; cbn [Z.eqb Pos.eqb negb andb orb]; eval_tests;
      eexists; by split.
  - cbn in Hwf. destruct Hwf as (Hch & [Hs _] & Hl).
    destruct (serial_input c _ ch s Hc Hs Hl Hj) as (inp & Hm & Hv).
    destruct short; cbn [values] in Hc; known_tokens Hc; reach arg c Hc 14%nat;
      (assert (Hsz : serial_args (parsed_args (set_args q arg)) = mkSerialArgs 0 zero_string)
        by (destruct Hq as [->|[? ->]]; [by rewrite set_args_same, Hz|done]));
      unfold dbg_parse_serialin; rewrite Hn, Hsz; cbn [Z.ltb Z.compare Pos.compare Pos.compare_cont sa_input]; eval_tests;
      rewrite Hm; cbn [mbind outcome_bind]; unfold stores, has_args; eexists; split_and!; try done; by apply tok_is_dec.
Qed.

Lemma try_command short cmd c arg :
  command_wf cmd → zlen junk = TOKEN_STRING_MAX_SIZE → tokens_are c (values short cmd) →
  std_id arg = DBG_CMD_STD_ID_PARSE_ERROR → parsed_args arg = A_Zero →
  ∃ arg', try_parsers (dbg_cmd_parser_std_table core_id_num junk) arg c = Ok (true, arg') ∧
    original_str arg' = original_str arg ∧ result_ok arg' = result_ok arg ∧ is_command cmd arg'.
Proof.
  intros Hwf Hj Hc Hid Hz. destruct (try_stores short cmd c arg Hwf Hj Hc Hid Hz) as (arg' & ? & ? & ? & ? & ? & ?%stores_args).
  exists arg'. by split_and!.
Qed.

(** The mode in which a command may run: [quit] while the CPU runs, all others while it is
    stopped. *)
Definition mode_of (c : command) : bool := match c with Quit => false | _ => true end.

Lemma can_execute_command c arg : is_command c arg → can_execute (mode_of c) arg = true.
Proof. intros (Hid & _). unfold can_execute. rewrite Hid. by destruct c. Qed.

Lemma line_len ws : zlen (join ws) ≤ foldr (λ w n, zlen w + 1 + n) 0 ws.
Proof.
  induction ws as [|w [|w' ws] IH]; [done|simpl in *; lia|].
  change (join (w :: w' :: ws)) with (w ++ 32 :: join (w' :: ws)).
  rewrite zlen_app. change (zlen (32 :: ?l)) with (zlen ([32] ++ l)). rewrite zlen_app.
  change (zlen [32]) with 1. cbn [foldr] in *. lia.
Qed.

Lemma spell_len short c :
  command_wf c → 0 < zlen (join (spell short c)) < DBG_CMD_BUFFER_SIZE.
Proof.
  intros Hwf. pose proof (spell_words short c Hwf) as Hw. split.
  - destruct (spell short c) as [|w ws] eqn:E; [by destruct c|].
    apply Forall_cons in Hw as [(Hne & _) _]. destruct w as [|x w]; [done|].
    destruct ws; unfold zlen; simpl; lia.
  - eapply Z.le_lt_trans; [apply line_len|].
    assert (Hn : zlen (spell short c) ≤ 4).
    { unfold zlen. destruct c; simpl; repeat match goal with n : option Z |- _ => destruct n
        | b : bool |- _ => destruct b end; simpl; lia. }
    apply Z.le_lt_trans with (4096 * zlen (spell short c)); [|unfold DBG_CMD_BUFFER_SIZE; lia].
    clear Hn. induction Hw as [|w ws (_ & _ & Hl) _ IH]; [done|]. cbn [foldr].
    replace (zlen (w :: ws)) with (1 + zlen ws) by (unfold zlen; simpl; lia).
    unfold TOKEN_STRING_MAX_SIZE in Hl. lia.
Qed.

Lemma parse_in_mode debug_mode short cmd stale buf st :
  command_wf cmd → zlen junk = TOKEN_STRING_MAX_SIZE → zlen buf = TOKEN_STRING_MAX_SIZE →
  tokens_wf (tk_array stale) →
  let accepted := eqb debug_mode (mode_of cmd) in
  ∃ arg, dbg_parse core_id_num junk debug_mode stale buf (join (spell short cmd)) st =
           Ok (accepted, mkParser (if accepted then true else last_command st) arg) ∧
         original_str arg = join (spell short cmd) ∧ is_command cmd arg.
Proof.
  intros Hwf Hj Hb Hst. pose proof (spell_len short cmd Hwf) as Hl. unfold dbg_parse.
  replace (zlen (join (spell short cmd)) =? 0) with false by lia. cbn [andb].
  replace (DBG_CMD_BUFFER_SIZE <=? _) with false by lia.
  destruct (spell_tokens short cmd stale buf Hwf Hst Hb) as (c & -> & Hc).
  cbn [mbind outcome_bind std_ok negb].
  set (arg0 := mkExec _ _ _ _ _).
  destruct (try_command short cmd c arg0 Hwf Hj Hc eq_refl eq_refl) as (arg & -> & Ho & _ & Hcmd).
  cbn [mbind outcome_bind negb]. pose proof (can_execute_command _ _ Hcmd) as Hx.
  assert (can_execute debug_mode arg = eqb debug_mode (mode_of cmd)) as ->.
  { unfold can_execute in *. by destruct debug_mode, (mode_of cmd), (bool_decide _). }
  destruct (eqb _ _); cbn [negb]; eauto.
Qed.

Lemma parse_spelled short cmd stale buf st :
  command_wf cmd → zlen junk = TOKEN_STRING_MAX_SIZE → zlen buf = TOKEN_STRING_MAX_SIZE →
  tokens_wf (tk_array stale) →
  ∃ arg, dbg_parse core_id_num junk (mode_of cmd) stale buf (join (spell short cmd)) st =
           Ok (true, mkParser true arg) ∧
         original_str arg = join (spell short cmd) ∧ is_command cmd arg.
Proof. intros. pose proof (parse_in_mode (mode_of cmd) short cmd stale buf st) as Hp. rewrite eqb_reflx in Hp. by apply Hp. Qed.

(** C23: The parser reads the commands back: every command of the grammar [command], written
    with the long or the short keyword, with decimal and hexadecimal arguments and blanks
    between the words, is recognised whatever was typed before and whatever the stack
    holds, and the object it leaves names the command's function and exactly its arguments, if
    the address of [print] fits 32 bits and the value of [set] a byte.  (The grammar is what
    the parser knows.  The help text differs in two forms: it lists [profile] for [prof], and
    [core all f], which is refused.) *)
Theorem parse_reads_commands short cmd stale buf st :
  command_wf cmd → zlen junk = TOKEN_STRING_MAX_SIZE → zlen buf = TOKEN_STRING_MAX_SIZE →
  tokens_wf (tk_array stale) →
  ∃ arg, dbg_parse core_id_num junk (mode_of cmd) stale buf (join (spell short cmd)) st =
           Ok (true, mkParser true arg) ∧
         original_str arg = join (spell short cmd) ∧ is_command cmd arg.
Proof. apply parse_spelled. Qed.

(** A line whose first word is no keyword is refused: its words being few and short enough,
    the parser returns the error command with the line as its text, in either mode, and an
    empty line will not repeat it. *)
Theorem unknown_command_refused debug_mode stale buf st w ws :
  zlen buf = TOKEN_STRING_MAX_SIZE → tokens_wf (tk_array stale) →
  Forall is_word (w :: ws) → zlen (w :: ws) ≤ TOKEN_CONTAINER_MAX_SIZE →
  zlen (join (w :: ws)) < DBG_CMD_BUFFER_SIZE →
  classify w = VStr w → Forall (λ s, w ≠ str_of s) (concat keywords) →
  ∃ arg, dbg_parse core_id_num junk debug_mode stale buf (join (w :: ws)) st = Ok (true, mkParser false arg) ∧
         original_str arg = join (w :: ws) ∧ run arg = dbg_std_executor_parse_error.
Proof.
  intros Hb Hst Hw Hn Hl Hcl Hk. unfold dbg_parse.
  assert (0 < zlen (join (w :: ws))) as Hpos.
  { apply Forall_cons in Hw as [(Hne & _) _]. destruct w as [|x w]; [done|].
    destruct ws; unfold zlen; simpl; lia. }
  replace (zlen (join (w :: ws)) =? 0) with false by lia. cbn [andb].
  replace (DBG_CMD_BUFFER_SIZE <=? _) with false by lia.
  pose proof (token_split_words stale buf (join (w :: ws)) Hst Hb) as He. rewrite words_join in He by done.
  destruct (split_ends_fit _ _ _ _ He) as (arr & -> & Hawf & Hin & _); [lia|lia|done| |].
  { eapply Forall_impl; [exact Hw|]. by intros ? (_ & _ & ?). }
  cbn [mbind outcome_bind std_ok negb]. set (c := mkTokens _ _). set (arg0 := mkExec _ _ _ _ _).
  destruct (Hin 0 w eq_refl) as (t & Ht & Hv & Htw).
  assert (H0 : tok_is (tok c 0) (VStr w)).
  { unfold tok. cbn [c tk_array]. rewrite Z.add_0_l in Ht. rewrite Ht. rewrite <- Hcl. by split. }
  assert (Hs : strange c (concat keywords)).
  { unfold strange. rewrite Forall_forall in *. intros s Hs. rewrite (str_is_val _ _ _ _ H0).
    - by apply bool_decide_eq_false, Hk.
    - assert (Hp : forallb plain (concat keywords) = true) by done.
      rewrite forallb_forall in Hp. by apply Hp, list_elem_of_In. }
  destruct (try_none core_id_num junk arg0 c Hs) as (arg' & -> & q & -> & _).
  cbn [mbind outcome_bind negb]. eauto.
Qed.

(** A refused command runs all the same: a command typed in the mode in which it may not
    run is answered with NULL, but when a command was executed before, the next empty line
    returns it to be executed, in whatever mode. *)
Theorem refused_command_repeats short cmd stale buf st mode' stale' buf' :
  command_wf cmd → zlen junk = TOKEN_STRING_MAX_SIZE → zlen buf = TOKEN_STRING_MAX_SIZE →
  tokens_wf (tk_array stale) → last_command st = true →
  ∃ st', dbg_parse core_id_num junk (negb (mode_of cmd)) stale buf (join (spell short cmd)) st = Ok (false, st') ∧
         dbg_parse core_id_num junk mode' stale' buf' [] st' = Ok (true, st') ∧
         is_command cmd (parse_command st').
Proof.
  intros Hwf Hj Hb Hst Hlast.
  destruct (parse_in_mode (negb (mode_of cmd)) short cmd stale buf st) as (arg & -> & _ & Hcmd); [done..|].
  rewrite Hlast. eexists; split; [by destruct (mode_of cmd)|].
  split; [by destruct (mode_of cmd)|exact Hcmd].
Qed.

(** A line of more words than a container holds, none too long, makes the tokeniser write behind
    the array. *)
Lemma too_many_words_overrun stale buf ws :
  tokens_wf (tk_array stale) → zlen buf = TOKEN_STRING_MAX_SIZE → Forall is_word ws →
  TOKEN_CONTAINER_MAX_SIZE < zlen ws → token_split stale buf (join ws) = Fault OutOfBounds.
Proof.
  intros Hst Hb Hw Hn. pose proof (token_split_words stale buf (join ws) Hst Hb) as He.
  rewrite words_join in He by done. revert He Hn Hw.
  generalize (token_split stale buf (join ws)) as r. generalize (tk_array stale) as arr.
  enough (Hg : ∀ k arr r, split_ends k arr ws r → k ≤ 128 → TOKEN_CONTAINER_MAX_SIZE < k + zlen ws →
    Forall is_word ws → r = Fault OutOfBounds) by (intros; eapply Hg; eauto; lia).
  intros k arr r He. induction He as [|?? w ws Hl|?? w ws Hl ?|k arr w ws t r Hl Hk ??? IH]; intros Hk0 Hlt Hw.
  - change (zlen []) with 0 in Hlt. unfold TOKEN_CONTAINER_MAX_SIZE in Hlt. lia.
  - apply Forall_cons in Hw as [(_ & _ & ?) _]. lia.
  - done.
  - apply Forall_cons in Hw as [_ Hw]. unfold TOKEN_CONTAINER_MAX_SIZE in *.
    assert (zlen (w :: ws) = 1 + zlen ws) by (unfold zlen; simpl; lia). apply IH; [lia|lia|done].
Qed.
End grammar.

(** Words of a line. *)
Create HintDb words.
#[export] Hint Resolve print_dec_word hexw_word Forall_nil_2 Forall_cons_2 : words.
#[export] Hint Extern 1 (is_word (str_of _)) => apply lit_word; reflexivity : words.

(** Contents of the stack used below. *)
Definition zero_tokens : TokenContainerType := mkTokens 0 (replicate 128 zero_token).
Definition zero_line : list Z := replicate 4096 0.

Lemma zero_tokens_wf : tokens_wf (tk_array zero_tokens).
Proof. split; [done|]. apply Forall_replicate. by split. Qed.

Lemma parse_reads_commands_witness :
  ∃ arg, dbg_parse (H := addr_width_32) 2 zero_line true zero_tokens zero_line
           (join (spell true (BreakAddr 4096))) (mkParser false (mkExec DBG_CMD_STD_ID_PARSE_ERROR [] A_Zero dbg_std_executor_parse_error false)) =
           Ok (true, mkParser true arg) ∧
         original_str arg = str_of "b 0x1000" ∧ is_command (BreakAddr 4096) arg.
Proof.
  apply (parse_reads_commands (H := addr_width_32) 2 zero_line true (BreakAddr 4096)).
  - by vm_compute.
  - done.
  - done.
  - apply zero_tokens_wf.
Defined.

Lemma unknown_command_refused_witness :
  ∃ arg, dbg_parse (H := addr_width_32) 2 zero_line true zero_tokens zero_line
           (str_of "brake 0x1000") (mkParser true (mkExec DBG_CMD_STD_ID_CONT [] A_Zero dbg_std_executor_cont false)) =
           Ok (true, mkParser false arg) ∧
         original_str arg = str_of "brake 0x1000" ∧ run arg = dbg_std_executor_parse_error.
Proof.
  apply (unknown_command_refused (H := addr_width_32) 2 zero_line true _ _ _ (str_of "brake") [str_of "0x1000"]).
  - done.
  - apply zero_tokens_wf.
  - by repeat (apply Forall_cons; split; [by apply lit_word|]).
  - done.
  - done.
  - done.
  - refine (bool_decide_eq_true_1 _ _). by vm_compute.
Defined.

Lemma refused_command_repeats_witness :
  let st := mkParser true (mkExec DBG_CMD_STD_ID_CONT [] A_Zero dbg_std_executor_cont false) in
  ∃ st', dbg_parse (H := addr_width_32) 2 zero_line false zero_tokens zero_line
           (str_of "set 0x1000 7") st = Ok (false, st') ∧
         dbg_parse (H := addr_width_32) 2 zero_line false zero_tokens zero_line [] st' = Ok (true, st') ∧
         is_command (Memset 4096 7) (parse_command st').
Proof.
  apply (refused_command_repeats (H := addr_width_32) 2 zero_line false (Memset 4096 7)).
  - by vm_compute.
  - done.
  - done.
  - apply zero_tokens_wf.
  - done.
Defined.

(** What the stack may hold after the line [cont 100]. *)
Definition cont_tokens : TokenContainerType :=
  match token_split (H := addr_width_32) zero_tokens zero_line (str_of "cont 100") with
  | Ok (_, c) => c | Fault _ => zero_tokens
  end.

(** A blank line has no tokens, but the parser of [cont] looks at the first entry all the same. *)
Lemma blank_line_continues :
  ∃ arg, dbg_parse (H := addr_width_32) 2 zero_line true cont_tokens zero_line (str_of " ")
           (mkParser false (mkExec DBG_CMD_STD_ID_PARSE_ERROR [] A_Zero dbg_std_executor_parse_error false)) =
           Ok (true, mkParser true arg) ∧ is_command (Cont (Some 100)) arg.
Proof. eexists. split; [vm_compute; reflexivity|]. by vm_compute. Qed.

(** The help text offers both modes for all cores; the parser takes one. *)
Lemma core_all_f_refused :
  ∃ arg, dbg_parse (H := addr_width_32) 2 zero_line true zero_tokens zero_line (str_of "core all f")
           (mkParser false (mkExec DBG_CMD_STD_ID_PARSE_ERROR [] A_Zero dbg_std_executor_parse_error false)) =
           Ok (true, mkParser false arg) ∧ run arg = dbg_std_executor_parse_error.
Proof. eexists. split; [vm_compute; reflexivity|]. done. Qed.

(** The address of [print] is the number of a decimal token, which is the low half. *)
Lemma print_loses_upper_half :
  ∃ arg, dbg_parse (H := addr_width_64) 2 zero_line true zero_tokens zero_line (str_of "print 0x100000010")
           (mkParser false (mkExec DBG_CMD_STD_ID_PARSE_ERROR [] A_Zero dbg_std_executor_parse_error false)) =
           Ok (true, mkParser true arg) ∧ pa_addr (print_args (parsed_args arg)) = 0x10.
Proof. eexists. split; [vm_compute; reflexivity|]. done. Qed.

(** Keywords and the list of commands agree: [help] lists every keyword but [info], and none
    else. *)
#[local] Instance string_eq_dec : EqDecision string := string_dec.
Definition help_keywords : list string :=
  concat (map (λ h, name h :: match name_shortcut h with Some s => [s] | None => [] end) help_list).
Lemma help_lists_keywords :
  Forall (λ s, s ∈ concat keywords) help_keywords ∧
  Forall (λ s, s = "info"%string ∨ s ∈ help_keywords) (concat keywords).
Proof. split; refine (bool_decide_eq_true_1 _ _); by vm_compute. Qed.

(** The usage [help] shows for [prof] is not a command. *)
Lemma help_usage_of_prof :
  (∃ h, h ∈ help_list ∧ name h = "prof"%string ∧ map semantics (opts h) = ["profile"%string]) ∧
  ∃ arg, dbg_parse (H := addr_width_32) 2 zero_line true zero_tokens zero_line (str_of "profile")
           (mkParser false (mkExec DBG_CMD_STD_ID_PARSE_ERROR [] A_Zero dbg_std_executor_parse_error false)) =
           Ok (true, mkParser false arg) ∧ run arg = dbg_std_executor_parse_error.
Proof.
  split.
  - exists (mkHelp "prof" None [mkOpt "profile" "show profile result"]). split; [|done].
    unfold help_list. repeat first [apply list_elem_of_here | apply list_elem_of_further].
  - eexists. split; [vm_compute; reflexivity|done].
Qed.
