(* ===== verification/DwarfLine.v ===== *)
(** * The DWARF line table and the map between addresses and source lines

    [src/src/lib/dwarf/elf_dwarf_util.c]: LEB128 numbers and growing arrays;
    [elf_dwarf_line.c]: the section [.debug_line], read into one list of operations per
    compilation unit; [file_address_mapping.c]: the operations executed, giving the rows by
    which the debugger finds the line of an address and the address of a line.

    A pointer into the section is an offset into the image of the whole file, so a read
    outside the section but inside the file is defined, as it is in the program.  An array
    of pointers is the list of what its entries point to; [array_refines_list] justifies
    that. *)

From Stdlib Require Import String Ascii.
From S2P Require Import Prelude Token ElfImageCheck ElfSection.
Open Scope Z_scope.

(** ** Growing arrays *)

Definition ELF_POINTER_ARRAY_SIZE_UNIT : Z := 16.

(** [a_data] is the block [realloc] returned: its unused entries hold anything. *)
Record elf_array (A : Type) := mkArray { max_array_size : Z; current_array_size : Z; a_data : list A }.
Arguments mkArray {A} _ _ _.
Arguments max_array_size {A} _.
Arguments current_array_size {A} _.
Arguments a_data {A} _.

Section arrays.
Context {A : Type}.
(** What [realloc] appends to the block, or [None] when it fails. *)
Implicit Types (more : option (list A)) (a : elf_array A) (x : A).

Definition elf_array_realloc more a : outcome (elf_array A) :=
  if max_array_size a <=? current_array_size a then
    match more with
    | None => Fault AssertFail
    | Some l => Ok (mkArray (u32 (max_array_size a + ELF_POINTER_ARRAY_SIZE_UNIT)) (current_array_size a) (a_data a ++ l))
    end
  else Ok a.
Definition elf_array_add_entry more x a : outcome (elf_array A) :=
  a ← (if max_array_size a <=? current_array_size a then elf_array_realloc more a else Ok a);
  d ← oob (zset (a_data a) (current_array_size a) x);
  Ok (mkArray (max_array_size a) (u32 (current_array_size a + 1)) d).
Definition elf_array_alloc more : outcome (elf_array A) := elf_array_realloc more (mkArray 0 0 []).

Definition array_wf a : Prop :=
  zlen (a_data a) = max_array_size a ∧ 0 ≤ current_array_size a ≤ max_array_size a ∧ max_array_size a < 2 ^ 31.
Definition entries a : list A := take (Z.to_nat (current_array_size a)) (a_data a).

(** When [realloc] succeeds an array is the list of its entries, and adding appends to it. *)
Lemma array_refines_list more x a l :
  array_wf a → more = Some l → zlen l = ELF_POINTER_ARRAY_SIZE_UNIT → max_array_size a < 2 ^ 31 - 16 →
  ∃ a', elf_array_add_entry more x a = Ok a' ∧ array_wf a' ∧ entries a' = entries a ++ [x].
Proof.
  intros (Hl & Hc & _) -> Hm Hmax. unfold elf_array_add_entry, elf_array_realloc, ELF_POINTER_ARRAY_SIZE_UNIT in *.
  assert (Hput : ∀ d, current_array_size a < zlen d → take (Z.to_nat (current_array_size a)) d = entries a →
    take (Z.to_nat (u32 (current_array_size a + 1))) (zput d (current_array_size a) x) = entries a ++ [x]).
  { intros d Hd <-. rewrite wrap_id by (unfold in_width; lia). unfold zput, zlen in *.
    rewrite insert_take_drop by lia. rewrite (cons_middle x), app_assoc.
    apply take_app_length'. rewrite length_app, length_take. simpl. lia. }
  assert (Hset : ∀ d, current_array_size a < zlen d →
    zset d (current_array_size a) x = Some (zput d (current_array_size a) x)) by (intros; apply zset_Some; split; [lia|done]).
  destruct (Z.leb_spec (max_array_size a) (current_array_size a)); cbn [mbind outcome_bind].
  - cbn. rewrite wrap_id by (unfold in_width; lia). rewrite Hset by (rewrite zlen_app; lia). cbn.
    eexists. split; [done|]. split.
    + split_and!; cbn; rewrite ?zlen_zput, ?zlen_app, ?wrap_id by (unfold in_width; lia); lia.
    + unfold entries at 1. cbn. apply Hput; [rewrite zlen_app; lia|].
      unfold entries. apply take_app_le. unfold zlen in *. lia.
  - rewrite Hset by lia. cbn. eexists. split; [done|]. split.
    + split_and!; cbn; rewrite ?zlen_zput, ?wrap_id by (unfold in_width; lia); lia.
    + unfold entries at 1. cbn. apply Hput; [lia|done].
Qed.
End arrays.

(** ** LEB128 numbers *)

(** Conversion to [sint32] and [sint8]. *)
Definition s32 (x : Z) : Z := u32 (x + 2 ^ 31) - 2 ^ 31.
Definition s8 (x : Z) : Z := u8 (x + 2 ^ 7) - 2 ^ 7.

(** The loops, with [n] rounds left; a loop that is not left early ends with [i = n]. *)
Fixpoint uleb_loop (n : nat) (i shift acc : Z) (data : list Z) (p : Z) : outcome (Z * Z) :=
  match n with
  | O => Ok (acc, i + 1)
  | S n' =>
      byte ← elf_byte data (p + i);
      let acc := Z.lor acc (u32 (Z.shiftl (Z.land byte 127) shift)) in
      if Z.land byte 128 =? 0 then Ok (acc, i + 1)
      else uleb_loop n' (i + 1) (shift + 7) acc data p
  end.
(** The value and the number of bytes. *)
Definition elf_dwarf_decode_uleb128 (data : list Z) (p : Z) : outcome (Z * Z) := uleb_loop 4 0 0 0 data p.

Fixpoint sleb_loop (n : nat) (i shift acc : Z) (sign : bool) (data : list Z) (p : Z)
    : outcome (Z * Z * Z * bool) :=
  match n with
  | O => Ok (acc, i, shift, sign)
  | S n' =>
      byte ← elf_byte data (p + i);
      let sign := negb (Z.land byte 64 =? 0) in
      let acc := Z.lor acc (s32 (Z.shiftl (Z.land byte 127) shift)) in
      if Z.land byte 128 =? 0 then Ok (acc, i, shift + 7, sign)
      else sleb_loop n' (i + 1) (shift + 7) acc sign data p
  end.
(** The sign is extended by a shift of an [int]: a shift by 32 or more is not defined. *)
Definition elf_dwarf_decode_sleb128 (data : list Z) (p : Z) : outcome (Z * Z) :=
  '(acc, i, shift, sign) ← sleb_loop 5 0 0 0 false data p;
  if (sign : bool) then
    if 32 <=? shift then Fault BadShift
    else Ok (Z.lor acc (- s32 (Z.shiftl 1 shift)), i + 1)
  else Ok (acc, i + 1).

(** ** The header of a unit *)

Record line_file := mkFile { file : list Z; dir : Z; time : Z; fsize : Z }.

Record ElfDwarfLineEntryHeaderType := mkLineHeader {
  total_length : Z;
  version : Z;
  prologue_length : Z;
  minimum_instruction_length : Z;
  maximum_operations_per_instruction : Z;
  default_is_stmt : Z;
  line_base : Z;
  line_range : Z;
  opcode_base : Z;
  standard_opcode_lengths : list Z;
  include_directories : list (list Z);
  file_names : list line_file;
}.

Definition ELF_DWARF_VERSION_4 : Z := 4.

Fixpoint read_opcode_lengths (n : nat) (off : Z) (data : list Z) (p : Z) : outcome (list Z) :=
  match n with
  | O => Ok []
  | S n' =>
      b ← elf_get_data8 data (p + off);
      l ← read_opcode_lengths n' (off + 1) data p; Ok (b :: l)
  end.

(** The tables end with an empty string.  Every round consumes at least one byte of the image,
    so that a table that is longer than the image leaves it: that is what running out of
    fuel, one more than the image has bytes, stands for. *)
Fixpoint read_dirs (fuel : nat) (off : Z) (data : list Z) (p : Z) : outcome (list (list Z) * Z) :=
  match fuel with
  | O => Fault OutOfBounds
  | S fuel' =>
      d ← cstr_at data (p + off);
      let off := off + zlen d + 1 in
      if 0 <? zlen d then
        '(ds, off) ← read_dirs fuel' off data p; Ok (d :: ds, off)
      else Ok ([], off)
  end.
Fixpoint read_files (fuel : nat) (off : Z) (data : list Z) (p : Z) : outcome (list line_file * Z) :=
  match fuel with
  | O => Fault OutOfBounds
  | S fuel' =>
      f ← cstr_at data (p + off);
      let off := off + zlen f + 1 in
      if 0 <? zlen f then
        '(d, size) ← elf_dwarf_decode_uleb128 data (p + off);
        let off := off + size in
        '(t, size) ← elf_dwarf_decode_uleb128 data (p + off);
        let off := off + size in
        '(s, size) ← elf_dwarf_decode_uleb128 data (p + off);
        let off := off + size in
        '(fs, off) ← read_files fuel' off data p; Ok (mkFile f d t s :: fs, off)
      else Ok ([], off)
  end.

(** [p] is the pointer to the unit.  Returns the header and its size. *)
Definition parse_entry_header (data : list Z) (p : Z) : outcome (ElfDwarfLineEntryHeaderType * Z) :=
  total ← elf_get_data32 data p;
  ver ← elf_get_data16 data (p + 4);
  prologue ← elf_get_data32 data (p + 6);
  minimum ← elf_get_data8 data (p + 10);
  '(maximum, off) ← (if ver =? ELF_DWARF_VERSION_4
                     then m ← elf_get_data8 data (p + 11); Ok (m, 12) else Ok (0, 11));
  stmt ← elf_get_data8 data (p + off);
  base ← elf_get_data8 data (p + off + 1);
  range ← elf_get_data8 data (p + off + 2);
  opbase ← elf_get_data8 data (p + off + 3);
  lens ← read_opcode_lengths (Z.to_nat (opbase - 1)) (off + 4) data p;
  let off := off + 4 + zlen lens in
  '(dirs, off) ← read_dirs (S (length data)) off data p;
  '(files, off) ← read_files (S (length data)) off data p;
  Ok (mkLineHeader total ver prologue minimum maximum stmt (s8 base) range opbase lens dirs files, off).

(** ** Operations *)

Inductive ElfDwarfLineOpType := OPTYPE_EXTENDED | OPTYPE_STANDARD | OPTYPE_SPECIAL.

Definition DW_LNE_end_sequence : Z := 1.
Definition DW_LNE_set_address : Z := 2.
Definition DW_LINE_define_file : Z := 3.
Definition DW_LNE_set_discriminator : Z := 4.
Definition DW_LINE_unknown : Z := 256.
Definition DW_LNS_copy : Z := 1.
Definition DW_LNS_advance_pc : Z := 2.
Definition DW_LNS_advance_line : Z := 3.
Definition DW_LNS_set_file : Z := 4.
Definition DW_LNS_set_column : Z := 5.
Definition DW_LNS_negate_stmt : Z := 6.
Definition DW_LNS_set_basic_block : Z := 7.
Definition DW_LNS_const_add_pc : Z := 8.
Definition DW_LNS_fixed_advance_pc : Z := 9.

(** The member of the union that was set; [NoArgs] is the zeroed union. *)
Inductive line_args :=
  | NoArgs
  | extSetAddress (addr : Z)
  | extDefineFile (f : line_file)
  | extSetDescriminator (discriminator : Z)
  | stdAdvancePc (advance_size : Z)
  | stdAdvanceLine (advance_line : Z)
  | stdSetFile (file : Z)
  | stdSetColumn (column : Z)
  | stdFixedAdvancePc (fixed_advance_pc : Z)
  | stdConstAddPc (const_add_pc : Z)
  | special (advance_addr advance_line : Z).

Record ElfDwarfLineParsedOpCodeType := mkLineOp {
  op_size : Z; op_type : ElfDwarfLineOpType; subtype : Z; args : line_args }.

Definition set_ExtDefineFile (data : list Z) (p : Z) : outcome line_file :=
  f ← cstr_at data p;
  let off := zlen f + 1 in
  '(d, size) ← elf_dwarf_decode_uleb128 data (p + off);
  let off := off + size in
  '(t, size) ← elf_dwarf_decode_uleb128 data (p + off);
  let off := off + size in
  '(s, _) ← elf_dwarf_decode_uleb128 data (p + off);
  Ok (mkFile f d t s).

(** Subtype and arguments. *)
Definition set_ExtendedOp (data : list Z) (p : Z) : outcome (Z * line_args) :=
  op ← elf_byte data p;
  if op =? DW_LNE_end_sequence then Ok (DW_LNE_end_sequence, NoArgs)
  else if op =? DW_LNE_set_address then
    a ← elf_get_data32 data (p + 1); Ok (DW_LNE_set_address, extSetAddress a)
  else if op =? DW_LINE_define_file then
    f ← set_ExtDefineFile data (p + 1); Ok (DW_LINE_define_file, extDefineFile f)
  else if op =? DW_LNE_set_discriminator then
    '(d, _) ← elf_dwarf_decode_uleb128 data (p + 1); Ok (DW_LNE_set_discriminator, extSetDescriminator d)
  else Ok (DW_LINE_unknown, NoArgs).

Section unit.
Context (hdr : ElfDwarfLineEntryHeaderType).

(** The arguments and the size of the operation. *)
Definition set_StandardOp (sub : Z) (data : list Z) (p : Z) : outcome (line_args * Z) :=
  if sub =? DW_LNS_advance_pc then
    '(v, size) ← elf_dwarf_decode_uleb128 data p;
    Ok (stdAdvancePc (u32 (v * minimum_instruction_length hdr)), size + 1)
  else if sub =? DW_LNS_advance_line then
    '(v, size) ← elf_dwarf_decode_sleb128 data p; Ok (stdAdvanceLine v, size + 1)
  else if sub =? DW_LNS_set_file then
    '(v, size) ← elf_dwarf_decode_uleb128 data p; Ok (stdSetFile v, size + 1)
  else if sub =? DW_LNS_set_column then
    '(v, size) ← elf_dwarf_decode_uleb128 data p; Ok (stdSetColumn v, size + 1)
  else if sub =? DW_LNS_const_add_pc then
    if line_range hdr =? 0 then Fault DivByZero
    else Ok (stdConstAddPc (u32 (u32 (255 - opcode_base hdr) / line_range hdr * minimum_instruction_length hdr)), 1)
  else if sub =? DW_LNS_fixed_advance_pc then
    v ← elf_get_data16 data p; Ok (stdFixedAdvancePc (u32 (v * minimum_instruction_length hdr)), 3)
  else Ok (NoArgs, 1).

(** C division: quotient and remainder are truncated. *)
Definition set_SpecialOp (opcode : Z) : outcome line_args :=
  let adjusted_opcode := opcode - opcode_base hdr in
  if line_range hdr =? 0 then Fault DivByZero
  else Ok (special (u32 (u32 (Z.quot adjusted_opcode (line_range hdr)) * minimum_instruction_length hdr))
             (line_base hdr + Z.rem adjusted_opcode (line_range hdr))).

Definition parse_opcode (data : list Z) (p : Z) : outcome ElfDwarfLineParsedOpCodeType :=
  opcode ← elf_byte data p;
  if opcode =? 0 then
    len ← elf_byte data (p + 1);
    '(sub, a) ← set_ExtendedOp data (p + 2);
    Ok (mkLineOp (len + 2) OPTYPE_EXTENDED sub a)
  else if (DW_LNS_copy <=? opcode) && (opcode <=? DW_LNS_fixed_advance_pc) then
    '(a, size) ← set_StandardOp opcode data (p + 1);
    Ok (mkLineOp size OPTYPE_STANDARD opcode a)
  else
    a ← set_SpecialOp opcode;
    Ok (mkLineOp 1 OPTYPE_SPECIAL 0 a).

(** The operations of a unit from [off] to its end; each has at least one byte, so the fuel
    of [read_dirs] does here, too. *)
Fixpoint parse_ops (fuel : nat) (off : Z) (data : list Z) (p : Z)
    : outcome (list ElfDwarfLineParsedOpCodeType * Z) :=
  match fuel with
  | O => Fault OutOfBounds
  | S fuel' =>
      if off <? u32 (total_length hdr + 4) then
        op ← parse_opcode data (p + off);
        '(ops, off) ← parse_ops fuel' (off + op_size op) data p; Ok (op :: ops, off)
      else Ok ([], off)
  end.
End unit.

Record ElfDwarfLineEntryType := mkLineEntry {
  header : ElfDwarfLineEntryHeaderType; ops : list ElfDwarfLineParsedOpCodeType }.

Fixpoint load_units (fuel : nat) (current_size section_size : Z) (data : list Z) (sect : Z)
    : outcome (list ElfDwarfLineEntryType) :=
  match fuel with
  | O => Fault OutOfBounds
  | S fuel' =>
      if current_size <? section_size then
        let p := sect + current_size in
        '(hdr, hdr_size) ← parse_entry_header data p;
        '(ops, off) ← parse_ops hdr (S (length data)) hdr_size data p;
        es ← load_units fuel' (current_size + off) section_size data sect;
        Ok (mkLineEntry hdr ops :: es)
      else Ok []
  end.

(** The static variable [elf_dwarf_line]: [None] is NULL. *)
Definition elf_dwarf_line_load (data : list Z) (st : elf_statics) (edl : option (list ElfDwarfLineEntryType))
    : outcome (Std_ReturnType * option (list ElfDwarfLineEntryType)) :=
  '(err, s) ← elf_section_get_dwarf_line data st;
  match s with
  | Some (sect, section_size) =>
      if std_ok err then
        es ← load_units (S (length data)) 0 (u32 section_size) data sect; Ok (STD_E_OK, Some es)
      else Ok (err, edl)
  | None => Ok (err, edl)
  end.

(** ** The state machine *)

Record ElfDwarfLineStateMachineRegisterType := mkMachine {
  address : Z; op_index : Z; m_file : Z; m_line : Z; column : Z; is_stmt : Z;
  basic_block : bool; end_sequence : bool; prologue_end : bool; epilogue_begin : bool;
  isa : Z; discriminator : Z;
}.
Definition elf_dwarf_line_machine_init (m : ElfDwarfLineStateMachineRegisterType) : ElfDwarfLineStateMachineRegisterType :=
  mkMachine 0 0 1 1 0 (is_stmt m) false false false false 0 0.
(** The register before its first use holds anything; its [is_stmt] is set here. *)
Definition elf_dwarf_line_init_ElfDwarfLineStateMachineRegister (hdr : ElfDwarfLineEntryHeaderType)
    : ElfDwarfLineStateMachineRegisterType :=
  mkMachine 0 0 1 1 0 (default_is_stmt hdr) false false false false 0 0.

Definition at_address (a : Z) (m : ElfDwarfLineStateMachineRegisterType) : ElfDwarfLineStateMachineRegisterType :=
  mkMachine a (op_index m) (m_file m) (m_line m) (column m) (is_stmt m) (basic_block m) (end_sequence m)
    (prologue_end m) (epilogue_begin m) (isa m) (discriminator m).
Definition at_line (l : Z) (m : ElfDwarfLineStateMachineRegisterType) : ElfDwarfLineStateMachineRegisterType :=
  mkMachine (address m) (op_index m) (m_file m) l (column m) (is_stmt m) (basic_block m) (end_sequence m)
    (prologue_end m) (epilogue_begin m) (isa m) (discriminator m).
Definition in_file (f : Z) (m : ElfDwarfLineStateMachineRegisterType) : ElfDwarfLineStateMachineRegisterType :=
  mkMachine (address m) (op_index m) f (m_line m) (column m) (is_stmt m) (basic_block m) (end_sequence m)
    (prologue_end m) (epilogue_begin m) (isa m) (discriminator m).

(** ** The mapping *)

Record ValueFileType := mkValue { v_dir : list Z; v_file : list Z; v_line : Z }.
Record KeyValueMappingType := mkMapping { k_addr : Z; k_value : ValueFileType }.

Definition file_address_mapping_add (key : Z) (value : ValueFileType) (maps : list KeyValueMappingType)
    : list KeyValueMappingType := maps ++ [mkMapping key value].

(** The row of the machine.  The index of a directory is not checked. *)
Definition add_map (hdr : ElfDwarfLineEntryHeaderType) (addr line : Z) (m : ElfDwarfLineStateMachineRegisterType)
    (maps : list KeyValueMappingType) : outcome (list KeyValueMappingType) :=
  let file_inx := u32 (m_file m - 1) in
  _ ← assert_c (file_inx <? zlen (file_names hdr));
  dldf ← oob (zget (file_names hdr) file_inx);
  d ← (if dir dldf =? 0 then Ok (str_of ".")
       else oob (zget (include_directories hdr) (u32 (dir dldf - 1))));
  Ok (file_address_mapping_add addr (mkValue d (file dldf) line) maps).

Definition do_ext_build (op : ElfDwarfLineParsedOpCodeType) (m : ElfDwarfLineStateMachineRegisterType)
    : outcome ElfDwarfLineStateMachineRegisterType :=
  match args op with
  | extSetAddress a => Ok (at_address a m)
  | extDefineFile _ => Fault AssertFail
  | _ => if subtype op =? DW_LNE_end_sequence then Ok (elf_dwarf_line_machine_init m) else Ok m
  end.

Definition do_std_build (hdr : ElfDwarfLineEntryHeaderType) (op : ElfDwarfLineParsedOpCodeType)
    (m : ElfDwarfLineStateMachineRegisterType) (maps : list KeyValueMappingType)
    : outcome (ElfDwarfLineStateMachineRegisterType * list KeyValueMappingType) :=
  if subtype op =? DW_LNS_copy then
    maps ← add_map hdr (address m) (m_line m) m maps; Ok (m, maps)
  else match args op with
       | stdAdvancePc n => Ok (at_address (u32 (address m + n)) m, maps)
       | stdAdvanceLine n => Ok (at_line (u32 (s32 (m_line m) + n)) m, maps)
       | stdSetFile f => Ok (in_file f m, maps)
       | stdConstAddPc n => Ok (at_address (u32 (address m + n)) m, maps)
       | stdFixedAdvancePc n => Ok (at_address (u32 (address m + n)) m, maps)
       | _ => Ok (m, maps)
       end.

Definition do_spc_build (hdr : ElfDwarfLineEntryHeaderType) (op : ElfDwarfLineParsedOpCodeType)
    (m : ElfDwarfLineStateMachineRegisterType) (maps : list KeyValueMappingType)
    : outcome (ElfDwarfLineStateMachineRegisterType * list KeyValueMappingType) :=
  match args op with
  | special advance_addr advance_line =>
      let m := at_line (u32 (m_line m + advance_line)) (at_address (u32 (address m + advance_addr)) m) in
      maps ← add_map hdr (address m) (m_line m) m maps; Ok (m, maps)
  | _ => Ok (m, maps)
  end.

Fixpoint build_ops (hdr : ElfDwarfLineEntryHeaderType) (l : list ElfDwarfLineParsedOpCodeType)
    (m : ElfDwarfLineStateMachineRegisterType) (maps : list KeyValueMappingType) : outcome (list KeyValueMappingType) :=
  match l with
  | [] => Ok maps
  | op :: l' =>
      '(m, maps) ← match op_type op with
                   | OPTYPE_EXTENDED => m ← do_ext_build op m; Ok (m, maps)
                   | OPTYPE_SPECIAL => do_spc_build hdr op m maps
                   | OPTYPE_STANDARD => do_std_build hdr op m maps
                   end;
      build_ops hdr l' m maps
  end.
Fixpoint build_units (es : list ElfDwarfLineEntryType) (maps : list KeyValueMappingType)
    : outcome (list KeyValueMappingType) :=
  match es with
  | [] => Ok maps
  | e :: es' =>
      maps ← build_ops (header e) (ops e) (elf_dwarf_line_init_ElfDwarfLineStateMachineRegister (header e)) maps;
      build_units es' maps
  end.
Definition file_address_mapping_build (edl : option (list ElfDwarfLineEntryType)) (maps : list KeyValueMappingType)
    : outcome (list KeyValueMappingType) :=
  match edl with None => Ok maps | Some es => build_units es maps end.
Definition file_address_mapping_init (edl : option (list ElfDwarfLineEntryType)) : outcome (list KeyValueMappingType) :=
  file_address_mapping_build edl [].

(** ** Queries *)

(** The scan of [file_address_mapping_get]: the nearest entry below so far, and its distance. *)
Fixpoint scan_nearest (addr : Z) (maps : list KeyValueMappingType) (last : option KeyValueMappingType) (min : Z)
    : Std_ReturnType * option ValueFileType :=
  match maps with
  | [] => match last with Some map => (STD_E_OK, Some (k_value map)) | None => (STD_E_NOENT, None) end
  | map :: maps' =>
      if k_addr map <? addr then
        if addr - k_addr map <? min then scan_nearest addr maps' (Some map) (addr - k_addr map)
        else scan_nearest addr maps' last min
      else if addr =? k_addr map then (STD_E_OK, Some (k_value map))
      else scan_nearest addr maps' last min
  end.
Definition file_address_mapping_get (addr : Z) (maps : list KeyValueMappingType) : Std_ReturnType * option ValueFileType :=
  scan_nearest addr maps None (2 ^ 32 - 1).

Fixpoint file_address_mapping_get_addr (f : list Z) (line : Z) (maps : list KeyValueMappingType)
    : Std_ReturnType * option Z :=
  match maps with
  | [] => (STD_E_NOENT, None)
  | map :: maps' =>
      if negb (zlen f =? zlen (v_file (k_value map))) then file_address_mapping_get_addr f line maps'
      else if negb (line =? v_line (k_value map)) then file_address_mapping_get_addr f line maps'
      else if strncmp_eq (length f) f (v_file (k_value map)) then (STD_E_OK, Some (k_addr map))
      else file_address_mapping_get_addr f line maps'
  end.
Fixpoint file_address_mapping_get_candidate (f : list Z) (line : Z) (maps : list KeyValueMappingType)
    : Std_ReturnType * option ValueFileType :=
  match maps with
  | [] => (STD_E_NOENT, None)
  | map :: maps' =>
      if negb (zlen f =? zlen (v_file (k_value map))) then file_address_mapping_get_candidate f line maps'
      else if v_line (k_value map) <=? line then file_address_mapping_get_candidate f line maps'
      else if strncmp_eq (length f) f (v_file (k_value map)) then (STD_E_OK, Some (k_value map))
      else file_address_mapping_get_candidate f line maps'
  end.
Definition file_address_mapping_get_last (maps : list KeyValueMappingType)
    : Std_ReturnType * option KeyValueMappingType :=
  match zget maps (zlen maps - 1) with
  | Some map => (STD_E_OK, Some map)
  | None => (STD_E_NOENT, None)
  end.
