(* ===== verification/DwarfLineFacts.v ===== *)
(** * What the line table means

    Numbers are read back from their encodings within the bounds the decoders have; a line
    program written by the rules of the DWARF standard is read and executed to exactly the
    rows the standard gives; the nearest row is found for an address. *)

From Stdlib Require Import String Ascii.
From S2P Require Import Prelude Token TokenFacts ElfImageCheck ElfSection DwarfLine.
Open Scope Z_scope.

(** ** Bytes at a place of the image *)

Definition seg (data : list Z) (p : Z) (bs : list Z) : Prop :=
  0 ≤ p ∧ ∃ rest, drop (Z.to_nat p) data = bs ++ rest.

Lemma seg_app data p a b : seg data p (a ++ b) → seg data p a ∧ seg data (p + zlen a) b.
Proof.
  intros [Hp [rest Hd]]. pose proof (zlen_nonneg a). split.
  - split; [done|]. exists (b ++ rest). by rewrite Hd, app_assoc.
  - split; [lia|]. exists rest. replace (Z.to_nat (p + zlen a)) with (Z.to_nat p + length a)%nat by (unfold zlen; lia).
    rewrite <- drop_drop, Hd, <- app_assoc. apply drop_app_length.
Qed.

Lemma seg_cons data p b bs : seg data p (b :: bs) → elf_byte data p = Ok b ∧ seg data (p + 1) bs.
Proof.
  intros Hs. split; [|apply (seg_app data p [b] bs Hs)].
  destruct Hs as [Hp [rest Hd]]. unfold elf_byte, zget. destruct (Z.ltb_spec p 0); [lia|].
  rewrite <- (Nat.add_0_r (Z.to_nat p)), <- lookup_drop, Hd. done.
Qed.

Lemma seg_move data p q bs : seg data p bs → p = q → seg data q bs.
Proof. by intros ? <-. Qed.

Lemma seg_range data p bs : seg data p bs → bs ≠ [] → p + zlen bs ≤ zlen data.
Proof.
  intros [Hp [rest Hd]] Hne. apply (f_equal length) in Hd. rewrite length_drop, length_app in Hd.
  unfold zlen. destruct bs; [done|]. simpl in *. lia.
Qed.

Lemma take_cstr_app s r : Forall (λ c, c ≠ 0) s → take_cstr (s ++ 0 :: r) = Some s.
Proof.
  induction 1 as [|c s Hc _ IH]; simpl; [done|]. destruct (Z.eqb_spec c 0); [done|]. by rewrite IH.
Qed.

Lemma seg_cstr data p s : seg data p (s ++ [0]) → Forall (λ c, c ≠ 0) s → cstr_at data p = Ok s.
Proof.
  intros [Hp [rest Hd]] Hs. unfold cstr_at. destruct (Z.ltb_spec p 0); [lia|].
  rewrite Hd, <- app_assoc. cbn [app]. by rewrite take_cstr_app.
Qed.

Lemma seg_data16 data p v :
  seg data p (le_bytes 2 v) → 0 ≤ v < 2 ^ 16 → zlen data ≤ 2 ^ 32 → elf_get_data16 data p = Ok v.
Proof.
  intros Hs Hv Hd. pose proof (seg_range _ _ _ Hs ltac:(done)) as Hr. rewrite le_bytes_len in Hr.
  pose proof Hs as [Hp _]. cbn [le_bytes] in Hs.
  apply seg_cons in Hs as [H0 Hs]. apply seg_cons in Hs as [H1 _].
  unfold elf_get_data16. rewrite wrap_id by (unfold in_width; lia). rewrite H0, H1. cbn [mbind outcome_bind].
  change (Z.shiftl (v mod 256) 0) with (v mod 256).
  rewrite lor_shift by (try lia; apply Z.mod_pos_bound; lia). f_equal. rewrite wrap_id; unfold in_width; zdiv.
Qed.

Lemma seg_data32 data p v :
  seg data p (le_bytes 4 v) → 0 ≤ v < 2 ^ 32 → zlen data ≤ 2 ^ 32 → elf_get_data32 data p = Ok v.
Proof.
  intros Hs Hv Hd. pose proof (seg_range _ _ _ Hs ltac:(done)) as Hr. rewrite le_bytes_len in Hr.
  pose proof Hs as [Hp _]. cbn [le_bytes] in Hs.
  apply seg_cons in Hs as [H0 Hs]. apply seg_cons in Hs as [H1 Hs].
  apply seg_cons in Hs as [H2 Hs]. apply seg_cons in Hs as [H3 _].
  replace (p + 1 + 1 + 1) with (p + 3) in * by lia. replace (p + 1 + 1) with (p + 2) in * by lia.
  unfold elf_get_data32. rewrite !wrap_id by (unfold in_width; lia).
  rewrite H0, H1, H2, H3. cbn [mbind outcome_bind].
  change (Z.shiftl (v mod 256) 0) with (v mod 256).
  set (b0 := v mod 256). set (b1 := (v / 256) mod 256). set (b2 := (v / 256 / 256) mod 256). set (b3 := (v / 256 / 256 / 256) mod 256).
  assert (0 ≤ b0 < 256) by (apply Z.mod_pos_bound; lia). assert (0 ≤ b1 < 256) by (apply Z.mod_pos_bound; lia).
  assert (0 ≤ b2 < 256) by (apply Z.mod_pos_bound; lia). assert (0 ≤ b3 < 256) by (apply Z.mod_pos_bound; lia).
  rewrite (lor_shift b0 b1 8), (lor_shift (b0 + b1 * 2 ^ 8) b2 16),
    (lor_shift (b0 + b1 * 2 ^ 8 + b2 * 2 ^ 16) b3 24) by lia.
  assert (Hval : b0 + b1 * 2 ^ 8 + b2 * 2 ^ 16 + b3 * 2 ^ 24 = v) by (unfold b0, b1, b2, b3; zdiv).
  f_equal. rewrite Hval. by apply wrap_id.
Qed.

(** ** LEB128 *)

(** The encodings of the standard: seven bits a byte, least significant first. *)
Fixpoint uleb (fuel : nat) (n : Z) : list Z :=
  match fuel with
  | O => []
  | S fuel' => if n <? 128 then [n] else (n mod 128 + 128) :: uleb fuel' (n / 128)
  end.
Fixpoint sleb (fuel : nat) (n : Z) : list Z :=
  match fuel with
  | O => []
  | S fuel' =>
      if (- 64 <=? n) && (n <? 64) then [n mod 128] else (n mod 128 + 128) :: sleb fuel' (n / 128)
  end.
Definition uleb128 (n : Z) : list Z := uleb 10 n.
Definition sleb128 (n : Z) : list Z := sleb 10 n.

Lemma low_bits b : 0 ≤ b < 128 → Z.land b 127 = b ∧ Z.land (b + 128) 127 = b ∧
  Z.land b 128 = 0 ∧ Z.land (b + 128) 128 ≠ 0 ∧ (Z.land b 64 =? 0) = (b <? 64).
Proof.
  intros Hb. assert (Hall : forallb (λ b, (Z.land b 127 =? b) && (Z.land (b + 128) 127 =? b) &&
    (Z.land b 128 =? 0) && negb (Z.land (b + 128) 128 =? 0) && Bool.eqb (Z.land b 64 =? 0) (b <? 64)) (seqZ 0 128) = true)
    by (by vm_compute).
  rewrite forallb_forall in Hall. specialize (Hall b). rewrite <- list_elem_of_In, elem_of_seqZ in Hall.
  specialize (Hall ltac:(lia)). rewrite !andb_true_iff, negb_true_iff, Bool.eqb_true_iff in Hall.
  destruct Hall as ((((H1 & H2) & H3) & H4) & H5). split_and!; lia || done.
Qed.

Lemma pow_step i : 0 ≤ i → 2 ^ (7 * (i + 1)) = 128 * 2 ^ (7 * i).
Proof. intros. replace (7 * (i + 1)) with (7 + 7 * i) by lia. by rewrite Z.pow_add_r by lia. Qed.

Lemma pow_bound i : 0 ≤ i ≤ 3 → 0 < 2 ^ (7 * i) ≤ 2 ^ 21.
Proof. intros. split; [apply Z.pow_pos_nonneg; lia|]. apply Z.pow_le_mono_r; lia. Qed.

(** One round of the loop. *)
Lemma uleb_round k i acc b c data p :
  elf_byte data (p + i) = Ok (b + (if (c : bool) then 128 else 0)) → 0 ≤ b < 128 → 0 ≤ i ≤ 3 → 0 ≤ acc < 2 ^ (7 * i) →
  uleb_loop (S k) i (7 * i) acc data p =
    if c then uleb_loop k (i + 1) (7 * (i + 1)) (acc + b * 2 ^ (7 * i)) data p
    else Ok (acc + b * 2 ^ (7 * i), i + 1).
Proof.
  intros Hb Hr Hi Hacc. pose proof (low_bits b Hr) as (L1 & L2 & L3 & L4 & _).
  pose proof (pow_bound i Hi) as Hpow.
  assert (Hw : u32 (Z.shiftl b (7 * i)) = Z.shiftl b (7 * i)).
  { apply wrap_id. unfold in_width. rewrite Z.shiftl_mul_pow2 by lia. nia. }
  cbn [uleb_loop]. rewrite Hb. cbn [mbind outcome_bind].
  replace (7 * i + 7) with (7 * (i + 1)) by lia. destruct c.
  - rewrite L2, Hw, lor_shift by lia. by destruct (Z.eqb_spec (Z.land (b + 128) 128) 0).
  - rewrite Z.add_0_r, L1, L3, Hw, lor_shift by lia. done.
Qed.

Lemma uleb_loop_fit k fuel i acc n data p :
  seg data (p + i) (uleb fuel n) → (k ≤ fuel)%nat → 0 ≤ n < 128 ^ Z.of_nat k → (0 < k)%nat →
  0 ≤ i → i + Z.of_nat k ≤ 4 → 0 ≤ acc < 2 ^ (7 * i) →
  uleb_loop k i (7 * i) acc data p = Ok (acc + n * 2 ^ (7 * i), i + zlen (uleb fuel n)).
Proof.
  revert fuel i acc n. induction k as [|k IH]; intros fuel i acc n Hs Hf Hn Hk Hi Hik Hacc; [lia|].
  destruct fuel as [|fuel]; [lia|]. cbn [uleb] in *. destruct (Z.ltb_spec n 128).
  - apply seg_cons in Hs as [Hb _]. by rewrite (uleb_round k i acc n false) by (rewrite ?Z.add_0_r; done || lia).
  - apply seg_cons in Hs as [Hb Hs]. pose proof (Z.mod_pos_bound n 128 ltac:(lia)).
    rewrite (uleb_round k i acc (n mod 128) true) by (done || lia).
    rewrite Nat2Z.inj_succ, Z.pow_succ_r in Hn by lia. pose proof (pow_bound i ltac:(lia)).
    rewrite (IH fuel) with (n := n / 128); try lia.
    + f_equal. f_equal; [rewrite pow_step by lia; pose proof (Z.div_mod n 128); nia|]. unfold zlen. simpl. lia.
    + by rewrite Z.add_assoc.
    + split; [apply Z.div_pos; lia|apply Z.div_lt_upper_bound; lia].
    + destruct k; [|lia]. change (128 ^ Z.of_nat 0) with 1 in Hn. lia.
    + rewrite pow_step by lia. nia.
Qed.

Lemma uleb_loop_cut k fuel i acc n data p :
  seg data (p + i) (uleb fuel n) → (k < fuel)%nat → 128 ^ Z.of_nat k ≤ n →
  0 ≤ i → i + Z.of_nat k ≤ 4 → 0 ≤ acc < 2 ^ (7 * i) →
  uleb_loop k i (7 * i) acc data p = Ok (acc + n mod 128 ^ Z.of_nat k * 2 ^ (7 * i), i + Z.of_nat k + 1).
Proof.
  revert fuel i acc n. induction k as [|k IH]; intros fuel i acc n Hs Hf Hn Hi Hik Hacc.
  { cbn [uleb_loop]. change (128 ^ Z.of_nat 0) with 1. rewrite Z.mod_1_r. do 2 f_equal; lia. }
  destruct fuel as [|fuel]; [lia|]. rewrite Nat2Z.inj_succ, Z.pow_succ_r in Hn by lia.
  assert (0 < 128 ^ Z.of_nat k) by (apply Z.pow_pos_nonneg; lia).
  cbn [uleb] in Hs. destruct (Z.ltb_spec n 128); [nia|].
  apply seg_cons in Hs as [Hb Hs]. pose proof (Z.mod_pos_bound n 128 ltac:(lia)).
  rewrite (uleb_round k i acc (n mod 128) true) by (done || lia). pose proof (pow_bound i ltac:(lia)).
  rewrite (IH fuel) with (n := n / 128); try lia.
  - rewrite Nat2Z.inj_succ, Z.pow_succ_r by lia.
    rewrite (Z.rem_mul_r n) by lia. do 2 f_equal; [|lia]. rewrite pow_step by lia. nia.
  - by rewrite Z.add_assoc.
  - apply Z.div_le_lower_bound; lia.
  - rewrite pow_step by lia. nia.
Qed.

Lemma uleb_value data p n :
  seg data p (uleb128 n) → 0 ≤ n < 2 ^ 28 → elf_dwarf_decode_uleb128 data p = Ok (n, zlen (uleb128 n)).
Proof.
  intros Hs Hn. unfold elf_dwarf_decode_uleb128. change 0 with (7 * 0) at 2.
  rewrite (uleb_loop_fit 4 10 0 0 n); rewrite ?Z.add_0_r; try done; try lia.
  do 2 f_equal. lia.
Qed.

Lemma uleb_len_5 n : 2 ^ 28 ≤ n < 2 ^ 32 → zlen (uleb128 n) = 5.
Proof.
  intros Hn. unfold uleb128. do 4 (cbn [uleb]; split_if; [exfalso; zdiv|]). cbn [uleb].
  split_if; [done|exfalso; zdiv].
Qed.

(** A five-byte number loses its upper bits, but the right number of bytes is skipped. *)
Lemma uleb_cut data p n :
  seg data p (uleb128 n) → 2 ^ 28 ≤ n < 2 ^ 32 →
  elf_dwarf_decode_uleb128 data p = Ok (n mod 2 ^ 28, zlen (uleb128 n)).
Proof.
  intros Hs Hn. rewrite uleb_len_5 by done. unfold elf_dwarf_decode_uleb128. change 0 with (7 * 0) at 2.
  rewrite (uleb_loop_cut 4 10 0 0 n); rewrite ?Z.add_0_r; try done; try lia.
  do 2 f_equal. change (128 ^ Z.of_nat 4) with (2 ^ 28). lia.
Qed.

Lemma sleb_round k i acc sg b c data p :
  elf_byte data (p + i) = Ok (b + (if (c : bool) then 128 else 0)) → 0 ≤ b < 128 → 0 ≤ i ≤ 3 → 0 ≤ acc < 2 ^ (7 * i) →
  ∃ sg', sleb_loop (S k) i (7 * i) acc sg data p =
    if c then sleb_loop k (i + 1) (7 * (i + 1)) (acc + b * 2 ^ (7 * i)) sg' data p
    else Ok (acc + b * 2 ^ (7 * i), i, 7 * (i + 1), negb (b <? 64)).
Proof.
  intros Hb Hr Hi Hacc. pose proof (low_bits b Hr) as (L1 & L2 & L3 & L4 & L5).
  pose proof (pow_bound i Hi) as Hpow.
  assert (Hw : s32 (Z.shiftl b (7 * i)) = Z.shiftl b (7 * i)).
  { unfold s32. rewrite wrap_id; [lia|]. unfold in_width. rewrite Z.shiftl_mul_pow2 by lia. nia. }
  eexists. cbn [sleb_loop]. rewrite Hb. cbn [mbind outcome_bind].
  replace (7 * i + 7) with (7 * (i + 1)) by lia. destruct c.
  - rewrite L2, Hw, lor_shift by lia. by destruct (Z.eqb_spec (Z.land (b + 128) 128) 0).
  - rewrite Z.add_0_r, L1, L3, L5, Hw, lor_shift by lia. done.
Qed.

Lemma sleb_loop_fit m k fuel i acc sg n data p :
  seg data (p + i) (sleb fuel n) → (m < fuel)%nat → (m < k)%nat →
  - (64 * 128 ^ Z.of_nat m) ≤ n < 64 * 128 ^ Z.of_nat m → 0 ≤ i → i + Z.of_nat m ≤ 3 → 0 ≤ acc < 2 ^ (7 * i) →
  let len := zlen (sleb fuel n) in
  1 ≤ len ≤ Z.of_nat m + 1 ∧ - 2 ^ (7 * len) ≤ n < 2 ^ (7 * len) ∧
  sleb_loop k i (7 * i) acc sg data p =
    Ok (acc + n mod 2 ^ (7 * len) * 2 ^ (7 * i), i + len - 1, 7 * (i + len), n <? 0).
Proof.
  revert k fuel i acc sg n. induction m as [|m IH]; intros k fuel i acc sg n Hs Hf Hk Hn Hi Him Hacc;
    (destruct fuel as [|fuel]; [lia|]); (destruct k as [|k]; [lia|]);
    pose proof (Z.mod_pos_bound n 128 ltac:(lia)) as Hmod; cbn [sleb] in *;
    (destruct ((- 64 <=? n) && (n <? 64)) eqn:E; cbn zeta).
  1, 3: apply seg_cons in Hs as [Hb _]; change (zlen [n mod 128]) with 1;
    (destruct (sleb_round k i acc sg (n mod 128) false data p) as [? Hround]; [by rewrite Z.add_0_r|lia|lia|lia|]);
    rewrite Hround; change (2 ^ (7 * 1)) with 128; split_and!; try lia;
    f_equal; rewrite !pair_eq; split_and!; zdiv.
  - change (64 * 128 ^ Z.of_nat 0) with 64 in Hn. lia.
  - apply seg_cons in Hs as [Hb Hs]. rewrite Nat2Z.inj_succ, Z.pow_succ_r in Hn by lia.
    pose proof (pow_bound i ltac:(lia)) as Hp.
    destruct (sleb_round k i acc sg (n mod 128) true data p) as [sg' Hround]; [done|lia|lia|lia|].
    rewrite Hround.
    destruct (IH k fuel (i + 1) (acc + n mod 128 * 2 ^ (7 * i)) sg' (n / 128)) as (Hl & Hr & ->); try lia.
    + by rewrite Z.add_assoc.
    + split; [apply Z.div_le_lower_bound; lia|apply Z.div_lt_upper_bound; lia].
    + rewrite pow_step by lia. nia.
    + assert (Hc : zlen ((n mod 128 + 128) :: sleb fuel (n / 128)) = 1 + zlen (sleb fuel (n / 128))) by (unfold zlen; simpl; lia).
      rewrite Hc. set (len := zlen (sleb fuel (n / 128))) in *.
      assert (Hpw : 2 ^ (7 * (1 + len)) = 128 * 2 ^ (7 * len)) by (rewrite Z.add_comm; apply pow_step; lia).
      assert (0 < 2 ^ (7 * len)) by (apply Z.pow_pos_nonneg; lia).
      rewrite Hpw. split_and!; try lia; [pose proof (Z.div_mod n 128); nia..|].
      rewrite (Z.rem_mul_r n) by lia. rewrite pow_step by lia.
      assert ((n / 128 <? 0) = (n <? 0)) as -> by zdiv.
      f_equal. rewrite !pair_eq. split_and!; [nia|lia|lia|done].
Qed.

(** A signed number of at most four bytes is read back. *)
Lemma sleb_value data p n :
  seg data p (sleb128 n) → - 2 ^ 27 ≤ n < 2 ^ 27 → elf_dwarf_decode_sleb128 data p = Ok (n, zlen (sleb128 n)).
Proof.
  intros Hs Hn. unfold elf_dwarf_decode_sleb128, sleb128 in *. change 0 with (7 * 0) at 2.
  destruct (sleb_loop_fit 3 5 10 0 0 false n data p) as (Hl & Hr & ->); try lia.
  { by rewrite Z.add_0_r. }
  set (len := zlen (sleb 10 n)) in *. cbn [mbind outcome_bind]. change (2 ^ (7 * 0)) with 1.
  assert (0 < 2 ^ (7 * len) ≤ 2 ^ 28).
  { split; [apply Z.pow_pos_nonneg; lia|apply Z.pow_le_mono_r; lia]. }
  destruct (Z.ltb_spec n 0).
  - replace (32 <=? 7 * (0 + len)) with false by lia. replace (0 + len) with len by lia.
    assert (Hsh : s32 (Z.shiftl 1 (7 * len)) = 2 ^ (7 * len)).
    { rewrite Z.shiftl_mul_pow2, Z.mul_1_l by lia. unfold s32. rewrite wrap_id; [lia|]. unfold in_width. lia. }
    rewrite Hsh. pose proof (lor_shift (0 + n mod 2 ^ (7 * len) * 1) (-1) (7 * len)) as Hlor.
    rewrite Z.shiftl_mul_pow2 in Hlor by lia. replace (-1 * 2 ^ (7 * len)) with (- 2 ^ (7 * len)) in Hlor by lia.
    pose proof (Z.mod_pos_bound n (2 ^ (7 * len)) ltac:(lia)).
    rewrite Hlor by lia. do 2 f_equal; [|lia].
    assert (n mod 2 ^ (7 * len) = n + 2 ^ (7 * len)); [|lia].
    symmetry. apply (Z.mod_unique_pos _ _ (-1)); lia.
  - do 2 f_equal; [|lia]. rewrite Z.mod_small by lia. lia.
Qed.

(** A negative number that needs five bytes: its sign is extended by an undefined shift. *)
Lemma sleb_bad_shift : elf_dwarf_decode_sleb128 (sleb128 (- 2 ^ 27 - 1)) 0 = Fault BadShift.
Proof. by vm_compute. Qed.

(** ** Line programs of the standard *)

(** The operations a producer of DWARF 2 to 4 may use, with their arguments. *)
Inductive line_op :=
  | LCopy | LAdvancePc (n : Z) | LAdvanceLine (n : Z) | LSetFile (f : Z) | LSetColumn (c : Z)
  | LNegateStmt | LSetBasicBlock | LConstAddPc | LFixedAdvancePc (n : Z) | LSpecial (opcode : Z)
  | LEndSequence | LSetAddress (a : Z) | LSetDiscriminator (d : Z).

Definition encode_op (op : line_op) : list Z :=
  match op with
  | LCopy => [1]
  | LAdvancePc n => 2 :: uleb128 n
  | LAdvanceLine n => 3 :: sleb128 n
  | LSetFile f => 4 :: uleb128 f
  | LSetColumn c => 5 :: uleb128 c
  | LNegateStmt => [6]
  | LSetBasicBlock => [7]
  | LConstAddPc => [8]
  | LFixedAdvancePc n => 9 :: le_bytes 2 n
  | LSpecial o => [o]
  | LEndSequence => [0; 1; 1]
  | LSetAddress a => 0 :: 5 :: 2 :: le_bytes 4 a
  | LSetDiscriminator d => 0 :: (1 + zlen (uleb128 d)) :: 4 :: uleb128 d
  end.
Definition encode_ops (l : list line_op) : list Z := concat (map encode_op l).

#[local] Arguments elf_dwarf_decode_uleb128 : simpl never.
#[local] Arguments elf_dwarf_decode_sleb128 : simpl never.
#[local] Arguments elf_get_data16 : simpl never.
#[local] Arguments elf_get_data32 : simpl never.
#[local] Arguments uleb128 : simpl never.
#[local] Arguments sleb128 : simpl never.
#[local] Arguments elf_byte : simpl never.
#[local] Arguments le_bytes : simpl never.
#[local] Arguments zlen : simpl never.
#[local] Arguments wrap : simpl never.

Section program.
Context (hdr : ElfDwarfLineEntryHeaderType).

(** The rules of the standard, and the bounds of the decoders.  A fixed advance is not
    scaled by the standard, but by the program: they agree for instructions of one byte.  The
    opcodes 1 to 9 are standard ones, so [opcode_base] is at least 10. *)
Definition op_wf (op : line_op) : Prop :=
  match op with
  | LAdvancePc n | LSetColumn n | LSetDiscriminator n => 0 ≤ n < 2 ^ 28
  | LAdvanceLine n => - 2 ^ 27 ≤ n < 2 ^ 27
  | LSetFile f => 1 ≤ f ≤ zlen (file_names hdr) ∧ f < 2 ^ 28
  | LFixedAdvancePc n => 0 ≤ n < 2 ^ 16 ∧ minimum_instruction_length hdr = 1
  | LSpecial o => opcode_base hdr ≤ o < 256
  | LSetAddress a => 0 ≤ a < 2 ^ 32
  | _ => True
  end.
Definition header_ok : Prop :=
  0 ≤ minimum_instruction_length hdr < 256 ∧ 0 < line_range hdr < 256 ∧ 10 ≤ opcode_base hdr < 256 ∧
  - 128 ≤ line_base hdr < 128 ∧
  0 < zlen (file_names hdr) < 2 ^ 31 ∧
  Forall (λ f, 0 ≤ dir f ≤ zlen (include_directories hdr) ∧ dir f < 2 ^ 28) (file_names hdr).

(** The object an operation is parsed to. *)
Definition parsed (op : line_op) : ElfDwarfLineParsedOpCodeType :=
  let min := minimum_instruction_length hdr in
  let '(ty, sub, a) :=
    match op with
    | LCopy => (OPTYPE_STANDARD, 1, NoArgs)
    | LAdvancePc n => (OPTYPE_STANDARD, 2, stdAdvancePc (u32 (n * min)))
    | LAdvanceLine n => (OPTYPE_STANDARD, 3, stdAdvanceLine n)
    | LSetFile f => (OPTYPE_STANDARD, 4, stdSetFile f)
    | LSetColumn c => (OPTYPE_STANDARD, 5, stdSetColumn c)
    | LNegateStmt => (OPTYPE_STANDARD, 6, NoArgs)
    | LSetBasicBlock => (OPTYPE_STANDARD, 7, NoArgs)
    | LConstAddPc => (OPTYPE_STANDARD, 8, stdConstAddPc ((255 - opcode_base hdr) / line_range hdr * min))
    | LFixedAdvancePc n => (OPTYPE_STANDARD, 9, stdFixedAdvancePc n)
    | LSpecial o => (OPTYPE_SPECIAL, 0, special ((o - opcode_base hdr) / line_range hdr * min)
                                            (line_base hdr + (o - opcode_base hdr) mod line_range hdr))
    | LEndSequence => (OPTYPE_EXTENDED, 1, NoArgs)
    | LSetAddress a => (OPTYPE_EXTENDED, 2, extSetAddress a)
    | LSetDiscriminator d => (OPTYPE_EXTENDED, 4, extSetDescriminator d)
    end in
  mkLineOp (zlen (encode_op op)) ty sub a.

Lemma parse_opcode_ok op data p :
  header_ok → op_wf op → zlen data ≤ 2 ^ 32 → seg data p (encode_op op) →
  parse_opcode hdr data p = Ok (parsed op).
Proof.
  intros (Hmin & Hrange & Hbase & _) Hwf Hd Hs. unfold parse_opcode, parsed.
  assert (Hq : ∀ x, 0 ≤ x < 256 → 0 ≤ x / line_range hdr * minimum_instruction_length hdr < 2 ^ 32 ∧
     0 ≤ x / line_range hdr < 2 ^ 32).
  { intros x Hx. assert (0 ≤ x / line_range hdr ≤ x); [|nia].
    split; [apply Z.div_pos; lia|apply Z.div_le_upper_bound; nia]. }
  destruct op; cbn [encode_op] in *; apply seg_cons in Hs as [H0 Hs]; rewrite H0; cbn [mbind outcome_bind op_wf] in *.
  - done.
  - cbn. rewrite (uleb_value _ _ _ Hs Hwf). cbn. do 2 f_equal. unfold zlen. simpl. lia.
  - cbn. rewrite (sleb_value _ _ _ Hs Hwf). cbn. do 2 f_equal. unfold zlen. simpl. lia.
  - cbn. rewrite (uleb_value _ _ _ Hs ltac:(lia)). cbn. do 2 f_equal. unfold zlen. simpl. lia.
  - cbn. rewrite (uleb_value _ _ _ Hs Hwf). cbn. do 2 f_equal. unfold zlen. simpl. lia.
  - done.
  - done.
  - cbn. replace (line_range hdr =? 0) with false by lia. cbn.
    rewrite (wrap_id 32 (255 - _)) by (unfold in_width; lia).
    rewrite wrap_id; [done|]. apply Hq. lia.
  - cbn. destruct Hwf as [Hn Hm]. rewrite (seg_data16 _ _ _ Hs Hn Hd). cbn. rewrite Hm, Z.mul_1_r, wrap_id; [done|].
    unfold in_width. lia.
  - destruct Hwf as [Ho Hge]. replace (opcode =? 0) with false by lia.
    replace (_ && _) with false by (unfold DW_LNS_copy, DW_LNS_fixed_advance_pc; lia).
    unfold set_SpecialOp. replace (line_range hdr =? 0) with false by lia. cbn [mbind outcome_bind].
    rewrite Z.quot_div_nonneg, Z.rem_mod_nonneg by lia.
    rewrite (wrap_id 32 (_ / _)) by (apply Hq; lia). rewrite wrap_id by (apply Hq; lia). done.
  - apply seg_cons in Hs as [H1 Hs]. apply seg_cons in Hs as [H2 _]. cbn. rewrite H1. cbn.
    unfold set_ExtendedOp. replace (p + 2) with (p + 1 + 1) by lia. rewrite H2. done.
  - apply seg_cons in Hs as [H1 Hs]. apply seg_cons in Hs as [H2 Hs]. cbn. rewrite H1. cbn.
    unfold set_ExtendedOp. replace (p + 2) with (p + 1 + 1) by lia. rewrite H2. cbn.
    by rewrite (seg_data32 _ _ _ Hs Hwf Hd).
  - apply seg_cons in Hs as [H1 Hs]. apply seg_cons in Hs as [H2 Hs]. cbn. rewrite H1. cbn.
    unfold set_ExtendedOp. replace (p + 2) with (p + 1 + 1) by lia. rewrite H2. cbn.
    rewrite (uleb_value _ _ _ Hs Hwf). cbn. do 2 f_equal. unfold zlen. simpl. lia.
Qed.

Lemma encode_op_len op : 0 < zlen (encode_op op).
Proof. destruct op; unfold zlen; simpl; lia. Qed.


Lemma parse_ops_ok l fuel off data p :
  header_ok → Forall op_wf l → zlen data ≤ 2 ^ 32 → seg data (p + off) (encode_ops l) → (length l < fuel)%nat →
  off + zlen (encode_ops l) = total_length hdr + 4 → u32 (total_length hdr + 4) = total_length hdr + 4 →
  parse_ops hdr fuel off data p = Ok (map parsed l, total_length hdr + 4).
Proof.
  intros Hh Hl Hd. revert fuel off. induction Hl as [|op l Hop _ IH]; intros fuel off Hs Hf Ho Hu;
    (destruct fuel as [|fuel]; [simpl in Hf; lia|]); cbn [parse_ops]; rewrite Hu.
  - change (zlen (encode_ops [])) with 0 in Ho. replace (off <? total_length hdr + 4) with false by lia.
    do 2 f_equal. lia.
  - change (encode_ops (op :: l)) with (encode_op op ++ encode_ops l) in *.
    apply seg_app in Hs as [Hs1 Hs2]. rewrite zlen_app in Ho. pose proof (encode_op_len op).
    pose proof (zlen_nonneg (encode_ops l)). replace (off <? total_length hdr + 4) with true by lia.
    rewrite (parse_opcode_ok op data (p + off)) by done. cbn [mbind outcome_bind].
    assert (op_size (parsed op) = zlen (encode_op op)) as -> by (by destruct op).
    rewrite (IH fuel (off + zlen (encode_op op))); [done| |simpl in Hf; lia|lia|done].
    by rewrite Z.add_assoc.
Qed.

(** ** What a program means

    The registers the rows depend on, and the operations as the standard describes them. *)
Record regs := mkRegs { r_addr : Z; r_file : Z; r_line : Z }.
Definition regs_init : regs := mkRegs 0 1 1.

Definition std_step (op : line_op) (r : regs) : regs :=
  let min := minimum_instruction_length hdr in
  match op with
  | LAdvancePc n => mkRegs (u32 (r_addr r + min * n)) (r_file r) (r_line r)
  | LAdvanceLine n => mkRegs (r_addr r) (r_file r) (u32 (r_line r + n))
  | LSetFile f => mkRegs (r_addr r) f (r_line r)
  | LConstAddPc => mkRegs (u32 (r_addr r + min * ((255 - opcode_base hdr) / line_range hdr))) (r_file r) (r_line r)
  | LFixedAdvancePc n => mkRegs (u32 (r_addr r + n)) (r_file r) (r_line r)
  | LSpecial o =>
      let adjusted := o - opcode_base hdr in
      mkRegs (u32 (r_addr r + min * (adjusted / line_range hdr))) (r_file r)
        (u32 (r_line r + (line_base hdr + adjusted mod line_range hdr)))
  | LEndSequence => regs_init
  | LSetAddress a => mkRegs a (r_file r) (r_line r)
  | _ => r
  end.
(** The matrix of the standard: the registers of every row, and the register [end_sequence],
    which is true in the row that [LEndSequence] appends. *)
Fixpoint std_matrix (l : list line_op) (r : regs) : list (regs * bool) :=
  match l with
  | [] => []
  | op :: l' =>
      let r' := std_step op r in
      match op with
      | LCopy | LSpecial _ => [(r', false)]
      | LEndSequence => [(r, true)]
      | _ => []
      end ++ std_matrix l' r'
  end.
(** The rows that are a line: the row of an end gives the first address behind a sequence. *)
Definition std_rows (l : list line_op) (r : regs) : list regs :=
  map fst (List.filter (λ row, negb row.2) (std_matrix l r)).

Definition appends_row (op : line_op) : bool := match op with LCopy | LSpecial _ => true | _ => false end.
Lemma std_rows_cons op l r : std_rows (op :: l) r =
  if appends_row op then std_step op r :: std_rows l (std_step op r) else std_rows l (std_step op r).
Proof. by destruct op. Qed.

(** A row with the names its file index stands for. *)
Definition row_file (r : regs) : line_file := default (mkFile [] 0 0 0) (zget (file_names hdr) (r_file r - 1)).
Definition row_dir (r : regs) : list Z :=
  if dir (row_file r) =? 0 then str_of "." else default [] (zget (include_directories hdr) (dir (row_file r) - 1)).
Definition row_mapping (r : regs) : KeyValueMappingType :=
  mkMapping (r_addr r) (mkValue (row_dir r) (file (row_file r)) (r_line r)).

Definition regs_of (m : ElfDwarfLineStateMachineRegisterType) : regs := mkRegs (address m) (m_file m) (m_line m).
Definition regs_wf (r : regs) : Prop := 1 ≤ r_file r ≤ zlen (file_names hdr) ∧ 0 ≤ r_line r < 2 ^ 32.

Lemma add_map_ok m maps :
  header_ok → regs_wf (regs_of m) →
  add_map hdr (address m) (m_line m) m maps = Ok (maps ++ [row_mapping (regs_of m)]).
Proof.
  intros (_ & _ & _ & _ & Hn & Hall) [Hf _]. cbn in Hf. unfold add_map.
  rewrite (wrap_id 32 (m_file m - 1)) by (unfold in_width; lia).
  replace (m_file m - 1 <? zlen (file_names hdr)) with true by lia. cbn [assert_c mbind outcome_bind].
  destruct (zget_is_Some (file_names hdr) (m_file m - 1)) as [f Hg]; [lia|]. rewrite Hg. cbn [oob mbind outcome_bind].
  rewrite Forall_forall in Hall. destruct (Hall f (zget_elem _ _ _ Hg)) as [Hdir Hdir'].
  unfold file_address_mapping_add, row_mapping, row_dir, row_file. cbn [regs_of r_file r_addr r_line]. rewrite Hg.
  cbn [default from_option id]. destruct (Z.eqb_spec (dir f) 0); [done|].
  rewrite wrap_id by (unfold in_width; lia).
  destruct (zget_is_Some (include_directories hdr) (dir f - 1)) as [d Hd]; [lia|]. by rewrite Hd.
Qed.

Lemma std_step_wf op r : op_wf op → header_ok → regs_wf r → regs_wf (std_step op r).
Proof.
  intros Hop (_ & _ & _ & _ & Hn & _) [Hf Hl]. unfold regs_wf.
  assert (∀ x, 0 ≤ u32 x < 2 ^ 32) by (intros; by apply wrap_in_width).
  destruct op; cbn in *; split; try done; try lia; by apply (wrap_in_width 32).
Qed.

Lemma u32_add a b : u32 (a + u32 b) = u32 (a + b).
Proof. unfold wrap. by rewrite Z.add_mod_idemp_r. Qed.
Lemma s32_add l n : u32 (s32 l + n) = u32 (l + n).
Proof.
  unfold s32, wrap. replace ((l + 2 ^ 31) mod 2 ^ 32 - 2 ^ 31 + n) with ((n - 2 ^ 31) + (l + 2 ^ 31) mod 2 ^ 32) by lia.
  rewrite Z.add_mod_idemp_r by done. f_equal. lia.
Qed.

Lemma build_ops_ok l m maps :
  header_ok → Forall op_wf l → regs_wf (regs_of m) →
  build_ops hdr (map parsed l) m maps = Ok (maps ++ map row_mapping (std_rows l (regs_of m))).
Proof.
  intros Hh Hl. revert m maps. induction Hl as [|op l Hop _ IH]; intros m maps Hm.
  { cbn. by rewrite app_nil_r. }
  pose proof (std_step_wf op (regs_of m) Hop Hh Hm) as Hm'.
  assert (Hstep : ∃ m', regs_of m' = std_step op (regs_of m) ∧
    match op_type (parsed op) with
    | OPTYPE_EXTENDED => m ← do_ext_build (parsed op) m; Ok (m, maps)
    | OPTYPE_SPECIAL => do_spc_build hdr (parsed op) m maps
    | OPTYPE_STANDARD => do_std_build hdr (parsed op) m maps
    end = Ok (m', if appends_row op then maps ++ [row_mapping (regs_of m')] else maps)).
  { destruct op; cbn [parsed op_type] in *.
    - exists m. split; [done|]. unfold do_std_build. cbn. by rewrite add_map_ok.
    - eexists. unfold do_std_build. cbn. split; [|done]. unfold regs_of. cbn. f_equal.
      rewrite u32_add. f_equal. lia.
    - eexists. unfold do_std_build. cbn. split; [|done]. unfold regs_of. cbn. f_equal. apply s32_add.
    - eexists. unfold do_std_build. cbn. split; [|done]. done.
    - eexists. unfold do_std_build. cbn. split; [|done]. done.
    - eexists. unfold do_std_build. cbn. split; [|done]. done.
    - eexists. unfold do_std_build. cbn. split; [|done]. done.
    - eexists. unfold do_std_build. cbn. split; [|done]. unfold regs_of. cbn. f_equal. f_equal. lia.
    - eexists. unfold do_std_build. cbn. split; [|done]. done.
    - set (m' := at_line (u32 (m_line m + (line_base hdr + (opcode - opcode_base hdr) mod line_range hdr)))
        (at_address (u32 (address m + (opcode - opcode_base hdr) / line_range hdr * minimum_instruction_length hdr)) m)).
      assert (Hr : regs_of m' = std_step (LSpecial opcode) (regs_of m)).
      { unfold regs_of. cbn. f_equal. f_equal. lia. }
      exists m'. split; [done|]. unfold do_spc_build. cbn [args parsed]. fold m'.
      rewrite add_map_ok; [done|done|]. by rewrite Hr.
    - eexists. unfold do_ext_build. cbn. split; [|done]. done.
    - eexists. unfold do_ext_build. cbn. split; [|done]. done.
    - eexists. unfold do_ext_build. cbn. split; [|done]. done. }
  destruct Hstep as (m' & Hr & Heq). cbn [map build_ops]. rewrite Heq. cbn [mbind outcome_bind].
  rewrite <- Hr in Hm'. rewrite IH by done. rewrite std_rows_cons, <- Hr.
  destruct (appends_row op); [|done]. cbn [map]. by rewrite <- app_assoc.
Qed.
End program.

(** ** Units *)

Definition encode_file (f : line_file) : list Z :=
  file f ++ 0 :: uleb128 (dir f) ++ uleb128 (time f) ++ uleb128 (fsize f).
Definition encode_dirs (ds : list (list Z)) : list Z := concat (map (λ d, d ++ [0]) ds) ++ [0].
Definition encode_files (fs : list line_file) : list Z := concat (map encode_file fs) ++ [0].
Definition encode_header (h : ElfDwarfLineEntryHeaderType) : list Z :=
  le_bytes 4 (total_length h) ++ le_bytes 2 (version h) ++ le_bytes 4 (prologue_length h) ++
  [minimum_instruction_length h] ++
  (if version h =? 4 then [maximum_operations_per_instruction h] else []) ++
  [default_is_stmt h; line_base h mod 256; line_range h; opcode_base h] ++
  standard_opcode_lengths h ++ encode_dirs (include_directories h) ++ encode_files (file_names h).

(** What the program keeps of a file entry: the time stamp loses its upper bits. *)
Definition seen_file (f : line_file) : line_file := mkFile (file f) (dir f) (time f mod 2 ^ 28) (fsize f).
Definition seen_header (h : ElfDwarfLineEntryHeaderType) : ElfDwarfLineEntryHeaderType :=
  mkLineHeader (total_length h) (version h) (prologue_length h) (minimum_instruction_length h)
    (if version h =? 4 then maximum_operations_per_instruction h else 0) (default_is_stmt h)
    (line_base h) (line_range h) (opcode_base h) (standard_opcode_lengths h)
    (include_directories h) (map seen_file (file_names h)).

Definition is_name (s : list Z) : Prop := s ≠ [] ∧ Forall (λ c, c ≠ 0) s.
Definition file_ok (f : line_file) : Prop :=
  is_name (file f) ∧ 0 ≤ dir f < 2 ^ 28 ∧ 0 ≤ time f < 2 ^ 32 ∧ 0 ≤ fsize f < 2 ^ 28.
Definition encodable (h : ElfDwarfLineEntryHeaderType) : Prop :=
  0 ≤ total_length h < 2 ^ 32 - 4 ∧ 0 ≤ version h < 2 ^ 16 ∧ 0 ≤ prologue_length h < 2 ^ 32 ∧
  zlen (standard_opcode_lengths h) = opcode_base h - 1 ∧ - 128 ≤ line_base h < 128 ∧
  Forall is_name (include_directories h) ∧ Forall file_ok (file_names h).

Lemma seg_uleb data p n :
  seg data p (uleb128 n) → 0 ≤ n < 2 ^ 32 → elf_dwarf_decode_uleb128 data p = Ok (n mod 2 ^ 28, zlen (uleb128 n)).
Proof.
  intros Hs Hn. destruct (decide (n < 2 ^ 28)).
  - rewrite Z.mod_small by lia. apply uleb_value; [done|lia].
  - apply uleb_cut; [done|lia].
Qed.

Lemma read_lengths_ok l off data p :
  seg data (p + off) l → read_opcode_lengths (length l) off data p = Ok l.
Proof.
  revert off. induction l as [|b l IH]; intros off Hs; [done|]. apply seg_cons in Hs as [Hb Hs].
  cbn [length read_opcode_lengths]. unfold elf_get_data8. rewrite Hb. cbn [mbind outcome_bind].
  rewrite IH; [done|]. by rewrite Z.add_assoc.
Qed.

Lemma read_dirs_ok ds fuel off data p :
  seg data (p + off) (encode_dirs ds) → Forall is_name ds → (length ds < fuel)%nat →
  read_dirs fuel off data p = Ok (ds, off + zlen (encode_dirs ds)).
Proof.
  intros Hs Hds. revert fuel off Hs. induction Hds as [|d ds [Hne Hd] _ IH]; intros fuel off Hs Hf;
    (destruct fuel as [|fuel]; [simpl in Hf; lia|]); cbn [read_dirs].
  - rewrite (seg_cstr _ _ []) by done. cbn [mbind outcome_bind]. change (zlen (@nil Z)) with 0.
    cbn [Z.ltb Z.compare]. do 2 f_equal. change (zlen (encode_dirs [])) with 1. lia.
  - change (encode_dirs (d :: ds)) with (((d ++ [0]) ++ concat (map (λ d, d ++ [0]) ds)) ++ [0]) in *.
    rewrite <- app_assoc in Hs |- *. fold (encode_dirs ds) in Hs |- *. apply seg_app in Hs as [Hs1 Hs2].
    rewrite (seg_cstr _ _ d) by done. cbn [mbind outcome_bind].
    assert (0 < zlen d) by (destruct d; [done|unfold zlen; simpl; lia]).
    replace (0 <? zlen d) with true by lia. rewrite !zlen_app in *. change (zlen [0]) with 1 in *.
    rewrite IH; [|by replace (p + (off + zlen d + 1)) with (p + off + (zlen d + 1)) by lia|simpl in Hf; lia].
    cbn [mbind outcome_bind]. do 2 f_equal. lia.
Qed.

Lemma read_files_ok fs fuel off data p :
  seg data (p + off) (encode_files fs) → Forall file_ok fs → (length fs < fuel)%nat →
  read_files fuel off data p = Ok (map seen_file fs, off + zlen (encode_files fs)).
Proof.
  intros Hs Hfs. revert fuel off Hs. induction Hfs as [|f fs ((Hne & Hn) & Hdir & Htime & Hsize) _ IH]; intros fuel off Hs Hf;
    (destruct fuel as [|fuel]; [simpl in Hf; lia|]); cbn [read_files].
  - rewrite (seg_cstr _ _ []) by done. cbn [mbind outcome_bind]. change (zlen (@nil Z)) with 0.
    cbn [Z.ltb Z.compare]. do 2 f_equal. change (zlen (encode_files [])) with 1. lia.
  - assert (He : encode_files (f :: fs) = (file f ++ [0]) ++ uleb128 (dir f) ++ uleb128 (time f) ++ uleb128 (fsize f) ++ encode_files fs).
    { unfold encode_files. cbn [map concat]. unfold encode_file.
      rewrite <- !app_assoc. cbn [app]. by rewrite <- !app_assoc. }
    rewrite He in *. apply seg_app in Hs as [Hs1 Hs]. apply seg_app in Hs as [Hs2 Hs].
    apply seg_app in Hs as [Hs3 Hs]. apply seg_app in Hs as [Hs4 Hs].
    rewrite (seg_cstr _ _ (file f)) by done. cbn [mbind outcome_bind].
    assert (0 < zlen (file f)) by (destruct (file f); [done|unfold zlen; simpl; lia]).
    replace (0 <? zlen (file f)) with true by lia. rewrite !zlen_app in *. change (zlen [0]) with 1 in *.
    replace (p + (off + zlen (file f) + 1)) with (p + off + (zlen (file f) + 1)) by lia.
    rewrite (uleb_value _ _ _ Hs2) by lia. cbn [mbind outcome_bind].
    replace (p + (off + zlen (file f) + 1 + zlen (uleb128 (dir f)))) with
      (p + off + (zlen (file f) + 1) + zlen (uleb128 (dir f))) by lia.
    rewrite (seg_uleb _ _ _ Hs3) by lia. cbn [mbind outcome_bind].
    replace (p + (off + zlen (file f) + 1 + zlen (uleb128 (dir f)) + zlen (uleb128 (time f)))) with
      (p + off + (zlen (file f) + 1) + zlen (uleb128 (dir f)) + zlen (uleb128 (time f))) by lia.
    rewrite (uleb_value _ _ _ Hs4) by lia. cbn [mbind outcome_bind].
    rewrite IH; [|apply (seg_move _ _ _ _ Hs); lia|simpl in Hf; lia].
    cbn [mbind outcome_bind map]. do 2 f_equal. lia.
Qed.

(** A table of strings that are not empty has at least as many bytes as entries. *)
Lemma concat_len {A} (enc : A → list Z) (l : list A) :
  (∀ x, 0 < zlen (enc x)) → zlen l ≤ zlen (concat (map enc l)).
Proof.
  intros He. induction l as [|x l IH]; [done|]. cbn [map concat]. rewrite zlen_app. specialize (He x).
  unfold zlen in *. simpl. lia.
Qed.
Lemma dirs_len ds : zlen ds ≤ zlen (encode_dirs ds).
Proof.
  unfold encode_dirs. rewrite zlen_app. change (zlen [0]) with 1. etrans; [|apply Z.le_succ_diag_r].
  apply concat_len. intros d. rewrite zlen_app. pose proof (zlen_nonneg d). change (zlen [0]) with 1. lia.
Qed.
Lemma files_len fs : zlen fs ≤ zlen (encode_files fs).
Proof.
  unfold encode_files. rewrite zlen_app. change (zlen [0]) with 1. etrans; [|apply Z.le_succ_diag_r].
  apply concat_len. intros f. unfold encode_file. rewrite zlen_app. pose proof (zlen_nonneg (file f)).
  unfold zlen. simpl. lia.
Qed.

Lemma s8_byte x : - 128 ≤ x < 128 → s8 (x mod 256) = x.
Proof. intros. unfold s8, wrap. change (2 ^ 8) with 256. change (2 ^ 7) with 128. zdiv. Qed.

Lemma parse_header_ok h data p :
  seg data p (encode_header h) → encodable h → zlen data ≤ 2 ^ 32 →
  parse_entry_header data p = Ok (seen_header h, zlen (encode_header h)).
Proof.
  intros Hs (Htot & Hver & Hpro & Hlens & Hlb & Hdirs & Hfiles) Hd.
  pose proof Hs as Hs0. unfold encode_header in Hs.
  set (mx := if version h =? 4 then [maximum_operations_per_instruction h] else []) in *.
  apply seg_app in Hs as [H1 Hs]. apply seg_app in Hs as [H2 Hs]. apply seg_app in Hs as [H3 Hs].
  apply seg_app in Hs as [H4 Hs]. apply seg_app in Hs as [H5 Hs]. apply seg_app in Hs as [H6 Hs].
  apply seg_app in Hs as [H7 Hs]. apply seg_app in Hs as [H8 H9].
  rewrite !le_bytes_len in *. change (zlen [minimum_instruction_length h]) with 1 in *.
  change (zlen [default_is_stmt h; line_base h mod 256; line_range h; opcode_base h]) with 4 in *.
  change (Z.of_nat 4) with 4 in *. change (Z.of_nat 2) with 2 in *.
  assert (Hmx : zlen mx = if version h =? 4 then 1 else 0) by (unfold mx; by destruct (version h =? 4)).
  assert (Hlen : zlen (encode_header h) = 11 + zlen mx + 4 + zlen (standard_opcode_lengths h) +
    zlen (encode_dirs (include_directories h)) + zlen (encode_files (file_names h))).
  { unfold encode_header. fold mx. rewrite !zlen_app, !le_bytes_len.
    change (zlen [minimum_instruction_length h]) with 1.
    change (zlen [default_is_stmt h; line_base h mod 256; line_range h; opcode_base h]) with 4. lia. }
  pose proof (seg_range _ _ _ Hs0) as Hr. destruct Hs0 as [Hp _].
  assert (Hcnt : zlen (encode_header h) ≤ zlen data).
  { destruct (encode_header h) eqn:E; [unfold zlen at 1; simpl; apply zlen_nonneg|]. specialize (Hr ltac:(done)). lia. }
  pose proof (dirs_len (include_directories h)) as Hnd. pose proof (files_len (file_names h)) as Hnf.
  pose proof (zlen_nonneg (standard_opcode_lengths h)) as Hl0. pose proof (zlen_nonneg mx) as Hm0.
  pose proof (zlen_nonneg (include_directories h)) as Hi0. pose proof (zlen_nonneg (file_names h)) as Hf0.
  apply seg_cons in H4 as [H4 _]. apply seg_cons in H6 as [H6a H6]. apply seg_cons in H6 as [H6b H6].
  apply seg_cons in H6 as [H6c H6]. apply seg_cons in H6 as [H6d _].
  unfold parse_entry_header, elf_get_data8.
  rewrite (seg_data32 _ _ _ H1) by (done || lia). cbn [mbind outcome_bind].
  rewrite (seg_data16 _ _ _ H2) by (done || lia). cbn [mbind outcome_bind].
  rewrite (seg_data32 data (p + 6) (prologue_length h)) by (done || lia || (apply (seg_move _ _ _ _ H3); lia)).
  cbn [mbind outcome_bind]. replace (p + 10) with (p + 4 + 2 + 4) by lia. rewrite H4. cbn [mbind outcome_bind].
  assert (Hmax : (if version h =? ELF_DWARF_VERSION_4 then m ← elf_byte data (p + 11); Ok (m, 12) else Ok (0, 11)) =
    Ok ((if version h =? 4 then maximum_operations_per_instruction h else 0), 11 + zlen mx)).
  { unfold ELF_DWARF_VERSION_4, mx in *. destruct (version h =? 4); [|done].
    apply seg_cons in H5 as [H5 _]. replace (p + 11) with (p + 4 + 2 + 4 + 1) by lia. by rewrite H5. }
  rewrite Hmax. cbn [mbind outcome_bind].
  replace (p + (11 + zlen mx)) with (p + 4 + 2 + 4 + 1 + zlen mx) by lia.
  rewrite H6a, H6b. cbn [mbind outcome_bind].
  replace (p + 4 + 2 + 4 + 1 + zlen mx + 2) with (p + 4 + 2 + 4 + 1 + zlen mx + 1 + 1) by lia. rewrite H6c. cbn [mbind outcome_bind].
  replace (p + 4 + 2 + 4 + 1 + zlen mx + 3) with (p + 4 + 2 + 4 + 1 + zlen mx + 1 + 1 + 1) by lia. rewrite H6d. cbn [mbind outcome_bind].
  rewrite <- Hlens. replace (Z.to_nat (zlen (standard_opcode_lengths h))) with (length (standard_opcode_lengths h)) by (unfold zlen; lia).
  rewrite read_lengths_ok by (apply (seg_move _ _ _ _ H7); lia). cbn [mbind outcome_bind].
  rewrite (read_dirs_ok (include_directories h)); [|apply (seg_move _ _ _ _ H8); lia|done|unfold zlen in *; lia].
  cbn [mbind outcome_bind].
  rewrite (read_files_ok (file_names h)); [|apply (seg_move _ _ _ _ H9); lia|done|unfold zlen in *; lia].
  cbn [mbind outcome_bind]. rewrite s8_byte by done. unfold seen_header. do 2 f_equal. rewrite Hlen. lia.
Qed.

(** A unit as a producer writes it: the header with the length of the unit, then the program. *)
Record line_unit := mkUnit { u_header : ElfDwarfLineEntryHeaderType; u_ops : list line_op }.
Definition encode_unit (u : line_unit) : list Z := encode_header (u_header u) ++ encode_ops (u_ops u).
Definition encode_units (us : list line_unit) : list Z := concat (map encode_unit us).
Definition unit_wf (u : line_unit) : Prop :=
  encodable (u_header u) ∧ header_ok (u_header u) ∧ Forall (op_wf (u_header u)) (u_ops u) ∧
  total_length (u_header u) = zlen (encode_unit u) - 4.
(** The rows of a unit by the standard, less those that mark the end of a sequence. *)
Definition unit_rows (u : line_unit) : list KeyValueMappingType :=
  map (row_mapping (u_header u)) (std_rows (u_header u) (u_ops u) regs_init).

Lemma zlen_map {A B} (f : A → B) l : zlen (map f l) = zlen l.
Proof. unfold zlen. by rewrite length_map. Qed.

Lemma seen_header_ok h : header_ok h → header_ok (seen_header h).
Proof.
  intros (? & ? & ? & ? & ? & Hall). unfold header_ok. cbn. rewrite zlen_map. split_and!; try lia.
  apply Forall_map. exact Hall.
Qed.
Lemma seen_op_wf h op : op_wf h op → op_wf (seen_header h) op.
Proof. destruct op; cbn; rewrite ?zlen_map; auto. Qed.
Lemma seen_row h r : row_mapping (seen_header h) r = row_mapping h r.
Proof.
  assert (Hf : row_file (seen_header h) r = seen_file (row_file h r)).
  { unfold row_file, zget. cbn. split_if; [done|]. rewrite list_lookup_fmap. by destruct (_ !! _). }
  unfold row_mapping, row_dir. by rewrite Hf.
Qed.

Definition loaded_unit (u : line_unit) : ElfDwarfLineEntryType :=
  mkLineEntry (seen_header (u_header u)) (map (parsed (seen_header (u_header u))) (u_ops u)).

Lemma encode_unit_len u : 0 < zlen (encode_unit u).
Proof. unfold encode_unit, encode_header. unfold zlen. simpl. lia. Qed.

Lemma load_units_ok us fuel cur data sect :
  Forall unit_wf us → zlen data ≤ 2 ^ 32 → seg data (sect + cur) (encode_units us) → (length us < fuel)%nat →
  load_units fuel cur (cur + zlen (encode_units us)) data sect = Ok (map loaded_unit us).
Proof.
  intros Hus Hd. revert fuel cur. induction Hus as [|u us (Henc & Hh & Hops & Htot) _ IH]; intros fuel cur Hs Hf;
    (destruct fuel as [|fuel]; [simpl in Hf; lia|]); cbn [load_units].
  - change (zlen (encode_units [])) with 0. by replace (cur <? cur + 0) with false by lia.
  - change (encode_units (u :: us)) with (encode_unit u ++ encode_units us) in *. rewrite zlen_app.
    apply seg_app in Hs as [Hu Hs]. pose proof (encode_unit_len u). pose proof (zlen_nonneg (encode_units us)).
    replace (cur <? _) with true by lia. pose proof Hu as Hu0. apply seg_app in Hu as [Hhd Hprog].
    rewrite (parse_header_ok _ _ _ Hhd Henc Hd). cbn [mbind outcome_bind].
    pose proof Henc as (Ht & _).
    assert (Hsplit : zlen (encode_unit u) = zlen (encode_header (u_header u)) + zlen (encode_ops (u_ops u))) by apply zlen_app.
    rewrite (parse_ops_ok (seen_header (u_header u)) (u_ops u)); cbn [total_length seen_header].
    + cbn [mbind outcome_bind]. replace (total_length (u_header u) + 4) with (zlen (encode_unit u)) by lia.
      replace (cur + (zlen (encode_unit u) + zlen (encode_units us))) with
        (cur + zlen (encode_unit u) + zlen (encode_units us)) by lia.
      rewrite IH; [done|by rewrite Z.add_assoc|simpl in Hf; lia].
    + by apply seen_header_ok.
    + eapply Forall_impl; [exact Hops|]. intros op. apply seen_op_wf.
    + done.
    + done.
    + assert (zlen (u_ops u) ≤ zlen (encode_ops (u_ops u))) by (apply concat_len, encode_op_len).
      pose proof (seg_range _ _ _ Hu0). assert (encode_unit u ≠ []) by (intros E; rewrite E in *; done).
      specialize (H2 ltac:(done)). destruct Hu0 as [? _]. pose proof (zlen_nonneg (encode_header (u_header u))).
      unfold zlen in *. lia.
    + lia.
    + apply wrap_id. unfold in_width. lia.
Qed.

Lemma build_units_ok us maps :
  Forall unit_wf us → build_units (map loaded_unit us) maps = Ok (maps ++ concat (map unit_rows us)).
Proof.
  intros Hus. revert maps. induction Hus as [|u us (Henc & Hh & Hops & _) _ IH]; intros maps.
  { cbn. by rewrite app_nil_r. }
  cbn [map build_units loaded_unit header ops].
  rewrite (build_ops_ok (seen_header (u_header u))).
  - cbn [mbind outcome_bind]. rewrite IH. cbn [concat]. rewrite <- app_assoc. do 2 f_equal. f_equal.
    unfold unit_rows. apply map_ext. intros r. apply seen_row.
  - by apply seen_header_ok.
  - eapply Forall_impl; [exact Hops|]. intros op. apply seen_op_wf.
  - destruct Hh as (_ & _ & _ & _ & ? & _). unfold regs_wf. cbn. rewrite zlen_map. lia.
Qed.


(** ** The nearest row *)

(** [m] is the first entry with the greatest address not above [addr]. *)
Definition nearest (addr : Z) (maps : list KeyValueMappingType) (m : KeyValueMappingType) : Prop :=
  ∃ pre post, maps = pre ++ m :: post ∧ k_addr m ≤ addr ∧
    Forall (λ m', addr < k_addr m' ∨ k_addr m' < k_addr m) pre ∧
    Forall (λ m', addr < k_addr m' ∨ k_addr m' ≤ k_addr m) post.

Lemma nearest_skip addr maps m x :
  nearest addr maps m → addr < k_addr x ∨ k_addr x ≤ k_addr m → nearest addr (maps ++ [x]) m.
Proof.
  intros (pre & post & -> & ? & ? & ?) Hx. exists pre, (post ++ [x]). rewrite <- app_assoc.
  split_and!; try done. apply Forall_app. split; [done|]. by constructor.
Qed.

Lemma nearest_bound addr maps m : nearest addr maps m → Forall (λ m', addr < k_addr m' ∨ k_addr m' ≤ k_addr m) maps.
Proof.
  intros (pre & post & -> & ? & Hpre & ?). apply Forall_app. split.
  - eapply Forall_impl; [exact Hpre|]. intros ? [|]; [by left|right; lia].
  - constructor; [by right|done].
Qed.

Lemma nearest_new addr maps x :
  k_addr x ≤ addr → Forall (λ m', addr < k_addr m' ∨ k_addr m' < k_addr x) maps → nearest addr (maps ++ [x]) x.
Proof. intros. exists maps, []. by split_and!. Qed.

Lemma nearest_exact addr pre x post :
  k_addr x = addr → Forall (λ m', addr < k_addr m' ∨ k_addr m' < addr) pre →
  nearest addr (pre ++ x :: post) x.
Proof.
  intros Hx Hpre. exists pre, post. split_and!; [done|lia|by rewrite Hx|].
  apply Forall_forall. intros m' _. lia.
Qed.

Lemma scan_nearest_ok addr maps last min pre :
  addr < 2 ^ 32 - 1 → Forall (λ m, 0 ≤ k_addr m) maps → Forall (λ m', k_addr m' ≠ addr) pre →
  match last with
  | Some m => nearest addr pre m ∧ min = addr - k_addr m
  | None => Forall (λ m, addr < k_addr m) pre ∧ min = 2 ^ 32 - 1
  end →
  match scan_nearest addr maps last min with
  | (STD_E_OK, Some v) => ∃ m, nearest addr (pre ++ maps) m ∧ k_value m = v
  | (STD_E_NOENT, None) => Forall (λ m, addr < k_addr m) (pre ++ maps)
  | _ => False
  end.
Proof.
  intros Ha Hk. revert last min pre. induction Hk as [|x maps Hx _ IH]; intros last min pre Hne Hl; cbn [scan_nearest].
  { rewrite app_nil_r. destruct last as [m|]; [destruct Hl; eauto|by destruct Hl]. }
  assert (Hass : pre ++ x :: maps = (pre ++ [x]) ++ maps) by (by rewrite <- app_assoc). rewrite Hass.
  assert (Hne' : k_addr x ≠ addr → Forall (λ m', k_addr m' ≠ addr) (pre ++ [x])).
  { intros. apply Forall_app. split; [done|]. by constructor. }
  destruct (Z.ltb_spec (k_addr x) addr) as [Hlt|Hge]; [|destruct (Z.eqb_spec addr (k_addr x)) as [Heq|Hneq]].
  - destruct (Z.ltb_spec (addr - k_addr x) min) as [Hm|Hm]; (apply IH; [apply Hne'; lia|]).
    + split; [|done]. apply nearest_new; [lia|]. destruct last as [m|]; destruct Hl as [Hn ->].
      * eapply Forall_impl; [exact (nearest_bound _ _ _ Hn)|]. intros m'. cbn. lia.
      * eapply Forall_impl; [exact Hn|]. intros m'. cbn. lia.
    + destruct last as [m|]; destruct Hl as [Hn ->]; [|lia]. split; [|done]. apply nearest_skip; [done|lia].
  - exists x. split; [|done]. rewrite <- Hass. apply nearest_exact; [done|].
    eapply Forall_impl; [exact Hne|]. intros m'. cbn. lia.
  - apply IH; [apply Hne'; lia|]. destruct last as [m|]; destruct Hl as [Hn ->]; (split; [|done]).
    + apply nearest_skip; [done|lia].
    + apply Forall_app. split; [done|]. constructor; [lia|done].
Qed.

(** The line of an address: the map answers with the first row of the greatest address not
    above it, and with [STD_E_NOENT] exactly when every row lies above it. *)
Theorem file_address_mapping_get_nearest addr maps :
  addr < 2 ^ 32 - 1 → Forall (λ m, 0 ≤ k_addr m) maps →
  match file_address_mapping_get addr maps with
  | (STD_E_OK, Some v) => ∃ m, nearest addr maps m ∧ k_value m = v
  | (STD_E_NOENT, None) => Forall (λ m, addr < k_addr m) maps
  | _ => False
  end.
Proof. intros Ha Hk. by apply (scan_nearest_ok addr maps None (2 ^ 32 - 1) []). Qed.

(** The address of a line: the first row of that file and line. *)
Lemma get_addr_ok f line maps :
  Forall (λ c, c ≠ 0) f → Forall (λ m, Forall (λ c, c ≠ 0) (v_file (k_value m))) maps →
  match file_address_mapping_get_addr f line maps with
  | (STD_E_OK, Some a) => ∃ m, m ∈ maps ∧ k_addr m = a ∧ v_file (k_value m) = f ∧ v_line (k_value m) = line
  | (STD_E_NOENT, None) => Forall (λ m, v_file (k_value m) ≠ f ∨ v_line (k_value m) ≠ line) maps
  | _ => False
  end.
Proof.
  intros Hf Hall. induction Hall as [|m maps Hm _ IH]; [by constructor|]. cbn [file_address_mapping_get_addr].
  assert (Hskip : v_file (k_value m) ≠ f ∨ v_line (k_value m) ≠ line →
    match file_address_mapping_get_addr f line maps with
    | (STD_E_OK, Some a) => ∃ m', m' ∈ m :: maps ∧ k_addr m' = a ∧ v_file (k_value m') = f ∧ v_line (k_value m') = line
    | (STD_E_NOENT, None) => Forall (λ m, v_file (k_value m) ≠ f ∨ v_line (k_value m) ≠ line) (m :: maps)
    | _ => False
    end).
  { intros Hne. destruct (file_address_mapping_get_addr f line maps) as [[] [a|]]; try done; [|by constructor].
    destruct IH as (m' & ? & ?). exists m'. split; [by apply list_elem_of_further|done]. }
  destruct (Z.eqb_spec (zlen f) (zlen (v_file (k_value m)))) as [Hl|Hl]; cbn [negb]; [|apply Hskip; left; congruence].
  destruct (Z.eqb_spec line (v_line (k_value m))) as [Hln|Hln]; cbn [negb]; [|apply Hskip; right; congruence].
  destruct (strncmp_eq (length f) f (v_file (k_value m))) eqn:Ec.
  - apply (strncmp_eq_spec f (v_file (k_value m))) in Ec as [Ht _]; [|done|unfold zlen in Hl; lia].
    rewrite take_ge in Ht by lia. exists m. split_and!; [apply list_elem_of_here|done|done|done].
  - apply Hskip. left. intros Heq.
    assert (strncmp_eq (length f) f (v_file (k_value m)) = true); [|congruence].
    apply strncmp_eq_spec; [done|unfold zlen in Hl; lia|]. rewrite take_ge by lia. by rewrite Heq.
Qed.

(** ** A file with one unit *)

Module LineDemo.
Definition hdr (total : Z) : ElfDwarfLineEntryHeaderType :=
  mkLineHeader total 2 37 2 0 1 (-5) 14 10 [0; 1; 1; 1; 1; 0; 0; 0; 1] [str_of "src"]
    [mkFile (str_of "main.c") 1 1500000000 100; mkFile (str_of "a.h") 0 0 0].
Definition prog : list line_op :=
  [LSetAddress 0x1000; LAdvanceLine 9; LCopy; LSpecial 33; LSetFile 2; LAdvancePc 6; LConstAddPc; LAdvanceLine (-3);
   LCopy; LEndSequence].
Definition unit : line_unit := mkUnit (hdr (zlen (encode_unit (mkUnit (hdr 0) prog)) - 4)) prog.
Definition bytes : list Z := encode_units [unit].
Definition image : list Z :=
  SectionDemo.ehdr32 (84 + zlen bytes) 3 ++ SectionDemo.names ++ bytes ++
  SectionDemo.shdr32 0 0 0 0 0 0 ++ SectionDemo.shdr32 0 3 52 32 0 0 ++ SectionDemo.shdr32 12 1 84 (zlen bytes) 0 0.
Definition loaded : elf_statics := mkElfStatics None 0 0 None 0 (Some 52) false None 0 None.

Lemma unit_ok : unit_wf unit.
Proof.
  split_and!.
  - unfold encodable. split_and!; try done; repeat constructor; try done.
  - unfold header_ok. split_and!; try done. repeat constructor; done.
  - repeat constructor; done.
  - by vm_compute.
Qed.


(** The rows: the instruction at 0x1000 belongs to line 10 of main.c, the one at 0x1002 to line 14, the
    last to the header file. *)
Example rows : map (λ m, (k_addr m, v_line (k_value m), v_file (k_value m))) (unit_rows unit) =
  [(0x1000, 10, str_of "main.c"); (0x1002, 14, str_of "main.c"); (0x1030, 11, str_of "a.h")].
Proof. by vm_compute. Qed.

(** With the opcode base 13 of DWARF 3 and 4, opcode 10 is [DW_LNS_set_prologue_end] and adds no
    row; the program takes it for a special opcode and steps eight lines back. *)
Definition hdr13 : ElfDwarfLineEntryHeaderType :=
  mkLineHeader 0 4 0 1 1 1 (-5) 14 13 [0; 1; 1; 1; 1; 0; 0; 0; 1; 0; 0; 1] [] [mkFile (str_of "main.c") 0 0 0].
Lemma prologue_end_is_special :
  (op ← parse_opcode hdr13 [10] 0;
   build_ops hdr13 [op] (at_line 20 (elf_dwarf_line_init_ElfDwarfLineStateMachineRegister hdr13)) []) =
  Ok [mkMapping 0 (mkValue (str_of ".") (str_of "main.c") 12)].
Proof. by vm_compute. Qed.

(** [DW_LNS_fixed_advance_pc] is scaled by the instruction length. *)
Lemma fixed_advance_is_scaled :
  parse_opcode (hdr 0) [9; 16; 0] 0 = Ok (mkLineOp 3 OPTYPE_STANDARD 9 (stdFixedAdvancePc 32)).
Proof. by vm_compute. Qed.

(** The sequence of [prog_after] ends at 0x1004, a row the map has not: whatever lies behind it is
    said to belong to the last line. *)
Definition prog_after : list line_op := [LSetAddress 0x1000; LAdvanceLine 9; LCopy; LAdvancePc 2; LEndSequence].
Lemma address_behind_sequence :
  std_matrix (hdr 0) prog_after regs_init = [(mkRegs 0x1000 1 10, false); (mkRegs 0x1004 1 10, true)] ∧
  file_address_mapping_get 0x5000 (map (row_mapping (hdr 0)) (std_rows (hdr 0) prog_after regs_init)) =
    (STD_E_OK, Some (mkValue (str_of "src") (str_of "main.c") 10)).
Proof. by vm_compute. Qed.

Lemma nearest_witness :
  match file_address_mapping_get 0x1004 (unit_rows unit) with
  | (STD_E_OK, Some v) => ∃ m, nearest 0x1004 (unit_rows unit) m ∧ k_value m = v
  | (STD_E_NOENT, None) => Forall (λ m, 0x1004 < k_addr m) (unit_rows unit)
  | _ => False
  end.
Proof. apply file_address_mapping_get_nearest; [done|]. repeat constructor; vm_compute; discriminate. Defined.
End LineDemo.
