(* ===== verification/DwarfInfo.v ===== *)
(** * The DWARF entries and location lists

    [src/src/lib/dwarf/elf_dwarf_abbrev.c]: the abbreviations of [.debug_abbrev], the shapes of
    the entries; [elf_dwarf_info.c]: the entries (DIEs) of [.debug_info] and their attributes;
    [elf_dwarf_info_ops.c]: the stack on which the location of a member is computed;
    [elf_dwarf_loc.c]: the location lists of [.debug_loc].

    A pointer into a section is an offset into the image of the whole file, as in [DwarfLine].
    An entry is changed after it is stored (its children are appended), so entries live in a
    store, [die_store], and a pointer to one is its index there.  Images are smaller than
    4 GiB, so that a counter that follows the bytes of a section does not wrap; a counter to
    which the file adds a length of its own is kept at its width. *)

From Stdlib Require Import String Ascii.
From S2P Require Import Prelude Token ElfImageCheck ElfSection DwarfLine.
Open Scope Z_scope.

(** [".debug_abbrev"], [".debug_str"] and [".debug_loc"]. *)
Definition SECTION_DWARF_ABBREV_NAME : list Z := str_of ".debug_abbrev".
Definition SECTION_DWARF_STR_NAME : list Z := str_of ".debug_str".
Definition SECTION_DWARF_LOC_NAME : list Z := str_of ".debug_loc".

(** ** Abbreviations *)

Record ElfDwarfAbbrevType := mkAbbrev {
  ab_index : Z; ab_offset : Z; ab_code : Z; ab_tag : Z; ab_child : Z;
  attribute_name : list Z; attribute_form : list Z;
}.

(** The attributes of an abbreviation up to and with the pair whose name is 0.  Every round
    reads at least two bytes of the image: running out of fuel, one more than the image has
    bytes, stands for leaving the image, here and in [read_abbrevs]. *)
Fixpoint read_abbrev_attrs (fuel : nat) (cur : Z) (data : list Z) (sect : Z)
    : outcome (list Z * list Z * Z) :=
  match fuel with
  | O => Fault OutOfBounds
  | S fuel' =>
      '(attr_name, size) ← elf_dwarf_decode_uleb128 data (sect + cur);
      let cur := cur + size in
      '(attr_form, size) ← elf_dwarf_decode_uleb128 data (sect + cur);
      let cur := cur + size in
      if negb (attr_name =? 0) then
        '(ns, fs, cur) ← read_abbrev_attrs fuel' cur data sect;
        Ok (attr_name :: ns, attr_form :: fs, cur)
      else Ok ([attr_name], [attr_form], cur)
  end.

Fixpoint read_abbrevs (fuel : nat) (current_size section_size index : Z) (data : list Z) (sect : Z)
    : outcome (list ElfDwarfAbbrevType) :=
  match fuel with
  | O => Fault OutOfBounds
  | S fuel' =>
      if current_size <? section_size then
        '(code, entry_size) ← elf_dwarf_decode_uleb128 data (sect + current_size);
        if code =? 0 then read_abbrevs fuel' (current_size + entry_size) section_size index data sect
        else
          let cur := current_size + entry_size in
          '(tag, entry_size) ← elf_dwarf_decode_uleb128 data (sect + cur);
          let cur := cur + entry_size in
          child ← elf_byte data (sect + cur);
          let cur := cur + 1 in
          '(ns, fs, cur) ← read_abbrev_attrs (S (length data)) cur data sect;
          es ← read_abbrevs fuel' cur section_size (index + 1) data sect;
          Ok (mkAbbrev index current_size code tag child ns fs :: es)
      else Ok []
  end.

(** The static variable [elf_dwarf_abbrev_array]: [None] is NULL. *)
Definition elf_dwarf_abbrev_load (data : list Z) (st : elf_statics) (arr : option (list ElfDwarfAbbrevType))
    : outcome (Std_ReturnType * option (list ElfDwarfAbbrevType)) :=
  '(err, s) ← elf_section_get data SECTION_DWARF_ABBREV_NAME st;
  match s with
  | Some (sect, section_size) =>
      if std_ok err then
        es ← read_abbrevs (S (length data)) 0 (u32 section_size) 0 data sect; Ok (STD_E_OK, Some es)
      else Ok (err, arr)
  | None => Ok (err, arr)
  end.

Definition elf_dwarf_abbrev_get (arr : list ElfDwarfAbbrevType) (offset : Z) : option ElfDwarfAbbrevType :=
  List.find (λ e, ab_offset e =? offset) arr.

(** The abbreviations of one unit end where the codes stop growing. *)
Fixpoint get_from_code (l : list ElfDwarfAbbrevType) (last_code code : Z) : option ElfDwarfAbbrevType :=
  match l with
  | [] => None
  | entry :: l' =>
      if ab_code entry <=? last_code then None
      else if ab_code entry =? code then Some entry
      else get_from_code l' (ab_code entry) code
  end.
Definition elf_dwarf_abbrev_get_from_code (arr : list ElfDwarfAbbrevType) (top : ElfDwarfAbbrevType) (code : Z)
    : option ElfDwarfAbbrevType :=
  get_from_code (drop (Z.to_nat (ab_index top)) arr) 0 code.

Definition elf_dwarf_abbrev_next (arr : list ElfDwarfAbbrevType) (current : ElfDwarfAbbrevType)
    : outcome (option ElfDwarfAbbrevType) :=
  if u32 (zlen arr - 1) <=? ab_index current then Ok None
  else e ← oob (zget arr (ab_index current + 1)); Ok (Some e).

(** ** Forms and attributes *)

Definition DW_FORM_none : Z := 0.
Definition DW_FORM_addr : Z := 1.
Definition DW_FORM_block2 : Z := 3.
Definition DW_FORM_block4 : Z := 4.
Definition DW_FORM_data2 : Z := 5.
Definition DW_FORM_data4 : Z := 6.
Definition DW_FORM_data8 : Z := 7.
Definition DW_FORM_string : Z := 8.
Definition DW_FORM_block1 : Z := 10.
Definition DW_FORM_data1 : Z := 11.
Definition DW_FORM_flag : Z := 12.
Definition DW_FORM_sdata : Z := 13.
Definition DW_FORM_strp : Z := 14.
Definition DW_FORM_udata : Z := 15.
Definition DW_FORM_ref1 : Z := 17.
Definition DW_FORM_ref2 : Z := 18.
Definition DW_FORM_ref4 : Z := 19.
Definition DW_FORM_ref8 : Z := 20.
Definition DW_FORM_sec_offset : Z := 23.
Definition DW_FORM_exprloc : Z := 24.
Definition DW_FORM_flag_present : Z := 25.

(** The union [encoded].  The memory is zeroed before a member is written, so that the
    integer members are the low bits of one 64-bit value; [EString] holds a pointer to text
    and [EOp] a length and a pointer to operations. *)
Inductive attr_encoded :=
  | ENum (bits : Z)
  | EString (p : Z)
  | EOp (len ops : Z).

(** Reading the members: [len] lies where the integers do; the value of a pointer read as an
    integer, or of an integer read as a pointer other than NULL, is not known. *)
Definition enc_num (w : Z) (e : attr_encoded) : outcome Z :=
  match e with
  | ENum b => Ok (wrap w b)
  | EOp len _ => Ok (wrap w len)
  | EString _ => Fault OutOfBounds
  end.
Definition enc_string (e : attr_encoded) : outcome (option Z) :=
  match e with
  | EString p => Ok (Some p)
  | ENum b => if b =? 0 then Ok None else Fault OutOfBounds
  | EOp len _ => if len =? 0 then Ok None else Fault OutOfBounds
  end.
Definition enc_ops (e : attr_encoded) : outcome Z :=
  match e with EOp _ ops => Ok ops | _ => Fault NullDeref end.

Record ElfDwarfAttributeType := mkAttr {
  at_type : Z; at_offset : Z; at_size : Z; at_typename : list Z; encoded : attr_encoded }.

Record ElfDwarfCompilationUnitHeaderType := mkCu {
  cu_offset : Z; cu_length : Z; cu_version : Z; abbrev_offset : Z; pointer_size : Z; dies : list nat }.

Section parse.
(** [debug_str] is the static pointer to the strings of the file. *)
Context (debug_str : Z).

(** The value, the name of the form and the size. *)
Definition elf_dwarf_info_parse_attr (cu : ElfDwarfCompilationUnitHeaderType) (data : list Z) (addr form : Z)
    : outcome (option (attr_encoded * list Z) * Z) :=
  let num x name size := Ok (Some (ENum x, str_of name), size) in
  if form =? DW_FORM_none then Ok (None, 0)
  else if form =? DW_FORM_addr then
    x ← elf_get_data32 data addr; num x "DW_FORM_addr"%string (pointer_size cu)
  else if form =? DW_FORM_block1 then
    len ← elf_get_data8 data addr; Ok (Some (EOp len (addr + 1), str_of "DW_FORM_block1"), u32 (len + 1))
  else if form =? DW_FORM_block2 then
    len ← elf_get_data16 data addr; Ok (Some (EOp len (addr + 2), str_of "DW_FORM_block2"), u32 (len + 2))
  else if form =? DW_FORM_block4 then
    len ← elf_get_data32 data addr; Ok (Some (EOp len (addr + 4), str_of "DW_FORM_block4"), u32 (len + 4))
  else if form =? DW_FORM_data1 then x ← elf_get_data8 data addr; num x "DW_FORM_data1"%string 1
  else if form =? DW_FORM_data2 then x ← elf_get_data16 data addr; num x "DW_FORM_data2"%string 2
  else if form =? DW_FORM_data4 then x ← elf_get_data32 data addr; num x "DW_FORM_data4"%string 4
  else if form =? DW_FORM_data8 then x ← elf_get_data64 data addr; num x "DW_FORM_data8"%string 8
  else if form =? DW_FORM_sdata then
    '(x, size) ← elf_dwarf_decode_sleb128 data addr; num (u64 x) "DW_FORM_sdata"%string size
  else if form =? DW_FORM_udata then
    '(x, size) ← elf_dwarf_decode_uleb128 data addr; num x "DW_FORM_udata"%string size
  else if form =? DW_FORM_string then
    s ← cstr_at data addr; Ok (Some (EString addr, str_of "DW_FORM_string"), u32 (zlen s + 1))
  else if form =? DW_FORM_strp then
    off ← elf_get_data32 data addr; Ok (Some (EString (debug_str + off), str_of "DW_FORM_strp"), 4)
  else if form =? DW_FORM_flag then x ← elf_byte data addr; num x "DW_FORM_flag"%string 1
  else if form =? DW_FORM_ref1 then
    x ← elf_get_data8 data addr; num (u8 (x + cu_offset cu)) "DW_FORM_ref1"%string 1
  else if form =? DW_FORM_ref2 then
    x ← elf_get_data16 data addr; num (u16 (x + cu_offset cu)) "DW_FORM_ref2"%string 2
  else if form =? DW_FORM_ref4 then
    x ← elf_get_data32 data addr; num (u32 (x + cu_offset cu)) "DW_FORM_ref4"%string 4
  else if form =? DW_FORM_ref8 then
    x ← elf_get_data64 data addr; num (u64 (x + cu_offset cu)) "DW_FORM_ref8"%string 8
  else if form =? DW_FORM_sec_offset then x ← elf_get_data32 data addr; num x "DW_FORM_sec_offset"%string 4
  else if form =? DW_FORM_exprloc then
    '(len, size) ← elf_dwarf_decode_uleb128 data addr;
    Ok (Some (EOp len (addr + size), str_of "DW_FORM_exprloc"), u32 (size + len))
  else if form =? DW_FORM_flag_present then num 1 "DW_FORM_flag_present"%string 0
  else Fault AssertFail.

(** The attributes of an entry from [entry_size] of its unit on; a form without a value adds
    no attribute. *)
Fixpoint parse_attrs (cu : ElfDwarfCompilationUnitHeaderType) (data : list Z) (sect : Z) (forms : list Z) (entry_size : Z)
    : outcome (list ElfDwarfAttributeType * Z) :=
  match forms with
  | [] => Ok ([], entry_size)
  | form :: forms' =>
      '(obj, size) ← elf_dwarf_info_parse_attr cu data (sect + u32 (cu_offset cu + entry_size)) form;
      '(attrs, after) ← parse_attrs cu data sect forms' (u32 (entry_size + size));
      Ok (match obj with
          | Some (e, name) => mkAttr form (u32 (cu_offset cu + entry_size)) size name e :: attrs
          | None => attrs
          end, after)
  end.
End parse.

(** ** Entries *)

Record ElfDwarfDieType := mkDie {
  d_offset : Z; abbrev_code : Z; abbrev_info : ElfDwarfAbbrevType; attribute : list ElfDwarfAttributeType;
  level : Z; parent : option nat; children : option (list nat);
}.

Definition with_child (this : nat) (d : ElfDwarfDieType) : outcome ElfDwarfDieType :=
  match children d with
  | None => Fault NullDeref
  | Some l => Ok (mkDie (d_offset d) (abbrev_code d) (abbrev_info d) (attribute d) (level d) (parent d) (Some (l ++ [this])))
  end.

(** The local variables of the loop over the entries: the store, the entry read last, the
    entry whose children are read, the depth and the entries of the unit. *)
Record die_walk := mkWalk {
  w_store : list ElfDwarfDieType; w_die : option nat; w_parent : option nat; w_level : Z; w_dies : list nat }.

(** An entry with code 0 ends a list of children. *)
Definition close_children (w : die_walk) : outcome die_walk :=
  p ← match w_die w with
      | Some i => d ← oob (w_store w !! i); Ok (parent d)
      | None => Ok (w_parent w)
      end;
  Ok (mkWalk (w_store w) (w_die w) p (u32 (w_level w - 1)) (w_dies w)).

(** Appends an entry; [offset] is where it starts. *)
Definition append_die (offset code : Z) (entry : ElfDwarfAbbrevType) (attrs : list ElfDwarfAttributeType) (w : die_walk)
    : outcome die_walk :=
  let this := length (w_store w) in
  store ← match w_parent w with
          | Some p => d ← oob (w_store w !! p); d ← with_child this d; Ok (<[p := d]> (w_store w))
          | None => Ok (w_store w)
          end;
  let has_children := ab_child entry =? 1 in
  Ok (mkWalk
        (store ++ [mkDie offset code entry attrs (w_level w) (w_parent w) (if has_children then Some [] else None)])
        (Some this)
        (if has_children then Some this else w_parent w)
        (if has_children then u32 (w_level w + 1) else w_level w)
        (w_dies w ++ [this])).

(** The entries of a unit.  A round starts at a byte of the image and what follows depends on
    that byte alone, so that after more rounds than the image has bytes the loop has come
    back to an entry (over a block whose length makes [entry_size] wrap) and goes round until
    the allocation of entries fails: that is the [AssertFail] of the fuel. *)
Fixpoint read_dies (fuel : nat) (debug_str : Z) (arr : list ElfDwarfAbbrevType) (top : ElfDwarfAbbrevType)
    (cu : ElfDwarfCompilationUnitHeaderType) (data : list Z) (sect entry_size : Z) (w : die_walk)
    : outcome (Z * die_walk) :=
  match fuel with
  | O => Fault AssertFail
  | S fuel' =>
      if entry_size <? u32 (cu_length cu + 4) then
        '(code, size) ← elf_dwarf_decode_uleb128 data (sect + u32 (cu_offset cu + entry_size));
        let start := u32 (cu_offset cu + entry_size) in
        let entry_size := u32 (entry_size + size) in
        if code =? 0 then
          w ← close_children w;
          read_dies fuel' debug_str arr top cu data sect entry_size w
        else
          match elf_dwarf_abbrev_get_from_code arr top code with
          | None => Fault AssertFail
          | Some entry =>
              '(attrs, entry_size) ← parse_attrs debug_str cu data sect (attribute_form entry) entry_size;
              w ← append_die start code entry attrs w;
              read_dies fuel' debug_str arr top cu data sect entry_size w
          end
      else Ok (entry_size, w)
  end.

Definition header_size : Z := 4 + 2 + 4 + 1.

(** The units; the entry read last is kept from one unit to the next.  The fuel is that of
    [read_dies]: a length near 4 GiB makes [current_size] wrap. *)
Fixpoint read_units (fuel : nat) (debug_str : Z) (arr : list ElfDwarfAbbrevType) (data : list Z) (sect current_size section_size : Z)
    (store : list ElfDwarfDieType) (die : option nat)
    : outcome (list ElfDwarfCompilationUnitHeaderType * list ElfDwarfDieType) :=
  match fuel with
  | O => Fault AssertFail
  | S fuel' =>
      if current_size <? section_size then
        let p := sect + current_size in
        len ← elf_get_data32 data p;
        ver ← elf_get_data16 data (p + 4);
        abb ← elf_get_data32 data (p + 6);
        psize ← elf_get_data8 data (p + 10);
        let cu := mkCu current_size len ver abb psize [] in
        match elf_dwarf_abbrev_get arr abb with
        | None => Fault AssertFail
        | Some top =>
            '(entry_size, w) ← read_dies (S (length data)) debug_str arr top cu data sect header_size (mkWalk store die None 0 []);
            _ ← assert_c (entry_size =? u32 (cu_length cu + 4));
            '(cus, store) ← read_units fuel' debug_str arr data sect (u32 (current_size + entry_size)) section_size (w_store w) (w_die w);
            Ok (mkCu current_size len ver abb psize (w_dies w) :: cus, store)
        end
      else Ok ([], store)
  end.

(** The static variables of the file and the entries they lead to. *)
Record dwarf_info := mkDwarfInfo {
  debug_str : option Z;
  compilation_unit_headers : list ElfDwarfCompilationUnitHeaderType;
  die_store : list ElfDwarfDieType;
}.

Definition elf_dwarf_info_load (data : list Z) (st : elf_statics) (arr : option (list ElfDwarfAbbrevType))
    : outcome (Std_ReturnType * dwarf_info) :=
  '(err, s) ← elf_section_get data SECTION_DWARF_STR_NAME st;
  match s with
  | Some (str, _) =>
      if std_ok err then
        '(err, s) ← elf_section_get data SECTION_DWARF_INFO_NAME st;
        match s with
        | Some (sect, section_size) =>
            if std_ok err then
              match arr with
              | None => if u32 section_size =? 0 then Ok (STD_E_OK, mkDwarfInfo (Some str) [] []) else Fault NullDeref
              | Some arr =>
                  '(cus, store) ← read_units (S (length data)) str arr data sect 0 (u32 section_size) [] None;
                  Ok (STD_E_OK, mkDwarfInfo (Some str) cus store)
              end
            else Ok (err, mkDwarfInfo (Some str) [] [])
        | None => Ok (err, mkDwarfInfo (Some str) [] [])
        end
      else Ok (err, mkDwarfInfo None [] [])
  | None => Ok (err, mkDwarfInfo None [] [])
  end.
Definition elf_dwarf_info_get (i : dwarf_info) : list ElfDwarfCompilationUnitHeaderType := compilation_unit_headers i.

(** ** The operations of a location *)

Record ElfDwarfStackType := mkStack { stack_size : Z; stack : list Z }.
Definition elf_dwarf_info_ops_init : ElfDwarfStackType := mkStack 0 [].
Definition elf_dwarf_info_ops_pop (s : ElfDwarfStackType) : Z * ElfDwarfStackType :=
  if 0 <? stack_size s then
    (default 0 (zget (stack s) (stack_size s - 1)), mkStack (stack_size s - 1) (stack s))
  else (0, s).
Definition elf_dwarf_info_ops_push (x : Z) (s : ElfDwarfStackType) : ElfDwarfStackType :=
  if stack_size s <? zlen (stack s) then mkStack (stack_size s + 1) (zput (stack s) (stack_size s) x)
  else mkStack (stack_size s + 1) (stack s ++ [x]).

Definition DW_OP_plus_uconst : Z := 35.

Definition elf_dwarf_info_ops_DW_OP_plus_uconst (data : list Z) (addr : Z) (s : ElfDwarfStackType)
    : outcome ElfDwarfStackType :=
  let '(data1, s) := elf_dwarf_info_ops_pop s in
  '(data2, _) ← elf_dwarf_decode_uleb128 data addr;
  Ok (elf_dwarf_info_ops_push (u32 (data1 + data2)) s).
Definition elf_dwarf_info_ops_DW_OP (optype : Z) (data : list Z) (addr : Z) (s : ElfDwarfStackType)
    : outcome ElfDwarfStackType :=
  if optype =? DW_OP_plus_uconst then elf_dwarf_info_ops_DW_OP_plus_uconst data addr s
  else Fault AssertFail.

(** The value, its size and the stack. *)
Definition elf_dwarf_info_get_value (data : list Z) (form : Z) (obj : ElfDwarfAttributeType) (s : ElfDwarfStackType)
    : outcome (Z * Z * ElfDwarfStackType) :=
  let num w size := x ← enc_num w (encoded obj); Ok (x, size, s) in
  if form =? DW_FORM_none then Ok (u32 (-1), 0, s)
  else if form =? DW_FORM_addr then num 32 4
  else if form =? DW_FORM_data1 then num 8 1
  else if form =? DW_FORM_data2 then num 16 2
  else if form =? DW_FORM_data4 then num 32 4
  else if form =? DW_FORM_ref1 then num 8 1
  else if form =? DW_FORM_ref2 then num 16 2
  else if form =? DW_FORM_ref4 then num 32 4
  else if form =? DW_FORM_sec_offset then num 32 4
  else if form =? DW_FORM_sdata then num 32 4
  else if form =? DW_FORM_block1 then
    let s := elf_dwarf_info_ops_push 0 s in
    ops ← enc_ops (encoded obj);
    op ← elf_byte data ops;
    s ← elf_dwarf_info_ops_DW_OP op data (ops + 1) s;
    let '(value, s) := elf_dwarf_info_ops_pop s in
    Ok (value, 0, s)
  else Fault AssertFail.

(** ** Location lists *)

Record ElfDwarfLocEntryType := mkLoc {
  entryOffset : Z; entrySize : Z; relativeAddress0 : Z; relativeAddress1 : Z; block_length : Z;
  blocks : option Z; next : option nat;
}.

Definition elf_dwarf_loc_alloc_ElfDwarfLocEntry (data : list Z) (raw_data off : Z) : outcome ElfDwarfLocEntryType :=
  a0 ← rd data raw_data 4;
  a1 ← rd data (raw_data + 4) 4;
  if (a0 =? 0) && (a1 =? 0) then Ok (mkLoc off 8 a0 a1 0 None None)
  else
    len ← rd data (raw_data + 8) 2;
    Ok (mkLoc off (10 + len) a0 a1 len (Some (raw_data + 10)) None).

Definition set_next (n : option nat) (e : ElfDwarfLocEntryType) : ElfDwarfLocEntryType :=
  mkLoc (entryOffset e) (entrySize e) (relativeAddress0 e) (relativeAddress1 e) (block_length e) (blocks e) n.
Definition is_list_end (e : ElfDwarfLocEntryType) : bool := (relativeAddress0 e =? 0) && (relativeAddress1 e =? 0).

(** [l] is the array so far and its last entry the previous one, whose link is set when the
    next one is known; [current_size] and [off] of the code are equal.  An entry has at least
    eight bytes of the image: the fuel is that of [read_abbrevs]. *)
Definition link_last (l : list ElfDwarfLocEntryType) : list ElfDwarfLocEntryType :=
  alter (λ prev, if is_list_end prev then set_next None prev else set_next (Some (length l)) prev) (pred (length l)) l.
Fixpoint read_locs (fuel : nat) (data : list Z) (sect off section_size : Z) (l : list ElfDwarfLocEntryType)
    : outcome (list ElfDwarfLocEntryType) :=
  match fuel with
  | O => Fault OutOfBounds
  | S fuel' =>
      if off <? section_size then
        entry ← elf_dwarf_loc_alloc_ElfDwarfLocEntry data (sect + off) off;
        read_locs fuel' data sect (off + entrySize entry) section_size (link_last l ++ [entry])
      else Ok l
  end.

(** The static variable [elf_dwarf_loc_lists]: [None] is NULL. *)
Definition elf_dwarf_loc_load (data : list Z) (st : elf_statics) (locs : option (list ElfDwarfLocEntryType))
    : outcome (Std_ReturnType * option (list ElfDwarfLocEntryType)) :=
  '(err, s) ← elf_section_get data SECTION_DWARF_LOC_NAME st;
  match s with
  | Some (sect, section_size) =>
      if std_ok err then
        l ← read_locs (S (length data)) data sect 0 (u32 section_size) []; Ok (STD_E_OK, Some l)
      else Ok (err, locs)
  | None => Ok (err, locs)
  end.

(** The loop has no bound: an offset that no entry has is looked for past the end of the
    array, unless the array is empty. *)
Definition search_location_entry (l : list ElfDwarfLocEntryType) (off : Z) : outcome (option nat) :=
  match l with
  | [] => Ok None
  | _ => '(i, _) ← oob (list_find (λ e, entryOffset e = off) l); Ok (Some i)
  end.
