(* ===== verification/DwarfInfoFacts.v ===== *)
(** * What the DWARF entries mean

    The abbreviations of a section written by the rules of the DWARF standard are found by
    the offset of their table and their code; the entries of a unit are read with the values
    they were written with; the entries of a file form a forest in which the order of the file
    is the order from parents to children. *)

From Stdlib Require Import String Ascii Sorted.
From S2P Require Import Prelude Token ElfImageCheck ElfSection DwarfLine DwarfLineFacts DwarfInfo.
Open Scope Z_scope.

(** A segment is not longer than the image. *)
Lemma seg_fuel data p bs : seg data p bs → (Z.to_nat (zlen bs) < S (length data))%nat.
Proof.
  intros Hs. destruct bs as [|b bs]; [unfold zlen; simpl; lia|]. pose proof (seg_range _ _ _ Hs ltac:(done)).
  destruct Hs as [? _]. unfold zlen in *. lia.
Qed.

(** ** Abbreviations *)

(** A declaration as a producer writes it: a code, a tag, whether the entries have children,
    and the attributes, each a name and a form. *)
Record decl := mkDecl { dc_code : Z; dc_tag : Z; dc_child : Z; dc_attrs : list (Z * Z) }.

Definition number_ok (n : Z) : Prop := 0 ≤ n < 2 ^ 28.
Definition attr_ok (a : Z * Z) : Prop := number_ok a.1 ∧ a.1 ≠ 0 ∧ number_ok a.2.
Definition decl_ok (d : decl) : Prop :=
  number_ok (dc_code d) ∧ dc_code d ≠ 0 ∧ number_ok (dc_tag d) ∧ Forall attr_ok (dc_attrs d).

Definition encode_attr (a : Z * Z) : list Z := uleb128 a.1 ++ uleb128 a.2.
Definition encode_attrs (l : list (Z * Z)) : list Z := concat (map encode_attr l) ++ [0; 0].
Definition encode_decl (d : decl) : list Z :=
  uleb128 (dc_code d) ++ uleb128 (dc_tag d) ++ [dc_child d] ++ encode_attrs (dc_attrs d).
(** The table of one unit; the section is a sequence of tables. *)
Definition encode_table (t : list decl) : list Z := concat (map encode_decl t) ++ [0].
Definition encode_tables (ts : list (list decl)) : list Z := concat (map encode_table ts).

(** What the reader makes of a declaration: the pair of zeros is kept as an attribute. *)
Definition entry_of (index offset : Z) (d : decl) : ElfDwarfAbbrevType :=
  mkAbbrev index offset (dc_code d) (dc_tag d) (dc_child d) (map fst (dc_attrs d) ++ [0]) (map snd (dc_attrs d) ++ [0]).
Fixpoint table_entries (index offset : Z) (t : list decl) : list ElfDwarfAbbrevType :=
  match t with
  | [] => []
  | d :: t' => entry_of index offset d :: table_entries (index + 1) (offset + zlen (encode_decl d)) t'
  end.
Fixpoint tables_entries (index offset : Z) (ts : list (list decl)) : list ElfDwarfAbbrevType :=
  match ts with
  | [] => []
  | t :: ts' => table_entries index offset t ++ tables_entries (index + zlen t) (offset + zlen (encode_table t)) ts'
  end.

Lemma uleb_pos n : 0 < zlen (uleb128 n).
Proof. unfold uleb128. cbn [uleb]. split_if; unfold zlen; simpl; lia. Qed.

Lemma uleb_read data p n : seg data p (uleb128 n) → number_ok n →
  elf_dwarf_decode_uleb128 data p = Ok (n, zlen (uleb128 n)).
Proof. intros. by apply uleb_value. Qed.

Lemma encode_attr_pos a : 0 < zlen (encode_attr a).
Proof. unfold encode_attr. rewrite zlen_app. pose proof (uleb_pos a.1). pose proof (zlen_nonneg (uleb128 a.2)). lia. Qed.
Lemma encode_attrs_pos l : zlen l < zlen (encode_attrs l).
Proof.
  unfold encode_attrs. rewrite zlen_app. pose proof (concat_len encode_attr l encode_attr_pos). change (zlen [0; 0]) with 2. lia.
Qed.
Lemma encode_decl_pos d : 0 < zlen (encode_decl d).
Proof.
  unfold encode_decl. rewrite !zlen_app. pose proof (uleb_pos (dc_code d)). pose proof (uleb_pos (dc_tag d)).
  pose proof (zlen_nonneg [dc_child d]). pose proof (zlen_nonneg (encode_attrs (dc_attrs d))). lia.
Qed.

Lemma read_abbrev_attrs_ok l fuel cur data sect :
  seg data (sect + cur) (encode_attrs l) → Forall attr_ok l → (length l < fuel)%nat →
  read_abbrev_attrs fuel cur data sect = Ok (map fst l ++ [0], map snd l ++ [0], cur + zlen (encode_attrs l)).
Proof.
  intros Hs Hl. revert fuel cur Hs. induction Hl as [|[n f] l (Hn & Hne & Hfm) _ IH]; intros fuel cur Hs Hf;
    (destruct fuel as [|fuel]; [simpl in Hf; lia|]); cbn [read_abbrev_attrs].
  - change (encode_attrs []) with (uleb128 0 ++ uleb128 0) in *. apply seg_app in Hs as [Ha Hb].
    rewrite (uleb_read _ _ _ Ha) by done. cbn [mbind outcome_bind]. rewrite Z.add_assoc.
    rewrite (uleb_read _ _ _ Hb) by done. cbn [mbind outcome_bind]. by rewrite zlen_app, Z.add_assoc.
  - cbn [fst snd] in *. change (encode_attrs ((n, f) :: l)) with ((encode_attr (n, f) ++ concat (map encode_attr l)) ++ [0; 0]) in *.
    rewrite <- app_assoc in Hs |- *. fold (encode_attrs l) in Hs |- *. unfold encode_attr in *. cbn [fst snd] in *.
    rewrite <- app_assoc in Hs. apply seg_app in Hs as [Ha Hs]. apply seg_app in Hs as [Hb Hs].
    rewrite (uleb_read _ _ _ Ha) by done. cbn [mbind outcome_bind]. rewrite Z.add_assoc.
    rewrite (uleb_read _ _ _ Hb) by done. cbn [mbind outcome_bind].
    destruct (Z.eqb_spec n 0); [done|]. cbn [negb].
    rewrite IH; [|by rewrite <- !Z.add_assoc in *|simpl in Hf; lia]. cbn [mbind outcome_bind map fst snd app].
    rewrite !zlen_app. do 2 f_equal. lia.
Qed.

Lemma table_entries_len index off t : zlen (table_entries index off t) = zlen t.
Proof.
  unfold zlen. f_equal. revert index off. induction t as [|d t IH]; intros; [done|]. cbn [table_entries length]. by rewrite IH.
Qed.

(** A table followed by bytes [rest] that are read with the next index. *)
Lemma read_table_ok t rest fuel cur size index data sect es :
  seg data (sect + cur) (concat (map encode_decl t) ++ rest) → Forall decl_ok t →
  cur + zlen (concat (map encode_decl t)) + zlen rest ≤ size →
  read_abbrevs fuel (cur + zlen (concat (map encode_decl t))) size (index + zlen t) data sect = Ok es →
  read_abbrevs (length t + fuel) cur size index data sect = Ok (table_entries index cur t ++ es).
Proof.
  intros Hs Ht. revert cur index Hs. induction Ht as [|d t (Hc & Hc0 & Htag & Ha) _ IH]; intros cur index Hs Hsz Hrest.
  - cbn [map concat] in Hrest. change (zlen (@nil Z)) with 0 in *. change (zlen (@nil decl)) with 0 in *.
    by rewrite !Z.add_0_r in Hrest.
  - cbn [map concat] in *. rewrite <- app_assoc in Hs. apply seg_app in Hs as [Hd Hs].
    rewrite zlen_app in *. pose proof (encode_decl_pos d). pose proof (zlen_nonneg (concat (map encode_decl t))).
    pose proof (zlen_nonneg rest). cbn [length Nat.add read_abbrevs].
    replace (cur <? size) with true by lia. pose proof (seg_range _ _ _ Hd) as Hrange.
    assert (encode_decl d ≠ []) as Hne by (intros E; rewrite E in *; done). specialize (Hrange Hne).
    pose proof Hd as [Hp _]. rewrite <- Z.add_assoc in Hs.
    assert (Hlen : zlen (encode_decl d) = zlen (uleb128 (dc_code d)) + zlen (uleb128 (dc_tag d)) + 1 + zlen (encode_attrs (dc_attrs d))).
    { unfold encode_decl. rewrite !zlen_app. change (zlen [dc_child d]) with 1. lia. }
    unfold encode_decl in Hd. apply seg_app in Hd as [K1 Hd]. apply seg_app in Hd as [K2 Hd].
    apply seg_app in Hd as [K3 K4]. apply seg_cons in K3 as [K3 _]. change (zlen [dc_child d]) with 1 in K4.
    rewrite (uleb_read _ _ _ K1) by done. cbn [mbind outcome_bind].
    destruct (Z.eqb_spec (dc_code d) 0); [done|]. rewrite !Z.add_assoc.
    rewrite (uleb_read _ _ _ K2) by done. cbn [mbind outcome_bind]. rewrite !Z.add_assoc, K3. cbn [mbind outcome_bind].
    rewrite (read_abbrev_attrs_ok (dc_attrs d)); [|by rewrite !Z.add_assoc|done|].
    2: { pose proof (encode_attrs_pos (dc_attrs d)). pose proof (uleb_pos (dc_code d)). pose proof (uleb_pos (dc_tag d)).
         unfold zlen in *. lia. }
    cbn [mbind outcome_bind].
    replace (cur + zlen (uleb128 (dc_code d)) + zlen (uleb128 (dc_tag d)) + 1 + zlen (encode_attrs (dc_attrs d)))
      with (cur + zlen (encode_decl d)) by lia.
    rewrite (IH (cur + zlen (encode_decl d)) (index + 1)); [done|done|lia|].
    rewrite <- Hrest. f_equal; [lia|]. unfold zlen. simpl. lia.
Qed.

Lemma read_tables_ok ts fuel cur index data sect :
  seg data (sect + cur) (encode_tables ts) → Forall (Forall decl_ok) ts →
  (Z.to_nat (zlen (encode_tables ts)) < fuel)%nat →
  read_abbrevs fuel cur (cur + zlen (encode_tables ts)) index data sect = Ok (tables_entries index cur ts).
Proof.
  intros Hs Hts. revert fuel cur index Hs. induction Hts as [|t ts Ht _ IH]; intros fuel cur index Hs Hf.
  - destruct fuel as [|fuel]; [simpl in Hf; lia|]. cbn [read_abbrevs]. change (zlen (encode_tables [])) with 0.
    by replace (cur <? cur + 0) with false by lia.
  - change (encode_tables (t :: ts)) with (encode_table t ++ encode_tables ts) in *.
    unfold encode_table in Hs, Hf |- *. rewrite <- app_assoc in Hs, Hf |- *. rewrite !zlen_app in *.
    change (zlen [0]) with 1 in *. pose proof (concat_len encode_decl t encode_decl_pos) as Hlen.
    pose proof (zlen_nonneg (encode_tables ts)). set (n := zlen (concat (map encode_decl t))) in *.
    replace fuel with (length t + (fuel - length t))%nat by (unfold zlen in *; lia).
    assert (∃ f, fuel - length t = S f)%nat as [f Ef] by (exists (pred (fuel - length t)); unfold zlen in *; lia).
    rewrite Ef. apply (read_table_ok t ([0] ++ encode_tables ts)); [done|done|rewrite zlen_app; change (zlen [0]) with 1; lia|].
    apply seg_app in Hs as [_ Hs]. fold n in Hs |- *. apply seg_cons in Hs as [H0 Hs]. cbn [read_abbrevs].
    replace (cur + n <? _) with true by lia.
    assert (elf_dwarf_decode_uleb128 data (sect + (cur + n)) = Ok (0, 1)) as ->.
    { rewrite Z.add_assoc. unfold elf_dwarf_decode_uleb128. cbn [uleb_loop]. by rewrite Z.add_0_r, <- Z.add_assoc, H0. }
    cbn [mbind outcome_bind Z.eqb]. unfold encode_table. rewrite zlen_app. change (zlen [0]) with 1. fold n.
    replace (cur + (n + (1 + zlen (encode_tables ts)))) with (cur + (n + 1) + zlen (encode_tables ts)) by lia.
    replace (cur + n + 1) with (cur + (n + 1)) by lia.
    apply IH; [apply (seg_move _ _ _ _ Hs); lia|unfold zlen in *; lia].
Qed.

Lemma tables_entries_app index off ts1 ts2 :
  tables_entries index off (ts1 ++ ts2) =
    tables_entries index off ts1 ++ tables_entries (index + zlen (concat ts1)) (off + zlen (encode_tables ts1)) ts2.
Proof.
  revert index off. induction ts1 as [|t ts1 IH]; intros index off; cbn [app tables_entries concat].
  - change (zlen (@concat decl [])) with 0. change (zlen (encode_tables [])) with 0. by rewrite !Z.add_0_r.
  - rewrite IH, <- app_assoc. change (encode_tables (t :: ts1)) with (encode_table t ++ encode_tables ts1).
    rewrite !zlen_app. do 3 f_equal; lia.
Qed.

Lemma tables_entries_len index off ts : zlen (tables_entries index off ts) = zlen (concat ts).
Proof.
  revert index off. induction ts as [|t ts IH]; intros; [done|]. cbn [tables_entries concat].
  by rewrite !zlen_app, IH, table_entries_len.
Qed.

Lemma table_offsets index off t :
  Forall (λ e, off ≤ ab_offset e < off + zlen (concat (map encode_decl t))) (table_entries index off t).
Proof.
  revert index off. induction t as [|d t IH]; intros index off; cbn [table_entries map concat]; [constructor|].
  pose proof (encode_decl_pos d). pose proof (zlen_nonneg (concat (map encode_decl t))).
  constructor; [cbn [ab_offset entry_of]; rewrite zlen_app; lia|].
  eapply Forall_impl; [apply IH|]. cbn beta. intros e. rewrite zlen_app. lia.
Qed.
Lemma tables_offsets index off ts :
  Forall (λ e, ab_offset e < off + zlen (encode_tables ts)) (tables_entries index off ts).
Proof.
  revert index off. induction ts as [|t ts IH]; intros index off; cbn [tables_entries]; [constructor|].
  change (encode_tables (t :: ts)) with (encode_table t ++ encode_tables ts).
  pose proof (zlen_nonneg (encode_tables ts)). apply Forall_app. split.
  - eapply Forall_impl; [apply table_offsets|]. intros e. unfold encode_table. rewrite !zlen_app. change (zlen [0]) with 1. lia.
  - eapply Forall_impl; [apply IH|]. intros e. rewrite zlen_app. lia.
Qed.

Lemma get_skips l1 l2 off : Forall (λ e, ab_offset e < off) l1 →
  elf_dwarf_abbrev_get (l1 ++ l2) off = elf_dwarf_abbrev_get l2 off.
Proof.
  induction 1 as [|e l1 He _ IH]; [done|]. unfold elf_dwarf_abbrev_get in *. cbn [app List.find].
  by destruct (Z.eqb_spec (ab_offset e) off); [lia|].
Qed.

(** A code of a table whose codes grow is found from the start of the table. *)
Lemma get_from_code_ok t rest index off last d :
  d ∈ t → StronglySorted Z.lt (map dc_code t) → Forall (λ d, last < dc_code d) t →
  ∃ i o, get_from_code (table_entries index off t ++ rest) last (dc_code d) = Some (entry_of i o d).
Proof.
  intros Hd. revert index off last. induction t as [|d0 t IH]; intros index off last Hs Hl; [by apply elem_of_nil in Hd|].
  apply Forall_cons in Hl as [Hl0 Hl]. cbn [map] in Hs. apply StronglySorted_inv in Hs as [Hs Hlt].
  cbn [table_entries app get_from_code ab_code entry_of]. replace (dc_code d0 <=? last) with false by lia.
  apply elem_of_cons in Hd as [->|Hd].
  - rewrite Z.eqb_refl. by eexists _, _.
  - rewrite Forall_map in Hlt. pose proof Hlt as Hlt0. rewrite Forall_forall in Hlt0. specialize (Hlt0 d Hd). cbn in Hlt0.
    destruct (Z.eqb_spec (dc_code d0) (dc_code d)); [lia|]. by apply IH.
Qed.

(** a section [.debug_abbrev] written by the rules of the DWARF standard is read so that
    every declaration is found again: the offset of its table gives the start of the table, and
    from there its code gives its tag, whether it has children, and its attributes, with the
    pair of zeros that ends them. *)
Theorem abbrev_declarations_found ts data st sect arr0 :
  Forall (Forall decl_ok) ts → zlen (encode_tables ts) < 2 ^ 32 →
  elf_section_get data SECTION_DWARF_ABBREV_NAME st = Ok (STD_E_OK, Some (sect, zlen (encode_tables ts))) →
  seg data sect (encode_tables ts) →
  ∃ arr, elf_dwarf_abbrev_load data st arr0 = Ok (STD_E_OK, Some arr) ∧
    ∀ pre t post d, ts = pre ++ t :: post → StronglySorted Z.lt (map dc_code t) → d ∈ t →
      ∃ top i o, elf_dwarf_abbrev_get arr (zlen (encode_tables pre)) = Some top ∧
        elf_dwarf_abbrev_get_from_code arr top (dc_code d) = Some (entry_of i o d).
Proof.
  intros Hts Hlen Hsec Hs. exists (tables_entries 0 0 ts). split.
  - unfold elf_dwarf_abbrev_load. rewrite Hsec. cbn [mbind outcome_bind std_ok].
    rewrite wrap_id by (split; [apply zlen_nonneg|done]).
    pose proof (read_tables_ok ts (S (length data)) 0 0 data sect) as Hr. rewrite Z.add_0_r, Z.add_0_l in Hr.
    rewrite Hr; [done|done|done|by eapply seg_fuel].
  - intros pre t post d -> Hsort Hd. destruct t as [|d0 t]; [by apply elem_of_nil in Hd|].
    rewrite tables_entries_app, !Z.add_0_l. pose proof (tables_offsets 0 0 pre) as Hpre. rewrite Z.add_0_l in Hpre.
    rewrite get_skips by done. cbn [tables_entries table_entries app]. unfold elf_dwarf_abbrev_get at 1. cbn [List.find ab_offset entry_of].
    rewrite Z.eqb_refl. exists (entry_of (zlen (concat pre)) (zlen (encode_tables pre)) d0). unfold elf_dwarf_abbrev_get_from_code. cbn [ab_index entry_of].
    rewrite drop_app_length' by (pose proof (tables_entries_len 0 0 pre); unfold zlen in *; lia).
    apply Forall_app in Hts as [_ Hts]. apply Forall_cons in Hts as [Hts _].
    destruct (get_from_code_ok (d0 :: t) (tables_entries (zlen (concat pre) + zlen (d0 :: t))
      (zlen (encode_tables pre) + zlen (encode_table (d0 :: t))) post) (zlen (concat pre)) (zlen (encode_tables pre)) 0 d) as (i & o & Hf);
      [done|done| |].
    { eapply Forall_impl; [exact Hts|]. intros x (Hn & Hne & _). unfold number_ok in Hn. lia. }
    exists i, o. split; [done|exact Hf].
Qed.

(** ** The entries form a forest in the order of the file *)

Definition parent_of (s : list ElfDwarfDieType) (k : nat) : option nat := s !! k ≫= parent.
(** [ancestor s p k]: [p] is reached from [k] over parents. *)
Definition ancestor (s : list ElfDwarfDieType) (p k : nat) : Prop := rtc (λ a b, parent_of s a = Some b) k p.
Definition kids (s : list ElfDwarfDieType) (i : nat) : list nat :=
  filter (λ k, parent_of s k = Some i) (seq 0 (length s)).
Definition children_of (s : list ElfDwarfDieType) (i : nat) : option (list nat) := s !! i ≫= children.

(** The parent of an entry is the entry before it or one of its ancestors, and the children of
    an entry are the entries that have it as parent, in order. *)
Definition forest (s : list ElfDwarfDieType) : Prop :=
  (∀ k p, parent_of s k = Some p → ∃ j, k = S j ∧ ancestor s p j) ∧
  (∀ i, i < length s → default [] (children_of s i) = kids s i)%nat.

Lemma ancestor_le s p k : forest s → ancestor s p k → (p ≤ k)%nat.
Proof.
  intros [Hf _]. revert p. induction k as [k IH] using lt_wf_ind. intros p Ha.
  apply rtc_inv in Ha as [->|(b & Hb & Ha)]; [done|].
  destruct (Hf _ _ Hb) as (j & -> & Hj). pose proof (IH j ltac:(lia) _ Hj). pose proof (IH b ltac:(lia) _ Ha). lia.
Qed.
Lemma parent_lt s k p : forest s → parent_of s k = Some p → (p < k)%nat.
Proof. intros Hf Hp. destruct (proj1 Hf _ _ Hp) as (j & -> & Hj). apply ancestor_le in Hj; [lia|done]. Qed.
Lemma parent_length s k p : parent_of s k = Some p → (k < length s)%nat.
Proof. unfold parent_of. destruct (s !! k) eqn:E; [|done]. intros _. by apply lookup_lt_Some in E. Qed.
Lemma kids_spec s i k : k ∈ kids s i ↔ parent_of s k = Some i.
Proof.
  unfold kids. rewrite list_elem_of_filter, elem_of_seq. split; [tauto|]. intros H. split; [done|].
  apply parent_length in H. lia.
Qed.

(** What holds between two rounds of the loop. *)
Definition walk_ok (w : die_walk) : Prop :=
  forest (w_store w) ∧
  w_die w = match length (w_store w) with O => None | S j => Some j end ∧
  (∀ p, w_parent w = Some p → is_Some (children_of (w_store w) p) ∧ ∃ j, length (w_store w) = S j ∧ ancestor (w_store w) p j).

Lemma walk_ok_unit s die : forest s → die = match length s with O => None | S j => Some j end →
  walk_ok (mkWalk s die None 0 []).
Proof. intros. split_and!; [done|done|done]. Qed.

Lemma close_children_ok w : walk_ok w → ∃ w', close_children w = Ok w' ∧ walk_ok w' ∧
  w_store w' = w_store w ∧ w_dies w' = w_dies w.
Proof.
  intros (Hf & Hdie & Hpar). unfold close_children. rewrite Hdie.
  destruct (length (w_store w)) as [|j] eqn:Hlen.
  - eexists. split; [reflexivity|]. split; [|done]. split_and!; [done|simpl; by rewrite Hlen|]. simpl. rewrite Hlen. exact Hpar.
  - destruct (lookup_lt_is_Some_2 (w_store w) j ltac:(lia)) as [d Hd]. rewrite Hd. cbn [mbind outcome_bind oob].
    eexists. split; [reflexivity|]. split; [|done]. split_and!; [done|simpl; by rewrite Hlen|].
    cbn [w_parent w_store]. intros p Hp. assert (Hpj : parent_of (w_store w) j = Some p) by (unfold parent_of; by rewrite Hd).
    pose proof (parent_lt _ _ _ Hf Hpj). split.
    + pose proof (proj2 Hf p ltac:(lia)) as Hk. destruct (children_of (w_store w) p) as [l|]; [eauto|].
      apply kids_spec in Hpj. rewrite <- Hk in Hpj. by apply elem_of_nil in Hpj.
    + exists j. split; [done|]. by apply rtc_once.
Qed.

Lemma filter_ext_in {A} (P Q : A → Prop) `{!∀ x, Decision (P x), !∀ x, Decision (Q x)} (l : list A) :
  (∀ x, x ∈ l → P x ↔ Q x) → filter P l = filter Q l.
Proof.
  induction l as [|x l IH]; intros Hl; [done|]. rewrite !filter_cons, IH by (intros; apply Hl; by right).
  pose proof (Hl x ltac:(by left)). repeat case_decide; tauto.
Qed.

Lemma filter_none {A} (P : A → Prop) `{!∀ x, Decision (P x)} (l : list A) : (∀ x, x ∈ l → ¬ P x) → filter P l = [].
Proof.
  induction l as [|x l IH]; intros Hl; [done|]. rewrite filter_cons, decide_False by (apply Hl; by left).
  apply IH. intros y Hy. apply Hl. by right.
Qed.

(** An entry [d] stored after the others, when the parents of the others are kept. *)
Lemma append_kids s s' d : (∀ k, (k < length s)%nat → parent_of s' k = parent_of s k) → length s' = S (length s) →
  s' !! length s = Some d → ∀ i, kids s' i = kids s i ++ (if bool_decide (parent d = Some i) then [length s] else []).
Proof.
  intros Hold Hlen Hd i. unfold kids. rewrite Hlen, seq_S, filter_app. f_equal.
  - apply filter_ext_in. intros k Hk. apply elem_of_seq in Hk. by rewrite Hold by lia.
  - simpl. rewrite filter_cons, filter_nil. unfold parent_of. rewrite Hd. simpl. case_bool_decide; by case_decide.
Qed.
Lemma append_ancestor s s' p k : (∀ k, (k < length s)%nat → parent_of s' k = parent_of s k) →
  (k < length s)%nat → forest s → ancestor s p k → ancestor s' p k.
Proof.
  intros Hold Hk Hf Ha. revert Hk. induction Ha as [k|k b p Hkb Ha IH]; intros Hk; [apply rtc_refl|].
  pose proof (parent_lt _ _ _ Hf Hkb). eapply rtc_l; [rewrite Hold by lia; exact Hkb|]. apply IH. lia.
Qed.

(** The store after an entry [d] and its link from its parent. *)
Definition linked (s : list ElfDwarfDieType) (par : option nat) : outcome (list ElfDwarfDieType) :=
  match par with
  | Some p => d ← oob (s !! p); d ← with_child (length s) d; Ok (<[p := d]> s)
  | None => Ok s
  end.

Definition attr_view (a : ElfDwarfAttributeType) : Z * Z * Z * attr_encoded :=
  (at_type a, at_offset a, at_size a, encoded a).
Definition die_view (d : ElfDwarfDieType) : Z * Z * ElfDwarfAbbrevType * list (Z * Z * Z * attr_encoded) :=
  (d_offset d, abbrev_code d, abbrev_info d, map attr_view (attribute d)).

Lemma linked_ok s par : (∀ p, par = Some p → is_Some (children_of s p)) →
  ∃ s', linked s par = Ok s' ∧ length s' = length s ∧ map die_view s' = map die_view s ∧
    (∀ k, parent_of s' k = parent_of s k) ∧
    ∀ i, default [] (children_of s' i) = default [] (children_of s i) ++ (if bool_decide (par = Some i) then [length s] else []) ∧
         (is_Some (children_of s' i) ↔ is_Some (children_of s i)).
Proof.
  intros Hp. destruct par as [p|]; cbn [linked].
  - destruct (Hp p eq_refl) as [l Hl]. unfold children_of in Hl. destruct (s !! p) as [d|] eqn:Hd; [|done].
    cbn in Hl. cbn [oob mbind outcome_bind]. unfold with_child. rewrite Hl. cbn [mbind outcome_bind].
    pose proof (lookup_lt_Some _ _ _ Hd). eexists. split; [reflexivity|]. split_and!.
    + apply length_insert.
    + apply list_eq. intros k. rewrite !list_lookup_fmap. destruct (decide (k = p)) as [->|].
      * by rewrite list_lookup_insert_eq, Hd by done.
      * by rewrite list_lookup_insert_ne by done.
    + intros k. unfold parent_of. destruct (decide (k = p)) as [->|].
      * by rewrite list_lookup_insert_eq, Hd by done.
      * by rewrite list_lookup_insert_ne by done.
    + intros i. unfold children_of. destruct (decide (i = p)) as [->|].
      * rewrite list_lookup_insert_eq, Hd by done. cbn. rewrite Hl. rewrite bool_decide_eq_true_2 by done.
        split; [done|]. split; eauto.
      * rewrite list_lookup_insert_ne by done. rewrite bool_decide_eq_false_2 by congruence. by rewrite app_nil_r.
  - exists s. split_and!; try done. intros i. by rewrite app_nil_r.
Qed.

(** [s'] is [s] with [d] behind it, linked from its parent. *)
Record grown (s s' : list ElfDwarfDieType) (d : ElfDwarfDieType) : Prop := {
  gr_parent : ∀ k, (k < length s)%nat → parent_of s' k = parent_of s k;
  gr_length : length s' = S (length s);
  gr_new : s' !! length s = Some d;
  gr_spine : ∀ p, parent d = Some p → ∃ j, length s = S j ∧ ancestor s p j;
  gr_children : ∀ i, (i < length s)%nat →
    default [] (children_of s' i) = default [] (children_of s i) ++ (if bool_decide (parent d = Some i) then [length s] else []);
  gr_leaf : default [] (children d) = [];
}.

Lemma forest_grows s s' d : forest s → grown s s' d → forest s'.
Proof.
  intros Hf [Hold Hlen Hnew Hsp Hch Hleaf]. split.
  - intros k p Hk. pose proof (parent_length _ _ _ Hk) as Hkl. rewrite Hlen in Hkl.
    assert (∃ j, k = S j ∧ ancestor s p j) as (j & -> & Ha).
    { destruct (decide (k = length s)) as [->|].
      - unfold parent_of in Hk. rewrite Hnew in Hk. cbn in Hk. by apply Hsp.
      - rewrite Hold in Hk by lia. by apply (proj1 Hf). }
    exists j. split; [done|]. apply (append_ancestor s); [done|lia|done|done].
  - intros i Hi. rewrite Hlen in Hi. rewrite (append_kids s s' d) by done. destruct (decide (i = length s)) as [->|].
    + unfold children_of. rewrite Hnew. cbn. rewrite Hleaf. rewrite bool_decide_eq_false_2.
      2: { intros (j & Hj & Ha)%Hsp. apply ancestor_le in Ha; [lia|done]. }
      rewrite app_nil_r. symmetry. destruct (kids s (length s)) as [|k l] eqn:Hk; [done|].
      assert (k ∈ kids s (length s)) as Hin by (rewrite Hk; by left). apply kids_spec in Hin.
      pose proof (parent_length _ _ _ Hin). apply parent_lt in Hin; [lia|done].
    + rewrite Hch by lia. f_equal. apply (proj2 Hf). lia.
Qed.

Lemma linked_grows s s1 par d : forest s → linked s par = Ok s1 →
  (∀ p, par = Some p → is_Some (children_of s p) ∧ ∃ j, length s = S j ∧ ancestor s p j) →
  parent d = par → default [] (children d) = [] → grown s (s1 ++ [d]) d ∧
  map die_view (s1 ++ [d]) = map die_view s ++ [die_view d] ∧
  ∀ i, (i < length s)%nat → is_Some (children_of s i) → is_Some (children_of (s1 ++ [d]) i).
Proof.
  intros Hf Hs1 Hpar Hd Hleaf.
  destruct (linked_ok s par) as (s1' & Hs1' & Hlen1 & Hview1 & Hpo1 & Hch1); [intros p Hp; apply (Hpar p Hp)|].
  assert (s1' = s1) as -> by congruence.
  assert (Hchold : ∀ k, (k < length s)%nat → children_of (s1 ++ [d]) k = children_of s1 k).
  { intros k Hk. unfold children_of. by rewrite lookup_app_l by lia. }
  split_and!.
  - split; [|rewrite length_app; simpl; lia|rewrite <- Hlen1; by apply list_lookup_middle|..|done].
    + intros k Hk. rewrite <- Hpo1. unfold parent_of. by rewrite lookup_app_l by lia.
    + rewrite Hd. intros p Hp. by apply Hpar.
    + intros i Hi. rewrite Hchold by done. rewrite Hd. apply Hch1.
  - by rewrite map_app, Hview1.
  - intros i Hi Hc. rewrite Hchold by done. by apply Hch1.
Qed.

Lemma append_die_ok offset code entry attrs w : walk_ok w →
  ∃ w', append_die offset code entry attrs w = Ok w' ∧ walk_ok w' ∧
    map die_view (w_store w') = map die_view (w_store w) ++ [(offset, code, entry, map attr_view attrs)] ∧
    w_dies w' = w_dies w ++ [length (w_store w)].
Proof.
  intros (Hf & Hdie & Hpar). set (s := w_store w) in *.
  destruct (linked_ok s (w_parent w)) as (s1 & Hs1 & _); [intros p Hp; apply (Hpar p Hp)|].
  set (d := mkDie offset code entry attrs (w_level w) (w_parent w) (if ab_child entry =? 1 then Some [] else None)).
  destruct (linked_grows s s1 (w_parent w) d Hf Hs1 Hpar eq_refl) as (Hg & Hview & Hkeep); [simpl; by destruct (_ =? _)|].
  exists (mkWalk (s1 ++ [d]) (Some (length s)) (if ab_child entry =? 1 then Some (length s) else w_parent w)
          (if ab_child entry =? 1 then u32 (w_level w + 1) else w_level w) (w_dies w ++ [length s])).
  unfold append_die. fold s. change (match w_parent w with Some p => _ | None => _ end) with (linked s (w_parent w)).
  rewrite Hs1. split; [done|]. split; [|done]. split; [|split]; cbn [w_store w_die w_parent].
  - by apply (forest_grows s _ d).
  - by rewrite (gr_length _ _ _ Hg).
  - intros p. rewrite (gr_length _ _ _ Hg). pose proof (gr_new _ _ _ Hg) as Hnew.
    assert (Hup : ∀ p, w_parent w = Some p → ancestor (s1 ++ [d]) p (length s)).
    { intros q Hq. apply rtc_once. unfold parent_of. by rewrite Hnew. }
    destruct (ab_child entry =? 1) eqn:Hc.
    + intros [= <-]. split; [|exists (length s); split; [done|apply rtc_refl]]. unfold children_of. rewrite Hnew. simpl. rewrite ?Hc. by eexists.
    + intros Hp. destruct (Hpar p Hp) as [? (j & Hj & Ha)]. apply ancestor_le in Ha; [|done].
      split; [apply Hkeep; [lia|done]|]. exists (length s). split; [done|by apply Hup].
Qed.

(** The entries of the unit that starts at index [a]. *)
Definition unit_dies (a : nat) (w : die_walk) : Prop :=
  (a ≤ length (w_store w))%nat ∧ w_dies w = seq a (length (w_store w) - a).

Lemma append_die_dies offset code entry attrs w w' a : walk_ok w → unit_dies a w →
  append_die offset code entry attrs w = Ok w' → walk_ok w' ∧ unit_dies a w' ∧
    map die_view (w_store w') = map die_view (w_store w) ++ [(offset, code, entry, map attr_view attrs)].
Proof.
  intros Hw [Ha Hd] Hap. destruct (append_die_ok offset code entry attrs w Hw) as (w1 & Hw1 & Hok & Hview & Hdies).
  assert (w1 = w') as -> by congruence. split; [done|]. split; [|done].
  apply (f_equal length) in Hview as Hlen. rewrite length_app, !length_map in Hlen. simpl in Hlen.
  split; [lia|]. rewrite Hdies, Hd, Hlen. replace (length (w_store w) + 1 - a)%nat with (S (length (w_store w) - a)) by lia.
  rewrite seq_S. do 2 f_equal. lia.
Qed.

Lemma read_dies_forest fuel str arr top cu data sect size w r w' a :
  read_dies fuel str arr top cu data sect size w = Ok (r, w') → walk_ok w → unit_dies a w → walk_ok w' ∧ unit_dies a w'.
Proof.
  revert size w. induction fuel as [|fuel IH]; intros size w; cbn [read_dies]; [done|].
  case_match; [|intros [= <- <-]; done]. intros ([code n] & _ & Hr)%bind_ok Hw Hd. case_match.
  - apply bind_ok in Hr as (w1 & Hc & Hr). destruct (close_children_ok w Hw) as (w2 & Hc2 & Hw2 & Hs2 & Hd2).
    assert (w2 = w1) as -> by congruence. apply (IH _ _ Hr); [done|]. unfold unit_dies. by rewrite Hs2, Hd2.
  - case_match; [|done]. apply bind_ok in Hr as ([attrs size'] & _ & Hr). apply bind_ok in Hr as (w1 & Hap & Hr).
    destruct (append_die_dies _ _ _ _ _ _ _ Hw Hd Hap) as (? & ? & _). by apply (IH _ _ Hr).
Qed.

Lemma walk_die w : walk_ok w → w_die w = match length (w_store w) with O => None | S j => Some j end.
Proof. by intros (_ & ? & _). Qed.

Lemma read_units_forest fuel str arr data sect cur size store die cus store' :
  read_units fuel str arr data sect cur size store die = Ok (cus, store') →
  forest store → die = match length store with O => None | S j => Some j end →
  forest store' ∧ (length store ≤ length store')%nat ∧
    concat (map dies cus) = seq (length store) (length store' - length store).
Proof.
  revert cur store die cus. induction fuel as [|fuel IH]; intros cur store die cus; cbn [read_units]; [done|].
  case_match; [|intros [= <- <-] ? ?; rewrite Nat.sub_diag; done].
  intros (len & _ & (ver & _ & (abb & _ & (psz & _ & Hr)%bind_ok)%bind_ok)%bind_ok)%bind_ok Hf Hdie.
  destruct (elf_dwarf_abbrev_get arr abb) as [top|]; [|done]. apply bind_ok in Hr as ([size' w] & Hdies & Hr). apply bind_ok in Hr as (u & _ & Hr).
  apply bind_ok in Hr as ([cus' st'] & Hr & [= <- <-]).
  apply (read_dies_forest _ _ _ _ _ _ _ _ _ _ _ (length store)) in Hdies as (Hw & Hle & Hd);
    [|by apply walk_ok_unit|split; [done|simpl; by rewrite Nat.sub_diag]].
  apply IH in Hr as (Hf' & Hle' & Hc); [|apply Hw|by apply walk_die].
  split_and!; [done|simpl in *; lia|]. cbn [map concat dies]. rewrite Hd, Hc. cbn [w_store] in *.
  replace (length st' - length store)%nat with
    ((length (w_store w) - length store) + (length st' - length (w_store w)))%nat by lia.
  rewrite seq_app. do 2 f_equal. lia.
Qed.

(** Every load leaves a forest, and every entry is in the list of its unit. *)
Lemma loaded_forest data st arr err info : elf_dwarf_info_load data st arr = Ok (err, info) →
  forest (die_store info) ∧ concat (map dies (compilation_unit_headers info)) = seq 0 (length (die_store info)).
Proof.
  assert (He : ∀ str, forest (die_store (mkDwarfInfo str [] []))) by (split; [intros ?? Hk; by apply parent_length in Hk; simpl in Hk; lia|simpl; lia]).
  intros ([err1 s1] & _ & Hr)%bind_ok. destruct s1 as [[str ?]|]; [|injection Hr as <- <-; split; [apply He|done]].
  case_match; [|injection Hr as <- <-; split; [apply He|done]].
  apply bind_ok in Hr as ([err2 s2] & _ & Hr). destruct s2 as [[sect size]|]; [|injection Hr as <- <-; split; [apply He|done]].
  case_match; [|injection Hr as <- <-; split; [apply He|done]].
  destruct arr as [arr|]; [|case_match; [|done]; injection Hr as <- <-; split; [apply He|done]].
  apply bind_ok in Hr as ([cus store] & Hr & [= <- <-]).
  apply read_units_forest in Hr as (Hf & _ & Hc); [|apply (He None)|done]. cbn [die_store compilation_unit_headers].
  split; [done|]. rewrite Hc. simpl. by rewrite Nat.sub_0_r.
Qed.

(** An entry is below [i] when the parents from behind [i] up to it are not before [i]. *)
Definition below (s : list ElfDwarfDieType) (i m : nat) : Prop := ∃ p, parent_of s m = Some p ∧ (i ≤ p)%nat.

Lemma ancestor_below s i k m : forest s → ancestor s i k → (i < m ≤ k)%nat → below s i m.
Proof.
  intros Hf. revert m. induction k as [k IH] using lt_wf_ind. intros m Ha Hm.
  apply rtc_inv in Ha as [->|(b & Hb & Ha)]; [lia|]. destruct (proj1 Hf _ _ Hb) as (j & -> & Hj).
  destruct (decide (m = S j)) as [->|]; [exists b; split; [done|by apply ancestor_le in Ha]|].
  apply (IH j); [lia|unfold ancestor in *; by etrans|lia].
Qed.

Lemma below_ancestor s i k : (i ≤ k)%nat → (∀ m, (i < m ≤ k)%nat → below s i m) → forest s → ancestor s i k.
Proof.
  intros Hi Hb Hf. induction k as [k IH] using lt_wf_ind. destruct (decide (i = k)) as [->|]; [apply rtc_refl|].
  destruct (Hb k ltac:(lia)) as (p & Hp & Hip). pose proof (parent_lt _ _ _ Hf Hp).
  eapply rtc_l; [exact Hp|]. apply IH; [lia|lia|]. intros m Hm. apply Hb. lia.
Qed.

Lemma ancestor_linear s p a k : forest s → ancestor s p k → ancestor s a k → (p < a)%nat →
  ∃ b, parent_of s a = Some b ∧ ancestor s p b.
Proof.
  intros Hf Hp Ha Hlt. destruct (ancestor_below s p k a Hf Hp) as (b & Hb & Hpb); [apply ancestor_le in Ha; [lia|done]|].
  exists b. split; [done|]. apply below_ancestor; [done| |done]. intros m Hm.
  pose proof (parent_lt _ _ _ Hf Hb). apply ancestor_le in Ha; [|done]. apply (ancestor_below s p k); [done|done|lia].
Qed.

(** The entries in the order in which a recursion over children meets them. *)
Fixpoint visit (fuel : nat) (s : list ElfDwarfDieType) (i : nat) : list nat :=
  match fuel with
  | O => []
  | S fuel' => i :: concat (map (visit fuel' s) (default [] (children_of s i)))
  end.

Definition before (s : list ElfDwarfDieType) (a e : nat) : Prop := ∀ p, parent_of s e = Some p → (p < a)%nat.

(** Of a range that starts at [a], the part below [a]. *)
Lemma subtree_size s a len : ∃ m, (1 ≤ m)%nat ∧ (∀ k, (a < k < a + m)%nat → below s a k) ∧
  ((m < S len)%nat ∧ before s a (a + m) ∨ m = S len).
Proof.
  induction len as [|len (m & Hm & Hb & Hend)]; [exists 1%nat; split_and!; [lia|lia|by right]|].
  destruct Hend as [[Hlt He]| ->]; [exists m; split_and!; [lia|done|left; split; [lia|done]]|].
  destruct (parent_of s (a + S len)) as [p|] eqn:Hp.
  - destruct (decide (a ≤ p)%nat).
    + exists (S (S len)). split_and!; [lia| |by right]. intros k Hk. destruct (decide (k = a + S len)%nat) as [->|]; [by exists p|].
      apply Hb. lia.
    + exists (S len). split_and!; [lia|done|left; split; [lia|]]. intros p' Hp'. assert (p' = p) by congruence. lia.
  - exists (S len). split_and!; [lia|done|left; split; [lia|]]. intros p' Hp'. congruence.
Qed.

Section siblings.
Context (s : list ElfDwarfDieType) (Hf : forest s) (fuel : nat).
Context (Hvisit : ∀ i m, (1 ≤ m ≤ fuel)%nat → (i + m ≤ length s)%nat → (∀ k, (i < k < i + m)%nat → below s i k) →
  before s i (i + m) → visit fuel s i = seq i m).

(** The subtrees of the entries with parent [q] in a range cover it. *)
Lemma visit_siblings q `{!∀ k, Decision (parent_of s k = q)} len a : (len ≤ fuel)%nat → (a + len ≤ length s)%nat →
  (∀ k i, (a ≤ k < a + len)%nat → q = Some i → below s i k) →
  ((0 < len)%nat → parent_of s a = q) → before s a (a + len) →
  concat (map (visit fuel s) (filter (λ k, parent_of s k = q) (seq a len))) = seq a len.
Proof.
  revert a. induction len as [len IH] using lt_wf_ind. intros a Hlf Hal Hq Ha Hend.
  destruct len as [|len]; [done|]. specialize (Ha ltac:(lia)).
  destruct (subtree_size s a len) as (m & Hm & Hb & He).
  assert (m ≤ S len ∧ before s a (a + m))%nat as [Hml He'] by (destruct He as [[??]| ->]; split; [lia|done|lia|done]). clear He.
  replace (S len) with (m + (S len - m))%nat by lia. rewrite seq_app, filter_app, map_app, concat_app. f_equal.
  - destruct m as [|m]; [lia|]. cbn [seq]. rewrite filter_cons, decide_True by done.
    replace (filter (λ k, parent_of s k = q) (seq (S a) m)) with (@nil nat).
    + cbn [map concat]. rewrite app_nil_r. apply (Hvisit a (S m)); [lia|lia|done|done].
    + symmetry. apply filter_none. intros k Hk Hkq. apply elem_of_seq in Hk. destruct (Hb k ltac:(lia)) as (p & Hp & Hap).
      rewrite Hkq, <- Ha in Hp. apply parent_lt in Hp; [lia|done].
  - apply IH; [lia|lia|lia| | |].
    + intros k i Hk. apply Hq. lia.
    + intros Hpos. destruct (parent_of s (a + m)) as [p|] eqn:Hp.
      * pose proof (He' p Hp) as Hpa. destruct (proj1 Hf _ _ Hp) as (j & Hj & Haj).
        assert (ancestor s a j) as Haa by (apply below_ancestor; [lia|intros k Hk; apply Hb; lia|done]).
        destruct (ancestor_linear s p a j Hf Haj Haa Hpa) as (b & Hb' & Hpb). rewrite Ha in Hb'.
        destruct (Hq (a + m)%nat b ltac:(lia) Hb') as (p' & Hp' & Hbp). apply ancestor_le in Hpb; [|done].
        rewrite Hb'. f_equal. assert (p' = p) by congruence. lia.
      * destruct q as [i|]; [|done]. destruct (Hq (a + m)%nat i ltac:(lia) eq_refl) as (p' & Hp' & _). congruence.
    + replace (a + m + (S len - m))%nat with (a + S len)%nat by lia. intros p Hp. apply Hend in Hp. lia.
Qed.
End siblings.

(** The recursion from an entry meets the entries below it in the order of the file. *)
Lemma visit_subtree s fuel i m : forest s → (1 ≤ m ≤ fuel)%nat → (i + m ≤ length s)%nat →
  (∀ k, (i < k < i + m)%nat → below s i k) → before s i (i + m) → visit fuel s i = seq i m.
Proof.
  intros Hf. revert i m. induction fuel as [|fuel IH]; intros i m Hm Hi Hb He; [lia|]. cbn [visit].
  rewrite (proj2 Hf i) by lia. destruct m as [|m]; [lia|]. cbn [seq]. f_equal.
  rewrite <- (visit_siblings s Hf fuel IH (Some i) m (S i)); [|lia|lia| | |].
  - f_equal. f_equal. unfold kids. replace (length s) with (S i + (m + (length s - S i - m)))%nat at 1 by lia.
    rewrite !seq_app, !filter_app. cbn [Nat.add].
    replace (filter _ (seq 0 (S i))) with (@nil nat); [replace (filter _ (seq (S (i + m)) _)) with (@nil nat); [by rewrite app_nil_r|]|].
    + symmetry. apply filter_none. intros k Hk Hki. apply elem_of_seq in Hk.
      assert (ancestor s i k) as Hak by (by apply rtc_once).
      destruct (ancestor_below s i k (i + S m) Hf Hak) as (p & Hp & Hip); [lia|]. apply He in Hp. lia.
    + symmetry. apply filter_none. intros k Hk Hki. apply elem_of_seq in Hk. apply parent_lt in Hki; [lia|done].
  - intros k j Hk [= <-]. apply Hb. lia.
  - intros Hpos. destruct (Hb (S i) ltac:(lia)) as (p & Hp & Hip). pose proof (parent_lt _ _ _ Hf Hp). rewrite Hp. f_equal. lia.
  - intros p Hp. replace (S i + m)%nat with (i + S m)%nat in Hp by lia. apply He in Hp. lia.
Qed.

Definition roots (s : list ElfDwarfDieType) : list nat := filter (λ k, parent_of s k = None) (seq 0 (length s)).
Lemma visit_roots s : forest s → concat (map (visit (S (length s)) s) (roots s)) = seq 0 (length s).
Proof.
  intros Hf. unfold roots. apply (visit_siblings s Hf (S (length s))); [|lia|lia|done| |].
  - intros i m Hm. apply visit_subtree; [done|lia].
  - intros Hpos. destruct (parent_of s 0) as [p|] eqn:Hp; [|done]. apply parent_lt in Hp; [lia|done].
  - intros p Hp. apply parent_length in Hp. lia.
Qed.

(** ** Values *)

(** How a value is written in a form by the standard, and what it means for a value at [p]:
    [off] is the offset of the unit in its section, to which references are relative, and [str]
    that of the strings in the image.  The bounds are what the reader can hold: an address and
    the sum of a reference and [off] have to fit the member of the union they are stored in
    ([short_reference_wraps], [long_address_cut]), numbers of variable length four bytes of code. *)
Inductive written (off psize str : Z) : Z → list Z → (Z → attr_encoded) → Prop :=
  | w_addr x : psize = 4 → 0 ≤ x < 2 ^ 32 → written off psize str DW_FORM_addr (le_bytes 4 x) (λ _, ENum x)
  | w_addr64 x : psize = 8 → 0 ≤ x < 2 ^ 32 → written off psize str DW_FORM_addr (le_bytes 8 x) (λ _, ENum x)
  | w_data1 x : 0 ≤ x < 2 ^ 8 → written off psize str DW_FORM_data1 (le_bytes 1 x) (λ _, ENum x)
  | w_data2 x : 0 ≤ x < 2 ^ 16 → written off psize str DW_FORM_data2 (le_bytes 2 x) (λ _, ENum x)
  | w_data4 x : 0 ≤ x < 2 ^ 32 → written off psize str DW_FORM_data4 (le_bytes 4 x) (λ _, ENum x)
  | w_data8 x : 0 ≤ x < 2 ^ 64 → written off psize str DW_FORM_data8 (le_bytes 8 x) (λ _, ENum x)
  | w_sdata x : - 2 ^ 27 ≤ x < 2 ^ 27 → written off psize str DW_FORM_sdata (sleb128 x) (λ _, ENum (x mod 2 ^ 64))
  | w_udata x : 0 ≤ x < 2 ^ 28 → written off psize str DW_FORM_udata (uleb128 x) (λ _, ENum x)
  | w_string s : Forall (λ c, c ≠ 0) s → zlen s < 2 ^ 31 → written off psize str DW_FORM_string (s ++ [0]) (λ p, EString p)
  | w_strp x : 0 ≤ x < 2 ^ 32 → written off psize str DW_FORM_strp (le_bytes 4 x) (λ _, EString (str + x))
  | w_flag x : 0 ≤ x < 2 ^ 8 → written off psize str DW_FORM_flag (le_bytes 1 x) (λ _, ENum x)
  | w_present : written off psize str DW_FORM_flag_present [] (λ _, ENum 1)
  | w_ref1 x : 0 ≤ x → x + off < 2 ^ 8 → written off psize str DW_FORM_ref1 (le_bytes 1 x) (λ _, ENum (x + off))
  | w_ref2 x : 0 ≤ x → x + off < 2 ^ 16 → written off psize str DW_FORM_ref2 (le_bytes 2 x) (λ _, ENum (x + off))
  | w_ref4 x : 0 ≤ x → x + off < 2 ^ 32 → written off psize str DW_FORM_ref4 (le_bytes 4 x) (λ _, ENum (x + off))
  | w_ref8 x : 0 ≤ x → x + off < 2 ^ 64 → written off psize str DW_FORM_ref8 (le_bytes 8 x) (λ _, ENum (x + off))
  | w_offset x : 0 ≤ x < 2 ^ 32 → written off psize str DW_FORM_sec_offset (le_bytes 4 x) (λ _, ENum x)
  | w_block1 bs : zlen bs < 2 ^ 8 → written off psize str DW_FORM_block1 (le_bytes 1 (zlen bs) ++ bs) (λ p, EOp (zlen bs) (p + 1))
  | w_block2 bs : zlen bs < 2 ^ 16 → written off psize str DW_FORM_block2 (le_bytes 2 (zlen bs) ++ bs) (λ p, EOp (zlen bs) (p + 2))
  | w_block4 bs : zlen bs < 2 ^ 31 → written off psize str DW_FORM_block4 (le_bytes 4 (zlen bs) ++ bs) (λ p, EOp (zlen bs) (p + 4))
  | w_exprloc bs : zlen bs < 2 ^ 28 →
      written off psize str DW_FORM_exprloc (uleb128 (zlen bs) ++ bs) (λ p, EOp (zlen bs) (p + zlen (uleb128 (zlen bs)))).

Lemma seg_data8 data p v : seg data p (le_bytes 1 v) → 0 ≤ v < 2 ^ 8 → elf_get_data8 data p = Ok v.
Proof. intros Hs Hv. apply seg_cons in Hs as [Hb _]. unfold elf_get_data8. rewrite Hb. f_equal. apply Z.mod_small. lia. Qed.

Lemma le_bytes_8_low v : ∃ r, le_bytes 8 v = le_bytes 4 (v mod 2 ^ 32) ++ r.
Proof. eexists. cbn [le_bytes app]. repeat (apply (f_equal2 cons); [zdiv|]). reflexivity. Qed.

Lemma uleb_short k n : zlen (uleb k n) ≤ Z.of_nat k + 1.
Proof. revert n. induction k as [|k IH]; intros n; cbn [uleb]; [by vm_compute|]. case_match; unfold zlen in *; simpl; [lia|]. specialize (IH (n / 128)). lia. Qed.

Lemma seg_data64 data p v : seg data p (le_bytes 8 v) → 0 ≤ v < 2 ^ 64 → zlen data ≤ 2 ^ 32 → elf_get_data64 data p = Ok v.
Proof.
  intros Hs Hv Hd. pose proof (seg_range _ _ _ Hs ltac:(done)) as Hr. rewrite le_bytes_len in Hr. pose proof Hs as [Hp _].
  pose proof (le_val_bytes 8 v) as Hval. rewrite Z.mod_small in Hval by (change (8 * Z.of_nat 8) with 64; lia).
  assert (Hb : ∀ i b, le_bytes 8 v !! i = Some b → elf_byte data (u32 (p + Z.of_nat i)) = Ok b).
  { intros i b Hb. pose proof (lookup_lt_Some _ _ _ Hb) as Hi. pose proof (le_bytes_len 8 v) as Hl8. unfold zlen in Hl8.
    rewrite wrap_id by (unfold in_width; lia). apply take_drop_middle in Hb. rewrite <- Hb in Hs.
    apply seg_app in Hs as [_ Hs]. apply seg_cons in Hs as [Hs _]. rewrite <- Hs. f_equal. unfold zlen. rewrite length_take. lia. }
  unfold elf_get_data64. pose proof (Hb 0%nat _ eq_refl) as E0. rewrite Z.add_0_r, wrap_id in E0 by (unfold in_width; lia).
  rewrite E0. cbn [mbind outcome_bind].
  pose proof (Hb 1%nat _ eq_refl) as E1. change (Z.of_nat 1) with 1 in E1. rewrite E1. cbn [mbind outcome_bind].
  pose proof (Hb 2%nat _ eq_refl) as E2. change (Z.of_nat 2) with 2 in E2. rewrite E2. cbn [mbind outcome_bind].
  pose proof (Hb 3%nat _ eq_refl) as E3. change (Z.of_nat 3) with 3 in E3. rewrite E3. cbn [mbind outcome_bind].
  pose proof (Hb 4%nat _ eq_refl) as E4. change (Z.of_nat 4) with 4 in E4. rewrite E4. cbn [mbind outcome_bind].
  pose proof (Hb 5%nat _ eq_refl) as E5. change (Z.of_nat 5) with 5 in E5. rewrite E5. cbn [mbind outcome_bind].
  pose proof (Hb 6%nat _ eq_refl) as E6. change (Z.of_nat 6) with 6 in E6. rewrite E6. cbn [mbind outcome_bind].
  pose proof (Hb 7%nat _ eq_refl) as E7. change (Z.of_nat 7) with 7 in E7. rewrite E7. cbn [mbind outcome_bind].
  f_equal. exact Hval.
Qed.

(** Every value of a form the reader knows is read back. *)
Lemma parse_attr_ok cu str data p form bs e :
  written (cu_offset cu) (pointer_size cu) str form bs e → 0 ≤ cu_offset cu → seg data p bs → zlen data ≤ 2 ^ 32 →
  ∃ name, elf_dwarf_info_parse_attr str cu data p form = Ok (Some (e p, name), zlen bs).
Proof.
  intros Hw Ho Hs Hd. assert (Hle : zlen bs ≤ 2 ^ 32).
  { destruct bs; [done|]. pose proof (seg_range _ _ _ Hs ltac:(done)). destruct Hs as [? _]. lia. }
  assert (Hu : ∀ x, 0 ≤ x < 2 ^ 32 → u32 x = x) by (intros; by apply wrap_id).
  destruct Hw; unfold elf_dwarf_info_parse_attr; simpl (_ =? _); cbn match; eexists; rewrite ?zlen_app, ?le_bytes_len in *;
    repeat match goal with
    | H : seg _ _ (le_bytes _ _ ++ _) |- _ => apply seg_app in H as [H _]
    | H : seg _ _ (uleb128 _ ++ _) |- _ => apply seg_app in H as [H _]
    end;
    try match goal with
    | x : Z, H : seg _ _ (le_bytes 4 ?x) |- _ => rewrite (seg_data32 _ _ x H) by lia
    | H : seg _ _ (le_bytes 4 ?x) |- _ => rewrite (seg_data32 _ _ x H) by (pose proof (zlen_nonneg bs); lia)
    | H : seg _ _ (le_bytes 2 ?x) |- _ => rewrite (seg_data16 _ _ x H) by (try pose proof (zlen_nonneg bs); lia)
    | H : seg _ _ (le_bytes 1 ?x) |- _ => rewrite (seg_data8 _ _ x H) by (try pose proof (zlen_nonneg bs); lia)
    | H : seg _ _ (sleb128 ?x) |- _ => rewrite (sleb_value _ _ x H) by done
    | H : seg _ _ (uleb128 ?x) |- _ => rewrite (uleb_value _ _ x H) by (try pose proof (zlen_nonneg bs); lia)
    end; cbn [mbind outcome_bind].
  - by rewrite H.
  - destruct (le_bytes_8_low x) as [r Hr]. rewrite Hr in Hs. apply seg_app in Hs as [Hs _].
    rewrite Z.mod_small in Hs by done. rewrite (seg_data32 _ _ _ Hs) by done. cbn [mbind outcome_bind]. by rewrite H.
  - done.
  - done.
  - done.
  - rewrite (seg_data64 _ _ _ Hs) by done. done.
  - done.
  - done.
  - rewrite (seg_cstr _ _ _ Hs) by done. cbn [mbind outcome_bind]. pose proof (zlen_nonneg s). by rewrite Hu by lia.
  - done.
  - apply seg_cons in Hs as [Hs _]. rewrite Hs. cbn [mbind outcome_bind]. by rewrite Z.mod_small by (change 256 with (2 ^ 8); lia).
  - done.
  - by rewrite wrap_id by (unfold in_width; lia).
  - by rewrite wrap_id by (unfold in_width; lia).
  - by rewrite wrap_id by (unfold in_width; lia).
  - rewrite (seg_data64 _ _ _ Hs) by lia. cbn [mbind outcome_bind]. by rewrite wrap_id by (unfold in_width; lia).
  - done.
  - pose proof (zlen_nonneg bs). rewrite Hu by lia. by rewrite (Z.add_comm (zlen bs)).
  - pose proof (zlen_nonneg bs). rewrite Hu by lia. by rewrite (Z.add_comm (zlen bs)).
  - pose proof (zlen_nonneg bs). rewrite Hu by lia. by rewrite (Z.add_comm (zlen bs)).
  - pose proof (zlen_nonneg bs). pose proof (uleb_short 10 (zlen bs)). pose proof (zlen_nonneg (uleb128 (zlen bs))).
    by rewrite Hu by (unfold uleb128 in *; lia).
Qed.

(** The sum of a reference of one or two bytes and the offset of its unit is stored in as many
    bytes, and of an address of eight bytes only four are read. *)
Lemma short_reference_wraps cu str data p x : seg data p (le_bytes 1 x) → 0 ≤ x < 2 ^ 8 →
  ∃ name, elf_dwarf_info_parse_attr str cu data p DW_FORM_ref1 = Ok (Some (ENum (u8 (x + cu_offset cu)), name), 1).
Proof.
  intros Hs Hx. eexists. unfold elf_dwarf_info_parse_attr. simpl (_ =? _). cbn match. by rewrite (seg_data8 _ _ _ Hs).
Qed.
Lemma long_address_cut cu str data p x : pointer_size cu = 8 → seg data p (le_bytes 8 x) → zlen data ≤ 2 ^ 32 →
  ∃ name, elf_dwarf_info_parse_attr str cu data p DW_FORM_addr = Ok (Some (ENum (u32 x), name), 8).
Proof.
  intros Hp Hs Hd. eexists. unfold elf_dwarf_info_parse_attr. simpl (_ =? _). cbn match.
  destruct (le_bytes_8_low x) as [r Hr]. rewrite Hr in Hs. apply seg_app in Hs as [Hs _].
  rewrite (seg_data32 _ _ _ Hs) by (try apply Z.mod_pos_bound; lia). cbn [mbind outcome_bind]. by rewrite Hp.
Qed.

(** ** Entries and units *)

(** An entry is written as its code and its values, each with what is read for it; a code 0
    ends a list of children. *)
Inductive item := INull | IEntry (code : Z) (vals : list (list Z * (Z → attr_encoded))).
Definition encode_vals (vals : list (list Z * (Z → attr_encoded))) : list Z := concat (map fst vals).
Definition encode_item (i : item) : list Z :=
  match i with INull => [0] | IEntry code vals => uleb128 code ++ encode_vals vals end.
Definition encode_items (l : list item) : list Z := concat (map encode_item l).

Section unit_items.
Context (arr : list ElfDwarfAbbrevType) (top : ElfDwarfAbbrevType) (off psize str sect : Z).

(** The abbreviation of the code gives the forms of the values. *)
Definition item_ok (i : item) : Prop :=
  match i with
  | INull => True
  | IEntry code vals => number_ok code ∧ code ≠ 0 ∧ ∃ entry forms,
      elf_dwarf_abbrev_get_from_code arr top code = Some entry ∧ attribute_form entry = forms ++ [0] ∧
      Forall2 (λ form v, written off psize str form v.1 v.2) forms vals
  end.

(** The attributes and entries to be read at the offset [pos] of the section. *)
Fixpoint attrs_read (pos : Z) (forms : list Z) (vals : list (list Z * (Z → attr_encoded))) : list (Z * Z * Z * attr_encoded) :=
  match forms, vals with
  | form :: forms, (bs, e) :: vals => (form, pos, zlen bs, e (sect + pos)) :: attrs_read (pos + zlen bs) forms vals
  | _, _ => []
  end.
Fixpoint items_read (pos : Z) (l : list item) : list (Z * Z * ElfDwarfAbbrevType * list (Z * Z * Z * attr_encoded)) :=
  match l with
  | [] => []
  | INull :: l => items_read (pos + 1) l
  | IEntry code vals :: l =>
      match elf_dwarf_abbrev_get_from_code arr top code with
      | Some entry => [(pos, code, entry, attrs_read (pos + zlen (uleb128 code)) (attribute_form entry) vals)]
      | None => []
      end ++ items_read (pos + zlen (encode_item (IEntry code vals))) l
  end.

Lemma encode_item_pos i : 0 < zlen (encode_item i).
Proof. destruct i as [|code vals]; [done|]. simpl. rewrite zlen_app. pose proof (uleb_pos code). pose proof (zlen_nonneg (encode_vals vals)). lia. Qed.

Lemma parse_attrs_ok cu data forms vals es :
  cu_offset cu = off → pointer_size cu = psize →
  Forall2 (λ form v, written off psize str form v.1 v.2) forms vals →
  seg data (sect + off + es) (encode_vals vals) → zlen data ≤ 2 ^ 32 → 0 ≤ off → 0 ≤ es →
  off + es + zlen (encode_vals vals) < 2 ^ 32 →
  ∃ attrs, parse_attrs str cu data sect (forms ++ [0]) es = Ok (attrs, es + zlen (encode_vals vals)) ∧
    map attr_view attrs = attrs_read (off + es) (forms ++ [0]) vals.
Proof.
  intros Hoff Hps Hw Hs Hd Ho He Hlt. revert es Hs He Hlt. induction Hw as [|form [bs e] forms vals Hv _ IH]; intros es Hs He Hlt.
  - exists []. cbn. split; [|done]. rewrite wrap_id by (unfold in_width; change (zlen (encode_vals [])) with 0 in Hlt; lia). done.
  - change (encode_vals ((bs, e) :: vals)) with (bs ++ encode_vals vals) in *. apply seg_app in Hs as [Hb Hs].
    rewrite zlen_app in *. pose proof (zlen_nonneg bs). pose proof (zlen_nonneg (encode_vals vals)).
    cbn [fst snd app] in *. cbn [parse_attrs]. rewrite Hoff, !(wrap_id 32 (off + es)), Z.add_assoc by (unfold in_width; lia).
    destruct (parse_attr_ok cu str data (sect + off + es) form bs e) as (name & Hp); [by rewrite Hoff, Hps|by rewrite Hoff|done|done|].
    rewrite Hp. cbn [mbind outcome_bind]. rewrite !wrap_id by (unfold in_width; lia).
    destruct (IH (es + zlen bs)) as (attrs & Hr & Hview); [by apply (seg_move _ _ _ _ Hs); lia|lia|lia|].
    rewrite Hr. cbn [mbind outcome_bind]. eexists. split.
    + do 2 f_equal. lia.
    + cbn [map attr_view at_type at_offset at_size encoded attrs_read]. rewrite Hview. rewrite !Z.add_assoc. done.
Qed.

Lemma read_dies_ok cu data l fuel es w a :
  cu_offset cu = off → pointer_size cu = psize → Forall item_ok l →
  seg data (sect + off + es) (encode_items l) → zlen data ≤ 2 ^ 32 → 0 ≤ off → 0 ≤ es →
  off + es + zlen (encode_items l) < 2 ^ 32 → cu_length cu + 4 = es + zlen (encode_items l) →
  walk_ok w → unit_dies a w → (length l < fuel)%nat →
  ∃ w', read_dies fuel str arr top cu data sect es w = Ok (es + zlen (encode_items l), w') ∧ walk_ok w' ∧ unit_dies a w' ∧
    map die_view (w_store w') = map die_view (w_store w) ++ items_read (off + es) l.
Proof.
  intros Hoff Hps Hl Hs Hd Ho He Hlt Hlen. revert fuel es w Hs He Hlt Hlen.
  induction Hl as [|i l Hi _ IH]; intros fuel es w Hs He Hlt Hlen Hw Hu Hf;
    (destruct fuel as [|fuel]; [simpl in Hf; lia|]); cbn [read_dies].
  - change (zlen (encode_items [])) with 0 in *. rewrite Hlen, wrap_id by (unfold in_width; lia).
    replace (es <? es + 0) with false by lia. exists w. rewrite Z.add_0_r. split_and!; [done..|by rewrite app_nil_r].
  - change (encode_items (i :: l)) with (encode_item i ++ encode_items l) in *. apply seg_app in Hs as [Hhd Hs].
    pose proof (encode_item_pos i) as Hpos. pose proof (zlen_nonneg (encode_items l)). rewrite zlen_app in *.
    rewrite Hlen, wrap_id by (unfold in_width; lia). replace (es <? _) with true by lia. rewrite Hoff, !(wrap_id 32 (off + es)), Z.add_assoc by (unfold in_width; lia).
    destruct i as [|code vals].
    + change (zlen (encode_item INull)) with 1 in *.
      assert (elf_dwarf_decode_uleb128 data (sect + off + es) = Ok (0, 1)) as ->.
      { apply seg_cons in Hhd as [Hb _]. unfold elf_dwarf_decode_uleb128. cbn [uleb_loop]. by rewrite Z.add_0_r, Hb. }
      cbn [mbind outcome_bind Z.eqb]. destruct (close_children_ok w Hw) as (w1 & Hc & Hw1 & Hst & Hdi). rewrite Hc.
      cbn [mbind outcome_bind]. rewrite wrap_id by (unfold in_width; lia).
      destruct (IH fuel (es + 1) w1) as (w' & Hr & Hw' & Hu' & Hview);
        [apply (seg_move _ _ _ _ Hs); lia|lia|lia|lia|done|unfold unit_dies; by rewrite Hst, Hdi|simpl in Hf; lia|].
      exists w'. rewrite Hr. split_and!; [do 2 f_equal; lia|done|done|].
      rewrite Hview, Hst. cbn [items_read]. by rewrite Z.add_assoc.
    + destruct Hi as (Hcode & Hne & entry & forms & Hget & Hforms & Hvals). pose proof Hhd as Hhd0.
      cbn [encode_item] in *. rewrite zlen_app in *. apply seg_app in Hhd as [Hc Hv].
      pose proof (uleb_pos code). pose proof (zlen_nonneg (encode_vals vals)).
      rewrite (uleb_read _ _ _ Hc Hcode). cbn [mbind outcome_bind]. destruct (Z.eqb_spec code 0); [done|].
      rewrite Hget, Hforms, !wrap_id by (unfold in_width; lia).
      destruct (parse_attrs_ok cu data forms vals (es + zlen (uleb128 code))) as (attrs & Hp & Hav);
        [done|done|done|apply (seg_move _ _ _ _ Hv); lia|done|lia|lia|lia|].
      rewrite Hp. cbn [mbind outcome_bind].
      destruct (append_die_ok (off + es) code entry attrs w Hw) as (w1 & Hap & _). rewrite Hap. cbn [mbind outcome_bind].
      destruct (append_die_dies _ _ _ _ _ _ _ Hw Hu Hap) as (Hw1 & Hu1 & Hview1).
      destruct (IH fuel (es + zlen (uleb128 code) + zlen (encode_vals vals)) w1) as (w' & Hr & Hw' & Hu' & Hview);
        [apply (seg_move _ _ _ _ Hs); lia|lia|lia|lia|done|done|simpl in Hf; lia|].
      exists w'. rewrite Hr. split_and!; [do 2 f_equal; lia|done|done|].
      rewrite Hview, Hview1, Hav, <- app_assoc. cbn [items_read encode_item]. rewrite Hget, Hforms, zlen_app.
      f_equal. cbn [app]. rewrite !Z.add_assoc. done.
Qed.
End unit_items.

Record info_unit := mkInfoUnit { iu_version : Z; iu_abbrev : Z; iu_psize : Z; iu_items : list item }.
Definition encode_info_unit (u : info_unit) : list Z :=
  le_bytes 4 (7 + zlen (encode_items (iu_items u))) ++ le_bytes 2 (iu_version u) ++ le_bytes 4 (iu_abbrev u) ++
  le_bytes 1 (iu_psize u) ++ encode_items (iu_items u).
Definition encode_info (us : list info_unit) : list Z := concat (map encode_info_unit us).
Definition cu_view (cu : ElfDwarfCompilationUnitHeaderType) : Z * Z * Z * Z * Z :=
  (cu_offset cu, cu_length cu, cu_version cu, abbrev_offset cu, pointer_size cu).

Section units.
Context (arr : list ElfDwarfAbbrevType) (str sect : Z).

(** The units from the offset [pos] of the section: fields of their width, and entries that
    the abbreviations at the offset of the unit describe. *)
Fixpoint units_ok (pos : Z) (us : list info_unit) : Prop :=
  match us with
  | [] => True
  | u :: us =>
      0 ≤ iu_version u < 2 ^ 16 ∧ 0 ≤ iu_abbrev u < 2 ^ 32 ∧ 0 ≤ iu_psize u < 2 ^ 8 ∧
      (∃ top, elf_dwarf_abbrev_get arr (iu_abbrev u) = Some top ∧ Forall (item_ok arr top pos (iu_psize u) str) (iu_items u)) ∧
      units_ok (pos + zlen (encode_info_unit u)) us
  end.
Fixpoint headers_read (pos : Z) (us : list info_unit) : list (Z * Z * Z * Z * Z) :=
  match us with
  | [] => []
  | u :: us => (pos, 7 + zlen (encode_items (iu_items u)), iu_version u, iu_abbrev u, iu_psize u) ::
      headers_read (pos + zlen (encode_info_unit u)) us
  end.
Fixpoint units_read (pos : Z) (us : list info_unit) : list (Z * Z * ElfDwarfAbbrevType * list (Z * Z * Z * attr_encoded)) :=
  match us with
  | [] => []
  | u :: us =>
      match elf_dwarf_abbrev_get arr (iu_abbrev u) with
      | Some top => items_read arr top sect (pos + header_size) (iu_items u)
      | None => []
      end ++ units_read (pos + zlen (encode_info_unit u)) us
  end.

Lemma encode_info_unit_len u : zlen (encode_info_unit u) = 11 + zlen (encode_items (iu_items u)).
Proof. unfold encode_info_unit. rewrite !zlen_app, !le_bytes_len. lia. Qed.

Lemma read_units_ok us fuel pos data store die :
  units_ok pos us → seg data (sect + pos) (encode_info us) → zlen data ≤ 2 ^ 32 → 0 ≤ pos →
  pos + zlen (encode_info us) < 2 ^ 32 → (length us < fuel)%nat →
  forest store → die = match length store with O => None | S j => Some j end →
  ∃ cus store', read_units fuel str arr data sect pos (pos + zlen (encode_info us)) store die = Ok (cus, store') ∧
    map cu_view cus = headers_read pos us ∧ map die_view store' = map die_view store ++ units_read pos us.
Proof.
  intros Hus Hs Hd Hpos Hlt Hf Hfo Hdie. revert fuel pos store die Hus Hs Hpos Hlt Hf Hfo Hdie.
  induction us as [|u us IH]; intros fuel pos store die Hus Hs Hpos Hlt Hf Hfo Hdie;
    (destruct fuel as [|fuel]; [simpl in Hf; lia|]); cbn [read_units].
  - change (zlen (encode_info [])) with 0. replace (pos <? pos + 0) with false by lia.
    exists [], store. split_and!; [done|done|by rewrite app_nil_r].
  - destruct Hus as (Hver & Habb & Hps & (top & Htop & Hitems) & Hus).
    change (encode_info (u :: us)) with (encode_info_unit u ++ encode_info us) in *. apply seg_app in Hs as [Hu Hs].
    pose proof Hu as Hu0. rewrite zlen_app in *. pose proof (encode_info_unit_len u) as Hulen. rewrite Hulen in *.
    pose proof (zlen_nonneg (encode_items (iu_items u))). pose proof (zlen_nonneg (encode_info us)).
    set (n := zlen (encode_items (iu_items u))) in *. replace (pos <? _) with true by lia.
    unfold encode_info_unit in Hu. fold n in Hu. apply seg_app in Hu as [H1 Hu]. apply seg_app in Hu as [H2 Hu].
    apply seg_app in Hu as [H3 Hu]. apply seg_app in Hu as [H4 Hu]. rewrite !le_bytes_len, <- !Z.add_assoc in *.
    rewrite (seg_data32 _ _ _ H1) by lia. cbn [mbind outcome_bind].
    rewrite (seg_data16 _ _ (iu_version u)) by (try lia; apply (seg_move _ _ _ _ H2); lia). cbn [mbind outcome_bind].
    rewrite (seg_data32 _ _ (iu_abbrev u)) by (try lia; apply (seg_move _ _ _ _ H3); lia). cbn [mbind outcome_bind].
    rewrite (seg_data8 _ _ (iu_psize u)) by (try lia; apply (seg_move _ _ _ _ H4); lia). cbn [mbind outcome_bind].
    rewrite Htop. set (cu := mkCu pos (7 + n) (iu_version u) (iu_abbrev u) (iu_psize u) []).
    destruct (read_dies_ok arr top pos (iu_psize u) str sect cu data (iu_items u) (S (length data)) header_size
      (mkWalk store die None 0 []) (length store)) as (w & Hr & Hw & Hwu & Hview);
      [done|done|done|apply (seg_move _ _ _ _ Hu); unfold header_size; lia|done|lia|done|fold n; unfold header_size; lia
      |fold n; unfold cu, header_size; cbn [cu_length]; lia|by apply walk_ok_unit|split; [done|simpl; by rewrite Nat.sub_diag]| |].
    { pose proof (concat_len encode_item (iu_items u) encode_item_pos) as Hc. fold (encode_items (iu_items u)) n in Hc.
      apply seg_fuel in Hu0. unfold zlen in *. lia. }
    rewrite Hr. cbn [mbind outcome_bind]. fold n. change (cu_length cu) with (7 + n).
    rewrite !wrap_id by (unfold in_width, header_size; lia). replace (header_size + n =? 7 + n + 4) with true by (unfold header_size; lia).
    cbn [assert_c mbind outcome_bind].
    destruct (IH fuel (pos + (11 + n)) (w_store w) (w_die w)) as (cus & st' & Hr' & Hcv & Hdv);
      [done|apply (seg_move _ _ _ _ Hs); lia|lia|lia|simpl in Hf; lia|apply Hw|by apply walk_die|].
    replace (pos + (header_size + n)) with (pos + (11 + n)) by (unfold header_size; lia).
    replace (pos + (11 + (n + zlen (encode_info us)))) with (pos + (11 + n) + zlen (encode_info us)) by lia.
    rewrite Hr'. cbn [mbind outcome_bind]. eexists _, st'. split; [reflexivity|]. split.
    + cbn [map headers_read cu_view cu_offset cu_length cu_version abbrev_offset pointer_size]. rewrite Hcv, encode_info_unit_len. done.
    + rewrite Hdv, Hview, <- app_assoc. cbn [w_store units_read]. rewrite Htop, encode_info_unit_len. done.
Qed.
End units.

(** C31: a section [.debug_info] written by the rules of the DWARF standard, with values of
    the forms the reader knows, is read back: every unit with its header, and every entry with
    its offset, its code, the abbreviation of its code and each of its values, a reference
    made relative to the section and text as a pointer to it.  The values are those of
    [written]: addresses below 2^32, references of one, two, four or eight bytes whose sum with
    the offset of their unit still fits so many bytes, LEB128 numbers of up to four bytes. *)
Theorem info_entries_read us data st arr str strsize sect :
  units_ok arr str 0 us → zlen data ≤ 2 ^ 32 → zlen (encode_info us) < 2 ^ 32 →
  elf_section_get data SECTION_DWARF_STR_NAME st = Ok (STD_E_OK, Some (str, strsize)) →
  elf_section_get data SECTION_DWARF_INFO_NAME st = Ok (STD_E_OK, Some (sect, zlen (encode_info us))) →
  seg data sect (encode_info us) →
  ∃ info, elf_dwarf_info_load data st (Some arr) = Ok (STD_E_OK, info) ∧
    map cu_view (elf_dwarf_info_get info) = headers_read 0 us ∧
    map die_view (die_store info) = units_read arr sect 0 us.
Proof.
  intros Hus Hd Hlen Hstr Hsec Hs. unfold elf_dwarf_info_load. rewrite Hstr. cbn [mbind outcome_bind std_ok].
  rewrite Hsec. cbn [mbind outcome_bind std_ok]. rewrite wrap_id by (split; [apply zlen_nonneg|done]).
  destruct (read_units_ok arr str sect us (S (length data)) 0 data [] None) as (cus & store & Hr & Hc & Hv);
    [done|by rewrite Z.add_0_r|done|done|done| |split; [intros k p Hk; apply parent_length in Hk; simpl in Hk; lia|simpl; lia]|done|].
  { pose proof (concat_len encode_info_unit us) as Hc. specialize (Hc ltac:(intros u; rewrite encode_info_unit_len; pose proof (zlen_nonneg (encode_items (iu_items u))); lia)).
    fold (encode_info us) in Hc. apply seg_fuel in Hs. unfold zlen in *. lia. }
  rewrite Z.add_0_l in Hr. rewrite Hr. cbn [mbind outcome_bind]. eexists. split; [reflexivity|]. done.
Qed.

(** ** A file with debugging entries

    A structure, a type name for it, a two-dimensional array of it, an enumeration behind a
    qualifier, a pointer, a function with a local variable, and a global variable of its name. *)
Module InfoDemo.
Definition table : list decl := [
  mkDecl 1 0x11 1 [(3, 8)];                          (* compile unit *)
  mkDecl 2 0x24 0 [(0x0b, 0x0b); (0x3e, 0x0b); (3, 8)];   (* base type *)
  mkDecl 3 0x13 1 [(3, 8); (0x0b, 0x0b)];            (* structure *)
  mkDecl 4 0x0d 0 [(3, 8); (0x49, 0x13); (0x38, 0x0a)];   (* member *)
  mkDecl 5 0x16 0 [(3, 8); (0x49, 0x13)];            (* type name *)
  mkDecl 6 0x01 1 [(0x49, 0x13)];                    (* array *)
  mkDecl 7 0x21 0 [(0x2f, 0x0b)];                    (* range of an index *)
  mkDecl 8 0x34 0 [(3, 0x0e); (0x49, 0x13)];         (* variable *)
  mkDecl 9 0x04 1 [(3, 8); (0x0b, 0x0b)];            (* enumeration *)
  mkDecl 10 0x28 0 [(3, 8); (0x1c, 0x0d)];           (* enumerator *)
  mkDecl 11 0x0f 0 [(0x0b, 0x0b); (0x49, 0x13)];     (* pointer *)
  mkDecl 12 0x35 0 [(0x49, 0x13)];                   (* volatile *)
  mkDecl 13 0x2e 1 [(3, 8); (0x40, 0x06)];           (* function *)
  mkDecl 14 0x34 0 [(3, 8); (0x49, 0x13); (0x02, 0x0a)]   (* local variable *)
].

Definition vtext (s : string) : list Z * (Z → attr_encoded) := (str_of s ++ [0], λ p, EString p).
Definition vref (x : Z) : list Z * (Z → attr_encoded) := (le_bytes 4 x, λ _, ENum (x + 0)).
Definition vdata (n : nat) (x : Z) : list Z * (Z → attr_encoded) := (le_bytes n x, λ _, ENum x).
Definition vblock (bs : list Z) : list Z * (Z → attr_encoded) := (le_bytes 1 (zlen bs) ++ bs, λ p, EOp (zlen bs) (p + 1)).
Definition vsigned (x : Z) : list Z * (Z → attr_encoded) := (sleb128 x, λ _, ENum (x mod 2 ^ 64)).
(** The layout of the image. *)
Definition names : list Z :=
  0 :: concat (map (λ s, s ++ [0]) [SECTION_DWARF_ABBREV_NAME; SECTION_DWARF_INFO_NAME; SECTION_DWARF_STR_NAME; SECTION_DWARF_LOC_NAME]).
Definition abbrevs : list Z := encode_tables [table].
Definition strings : list Z := concat (map (λ s, str_of s ++ [0]) ["grid"; "c"; "p"]%string).
Definition str_at : Z := 52 + zlen names + zlen abbrevs.
Definition vstrp (x : Z) : list Z * (Z → attr_encoded) := (le_bytes 4 x, λ _, EString (str_at + x)).

Definition entries : list item := [
  IEntry 1 [vtext "a.c"];                                             (* 11 *)
  IEntry 2 [vdata 1 4; vdata 1 5; vtext "int"];                       (* 16 *)
  IEntry 3 [vtext "point"; vdata 1 8];                                (* 23 *)
  IEntry 4 [vtext "x"; vref 16; vblock [0x23; 0]];                    (* 31 *)
  IEntry 4 [vtext "y"; vref 16; vblock [0x23; 4]];                    (* 41 *)
  INull;
  IEntry 5 [vtext "point_t"; vref 23];                                (* 52 *)
  IEntry 6 [vref 52];                                                 (* 65 *)
  IEntry 7 [vdata 1 1];                                               (* 70 *)
  IEntry 7 [vdata 1 2];                                               (* 72 *)
  INull;
  IEntry 8 [vstrp 0; vref 65];                                        (* 75 *)
  IEntry 9 [vtext "color"; vdata 1 4];                                (* 84 *)
  IEntry 10 [vtext "RED"; vsigned 1];                                 (* 92 *)
  IEntry 10 [vtext "BLUE"; vsigned 5];                                (* 98 *)
  INull;
  IEntry 12 [vref 84];                                                (* 106 *)
  IEntry 8 [vstrp 5; vref 106];                                       (* 111 *)
  IEntry 11 [vdata 1 4; vref 16];                                     (* 120 *)
  IEntry 8 [vstrp 7; vref 120];                                       (* 126 *)
  IEntry 13 [vtext "main"; vdata 4 0];                                (* 135 *)
  IEntry 14 [vtext "i"; vref 16; vblock [0x91; 0x10]];                (* 145 *)
  INull;
  IEntry 14 [vtext "i"; vref 84; vblock [3; 0; 0x20; 0; 0]];          (* 156: a global variable *)
  INull].
Definition unit : info_unit := mkInfoUnit 4 0 4 entries.
Definition infos : list Z := encode_info [unit].
(** Register 3 plus 8 for 16 bytes, then register 3, then the end of the list. *)
Definition locs : list Z :=
  le_bytes 4 0 ++ le_bytes 4 0x10 ++ le_bytes 2 2 ++ [0x73; 8] ++
  le_bytes 4 0x10 ++ le_bytes 4 0x20 ++ le_bytes 2 2 ++ [0x73; 0] ++ le_bytes 4 0 ++ le_bytes 4 0.

Definition abbrev_at : Z := 52 + zlen names.
Definition info_at : Z := str_at + zlen strings.
Definition loc_at : Z := info_at + zlen infos.
Definition table_at : Z := loc_at + zlen locs.
Definition image : list Z :=
  SectionDemo.ehdr32 table_at 6 ++ names ++ abbrevs ++ strings ++ infos ++ locs ++
  SectionDemo.shdr32 0 0 0 0 0 0 ++ SectionDemo.shdr32 0 3 52 (zlen names) 0 0 ++
  SectionDemo.shdr32 1 1 abbrev_at (zlen abbrevs) 0 0 ++ SectionDemo.shdr32 15 1 info_at (zlen infos) 0 0 ++
  SectionDemo.shdr32 27 1 str_at (zlen strings) 0 0 ++ SectionDemo.shdr32 38 1 loc_at (zlen locs) 0 0.
Definition loaded : elf_statics := mkElfStatics None 0 0 None 0 (Some 52) false None 0 None.
Definition arr : list ElfDwarfAbbrevType := tables_entries 0 0 [table].

Lemma table_ok : Forall (Forall decl_ok) [table].
Proof. repeat constructor; done. Qed.

Lemma abbrev_declarations_witness :
  ∃ a top i o, elf_dwarf_abbrev_load image loaded None = Ok (STD_E_OK, Some a) ∧
    elf_dwarf_abbrev_get a 0 = Some top ∧ elf_dwarf_abbrev_get_from_code a top 7 = Some (entry_of i o (mkDecl 7 0x21 0 [(0x2f, 0x0b)])).
Proof.
  destruct (abbrev_declarations_found [table] image loaded abbrev_at None) as (a & Ha & Hf);
    [exact table_ok|by vm_compute|vm_compute; reflexivity|split; [done|]; eexists; vm_compute; reflexivity|].
  destruct (Hf [] table [] (mkDecl 7 0x21 0 [(0x2f, 0x0b)])) as (top & i & o & Ht & He); [done| | |].
  - repeat constructor.
  - unfold table. do 6 right. left.
  - exists a, top, i, o. split; [exact Ha|]. split; [exact Ht|exact He].
Defined.

Lemma item_entry top psize code vals entry : number_ok code → code ≠ 0 →
  elf_dwarf_abbrev_get_from_code arr top code = Some entry →
  attribute_form entry = List.removelast (attribute_form entry) ++ [0] →
  Forall2 (λ form v, written 0 psize str_at form v.1 v.2) (List.removelast (attribute_form entry)) vals →
  item_ok arr top 0 psize str_at (IEntry code vals).
Proof. intros. split; [done|]. split; [done|]. by eexists _, _. Qed.

Ltac one_value :=
  first [ apply w_string; [by repeat constructor|done] | apply w_data1; done | apply w_ref4; done | apply w_block1; done
        | apply w_strp; done | apply w_sdata; done | apply w_data4; done ].

Lemma units_are_ok : units_ok arr str_at 0 [unit].
Proof.
  split_and!; [done..| |done]. eexists. split; [vm_compute; reflexivity|]. unfold unit, entries. cbn [iu_items iu_psize].
  repeat (apply Forall_cons; split); [..|apply Forall_nil; exact I]; try exact I.
  all: eapply item_entry; [done|done|vm_compute; reflexivity|reflexivity|]; cbn [List.removelast attribute_form];
    repeat (apply Forall2_cons; split); [..|apply Forall2_nil; exact I]; one_value.
Qed.

Lemma info_entries_witness :
  ∃ info, elf_dwarf_info_load image loaded (Some arr) = Ok (STD_E_OK, info) ∧
    map cu_view (elf_dwarf_info_get info) = headers_read 0 [unit] ∧
    map die_view (die_store info) = units_read arr info_at 0 [unit].
Proof.
  apply (info_entries_read [unit] image loaded arr str_at (zlen strings) info_at).
  - exact units_are_ok.
  - by vm_compute.
  - by vm_compute.
  - vm_compute. reflexivity.
  - vm_compute. reflexivity.
  - split; [done|]. eexists. vm_compute. reflexivity.
Defined.

Definition info : dwarf_info :=
  match elf_dwarf_info_load image loaded (Some arr) with Ok (_, i) => i | Fault _ => mkDwarfInfo None [] [] end.

(** The offsets, depths and parents of the entries.  A code 0 goes back to the parent of the
    entry read last, which is the entry whose children it ends: what follows the structure is
    read as its children, what follows the enumeration as children of that, and the global
    variable behind the function as one of the function. *)
Example parents_of_demo :
  map (λ d, (d_offset d, parent d ≫= λ p, d_offset <$> die_store info !! p)) (die_store info) =
    [(11, None); (16, Some 11); (23, Some 11); (31, Some 23); (41, Some 23); (52, Some 23); (65, Some 23); (70, Some 65);
     (72, Some 65); (75, Some 65); (84, Some 65); (92, Some 84); (98, Some 84); (106, Some 84); (111, Some 84);
     (120, Some 84); (126, Some 84); (135, Some 84); (145, Some 135); (156, Some 135)].
Proof. by vm_compute. Qed.

(** The location lists: offsets, ranges and links. *)
Example locations_of_demo :
  ('(_, l) ← elf_dwarf_loc_load image loaded None;
   Ok (map (λ e, (entryOffset e, relativeAddress0 e, relativeAddress1 e, block_length e, next e)) (default [] l))) =
  Ok [(0, 0, 16, 2, Some 1%nat); (12, 16, 32, 2, Some 2%nat); (24, 0, 0, 0, None)].
Proof. by vm_compute. Qed.
End InfoDemo.
