(* ===== verification/DwarfType.v ===== *)
(** * The data types of a debugged program

    [src/src/lib/dwarf/data_type/]: from the entries of [.debug_info] the debugger builds one
    object per type, variable and function, keeps them in one array per kind, and then makes
    every reference by offset a reference to an object.

    [elf_dwarf_data_type.c] is the registry, the recursion over the entries and the searches;
    the other files build and resolve one kind each.  An object is never removed from its
    array, so a pointer to one is its kind and its index.  [dirname] and [filename] are never
    set and not modelled, nor are the members of a local variable that stay 0. *)

From Stdlib Require Import String Ascii.
From S2P Require Import Prelude Token ElfImageCheck ElfSection DwarfLine DwarfInfo.
Open Scope Z_scope.

(** ** Tags and attributes *)

Definition DW_TAG_array_type : Z := 0x01.
Definition DW_TAG_class_type : Z := 0x02.
Definition DW_TAG_enumeration_type : Z := 0x04.
Definition DW_TAG_formal_parameter : Z := 0x05.
Definition DW_TAG_member : Z := 0x0d.
Definition DW_TAG_pointer_type : Z := 0x0f.
Definition DW_TAG_structure_type : Z := 0x13.
Definition DW_TAG_subroutine_type : Z := 0x15.
Definition DW_TAG_typedef : Z := 0x16.
Definition DW_TAG_union_type : Z := 0x17.
Definition DW_TAG_subrange_type : Z := 0x21.
Definition DW_TAG_base_type : Z := 0x24.
Definition DW_TAG_enumerator : Z := 0x28.
Definition DW_TAG_subprogram : Z := 0x2e.
Definition DW_TAG_variable : Z := 0x34.
Definition DW_AT_sibling : Z := 0x01.
Definition DW_AT_location : Z := 0x02.
Definition DW_AT_name : Z := 0x03.
Definition DW_AT_byte_size : Z := 0x0b.
Definition DW_AT_bit_offset : Z := 0x0c.
Definition DW_AT_bit_size : Z := 0x0d.
Definition DW_AT_low_pc : Z := 0x11.
Definition DW_AT_high_pc : Z := 0x12.
Definition DW_AT_visibility : Z := 0x17.
Definition DW_AT_const_value : Z := 0x1c.
Definition DW_AT_containing_type : Z := 0x1d.
Definition DW_AT_inline : Z := 0x20.
Definition DW_AT_lower_bound : Z := 0x22.
Definition DW_AT_prototyped : Z := 0x27.
Definition DW_AT_return_addr : Z := 0x2a.
Definition DW_AT_start_scope : Z := 0x2c.
Definition DW_AT_upper_bound : Z := 0x2f.
Definition DW_AT_abstract_origin : Z := 0x31.
Definition DW_AT_accessibility : Z := 0x32.
Definition DW_AT_address_class : Z := 0x33.
Definition DW_AT_artificial : Z := 0x34.
Definition DW_AT_calling_convention : Z := 0x36.
Definition DW_AT_count : Z := 0x37.
Definition DW_AT_data_member_location : Z := 0x38.
Definition DW_AT_decl_column : Z := 0x39.
Definition DW_AT_decl_file : Z := 0x3a.
Definition DW_AT_decl_line : Z := 0x3b.
Definition DW_AT_declaration : Z := 0x3c.
Definition DW_AT_encoding : Z := 0x3e.
Definition DW_AT_external : Z := 0x3f.
Definition DW_AT_frame_base : Z := 0x40.
Definition DW_AT_segment : Z := 0x46.
Definition DW_AT_specification : Z := 0x47.
Definition DW_AT_static_link : Z := 0x48.
Definition DW_AT_type : Z := 0x49.
Definition DW_AT_virtuality : Z := 0x4c.
Definition DW_AT_vtable_elem_location : Z := 0x4d.
Definition DW_AT_explicit : Z := 0x63.
Definition DW_AT_object_pointer : Z := 0x64.
Definition DW_AT_pure : Z := 0x67.
Definition DW_AT_enum_class : Z := 0x6d.
Definition DW_AT_linkage_name : Z := 0x6e.
Definition DW_AT_noreturn : Z := 0x87.
Definition DW_AT_alignment : Z := 0x88.
Definition DW_AT_MIPS_linkage_name : Z := 0x2007.
Definition DW_AT_unknown_0x2116 : Z := 0x2116.
Definition DW_AT_unknown_0x2117 : Z := 0x2117.
Definition DW_AT_unknown_0x2137 : Z := 0x2137.
Definition DW_AT_unknown_0x211a : Z := 0x211a.

(** ** Objects *)

Inductive DwarfDataEnumType :=
  | DATA_TYPE_BASE | DATA_TYPE_STRUCT | DATA_TYPE_UNION | DATA_TYPE_ARRAY | DATA_TYPE_POINTER
  | DATA_TYPE_TYPEDEF | DATA_TYPE_ENUM | DATA_TYPE_VARIABLE | DATA_TYPE_SUBPROGRAM | DATA_TYPE_CLASS.
#[export] Instance data_enum_type_eq_dec : EqDecision DwarfDataEnumType.
Proof. solve_decision. Defined.
(** The kinds in the order of their values. *)
Definition data_types : list DwarfDataEnumType :=
  [DATA_TYPE_BASE; DATA_TYPE_STRUCT; DATA_TYPE_UNION; DATA_TYPE_ARRAY; DATA_TYPE_POINTER; DATA_TYPE_TYPEDEF;
   DATA_TYPE_ENUM; DATA_TYPE_VARIABLE; DATA_TYPE_SUBPROGRAM; DATA_TYPE_CLASS].

(** A [char*]: into the image, or a literal of the program. *)
Inductive charp := InImage (p : Z) | Literal (s : list Z).
Definition text (data : list Z) (c : charp) : outcome (list Z) :=
  match c with InImage p => cstr_at data p | Literal s => Ok s end.
Definition charp_of (o : option Z) : option charp := InImage <$> o.

Abbreviation type_ptr := (DwarfDataEnumType * nat)%type.

Record DwarfDataType := mkInfo {
  t_die : nat; t_type : DwarfDataEnumType; t_typename : option charp; t_size : Z }.
(** The members [ref], [is_valid_ref_debug_info_offset] and [ref_debug_info_offset]. *)
Record type_link := mkLink { ref : option type_ptr; is_valid_ref : bool; ref_debug_info_offset : Z }.
Definition no_link : type_link := mkLink None false 0.

Record DwarfDataStructMember := mkMember {
  m_name : option charp; m_linkage_name : option charp; m_off : Z; m_link : type_link }.
Record DwarfDataEnumMember := mkEnumMember { em_name : option charp; const_value : Z }.
Record DwarfLocalVariableType := mkLocal {
  lv_name : option charp; lv_location : option ElfDwarfAttributeType; lv_link : type_link }.

Inductive type_body :=
  | BaseType (encoding : Z)
  | StructType (members : option (list DwarfDataStructMember))
  | ArrayType (link : type_link) (dimension : list Z)
  | PointerType (link : type_link)
  | TypedefType (link : type_link)
  | EnumType (members : option (list DwarfDataEnumMember))
  | VariableType (link : type_link)
  | SubprogramType (frame_loc_offset : Z) (variables : option (list DwarfLocalVariableType)).
Record dwarf_type := mkType { info : DwarfDataType; body : type_body }.

(** ** The registry: [dwarf_data_type_set], where [None] is NULL *)

Abbreviation type_set := (list (DwarfDataEnumType * option (list dwarf_type))).
Definition dwarf_data_type_set_init : type_set := map (λ ty, (ty, None)) data_types.

Fixpoint dwarf_get_data_types (ty : DwarfDataEnumType) (sets : type_set) : option (list dwarf_type) :=
  match sets with
  | [] => None
  | (ty', l) :: sets' => if bool_decide (ty' = ty) then l else dwarf_get_data_types ty sets'
  end.
Definition set_data_types (ty : DwarfDataEnumType) (l : list dwarf_type) (sets : type_set) : type_set :=
  map (λ '(ty', l'), if bool_decide (ty' = ty) then (ty', Some l) else (ty', l')) sets.

Definition dwarf_register_data_type (entry : dwarf_type) (sets : type_set) : type_set :=
  let ty := t_type (info entry) in
  set_data_types ty (default [] (dwarf_get_data_types ty sets) ++ [entry]) sets.
Definition type_at (p : type_ptr) (sets : type_set) : outcome dwarf_type :=
  match dwarf_get_data_types p.1 sets with
  | None => Fault NullDeref
  | Some l => oob (l !! p.2)
  end.

Definition get_dataType (tag : Z) : option DwarfDataEnumType :=
  if tag =? DW_TAG_array_type then Some DATA_TYPE_ARRAY
  else if tag =? DW_TAG_pointer_type then Some DATA_TYPE_POINTER
  else if tag =? DW_TAG_base_type then Some DATA_TYPE_BASE
  else if tag =? DW_TAG_structure_type then Some DATA_TYPE_STRUCT
  else if tag =? DW_TAG_union_type then Some DATA_TYPE_UNION
  else if tag =? DW_TAG_typedef then Some DATA_TYPE_TYPEDEF
  else if tag =? DW_TAG_enumeration_type then Some DATA_TYPE_ENUM
  else if tag =? DW_TAG_variable then Some DATA_TYPE_VARIABLE
  else if tag =? DW_TAG_subprogram then Some DATA_TYPE_SUBPROGRAM
  else if tag =? DW_TAG_class_type then Some DATA_TYPE_CLASS
  else None.

(** ** Reading the attributes of an entry *)

(** The loop over the attributes: the names and forms are those of the abbreviation at the
    same index. *)
Fixpoint walk_attrs {S} (f : Z → Z → ElfDwarfAttributeType → S → outcome S) (names forms : list Z)
    (attrs : list ElfDwarfAttributeType) (s : S) {struct attrs} : outcome S :=
  match attrs with
  | [] => Ok s
  | a :: attrs' =>
      match names, forms with
      | name :: names', form :: forms' => s ← f name form a s; walk_attrs f names' forms' attrs' s
      | _, _ => Fault OutOfBounds
      end
  end.
Definition die_attrs {S} (f : Z → Z → ElfDwarfAttributeType → S → outcome S) (d : ElfDwarfDieType) (s : S) : outcome S :=
  walk_attrs f (attribute_name (abbrev_info d)) (attribute_form (abbrev_info d)) (attribute d) s.

(** An attribute that is passed over when it is one of [ignored], and refused otherwise. *)
Definition ignore {S} (ignored : list Z) (name : Z) (s : S) : outcome S :=
  if existsb (Z.eqb name) ignored then Ok s else Fault AssertFail.

(** ** The object in the making *)

(** What the builders of the kinds with a single object share. *)
Record base := mkBase { b_name : option charp; b_size : Z; b_encoding : Z; b_link : type_link; b_frame : Z }.
Definition named (n : option charp) (b : base) : base := mkBase n (b_size b) (b_encoding b) (b_link b) (b_frame b).
Definition sized (n : Z) (b : base) : base := mkBase (b_name b) n (b_encoding b) (b_link b) (b_frame b).
Definition encoded_as (n : Z) (b : base) : base := mkBase (b_name b) (b_size b) n (b_link b) (b_frame b).
Definition linked_to (l : type_link) (b : base) : base := mkBase (b_name b) (b_size b) (b_encoding b) l (b_frame b).
Definition framed (n : Z) (b : base) : base := mkBase (b_name b) (b_size b) (b_encoding b) (b_link b) n.
(** [dwarf_alloc_data_type] zeroes the object. *)
Definition dwarf_alloc_data_type : base := mkBase None 0 0 no_link 0.

Section types.
Context (data : list Z) (cus : list ElfDwarfCompilationUnitHeaderType) (store : list ElfDwarfDieType).

(** [elf_dwarf_info_get_value]: the stack is as deep after it as before, and the value does
    not depend on it ([get_value_stack]), so that it is computed on an empty one. *)
Definition get_value (form : Z) (attr : ElfDwarfAttributeType) : outcome Z :=
  '(value, _, _) ← elf_dwarf_info_get_value data form attr elf_dwarf_info_ops_init; Ok value.
Definition attr_string (attr : ElfDwarfAttributeType) : outcome (option charp) :=
  s ← enc_string (encoded attr); Ok (charp_of s).

Fixpoint find_die (l : list nat) (offset : Z) : outcome (option nat) :=
  match l with
  | [] => Ok None
  | i :: l' => d ← oob (store !! i); if d_offset d =? offset then Ok (Some i) else find_die l' offset
  end.

(** [current_cu] is the unit whose entries are built. *)
Definition dwarf_get_die (current_cu : option ElfDwarfCompilationUnitHeaderType) (offset : Z) : outcome (option nat) :=
  match current_cu with None => Ok None | Some cu => find_die (dies cu) offset end.

Fixpoint type_value (names forms : list Z) (attrs : list ElfDwarfAttributeType) {struct attrs} : outcome (Std_ReturnType * option Z) :=
  match attrs with
  | [] => Fault AssertFail
  | attr :: attrs' =>
      match names, forms with
      | name :: names', form :: forms' =>
          if name =? DW_AT_type then v ← get_value form attr; Ok (STD_E_OK, Some v)
          else if (name =? DW_AT_prototyped) || (name =? DW_AT_byte_size) || (name =? DW_AT_name) then Ok (STD_E_NOENT, None)
          else type_value names' forms' attrs'
      | _, _ => Fault OutOfBounds
      end
  end.
Definition get_DW_AT_type_value (d : ElfDwarfDieType) : outcome (Std_ReturnType * option Z) :=
  if zlen (attribute d) =? 0 then Ok (STD_E_NOENT, None)
  else type_value (attribute_name (abbrev_info d)) (attribute_form (abbrev_info d)) (attribute d).

(** Follows qualifiers to the entry of a type.  With one round more than there are entries
    some entry is met twice, so that running out of fuel stands for going round for ever
    ([real_type_offset_spec]). *)
Fixpoint real_type (fuel : nat) (offset : Z) : outcome (Std_ReturnType * option Z) :=
  match fuel with
  | O => Fault Hang
  | S fuel' =>
      o ← find_die (concat (map dies cus)) offset;
      match o with
      | None => Fault AssertFail
      | Some i =>
          d ← oob (store !! i);
          if ab_tag (abbrev_info d) =? DW_TAG_subroutine_type then Ok (STD_E_NOENT, None)
          else match get_dataType (ab_tag (abbrev_info d)) with
               | None =>
                   '(err, r) ← get_DW_AT_type_value d;
                   match r with
                   | Some ret_offset => if std_ok err then real_type fuel' ret_offset else Ok (err, None)
                   | None => Ok (err, None)
                   end
               | Some _ => Ok (STD_E_OK, Some (d_offset d))
               end
      end
  end.
Definition dwarf_get_real_type_offset (offset : Z) : outcome (Std_ReturnType * option Z) :=
  real_type (S (length store)) offset.

(** The value of [DW_AT_type] sets the link when the type is found. *)
Definition read_link (form : Z) (attr : ElfDwarfAttributeType) (l : type_link) : outcome type_link :=
  offset ← get_value form attr;
  '(err, r) ← dwarf_get_real_type_offset offset;
  match r with
  | Some o => Ok (if std_ok err then mkLink (ref l) true o else mkLink (ref l) (is_valid_ref l) o)
  | None => Ok l
  end.

(** ** Building *)

Section builders.
Context (current_cu : option ElfDwarfCompilationUnitHeaderType) (this : nat) (die : ElfDwarfDieType).

Definition finish (ty : DwarfDataEnumType) (b : base) (t : type_body) (sets : type_set) : type_set :=
  dwarf_register_data_type (mkType (mkInfo this ty (b_name b) (b_size b)) t) sets.

Definition set_name (attr : ElfDwarfAttributeType) (b : base) : outcome base := n ← attr_string attr; Ok (named n b).
Definition set_size (form : Z) (attr : ElfDwarfAttributeType) (b : base) : outcome base := v ← get_value form attr; Ok (sized v b).
Definition set_type (form : Z) (attr : ElfDwarfAttributeType) (b : base) : outcome base :=
  l ← read_link form attr (b_link b); Ok (linked_to l b).

Definition elf_dwarf_build_base_type (sets : type_set) : outcome type_set :=
  b ← die_attrs (λ name form attr b,
    if name =? DW_AT_byte_size then set_size form attr b
    else if name =? DW_AT_name then set_name attr b
    else if name =? DW_AT_encoding then v ← get_value form attr; Ok (encoded_as v b)
    else Fault AssertFail) die dwarf_alloc_data_type;
  Ok (finish DATA_TYPE_BASE b (BaseType (b_encoding b)) sets).

(** The name of a pointer is the name of the form of its name attribute. *)
Definition elf_dwarf_build_pointer_type (sets : type_set) : outcome type_set :=
  b ← die_attrs (λ name form attr b,
    if name =? DW_AT_name then Ok (named (Some (Literal (at_typename attr))) b)
    else if name =? DW_AT_byte_size then set_size form attr b
    else if name =? DW_AT_type then set_type form attr b
    else Fault AssertFail) die (named (Some (Literal (str_of "*"))) dwarf_alloc_data_type);
  Ok (finish DATA_TYPE_POINTER b (PointerType (b_link b)) sets).

Definition elf_dwarf_build_typedef_type (sets : type_set) : outcome type_set :=
  b ← die_attrs (λ name form attr b,
    if name =? DW_AT_name then set_name attr b
    else if name =? DW_AT_type then set_type form attr b
    else ignore [DW_AT_accessibility; DW_AT_decl_file; DW_AT_decl_line; DW_AT_decl_column] name b) die dwarf_alloc_data_type;
  Ok (finish DATA_TYPE_TYPEDEF b (TypedefType (b_link b)) sets).

Definition elf_dwarf_build_variable_type (sets : type_set) : outcome type_set :=
  b ← die_attrs (λ name form attr b,
    if name =? DW_AT_name then set_name attr b
    else if name =? DW_AT_type then set_type form attr b
    else ignore [DW_AT_decl_file; DW_AT_decl_line; DW_AT_decl_column; DW_AT_location; DW_AT_external; DW_AT_abstract_origin;
                 DW_AT_declaration; DW_AT_const_value; DW_AT_artificial; DW_AT_specification; DW_AT_linkage_name;
                 DW_AT_MIPS_linkage_name; DW_AT_alignment; DW_AT_unknown_0x2137] name b) die dwarf_alloc_data_type;
  Ok (finish DATA_TYPE_VARIABLE b (VariableType (b_link b)) sets).

(** The loop over the children of an entry; without a list of children it reads NULL. *)
Fixpoint each_child {S} (f : ElfDwarfDieType → S → outcome S) (l : list nat) (s : S) : outcome S :=
  match l with
  | [] => Ok s
  | i :: l' => d ← oob (store !! i); s ← f d s; each_child f l' s
  end.
Definition children_loop {S} (f : ElfDwarfDieType → S → outcome S) (s : S) : outcome S :=
  match children die with None => Fault NullDeref | Some l => each_child f l s end.
Definition tag (d : ElfDwarfDieType) : Z := ab_tag (abbrev_info d).

Definition dwarf_add_enum_member (m : DwarfDataEnumMember) (o : option (list DwarfDataEnumMember)) := Some (default [] o ++ [m]).
Definition build_enum_member (member : ElfDwarfDieType) (o : option (list DwarfDataEnumMember))
    : outcome (option (list DwarfDataEnumMember)) :=
  if negb (tag member =? DW_TAG_enumerator) then Ok o
  else
    m ← die_attrs (λ name form attr m,
      if name =? DW_AT_name then s ← attr_string attr; Ok (mkEnumMember s (const_value m))
      else if name =? DW_AT_const_value then v ← get_value form attr; Ok (mkEnumMember (em_name m) v)
      else Fault AssertFail) member (mkEnumMember None 0);
    Ok (dwarf_add_enum_member m o).
Definition elf_dwarf_build_enum_type (sets : type_set) : outcome type_set :=
  b ← die_attrs (λ name form attr b,
    if name =? DW_AT_name then set_name attr b
    else if name =? DW_AT_byte_size then set_size form attr b
    else ignore [DW_AT_sibling; DW_AT_decl_file; DW_AT_decl_line; DW_AT_decl_column; DW_AT_MIPS_linkage_name; DW_AT_encoding;
                 DW_AT_type; DW_AT_accessibility; DW_AT_virtuality; DW_AT_linkage_name; DW_AT_enum_class] name b)
    die dwarf_alloc_data_type;
  members ← children_loop build_enum_member None;
  Ok (finish DATA_TYPE_ENUM b (EnumType members) sets).

Definition elf_dwarf_build_array_dimension (member : ElfDwarfDieType) (dimension : list Z) : outcome (list Z) :=
  die_attrs (λ name form attr dimension,
    if name =? DW_AT_upper_bound then
      array_size ← get_value form attr; Ok (dimension ++ [u32 (array_size + 1)])
    else ignore [DW_AT_abstract_origin; DW_AT_accessibility; DW_AT_byte_size; DW_AT_count; DW_AT_declaration; DW_AT_lower_bound;
                 DW_AT_name; DW_AT_sibling; DW_AT_type] name dimension) member dimension.
Definition elf_dwarf_build_array_type (sets : type_set) : outcome type_set :=
  b ← die_attrs (λ name form attr b,
    if name =? DW_AT_type then set_type form attr b
    else ignore [DW_AT_sibling] name b) die dwarf_alloc_data_type;
  dimension ← children_loop (λ member dimension,
    if negb (tag member =? DW_TAG_subrange_type) then Ok dimension
    else elf_dwarf_build_array_dimension member dimension) [];
  Ok (finish DATA_TYPE_ARRAY b (ArrayType (b_link b) dimension) sets).

(** *** Structures, unions and classes *)

Definition no_member : DwarfDataStructMember := mkMember None None 0 no_link.
Definition dwarf_add_struct_member (m : DwarfDataStructMember) (o : option (list DwarfDataStructMember)) := Some (default [] o ++ [m]).

Definition elf_dwarf_build_struct_member (member : ElfDwarfDieType) (o : option (list DwarfDataStructMember))
    : outcome (option (list DwarfDataStructMember)) :=
  m ← die_attrs (λ name form attr m,
    if name =? DW_AT_name then
      s ← attr_string attr; Ok (mkMember s (m_linkage_name m) (m_off m) (m_link m))
    else if name =? DW_AT_type then
      l ← read_link form attr (m_link m); Ok (mkMember (m_name m) (m_linkage_name m) (m_off m) l)
    else if name =? DW_AT_data_member_location then
      v ← get_value form attr; Ok (mkMember (m_name m) (m_linkage_name m) v (m_link m))
    else ignore [DW_AT_accessibility; DW_AT_byte_size; DW_AT_bit_offset; DW_AT_bit_size; DW_AT_declaration; DW_AT_visibility;
                 DW_AT_decl_file; DW_AT_decl_line; DW_AT_decl_column; DW_AT_artificial; DW_AT_const_value; DW_AT_external;
                 DW_AT_specification] name m) member no_member;
  Ok (dwarf_add_struct_member m o).

(** A method leads to its sibling.  A round allocates a member: with more rounds than there
    are entries the siblings lead back and the allocation fails in the end. *)
Fixpoint elf_dwarf_build_struct_method (fuel : nat) (member : ElfDwarfDieType) (o : option (list DwarfDataStructMember))
    : outcome (option (list DwarfDataStructMember)) :=
  match fuel with
  | O => Fault AssertFail
  | S fuel' =>
      '(m, sibling) ← die_attrs (λ name form attr '(m, sibling),
        if name =? DW_AT_name then
          s ← attr_string attr; Ok (mkMember s (m_linkage_name m) (m_off m) (m_link m), sibling)
        else if name =? DW_AT_sibling then
          offset ← get_value form attr; sibling ← dwarf_get_die current_cu offset; Ok (m, sibling)
        else if name =? DW_AT_MIPS_linkage_name then
          s ← attr_string attr; Ok (mkMember (m_name m) s (m_off m) (m_link m), sibling)
        else ignore [DW_AT_type; DW_AT_data_member_location; DW_AT_accessibility; DW_AT_byte_size; DW_AT_bit_offset;
                     DW_AT_bit_size; DW_AT_declaration; DW_AT_visibility; DW_AT_decl_file; DW_AT_decl_line; DW_AT_decl_column;
                     DW_AT_external; DW_AT_object_pointer; DW_AT_inline; DW_AT_low_pc; DW_AT_high_pc; DW_AT_frame_base;
                     DW_AT_prototyped; DW_AT_explicit; DW_AT_linkage_name; DW_AT_artificial; DW_AT_virtuality;
                     DW_AT_containing_type; DW_AT_vtable_elem_location; DW_AT_const_value; DW_AT_encoding;
                     DW_AT_unknown_0x2116; DW_AT_unknown_0x2117; DW_AT_unknown_0x211a; DW_AT_specification] name (m, sibling))
        member (no_member, None);
      let o := dwarf_add_struct_member m o in
      match sibling with
      | Some i => d ← oob (store !! i); elf_dwarf_build_struct_method fuel' d o
      | None => Ok o
      end
  end.

(** An entry without a list of children builds nothing. *)
Definition elf_dwarf_build_struct_type (sets : type_set) : outcome type_set :=
  match children die with
  | None => Ok sets
  | Some _ =>
      let ty := if tag die =? DW_TAG_structure_type then DATA_TYPE_STRUCT
                else if tag die =? DW_TAG_class_type then DATA_TYPE_CLASS else DATA_TYPE_UNION in
      b ← die_attrs (λ name form attr b,
        if name =? DW_AT_name then set_name attr b
        else if name =? DW_AT_byte_size then set_size form attr b
        else ignore [DW_AT_sibling; DW_AT_decl_file; DW_AT_decl_line; DW_AT_decl_column; DW_AT_declaration; DW_AT_accessibility;
                     DW_AT_linkage_name; DW_AT_containing_type; DW_AT_MIPS_linkage_name; DW_AT_specification] name b)
        die dwarf_alloc_data_type;
      members ← children_loop (λ member o,
        if tag member =? DW_TAG_member then elf_dwarf_build_struct_member member o
        else if tag member =? DW_TAG_subprogram then
          if tag die =? DW_TAG_class_type then elf_dwarf_build_struct_method (S (length store)) member o else Ok o
        else Ok o) None;
      Ok (finish ty b (StructType members) sets)
  end.

(** *** Functions *)

Definition dwarf_add_subprogram_variable (v : DwarfLocalVariableType) (o : option (list DwarfLocalVariableType)) := Some (default [] o ++ [v]).
Definition elf_dwarf_build_subprogram_variable (variable : ElfDwarfDieType) (o : option (list DwarfLocalVariableType))
    : outcome (option (list DwarfLocalVariableType)) :=
  v ← die_attrs (λ name form attr v,
    if name =? DW_AT_name then s ← attr_string attr; Ok (mkLocal s (lv_location v) (lv_link v))
    else if name =? DW_AT_location then Ok (mkLocal (lv_name v) (Some attr) (lv_link v))
    else if name =? DW_AT_type then l ← read_link form attr (lv_link v); Ok (mkLocal (lv_name v) (lv_location v) l)
    else ignore [DW_AT_decl_file; DW_AT_decl_line; DW_AT_decl_column; DW_AT_external; DW_AT_abstract_origin; DW_AT_declaration;
                 DW_AT_const_value; DW_AT_artificial; DW_AT_specification; DW_AT_MIPS_linkage_name; DW_AT_linkage_name;
                 DW_AT_unknown_0x2137] name v) variable (mkLocal None None no_link);
  Ok (dwarf_add_subprogram_variable v o).

Definition elf_dwarf_build_subprogram_type (sets : type_set) : outcome type_set :=
  b ← die_attrs (λ name form attr b,
    if name =? DW_AT_name then set_name attr b
    else if name =? DW_AT_frame_base then
      if at_type attr =? DW_FORM_data4 then v ← enc_num 32 (encoded attr); Ok (framed v b) else Ok b
    else ignore [DW_AT_abstract_origin; DW_AT_accessibility; DW_AT_address_class; DW_AT_artificial; DW_AT_calling_convention;
                 DW_AT_declaration; DW_AT_external; DW_AT_high_pc; DW_AT_inline; DW_AT_low_pc; DW_AT_prototyped;
                 DW_AT_return_addr; DW_AT_segment; DW_AT_sibling; DW_AT_specification; DW_AT_start_scope; DW_AT_static_link;
                 DW_AT_type; DW_AT_visibility; DW_AT_virtuality; DW_AT_vtable_elem_location; DW_AT_decl_file; DW_AT_decl_line;
                 DW_AT_decl_column; DW_AT_linkage_name; DW_AT_object_pointer; DW_AT_explicit; DW_AT_pure;
                 DW_AT_containing_type; DW_AT_MIPS_linkage_name; DW_AT_unknown_0x2116; DW_AT_unknown_0x2117; DW_AT_noreturn;
                 DW_AT_unknown_0x211a] name b) die dwarf_alloc_data_type;
  variables ← (match children die with
               | None => Ok None
               | Some l => each_child (λ entry o,
                   if (tag entry =? DW_TAG_variable) || (tag entry =? DW_TAG_formal_parameter) then
                     elf_dwarf_build_subprogram_variable entry o
                   else Ok o) l None
               end);
  Ok (finish DATA_TYPE_SUBPROGRAM b (SubprogramType (b_frame b) variables) sets).

(** [parse_func_table]. *)
Definition parse_func (ty : DwarfDataEnumType) : type_set → outcome type_set :=
  match ty with
  | DATA_TYPE_BASE => elf_dwarf_build_base_type
  | DATA_TYPE_STRUCT | DATA_TYPE_UNION | DATA_TYPE_CLASS => elf_dwarf_build_struct_type
  | DATA_TYPE_ARRAY => elf_dwarf_build_array_type
  | DATA_TYPE_POINTER => elf_dwarf_build_pointer_type
  | DATA_TYPE_TYPEDEF => elf_dwarf_build_typedef_type
  | DATA_TYPE_ENUM => elf_dwarf_build_enum_type
  | DATA_TYPE_VARIABLE => elf_dwarf_build_variable_type
  | DATA_TYPE_SUBPROGRAM => elf_dwarf_build_subprogram_type
  end.
End builders.

(** What the recursion does at an entry before it goes to the children. *)
Definition build_die (cu : option ElfDwarfCompilationUnitHeaderType) (i : nat) (sets : type_set) : outcome type_set :=
  d ← oob (store !! i);
  match get_dataType (tag d) with
  | Some ty => parse_func cu i d ty sets
  | None => Ok sets
  end.

(** A loop over a list of entries. *)
Fixpoint each {S} (f : nat → S → outcome S) (l : list nat) (s : S) : outcome S :=
  match l with
  | [] => Ok s
  | i :: l' => s ← f i s; each f l' s
  end.

(** The fuel bounds the depth; entries form a forest ([DwarfInfoFacts.loaded_forest]), which is
    not deeper than it has entries. *)
Fixpoint dwarf_search_die_recursive (fuel : nat) (cu : option ElfDwarfCompilationUnitHeaderType) (i : nat) (sets : type_set)
    : outcome type_set :=
  match fuel with
  | O => Fault OutOfBounds
  | S fuel' =>
      sets ← build_die cu i sets;
      d ← oob (store !! i);
      match children d with
      | None => Ok sets
      | Some l => each (dwarf_search_die_recursive fuel' cu) l sets
      end
  end.

(** The entries of a unit that have no parent. *)
Definition build_unit (cu : ElfDwarfCompilationUnitHeaderType) (sets : type_set) : outcome type_set :=
  each (λ i sets,
    d ← oob (store !! i);
    match parent d with
    | Some _ => Ok sets
    | None => dwarf_search_die_recursive (S (length store)) (Some cu) i sets
    end) (dies cu) sets.
Fixpoint build_all_units (l : list ElfDwarfCompilationUnitHeaderType) (sets : type_set) : outcome type_set :=
  match l with
  | [] => Ok sets
  | cu :: l' => sets ← build_unit cu sets; build_all_units l' sets
  end.
Definition build_types (sets : type_set) : outcome type_set := build_all_units cus sets.

(** ** Resolving *)

(** The first object, in the order of the kinds, whose entry has this offset. *)
Fixpoint find_offset (l : list dwarf_type) (i : nat) (offset : Z) : outcome (option nat) :=
  match l with
  | [] => Ok None
  | t :: l' =>
      d ← oob (store !! t_die (info t));
      if d_offset d =? offset then Ok (Some i) else find_offset l' (S i) offset
  end.
Fixpoint get_data_type (kinds : type_set) (offset : Z) : outcome (option type_ptr) :=
  match kinds with
  | [] => Ok None
  | (_, None) :: kinds' => get_data_type kinds' offset
  | (ty, Some l) :: kinds' =>
      o ← find_offset l 0 offset;
      match o with Some i => Ok (Some (ty, i)) | None => get_data_type kinds' offset end
  end.
Definition elf_dwarf_get_data_type (sets : type_set) (debug_info_offset : Z) : outcome (option type_ptr) :=
  get_data_type sets debug_info_offset.

Definition resolve_link (sets : type_set) (l : type_link) : outcome type_link :=
  match ref l with
  | Some _ => Ok l
  | None =>
      if is_valid_ref l then
        r ← elf_dwarf_get_data_type sets (ref_debug_info_offset l); Ok (mkLink r true (ref_debug_info_offset l))
      else Ok l
  end.
Definition resolve_member (sets : type_set) (m : DwarfDataStructMember) : outcome DwarfDataStructMember :=
  l ← resolve_link sets (m_link m); Ok (mkMember (m_name m) (m_linkage_name m) (m_off m) l).
(** A local variable is resolved again when it has a reference already. *)
Definition resolve_local (sets : type_set) (v : DwarfLocalVariableType) : outcome DwarfLocalVariableType :=
  if is_valid_ref (lv_link v) then
    r ← elf_dwarf_get_data_type sets (ref_debug_info_offset (lv_link v));
    Ok (mkLocal (lv_name v) (lv_location v) (mkLink r true (ref_debug_info_offset (lv_link v))))
  else Ok v.

Definition resolve_body (sets : type_set) (b : type_body) : outcome type_body :=
  match b with
  | BaseType _ | EnumType _ => Ok b
  | StructType None => Ok b
  | StructType (Some members) => members ← mapM (resolve_member sets) members; Ok (StructType (Some members))
  | ArrayType l dimension => l ← resolve_link sets l; Ok (ArrayType l dimension)
  | PointerType l => l ← resolve_link sets l; Ok (PointerType l)
  | TypedefType l => l ← resolve_link sets l; Ok (TypedefType l)
  | VariableType l => l ← resolve_link sets l; Ok (VariableType l)
  | SubprogramType _ None => Ok b
  | SubprogramType frame (Some vs) => vs ← mapM (resolve_local sets) vs; Ok (SubprogramType frame (Some vs))
  end.
(** The search reads the entries of objects only, which resolving does not change. *)
Definition resolve_kind (ty : DwarfDataEnumType) (sets : type_set) : outcome type_set :=
  match dwarf_get_data_types ty sets with
  | None => Ok sets
  | Some l =>
      l ← mapM (λ t, b ← resolve_body sets (body t); Ok (mkType (info t) b)) l;
      Ok (set_data_types ty l sets)
  end.
Definition elf_dwarf_resolve_typedef_type := resolve_kind DATA_TYPE_TYPEDEF.
Definition elf_dwarf_resolve_pointer_type := resolve_kind DATA_TYPE_POINTER.
Definition elf_dwarf_resolve_array_type := resolve_kind DATA_TYPE_ARRAY.
Definition elf_dwarf_resolve_struct := resolve_kind DATA_TYPE_STRUCT.
Definition elf_dwarf_resolve_union := resolve_kind DATA_TYPE_UNION.
Definition elf_dwarf_resolve_class := resolve_kind DATA_TYPE_CLASS.
Definition elf_dwarf_resolve_struct_type (sets : type_set) : outcome type_set :=
  sets ← elf_dwarf_resolve_struct sets;
  sets ← elf_dwarf_resolve_union sets;
  elf_dwarf_resolve_class sets.
Definition elf_dwarf_resolve_variable_type := resolve_kind DATA_TYPE_VARIABLE.
Definition elf_dwarf_resolve_subprogram_type := resolve_kind DATA_TYPE_SUBPROGRAM.
Definition resolve_reference (sets : type_set) : outcome type_set :=
  sets ← elf_dwarf_resolve_typedef_type sets;
  sets ← elf_dwarf_resolve_pointer_type sets;
  sets ← elf_dwarf_resolve_array_type sets;
  sets ← elf_dwarf_resolve_struct_type sets;
  sets ← elf_dwarf_resolve_variable_type sets;
  elf_dwarf_resolve_subprogram_type sets.

Definition dwarf_build_data_type_set (sets : type_set) : outcome type_set :=
  sets ← build_types sets;
  resolve_reference sets.

(** ** Searching *)

Definition has_name (typename : list Z) (t : dwarf_type) : outcome bool :=
  match t_typename (info t) with
  | None => Ok false
  | Some c => s ← text data c; Ok (bool_decide (s = typename))
  end.
(** The index of the first element that fits. *)
Fixpoint find_first {A} (fits : A → outcome bool) (l : list A) (i : nat) : outcome (option nat) :=
  match l with
  | [] => Ok None
  | t :: l' => b ← fits t; if (b : bool) then Ok (Some i) else find_first fits l' (S i)
  end.
Definition search_kind (ty : DwarfDataEnumType) (fits : dwarf_type → outcome bool) (sets : type_set) : outcome (option type_ptr) :=
  match dwarf_get_data_types ty sets with
  | None => Ok None
  | Some l => o ← (find_first fits l 0 : outcome (option nat)); Ok (match o with Some i => Some (ty, i) | None => None end)
  end.
Definition dwarf_search_data_type (ty : DwarfDataEnumType) (typename : list Z) (sets : type_set) : outcome (option type_ptr) :=
  search_kind ty (has_name typename) sets.
Definition dwarf_search_data_type_from_die (ty : DwarfDataEnumType) (die_off : Z) (sets : type_set) : outcome (option type_ptr) :=
  search_kind ty (λ t, d ← oob (store !! t_die (info t)); Ok (d_offset d =? die_off)) sets.
Definition elf_dwarf_search_subprogram (funcname : list Z) (sets : type_set) : outcome (option type_ptr) :=
  search_kind DATA_TYPE_SUBPROGRAM (has_name funcname) sets.

(** A local variable without a type or a name is passed over. *)
Definition elf_dwarf_search_local_variable (variables : option (list DwarfLocalVariableType)) (local_variable : list Z)
    : outcome (option DwarfLocalVariableType) :=
  match variables with
  | None => Ok None
  | Some l =>
      o ← find_first (λ v, match ref (lv_link v), lv_name v with
                           | Some _, Some c => s ← text data c; Ok (bool_decide (s = local_variable))
                           | _, _ => Ok false
                           end) l 0;
      Ok (match o with Some i => l !! i | None => None end)
  end.

(** [strcmp] reads a name that is not there. *)
Definition strcmp_name (c : option charp) (s : list Z) : outcome bool :=
  match c with None => Fault NullDeref | Some c => t ← text data c; Ok (bool_decide (t = s)) end.
Fixpoint linkagename_of (l : list dwarf_type) (classname methodname : list Z) : outcome (option charp) :=
  match l with
  | [] => Ok None
  | t :: l' =>
      same ← strcmp_name (t_typename (info t)) classname;
      if negb same then linkagename_of l' classname methodname
      else
        match body t with
        | StructType (Some members) =>
            o ← find_first (λ m, strcmp_name (m_name m) methodname) members 0;
            match (match o with Some i => members !! i | None => None end) with
            | Some m => Ok (m_linkage_name m)
            | None => linkagename_of l' classname methodname
            end
        | _ => Fault NullDeref
        end
  end.
Definition elf_dwarf_get_class_method_linkagename (classname methodname : list Z) (sets : type_set) : outcome (option charp) :=
  match dwarf_get_data_types DATA_TYPE_CLASS sets with
  | None => Ok None
  | Some l => linkagename_of l classname methodname
  end.
End types.
