(* ===== verification/DwarfTypeFacts.v ===== *)
(** * What the data types mean

    Every entry of a file is built exactly once, in the order of the file; following the
    qualifiers of a type ends at the type, or goes on for ever only when the references of the
    file do; after resolving, a reference leads to an object of the entry it names. *)

From Stdlib Require Import String Ascii.
From S2P Require Import Prelude Token ElfImageCheck ElfSection DwarfLine DwarfLineFacts DwarfInfo DwarfInfoFacts DwarfType.
From stdpp Require Import finite.
Open Scope Z_scope.

(** ** The stack of location operations *)

Definition stack_ok (s : ElfDwarfStackType) : Prop := 0 ≤ stack_size s ≤ zlen (stack s).

Lemma push_pop x s : stack_ok s → ∃ s', elf_dwarf_info_ops_pop (elf_dwarf_info_ops_push x s) = (x, s') ∧
  stack_size s' = stack_size s ∧ stack_ok s'.
Proof.
  intros Hs. unfold elf_dwarf_info_ops_pop, elf_dwarf_info_ops_push, stack_ok in *.
  destruct (Z.ltb_spec (stack_size s) (zlen (stack s))); cbn [stack_size stack];
    replace (0 <? stack_size s + 1) with true by lia; rewrite Z.add_simpl_r.
  - rewrite zget_zput_eq by lia. eexists. split; [done|]. cbn [stack_size stack]. rewrite zlen_zput. lia.
  - assert (stack_size s = zlen (stack s)) as -> by lia. rewrite zget_app_r, Z.sub_diag by lia.
    eexists. split; [done|]. cbn [stack_size stack]. rewrite zlen_app. change (zlen [x]) with 1. lia.
Qed.

(** The value of an attribute does not depend on the stack, and the stack is as deep after. *)
Lemma get_value_stack data form attr s : stack_ok s →
  match elf_dwarf_info_get_value data form attr s with
  | Ok (v, _, s') => get_value data form attr = Ok v ∧ stack_size s' = stack_size s ∧ stack_ok s'
  | Fault f => get_value data form attr = Fault f
  end.
Proof.
  intros Hs. unfold get_value, elf_dwarf_info_get_value.
  do 10 (match goal with |- context [form =? ?x] => destruct (form =? x) end;
    [first [by split_and!|destruct (enc_num _ (encoded attr)); cbn [mbind outcome_bind]; [by split_and!|done]]|]).
  destruct (form =? DW_FORM_block1); [|done]. destruct (enc_ops (encoded attr)) as [ops|]; cbn [mbind outcome_bind]; [|done].
  destruct (elf_byte data ops) as [op|]; cbn [mbind outcome_bind]; [|done].
  unfold elf_dwarf_info_ops_DW_OP. destruct (op =? DW_OP_plus_uconst); [|done].
  unfold elf_dwarf_info_ops_DW_OP_plus_uconst.
  destruct (push_pop 0 s Hs) as (s1 & -> & Hn1 & Hs1).
  destruct (push_pop 0 elf_dwarf_info_ops_init) as (s2 & -> & _ & Hs2); [done|].
  destruct (elf_dwarf_decode_uleb128 data (ops + 1)) as [[v n]|]; cbn [mbind outcome_bind]; [|done].
  destruct (push_pop (u32 (0 + v)) s1 Hs1) as (s3 & -> & Hn3 & Hs3).
  destruct (push_pop (u32 (0 + v)) s2 Hs2) as (s4 & -> & _ & _). cbn [mbind outcome_bind]. split_and!; [done|congruence|apply Hs3..].
Qed.

(** ** Following qualifiers *)

Lemma nsteps_first {A} (R : relation A) n x z : nsteps R (S n) x z → ∃ y, R x y ∧ nsteps R n y z.
Proof. inversion 1; subst. eauto. Qed.
Lemma nsteps_none {A} (R : relation A) x z : nsteps R 0 x z → x = z.
Proof. by inversion 1. Qed.
Lemma nsteps_between {A} (R : relation A) (l : list A) k i x y :
  (∀ i x y, l !! i = Some x → l !! S i = Some y → R x y) → l !! i = Some x → l !! (i + k)%nat = Some y → nsteps R k x y.
Proof.
  intros Hl. revert i x. induction k as [|k IH]; intros i x Hx Hy.
  - rewrite Nat.add_0_r in Hy. assert (y = x) as -> by congruence. constructor.
  - assert (S i < length l)%nat as Hi by (apply lookup_lt_Some in Hy; lia). apply lookup_lt_is_Some_2 in Hi as [z Hz].
    eapply nsteps_l; [by eapply Hl|]. apply (IH (S i)); [done|]. by rewrite Nat.add_succ_comm.
Qed.

Section real_type.
Context (data : list Z) (cus : list ElfDwarfCompilationUnitHeaderType) (store : list ElfDwarfDieType).
Context (Hdies : ∀ i, i ∈ concat (map dies cus) → (i < length store)%nat).

Definition entry_at (offset : Z) (i : nat) (d : ElfDwarfDieType) : Prop :=
  find_die store (concat (map dies cus)) offset = Ok (Some i) ∧ store !! i = Some d.
(** The entry at [o] is not a type and refers to [o']. *)
Definition hop (o o' : Z) : Prop := ∃ i d, entry_at o i d ∧ tag d ≠ DW_TAG_subroutine_type ∧
  get_dataType (tag d) = None ∧ get_DW_AT_type_value data d = Ok (STD_E_OK, Some o').
(** The entry at [o] is a type. *)
Definition is_type (o : Z) : Prop := ∃ i d, entry_at o i d ∧ is_Some (get_dataType (tag d)).

Lemma hop_det o o1 o2 : hop o o1 → hop o o2 → o1 = o2.
Proof.
  intros (i & d & [Hf Hd] & _ & _ & H1) (i' & d' & [Hf' Hd'] & _ & _ & H2).
  assert (i' = i) as -> by congruence. assert (d' = d) as -> by congruence. congruence.
Qed.
Lemma type_no_hop o o' : is_type o → ¬ hop o o'.
Proof.
  intros (i & d & [Hf Hd] & Ht) (i' & d' & [Hf' Hd'] & _ & Hn & _).
  assert (i' = i) as -> by congruence. assert (d' = d) as -> by congruence. rewrite Hn in Ht. by destruct Ht.
Qed.

Lemma find_die_spec l offset : (∀ i, i ∈ l → (i < length store)%nat) →
  ∃ o, find_die store l offset = Ok o ∧ ∀ i, o = Some i → i ∈ l ∧ ∃ d, store !! i = Some d ∧ d_offset d = offset.
Proof.
  induction l as [|i l IH]; intros Hl; cbn [find_die]; [by eexists|].
  destruct (lookup_lt_is_Some_2 store i (Hl i ltac:(by left))) as [d Hd]. rewrite Hd. cbn [oob mbind outcome_bind].
  destruct (Z.eqb_spec (d_offset d) offset).
  - eexists. split; [done|]. intros ? [= <-]. split; [by left|eauto].
  - destruct IH as (o & -> & Ho); [intros; apply Hl; by right|]. exists o. split; [done|].
    intros j Hj. destruct (Ho j Hj). split; [by right|done].
Qed.

Lemma bind_no_hang {A B} (m : outcome A) (k : A → outcome B) :
  m ≠ Fault Hang → (∀ a, k a ≠ Fault Hang) → m ≫= k ≠ Fault Hang.
Proof. intros Hm Hk. destruct m as [a|f]; cbn; [apply Hk|congruence]. Qed.

Lemma uleb_no_hang n i shift acc p : uleb_loop n i shift acc data p ≠ Fault Hang.
Proof.
  revert i shift acc. induction n as [|n IH]; intros i shift acc; [done|]. cbn [uleb_loop].
  apply bind_no_hang; [unfold elf_byte; by destruct (zget _ _)|]. intros b. case_match; [done|apply IH].
Qed.

Lemma get_value_no_hang form attr : get_value data form attr ≠ Fault Hang.
Proof.
  assert (He : ∀ w, enc_num w (encoded attr) ≠ Fault Hang) by (intros w; by destruct (encoded attr)).
  unfold get_value. apply bind_no_hang; [|by intros [[? ?] ?]]. unfold elf_dwarf_info_get_value.
  do 10 (match goal with |- context [form =? ?x] => destruct (form =? x) end; [first [done|by apply bind_no_hang]|]).
  destruct (form =? DW_FORM_block1); [|done]. apply bind_no_hang; [by destruct (encoded attr)|]. intros ops. apply bind_no_hang; [unfold elf_byte; by destruct (zget _ _)|].
  intros op. apply bind_no_hang; [|intros s; by destruct (elf_dwarf_info_ops_pop s)]. unfold elf_dwarf_info_ops_DW_OP. case_match; [|done].
  unfold elf_dwarf_info_ops_DW_OP_plus_uconst. destruct (elf_dwarf_info_ops_pop _).
  apply bind_no_hang; [apply uleb_no_hang|by intros []].
Qed.

Lemma type_value_no_hang names forms attrs : type_value data names forms attrs ≠ Fault Hang.
Proof.
  revert names forms. induction attrs as [|a attrs IH]; intros names forms; cbn [type_value]; [done|].
  destruct names, forms; [done..|]. case_match; [apply bind_no_hang; [apply get_value_no_hang|done]|].
  case_match; [done|apply IH].
Qed.

(** One round: a hop, or a result that does not depend on the fuel. *)
Lemma real_type_round o : (∃ o', hop o o' ∧ ∀ n, real_type data cus store (S n) o = real_type data cus store n o') ∨
  ((∀ o', ¬ hop o o') ∧ ∃ r, r ≠ Fault Hang ∧ (∀ o', r = Ok (STD_E_OK, Some o') ↔ is_type o ∧ o' = o) ∧
    ∀ n, real_type data cus store (S n) o = r).
Proof.
  destruct (find_die_spec (concat (map dies cus)) o Hdies) as (oi & Hf & Hi).
  destruct oi as [i|].
  2: { right. split; [intros o' (i & d & [Hf' _] & _); congruence|]. exists (Fault AssertFail).
       split_and!; [done| |intros n; cbn [real_type]; by rewrite Hf].
       intros o'. split; [done|]. intros [(i & d & [Hf' _] & _) _]. congruence. }
  destruct (Hi i eq_refl) as (_ & d & Hd & Hoff).
  assert (Hat : ∀ i' d', entry_at o i' d' → i' = i ∧ d' = d).
  { intros i' d' [Hf' Hd']. assert (i' = i) as -> by congruence. split; [done|]. congruence. }
  assert (Hreal : ∀ n, real_type data cus store (S n) o =
    if tag d =? DW_TAG_subroutine_type then Ok (STD_E_NOENT, None)
    else match get_dataType (tag d) with
         | None => '(err, r) ← get_DW_AT_type_value data d;
             match r with Some ret_offset => if std_ok err then real_type data cus store n ret_offset else Ok (err, None)
                        | None => Ok (err, None) end
         | Some _ => Ok (STD_E_OK, Some (d_offset d))
         end).
  { intros n. cbn [real_type]. rewrite Hf. cbn [mbind outcome_bind]. by rewrite Hd. }
  destruct (Z.eqb_spec (tag d) DW_TAG_subroutine_type) as [Hs|Hs].
  { right. split; [intros o' (i' & d' & [-> ->]%Hat & Hn & _); done|]. eexists. split_and!; [|  |exact Hreal]; [done|].
    intros o'. split; [done|]. intros [(i' & d' & [-> ->]%Hat & Ht) _]. rewrite Hs in Ht. by destruct Ht. }
  destruct (get_dataType (tag d)) as [ty|] eqn:Ht.
  { right. split; [intros o' (i' & d' & [-> ->]%Hat & _ & Hn & _); congruence|]. eexists. split_and!; [| |exact Hreal]; [done|].
    intros o'. rewrite Hoff. split; [intros [= <-]; split; [by exists i, d; rewrite Ht|done]|by intros [_ ->]]. }
  assert (Hno : ∀ (P : Prop), is_type o → P) by (intros P (i' & d' & [-> ->]%Hat & Ht'); rewrite Ht in Ht'; by destruct Ht').
  destruct (get_DW_AT_type_value data d) as [[err r]|f] eqn:Hv; cbn [mbind outcome_bind] in Hreal.
  - destruct r as [o'|].
    + destruct (std_ok err) eqn:Herr.
      * left. exists o'. split; [|exact Hreal]. exists i, d. split_and!; [done|done|done|]. rewrite Hv. do 2 f_equal. by destruct err.
      * right. split; [intros o2 (i' & d' & [-> ->]%Hat & _ & _ & Hv'); rewrite Hv in Hv'; injection Hv' as -> ->; done|].
        eexists. split_and!; [| |exact Hreal]; [done|]. intros o2. split; [done|intros [Hty _]; by apply Hno].
    + right. split; [intros o2 (i' & d' & [-> ->]%Hat & _ & _ & Hv'); congruence|].
      eexists. split_and!; [| |exact Hreal]; [done|]. intros o2. split; [done|intros [Hty _]; by apply Hno].
  - right. split; [intros o2 (i' & d' & [-> ->]%Hat & _ & _ & Hv'); congruence|].
    eexists. split_and!; [| |exact Hreal].
    + intros [= ->]. unfold get_DW_AT_type_value in Hv. case_match; [done|]. by apply type_value_no_hang in Hv.
    + intros o2. split; [done|intros [Hty _]; by apply Hno].
Qed.

(** With fuel [n]: out of it after [n] hops. *)
Lemma real_type_hang n o : real_type data cus store n o = Fault Hang ↔ ∃ o', nsteps hop n o o'.
Proof.
  revert o. induction n as [|n IH]; intros o; [split; [exists o; constructor|done]|].
  destruct (real_type_round o) as [(o' & Hh & Hr)|(Hn & r & Hr & _ & Hreal)].
  - rewrite Hr, IH. split.
    + intros [o2 Hs]. exists o2. by eapply nsteps_l.
    + intros [o2 Hs]. apply nsteps_first in Hs as (o1 & Hh' & Hs). assert (o1 = o') as -> by (by eapply hop_det). by exists o2.
  - rewrite Hreal. split; [done|]. intros [o2 Hs]. apply nsteps_first in Hs as (o1 & Hh' & _). by apply Hn in Hh'.
Qed.
Lemma real_type_found n o t : real_type data cus store n o = Ok (STD_E_OK, Some t) ↔
  ∃ m, (m < n)%nat ∧ nsteps hop m o t ∧ is_type t.
Proof.
  revert o. induction n as [|n IH]; intros o; [split; [done|intros (? & ? & _); lia]|].
  destruct (real_type_round o) as [(o' & Hh & Hr)|(Hn & r & _ & Hok & Hreal)].
  - rewrite Hr, IH. split.
    + intros (m & Hm & Hs & Ht). exists (S m). split_and!; [lia|by eapply nsteps_l|done].
    + intros (m & Hm & Hs & Ht). destruct m as [|m]; [apply nsteps_none in Hs as ->; by apply type_no_hop in Hh|].
      apply nsteps_first in Hs as (o1 & Hh' & Hs). assert (o1 = o') as -> by (by eapply hop_det). exists m. split_and!; [lia|done|done].
  - rewrite Hreal, Hok. split.
    + intros [Ht ->]. exists 0%nat. split_and!; [lia|constructor|done].
    + intros (m & _ & Hs & Ht). destruct m as [|m]; [by apply nsteps_none in Hs as ->|].
      apply nsteps_first in Hs as (o1 & Hh' & _). by apply Hn in Hh'.
Qed.

(** References that go on for ever. *)
Definition endless (o : Z) : Prop := ∀ n, ∃ o', nsteps hop n o o'.

Lemma nsteps_prefix n m o o' : nsteps hop n o o' → (m ≤ n)%nat → ∃ o'', nsteps hop m o o''.
Proof.
  intros Hs Hm. replace n with (m + (n - m))%nat in Hs by lia. apply nsteps_add_inv in Hs as (o'' & Hs & _). by exists o''.
Qed.
Lemma cycle_endless k o : nsteps hop (S k) o o → endless o.
Proof.
  intros Hc n. assert (Hn : nsteps hop (n * S k) o o).
  { induction n as [|n IH]; [constructor|]. simpl. by eapply (nsteps_trans (S k)). }
  apply (nsteps_prefix _ n) in Hn; [done|lia].
Qed.
Lemma steps_endless n o o' : nsteps hop n o o' → endless o' → endless o.
Proof.
  intros Hs He m. destruct (He m) as [o2 Hs2]. apply (nsteps_prefix (n + m) m _ o2); [by eapply nsteps_trans|lia].
Qed.

(** With more hops than entries one entry is met twice. *)
Lemma many_hops_endless o o' : nsteps hop (S (length store)) o o' → endless o.
Proof.
  intros Hs. apply nsteps_list in Hs as (l & Hlen & Hhd & _ & Hl).
  set (f := λ o, match find_die store (concat (map dies cus)) o with Ok (Some i) => i | _ => O end).
  assert (Hf : ∀ i x, l !! i = Some x → (i < S (length store))%nat → (f x < length store)%nat ∧ ∃ d, store !! f x = Some d ∧ d_offset d = x).
  { intros i x Hx Hi. destruct (lookup_lt_is_Some_2 l (S i)) as [y Hy]; [lia|].
    destruct (Hl _ _ _ Hx Hy) as (j & d & [Hj Hd] & _). unfold f. rewrite Hj. split; [by eapply lookup_lt_Some|].
    exists d. split; [done|]. destruct (find_die_spec (concat (map dies cus)) x Hdies) as (r & Hr & Hspec).
    assert (r = Some j) as -> by congruence. destruct (Hspec j eq_refl) as (_ & d' & Hd' & <-). congruence. }
  destruct (list_pigeonhole (map f (take (S (length store)) l)) (seq 0 (length store))) as (i1 & i2 & j & Hlt & H1 & H2).
  - intros j Hj. apply list_elem_of_fmap in Hj as (x & -> & Hx). apply list_elem_of_lookup in Hx as [i Hi].
    apply lookup_take_Some in Hi as [Hi Hlt]. apply elem_of_seq. destruct (Hf i x Hi Hlt). lia.
  - rewrite length_seq, length_map, length_take. lia.
  - apply list_lookup_fmap_Some in H1 as (x & -> & H1). apply list_lookup_fmap_Some in H2 as (y & Hxy & H2).
    apply lookup_take_Some in H1 as [H1 Hi1]. apply lookup_take_Some in H2 as [H2 Hi2].
    destruct (Hf i1 x H1 Hi1) as (_ & d & Hd & <-). destruct (Hf i2 y H2 Hi2) as (_ & d' & Hd' & Hy).
    rewrite <- Hxy, Hd in Hd'. injection Hd' as <-. subst y.
    apply (steps_endless i1 o (d_offset d)).
    + apply (nsteps_between hop l i1 0); [done|by rewrite <- head_lookup|done].
    + apply (cycle_endless (i2 - i1 - 1)). replace (S (i2 - i1 - 1)) with (i2 - i1)%nat by lia.
      apply (nsteps_between hop l (i2 - i1) i1); [done|done|by replace (i1 + (i2 - i1))%nat with i2 by lia].
Qed.

Lemma type_not_endless n o t : nsteps hop n o t → is_type t → ¬ endless o.
Proof.
  intros Hs Ht He. destruct (He (S n)) as [o2 Hs2]. replace (S n) with (n + 1)%nat in Hs2 by lia.
  apply nsteps_add_inv in Hs2 as (t' & Hs' & Hh). assert (t' = t) as ->.
  { clear He Ht Hh. revert t' Hs'. induction Hs as [o|n o o1 t Ho _ IH]; intros t' Hs'; [by apply nsteps_none in Hs'|].
    apply nsteps_first in Hs' as (o1' & Ho' & Hs'). assert (o1' = o1) as -> by (by eapply hop_det). by apply IH. }
  apply nsteps_once_inv in Hh. by apply type_no_hop in Hh.
Qed.
End real_type.

(** C29: following the qualifiers of a type from an entry of a loaded file gives the entry of
    a type exactly when a chain of references leads to it; and it goes on for ever exactly
    when the references of the file do. *)
Theorem real_type_offset_spec data st arr err info offset :
  elf_dwarf_info_load data st arr = Ok (err, info) →
  (∀ t, dwarf_get_real_type_offset data (compilation_unit_headers info) (die_store info) offset = Ok (STD_E_OK, Some t) ↔
     rtc (hop data (compilation_unit_headers info) (die_store info)) offset t ∧
     is_type (compilation_unit_headers info) (die_store info) t) ∧
  (dwarf_get_real_type_offset data (compilation_unit_headers info) (die_store info) offset = Fault Hang ↔
     ∀ n, ∃ o, nsteps (hop data (compilation_unit_headers info) (die_store info)) n offset o).
Proof.
  intros Hload. destruct (loaded_forest _ _ _ _ _ Hload) as [_ Hdies]. unfold dwarf_get_real_type_offset.
  assert (Hin : ∀ i, i ∈ concat (map dies (compilation_unit_headers info)) → (i < length (die_store info))%nat).
  { intros i. rewrite Hdies, elem_of_seq. lia. }
  split.
  - intros t. rewrite real_type_found by done. split.
    + intros (m & _ & Hs & Ht). split; [by eapply rtc_nsteps_2|done].
    + intros [(m & Hs)%rtc_nsteps_1 Ht]. exists m. split_and!; [|done|done].
      destruct (decide (m < S (length (die_store info)))%nat); [done|]. exfalso.
      eapply (type_not_endless data _ _ m); [exact Hs|exact Ht|].
      destruct (nsteps_prefix data _ _ m (S (length (die_store info))) _ _ Hs) as [o Ho]; [lia|]. by eapply many_hops_endless.
  - rewrite real_type_hang by done. split; [|by intros He].
    intros [o Ho]. by eapply many_hops_endless.
Qed.

(** ** Every entry is built once, in the order of the file *)

Section order.
Context (data : list Z) (cus : list ElfDwarfCompilationUnitHeaderType) (store : list ElfDwarfDieType).
Context (Hf : forest store).
Local Abbreviation build := (build_die data cus store).

Lemma each_app {S} (f : nat → S → outcome S) l1 l2 s : each f (l1 ++ l2) s = (s ← each f l1 s; each f l2 s).
Proof.
  revert s. induction l1 as [|i l1 IH]; intros s; [done|]. cbn [app each].
  destruct (f i s); cbn [mbind outcome_bind]; [apply IH|done].
Qed.
Lemma each_concat {S} (f : nat → S → outcome S) (g : nat → list nat) (h : nat → S → outcome S) l s :
  (∀ i s, i ∈ l → h i s = each f (g i) s) → each h l s = each f (concat (map g l)) s.
Proof.
  revert s. induction l as [|i l IH]; intros s Hh; [done|]. cbn [map concat each]. rewrite each_app, Hh by (by left).
  destruct (each f (g i) s); cbn [mbind outcome_bind]; [|done]. apply IH. intros j s' Hj. apply Hh. by right.
Qed.

Lemma child_after i c : c ∈ default [] (children_of store i) → (i < length store)%nat → (i < c < length store)%nat.
Proof.
  intros Hc Hi. rewrite (proj2 Hf i Hi) in Hc. apply kids_spec in Hc.
  pose proof (parent_length _ _ _ Hc). pose proof (parent_lt _ _ _ Hf Hc). lia.
Qed.

Lemma search_is_visit cu fuel i sets : (i < length store)%nat → (length store - i ≤ fuel)%nat →
  dwarf_search_die_recursive data cus store fuel cu i sets = each (build cu) (visit fuel store i) sets.
Proof.
  revert i sets. induction fuel as [|fuel IH]; intros i sets Hi Hfuel; [lia|]. cbn [dwarf_search_die_recursive visit each].
  destruct (build cu i sets) as [sets'|]; cbn [mbind outcome_bind]; [|done].
  destruct (lookup_lt_is_Some_2 store i Hi) as [d Hd]. rewrite Hd. cbn [oob mbind outcome_bind].
  pose proof (child_after i) as Hc. unfold children_of in *. rewrite Hd in *. cbn [mbind option_bind] in *.
  destruct (children d) as [l|]; [|done]. cbn [default] in *.
  apply each_concat. intros c s Hin. specialize (Hc c Hin Hi). apply IH; lia.
Qed.

(** The loop over the entries of a unit skips those with a parent. *)
Lemma build_unit_roots cu sets : (∀ i, i ∈ dies cu → (i < length store)%nat) →
  build_unit data cus store cu sets =
    each (build (Some cu)) (concat (map (visit (S (length store)) store) (filter (λ k, parent_of store k = None) (dies cu)))) sets.
Proof.
  unfold build_unit. generalize (dies cu). intros l Hl. revert sets. induction l as [|i l IH]; intros sets; [done|].
  cbn [each]. destruct (lookup_lt_is_Some_2 store i (Hl i ltac:(by left))) as [d Hd]. rewrite Hd. cbn [oob mbind outcome_bind].
  specialize (IH ltac:(intros; apply Hl; by right)). rewrite filter_cons.
  assert (Hpar : parent_of store i = parent d) by (unfold parent_of; by rewrite Hd). destruct (parent d) as [p|].
  - rewrite decide_False by congruence. apply IH.
  - rewrite decide_True by done. cbn [map concat]. rewrite each_app, search_is_visit by (try apply Hl; try left; lia).
    destruct (each _ (visit _ store i) sets); cbn [mbind outcome_bind]; [apply IH|done].
Qed.

(** The entries with the unit under which they are met. *)
Definition met (cu : ElfDwarfCompilationUnitHeaderType) : list nat :=
  concat (map (visit (S (length store)) store) (filter (λ k, parent_of store k = None) (dies cu))).
Definition units_met (l : list ElfDwarfCompilationUnitHeaderType) : list ElfDwarfCompilationUnitHeaderType :=
  concat (map (λ cu, replicate (length (met cu)) cu) l).

Lemma build_all_units_each l a sets (units : list ElfDwarfCompilationUnitHeaderType) : (∀ cu i, cu ∈ l → i ∈ dies cu → (i < length store)%nat) →
  concat (map met l) = seq a (length (units_met l)) →
  (∀ k cu, units_met l !! k = Some cu → units !! (a + k)%nat = Some cu) →
  build_all_units data cus store l sets = each (λ i sets, build (units !! i) i sets) (seq a (length (units_met l))) sets.
Proof.
  revert a sets. induction l as [|cu l IH]; intros a sets Hl Hmet Hun; [done|].
  assert (Hlen : length (units_met (cu :: l)) = (length (met cu) + length (units_met l))%nat).
  { unfold units_met. cbn [map concat]. by rewrite length_app, length_replicate. }
  rewrite Hlen in *. cbn [map concat build_all_units] in *. rewrite seq_app in *. rewrite each_app.
  apply app_inj_1 in Hmet as [Hm1 Hm2]; [|by rewrite length_seq].
  rewrite build_unit_roots by (intros; eapply Hl; [by left|done]). fold (met cu). rewrite Hm1, !length_seq.
  assert (Heq : ∀ len b s, (a ≤ b)%nat → (b + len ≤ a + length (met cu))%nat →
    each (build (Some cu)) (seq b len) s = each (λ i sets, build (units !! i) i sets) (seq b len) s).
  { induction len as [|len IHl]; intros b s Hb1 Hb2; [done|]. cbn [seq each].
    assert (units !! b = Some cu) as ->.
    { replace b with (a + (b - a))%nat by lia. apply Hun. unfold units_met. cbn [map concat].
      rewrite lookup_app_l by (rewrite length_replicate; lia). apply lookup_replicate. split; [done|lia]. }
    destruct (build (Some cu) b s); cbn [mbind outcome_bind]; [apply IHl; lia|done]. }
  rewrite Heq by lia. destruct (each _ (seq a _) sets); cbn [mbind outcome_bind]; [|done].
  apply IH; [intros; eapply Hl; [by right|done]|done|].
  intros k cu' Hk. rewrite <- Nat.add_assoc. apply Hun. unfold units_met. cbn [map concat].
  rewrite lookup_app_r by (rewrite length_replicate; lia). rewrite length_replicate.
  by replace (length (met cu) + k - length (met cu))%nat with k by lia.
Qed.
End order.

(** C32: building the types of a loaded file, a recursion from the entries without a parent
    over lists of children, is one pass over the entries: each is built once, in the order of
    the file, with some unit of the file as the current one. *)
Theorem types_built_in_file_order data st arr err info sets :
  elf_dwarf_info_load data st arr = Ok (err, info) →
  ∃ units : list ElfDwarfCompilationUnitHeaderType, length units = length (die_store info) ∧
    (∀ i cu, units !! i = Some cu → cu ∈ compilation_unit_headers info) ∧
    build_types data (compilation_unit_headers info) (die_store info) sets =
      each (λ i sets, build_die data (compilation_unit_headers info) (die_store info) (units !! i) i sets)
        (seq 0 (length (die_store info))) sets.
Proof.
  intros Hload. destruct (loaded_forest _ _ _ _ _ Hload) as [Hf Hdies].
  set (store := die_store info) in *. set (cus := compilation_unit_headers info) in *.
  assert (Hmet : ∀ l, concat (map (met store) l) =
    concat (map (visit (S (length store)) store) (filter (λ k, parent_of store k = None) (concat (map dies l))))).
  { induction l as [|cu l IH]; [done|]. cbn [map concat]. rewrite filter_app, map_app, concat_app. by rewrite IH. }
  specialize (Hmet cus). rewrite Hdies in Hmet. fold (roots store) in Hmet. rewrite visit_roots in Hmet by done.
  assert (Hlen : length (units_met store cus) = length store).
  { apply (f_equal length) in Hmet. rewrite length_seq in Hmet. rewrite <- Hmet. unfold units_met. clear.
    induction cus as [|cu l IH]; [done|]. cbn [map concat]. rewrite !length_app, length_replicate. lia. }
  exists (units_met store cus). split_and!; [done| |].
  - intros i cu Hi. apply list_elem_of_lookup_2, list_elem_of_In, in_concat in Hi as (l & (cu' & <- & Hcu)%in_map_iff & Hin).
    apply list_elem_of_In, elem_of_replicate in Hin as [-> _]. by apply list_elem_of_In.
  - rewrite <- Hlen. apply build_all_units_each; [done| |by rewrite Hlen|done].
    intros cu i Hcu Hi. assert (i ∈ concat (map dies cus)) as Hin.
    { apply list_elem_of_In, in_concat. exists (dies cu). split; [apply in_map; by apply list_elem_of_In|by apply list_elem_of_In]. }
    rewrite Hdies, elem_of_seq in Hin. lia.
Qed.

(** ** The registry *)

Definition keyed (sets : type_set) : Prop := map fst sets = data_types.

Lemma data_types_all ty : ty ∈ data_types.
Proof. unfold data_types. destruct ty; repeat (first [by left|right]). Qed.
Lemma data_types_nodup : NoDup data_types.
Proof. apply (bool_decide_unpack _). by vm_compute. Qed.

Lemma set_keyed ty l sets : keyed sets → keyed (set_data_types ty l sets).
Proof. unfold keyed. intros <-. unfold set_data_types. rewrite map_map. apply map_ext. intros [ty' l']. by case_bool_decide. Qed.

Lemma get_set ty ty' l sets : keyed sets →
  dwarf_get_data_types ty' (set_data_types ty l sets) = if bool_decide (ty = ty') then Some l else dwarf_get_data_types ty' sets.
Proof.
  intros Hk. assert (Hin : ty' ∈ map fst sets) by (rewrite Hk; apply data_types_all). clear Hk.
  induction sets as [|[k o] sets IH]; [by apply elem_of_nil in Hin|]. cbn [set_data_types map dwarf_get_data_types fst] in *.
  fold (set_data_types ty l sets). destruct (decide (k = ty')) as [->|Hk].
  - rewrite (bool_decide_eq_true_2 (ty' = ty')) by done. destruct (decide (ty' = ty)) as [<-|Hn].
    + by rewrite !(bool_decide_eq_true_2 (ty' = ty')).
    + rewrite (bool_decide_eq_false_2 (ty' = ty)), (bool_decide_eq_false_2 (ty = ty')) by congruence.
      by rewrite (bool_decide_eq_true_2 (ty' = ty')).
  - apply elem_of_cons in Hin as [->|Hin]; [done|].
    destruct (bool_decide (k = ty)); rewrite !(bool_decide_eq_false_2 (k = ty')) by done; by apply IH.
Qed.

(** The references of an object. *)
Definition links_of (b : type_body) : list type_link :=
  match b with
  | BaseType _ | EnumType _ => []
  | StructType o => map m_link (default [] o)
  | ArrayType l _ | PointerType l | TypedefType l | VariableType l => [l]
  | SubprogramType _ o => map lv_link (default [] o)
  end.

(** No reference is resolved, and basic and enumeration types have none. *)
Definition fresh (t : dwarf_type) : Prop :=
  Forall (λ l, ref l = None) (links_of (body t)) ∧
  (t_type (info t) = DATA_TYPE_BASE ∨ t_type (info t) = DATA_TYPE_ENUM → links_of (body t) = []).
Definition all_fresh (sets : type_set) : Prop := keyed sets ∧
  ∀ ty l, dwarf_get_data_types ty sets = Some l → Forall (λ t, t_type (info t) = ty ∧ fresh t) l.

Lemma register_fresh t sets : all_fresh sets → fresh t → all_fresh (dwarf_register_data_type t sets).
Proof.
  intros [Hk Hs] Ht. split; [by apply set_keyed|]. intros ty l. unfold dwarf_register_data_type. rewrite get_set by done.
  case_bool_decide as Hty; [|by apply Hs]. intros [= <-]. apply Forall_app. split; [|by constructor].
  rewrite Hty. destruct (dwarf_get_data_types ty sets) as [l'|] eqn:E; [by apply Hs|constructor].
Qed.

(** ** What building keeps *)

Lemma die_attrs_keep {S} (P : S → Prop) f d s s' :
  (∀ name form attr s s', P s → f name form attr s = Ok s' → P s') → P s → die_attrs f d s = Ok s' → P s'.
Proof.
  intros Hf. unfold die_attrs. generalize (attribute_name (abbrev_info d)), (attribute_form (abbrev_info d)).
  generalize (attribute d). intros attrs. revert s. induction attrs as [|a attrs IH]; intros s names forms Hs; cbn [walk_attrs];
    [by intros [= <-]|]. destruct names, forms; [done..|]. intros (s1 & H1 & Hr)%bind_ok. eapply IH; [by eapply Hf|exact Hr].
Qed.
Lemma each_child_keep {S} store (P : S → Prop) f l s s' :
  (∀ d s s', P s → f d s = Ok s' → P s') → P s → each_child store f l s = Ok s' → P s'.
Proof.
  intros Hf. revert s. induction l as [|i l IH]; intros s Hs; cbn [each_child]; [by intros [= <-]|].
  intros (d & _ & (s1 & H1 & Hr)%bind_ok)%bind_ok. eapply IH; [by eapply Hf|exact Hr].
Qed.
Lemma ignore_keep {S} names name (s s' : S) : ignore names name s = Ok s' → s' = s.
Proof. unfold ignore. case_match; [by intros [= <-]|done]. Qed.

Section fresh.
Context (data : list Z) (cus : list ElfDwarfCompilationUnitHeaderType) (store : list ElfDwarfDieType).

Lemma read_link_ref form attr l l' : read_link data cus store form attr l = Ok l' → ref l' = ref l.
Proof.
  intros (o & _ & ([err r] & _ & Hr)%bind_ok)%bind_ok. destruct r; [|by injection Hr as <-].
  injection Hr as <-. by case_match.
Qed.

Definition base_fresh (b : base) : Prop := ref (b_link b) = None.
Lemma set_name_fresh attr b b' : base_fresh b → set_name attr b = Ok b' → base_fresh b'.
Proof. by intros Hb (n & _ & [= <-])%bind_ok. Qed.
Lemma set_size_fresh form attr b b' : base_fresh b → set_size data form attr b = Ok b' → base_fresh b'.
Proof. by intros Hb (n & _ & [= <-])%bind_ok. Qed.
Lemma set_type_fresh form attr b b' : base_fresh b → set_type data cus store form attr b = Ok b' → base_fresh b'.
Proof. intros Hb (l & Hl & [= <-])%bind_ok. apply read_link_ref in Hl. unfold base_fresh in *. cbn. congruence. Qed.

(** The cases of an attribute function. *)
Ltac attr_cases :=
  repeat match goal with
  | |- (if ?b then _ else _) = Ok _ → _ => destruct b
  | |- Ok _ = Ok _ → _ => intros [= <-]
  | |- Fault _ = Ok _ → _ => done
  | |- ignore _ _ _ = Ok _ → _ => intros ->%ignore_keep
  | |- set_name _ _ = Ok _ → _ => by apply set_name_fresh
  | |- set_size _ _ _ _ = Ok _ → _ => by apply set_size_fresh
  | |- set_type _ _ _ _ _ _ = Ok _ → _ => by apply set_type_fresh
  | |- (read_link _ _ _ _ _ _ ≫= _) = Ok _ → _ => let H := fresh "Hlink" in intros (? & H & [= <-])%bind_ok; apply read_link_ref in H
  | |- (_ ≫= _) = Ok _ → _ => intros (? & _ & [= <-])%bind_ok
  end; try done.
Ltac base_attrs H := apply (die_attrs_keep base_fresh) in H; [|intros ????? ?; cbn beta; attr_cases|done].

Definition member_fresh (m : DwarfDataStructMember) : Prop := ref (m_link m) = None.
Definition members_fresh (o : option (list DwarfDataStructMember)) : Prop := Forall member_fresh (default [] o).
Definition locals_fresh (o : option (list DwarfLocalVariableType)) : Prop := Forall (λ v, ref (lv_link v) = None) (default [] o).

Lemma struct_member_fresh d o o' : members_fresh o → elf_dwarf_build_struct_member data cus store d o = Ok o' → members_fresh o'.
Proof.
  intros Ho (m & Hm & [= <-])%bind_ok. apply Forall_app. split; [done|]. constructor; [|constructor].
  apply (die_attrs_keep member_fresh) in Hm; [done| |done]. intros name form attr s s' Hs. attr_cases.
  unfold member_fresh in *. cbn. congruence.
Qed.

Lemma struct_method_fresh cu fuel d o o' : members_fresh o →
  elf_dwarf_build_struct_method data store cu fuel d o = Ok o' → members_fresh o'.
Proof.
  revert d o. induction fuel as [|fuel IH]; intros d o Ho; [done|]. cbn [elf_dwarf_build_struct_method].
  intros ([m sib] & Hm & Hr)%bind_ok. assert (Hfr : member_fresh m).
  { change (member_fresh (m, sib).1). revert Hm. apply (die_attrs_keep (λ s, member_fresh s.1)); [|done].
    intros name form attr [m0 s0] s' Hs. attr_cases. intros (x & _ & (y & _ & [= <-])%bind_ok)%bind_ok. done. }
  assert (Ho' : members_fresh (dwarf_add_struct_member m o)) by (apply Forall_app; split; [done|by constructor]).
  destruct sib as [i|]; [|by injection Hr as <-]. apply bind_ok in Hr as (d' & _ & Hr). by apply (IH d' _ Ho').
Qed.

Lemma local_fresh d o o' : locals_fresh o → elf_dwarf_build_subprogram_variable data cus store d o = Ok o' → locals_fresh o'.
Proof.
  intros Ho (v & Hv & [= <-])%bind_ok. apply Forall_app. split; [done|]. constructor; [|constructor].
  apply (die_attrs_keep (λ v, ref (lv_link v) = None)) in Hv; [done| |done]. intros name form attr s s' Hs. attr_cases.
  cbn. congruence.
Qed.

Lemma struct_type_fresh cu i d sets sets' : all_fresh sets →
  elf_dwarf_build_struct_type data cus store cu i d sets = Ok sets' → all_fresh sets'.
Proof.
  intros Hs. unfold elf_dwarf_build_struct_type. destruct (children d) as [l|] eqn:Hc; [|by intros [= <-]].
  intros (b & Hb & (ms & Hms & [= <-])%bind_ok)%bind_ok. base_attrs Hb. apply register_fresh; [done|].
  split; [|by cbn; intros [H|H]; repeat case_match]. cbn. rewrite Forall_map. unfold children_loop in Hms. rewrite Hc in Hms.
  apply (each_child_keep store members_fresh) in Hms; [done| |constructor]. intros d' o o' Ho. cbn beta.
  repeat (case_match; [first [by apply struct_member_fresh|by apply struct_method_fresh|idtac]|]); by intros [= <-].
Qed.

Lemma parse_func_fresh cu i d ty sets sets' : all_fresh sets →
  parse_func data cus store cu i d ty sets = Ok sets' → all_fresh sets'.
Proof.
  intros Hs. destruct ty; cbn [parse_func]; try by apply struct_type_fresh.
  - intros (b & Hb & [= <-])%bind_ok. apply register_fresh; [done|]. by split; [constructor|].
  - intros (b & Hb & (dim & _ & [= <-])%bind_ok)%bind_ok. base_attrs Hb. apply register_fresh; [done|].
    by split; [repeat constructor|cbn; intros []].
  - intros (b & Hb & [= <-])%bind_ok. base_attrs Hb. apply register_fresh; [done|]. by split; [repeat constructor|cbn; intros []].
  - intros (b & Hb & [= <-])%bind_ok. base_attrs Hb. apply register_fresh; [done|]. by split; [repeat constructor|cbn; intros []].
  - intros (b & Hb & (ms & _ & [= <-])%bind_ok)%bind_ok. apply register_fresh; [done|]. by split; [constructor|].
  - intros (b & Hb & [= <-])%bind_ok. base_attrs Hb. apply register_fresh; [done|]. by split; [repeat constructor|cbn; intros []].
  - intros (b & Hb & (vs & Hvs & [= <-])%bind_ok)%bind_ok. apply register_fresh; [done|]. split; [|by cbn; intros []].
    cbn. rewrite Forall_map. destruct (children d) as [l|]; [|by injection Hvs as <-; constructor].
    apply (each_child_keep store locals_fresh) in Hvs; [done| |constructor]. intros d' o o' Ho. cbn beta.
    case_match; [by apply local_fresh|by intros [= <-]].
Qed.

Lemma each_fresh (f : nat → type_set → outcome type_set) l sets sets' :
  (∀ i s s', all_fresh s → f i s = Ok s' → all_fresh s') → all_fresh sets → each f l sets = Ok sets' → all_fresh sets'.
Proof.
  intros Hf. revert sets. induction l as [|i l IH]; intros sets Hs; cbn [each]; [by intros [= <-]|].
  intros (s1 & H1 & Hr)%bind_ok. eapply IH; [by eapply Hf|exact Hr].
Qed.

Lemma build_die_fresh cu i sets sets' : all_fresh sets → build_die data cus store cu i sets = Ok sets' → all_fresh sets'.
Proof. intros Hs (d & _ & Hr)%bind_ok. destruct (get_dataType (tag d)); [by eapply parse_func_fresh|by injection Hr as <-]. Qed.

Lemma search_fresh fuel cu i sets sets' : all_fresh sets →
  dwarf_search_die_recursive data cus store fuel cu i sets = Ok sets' → all_fresh sets'.
Proof.
  revert i sets sets'. induction fuel as [|fuel IH]; intros i sets sets' Hs; [done|]. cbn [dwarf_search_die_recursive].
  intros (s1 & H1 & (d & _ & Hr)%bind_ok)%bind_ok. apply build_die_fresh in H1; [|done].
  destruct (children d); [|by injection Hr as <-]. revert Hr. apply each_fresh; [|done]. apply IH.
Qed.

Lemma build_types_fresh sets sets' : all_fresh sets → build_types data cus store sets = Ok sets' → all_fresh sets'.
Proof.
  unfold build_types. generalize cus at 2. intros l. revert sets. induction l as [|cu l IH]; intros sets Hs; cbn [build_all_units];
    [by intros [= <-]|]. intros (s1 & H1 & Hr)%bind_ok. apply (IH s1); [|done]. revert H1. apply each_fresh; [|done].
  intros i s s' Hs1 (d & _ & Hr1)%bind_ok. destruct (parent d); [by injection Hr1 as <-|by eapply search_fresh].
Qed.
End fresh.

Lemma init_fresh : all_fresh dwarf_data_type_set_init.
Proof. split; [done|]. intros ty l. by destruct ty. Qed.

(** ** Resolving *)

Section resolve.
Context (store : list ElfDwarfDieType).

(** The kinds with the heads of their objects: all the search for an entry reads. *)
Definition heads (sets : type_set) : list (DwarfDataEnumType * option (list DwarfDataType)) :=
  map (λ p, (p.1, map info <$> p.2)) sets.

Lemma find_offset_heads l1 l2 i o : map info l1 = map info l2 → find_offset store l1 i o = find_offset store l2 i o.
Proof.
  revert l2 i. induction l1 as [|t1 l1 IH]; intros [|t2 l2] i H; try done. cbn [map] in H. injection H as Ht Hl.
  cbn [find_offset]. rewrite Ht. destruct (store !! t_die (info t2)); cbn [oob mbind outcome_bind]; [|done].
  case_match; [done|by apply IH].
Qed.
Lemma get_data_type_heads s1 s2 o : heads s1 = heads s2 → get_data_type store s1 o = get_data_type store s2 o.
Proof.
  revert s2. induction s1 as [|[k1 l1] s1 IH]; intros [|[k2 l2] s2] H; try done. cbn [heads map fst snd] in H.
  injection H as <- Hl Hs. cbn [get_data_type]. destruct l1 as [l1|], l2 as [l2|]; try done; [|by apply IH].
  cbn in Hl. injection Hl as Hl. rewrite (find_offset_heads l1 l2) by done.
  destruct (find_offset store l2 0 o) as [[i|]|]; cbn [mbind outcome_bind]; [done|by apply IH|done].
Qed.

Lemma keyed_heads s1 s2 : heads s1 = heads s2 → keyed s1 → keyed s2.
Proof.
  intros Hh. unfold keyed. intros <-. assert (He : ∀ s, map fst s = map fst (heads s)).
  { intros s. unfold heads. rewrite map_map. apply map_ext. by intros []. }
  by rewrite (He s1), (He s2), Hh.
Qed.

(** A valid reference is the object found for its offset. *)
Definition link_done (sets : type_set) (l : type_link) : Prop :=
  if is_valid_ref l then get_data_type store sets (ref_debug_info_offset l) = Ok (ref l) else ref l = None.

Lemma resolve_link_done sets l l' : ref l = None → resolve_link store sets l = Ok l' → link_done sets l'.
Proof.
  intros Hl. unfold resolve_link, link_done. rewrite Hl. destruct (is_valid_ref l) eqn:Hv.
  - by intros (r & Hr & [= <-])%bind_ok.
  - intros [= <-]. by rewrite Hv.
Qed.
Lemma mapM_Forall {A B} (f : A → outcome B) (P : A → Prop) (Q : B → Prop) l l' :
  (∀ x y, P x → f x = Ok y → Q y) → Forall P l → mapM f l = Ok l' → Forall Q l'.
Proof.
  intros Hf. revert l'. induction l as [|x l IH]; intros l' Hl; [by intros [= <-]|]. apply Forall_cons in Hl as [Hx Hl].
  cbn [mapM]. intros (y & Hy & (l2 & Hl2 & [= <-])%bind_ok)%bind_ok. constructor; [by eapply Hf|by apply IH].
Qed.
Lemma mapM_map {A B C} (f : A → outcome B) (g : A → C) (h : B → C) l l' :
  (∀ x y, f x = Ok y → h y = g x) → mapM f l = Ok l' → map h l' = map g l.
Proof.
  intros Hf. revert l'. induction l as [|x l IH]; intros l'; [by intros [= <-]|].
  cbn [mapM]. intros (y & Hy & (l2 & Hl2 & [= <-])%bind_ok)%bind_ok. cbn [map]. by rewrite (Hf x), IH.
Qed.

Lemma resolve_body_done sets b b' : Forall (λ l, ref l = None) (links_of b) → resolve_body store sets b = Ok b' →
  Forall (link_done sets) (links_of b').
Proof.
  intros Hb. destruct b as [?|[ms|]|l dim|l|l|?|l|frame [vs|]]; cbn [resolve_body links_of default] in *;
    try (by intros [= <-]);
    try (apply Forall_cons in Hb as [Hl _]; intros (l' & Hr & [= <-])%bind_ok; constructor; [by eapply resolve_link_done|constructor]).
  - intros (ms' & Hms & [= <-])%bind_ok. rewrite Forall_map in Hb. cbn. rewrite Forall_map.
    revert Hb Hms. apply mapM_Forall. intros m m' Hm (l & Hl & [= <-])%bind_ok. by eapply resolve_link_done.
  - intros (vs' & Hvs & [= <-])%bind_ok. rewrite Forall_map in Hb. cbn. rewrite Forall_map.
    revert Hb Hvs. apply mapM_Forall. intros v v' Hv. unfold resolve_local. cbn beta in *. unfold compose, link_done.
    destruct (is_valid_ref (lv_link v)) eqn:E; [by intros (r & Hr & [= <-])%bind_ok|intros [= <-]; by rewrite E].
Qed.

Lemma set_data_types_heads ty l l' sets : keyed sets → dwarf_get_data_types ty sets = Some l → map info l' = map info l →
  heads (set_data_types ty l' sets) = heads sets.
Proof.
  intros Hk. pose proof data_types_nodup as Hnd. rewrite <- Hk in Hnd. clear Hk.
  intros Hg Hl. induction sets as [|[k o] sets IH]; [done|]. cbn [set_data_types map heads dwarf_get_data_types fst snd] in *.
  apply NoDup_cons in Hnd as [Hk Hnd]. case_bool_decide as Ht.
  - subst k. rewrite Hg. cbn. rewrite Hl. f_equal. fold (heads sets). clear IH Hg.
    induction sets as [|[k' o'] sets IH]; [done|]. cbn [map] in *. apply not_elem_of_cons in Hk as [Hne Hk]. apply NoDup_cons in Hnd as [_ Hnd].
    cbn [fst] in Hne. rewrite bool_decide_eq_false_2 by congruence. unfold heads. cbn [map]. f_equal. by apply IH.
  - f_equal. by apply IH.
Qed.

(** One kind is resolved, the others are left. *)
Lemma resolve_kind_spec ty sets sets' : keyed sets → resolve_kind store ty sets = Ok sets' →
  (∀ l, dwarf_get_data_types ty sets = Some l → Forall (λ t, Forall (λ l, ref l = None) (links_of (body t))) l) →
  heads sets' = heads sets ∧ (∀ ty', ty' ≠ ty → dwarf_get_data_types ty' sets' = dwarf_get_data_types ty' sets) ∧
  ∀ l, dwarf_get_data_types ty sets' = Some l → Forall (λ t, Forall (link_done sets') (links_of (body t))) l.
Proof.
  intros Hk. unfold resolve_kind. destruct (dwarf_get_data_types ty sets) as [l|] eqn:Hl; [|by intros [= <-] _; rewrite Hl].
  intros (l' & Hl' & [= <-])%bind_ok Hfr. specialize (Hfr l eq_refl).
  assert (Hheads : heads (set_data_types ty l' sets) = heads sets).
  { apply (set_data_types_heads ty l); [done|done|]. revert Hl'. apply mapM_map. by intros t t' (b & _ & [= <-])%bind_ok. }
  split_and!; [done| |].
  - intros ty' Hne. rewrite get_set by done. by rewrite bool_decide_eq_false_2.
  - intros l2. rewrite get_set by done. rewrite bool_decide_eq_true_2 by done. intros [= <-]. revert Hfr Hl'.
    apply mapM_Forall. intros t t' Ht (b & Hb & [= <-])%bind_ok. apply resolve_body_done in Hb; [|done].
    eapply Forall_impl; [exact Hb|]. intros k. unfold link_done. case_match; [|done]. intros <-.
    by apply get_data_type_heads.
Qed.

Fixpoint resolve_kinds (tys : list DwarfDataEnumType) (sets : type_set) : outcome type_set :=
  match tys with [] => Ok sets | ty :: tys => sets ← resolve_kind store ty sets; resolve_kinds tys sets end.
Definition resolved_kinds : list DwarfDataEnumType :=
  [DATA_TYPE_TYPEDEF; DATA_TYPE_POINTER; DATA_TYPE_ARRAY; DATA_TYPE_STRUCT; DATA_TYPE_UNION; DATA_TYPE_CLASS;
   DATA_TYPE_VARIABLE; DATA_TYPE_SUBPROGRAM].
Lemma resolve_reference_kinds sets : resolve_reference store sets = resolve_kinds resolved_kinds sets.
Proof.
  unfold resolve_reference, elf_dwarf_resolve_struct_type, resolved_kinds, resolve_kinds,
    elf_dwarf_resolve_typedef_type, elf_dwarf_resolve_pointer_type, elf_dwarf_resolve_array_type, elf_dwarf_resolve_struct,
    elf_dwarf_resolve_union, elf_dwarf_resolve_class, elf_dwarf_resolve_variable_type, elf_dwarf_resolve_subprogram_type.
  repeat (destruct (resolve_kind _ _ _); cbn [mbind outcome_bind]; [|done]). done.
Qed.

Lemma resolve_kinds_spec tys sets sets' : NoDup tys → keyed sets → resolve_kinds tys sets = Ok sets' →
  (∀ ty l, ty ∈ tys → dwarf_get_data_types ty sets = Some l → Forall (λ t, Forall (λ l, ref l = None) (links_of (body t))) l) →
  heads sets' = heads sets ∧ (∀ ty, ty ∉ tys → dwarf_get_data_types ty sets' = dwarf_get_data_types ty sets) ∧
  ∀ ty l, ty ∈ tys → dwarf_get_data_types ty sets' = Some l → Forall (λ t, Forall (link_done sets') (links_of (body t))) l.
Proof.
  intros Hnd. revert sets. induction Hnd as [|ty tys Hty _ IH]; intros sets Hk; cbn [resolve_kinds].
  - intros [= <-] _. split_and!; [done|done|]. intros ty l Hin. by apply elem_of_nil in Hin.
  - intros (s1 & H1 & Hr)%bind_ok Hfr. apply resolve_kind_spec in H1 as (Hh & Hoth & Hdone); [|done|intros l Hl; by apply (Hfr ty); [left|]].
    apply IH in Hr as (Hh' & Hoth' & Hdone'); [|by eapply keyed_heads|].
    2: { intros ty' l Hin Hl. apply (Hfr ty'); [by right|]. rewrite <- Hoth; [done|]. by intros ->. }
    split_and!; [congruence| |].
    + intros ty' Hn. apply not_elem_of_cons in Hn as [Hne Hn]. by rewrite Hoth', Hoth.
    + intros ty' l Hin Hl. apply elem_of_cons in Hin as [->|Hin]; [|by eapply Hdone'].
      rewrite Hoth' in Hl by done. specialize (Hdone l Hl). eapply Forall_impl; [exact Hdone|]. intros t Ht.
      eapply Forall_impl; [exact Ht|]. intros k. unfold link_done. case_match; [|done]. intros <-. by apply get_data_type_heads.
Qed.

(** The objects in the order of the kinds, and those of a kind in the order they were built in,
    each with its place.  The first one of an entry is the one before which there is no other. *)
Fixpoint indexed (ty : DwarfDataEnumType) (i : nat) (l : list dwarf_type) : list (type_ptr * dwarf_type) :=
  match l with [] => [] | t :: l' => ((ty, i), t) :: indexed ty (S i) l' end.
Definition objects (sets : type_set) : list (type_ptr * dwarf_type) :=
  concat (map (λ '(ty, l), indexed ty 0 (default [] l)) sets).
Definition entry_offset (t : dwarf_type) : option Z := d_offset <$> store !! t_die (info t).
Definition first_object (o : Z) (p : type_ptr) (t : dwarf_type) (l : list (type_ptr * dwarf_type)) : Prop :=
  ∃ pre post, l = pre ++ (p, t) :: post ∧ entry_offset t = Some o ∧ Forall (λ x, entry_offset x.2 ≠ Some o) pre.

Lemma first_object_behind o p t l l' : Forall (λ x, entry_offset x.2 ≠ Some o) l → first_object o p t l' → first_object o p t (l ++ l').
Proof.
  intros Hl (pre & post & -> & Ht & Hpre). exists (l ++ pre), post. rewrite <- app_assoc. split_and!; [done|done|].
  by apply Forall_app.
Qed.
Lemma first_object_before o p t l l' : first_object o p t l → first_object o p t (l ++ l').
Proof. intros (pre & post & -> & Ht & Hpre). exists pre, (post ++ l'). by rewrite <- app_assoc. Qed.
Lemma indexed_none ty o l : ∀ i, (∀ t, t ∈ l → entry_offset t ≠ Some o) → Forall (λ x, entry_offset x.2 ≠ Some o) (indexed ty i l).
Proof.
  induction l as [|t l IH]; intros i Hl; constructor; [apply Hl; by left|]. apply IH. intros t' Ht. apply Hl. by right.
Qed.

(** What the search finds. *)
Lemma find_offset_spec l i o r : find_offset store l i o = Ok r →
  match r with
  | Some j => ∃ k t, j = (i + k)%nat ∧ l !! k = Some t ∧ ∀ ty, first_object o (ty, j) t (indexed ty i l)
  | None => ∀ t, t ∈ l → entry_offset t ≠ Some o
  end.
Proof.
  revert i r. induction l as [|t l IH]; intros i r; cbn [find_offset].
  - intros [= <-] t Ht. by apply elem_of_nil in Ht.
  - intros (d & Hd & Hr)%bind_ok. destruct (store !! t_die (info t)) as [d'|] eqn:Hs; [|done]. injection Hd as ->.
    assert (entry_offset t = Some (d_offset d)) as He by (unfold entry_offset; by rewrite Hs).
    destruct (Z.eqb_spec (d_offset d) o) as [<-|Hne].
    + injection Hr as <-. exists 0%nat, t. split_and!; [lia|done|]. intros ty. by exists [], (indexed ty (S i) l).
    + apply IH in Hr. destruct r as [j|].
      * destruct Hr as (k & t' & -> & Hk & Hfirst). exists (S k), t'. split_and!; [lia|done|].
        intros ty. apply (first_object_behind o _ _ [((ty, i), t)]); [|done]. constructor; [|done]. cbn. congruence.
      * intros t' [->|Ht]%elem_of_cons; [congruence|by apply Hr].
Qed.
Lemma type_at_cons k o sets p t : k ∉ map fst sets → type_at p sets = Ok t → type_at p ((k, o) :: sets) = Ok t.
Proof.
  intros Hk Ht. unfold type_at in *. cbn [dwarf_get_data_types]. rewrite bool_decide_eq_false_2; [done|]. intros ->. apply Hk.
  clear -Ht. induction sets as [|[k' o'] sets IH]; [done|]. cbn [dwarf_get_data_types map fst] in *.
  case_bool_decide; [subst; by left|right; by apply IH].
Qed.
Lemma get_data_type_spec sets o r : keyed sets → get_data_type store sets o = Ok r →
  match r with
  | Some p => ∃ t, type_at p sets = Ok t ∧ first_object o p t (objects sets)
  | None => ∀ ty l t, dwarf_get_data_types ty sets = Some l → t ∈ l → entry_offset t ≠ Some o
  end.
Proof.
  intros Hk. pose proof data_types_nodup as Hnd. rewrite <- Hk in Hnd. clear Hk.
  induction sets as [|[k [l|]] sets IH]; cbn [get_data_type map fst] in *.
  - by intros [= <-].
  - apply NoDup_cons in Hnd as [Hk Hnd]. intros (i & Hi & Hr)%bind_ok. pose proof (find_offset_spec _ _ _ _ Hi) as Hspec.
    destruct i as [i|].
    + injection Hr as <-. destruct Hspec as (j & t & -> & Ht & Hfirst). exists t. split; [|by apply first_object_before].
      unfold type_at. cbn [dwarf_get_data_types fst snd]. rewrite bool_decide_eq_true_2 by done. simpl. by rewrite Ht.
    + specialize (IH Hnd Hr). destruct r as [[ty j]|].
      * destruct IH as (t & Ht & Hd). exists t. split; [by apply type_at_cons|]. apply first_object_behind; [|done]. by apply indexed_none.
      * intros ty l' t. cbn [dwarf_get_data_types]. case_bool_decide; [intros [= <-]; by apply Hspec|by apply IH].
  - apply NoDup_cons in Hnd as [Hk Hnd]. intros Hr. specialize (IH Hnd Hr). destruct r as [[ty j]|].
    + destruct IH as (t & Ht & Hd). exists t. split; [by apply type_at_cons|done].
    + intros ty l' t. cbn [dwarf_get_data_types]. case_bool_decide; [done|by apply IH].
Qed.
End resolve.

(** C33: after the types of a file are built and resolved, a reference whose offset was found
    leads to the first object of the entry at that offset, in the order of the kinds and within
    a kind in the order they were built in ([objects]), or no object has that entry; a reference
    without an offset leads nowhere. *)
Theorem types_resolved data cus store sets ty l t k :
  dwarf_build_data_type_set data cus store dwarf_data_type_set_init = Ok sets →
  dwarf_get_data_types ty sets = Some l → t ∈ l → k ∈ links_of (body t) →
  map fst sets = data_types ∧
  match ref k with
  | Some p => is_valid_ref k = true ∧ ∃ t', type_at p sets = Ok t' ∧
      first_object store (ref_debug_info_offset k) p t' (objects sets)
  | None => is_valid_ref k = true → ∀ ty' l' t', dwarf_get_data_types ty' sets = Some l' → t' ∈ l' →
      entry_offset store t' ≠ Some (ref_debug_info_offset k)
  end.
Proof.
  intros (s0 & Hb & Hr)%bind_ok Hl Ht Hk. apply build_types_fresh in Hb as [Hkey Hfresh]; [|apply init_fresh].
  rewrite resolve_reference_kinds in Hr. apply resolve_kinds_spec in Hr as (Hh & Hoth & Hdone);
    [|apply (bool_decide_unpack _); by vm_compute|done|].
  2: { intros ty' l' _ Hl'. eapply Forall_impl; [by apply Hfresh|]. intros t' (_ & Hf & _). exact Hf. }
  apply (eq_sym (x := heads sets)) in Hh. pose proof (keyed_heads _ _ Hh Hkey) as Hkey'.
  assert (link_done store sets k) as Hd.
  { destruct (decide (ty ∈ resolved_kinds)) as [Hin|Hn].
    - specialize (Hdone ty l Hin Hl). rewrite Forall_forall in Hdone. specialize (Hdone t Ht). rewrite Forall_forall in Hdone. by apply Hdone.
    - rewrite Hoth in Hl by done. specialize (Hfresh ty l Hl). rewrite Forall_forall in Hfresh. destruct (Hfresh t Ht) as (Hty & _ & Hno).
      rewrite Hno in Hk; [by apply elem_of_nil in Hk|]. rewrite Hty. destruct ty; try (by left); try (by right); exfalso; apply Hn; unfold resolved_kinds;
        repeat (first [by left|right]). }
  split; [done|]. unfold link_done in Hd. destruct (is_valid_ref k); [|by rewrite Hd].
  apply get_data_type_spec in Hd; [|done]. by destruct (ref k) as [p|].
Qed.

(** ** The types of the file of [InfoDemo] *)

Module TypeDemo.
Import InfoDemo.
Abbreviation cus := (compilation_unit_headers info).
Abbreviation store := (die_store info).
Definition built : outcome type_set := dwarf_build_data_type_set image cus store dwarf_data_type_set_init.
Definition sets : type_set := match built with Ok s => s | Fault _ => [] end.

(** The enumeration at 84, seen from the qualifier at 106. *)
Lemma real_type_offset_witness :
  dwarf_get_real_type_offset image cus store 106 = Ok (STD_E_OK, Some 84) ∧
  rtc (hop image cus store) 106 84 ∧ is_type cus store 84.
Proof.
  assert (Hv : dwarf_get_real_type_offset image cus store 106 = Ok (STD_E_OK, Some 84)) by (vm_compute; reflexivity).
  assert (Hload : elf_dwarf_info_load image loaded (Some arr) = Ok (STD_E_OK, info)) by (vm_compute; reflexivity).
  split; [exact Hv|]. exact (proj1 (proj1 (real_type_offset_spec image loaded (Some arr) STD_E_OK info 106 Hload) 84) Hv).
Defined.

Lemma types_built_witness :
  ∃ units : list ElfDwarfCompilationUnitHeaderType, length units = length store ∧
    (∀ i cu, units !! i = Some cu → cu ∈ cus) ∧
    build_types image cus store dwarf_data_type_set_init =
      each (λ i sets, build_die image cus store (units !! i) i sets) (seq 0 (length store)) dwarf_data_type_set_init.
Proof.
  assert (Hload : elf_dwarf_info_load image loaded (Some arr) = Ok (STD_E_OK, info)) by (vm_compute; reflexivity).
  exact (types_built_in_file_order image loaded (Some arr) STD_E_OK info dwarf_data_type_set_init Hload).
Defined.

(** The type name leads to the structure. *)
Definition name_link : type_link := mkLink (Some (DATA_TYPE_STRUCT, 0%nat)) true 23.
Definition name_type : dwarf_type := mkType (mkInfo 5 DATA_TYPE_TYPEDEF (Some (InImage 288)) 0) (TypedefType name_link).
Lemma types_resolved_witness :
  map fst sets = data_types ∧ is_valid_ref name_link = true ∧ ∃ t', type_at (DATA_TYPE_STRUCT, 0%nat) sets = Ok t' ∧
    first_object store (ref_debug_info_offset name_link) (DATA_TYPE_STRUCT, 0%nat) t' (objects sets).
Proof.
  assert (Hb : dwarf_build_data_type_set image cus store dwarf_data_type_set_init = Ok sets) by (vm_compute; reflexivity).
  assert (Ht : dwarf_get_data_types DATA_TYPE_TYPEDEF sets = Some [name_type]) by (vm_compute; reflexivity).
  exact (types_resolved image cus store sets DATA_TYPE_TYPEDEF [name_type] name_type name_link Hb Ht
    (list_elem_of_here _ _) (list_elem_of_here _ _)).
Defined.

Definition variables_of (name : string) : outcome (list (list Z * Z)) :=
  o ← elf_dwarf_search_subprogram image (str_of name) sets;
  match o with
  | None => Ok []
  | Some p =>
      t ← type_at p sets;
      match body t with
      | SubprogramType _ (Some vs) =>
          mapM (λ v, match lv_name v with
                     | Some c => n ← text image c; Ok (n, ref_debug_info_offset (lv_link v))
                     | None => Ok ([], 0)
                     end) vs
      | _ => Ok []
      end
  end.
(** The global variable behind the function is among its local variables. *)
Example global_is_local : variables_of "main" = Ok [(str_of "i", 16); (str_of "i", 84)].
Proof. by vm_compute. Qed.

(** Local variables are variables of the file, too: the global [i], an enumeration, is found as
    the integer that the function has under its name. *)
Example local_hides_global :
  (o ← dwarf_search_data_type image DATA_TYPE_VARIABLE (str_of "i") sets;
   match o with Some p => t ← type_at p sets; Ok (links_of (body t)) | None => Ok [] end) =
  Ok [mkLink (Some (DATA_TYPE_BASE, 0%nat)) true 16].
Proof. by vm_compute. Qed.
End TypeDemo.
