(* ===== verification/DebugInfo.v ===== *)
(** * The debug information of a loaded program

    [load_debug_information] of [src/src/device/mpu/loader/loader.c] with the readers of
    [DwarfLine], [DwarfInfo] and [DwarfType] in place of the parameters of [Loader]: what a
    load leaves in the static variables of the readers ([read_debug_information]), and that a
    loader with these readers does the same ([loader_reads_debug_information]). *)

From S2P Require Import Prelude ElfImageCheck ElfSection Loader DwarfLine DwarfInfo DwarfType.
Open Scope Z_scope.

(** The static variables of the readers. *)
Record debug_info := mkDebug {
  di_lines : option (list ElfDwarfLineEntryType);
  di_abbrevs : option (list ElfDwarfAbbrevType);
  di_entries : dwarf_info;
  di_locs : option (list ElfDwarfLocEntryType);
  di_types : type_set;
}.
Definition debug_init : debug_info := mkDebug None None (mkDwarfInfo None [] []) None dwarf_data_type_set_init.

Section debug.
Context `{c : LoaderConfig}.

(** The types of the entries in [i]. *)
Definition types_of (data : list Z) (i : dwarf_info) (sets : type_set) : outcome type_set :=
  DwarfType.dwarf_build_data_type_set data (elf_dwarf_info_get i) (die_store i) sets.

(** [load_debug_information]: one reader after the other, up to the first that refuses. *)
Definition read_debug_information (data : list Z) (is_64 : bool) (e : elf_statics) (di : debug_info) : outcome debug_info :=
  sup ← dwarf_is_supported data e;
  if negb sup then Ok di
  else
    '(err, lines) ← DwarfLine.elf_dwarf_line_load data e (di_lines di);
    let di := mkDebug lines (di_abbrevs di) (di_entries di) (di_locs di) (di_types di) in
    if negb (std_ok err) then Ok di
    else
      '(err, abbrevs) ← DwarfInfo.elf_dwarf_abbrev_load data e (di_abbrevs di);
      let di := mkDebug lines abbrevs (di_entries di) (di_locs di) (di_types di) in
      if negb (std_ok err) then Ok di
      else
        '(err, entries) ← DwarfInfo.elf_dwarf_info_load data e abbrevs;
        let di := mkDebug lines abbrevs entries (di_locs di) (di_types di) in
        if negb (std_ok err) then Ok di
        else
          '(err, locs) ← DwarfInfo.elf_dwarf_loc_load data e (di_locs di);
          let di := mkDebug lines abbrevs entries locs (di_types di) in
          if negb (std_ok err) then Ok di
          else if is_64 then Ok di
          else if DEBUG_FUNC_DISABLE_DEBUG_DATA_TYPE then Ok di
          else
            types ← types_of data entries (di_types di);
            Ok (mkDebug lines abbrevs entries locs types).

(** A loader with these readers.  What a reader finds in the static variables of the others is
    computed again, from the same image. *)
Definition with_readers : LoaderConfig := {|
  ELF_MACHINE_TYPE := ELF_MACHINE_TYPE;
  EXDEV_ENABLE := EXDEV_ENABLE;
  malloc_ := malloc_;
  malloc_bitmap_ok := malloc_bitmap_ok;
  DEBUG_FUNC_DISABLE_DEBUG_DATA_TYPE := DEBUG_FUNC_DISABLE_DEBUG_DATA_TYPE;
  Loader.elf_dwarf_line_load := λ data e, '(err, _) ← DwarfLine.elf_dwarf_line_load data e None; Ok err;
  Loader.elf_dwarf_abbrev_load := λ data e, '(err, _) ← DwarfInfo.elf_dwarf_abbrev_load data e None; Ok err;
  Loader.elf_dwarf_info_load := λ data e,
    '(_, abbrevs) ← DwarfInfo.elf_dwarf_abbrev_load data e None;
    '(err, _) ← DwarfInfo.elf_dwarf_info_load data e abbrevs; Ok err;
  Loader.elf_dwarf_loc_load := λ data e, '(err, _) ← DwarfInfo.elf_dwarf_loc_load data e None; Ok err;
  Loader.dwarf_build_data_type_set := λ data e,
    '(_, abbrevs) ← DwarfInfo.elf_dwarf_abbrev_load data e None;
    '(_, entries) ← DwarfInfo.elf_dwarf_info_load data e abbrevs;
    _ ← types_of data entries dwarf_data_type_set_init; Ok ()
|}.
End debug.

(** The loader with the readers runs into a fault exactly when the readers do, the same one. *)
Lemma loader_reads_debug_information `{c : LoaderConfig} data is_64 e :
  @load_debug_information with_readers data is_64 e =
  (_ ← read_debug_information data is_64 e debug_init; Ok ()).
Proof.
  unfold load_debug_information, read_debug_information, debug_init. cbn [di_lines di_abbrevs di_entries di_locs di_types].
  destruct (dwarf_is_supported data e) as [[]|f]; [|done..]. cbn.
  destruct (DwarfLine.elf_dwarf_line_load data e None) as [[err lines]|f]; [|done]. cbn. destruct (std_ok err); [|done]. cbn.
  destruct (DwarfInfo.elf_dwarf_abbrev_load data e None) as [[err2 abbrevs]|f]; [|done]. cbn. destruct (std_ok err2); [|done]. cbn.
  destruct (DwarfInfo.elf_dwarf_info_load data e abbrevs) as [[err3 entries]|f]; [|done]. cbn. destruct (std_ok err3); [|done]. cbn.
  destruct (DwarfInfo.elf_dwarf_loc_load data e None) as [[err4 locs]|f]; [|done]. cbn. destruct (std_ok err4); [|done]. cbn.
  destruct is_64; [done|]. change (@DEBUG_FUNC_DISABLE_DEBUG_DATA_TYPE with_readers) with (@DEBUG_FUNC_DISABLE_DEBUG_DATA_TYPE c).
  destruct DEBUG_FUNC_DISABLE_DEBUG_DATA_TYPE; [done|]. cbn.
  by destruct (types_of data entries _).
Qed.
