(* ===== verification/Containers.v ===== *)
(** * Object containers and the hash table

    [src/src/lib/object_container.h]: a growing array of objects with a bubble sort over
    pointers to them; [src/src/lib/hash.c]: a table of 119 chains with a list of all
    entries in the order they were added.

    A container's elements are of any type; a pointer to an element is its index.  What
    [realloc] and [malloc] give is an argument. *)

From S2P Require Import Prelude.
From stdpp Require Import sorting.
Open Scope Z_scope.

(** ** Object containers *)

(** [oc_cells] are the objects including the preallocated ones, which hold anything. *)
Record ObjectContainerType (A : Type) := mkContainer {
  num_using_objects : Z; num_total_objects : Z; append_size : Z; oc_cells : list A }.
Arguments mkContainer {A} _ _ _ _.
Arguments num_using_objects {A} _.
Arguments num_total_objects {A} _.
Arguments append_size {A} _.
Arguments oc_cells {A} _.

Section container.
Context {A : Type}.
Implicit Types (c : ObjectContainerType A) (more : option (list A)) (x : A).

Definition object_container_create (append_array_size : Z) : ObjectContainerType A :=
  mkContainer 0 0 append_array_size [].

Definition object_container_expand more c : outcome (ObjectContainerType A) :=
  match more with
  | None => Fault AssertFail
  | Some l => Ok (mkContainer (num_using_objects c) (u32 (num_total_objects c + append_size c)) (append_size c)
                    (oc_cells c ++ l))
  end.

(** NULL beyond the objects in use. *)
Definition object_container_get_element c (index : Z) : outcome (option A) :=
  if num_using_objects c <=? index then Ok None
  else x ← oob (zget (oc_cells c) index); Ok (Some x).

(** The index of a new object; its contents are whatever the cell held. *)
Definition object_container_create_element more c : outcome (Z * ObjectContainerType A) :=
  c ← (if num_using_objects c <? num_total_objects c then Ok c else object_container_expand more c);
  let n := u32 (num_using_objects c + 1) in
  Ok (u32 (n - 1), mkContainer n (num_total_objects c) (append_size c) (oc_cells c)).

(** Store through the pointer to element [i]. *)
Definition put_element (i : Z) x c : outcome (ObjectContainerType A) :=
  l ← oob (zset (oc_cells c) i x);
  Ok (mkContainer (num_using_objects c) (num_total_objects c) (append_size c) l).

Definition elements c : list A := take (Z.to_nat (num_using_objects c)) (oc_cells c).

(** The objects in order. *)
Fixpoint collect (n : nat) (i : Z) c : outcome (list A) :=
  match n with
  | O => Ok []
  | S n' =>
      o ← object_container_get_element c i;
      match o with
      | None => Fault NullDeref
      | Some x => l ← collect n' (i + 1) c; Ok (x :: l)
      end
  end.
Definition object_container_foreach {S} (action : A → S → S) c (s : S) : outcome S :=
  l ← collect (Z.to_nat (num_using_objects c)) 0 c; Ok (fold_left (λ s x, action x s) l s).

Fixpoint find_first_from (n : nat) (i : Z) (filter : A → bool) c : outcome (option Z) :=
  match n with
  | O => Ok None
  | S n' =>
      o ← object_container_get_element c i;
      match o with
      | None => Fault NullDeref
      | Some x => if filter x then Ok (Some i) else find_first_from n' (i + 1) filter c
      end
  end.
Definition object_container_find_first (filter : A → bool) c : outcome (option Z) :=
  find_first_from (Z.to_nat (num_using_objects c)) 0 filter c.

(** *** Sorting

    The sort array holds pointers; it is the list of what they point to.  [x] is the object
    at the index of the inner loop, [l] those behind it; the result says whether two
    objects were exchanged. *)
Fixpoint bubble_pass (object_compare : A → A → bool) x (l : list A) : list A * bool :=
  match l with
  | [] => ([x], false)
  | y :: l' =>
      if object_compare x y then
        let '(r, _) := bubble_pass object_compare x l' in (y :: r, true)
      else
        let '(r, isSwap) := bubble_pass object_compare y l' in (x :: r, isSwap)
  end.

(** [None]: still exchanging after the given number of passes. *)
Fixpoint bubble_sort (passes : nat) (object_compare : A → A → bool) x (l : list A) : option (list A) :=
  match passes with
  | O => None
  | S n =>
      match bubble_pass object_compare x l with
      | (x' :: l', true) => bubble_sort n object_compare x' l'
      | (r, _) => Some r
      end
  end.

(** The passes of the loop: one more than the pairs of objects, so that it always ends before. *)
Definition sort_fuel (n : nat) : nat := S (n * n).

(** With no objects the bound of the inner loop wraps and the first pointer is NULL. *)
Definition object_container_sort (object_compare : A → A → bool) c : outcome (option (list A)) :=
  l ← collect (Z.to_nat (num_using_objects c)) 0 c;
  match l with
  | [] => Fault NullDeref
  | x :: l' => Ok (bubble_sort (sort_fuel (length l)) object_compare x l')
  end.

(** *** A container is a list *)

Record container_wf c : Prop := {
  cw_cells : zlen (oc_cells c) = num_total_objects c;
  cw_used : 0 ≤ num_using_objects c ≤ num_total_objects c;
  cw_append : 0 < append_size c < 2 ^ 16;
  cw_small : num_total_objects c < 2 ^ 31;
}.

Lemma create_wf n : 0 < n < 2 ^ 16 → container_wf (object_container_create n) ∧ elements (object_container_create n) = [].
Proof. intros. split; [split; cbn; lia || done|done]. Qed.

(** Adding an object appends it, when memory can be had. *)
Lemma add_element_ok more x c :
  container_wf c → num_total_objects c + append_size c < 2 ^ 31 →
  (∃ l, more = Some l ∧ zlen l = append_size c) →
  ∃ i c1 c2, object_container_create_element more c = Ok (i, c1) ∧ put_element i x c1 = Ok c2 ∧
    container_wf c2 ∧ elements c2 = elements c ++ [x].
Proof.
  intros [Hc Hu Ha Hs] Hb (l & -> & Hl).
  set (c0 := if num_using_objects c <? num_total_objects c then c
             else mkContainer (num_using_objects c) (num_total_objects c + append_size c) (append_size c) (oc_cells c ++ l)).
  assert (H0 : (if num_using_objects c <? num_total_objects c then Ok c else object_container_expand (Some l) c) = Ok c0 ∧
    zlen (oc_cells c0) = num_total_objects c0 ∧ num_using_objects c0 = num_using_objects c ∧
    num_using_objects c < num_total_objects c0 < 2 ^ 31 ∧ append_size c0 = append_size c ∧ elements c0 = elements c).
  { unfold c0. destruct (Z.ltb_spec (num_using_objects c) (num_total_objects c)); [by split_and!; try lia|].
    cbn. rewrite wrap_id by (unfold in_width; lia). split_and!; try done; try lia; [rewrite zlen_app; lia|].
    unfold elements. cbn. apply take_app_le. unfold zlen in *. lia. }
  clearbody c0. destruct H0 as (He & Hc0 & Hu0 & Ht0 & Ha0 & Hel).
  unfold object_container_create_element. rewrite He. cbn [mbind outcome_bind].
  rewrite Hu0. rewrite (wrap_id 32 (num_using_objects c + 1)) by (unfold in_width; lia).
  rewrite wrap_id by (unfold in_width; lia). replace (num_using_objects c + 1 - 1) with (num_using_objects c) by lia.
  do 3 eexists. split; [done|]. unfold put_element. cbn [oc_cells num_using_objects num_total_objects append_size].
  erewrite (proj2 (zset_Some _ _ _ _)) by (split; [lia|done]). cbn [oob mbind outcome_bind]. split; [done|]. split.
  - split; cbn; rewrite ?zlen_zput; lia.
  - rewrite <- Hel. unfold elements. cbn. rewrite Hu0. unfold zput, zlen in *.
    rewrite insert_take_drop by lia. rewrite (cons_middle x), app_assoc. apply take_app_length'.
    rewrite length_app, length_take. simpl. lia.
Qed.

Lemma collect_ok c : container_wf c → collect (Z.to_nat (num_using_objects c)) 0 c = Ok (elements c).
Proof.
  intros [Hc Hu _ _]. unfold elements.
  assert (Hgen : ∀ n i, 0 ≤ i → i + Z.of_nat n = num_using_objects c →
    collect n i c = Ok (take n (drop (Z.to_nat i) (oc_cells c)))).
  { induction n as [|n IH]; intros i Hi Hn; [done|]. cbn [collect]. unfold object_container_get_element.
    replace (num_using_objects c <=? i) with false by lia.
    destruct (zget_is_Some (oc_cells c) i) as [x Hx]; [lia|]. rewrite Hx. cbn [oob mbind outcome_bind].
    rewrite IH by lia. cbn [mbind outcome_bind]. unfold zget in Hx. destruct (i <? 0); [done|].
    rewrite (drop_S _ _ _ Hx). by replace (Z.to_nat (i + 1)) with (S (Z.to_nat i)) by lia. }
  rewrite Hgen by lia. by rewrite drop_0.
Qed.

(** *** The sort sorts *)

Section sort.
Context (key : A → Z).
(** Exchange two neighbours when the first has the greater key. *)
Definition compare_key (a b : A) : bool := key b <? key a.
Definition below : relation A := λ a b, key a ≤ key b.

(** Pairs in the wrong order. *)
Definition smaller (x : A) (l : list A) : nat := length (filter (λ y, key y < key x) l).
Fixpoint inversions (l : list A) : nat :=
  match l with [] => 0 | x :: l' => smaller x l' + inversions l' end.

Lemma smaller_perm x l l' : l ≡ₚ l' → smaller x l = smaller x l'.
Proof. intros Hp. unfold smaller. by rewrite Hp. Qed.

Lemma smaller_cons x y l : smaller x (y :: l) = ((if compare_key x y then 1 else 0) + smaller x l)%nat.
Proof. unfold smaller, compare_key. rewrite filter_cons. case_decide; destruct (Z.ltb_spec (key y) (key x)); simpl; lia. Qed.

Lemma bubble_pass_spec x l :
  ∃ r s, bubble_pass compare_key x l = (r, s) ∧ r ≡ₚ x :: l ∧
    (inversions r + (if s then 1 else 0) ≤ inversions (x :: l))%nat ∧
    (s = false → r = x :: l ∧ Sorted below (x :: l)).
Proof.
  revert x. induction l as [|y l IH]; intros x; cbn [bubble_pass].
  { exists [x], false. split_and!; [done|done|simpl; lia|]. intros _. by repeat constructor. }
  cbn [inversions]. rewrite smaller_cons. destruct (compare_key x y) eqn:Ec.
  - destruct (IH x) as (r & s & -> & Hp & Hi & _). exists (y :: r), true. split_and!; [done| | |done].
    + rewrite Hp. constructor.
    + cbn [inversions] in *. rewrite (smaller_perm y _ _ Hp), smaller_cons.
      unfold compare_key in *. replace (key x <? key y) with false by lia. lia.
  - destruct (IH y) as (r & s & -> & Hp & Hi & Hs). exists (x :: r), s. split_and!; [done|by rewrite Hp| |].
    + cbn [inversions] in *. rewrite (smaller_perm x _ _ Hp), smaller_cons, Ec. lia.
    + intros E. destruct (Hs E) as [-> Hsort]. split; [done|]. constructor; [done|].
      constructor. unfold below, compare_key in *. lia.
Qed.

Lemma bubble_sort_spec n x l :
  (inversions (x :: l) < n)%nat →
  ∃ r, bubble_sort n compare_key x l = Some r ∧ r ≡ₚ x :: l ∧ Sorted below r.
Proof.
  revert x l. induction n as [|n IH]; intros x l Hn; [lia|]. cbn [bubble_sort].
  destruct (bubble_pass_spec x l) as (r & s & -> & Hp & Hi & Hs). destruct r as [|x' l'].
  { by apply Permutation_nil_cons in Hp. }
  destruct s.
  - destruct (IH x' l') as (r & -> & Hp' & Hr); [lia|]. exists r. split_and!; [done|by rewrite Hp'|done].
  - destruct (Hs eq_refl) as [Heq Hsort]. exists (x' :: l'). rewrite Heq. by split_and!.
Qed.

Lemma inversions_bound l : (inversions l ≤ length l * length l)%nat.
Proof.
  induction l as [|x l IH]; [done|]. cbn [inversions length].
  assert (smaller x l ≤ length l)%nat by (unfold smaller; apply length_filter). nia.
Qed.

(** The sort of a container ends and sorts: on a container with at least one object it
    stops exchanging within the passes given, and the result is a permutation of the
    objects in ascending order of the key that is compared. *)
Theorem object_container_sort_ok c :
  container_wf c → 0 < num_using_objects c →
  ∃ r, object_container_sort compare_key c = Ok (Some r) ∧ r ≡ₚ elements c ∧ Sorted below r.
Proof.
  intros Hwf Hn. unfold object_container_sort. rewrite collect_ok by done. cbn [mbind outcome_bind].
  destruct (elements c) as [|x l] eqn:E.
  - apply (f_equal length) in E. unfold elements in E. rewrite length_take in E.
    destruct Hwf as [Hc Hu _ _]. unfold zlen in Hc. simpl in E. lia.
  - destruct (bubble_sort_spec (sort_fuel (length (x :: l))) x l) as (r & -> & ? & ?); [|eauto].
    unfold sort_fuel. pose proof (inversions_bound (x :: l)). lia.
Qed.
End sort.
End container.

(** With no objects the sort dereferences a null pointer. *)
Lemma sort_empty_container : object_container_sort (compare_key id) (object_container_create 4) = Fault NullDeref.
Proof. done. Qed.

Lemma object_container_sort_witness :
  let c := mkContainer 3 4 4 [5; 9; 2; 0] in
  ∃ r, object_container_sort (compare_key id) c = Ok (Some r) ∧ r ≡ₚ elements c ∧ Sorted (below id) r.
Proof. apply (object_container_sort_ok id); [by split|done]. Defined.

(** ** The hash table *)

Record HashValueType := mkHashValue { rawdata : Z; hash_data : list Z }.
Definition HASHSIZE : Z := 119.

(** Entries live for ever, so a pointer to one is its place in the list of all entries; a
    chain is the list of its entries, [hash_ref] the entry the walk is at. *)
Record hash_state := mkHash { hash_list : list HashValueType; hash_table : list (list Z); hash_ref : option Z }.

Definition hashValue (raw : Z) : Z := raw mod HASHSIZE.
Definition hash_init : hash_state := mkHash [] (replicate 119 []) None.

Fixpoint search_chain (chain : list Z) (raw : Z) (l : list HashValueType) : outcome (option Z) :=
  match chain with
  | [] => Ok None
  | e :: chain' =>
      v ← oob (zget l e);
      if raw =? rawdata v then Ok (Some e) else search_chain chain' raw l
  end.
Definition hash_search (v : HashValueType) (st : hash_state) : outcome (option Z) :=
  chain ← oob (zget (hash_table st) (hashValue (rawdata v)));
  search_chain chain (rawdata v) (hash_list st).

(** [mem]: whether [malloc] gives an entry. *)
Definition hash_add (mem : bool) (v : HashValueType) (st : hash_state) : outcome hash_state :=
  tmp ← hash_search v st;
  match tmp with
  | Some _ => Ok st
  | None =>
      if negb mem then Fault NullDeref
      else
        let h := hashValue (rawdata v) in
        chain ← oob (zget (hash_table st) h);
        Ok (mkHash (hash_list st ++ [v]) (zput (hash_table st) h (chain ++ [zlen (hash_list st)])) (hash_ref st))
  end.

Definition hash_first (st : hash_state) : option Z * hash_state :=
  let ref := match hash_list st with [] => None | _ => Some 0 end in
  (ref, mkHash (hash_list st) (hash_table st) ref).
Definition hash_next (st : hash_state) : option Z * hash_state :=
  match hash_ref st with
  | None => (None, st)
  | Some i =>
      if zlen (hash_list st) <=? i + 1 then (None, st)
      else (Some (i + 1), mkHash (hash_list st) (hash_table st) (Some (i + 1)))
  end.

(** Chain [h] has the entries whose hash is [h], in the order of the list; keys are unique. *)
Record hash_wf (st : hash_state) : Prop := {
  hw_size : zlen (hash_table st) = HASHSIZE;
  hw_chain : ∀ h chain, zget (hash_table st) h = Some chain →
    ∀ i, i ∈ chain ↔ ∃ v, zget (hash_list st) i = Some v ∧ hashValue (rawdata v) = h;
  hw_unique : ∀ i j v w, zget (hash_list st) i = Some v → zget (hash_list st) j = Some w →
    rawdata v = rawdata w → i = j;
}.

Lemma search_chain_ok chain raw l :
  (∀ i, i ∈ chain → ∃ v, zget l i = Some v) →
  ∃ o, search_chain chain raw l = Ok o ∧
    match o with
    | Some i => i ∈ chain ∧ ∃ v, zget l i = Some v ∧ rawdata v = raw
    | None => ∀ i v, i ∈ chain → zget l i = Some v → rawdata v ≠ raw
    end.
Proof.
  induction chain as [|e chain IH]; intros Hin.
  { exists None. split; [done|]. intros i v Hi. by apply not_elem_of_nil in Hi. }
  destruct (Hin e ltac:(apply list_elem_of_here)) as [v Hv]. cbn [search_chain]. rewrite Hv. cbn [oob mbind outcome_bind].
  destruct (Z.eqb_spec raw (rawdata v)) as [->|Hne].
  - exists (Some e). split; [done|]. split; [apply list_elem_of_here|]. eauto.
  - destruct IH as (o & -> & Ho); [intros i Hi; apply Hin; by apply list_elem_of_further|]. exists o. split; [done|].
    destruct o as [i|].
    + destruct Ho as [Hi Hx]. split; [by apply list_elem_of_further|done].
    + intros i w Hi Hw. apply elem_of_cons in Hi as [->|Hi]; [|by eapply Ho].
      rewrite Hv in Hw. injection Hw as <-. congruence.
Qed.

Lemma hash_search_ok v st :
  hash_wf st →
  ∃ o, hash_search v st = Ok o ∧
    match o with
    | Some i => ∃ w, zget (hash_list st) i = Some w ∧ rawdata w = rawdata v
    | None => ∀ i w, zget (hash_list st) i = Some w → rawdata w ≠ rawdata v
    end.
Proof.
  intros [Hs Hc _]. unfold hash_search.
  assert (0 ≤ hashValue (rawdata v) < HASHSIZE) as Hh by (apply Z.mod_pos_bound; done).
  destruct (zget_is_Some (hash_table st) (hashValue (rawdata v))) as [chain Hg]; [lia|]. rewrite Hg. cbn [oob mbind outcome_bind].
  destruct (search_chain_ok chain (rawdata v) (hash_list st)) as (o & -> & Ho).
  { intros i Hi. apply (Hc _ _ Hg) in Hi as (w & Hw & _). eauto. }
  exists o. split; [done|]. destruct o as [i|]; [by destruct Ho|].
  intros i w Hw Heq. apply (Ho i w); [|done|done]. apply (Hc _ _ Hg). exists w. by rewrite Heq.
Qed.

(** The values with distinct keys, the first of each kept. *)
Fixpoint add_all (vs : list HashValueType) (st : hash_state) : outcome hash_state :=
  match vs with
  | [] => Ok st
  | v :: vs' => st ← hash_add true v st; add_all vs' st
  end.
Definition add_spec (l : list HashValueType) (v : HashValueType) : list HashValueType :=
  if existsb (λ w, rawdata w =? rawdata v) l then l else l ++ [v].

Lemma existsb_zget (l : list HashValueType) raw :
  existsb (λ w, rawdata w =? raw) l = true ↔ ∃ i w, zget l i = Some w ∧ rawdata w = raw.
Proof.
  rewrite existsb_exists. split.
  - intros (w & Hw & He). apply list_elem_of_In, list_elem_of_lookup in Hw as [i Hi].
    exists (Z.of_nat i), w. rewrite zget_lookup. split; [done|lia].
  - intros (i & w & Hw & He). exists w. split; [apply list_elem_of_In; by eapply zget_elem|lia].
Qed.

Lemma hash_add_ok v st :
  hash_wf st → ∃ st', hash_add true v st = Ok st' ∧ hash_wf st' ∧ hash_list st' = add_spec (hash_list st) v.
Proof.
  intros Hwf. pose proof Hwf as [Hs Hc Hu]. unfold hash_add.
  destruct (hash_search_ok v st Hwf) as (o & -> & Ho). cbn [mbind outcome_bind]. unfold add_spec.
  destruct o as [i|].
  { exists st. split_and!; [done|done|]. by rewrite (proj2 (existsb_zget _ _)) by (destruct Ho as (w & ? & ?); eauto). }
  destruct (existsb _ _) eqn:Ex.
  { apply existsb_zget in Ex as (i & w & Hw & He). by destruct (Ho i w). }
  cbn [negb]. assert (0 ≤ hashValue (rawdata v) < HASHSIZE) as Hh by (apply Z.mod_pos_bound; done).
  destruct (zget_is_Some (hash_table st) (hashValue (rawdata v))) as [chain Hg]; [lia|]. rewrite Hg. cbn [oob mbind outcome_bind].
  eexists. split_and!; [done| |done]. split; cbn [hash_list hash_table].
  - by rewrite zlen_zput.
  - intros h chain' Hg' i. destruct (decide (h = hashValue (rawdata v))) as [->|Hne].
    + rewrite zget_zput_eq in Hg' by lia. injection Hg' as <-. rewrite elem_of_app, (Hc _ _ Hg i), list_elem_of_singleton. split.
      * intros [(w & Hw & He)| ->]; [exists w; split; [|done]|exists v; split; [|done]].
        -- rewrite zget_app_l; [done|]. apply zget_range in Hw. lia.
        -- by rewrite zget_app_r, Z.sub_diag by lia.
      * intros (w & Hw & He). destruct (zget_snoc _ _ _ _ Hw) as [Hl|[-> ->]]; [left; eauto|by right].
    + rewrite zget_zput_ne in Hg' by (done || lia). rewrite (Hc _ _ Hg' i). split.
      * intros (w & Hw & He). exists w. split; [|done]. rewrite zget_app_l; [done|]. apply zget_range in Hw. lia.
      * intros (w & Hw & He). destruct (zget_snoc _ _ _ _ Hw) as [Hl|[-> ->]]; [eauto|congruence].
  - intros i j w w' Hi Hj Heq. destruct (zget_snoc _ _ _ _ Hi) as [Hi'|[-> ->]], (zget_snoc _ _ _ _ Hj) as [Hj'|[-> ->]]; eauto.
    + by destruct (Ho i w).
    + by destruct (Ho j w').
Qed.

(** The table is a map that keeps the first value of every key, and a list of them in order. *)
Lemma hash_refines_map vs :
  ∃ st, add_all vs hash_init = Ok st ∧ hash_wf st ∧ hash_list st = foldl add_spec [] vs.
Proof.
  assert (Hinit : hash_wf hash_init).
  { split; [done| |].
    - intros h chain Hg i. assert (chain = []) as ->.
      { apply zget_elem in Hg. by apply elem_of_replicate in Hg as [-> _]. }
      split; [by intros ?%not_elem_of_nil|]. intros (v & Hv & _). apply zget_range in Hv. cbn in Hv. unfold zlen in Hv. simpl in Hv. lia.
    - intros i j v w Hi. apply zget_range in Hi. cbn in Hi. unfold zlen in Hi. simpl in Hi. lia. }
  change (@nil HashValueType) with (hash_list hash_init). revert Hinit. generalize hash_init as st.
  induction vs as [|v vs IH]; intros st Hst; [by exists st|]. cbn [add_all foldl].
  destruct (hash_add_ok v st Hst) as (st1 & -> & Hw1 & <-). cbn [mbind outcome_bind]. by apply IH.
Qed.
