(* ===== verification/DbgExecutor.v ===== *)
(** * The debugger's command executor

    [src/src/debugger/executor/concrete_executor/dbg_std_executor.c] and the command loop of
    [src/src/main/main.cpp]: the function of each command, run on the state of the debugger,
    the guest memory and the log switches.

    An executor is a program of the monad [cmd]: it passes the state along, collects what it
    prints, sends to the front end or writes to a file, and may crash, end the process, or
    call into the CPU thread.  Such a call suspends the program and resumes it with the state
    the CPU thread leaves, which is any state; [run_with] supplies one.  Printed lines are
    kept as the pieces of their formats, without field widths and the final newline; text
    printed without a newline is [Unfinished], and what is printed next continues its line.

    Parameters: the target's registers, clocks, interrupts and serial line, the printing of
    typed variables (defined in [DwarfPrint]), the linkage names of methods, and whether the
    report file opens. *)

From Stdlib Require Import String Ascii.
From S2P Require Import Prelude SymbolOps CpuControl CpuCallback Mpu Bus Token DbgParser DwarfLine Containers.
Open Scope Z_scope.

(** ** Programs *)

Inductive piece :=
  | Lit (s : string) | Chars (s : list Z) | Dec (n : Z) | Hex (n : Z) | Char (c : Z).

Inductive event :=
  | Printed (line : list piece)
  | Unfinished (text : list piece)
  | Reply (line : list piece)
  | FileLine (line : list piece)
  | FileOpened
  | FileClosed
  | Clock (e : elaps_event)
  | RaiseIntr (intno : Z)
  | PrintCpu (core_id : Z)
  | Editor.

(** Calls that let the CPU thread run. *)
Inductive thread_call :=
  | dbg_wakeup_cpu | dbg_wakeup_cpu_and_wait_for_cpu_stopped | dbg_waitfor_cpu_stopped | os_sleep.

Inductive result (S A : Type) :=
  | Done (out : list event) (s : S) (a : A)
  | Crash (out : list event) (f : fault)
  | Exit (out : list event)
  | Call (out : list event) (c : thread_call) (s : S) (k : S → result S A).
Arguments Done {S A} _ _ _.
Arguments Crash {S A} _ _.
Arguments Exit {S A} _.
Arguments Call {S A} _ _ _ _.

Definition cmd (S A : Type) : Type := S → result S A.

Section programs.
Context {S : Type}.

(** Put earlier output in front. *)
Definition after {A} (out : list event) (r : result S A) : result S A :=
  match r with
  | Done o s a => Done (out ++ o) s a
  | Crash o f => Crash (out ++ o) f
  | Exit o => Exit (out ++ o)
  | Call o c s k => Call (out ++ o) c s k
  end.
Fixpoint result_bind {A B} (f : A → cmd S B) (r : result S A) : result S B :=
  match r with
  | Done o s a => after o (f a s)
  | Crash o e => Crash o e
  | Exit o => Exit o
  | Call o c s k => Call o c s (λ s', result_bind f (k s'))
  end.
#[export] Instance cmd_ret : MRet (cmd S) := λ A a s, Done [] s a.
#[export] Instance cmd_bind : MBind (cmd S) := λ A B f m s, result_bind f (m s).

Definition tell (e : event) : cmd S () := λ s, Done [e] s ().
Definition get {A} (f : S → A) : cmd S A := λ s, Done [] s (f s).
Definition modify (f : S → S) : cmd S () := λ s, Done [] (f s) ().
Definition lift {A} (m : outcome A) : cmd S A := λ s,
  match m with Ok a => Done [] s a | Fault f => Crash [] f end.
Definition call (c : thread_call) : cmd S () := λ s, Call [] c s (λ s', Done [] s' ()).
Definition end_process : cmd S () := λ s, Exit [].

Fixpoint for_each {A} (l : list A) (body : A → cmd S ()) : cmd S () :=
  match l with
  | [] => mret ()
  | x :: l => body x;; for_each l body
  end.

(** Resume every call with the state [env] makes of it. *)
Fixpoint run_with {A} (env : thread_call → S → S) (r : result S A) : result S A :=
  match r with
  | Call o c s k => after o (run_with env (k (env c s)))
  | r => r
  end.
End programs.

Definition say {S} (line : list piece) : cmd S () := tell (Printed line).
Definition reply {S} (s : string) : cmd S () := tell (Reply [Lit s]).

(** ** State *)

(** What the target provides: [T] is the state of its CPU, devices and clocks. *)
Class Target (T : Type) := {
  CPU_CONFIG_CORE_NUM : Z;
  cpu_config_get_core_id_num : Z;
  cpu_get_current_core_id : T → Z;
  cpu_get_return_addr : Z → T → Z;
  dbg_serial_in : Z → Z → T → Std_ReturnType * T;
  total_clocks : T → Z;
  intr_clocks : T → Z;
  cpu_clocks : T → list Z;
  elaps_time : T → Z;
}.

Record exec_state (D T : Type) := mkX {
  x_dbg : dbg_state;
  x_mpu : mpu_state D;
  x_tgt : T;
  x_view : bool;
  x_print : bool;
  x_parser : parser_state;
}.
Arguments mkX {D T} _ _ _ _ _ _.
Arguments x_dbg {D T} _.
Arguments x_mpu {D T} _.
Arguments x_tgt {D T} _.
Arguments x_view {D T} _.
Arguments x_print {D T} _.
Arguments x_parser {D T} _.

Section executors.
Context {D T : Type} `{MpuConfig D} `{Target T}.
#[local] Abbreviation St := (exec_state D T).
#[local] Abbreviation cmd := (cmd St).
Implicit Types (s : St).

(** The line table; the linkage name of a class and a method; the printing of a variable by
    its name, of an address by its type, of a local variable; whether the file opens. *)
Context (key_value_mapping : list KeyValueMappingType).
Context (elf_dwarf_get_class_method_linkagename : list Z → list Z → option (list Z)).
Context (print_variable_with_data_type : list Z → Z → option (nat * Z) → Z → cmd bool).
Context (print_addr_with_data_type : Z → option (nat * Z) → list Z → list Z → cmd bool).
Context (print_local_variable_type : list Z → cmd bool).
Context (file_wopen : bool).

Definition with_dbg (f : dbg_state → dbg_state) s : St :=
  mkX (f (x_dbg s)) (x_mpu s) (x_tgt s) (x_view s) (x_print s) (x_parser s).
Definition with_mpu (m : mpu_state D) s : St :=
  mkX (x_dbg s) m (x_tgt s) (x_view s) (x_print s) (x_parser s).
Definition with_tgt (t : T) s : St :=
  mkX (x_dbg s) (x_mpu s) t (x_view s) (x_print s) (x_parser s).
Definition dbg_log_set_view_mode (on : bool) s : St :=
  mkX (x_dbg s) (x_mpu s) (x_tgt s) on (x_print s) (x_parser s).
Definition dbg_log_set_print_mode (on : bool) s : St :=
  mkX (x_dbg s) (x_mpu s) (x_tgt s) (x_view s) on (x_parser s).
Definition with_parser (p : parser_state) s : St :=
  mkX (x_dbg s) (x_mpu s) (x_tgt s) (x_view s) (x_print s) p.
Definition set_result (b : bool) s : St :=
  let p := x_parser s in let c := parse_command p in
  with_parser (mkParser (last_command p)
    (mkExec (std_id c) (original_str c) (parsed_args c) (run c) b)) s.

(** The command object an executor is given is [parse_command]. *)
Definition args {A} (f : parsed_bytes → A) : cmd A := get (λ s, f (parsed_args (parse_command (x_parser s)))).
Definition ok_result : cmd () := reply "OK";; modify (set_result true).

(** Operations on the parts of the state. *)
Definition on_breaks (f : break_state → outcome (bool * break_state)) : cmd bool :=
  b ← get (λ s, d_breaks (x_dbg s));
  '(r, b) ← lift (f b);
  modify (with_dbg (with_breaks b));; mret r.
Definition with_watches (w : watch_state) (st : dbg_state) : dbg_state :=
  mkDbg (d_breaks st) w (d_run st) (d_syms st) (d_access st) (d_trace st) (d_prof st) (d_frames st)
    (current_pc st) (CpuCallback.current_funcid st) (current_sp st).
Definition on_watches (f : watch_state → bool * watch_state) : cmd bool :=
  w ← get (λ s, d_watches (x_dbg s));
  let '(r, w) := f w in
  modify (with_dbg (with_watches w));; mret r.
Definition on_run {A} (f : run_state → outcome (A * run_state)) : cmd A :=
  r ← get (λ s, d_run (x_dbg s));
  '(a, r) ← lift (f r);
  modify (with_dbg (with_run r));; mret a.
Definition look_up (f : symbol_state → outcome (Z * option Z * symbol_state)) : cmd (Z * Z) :=
  ss ← get (λ s, d_syms (x_dbg s));
  '(id, a, ss) ← lift (f ss);
  modify (with_dbg (with_syms ss));; mret (id, default 0 a).
Definition with_symbols {A} (f : symbol_state → outcome A) : cmd A :=
  ss ← get (λ s, d_syms (x_dbg s)); lift (f ss).
Definition set_debug_mode (on : bool) : cmd () :=
  e ← on_run (λ r, let '(r, e) := cpuctrl_set_debug_mode on r in Ok (e, r));
  tell (Clock e).
Definition set_cont_clocks (timeout : bool) (clocks : Z) : cmd () :=
  on_run (λ r, r ← cpuctrl_set_cont_clocks timeout clocks r; Ok ((), r)).
Definition candidate_lines (names : list (list Z)) : cmd () :=
  for_each names (λ n, say [Lit "candidate "; Chars n]).

(** [cpuemu_get_addr_pointer]: the pointer is not written when the result is not [STD_E_OK]. *)
Definition cpuemu_get_addr_pointer (addr : Z) : cmd (Std_ReturnType * option (nat * Z)) :=
  m ← get x_mpu;
  '(err, p, m) ← lift (bus_get_pointer 0 addr m);
  modify (with_mpu m);; mret (err, p).
(** Reading through a host pointer; one that was never set points nowhere. *)
Definition host_read (p : option (nat * Z)) (n : Z) : cmd (list Z) :=
  h ← get (λ s, host (x_mpu s));
  lift (match p with
        | None => Fault OutOfBounds
        | Some (b, off) => blk ← oob (h !! b); oob (bytes_at blk off n)
        end).
Definition host_write (p : option (nat * Z)) (bs : list Z) : cmd () :=
  m ← get x_mpu;
  h ← lift (match p with
            | None => Fault OutOfBounds
            | Some (b, off) => blk ← oob (host m !! b); blk ← oob (bytes_set blk off bs); Ok (<[b := blk]> (host m))
            end);
  modify (with_mpu (with_host m h (devices m))).

Definition SYMBOL_CANDIATE_NUM : nat := 10.

(** ** Break points and watch points *)

Definition exec_parse_error : cmd () :=
  s ← get (λ s, original_str (parse_command (x_parser s)));
  say [Lit "ERROR: "; Chars s; Lit " :command not found"];;
  reply "NG".

(** [strtok] for one delimiter: the next token and what follows it. *)
Fixpoint skip_char (c : Z) (l : list Z) : list Z :=
  match l with x :: l' => if x =? c then skip_char c l' else l | [] => [] end.
Fixpoint until_char (c : Z) (l : list Z) : list Z * list Z :=
  match l with
  | x :: l' => if x =? c then ([], l') else let '(t, r) := until_char c l' in (x :: t, r)
  | [] => ([], [])
  end.
Definition strtok (c : Z) (l : list Z) : option (list Z) * list Z :=
  match skip_char c l with
  | [] => (None, [])
  | l' => let '(t, r) := until_char c l' in (Some t, r)
  end.

Definition get_class_method (symbol : list Z) : option (list Z) :=
  let '(t0, r) := strtok 46 symbol in
  let '(t1, _) := strtok 46 r in
  match t0, t1 with
  | Some classname, Some methodname => elf_dwarf_get_class_method_linkagename classname methodname
  | _, _ => None
  end.

Definition str_arg (t : TokenStringType) : list Z := cstring (ts_str t).

(** Set a permanent break point, say so under a name, and answer. *)
Definition set_break_and_tell (addr : Z) (what shown : list piece) : cmd () :=
  ok ← on_breaks (λ b, Ok (cpuctrl_set_break (u32 addr) BREAK_POINT_TYPE_FOREVER b));
  if (ok : bool) then say (Lit "break " :: shown);; ok_result
  else say (Lit "ERROR: can not break " :: what);; reply "NG".

(** One line of the list of break points. *)
Definition break_info (i : Z) : cmd () :=
  b ← get (λ s, d_breaks (x_dbg s));
  match cpuctrl_get_break i b with
  | None => mret ()
  | Some addr =>
      '(funcid, funcaddr) ← look_up (symbol_pc2funcid addr);
      if 0 <=? funcid then
        name ← with_symbols (symbol_funcid2funcname funcid);
        say [Lit "["; Dec i; Lit "] 0x"; Hex addr; Lit " "; Chars name; Lit "(+0x"; Hex (uaddr (addr - funcaddr)); Lit ")"]
      else say [Lit "["; Dec i; Lit "] 0x"; Hex addr]
  end.

Definition exec_break : cmd () :=
  a ← args break_args;
  let symbol := str_arg (ba_symbol a) in
  match ba_type a with
  | DBG_CMD_BBREAK_SET_SYMBOL =>
      name ← match get_class_method symbol with
             | None => mret symbol
             | Some l => say [Lit "linkagename="; Chars l];; mret l
             end;
      ss ← get (λ s, d_syms (x_dbg s));
      match symbol_get_func name (zlen name) ss with
      | (_, Some (addr, _)) => set_break_and_tell addr [Chars symbol] [Chars symbol; Lit " 0x"; Hex addr]
      | (_, None) =>
          say [Lit "ERROR: not found symbol "; Chars symbol];;
          candidate_lines (symbol_print_func name SYMBOL_CANDIATE_NUM ss);;
          reply "NG"
      end
  | DBG_CMD_BBREAK_SET =>
      set_break_and_tell (break_addr a) [Lit "0x"; Hex (break_addr a)] [Lit "0x"; Hex (break_addr a)]
  | DBG_CMD_BREAK_SET_FILE_LINE =>
      match file_address_mapping_get_addr symbol (ba_line a) key_value_mapping with
      | (STD_E_OK, Some addr) => set_break_and_tell addr [Lit "0x"; Hex addr] [Lit "0x"; Hex addr]
      | _ =>
          say [Lit "ERROR: can not found break addr:"; Chars symbol; Lit " "; Dec (ba_line a)];;
          (match file_address_mapping_get_candidate symbol (ba_line a) key_value_mapping with
           | (STD_E_OK, Some v) => say [Lit "candidate : "; Chars (v_file v); Lit " "; Dec (v_line v)]
           | _ => mret ()
           end);;
          reply "NG"
      end
  | DBG_CMD_BREAK_INFO =>
      for_each (seqZ 0 DBG_CPU_CONTROL_BREAK_SETSIZE) break_info;;
      reply "OK"
  end.

Definition watch_type_string (type : DataWatchPointEumType) : string :=
  match type with
  | DATA_WATCH_POINT_TYPE_READ => "r"
  | DATA_WATCH_POINT_TYPE_WRITE => "w"
  | DATA_WATCH_POINT_TYPE_RW => "rw"
  end.

Definition watch_info (i : Z) : cmd () :=
  w ← get (λ s, d_watches (x_dbg s));
  match cpuctrl_get_data_watch_point i w with
  | None => mret ()
  | Some (addr, size, type) =>
      let head := [Lit "["; Dec i; Lit "] "; Lit (watch_type_string type); Lit " 0x"; Hex addr; Lit " "; Dec size] in
      '(glid, gladdr) ← look_up (symbol_addr2glid addr);
      if 0 <=? glid then
        name ← with_symbols (symbol_glid2glname glid);
        say (head ++ [Lit " "; Chars name; Lit "(+0x"; Hex (uaddr (addr - gladdr)); Lit ")"])
      else say head
  end.
Definition dbg_std_executor_watch_data_info : cmd bool :=
  for_each (seqZ 0 DBG_CPU_CONTROL_WATCH_DATA_SETSIZE) watch_info;; mret true.

Definition dbg_std_executor_watch_data_delete (a : DbgCmdExecutorWatchDataType) : cmd bool :=
  match wa_type a with
  | DBG_CMD_WATCH_DELETE_ONE =>
      ok ← on_watches (cpuctrl_del_data_watch_point (wa_delno a));
      if (ok : bool) then mret true
      else say [Lit "ERROR: can not delete "; Dec (wa_delno a)];; mret false
  | DBG_CMD_WATCH_DELETE_ALL => on_watches (λ w, (true, cpuctrl_del_all_data_watch_points w))
  | _ => mret true
  end.

(** The type of a watch point from the flags of the command. *)
Definition watch_type_of (watch_type : Z) : option DataWatchPointEumType :=
  let t := Z.land watch_type DBG_CMD_WATCH_TYPE_RW in
  if t =? DBG_CMD_WATCH_TYPE_READ then Some DATA_WATCH_POINT_TYPE_READ
  else if t =? DBG_CMD_WATCH_TYPE_WRITE then Some DATA_WATCH_POINT_TYPE_WRITE
  else if t =? DBG_CMD_WATCH_TYPE_RW then Some DATA_WATCH_POINT_TYPE_RW
  else None.

Definition dbg_std_executor_watch_data_set (a : DbgCmdExecutorWatchDataType) : cmd bool :=
  let symbol := str_arg (wa_symbol a) in
  range ← match wa_type a with
          | DBG_CMD_WATCH_SET_SYMBOL =>
              ss ← get (λ s, d_syms (x_dbg s));
              match symbol_get_gl symbol (ts_len (wa_symbol a)) ss with
              | (_, Some r) => mret (Some r)
              | (_, None) =>
                  say [Lit "ERROR: not found symbol "; Chars symbol];;
                  candidate_lines (symbol_print_gl symbol SYMBOL_CANDIATE_NUM ss);;
                  mret None
              end
          | _ => mret (Some (wa_addr a, wa_size a))
          end;
  match range, watch_type_of (wa_watch_type a) with
  | None, _ | _, None => mret false
  | Some (addr, size), Some type =>
      ok ← on_watches (cpuctrl_set_data_watch type (u32 addr) size);
      if (ok : bool) then say [Lit "set watch point 0x"; Hex addr; Lit " "; Dec size];; mret true
      else say [Lit "ERROR: can not set watch point 0x"; Hex addr; Lit " "; Dec size];; mret false
  end.

Definition exec_watch_data : cmd () :=
  a ← args watch_args;
  result ← match wa_type a with
           | DBG_CMD_WATCH_SET | DBG_CMD_WATCH_SET_SYMBOL => dbg_std_executor_watch_data_set a
           | DBG_CMD_WATCH_DELETE_ALL | DBG_CMD_WATCH_DELETE_ONE => dbg_std_executor_watch_data_delete a
           | DBG_CMD_WATCH_INFO => dbg_std_executor_watch_data_info
           end;
  if (result : bool) then ok_result else reply "NG".

(** The number is unsigned, the parameter of [cpuctrl_del_break] too. *)
Definition exec_delete : cmd () :=
  a ← args delete_args;
  match da_type a with
  | DBG_CMD_DELETE_ONE =>
      ok ← on_breaks (cpuctrl_del_break (delete_break_no a));
      if (ok : bool) then ok_result
      else say [Lit "ERROR: can not delete "; Dec (delete_break_no a)];; reply "NG"
  | DBG_CMD_DELETE_ALL =>
      _ ← on_breaks (λ b, b ← cpuctrl_del_all_break BREAK_POINT_TYPE_FOREVER b; Ok (true, b));
      ok_result
  end.

(** ** Running the program *)

Definition exec_cont : cmd () :=
  a ← args cont_args;
  set_debug_mode false;;
  (match ca_type a with
   | DBG_CMD_CONT_ALL => set_cont_clocks false 0;; call dbg_wakeup_cpu
   | DBG_CMD_CONT_CLOCKS =>
       set_cont_clocks true (DbgParser.cont_clocks a);; call dbg_wakeup_cpu_and_wait_for_cpu_stopped
   end);;
  reply "OK".

Definition core_mode (i : Z) : cmd bool :=
  on_run (λ r, b ← dbg_cpu_debug_mode_get i r; Ok (b, r)).
Definition set_core_mode (i : Z) (mode : bool) : cmd () :=
  on_run (λ r, r ← dbg_cpu_debug_mode_set i mode r; Ok ((), r)).
Definition mode_text (b : bool) : piece := Lit (if b then "TRUE" else "FALSE").

(** Whether no core is in debug mode: the loop stops at the first that is. *)
Fixpoint all_cores_off (ids : list Z) : cmd bool :=
  match ids with
  | [] => mret true
  | i :: ids => b ← core_mode i; if (b : bool) then mret false else all_cores_off ids
  end.

Definition exec_core : cmd () :=
  a ← args core_args;
  let cores := seqZ 0 cpu_config_get_core_id_num in
  match co_type a with
  | DBG_CMD_CORE_SINGLE =>
      set_core_mode (co_core_id a) (co_is_debug_mode a);;
      off ← all_cores_off cores;
      if (off : bool) then
        set_core_mode (co_core_id a) true;;
        say [Lit "ERROR: Core"; Dec (co_core_id a); Lit " can not be set non-debug mode, because all core must not be in non-debug mode. athrill does not controll cpu..."];;
        reply "NG"
      else
        b ← core_mode (co_core_id a);
        say [Lit "Core"; Dec (co_core_id a); Lit " debug mode="; mode_text b];;
        reply "OK"
  | _ =>
      current ← get (λ s, cpu_get_current_core_id (x_tgt s));
      for_each cores (λ i,
        (match co_type a with
         | DBG_CMD_CORE_ALL => set_core_mode i (co_is_debug_mode a)
         | _ => mret ()
         end);;
        b ← core_mode i;
        say [Lit (if i =? current then "*" else "-"); Lit " Core"; Dec i; Lit " debug mode="; mode_text b]);;
      reply "OK"
  end.

Definition exec_intr : cmd () :=
  a ← args intr_args;
  tell (RaiseIntr (intno a));;
  reply "OK".

Definition exec_next : cmd () :=
  org_view_mode ← get x_view;
  set_cont_clocks false 0;;
  set_debug_mode true;;
  modify (dbg_log_set_view_mode true);;
  modify (dbg_log_set_print_mode true);;
  tell (Clock elaps_start);;
  call dbg_wakeup_cpu_and_wait_for_cpu_stopped;;
  tell (Clock elaps_end);;
  call os_sleep;;
  modify (dbg_log_set_print_mode false);;
  modify (dbg_log_set_view_mode org_view_mode).

Definition exec_return : cmd () :=
  set_cont_clocks false 0;;
  o ← get (λ s, cpuctrl_get_current_debugged_core (d_run (x_dbg s)));
  match o with
  | Some core_id =>
      retaddr ← get (λ s, u32 (cpu_get_return_addr core_id (x_tgt s)));
      ok ← on_breaks (λ b, Ok (cpuctrl_set_break retaddr BREAK_POINT_TYPE_ONLY_ONCE b));
      say [Lit (if (ok : bool) then "break 0x" else "ERROR: can not break 0x"); Hex retaddr];;
      set_debug_mode false;;
      call dbg_wakeup_cpu
  | None => lift (Fault AssertFail)
  end.

Definition exec_quit : cmd () :=
  on_run (λ r, Ok ((), cpuctrl_set_force_debug_mode r));;
  call dbg_waitfor_cpu_stopped;;
  set_debug_mode true.

Definition exec_list : cmd () := tell Editor;; reply "OK".

Definition exec_exit : cmd () :=
  set_debug_mode true;;
  call dbg_waitfor_cpu_stopped;;
  say [Lit "Exit"];;
  reply "OK";;
  end_process.

(** The clocks of the cores are an array of [CPU_CONFIG_CORE_NUM] entries. *)
Definition exec_elaps : cmd () :=
  t ← get x_tgt;
  for_each (seqZ 0 cpu_config_get_core_id_num) (λ i,
    c ← lift (oob (zget (cpu_clocks t) i));
    say [Lit "cpu_clock["; Dec i; Lit "] = "; Dec c]);;
  say [Lit "loops "; Dec (total_clocks t); Lit " intc "; Dec (intr_clocks t); Lit " real_time "; Dec (elaps_time t)];;
  c ← lift (oob (zget (cpu_clocks t) 0));
  tell (Reply [Dec (total_clocks t); Lit " "; Dec c; Lit "  OK"]).

Definition exec_view : cmd () :=
  v ← get x_view;
  modify (dbg_log_set_view_mode (negb v));;
  let text := (if (v : bool) then "VIEW_MODE=OFF" else "VIEW_MODE=ON")%string in
  say [Lit text];;
  tell (Reply [Lit text]).

(** ** Memory *)

Definition print_memory (vaddr : Z) (top_addr : option (nat * Z)) (size : Z) : cmd () :=
  say [Lit "size="; Dec size; Lit " byte"];;
  for_each (seqZ 0 size) (λ i,
    bs ← host_read (prod_map id (λ off, off + i) <$> top_addr) 1;
    say [Dec i; Lit " 0x"; Hex (uaddr (vaddr + i)); Lit " 0x"; Hex (le_val bs); Lit " ("; Char (le_val bs); Lit ")"]);;
  bs ← host_read top_addr 1;
  tell (Reply [Hex (le_val bs); Lit "  OK"]).

(** One value of two or four bytes. *)
Definition print_value (vaddr : Z) (top_addr : option (nat * Z)) (size : Z) : cmd () :=
  bs ← host_read top_addr size;
  say [Lit "size="; Dec size; Lit " byte"];;
  say [Lit "0x"; Hex vaddr; Lit " 0x"; Hex (le_val bs)];;
  tell (Reply [Hex (le_val bs); Lit "  OK"]).

Definition print_memory_type (variable_name : option (list Z)) (vaddr : Z) (top_addr : option (nat * Z)) (size : Z)
    : cmd () :=
  shown ← match variable_name with
          | Some n => print_variable_with_data_type n vaddr top_addr size
          | None => mret false
          end;
  if (shown : bool) then tell (Reply [Lit "0x"; Hex vaddr; Lit "  "; Dec size; Lit "  OK"])
  else if (size =? 2) || (size =? 4) then print_value vaddr top_addr size
  else print_memory vaddr top_addr size.

Definition print_memory_by_typename (vaddr : Z) (top_addr : option (nat * Z)) (dataType dataTypeName : list Z) : cmd () :=
  ok ← print_addr_with_data_type vaddr top_addr dataType dataTypeName;
  reply (if (ok : bool) then "OK" else "NG").

Definition exec_print : cmd () :=
  a ← args print_args;
  let symbol := str_arg (pa_symbol a) in
  match pa_type a with
  | DBG_CMD_PRINT_SYMBOL =>
      ss ← get (λ s, d_syms (x_dbg s));
      match symbol_get_gl symbol (zlen symbol) ss with
      | (_, None) =>
          found ← print_local_variable_type symbol;
          if (found : bool) then mret ()
          else
            say [Lit "ERROR: not found symbol "; Chars symbol];;
            candidate_lines (symbol_print_gl symbol SYMBOL_CANDIATE_NUM ss);;
            reply "NG"
      | (_, Some (addr, size)) =>
          '(_, data) ← cpuemu_get_addr_pointer addr;
          print_memory_type (Some symbol) addr data size
      end
  | DBG_CMD_PRINT_ADDR =>
      say [Lit "ERROR: not supported:print addr(0x"; Hex (pa_addr a); Lit ")"];;
      reply "NG"
  | DBG_CMD_PRINT_ADDR_SIZE =>
      '(_, data) ← cpuemu_get_addr_pointer (pa_addr a);
      print_memory_type None (pa_addr a) data (pa_size a)
  | DBG_CMD_PRINT_ADDR_TYPE =>
      '(_, data) ← cpuemu_get_addr_pointer (pa_addr a);
      print_memory_by_typename (pa_addr a) data (str_arg (pa_dataType a)) (str_arg (pa_dataTypeName a))
  end.

Definition exec_memset : cmd () :=
  a ← args memset_args;
  '(ret, data) ← cpuemu_get_addr_pointer (ma_addr a);
  if std_ok ret then host_write data [ma_value a];; reply "OK"
  else say [Lit "ERROR:can not find addr:0x"; Hex (ma_addr a)];; reply "NG".

Fixpoint serial_loop (channel : Z) (input : list Z) : cmd () :=
  match input with
  | [] => reply "OK"
  | c :: input =>
      t ← get x_tgt;
      let '(err, t) := dbg_serial_in (u8 channel) c t in
      modify (with_tgt t);;
      if std_ok err then serial_loop channel input
      else say [Lit "ERROR:can not put serial data:"; Char c];; reply "NG"
  end.
Definition exec_serialin : cmd () :=
  a ← args serial_args;
  serial_loop (sa_channel a) (take (Z.to_nat (ts_len (sa_input a))) (ts_str (sa_input a))).

Definition exec_info_cpu : cmd () :=
  a ← args info_cpu_args;
  match ia_type a with
  | DBG_CMD_CORE_ALL =>
      for_each (seqZ 0 cpu_config_get_core_id_num) (λ i, tell (PrintCpu i));; reply "OK"
  | _ =>
      if CPU_CONFIG_CORE_NUM <=? ia_core_id a then
        reply "NG";;
        say [Lit "ERROR: Invalid core_id="; Dec (ia_core_id a); Lit " max_core_num="; Dec cpu_config_get_core_id_num]
      else tell (PrintCpu (ia_core_id a));; reply "OK"
  end.

(** ** Traces *)

(** One line of the function log; [shown] is the number printed.  Whether there was an entry. *)
Definition trace_line (coreId i shown : Z) : cmd bool :=
  ts ← get (λ s, d_trace (x_dbg s));
  t ← lift (oob (zget ts coreId));
  o ← lift (cpuctrl_get_func_log_trace_info i t);
  match o with
  | None => mret false
  | Some e =>
      '(glid, gladdr) ← look_up (symbol_addr2glid (t_sp e));
      stackp ← with_symbols (symbol_glid2glname glid);
      say [Lit "core"; Dec coreId; Lit ": <"; Chars stackp; Lit "(0x"; Hex (uaddr (t_sp e - gladdr)); Lit ")> ["; Dec shown;
           Lit "] <0x"; Hex (t_funcoff e); Lit "> "; Chars (t_funcname e)];;
      mret true
  end.
Fixpoint trace_lines (coreId : Z) (shown : Z → Z) (ids : list Z) : cmd () :=
  match ids with
  | [] => mret ()
  | i :: ids => b ← trace_line coreId i (shown i); if (b : bool) then trace_lines coreId shown ids else mret ()
  end.
Definition dbg_std_executor_fun_trace_toward_older (coreId bt_number : Z) : cmd () :=
  trace_lines coreId id (reverse (seqZ 0 bt_number)).
Definition dbg_std_executor_fun_trace_toward_newer (coreId bt_number : Z) : cmd () :=
  ts ← get (λ s, d_trace (x_dbg s));
  t ← lift (oob (zget ts coreId));
  let lognum := cpuctrl_get_func_log_trace_num t in
  trace_lines coreId (λ i, u32 (lognum - 1 - i)) (seqZ 0 bt_number).

(** The number asked for is cut to the entries of each core in turn, and stays cut. *)
Fixpoint func_trace_cores (bt_way : bool) (bt_number : Z) (cores : list Z) : cmd () :=
  match cores with
  | [] => mret ()
  | coreId :: cores =>
      ts ← get (λ s, d_trace (x_dbg s));
      t ← lift (oob (zget ts coreId));
      let lognum := cpuctrl_get_func_log_trace_num t in
      let bt_number := if lognum <? bt_number then lognum else bt_number in
      (if bt_way then dbg_std_executor_fun_trace_toward_newer coreId bt_number
       else dbg_std_executor_fun_trace_toward_older coreId bt_number);;
      func_trace_cores bt_way bt_number cores
  end.
Definition exec_func_trace : cmd () :=
  a ← args func_trace_args;
  func_trace_cores (bt_way a) (bt_number a) (seqZ 0 cpu_config_get_core_id_num);;
  reply "OK".

Definition dbg_data_access_compare (dp1 dp2 : DataAccessContextType) : bool := a_time dp2 <? a_time dp1.

Definition access_text (dp : DataAccessContextType) : string :=
  if a_type dp =? ACCESS_TYPE_READ then "READ" else "WRITE".
Definition dbg_data_access_print (dp : DataAccessContextType) : cmd () :=
  g ← with_symbols (symbol_glid2glname (s32 (a_sp dp)));
  f ← with_symbols (symbol_funcid2funcname (s32 (a_funcid dp)));
  say [Lit " + <"; Dec (a_time dp); Lit "> ["; Lit (access_text dp); Lit "] [core"; Dec (a_core_id dp); Lit "] [";
       Chars g; Lit "] ["; Chars f; Lit "()]"].
Definition dbg_data_access_print_csv (data_access_glid : Z) (dp : DataAccessContextType) : cmd () :=
  glname ← with_symbols (symbol_glid2glname data_access_glid);
  g ← with_symbols (symbol_glid2glname (s32 (a_sp dp)));
  f ← with_symbols (symbol_funcid2funcname (s32 (a_funcid dp)));
  tell (FileLine [Chars glname; Lit ", "; Dec (a_time dp); Lit ", "; Lit (access_text dp); Lit ", core"; Dec (a_core_id dp);
                  Lit ", "; Chars g; Lit ", "; Chars f; Lit "(),"]).

(** The contexts of a variable are the elements of an object container; [object_container_sort]
    ends within its bound (see [Containers]). *)
Definition dbg_std_executor_data_access_context (context : DataAccessInfoType)
    (object_action : DataAccessContextType → cmd ()) : cmd () :=
  let l := access_context context in
  o ← lift (object_container_sort dbg_data_access_compare (mkContainer (zlen l) (zlen l) 1 l));
  match o with
  | Some sorted => for_each sorted object_action
  | None => lift (Fault AssertFail)
  end.

Definition cpuctrl_get_func_access_info_table_glid (glid : Z) : cmd (option DataAccessInfoType) :=
  tbl ← get (λ s, d_access (x_dbg s)); lift (oob (zget tbl glid)).
Definition cpuctrl_get_func_access_info_table (glname : list Z) : cmd (option DataAccessInfoType) :=
  ss ← get (λ s, d_syms (x_dbg s));
  let '(glid, _) := symbol_get_gl glname (zlen glname) ss in
  if glid <? 0 then mret None else cpuctrl_get_func_access_info_table_glid glid.

Definition show_all_data_access_info : cmd () :=
  gl_num ← get (λ s, symbol_get_gl_num (d_syms (x_dbg s)));
  tell (FileLine [Lit "variable,access_clock,type,core,stack,access_func,"]);;
  for_each (seqZ 0 gl_num) (λ glid,
    table ← cpuctrl_get_func_access_info_table_glid glid;
    match table with
    | Some p => if 0 <? access_num p then dbg_std_executor_data_access_context p (dbg_data_access_print_csv glid) else mret ()
    | None => mret ()
    end).

Definition exec_data_access_info : cmd () :=
  a ← args data_access_args;
  let symbol := str_arg (dai_symbol a) in
  if default 0 (zget (ts_str (dai_symbol a)) 0) =? 45 then
    if file_wopen then
      tell FileOpened;; show_all_data_access_info;; tell FileClosed;; reply "OK"
    else
      say [Lit "ERROR: can not open file ./data_access.csv"];; reply "NG"
  else
    table ← cpuctrl_get_func_access_info_table symbol;
    match table with
    | None =>
        say [Lit "ERROR: not found symbol "; Chars symbol];;
        ss ← get (λ s, d_syms (x_dbg s));
        candidate_lines (symbol_print_gl symbol SYMBOL_CANDIATE_NUM ss);;
        reply "NG"
    | Some p =>
        say [Lit "* "; Chars symbol];;
        (if 0 <? access_num p then dbg_std_executor_data_access_context p dbg_data_access_print
         else say [Lit "Not accessed yet."]);;
        reply "OK"
    end.

Definition print_stack_data (addr : Z) : cmd () :=
  '(_, datap) ← cpuemu_get_addr_pointer addr;
  bs ← host_read datap 4;
  let data := le_val bs in
  let line rest := say ([Lit "0x"; Hex addr; Lit " 0x"; Hex data] ++ rest) in
  '(funcid, funcaddr) ← look_up (symbol_pc2funcid data);
  (if 0 <=? funcid then
     name ← with_symbols (symbol_funcid2funcname funcid);
     line [Lit " "; Chars name; Lit "(+0x"; Hex (uaddr (data - funcaddr)); Lit ")"]
   else
     '(glid, gladdr) ← look_up (symbol_addr2glid data);
     if 0 <=? glid then
       name ← with_symbols (symbol_glid2glname glid);
       line [Lit " "; Chars name; Lit "(+0x"; Hex (uaddr (data - gladdr)); Lit ")"]
     else line []);;
  reply "OK".

Definition DBG_CMD_BACK_TRACE_SHOW_MAX : Z := 10.

(** The words between two stack pointers, at most ten of them. *)
Definition stack_words (prev_sp sp : Z) : list Z :=
  let num := u32 (sp - prev_sp) / 4 in
  let num := if DBG_CMD_BACK_TRACE_SHOW_MAX <? num then DBG_CMD_BACK_TRACE_SHOW_MAX else num in
  (λ k, u32 (prev_sp + 4 * k)) <$> seqZ 0 num.

Fixpoint back_trace_frames (inx prev_sp : Z) (ids : list Z) : cmd () :=
  match ids with
  | [] => mret ()
  | i :: ids =>
      fs ← get (λ s, d_frames (x_dbg s));
      '(err, o) ← lift (cpuctrl_get_stack_pointer inx i fs);
      match err, o with
      | STD_E_OK, Some sp =>
          (if prev_sp =? 2 ^ 32 - 1 then mret () else for_each (stack_words prev_sp sp) print_stack_data);;
          name ← with_symbols (symbol_glid2glname inx);
          say [Lit " "; Chars name; Lit " ["; Dec i; Lit "] 0x"; Hex sp];;
          back_trace_frames inx sp ids
      | _, _ => back_trace_frames inx prev_sp ids
      end
  end.

Definition exec_back_trace : cmd () :=
  gl_num ← get (λ s, symbol_get_gl_num (d_syms (x_dbg s)));
  for_each (seqZ 0 gl_num) (λ inx,
    fs ← get (λ s, d_frames (x_dbg s));
    '(err, _) ← lift (cpuctrl_get_stack_pointer inx 0 fs);
    if std_ok err then
      say [Lit "*************************************"];;
      back_trace_frames inx (2 ^ 32 - 1) (reverse (seqZ 0 DBG_STACK_LOG_SIZE));;
      say []
    else mret ());;
  reply "OK".

Definition profile_line (coreId funcid : Z) : cmd () :=
  ps ← get (λ s, d_prof (x_dbg s));
  p ← lift (oob (zget ps coreId));
  profile ← lift (cpuctrl_profile_get funcid p);
  if call_num profile =? 0 then mret ()
  else
    funcname ← with_symbols (symbol_funcid2funcname funcid);
    say [Chars funcname; Lit " "; Dec (call_num profile); Lit " "; Dec (func_time profile / call_num profile); Lit " ";
         Dec (total_time profile / call_num profile)].
Definition exec_profile : cmd () :=
  funcnum ← get (λ s, symbol_get_func_num (d_syms (x_dbg s)));
  for_each (seqZ 0 cpu_config_get_core_id_num) (λ coreId,
    say [Lit "*** coreId="; Dec coreId; Lit " ***"];;
    say [Lit "funcname"; Lit "call_num"; Lit "func_time"; Lit "total_time"];;
    for_each (seqZ 0 funcnum) (profile_line coreId);;
    say [Lit "****************"]);;
  reply "OK".

Fixpoint help_opts (j : Z) (l : list help_opt) : cmd () :=
  match l with
  | [] => mret ()
  | o :: l =>
      say [Lit "   "; Dec j; Lit ") "; Lit (semantics o)];;
      say [Lit "      "; Lit (description o)];;
      help_opts (j + 1) l
  end.
Definition exec_help : cmd () :=
  say [Lit "LIst of commands:"];;
  for_each help_list (λ c,
    say [Lit " * "; Lit (name c); Lit "("; Lit (default "-"%string (name_shortcut c)); Lit "):"];;
    help_opts 1 (opts c));;
  reply "OK".

(** ** The command loop *)

(** [res->run(res)]. *)
Definition run_command (f : executor_fn) : cmd () :=
  match f with
  | dbg_std_executor_parse_error => exec_parse_error
  | dbg_std_executor_break => exec_break
  | dbg_std_executor_delete => exec_delete
  | dbg_std_executor_cont => exec_cont
  | dbg_std_executor_core => exec_core
  | dbg_std_executor_watch_data => exec_watch_data
  | dbg_std_executor_intr => exec_intr
  | dbg_std_executor_next => exec_next
  | dbg_std_executor_return => exec_return
  | dbg_std_executor_quit => exec_quit
  | dbg_std_executor_exit => exec_exit
  | dbg_std_executor_elaps => exec_elaps
  | dbg_std_executor_view => exec_view
  | dbg_std_executor_print => exec_print
  | dbg_std_executor_memset => exec_memset
  | dbg_std_executor_serialin => exec_serialin
  | dbg_std_executor_info_cpu => exec_info_cpu
  | dbg_std_executor_func_trace => exec_func_trace
  | dbg_std_executor_data_access_info => exec_data_access_info
  | dbg_std_executor_back_trace => exec_back_trace
  | dbg_std_executor_profile => exec_profile
  | dbg_std_executor_list => exec_list
  | dbg_std_executor_help => exec_help
  end.

(** What the stack holds where the parser keeps its tokens, its buffer and the buffer of
    [token_split_merge]. *)
Record stack_junk := mkJunk { j_tokens : TokenContainerType; j_buf : list Z; j_merge : list Z }.

(** Parse a line; whether there is a command to run. *)
Definition parse_line (junk : stack_junk) (line : list Z) : cmd bool :=
  debug_mode ← get (λ s, cpuctrl_is_debug_mode (d_run (x_dbg s)));
  p ← get x_parser;
  '(found, p) ← lift (dbg_parse cpu_config_get_core_id_num (j_merge junk) debug_mode (j_tokens junk) (j_buf junk) line p);
  modify (with_parser p);;
  (if (found : bool) then mret ()
   else say [Lit "ERROR:can not execute command on "; Lit (if (debug_mode : bool) then "DEBUG_MODE" else "CPU_MODE")];; reply "NG");;
  mret found.

(** One line of [do_cui]: what it appends to the operation log, when a log is open. *)
Definition do_cui_line (junk : stack_junk) (line : list Z) : cmd (option (list Z)) :=
  found ← parse_line junk line;
  if (found : bool) then
    modify (set_result false);;
    f ← get (λ s, run (parse_command (x_parser s)));
    run_command f;;
    c ← get (λ s, parse_command (x_parser s));
    mret (if result_ok c then Some (original_str c) else None)
  else mret None.

(** The lines of [load_cui_operation], run one after the other; [junk] gives what the stack
    holds each time. *)
Fixpoint replay (junk : nat → stack_junk) (lines : list (list Z)) : cmd () :=
  match lines with
  | [] => mret ()
  | line :: lines =>
      found ← parse_line (junk O) line;
      (if (found : bool) then f ← get (λ s, run (parse_command (x_parser s))); run_command f else mret ());;
      replay (λ n, junk (S n)) lines
  end.
End executors.

(** ** The operation log *)

Definition NEWLINE : Z := 10.
Definition OPLOG_BUFFER : Z := 1025.

Definition save_cui_operation (op : list Z) (file : list Z) : list Z := file ++ cstring op ++ [NEWLINE].

(** [fgets] into a buffer of [n + 1] characters: what it reads and the rest of the file. *)
Fixpoint fgets (n : nat) (file : list Z) : list Z * list Z :=
  match n, file with
  | O, _ | _, [] => ([], file)
  | S n, c :: file =>
      if c =? NEWLINE then ([c], file) else let '(l, r) := fgets n file in (c :: l, r)
  end.
(** A line as a C string, without its newline. *)
Definition strip_newline (buffer : list Z) : list Z :=
  let s := cstring buffer in
  match last s with
  | Some c => if c =? NEWLINE then removelast s else s
  | None => s
  end.
(** The lines the loop reads; every [fgets] takes a character, so the length of the file
    bounds their number. *)
Fixpoint oplog_lines (fuel : nat) (file : list Z) : list (list Z) :=
  match fuel, file with
  | O, _ | _, [] => []
  | S fuel, _ =>
      let '(buffer, rest) := fgets (Z.to_nat (OPLOG_BUFFER - 1)) file in
      strip_newline buffer :: oplog_lines fuel rest
  end.

Section load.
Context {D T : Type} `{MpuConfig D} `{Target T}.
Context (key_value_mapping : list KeyValueMappingType).
Context (elf_dwarf_get_class_method_linkagename : list Z → list Z → option (list Z)).
Context (print_variable_with_data_type : list Z → Z → option (nat * Z) → Z → cmd (exec_state D T) bool).
Context (print_addr_with_data_type : Z → option (nat * Z) → list Z → list Z → cmd (exec_state D T) bool).
Context (print_local_variable_type : list Z → cmd (exec_state D T) bool).
Context (file_wopen : bool).

Definition load_cui_operation (junk : nat → stack_junk) (file : list Z) : cmd (exec_state D T) () :=
  replay key_value_mapping elf_dwarf_get_class_method_linkagename print_variable_with_data_type
    print_addr_with_data_type print_local_variable_type file_wopen junk (oplog_lines (length file) file).
End load.
