(* ===== verification/DbgExecutorFacts.v ===== *)
(** * The command executor: what commands do to the state

    A small program logic for the monad of [DbgExecutor]: what a finished program keeps
    ([keeps]), and its exact run ([run_with] rewritten step by step).  On it rest the facts
    about the commands: which state each may change, the effect of the commands on break and
    watch points, their replay from the operation log, and the memory commands. *)

From Stdlib Require Import String Ascii.
From S2P Require Import Prelude SymbolOps CpuControl CpuControlFacts CpuCallback Mpu MpuFacts Bus Token TokenFacts DbgParser DbgParserFacts DwarfLine Containers DbgExecutor.
Open Scope Z_scope.

(** ** Running programs *)

Section logic.
Context {S : Type} (env : thread_call → S → S).

Definition exec {A} (m : cmd S A) (s : S) : result S A := run_with env (m s).

Lemma after_nil {A} (r : result S A) : after [] r = r.
Proof. by destruct r. Qed.
Lemma after_after {A} o1 o2 (r : result S A) : after o1 (after o2 r) = after (o1 ++ o2) r.
Proof. destruct r; cbn; by rewrite app_assoc. Qed.
Lemma run_after {A} o (r : result S A) : run_with env (after o r) = after o (run_with env r).
Proof. destruct r; cbn; [done..|]. by rewrite after_after. Qed.

Lemma no_call {A} (r : result S A) o c s k : run_with env r ≠ Call o c s k.
Proof.
  revert o c s k. induction r as [o0 s0 a0|o0 e0|o0|o' c' s' k' IH]; intros o c s k; cbn; [done..|].
  destruct (run_with env (k' (env c' s'))) eqn:E2; try done. by apply IH in E2.
Qed.

(** Running a sequence runs its parts. *)
Definition then_run {A B} (f : A → cmd S B) (r : result S A) : result S B :=
  match r with
  | Done o s a => after o (exec (f a) s)
  | Crash o e => Crash o e
  | Exit o => Exit o
  | Call o c s k => Call o c s (λ s', result_bind f (k s'))
  end.
Lemma run_bind {A B} (f : A → cmd S B) (r : result S A) :
  run_with env (result_bind f r) = then_run f (run_with env r).
Proof.
  induction r as [o s a|o e|o|o c s k IH]; cbn [result_bind run_with then_run]; [apply run_after|done|done|].
  rewrite IH. destruct (run_with env (k (env c s))) eqn:E; cbn; [by rewrite after_after|done|done|].
  by apply no_call in E.
Qed.
Lemma exec_bind {A B} (m : cmd S A) (f : A → cmd S B) s : exec (m ≫= f) s = then_run f (exec m s).
Proof. apply run_bind. Qed.

Lemma exec_bind_inv {A B} (m : cmd S A) (f : A → cmd S B) s o s' b :
  exec (m ≫= f) s = Done o s' b →
  ∃ o1 s1 a o2, exec m s = Done o1 s1 a ∧ exec (f a) s1 = Done o2 s' b ∧ o = o1 ++ o2.
Proof.
  rewrite exec_bind. destruct (exec m s) as [o1 s1 a| | |] eqn:E; cbn [then_run]; try done.
  destruct (exec (f a) s1) as [o2 s2 b2| | |] eqn:E2; cbn; try done. intros [= <- <- <-]. by repeat eexists.
Qed.

Lemma exec_ret {A} (a : A) s : exec (mret a) s = Done [] s a.
Proof. done. Qed.
Lemma exec_get {A} (f : S → A) s : exec (get f) s = Done [] s (f s).
Proof. done. Qed.
Lemma exec_modify f s : exec (modify f) s = Done [] (f s) ().
Proof. done. Qed.
Lemma exec_tell e s : exec (tell e) s = Done [e] s ().
Proof. done. Qed.
Lemma exec_say l s : exec (say l) s = Done [Printed l] s ().
Proof. done. Qed.
Lemma exec_reply r s : exec (reply r) s = Done [Reply [Lit r]] s ().
Proof. done. Qed.
Lemma exec_lift {A} (m : outcome A) s :
  exec (lift m) s = match m with Ok a => Done [] s a | Fault f => Crash [] f end.
Proof. by destruct m. Qed.
Lemma exec_call c s : exec (call c) s = Done [] (env c s) ().
Proof. done. Qed.

(** ** What programs keep *)

Section keeps.
Context {V : Type} (v : S → V).

(** A finished run leaves [v] as it was. *)
Definition keeps {A} (m : cmd S A) : Prop :=
  ∀ s o s' a, exec m s = Done o s' a → v s' = v s.

Lemma keeps_ret {A} (a : A) : keeps (mret a).
Proof. by intros s o s' a' [= _ <- _]. Qed.
Lemma keeps_bind {A B} (m : cmd S A) (f : A → cmd S B) : keeps m → (∀ a, keeps (f a)) → keeps (m ≫= f).
Proof.
  intros Hm Hf s o s' b. rewrite exec_bind. destruct (exec m s) as [o1 s1 a| | |] eqn:E; cbn [then_run]; try done.
  destruct (exec (f a) s1) as [o2 s2 b'| | |] eqn:E2; cbn; try done. intros [= <- <- <-].
  etrans; [by eapply Hf|by eapply Hm].
Qed.
Lemma keeps_get {A} (f : S → A) : keeps (get f).
Proof. by intros s o s' a [= _ <- _]. Qed.
Lemma keeps_modify f : (∀ s, v (f s) = v s) → keeps (modify f).
Proof. intros Hf s o s' a [= _ <- _]. apply Hf. Qed.
Lemma keeps_tell e : keeps (tell e).
Proof. by intros s o s' a [= _ <- _]. Qed.
Lemma keeps_lift {A} (m : outcome A) : keeps (lift m).
Proof. intros s o s' a. rewrite exec_lift. destruct m; [by intros [= _ <- _]|done]. Qed.
Lemma keeps_call c : (∀ s, v (env c s) = v s) → keeps (call c).
Proof. intros Hc s o s' a [= _ <- _]. apply Hc. Qed.
Lemma keeps_end : keeps end_process.
Proof. done. Qed.
Lemma keeps_for_each {A} (l : list A) body : (∀ x, keeps (body x)) → keeps (for_each l body).
Proof. intros Hb. induction l; [apply keeps_ret|apply keeps_bind; [apply Hb|done]]. Qed.
(** A program that reads a part of the state and writes a new one back. *)
Lemma keeps_update {A P} (part : S → P) (f : P → outcome (A * P)) (put : P → S → S) :
  (∀ s a p, f (part s) = Ok (a, p) → v (put p s) = v s) →
  keeps (p ← get part; '(a, p) ← lift (f p); modify (put p);; mret a).
Proof.
  intros Hf s o s' a. rewrite exec_bind, exec_get. cbn [then_run]. rewrite after_nil, exec_bind, exec_lift.
  destruct (f (part s)) as [[a1 p]|] eqn:E; [|done]. cbn. intros [= _ <- _]. by eapply Hf.
Qed.
End keeps.
End logic.

(** Run one step of a program. *)
Ltac step :=
  first [ rewrite exec_bind | rewrite exec_get | rewrite exec_ret | rewrite exec_modify | rewrite exec_tell
        | rewrite exec_say | rewrite exec_reply | rewrite exec_lift ];
  cbn [then_run]; rewrite ?after_nil, ?after_after.

(** ** What the commands leave alone *)

(** The part of the state the commands on break and watch points work on. *)
Record tables := mkTables {
  t_breaks : break_state; t_watches : watch_state; t_funcs : list DbgSymbolType; t_gls : list DbgSymbolType }.

Section steps.
Context {D T : Type} `{MpuConfig D} `{Target T}.
#[local] Abbreviation St := (exec_state D T).
#[local] Abbreviation cmd := (cmd St).
Implicit Types (s : St).

Definition tables_of s : tables :=
  mkTables (d_breaks (x_dbg s)) (d_watches (x_dbg s)) (symbols (symbol_func (d_syms (x_dbg s))))
    (symbols (symbol_gl (d_syms (x_dbg s)))).
Definition core_modes s : list bool := dbg_cpu_debug_mode (d_run (x_dbg s)).
(** What only some commands change. *)
Definition view s : tables * list bool * parser_state := (tables_of s, core_modes s, x_parser s).

Context (env : thread_call → St → St).
#[local] Abbreviation exec := (exec env).

Section parts.
Context {V : Type} (v : St → V) (Hv : ∀ s s', view s = view s' → v s = v s').

Lemma keeps_on_run {A} (f : run_state → outcome (A * run_state)) :
  (∀ r a r', f r = Ok (a, r') → dbg_cpu_debug_mode r' = dbg_cpu_debug_mode r) → keeps env v (on_run f).
Proof.
  intros Hf. apply (keeps_update env v (λ s, d_run (x_dbg s)) f (λ r, with_dbg (with_run r))).
  intros s a r Hr. apply Hv. unfold view, tables_of, core_modes. cbn. by rewrite (Hf _ _ _ Hr).
Qed.
Lemma keeps_set_debug_mode on : keeps env v (set_debug_mode on).
Proof.
  apply keeps_bind; [|intros; apply keeps_tell]. apply keeps_on_run. intros r a r'.
  unfold cpuctrl_set_debug_mode. destruct on; by intros [= _ <-].
Qed.
Lemma keeps_set_cont_clocks b n : keeps env v (set_cont_clocks b n).
Proof.
  apply keeps_on_run. intros r a r'. unfold cpuctrl_set_cont_clocks. intros Hr. inv_ok. by subst.
Qed.
Lemma keeps_force : keeps env v (on_run (λ r, Ok ((), cpuctrl_set_force_debug_mode r))).
Proof. apply keeps_on_run. by intros r a r' [= _ <-]. Qed.
Lemma keeps_core_mode i : keeps env v (core_mode i).
Proof. apply keeps_on_run. intros r a r' (b & _ & [= _ <-])%bind_ok. done. Qed.

Lemma lookup_symbols a t id b t' : table_lookup a t = Ok (id, b, t') → symbols t' = symbols t.
Proof.
  unfold table_lookup. intros (hit & _ & Hl)%bind_ok. destruct hit; [by injection Hl as _ _ <-|].
  apply bind_ok in Hl as ([found index] & _ & Hl).
  destruct (0 <=? found); [apply bind_ok in Hl as (sym & _ & Hl)|]; by injection Hl as _ _ <-.
Qed.
Lemma keeps_look_up f :
  (∀ ss id a ss', f ss = Ok (id, a, ss') → symbols (symbol_func ss') = symbols (symbol_func ss) ∧
     symbols (symbol_gl ss') = symbols (symbol_gl ss)) →
  keeps env v (look_up f).
Proof.
  intros Hf s o s' a. unfold look_up. rewrite exec_bind, exec_get. cbn [then_run].
  rewrite after_nil, exec_bind, exec_lift. destruct (f _) as [[[id b] ss']|] eqn:E; [|done]. cbn. intros [= _ <- _].
  apply Hv. unfold view, tables_of, core_modes. cbn. by destruct (Hf _ _ _ _ E) as [-> ->].
Qed.
Lemma keeps_pc2funcid a : keeps env v (look_up (symbol_pc2funcid a)).
Proof.
  apply keeps_look_up. intros ss id b ss'. unfold symbol_pc2funcid. intros ([[??]?] & Hl & [= _ _ <-])%bind_ok.
  apply lookup_symbols in Hl. by cbn.
Qed.
Lemma keeps_addr2glid a : keeps env v (look_up (symbol_addr2glid a)).
Proof.
  apply keeps_look_up. intros ss id b ss'. unfold symbol_addr2glid. intros ([[??]?] & Hl & [= _ _ <-])%bind_ok.
  apply lookup_symbols in Hl. by cbn.
Qed.
Lemma keeps_pointer a : keeps env v (cpuemu_get_addr_pointer a).
Proof.
  intros s o s' x. unfold cpuemu_get_addr_pointer. rewrite exec_bind, exec_get. cbn [then_run].
  rewrite after_nil, exec_bind, exec_lift. destruct (bus_get_pointer _ _ _) as [[[??]?]|]; [|done]. cbn.
  intros [= _ <- _]. by apply Hv.
Qed.
End parts.

Lemma modes_on_breaks f : keeps env core_modes (on_breaks f).
Proof. by apply (keeps_update env core_modes (λ s, d_breaks (x_dbg s)) f (λ b, with_dbg (with_breaks b))). Qed.
Lemma modes_on_watches f : keeps env core_modes (on_watches f).
Proof.
  intros s o s' a. unfold on_watches. rewrite exec_bind, exec_get. cbn [then_run]. rewrite after_nil.
  destruct (f _) as [r w]. by intros [= _ <- _].
Qed.

Lemma view_self s s' : view s = view s' → view s = view s'.
Proof. done. Qed.
Lemma view_modes s s' : view s = view s' → core_modes s = core_modes s'.
Proof. by intros [=]. Qed.
End steps.

(** Walk through a program, showing of each step that it keeps [v]. *)
Ltac head_of t := lazymatch t with ?f _ => head_of f | _ => t end.
Ltac keep Hv :=
  intros; cbn beta;
  lazymatch goal with
  | |- keeps _ _ (mret _) => apply keeps_ret
  | |- keeps _ _ (mbind _ _) => apply keeps_bind; keep Hv
  | |- keeps _ _ (DbgExecutor.get _) => apply keeps_get
  | |- keeps _ _ (tell _) => apply keeps_tell
  | |- keeps _ _ (say _) => apply keeps_tell
  | |- keeps _ _ (reply _) => apply keeps_tell
  | |- keeps _ _ (lift _) => apply keeps_lift
  | |- keeps _ _ (call _) => apply keeps_call; solve [auto]
  | |- keeps _ _ end_process => apply keeps_end
  | |- keeps _ _ (for_each _ _) => apply keeps_for_each; keep Hv
  | |- keeps _ _ (set_debug_mode _) => apply (keeps_set_debug_mode _ _ Hv)
  | |- keeps _ _ (set_cont_clocks _ _) => apply (keeps_set_cont_clocks _ _ Hv)
  | |- keeps _ _ (core_mode _) => apply (keeps_core_mode _ _ Hv)
  | |- keeps _ _ (on_run _) => apply (keeps_force _ _ Hv)
  | |- keeps _ _ (on_breaks _) => apply modes_on_breaks
  | |- keeps _ _ (on_watches _) => apply modes_on_watches
  | |- keeps _ _ (look_up (symbol_pc2funcid _)) => apply (keeps_pc2funcid _ _ Hv)
  | |- keeps _ _ (look_up (symbol_addr2glid _)) => apply (keeps_addr2glid _ _ Hv)
  | |- keeps _ _ (cpuemu_get_addr_pointer _) => apply (keeps_pointer _ _ Hv)
  | |- keeps _ _ (modify _) => apply keeps_modify; intros; try (apply Hv; reflexivity); try reflexivity
  | |- keeps _ _ (match ?x with _ => _ end) => destruct x; keep Hv
  | |- keeps _ _ ?m =>
      first [ eassumption
            | match goal with IH : ∀ _, keeps _ _ _ |- _ => apply IH end
            | solve [auto]
            | let h := head_of m in progress unfold h; keep Hv
            | idtac ]
  | _ => idtac
  end.

Section commands.
Context {D T : Type} `{MpuConfig D} `{Target T}.
#[local] Abbreviation St := (exec_state D T).
#[local] Abbreviation cmd := (cmd St).
Implicit Types (s : St).
Context (env : thread_call → St → St).
Context (kvm : list KeyValueMappingType) (linkage : list Z → list Z → option (list Z)).
Context (print_variable : list Z → Z → option (nat * Z) → Z → cmd bool)
  (print_addr : Z → option (nat * Z) → list Z → list Z → cmd bool) (print_local : list Z → cmd bool).
Context (file_opens : bool).

#[local] Abbreviation exec := (exec env).
#[local] Abbreviation run_command :=
  (run_command kvm linkage print_variable print_addr print_local file_opens).

(** The commands that touch neither break points, watch points, core modes nor the parser. *)
Definition quiet (f : executor_fn) : bool :=
  match f with
  | dbg_std_executor_break | dbg_std_executor_delete | dbg_std_executor_watch_data | dbg_std_executor_core
  | dbg_std_executor_return => false
  | _ => true
  end.
#[local] Arguments cmd_bind : simpl never.

Section quiet.
(** Any part [v] of [view] that the CPU thread and the printing of variables leave alone. *)
Context {V : Type} (v : St → V) (Hv : ∀ s s', view s = view s' → v s = v s').
Context (Henv : ∀ c s, v (env c s) = v s).
Context (Hvar : ∀ n a p z, keeps env v (print_variable n a p z)).
Context (Haddr : ∀ a p t n, keeps env v (print_addr a p t n)).
Context (Hlocal : ∀ n, keeps env v (print_local n)).

(** The loops. *)
Lemma trace_lines_keeps c shown ids : keeps env v (trace_lines c shown ids).
Proof. induction ids; cbn [trace_lines]; [apply keeps_ret|keep Hv]. Qed.
Lemma func_trace_keeps way n cores : keeps env v (func_trace_cores way n cores).
Proof.
  revert n. induction cores; intros n; cbn [func_trace_cores]; [apply keeps_ret|].
  unfold dbg_std_executor_fun_trace_toward_newer, dbg_std_executor_fun_trace_toward_older.
  keep Hv; apply trace_lines_keeps.
Qed.
Lemma back_trace_keeps inx prev ids : keeps env v (back_trace_frames inx prev ids).
Proof. revert prev. induction ids; intros prev; cbn [back_trace_frames]; [apply keeps_ret|]. keep Hv. Qed.
Lemma serial_keeps ch input : keeps env v (serial_loop ch input).
Proof. induction input; cbn [serial_loop]; [keep Hv|]. keep Hv. Qed.
Lemma help_keeps j l : keeps env v (help_opts j l).
Proof. revert j. induction l; intros j; cbn [help_opts]; [apply keeps_ret|]. keep Hv. Qed.
Lemma all_cores_off_keeps ids : keeps env v (all_cores_off ids).
Proof. induction ids; cbn [all_cores_off]; [apply keeps_ret|]. keep Hv. Qed.

Lemma exec_parse_error_keeps : keeps env v (exec_parse_error).
Proof. unfold exec_parse_error. keep Hv. Qed.
Lemma exec_cont_keeps : keeps env v (exec_cont).
Proof. unfold exec_cont. keep Hv. Qed.
Lemma exec_intr_keeps : keeps env v (exec_intr).
Proof. unfold exec_intr. keep Hv. Qed.
Lemma exec_next_keeps : keeps env v (exec_next).
Proof. unfold exec_next. keep Hv. Qed.
Lemma exec_quit_keeps : keeps env v (exec_quit).
Proof. unfold exec_quit. keep Hv. Qed.
Lemma exec_exit_keeps : keeps env v (exec_exit).
Proof. unfold exec_exit. keep Hv. Qed.
Lemma exec_elaps_keeps : keeps env v (exec_elaps).
Proof. unfold exec_elaps. keep Hv. Qed.
Lemma exec_view_keeps : keeps env v (exec_view).
Proof. unfold exec_view. keep Hv. Qed.
Lemma exec_print_keeps : keeps env v (exec_print print_variable print_addr print_local).
Proof. unfold exec_print. keep Hv. Qed.
Lemma exec_memset_keeps : keeps env v (exec_memset).
Proof. unfold exec_memset. keep Hv. Qed.
Lemma exec_serialin_keeps : keeps env v (exec_serialin).
Proof. unfold exec_serialin. keep Hv; apply serial_keeps. Qed.
Lemma exec_info_cpu_keeps : keeps env v (exec_info_cpu).
Proof. unfold exec_info_cpu. keep Hv. Qed.
Lemma exec_func_trace_keeps : keeps env v (exec_func_trace).
Proof. unfold exec_func_trace. keep Hv; apply func_trace_keeps. Qed.
Lemma exec_data_access_info_keeps : keeps env v (exec_data_access_info file_opens).
Proof. unfold exec_data_access_info. keep Hv. Qed.
Lemma exec_back_trace_keeps : keeps env v (exec_back_trace).
Proof. unfold exec_back_trace. generalize (reverse (seqZ 0 DBG_STACK_LOG_SIZE)). keep Hv; apply back_trace_keeps. Qed.
Lemma exec_profile_keeps : keeps env v (exec_profile).
Proof. unfold exec_profile. keep Hv. Qed.
Lemma exec_list_keeps : keeps env v (exec_list).
Proof. unfold exec_list. keep Hv. Qed.
Lemma exec_help_keeps : keeps env v (exec_help).
Proof. unfold exec_help. generalize help_list; intros. keep Hv; apply help_keeps. Qed.

Lemma run_keeps f : quiet f = true → keeps env v (run_command f).
Proof.
  destruct f; intros Hq; try discriminate Hq.
  - apply exec_parse_error_keeps.
  - apply exec_cont_keeps.
  - apply exec_intr_keeps.
  - apply exec_next_keeps.
  - apply exec_quit_keeps.
  - apply exec_exit_keeps.
  - apply exec_elaps_keeps.
  - apply exec_view_keeps.
  - apply exec_print_keeps.
  - apply exec_memset_keeps.
  - apply exec_serialin_keeps.
  - apply exec_info_cpu_keeps.
  - apply exec_func_trace_keeps.
  - apply exec_data_access_info_keeps.
  - apply exec_back_trace_keeps.
  - apply exec_profile_keeps.
  - apply exec_list_keeps.
  - apply exec_help_keeps.
Qed.
End quiet.

(** ** Some core stays under control *)

Lemma break_info_modes i : keeps env core_modes (break_info i).
Proof. unfold break_info. keep (view_modes (D := D) (T := T)). Qed.
Lemma watch_info_modes i : keeps env core_modes (watch_info i).
Proof. unfold watch_info. keep (view_modes (D := D) (T := T)). Qed.

Section modes.
Context (Henv : ∀ c s, core_modes (env c s) = core_modes s).
Context (Hvar : ∀ n a p z, keeps env core_modes (print_variable n a p z)).
Context (Haddr : ∀ a p t n, keeps env core_modes (print_addr a p t n)).
Context (Hlocal : ∀ n, keeps env core_modes (print_local n)).
Lemma run_modes f : f ≠ dbg_std_executor_core → keeps env core_modes (run_command f).
Proof.
  intros Hf. destruct (quiet f) eqn:Eq; [by apply (run_keeps core_modes view_modes)|].
  destruct f; try discriminate Eq; [| |done| |]; clear Hf Eq; cbn [DbgExecutor.run_command].
  - unfold exec_break. generalize (seqZ 0 DBG_CPU_CONTROL_BREAK_SETSIZE). keep (view_modes (D := D) (T := T)).
  - unfold exec_delete. keep (view_modes (D := D) (T := T)).
  - unfold exec_watch_data, dbg_std_executor_watch_data_info.
    generalize (seqZ 0 DBG_CPU_CONTROL_WATCH_DATA_SETSIZE). keep (view_modes (D := D) (T := T)).
  - unfold exec_return. keep (view_modes (D := D) (T := T)).
Qed.
End modes.

Definition held s : Prop :=
  ∃ i, 0 ≤ i < cpu_config_get_core_id_num ∧ zget (core_modes s) i = Some true.

Lemma set_core_mode_done i b s o s' u : exec (set_core_mode i b) s = Done o s' u →
  0 ≤ i < zlen (core_modes s) ∧ core_modes s' = zput (core_modes s) i b.
Proof.
  unfold set_core_mode, on_run. rewrite exec_bind, exec_get. cbn [then_run]. rewrite after_nil, exec_bind, exec_lift.
  unfold dbg_cpu_debug_mode_set. destruct (zset _ i b) as [l|] eqn:E; [|done]. apply zset_Some in E as [? ->].
  cbn. by intros [= _ <- _].
Qed.
Lemma core_mode_done i s o s' b : exec (core_mode i) s = Done o s' b →
  zget (core_modes s) i = Some b ∧ core_modes s' = core_modes s.
Proof.
  intros Hr. split; [|by eapply (keeps_core_mode _ _ view_modes)]. revert Hr.
  unfold core_mode, on_run. rewrite exec_bind, exec_get. cbn [then_run]. rewrite after_nil, exec_bind, exec_lift.
  unfold dbg_cpu_debug_mode_get, core_modes. destruct (zget _ i) as [b'|]; [|done]. cbn. by intros [= _ _ <-].
Qed.
Lemma all_cores_off_done ids s o s' off : exec (all_cores_off ids) s = Done o s' off →
  core_modes s' = core_modes s ∧ (off = false → ∃ i, i ∈ ids ∧ zget (core_modes s) i = Some true).
Proof.
  intros Hr. split; [by apply (all_cores_off_keeps core_modes view_modes ids s o s' off)|].
  revert s o s' off Hr. induction ids as [|i ids IH]; intros s o s' off; cbn [all_cores_off].
  { rewrite exec_ret. by intros [= _ _ <-]. }
  intros (o1 & s1 & b & o2 & Hb & Hr & _)%exec_bind_inv. apply core_mode_done in Hb as [Hg Hm].
  destruct b; [intros _; exists i; split; [apply list_elem_of_here|done]|].
  intros Hoff. destruct (IH _ _ _ _ Hr Hoff) as (j & ? & ?). exists j. split; [by apply list_elem_of_further|]. by rewrite <- Hm.
Qed.

Lemma held_modes s s' : core_modes s' = core_modes s → held s → held s'.
Proof. unfold held. by intros ->. Qed.
Lemma held_set i s s' : 0 ≤ i < zlen (core_modes s) → core_modes s' = zput (core_modes s) i true → held s → held s'.
Proof.
  intros Hi Hs (j & Hj & Hg). exists j. split; [done|]. rewrite Hs.
  destruct (decide (j = i)) as [->|]; [by apply zget_zput_eq|]. rewrite zget_zput_ne by lia. done.
Qed.
Lemma held_here i s : 0 ≤ i < cpu_config_get_core_id_num → zget (core_modes s) i = Some true → held s.
Proof. intros. by exists i. Qed.

(** The command that sets the modes leaves some core under control: [core all t] only adds
    cores, [core n f] is undone when it would leave none. *)
Lemma core_command_held c s o s' u :
  command_wf cpu_config_get_core_id_num c → is_command c (parse_command (x_parser s)) →
  snd (command_fn c) = dbg_std_executor_core →
  exec exec_core s = Done o s' u → held s → held s'.
Proof.
  intros Hwf (_ & _ & Ha) Hf Hr Hh. unfold exec_core in Hr.
  apply exec_bind_inv in Hr as (? & ? & a & ? & Hargs & Hr & _). injection Hargs as _ <- <-.
  destruct c; try discriminate Hf; cbn [has_args] in Ha.
  - rewrite Ha in Hr. apply (held_modes s); [|done]. revert Hr.
    match goal with |- exec ?m s = _ → _ => enough (Hk : keeps env core_modes m) by apply Hk end.
    clear. keep (view_modes (D := D) (T := T)).
  - destruct Ha as [Hty Hmode]. rewrite Hty, Hmode in Hr.
    apply exec_bind_inv in Hr as (? & ? & cur & ? & Hcur & Hr & _). injection Hcur as _ <- _.
    apply exec_bind_inv in Hr as (ol & s1 & ? & ? & Hl & Hr & _). injection Hr as _ <- _.
    revert Hl Hh. generalize (seqZ 0 cpu_config_get_core_id_num). clear. intros l. revert s ol.
    induction l as [|i l IH]; intros s o Hl Hh; cbn [for_each] in Hl.
    { by injection Hl as _ <-. }
    apply exec_bind_inv in Hl as (? & s2 & ? & ? & Hb & Hl & _). eapply IH; [exact Hl|]. clear IH Hl.
    apply exec_bind_inv in Hb as (? & s3 & ? & ? & Hset & Hb & _). apply set_core_mode_done in Hset as [Hi Hs].
    apply exec_bind_inv in Hb as (? & s4 & ? & ? & Hget & Hb & _). apply core_mode_done in Hget as [_ Hs4].
    injection Hb as _ <- _. apply (held_modes s3); [done|]. by eapply held_set.
  - destruct Hwf as [Hid Hlt]. rewrite Ha in Hr. cbn [co_type co_core_id co_is_debug_mode] in Hr.
    apply exec_bind_inv in Hr as (? & s1 & ? & ? & Hset & Hr & _). apply set_core_mode_done in Hset as [Hi Hs].
    apply exec_bind_inv in Hr as (? & s2 & off & ? & Hoff & Hr & _). apply all_cores_off_done in Hoff as [Hs2 Hex].
    destruct off.
    + apply exec_bind_inv in Hr as (? & s3 & ? & ? & Hset & Hr & _). apply set_core_mode_done in Hset as [Hi3 Hs3].
      injection Hr as _ <- _. eapply (held_here id); [destruct Hid; lia|]. rewrite Hs3. by apply zget_zput_eq.
    + apply exec_bind_inv in Hr as (? & s3 & ? & ? & Hget & Hr & _). apply core_mode_done in Hget as [_ Hs3].
      injection Hr as _ <- _. destruct (Hex eq_refl) as (i & Hin & Hg). apply elem_of_seqZ in Hin.
      apply (held_here i); [lia|]. by rewrite Hs3, Hs2.
Qed.

(** ** The commands on break and watch points *)

Definition put_points (tb : tables) (ok : bool) s : St :=
  (if ok then set_result true else id)
    (with_dbg (λ d, with_watches (t_watches tb) (with_breaks (t_breaks tb) d)) s).
Definition of_breaks (tb : tables) (r : bool * break_state) : tables * bool :=
  (mkTables (snd r) (t_watches tb) (t_funcs tb) (t_gls tb), fst r).
Definition of_watches (tb : tables) (r : bool * watch_state) : tables * bool :=
  (mkTables (t_breaks tb) (snd r) (t_funcs tb) (t_gls tb), fst r).
Definition set_point (addr : Z) (tb : tables) : tables * bool :=
  of_breaks tb (cpuctrl_set_break (u32 addr) BREAK_POINT_TYPE_FOREVER (t_breaks tb)).
Definition kind_type (k : watch_kind) : DataWatchPointEumType :=
  match k with
  | WatchRead => DATA_WATCH_POINT_TYPE_READ
  | WatchWrite => DATA_WATCH_POINT_TYPE_WRITE
  | WatchRw => DATA_WATCH_POINT_TYPE_RW
  end.

(** The tables after a command on them, and whether it succeeds. *)
Definition effect (c : command) (tb : tables) : outcome (tables * bool) :=
  match c with
  | BreakAddr a => Ok (set_point a tb)
  | BreakSymbol name =>
      let name := default name (get_class_method linkage name) in
      Ok match find_name 0 name (zlen name) (t_funcs tb) with
         | Some (_, sym) => set_point (s_addr sym) tb
         | None => (tb, false)
         end
  | BreakLine f n =>
      Ok match file_address_mapping_get_addr f n kvm with
         | (STD_E_OK, Some addr) => set_point addr tb
         | _ => (tb, false)
         end
  | Delete None =>
      b ← cpuctrl_del_all_break BREAK_POINT_TYPE_FOREVER (t_breaks tb); Ok (of_breaks tb (true, b))
  | Delete (Some n) => r ← cpuctrl_del_break n (t_breaks tb); Ok (of_breaks tb r)
  | WatchAddr k a n => Ok (of_watches tb (cpuctrl_set_data_watch (kind_type k) (u32 a) n (t_watches tb)))
  | WatchSymbol k name =>
      Ok match find_name 0 name (zlen name) (t_gls tb) with
         | Some (_, sym) => of_watches tb (cpuctrl_set_data_watch (kind_type k) (u32 (s_addr sym)) (s_size sym) (t_watches tb))
         | None => (tb, false)
         end
  | WatchDelete None => Ok (of_watches tb (true, cpuctrl_del_all_data_watch_points (t_watches tb)))
  | WatchDelete (Some n) => Ok (of_watches tb (cpuctrl_del_data_watch_point n (t_watches tb)))
  | WatchInfo => Ok (tb, true)
  | _ => Ok (tb, false)
  end.

(** The commands that work on the tables only. *)
Definition on_points (c : command) : bool :=
  match c with
  | BreakAddr _ | BreakSymbol _ | BreakLine _ _ | Delete _ | WatchAddr _ _ _ | WatchSymbol _ _ | WatchDelete _ => true
  | _ => false
  end.

Lemma put_points_id s : put_points (tables_of s) false s = s.
Proof. by destruct s as [[] ? ? ? ? ?]. Qed.

Lemma exec_on_breaks f s : exec (on_breaks f) s =
  match f (d_breaks (x_dbg s)) with
  | Ok (r, b) => Done [] (with_dbg (with_breaks b) s) r
  | Fault e => Crash [] e
  end.
Proof. unfold on_breaks. repeat step. destruct (f _) as [[r b]|]; cbn [then_run]; [|done]. rewrite after_nil. by repeat step. Qed.
Lemma exec_on_watches f s : exec (on_watches f) s =
  Done [] (with_dbg (with_watches (snd (f (d_watches (x_dbg s))))) s) (fst (f (d_watches (x_dbg s)))).
Proof. unfold on_watches. repeat step. destruct (f _) as [r w]. by repeat step. Qed.
Lemma exec_lines l s : ∃ o, exec (candidate_lines l) s = Done o s ().
Proof.
  unfold candidate_lines. induction l as [|n l [o IH]]; cbn [for_each]; [by eexists|].
  repeat step. rewrite IH. by eexists.
Qed.

(** What a command leaves and answers. *)
Definition finishes (r : result St ()) (s' : St) (answer : string) : Prop :=
  ∃ o, r = Done o s' () ∧ last o = Some (Reply [Lit answer]).
Definition answer (ok : bool) : string := if ok then "OK" else "NG".
Ltac finish :=
  eexists; split; [reflexivity|]; cbn [after app]; rewrite ?last_app, ?last_cons; cbn; rewrite ?last_app; reflexivity.

Lemma finishes_after o r s' a : finishes r s' a → finishes (after o r) s' a.
Proof. intros (o' & -> & Ho). eexists. split; [reflexivity|]. by rewrite last_app, Ho. Qed.

(** A break point set by name, and the answer. *)
Lemma exec_set_break addr what shown s :
  let r := set_point addr (tables_of s) in
  finishes (exec (set_break_and_tell addr what shown) s) (put_points (fst r) (snd r) s) (answer (snd r)).
Proof.
  unfold set_break_and_tell, ok_result, set_point, of_breaks, put_points. rewrite exec_bind, exec_on_breaks.
  cbn [tables_of t_breaks]. destruct (cpuctrl_set_break _ _ _) as [ok b]. cbn [then_run fst snd]. rewrite after_nil.
  destruct ok; repeat step; (eexists; split; [by destruct s as [[] ? ? ? ? ?]|reflexivity]).
Qed.

(** The answer to a command on watch points. *)
Lemma exec_watch_answer (m : cmd bool) s o s' ok : exec m s = Done o s' ok →
  finishes (exec (result ← m; if (result : bool) then ok_result else reply "NG") s)
    ((if ok then set_result true else id) s') (answer ok).
Proof.
  intros Hm. rewrite exec_bind, Hm. cbn [then_run]. apply finishes_after. unfold ok_result.
  destruct ok; repeat step; finish.
Qed.
(** Setting a watch point of a kind: the range is the argument or that of a variable. *)
Definition watch_range (a : DbgCmdExecutorWatchDataType) s : option (Z * Z) :=
  match wa_type a with
  | DBG_CMD_WATCH_SET_SYMBOL => snd (symbol_get_gl (str_arg (wa_symbol a)) (ts_len (wa_symbol a)) (d_syms (x_dbg s)))
  | _ => Some (wa_addr a, wa_size a)
  end.
Lemma exec_set_watch k a s : wa_watch_type a = kind_bits k →
  ∃ o, exec (dbg_std_executor_watch_data_set a) s =
    match watch_range a s with
    | Some (addr, size) =>
        let r := cpuctrl_set_data_watch (kind_type k) (u32 addr) size (d_watches (x_dbg s)) in
        Done o (with_dbg (with_watches (snd r)) s) (fst r)
    | None => Done o s false
    end.
Proof.
  intros Hk. unfold dbg_std_executor_watch_data_set. rewrite exec_bind.
  set (range := match wa_type a with DBG_CMD_WATCH_SET_SYMBOL => _ | _ => _ end).
  assert (∃ o, exec range s = Done o s (watch_range a s)) as [o ->].
  { unfold range, watch_range. destruct (wa_type a); try by eexists. do 2 step.
    destruct (symbol_get_gl _ _ _) as [i [r|]]; [by eexists|]. repeat step.
    destruct (exec_lines (symbol_print_gl (str_arg (wa_symbol a)) SYMBOL_CANDIATE_NUM (d_syms (x_dbg s))) s) as [o' ->].
    cbn [then_run]. repeat step. by eexists. }
  clear range. cbn [then_run]. destruct (watch_range a s) as [[addr size]|]; [|repeat step; by eexists].
  assert (watch_type_of (wa_watch_type a) = Some (kind_type k)) as -> by (rewrite Hk; by destruct k).
  rewrite exec_bind, exec_on_watches. cbn zeta. destruct (cpuctrl_set_data_watch _ _ _ _) as [ok w]. cbn [then_run fst snd].
  destruct ok; repeat step; by eexists.
Qed.

Lemma points_run c s : on_points c = true → is_command c (parse_command (x_parser s)) →
  match effect c (tables_of s) with
  | Fault e => exec (run_command (snd (command_fn c))) s = Crash [] e
  | Ok (tb, ok) => finishes (exec (run_command (snd (command_fn c))) s) (put_points tb ok s) (answer ok)
  end.
Proof.
  intros Hc (_ & _ & Ha). destruct c as [a|name|f n| |n| |k a n|k name|n| | | | | | | | | | | | | | | | | | | | | | | |];
    try discriminate Hc; cbn [has_args] in Ha; cbn [effect command_fn snd DbgExecutor.run_command].
  - destruct Ha as [Hty Haddr']. unfold exec_break, args. do 2 step. rewrite Hty, Haddr'.
    pose proof (exec_set_break a [Lit "0x"; Hex a] [Lit "0x"; Hex a] s) as Hs.
    by destruct (set_point a (tables_of s)).
  - destruct Ha as [Hty (_ & _ & Hname)]. unfold exec_break, args, str_arg. do 2 step. rewrite Hty, Hname.
    assert (∃ o, exec (match get_class_method linkage name with
      | None => mret name | Some l => say [Lit "linkagename="; Chars l];; mret l end : cmd _) s =
      Done o s (default name (get_class_method linkage name))) as [o Ho].
    { destruct (get_class_method linkage name); repeat step; by eexists. }
    rewrite exec_bind, Ho. cbn [then_run]. set (name' := default name _). do 2 step.
    unfold symbol_get_func. cbn [tables_of t_funcs].
    destruct (find_name 0 name' _ _) as [[i sym]|].
    + pose proof (exec_set_break (s_addr sym) [Chars name] [Chars name; Lit " 0x"; Hex (s_addr sym)] s) as Hs.
      destruct (set_point _ _) as [tb ok]. by apply finishes_after.
    + apply finishes_after. repeat step.
      destruct (exec_lines (symbol_print_func name' SYMBOL_CANDIATE_NUM (d_syms (x_dbg s))) s) as [o' ->].
      cbn [then_run]. repeat step. rewrite put_points_id. finish.
  - destruct Ha as (Hty & (_ & _ & Hname) & Hline). unfold exec_break, args, str_arg. do 2 step. rewrite Hty, Hname, Hline.
    destruct (file_address_mapping_get_addr f n kvm) as [e [addr|]]; [destruct e|destruct e];
      try (pose proof (exec_set_break addr [Lit "0x"; Hex addr] [Lit "0x"; Hex addr] s) as Hs;
           by destruct (set_point addr (tables_of s)));
      repeat step; rewrite put_points_id; destruct (file_address_mapping_get_candidate f n kvm) as [e' [v|]];
      try destruct e'; repeat step; finish.
  - unfold exec_delete, args, ok_result. do 2 step. destruct n as [n|].
    + rewrite Ha. cbn [da_type delete_break_no tables_of t_breaks]. rewrite exec_bind, exec_on_breaks.
      destruct (cpuctrl_del_break n _) as [[ok b]|e]; cbn [mbind outcome_bind then_run of_breaks fst snd]; [|done].
      rewrite after_nil. destruct ok; repeat step; (eexists; split; [by destruct s as [[] ? ? ? ? ?]|reflexivity]).
    + rewrite Ha, exec_bind, exec_on_breaks. cbn [tables_of t_breaks].
      destruct (cpuctrl_del_all_break _ _) as [b|e]; cbn [mbind outcome_bind then_run of_breaks fst snd]; [|done].
      rewrite after_nil. repeat step. eexists; split; [by destruct s as [[] ? ? ? ? ?]|reflexivity].
  - destruct Ha as (Hty & Hk & Ha & Hn). unfold exec_watch_data, args. do 2 step. rewrite Hty.
    destruct (exec_set_watch k (watch_args (parsed_args (parse_command (x_parser s)))) s Hk) as [o Hr].
    unfold watch_range in Hr. rewrite Hty, Ha, Hn in Hr. cbn [tables_of t_watches].
    pose proof (exec_watch_answer _ _ _ _ _ Hr) as Hf. destruct (cpuctrl_set_data_watch _ _ _ _) as [ok w].
    cbn in Hf |- *. by destruct s as [[] ? ? ? ? ?].
  - destruct Ha as (Hty & Hk & (Hl & _ & Hname)). unfold exec_watch_data, args. do 2 step. rewrite Hty.
    destruct (exec_set_watch k (watch_args (parsed_args (parse_command (x_parser s)))) s Hk) as [o Hr].
    unfold watch_range, str_arg, symbol_get_gl in Hr. rewrite Hty, Hl, Hname in Hr. cbn [tables_of t_watches t_gls].
    destruct (find_name 0 name (zlen name) _) as [[i sym]|]; cbn [snd] in Hr; pose proof (exec_watch_answer _ _ _ _ _ Hr) as Hf.
    + destruct (cpuctrl_set_data_watch _ _ _ _) as [ok w]. cbn in Hf |- *. by destruct s as [[] ? ? ? ? ?].
    + rewrite put_points_id. exact Hf.
  - unfold exec_watch_data, args, dbg_std_executor_watch_data_delete. do 2 step. destruct n as [n|].
    + destruct Ha as [Hty ->]. rewrite Hty. cbn [tables_of t_watches of_watches].
      set (del := cpuctrl_del_data_watch_point n).
      assert (∃ o, exec (ok ← on_watches del; if (ok : bool) then mret true
        else say [Lit "ERROR: can not delete "; Dec n];; mret false) s =
        Done o (with_dbg (with_watches (snd (del (d_watches (x_dbg s))))) s) (fst (del (d_watches (x_dbg s))))) as [o Hr].
      { rewrite exec_bind, exec_on_watches. cbn [then_run]. destruct (del _) as [ok w]. cbn [fst snd].
        destruct ok; repeat step; by eexists. }
      pose proof (exec_watch_answer _ _ _ _ _ Hr) as Hf. destruct (del _) as [ok w]. cbn in Hf |- *.
      by destruct s as [[] ? ? ? ? ?].
    + rewrite Ha. generalize cpuctrl_del_all_data_watch_points. intros del. cbn [tables_of t_watches of_watches].
      pose proof (exec_watch_answer _ _ _ _ _ (exec_on_watches (λ w, (true, del w)) s)) as Hf.
      cbn [fst snd] in Hf |- *. by destruct s as [[] ? ? ? ? ?].
Qed.
End commands.
