(* ===== verification/DbgSession.v ===== *)
(** * A debugging session

    Typed lines from the parser through the executor to the state of the debugger: a break
    point typed at the prompt stops the program, some core always stays under control, and
    the operation log, replayed at the next start, sets the break and watch points again. *)

From Stdlib Require Import String Ascii.
From S2P Require Import Prelude SymbolOps CpuControl CpuControlFacts CpuCallback Mpu MpuFacts Bus Token TokenFacts DbgParser DbgParserFacts DwarfLine DwarfLineFacts Containers DbgExecutor DbgExecutorFacts.
Open Scope Z_scope.

Definition junk_ok (j : stack_junk) : Prop :=
  tokens_wf (tk_array (j_tokens j)) ∧ zlen (j_buf j) = TOKEN_STRING_MAX_SIZE ∧ zlen (j_merge j) = TOKEN_STRING_MAX_SIZE.

Section session.
Context {D T : Type} `{MpuConfig D} `{Target T}.
#[local] Abbreviation St := (exec_state D T).
#[local] Abbreviation cmd := (cmd St).
Implicit Types (s : St).
Context (kvm : list KeyValueMappingType) (linkage : list Z → list Z → option (list Z)).
Context (print_variable : list Z → Z → option (nat * Z) → Z → cmd bool)
  (print_addr : Z → option (nat * Z) → list Z → list Z → cmd bool) (print_local : list Z → cmd bool).
Context (file_opens : bool).

#[local] Abbreviation run_command :=
  (run_command kvm linkage print_variable print_addr print_local file_opens).
#[local] Abbreviation do_cui_line :=
  (do_cui_line kvm linkage print_variable print_addr print_local file_opens).
#[local] Abbreviation replay :=
  (replay kvm linkage print_variable print_addr print_local file_opens).
#[local] Abbreviation effect := (effect kvm linkage).
#[local] Abbreviation ncores := cpu_config_get_core_id_num.

Definition in_debug_mode s : bool := cpuctrl_is_debug_mode (d_run (x_dbg s)).
Definition line_of (short : bool) (c : command) : list Z := join (spell short c).

(** ** Typing a command *)

Lemma parse_line_typed env junk short c s : command_wf ncores c → junk_ok junk →
  let accepted := eqb (in_debug_mode s) (mode_of c) in
  ∃ o arg, exec env (parse_line junk (line_of short c)) s =
      Done o (with_parser (mkParser (if accepted then true else last_command (x_parser s)) arg) s) accepted ∧
    original_str arg = line_of short c ∧ is_command c arg.
Proof.
  intros Hwf (Ht & Hb & Hm). unfold parse_line. do 4 step.
  destruct (parse_in_mode ncores (j_merge junk) (in_debug_mode s) short c (j_tokens junk) (j_buf junk) (x_parser s))
    as (arg & Hp & Ho & Hc); [done..|]. step. fold (in_debug_mode s) (line_of short c). unfold line_of at 1. rewrite Hp.
  repeat step. destruct (eqb _ _); repeat step; by eexists _, arg.
Qed.

(** A command on break and watch points, typed in debug mode. *)
Lemma type_points env junk short c s tb ok : command_wf ncores c → junk_ok junk → on_points c = true →
  in_debug_mode s = true → effect c (tables_of s) = Ok (tb, ok) →
  ∃ p o, exec env (do_cui_line junk (line_of short c)) s =
      Done o (put_points tb ok (set_result false (with_parser p s))) (if ok then Some (line_of short c) else None) ∧
    last o = Some (Reply [Lit (answer ok)]) ∧ last_command p = true ∧
    original_str (parse_command p) = line_of short c ∧ is_command c (parse_command p).
Proof.
  intros Hwf Hj Hp Hd He. unfold DbgExecutor.do_cui_line. rewrite exec_bind.
  destruct (parse_line_typed env junk short c s Hwf Hj) as (o & arg & -> & Ho & Hc).
  rewrite Hd. assert (eqb true (mode_of c) = true) as -> by by destruct c. cbn [then_run].
  set (p := mkParser true arg). rewrite exec_bind, exec_modify. cbn [then_run]. rewrite after_nil, exec_bind, exec_get.
  cbn [then_run]. rewrite after_nil. set (s1 := set_result false (with_parser p s)).
  assert (Hc1 : is_command c (parse_command (x_parser s1))) by exact Hc.
  pose proof (points_run env kvm linkage print_variable print_addr print_local file_opens c s1 Hp Hc1) as Hr.
  change (tables_of s1) with (tables_of s) in Hr. rewrite He in Hr. destruct Hr as (o2 & Hr & Hl).
  destruct Hc as (Hid & Hrun & Hargs). change (run (parse_command (x_parser s1))) with (run arg). rewrite Hrun.
  rewrite exec_bind, Hr. cbn [then_run]. repeat step. cbn [after].
  exists p. eexists. split; [|split; [|done]].
  - f_equal. destruct ok; cbn; by rewrite ?Ho.
  - by rewrite app_nil_r, last_app, Hl.
Qed.

(** ** A typed break point stops the program *)

(** The table after [break <addr>]: the address is in it, nothing else is new, and the counter
    is right again. *)
Lemma set_break_stops a st : break_wf st → break_counted st →
  (∃ i b, zget (break_points st) i = Some b ∧ b_is_set b = false) →
  ∃ st', cpuctrl_set_break a BREAK_POINT_TYPE_FOREVER st = (true, st') ∧ break_wf st' ∧ stops_at st' a ∧
    (∀ pc, stops_at st' pc → pc = a ∨ ∃ i, cpuctrl_get_break i st = Some pc) ∧
    (∀ pc, stops_at st pc → stops_at st' pc).
Proof.
  intros Hwf Hc (i0 & b0 & Hi0 & Hb0). pose proof (set_break_cases a BREAK_POINT_TYPE_FOREVER _ Hwf) as Hcases.
  pose proof (set_break_wf a BREAK_POINT_TYPE_FOREVER _ Hwf) as Hwf'. pose proof (set_break_counted a BREAK_POINT_TYPE_FOREVER _ Hwf Hc) as Hc'.
  assert (∀ l, zget l 0 = Some (mkBreak true BREAK_POINT_TYPE_FOREVER 0) → 1 ≤ count is_forever l) as Hone.
  { intros l Hl. pose proof (count_pos is_forever l 0 _ Hl eq_refl). lia. }
  destruct (cpuctrl_set_break _ _ _) as [ok st']. cbn [snd] in *. unfold break_counted in Hc, Hc'.
  assert (cpuctrl_get_break 0 st = Some 0) as Hzero.
  { apply get_break_Some; [done|]. eexists. split; [apply (bw_zero _ Hwf)|done]. }
  destruct Hcases as [(-> & -> & i & b & Hb & Hs & Ht & Ha)|[(-> & i & b & Hi & Hib & Hfree & _ & ->)|(_ & _ & Hall)]].
  - exists st. split; [done|]. split; [done|]. split; [|split; [|done]].
    + destruct (decide (i = 0)) as [->|Hne].
      * rewrite (bw_zero _ Hwf) in Hb. injection Hb as <-. cbn in Ha. subst a. unfold stops_at.
        destruct (decide (0 < break_points_num st)); [left; by split; [|exists 0]|right; split; [lia|done]].
      * left. split; [|exists i; apply get_break_Some; [done|]; by exists b].
        rewrite Hc. pose proof (count_zput is_forever _ _ _ (mkBreak false BREAK_POINT_TYPE_FOREVER 0) Hb) as Hz.
        unfold is_forever at 3 4 in Hz. rewrite Hs, Ht, bool_decide_true in Hz by done. cbn in Hz.
        assert (1 ≤ count is_forever (zput (break_points st) i (mkBreak false BREAK_POINT_TYPE_FOREVER 0))); [|lia].
        apply Hone. rewrite zget_zput_ne; [apply (bw_zero _ Hwf)|pose proof (zget_range _ _ _ Hb); lia|lia].
    + intros pc [[_ ?]|[_ ->]]; right; [done|by exists 0].
  - set (st' := mkBreaks _ _) in *. exists st'.
    assert (0 < break_points_num st') as Hpos.
    { unfold st'. cbn [break_points_num]. rewrite decide_False by done. specialize (Hone _ (bw_zero _ Hwf)). lia. }
    assert (∀ j x, zget (break_points st) j = Some x → b_is_set x = true → zget (break_points st') j = Some x) as Hkeep.
    { intros j x Hx Hset. unfold st'. cbn. assert (j ≠ i) by (intros ->; congruence). by rewrite zget_zput_ne by lia. }
    split; [done|]. split; [done|]. split; [|split].
    + left. split; [done|]. exists i. apply get_break_Some; [done|]. eexists. unfold st'. cbn. by rewrite zget_zput_eq by (by eapply zget_range).
    + intros pc [[_ (j & (x & Hx & Hset & <-)%get_break_Some)]|[? _]]; [|done|lia]. unfold st' in Hx. cbn in Hx.
      apply zget_zput_inv in Hx as [[_ ->]|[Hne Hx]]; [by left|right|by eapply zget_range].
      exists j. apply get_break_Some; [done|]. by exists x.
    + intros pc Hpc. left. split; [done|].
      assert (∃ j, cpuctrl_get_break j st = Some pc) as [j Hj].
      { destruct Hpc as [[_ Hl]|[_ ->]]; [exact Hl|by exists 0]. }
      apply get_break_Some in Hj as (x & Hx & Hset & <-); [|done].
      exists j. apply get_break_Some; [done|]. exists x. by split; [apply Hkeep|].
  - by rewrite (Hall _ _ Hi0) in Hb0.
Qed.

Lemma exec_on_run {A} env (f : run_state → outcome (A * run_state)) s x r : f (d_run (x_dbg s)) = Ok (x, r) →
  exec env (on_run f) s = Done [] (with_dbg (with_run r) s) x.
Proof. intros Hf. unfold on_run. rewrite exec_bind, exec_get. cbn [then_run]. rewrite after_nil. rewrite Hf. by repeat step. Qed.

(** [cont]: the state in which the program is handed to the CPU thread. *)
Lemma exec_cont_hands_over env s : ca_type (cont_args (parsed_args (parse_command (x_parser s)))) = DBG_CMD_CONT_ALL →
  0 ≤ stopped_core_id (dbg_cpu_stopped_core (d_run (x_dbg s))) < zlen (dbg_cpu_cont (d_run (x_dbg s))) →
  ∃ o s1, exec env exec_cont s = Done o (env dbg_wakeup_cpu s1) () ∧
    in_debug_mode s1 = false ∧ d_breaks (x_dbg s1) = d_breaks (x_dbg s) ∧
    ∀ cores, dbg_inv cores (x_dbg s) → dbg_inv cores (x_dbg s1).
Proof.
  intros Hargs Hcore. unfold exec_cont, args. rewrite exec_bind, exec_get. cbn [then_run]. rewrite after_nil, Hargs.
  unfold set_debug_mode. do 2 rewrite exec_bind. rewrite (exec_on_run env _ s _ (fst (cpuctrl_set_debug_mode false (d_run (x_dbg s))))) by reflexivity.
  cbn [then_run fst cpuctrl_set_debug_mode]. rewrite after_nil, exec_tell. cbn [then_run].
  set (s1 := with_dbg _ s). unfold set_cont_clocks. do 2 rewrite exec_bind.
  set (run1 := mkRun (zput (dbg_cpu_cont (d_run (x_dbg s1))) (stopped_core_id (dbg_cpu_stopped_core (d_run (x_dbg s1)))) (mkCont false 0))
    (dbg_cpu_stopped_core (d_run (x_dbg s1))) (dbg_cpuctrl_dbg_mode (d_run (x_dbg s1))) (dbg_cpu_debug_mode (d_run (x_dbg s1)))).
  rewrite (exec_on_run env _ s1 () run1).
  2: { unfold cpuctrl_set_cont_clocks. by rewrite (proj2 (zset_Some _ _ _ _) (conj Hcore eq_refl)). }
  cbn [then_run]. rewrite after_nil, exec_call. cbn [then_run after]. rewrite exec_reply.
  eexists _, (with_dbg (with_run run1) s1). split; [reflexivity|]. split; [done|]. split; [done|].
  intros cores []. split; cbn; rewrite ?zlen_zput; done.
Qed.

(** [cont] at the prompt. *)
Lemma type_cont env junk short s : junk_ok junk → in_debug_mode s = true →
  0 ≤ stopped_core_id (dbg_cpu_stopped_core (d_run (x_dbg s))) < zlen (dbg_cpu_cont (d_run (x_dbg s))) →
  ∃ o s1 saved, exec env (do_cui_line junk (line_of short (Cont None))) s = Done o (env dbg_wakeup_cpu s1) saved ∧
    in_debug_mode s1 = false ∧ d_breaks (x_dbg s1) = d_breaks (x_dbg s) ∧
    ∀ cores, dbg_inv cores (x_dbg s) → dbg_inv cores (x_dbg s1).
Proof.
  intros Hj Hd Hcore. unfold DbgExecutor.do_cui_line. rewrite exec_bind.
  destruct (parse_line_typed env junk short (Cont None) s I Hj) as (o & arg & -> & Ho & Hc).
  rewrite Hd. change (eqb true (mode_of (Cont None))) with true. cbn [then_run].
  destruct Hc as (Hid & Hrun & Hargs). cbn [has_args] in Hargs.
  rewrite exec_bind, exec_modify. cbn [then_run]. rewrite after_nil, exec_bind, exec_get. cbn [then_run]. rewrite after_nil.
  change (run (parse_command (x_parser (set_result false (with_parser (mkParser true arg) s))))) with (run arg). rewrite Hrun.
  set (s0 := set_result false (with_parser (mkParser true arg) s)). change (DbgExecutor.run_command _ _ _ _ _ _ (snd (command_fn (Cont None)))) with (exec_cont (D := D) (T := T)).
  destruct (exec_cont_hands_over env s0 Hargs Hcore) as (o' & s1 & Hr & Hs1). rewrite exec_bind, Hr. cbn [then_run].
  repeat step. cbn [after]. eexists _, s1, _. split; [reflexivity|exact Hs1].
Qed.

(** C24: From the prompt to the stop.  The program is stopped in a core under the debugger, a
    slot of the table is free, and the counter of permanent points is right (as it is until
    the temporary point of a [return] has been removed).  Then the line [break <addr>],
    written long or short, is answered with OK and kept for the operation log; the line [cont]
    after it hands the program to the CPU thread with debug mode off; and while it runs with
    these break points, no debug mode and no timer that has run out, every core under control
    stops before the instruction at that address and becomes the debugged core; it stops
    wherever it stopped before, and nowhere else but at addresses the table already listed.
    (The address fits 32 bits, to which the code cuts it.) *)
Theorem typed_break_stops env junk junk' short short' a s cores :
  is_addr a → in_width 32 a → junk_ok junk → junk_ok junk' →
  dbg_inv cores (x_dbg s) → break_counted (d_breaks (x_dbg s)) →
  0 ≤ stopped_core_id (dbg_cpu_stopped_core (d_run (x_dbg s))) < cores → in_debug_mode s = true →
  (∃ i b, zget (break_points (d_breaks (x_dbg s))) i = Some b ∧ b_is_set b = false) →
  ∃ o s' o1 s1 saved,
    exec env (do_cui_line junk (line_of short (BreakAddr a))) s = Done o s' (Some (line_of short (BreakAddr a))) ∧
    last o = Some (Reply [Lit "OK"]) ∧
    exec env (do_cui_line junk' (line_of short' (Cont None))) s' = Done o1 (env dbg_wakeup_cpu s1) saved ∧
    in_debug_mode s1 = false ∧ dbg_inv cores (x_dbg s1) ∧
    ∀ core_id st pc, 0 ≤ core_id < cores → dbg_inv cores st → d_breaks st = d_breaks (x_dbg s1) →
      controlled core_id (d_run st) → ¬ timed_out core_id (d_run st) → cpuctrl_is_debug_mode (d_run st) = false →
      ∃ stop st', dbg_notify_cpu_clock_supply_start core_id pc st = Ok (stop, st') ∧
        (pc = a ∨ stops_at (d_breaks (x_dbg s)) pc → stop = true) ∧
        (stop = true → pc = a ∨ ∃ i, cpuctrl_get_break i (d_breaks (x_dbg s)) = Some pc) ∧
        (stop = true → cpuctrl_get_current_debugged_core (d_run st') = Some core_id).
Proof.
  intros Ha Hw Hj Hj' Hinv Hcount Hcore Hd Hfree.
  destruct (set_break_stops a _ (di_breaks _ _ Hinv) Hcount Hfree) as (b' & Hset & Hwf' & Hat & Honly & Hkeep).
  set (tb := mkTables b' (t_watches (tables_of s)) (t_funcs (tables_of s)) (t_gls (tables_of s))).
  assert (set_point a (tables_of s) = (tb, true)) as Hpoint.
  { unfold set_point, of_breaks. rewrite wrap_id by done. cbn [tables_of t_breaks]. by rewrite Hset. }
  destruct (type_points env junk short (BreakAddr a) s tb true Ha Hj eq_refl Hd) as (p & o & Hr & Hl & _).
  { cbn. by rewrite Hpoint. }
  set (s' := put_points tb true _) in Hr.
  assert (dbg_inv cores (x_dbg s')) as Hinv' by (destruct Hinv; by split).
  destruct (type_cont env junk' short' s' Hj') as (o1 & s1 & saved & Hr1 & Hd1 & Hb1 & Hi1); [exact Hd|by rewrite (di_cont _ _ Hinv')|].
  exists o, s', o1, s1, saved. split_and!; [exact Hr|exact Hl|exact Hr1|exact Hd1|by apply Hi1|].
  intros core st pc Hc Hst Hbr Hctl Htime Hmode. change (d_breaks (x_dbg s')) with b' in Hb1.
  destruct (supply_start_any cores core pc st Hst Hc) as (stop & st' & Hn & _ & Hstop & Hcur & _).
  rewrite Hbr, Hb1 in Hstop. exists stop, st'. split; [exact Hn|]. split_and!.
  - intros Hpc. apply Hstop. split; [exact Hctl|]. right; left. destruct Hpc as [->|]; [done|by apply Hkeep].
  - intros [_ [?|[Hs|?]]]%Hstop; [done|by apply Honly|congruence].
  - intros Hs. by apply Hcur.
Qed.

(** ** Some core stays under control *)

Section held.
(** The CPU thread and the printing of variables do not set the modes of the cores. *)
Context (env : thread_call → St → St) (Henv : ∀ c s, core_modes (env c s) = core_modes s).
Context (Hvar : ∀ n a p z, keeps env core_modes (print_variable n a p z)).
Context (Haddr : ∀ a p t n, keeps env core_modes (print_addr a p t n)).
Context (Hlocal : ∀ n, keeps env core_modes (print_local n)).

(** No line of the prompt takes the last core out of the debugger's control: whatever
    command is typed, in whatever mode, if some core was in debug mode before, some core is
    after it. *)
Theorem some_core_stays_controlled junk short c s o s' saved :
  command_wf ncores c → junk_ok junk →
  exec env (do_cui_line junk (line_of short c)) s = Done o s' saved → held s → held s'.
Proof.
  intros Hwf Hj Hr Hh. unfold DbgExecutor.do_cui_line in Hr.
  apply exec_bind_inv in Hr as (? & s1 & found & ? & Hp & Hr & _).
  destruct (parse_line_typed env junk short c s Hwf Hj) as (? & arg & Hp' & _ & Hc). rewrite Hp' in Hp.
  injection Hp as _ <- <-. destruct (eqb _ _); [|by injection Hr as _ <- _].
  apply exec_bind_inv in Hr as (? & s2 & [] & ? & Hset & Hr & _). injection Hset as _ <-.
  apply exec_bind_inv in Hr as (? & s3 & f & ? & Hget & Hr & _). injection Hget as _ <- <-.
  apply exec_bind_inv in Hr as (? & s4 & [] & ? & Hrun & Hr & _).
  apply exec_bind_inv in Hr as (? & s5 & ? & ? & Hget & Hr & _). injection Hget as _ <- _. injection Hr as _ <- _.
  set (s1 := set_result false _) in *. pose proof Hc as (_ & Hf & _).
  change (run (parse_command (x_parser s1))) with (run arg) in Hrun. rewrite Hf in Hrun.
  destruct (decide (snd (command_fn c) = dbg_std_executor_core)) as [Hcore|Hcore].
  - rewrite Hcore in Hrun. by eapply (core_command_held env c s1).
  - eapply held_modes; [|exact Hh]. change (core_modes s) with (core_modes s1).
    by eapply (run_modes env kvm linkage print_variable print_addr print_local file_opens Henv Hvar Haddr Hlocal _ Hcore).
Qed.
End held.

(** ** The effect of any command *)

(** What the session keeps track of. *)
Definition log_view s : tables * parser_state := (tables_of s, x_parser s).
Lemma view_log s s' : view s = view s' → log_view s = log_view s'.
Proof. intros E. exact (f_equal (λ x, (x.1.1, x.2)) E). Qed.

Lemma effect_symbols c tb tb' ok : on_points c = true → effect c tb = Ok (tb', ok) →
  t_funcs tb' = t_funcs tb ∧ t_gls tb' = t_gls tb.
Proof.
  destruct c; try discriminate 1; intros _; cbn [DbgExecutorFacts.effect]; unfold set_point, of_breaks, of_watches;
    generalize cpuctrl_del_all_data_watch_points, cpuctrl_set_break, cpuctrl_set_data_watch, cpuctrl_del_data_watch_point; intros ???? He;
    repeat case_match; try (by injection He as <- _); apply bind_ok in He as (? & _ & He); by injection He as <- _.
Qed.

Section calm.
(** The CPU thread and the printing of variables leave the tables and the parser alone: so
    it is with the notifications of [CpuCallback] when no temporary break point is set. *)
Context (env : thread_call → St → St) (Henv : ∀ c s, log_view (env c s) = log_view s).
Context (Hvar : ∀ n a p z, keeps env log_view (print_variable n a p z)).
Context (Haddr : ∀ a p t n, keeps env log_view (print_addr a p t n)).
Context (Hlocal : ∀ n, keeps env log_view (print_local n)).

Lemma core_keeps_log : keeps env log_view exec_core.
Proof.
  assert (Hrun : ∀ A (f : run_state → outcome (A * run_state)), keeps env log_view (on_run f)).
  { intros A f. by apply (keeps_update env log_view (λ s, d_run (x_dbg s)) f (λ r, with_dbg (with_run r))). }
  assert (Hset : ∀ i b, keeps env log_view (set_core_mode i b)) by (intros; apply Hrun).
  assert (Hoff : ∀ ids, keeps env log_view (all_cores_off ids)) by (intros; apply all_cores_off_keeps, view_log).
  unfold exec_core. keep (view_log).
Qed.
Lemma break_info_keeps_log i : keeps env log_view (break_info i).
Proof. unfold break_info. keep (view_log). Qed.
Lemma watch_info_keeps_log i : keeps env log_view (watch_info i).
Proof. unfold watch_info. keep (view_log). Qed.

(** After a finished command the tables are those of its [effect], which is what [result_ok]
    reports; the rest of the parser's state is untouched. *)
Lemma command_effect c s o s' u : c ≠ Return → is_command c (parse_command (x_parser s)) →
  result_ok (parse_command (x_parser s)) = false →
  exec env (run_command (snd (command_fn c))) s = Done o s' u →
  ∃ ok, effect c (tables_of s) = Ok (tables_of s', ok) ∧
    x_parser s' = x_parser (if ok then set_result true s else s).
Proof.
  intros Hret Hc Hres Hr. destruct (on_points c) eqn:Hp.
  { pose proof (points_run env kvm linkage print_variable print_addr print_local file_opens c s Hp Hc) as Hpr.
    destruct (effect c (tables_of s)) as [[tb ok]|e] eqn:He; [|by rewrite Hpr in Hr].
    destruct Hpr as (o' & Hpr & _). rewrite Hpr in Hr. injection Hr as _ <-. exists ok. split; [|by destruct ok].
    assert (t_funcs tb = t_funcs (tables_of s) ∧ t_gls tb = t_gls (tables_of s)) as [Hf Hg].
    { by apply effect_symbols in He. }
    f_equal. destruct tb, ok; cbn in *; by subst. }
  assert (Hkeep : keeps env log_view (run_command (snd (command_fn c))) →
    effect c (tables_of s) = Ok (tables_of s, false) → ∃ ok, effect c (tables_of s) = Ok (tables_of s', ok) ∧
      x_parser s' = x_parser (if ok then set_result true s else s)).
  { intros Hk He. specialize (Hk _ _ _ _ Hr). exists false. rewrite (f_equal fst Hk : tables_of s' = tables_of s).
    split; [done|exact (f_equal snd Hk)]. }
  destruct Hc as (_ & _ & Ha).
  destruct c; try discriminate Hp; try done;
    try (lazymatch type of Ha with has_args BreakInfo _ => fail | _ => apply Hkeep; [|done] end);
    try (apply (run_keeps env kvm linkage print_variable print_addr print_local file_opens log_view view_log); done);
    try apply core_keeps_log; cbn [command_fn snd DbgExecutor.run_command] in *.
  - (* break info *)
    revert Hr. unfold exec_break, args. rewrite exec_bind, exec_get. cbn [then_run]. rewrite after_nil.
    cbn [has_args] in Ha. rewrite Ha.
    match goal with |- exec _ ?m s = _ → _ => assert (Hk : keeps env log_view m) end.
    { generalize (seqZ 0 DBG_CPU_CONTROL_BREAK_SETSIZE). intros l. apply keeps_bind; [|intros; apply keeps_tell].
      apply keeps_for_each, break_info_keeps_log. }
    intros Hr. specialize (Hk _ _ _ _ Hr). exists false. rewrite (f_equal fst Hk : tables_of s' = tables_of s).
    split; [done|exact (f_equal snd Hk)].
  - (* watch info *)
    revert Hr. unfold exec_watch_data, args. rewrite exec_bind, exec_get. cbn [then_run]. rewrite after_nil.
    cbn [has_args] in Ha. rewrite Ha. unfold dbg_std_executor_watch_data_info.
    generalize (seqZ 0 DBG_CPU_CONTROL_WATCH_DATA_SETSIZE). intros l Hr.
    apply exec_bind_inv in Hr as (? & s1 & b & ? & Hi & Hr & _). apply exec_bind_inv in Hi as (? & s2 & [] & ? & Hi & Hb & _).
    injection Hb as _ <- <-. specialize (keeps_for_each env log_view l watch_info watch_info_keeps_log _ _ _ _ Hi) as Hk. injection Hr as _ <- _. exists true.
    change (tables_of (set_result true s2)) with (tables_of s2). rewrite (f_equal fst Hk : tables_of s2 = tables_of s).
    split; [done|]. cbn. by rewrite (f_equal snd Hk : x_parser s2 = x_parser s).
Qed.
End calm.

(** ** The operation log *)

(** A failed command changes no table. *)
Lemma ok_false {A} (r : A * bool) x : @Ok (A * bool) r = Ok (x, false) → r = (x, false).
Proof. by intros [=]. Qed.
Lemma effect_false c tb tb' : effect c tb = Ok (tb', false) → tb' = tb.
Proof.
  assert (Hb : ∀ a, of_breaks tb (cpuctrl_set_break a BREAK_POINT_TYPE_FOREVER (t_breaks tb)) = (tb', false) → tb' = tb).
  { intros a. unfold of_breaks, cpuctrl_set_break. repeat case_match; try done. intros [= <-]. by destruct tb. }
  assert (Hw : ∀ k a n, of_watches tb (cpuctrl_set_data_watch k a n (t_watches tb)) = (tb', false) → tb' = tb).
  { intros k a n. unfold of_watches, cpuctrl_set_data_watch. repeat case_match; try done. intros [= <-]. by destruct tb. }
  assert (Hd : ∀ i, of_watches tb (cpuctrl_del_data_watch_point i (t_watches tb)) = (tb', false) → tb' = tb).
  { intros i. unfold of_watches, cpuctrl_del_data_watch_point. repeat case_match; try done. intros [= <-]. by destruct tb. }
  assert (Hno : @Ok (tables * bool) (tb, false) = Ok (tb', false) → tb' = tb) by by intros [=].
  assert (Hyes : ∀ w : watch_state, Ok (of_watches tb (true, w)) = Ok (tb', false) → tb' = tb) by done.
  destruct c; cbn [DbgExecutorFacts.effect]; unfold set_point; try exact Hno; try done.
  - intros ?%ok_false. by eapply Hb.
  - destruct (find_name _ _ _ _) as [[i sym]|]; [|exact Hno]. intros ?%ok_false. by eapply Hb.
  - destruct (file_address_mapping_get_addr _ _ _) as [[] [?|]]; try exact Hno. intros ?%ok_false. by eapply Hb.
  - destruct n as [n|]; intros (r & Hr & He)%bind_ok; [|done].
    revert Hr He. unfold cpuctrl_del_break, of_breaks. destruct (0 <? n).
    + intros (? & _ & [= <-])%bind_ok. by intros [= _].
    + intros [= <-] [= <-]. by destruct tb.
  - intros ?%ok_false. by eapply Hw.
  - destruct (find_name _ _ _ _) as [[i sym]|]; [|exact Hno]. intros ?%ok_false. by eapply Hw.
  - destruct n as [n|]; [intros ?%ok_false; by eapply Hd|apply Hyes].
Qed.

(** What may be typed: a command of the grammar in a line the front end accepts, or an empty
    line when a command can be repeated. *)
Definition typed (c : command) : Prop := command_wf ncores c ∧ c ≠ Return.
Definition fits_line (line : list Z) : Prop := zlen line < OPLOG_BUFFER - 1.
Definition may_type (line : list Z) (p : parser_state) : Prop :=
  (∃ short c, typed c ∧ line = line_of short c ∧ fits_line line) ∨ line = [] ∧ last_command p = true.
(** A command that an empty line repeats was typed before. *)
Definition repeatable (p : parser_state) : Prop :=
  last_command p = true → ∃ short c, typed c ∧ fits_line (line_of short c) ∧
    original_str (parse_command p) = line_of short c ∧ is_command c (parse_command p).

Record calm (env : thread_call → St → St) : Prop := {
  calm_env : ∀ c s, log_view (env c s) = log_view s;
  calm_var : ∀ n a p z, keeps env log_view (print_variable n a p z);
  calm_addr : ∀ a p t n, keeps env log_view (print_addr a p t n);
  calm_local : ∀ n, keeps env log_view (print_local n);
}.

(** A session and the lines it appends to the operation log; between lines the CPU may run. *)
Inductive session : St → list (list Z) → St → Prop :=
  | session_end s : session s [] s
  | session_run s s1 s' log : log_view s1 = log_view s → session s1 log s' → session s log s'
  | session_line env junk line s o s1 saved s' log :
      calm env → junk_ok junk → may_type line (x_parser s) →
      exec env (do_cui_line junk line) s = Done o s1 saved →
      session s1 log s' → session s (option_list saved ++ log) s'.

(** Running the present command. *)
Lemma run_present env c s o s1 saved : calm env → typed c → is_command c (parse_command (x_parser s)) →
  exec env (modify (set_result false);; f ← get (λ s, run (parse_command (x_parser s))); run_command f;;
    c ← get (λ s, parse_command (x_parser s)); mret (if result_ok c then Some (original_str c) else None)) s =
    Done o s1 saved →
  x_parser s1 = mkParser (last_command (x_parser s)) (parse_command (x_parser s1)) ∧
  original_str (parse_command (x_parser s1)) = original_str (parse_command (x_parser s)) ∧
  is_command c (parse_command (x_parser s1)) ∧
  ∃ ok, effect c (tables_of s) = Ok (tables_of s1, ok) ∧
    saved = if ok then Some (original_str (parse_command (x_parser s))) else None.
Proof.
  intros [He Hv Ha Hl] [Hwf Hret] Hc Hr.
  apply exec_bind_inv in Hr as (? & s2 & [] & ? & Hset & Hr & _). injection Hset as _ <-.
  apply exec_bind_inv in Hr as (? & s3 & f & ? & Hget & Hr & _). injection Hget as _ <- <-.
  apply exec_bind_inv in Hr as (? & s4 & [] & ? & Hrun & Hr & _).
  apply exec_bind_inv in Hr as (? & s5 & pc & ? & Hget & Hr & _). injection Hget as _ <- <-. injection Hr as _ <- <-.
  pose proof Hc as (_ & Hf & _). change (run (parse_command (x_parser (set_result false s)))) with (run (parse_command (x_parser s))) in Hrun.
  rewrite Hf in Hrun.
  destruct (command_effect env He Hv Ha Hl c (set_result false s) _ _ _ Hret Hc eq_refl Hrun) as (ok & Heff & Hx).
  change (tables_of (set_result false s)) with (tables_of s) in Heff. rewrite Hx.
  destruct ok; (split_and!; [done|done|exact Hc|]); [exists true|exists false]; by split.
Qed.

(** One typed line. *)
Lemma line_step env junk line s o s1 saved : calm env → junk_ok junk → may_type line (x_parser s) →
  repeatable (x_parser s) → exec env (do_cui_line junk line) s = Done o s1 saved →
  repeatable (x_parser s1) ∧
  ((saved = None ∧ tables_of s1 = tables_of s) ∨
   ∃ short c, typed c ∧ fits_line (line_of short c) ∧ saved = Some (line_of short c) ∧
     effect c (tables_of s) = Ok (tables_of s1, true)).
Proof.
  intros Hcalm Hj Hty Hrep Hr. unfold DbgExecutor.do_cui_line in Hr.
  apply exec_bind_inv in Hr as (? & s2 & found & ? & Hp & Hr & _).
  assert (∃ short c, typed c ∧ fits_line (line_of short c) ∧ tables_of s2 = tables_of s ∧
    (found = false → repeatable (x_parser s2)) ∧ original_str (parse_command (x_parser s2)) = line_of short c ∧
    is_command c (parse_command (x_parser s2))) as (short & c & Htc & Hfit & Htab & Hno & Ho & Hc).
  { destruct Hty as [(short & c & [Hwf Hret] & -> & Hfit)|[-> Hlast]].
    - destruct (parse_line_typed env junk short c s Hwf Hj) as (? & arg & Hp' & Ho & Hc). rewrite Hp' in Hp.
      injection Hp as _ <- <-. exists short, c. split_and!; try done. intros Hno Hlast. by exists short, c.
    - destruct (Hrep Hlast) as (short & c & Htc & Hfit & Ho & Hc). exists short, c.
      unfold parse_line in Hp. apply exec_bind_inv in Hp as (? & ? & m & ? & Hget & Hp & _). injection Hget as _ <- <-.
      apply exec_bind_inv in Hp as (? & ? & p & ? & Hget & Hp & _). injection Hget as _ <- <-.
      apply exec_bind_inv in Hp as (? & ? & [b p] & ? & Hpar & Hp & _). revert Hpar. rewrite exec_lift.
      unfold dbg_parse. change (zlen [] =? 0) with true. rewrite Hlast. cbn [andb]. intros [= _ <- <- <-].
      apply exec_bind_inv in Hp as (? & ? & [] & ? & Hmod & Hp & _). injection Hmod as _ <-.
      apply exec_bind_inv in Hp as (? & ? & [] & ? & Hret & Hp & _). injection Hret as _ <-. injection Hp as _ <- <-.
      by split_and!. }
  destruct found.
  - destruct (run_present env c s2 _ _ _ Hcalm Htc Hc Hr) as (Hx & Ho1 & Hc1 & ok & He & ->). rewrite Htab in He. rewrite Ho.
    split; [intros _; exists short, c; split_and!; try done; by rewrite Ho1|].
    destruct ok; [right; by exists short, c|left]. split; [done|]. by apply effect_false in He.
  - injection Hr as _ <- <-. split; [by apply Hno|]. by left.
Qed.

(** Replaying a session. *)

(** The next start: the symbols are loaded and the program is stopped. *)
Definition ready s : Prop := symbols_wf (d_syms (x_dbg s)) ∧ in_debug_mode s = true.

Section replay.
Context (env : thread_call → St → St).
#[local] Abbreviation exec := (exec env).

Lemma watch_info_done i s : ready s → ∃ o s', exec (watch_info i) s = Done o s' () ∧ tables_of s' = tables_of s ∧ ready s'.
Proof.
  intros [Hss Hd]. unfold watch_info. repeat step. destruct (cpuctrl_get_data_watch_point _ _) as [[[addr size] type]|];
    [|by eexists _, s].
  assert (∃ id a ss', symbol_addr2glid addr (d_syms (x_dbg s)) = Ok (id, a, ss') ∧ symbols_wf ss' ∧
    symbol_func ss' = symbol_func (d_syms (x_dbg s)) ∧ symbols (symbol_gl ss') = symbols (symbol_gl (d_syms (x_dbg s))) ∧
    lookup_spec (symbol_gl (d_syms (x_dbg s))) addr id a) as (id & a & ss' & Hl & Hss' & Hf & Hg & Hspec).
  { destruct Hss as [Hf Hg]. destruct (table_lookup_ok addr _ Hg) as (id & a & t' & Hl & Hw & Hs & Hsp & _).
    unfold symbol_addr2glid. rewrite Hl. eexists _, _, _. by split_and!. }
  unfold look_up. repeat step. rewrite Hl. cbn [then_run]. repeat step.
  set (s' := with_dbg (with_syms ss') s).
  assert (tables_of s' = tables_of s ∧ ready s') as Hs' by (split; [by unfold tables_of; cbn; rewrite Hf, Hg|by split]).
  destruct (Z.leb_spec 0 id); [|repeat step; by eexists _, s'].
  unfold with_symbols. repeat step. change (d_syms (x_dbg s')) with ss'. unfold symbol_glid2glname. rewrite Hg.
  destruct Hspec as [(-> & _)|(sym & -> & _)]; [done|]. cbn [oob mbind outcome_bind then_run]. repeat step. by eexists _, s'.
Qed.

Lemma all_watch_info_done l s : ready s →
  ∃ o s', exec (for_each l watch_info) s = Done o s' () ∧ tables_of s' = tables_of s ∧ ready s'.
Proof.
  revert s. induction l as [|i l IH]; intros s Hs; cbn [for_each]; [by eexists _, s|].
  destruct (watch_info_done i s Hs) as (o & s1 & Hr & Ht & Hs1). destruct (IH s1 Hs1) as (o' & s2 & Hr' & Ht' & Hs2).
  rewrite exec_bind, Hr. cbn [then_run]. rewrite Hr'. eexists _, s2. split_and!; [done|by rewrite Ht'|done].
Qed.

Lemma effect_true c tb tb' : effect c tb = Ok (tb', true) → on_points c = true ∨ c = WatchInfo ∧ tb' = tb.
Proof. destruct c; try (by left); try done. intros [= <-]. by right. Qed.

(** A logged line, replayed. *)
Lemma replay_line junk short c s tb : junk_ok junk → typed c → ready s → effect c (tables_of s) = Ok (tb, true) →
  ∃ o s', exec (found ← parse_line junk (line_of short c);
      if (found : bool) then f ← get (λ s, run (parse_command (x_parser s))); run_command f else mret ()) s = Done o s' () ∧
    tables_of s' = tb ∧ ready s'.
Proof.
  intros Hj [Hwf _] Hs He. pose proof (effect_true _ _ _ He) as Hc. rewrite exec_bind.
  destruct (parse_line_typed env junk short c s Hwf Hj) as (o & arg & -> & _ & Hcmd). destruct Hs as [Hss Hd]. rewrite Hd.
  assert (eqb true (mode_of c) = true) as -> by (destruct Hc as [Hc|[-> _]]; [by destruct c|done]). cbn [then_run].
  set (s1 := with_parser _ s). assert (ready s1) as Hs1 by by split. repeat step.
  change (run (parse_command (x_parser s1))) with (run arg). pose proof Hcmd as (_ & -> & Ha).
  destruct Hc as [Hc|[-> ->]].
  - pose proof (points_run env kvm linkage print_variable print_addr print_local file_opens c s1 Hc Hcmd) as Hr.
    change (tables_of s1) with (tables_of s) in Hr. rewrite He in Hr. destruct Hr as (o2 & -> & _).
    eexists _, _. split; [done|]. apply effect_symbols in He as [Hf Hg]; [|done]. split; [|done].
    destruct tb. cbn in Hf, Hg. by subst.
  - cbn [command_fn snd DbgExecutor.run_command]. unfold exec_watch_data, args. repeat step.
    change (parse_command (x_parser s1)) with arg. cbn [has_args] in Ha. rewrite Ha. unfold dbg_std_executor_watch_data_info.
    generalize (seqZ 0 DBG_CPU_CONTROL_WATCH_DATA_SETSIZE). intros l.
    destruct (all_watch_info_done l s1 Hs1) as (o2 & s2 & Hr & Ht & Hs2). rewrite exec_bind, Hr. cbn [then_run].
    unfold ok_result. repeat step. eexists _, (set_result true s2). by split.
Qed.

Definition run_found (found : bool) : cmd () :=
  if found then f ← get (λ s, run (parse_command (x_parser s))); run_command f else mret ().
Lemma replay_cons junk line lines s :
  exec (replay junk (line :: lines)) s =
  then_run env (λ found, run_found found;; replay (λ n, junk (S n)) lines) (exec (parse_line (junk O) line) s).
Proof. apply exec_bind. Qed.

Lemma session_replays s log s' : session s log s' → repeatable (x_parser s) →
  Forall (λ l, ∃ short c, typed c ∧ fits_line l ∧ l = line_of short c) log ∧
  ∀ junk s1, (∀ n, junk_ok (junk n)) → tables_of s1 = tables_of s → ready s1 →
    ∃ o s1', exec (replay junk log) s1 = Done o s1' () ∧ tables_of s1' = tables_of s'.
Proof.
  induction 1 as [s|s s1 s' log Hv _ IH|env' junk line s o s1 saved s' log Hcalm Hj Hty Hr _ IH]; intros Hrep.
  - split; [constructor|]. intros junk s1 _ Ht _. by exists [], s1.
  - injection Hv as Hb Hw Hf Hg Hp. destruct IH as [Hl Hrun]; [by rewrite Hp|]. split; [done|].
    intros junk s2 Hj Ht. apply Hrun; [done|]. rewrite Ht. unfold tables_of. by rewrite Hb, Hw, Hf, Hg.
  - destruct (line_step _ _ _ _ _ _ _ Hcalm Hj Hty Hrep Hr) as [Hrep1 Hcase]. destruct (IH Hrep1) as [Hl Hrun]. clear IH.
    destruct Hcase as [[-> Ht]|(short & c & Htc & Hfit & -> & He)]; cbn [option_list app].
    { split; [done|]. intros junk' s2 Hj' Ht'. apply Hrun; [done|by rewrite Ht, Ht']. }
    split; [constructor; [by exists short, c|done]|]. intros junk' s2 Hj' Ht' Hready. rewrite <- Ht' in He.
    destruct (replay_line (junk' O) short c s2 _ (Hj' O) Htc Hready He) as (o2 & s3 & Hr2 & Ht3 & Hready3).
    destruct (Hrun (λ n, junk' (S n)) s3 (λ n, Hj' (S n)) Ht3 Hready3) as (o3 & s4 & Hr4 & Ht4).
    change (option_list (Some (line_of short c)) ++ log) with (line_of short c :: log). rewrite exec_bind in Hr2.
    rewrite replay_cons. destruct (exec (parse_line _ _) s2) as [o5 s5 found| | |]; cbn [then_run] in Hr2 |- *; try done.
    rewrite exec_bind. unfold run_found.
    destruct (exec (if found then _ else _) s5) as [o6 s6 []| | |] eqn:E6; cbn [after] in Hr2; try done.
    injection Hr2 as _ ->. cbn [then_run]. rewrite Hr4. eexists _, s4. by split.
Qed.
End replay.
End session.

(** The file of the log. *)

(** The log, saved line by line, as [save_cui_operation] appends them. *)
Definition saved_log (log : list (list Z)) : list Z := foldl (λ file op, save_cui_operation op file) [] log.

(** Lines that come back: no NUL, no newline, shorter than the buffer. *)
Definition plain_line (l : list Z) : Prop :=
  Forall (λ c, c ≠ NUL ∧ c ≠ NEWLINE) l ∧ zlen l < OPLOG_BUFFER - 1.

Lemma cstring_plain l : Forall (λ c, c ≠ NUL ∧ c ≠ NEWLINE) l → cstring l = l.
Proof.
  induction 1 as [|c l [Hc _] _ IH]; [done|]. cbn [cstring]. destruct (Z.eqb_spec c NUL); [done|]. by rewrite IH.
Qed.
Lemma cstring_plain_line l : Forall (λ c, c ≠ NUL ∧ c ≠ NEWLINE) l → cstring (l ++ [NEWLINE]) = l ++ [NEWLINE].
Proof.
  induction 1 as [|c l [Hc _] _ IH]; [done|]. cbn [cstring app]. destruct (Z.eqb_spec c NUL); [done|]. by rewrite IH.
Qed.

Lemma fgets_line l rest n : Forall (λ c, c ≠ NUL ∧ c ≠ NEWLINE) l → (length l < n)%nat →
  fgets n (l ++ NEWLINE :: rest) = (l ++ [NEWLINE], rest).
Proof.
  intros Hl. revert n. induction Hl as [|c l [_ Hc] _ IH]; intros [|n] Hn; cbn in Hn; try lia; cbn [fgets app].
  - done.
  - destruct (Z.eqb_spec c NEWLINE); [done|]. by rewrite (IH n) by lia.
Qed.
Lemma strip_line l : Forall (λ c, c ≠ NUL ∧ c ≠ NEWLINE) l → strip_newline (l ++ [NEWLINE]) = l.
Proof.
  intros Hl. unfold strip_newline. rewrite cstring_plain_line by done. rewrite last_snoc, Z.eqb_refl. apply removelast_last.
Qed.

Definition log_file (log : list (list Z)) : list Z := concat ((λ l, l ++ [NEWLINE]) <$> log).
Lemma saved_log_file log : Forall plain_line log → saved_log log = log_file log.
Proof.
  assert (Hg : ∀ file, Forall plain_line log → foldl (λ file op, save_cui_operation op file) file log = file ++ log_file log).
  { induction log as [|l log IH]; intros file Hl; [by rewrite app_nil_r|]. apply Forall_cons in Hl as [[Hp _] Hl].
    cbn [foldl]. rewrite IH by done. unfold save_cui_operation, log_file. cbn [fmap list_fmap concat].
    rewrite cstring_plain by done. by rewrite <- !app_assoc. }
  apply (Hg []).
Qed.

(** The loop reads back the lines the log was given. *)
Lemma oplog_lines_saved log fuel : Forall plain_line log → (length (log_file log) ≤ fuel)%nat →
  oplog_lines fuel (log_file log) = log.
Proof.
  intros Hl. revert fuel. induction Hl as [|l log [Hp Hlen] _ IH]; intros fuel Hf; [by destruct fuel|].
  unfold log_file in *. cbn [fmap list_fmap concat] in *. rewrite <- app_assoc in *. cbn [app] in *.
  rewrite length_app in Hf. cbn [length] in Hf.
  destruct fuel as [|fuel]; [lia|]. unfold oplog_lines; fold oplog_lines.
  destruct (l ++ NEWLINE :: _) eqn:E; [by destruct l|]. rewrite <- E. clear E.
  rewrite fgets_line; [|done|]. 2: { unfold zlen, OPLOG_BUFFER in *. lia. }
  rewrite strip_line by done. f_equal. apply IH. lia.
Qed.

Lemma word_plain w : is_word w → Forall (λ c, c ≠ NUL ∧ c ≠ NEWLINE) w.
Proof.
  intros (_ & Hd & _). eapply Forall_impl; [exact Hd|]. intros c Hc. split; intros ->; by vm_compute in Hc.
Qed.
Lemma join_plain ws : Forall is_word ws → Forall (λ c, c ≠ NUL ∧ c ≠ NEWLINE) (join ws).
Proof.
  induction 1 as [|w ws Hw Hws IH]; [constructor|]. destruct ws as [|w' ws]; [by apply word_plain|].
  change (join (w :: w' :: ws)) with (w ++ 32 :: join (w' :: ws)). apply Forall_app. split; [by apply word_plain|].
  by constructor.
Qed.

Section oplog.
Context {D T : Type} `{MpuConfig D} `{Target T}.
#[local] Abbreviation St := (exec_state D T).
Context (kvm : list KeyValueMappingType) (linkage : list Z → list Z → option (list Z)).
Context (print_variable : list Z → Z → option (nat * Z) → Z → cmd St bool)
  (print_addr : Z → option (nat * Z) → list Z → list Z → cmd St bool) (print_local : list Z → cmd St bool).
Context (file_opens : bool).

(** C22: The operation log round trip: a debugging session, of any length, with the CPU running
    in between and with empty lines repeating the last command, leaves a log of the commands
    that succeeded; when the log is loaded at the next start, with the same tables as the
    session began with and the program stopped, every line is read back and run, and the
    break points and watch points are exactly those the session ended with. ([return] is
    not typed: its temporary break point is not meant to be restored.) *)
Theorem oplog_replay_restores env junk (s s' s1 : St) log :
  session kvm linkage print_variable print_addr print_local file_opens s log s' → repeatable (x_parser s) →
  (∀ n, junk_ok (junk n)) → tables_of s1 = tables_of s → ready s1 →
  ∃ o s1', exec env (load_cui_operation kvm linkage print_variable print_addr print_local file_opens junk (saved_log log)) s1 =
      Done o s1' () ∧ d_breaks (x_dbg s1') = d_breaks (x_dbg s') ∧ d_watches (x_dbg s1') = d_watches (x_dbg s').
Proof.
  intros Hs Hrep Hj Ht Hr.
  destruct (session_replays kvm linkage print_variable print_addr print_local file_opens env s log s' Hs Hrep) as [Hl Hrun].
  assert (Forall plain_line log) as Hp.
  { eapply Forall_impl; [exact Hl|]. intros l (short & c & [Hwf _] & Hfit & ->). split; [|done].
    apply join_plain. by eapply spell_words. }
  unfold load_cui_operation. rewrite saved_log_file, oplog_lines_saved by (done || lia).
  destruct (Hrun junk s1 Hj Ht Hr) as (o & s1' & Ho & Ht'). exists o, s1'. injection Ht' as ????. by split_and!.
Qed.
End oplog.

(** ** A session on the program of the earlier files *)

Module SessionDemo.
#[local] Existing Instance MpuDemo.config.
#[local] Instance target : Target () := {|
  CPU_CONFIG_CORE_NUM := 1; cpu_config_get_core_id_num := 1; cpu_get_current_core_id := λ _, 0;
  cpu_get_return_addr := λ _ _, 0x208; dbg_serial_in := λ _ _ t, (STD_E_OK, t); total_clocks := λ _, 0;
  intr_clocks := λ _, 0; cpu_clocks := λ _, [0]; elaps_time := λ _, 0 |}.
#[local] Abbreviation St := (exec_state () ()).

Definition junk : stack_junk := mkJunk zero_tokens zero_line zero_line.
Definition stopped : run_state :=
  mkRun [mkCont false 0] (mkStopped true 0) DBG_CPUCTRL_DBG_MODE_NORMAL [true].
Definition no_command : DbgCmdExecutorType :=
  mkExec DBG_CMD_STD_ID_PARSE_ERROR [] A_Zero dbg_std_executor_parse_error false.
Definition start : St :=
  mkX (with_run stopped CallbackDemo.dbg) MpuDemo.mpu () false false (mkParser false no_command).
Definition idle (c : thread_call) (s : St) : St := s.
Definition no_linkage (c m : list Z) : option (list Z) := None.
Definition silent : cmd St bool := mret true.

Lemma junk_fine : junk_ok junk.
Proof. split; [apply zero_tokens_wf|done]. Qed.
Lemma start_wf : dbg_wf 1 (x_dbg start).
Proof. by destruct CallbackDemo.dbg_ok. Qed.

Lemma start_inv : dbg_inv 1 (x_dbg start) ∧ break_counted (d_breaks (x_dbg start)).
Proof. pose proof (proj1 (dbg_wf_inv _ _) start_wf) as [Hi Hp]. split; [done|apply Hp]. Qed.
Lemma typed_break_witness :
  let cli := do_cui_line [] no_linkage (λ _ _ _ _, silent) (λ _ _ _ _, silent) (λ _, silent) false junk in
  ∃ o s' o1 s1 saved, exec idle (cli (str_of "b 0x210")) start = Done o s' (Some (str_of "b 0x210")) ∧
    last o = Some (Reply [Lit "OK"]) ∧
    exec idle (cli (str_of "cont")) s' = Done o1 (idle dbg_wakeup_cpu s1) saved ∧
    in_debug_mode s1 = false ∧ dbg_inv 1 (x_dbg s1) ∧
    ∀ core_id st pc, 0 ≤ core_id < 1 → dbg_inv 1 st → d_breaks st = d_breaks (x_dbg s1) →
      controlled core_id (d_run st) → ¬ timed_out core_id (d_run st) → cpuctrl_is_debug_mode (d_run st) = false →
      ∃ stop st', dbg_notify_cpu_clock_supply_start core_id pc st = Ok (stop, st') ∧
        (pc = 0x210 ∨ stops_at (d_breaks (x_dbg start)) pc → stop = true) ∧
        (stop = true → pc = 0x210 ∨ ∃ i, cpuctrl_get_break i (d_breaks (x_dbg start)) = Some pc) ∧
        (stop = true → cpuctrl_get_current_debugged_core (d_run st') = Some core_id).
Proof.
  refine (typed_break_stops [] no_linkage (λ _ _ _ _, silent) (λ _ _ _ _, silent) (λ _, silent) false idle junk junk true false 0x210
    start 1 _ _ junk_fine junk_fine (proj1 start_inv) (proj2 start_inv) _ eq_refl _); [by vm_compute|done|done|].
  exists 5. by eexists.
Defined.

#[local] Abbreviation cli := (do_cui_line [] no_linkage (λ _ _ _ _, silent) (λ _ _ _ _, silent) (λ _, silent) false junk).

(** Typed and run: the core goes on at 0x20e and stops at 0x210 and at the point set before. *)
Example typed_break_values :
  match exec idle (cli (str_of "b 0x210")) start with
  | Done _ s' _ =>
      match exec idle (cli (str_of "cont")) s' with
      | Done _ s1 _ => (λ pc, fst <$> dbg_notify_cpu_clock_supply_start 0 pc (x_dbg s1)) <$> [0x208; 0x20e; 0x210; 0x212]
      | _ => []
      end
  | _ => []
  end = [Ok true; Ok false; Ok true; Ok false].
Proof. by vm_compute. Qed.

Definition is_done {A} (r : result St A) : bool := match r with Done _ _ _ => true | _ => false end.
Lemma is_done_inv {A} (r : result St A) : is_done r = true → ∃ o s a, r = Done o s a.
Proof. destruct r; try done. by eexists _, _, _. Qed.

(** Taking core 0, the only one, out of control is undone. *)
Lemma some_core_witness :
  ∃ o s' saved, exec idle (cli (str_of "core 0 f")) start = Done o s' saved ∧ held s'.
Proof.
  destruct (is_done_inv (exec idle (cli (str_of "core 0 f")) start)) as (o & s' & saved & Hr); [by vm_compute|].
  exists o, s', saved. split; [exact Hr|].
  refine (some_core_stays_controlled [] no_linkage (λ _ _ _ _, silent) (λ _ _ _ _, silent) (λ _, silent)
    false idle _ _ _ _ junk true (CoreSet 0 false) start o s' saved _ junk_fine Hr _).
  - done.
  - by intros ???? ? * [= _ <- _].
  - by intros ???? ? * [= _ <- _].
  - by intros ? ? * [= _ <- _].
  - clear Hr. done.
  - clear Hr. by exists 0.

Defined.

Lemma calm_idle : calm (λ _ _ _ _, silent) (λ _ _ _ _, silent) (λ _, silent) idle.
Proof. split; [done|..]; intros; by intros ? * [= _ <- _]. Qed.

(** Type commands in their short form; [None] is the empty line. *)
Definition line_for (c : option command) : list Z := match c with Some c => line_of true c | None => [] end.
Fixpoint type_all (cs : list (option command)) (s : St) : option (list (list Z) * St) :=
  match cs with
  | [] => Some ([], s)
  | c :: cs =>
      if match c with Some _ => true | None => last_command (x_parser s) end then
        match exec idle (cli (line_for c)) s with
        | Done _ s1 saved =>
            match type_all cs s1 with Some (log, s2) => Some (option_list saved ++ log, s2) | None => None end
        | _ => None
        end
      else None
  end.
#[local] Abbreviation typed := (typed (D := ()) (T := ())).

Lemma type_all_session cs s log s' :
  Forall (λ c, match c with Some c => typed c ∧ fits_line (line_of true c) | None => True end) cs →
  type_all cs s = Some (log, s') →
  session [] no_linkage (λ _ _ _ _, silent) (λ _ _ _ _, silent) (λ _, silent) false s log s'.
Proof.
  intros Hc. revert s log. induction Hc as [|c cs Hc _ IH]; intros s log Hr.
  { injection Hr as <- <-. constructor. }
  cbn [type_all] in Hr. destruct (match c with Some _ => true | None => _ end) eqn:Hok; [|done].
  destruct (exec idle _ s) as [o s1 saved| | |] eqn:E; try done.
  destruct (type_all cs s1) as [[log1 s2]|] eqn:E1; [|done]. injection Hr as <- <-.
  eapply (session_line _ _ _ _ _ _ idle junk (line_for c)); [apply calm_idle|apply junk_fine| |exact E|by apply IH].
  destruct c as [c|]; [left|by right]. exists true, c. split_and!; [apply Hc|done|apply Hc].
Qed.

(** Set a watch point, delete the break points, list the watch points, and that again by an
    empty line: all four lines are logged. *)
Definition script : list (option command) := [Some (WatchAddr WatchRw 0x100 4); Some (Delete None); Some WatchInfo; None].
Definition log : list (list Z) :=
  [str_of "w rw 0x100 4"; str_of "d"; str_of "info watch"; str_of "info watch"].

Lemma script_typed :
  Forall (λ c, match c with Some c => typed c ∧ fits_line (line_of true c) | None => True end) script.
Proof. repeat constructor; try done; by vm_compute. Qed.
Lemma script_log : fst <$> type_all script start = Some log.
Proof. by vm_compute. Qed.

Lemma oplog_witness :
  ∃ s', session [] no_linkage (λ _ _ _ _, silent) (λ _ _ _ _, silent) (λ _, silent) false start log s' ∧
    ∃ o s1', exec idle (load_cui_operation [] no_linkage (λ _ _ _ _, silent) (λ _ _ _ _, silent) (λ _, silent) false
        (λ _, junk) (saved_log log)) start = Done o s1' () ∧
      d_breaks (x_dbg s1') = d_breaks (x_dbg s') ∧ d_watches (x_dbg s1') = d_watches (x_dbg s').
Proof.
  destruct (type_all script start) as [[l s']|] eqn:E; [|exfalso; pose proof script_log as Hl; by rewrite E in Hl].
  assert (l = log) as -> by (pose proof script_log as Hl; rewrite E in Hl; by injection Hl).
  pose proof (type_all_session _ _ _ _ script_typed E) as Hs. clear E. exists s'. split; [exact Hs|].
  refine (oplog_replay_restores [] no_linkage (λ _ _ _ _, silent) (λ _ _ _ _, silent) (λ _, silent) false idle (λ _, junk)
    start s' start log Hs _ (λ _, junk_fine) eq_refl _).
  - clear Hs. intros [=].
  - clear Hs. split; [exact (dw_syms _ _ start_wf)|done].
Defined.

(** A function entered with a stack pointer that lies in no variable: the trace asks for the
    name of variable -1. *)
Definition strayed : outcome St :=
  '(ss, t) ← cpuctrl_set_func_log_trace 0x208 0x10 CallbackDemo.syms ControlDemo.log_init;
  Ok (with_dbg (λ d, mkDbg (d_breaks d) (d_watches d) (d_run d) ss (d_access d) [t] (d_prof d) (d_frames d) (current_pc d)
    (current_funcid d) (current_sp d)) start).
Lemma func_trace_faults :
  ∃ s o, strayed = Ok s ∧ exec idle (cli (str_of "ft 1")) s = Crash o OutOfBounds.
Proof. eexists _, _. split; [reflexivity|]. vm_compute. reflexivity. Qed.
End SessionDemo.
