(* ===== verification/DwarfPrint.v ===== *)
(** * Printing typed variables

    [src/src/debugger/executor/concrete_executor/util/dbg_print_data_type.c]: the debugger's
    [print] shows a variable, a local variable or the memory at an address by its data type;
    [src/src/lib/dwarf/elf_dwarf_loc.c]: where a local variable lies when the CPU is at a pc.

    These are the parameters [print_variable_with_data_type], [print_addr_with_data_type] and
    [print_local_variable_type] of [DbgExecutor], whose monad they use.  The array printer
    keeps its indices in a static stack, one array of indices per nesting level that it
    refills on entry: here every call has its own.

    Parameters: what [printf] shows for a null [%s], the text of a floating point number, the
    pc and the registers of the current core, and what a variable that is never set holds. *)

From Stdlib Require Import String Ascii.
From S2P Require Import Prelude SymbolOps CpuControl CpuCallback Mpu Bus Token DbgParser ElfImageCheck ElfSection DwarfLine DwarfInfo DwarfType Containers DbgExecutor.
Open Scope Z_scope.

(** The encodings of base types. *)
Definition DW_ATE_address : Z := 1.
Definition DW_ATE_boolean : Z := 2.
Definition DW_ATE_float : Z := 4.
Definition DW_ATE_signed : Z := 5.
Definition DW_ATE_signed_char : Z := 6.
Definition DW_ATE_unsigned : Z := 7.
Definition DW_ATE_unsigned_char : Z := 8.

(** A [w]-bit value read as signed. *)
Definition signed (w x : Z) : Z := wrap w (x + 2 ^ (w - 1)) - 2 ^ (w - 1).

(** ** The indices of an array element *)

(** One more in the last place; the first index does not wrap.  The lists start with the last
    place. *)
Fixpoint carry (dims dimension : list Z) : list Z :=
  match dims, dimension with
  | [d], _ => [u32 (d + 1)]
  | d :: dims', n :: dimension' =>
      if n <=? u32 (d + 1) then 0 :: carry dims' dimension' else u32 (d + 1) :: dims'
  | _, _ => dims
  end.
Definition next_index (dims dimension : list Z) : list Z := rev (carry (rev dims) (rev dimension)).

(** The number of elements, an [int]. *)
Fixpoint element_count (total_num : Z) (dimension : list Z) : Z :=
  match dimension with
  | [] => total_num
  | n :: dimension' => element_count (s32 (u32 (u32 total_num * n))) dimension'
  end.

Section reader.
Context {D T : Type} `{MpuConfig D} `{Target T}.
#[local] Abbreviation cmd := (cmd (exec_state D T)).

Definition printf (text : list piece) : cmd () := tell (Unfinished text).
(** The value of [n] bytes at [top_addr[off]]. *)
Definition peek (top_addr : option (nat * Z)) (off n : Z) : cmd Z :=
  bs ← host_read (prod_map id (λ o, o + off) <$> top_addr) n; mret (le_val bs).
(** A value of one, two or four bytes, and 0 for any other size. *)
Definition scalar (top_addr : option (nat * Z)) (off size : Z) : cmd Z :=
  if (size =? 1) || (size =? 2) || (size =? 4) then peek top_addr off size else mret 0.

Record PrintControlType := mkCtrl { vaddr : Z; ctrl_level : Z }.
Definition deeper (ctrl : PrintControlType) : PrintControlType := mkCtrl (vaddr ctrl) (u32 (ctrl_level ctrl + 1)).
Definition print_space (ctrl : PrintControlType) : cmd () :=
  for_each (seqZ 0 (ctrl_level ctrl)) (λ _, printf [Lit "  "]).
(** Where a value is. *)
Definition address_text (ctrl : PrintControlType) (off : Z) : list piece :=
  [Lit " @ 0x"; Hex (uaddr (vaddr ctrl + off)); Lit "(0x"; Hex off; Lit ")"].

(** ** Base types *)

Definition print_base_type_address (addr : option (nat * Z)) (off size : Z) : cmd () :=
  value ← peek addr off 4; printf [Lit "0x"; Hex value].
Definition print_base_type_boolean (addr : option (nat * Z)) (off size : Z) : cmd () :=
  value ← scalar addr off size; printf [Lit (if value =? 0 then "FALSE" else "TRUE")].
Definition print_base_type_signed (addr : option (nat * Z)) (off size : Z) : cmd () :=
  if size =? 8 then value64 ← peek addr off 8; printf [Dec (signed 64 value64)]
  else
    raw ← scalar addr off size;
    let value := if size =? 1 then signed 8 raw else if size =? 2 then signed 16 raw else signed 32 raw in
    printf [Dec value];;
    if size =? 1 then printf [Lit "("; Char (u8 value); Lit ")"] else mret ().
Definition print_base_type_unsigned (addr : option (nat * Z)) (off size : Z) : cmd () :=
  if size =? 8 then value64 ← peek addr off 8; printf [Dec value64]
  else value ← scalar addr off size; printf [Dec value].

Context (float_text : Z → Z → list Z) (printf_null : outcome (list Z)).
Context (data : list Z) (store : list ElfDwarfDieType) (sets : type_set).

Definition print_base_type_float (addr : option (nat * Z)) (off size : Z) : cmd () :=
  if (size =? 4) || (size =? 8) then value ← peek addr off size; printf [Chars (float_text size value)]
  else mret ().

(** A [%s]. *)
Definition show (c : option charp) : cmd piece :=
  s ← lift (match c with Some c => text data c | None => printf_null end); mret (Chars s).

Definition print_base_type_data (ctrl : PrintControlType) (i : DwarfDataType) (encoding : Z)
    (addr : option (nat * Z)) (off : Z) : cmd () :=
  let type_size := t_size i in
  (if encoding =? DW_ATE_address then print_base_type_address addr off type_size
   else if encoding =? DW_ATE_boolean then print_base_type_boolean addr off type_size
   else if (encoding =? DW_ATE_signed) || (encoding =? DW_ATE_signed_char) then print_base_type_signed addr off type_size
   else if (encoding =? DW_ATE_unsigned) || (encoding =? DW_ATE_unsigned_char) then print_base_type_unsigned addr off type_size
   else if encoding =? DW_ATE_float then print_base_type_float addr off type_size
   else printf [Lit "Unknown base type"]);;
  n ← show (t_typename i);
  say ([Lit " ("; n; Lit ":"; Dec type_size; Lit ")"] ++ address_text ctrl off).

(** ** Names and sizes of referenced types

    Recursion is on the C stack: the fuel is one more than there are types, so that running out
    of it means that a type has been entered within itself, which fills the stack.  What that
    does is not defined. *)

Definition depth : nat := S (length (concat (map (λ '(_, l), default [] l) sets))).

Fixpoint print_ref_typename (fuel : nat) (p : type_ptr) : cmd () :=
  match fuel with
  | O => lift (Fault OutOfBounds)
  | S fuel' =>
      t ← lift (type_at p sets);
      match t_type (info t), body t with
      | DATA_TYPE_BASE, _ | DATA_TYPE_TYPEDEF, _ => n ← show (t_typename (info t)); printf [n]
      | DATA_TYPE_ENUM, _ => n ← show (t_typename (info t)); printf [Lit "enum "; n]
      | DATA_TYPE_STRUCT, _ => n ← show (t_typename (info t)); printf [Lit "struct "; n]
      | DATA_TYPE_POINTER, PointerType l =>
          match ref l with
          | None => printf [Lit "Unknown type"]
          | Some q => print_ref_typename fuel' q;; printf [Lit " *"]
          end
      | _, _ => mret ()
      end
  end.

Fixpoint get_ref_typesize (fuel : nat) (p : type_ptr) : outcome Z :=
  match fuel with
  | O => Fault OutOfBounds
  | S fuel' =>
      t ← type_at p sets;
      match t_type (info t), body t with
      | DATA_TYPE_BASE, _ | DATA_TYPE_ENUM, _ | DATA_TYPE_POINTER, _ | DATA_TYPE_STRUCT, _ | DATA_TYPE_ARRAY, _ =>
          Ok (t_size (info t))
      | DATA_TYPE_TYPEDEF, TypedefType l =>
          match ref l with
          | None => Fault NullDeref
          | Some q => get_ref_typesize fuel' q
          end
      | _, _ => Ok 0
      end
  end.

(** ** The other types *)

Definition print_pointer_type_data (ctrl : PrintControlType) (p : type_ptr) (i : DwarfDataType)
    (top_addr : option (nat * Z)) (off : Z) : cmd () :=
  printf [Lit "("];;
  print_ref_typename depth p;;
  printf [Lit ": "; Dec (t_size i); Lit " )"];;
  value ← peek top_addr off 4;
  printf [Lit " 0x"; Hex value];;
  say (Lit " " :: address_text ctrl off).

Definition print_enum_type_data (ctrl : PrintControlType) (i : DwarfDataType) (members : option (list DwarfDataEnumMember))
    (top_addr : option (nat * Z)) (off : Z) : cmd () :=
  let type_size := t_size i in
  if (type_size =? 1) || (type_size =? 2) || (type_size =? 4) then
    value ← peek top_addr off type_size;
    l ← lift (match members with None => Fault NullDeref | Some l => Ok l end);
    match List.find (λ memp, const_value memp =? value) l with
    | Some memp =>
        n ← show (t_typename i);
        m ← show (em_name memp);
        printf [n; Lit "."; m; Lit "("; Dec (s32 (const_value memp)); Lit ")"];;
        say (Lit " " :: address_text ctrl off)
    | None => say [Lit "unknown enum"]
    end
  else say [Lit "unknown enum"].

Section printers.
(** [print_any_data_type]. *)
Context (print_any : PrintControlType → type_ptr → option (nat * Z) → Z → cmd bool).

(** A call with a reference that may be NULL. *)
Definition print_ref (ctrl : PrintControlType) (r : option type_ptr) (top_addr : option (nat * Z)) (off : Z) : cmd bool :=
  match r with None => lift (Fault NullDeref) | Some q => print_any ctrl q top_addr off end.

Definition print_struct_member (ctrl : PrintControlType) (top_addr : option (nat * Z)) (off : Z) (memp : DwarfDataStructMember) : cmd () :=
  print_space ctrl;;
  n ← show (m_name memp);
  printf [n; Lit " = "];;
  print_ref ctrl (ref (m_link memp)) top_addr (u32 (off + m_off memp));;
  mret ().
Definition print_struct_type_data (ctrl : PrintControlType) (i : DwarfDataType) (members : option (list DwarfDataStructMember))
    (top_addr : option (nat * Z)) (off : Z) : cmd () :=
  n ← show (t_typename i);
  say [Lit "struct "; n; Lit " { "];;
  l ← lift (match members with None => Fault NullDeref | Some l => Ok l end);
  for_each l (print_struct_member ctrl top_addr off);;
  print_space ctrl;;
  say [Lit "}"].

Definition print_class_member (ctrl : PrintControlType) (top_addr : option (nat * Z)) (off : Z) (memp : DwarfDataStructMember) : cmd () :=
  print_space ctrl;;
  match ref (m_link memp), m_linkage_name memp with
  | Some q, _ =>
      n ← show (m_name memp);
      printf [n; Lit " = "];;
      print_any ctrl q top_addr (u32 (off + m_off memp));;
      mret ()
  | None, Some linkage_name =>
      n ← show (m_name memp);
      printf [n; Lit " = "];;
      s ← show (Some linkage_name);
      say [s]
  | None, None => mret ()
  end.
Definition print_class_type_data (ctrl : PrintControlType) (i : DwarfDataType) (members : option (list DwarfDataStructMember))
    (top_addr : option (nat * Z)) (off : Z) : cmd () :=
  n ← show (t_typename i);
  say [Lit "class "; n; Lit " { "];;
  for_each (default [] members) (print_class_member ctrl top_addr off);;
  print_space ctrl;;
  say [Lit "}"].

Definition print_typedef_type_data (ctrl : PrintControlType) (i : DwarfDataType) (l : type_link)
    (top_addr : option (nat * Z)) (off : Z) : cmd () :=
  n ← show (t_typename i);
  match ref l with
  | None => say [Lit "ERROR:not found die ref (typedef "; n; Lit " )... please use resolved type."]
  | Some q => printf [Lit "(typedef "; n; Lit " )"];; print_any ctrl q top_addr off;; mret ()
  end.

(** One element, shown with its indices. *)
Definition print_element (ctrl : PrintControlType) (q : type_ptr) (top_addr : option (nat * Z)) (off roff : Z) (dims : list Z) : cmd () :=
  print_space ctrl;;
  printf [Lit "  "];;
  for_each dims (λ d, printf [Lit "["; Dec d; Lit "]"]);;
  printf [Lit " = "];;
  print_any (deeper ctrl) q top_addr (u32 (off + roff));;
  mret ().
(** The elements from number [j] on, [dims] being the indices of that number. *)
Fixpoint print_elements (ctrl : PrintControlType) (q : type_ptr) (dimension : list Z) (typesize : Z)
    (top_addr : option (nat * Z)) (off : Z) (js : list Z) (dims : list Z) : cmd () :=
  match js with
  | [] => mret ()
  | j :: js =>
      print_element ctrl q top_addr off (u32 (j * typesize)) dims;;
      print_elements ctrl q dimension typesize top_addr off js (next_index dims dimension)
  end.
Definition print_array_type_data (ctrl : PrintControlType) (l : type_link) (dimension : list Z)
    (top_addr : option (nat * Z)) (off : Z) : cmd () :=
  q ← lift (match ref l with None => Fault NullDeref | Some q => Ok q end);
  size ← lift (get_ref_typesize depth q);
  let typesize := s32 size in
  print_space ctrl;;
  printf [Lit "( "];;
  print_ref_typename depth q;;
  say [Lit " ) = { "];;
  print_elements ctrl q dimension typesize top_addr off (seqZ 0 (element_count 1 dimension)) (replicate (length dimension) 0);;
  print_space ctrl;;
  say [Lit "}"].
End printers.

Fixpoint print_any_data_type (fuel : nat) (ctrl : PrintControlType) (obj : type_ptr) (top_addr : option (nat * Z)) (off : Z)
    : cmd bool :=
  match fuel with
  | O => lift (Fault OutOfBounds)
  | S fuel' =>
      t ← lift (type_at obj sets);
      match t_type (info t), body t with
      | DATA_TYPE_BASE, BaseType encoding => print_base_type_data ctrl (info t) encoding top_addr off;; mret true
      | DATA_TYPE_ENUM, EnumType members => print_enum_type_data ctrl (info t) members top_addr off;; mret false
      | DATA_TYPE_POINTER, PointerType _ => print_pointer_type_data ctrl obj (info t) top_addr off;; mret true
      | DATA_TYPE_TYPEDEF, TypedefType l =>
          print_typedef_type_data (print_any_data_type fuel') ctrl (info t) l top_addr off;; mret true
      | DATA_TYPE_STRUCT, StructType members =>
          print_struct_type_data (print_any_data_type fuel') (deeper ctrl) (info t) members top_addr off;; mret true
      | DATA_TYPE_CLASS, StructType members =>
          print_class_type_data (print_any_data_type fuel') (deeper ctrl) (info t) members top_addr off;; mret true
      | DATA_TYPE_ARRAY, ArrayType l dimension =>
          print_array_type_data (print_any_data_type fuel') ctrl l dimension top_addr off;; mret true
      | _, _ => mret false
      end
  end.

(** ** Variables and addresses *)

Definition print_variable_with_data_type (variable_name : list Z) (vaddr : Z) (top_addr : option (nat * Z)) (size : Z) : cmd bool :=
  v ← lift (dwarf_search_data_type data DATA_TYPE_VARIABLE variable_name sets);
  match v with
  | None => mret false
  | Some v =>
      variable ← lift (type_at v sets);
      match body variable with
      | VariableType l =>
          match ref l with
          | None => mret false
          | Some q =>
              t ← lift (type_at q sets);
              d ← lift (oob (store !! t_die (info t)));
              ty ← lift (dwarf_search_data_type_from_die store (t_type (info t)) (d_offset d) sets);
              match ty with
              | None => mret false
              | Some ty =>
                  printf [Chars variable_name; Lit " = "];;
                  print_any_data_type depth (mkCtrl vaddr 0) ty top_addr 0
              end
          end
      | _ => mret false
      end
  end.

Definition print_addr_with_data_type (vaddr : Z) (top_addr : option (nat * Z)) (dataType dataTypeName : list Z) : cmd bool :=
  let c := default NUL (head dataType) in
  let kind := if c =? 115 then DATA_TYPE_STRUCT else if c =? 99 then DATA_TYPE_CLASS else DATA_TYPE_TYPEDEF in
  ty ← lift (dwarf_search_data_type data kind dataTypeName sets);
  match ty with
  | None => say [Lit "Not Found Type: "; Chars dataType; Lit " "; Chars dataTypeName];; mret false
  | Some ty => print_any_data_type depth (mkCtrl vaddr 0) ty top_addr 0
  end.

(** ** Local variables *)

Definition DW_OP_breg0 : Z := 0x70.
Definition DW_OP_breg31 : Z := 0x8f.
Definition DW_OP_fbreg : Z := 0x91.

(** The entry of a location list whose addresses, counted from [off] on, hold the pc.  Links
    lead forward ([DwarfPrintFacts.location_found]): a list has no more entries than there are. *)
Fixpoint loc_of_pc (fuel : nat) (l : list ElfDwarfLocEntryType) (loc : option nat) (pc off : Z) : outcome (option ElfDwarfLocEntryType) :=
  match fuel with
  | O => Fault Hang
  | S fuel' =>
      match loc with
      | None => Ok None
      | Some i =>
          e ← oob (l !! i);
          let range := u32 (relativeAddress1 e - relativeAddress0 e) in
          if (off <=? pc) && (pc <? u32 (off + range)) then Ok (Some e)
          else loc_of_pc fuel' l (next e) pc (u32 (off + range))
      end
  end.

Context (cpu_get_current_core_pc : T → Z) (cpu_get_current_core_register : Z → T → Z).
Context (elf_dwarf_loc_lists : option (list ElfDwarfLocEntryType)) (junk : Z).

Definition elf_dwarf_loc_compile_fbreg (frame_loc_offset : Z) (location : ElfDwarfAttributeType) (pc funcaddr : Z) : cmd Z :=
  l ← lift (match elf_dwarf_loc_lists with None => Fault NullDeref | Some l => Ok l end);
  loc ← lift (search_location_entry l frame_loc_offset);
  lift (assert_c (bool_decide (is_Some loc)));;
  ops ← lift (enc_ops (encoded location));
  '(value1, _) ← lift (elf_dwarf_decode_sleb128 data (ops + 1));
  say [Lit "value1="; Dec value1];;
  say [Lit "pc=0x"; Hex pc; Lit " funcaddr=0x"; Hex funcaddr];;
  loc ← lift (loc_of_pc (S (length l)) l loc pc funcaddr);
  e ← lift (match loc with None => Fault AssertFail | Some e => Ok e end);
  blocks ← lift (match blocks e with None => Fault NullDeref | Some b => Ok b end);
  op ← lift (elf_byte data blocks);
  if (DW_OP_breg0 <=? op) && (op <=? DW_OP_breg31) then
    '(value2, _) ← lift (elf_dwarf_decode_sleb128 data (blocks + 1));
    reg ← get (λ s, cpu_get_current_core_register (op - DW_OP_breg0) (x_tgt s));
    let regData := u32 (reg + value1 + value2) in
    say [Lit "vaddr=0x"; Hex regData];; mret regData
  else
    say [Lit "not supported: elf_dwarf_loc_compile_fbreg:op=0x"; Hex op];;
    lift (Fault AssertFail).

(** Whether to print, and the address when it is set. *)
Definition printLocalValueV850 (frame_loc_offset : Z) (localVariable : DwarfLocalVariableType) (pc funcaddr : Z)
    : cmd (bool * option Z) :=
  match lv_location localVariable with
  | None =>
      n ← show (lv_name localVariable);
      say [Lit "Not Supported: DW_AT_location symbol="; n];; mret (false, None)
  | Some location =>
      if at_type location =? DW_FORM_block1 then
        ops ← lift (enc_ops (encoded location));
        op ← lift (elf_byte data ops);
        if op =? DW_OP_fbreg then
          vaddr ← elf_dwarf_loc_compile_fbreg frame_loc_offset location pc funcaddr; mret (true, Some vaddr)
        else say [Lit "not supported ops[0]=0x"; Hex op];; mret (true, None)
      else say [Lit "Not Supported: DW_AT_location form=0x"; Hex (at_type location)];; mret (false, None)
  end.

Definition print_local_variable_type (variable_name : list Z) : cmd bool :=
  pc ← get (λ s, u32 (cpu_get_current_core_pc (x_tgt s)));
  '(funcId, funcaddr) ← look_up (symbol_pc2funcid pc);
  if funcId <? 0 then say [Lit "not found pc=0x"; Hex pc];; mret false
  else
    func_Name ← with_symbols (symbol_funcid2funcname funcId);
    say [Lit "func="; Chars func_Name];;
    o ← lift (elf_dwarf_search_subprogram data func_Name sets);
    match o with
    | None => mret false
    | Some p =>
        subprogram ← lift (type_at p sets);
        match body subprogram with
        | SubprogramType frame_loc_offset variables =>
            v ← lift (elf_dwarf_search_local_variable data variables variable_name);
            match v with
            | None => say [Lit "ERROR not found local_val="; Chars variable_name];; mret false
            | Some localVariable =>
                n ← show (lv_name localVariable);
                say [Lit "val="; n];;
                '(needPrint, vaddr) ← printLocalValueV850 frame_loc_offset localVariable pc (u32 funcaddr);
                if (needPrint : bool) then
                  let vaddr := u32 (default junk vaddr) in
                  '(_, top_addr) ← cpuemu_get_addr_pointer vaddr;
                  printf [Chars variable_name; Lit " = "];;
                  print_ref (print_any_data_type depth) (mkCtrl vaddr 0) (ref (lv_link localVariable)) top_addr 0
                else mret false
            end
        | _ => mret false
        end
    end.
End reader.
