(* ===== verification/DwarfPrintFacts.v ===== *)
(** * Properties of the printing of typed variables

    An array is printed in row-major order ([array_printed_row_major]); a value of a type whose
    references lead somewhere is printed without a fault and without a change of the state
    ([printable_is_printed]); the search for the location of a local variable ends
    ([location_found]).  [PrintDemo] prints the variables of [InfoDemo]. *)

From Stdlib Require Import String Ascii.
From S2P Require Import Prelude SymbolOps CpuControl CpuCallback Mpu MpuFacts Bus Token DbgParser ElfImageCheck ElfSection DwarfLine DwarfInfo DwarfInfoFacts DwarfType DwarfTypeFacts Containers DbgExecutor DbgSession DwarfPrint.
Open Scope Z_scope.

(** ** Indices *)

(** The number of elements, and the indices of element [j]: the specification. *)
Definition volume (l : list Z) : Z := foldr Z.mul 1 l.
Fixpoint row_major (dimension : list Z) (j : Z) : list Z :=
  match dimension with
  | [] => []
  | n :: dimension' => j / volume dimension' :: row_major dimension' (j mod volume dimension')
  end.

(** The same from the last place on; the place that comes last takes what is left. *)
Fixpoint digits (l : list Z) (j : Z) : list Z :=
  match l with
  | [] => []
  | [_] => [j]
  | n :: l' => j mod n :: digits l' (j / n)
  end.
Fixpoint places (l : list Z) (j : Z) : list Z :=
  match l with
  | [] => []
  | n :: l' => j mod n :: places l' (j / n)
  end.

Lemma volume_pos l : Forall (λ n, 0 < n) l → 0 < volume l.
Proof. induction 1; simpl; [lia|]. fold (volume l) in *. nia. Qed.
Lemma volume_app l l' : volume (l ++ l') = volume l * volume l'.
Proof. induction l as [|n l IH]; simpl; [lia|]. fold (volume (l ++ l')) (volume l). rewrite IH. lia. Qed.
Lemma volume_rev l : volume (rev l) = volume l.
Proof. induction l as [|n l IH]; [done|]. cbn [rev]. rewrite volume_app, IH. simpl. fold (volume l). lia. Qed.

Lemma digits_cons n l j : l ≠ [] → digits (n :: l) j = j mod n :: digits l (j / n).
Proof. by destruct l. Qed.

(** Carrying counts. *)
Lemma carry_digits l j : Forall (λ n, 0 < n) l → 0 ≤ j → j + 1 < 2 ^ 32 → Forall (λ n, n < 2 ^ 32) l →
  carry (digits l j) l = digits l (j + 1).
Proof.
  intros Hl Hj Hj' Hw. revert j Hj Hj'. induction Hl as [|n l Hn Hl IH]; intros j Hj Hj'; [done|].
  apply Forall_cons in Hw. destruct Hw as [Hw Hws]. destruct l as [|m l].
  - cbn [digits carry]. rewrite wrap_id by (unfold in_width; lia). done.
  - rewrite (digits_cons n (m :: l) j), (digits_cons n (m :: l) (j + 1)) by done. pose proof (Z.mod_pos_bound j n Hn) as Hm.
    assert (Hd : digits (m :: l) (j / n) ≠ []) by (by destruct l).
    destruct (digits (m :: l) (j / n)) as [|d ds] eqn:E; [done|].
    assert (Hc : carry (j mod n :: d :: ds) (n :: m :: l) =
      if n <=? u32 (j mod n + 1) then 0 :: carry (d :: ds) (m :: l) else u32 (j mod n + 1) :: d :: ds) by done.
    rewrite Hc, wrap_id by (unfold in_width; lia). pose proof (Z.div_mod j n ltac:(lia)) as Hdm.
    pose proof (Z.div_pos j n Hj Hn). destruct (Z.leb_spec n (j mod n + 1)) as [Hle|Hlt].
    + assert (j mod n = n - 1) as Hlast by lia.
      assert (E1 : (j + 1) / n = j / n + 1) by (symmetry; apply (Z.div_unique _ _ _ 0); lia).
      assert (E2 : (j + 1) mod n = 0) by (symmetry; apply (Z.mod_unique _ _ (j / n + 1)); lia).
      rewrite E1, E2, <- E, IH; [done|done|lia|]. assert (j / n ≤ j) by (apply Z.div_le_upper_bound; nia). lia.
    + assert (E1 : (j + 1) / n = j / n) by (symmetry; apply (Z.div_unique _ _ _ (j mod n + 1)); lia).
      assert (E2 : (j + 1) mod n = j mod n + 1) by (symmetry; apply (Z.mod_unique _ _ (j / n)); lia).
      by rewrite E1, E2, E.
Qed.

Lemma places_mod l j : Forall (λ n, 0 < n) l → 0 ≤ j → places l (j mod volume l) = places l j.
Proof.
  intros Hl. revert j. induction Hl as [|n l Hn Hl IH]; intros j Hj; [done|]. cbn [places].
  pose proof (volume_pos _ Hl) as Hp. change (volume (n :: l)) with (n * volume l).
  rewrite Z.rem_mul_r by lia.
  assert (E1 : (j mod n + n * ((j / n) mod volume l)) / n = (j / n) mod volume l).
  { rewrite Z.mul_comm, Z.div_add by lia. rewrite (Z.div_small (j mod n)) by (apply Z.mod_pos_bound; lia). lia. }
  assert (E2 : (j mod n + n * ((j / n) mod volume l)) mod n = j mod n).
  { rewrite Z.mul_comm, Z.mod_add by lia. by apply Z.mod_mod; lia. }
  rewrite E1, E2, IH; [done|]. by apply Z.div_pos.
Qed.
Lemma digits_snoc l n j : Forall (λ n, 0 < n) l → 0 ≤ j → digits (l ++ [n]) j = places l j ++ [j / volume l].
Proof.
  intros Hl. revert j. induction Hl as [|m l Hm Hl IH]; intros j Hj; [cbn; by rewrite Z.div_1_r|].
  cbn [app places]. rewrite digits_cons by (by destruct l). rewrite IH by (by apply Z.div_pos).
  pose proof (volume_pos _ Hl). change (volume (m :: l)) with (m * volume l). by rewrite Z.div_div by lia.
Qed.
Lemma digits_places l j : Forall (λ n, 0 < n) l → 0 ≤ j < volume l → digits l j = places l j.
Proof.
  intros Hl. revert j. induction Hl as [|n l Hn Hl IH]; intros j Hj; [done|].
  change (volume (n :: l)) with (n * volume l) in Hj. destruct l as [|m l].
  - change (volume []) with 1 in Hj. cbn. rewrite Z.mod_small by lia. done.
  - rewrite digits_cons by done. cbn [places]. f_equal. rewrite IH; [done|].
    split; [apply Z.div_pos; lia|apply Z.div_lt_upper_bound; lia].
Qed.
Lemma row_major_digits l j : Forall (λ n, 0 < n) l → 0 ≤ j → row_major l j = rev (digits (rev l) j).
Proof.
  intros Hl. revert j. induction Hl as [|n l Hn Hl IH]; intros j Hj; [done|]. cbn [row_major rev].
  assert (Hr : Forall (λ n, 0 < n) (rev l)) by by apply Forall_rev.
  rewrite digits_snoc, rev_app_distr by done. cbn [rev app]. rewrite volume_rev.
  pose proof (Z.mod_pos_bound j (volume l) (volume_pos _ Hl)).
  rewrite IH, digits_places; [|done|by rewrite volume_rev|lia]. rewrite <- (volume_rev l) at 2. by rewrite places_mod.
Qed.

(** The next index is the index of the next element. *)
Lemma next_row_major l j : Forall (λ n, 0 < n) l → Forall (λ n, n < 2 ^ 32) l → 0 ≤ j → j + 1 < 2 ^ 32 →
  next_index (row_major l j) l = row_major l (j + 1).
Proof.
  intros Hl Hw Hj Hj'. unfold next_index. rewrite !row_major_digits by (done || lia). rewrite rev_involutive.
  rewrite carry_digits; [done|by apply Forall_rev|done|done|by apply Forall_rev].
Qed.
Lemma row_major_0 l : Forall (λ n, 0 < n) l → row_major l 0 = replicate (length l) 0.
Proof.
  induction 1 as [|n l Hn Hl IH]; [done|]. pose proof (volume_pos _ Hl). cbn [row_major length replicate].
  rewrite Z.div_0_l, Z.mod_0_l by lia. by rewrite IH.
Qed.

Lemma s32_id x : 0 ≤ x < 2 ^ 31 → s32 x = x.
Proof. intros. unfold s32. rewrite wrap_id by (unfold in_width; lia). lia. Qed.
Lemma element_count_volume l k : Forall (λ n, 0 < n) l → 0 < k → k * volume l < 2 ^ 31 → element_count k l = k * volume l.
Proof.
  intros Hl. revert k. induction Hl as [|n l Hn Hl IH]; intros k Hk Hlt; [simpl; lia|].
  change (volume (n :: l)) with (n * volume l) in *. pose proof (volume_pos _ Hl). cbn [element_count].
  assert (k * n < 2 ^ 31) by nia. rewrite (wrap_id 32 k), (wrap_id 32 (k * n)) by (unfold in_width; nia).
  rewrite s32_id by nia. rewrite IH; nia.
Qed.

(** ** Programs that only print *)

Section prints.
Context {S : Type}.

(** The program ends, without a fault and without a call, in the state it starts in. *)
Definition prints {A} (m : cmd S A) (s : S) : Prop := ∃ out a, m s = Done out s a.

Lemma prints_ret {A} (a : A) s : prints (mret a) s.
Proof. by exists [], a. Qed.
Lemma prints_tell e s : prints (tell e) s.
Proof. by exists [e], (). Qed.
Lemma prints_lift {A} (m : outcome A) s : is_ok m → prints (lift m) s.
Proof. intros [a ->]. by exists [], a. Qed.
Lemma prints_bind {A B} (m : cmd S A) (f : A → cmd S B) s :
  prints m s → (∀ out a, m s = Done out s a → prints (f a) s) → prints (m ≫= f) s.
Proof.
  intros (o & a & Hm) Hf. destruct (Hf o a Hm) as (o' & b & Hb). exists (o ++ o'), b.
  unfold mbind, cmd_bind. rewrite Hm. cbn [result_bind]. by rewrite Hb.
Qed.
Lemma prints_for_each {A} (l : list A) body s : Forall (λ x, prints (body x) s) l → prints (for_each l body) s.
Proof. induction 1; [apply prints_ret|]. cbn [for_each]. apply prints_bind; [done|]. by intros. Qed.

(** Reading a result off, and forgetting that nothing comes before it. *)
Lemma lift_ok {A B} (a : A) (f : A → cmd S B) s : (lift (Ok a) ≫= f) s = f a s.
Proof. unfold mbind, cmd_bind. cbn. by destruct (f a s). Qed.
Lemma lift_bind {A B} (m : outcome A) a (f : A → cmd S B) s : m = Ok a → prints (f a) s → prints (lift m ≫= f) s.
Proof. intros -> (o & b & Hb). exists o, b. by rewrite lift_ok. Qed.
End prints.

Create HintDb printing.
#[export] Hint Resolve prints_ret prints_tell : printing.
#[export] Hint Extern 1 (prints (printf _) _) => apply prints_tell : printing.
#[export] Hint Extern 1 (prints (say _) _) => apply prints_tell : printing.
#[export] Hint Extern 2 (prints (mbind _ _) _) => apply prints_bind; [|intros ? ? _] : printing.
#[export] Hint Extern 2 (prints (if ?b then _ else _) _) => destruct b : printing.
Ltac printing := eauto 40 with printing.

Section facts.
Context {D T : Type} `{MpuConfig D} `{Target T}.
Context (float_text : Z → Z → list Z) (printf_null : outcome (list Z)).
Context (data : list Z) (store : list ElfDwarfDieType) (sets : type_set).
#[local] Abbreviation St := (exec_state D T).
Implicit Types (s : St).
Abbreviation print_any_type := (print_any_data_type (D := D) (T := T) float_text printf_null data sets).
Abbreviation type_size := (get_ref_typesize sets (depth sets)).

(** ** Arrays *)

Section arrays.
Context (print_any : PrintControlType → type_ptr → option (nat * Z) → Z → cmd St bool).
Context (ctrl : PrintControlType) (q : type_ptr) (top_addr : option (nat * Z)).

(** The line of one element: its indices and its value at [off]. *)
Definition element_line (indices : list Z) (off : Z) : cmd St () :=
  print_space ctrl;;
  printf [Lit "  "];;
  for_each indices (λ d, printf [Lit "["; Dec d; Lit "]"]);;
  printf [Lit " = "];;
  print_any (deeper ctrl) q top_addr off;;
  mret ().

Lemma print_elements_row_major dimension size off n j :
  Forall (λ k, 0 < k) dimension → Forall (λ k, k < 2 ^ 32) dimension → 0 ≤ j → 0 ≤ n → j + n < 2 ^ 32 → 0 ≤ size → 0 ≤ off →
  off + (j + n) * size < 2 ^ 32 →
  print_elements print_any ctrl q dimension size top_addr off (seqZ j n) (row_major dimension j) =
  for_each (seqZ j n) (λ i, element_line (row_major dimension i) (off + i * size)).
Proof.
  intros Hd Hw Hj Hn Hlt Hs Ho Hend. revert j Hj Hlt Hend. pattern n. apply natlike_ind; [done| |done]. clear n Hn.
  intros n Hn IH j Hj Hlt Hend. rewrite seqZ_cons by lia. cbn [print_elements for_each].
  rewrite next_row_major by (done || lia). replace (Z.pred (Z.succ n)) with n by lia. change (Z.succ j) with (j + 1) in *.
  rewrite IH by nia. unfold print_element, element_line. by rewrite (wrap_id 32 (j * size)), wrap_id by (unfold in_width; nia).
Qed.
End arrays.

(** C34: an array is printed in row-major order: under its element type, one line per element
    that shows the element's indices, each the quotient of what is left of the element's number
    by the number of elements below it, and the value found that number of sizes behind the
    start of the array.  The indices that the code carries over from line to line are these.
    The size of an element is the one the code computes ([type_size], 0 for classes and unions). *)
Theorem array_printed_row_major print_any ctrl l q size dimension top_addr off s :
  ref l = Some q → type_size q = Ok size → 0 ≤ size → size < 2 ^ 31 →
  Forall (λ n, 0 < n) dimension → volume dimension < 2 ^ 31 → 0 ≤ off → off + volume dimension * size < 2 ^ 32 →
  print_array_type_data printf_null data sets print_any ctrl l dimension top_addr off s =
  (print_space ctrl;;
   printf [Lit "( "];;
   print_ref_typename printf_null data sets (depth sets) q;;
   say [Lit " ) = { "];;
   for_each (seqZ 0 (volume dimension)) (λ j, element_line print_any ctrl q top_addr (row_major dimension j) (off + j * size));;
   print_space ctrl;;
   say [Lit "}"]) s.
Proof.
  intros Hq Hsize Hs0 Hlt Hd Hn Ho Hend. pose proof (volume_pos _ Hd) as Hp. unfold print_array_type_data.
  rewrite Hq, lift_ok, Hsize, lift_ok, s32_id, element_count_volume by (done || lia). rewrite Z.mul_1_l, <- row_major_0 by done.
  rewrite print_elements_row_major; [done|done| |lia|lia|lia|lia|lia|lia].
  clear - Hd Hn. revert Hn. induction Hd as [|n l Hn Hl IH]; intros Hlt; [done|]. change (volume (n :: l)) with (n * volume l) in Hlt.
  pose proof (volume_pos _ Hl). constructor; [nia|]. apply IH. nia.
Qed.

(** ** Types whose values can be printed *)

(** A [%s] that shows something. *)
Definition has_text (c : option charp) : Prop := is_ok (match c with Some c => text data c | None => printf_null end).

(** The bytes that are read of a value. *)
Definition scalar_bytes (size : Z) : Z := if (size =? 1) || (size =? 2) || (size =? 4) then size else 0.
Definition base_bytes (encoding size : Z) : Z :=
  if encoding =? DW_ATE_address then 4 else if size =? 8 then 8 else scalar_bytes size.

Fixpoint nameable (n : nat) (p : type_ptr) : Prop :=
  match n with
  | O => False
  | S n => ∃ t, type_at p sets = Ok t ∧
      match t_type (info t), body t with
      | DATA_TYPE_POINTER, PointerType l => match ref l with None => True | Some q => nameable n q end
      | DATA_TYPE_BASE, _ | DATA_TYPE_TYPEDEF, _ | DATA_TYPE_ENUM, _ | DATA_TYPE_STRUCT, _ => has_text (t_typename (info t))
      | _, _ => True
      end
  end.

(** A type of height [n] at most whose references lead somewhere, whose names can be shown and
    whose parts lie in the first [size] bytes. *)
Fixpoint printable (n : nat) (p : type_ptr) (size : Z) : Prop :=
  match n with
  | O => False
  | S n => ∃ t, type_at p sets = Ok t ∧
      match t_type (info t), body t with
      | DATA_TYPE_BASE, BaseType encoding => has_text (t_typename (info t)) ∧ base_bytes encoding (t_size (info t)) ≤ size
      | DATA_TYPE_ENUM, EnumType members =>
          has_text (t_typename (info t)) ∧ scalar_bytes (t_size (info t)) ≤ size ∧
          ∃ l, members = Some l ∧ Forall (λ m, has_text (em_name m)) l
      | DATA_TYPE_POINTER, PointerType _ => nameable (depth sets) p ∧ 4 ≤ size
      | DATA_TYPE_TYPEDEF, TypedefType l =>
          has_text (t_typename (info t)) ∧ match ref l with None => True | Some q => printable n q size end
      | DATA_TYPE_STRUCT, StructType members =>
          has_text (t_typename (info t)) ∧
          ∃ l, members = Some l ∧
            Forall (λ m, has_text (m_name m) ∧ 0 ≤ m_off m ≤ size ∧ ∃ q, ref (m_link m) = Some q ∧ printable n q (size - m_off m)) l
      | DATA_TYPE_CLASS, StructType members =>
          has_text (t_typename (info t)) ∧
          Forall (λ m, match ref (m_link m), m_linkage_name m with
                       | Some q, _ => has_text (m_name m) ∧ 0 ≤ m_off m ≤ size ∧ printable n q (size - m_off m)
                       | None, Some c => has_text (m_name m) ∧ has_text (Some c)
                       | None, None => True
                       end) (default [] members)
      | DATA_TYPE_ARRAY, ArrayType l dimension =>
          ∃ q each last, ref l = Some q ∧ type_size q = Ok each ∧ 0 ≤ each < 2 ^ 31 ∧ nameable (depth sets) q ∧
            Forall (λ k, 0 < k) dimension ∧ volume dimension < 2 ^ 31 ∧ volume dimension * each < 2 ^ 31 ∧
            printable n q last ∧ 0 ≤ last ∧ (volume dimension - 1) * each + last ≤ size
      | _, _ => True
      end
  end.

(** [off] leaves [size] bytes of the block behind the pointer. *)
Definition in_block (top_addr : option (nat * Z)) (off size : Z) s : Prop :=
  ∃ b base blk, top_addr = Some (b, base) ∧ host (x_mpu s) !! b = Some blk ∧ 0 ≤ base ∧ 0 ≤ off ∧
    base + off + size ≤ zlen blk ∧ off + size < 2 ^ 32.

Lemma in_block_part top_addr off size off' size' s :
  in_block top_addr off size s → off ≤ off' → off' + size' ≤ off + size → in_block top_addr off' size' s.
Proof. intros (b & base & blk & -> & Hb & ? & ? & ? & ?) ??. exists b, base, blk. split_and!; (done || lia). Qed.
Lemma peek_prints top_addr off size n s : in_block top_addr off size s → 0 ≤ n → n ≤ size → prints (peek top_addr off n) s.
Proof.
  intros (b & base & blk & -> & Hb & ? & ? & ? & ?) ??. unfold peek, host_read. apply prints_bind; [|printing].
  apply prints_bind; [by eexists _, _|]. intros ? h [= <- <-]. apply prints_lift. cbn. rewrite Hb. cbn [oob mbind outcome_bind].
  destruct (bytes_at_Some blk (base + off) n) as (bs & -> & _); [lia..|]. by exists bs.
Qed.
Lemma scalar_prints top_addr off size n s : in_block top_addr off size s → scalar_bytes n ≤ size → prints (scalar top_addr off n) s.
Proof.
  unfold scalar, scalar_bytes. intros Hb Hn. destruct ((n =? 1) || (n =? 2) || (n =? 4)) eqn:E; [|printing].
  apply (peek_prints _ _ size); [done|lia|done].
Qed.
Lemma show_prints c s : has_text c → prints (show printf_null data c) s.
Proof. intros Hc. unfold show. apply prints_bind; [by apply prints_lift|printing]. Qed.
Lemma space_prints ctrl s : prints (print_space ctrl) s.
Proof. apply prints_for_each, Forall_true. printing. Qed.

Lemma ref_typename_prints n fuel p s : nameable n p → (n ≤ fuel)%nat → prints (print_ref_typename printf_null data sets fuel p) s.
Proof.
  revert fuel p. induction n as [|n IH]; intros fuel p; [done|]. intros (t & Ht & Hk) Hf.
  destruct fuel as [|fuel]; [lia|]. cbn [print_ref_typename]. apply (lift_bind _ t); [done|].
  destruct (t_type (info t)), (body t); try (apply prints_bind; [by apply show_prints|printing]); try printing.
  destruct (ref link) as [q|]; [|printing]. apply prints_bind; [apply IH; [done|lia]|printing].
Qed.

Lemma base_prints ctrl i encoding top_addr off size s :
  has_text (t_typename i) → base_bytes encoding (t_size i) ≤ size → in_block top_addr off size s →
  prints (print_base_type_data float_text printf_null data ctrl i encoding top_addr off) s.
Proof.
  intros Ht Hn Hb. assert (Hscalar : scalar_bytes (t_size i) ≤ size → prints (scalar top_addr off (t_size i)) s)
    by by apply scalar_prints.
  unfold print_base_type_data. apply prints_bind.
  - unfold base_bytes in Hn. destruct (encoding =? DW_ATE_address).
    { unfold print_base_type_address. apply prints_bind; [|printing]. by apply (peek_prints _ _ size). }
    assert (Hpeek : (t_size i =? 8) = true → prints (peek top_addr off 8) s).
    { intros E. rewrite E in Hn. by apply (peek_prints _ _ size). }
    assert (Hsc : prints (scalar top_addr off (t_size i)) s).
    { apply Hscalar. destruct (Z.eqb_spec (t_size i) 8) as [E|]; [|done]. rewrite E in *. change (8 ≤ size) in Hn. change (0 ≤ size). lia. }
    assert (Hfloat : t_size i = 4 ∨ t_size i = 8 → prints (peek top_addr off (t_size i)) s).
    { intros [E|E]; rewrite E in *; apply (peek_prints _ _ size); done. }
    destruct (encoding =? DW_ATE_boolean); [apply prints_bind; printing|].
    destruct ((encoding =? DW_ATE_signed) || _).
    { unfold print_base_type_signed. destruct (t_size i =? 8); (apply prints_bind; [eauto|printing]). }
    destruct ((encoding =? DW_ATE_unsigned) || _).
    { unfold print_base_type_unsigned. destruct (t_size i =? 8); (apply prints_bind; [eauto|printing]). }
    destruct (encoding =? DW_ATE_float); [|printing]. unfold print_base_type_float.
    destruct ((t_size i =? 4) || (t_size i =? 8)) eqn:E; [|printing]. apply prints_bind; [apply Hfloat; lia|printing].
  - intros _ _ _. apply prints_bind; [by apply show_prints|printing].
Qed.

Lemma enum_prints ctrl i l top_addr off size s :
  has_text (t_typename i) → scalar_bytes (t_size i) ≤ size → Forall (λ m, has_text (em_name m)) l → in_block top_addr off size s →
  prints (print_enum_type_data printf_null data ctrl i (Some l) top_addr off) s.
Proof.
  intros Ht Hn Hl Hb. unfold print_enum_type_data, scalar_bytes in *. destruct (_ || _) eqn:E; [|printing].
  apply prints_bind; [apply (peek_prints _ _ size); [done|lia|done]|]. intros _ value _. apply (lift_bind _ l); [done|].
  destruct (List.find _ l) as [m|] eqn:Hf; [|printing]. apply List.find_some in Hf as [Hm _]. apply list_elem_of_In in Hm.
  rewrite Forall_forall in Hl. apply prints_bind; [by apply show_prints|]. intros _ n _.
  apply prints_bind; [by apply show_prints, Hl|printing].
Qed.

Lemma pointer_prints ctrl p i top_addr off size s :
  nameable (depth sets) p → 4 ≤ size → in_block top_addr off size s →
  prints (print_pointer_type_data printf_null data sets ctrl p i top_addr off) s.
Proof.
  intros Hp Hn Hb. unfold print_pointer_type_data. apply prints_bind; [printing|]. intros _ _ _.
  apply prints_bind; [by apply (ref_typename_prints (depth sets))|]. intros _ _ _. apply prints_bind; [printing|]. intros _ _ _.
  apply prints_bind; [by apply (peek_prints _ _ size)|printing].
Qed.

Section parts.
Context (n : nat) s (print_any : PrintControlType → type_ptr → option (nat * Z) → Z → cmd St bool).
Context (any_prints : ∀ ctrl q top_addr off size,
  printable n q size → in_block top_addr off size s → prints (print_any ctrl q top_addr off) s).

Lemma member_prints ctrl q m_off top_addr off size :
  0 ≤ m_off ≤ size → printable n q (size - m_off) → in_block top_addr off size s →
  prints (print_any ctrl q top_addr (u32 (off + m_off)) ;; mret ()) s.
Proof.
  intros Hm Hq Hb. apply prints_bind; [|printing]. apply (any_prints _ _ _ _ (size - m_off)); [done|].
  destruct Hb as (b & base & blk & -> & Hk & ? & ? & ? & ?). rewrite wrap_id by (unfold in_width; lia).
  exists b, base, blk. split_and!; (done || lia).
Qed.

Lemma struct_prints ctrl i l top_addr off size :
  has_text (t_typename i) →
  Forall (λ m, has_text (m_name m) ∧ 0 ≤ m_off m ≤ size ∧ ∃ q, ref (m_link m) = Some q ∧ printable n q (size - m_off m)) l →
  in_block top_addr off size s → prints (print_struct_type_data printf_null data print_any ctrl i (Some l) top_addr off) s.
Proof.
  intros Ht Hl Hb. unfold print_struct_type_data. apply prints_bind; [by apply show_prints|]. intros _ c _.
  apply prints_bind; [printing|]. intros _ _ _. apply (lift_bind _ l); [done|]. apply prints_bind.
  - apply prints_for_each. eapply Forall_impl; [exact Hl|]. intros m (Hn & Hm & q & Hq & Hp). unfold print_struct_member.
    apply prints_bind; [apply space_prints|]. intros _ _ _. apply prints_bind; [by apply show_prints|]. intros _ nm _.
    apply prints_bind; [printing|]. intros _ _ _. rewrite Hq. by apply (member_prints _ _ _ _ _ size).
  - intros _ _ _. apply prints_bind; [apply space_prints|printing].
Qed.

Lemma class_prints ctrl i members top_addr off size :
  has_text (t_typename i) →
  Forall (λ m, match ref (m_link m), m_linkage_name m with
               | Some q, _ => has_text (m_name m) ∧ 0 ≤ m_off m ≤ size ∧ printable n q (size - m_off m)
               | None, Some c => has_text (m_name m) ∧ has_text (Some c)
               | None, None => True
               end) (default [] members) →
  in_block top_addr off size s → prints (print_class_type_data printf_null data print_any ctrl i members top_addr off) s.
Proof.
  intros Ht Hl Hb. unfold print_class_type_data. apply prints_bind; [by apply show_prints|]. intros _ c _.
  apply prints_bind; [printing|]. intros _ _ _. apply prints_bind.
  - apply prints_for_each. eapply Forall_impl; [exact Hl|]. intros m Hm. unfold print_class_member.
    apply prints_bind; [apply space_prints|]. intros _ _ _. revert Hm. cbv beta. destruct (ref (m_link m)) as [q|].
    + intros (Hn & Hm & Hp). apply prints_bind; [by apply show_prints|]. intros _ nm _.
      apply prints_bind; [printing|]. intros _ _ _. by apply (member_prints _ _ _ _ _ size).
    + destruct (m_linkage_name m); [|printing]. intros [Hn Hc]. apply prints_bind; [by apply show_prints|]. intros _ nm _.
      apply prints_bind; [printing|]. intros _ _ _. apply prints_bind; [by apply show_prints|printing].
  - intros _ _ _. apply prints_bind; [apply space_prints|printing].
Qed.

Lemma elements_print ctrl q dimension typesize top_addr off js dims :
  (∀ j, j ∈ js → prints (print_any (deeper ctrl) q top_addr (u32 (off + u32 (j * typesize)))) s) →
  prints (print_elements print_any ctrl q dimension typesize top_addr off js dims) s.
Proof.
  revert dims. induction js as [|j js IH]; intros dims Hj; [apply prints_ret|]. cbn [print_elements]. apply prints_bind.
  - unfold print_element. apply prints_bind; [apply space_prints|]. intros _ _ _. apply prints_bind; [printing|]. intros _ _ _.
    apply prints_bind; [apply prints_for_each, Forall_true; printing|]. intros _ _ _. apply prints_bind; [printing|]. intros _ _ _.
    apply prints_bind; [apply Hj; by left|printing].
  - intros _ _ _. apply IH. intros i Hi. apply Hj. by right.
Qed.

Lemma array_prints ctrl l q each last dimension top_addr off size :
  ref l = Some q → type_size q = Ok each → 0 ≤ each < 2 ^ 31 → nameable (depth sets) q →
  Forall (λ k, 0 < k) dimension → volume dimension < 2 ^ 31 → volume dimension * each < 2 ^ 31 →
  printable n q last → 0 ≤ last → (volume dimension - 1) * each + last ≤ size → in_block top_addr off size s →
  prints (print_array_type_data printf_null data sets print_any ctrl l dimension top_addr off) s.
Proof.
  intros Hq Hsize Heach Hname Hd Hv Hve Hp Hlast Hend Hb. unfold print_array_type_data. pose proof (volume_pos _ Hd).
  apply (lift_bind _ q); [by rewrite Hq|]. apply (lift_bind _ each); [done|]. rewrite s32_id, element_count_volume by (done || lia).
  apply prints_bind; [apply space_prints|]. intros _ _ _. apply prints_bind; [printing|]. intros _ _ _.
  apply prints_bind; [by apply (ref_typename_prints (depth sets))|]. intros _ _ _. apply prints_bind; [printing|]. intros _ _ _.
  apply prints_bind; [|intros _ _ _; apply prints_bind; [apply space_prints|printing]].
  apply elements_print. intros j Hj. apply elem_of_seqZ in Hj. assert (0 ≤ j * each ≤ (volume dimension - 1) * each) by nia.
  destruct Hb as (b & base & blk & -> & Hk & ? & ? & ? & ?). rewrite (wrap_id 32 (j * each)), wrap_id by (unfold in_width; lia).
  apply (any_prints _ _ _ _ last); [done|]. exists b, base, blk. split_and!; (done || lia).
Qed.
End parts.

(** C30: the value of a printable type, all of it inside the memory behind the pointer, is
    printed: the recursion over the types ends, nothing outside the value or the image is read,
    no null pointer is followed, and the debugger's state is as before.  By [printable] the type
    is of height [n] at most (so it does not contain itself) and the dimensions of its arrays
    are positive. *)
Theorem printable_is_printed n fuel p size ctrl top_addr off s :
  printable n p size → (n ≤ fuel)%nat → in_block top_addr off size s →
  ∃ out shown, print_any_type fuel ctrl p top_addr off s = Done out s shown.
Proof.
  change (printable n p size → (n ≤ fuel)%nat → in_block top_addr off size s → prints (print_any_type fuel ctrl p top_addr off) s).
  revert fuel p size ctrl top_addr off. induction n as [|n IH]; intros fuel p size ctrl top_addr off; [done|].
  intros (t & Ht & Hk) Hf Hb. destruct fuel as [|fuel]; [lia|].
  assert (any_prints : ∀ ctrl q top_addr off size,
    printable n q size → in_block top_addr off size s → prints (print_any_type fuel ctrl q top_addr off) s)
    by (intros; eapply IH; [done|lia|done]).
  cbn [print_any_data_type]. apply (lift_bind _ t); [done|].
  destruct (t_type (info t)), (body t); try printing; (apply prints_bind; [|printing]).
  - destruct Hk. by apply (base_prints _ _ _ _ _ size).
  - destruct Hk as (Hn & l & -> & Hl). by apply (struct_prints n s _ any_prints _ _ _ _ _ size).
  - destruct Hk as (q & each & last & ? & ? & ? & ? & ? & ? & ? & ? & ? & ?).
    by apply (array_prints n s _ any_prints _ _ q each last _ _ _ size).
  - destruct Hk. by apply (pointer_prints _ _ _ _ _ size).
  - destruct Hk as [Hn Hr]. unfold print_typedef_type_data. apply prints_bind; [by apply show_prints|]. intros _ c _.
    destruct (ref link) as [q|]; [|printing]. apply prints_bind; [printing|]. intros _ _ _.
    apply prints_bind; [by apply (any_prints _ _ _ _ size)|printing].
  - destruct Hk as (Hn & Hs & l & -> & Hl). by apply (enum_prints _ _ _ _ _ size).
  - destruct Hk. by apply (class_prints n s _ any_prints _ _ _ _ _ size).
Qed.

(** An element whose type is an array, a union or a class has size 0 here: every line of such
    an array shows the first element. *)
Lemma elements_of_size_0 p t :
  type_at p sets = Ok t → t_type (info t) ∈ [DATA_TYPE_UNION; DATA_TYPE_CLASS] → type_size p = Ok 0.
Proof. intros Ht Hk. unfold depth. cbn [get_ref_typesize]. rewrite Ht. cbn [mbind outcome_bind]. set_unfold. by destruct Hk as [-> | [-> | []]]. Qed.

End facts.

(** ** Location lists *)

(** Every entry leads to the next one, or ends its list. *)
Definition links_forward (l : list ElfDwarfLocEntryType) : Prop :=
  ∀ i e, l !! i = Some e → next e = None ∨ next e = Some (S i) ∧ (S i < length l)%nat.

Lemma link_last_forward l e : links_forward l → next e = None → links_forward (link_last l ++ [e]).
Proof.
  intros Hl He i x. unfold link_last. rewrite length_app, length_alter. cbn [length]. intros Hx.
  apply lookup_app_Some in Hx as [Hx|[Hge Hx]].
  - pose proof (lookup_lt_Some _ _ _ Hx) as Hlt. rewrite length_alter in Hlt. destruct (decide (i = pred (length l))) as [->|Hne].
    + rewrite list_lookup_alter_eq in Hx. apply fmap_Some in Hx as (y & Hy & ->).
      destruct (is_list_end y); cbn; [by left|right]. split; [f_equal|]; lia.
    + rewrite list_lookup_alter_ne in Hx by done. destruct (Hl i x Hx) as [?|[? ?]]; [by left|right]. split; [done|lia].
  - apply list_lookup_singleton_Some in Hx as [_ <-]. by left.
Qed.
Lemma read_locs_forward fuel data sect off size l l' :
  links_forward l → read_locs fuel data sect off size l = Ok l' → links_forward l'.
Proof.
  revert off l. induction fuel as [|fuel IH]; intros off l Hl; cbn [read_locs]; [done|].
  destruct (off <? size); [|by intros [= <-]]. intros Hr. apply bind_ok in Hr as (e & He & Hr).
  refine (IH _ _ (link_last_forward _ _ Hl _) Hr).
  unfold elf_dwarf_loc_alloc_ElfDwarfLocEntry in He. apply bind_ok in He as (a0 & _ & He). apply bind_ok in He as (a1 & _ & He).
  destruct ((a0 =? 0) && (a1 =? 0)); [by injection He as <-|]. apply bind_ok in He as (len & _ & He). by injection He as <-.
Qed.
Lemma loaded_forward data st locs err l :
  elf_dwarf_loc_load data st locs = Ok (err, Some l) → locs = None → links_forward l.
Proof.
  unfold elf_dwarf_loc_load. intros Hr ->. apply bind_ok in Hr as ((e & s) & _ & Hr).
  destruct s as [[sect size]|]; [|done]. destruct (std_ok e); [|done]. apply bind_ok in Hr as (l' & Hl & Hr). injection Hr as _ <-.
  by apply (read_locs_forward _ _ _ _ _ [] _ ltac:(done) Hl).
Qed.

(** The search for the entry of a pc ends, and an entry it finds spans the pc. *)
Lemma location_found l i pc off :
  links_forward l → (i < length l)%nat →
  ∃ r, loc_of_pc (S (length l)) l (Some i) pc off = Ok r ∧
    ∀ e, r = Some e → e ∈ l ∧ ∃ saddr, saddr ≤ pc < u32 (saddr + u32 (relativeAddress1 e - relativeAddress0 e)).
Proof.
  intros Hl Hi. assert (Hf : (length l - i < S (length l))%nat) by lia.
  revert Hf. generalize (S (length l)) as fuel. intros fuel Hf. revert i off Hi Hf.
  induction fuel as [|fuel IH]; intros i off Hi Hf; [lia|]. cbn [loc_of_pc].
  destruct (lookup_lt_is_Some_2 l i Hi) as [e He]. rewrite He. cbn [oob mbind outcome_bind].
  destruct ((off <=? pc) && _) eqn:Hpc.
  - exists (Some e). split; [done|]. intros e' [= <-]. split; [by eapply list_elem_of_lookup_2|]. exists off. lia.
  - destruct (Hl i e He) as [->|[-> Hlt]].
    + exists None. split; [|done]. by destruct fuel; [lia|].
    + apply IH; lia.
Qed.

(** ** The variables of [InfoDemo] *)

Module PrintDemo.
Import InfoDemo TypeDemo.
#[local] Existing Instance MpuDemo.config.
#[local] Existing Instance SessionDemo.target.

(** Points (1, 2) to (11, 12) and the colour 5; the stack lies in RAM at 0x100. *)
Definition memory : list Z := concat (map (le_bytes 4) [1; 2; 3; 4; 5; 6; 7; 8; 9; 10; 11; 12; 5]).
Definition stack_memory : list Z := le_bytes 4 (2 ^ 32 - 7) ++ replicate 12 0.
Definition machine : mpu_state () :=
  with_host MpuDemo.mpu (<[1%nat := stack_memory]> {[O := memory]}) (devices MpuDemo.mpu).
Definition funcs : symbol_table := mkTable [mkSymbol (str_of "main") 0x1000 0x40 []] (mkIndex 0 [] []) 0.
Definition start : exec_state () () :=
  with_dbg (with_syms (mkSymbols funcs empty_table)) (with_mpu machine SessionDemo.start).

Definition no_float (size bits : Z) : list Z := [].
Definition null_shown : outcome (list Z) := Ok (str_of "(null)").
Abbreviation print_variable := (print_variable_with_data_type no_float null_shown image store sets).

Definition grid_link : type_link := mkLink (Some (DATA_TYPE_TYPEDEF, 0%nat)) true 52.
Definition point_type : type_ptr := (DATA_TYPE_TYPEDEF, 0%nat).
Definition memory_top : option (nat * Z) := Some (0%nat, 0).
Abbreviation print_any := (print_any_data_type no_float null_shown image sets (depth sets)).

Lemma array_printed_witness :
  get_ref_typesize sets (depth sets) point_type = Ok 8 ∧
  print_array_type_data null_shown image sets print_any (mkCtrl 0x1000 0) grid_link [2; 3] memory_top 0 start =
  (print_space (mkCtrl 0x1000 0);;
   printf [Lit "( "];;
   print_ref_typename null_shown image sets (depth sets) point_type;;
   say [Lit " ) = { "];;
   for_each (seqZ 0 (volume [2; 3])) (λ j,
     element_line print_any (mkCtrl 0x1000 0) point_type memory_top (row_major [2; 3] j) (0 + j * 8));;
   print_space (mkCtrl 0x1000 0);;
   say [Lit "}"]) start.
Proof.
  assert (Hs : get_ref_typesize sets (depth sets) point_type = Ok 8) by (vm_compute; reflexivity).
  assert (Hv : Forall (λ n, 0 < n) [2; 3]) by repeat constructor.
  assert (Hsmall : volume [2; 3] < 2 ^ 31) by by vm_compute.
  assert (Hend : 0 + volume [2; 3] * 8 < 2 ^ 32) by by vm_compute.
  split; [exact Hs|].
  exact (array_printed_row_major null_shown image sets print_any (mkCtrl 0x1000 0) grid_link point_type 8 [2; 3] memory_top 0
    start eq_refl Hs ltac:(done) ltac:(done) Hv Hsmall (Z.le_refl 0) Hend).
Defined.

Ltac known :=
  eexists; split; [vm_compute; reflexivity|]; cbn [DwarfType.info body t_type t_typename t_size ref m_link m_off m_name].
Lemma text_shown p : is_ok (cstr_at image p) → has_text null_shown image (Some (InImage p)).
Proof. done. Qed.
Ltac shown := apply text_shown; eexists; vm_compute; reflexivity.

(** An array of named structures of two integers. *)
Lemma grid_printable : printable null_shown image sets 4 (DATA_TYPE_ARRAY, 0%nat) 48.
Proof.
  known. exists point_type, 8, 8. split; [reflexivity|]. split; [vm_compute; reflexivity|]. split; [lia|].
  split; [known; shown|]. split; [repeat constructor|]. do 2 (split; [by vm_compute|]). split; [|by vm_compute].
  known. split; [shown|]. known. split; [shown|]. eexists. split; [reflexivity|].
  repeat (apply Forall_cons; split); [..|apply Forall_nil; exact I]; cbn [ref m_link m_off m_name]; (split; [shown|]; split; [lia|]);
    (eexists; split; [reflexivity|]); known; (split; [shown|by vm_compute]).
Qed.
Lemma printable_witness :
  ∃ out r, print_any (mkCtrl 0x1000 0) (DATA_TYPE_ARRAY, 0%nat) memory_top 0 start = Done out start r.
Proof.
  apply (printable_is_printed no_float null_shown image sets 4 (depth sets) (DATA_TYPE_ARRAY, 0%nat) 48);
    [exact grid_printable|vm_compute; lia|].
  exists 0%nat, 0, memory. split_and!; [reflexivity|vm_compute; reflexivity|..]; by vm_compute.
Defined.

(** The text of a variable, its pieces joined line by line. *)
Definition shown_value {A} (r : result (exec_state () ()) A) : list event :=
  match r with Done out _ _ => out | _ => [] end.

(** Printing an enumeration reports that nothing was printed: [print_memory_type] goes on with
    the bare memory. *)
Example enum_printed_again :
  shown_value (print_memory_type print_variable (Some (str_of "c")) 0x1030 (Some (0%nat, 48)) 4 start) =
  [Unfinished [Chars (str_of "c"); Lit " = "];
   Unfinished [Chars (str_of "color"); Lit "."; Chars (str_of "BLUE"); Lit "("; Dec 5; Lit ")"];
   Printed [Lit " "; Lit " @ 0x"; Hex 0x1030; Lit "(0x"; Hex 0; Lit ")"];
   Printed [Lit "size="; Dec 4; Lit " byte"];
   Printed [Lit "0x"; Hex 0x1030; Lit " 0x"; Hex 5];
   Reply [Hex 5; Lit "  OK"]].
Proof. by vm_compute. Qed.

(** A local variable: register 3 and the offset 16, in the second range of the function. *)
Example local_printed :
  (locs ← (r ← elf_dwarf_loc_load image loaded None; Ok (snd r) : outcome (option (list ElfDwarfLocEntryType)));
   Ok (shown_value (print_local_variable_type no_float null_shown image sets (λ _, 0x1014)
         (λ reg _, if reg =? 3 then 0xf0 else 0) locs 0 (str_of "i") start))) =
  Ok [Printed [Lit "func="; Chars (str_of "main")]; Printed [Lit "val="; Chars (str_of "i")];
      Printed [Lit "value1="; Dec 16]; Printed [Lit "pc=0x"; Hex 0x1014; Lit " funcaddr=0x"; Hex 0x1000];
      Printed [Lit "vaddr=0x"; Hex 0x100]; Unfinished [Chars (str_of "i"); Lit " = "]; Unfinished [Dec (-7)];
      Printed [Lit " ("; Chars (str_of "int"); Lit ":"; Dec 4; Lit ")"; Lit " @ 0x"; Hex 0x100; Lit "(0x"; Hex 0; Lit ")"]].
Proof. by vm_compute. Qed.
End PrintDemo.
