(* ===== verification/DeviceConfig.v ===== *)
(** * Configuration files ([src/src/main/cpuemu.cpp], [lib/file.c])

    The device configuration (key and value lines), the memory configuration and the FIFO
    configuration, read line by line from a file, with the lookups by key and the
    substitution of environment variables.

    A file is the list of its bytes.  The file system, the environment and the loading of
    device libraries are parameters ([HostFiles]); so is what buffers hold before they are
    written. *)

From Stdlib Require Import String Ascii.
From S2P Require Import Prelude Mpu MpuMalloc Loader CpuControl Token.
Open Scope Z_scope.

(** The header a device library exports. *)
Record AthrillExDeviceHeaderType := mkExHeader {
  magicno : Z; version : Z; memory_size : Z; ex_device : AthrillExDeviceType }.
Definition ATHRILL_EXTERNAL_DEVICE_MAGICNO : Z := 0xBEEFDEAD.
Definition ATHRILL_EXTERNAL_DEVICE_VERSION : Z := 4.

(** A file that is mapped as guest memory ([athrill_device.h]). *)
Record AthrillDeviceMmapInfoType := mkMmapInfo { mmap_fd : Z; mmap_addr : Z }.

(** What the host provides.  A mapped file opens with a descriptor and a size.  A library
    opens or not; an opened one exports a header or not. *)
Class HostFiles := {
  file_contents : list Z → option (list Z);
  file_exist : list Z → bool;
  getenv : list Z → option (list Z);
  osdep_supports_mapped_memory : bool;
  osdep_open_mapped_file : list Z → option (Z * Z);
  osdep_map_open_file : list Z → Z → option nat;
  shared_library : list Z → option (option AthrillExDeviceHeaderType);
}.

(** ** Reading lines *)

(** Up to [n] bytes of a line and the rest of the file after its newline. *)
Fixpoint getline (n : nat) (f : list Z) : list Z * list Z :=
  match n, f with
  | O, _ => ([], f)
  | _, [] => ([], [])
  | S n, c :: f => if c =? 10 then ([], f) else let '(l, r) := getline n f in (c :: l, r)
  end.
(** The buffer keeps a byte for the terminator. *)
Definition file_getline (size : Z) (f : list Z) : list Z * list Z := getline (Z.to_nat (size - 1)) f.

(** The length of a path up to and with its last slash. *)
Definition file_get_parent_folder_pathlen (filepath : list Z) : Z :=
  match find_index 0 (reverse filepath) (λ c, c =? 47) with
  | Some (i, _) => zlen filepath - i
  | None => 0
  end.

Section config.
Context `{AddrWidth} `{HostFiles} `{LoaderConfig}.

(** ** The device configuration *)

Definition CPUEMU_DEVCFG_PARAM_MAXNUM : Z := 128.
Record param := mkParam {
  p_key : TokenValueType; p_value : TokenValueType; p_second_value : TokenValueType; p_value_num : Z }.
Record CpuEmuDevCfgType := mkDevCfg { param_num : Z; params : list param }.
Implicit Types (cfg : CpuEmuDevCfgType).

(** The parameter of a line, unless the number of its tokens is wrong or the table is full. *)
Definition line_param cfg (c : TokenContainerType) : outcome (option param) :=
  t0 ← oob (zget (tk_array c) 0); t1 ← oob (zget (tk_array c) 1); t2 ← oob (zget (tk_array c) 2);
  if negb (tk_num c =? 2) &&
     negb ((tk_num c =? 3) && bool_decide (cstring (ts_str (body_str t0)) = str_of "DEVICE_CONFIG_HOST_FUNCTION"))
  then Ok None
  else if CPUEMU_DEVCFG_PARAM_MAXNUM <=? param_num cfg then Ok None
  else
    old ← oob (zget (params cfg) (param_num cfg));
    Ok (Some (mkParam t0 t1 (if tk_num c =? 3 then t2 else p_second_value old) (u32 (tk_num c - 1)))).
Definition add_param (p : param) cfg : CpuEmuDevCfgType :=
  mkDevCfg (param_num cfg + 1) (zput (params cfg) (param_num cfg) p).

(** The lines of the file; [junk] gives what the buffer of [token_split] holds at each line.
    A line that gives no parameter leaves the loop with the result of [token_split], which
    was [STD_E_OK]. *)
Fixpoint load_lines (fuel : nat) (junk : nat → list Z) (f : list Z) cfg (c : TokenContainerType)
    : outcome (Std_ReturnType * CpuEmuDevCfgType * TokenContainerType) :=
  match fuel with
  | O => Ok (STD_E_OK, cfg, c)
  | S fuel =>
      let '(line, f) := file_getline 4096 f in
      if zlen line =? 0 then Ok (STD_E_OK, cfg, c)
      else
        '(err, c) ← token_split c (junk fuel) line;
        if negb (std_ok err) then Ok (err, cfg, c)
        else
          p ← line_param cfg c;
          match p with
          | Some p => load_lines fuel junk f (add_param p cfg) c
          | None => Ok (err, cfg, c)
          end
  end.

(** Every iteration reads a byte or ends the loop. *)
Definition cpuemu_load_devcfg (junk : nat → list Z) (path : list Z) (filepath : TokenStringType) cfg (c : TokenContainerType)
    : outcome (Std_ReturnType * CpuEmuDevCfgType * TokenContainerType) :=
  let cfg := mkDevCfg 0 (params cfg) in
  '(ret, filepath) ← token_string_set filepath path;
  if negb ret then Ok (STD_E_INVALID, cfg, c)
  else match file_contents (cstring (ts_str filepath)) with
       | None => Ok (STD_E_NOENT, cfg, c)
       | Some f => load_lines (S (length f)) junk f cfg c
       end.

(** The first of the parameters in use with a property. *)
Definition first_param (p : param → bool) cfg : option (Z * param) :=
  find_index 0 (take (Z.to_nat (param_num cfg)) (params cfg)) p.
Definition has_key (key : list Z) (type : TokenEnumType) (p : param) : bool :=
  bool_decide (tk_type (p_value p) = type) && token_strcmp (body_str (p_key p)) (mkStr (zlen key) key).

Definition cpuemu_get_devcfg_value (key : list Z) cfg : Std_ReturnType * option Z :=
  match first_param (has_key key TOKEN_TYPE_VALUE_DEC) cfg with
  | Some (_, p) => (STD_E_OK, Some (body_dec (p_value p)))
  | None => (STD_E_NOENT, None)
  end.
Definition cpuemu_get_devcfg_value_hex (key : list Z) cfg : Std_ReturnType * option Z :=
  match first_param (has_key key TOKEN_TYPE_VALUE_HEX) cfg with
  | Some (_, p) => (STD_E_OK, Some (u32 (body_hex (p_value p))))
  | None => (STD_E_NOENT, None)
  end.

Definition strchr (s : list Z) (c : Z) : option Z := fst <$> find_index 0 s (λ x, x =? c).

(** What precedes the brace is dropped, the new length counts the terminator. *)
Definition cpuemu_env_parse_devcfg_string (t : TokenStringType) : outcome TokenStringType :=
  let s := cstring (ts_str t) in
  match strchr s 123, strchr s 125 with
  | Some start, Some end_ =>
      let len := end_ - start - 1 in
      if len =? 0 then Ok t
      else if (len <? 0) || (TOKEN_STRING_MAX_SIZE <? len) then Fault OutOfBounds
      else match getenv (take (Z.to_nat len) (drop (Z.to_nat (start + 1)) s)) with
           | None => Ok t
           | Some ep =>
               let out := ep ++ drop (Z.to_nat (end_ + 1)) s in
               if TOKEN_STRING_MAX_SIZE <=? zlen out then Fault OutOfBounds
               else d ← put_terminated (ts_str t) 0 out; Ok (mkStr (zlen out + 1) d)
           end
  | _, _ => Ok t
  end.
Definition env_parse (t : TokenValueType) : outcome TokenValueType :=
  b ← cpuemu_env_parse_devcfg_string (body_str t); Ok (mkTok (tk_type t) b).

(** The pointer handed out is the C string at it. *)
Definition cpuemu_get_devcfg_string (key : list Z) cfg : outcome (Std_ReturnType * option (list Z) * CpuEmuDevCfgType) :=
  match first_param (has_key key TOKEN_TYPE_STRING) cfg with
  | Some (i, p) =>
      v ← env_parse (p_value p);
      Ok (STD_E_OK, Some (cstring (ts_str (body_str v))),
          mkDevCfg (param_num cfg) (zput (params cfg) i (mkParam (p_key p) v (p_second_value p) (p_value_num p))))
  | None => Ok (STD_E_NOENT, None, cfg)
  end.

(** The parameter with the given number among those that match. *)
Fixpoint find_nth {A} (n : nat) (i : Z) (l : list A) (p : A → bool) : option (Z * A) :=
  match l with
  | [] => None
  | x :: l =>
      if p x then match n with O => Some (i, x) | S n => find_nth n (i + 1) l p end
      else find_nth n (i + 1) l p
  end.
Definition is_pair (key : list Z) (p : param) : bool :=
  (p_value_num p =? 2) && bool_decide (tk_type (p_value p) = TOKEN_TYPE_STRING) &&
  bool_decide (tk_type (p_second_value p) = TOKEN_TYPE_STRING) && token_strcmp (body_str (p_key p)) (mkStr (zlen key) key).
Definition cpuemu_get_devcfg_string_pair_at (key : list Z) (occurrence : Z) cfg
    : outcome (Std_ReturnType * option (list Z * list Z) * CpuEmuDevCfgType) :=
  match find_nth (Z.to_nat occurrence) 0 (take (Z.to_nat (param_num cfg)) (params cfg)) (is_pair key) with
  | Some (i, p) =>
      v ← env_parse (p_value p); w ← env_parse (p_second_value p);
      Ok (STD_E_OK, Some (cstring (ts_str (body_str v)), cstring (ts_str (body_str w))),
          mkDevCfg (param_num cfg) (zput (params cfg) i (mkParam (p_key p) v w (p_value_num p))))
  | None => Ok (STD_E_NOENT, None, cfg)
  end.

(** ** The memory configuration *)

(** What memory from [realloc] holds: the fields that a line does not set. *)
Context (fresh_start : Z) (fresh_flag : bool).

(** The first two characters of the fourth token. *)
Definition analize_memmap_arguments (c : TokenContainerType) (m : MemoryAddressType) : outcome MemoryAddressType :=
  if tk_num c <=? 3 then
    Ok (mkMemory (m_type m) (m_start m) (m_size m) (m_mmap_addr m) (m_extdev m) false false)
  else
    t ← oob (zget (tk_array c) 3);
    a ← oob (zget (ts_str (body_str t)) 0); b ← oob (zget (ts_str (body_str t)) 1);
    Ok (mkMemory (m_type m) (m_start m) (m_size m) (m_mmap_addr m) (m_extdev m)
          ((a =? 88) || (b =? 88)) ((a =? 86) || (b =? 86))).

Definition with_start (start : Z) (m : MemoryAddressType) : MemoryAddressType :=
  mkMemory (m_type m) start (m_size m) (m_mmap_addr m) (m_extdev m) (m_executable m) (m_elf_load_from_vaddr m).
(** The map and the files it maps, which device calls of the guest can lock. *)
Record memmap_state := mkMemmapState { mm_map : MemoryAddressMapType; mm_files : list AthrillDeviceMmapInfoType }.
Definition on_map (f : MemoryAddressMapType → MemoryAddressMapType) (s : memmap_state) : memmap_state :=
  mkMemmapState (f (mm_map s)) (mm_files s).
Definition add_rom (m : MemoryAddressType) : memmap_state → memmap_state :=
  on_map (λ map, mkMemap (rom map ++ [m]) (ram map) (dev map)).
Definition add_ram (m : MemoryAddressType) : memmap_state → memmap_state :=
  on_map (λ map, mkMemap (rom map) (ram map ++ [m]) (dev map)).
Definition add_dev (m : MemoryAddressType) : memmap_state → memmap_state :=
  on_map (λ map, mkMemap (rom map) (ram map) (dev map ++ [m])).
Definition add_mmap (info : AthrillDeviceMmapInfoType) (m : MemoryAddressType) (s : memmap_state) : memmap_state :=
  add_ram m (mkMemmapState (mm_map s) (mm_files s ++ [info])).

Definition mapped_size (file_size : Z) : Z :=
  let size := u32 (u64 (u64 (file_size + 8191) / 8192 * 8)) in if size =? 0 then 8 else size.

(** The header of a device library, if it can be used. *)
Definition usable_device (path : list Z) : option AthrillExDeviceHeaderType :=
  match shared_library path with
  | Some (Some h) =>
      if (magicno h =? ATHRILL_EXTERNAL_DEVICE_MAGICNO) && (version h =? ATHRILL_EXTERNAL_DEVICE_VERSION) &&
         negb (memory_size h <=? 0)
      then Some h else None
  | _ => None
  end.

(** One line: an entry, nothing (the line is skipped), or an error.  [put] says where the
    entry goes. *)
Inductive line_result :=
  | LineEntry (put : MemoryAddressType → memmap_state → memmap_state) (m : MemoryAddressType)
  | LineSkipped
  | LineError (m : MemoryAddressType) (e : Std_ReturnType).

Definition memmap_line (c : TokenContainerType) : outcome (TokenContainerType * line_result) :=
  t0 ← oob (zget (tk_array c) 0); t1 ← oob (zget (tk_array c) 1); t2 ← oob (zget (tk_array c) 2);
  let kind := cstring (ts_str (body_str t0)) in
  let start := uaddr (body_hex t1) in
  let size := body_dec t2 in
  let entry type size mmap := mkMemory type fresh_start size mmap None false false in
  if bool_decide (kind = str_of "ROM") then
    m ← analize_memmap_arguments c (entry MemoryAddressImplType_ROM size None);
    Ok (c, LineEntry add_rom (with_start start m))
  else if bool_decide (kind = str_of "RAM") then
    m ← analize_memmap_arguments c (entry MemoryAddressImplType_RAM size None);
    Ok (c, LineEntry add_ram (with_start start m))
  else if bool_decide (kind = str_of "MMAP") then
    if negb osdep_supports_mapped_memory then Ok (c, LineSkipped)
    else
      b ← cpuemu_env_parse_devcfg_string (body_str t2);
      arr ← oob (zset (tk_array c) 2 (mkTok (tk_type t2) b));
      let c := mkTokens (tk_num c) arr in
      let filepath := cstring (ts_str b) in
      match osdep_open_mapped_file filepath with
      | None => Fault AssertFail
      | Some (fd, file_size) =>
          match osdep_map_open_file filepath (uaddr (mapped_size file_size * 1024)) with
          | None => Fault AssertFail
          | Some address =>
              m ← analize_memmap_arguments c (entry MemoryAddressImplType_MMAP (mapped_size file_size) (Some address));
              Ok (c, LineEntry (add_mmap (mkMmapInfo fd (body_hex t1))) (with_start start m))
          end
      end
  else if bool_decide (kind = str_of "MALLOC") then
    if negb osdep_supports_mapped_memory then Ok (c, LineSkipped)
    else
      let m := entry MemoryAddressImplType_MALLOC size None in
      if negb (size mod (MPU_MALLOC_REGION_UNIT_SIZE * MPU_MALLOC_REGION_UNIT_GROUP_NUM) =? 0) then
        Ok (c, LineError m STD_E_INVALID)
      else m ← analize_memmap_arguments c m; Ok (c, LineEntry add_ram (with_start start m))
  else if EXDEV_ENABLE && bool_decide (kind = str_of "DEV") then
    match usable_device (cstring (ts_str (body_str t2))) with
    | Some h =>
        Ok (c, LineEntry add_dev
          (mkMemory MemoryAddressImplType_DEV start (memory_size h) None (Some (ex_device h)) fresh_flag fresh_flag))
    | None => Ok (c, LineSkipped)
    end
  else Ok (c, LineSkipped).

(** The lines; as above, a line with a wrong number of tokens ends the loop with [STD_E_OK]. *)
Fixpoint memmap_lines (fuel : nat) (junk : nat → list Z) (f : list Z) (map : memmap_state) (c : TokenContainerType)
    : outcome (Std_ReturnType * memmap_state * TokenContainerType) :=
  match fuel with
  | O => Ok (STD_E_OK, map, c)
  | S fuel =>
      let '(line, f) := file_getline 4096 f in
      if zlen line =? 0 then Ok (STD_E_OK, map, c)
      else
        '(err, c) ← token_split c (junk fuel) line;
        if negb (std_ok err) then Ok (err, map, c)
        else if negb (tk_num c =? 3) && negb (tk_num c =? 4) then Ok (err, map, c)
        else
          '(c, r) ← memmap_line c;
          match r with
          | LineEntry put m => memmap_lines fuel junk f (put m map) c
          | LineSkipped => memmap_lines fuel junk f map c
          | LineError m e => Ok (e, add_ram m map, c)
          end
  end.

Definition cpuemu_load_memmap (junk : nat → list Z) (path : list Z) (filepath : TokenStringType)
    (files : list AthrillDeviceMmapInfoType) (c : TokenContainerType)
    : outcome (Std_ReturnType * memmap_state * TokenContainerType) :=
  let map := mkMemmapState (mkMemap [] [] []) files in
  '(ret, filepath) ← token_string_set filepath path;
  if negb ret then Ok (STD_E_INVALID, map, c)
  else match file_contents (cstring (ts_str filepath)) with
       | None => Ok (STD_E_NOENT, map, c)
       | Some f => memmap_lines (S (length f)) junk f map c
       end.

(** ** The FIFO configuration *)

Record CpuEmuFifoFileType := mkFifoFile {
  folder_path : TokenStringType; rx_path : TokenStringType; tx_path : TokenStringType }.

Definition parse_fifopath (stale : TokenContainerType) (junk : list Z) (buffer : list Z) (ff : CpuEmuFifoFileType)
    : outcome (Std_ReturnType * CpuEmuFifoFileType) :=
  '(err, c) ← token_split stale junk buffer;
  if negb (std_ok err) then Ok (err, ff)
  else if negb (tk_num c =? 2) then Ok (STD_E_INVALID, ff)
  else
    t0 ← oob (zget (tk_array c) 0); t1 ← oob (zget (tk_array c) 1);
    if negb (bool_decide (tk_type t0 = TOKEN_TYPE_STRING)) then Ok (STD_E_INVALID, ff)
    else if negb (bool_decide (tk_type t1 = TOKEN_TYPE_STRING)) then Ok (STD_E_INVALID, ff)
    else if token_strcmp (token_const "TX") (body_str t0) then
      if 0 <? ts_len (tx_path ff) then Ok (STD_E_INVALID, ff)
      else
        '(ok, tx) ← token_merge (folder_path ff) (body_str t1);
        Ok (if (ok : bool) then STD_E_OK else STD_E_INVALID, mkFifoFile (folder_path ff) (rx_path ff) tx)
    else if token_strcmp (token_const "RX") (body_str t0) then
      if 0 <? ts_len (rx_path ff) then Ok (STD_E_INVALID, ff)
      else
        '(ok, rx) ← token_merge (folder_path ff) (body_str t1);
        Ok (if (ok : bool) then STD_E_OK else STD_E_INVALID, mkFifoFile (folder_path ff) rx (tx_path ff))
    else Ok (STD_E_OK, ff).

Definition path_of (t : TokenStringType) : option (list Z) :=
  if 0 <? ts_len t then Some (cstring (ts_str t)) else None.
Definition cpuemu_get_comm_rx_fifo (ff : CpuEmuFifoFileType) : option (list Z) := path_of (rx_path ff).
Definition cpuemu_get_comm_tx_fifo (ff : CpuEmuFifoFileType) : option (list Z) := path_of (tx_path ff).
(** [stat] of a null pointer fails. *)
Definition path_exists (p : option (list Z)) : bool := match p with Some p => file_exist p | None => false end.

(** The error path forgets both paths; at a missing second line [err] is still the result of
    the first. *)
Definition fifo_error (err : Std_ReturnType) (ff : CpuEmuFifoFileType) : Std_ReturnType * CpuEmuFifoFileType :=
  (err, mkFifoFile (folder_path ff) (mkStr 0 (ts_str (rx_path ff))) (mkStr 0 (ts_str (tx_path ff)))).
Definition cpuemu_set_comm_fifocfg (stale : nat → TokenContainerType) (junk : nat → list Z) (fifocfg : list Z)
    (filepath : TokenStringType) (ff : CpuEmuFifoFileType) : outcome (Std_ReturnType * CpuEmuFifoFileType) :=
  '(ret, filepath) ← token_string_set filepath fifocfg;
  if negb (ret : bool) then Ok (STD_E_INVALID, ff)
  else match file_contents (cstring (ts_str filepath)) with
  | None => Ok (STD_E_NOENT, ff)
  | Some f =>
      let len := file_get_parent_folder_pathlen fifocfg in
      d ← put_terminated (ts_str (folder_path ff)) 0 (take (Z.to_nat len) fifocfg);
      let ff := mkFifoFile (mkStr len d) (rx_path ff) (tx_path ff) in
      let '(line, f) := file_getline 4096 f in
      if zlen line =? 0 then Ok (fifo_error STD_E_INVALID ff)
      else
        '(err, ff) ← parse_fifopath (stale 0%nat) (junk 0%nat) line ff;
        if negb (std_ok err) then Ok (fifo_error err ff)
        else
          let '(line, f) := file_getline 4096 f in
          if zlen line =? 0 then Ok (fifo_error err ff)
          else
            '(err, ff) ← parse_fifopath (stale 1%nat) (junk 1%nat) line ff;
            if negb (std_ok err) then Ok (fifo_error err ff)
            else if negb (path_exists (cpuemu_get_comm_rx_fifo ff)) then Ok (fifo_error STD_E_INVALID ff)
            else if negb (path_exists (cpuemu_get_comm_tx_fifo ff)) then Ok (fifo_error STD_E_INVALID ff)
            else Ok (STD_E_OK, ff)
  end.
End config.
