(* ===== verification/DeviceConfigFacts.v ===== *)
(** * What the configuration files configure

    The device configuration as a list of settings: a file is read back as the settings
    written in it, a lookup finds the first setting of its type, and reading never fails on
    short lines, whatever the file holds.  The memory configuration is read back as the
    memory map it describes. *)

From Stdlib Require Import String Ascii.
From S2P Require Import Prelude Mpu MpuMalloc Loader CpuControl CpuControlFacts Token TokenFacts DbgParser DbgParserFacts DeviceConfig.
Open Scope Z_scope.

(** ** Lines *)

Definition no_newline (l : list Z) : Prop := Forall (λ c, c ≠ 10) l.

Lemma getline_line n l rest : no_newline l → (length l < n)%nat → getline n (l ++ 10 :: rest) = (l, rest).
Proof.
  intros Hl. revert n. induction Hl as [|c l Hc _ IH]; intros [|n] Hn; cbn in Hn; try lia; cbn [getline app]; [done|].
  destruct (Z.eqb_spec c 10); [done|]. by rewrite (IH n) by lia.
Qed.
Lemma file_getline_line l rest : no_newline l → zlen l < 4095 → file_getline 4096 (l ++ 10 :: rest) = (l, rest).
Proof. intros Hl Hn. apply getline_line; [done|]. unfold zlen in Hn. lia. Qed.

Lemma getline_len n f : (length (fst (getline n f)) ≤ n)%nat ∧
  (length (fst (getline n f)) + length (snd (getline n f)) ≤ length f)%nat.
Proof.
  revert f. induction n as [|n IH]; intros [|c f]; cbn [getline]; try (cbn; lia).
  destruct (c =? 10); [cbn; lia|]. specialize (IH f). destruct (getline n f) as [l r]. cbn in *. lia.
Qed.

(** The words of a line are no longer than the line. *)
Lemma words_len line : Forall (λ w, zlen w ≤ zlen line) (words None line).
Proof.
  unfold words. enough (Hg : ∀ acc, Forall (λ w, zlen w ≤ zlen acc + zlen line) (words_from None acc line)).
  { eapply Forall_impl; [apply (Hg [])|]. intros w Hw. cbn beta in Hw. change (zlen []) with 0 in Hw. lia. }
  induction line as [|c line IH]; intros acc; cbn [words_from].
  - destruct acc; repeat constructor. unfold zlen. simpl. lia.
  - assert (Hc : zlen (c :: line) = 1 + zlen line) by (unfold zlen; simpl; lia). rewrite Hc.
    assert (H0 : Forall (λ w, zlen w ≤ zlen acc + (1 + zlen line)) (words_from None [] line)).
    { eapply Forall_impl; [apply (IH [])|]. intros w Hw. cbn beta in Hw. change (zlen []) with 0 in Hw. pose proof (zlen_nonneg acc). lia. }
    destruct (is_delimiter c None).
    + destruct acc as [|x acc]; [done|]. constructor; [|done]. pose proof (zlen_nonneg line). lia.
    + eapply Forall_impl; [apply IH|]. intros w Hw. cbn beta in Hw. rewrite zlen_app in Hw. change (zlen [c]) with 1 in Hw. lia.
Qed.

(** Any line of at most 128 words is split into them. *)
Lemma split_line `{AddrWidth} c junk line :
  tokens_wf (tk_array c) → zlen junk = TOKEN_STRING_MAX_SIZE → zlen line ≤ 4095 →
  zlen (words None line) ≤ TOKEN_CONTAINER_MAX_SIZE →
  ∃ c', token_split c junk line = Ok (STD_E_OK, c') ∧ tk_num c' = zlen (words None line) ∧ tokens_wf (tk_array c') ∧
    ∀ i w, zget (words None line) i = Some w → ∃ t, zget (tk_array c') i = Some t ∧ tok_is t (classify w).
Proof.
  intros Hwf Hj Hl Hn. pose proof (token_split_words c junk line Hwf Hj) as He.
  destruct (split_ends_fit _ _ _ _ He) as (arr & -> & Hawf & Hin & _); [lia|lia|done| |].
  { eapply Forall_impl; [apply words_len|]. intros w Hw. unfold TOKEN_STRING_MAX_SIZE. cbn beta in Hw. lia. }
  eexists. split; [done|]. split_and!; [done|done|]. intros i w Hi. destruct (Hin i w Hi) as (t & Ht & ? & ?).
  exists t. by rewrite Z.add_0_l in Ht.
Qed.

Section config.
Context `{AddrWidth} `{HostFiles} `{LoaderConfig}.
Implicit Types (cfg : CpuEmuDevCfgType).

(** ** Well-formed configurations *)

Definition param_wf (p : param) : Prop := tok_wf (p_key p) ∧ tok_wf (p_value p) ∧ tok_wf (p_second_value p).
Record devcfg_wf cfg : Prop := {
  cw_len : zlen (params cfg) = CPUEMU_DEVCFG_PARAM_MAXNUM;
  cw_num : 0 ≤ param_num cfg ≤ CPUEMU_DEVCFG_PARAM_MAXNUM;
  cw_params : Forall param_wf (params cfg);
}.
Definition junk_fits (junk : nat → list Z) : Prop := ∀ n, zlen (junk n) = TOKEN_STRING_MAX_SIZE.

(** The lines [file_getline] cuts a file into, until an empty one. *)
Fixpoint lines_of (fuel : nat) (f : list Z) : list (list Z) :=
  match fuel with
  | O => []
  | S fuel =>
      let '(line, f) := file_getline 4096 f in
      if zlen line =? 0 then [] else line :: lines_of fuel f
  end.
Definition few_words (f : list Z) : Prop :=
  Forall (λ l, zlen (words None l) ≤ TOKEN_CONTAINER_MAX_SIZE) (lines_of (S (length f)) f).

Lemma tokens_get arr i : tokens_wf arr → 0 ≤ i < TOKEN_CONTAINER_MAX_SIZE → ∃ t, zget arr i = Some t ∧ tok_wf t.
Proof.
  intros [Hl Hw] Hi. destruct (zget_is_Some arr i) as [t Ht]; [lia|]. exists t. split; [done|].
  rewrite Forall_forall in Hw. by eapply Hw, zget_elem.
Qed.

Lemma add_param_wf p cfg : devcfg_wf cfg → param_wf p → param_num cfg < CPUEMU_DEVCFG_PARAM_MAXNUM → devcfg_wf (add_param p cfg).
Proof.
  intros [Hl Hn Hw] Hp Hlt. split; cbn; [by rewrite zlen_zput|lia|]. by apply Forall_insert.
Qed.

(** One iteration on a line of few words. *)
Lemma load_line fuel junk f line rest cfg c :
  file_getline 4096 f = (line, rest) → 0 < zlen line ≤ 4095 → zlen (words None line) ≤ TOKEN_CONTAINER_MAX_SIZE →
  junk_fits junk → tokens_wf (tk_array c) →
  ∃ c', tokens_wf (tk_array c') ∧ tk_num c' = zlen (words None line) ∧
    (∀ i w, zget (words None line) i = Some w → ∃ t, zget (tk_array c') i = Some t ∧ tok_is t (classify w)) ∧
    load_lines (S fuel) junk f cfg c =
      (p ← line_param cfg c';
       match p with Some p => load_lines fuel junk rest (add_param p cfg) c' | None => Ok (STD_E_OK, cfg, c') end).
Proof.
  intros Hg Hl Hn Hj Hc. destruct (split_line c (junk fuel) line Hc (Hj fuel) (proj2 Hl) Hn) as (c' & Hs & Hnum & Hwf & Hin).
  exists c'. split_and!; try done. cbn [load_lines]. rewrite Hg.
  replace (zlen line =? 0) with false by lia. rewrite Hs. done.
Qed.

Lemma line_param_ok cfg c : devcfg_wf cfg → tokens_wf (tk_array c) →
  ∃ p, line_param cfg c = Ok p ∧ ∀ x, p = Some x → param_wf x ∧ param_num cfg < CPUEMU_DEVCFG_PARAM_MAXNUM.
Proof.
  intros [Hl Hn Hw] Hc. unfold line_param.
  destruct (tokens_get _ 0 Hc) as (t0 & -> & ?); [done|]. destruct (tokens_get _ 1 Hc) as (t1 & -> & ?); [done|].
  destruct (tokens_get _ 2 Hc) as (t2 & -> & ?); [done|]. cbn [oob mbind outcome_bind].
  destruct (negb _ && _); [by exists None|]. destruct (Z.leb_spec CPUEMU_DEVCFG_PARAM_MAXNUM (param_num cfg)); [by exists None|].
  destruct (zget_is_Some (params cfg) (param_num cfg)) as [old Hold]; [lia|]. rewrite Hold. cbn [oob mbind outcome_bind].
  eexists. split; [done|]. intros x [= <-]. split; [|done]. split_and!; [done|done|]. cbn.
  destruct (tk_num c =? 3); [done|]. rewrite Forall_forall in Hw. apply (Hw old). by eapply zget_elem.
Qed.

Lemma load_lines_ok fuel junk f cfg c :
  junk_fits junk → tokens_wf (tk_array c) → devcfg_wf cfg →
  Forall (λ l, zlen (words None l) ≤ TOKEN_CONTAINER_MAX_SIZE) (lines_of fuel f) →
  ∃ cfg' c', load_lines fuel junk f cfg c = Ok (STD_E_OK, cfg', c') ∧ devcfg_wf cfg' ∧ tokens_wf (tk_array c').
Proof.
  intros Hj. revert f cfg c. induction fuel as [|fuel IH]; intros f cfg c Hc Hw Hl; [by exists cfg, c|].
  cbn [lines_of] in Hl. pose proof (getline_len (Z.to_nat (4096 - 1)) f) as [Hlen _]. fold (file_getline 4096 f) in Hlen.
  destruct (file_getline 4096 f) as [line rest] eqn:Hg. cbn [fst] in Hlen.
  assert (zlen line ≤ 4095) by (unfold zlen; lia). pose proof (zlen_nonneg line).
  destruct (Z.eqb_spec (zlen line) 0) as [E|E].
  { exists cfg, c. cbn [load_lines]. rewrite Hg, E. by split_and!. }
  apply Forall_cons in Hl as [Hn Hl].
  destruct (load_line fuel junk f line rest cfg c Hg) as (c' & Hc' & _ & _ & ->); [lia|done..|].
  destruct (line_param_ok cfg c' Hw Hc') as (p & -> & Hp). cbn [mbind outcome_bind]. destruct p as [p|]; [|by exists cfg, c'].
  destruct (Hp p eq_refl) as [Hpw Hlt]. apply IH; [done|by apply add_param_wf|done].
Qed.

(** ** Settings *)

Inductive setting :=
  | Setting (key value : list Z)
  | HostFunction (guest host : list Z).
Definition HOST_FUNCTION : string := "DEVICE_CONFIG_HOST_FUNCTION".
Definition setting_words (s : setting) : list (list Z) :=
  match s with
  | Setting k v => [k; v]
  | HostFunction g h => [str_of HOST_FUNCTION; g; h]
  end.
(** The words of a setting, separated by blanks, on a line. *)
Definition setting_line (s : setting) : list Z := join (setting_words s) ++ [10].
Definition settings_text (ss : list setting) : list Z := concat (setting_line <$> ss).

Definition setting_wf (s : setting) : Prop :=
  Forall is_word (setting_words s) ∧ zlen (join (setting_words s)) < 4095 ∧
  match s with Setting k _ => is_symbol k | HostFunction _ _ => True end.

Definition key_of (s : setting) : list Z := match s with Setting k _ => k | HostFunction _ _ => str_of HOST_FUNCTION end.
Definition value_of (s : setting) : word_value := classify match s with Setting _ v => v | HostFunction g _ => g end.

(** A parameter holds a setting. *)
Definition param_is (p : param) (s : setting) : Prop :=
  tok_is (p_key p) (VStr (key_of s)) ∧ tok_is (p_value p) (value_of s) ∧
  match s with
  | Setting _ _ => p_value_num p = 1
  | HostFunction _ h => p_value_num p = 2 ∧ tok_is (p_second_value p) (classify h)
  end.
Definition used cfg : list param := take (Z.to_nat (param_num cfg)) (params cfg).
(** The table holds the settings in order. *)
Definition cfg_is cfg (ss : list setting) : Prop := devcfg_wf cfg ∧ param_num cfg = zlen ss ∧ Forall2 param_is (used cfg) ss.

Lemma take_zput {A} (l : list A) n x : 0 ≤ n < zlen l → take (Z.to_nat (n + 1)) (zput l n x) = take (Z.to_nat n) l ++ [x].
Proof.
  intros Hn. replace (Z.to_nat (n + 1)) with (S (Z.to_nat n)) by lia. unfold zput, zlen in *.
  rewrite (take_S_r _ _ x); [by rewrite take_insert_ge by lia|]. apply list_lookup_insert_eq. lia.
Qed.
Lemma cfg_is_add cfg ss p s : cfg_is cfg ss → param_wf p → param_is p s → zlen ss < CPUEMU_DEVCFG_PARAM_MAXNUM →
  cfg_is (add_param p cfg) (ss ++ [s]).
Proof.
  intros (Hw & Hn & Hp) Hpw Hs Hlt. split_and!.
  - apply add_param_wf; [done|done|lia].
  - cbn. rewrite zlen_app, Hn. done.
  - unfold used. cbn. rewrite take_zput by (destruct Hw as [-> _ _]; pose proof (zlen_nonneg ss); lia).
    by apply Forall2_app; [|constructor].
Qed.

Lemma host_function_word : is_word (str_of HOST_FUNCTION).
Proof. by apply lit_word. Qed.
Lemma host_function_class : classify (str_of HOST_FUNCTION) = VStr (str_of HOST_FUNCTION).
Proof. by vm_compute. Qed.

Lemma join_no_newline ws : Forall is_word ws → no_newline (join ws).
Proof.
  assert (Hw : ∀ w, is_word w → no_newline w).
  { intros w (_ & Hd & _). eapply Forall_impl; [exact Hd|]. by intros c Hc ->. }
  induction 1 as [|w ws ? Hws IH]; [constructor|]. destruct ws as [|w' ws]; [by apply Hw|].
  change (join (w :: w' :: ws)) with (w ++ 32 :: join (w' :: ws)). apply Forall_app. split; [by apply Hw|].
  by constructor.
Qed.
Lemma join_nonempty w ws : is_word w → 0 < zlen (join (w :: ws)).
Proof. intros (Hne & _). destruct w as [|x w]; [done|]. destruct ws; unfold zlen; simpl; lia. Qed.
Lemma setting_few s : zlen (setting_words s) ≤ TOKEN_CONTAINER_MAX_SIZE.
Proof. by destruct s. Qed.

Lemma settings_text_len ss : (length ss ≤ length (settings_text ss))%nat.
Proof.
  induction ss as [|s ss IH]; [done|]. change (settings_text (s :: ss)) with (setting_line s ++ settings_text ss).
  rewrite length_app. unfold setting_line at 1. rewrite length_app. cbn [length]. lia.
Qed.

(** A line of the file. *)
Lemma load_setting fuel junk s rest cfg ss c :
  setting_wf s → junk_fits junk → tokens_wf (tk_array c) → cfg_is cfg ss → zlen ss < CPUEMU_DEVCFG_PARAM_MAXNUM →
  ∃ cfg' c', load_lines (S fuel) junk (setting_line s ++ rest) cfg c = load_lines fuel junk rest cfg' c' ∧
    cfg_is cfg' (ss ++ [s]) ∧ tokens_wf (tk_array c').
Proof.
  intros (Hws & Hl & Hk) Hj Hc Hcfg Hlt. unfold setting_line. rewrite <- app_assoc. cbn [app].
  pose proof (words_join _ Hws) as Hwj. pose proof (setting_few s) as Hfew.
  destruct (load_line fuel junk (join (setting_words s) ++ 10 :: rest) (join (setting_words s)) rest cfg c)
    as (c' & Hc' & Hnum & Hin & ->); [|split; [|lia]|by rewrite Hwj|done|done|].
  { apply file_getline_line; [by apply join_no_newline|done]. }
  { destruct s; apply Forall_cons in Hws as [? _]; by apply join_nonempty. }
  rewrite Hwj in Hnum, Hin. pose proof Hcfg as (Hw & Hn & _).
  destruct (line_param_ok cfg c' Hw Hc') as (p & Hlp & Hpw).
  assert (∃ x, p = Some x ∧ param_is x s) as (x & -> & Hx).
  { revert Hlp. unfold line_param.
    destruct (tokens_get _ 2 Hc') as (t2 & Ht2 & _); [done|]. rewrite Ht2.
    destruct s as [k v|g h]; cbn [setting_words] in Hnum, Hin;
      destruct (Hin 0 _ eq_refl) as (t0 & Ht0 & Hv0), (Hin 1 _ eq_refl) as (t1 & Ht1 & Hv1); rewrite Ht0, Ht1;
      cbn [oob mbind outcome_bind].
    - rewrite Hnum. change (zlen [k; v]) with 2. cbn [Z.eqb Pos.eqb negb andb].
      replace (CPUEMU_DEVCFG_PARAM_MAXNUM <=? param_num cfg) with false by lia.
      destruct (zget (params cfg) _); [|done]. cbn [oob mbind outcome_bind]. intros [= <-]. eexists. split; [done|].
      destruct Hk as [_ Hk]. rewrite Hk in Hv0. by split_and!.
    - destruct (Hin 2 _ eq_refl) as (t2' & Ht2' & Hv2). rewrite Ht2 in Ht2'. injection Ht2' as <-.
      rewrite host_function_class in Hv0. pose proof (cstring_str _ _ Hv0) as [Hcs _].
      rewrite Hnum. change (zlen [str_of HOST_FUNCTION; g; h]) with 3. cbn [Z.eqb Pos.eqb negb andb].
      rewrite bool_decide_true by done. cbn [negb].
      replace (CPUEMU_DEVCFG_PARAM_MAXNUM <=? param_num cfg) with false by lia.
      destruct (zget (params cfg) _); [|done]. cbn [oob mbind outcome_bind]. intros [= <-]. eexists. split; [done|].
      by split_and!. }
  rewrite Hlp. cbn [mbind outcome_bind]. eexists _, c'. split; [done|]. split; [|done].
  apply cfg_is_add; [done| |done|done]. by apply Hpw.
Qed.

Lemma load_settings ss0 ss fuel junk rest cfg c :
  Forall setting_wf ss → junk_fits junk → tokens_wf (tk_array c) → cfg_is cfg ss0 →
  zlen ss0 + zlen ss ≤ CPUEMU_DEVCFG_PARAM_MAXNUM →
  ∃ cfg' c', load_lines (length ss + fuel) junk (settings_text ss ++ rest) cfg c = load_lines fuel junk rest cfg' c' ∧
    cfg_is cfg' (ss0 ++ ss) ∧ tokens_wf (tk_array c').
Proof.
  intros Hss Hj. revert ss0 cfg c. induction Hss as [|s ss Hs _ IH]; intros ss0 cfg c Hc Hcfg Hn.
  - rewrite app_nil_r. by exists cfg, c.
  - assert (Hz : zlen (s :: ss) = 1 + zlen ss) by (unfold zlen; simpl; lia). pose proof (zlen_nonneg ss).
    change (settings_text (s :: ss)) with (setting_line s ++ settings_text ss). rewrite <- app_assoc. cbn [length Nat.add].
    destruct (load_setting (length ss + fuel) junk s (settings_text ss ++ rest) cfg ss0 c Hs Hj Hc Hcfg) as (cfg1 & c1 & -> & Hcfg1 & Hc1); [lia|].
    destruct (IH (ss0 ++ [s]) cfg1 c1 Hc1 Hcfg1) as (cfg2 & c2 & -> & Hcfg2 & Hc2).
    { rewrite zlen_app. change (zlen [s]) with 1. lia. }
    exists cfg2, c2. by rewrite <- app_assoc in Hcfg2.
Qed.

(** What ends a file of settings: nothing, a blank line, or a line that is no setting, which
    is not told apart from the end. *)
Definition ends_here (rest : list Z) : Prop :=
  rest = [] ∨ (∃ r, rest = 10 :: r) ∨
  ∃ ws r, rest = join ws ++ 10 :: r ∧ ws ≠ [] ∧ Forall is_word ws ∧ zlen (join ws) < 4095 ∧
    zlen ws ≤ TOKEN_CONTAINER_MAX_SIZE ∧ zlen ws ≠ 2 ∧ (zlen ws = 3 → ∃ k, head ws = Some k ∧ classify k = VStr k ∧ k ≠ str_of HOST_FUNCTION).

Lemma load_ends fuel junk rest cfg c : ends_here rest → junk_fits junk → tokens_wf (tk_array c) → devcfg_wf cfg →
  ∃ c', load_lines (S fuel) junk rest cfg c = Ok (STD_E_OK, cfg, c').
Proof.
  intros [->|[[r ->]|(ws & r & -> & Hne & Hws & Hl & Hf & Hw2 & Hw3)]] Hj Hc Hw; [by exists c|by exists c|].
  assert (0 < zlen (join ws)) as Hpos.
  { destruct ws as [|w ws]; [done|]. apply Forall_cons in Hws as [? _]. by apply join_nonempty. }
  pose proof (words_join _ Hws) as Hwj.
  destruct (load_line fuel junk (join ws ++ 10 :: r) (join ws) r cfg c) as (c' & Hc' & Hnum & Hin & ->);
    [apply file_getline_line; [by apply join_no_newline|done]|lia|by rewrite Hwj|done|done|].
  rewrite Hwj in Hnum, Hin. exists c'. unfold line_param.
  destruct (tokens_get _ 0 Hc') as (t0 & Ht0 & _); [done|]. destruct (tokens_get _ 1 Hc') as (t1 & -> & _); [done|].
  destruct (tokens_get _ 2 Hc') as (t2 & -> & _); [done|]. rewrite Ht0. cbn [oob mbind outcome_bind].
  replace (tk_num c' =? 2) with false by lia. cbn [negb andb].
  destruct (Z.eqb_spec (tk_num c') 3) as [E|E]; cbn [negb andb]; [|done].
  destruct Hw3 as (k & Hk & Hcl & Hno); [lia|]. destruct ws as [|w ws]; [done|]. injection Hk as ->.
  destruct (Hin 0 k eq_refl) as (t & Ht & Hv). rewrite Ht0 in Ht. injection Ht as <-.
  rewrite Hcl in Hv. destruct (cstring_str _ _ Hv) as [-> _].
  by rewrite bool_decide_false.
Qed.

(** ** Lookups *)

(** The first of the settings with a value for [f]. *)
Definition first_setting {A} (f : setting → option A) (ss : list setting) : option A := head (omap f ss).
Definition when_key {A} (key : list Z) (f : word_value → option A) (s : setting) : option A :=
  if bool_decide (key_of s = key) then f (value_of s) else None.
Definition as_dec (v : word_value) : option Z := match v with VDec n => Some n | _ => None end.
Definition as_hex (v : word_value) : option Z := match v with VHex n => Some (u32 n) | _ => None end.
Definition as_str (v : word_value) : option (list Z) := match v with VStr s => Some s | _ => None end.

Lemma find_related {A B C} (R : A → B → Prop) (p : A → bool) (f : B → option C) i0 l l' :
  Forall2 R l l' → (∀ a b, R a b → p a = true ↔ is_Some (f b)) →
  match find_index i0 l p with
  | Some (_, a) => ∃ b, R a b ∧ is_Some (f b) ∧ head (omap f l') = f b
  | None => head (omap f l') = None
  end.
Proof.
  intros Hl Hp. revert i0. induction Hl as [|a b l l' Hab _ IH]; intros i0; cbn [find_index]; [done|].
  specialize (Hp a b Hab). cbn [omap list_omap].
  destruct (p a); [destruct Hp as [[x Hx] _]; [done|]|destruct (f b) eqn:E; [by destruct Hp as [_ Hp]; discriminate Hp|]].
  - exists b. rewrite Hx. by split_and!.
  - apply IH.
Qed.

Lemma has_key_spec key ty p s : Forall (λ c, c ≠ NUL) key → param_is p s →
  has_key key ty p = bool_decide (type_of (value_of s) = ty) && bool_decide (key_of s = key).
Proof.
  intros Hkey (Hk & Hv & _). unfold has_key. rewrite (tok_is_type _ _ Hv). f_equal.
  pose proof (tok_is_type _ _ Hk) as Ht. destruct Hk as [Hwf Hk]. rewrite token_strcmp_list by done.
  rewrite Hk. apply bool_decide_ext. split; [by intros [= ->]|by intros ->].
Qed.

Lemma first_key {A} key ty (f : word_value → option A) cfg ss : Forall (λ c, c ≠ NUL) key → cfg_is cfg ss →
  (∀ v, is_Some (f v) ↔ type_of v = ty) →
  match first_param (has_key key ty) cfg with
  | Some (_, p) => ∃ s, param_is p s ∧ type_of (value_of s) = ty ∧ first_setting (when_key key f) ss = f (value_of s)
  | None => first_setting (when_key key f) ss = None
  end.
Proof.
  intros Hkey (_ & _ & Hss) Hf. unfold first_param, first_setting.
  pose proof (find_related param_is (has_key key ty) (when_key key f) 0 _ _ Hss) as Hr. unfold used in Hr.
  destruct (find_index 0 _ _) as [[i p]|].
  - destruct Hr as (s & Hs & Hsome & ->).
    + intros a b Hab. rewrite (has_key_spec _ _ _ _ Hkey Hab). unfold when_key. rewrite andb_true_iff, !bool_decide_eq_true, <- Hf.
      case_bool_decide; [tauto|]. split; [tauto|]. by intros [].
    + exists s. split; [done|]. unfold when_key in *. case_bool_decide; [|by destruct Hsome]. by rewrite <- Hf.
  - apply Hr. intros a b Hab. rewrite (has_key_spec _ _ _ _ Hkey Hab). unfold when_key.
    rewrite andb_true_iff, !bool_decide_eq_true, <- Hf. case_bool_decide; [tauto|]. split; [tauto|]. by intros [].
Qed.

Lemma get_value_ok key cfg ss : Forall (λ c, c ≠ NUL) key → cfg_is cfg ss →
  cpuemu_get_devcfg_value key cfg =
    match first_setting (when_key key as_dec) ss with Some n => (STD_E_OK, Some n) | None => (STD_E_NOENT, None) end.
Proof.
  intros Hkey Hcfg. unfold cpuemu_get_devcfg_value.
  assert (∀ v, is_Some (as_dec v) ↔ type_of v = TOKEN_TYPE_VALUE_DEC) as Hd by (intros []; split; try done; by intros []).
  pose proof (first_key key TOKEN_TYPE_VALUE_DEC as_dec cfg ss Hkey Hcfg Hd) as Hf.
  destruct (first_param _ _) as [[i p]|].
  - destruct Hf as (s & (_ & Hv & _) & Hty & ->). destruct (value_of s); try done. cbn. by rewrite (tok_is_dec _ _ Hv).
  - by rewrite Hf.
Qed.
Lemma get_value_hex_ok key cfg ss : Forall (λ c, c ≠ NUL) key → cfg_is cfg ss →
  cpuemu_get_devcfg_value_hex key cfg =
    match first_setting (when_key key as_hex) ss with Some n => (STD_E_OK, Some n) | None => (STD_E_NOENT, None) end.
Proof.
  intros Hkey Hcfg. unfold cpuemu_get_devcfg_value_hex.
  assert (∀ v, is_Some (as_hex v) ↔ type_of v = TOKEN_TYPE_VALUE_HEX) as Hd by (intros []; split; try done; by intros []).
  pose proof (first_key key TOKEN_TYPE_VALUE_HEX as_hex cfg ss Hkey Hcfg Hd) as Hf.
  destruct (first_param _ _) as [[i p]|].
  - destruct Hf as (s & (_ & Hv & _) & Hty & ->). destruct (value_of s); try done. cbn. by rewrite (tok_is_hex _ _ Hv).
  - by rewrite Hf.
Qed.

(** ** Environment references *)

(** The text a string setting stands for: without a brace it is itself; a reference to a
    variable at its beginning is replaced, if the variable is set. *)
Inductive expanded : list Z → list Z → Prop :=
  | expanded_plain v : Forall (λ c, c ≠ 123) v → expanded v v
  | expanded_unset name suffix :
      name ≠ [] → Forall (λ c, c ≠ 125) name → getenv name = None →
      expanded (123 :: name ++ 125 :: suffix) (123 :: name ++ 125 :: suffix)
  | expanded_set name suffix value :
      name ≠ [] → Forall (λ c, c ≠ 125) name → getenv name = Some value → Forall (λ c, c ≠ NUL) value →
      zlen (value ++ suffix) < TOKEN_STRING_MAX_SIZE →
      expanded (123 :: name ++ 125 :: suffix) (value ++ suffix).

Lemma find_char c l r i : Forall (λ x, x ≠ c) l → find_index i (l ++ c :: r) (λ x, x =? c) = Some (i + zlen l, c).
Proof.
  intros Hl. revert i. induction Hl as [|x l Hx _ IH]; intros i; cbn [app find_index].
  - rewrite Z.eqb_refl. do 2 f_equal. unfold zlen. simpl. lia.
  - destruct (Z.eqb_spec x c); [done|]. rewrite IH. do 2 f_equal. unfold zlen. simpl. lia.
Qed.
Lemma strchr_none v c : Forall (λ x, x ≠ c) v → strchr v c = None.
Proof.
  intros Hv. unfold strchr. generalize 0. induction Hv as [|x v Hx _ IH]; intros i; cbn [find_index]; [done|].
  destruct (Z.eqb_spec x c); [done|]. apply IH.
Qed.

Lemma cstring_len l : zlen (cstring l) ≤ zlen l.
Proof. induction l as [|c l IH]; cbn [cstring]; [done|]. destruct (c =? NUL); unfold zlen in *; simpl; lia. Qed.

(** Where the braces of a reference are, and what lies between and after them. *)
Lemma reference_scan name suffix : Forall (λ c, c ≠ 125) name →
  let v := 123 :: name ++ 125 :: suffix in
  strchr v 123 = Some 0 ∧ strchr v 125 = Some (1 + zlen name) ∧ zlen name < zlen v ∧
  take (Z.to_nat (zlen name)) (drop 1 v) = name ∧ drop (Z.to_nat (1 + zlen name + 1)) v = suffix.
Proof.
  intros Hn v. split_and!.
  - done.
  - unfold strchr, v. change (find_index 0 (123 :: name ++ 125 :: suffix) (λ x, x =? 125)) with (find_index 1 (name ++ 125 :: suffix) (λ x, x =? 125)).
    by rewrite find_char.
  - unfold v, zlen. simpl. rewrite length_app. simpl. lia.
  - unfold v, zlen. cbn [drop]. by rewrite Nat2Z.id, drop_0, take_app_length.
  - unfold v, zlen. replace (Z.to_nat _) with (S (length name + 1)) by lia. cbn [drop].
    rewrite drop_app_ge by lia. by replace (length name + 1 - length name)%nat with 1%nat by lia.
Qed.

(** The substitution runs up to the lookup of the variable. *)
Lemma env_parse_reference t name suffix : tok_is t (VStr (123 :: name ++ 125 :: suffix)) → name ≠ [] → Forall (λ c, c ≠ 125) name →
  env_parse t =
    match getenv name with
    | None => Ok t
    | Some value =>
        if TOKEN_STRING_MAX_SIZE <=? zlen (value ++ suffix) then Fault OutOfBounds
        else d ← put_terminated (ts_str (body_str t)) 0 (value ++ suffix);
             Ok (mkTok (tk_type t) (mkStr (zlen (value ++ suffix) + 1) d))
    end.
Proof.
  intros Ht Hne Hn. destruct (cstring_str _ _ Ht) as [Hv _]. destruct Ht as [(Hlen & _) _].
  destruct (reference_scan name suffix Hn) as (Ho & Hc & Hlt & Hname & Hsuf).
  pose proof (cstring_len (ts_str (body_str t))) as Hcl. rewrite Hv in Hcl. unfold body_str in Hcl. rewrite Hlen in Hcl.
  unfold env_parse, cpuemu_env_parse_devcfg_string. rewrite Hv, Ho, Hc. cbv zeta.
  assert (0 < zlen name) by (destruct name; [done|unfold zlen; simpl; lia]).
  replace (1 + zlen name - 0 - 1) with (zlen name) by lia. replace (zlen name =? 0) with false by lia.
  replace (_ || _) with false by lia. change (Z.to_nat (0 + 1)) with 1%nat. rewrite Hname, Hsuf.
  destruct (getenv name) as [value|]; [|by destruct t]. destruct (_ <=? _); [done|].
  by destruct (put_terminated _ _ _).
Qed.

Lemma env_parse_ok t v r : tok_is t (VStr v) → expanded v r →
  ∃ t', env_parse t = Ok t' ∧ cstring (ts_str (body_str t')) = r.
Proof.
  intros Ht He. destruct (cstring_str _ _ Ht) as [Hv Hnn]. destruct He as [v Hn|name suffix Hne Hn Hg|name suffix value Hne Hn Hg Hval Hl].
  - unfold env_parse, cpuemu_env_parse_devcfg_string. rewrite Hv, strchr_none by done. eexists. by split.
  - rewrite (env_parse_reference t name suffix) by done. rewrite Hg. by exists t.
  - rewrite (env_parse_reference t name suffix) by done. rewrite Hg. destruct Ht as [(Hlen & _) _].
    replace (TOKEN_STRING_MAX_SIZE <=? zlen (value ++ suffix)) with false by lia.
    destruct (put_terminated_0 (ts_str (body_str t)) (value ++ suffix)) as [r ->]; [unfold body_str; lia|].
    cbn [mbind outcome_bind]. eexists. split; [done|]. cbn. apply cstring_app. apply Forall_app. split; [done|].
    apply Forall_cons in Hnn as [_ [_ Hs]%Forall_app]. by apply Forall_cons in Hs as [_ Hs].
Qed.

Lemma get_string_ok key cfg ss : Forall (λ c, c ≠ NUL) key → cfg_is cfg ss →
  match first_setting (when_key key as_str) ss with
  | Some v => ∀ r, expanded v r → ∃ cfg', cpuemu_get_devcfg_string key cfg = Ok (STD_E_OK, Some r, cfg')
  | None => cpuemu_get_devcfg_string key cfg = Ok (STD_E_NOENT, None, cfg)
  end.
Proof.
  intros Hkey Hcfg. unfold cpuemu_get_devcfg_string.
  assert (∀ v, is_Some (as_str v) ↔ type_of v = TOKEN_TYPE_STRING) as Hd by (intros []; split; try done; by intros []).
  pose proof (first_key key TOKEN_TYPE_STRING as_str cfg ss Hkey Hcfg Hd) as Hf.
  destruct (first_param _ _) as [[i p]|].
  - destruct Hf as (s & (_ & Hv & _) & Hty & ->). destruct (value_of s) as [| |v]; try done. cbn. intros r Hr.
    destruct (env_parse_ok _ _ _ Hv Hr) as (t' & -> & <-). cbn [mbind outcome_bind]. by eexists.
  - by rewrite Hf.
Qed.

(** ** The claims *)

Definition path_ok (path : list Z) (filepath : TokenStringType) : Prop :=
  zlen (ts_str filepath) = TOKEN_STRING_MAX_SIZE ∧ zlen path < TOKEN_STRING_MAX_SIZE ∧ Forall (λ c, c ≠ NUL) path.

Lemma string_set_ok path filepath : path_ok path filepath →
  ∃ fp, token_string_set filepath path = Ok (true, fp) ∧ cstring (ts_str fp) = path.
Proof.
  intros (Hl & Hp & Hn). pose proof (zlen_nonneg path). unfold token_string_set.
  rewrite wrap_id by (unfold in_width, TOKEN_STRING_MAX_SIZE in *; lia).
  replace (TOKEN_STRING_MAX_SIZE <? zlen path) with false by lia.
  destruct (put_terminated_0 (ts_str filepath) path) as [r ->]; [lia|]. cbn [mbind outcome_bind]. eexists. split; [done|].
  by apply cstring_app.
Qed.

Lemma empty_cfg cfg : devcfg_wf cfg → cfg_is (mkDevCfg 0 (params cfg)) [].
Proof. intros [Hl Hn Hw]. split_and!; [by split; cbn|done|]. unfold used. cbn. constructor. Qed.

(** C21: Reading a device configuration never fails: on every file that opens, whatever bytes it
    holds, as long as no line has more than 128 words, the answer is [STD_E_OK], and the table
    of parameters is well formed and within its 128 entries.  In particular no invalid line is
    reported to the caller. *)
Theorem load_devcfg_never_refuses junk path filepath cfg c f :
  junk_fits junk → path_ok path filepath → tokens_wf (tk_array c) → devcfg_wf cfg →
  file_contents path = Some f → few_words f →
  ∃ cfg' c', cpuemu_load_devcfg junk path filepath cfg c = Ok (STD_E_OK, cfg', c') ∧ devcfg_wf cfg' ∧ tokens_wf (tk_array c').
Proof.
  intros Hj Hpath Hc Hw Hf Hfew. unfold cpuemu_load_devcfg. destruct (string_set_ok path filepath Hpath) as (fp & -> & Hfp).
  cbn [mbind outcome_bind negb]. rewrite Hfp, Hf. apply load_lines_ok; [done|done|apply (empty_cfg _ Hw)|done].
Qed.

(** The device configuration is what its file says: when a file begins with up to 128
    settings, a key and a value or the three words of a host function, and then ends (with
    the file, a blank line, or the first line that is no setting), the lookups by key find the
    first setting of that key whose value has the type asked for: the decimal number, the low
    32 bits of the hexadecimal number, or the string with a leading [{VARIABLE}] replaced by
    the environment; and [STD_E_NOENT] when there is none. *)
Theorem devcfg_first_setting junk path filepath cfg c ss rest key :
  junk_fits junk → path_ok path filepath → tokens_wf (tk_array c) → devcfg_wf cfg → Forall (λ c, c ≠ NUL) key →
  Forall setting_wf ss → zlen ss ≤ CPUEMU_DEVCFG_PARAM_MAXNUM → ends_here rest →
  file_contents path = Some (settings_text ss ++ rest) →
  ∃ cfg' c', cpuemu_load_devcfg junk path filepath cfg c = Ok (STD_E_OK, cfg', c') ∧
    cpuemu_get_devcfg_value key cfg' =
      match first_setting (when_key key as_dec) ss with Some n => (STD_E_OK, Some n) | None => (STD_E_NOENT, None) end ∧
    cpuemu_get_devcfg_value_hex key cfg' =
      match first_setting (when_key key as_hex) ss with Some n => (STD_E_OK, Some n) | None => (STD_E_NOENT, None) end ∧
    match first_setting (when_key key as_str) ss with
    | Some v => ∀ r, expanded v r → ∃ cfg'', cpuemu_get_devcfg_string key cfg' = Ok (STD_E_OK, Some r, cfg'')
    | None => cpuemu_get_devcfg_string key cfg' = Ok (STD_E_NOENT, None, cfg')
    end.
Proof.
  intros Hj Hpath Hc Hw Hkey Hss Hn Hends Hf. unfold cpuemu_load_devcfg.
  destruct (string_set_ok path filepath Hpath) as (fp & -> & Hfp). cbn [mbind outcome_bind negb]. rewrite Hfp, Hf.
  assert (∃ fuel, S (length (settings_text ss ++ rest)) = (length ss + S fuel)%nat) as [fuel ->].
  { exists (length (settings_text ss ++ rest) - length ss)%nat. rewrite length_app.
    pose proof (settings_text_len ss). lia. }
  destruct (load_settings [] ss (S fuel) junk rest _ c Hss Hj Hc (empty_cfg _ Hw)) as (cfg' & c' & -> & Hcfg & Hc'); [done|].
  destruct (load_ends fuel junk rest cfg' c' Hends Hj Hc' (proj1 Hcfg)) as (c'' & ->). exists cfg', c''.
  split_and!; [done|by apply get_value_ok|by apply get_value_hex_ok|by apply get_string_ok].
Qed.

(** ** The memory configuration *)

(** The entries of a memory configuration, with their flags. *)
Inductive mem_kind :=
  | MemRom (size : Z) | MemRam (size : Z) | MemMalloc (size : Z)
  | MemMmap (path : list Z) (fd file_size : Z) (address : nat)
  | MemDev (path : list Z) (h : AthrillExDeviceHeaderType).
Record mem_entry := mkEntry { e_kind : mem_kind; e_start : Z; e_x : bool; e_v : bool }.

Definition flag_word (e : mem_entry) : list (list Z) :=
  match e_x e, e_v e with
  | true, true => [str_of "XV"] | true, false => [str_of "X"] | false, true => [str_of "V"] | false, false => []
  end.
Definition entry_words (e : mem_entry) : list (list Z) :=
  match e_kind e with
  | MemRom n => [str_of "ROM"; hexw (e_start e); print_dec n]
  | MemRam n => [str_of "RAM"; hexw (e_start e); print_dec n]
  | MemMalloc n => [str_of "MALLOC"; hexw (e_start e); print_dec n]
  | MemMmap p _ _ _ => [str_of "MMAP"; hexw (e_start e); p]
  | MemDev p _ => [str_of "DEV"; hexw (e_start e); p]
  end ++ flag_word e.
Definition entry_line (e : mem_entry) : list Z := join (entry_words e) ++ [10].
Definition memmap_text (es : list mem_entry) : list Z := concat (entry_line <$> es).

Definition entry_wf (e : mem_entry) : Prop :=
  is_addr (e_start e) ∧ zlen (join (entry_words e)) < 4095 ∧
  match e_kind e with
  | MemRom n | MemRam n => in_width 32 n
  | MemMalloc n => in_width 32 n ∧ (10240 | n) ∧ osdep_supports_mapped_memory = true
  | MemMmap p fd n a => is_symbol p ∧ Forall (λ c, c ≠ 123) p ∧ osdep_supports_mapped_memory = true ∧
      osdep_open_mapped_file p = Some (fd, n) ∧ osdep_map_open_file p (uaddr (mapped_size n * 1024)) = Some a
  | MemDev p h => is_symbol p ∧ EXDEV_ENABLE = true ∧ usable_device p = Some h
  end.

Section memmap.
Context (fresh_start : Z) (fresh_flag : bool).

(** The region an entry stands for; the flags of a device are not set. *)
Definition region_of (e : mem_entry) : MemoryAddressType :=
  match e_kind e with
  | MemRom n => mkMemory MemoryAddressImplType_ROM (e_start e) n None None (e_x e) (e_v e)
  | MemRam n => mkMemory MemoryAddressImplType_RAM (e_start e) n None None (e_x e) (e_v e)
  | MemMalloc n => mkMemory MemoryAddressImplType_MALLOC (e_start e) n None None (e_x e) (e_v e)
  | MemMmap _ _ n a => mkMemory MemoryAddressImplType_MMAP (e_start e) (mapped_size n) (Some a) None (e_x e) (e_v e)
  | MemDev _ h => mkMemory MemoryAddressImplType_DEV (e_start e) (memory_size h) None (Some (ex_device h)) fresh_flag fresh_flag
  end.
Definition is_rom (e : mem_entry) : bool := match e_kind e with MemRom _ => true | _ => false end.
Definition is_dev (e : mem_entry) : bool := match e_kind e with MemDev _ _ => true | _ => false end.
Definition file_of (e : mem_entry) : option AthrillDeviceMmapInfoType :=
  match e_kind e with MemMmap _ fd _ _ => Some (mkMmapInfo fd (e_start e)) | _ => None end.
Definition map_of (es : list mem_entry) : MemoryAddressMapType :=
  mkMemap (region_of <$> filter (λ e, is_rom e) es)
          (region_of <$> filter (λ e, negb (is_rom e || is_dev e)) es)
          (region_of <$> filter (λ e, is_dev e) es).
Definition state_of (files : list AthrillDeviceMmapInfoType) (es : list mem_entry) : memmap_state :=
  mkMemmapState (map_of es) (files ++ omap file_of es).

Lemma entry_words_ok e : entry_wf e → Forall is_word (entry_words e) ∧ 3 ≤ zlen (entry_words e) ≤ 4.
Proof.
  intros (Ha & _ & Hk). unfold entry_words. rewrite Forall_app, zlen_app.
  assert (Forall is_word (flag_word e) ∧ 0 ≤ zlen (flag_word e) ≤ 1) as [Hf Hl].
  { unfold flag_word. destruct (e_x e), (e_v e); (split; [|done]); auto with words. }
  split; [split; [|exact Hf]|].
  - destruct (e_kind e); cbn beta iota in Hk; unfold is_symbol in Hk; destruct_and?; eauto 6 with words.
  - destruct (e_kind e); unfold zlen at 1 3; cbn [length]; lia.
Qed.

(** The characters of a string token, with its terminator. *)
Lemma tok_char t w i : tok_is t (VStr w) → 0 ≤ i ≤ zlen w → zget (ts_str (body_str t)) i = zget (w ++ [NUL]) i.
Proof.
  intros Ht Hi. pose proof (tok_is_str _ _ Ht) as Hv. pose proof (tok_is_type _ _ Ht) as Hty.
  destruct Ht as [(Hl & _ & Hs) _]. destruct (Hs Hty) as (H0' & Hg & _). unfold str_val, body_str in *.
  set (b := tk_body t) in *. pose proof (zget_range _ _ _ Hg) as Hr.
  assert (zlen w = ts_len b) as Hw. { rewrite <- Hv. unfold zlen in *. rewrite length_take. lia. }
  destruct (decide (i = zlen w)) as [->|].
  - rewrite Hw at 1. rewrite Hg, zget_app_r by lia. by rewrite Z.sub_diag.
  - rewrite zget_app_l by lia. rewrite <- Hv. unfold zget. replace (i <? 0) with false by lia.
    rewrite lookup_take_lt by lia. done.
Qed.

Lemma flags_ok e c m :
  (∀ i w, zget (flag_word e) i = Some w → ∃ t, zget (tk_array c) (3 + i) = Some t ∧ tok_is t (classify w)) →
  tk_num c = 3 + zlen (flag_word e) →
  analize_memmap_arguments c m =
    Ok (mkMemory (m_type m) (m_start m) (m_size m) (m_mmap_addr m) (m_extdev m) (e_x e) (e_v e)).
Proof.
  intros Hf Hn. unfold analize_memmap_arguments. rewrite Hn. unfold flag_word in *.
  destruct (e_x e), (e_v e); try done;
    replace (_ <=? 3) with false by done;
    destruct (Hf 0 _ eq_refl) as (t & Ht & Hv); rewrite Z.add_0_r in Ht; rewrite Ht;
    match type of Hv with tok_is _ (classify ?w) => change (classify w) with (VStr w) in Hv end;
    cbn [oob mbind outcome_bind]; rewrite (tok_char t _ 0 Hv), (tok_char t _ 1 Hv) by done; done.
Qed.

Ltac decide_kind :=
  repeat match goal with
    | |- context [bool_decide (str_of ?a = str_of ?b)] =>
        let r := eval vm_compute in (bool_decide (str_of a = str_of b)) in
        change (bool_decide (str_of a = str_of b)) with r; cbn iota
    end.

(** The line of an entry adds its region where it belongs. *)
Definition put_of (e : mem_entry) : MemoryAddressType → memmap_state → memmap_state :=
  match file_of e with
  | Some info => add_mmap info
  | None => if is_rom e then add_rom else if is_dev e then add_dev else add_ram
  end.
Lemma put_region files e es : put_of e (region_of e) (state_of files es) = state_of files (es ++ [e]).
Proof.
  unfold put_of, state_of, map_of. rewrite !filter_app, !fmap_app, omap_app, (assoc_L app).
  destruct e as [[] ? ? ?]; cbn; by rewrite ?app_nil_r.
Qed.

Lemma base_token e c i w : (∀ i w, zget (entry_words e) i = Some w → ∃ t, zget (tk_array c) i = Some t ∧ tok_is t (classify w)) →
  zget (entry_words e) i = Some w → classify w = VStr w →
  ∃ t, zget (tk_array c) i = Some t ∧ tok_is t (VStr w) ∧ cstring (ts_str (body_str t)) = w.
Proof.
  intros Hin Hi Hc. destruct (Hin i w Hi) as (t & Ht & Hv). rewrite Hc in Hv. exists t. split_and!; [done|done|].
  by apply cstring_str in Hv as [? _].
Qed.

Lemma memmap_line_ok e c : entry_wf e → tokens_wf (tk_array c) → tk_num c = zlen (entry_words e) →
  (∀ i w, zget (entry_words e) i = Some w → ∃ t, zget (tk_array c) i = Some t ∧ tok_is t (classify w)) →
  ∃ c', memmap_line fresh_start fresh_flag c = Ok (c', LineEntry (put_of e) (region_of e)) ∧ tokens_wf (tk_array c').
Proof.
  intros (Ha & _ & Hk) Hc Hn Hin.
  assert (∀ m, analize_memmap_arguments c m =
    Ok (mkMemory (m_type m) (m_start m) (m_size m) (m_mmap_addr m) (m_extdev m) (e_x e) (e_v e))) as Hflags.
  { intros m. apply flags_ok; [|by rewrite Hn; unfold entry_words; destruct (e_kind e); rewrite zlen_app].
    intros i w Hi. pose proof (zget_range _ _ _ Hi). apply Hin. unfold entry_words.
    destruct (e_kind e); (rewrite zget_app_r; [|unfold zlen; simpl; lia]); rewrite <- Hi; f_equal; unfold zlen; simpl; lia. }
  assert (zget (entry_words e) 1 = Some (hexw (e_start e))) as H1' by (unfold entry_words; by destruct (e_kind e)).
  destruct (Hin 1 _ H1') as (t1 & Ht1 & Hv1). unfold hexw in Hv1. rewrite classify_hex in Hv1 by done. apply tok_is_hex in Hv1.
  unfold memmap_line. rewrite Ht1.
  destruct e as [k start x v]. cbn [e_kind e_start e_x e_v] in *. unfold entry_words in Hin. cbn [e_kind] in Hin.
  destruct k as [n|n|n|p fd n a|p h]; destruct (Hin 0 _ eq_refl) as (t0 & Ht0 & Hv0), (Hin 2 _ eq_refl) as (t2 & Ht2 & Hv2);
    rewrite Ht0, Ht2; clear Hin H1'; cbn [oob mbind outcome_bind];
    match type of Hv0 with tok_is _ (classify ?w) => change (classify w) with (VStr w) in Hv0 end;
    destruct (cstring_str _ _ Hv0) as [-> _]; decide_kind; rewrite Hv1; assert (uaddr start = start) as -> by (by apply uaddr_id).
  - rewrite classify_dec in Hv2 by done. apply tok_is_dec in Hv2. rewrite Hflags, Hv2. by eexists.
  - rewrite classify_dec in Hv2 by done. apply tok_is_dec in Hv2. rewrite Hflags, Hv2. by eexists.
  - destruct Hk as (Hn32 & [q Hq] & ->). rewrite classify_dec in Hv2 by done. apply tok_is_dec in Hv2. rewrite Hv2.
    change (MPU_MALLOC_REGION_UNIT_SIZE * MPU_MALLOC_REGION_UNIT_GROUP_NUM) with 10240.
    replace (n mod 10240) with 0 by (rewrite Hq; symmetry; by apply Z.mod_mul). cbn [Z.eqb negb]. rewrite Hflags. by eexists.
  - destruct Hk as ((_ & Hp) & Hb & -> & Ho & Hm). rewrite Hp in Hv2. destruct (cstring_str _ _ Hv2) as [Hs2 _].
    unfold cpuemu_env_parse_devcfg_string. rewrite Hs2, strchr_none by done. cbn [negb oob mbind outcome_bind].
    pose proof (zget_range _ _ _ Ht2) as Hr2. erewrite (proj2 (zset_Some _ _ _ _)) by (split; [done|done]).
    cbn [oob mbind outcome_bind]. rewrite Hs2, Ho, Hm.
    assert (mkTokens (tk_num c) (zput (tk_array c) 2 (mkTok (tk_type t2) (body_str t2))) = c) as ->.
    { assert (mkTok (tk_type t2) (body_str t2) = t2) as -> by (clear; by destruct t2). unfold zput. rewrite list_insert_id by exact Ht2. by destruct c. }
    rewrite Hflags. by eexists.
  - destruct Hk as ((_ & Hp) & Hx & Hd). rewrite Hx. cbn [andb]. rewrite Hp in Hv2.
    destruct (cstring_str _ _ Hv2) as [-> _]. rewrite Hd. by eexists.
Qed.

(** ** Reading the map back *)

Lemma memmap_entry fuel junk e rest map c : entry_wf e → junk_fits junk → tokens_wf (tk_array c) →
  ∃ c', memmap_lines fresh_start fresh_flag (S fuel) junk (entry_line e ++ rest) map c =
          memmap_lines fresh_start fresh_flag fuel junk rest (put_of e (region_of e) map) c' ∧
    tokens_wf (tk_array c').
Proof.
  intros He Hj Hc. pose proof He as (_ & Hl & _). destruct (entry_words_ok e He) as [Hws Hn].
  pose proof (words_join _ Hws) as Hwj. unfold entry_line. rewrite <- app_assoc. cbn [app memmap_lines].
  rewrite file_getline_line by (done || by apply join_no_newline).
  assert (0 < zlen (join (entry_words e))).
  { destruct (entry_words e) as [|w ws] eqn:E; [change (zlen []) with 0 in Hn; lia|]. apply Forall_cons in Hws as [? _]. by apply join_nonempty. }
  replace (zlen _ =? 0) with false by lia.
  destruct (split_line c (junk fuel) (join (entry_words e)) Hc (Hj fuel)) as (c1 & -> & Hnum & Hc1 & Hin);
    [lia|rewrite Hwj; unfold TOKEN_CONTAINER_MAX_SIZE; lia|].
  rewrite Hwj in Hnum, Hin. cbn [mbind outcome_bind std_ok negb].
  replace (negb (tk_num c1 =? 3) && negb (tk_num c1 =? 4)) with false by lia.
  destruct (memmap_line_ok e c1 He Hc1 Hnum Hin) as (c2 & -> & Hc2). cbn [mbind outcome_bind]. by exists c2.
Qed.

Lemma memmap_entries files es0 es fuel junk rest c : Forall entry_wf es → junk_fits junk → tokens_wf (tk_array c) →
  ∃ c', memmap_lines fresh_start fresh_flag (length es + fuel) junk (memmap_text es ++ rest) (state_of files es0) c =
          memmap_lines fresh_start fresh_flag fuel junk rest (state_of files (es0 ++ es)) c' ∧ tokens_wf (tk_array c').
Proof.
  intros Hes Hj. revert es0 c. induction Hes as [|e es He _ IH]; intros es0 c Hc.
  - rewrite app_nil_r. by exists c.
  - change (memmap_text (e :: es)) with (entry_line e ++ memmap_text es). rewrite <- app_assoc. cbn [length Nat.add].
    destruct (memmap_entry (length es + fuel) junk e (memmap_text es ++ rest) (state_of files es0) c He Hj Hc) as (c1 & -> & Hc1).
    rewrite put_region. destruct (IH (es0 ++ [e]) c1 Hc1) as (c2 & -> & Hc2). exists c2. by rewrite <- app_assoc.
Qed.

Lemma memmap_text_len es : (length es ≤ length (memmap_text es))%nat.
Proof.
  induction es as [|e es IH]; [done|]. change (memmap_text (e :: es)) with (entry_line e ++ memmap_text es).
  rewrite length_app. unfold entry_line at 1. rewrite length_app. cbn [length]. lia.
Qed.

(** The memory configuration round trip: a memory map written in the documented form, a line
    for each ROM, RAM, MALLOC, MMAP or DEV region with its address in hexadecimal, its size
    in decimal or its file, and its flags, is read back as exactly these regions, in order, in
    the table of their kind, up to the end of the file or a blank line, and the mapped files
    are recorded for locking. *)
Theorem memmap_reads_back junk path filepath files c es rest :
  junk_fits junk → path_ok path filepath → tokens_wf (tk_array c) → Forall entry_wf es →
  (rest = [] ∨ ∃ r, rest = 10 :: r) → file_contents path = Some (memmap_text es ++ rest) →
  ∃ c', cpuemu_load_memmap fresh_start fresh_flag junk path filepath files c = Ok (STD_E_OK, state_of files es, c') ∧ tokens_wf (tk_array c').
Proof.
  intros Hj Hpath Hc Hes Hrest Hf. unfold cpuemu_load_memmap.
  destruct (string_set_ok path filepath Hpath) as (fp & -> & Hfp). cbn [mbind outcome_bind negb]. rewrite Hfp, Hf.
  assert (∃ fuel, S (length (memmap_text es ++ rest)) = (length es + S fuel)%nat) as [fuel ->].
  { exists (length (memmap_text es ++ rest) - length es)%nat. rewrite length_app. pose proof (memmap_text_len es). lia. }
  destruct (memmap_entries files [] es (S fuel) junk rest c Hes Hj Hc) as (c' & Hr & Hc').
  change (state_of files []) with (mkMemmapState (mkMemap [] [] []) (files ++ [])) in Hr. rewrite app_nil_r in Hr.
  rewrite Hr. exists c'. split; [|done]. by destruct Hrest as [->|[r ->]].
Qed.
End memmap.
End config.

(** ** A device and a memory configuration *)

Module ConfigDemo.
#[local] Existing Instance addr_width_32.
#[local] Instance loader : LoaderConfig := {|
  ELF_MACHINE_TYPE := 243; EXDEV_ENABLE := true; malloc_ := λ _, None; malloc_bitmap_ok := true;
  DEBUG_FUNC_DISABLE_DEBUG_DATA_TYPE := true; elf_dwarf_line_load := λ _ _, Ok STD_E_NOENT;
  elf_dwarf_abbrev_load := λ _ _, Ok STD_E_NOENT; elf_dwarf_info_load := λ _ _, Ok STD_E_NOENT;
  elf_dwarf_loc_load := λ _ _, Ok STD_E_NOENT; dwarf_build_data_type_set := λ _ _, Ok () |}.

Definition settings : list setting :=
  [Setting (str_of "DEVICE_CPU_FREQ") (str_of "216"); Setting (str_of "DEBUG_FUNC_RESET_PC") (str_of "0x40000200");
   Setting (str_of "DEBUG_FUNC_OPLOG") (str_of "{HOME}/ops"); HostFunction (str_of "memcpy") (str_of "host_memcpy")].
(** A line of one word ends the settings. *)
Definition rest : list Z := join [str_of "oops"] ++ 10 :: str_of "DEVICE_CPU_FREQ 1".
Definition device : AthrillExDeviceHeaderType :=
  mkExHeader ATHRILL_EXTERNAL_DEVICE_MAGICNO 4 4096 (mkExDev false false None None).
Definition entries : list mem_entry :=
  [mkEntry (MemRom 512) 0x8000000 true true; mkEntry (MemRam 64) 0x20000000 false false;
   mkEntry (MemMalloc 10240) 0x70000000 false false; mkEntry (MemMmap (str_of "state.bin") 3 10000 7) 0x60000000 true false;
   mkEntry (MemDev (str_of "libdev.so") device) 0x50000000 false false].

#[local] Instance host : HostFiles := {|
  file_contents := λ p, if bool_decide (p = str_of "device.txt") then Some (settings_text settings ++ rest)
                        else if bool_decide (p = str_of "memory.txt") then Some (memmap_text entries) else None;
  file_exist := λ _, false;
  getenv := λ v, if bool_decide (v = str_of "HOME") then Some (str_of "/home/me") else None;
  osdep_supports_mapped_memory := true;
  osdep_open_mapped_file := λ p, if bool_decide (p = str_of "state.bin") then Some (3, 10000) else None;
  osdep_map_open_file := λ _ _, Some 7%nat;
  shared_library := λ p, if bool_decide (p = str_of "libdev.so") then Some (Some device) else None;
|}.

Definition zero_cfg : CpuEmuDevCfgType := mkDevCfg 0 (replicate 128 (mkParam zero_token zero_token zero_token 0)).
Definition path_buffer : TokenStringType := mkStr 0 zero_line.
Definition junk (n : nat) : list Z := zero_line.

Lemma zero_cfg_wf : devcfg_wf zero_cfg.
Proof. split; [done|done|]. apply Forall_replicate. by split_and!. Qed.
Lemma settings_ok : Forall setting_wf settings.
Proof.
  apply Forall_forall. intros s Hs. unfold settings in Hs.
  repeat (apply elem_of_cons in Hs as [->|Hs];
    [split; [eauto 6 with words|split; [by vm_compute|first [exact I|split; [auto with words|by vm_compute]]]]|]).
  by apply elem_of_nil in Hs.
Qed.
Lemma entries_ok : Forall entry_wf entries.
Proof.
  repeat (apply Forall_cons; split); try apply Forall_nil_2; (split; [by vm_compute|]; split; [by vm_compute|]).
  - done.
  - done.
  - split_and!; [done|by exists 1|done].
  - split_and!; [split; [auto with words|by vm_compute]|refine (bool_decide_eq_true_1 _ _); by vm_compute|done..].
  - split_and!; [split; [auto with words|by vm_compute]|done..].
Qed.
Lemma rest_ends : ends_here rest.
Proof. right. right. exists [str_of "oops"], (str_of "DEVICE_CPU_FREQ 1"). split_and!; try done. auto with words. Qed.

Lemma never_refuses_witness :
  ∃ cfg' c', cpuemu_load_devcfg junk (str_of "device.txt") path_buffer zero_cfg zero_tokens = Ok (STD_E_OK, cfg', c') ∧
    devcfg_wf cfg' ∧ tokens_wf (tk_array c').
Proof.
  apply (load_devcfg_never_refuses junk (str_of "device.txt") path_buffer zero_cfg zero_tokens (settings_text settings ++ rest)).
  - done.
  - split_and!; [done|done|refine (bool_decide_eq_true_1 _ _); by vm_compute].
  - apply zero_tokens_wf.
  - apply zero_cfg_wf.
  - done.
  - refine (bool_decide_eq_true_1 _ _); by vm_compute.
Defined.

Lemma first_setting_witness :
  ∃ cfg' c', cpuemu_load_devcfg junk (str_of "device.txt") path_buffer zero_cfg zero_tokens = Ok (STD_E_OK, cfg', c') ∧
    cpuemu_get_devcfg_value (str_of "DEBUG_FUNC_OPLOG") cfg' = (STD_E_NOENT, None) ∧
    cpuemu_get_devcfg_value_hex (str_of "DEBUG_FUNC_OPLOG") cfg' = (STD_E_NOENT, None) ∧
    ∀ r, expanded (str_of "{HOME}/ops") r → ∃ cfg'', cpuemu_get_devcfg_string (str_of "DEBUG_FUNC_OPLOG") cfg' = Ok (STD_E_OK, Some r, cfg'').
Proof.
  apply (devcfg_first_setting junk (str_of "device.txt") path_buffer zero_cfg zero_tokens settings rest (str_of "DEBUG_FUNC_OPLOG")).
  - done.
  - split_and!; [done|done|refine (bool_decide_eq_true_1 _ _); by vm_compute].
  - apply zero_tokens_wf.
  - apply zero_cfg_wf.
  - refine (bool_decide_eq_true_1 _ _); by vm_compute.
  - apply settings_ok.
  - done.
  - apply rest_ends.
  - done.
Defined.
Example home_expanded : expanded (str_of "{HOME}/ops") (str_of "/home/me/ops").
Proof.
  apply (expanded_set (str_of "HOME") (str_of "/ops") (str_of "/home/me")); try done;
    refine (bool_decide_eq_true_1 _ _); by vm_compute.
Qed.

Lemma memmap_witness :
  ∃ c', cpuemu_load_memmap 0 true junk (str_of "memory.txt") path_buffer [] zero_tokens = Ok (STD_E_OK, state_of true [] entries, c') ∧
    tokens_wf (tk_array c').
Proof.
  apply (memmap_reads_back 0 true junk (str_of "memory.txt") path_buffer [] zero_tokens entries []).
  - done.
  - split_and!; [done|done|refine (bool_decide_eq_true_1 _ _); by vm_compute].
  - apply zero_tokens_wf.
  - apply entries_ok.
  - by left.
  - by vm_compute.
Defined.

(** The closing brace before the opening one: the number of bytes to copy is negative. *)
Lemma env_braces_reversed : cpuemu_env_parse_devcfg_string (mkStr 3 (str_of "}x{" ++ replicate 4093 0)) = Fault OutOfBounds.
Proof. by vm_compute. Qed.
(** What precedes the reference is lost, and the length counts the terminator. *)
Lemma env_prefix_lost : ∃ s, cpuemu_env_parse_devcfg_string (mkStr 8 (str_of "a/{HOME}" ++ replicate 4088 0)) = Ok (mkStr 9 s) ∧
  cstring s = str_of "/home/me".
Proof. eexists. split; [vm_compute; reflexivity|by vm_compute]. Qed.
(** A size that is no number is read as the length of its text. *)
Lemma memmap_size_unchecked : ∃ m c, cpuemu_load_memmap 0 true junk (str_of "memory.txt") path_buffer [] zero_tokens (H0 := {|
    file_contents := λ _, Some (str_of "RAM, 0x1000, many"); file_exist := λ _, false; getenv := λ _, None;
    osdep_supports_mapped_memory := true; osdep_open_mapped_file := λ _, None; osdep_map_open_file := λ _ _, None;
    shared_library := λ _, None |}) = Ok (STD_E_OK, m, c) ∧ m_size <$> ram (mm_map m) = [4].
Proof. eexists _, _. split; [vm_compute; reflexivity|done]. Qed.
End ConfigDemo.
