(* ===== verification/Emulator.v ===== *)
(** * The emulator: start-up and the execution loop ([src/src/main/cpuemu.cpp])

    Symbols are entered from the ELF file, variables in ROM are patched from the
    configuration, and the CPU thread runs: device tick, instruction of each core, next clock,
    with the debugger's callbacks in debug mode, batches of instructions in background mode
    and jumps over the clocks in which a halted CPU waits.

    The CPU and the devices of the target are another project: class [TargetMachine].  So are
    the host services of the device-call interface ([athrill_device.c]).  The sleeping that
    keeps pace with real time is left out; the clock of its next check is not. *)

From Stdlib Require Import String Ascii.
From S2P Require Import Prelude Mpu Loader ElfSection SymbolOps CpuControl Bus CpuCallback Token DeviceConfig.
From stdpp Require Import gmap.
Open Scope Z_scope.

Record DeviceClockType := mkDevClock {
  clock : Z;
  intclock : Z;
  enable_skip : Z;
  can_skip_clock : bool;
  min_intr_interval : Z;
  clk_is_halt : bool;
}.
Definition DEVICE_CLOCK_MAX_INTERVAL : Z := 2 ^ 64 - 1.
Definition set_clock (n : Z) (c : DeviceClockType) : DeviceClockType :=
  mkDevClock n (intclock c) (enable_skip c) (can_skip_clock c) (min_intr_interval c) (clk_is_halt c).
Definition set_interval (n : Z) (c : DeviceClockType) : DeviceClockType :=
  mkDevClock (clock c) (intclock c) (enable_skip c) (can_skip_clock c) n (clk_is_halt c).
Definition set_halt (b : bool) (c : DeviceClockType) : DeviceClockType :=
  mkDevClock (clock c) (intclock c) (enable_skip c) (can_skip_clock c) (min_intr_interval c) b.

(** The guest side of the emulator: the target's CPU and devices, the memory protection unit
    and the bus log; [m_current] is the current core. *)
Record machine (D T : Type) := mkMachine { m_tgt : T; m_mpu : mpu_state D; m_log : bus_log; m_current : Z }.
Arguments mkMachine {D T} _ _ _ _.
Arguments m_tgt {D T} _.
Arguments m_mpu {D T} _.
Arguments m_log {D T} _.
Arguments m_current {D T} _.

(** How the stage of Hakoniwa before each clock ends: it returns [TRUE] or [FALSE], or the
    process exits. *)
Inductive stage_answer := StageTrue | StageFalse | StageExits (status : Z).

(** What the target provides.  An instruction sees the clock; a batch returns the clock of
    its last instruction.  [flock] locks or unlocks a file.  The stage may cap the interval
    and, when it handles a reset, changes the clock and the machine; [Hakoniwa] models it. *)
Class TargetMachine (D T : Type) := {
  ATHRILL_TARGET_BATCH_CLOCKS : Z;
  DEFAULT_CPU_FREQ : Z;
  athrill_device_enabled : bool;
  os_linux : bool;
  cpu_supply_clock : Z → Z → machine D T → Std_ReturnType * machine D T;
  cpu_supply_clocks : Z → Z → Z → machine D T → Std_ReturnType * Z * machine D T;
  cpu_illegal_access : Z → machine D T → bool * machine D T;
  core_is_halt : Z → machine D T → bool;
  cpu_get_pc : Z → machine D T → Z;
  cpu_get_sp : Z → machine D T → Z;
  core_elaps : Z → machine D T → Z;
  cpu_set_core_pc : Z → Z → machine D T → machine D T;
  cpu_init : machine D T → machine D T;
  device_reset : DeviceClockType → machine D T → DeviceClockType * machine D T;
  device_supply_clock : DeviceClockType → machine D T → DeviceClockType * machine D T;
  intc_raise_intr : Z → machine D T → machine D T;
  athrill_syscall_device : Z → machine D T → machine D T;
  flock : Z → bool → machine D T → bool * machine D T;
  athrill_hakoniwa_stage : Z → DeviceClockType → machine D T → stage_answer * DeviceClockType * machine D T;
}.

(** The build without Hakoniwa ([hakoniwa/athrill_hakoniwa_disabled.cpp]). *)
Definition hakoniwa_disabled {D T} (cpu_mhz : Z) (c : DeviceClockType) (m : machine D T) : stage_answer * DeviceClockType * machine D T :=
  (StageTrue, c, m).

(** ** Symbols and patched variables *)

Section start.
Context {D : Type} `{MpuConfig D} `{HostFiles}.

(** A symbol's name is the text at its pointer, read here; with the underscore the first
    character is skipped, which is the terminator of an empty name. *)
Fixpoint symbols_loop (data : list Z) (name_index : Z) (ids : list Z) (es : elf_statics) (ss : symbol_state)
    : outcome (Std_ReturnType * symbol_state) :=
  match ids with
  | [] => Ok (STD_E_OK, ss)
  | i :: ids =>
      '(err, sym) ← elfsym_get_symbol data i es;
      match sym with
      | Some e =>
          name ← cstr_at data (sym_name e + name_index);
          let s := mkSymbol name (sym_addr e) (sym_size e) [] in
          let ss := match sym_type e with
                    | SYMBOL_TYPE_OBJECT => symbol_gl_add s ss
                    | SYMBOL_TYPE_FUNC => symbol_func_add s ss
                    | SYMBOL_TYPE_NOTYPE =>
                        if bool_decide (head name = Some 36) then ss else symbol_func_add s (symbol_gl_add s ss)
                    | SYMBOL_TYPE_NOSUP => ss
                    end in
          symbols_loop data name_index ids es ss
      | None => Ok (err, ss)
      end
  end.
Definition cpuemu_symbol_set (data : list Z) (es : elf_statics) (cfg : CpuEmuDevCfgType) (ss : symbol_state)
    : outcome (Std_ReturnType * symbol_state) :=
  let disable_underscore := default 0 (snd (cpuemu_get_devcfg_value (str_of "DISABLE_SYMBOL_UNDERSCORE") cfg)) in
  let name_index := if disable_underscore =? 0 then 1 else 0 in
  match elfsym_get_symbol_num es with
  | (STD_E_OK, Some num) => symbols_loop data name_index (seqZ 0 num) es ss
  | (err, _) => Ok (err, ss)
  end.

(** One patch of a variable in ROM: a text [name=value] is split at the equals sign. *)
Definition rom_width (size : Z) : option nat :=
  if size =? 1 then Some 1%nat else if size =? 2 then Some 2%nat else if size =? 4 then Some 4%nat else None.
Fixpoint romdata_loop (junk : nat → list Z) (n : nat) (i : Z) (cfg : CpuEmuDevCfgType) (c : TokenContainerType)
    (ss : symbol_state) (s : mpu_state D) : outcome (CpuEmuDevCfgType * TokenContainerType * mpu_state D) :=
  match n with
  | O => Ok (cfg, c, s)
  | S n =>
      '(err, text, cfg) ← cpuemu_get_devcfg_string (str_of "DEBUG_ROM_DEFINE_" ++ print_int i) cfg;
      match text with
      | None => Ok (cfg, c, s)
      | Some text =>
          '(err, c) ← token_split_with_delimiter c (junk n) text 61;
          if negb (std_ok err) then Ok (cfg, c, s)
          else
            t0 ← oob (zget (tk_array c) 0); t1 ← oob (zget (tk_array c) 1);
            let gl_name := cstring (ts_str (body_str t0)) in
            match symbol_get_gl gl_name (zlen gl_name) ss with
            | (_, None) => Ok (cfg, c, s)
            | (_, Some (addr, size)) =>
                '(err, p, s) ← bus_get_pointer 0 addr s;
                if negb (std_ok err) then Ok (cfg, c, s)
                else
                  s ← match rom_width size with
                      | Some w => p ← deref_ptr p; host_write s p (le_bytes w (body_dec t1))
                      | None => Ok s
                      end;
                  romdata_loop junk n (i + 1) cfg c ss s
            end
      end
  end.
Definition cpuemu_set_debug_romdata (junk : nat → list Z) (cfg : CpuEmuDevCfgType) (c : TokenContainerType)
    (ss : symbol_state) (s : mpu_state D) : outcome (CpuEmuDevCfgType * TokenContainerType * mpu_state D) :=
  match cpuemu_get_devcfg_value (str_of "DEBUG_ROM_DEFINE_NUM") cfg with
  | (_, Some param_num) => romdata_loop junk (Z.to_nat param_num) 0 cfg c ss s
  | (_, None) => Ok (cfg, c, s)
  end.
End start.

(** ** Requests of the guest to the host ([src/src/device/peripheral/athrill_device.c]) *)

Record mmap_entry := mkMmapEntry { isLocked : bool; mmap_info : AthrillDeviceMmapInfoType }.
(** The addresses of the two guest variables, 0 when the program has none; the host pointer
    remembered for the first; the mapped files. *)
Record athrill_device := mkAthrill {
  func_call_addr : Z;
  raise_interrupt_addr : Z;
  athrill_syscall_p : option (nat * Z);
  athrill_mmap_table : list mmap_entry;
}.

Section emulator.
Context {D T : Type} `{MpuConfig D} `{TargetMachine D T}.
#[local] Abbreviation machine := (machine D T).
Implicit Types (m : machine) (a : athrill_device).

Definition with_mpu (s : mpu_state D) m : machine := mkMachine (m_tgt m) s (m_log m) (m_current m).
Definition with_log (l : bus_log) m : machine := mkMachine (m_tgt m) (m_mpu m) l (m_current m).
Definition with_current (core : Z) m : machine := mkMachine (m_tgt m) (m_mpu m) (m_log m) core.

Definition device_init_athrill_device (ss : symbol_state) a : athrill_device :=
  let address (name : string) (old : Z) :=
    match symbol_get_gl (str_of name) (zlen (str_of name)) ss with
    | (_, Some (addr, _)) => u32 addr
    | _ => old
    end in
  mkAthrill (address "athrill_device_func_call"%string (func_call_addr a))
    (address "athrill_device_raise_interrupt"%string (raise_interrupt_addr a)) (athrill_syscall_p a) (athrill_mmap_table a).
Definition athrill_device_set_mmap_info (info : AthrillDeviceMmapInfoType) a : athrill_device :=
  mkAthrill (func_call_addr a) (raise_interrupt_addr a) (athrill_syscall_p a)
    (athrill_mmap_table a ++ [mkMmapEntry false info]).

Definition read_u32 m (p : nat * Z) : outcome Z :=
  blk ← oob (host (m_mpu m) !! p.1); bs ← oob (bytes_at blk p.2 4); Ok (le_val bs).
Definition put_guest32 (addr v : Z) m : outcome machine :=
  '(_, s) ← mpu_put_data32 0 addr v (m_mpu m); Ok (with_mpu s m).

(** Serve a request: the value names a mapped file, whose lock is toggled, or is a system
    call. *)
Definition serve_call (data : Z) a m : outcome (athrill_device * machine) :=
  if negb os_linux then Ok (a, m)
  else match find_index 0 (athrill_mmap_table a) (λ e, mmap_addr (mmap_info e) =? data) with
       | None => Ok (a, athrill_syscall_device data m)
       | Some (i, e) =>
           let '(ok, m) := flock (mmap_fd (mmap_info e)) (negb (isLocked e)) m in
           _ ← assert_c ok;
           Ok (mkAthrill (func_call_addr a) (raise_interrupt_addr a) (athrill_syscall_p a)
                 (zput (athrill_mmap_table a) i (mkMmapEntry (negb (isLocked e)) (mmap_info e))), m)
       end.
Definition do_athrill_device_func_call a m : outcome (athrill_device * machine) :=
  '(p, a, m) ← match athrill_syscall_p a with
    | Some p => Ok (Some p, a, m)
    | None =>
        if func_call_addr a =? 0 then Ok (None, a, m)
        else
          '(err, p, s) ← mpu_get_pointer 0 (func_call_addr a) (m_mpu m);
          if negb (std_ok err) then Ok (None, a, with_mpu s m)
          else p ← deref_ptr p;
               Ok (Some p, mkAthrill (func_call_addr a) (raise_interrupt_addr a) (Some p) (athrill_mmap_table a), with_mpu s m)
    end;
  match p with
  | None => Ok (a, m)
  | Some p =>
      data ← read_u32 m p;
      if data =? 0 then Ok (a, m)
      else '(a, m) ← serve_call data a m; m ← put_guest32 (func_call_addr a) 0 m; Ok (a, m)
  end.
Definition do_athrill_device_external_raise_interrupt a m : outcome machine :=
  if raise_interrupt_addr a =? 0 then Ok m
  else
    '(err, data, s) ← mpu_get_data32 0 (raise_interrupt_addr a) 0 (m_mpu m);
    let m := with_mpu s m in
    if negb (std_ok err) || (data =? 0) then Ok m
    else m ← put_guest32 (raise_interrupt_addr a) 0 m; Ok (intc_raise_intr data m).
Definition device_supply_clock_athrill_device a m : outcome (athrill_device * machine) :=
  '(a, m) ← do_athrill_device_func_call a m;
  m ← do_athrill_device_external_raise_interrupt a m; Ok (a, m).

(** ** One clock *)

(** The state the CPU thread works on, and how a step ends. *)
Record emu := mkEmu { e_clk : DeviceClockType; e_machine : machine; e_athrill : athrill_device }.
Implicit Types (s : emu).
Inductive run_result :=
  | Ran (is_halt : bool) (s : emu)
  | ExitProcess (status : Z) (s : emu).
Definition with_machine (m : machine) s : emu := mkEmu (e_clk s) m (e_athrill s).
Definition with_clk (c : DeviceClockType) s : emu := mkEmu c (e_machine s) (e_athrill s).

(** The devices' share of a clock. *)
Definition device_tick (cpu_freq : Z) s : outcome (stage_answer * emu) :=
  '(a, m) ← (if athrill_device_enabled then device_supply_clock_athrill_device (e_athrill s) (e_machine s)
             else Ok (e_athrill s, e_machine s));
  let '(c, m) := device_supply_clock (e_clk s) m in
  let '(go, c, m) := athrill_hakoniwa_stage cpu_freq c m in
  Ok (go, mkEmu c m a).

(** An error of the CPU that its trap does not take. *)
Definition failed (core : Z) (err : Std_ReturnType) m : bool * machine :=
  if std_ok err then (false, m) else let '(taken, m) := cpu_illegal_access core m in (negb taken, m).

Fixpoint supply_cores (cores : list Z) (is_halt : bool) s : run_result :=
  match cores with
  | [] => Ran is_halt s
  | i :: cores =>
      let '(err, m) := cpu_supply_clock i (clock (e_clk s)) (with_current i (e_machine s)) in
      let '(bad, m) := failed i err m in
      let s := with_machine m s in
      if bad then ExitProcess 1 s
      else supply_cores cores (is_halt && core_is_halt i m) s
  end.

(** The rest of a batch: up to the next device event, the end of the run and the limit. *)
Definition cpuemu_run_batch (max_batch end_clock : Z) s : run_result :=
  if ATHRILL_TARGET_BATCH_CLOCKS <=? 1 then Ran false s
  else
    let c := e_clk s in
    let budget := max_batch in
    let budget := if min_intr_interval c <? budget then min_intr_interval c else budget in
    let budget := if u64 (end_clock - clock c) <? budget then u64 (end_clock - clock c) else budget in
    if 1 <? budget then
      let '(err, clk, m) := cpu_supply_clocks 0 (budget - 1) (clock c) (e_machine s) in
      let '(bad, m) := failed 0 err m in
      let s := with_clk (set_clock clk c) (with_machine m s) in
      if bad then ExitProcess 1 s else Ran false s
    else Ran false s.

Definition halted (b : bool) s : emu := with_clk (set_halt b (e_clk s)) s.
Definition cpuemu_thread_run_nodbg (cpu_freq max_batch end_clock core_id_num : Z) s : outcome run_result :=
  '(go, s) ← device_tick cpu_freq s;
  match go with
  | StageExits n => Ok (ExitProcess n s)
  | StageFalse => Ok (Ran true s)
  | StageTrue =>
    Ok match supply_cores (seqZ 0 core_id_num) true s with
       | ExitProcess n s => ExitProcess n s
       | Ran is_halt s =>
           if negb is_halt && (core_id_num =? 1) && (1 <? max_batch) then
             match cpuemu_run_batch max_batch end_clock s with
             | ExitProcess n s => ExitProcess n s
             | Ran is_halt s => Ran is_halt (halted is_halt s)
             end
           else Ran is_halt (halted is_halt s)
       end
  end.

(** With the debugger: [debugger] is what happens while the CPU thread waits for it. *)
Section debug.
Context (debugger : emu * dbg_state → emu * dbg_state) (enable_dbg : DbgCpuCallbackFuncEnableType).
Definition on_run_state (f : run_state → run_state) (d : dbg_state) : dbg_state := with_run (f (d_run d)) d.

Definition debug_core (i : Z) s (d : dbg_state) : outcome (emu * dbg_state) :=
  let m := with_current i (e_machine s) in
  l ← bus_access_set_log (mkAccess BUS_ACCESS_TYPE_NONE 8 0 0) (m_log m);
  let s := with_machine (with_log l m) s in
  let m := e_machine s in
  d ← dbg_cpu_callback_start (u32 (cpu_get_pc i m)) (u32 (cpu_get_sp i m)) d;
  '(stop, d) ← dbg_notify_cpu_clock_supply_start i (u32 (cpu_get_pc i m)) d;
  let '(s, d) := if (stop : bool) then debugger (s, d) else (s, d) in
  let '(err, m) := cpu_supply_clock i (clock (e_clk s)) (e_machine s) in
  let '(bad, m) := failed i err m in
  let d := if bad then on_run_state (λ r, fst (cpuctrl_set_force_break r)) d else d in
  '(l, d) ← dbg_notify_cpu_clock_supply_end i (u32 (cpu_get_pc i m)) (u32 (cpu_get_sp i m))
              (cpu_get_sp (m_current m) m) (clock (e_clk s)) enable_dbg (m_log m) d;
  Ok (with_machine (with_log l m) s, d).
Fixpoint debug_cores (cores : list Z) (is_halt : bool) s (d : dbg_state) : outcome (bool * emu * dbg_state) :=
  match cores with
  | [] => Ok (is_halt, s, d)
  | i :: cores =>
      '(s, d) ← debug_core i s d;
      debug_cores cores (is_halt && core_is_halt i (e_machine s)) s d
  end.
Definition cpuemu_thread_run_dbg (cpu_freq core_id_num : Z) s (d : dbg_state) : outcome (run_result * dbg_state) :=
  '(go, s) ← device_tick cpu_freq s;
  match go with
  | StageExits n => Ok (ExitProcess n s, d)
  | StageFalse => Ok (Ran true s, d)
  | StageTrue =>
    '(is_halt, s, d) ← debug_cores (seqZ 0 core_id_num) true s d;
    Ok (Ran is_halt (halted is_halt s), d)
  end.
End debug.

(** ** The loop *)

(** What the start of the thread reads from the configuration. *)
Record run_config := mkRunConfig {
  c_enable : DbgCpuCallbackFuncEnableType;
  c_sync_time : Z;
  c_reset_pc : Z;
  c_cpu_freq : Z;
  c_enable_skip : Z;
  c_real_time : Z;
  c_max_batch : Z;
}.
Definition config_or (get : CpuEmuDevCfgType → Std_ReturnType * option Z) (cfg : CpuEmuDevCfgType) (d : Z) : Z :=
  default d (snd (get cfg)).
Definition read_run_config (cfg : CpuEmuDevCfgType) (entry_addr real_time max_batch : Z) : run_config :=
  let value key d := config_or (cpuemu_get_devcfg_value (str_of key)) cfg d in
  let batch := value "DEBUG_FUNC_MAX_BATCH_CLOCKS"%string max_batch in
  mkRunConfig
    (mkEnable (value "DEBUG_FUNC_ENABLE_FT"%string 1) (value "DEBUG_FUNC_ENABLE_BT"%string 1)
       (value "DEBUG_FUNC_ENABLE_PROF"%string 1) (value "DEBUG_FUNC_ENABLE_WATCH"%string 1))
    (value "DEBUG_FUNC_ENABLE_SYNC_TIME"%string 0)
    (config_or (cpuemu_get_devcfg_value_hex (str_of "DEBUG_FUNC_RESET_PC")) cfg (u32 entry_addr))
    (value "DEVICE_CPU_FREQ"%string DEFAULT_CPU_FREQ)
    (value "DEBUG_FUNC_ENABLE_SKIP_CLOCK"%string 0)
    (value "DEBUG_FUNC_REAL_TIME"%string real_time)
    (if (batch =? 0) || (ATHRILL_TARGET_BATCH_CLOCKS <? batch) then ATHRILL_TARGET_BATCH_CLOCKS else batch).
Fixpoint set_core_pcs (cores : list Z) (pc : Z) m : machine :=
  match cores with [] => m | i :: cores => set_core_pcs cores pc (cpu_set_core_pc i pc m) end.

(** The next clock: past the wait of a halted CPU, when that is on and the devices allow it.
    The sleep that keeps a skip near real time divides by the frequency. *)
Definition skips (c_skip : Z) (is_halt : bool) (c : DeviceClockType) : bool :=
  (c_skip =? 1) && is_halt && can_skip_clock c && negb (min_intr_interval c =? DEVICE_CLOCK_MAX_INTERVAL).
Definition osdep_sync_skipped_clock (interval cpu_freq sync_time : Z) : outcome Z :=
  if 0 <? sync_time then
    if cpu_freq =? 0 then Fault DivByZero
    else let usec := u64 (interval - 1) / cpu_freq in Ok (if sync_time <? usec then usec - sync_time else 0)
  else Ok 0.
Definition next_clock (cfg : run_config) (is_halt : bool) (c : DeviceClockType) : outcome DeviceClockType :=
  if skips (c_enable_skip cfg) is_halt c then
    _ ← osdep_sync_skipped_clock (min_intr_interval c) (c_cpu_freq cfg) (c_sync_time cfg);
    Ok (set_clock (u64 (clock c + min_intr_interval c)) c)
  else Ok (set_clock (u64 (clock c + 1)) c).
(** The clock of the next comparison with real time. *)
Definition cpuemu_pace_real_time (cpu_freq clk next : Z) : outcome Z :=
  if clk <? next then Ok next
  else if cpu_freq =? 0 then Fault DivByZero
  else Ok (u64 (clk + 1000 * cpu_freq)).

(** An iteration; [step] is the function for the mode. *)
Inductive loop_result :=
  | Running (s : emu) (next : Z)
  | Exited (status : Z) (s : emu).
Definition loop_step (cfg : run_config) (end_clock : Z) (step : emu → outcome run_result) s (next : Z) : outcome loop_result :=
  if end_clock <=? clock (e_clk s) then Ok (Exited 1 s)
  else
    r ← step s;
    match r with
    | ExitProcess n s => Ok (Exited n s)
    | Ran is_halt s =>
        c ← next_clock cfg is_halt (e_clk s);
        next ← (if c_real_time cfg =? 0 then Ok next else cpuemu_pace_real_time (c_cpu_freq cfg) (clock c) next);
        Ok (Running (with_clk c s) next)
    end.
Fixpoint loop (fuel : nat) (cfg : run_config) (end_clock : Z) (step : emu → outcome run_result) s (next : Z) : outcome loop_result :=
  match fuel with
  | O => Ok (Running s next)
  | S fuel =>
      r ← loop_step cfg end_clock step s next;
      match r with
      | Running s next => loop fuel cfg end_clock step s next
      | Exited n s => Ok (Exited n s)
      end
  end.

(** The thread in background mode, after its set-up. *)
Definition cpuemu_thread_start (cfg : run_config) (core_id_num : Z) s : emu :=
  let c := e_clk s in
  mkEmu (mkDevClock (clock c) (intclock c) (c_enable_skip cfg) (can_skip_clock c) (min_intr_interval c) (clk_is_halt c))
    (set_core_pcs (seqZ 0 core_id_num) (c_reset_pc cfg) (e_machine s)) (e_athrill s).
Definition cpuemu_thread_run (fuel : nat) (cfg : run_config) (end_clock core_id_num : Z) s : outcome loop_result :=
  loop fuel cfg end_clock (cpuemu_thread_run_nodbg (c_cpu_freq cfg) (c_max_batch cfg) end_clock core_id_num)
    (cpuemu_thread_start cfg core_id_num s) 0.

(** ** Reset and statistics *)

Definition cpuemu_reset (entry_addr core_id_num : Z) s : emu :=
  let '(c, m) := device_reset (e_clk s) (cpu_init (e_machine s)) in
  mkEmu c (set_core_pcs (seqZ 0 core_id_num) entry_addr m) (e_athrill s).
Record CpuEmuElapsType := mkElaps { el_total_clocks : Z; el_intr_clocks : Z; el_cpu_clocks : list Z }.
Definition cpuemu_get_elaps (core_id_num : Z) s : CpuEmuElapsType :=
  mkElaps (clock (e_clk s)) (intclock (e_clk s)) (map (λ i, core_elaps i (e_machine s)) (seqZ 0 core_id_num)).
End emulator.
