(* ===== verification/EmulatorFacts.v ===== *)
(** * Batched execution is one tick per clock

    In background mode the CPU of a target runs batches of instructions between two ticks of
    the devices.  Under the contract that the source states for the target (what a batch
    runs, what the devices report and what they do when they are not due) a run with batches
    ends exactly as the run with one tick per clock, as long as no first instruction of a
    clock brings the next event forward: that one is not part of the batch, and the batch
    that follows it does not notice its access. *)

From Stdlib Require Import String Ascii.
From S2P Require Import Prelude Mpu MpuFacts Loader SymbolOps CpuControl Bus CpuCallback Token DeviceConfig Emulator.
Open Scope Z_scope.

Section batch.
Context {D T : Type} `{MpuConfig D} `{TargetMachine D T}.
#[local] Abbreviation machine := (machine D T).
#[local] Abbreviation emu := (emu (D := D) (T := T)).
Implicit Types (m : machine) (s : emu).

(** ** The contract of the target *)

Section contract.
(** [behind m m']: [m] is [m'] but for devices that are not yet brought up to date.
    [next_event]: the clock of the next event of the devices.  [touches c m]: the instruction
    that core 0 runs at clock [c] touches a device. *)
Context (behind : machine → machine → Prop) (next_event : machine → Z) (touches : Z → machine → bool).

(** What [cpu_supply_clocks] is documented to run. *)
Fixpoint batch_run (n : nat) (clk : Z) m : Std_ReturnType * Z * machine :=
  match n with
  | O => (STD_E_OK, clk, m)
  | S n =>
      let '(err, m') := cpu_supply_clock 0 (clk + 1) m in
      if negb (std_ok err) then (err, clk + 1, m')
      else if core_is_halt 0 m' || touches (clk + 1) m then (STD_E_OK, clk + 1, m')
      else batch_run n (clk + 1) m'
  end.

Record batch_contract : Prop := {
  bc_clocks : ∀ n clk m, 0 ≤ n → cpu_supply_clocks 0 n clk m = batch_run (Z.to_nat n) clk m;
  (** An instruction does the same on devices that lag: an access brings them up to date. *)
  bc_supply : ∀ c m m' e n e' n', behind m m' → cpu_supply_clock 0 c m = (e, n) → cpu_supply_clock 0 c m' = (e', n') →
    e' = e ∧ behind n n' ∧ touches c m' = touches c m;
  bc_trap : ∀ m m' b n b' n', behind m m' → cpu_illegal_access 0 m = (b, n) → cpu_illegal_access 0 m' = (b', n') →
    b' = b ∧ behind n n';
  (** Lagging does not change when the next event is, nor whether the CPU is halted. *)
  bc_same : ∀ m m', behind m m' → next_event m = next_event m' ∧ core_is_halt 0 m = core_is_halt 0 m';
  (** A tick gives the same whether the devices lag or not, and reports the next event. *)
  bc_tick : ∀ k k' m m' l n l' n', behind m m' → clock k = clock k' →
    device_supply_clock k m = (l, n) → device_supply_clock k' m' = (l', n') →
    behind n n' ∧ clock l = clock k ∧ clock l' = clock k ∧ min_intr_interval l = min_intr_interval l' ∧
    1 ≤ min_intr_interval l ∧ next_event n' = clock k + min_intr_interval l';
  (** Before the next event a tick only brings the devices up to date. *)
  bc_quiet : ∀ k m m' l n', behind m m' → clock k < next_event m' → device_supply_clock k m' = (l, n') →
    behind m n' ∧ clock l = clock k ∧ next_event n' = next_event m';
  (** Only an access moves the next event. *)
  bc_event : ∀ c m e n, touches c m = false → cpu_supply_clock 0 c m = (e, n) → next_event n = next_event m;
  (** Core 0 stays the current core. *)
  bc_current : ∀ c k m, m_current m = 0 →
    m_current (snd (cpu_supply_clock 0 c m)) = 0 ∧ m_current (snd (cpu_illegal_access 0 m)) = 0 ∧
    m_current (snd (device_supply_clock k m)) = 0;
}.

Context (Hc : batch_contract).
Context (Hdev : athrill_device_enabled = false) (Hhako : athrill_hakoniwa_stage = hakoniwa_disabled).
Context (cfg : run_config) (Hskip : c_enable_skip cfg ≠ 1) (Hreal : c_real_time cfg = 0).
Context (end_clock : Z) (Hend : in_width 64 end_clock).

Definition with_batch (n : Z) : run_config :=
  mkRunConfig (c_enable cfg) (c_sync_time cfg) (c_reset_pc cfg) (c_cpu_freq cfg) (c_enable_skip cfg) (c_real_time cfg) n.
#[local] Abbreviation step n := (cpuemu_thread_run_nodbg (c_cpu_freq cfg) n end_clock 1).
#[local] Abbreviation run n fuel s := (loop fuel (with_batch n) end_clock (step n) s 0).

Definition in_time s : Prop := 0 ≤ clock (e_clk s) < end_clock.

Lemma with_current_id m : m_current m = 0 → with_current 0 m = m.
Proof. destruct m. cbn. by intros ->. Qed.

(** An iteration, without skips and pacing. *)
Lemma run_step n fuel s : in_time s →
  run n (S fuel) s = (r ← step n s; match r with
    | ExitProcess st s => Ok (Exited st s)
    | Ran _ s => run n fuel (with_clk (set_clock (u64 (clock (e_clk s) + 1)) (e_clk s)) s)
    end).
Proof.
  intros [_ Ht]. cbn [loop]. unfold loop_step. replace (end_clock <=? _) with false by lia.
  destruct (step n s) as [r|f]; [|done]. cbn [mbind outcome_bind]. destruct r as [is_halt s1|st s1]; [|done].
  unfold next_clock, skips. cbn [with_batch c_enable_skip c_real_time c_cpu_freq]. replace (c_enable_skip cfg =? 1) with false by lia.
  cbn [andb mbind outcome_bind]. by rewrite Hreal.
Qed.
Lemma run_end n fuel s : end_clock ≤ clock (e_clk s) → run n (S fuel) s = Ok (Exited 1 s).
Proof. intros Ht. cbn [loop]. unfold loop_step. by replace (end_clock <=? _) with true by lia. Qed.

(** The devices' part of a clock is the tick alone. *)
Lemma tick_eq s : device_tick (c_cpu_freq cfg) s =
  let '(c, m) := device_supply_clock (e_clk s) (e_machine s) in Ok (StageTrue, mkEmu c m (e_athrill s)).
Proof.
  unfold device_tick. rewrite Hdev, Hhako. cbn [mbind outcome_bind].
  by destruct (device_supply_clock _ _) as [c m].
Qed.

(** One instruction of core 0. *)
Definition execute s : run_result :=
  let '(err, m) := cpu_supply_clock 0 (clock (e_clk s)) (e_machine s) in
  let '(bad, m) := failed 0 err m in
  if bad then ExitProcess 1 (with_machine m s) else Ran (core_is_halt 0 m) (with_machine m s).
Lemma supply_cores_eq s : m_current (e_machine s) = 0 → supply_cores (seqZ 0 1) true s = execute s.
Proof.
  intros Hcur. change (seqZ 0 1) with [0]. cbn [supply_cores]. rewrite with_current_id by done. unfold execute.
  destruct (cpu_supply_clock _ _ _) as [err m]. destruct (failed _ _ _) as [bad m']. by destruct bad.
Qed.

(** A clock: a tick, an instruction and, when the CPU runs, the rest of a batch. *)
Definition tick s : emu := let '(c, m) := device_supply_clock (e_clk s) (e_machine s) in mkEmu c m (e_athrill s).
Definition and_batch (n : Z) (r : run_result) : run_result :=
  match r with
  | ExitProcess st s => ExitProcess st s
  | Ran is_halt s =>
      if negb is_halt && (1 <? n) then
        match cpuemu_run_batch n end_clock s with
        | ExitProcess st s => ExitProcess st s
        | Ran is_halt s => Ran is_halt (halted is_halt s)
        end
      else Ran is_halt (halted is_halt s)
  end.
Lemma step_eq n s : m_current (e_machine s) = 0 → step n s = Ok (and_batch n (execute (tick s))).
Proof.
  intros Hcur. unfold cpuemu_thread_run_nodbg, tick. rewrite tick_eq.
  pose proof (bc_current Hc 0 (e_clk s) _ Hcur) as (_ & _ & Hcur').
  destruct (device_supply_clock _ _) as [c m]. cbn [snd] in Hcur'. cbn [mbind outcome_bind negb].
  rewrite supply_cores_eq by done. destruct (execute _) as [h s1|]; [|done]. cbn [and_batch Z.eqb Pos.eqb]. by rewrite andb_true_r.
Qed.

(** The first instruction of a clock does not bring the next event forward. *)
Definition first_keeps_event s : Prop :=
  ∀ h t, execute (tick s) = Ran h t → next_event (e_machine (tick s)) ≤ next_event (e_machine t).

(** The loop's next clock. *)
Definition advance s : emu := with_clk (set_clock (u64 (clock (e_clk s) + 1)) (e_clk s)) s.
Lemma advance_clock s : in_time s → clock (e_clk (advance s)) = clock (e_clk s) + 1.
Proof. intros [? ?]. unfold in_width in Hend. cbn. apply Z.mod_small. lia. Qed.
Lemma run_ran n fuel s h t : in_time s → step n s = Ok (Ran h t) → run n (S fuel) s = run n fuel (advance t).
Proof. intros Ht Hs. by rewrite run_step, Hs. Qed.
Lemma run_exit n fuel s st t : in_time s → step n s = Ok (ExitProcess st t) → run n (S fuel) s = Ok (Exited st t).
Proof. intros Ht Hs. by rewrite run_step, Hs. Qed.

(** Related machines with core 0 current. *)
Definition related m m' : Prop := behind m m' ∧ m_current m = 0 ∧ m_current m' = 0.
Lemma failed_related e m m' b n b' n' : related m m' → failed 0 e m = (b, n) → failed 0 e m' = (b', n') →
  b' = b ∧ related n n'.
Proof.
  intros (Hb & Hm & Hm'). unfold failed. destruct (std_ok e); [by intros [= <- <-] [= <- <-]|].
  destruct (cpu_illegal_access 0 m) as [x y] eqn:E, (cpu_illegal_access 0 m') as [x' y'] eqn:E'. intros [= <- <-] [= <- <-].
  destruct (bc_trap Hc _ _ _ _ _ _ Hb E E') as [-> ?]. split; [done|].
  pose proof (bc_current Hc 0 (mkDevClock 0 0 0 false 0 false) _ Hm) as (_ & A1 & _).
  pose proof (bc_current Hc 0 (mkDevClock 0 0 0 false 0 false) _ Hm') as (_ & A2 & _).
  rewrite E in A1. rewrite E' in A2. done.
Qed.
Lemma supply_related c m m' e n e' n' : related m m' → cpu_supply_clock 0 c m = (e, n) → cpu_supply_clock 0 c m' = (e', n') →
  e' = e ∧ related n n' ∧ touches c m' = touches c m.
Proof.
  intros (Hb & Hm & Hm') E E'. destruct (bc_supply Hc _ _ _ _ _ _ _ Hb E E') as (? & ? & ?).
  pose proof (bc_current Hc c (mkDevClock 0 0 0 false 0 false) _ Hm) as (A1 & _).
  pose proof (bc_current Hc c (mkDevClock 0 0 0 false 0 false) _ Hm') as (A2 & _).
  rewrite E in A1. rewrite E' in A2. done.
Qed.

(** An instruction and its trap, on the machine alone. *)
Lemma execute_eq s : execute s =
  let '(err, m) := cpu_supply_clock 0 (clock (e_clk s)) (e_machine s) in
  let '(bad, m) := failed 0 err m in
  if bad then ExitProcess 1 (with_machine m s) else Ran (core_is_halt 0 m) (with_machine m s).
Proof. done. Qed.

(** An iteration of the reference before the next event, against one instruction of a batch. *)
Lemma quiet_step clk m s e n b n2 : related m (e_machine s) → in_time s → clock (e_clk s) = clk →
  clk < next_event (e_machine s) → cpu_supply_clock 0 clk m = (e, n) → failed 0 e n = (b, n2) →
  ∃ t, related n2 (e_machine t) ∧ (touches clk m = false → std_ok e = true → next_event (e_machine t) = next_event (e_machine s)) ∧
    if b then clock (e_clk t) = clk ∧ ∀ fuel, run 1 (S fuel) s = Ok (Exited 1 t)
    else clock (e_clk t) = clk + 1 ∧ ∀ fuel, run 1 (S fuel) s = run 1 fuel t.
Proof.
  intros (Hb & Hm & Hm') Hin <- Hev Hs Hf.
  pose proof (bc_current Hc 0 (e_clk s) _ Hm') as (_ & _ & Hcur). pose proof (step_eq 1 s Hm') as Hstep. unfold tick in Hstep.
  destruct (device_supply_clock (e_clk s) (e_machine s)) as [l m1] eqn:Hd. cbn [snd] in Hcur.
  destruct (bc_quiet Hc _ _ _ _ _ Hb Hev Hd) as (Hb1 & Hl & He1).
  rewrite execute_eq in Hstep. cbn [e_clk e_machine] in Hstep. rewrite Hl in Hstep.
  destruct (cpu_supply_clock 0 (clock (e_clk s)) m1) as [e' n'] eqn:Hs'.
  destruct (supply_related _ _ _ _ _ _ _ (conj Hb1 (conj Hm Hcur)) Hs Hs') as (-> & Hr & Ht).
  destruct (failed 0 e n') as [b' n2'] eqn:Hf'. destruct (failed_related _ _ _ _ _ _ _ Hr Hf Hf') as (-> & Hr2).
  destruct b; cbn [and_batch] in Hstep; [|change (1 <? 1) with false in Hstep; rewrite andb_false_r in Hstep].
  - eexists (with_machine n2' (mkEmu l m1 (e_athrill s))). split; [done|]. split; [intros ? Hok; unfold failed in Hf; by rewrite Hok in Hf|].
    split; [done|]. intros fuel. by apply run_exit.
  - eexists (advance _). split; [|split; [|split; [|intros fuel; by eapply run_ran]]].
    + done.
    + intros Htc Hok. unfold failed in Hf'. rewrite Hok in Hf'. injection Hf' as <-. cbn [advance halted with_clk with_machine e_machine].
      rewrite <- He1. eapply (bc_event Hc); [|exact Hs']. congruence.
    + rewrite advance_clock; [cbn; lia|]. unfold in_time in *. cbn. lia.
Qed.

(** The rest of a batch against the iterations of the reference. *)
Lemma batch_simulated n clk m s : related m (e_machine s) → 0 ≤ clk → clock (e_clk s) = clk + 1 →
  clk + Z.of_nat n < end_clock → clk + Z.of_nat n < next_event (e_machine s) →
  let '(err, clk2, m2) := batch_run n clk m in
  let '(bad, m3) := failed 0 err m2 in
  clk ≤ clk2 ≤ clk + Z.of_nat n ∧
  ∃ t, related m3 (e_machine t) ∧
    if bad then clock (e_clk t) = clk2 ∧ ∀ fuel, run 1 (Z.to_nat (clk2 - clk) + fuel) s = Ok (Exited 1 t)
    else clock (e_clk t) = clk2 + 1 ∧ ∀ fuel, run 1 (Z.to_nat (clk2 - clk) + fuel) s = run 1 fuel t.
Proof.
  induction n as [|n IH] in clk, m, s |- *; intros Hr Hpos Hclk Hn Hev.
  - cbn. split; [lia|]. exists s. rewrite Z.sub_diag. split; [done|]. split; [lia|done].
  - cbn [batch_run]. destruct (cpu_supply_clock 0 (clk + 1) m) as [e m1] eqn:Hs.
    assert (in_time s) as Hin by (unfold in_time; lia).
    destruct (failed 0 e m1) as [b m2] eqn:Hf.
    destruct (quiet_step (clk + 1) m s e m1 b m2 Hr Hin Hclk ltac:(lia) Hs Hf) as (t & Hrt & Hnext & Hq).
    assert (Z.to_nat (clk + 1 - clk) = 1%nat) as Hone by lia.
    destruct (std_ok e) eqn:Hok; cbn [negb].
    + assert (b = false ∧ m2 = m1) as [-> ->] by (unfold failed in Hf; rewrite Hok in Hf; by simplify_eq).
      destruct Hq as [Ht Hq]. destruct (core_is_halt 0 m1 || touches (clk + 1) m) eqn:Hstop.
      * cbn [failed std_ok]. split; [lia|]. exists t. rewrite Hone. split_and!; [done..|lia|done].
      * apply orb_false_iff in Hstop as [_ Htc]. specialize (Hnext Htc eq_refl).
        specialize (IH (clk + 1) m1 t Hrt ltac:(lia) Ht ltac:(lia) ltac:(lia)).
        destruct (batch_run n (clk + 1) m1) as [[err clk2] m3]. destruct (failed 0 err m3) as [bad m4].
        destruct IH as (Hle & t' & Hrt' & IH). split; [lia|]. exists t'. split; [done|].
        replace (Z.to_nat (clk2 - clk)) with (S (Z.to_nat (clk2 - (clk + 1)))) by lia.
        destruct bad; destruct IH as [? IH]; (split; [done|]); intros fuel; by rewrite Nat.add_succ_l, Hq, IH.
    + rewrite Hf. split; [lia|]. exists t. rewrite Hone. split; [done|].
      destruct b; destruct Hq; (split; [lia|done]).
Qed.

(** The tick and the first instruction of two related runs. *)
Lemma first_related s s' : clock (e_clk s) = clock (e_clk s') → related (e_machine s) (e_machine s') →
  ∃ b h m m' c c', let t := mkEmu c m (e_athrill s) in let t' := mkEmu c' m' (e_athrill s') in
    clock c = clock (e_clk s) ∧ clock c' = clock (e_clk s) ∧ 1 ≤ min_intr_interval c ∧
    next_event (e_machine (tick s)) = clock (e_clk s) + min_intr_interval c ∧ related m m' ∧
    execute (tick s) = (if (b : bool) then ExitProcess 1 t else Ran h t) ∧
    execute (tick s') = (if (b : bool) then ExitProcess 1 t' else Ran h t').
Proof.
  intros Hclk (Hb & Hm & Hm').
  pose proof (bc_current Hc 0 (e_clk s) _ Hm) as (_ & _ & Hcur). pose proof (bc_current Hc 0 (e_clk s') _ Hm') as (_ & _ & Hcur').
  unfold tick. destruct (device_supply_clock (e_clk s) (e_machine s)) as [l n] eqn:Hd, (device_supply_clock (e_clk s') (e_machine s')) as [l' n'] eqn:Hd'.
  destruct (bc_tick Hc _ _ _ _ _ _ _ _ Hb Hclk Hd Hd') as (Hbn & Hl & Hl' & Hi & H1 & Hev).
  rewrite !execute_eq. cbn [e_clk e_machine e_athrill snd] in *. rewrite Hl, Hl'.
  destruct (cpu_supply_clock 0 _ n) as [e m1] eqn:Hs, (cpu_supply_clock 0 _ n') as [e' m1'] eqn:Hs'.
  destruct (supply_related _ _ _ _ _ _ _ (conj Hbn (conj Hcur Hcur')) Hs Hs') as (-> & Hr & _).
  destruct (failed 0 e m1) as [b m2] eqn:Hf, (failed 0 e m1') as [b' m2'] eqn:Hf'.
  destruct (failed_related _ _ _ _ _ _ _ Hr Hf Hf') as (-> & Hr2).
  destruct (bc_same Hc _ _ (proj1 Hr2)) as [_ <-]. destruct (bc_same Hc _ _ Hbn) as [-> _].
  exists b, (core_is_halt 0 m2), m2, m2', l, l'. cbn [e_clk with_machine e_athrill].
  split_and!; first [lia|by destruct b|done].
Qed.

(** What is left of a clock's iteration, against the reference. *)
Definition simulated (B : Z) s s' : Prop := ∃ k, 1 ≤ Z.of_nat k ≤ end_clock - clock (e_clk s) ∧ ∃ t t',
  clock (e_clk t) = clock (e_clk t') ∧ related (e_machine t) (e_machine t') ∧
  ((∀ fuel, run B (S fuel) s = Ok (Exited 1 t)) ∧ (∀ fuel, run 1 (k + fuel) s' = Ok (Exited 1 t')) ∨
   clock (e_clk t) = clock (e_clk s) + Z.of_nat k ∧
   (∃ h t0, step B s = Ok (Ran h t0) ∧ t = advance t0) ∧ (∀ fuel, run 1 (k + fuel) s' = run 1 fuel t')).
(** The budget of a batch. *)
Lemma run_batch_eq B s : in_time s → ∃ n, clock (e_clk s) + Z.of_nat n < end_clock ∧ Z.of_nat n < Z.max 1 (min_intr_interval (e_clk s)) ∧
  cpuemu_run_batch B end_clock s =
    let '(err, clk, m) := batch_run n (clock (e_clk s)) (e_machine s) in
    let '(bad, m) := failed 0 err m in
    let t := with_clk (set_clock clk (e_clk s)) (with_machine m s) in
    if bad then ExitProcess 1 t else Ran false t.
Proof.
  intros [? ?]. unfold in_width in Hend.
  assert (u64 (end_clock - clock (e_clk s)) = end_clock - clock (e_clk s)) as Hu by (apply Z.mod_small; lia).
  assert (Ran false s = let '(err, clk, m) := batch_run 0 (clock (e_clk s)) (e_machine s) in
    let '(bad, m) := failed 0 err m in let t := with_clk (set_clock clk (e_clk s)) (with_machine m s) in
    if bad then ExitProcess 1 t else Ran false t) as H0n.
  { cbn. f_equal. by destruct s as [[] [] ?]. }
  unfold cpuemu_run_batch. destruct (_ <=? 1); [exists 0%nat; split_and!; [lia..|done]|]. rewrite Hu.
  set (b1 := if min_intr_interval (e_clk s) <? B then _ else _). set (b2 := if end_clock - clock (e_clk s) <? b1 then _ else _).
  assert (b2 ≤ min_intr_interval (e_clk s) ∧ b2 ≤ end_clock - clock (e_clk s)) as [Hb1 Hb2].
  { unfold b2, b1. repeat case_match; lia. }
  clearbody b2. destruct (1 <? b2) eqn:Hb; [|exists 0%nat; split_and!; [lia..|done]].
  exists (Z.to_nat (b2 - 1)). split_and!; [lia..|]. by rewrite (bc_clocks Hc) by lia.
Qed.

Lemma simulated_once B s s' h h' t t' : in_time s → in_time s' → clock (e_clk s) = clock (e_clk s') →
  clock (e_clk t) = clock (e_clk s) → clock (e_clk t') = clock (e_clk s) → related (e_machine t) (e_machine t') →
  step B s = Ok (Ran h t) → step 1 s' = Ok (Ran h' t') → simulated B s s'.
Proof.
  intros Hin Hin' Hclk Ht Ht' Hr HB HR. exists 1%nat. split; [unfold in_time in *; lia|]. exists (advance t), (advance t').
  rewrite !advance_clock by (unfold in_time in *; lia). split; [lia|]. split; [done|]. right. split; [lia|].
  split; [by eexists _, _|]. intros fuel. by eapply run_ran.
Qed.

Lemma iteration_simulated B s s' : in_time s → clock (e_clk s) = clock (e_clk s') → related (e_machine s) (e_machine s') →
  first_keeps_event s → simulated B s s'.
Proof.
  intros Hin Hclk Hr Hfirst. pose proof Hr as (_ & Hm & Hm').
  assert (in_time s') as Hin' by (unfold in_time in *; lia).
  pose proof (step_eq B s Hm) as HB. pose proof (step_eq 1 s' Hm') as HR.
  destruct (first_related s s' Hclk Hr) as (b & h & m & m' & c & c' & Hc1 & Hc2 & Hi & Hev & Hrm & E & E').
  rewrite E in HB. rewrite E' in HR. set (t := mkEmu c m _) in *. set (t' := mkEmu c' m' _) in *.
  destruct b; cbn [and_batch] in HB, HR.
  { exists 1%nat. split; [unfold in_time in *; lia|]. exists t, t'. split; [cbn; lia|]. split; [done|]. left. split; intros fuel; by apply run_exit. }
  change (1 <? 1) with false in HR. rewrite andb_false_r in HR.
  destruct (negb h && (1 <? B)); [|by eapply simulated_once with (t := halted h t) (t' := halted h t')].
  destruct (run_batch_eq B t) as (n & Hn1 & Hn2 & Heq); [unfold in_time in *; cbn; lia|]. rewrite Heq in HB. cbn [t e_clk e_machine] in *.
  pose proof (Hfirst _ _ E) as Hkeep. cbn [t e_machine] in Hkeep. rewrite (proj1 (bc_same Hc _ _ (proj1 Hrm))) in Hkeep.
  set (s1 := advance (halted h t')). assert (clock (e_clk s1) = clock c + 1) as Hs1 by (unfold s1; rewrite advance_clock; unfold in_time in *; cbn; lia).
  pose proof (batch_simulated n (clock c) m s1 Hrm ltac:(unfold in_time in *; lia) Hs1 Hn1 ltac:(cbn; lia)) as Hsim.
  destruct (batch_run n (clock c) m) as [[err clk2] m2]. destruct (failed 0 err m2) as [bad m3].
  destruct Hsim as (Hle & u & Hru & Hsim). exists (S (Z.to_nat (clk2 - clock c))). split; [lia|].
  assert (∀ fuel, run 1 (S (Z.to_nat (clk2 - clock c)) + fuel) s' = run 1 (Z.to_nat (clk2 - clock c) + fuel) s1) as Hfst
    by (intros fuel; by eapply run_ran).
  destruct bad; destruct Hsim as [Hu Hrun].
  - exists (with_clk (set_clock clk2 c) (with_machine m3 t)), u. split; [|split; [done|left; split; intros fuel]].
    + cbn. lia.
    + by apply run_exit.
    + by rewrite Hfst, Hrun.
  - exists (advance (halted false (with_clk (set_clock clk2 c) (with_machine m3 t)))), u.
    rewrite advance_clock by (cbn; unfold in_time in *; cbn; lia). cbn [e_clk e_machine advance halted with_clk with_machine set_halt set_clock clock].
    split; [lia|]. split; [done|]. right. split; [lia|]. split; [by eexists _, _|]. intros fuel. by rewrite Hfst, Hrun.
Qed.

(** The clocks at which a run with batches is at the top of its loop. *)
Inductive visits (B : Z) (s0 : emu) : emu → Prop :=
  | visits_start : visits B s0 s0
  | visits_next s h t : visits B s0 s → clock (e_clk s) < end_clock → step B s = Ok (Ran h t) → visits B s0 (advance t).

(** Decided by running. *)
Definition first_keepsb s : bool :=
  match execute (tick s) with
  | Ran _ t => next_event (e_machine (tick s)) <=? next_event (e_machine t)
  | ExitProcess _ _ => true
  end.
Lemma first_keepsb_spec s : first_keepsb s = true → first_keeps_event s.
Proof. unfold first_keepsb. intros Hb h t E. rewrite E in Hb. lia. Qed.
Fixpoint check_visits (n : nat) (B : Z) s : bool :=
  match n with
  | O => false
  | S n =>
      first_keepsb s && ((end_clock <=? clock (e_clk s)) ||
        match step B s with Ok (Ran _ t) => check_visits n B (advance t) | _ => true end)
  end.
Lemma check_visits_spec n B s t : check_visits n B s = true → visits B s t → first_keeps_event t.
Proof.
  intros Hn Hv. assert (∃ k, check_visits k B t = true) as [[|k] Hk]; [|done|].
  { induction Hv as [|u h t _ [[|k] IH] Hu HB]; [by exists n|done|]. exists k. cbn in IH.
    apply andb_true_iff in IH as [_ IH]. rewrite HB in IH. replace (end_clock <=? _) with false in IH by lia. done. }
  cbn in Hk. apply andb_true_iff in Hk as [Hk _]. by apply first_keepsb_spec.
Qed.

(** C20: Batched execution gives "the same clocks and events as one tick per clock", in a run
    without the athrill device and without Hakoniwa, with skipping off and without real time
    (the hypotheses of this section; with the athrill device a call that the guest writes inside
    a batch is served only after the batch, so the equivalence is not claimed there).  Take a
    target that meets the contract its headers state: a batch runs one instruction per clock
    and stops after the one that halts the CPU or touches a device, a tick reports the clocks
    to the next event, before which a tick only brings the devices up to date.  Provided no
    first instruction of a clock brings the event forward, a run of the execution loop with
    any batch limit and the run with limit 1 both end, with the same exit status, at the same
    clock and with machines that differ at most in devices not yet brought up to date. *)
Theorem batch_runs_as_reference B s s' fuel : related (e_machine s) (e_machine s') → clock (e_clk s) = clock (e_clk s') →
  0 ≤ clock (e_clk s) ≤ end_clock → end_clock - clock (e_clk s) < Z.of_nat fuel → (∀ t, visits B s t → first_keeps_event t) →
  ∃ t t', run B fuel s = Ok (Exited 1 t) ∧ run 1 fuel s' = Ok (Exited 1 t') ∧
    clock (e_clk t) = clock (e_clk t') ∧ related (e_machine t) (e_machine t').
Proof.
  intros Hr Hclk Hpos Hfuel Hfirst. remember (visits B s) as P eqn:HP.
  assert (∀ u h t, P u → clock (e_clk u) < end_clock → step B u = Ok (Ran h t) → P (advance t)) as Hnext by (subst P; eauto using visits).
  assert (P s) as Hs by (subst P; constructor). clear HP. revert s s' fuel Hr Hclk Hpos Hfuel Hs.
  assert (∀ gap s s' fb fr, Z.to_nat (end_clock - clock (e_clk s)) = gap → related (e_machine s) (e_machine s') → clock (e_clk s) = clock (e_clk s') →
    0 ≤ clock (e_clk s) → (gap < fb)%nat → (gap < fr)%nat → P s →
    ∃ t t', run B fb s = Ok (Exited 1 t) ∧ run 1 fr s' = Ok (Exited 1 t') ∧ clock (e_clk t) = clock (e_clk t') ∧ related (e_machine t) (e_machine t')) as Hgap.
  { intros gap. induction gap as [gap IH] using lt_wf_ind. intros s s' fb fr Hg Hr Hclk Hpos Hfb Hfr Hs.
    destruct fb as [|fb], fr as [|fr]; [lia..|]. destruct (decide (end_clock ≤ clock (e_clk s))) as [He|He].
    { exists s, s'. rewrite !run_end by lia. done. }
    assert (in_time s) as Hin by (unfold in_time; lia).
    destruct (iteration_simulated B s s' Hin Hclk Hr (Hfirst _ Hs)) as (k & Hk & t & t' & Ht & Hrt & [[HB HR]|(Htk & (h & t0 & HB & ->) & HR)]).
    - exists t, t'. rewrite HB. replace (S fr) with (k + (S fr - k))%nat by lia. by rewrite HR.
    - rewrite (run_ran _ _ _ _ _ Hin HB). replace (S fr) with (k + (S fr - k))%nat by lia. rewrite HR.
      eapply IH; [|reflexivity|done..|lia|lia|lia|eapply Hnext; [done|lia|done]]. lia. }
  intros s s' fuel ? ? [? ?] ? ?. eapply Hgap; [reflexivity|done..|lia|lia|done].
Qed.
End contract.
End batch.

(** ** A target with one timer *)

Module BatchDemo.
#[local] Existing Instance MpuDemo.config.

(** The CPU runs a list of instructions and waits at its end; the timer raises an event at
    [tm_cmp], which wakes the CPU, and every 100 clocks after.  [tm_now] is the clock the timer
    is brought up to, by ticks and by accesses. *)
Inductive instr := Nop | Arm (delay : Z) | ReadTimer | Wait | Trap.
Record target := mkTarget {
  todo : list instr; acc : Z; waits : bool; tm_now : Z; tm_cmp : Z; events : list Z;
}.
#[local] Abbreviation machine := (machine () target).
Definition on_target (f : target → target) (m : machine) : machine := mkMachine (f (m_tgt m)) (m_mpu m) (m_log m) (m_current m).

Definition execute_at (c : Z) (m : machine) : Std_ReturnType * machine :=
  let t := m_tgt m in
  if waits t then (STD_E_OK, m)
  else match todo t with
       | [] | Wait :: _ => (STD_E_OK, on_target (λ t, mkTarget (tail (todo t)) (acc t) true (tm_now t) (tm_cmp t) (events t)) m)
       | Nop :: rest => (STD_E_OK, on_target (λ t, mkTarget rest (acc t) false (tm_now t) (tm_cmp t) (events t)) m)
       | Arm d :: rest => (STD_E_OK, on_target (λ t, mkTarget rest (acc t) false c (c + Z.max 1 d) (events t)) m)
       | ReadTimer :: rest => (STD_E_OK, on_target (λ t, mkTarget rest (acc t + c) false c (tm_cmp t) (events t)) m)
       | Trap :: rest => (STD_E_EXEC, on_target (λ t, mkTarget rest (acc t) false (tm_now t) (tm_cmp t) (events t)) m)
       end.
Definition touches (_ : Z) (m : machine) : bool :=
  negb (waits (m_tgt m)) && match todo (m_tgt m) with Arm _ :: _ | ReadTimer :: _ => true | _ => false end.
Fixpoint execute_for (n : nat) (clk : Z) (m : machine) : Std_ReturnType * Z * machine :=
  match n with
  | O => (STD_E_OK, clk, m)
  | S n =>
      let '(err, m') := execute_at (clk + 1) m in
      if negb (std_ok err) then (err, clk + 1, m')
      else if waits (m_tgt m') || touches (clk + 1) m then (STD_E_OK, clk + 1, m')
      else execute_for n (clk + 1) m'
  end.
Definition timer_tick (k : DeviceClockType) (m : machine) : DeviceClockType * machine :=
  let t := m_tgt m in
  let t := if tm_cmp t <=? clock k then mkTarget (todo t) (acc t) false (clock k) (clock k + 100) (events t ++ [clock k])
           else mkTarget (todo t) (acc t) (waits t) (clock k) (tm_cmp t) (events t) in
  (set_interval (tm_cmp t - clock k) k, on_target (λ _, t) m).

#[local] Instance timer_target : TargetMachine () target := {|
  ATHRILL_TARGET_BATCH_CLOCKS := 64;
  DEFAULT_CPU_FREQ := 100;
  athrill_device_enabled := false;
  os_linux := true;
  cpu_supply_clock := λ _, execute_at;
  cpu_supply_clocks := λ _ n clk m, execute_for (Z.to_nat n) clk m;
  cpu_illegal_access := λ _ m, (negb (acc (m_tgt m) =? 0), m);
  core_is_halt := λ _ m, waits (m_tgt m);
  cpu_get_pc := λ _ _, 0;
  cpu_get_sp := λ _ _, 0;
  core_elaps := λ _ _, 0;
  cpu_set_core_pc := λ _ _ m, m;
  cpu_init := λ m, m;
  device_reset := λ k m, (k, m);
  device_supply_clock := timer_tick;
  intc_raise_intr := λ _ m, m;
  athrill_syscall_device := λ _ m, m;
  flock := λ _ _ m, (true, m);
  athrill_hakoniwa_stage := hakoniwa_disabled;
|}.

Definition behind (m m' : machine) : Prop := on_target (λ t, mkTarget (todo t) (acc t) (waits t) 0 (tm_cmp t) (events t)) m =
  on_target (λ t, mkTarget (todo t) (acc t) (waits t) 0 (tm_cmp t) (events t)) m'.
Definition next_event (m : machine) : Z := tm_cmp (m_tgt m).

Lemma execute_for_batch n clk m : execute_for n clk m = batch_run touches n clk m.
Proof. induction n as [|n IH] in clk, m |- *; [done|]. cbn. destruct (execute_at _ _) as [e m']. by rewrite IH. Qed.
Lemma timer_contract : batch_contract behind next_event touches.
Proof.
  split.
  - intros n clk m _. apply execute_for_batch.
  - intros c [[rest a w n p es] ? ? ?] [[] ? ? ?]. unfold behind. intros. cbn in *. simplify_eq.
    unfold execute_at, touches in *. cbn in *. repeat case_match; simplify_eq; done.
  - intros [[] ? ? ?] [[] ? ? ?]. unfold behind. intros. cbn in *. by simplify_eq.
  - intros [[] ? ? ?] [[] ? ? ?]. unfold behind. intros. cbn in *. by simplify_eq.
  - intros [] [] [[] ? ? ?] [[] ? ? ?]. unfold behind, next_event. intros. cbn in *. unfold timer_tick in *. cbn in *. simplify_eq.
    repeat case_match; cbn in *; simplify_eq; split_and!; done || lia.
  - intros [] [[] ? ? ?] [[] ? ? ?]. unfold behind, next_event. intros. cbn in *. unfold timer_tick in *. cbn in *. simplify_eq.
    repeat case_match; cbn in *; simplify_eq; split_and!; done || lia.
  - intros c [[rest ? w ? ? ?] ? ? ?]. unfold touches, next_event. cbn. intros e n Ht. unfold execute_at. cbn.
    intros. repeat case_match; by simplify_eq.
  - intros c k [[rest ? w ? ? ?] ? ? ?]. cbn. intros ->. unfold execute_at, timer_tick. cbn. split_and!; repeat case_match; done.
Qed.

Definition cfg : run_config := mkRunConfig (mkEnable 0 0 0 0) 0 0 100 0 0 1.
Definition start (rest : list instr) : emu (D := ()) (T := target) :=
  mkEmu (mkDevClock 0 0 0 false 0 false) (mkMachine (mkTarget rest 0 false 0 20 []) MpuDemo.mpu bus_log_init 0)
    (mkAthrill 0 0 None []).
Definition result (r : outcome (loop_result (D := ()) (T := target))) : option (Z * Z * list Z * Z) :=
  match r with
  | Ok (Exited n s) => Some (n, clock (e_clk s), events (m_tgt (e_machine s)), acc (m_tgt (e_machine s)))
  | _ => None
  end.
Definition run (batch : Z) (rest : list instr) :=
  loop 400 (with_batch cfg batch) 300 (cpuemu_thread_run_nodbg 100 batch 300 1) (start rest) 0.

(** The second instruction of the program arms the timer: with batches of 64, the event comes
    at the clock where one tick per clock gives it. *)
Example second_access : result (run 64 [Nop; Arm 5; Nop; ReadTimer; Nop]) = Some (1, 300, [6; 106; 206], 3) ∧
  result (run 1 [Nop; Arm 5; Nop; ReadTimer; Nop]) = Some (1, 300, [6; 106; 206], 3).
Proof. split; vm_compute; reflexivity. Qed.

(** The first does: the batch that follows runs past the event. *)
Lemma first_access_delays_event :
  batch_contract behind next_event touches ∧
  result (run 64 [Arm 5; Nop; Nop; Nop; Nop; Nop; Nop; Nop; Nop; Nop]) = Some (1, 300, [11; 111; 211], 0) ∧
  result (run 1 [Arm 5; Nop; Nop; Nop; Nop; Nop; Nop; Nop; Nop; Nop]) = Some (1, 300, [5; 105; 205], 0).
Proof. split; [apply timer_contract|]. split; vm_compute; reflexivity. Qed.

Lemma batch_witness : ∃ t t', run 64 [Nop; Arm 5; Nop; ReadTimer; Nop] = Ok (Exited 1 t) ∧
  run 1 [Nop; Arm 5; Nop; ReadTimer; Nop] = Ok (Exited 1 t') ∧
  clock (e_clk t) = clock (e_clk t') ∧ related behind (e_machine t) (e_machine t').
Proof.
  apply (batch_runs_as_reference behind next_event touches timer_contract eq_refl eq_refl cfg ltac:(done) eq_refl 300 ltac:(split; done)
    64 (start [Nop; Arm 5; Nop; ReadTimer; Nop]) (start [Nop; Arm 5; Nop; ReadTimer; Nop]) 400); [done|done|done|done|].
  intros t. apply (check_visits_spec (H0 := timer_target) next_event eq_refl cfg 300 400). vm_compute. reflexivity.
Defined.
End BatchDemo.
