(* ===== verification/Hakoniwa.v ===== *)
(** * Hakoniwa: lockstep with a world time ([src/src/hakoniwa/athrill_hakoniwa.cpp])

    As an asset of a Hakoniwa simulation the emulator may run only while its clock is below
    the world time.  The stage before each instruction compares the clock with the limit read
    last; at the limit it reports the asset time, runs the conductor when it owns it, handles
    events and waits until the world time has advanced.

    The Hakoniwa library is a parameter ([HakoniwaCore]), as is what the reset callback does.
    The interval of the devices is a variable of the emulator, which the stage gets a pointer
    to: it is read when it is capped, after whatever a reset has left in it.
    A pass of the wait is a function; the loop runs passes with fuel, since it may wait for
    ever.  Sleeping and printing are left out. *)

From Stdlib Require Import String Ascii.
From S2P Require Import Prelude Mpu MpuFacts Loader SymbolOps CpuControl Bus CpuCallback Token DeviceConfig Emulator.
Open Scope Z_scope.

Definition HAKO_EVENT_NONE : Z := 0.
Definition HAKO_EVENT_START : Z := 1.
Definition HAKO_EVENT_STOP : Z := 2.
Definition HAKO_EVENT_RESET : Z := 3.
Definition HAKO_EVENT_ERROR : Z := 4.

(** The library, over the state of the simulation [W]; [terminate_requested] tells whether
    SIGTERM has come. *)
Class HakoniwaCore (W : Type) := {
  hakoniwa_master_init : W → Z * W;
  hakoniwa_master_set_config_simtime : Z → Z → W → W;
  hakoniwa_master_execute : W → W;
  hakoniwa_asset_init : W → Z * W;
  hakoniwa_asset_register_polling : list Z → W → Z * W;
  hakoniwa_asset_unregister : list Z → W → W;
  hakoniwa_asset_create_pdu_lchannel : list Z → Z → Z → W → Z * W;
  hakoniwa_asset_get_event : list Z → W → Z * W;
  hakoniwa_asset_get_worldtime : W → Z * W;
  hakoniwa_asset_notify_simtime : list Z → Z → W → W;
  hakoniwa_asset_notify_write_pdu_done : list Z → W → W;
  hakoniwa_asset_start_feedback_ok : list Z → W → W;
  hakoniwa_asset_stop_feedback_ok : list Z → W → W;
  hakoniwa_asset_reset_feedback : list Z → bool → W → W;
  hakoniwa_asset_reset_feedback_ok : list Z → W → W;
  hakoniwa_asset_is_simulation_mode : W → Z * W;
  hakoniwa_asset_is_pdu_created : W → Z * W;
  hakoniwa_asset_is_pdu_sync_mode : list Z → W → Z * W;
  terminate_requested : W → bool * W;
}.

(** The static variables.  Without a name the emulator is no asset. *)
Record hakoniwa := mkHako {
  asset_name : option (list Z);
  world_time_usec : Z;
  world_limit_clock : Z;
  last_notified_usec : Z;
  ready : bool;
  running : bool;
  registered : bool;
  owns_conductor : bool;
  finalized : bool;
  real_sleep_msec : Z;
  next_sleep_clock : Z;
  reset_callback : bool;
}.
Definition hakoniwa_init : hakoniwa := mkHako None 0 0 (2 ^ 64 - 1) false false false false false 0 0 false.

Definition with_world (t : Z) (h : hakoniwa) : hakoniwa :=
  mkHako (asset_name h) t (world_limit_clock h) (last_notified_usec h) (ready h) (running h) (registered h) (owns_conductor h)
    (finalized h) (real_sleep_msec h) (next_sleep_clock h) (reset_callback h).
Definition with_limit (n : Z) (h : hakoniwa) : hakoniwa :=
  mkHako (asset_name h) (world_time_usec h) n (last_notified_usec h) (ready h) (running h) (registered h) (owns_conductor h)
    (finalized h) (real_sleep_msec h) (next_sleep_clock h) (reset_callback h).
Definition with_notified (t : Z) (h : hakoniwa) : hakoniwa :=
  mkHako (asset_name h) (world_time_usec h) (world_limit_clock h) t (ready h) (running h) (registered h) (owns_conductor h)
    (finalized h) (real_sleep_msec h) (next_sleep_clock h) (reset_callback h).
Definition with_ready (b : bool) (h : hakoniwa) : hakoniwa :=
  mkHako (asset_name h) (world_time_usec h) (world_limit_clock h) (last_notified_usec h) b (running h) (registered h)
    (owns_conductor h) (finalized h) (real_sleep_msec h) (next_sleep_clock h) (reset_callback h).
Definition with_running (b : bool) (h : hakoniwa) : hakoniwa :=
  mkHako (asset_name h) (world_time_usec h) (world_limit_clock h) (last_notified_usec h) (ready h) b (registered h)
    (owns_conductor h) (finalized h) (real_sleep_msec h) (next_sleep_clock h) (reset_callback h).
Definition with_registered (b : bool) (h : hakoniwa) : hakoniwa :=
  mkHako (asset_name h) (world_time_usec h) (world_limit_clock h) (last_notified_usec h) (ready h) (running h) b
    (owns_conductor h) (finalized h) (real_sleep_msec h) (next_sleep_clock h) (reset_callback h).
Definition with_conductor (b : bool) (h : hakoniwa) : hakoniwa :=
  mkHako (asset_name h) (world_time_usec h) (world_limit_clock h) (last_notified_usec h) (ready h) (running h) (registered h) b
    (finalized h) (real_sleep_msec h) (next_sleep_clock h) (reset_callback h).
Definition with_finalized (b : bool) (h : hakoniwa) : hakoniwa :=
  mkHako (asset_name h) (world_time_usec h) (world_limit_clock h) (last_notified_usec h) (ready h) (running h) (registered h)
    (owns_conductor h) b (real_sleep_msec h) (next_sleep_clock h) (reset_callback h).
Definition with_next_sleep (n : Z) (h : hakoniwa) : hakoniwa :=
  mkHako (asset_name h) (world_time_usec h) (world_limit_clock h) (last_notified_usec h) (ready h) (running h) (registered h)
    (owns_conductor h) (finalized h) (real_sleep_msec h) n (reset_callback h).

Section hakoniwa.
Context {W M : Type} `{HakoniwaCore W}.
(** The variable of the emulator [M] that [min_intr_interval] points to. *)
Context (min_intr_interval : M → Z) (set_min_intr_interval : Z → M → M).
(** The reset callback on the emulator; 0 when it succeeds. *)
Context (reset : M → outcome (Z * M)).
(** The channels of the PDU definition file, if it can be read. *)
Context (pdu_definition : list Z → option (list (list Z * Z * Z))).

Record hstate := mkHState { hs_h : hakoniwa; hs_w : W; hs_m : M }.
Implicit Types (s : hstate) (h : hakoniwa) (w : W).
Definition on_h (f : hakoniwa → hakoniwa) s : hstate := mkHState (f (hs_h s)) (hs_w s) (hs_m s).
Definition on_w (f : W → W) s : hstate := mkHState (hs_h s) (f (hs_w s)) (hs_m s).
Definition on_m (f : M → M) s : hstate := mkHState (hs_h s) (hs_w s) (f (hs_m s)).
Definition ask {A} (f : W → A * W) s : A * hstate := let '(a, w) := f (hs_w s) in (a, mkHState (hs_h s) w (hs_m s)).
Definition name_of s : list Z := default [] (asset_name (hs_h s)).

Definition athrill_hakoniwa_finalize s : hstate :=
  match asset_name (hs_h s) with
  | None => s
  | Some name =>
      if finalized (hs_h s) then s
      else
        let s := on_h (with_finalized true) s in
        let s := if registered (hs_h s)
                 then on_h (with_registered false) (on_w (hakoniwa_asset_unregister name) s) else s in
        on_h (with_conductor false) s
  end.

(** ** Start *)

Fixpoint create_channels (cs : list (list Z * Z * Z)) s : Z * hstate :=
  match cs with
  | [] => (0, s)
  | (robot, channel, size) :: cs =>
      let '(r, s) := ask (hakoniwa_asset_create_pdu_lchannel robot channel size) s in
      if negb (r =? 0) then (-1, s) else create_channels cs s
  end.
Definition create_pdu_channels (pdudef_path : list Z) s : Z * hstate :=
  match pdu_definition pdudef_path with None => (-1, s) | Some cs => create_channels cs s end.

Definition ATHRILL_HAKONIWA_DEFAULT_PDUDEF : list Z := str_of "config/hakoniwa/athrill-pdudef.json".
(** The conductor, when it is not disabled; [None] when it cannot be started. *)
Definition start_conductor (delta_usec max_delay_usec : Z) (disable_conductor : bool) s : bool * hstate :=
  if disable_conductor then (true, s)
  else
    let '(r, s) := ask hakoniwa_master_init s in
    if negb (r =? 0) then (false, s)
    else (true, on_h (with_conductor true) (on_w (hakoniwa_master_set_config_simtime max_delay_usec delta_usec) s)).
Definition athrill_hakoniwa_initialize (name : list Z) (pdudef_path : option (list Z)) (delta_usec max_delay_usec sleep_msec : Z)
    (disable_conductor on_reset : bool) s : Z * hstate :=
  let s := on_h (λ h, mkHako (Some name) 0 0 (2 ^ 64 - 1) (ready h) false false false false sleep_msec (next_sleep_clock h) on_reset) s in
  let '(ok, s) := start_conductor delta_usec max_delay_usec disable_conductor s in
  if negb ok then (1, s)
  else
    let '(r, s) := ask hakoniwa_asset_init s in
    if negb (r =? 0) then (1, s)
    else
      let '(r, s) := ask (hakoniwa_asset_register_polling name) s in
      if negb (r =? 0) then (1, s)
      else
        let s := on_h (with_registered true) s in
        let '(r, s) := create_pdu_channels (default ATHRILL_HAKONIWA_DEFAULT_PDUDEF pdudef_path) s in
        if negb (r =? 0) then (1, athrill_hakoniwa_finalize s) else (0, s).

(** ** The stage *)

(** How a stage, or a pass of its wait, ends: the CPU may run, at a clock that
    a reset has set to 0; the process exits; or the wait goes on. *)
Inductive stage_result :=
  | Proceed (clock : Z) (s : hstate)
  | StageExit (status : Z) (s : hstate)
  | Wait (clock : Z) (s : hstate).

(** [true] when the process exits, after the cleanup. *)
Definition handle_terminate_request s : bool * hstate :=
  let '(t, s) := ask terminate_requested s in
  if (t : bool) then (true, athrill_hakoniwa_finalize s) else (false, s).

Inductive event_result :=
  | EventDone (was_reset : bool) (s : hstate)
  | EventExit (s : hstate).
Definition handle_event s : outcome event_result :=
  let name := name_of s in
  let '(e, s) := ask (hakoniwa_asset_get_event name) s in
  if e =? HAKO_EVENT_START then
    let '(_, s) := ask hakoniwa_asset_is_pdu_created s in
    let '(t, s) := ask hakoniwa_asset_get_worldtime s in
    let s := on_h (λ h, with_ready false (with_running true (with_world t h))) s in
    Ok (EventDone false (on_w (λ w, hakoniwa_asset_start_feedback_ok name (hakoniwa_asset_notify_write_pdu_done name w)) s))
  else if e =? HAKO_EVENT_STOP then
    Ok (EventDone false (on_w (hakoniwa_asset_stop_feedback_ok name) (on_h (λ h, with_ready false (with_running false h)) s)))
  else if e =? HAKO_EVENT_RESET then
    let s := on_h (λ h, with_ready false (with_running false h)) s in
    '(r, m) ← (if reset_callback (hs_h s) then reset (hs_m s) else Ok (1, hs_m s));
    let s := mkHState (hs_h s) (hs_w s) m in
    if negb (r =? 0) then
      Ok (EventExit (athrill_hakoniwa_finalize (on_w (hakoniwa_asset_reset_feedback name false) s)))
    else Ok (EventDone true (on_w (hakoniwa_asset_reset_feedback_ok name) (on_h (with_world 0) s)))
  else if e =? HAKO_EVENT_ERROR then Ok (EventExit (athrill_hakoniwa_finalize s))
  else Ok (EventDone false s).

(** The clock of the next sleep. *)
Definition pace_real_time (clock cpu_mhz : Z) h : hakoniwa :=
  if (real_sleep_msec h =? 0) || (cpu_mhz =? 0) then h
  else
    let period := u64 (u64 (real_sleep_msec h * 1000) * cpu_mhz) in
    let h := if next_sleep_clock h =? 0 then with_next_sleep period h else h in
    if next_sleep_clock h <=? clock then with_next_sleep (u64 (next_sleep_clock h + period)) h else h.

Definition cap_skip_interval (interval : Z) s : hstate :=
  if negb (min_intr_interval (hs_m s) =? 2 ^ 64 - 1) && (interval <? min_intr_interval (hs_m s))
  then on_m (set_min_intr_interval interval) s else s.

(** The parts of a pass: report the time, check the simulation mode and the PDUs after a
    start, and read the world time. *)
Definition report_time (clock cpu_mhz : Z) s : hstate :=
  if running (hs_h s) && negb (cpu_mhz =? 0) && negb (clock / cpu_mhz =? last_notified_usec (hs_h s))
  then on_w (hakoniwa_asset_notify_simtime (name_of s) (clock / cpu_mhz)) (on_h (with_notified (clock / cpu_mhz)) s)
  else s.
Definition check_ready (cpu_mhz : Z) s : hstate :=
  if running (hs_h s) && negb (cpu_mhz =? 0) && negb (ready (hs_h s)) then
    let '(sim, s) := ask hakoniwa_asset_is_simulation_mode s in
    if sim =? 0 then s
    else
      let '(created, s) := ask hakoniwa_asset_is_pdu_created s in
      if created =? 0 then s
      else
        let '(sync, s) := ask (hakoniwa_asset_is_pdu_sync_mode (name_of s)) s in
        if negb (sync =? 0) then on_w (hakoniwa_asset_notify_write_pdu_done (name_of s)) s
        else on_h (with_ready true) s
  else s.
Definition read_world (clock cpu_mhz : Z) s : stage_result :=
  if running (hs_h s) && negb (cpu_mhz =? 0) && ready (hs_h s) then
    let '(t, s) := ask hakoniwa_asset_get_worldtime s in
    let s := on_h (with_world t) s in
    let limit := u64 (t * cpu_mhz) in
    if clock <? limit then Proceed clock (cap_skip_interval (limit - clock) (on_h (with_limit limit) s)) else Wait clock s
  else Wait clock s.

(** One pass of the wait. *)
Definition stage_pass (clock cpu_mhz : Z) s : outcome stage_result :=
  let s := report_time clock cpu_mhz s in
  let s := if owns_conductor (hs_h s) then on_w hakoniwa_master_execute s else s in
  let '(t, s) := handle_terminate_request s in
  if (t : bool) then Ok (StageExit 0 s)
  else
    r ← handle_event s;
    Ok match r with
       | EventExit s => StageExit 1 s
       | EventDone was_reset s =>
           let '(clock, s) := if was_reset
             then (0, on_h (λ h, with_notified (2 ^ 64 - 1) (with_next_sleep 0 (with_limit 0 h))) s) else (clock, s) in
           read_world clock cpu_mhz (check_ready cpu_mhz s)
       end.
Fixpoint stage_wait (fuel : nat) (clock cpu_mhz : Z) s : outcome stage_result :=
  match fuel with
  | O => Ok (Wait clock s)
  | S fuel =>
      r ← stage_pass clock cpu_mhz s;
      match r with
      | Wait clock s => stage_wait fuel clock cpu_mhz s
      | r => Ok r
      end
  end.
Definition athrill_hakoniwa_stage (fuel : nat) (clock cpu_mhz : Z) s : outcome stage_result :=
  if bool_decide (asset_name (hs_h s) = None) || finalized (hs_h s) then Ok (Proceed clock s)
  else
    let '(t, s) := handle_terminate_request s in
    if (t : bool) then Ok (StageExit 0 s)
    else
      let s := if running (hs_h s) then on_h (pace_real_time clock cpu_mhz) s else s in
      if running (hs_h s) && (clock <? world_limit_clock (hs_h s))
      then Ok (Proceed clock (cap_skip_interval (world_limit_clock (hs_h s) - clock) s))
      else stage_wait fuel clock cpu_mhz s.
End hakoniwa.

(** The reset callback of [main.cpp]: the image is loaded again and the emulator reset. *)
Definition hakoniwa_reset_athrill {D T} `{MpuConfig D} `{LoaderConfig} `{TargetMachine D T} (data : list Z) (elf_size : Z)
    (memap : MemoryAddressMapType) (entry_addr core_id_num : Z) (s : emu (D := D) (T := T)) : outcome (Z * emu (D := D) (T := T)) :=
  '(err, mpu) ← elf_reload data elf_size memap (m_mpu (e_machine s));
  let s := with_machine (with_mpu mpu (e_machine s)) s in
  if negb (std_ok err) then Ok (1, s) else Ok (0, cpuemu_reset entry_addr core_id_num s).
