(* ===== verification/HakoniwaFacts.v ===== *)
(** * The emulator never runs ahead of the world time

    What the comments of [athrill_hakoniwa.cpp] promise: the stage lets the CPU run only at
    clocks below the world time, a skip or a batch after it stays below too, and the wait ends
    as soon as the world time has advanced.  The promise for batches holds only when a device
    has a next event: without one, or when a reset has just forgotten it, the interval is not
    capped, and a batch runs past the world time. *)

From Stdlib Require Import String Ascii.
From S2P Require Import Prelude Mpu MpuFacts Loader SymbolOps CpuControl Bus CpuCallback Token DeviceConfig Emulator Hakoniwa.
Open Scope Z_scope.

Section facts.
Context {W M : Type} `{HakoniwaCore W}.
Context (reset : M → outcome (Z * M)) (now : W → Z).
Implicit Types (s : hstate (W := W) (M := M)) (h : hakoniwa) (w : W).

(** ** The contract of the library *)

(** [now]: the world time, in microseconds.  Reading it gives the time at the read; no call
    turns it back but the one that hands out a reset. *)
Record world_laws : Prop := {
  wl_range : ∀ w, 0 ≤ now w;
  wl_read : ∀ w, fst (hakoniwa_asset_get_worldtime w) = now w;
  wl_time : ∀ w, now w ≤ now (snd (hakoniwa_asset_get_worldtime w));
  wl_execute : ∀ w, now w ≤ now (hakoniwa_master_execute w);
  wl_unregister : ∀ n w, now w ≤ now (hakoniwa_asset_unregister n w);
  wl_event : ∀ n w, fst (hakoniwa_asset_get_event n w) ≠ HAKO_EVENT_RESET → now w ≤ now (snd (hakoniwa_asset_get_event n w));
  wl_simtime : ∀ n t w, now w ≤ now (hakoniwa_asset_notify_simtime n t w);
  wl_pdu_done : ∀ n w, now w ≤ now (hakoniwa_asset_notify_write_pdu_done n w);
  wl_start_ok : ∀ n w, now w ≤ now (hakoniwa_asset_start_feedback_ok n w);
  wl_stop_ok : ∀ n w, now w ≤ now (hakoniwa_asset_stop_feedback_ok n w);
  wl_sim_mode : ∀ w, now w ≤ now (snd (hakoniwa_asset_is_simulation_mode w));
  wl_created : ∀ w, now w ≤ now (snd (hakoniwa_asset_is_pdu_created w));
  wl_sync : ∀ n w, now w ≤ now (snd (hakoniwa_asset_is_pdu_sync_mode n w));
  wl_terminate : ∀ w, now w ≤ now (snd (terminate_requested w));
}.
Context (Hw : world_laws) (cpu_mhz : Z) (Hmhz : 0 ≤ cpu_mhz).

(** The limit the stage compares with is no later than the world time. *)
Definition limit_ok s : Prop := world_limit_clock (hs_h s) ≤ now (hs_w s) * cpu_mhz.

(** Steps that keep the limit and do not turn the time back. *)
Definition later s s' : Prop := world_limit_clock (hs_h s') = world_limit_clock (hs_h s) ∧ now (hs_w s) ≤ now (hs_w s').
Lemma later_refl s : later s s. Proof. split; [done|lia]. Qed.
Lemma later_trans s1 s2 s3 : later s1 s2 → later s2 s3 → later s1 s3.
Proof. intros [? ?] [? ?]. split; [congruence|lia]. Qed.
Lemma later_ok s s' : later s s' → limit_ok s → limit_ok s'.
Proof. intros [Hl Ht] Hs. unfold limit_ok in *. rewrite Hl. nia. Qed.
Lemma later_h f s : (∀ h, world_limit_clock (f h) = world_limit_clock h) → later s (on_h f s).
Proof. intros Hf. split; [apply Hf|cbn; lia]. Qed.
Lemma later_w f s : (∀ w, now w ≤ now (f w)) → later s (on_w f s).
Proof. intros Hf. split; [done|apply Hf]. Qed.
Lemma later_ask {A} (f : W → A * W) s : (∀ w, now w ≤ now (snd (f w))) → later s (snd (ask f s)).
Proof. intros Hf. specialize (Hf (hs_w s)). unfold ask. destruct (f (hs_w s)) as [a w]. split; [done|exact Hf]. Qed.
End facts.

Create HintDb world.
#[export] Hint Resolve later_refl later_h later_w later_ask : world.
#[export] Hint Resolve wl_time wl_execute wl_unregister wl_simtime wl_pdu_done wl_start_ok wl_stop_ok wl_sim_mode wl_created
  wl_sync wl_terminate : world.

Ltac world := eauto 3 using later_trans with world.

Section stage.
Context {W M : Type} `{HakoniwaCore W}.
Context (interval : M → Z) (set_interval : Z → M → M) (reset : M → outcome (Z * M)).
Context (now : W → Z) (Hw : world_laws now) (cpu_mhz : Z) (Hmhz : 0 ≤ cpu_mhz).
Implicit Types (s : hstate (W := W) (M := M)) (h : hakoniwa) (w : W).

(** The emulator that a stage works on: its interval is a variable apart from its clock [clk],
    and a reset that succeeds sets the clock to 0. *)
Record cell_laws (clk : M → Z) : Prop := {
  ce_get : ∀ i m, interval (set_interval i m) = i;
  ce_clock : ∀ i m, clk (set_interval i m) = clk m;
  ce_reset : ∀ m m', reset m = Ok (0, m') → clk m' = 0;
}.
Context (clk : M → Z) (Hcell : cell_laws clk).
(** Some device has a next event; a reset knows of one too. *)
Definition known (m : M) : Prop := interval m ≠ DEVICE_CLOCK_MAX_INTERVAL.
Definition reset_knows : Prop := ∀ m m', reset m = Ok (0, m') → known m'.

#[local] Abbreviation stage_pass := (stage_pass interval set_interval reset).
#[local] Abbreviation stage_wait := (stage_wait interval set_interval reset).
#[local] Abbreviation read_world := (read_world interval set_interval).
#[local] Abbreviation cap_skip_interval := (cap_skip_interval interval set_interval).
#[local] Abbreviation later := (later now).
#[local] Abbreviation limit_ok := (limit_ok now cpu_mhz).

Lemma finalize_later s : later s (athrill_hakoniwa_finalize s).
Proof.
  unfold athrill_hakoniwa_finalize. destruct (asset_name _); [|world]. destruct (finalized _); [world|].
  eapply later_trans; [by apply (later_h now (with_finalized true))|]. eapply later_trans; [|by apply later_h].
  case_match; [|apply later_refl]. eapply later_trans; [|by apply later_h]. apply later_w. apply Hw.
Qed.
Lemma terminate_later s : later s (snd (handle_terminate_request s)).
Proof.
  unfold handle_terminate_request. pose proof (later_ask now terminate_requested s (wl_terminate now Hw)) as Hl.
  destruct (ask terminate_requested s) as [t s1]. cbn [snd] in Hl. destruct t; [|done]. eapply later_trans; [done|apply finalize_later].
Qed.
Lemma report_later clock s : later s (report_time clock cpu_mhz s).
Proof. unfold report_time. case_match; [|world]. split; [done|cbn; apply Hw]. Qed.

Lemma ask_step {A} (f : W → A * W) s a s' : (∀ w, now w ≤ now (snd (f w))) → ask f s = (a, s') → later s s'.
Proof. intros Hf E. pose proof (later_ask now f s Hf) as Hl. by rewrite E in Hl. Qed.
Lemma check_ready_later s : later s (check_ready cpu_mhz s).
Proof.
  unfold check_ready. case_match; [|world].
  destruct (ask hakoniwa_asset_is_simulation_mode s) as [a s1] eqn:E1. apply ask_step in E1; [|apply Hw]. case_match; [done|].
  destruct (ask hakoniwa_asset_is_pdu_created s1) as [b s2] eqn:E2. apply ask_step in E2; [|apply Hw]. case_match; [world|].
  destruct (ask (hakoniwa_asset_is_pdu_sync_mode _) s2) as [d s3] eqn:E3. apply ask_step in E3; [|apply Hw].
  case_match; (eapply later_trans; [exact E1|]; eapply later_trans; [exact E2|]; eapply later_trans; [exact E3|]).
  - split; [done|cbn; apply Hw].
  - split; [done|cbn; lia].
Qed.

(** An event changes the limit, and turns back the time, only with a reset. *)
Lemma event_later s s' : handle_event reset s = Ok (EventDone false s') → later s s'.
Proof.
  unfold handle_event. destruct (ask _ s) as [e s1] eqn:E.
  assert (e ≠ HAKO_EVENT_RESET → later s s1) as H1.
  { unfold ask in E. destruct (hakoniwa_asset_get_event (name_of s) (hs_w s)) as [e' w] eqn:Eg. injection E as <- <-. intros He.
    pose proof (wl_event now Hw (name_of s) (hs_w s)) as Hl. rewrite Eg in Hl. split; [done|by apply Hl]. }
  destruct (e =? HAKO_EVENT_START) eqn:Es.
  { destruct (ask hakoniwa_asset_is_pdu_created s1) as [b s2] eqn:E2. apply ask_step in E2; [|apply Hw].
    destruct (ask hakoniwa_asset_get_worldtime s2) as [t s3] eqn:E3. apply ask_step in E3; [|apply Hw]. intros [= <-].
    eapply later_trans; [apply H1; unfold HAKO_EVENT_START, HAKO_EVENT_RESET in *; lia|]. eapply later_trans; [exact E2|]. eapply later_trans; [exact E3|].
    split; [done|cbn]. etrans; [apply (wl_pdu_done now Hw)|apply (wl_start_ok now Hw)]. }
  destruct (e =? HAKO_EVENT_STOP) eqn:Et.
  { intros [= <-]. eapply later_trans; [apply H1; unfold HAKO_EVENT_STOP, HAKO_EVENT_RESET in *; lia|].
    split; [done|cbn; apply Hw]. }
  destruct (e =? HAKO_EVENT_RESET) eqn:Er.
  { destruct (if reset_callback _ then _ else _) as [[r m]|]; [|done]. cbn [mbind outcome_bind]. by case_match. }
  case_match; [done|]. intros [= <-]. apply H1. lia.
Qed.

(** Only a reset changes the emulator. *)
Lemma finalize_emulator s : hs_m (athrill_hakoniwa_finalize s) = hs_m s.
Proof. unfold athrill_hakoniwa_finalize. by repeat case_match. Qed.
Lemma ask_emulator {A} (f : W → A * W) s : hs_m (ask f s).2 = hs_m s.
Proof. unfold ask. by destruct (f (hs_w s)). Qed.
Lemma terminate_emulator s : hs_m (handle_terminate_request s).2 = hs_m s.
Proof.
  unfold handle_terminate_request. pose proof (ask_emulator terminate_requested s) as Hm.
  destruct (ask terminate_requested s) as [t s1]. destruct t; [|done]. cbn [snd] in *. by rewrite finalize_emulator.
Qed.
Lemma report_emulator clock s : hs_m (report_time clock cpu_mhz s) = hs_m s.
Proof. unfold report_time. by case_match. Qed.
Lemma check_ready_emulator s : hs_m (check_ready cpu_mhz s) = hs_m s.
Proof.
  unfold check_ready, ask. case_match; [|done]. destruct (hakoniwa_asset_is_simulation_mode _) as [a w1]. case_match; [done|].
  cbn [hs_w]. destruct (hakoniwa_asset_is_pdu_created _) as [b w2]. case_match; [done|].
  cbn [hs_w]. destruct (hakoniwa_asset_is_pdu_sync_mode _ _) as [d w3]. by case_match.
Qed.
Lemma event_emulator s was s' : handle_event reset s = Ok (EventDone was s') →
  if was then reset (hs_m s) = Ok (0, hs_m s') else hs_m s' = hs_m s.
Proof.
  unfold handle_event. pose proof (ask_emulator (hakoniwa_asset_get_event (name_of s)) s) as He.
  destruct (ask _ s) as [e s1] in He |- *. cbn [snd] in He. destruct (e =? HAKO_EVENT_START).
  { pose proof (ask_emulator hakoniwa_asset_is_pdu_created s1) as H2. destruct (ask _ s1) as [b s2]. cbn [snd] in H2.
    pose proof (ask_emulator hakoniwa_asset_get_worldtime s2) as H3. destruct (ask _ s2) as [t s3]. cbn [snd] in H3.
    intros [= <- <-]. cbn. congruence. }
  destruct (e =? HAKO_EVENT_STOP); [by intros [= <- <-]|]. destruct (e =? HAKO_EVENT_RESET).
  { cbn [hs_h on_h with_ready with_running reset_callback]. destruct (reset_callback (hs_h s1)); [|by intros [=]].
    cbn [hs_m on_h]. rewrite He. destruct (reset (hs_m s)) as [[r m]|]; [|done]. cbn [mbind outcome_bind].
    destruct (Z.eqb_spec r 0) as [->|]; [|done]. cbn [negb]. by intros [= <- <-]. }
  destruct (e =? HAKO_EVENT_ERROR); [done|]. by intros [= <- <-].
Qed.

(** The CPU may run at [c]: below the world time, and so does what it skips or batches. *)
Definition may_run (c : Z) (bounded : Prop) s : Prop :=
  running (hs_h s) = true ∧ c < world_limit_clock (hs_h s) ∧ limit_ok s ∧ clk (hs_m s) = c ∧
  (bounded → c + interval (hs_m s) ≤ world_limit_clock (hs_h s)).
Definition stage_ok (clock : Z) (bounded : Prop) (r : stage_result (W := W) (M := M)) : Prop :=
  match r with
  | Proceed c s => (c = clock ∨ c = 0) ∧ may_run c bounded s
  | Wait c s => (c = clock ∨ c = 0) ∧ limit_ok s ∧ clk (hs_m s) = c ∧ (bounded → known (hs_m s))
  | StageExit _ _ => True
  end.
Lemma stage_ok_weaken clock (P Q : Prop) r : (Q → P) → stage_ok clock P r → stage_ok clock Q r.
Proof. destruct r; unfold stage_ok, may_run; naive_solver. Qed.

(** What capping does. *)
Lemma cap_may_run c (bounded : Prop) s : running (hs_h s) = true → c < world_limit_clock (hs_h s) → limit_ok s → clk (hs_m s) = c →
  (bounded → known (hs_m s)) → may_run c bounded (cap_skip_interval (world_limit_clock (hs_h s) - c) s).
Proof.
  intros Hrun Hlt Hlim Hc Hk. unfold Hakoniwa.cap_skip_interval, known, DEVICE_CLOCK_MAX_INTERVAL in *.
  destruct (_ && _) eqn:E; unfold may_run; cbn.
  - rewrite (ce_clock _ Hcell), (ce_get _ Hcell). split_and!; [done..|]. intros _. lia.
  - split_and!; [done..|]. intros Hb%Hk. lia.
Qed.

Lemma read_world_ok clock (bounded : Prop) s : limit_ok s → clk (hs_m s) = clock → (bounded → known (hs_m s)) →
  stage_ok clock bounded (read_world clock cpu_mhz s).
Proof.
  intros Hs Hc Hk. unfold Hakoniwa.read_world. case_match eqn:Hrun; [|by split; [left|]].
  destruct (ask hakoniwa_asset_get_worldtime s) as [t s1] eqn:E. pose proof E as Ht. pose proof (ask_emulator hakoniwa_asset_get_worldtime s) as Hm.
  rewrite E in Hm. cbn [snd] in Hm. apply ask_step in E; [|apply Hw].
  assert (t = now (hs_w s)) as ->.
  { unfold ask in Ht. pose proof (wl_read now Hw (hs_w s)) as Hr. destruct (hakoniwa_asset_get_worldtime (hs_w s)). cbn in Hr. by simplify_eq. }
  assert (running (hs_h s1) = true) as Hr1.
  { unfold ask in Ht. destruct (hakoniwa_asset_get_worldtime (hs_w s)). simplify_eq. cbn. by destruct (running (hs_h s)). }
  cbv zeta. case_match; cbn [stage_ok].
  - split; [by left|].
    apply (cap_may_run clock bounded (on_h (with_limit (u64 (now (hs_w s) * cpu_mhz))) (on_h (with_world (now (hs_w s))) s1)));
      [done|cbn; lia| |cbn; by rewrite Hm|cbn; by rewrite Hm].
    destruct E as [_ E]. unfold limit_ok, HakoniwaFacts.limit_ok. cbn.
    pose proof (wl_range now Hw (hs_w s)). unfold u64, wrap. etrans; [apply Z.mod_le; [nia|done]|]. nia.
  - split; [by left|]. split; [|cbn; by rewrite Hm]. eapply later_ok; [done| |exact Hs]. eapply later_trans; [exact E|split; [done|cbn; lia]].
Qed.

Lemma pass_ok clock s r : limit_ok s → clk (hs_m s) = clock → stage_pass clock cpu_mhz s = Ok r →
  stage_ok clock (known (hs_m s) ∧ reset_knows) r.
Proof.
  intros Hs Hc. unfold Hakoniwa.stage_pass. set (s0 := report_time clock cpu_mhz s). set (s1 := if owns_conductor (hs_h s0) then _ else _).
  assert (later s s1) as H1.
  { eapply later_trans; [apply (report_later clock)|]. unfold s1. fold s0. case_match; [|apply later_refl]. split; [done|cbn; apply Hw]. }
  assert (hs_m s1 = hs_m s) as M1 by (unfold s1, s0; case_match; cbn; apply report_emulator).
  pose proof (terminate_later s1) as H2. pose proof (terminate_emulator s1) as M2. destruct (handle_terminate_request s1) as [t s2]. cbn [snd] in H2, M2.
  destruct t; [by intros [= <-]|]. destruct (handle_event reset s2) as [[was s3|s3]|] eqn:E; cbn [mbind outcome_bind]; [|by intros [= <-]|done].
  pose proof (event_emulator _ _ _ E) as M3. rewrite M2, M1 in M3. intros [= <-]. destruct was.
  - set (s4 := on_h _ s3). assert (hs_m s4 = hs_m s3) as M4 by done. pose proof (check_ready_emulator s4) as M5.
    assert (stage_ok 0 (known (hs_m s) ∧ reset_knows) (read_world 0 cpu_mhz (check_ready cpu_mhz s4))) as Hr.
    { apply read_world_ok; rewrite ?M5, ?M4; [|by eapply (ce_reset _ Hcell)|by intros [_ Hk]; eapply Hk].
      eapply later_ok; [done|apply check_ready_later|]. unfold limit_ok, HakoniwaFacts.limit_ok. cbn.
      pose proof (wl_range now Hw (hs_w s3)). nia. }
    destruct (read_world _ _ _); cbn [stage_ok] in *; [destruct Hr as [? Hr]..|done|destruct Hr as [? Hr]]; (split; [tauto|done]).
  - pose proof (check_ready_emulator s3) as M5. apply read_world_ok; rewrite ?M5, ?M3; [|done|tauto].
    eapply later_ok; [done| |exact Hs]. apply event_later in E.
    eapply later_trans; [exact H1|]. eapply later_trans; [exact H2|]. eapply later_trans; [exact E|apply check_ready_later].
Qed.
Lemma wait_ok fuel clock s r : limit_ok s → clk (hs_m s) = clock → stage_wait fuel clock cpu_mhz s = Ok r →
  stage_ok clock (known (hs_m s) ∧ reset_knows) r.
Proof.
  induction fuel as [|fuel IH] in clock, s |- *; intros Hs Hc.
  { intros [= <-]. by split; [left|split; [|split; [|by intros []]]]. }
  cbn [Hakoniwa.stage_wait]. destruct (stage_pass _ _ _) as [r0|] eqn:E; [|done]. cbn [mbind outcome_bind].
  apply pass_ok in E; [|done..]. destruct r0 as [c s0|n s0|c s0]; [by intros [= <-]..|]. destruct E as (Ho & Hs0 & Hc0 & Hk).
  intros Hr. apply IH in Hr; [|done..].
  assert (stage_ok c (known (hs_m s) ∧ reset_knows) r) as Hr' by (eapply stage_ok_weaken; [|exact Hr]; intros [? ?]; split; [by apply Hk|done]).
  destruct r; cbn [stage_ok] in *; [|done|]; destruct Hr' as [? ?]; (split; [|done]); destruct Ho as [->| ->]; tauto.
Qed.

(** The CPU never runs ahead of the world time: whenever the stage lets it run, the
    simulation is running, the clock (0 after a reset) lies below the limit, the limit is no
    later than the world time of that moment in clocks, and so is the clock after the interval
    that is left for a skip or a batch, if a device has a next event, also after a reset. *)
Lemma stage_within_world_time fuel clock s c s' :
  limit_ok s → clk (hs_m s) = clock → asset_name (hs_h s) ≠ None → finalized (hs_h s) = false →
  athrill_hakoniwa_stage interval set_interval reset fuel clock cpu_mhz s = Ok (Proceed c s') →
  (c = clock ∨ c = 0) ∧ clk (hs_m s') = c ∧ running (hs_h s') = true ∧
  c < world_limit_clock (hs_h s') ≤ now (hs_w s') * cpu_mhz ∧
  (known (hs_m s) → reset_knows → c + interval (hs_m s') ≤ world_limit_clock (hs_h s')).
Proof.
  intros Hs Hc Hname Hfin. unfold athrill_hakoniwa_stage. rewrite Hfin, orb_false_r, bool_decide_eq_false_2 by done.
  pose proof (terminate_later s) as H1. pose proof (terminate_emulator s) as M1. destruct (handle_terminate_request s) as [t s1].
  destruct t; [done|]. cbn [snd] in H1, M1. set (s2 := if running (hs_h s1) then _ else s1).
  assert (later s s2) as H2.
  { eapply later_trans; [exact H1|]. unfold s2. case_match; [|apply later_refl]. split; [|cbn; lia]. cbn. unfold pace_real_time. by repeat case_match. }
  assert (hs_m s2 = hs_m s) as M2 by (unfold s2; by case_match).
  intros Hr. assert (stage_ok clock (known (hs_m s) ∧ reset_knows) (Proceed c s')) as [Ho (Hrun & Hlt & Hlim & Hk & Hb)].
  2: { unfold limit_ok, HakoniwaFacts.limit_ok in Hlim. split_and!; [done..|]. intros ? ?. by apply Hb. }
  destruct (running (hs_h s2) && _) eqn:Hfast.
  - injection Hr as <- <-. apply andb_true_iff in Hfast as [Hrun Hlt]. split; [by left|].
    apply cap_may_run; rewrite ?M2; [done|lia|by eapply later_ok|done|tauto].
  - rewrite <- M2. apply (wait_ok fuel clock s2 (Proceed c s')); [by eapply later_ok|by rewrite M2|done].
Qed.

(** ** The wait ends *)

(** What a pass that only waits does to the world, and the time it reads. *)
Definition before_read (name : list Z) (owns : bool) w : W :=
  snd (hakoniwa_asset_get_event name (snd (terminate_requested (if owns then hakoniwa_master_execute w else w)))).
Definition waited (name : list Z) (owns : bool) w : W := snd (hakoniwa_asset_get_worldtime (before_read name owns w)).
(** Neither SIGTERM nor an event comes in the pass. *)
Definition quiet (name : list Z) (owns : bool) w : Prop :=
  let w := if owns then hakoniwa_master_execute w else w in
  fst (terminate_requested w) = false ∧ fst (hakoniwa_asset_get_event name (snd (terminate_requested w))) = HAKO_EVENT_NONE.

Definition in_simulation s : Prop :=
  asset_name (hs_h s) ≠ None ∧ finalized (hs_h s) = false ∧ running (hs_h s) = true ∧ ready (hs_h s) = true.

Lemma report_idem clock s : report_time clock cpu_mhz (report_time clock cpu_mhz s) = report_time clock cpu_mhz s.
Proof.
  unfold report_time. destruct (running (hs_h s) && negb (cpu_mhz =? 0) && negb (clock / cpu_mhz =? last_notified_usec (hs_h s))) eqn:E; [|by rewrite E].
  cbn. by rewrite Z.eqb_refl, andb_false_r.
Qed.
Lemma report_in_simulation clock s : in_simulation s → in_simulation (report_time clock cpu_mhz s).
Proof. unfold report_time. by destruct (running (hs_h s) && _ && _). Qed.

Lemma conductor_step s : (if owns_conductor (hs_h s) then on_w hakoniwa_master_execute s else s) =
  mkHState (hs_h s) (if owns_conductor (hs_h s) then hakoniwa_master_execute (hs_w s) else hs_w s) (hs_m s).
Proof. destruct s as [h w m]. cbn. destruct (owns_conductor h); reflexivity. Qed.

(** A pass that waits, once the time is reported. *)
Lemma quiet_pass clock s : cpu_mhz ≠ 0 → in_simulation s → report_time clock cpu_mhz s = s →
  quiet (name_of s) (owns_conductor (hs_h s)) (hs_w s) →
  let t := now (before_read (name_of s) (owns_conductor (hs_h s)) (hs_w s)) in
  let s' := mkHState (with_world t (hs_h s)) (waited (name_of s) (owns_conductor (hs_h s)) (hs_w s)) (hs_m s) in
  stage_pass clock cpu_mhz s =
    Ok (if clock <? u64 (t * cpu_mhz) then Proceed clock (cap_skip_interval (u64 (t * cpu_mhz) - clock) (on_h (with_limit (u64 (t * cpu_mhz))) s'))
        else Wait clock s').
Proof.
  intros Hz (Hname & Hfin & Hrun & Hready) Hrep [Hterm Hev]. cbn zeta. unfold Hakoniwa.stage_pass. rewrite Hrep.
  unfold waited, before_read, name_of in *.
  rewrite conductor_step.
  set (w1 := if owns_conductor (hs_h s) then _ else _) in *. unfold handle_terminate_request, ask. cbn [hs_w hs_h hs_m].
  destruct (terminate_requested w1) as [t w2]. cbn [fst snd] in *. subst t. unfold handle_event, ask, name_of. cbn [hs_w hs_h hs_m].
  destruct (hakoniwa_asset_get_event _ w2) as [e w3]. cbn [fst snd] in *. subst e.
  change (HAKO_EVENT_NONE =? _) with false. cbn [mbind outcome_bind]. f_equal.
  unfold check_ready, Hakoniwa.read_world. cbn [hs_h hs_w hs_m]. rewrite Hrun, Hready, andb_false_r. cbn [hs_h hs_w hs_m]. rewrite Hrun, Hready. replace (cpu_mhz =? 0) with false by lia.
  unfold ask. cbn [negb andb hs_w hs_h hs_m]. pose proof (wl_read now Hw w3) as Ht. destruct (hakoniwa_asset_get_worldtime w3) as [t w4]. cbn in Ht. subst t.
  by case_match.
Qed.

Lemma wait_ends n clock s : cpu_mhz ≠ 0 → in_simulation s → report_time clock cpu_mhz s = s →
  let name := name_of s in let owns := owns_conductor (hs_h s) in
  (∀ k, (k ≤ n)%nat → quiet name owns (Nat.iter k (waited name owns) (hs_w s))) →
  clock < u64 (now (before_read name owns (Nat.iter n (waited name owns) (hs_w s))) * cpu_mhz) →
  ∃ s', stage_wait (S n) clock cpu_mhz s = Ok (Proceed clock s').
Proof.
  intros Hz. cbn zeta. induction n as [|n IH] in s |- *; intros Hs Hrep Hq Ht.
  - cbn [Hakoniwa.stage_wait]. rewrite quiet_pass by (done || by apply (Hq 0%nat)). cbn [Nat.iter nat_rect] in Ht.
    replace (clock <? _) with true by lia. by eexists.
  - remember (S n) as m. cbn [Hakoniwa.stage_wait]. rewrite quiet_pass by (done || apply (Hq 0%nat); lia). subst m.
    destruct (clock <? _); [by eexists|]. cbn [mbind outcome_bind]. apply IH.
    + done.
    + unfold report_time, name_of in *. cbn. destruct (running _ && _ && _) eqn:E; [|done]. exfalso. apply (f_equal hs_h) in Hrep. cbn in Hrep.
      destruct Hs as (_ & _ & Hrun & _). rewrite Hrun in *. cbn in *. rewrite <- Hrep in E. cbn in E. rewrite Z.eqb_refl, andb_false_r in E. done.
    + intros k Hk. specialize (Hq (S k) ltac:(lia)). by rewrite Nat.iter_succ_r in Hq.
    + by rewrite Nat.iter_succ_r in Ht.
Qed.

(** The wait at the world time ends: for a running simulation, if after some number of
    passes without events the world time has advanced past the clock, the stage lets the CPU
    run, at its clock, within that many passes. *)
Theorem stage_ends_when_world_advances n clock s : cpu_mhz ≠ 0 → in_simulation s → fst (terminate_requested (hs_w s)) = false →
  let s1 := snd (handle_terminate_request s) in let w := hs_w (report_time clock cpu_mhz s1) in
  let name := name_of s in let owns := owns_conductor (hs_h s) in
  (∀ k, (k ≤ n)%nat → quiet name owns (Nat.iter k (waited name owns) w)) →
  clock < u64 (now (before_read name owns (Nat.iter n (waited name owns) w)) * cpu_mhz) →
  ∃ s', athrill_hakoniwa_stage interval set_interval reset (S n) clock cpu_mhz s = Ok (Proceed clock s').
Proof.
  intros Hz Hs Hterm. cbn zeta. unfold athrill_hakoniwa_stage, handle_terminate_request, ask. pose proof Hs as (Hname & Hfin & Hrun & Hready).
  rewrite Hfin, orb_false_r, bool_decide_eq_false_2 by done. destruct (terminate_requested (hs_w s)) as [t w1]. cbn in Hterm. subst t. cbn iota. cbn [snd hs_h]. rewrite Hrun.
  set (s1 := mkHState (hs_h s) w1 (hs_m s)). set (s2 := on_h (pace_real_time clock cpu_mhz) s1).
  assert (in_simulation s2 ∧ name_of s2 = name_of s ∧ owns_conductor (hs_h s2) = owns_conductor (hs_h s) ∧ hs_w s2 = hs_w s1 ∧
    last_notified_usec (hs_h s2) = last_notified_usec (hs_h s1)) as (Hs2 & Hn2 & Ho2 & Hw2 & Hl2).
  { unfold in_simulation, s2, s1, name_of, on_h, pace_real_time. cbn. by repeat case_match. }
  assert (hs_w (report_time clock cpu_mhz s2) = hs_w (report_time clock cpu_mhz s1)) as Hr2.
  { unfold report_time. rewrite Hl2, Hn2. destruct Hs2 as (_ & _ & -> & _). cbn [hs_h s1]. rewrite Hrun. case_match; reflexivity. }
  intros Hq Ht. destruct (running (hs_h s2) && _); [by eexists|].
  assert (stage_wait (S n) clock cpu_mhz s2 = stage_wait (S n) clock cpu_mhz (report_time clock cpu_mhz s2)) as ->.
  { cbn [Hakoniwa.stage_wait]. unfold Hakoniwa.stage_pass. by rewrite report_idem. }
  assert (name_of (report_time clock cpu_mhz s2) = name_of s ∧ owns_conductor (hs_h (report_time clock cpu_mhz s2)) = owns_conductor (hs_h s)) as [Hn3 Ho3].
  { unfold report_time. case_match; [|done]. cbn. by rewrite <- Hn2, <- Ho2. }
  apply wait_ends; [done|by apply report_in_simulation|apply report_idem|rewrite Hn3, Ho3, Hr2..]; done.
Qed.
End stage.

(** ** The execution loop as an asset *)

Section emulator.
Context {D T W : Type} `{MpuConfig D} `{TargetMachine D T} `{HakoniwaCore W}.
#[local] Abbreviation machine := (machine D T).
#[local] Abbreviation emu := (emu (D := D) (T := T)).
(** The emulator that the stage works on: the clock of the devices, whose interval the main
    loop passes a pointer to, and the machine. *)
#[local] Abbreviation M := (DeviceClockType * machine)%type.
Definition dev_interval (m : M) : Z := min_intr_interval m.1.
Definition set_dev_interval (i : Z) (m : M) : M := (set_interval i m.1, m.2).
Definition dev_time (m : M) : Z := clock m.1.
Context (reset : M → outcome (Z * M)) (now : W → Z) (Hw : world_laws now) (cpu_mhz : Z) (Hmhz : 0 ≤ cpu_mhz).
(** Where the machine holds the asset's variables and the simulation. *)
Context (asset : machine → hakoniwa) (world : machine → W).
Definition view (c : DeviceClockType) (m : machine) : hstate (W := W) (M := M) := mkHState (asset m) (world m) (c, m).
Definition same_asset (m m' : machine) : Prop := asset m' = asset m ∧ world m' = world m.

(** The stage of the machine is the modelled one, and nothing else touches the asset; a reset
    sets the clock to 0; a batch runs at most the clocks it is given. *)
Record stage_link : Prop := {
  sl_stage : ∀ c m c' m', Emulator.athrill_hakoniwa_stage cpu_mhz c m = (StageTrue, c', m') →
    ∃ fuel k s', Hakoniwa.athrill_hakoniwa_stage dev_interval set_dev_interval reset fuel (clock c) cpu_mhz (view c m) =
      Ok (Proceed k s') ∧ c' = (hs_m s').1 ∧ asset m' = hs_h s' ∧ world m' = hs_w s';
  sl_reset : ∀ m m', reset m = Ok (0, m') → dev_time m' = 0;
  sl_true : ∀ c m, fst (fst (Emulator.athrill_hakoniwa_stage cpu_mhz c m)) ≠ StageFalse;
  sl_athrill : athrill_device_enabled = true → ∀ a m a' m', device_supply_clock_athrill_device a m = Ok (a', m') → same_asset m m';
  sl_devices : ∀ c m, same_asset m (snd (device_supply_clock c m));
  sl_current : ∀ i m, same_asset m (with_current i m);
  sl_cpu : ∀ i c m, same_asset m (snd (cpu_supply_clock i c m));
  sl_trap : ∀ i m, same_asset m (snd (cpu_illegal_access i m));
  sl_clocks : ∀ n clk m, 0 ≤ n → let '(_, clk', m') := cpu_supply_clocks 0 n clk m in clk ≤ clk' ≤ clk + n ∧ same_asset m m';
}.
Context (Hl : stage_link).

Lemma same_refl m : same_asset m m.
Proof. done. Qed.
Lemma same_trans m1 m2 m3 : same_asset m1 m2 → same_asset m2 m3 → same_asset m1 m3.
Proof. intros [? ?] [? ?]. split; congruence. Qed.
Lemma cells : cell_laws dev_interval set_dev_interval reset dev_time.
Proof. split; [done|done|apply (sl_reset Hl)]. Qed.

Lemma failed_view i e m : same_asset m (snd (failed i e m)).
Proof. unfold failed. destruct (std_ok e); [done|]. pose proof (sl_trap Hl i m). by destruct (cpu_illegal_access i m). Qed.
Lemma supply_view cores b (s : emu) h s' : supply_cores cores b s = Ran h s' → e_clk s' = e_clk s ∧ same_asset (e_machine s) (e_machine s').
Proof.
  induction cores as [|i cores IH] in b, s |- *; [by intros [= _ <-]|]. cbn [supply_cores].
  pose proof (sl_current Hl i (e_machine s)) as A0.
  pose proof (sl_cpu Hl i (clock (e_clk s)) (with_current i (e_machine s))) as A1.
  destruct (cpu_supply_clock _ _ _) as [e m1]. pose proof (failed_view i e m1) as A2. destruct (failed i e m1) as [[] m2]; [done|].
  intros Hs. apply IH in Hs as [Hc Hv]. cbn [snd with_machine e_clk e_machine] in *. split; [done|].
  eapply same_trans; [exact A0|]. eapply same_trans; [exact A1|]. by eapply same_trans.
Qed.
Lemma run_batch_view B end_clock (s : emu) h s' : cpuemu_run_batch B end_clock s = Ran h s' → same_asset (e_machine s) (e_machine s') ∧
  clock (e_clk s') < clock (e_clk s) + Z.max 1 (min_intr_interval (e_clk s)).
Proof.
  unfold cpuemu_run_batch. destruct (_ <=? 1); [intros [= _ <-]; split; [done|lia]|].
  set (b1 := if min_intr_interval (e_clk s) <? B then _ else _). set (b2 := if _ <? b1 then _ else _).
  assert (b2 ≤ min_intr_interval (e_clk s)) by (unfold b2, b1; repeat case_match; lia). clearbody b2.
  destruct (1 <? b2) eqn:E; [|intros [= _ <-]; split; [done|lia]].
  pose proof (sl_clocks Hl (b2 - 1) (clock (e_clk s)) (e_machine s) ltac:(lia)) as Hn.
  destruct (cpu_supply_clocks _ _ _ _) as [[e clk] m1]. destruct Hn as [Hn Hv].
  pose proof (failed_view 0 e m1) as A2. destruct (failed 0 e m1) as [[] m2]; [done|]. intros [= _ <-]. cbn in *.
  split; [by eapply same_trans|lia].
Qed.

(** C18: As an asset, the emulator never executes an instruction at or after the world time: when
    a step of the background mode has run, its last clock is below the limit and so below the
    world time, whatever the stage had to wait for, a reset included, provided that batches
    are off, or that the device interval is never at its maximum: neither after the devices
    have run nor after a reset, from which the stage goes on with the interval the reset left. *)
Theorem background_step_within_world_time B end_clock cores (s : emu) h s' :
  (B ≤ 1 ∨ (∀ c m, min_intr_interval (fst (device_supply_clock c m)) ≠ DEVICE_CLOCK_MAX_INTERVAL) ∧ reset_knows dev_interval reset) →
  limit_ok now cpu_mhz (view (e_clk s) (e_machine s)) →
  asset_name (asset (e_machine s)) ≠ None → finalized (asset (e_machine s)) = false →
  cpuemu_thread_run_nodbg cpu_mhz B end_clock cores s = Ok (Ran h s') →
  running (asset (e_machine s')) = true ∧
  clock (e_clk s') < world_limit_clock (asset (e_machine s')) ≤ now (world (e_machine s')) * cpu_mhz.
Proof.
  intros HB Hlim Hname Hfin. unfold cpuemu_thread_run_nodbg, device_tick.
  destruct (if athrill_device_enabled then _ else _) as [[a m1]|] eqn:Ha; [|done]. cbn [mbind outcome_bind].
  assert (same_asset (e_machine s) m1) as A1 by (destruct athrill_device_enabled eqn:En; [by eapply (sl_athrill Hl En)|by simplify_eq]).
  pose proof (sl_devices Hl (e_clk s) m1) as A2. destruct (same_trans _ _ _ A1 A2) as [Hva Hvw]. clear A1 A2.
  assert (B ≤ 1 ∨ min_intr_interval (fst (device_supply_clock (e_clk s) m1)) ≠ DEVICE_CLOCK_MAX_INTERVAL ∧ reset_knows dev_interval reset) as HB'
    by (destruct HB as [?|[HB ?]]; [by left|right; split; [apply HB|done]]).
  destruct (device_supply_clock (e_clk s) m1) as [c m2]. cbn [fst snd] in *.
  pose proof (sl_true Hl c m2) as A3. destruct (Emulator.athrill_hakoniwa_stage cpu_mhz c m2) as [[go c'] m3] eqn:Hgo. cbn [fst mbind outcome_bind] in *.
  destruct go; [|done|done]. destruct (sl_stage Hl _ _ _ _ Hgo) as (fuel & k & s3 & Hstage & -> & Ha3 & Hw3). clear Hgo A3.
  destruct (stage_within_world_time dev_interval set_dev_interval reset now Hw cpu_mhz Hmhz dev_time cells fuel (clock c) (view c m2) k s3)
    as (_ & Hk & Hrun & Hlt & Hbound); [|done|by cbn; rewrite Hva..|done|].
  { unfold limit_ok in *. cbn. by rewrite Hva, Hvw. }
  unfold dev_time, dev_interval in *.
  destruct (supply_cores _ _ _) as [b s1|] eqn:Hs; [|done]. apply supply_view in Hs as [Hc1 [Hv1 Hv1']]. cbn [e_clk e_machine] in *.
  destruct (negb b && (cores =? 1) && (1 <? B)) eqn:Hb.
  - destruct (cpuemu_run_batch B end_clock s1) as [b2 s2|] eqn:Hr; [|done]. intros [= _ <-]. apply run_batch_view in Hr as [[Hv2 Hv2'] Hc2].
    cbn [halted with_clk e_machine e_clk set_halt clock]. rewrite Hv2, Hv1, Hv2', Hv1', Ha3, Hw3. rewrite Hc1 in Hc2. split; [done|].
    destruct HB' as [?|[Hne Hreset]]; [lia|]. specialize (Hbound Hne Hreset). lia.
  - intros [= _ <-]. cbn [halted with_clk e_machine e_clk set_halt clock]. rewrite Hv1, Hv1', Hc1, Ha3, Hw3, Hk. done.
Qed.
End emulator.

(** ** A target in lockstep *)

Module LockstepDemo.
#[local] Existing Instance MpuDemo.config.

(** The world: its time, which an execution of the conductor advances by 10, and the events
    to come. *)
#[local] Abbreviation sim := (Z * list Z)%type.
#[local] Instance core : HakoniwaCore sim := {|
  hakoniwa_master_init := λ w, (0, w); hakoniwa_master_set_config_simtime := λ _ _ w, w; hakoniwa_master_execute := λ w, (w.1 + 10, w.2);
  hakoniwa_asset_init := λ w, (0, w); hakoniwa_asset_register_polling := λ _ w, (0, w); hakoniwa_asset_unregister := λ _ w, w;
  hakoniwa_asset_create_pdu_lchannel := λ _ _ _ w, (0, w);
  hakoniwa_asset_get_event := λ _ w, (default HAKO_EVENT_NONE (head w.2), (w.1, tail w.2));
  hakoniwa_asset_get_worldtime := λ w, (Z.max 0 w.1, w); hakoniwa_asset_notify_simtime := λ _ _ w, w;
  hakoniwa_asset_notify_write_pdu_done := λ _ w, w; hakoniwa_asset_start_feedback_ok := λ _ w, w;
  hakoniwa_asset_stop_feedback_ok := λ _ w, w; hakoniwa_asset_reset_feedback := λ _ _ w, w; hakoniwa_asset_reset_feedback_ok := λ _ w, w;
  hakoniwa_asset_is_simulation_mode := λ w, (1, w); hakoniwa_asset_is_pdu_created := λ w, (1, w);
  hakoniwa_asset_is_pdu_sync_mode := λ _ w, (0, w); terminate_requested := λ w, (false, w);
|}.
Definition now (w : sim) : Z := Z.max 0 w.1.
Lemma core_laws : world_laws now.
Proof. split; unfold now; intros; cbn; lia. Qed.

(** A target whose only device reports the interval [after] to its next event, and, once it is
    reset, the interval [reset_to]. *)
#[local] Abbreviation target := (hakoniwa * sim)%type.
Definition asset (m : machine () target) : hakoniwa := (m_tgt m).1.
Definition world (m : machine () target) : sim := (m_tgt m).2.
Definition with_asset (s : target) (m : machine () target) : machine () target := mkMachine s (m_mpu m) (m_log m) (m_current m).
Definition reset (reset_to : Z) (m : DeviceClockType * machine () target) : outcome (Z * (DeviceClockType * machine () target)) :=
  Ok (0, (set_clock 0 (set_interval reset_to m.1), m.2)).
Definition stage (reset_to mhz : Z) (k : DeviceClockType) (m : machine () target) :=
  Hakoniwa.athrill_hakoniwa_stage dev_interval set_dev_interval (reset reset_to) 5 (clock k) mhz (view asset world k m).
Definition lockstep_target (after reset_to : Z) : TargetMachine () target := {|
  ATHRILL_TARGET_BATCH_CLOCKS := 1024; DEFAULT_CPU_FREQ := 100; athrill_device_enabled := false; os_linux := true;
  cpu_supply_clock := λ _ _ m, (STD_E_OK, m);
  cpu_supply_clocks := λ _ n clk m, (STD_E_OK, clk + n, m);
  cpu_illegal_access := λ _ m, (false, m); core_is_halt := λ _ _, false; cpu_get_pc := λ _ _, 0; cpu_get_sp := λ _ _, 0;
  core_elaps := λ _ _, 0; cpu_set_core_pc := λ _ _ m, m; cpu_init := λ m, m;
  device_reset := λ k m, (set_clock 0 (set_interval reset_to k), m);
  device_supply_clock := λ k m, (set_interval after k, m);
  intc_raise_intr := λ _ m, m; athrill_syscall_device := λ _ m, m; flock := λ _ _ m, (true, m);
  Emulator.athrill_hakoniwa_stage := λ mhz k m,
    match stage reset_to mhz k m with
    | Ok (Proceed _ s) => (StageTrue, (hs_m s).1, with_asset (hs_h s, hs_w s) (hs_m s).2)
    | _ => (StageExits 1, k, m)
    end;
|}.

Lemma link after reset_to mhz : stage_link (H0 := lockstep_target after reset_to) (reset reset_to) mhz asset world.
Proof.
  split; try done.
  - intros c m c' m'. cbn. destruct (stage reset_to mhz c m) as [[k s|n s|k s]|] eqn:E; try done. intros [= <- <-].
    exists 5%nat, k, s. split; [exact E|done].
  - by intros [c m] m' [= <-].
  - intros c m. cbn. by destruct (stage reset_to mhz c m) as [[]|].
  - intros n clk m Hn. cbn. split; [lia|done].
Qed.

(** The simulation runs since time 10; the CPU has 1 MHz, so that a clock is a microsecond. *)
Definition running_asset : hakoniwa := mkHako (Some [97]) 10 10 0 true true true true false 0 0 true.
Definition start (events : list Z) : emu (D := ()) (T := target) :=
  mkEmu (mkDevClock 0 0 0 false 0 false) (mkMachine (running_asset, (10, events)) MpuDemo.mpu bus_log_init 0) (mkAthrill 0 0 None []).
(** At clock 10 the stage has caught up with the world, and waits. *)
Definition caught_up (events : list Z) : emu (D := ()) (T := target) := with_clk (mkDevClock 10 0 0 false 0 false) (start events).
Definition run (after reset_to : Z) (s : emu) : outcome (run_result (D := ()) (T := target)) :=
  cpuemu_thread_run_nodbg (H0 := lockstep_target after reset_to) 1 64 1000 1 s.
Definition end_of (r : outcome (run_result (D := ()) (T := target))) : emu :=
  match r with Ok (Ran _ s) | Ok (ExitProcess _ s) => s | Fault _ => start [] end.

(** A step in which the stage handles a reset and the start after it. *)
Definition restarted : emu := end_of (run 100 100 (caught_up [HAKO_EVENT_RESET; HAKO_EVENT_START])).
Lemma within_witness : run 100 100 (caught_up [HAKO_EVENT_RESET; HAKO_EVENT_START]) = Ok (Ran false restarted) ∧
  running (asset (e_machine restarted)) = true ∧
  clock (e_clk restarted) < world_limit_clock (asset (e_machine restarted)) ≤ now (world (e_machine restarted)) * 1.
Proof.
  split; [vm_compute; reflexivity|].
  apply (background_step_within_world_time (H0 := lockstep_target 100 100) (reset 100) now core_laws 1 ltac:(done) asset world (link 100 100 1) 64 1000 1
    (caught_up [HAKO_EVENT_RESET; HAKO_EVENT_START]) false);
    [right; split; [by intros|by intros m m' [= <-]]|vm_compute; congruence|done|done|vm_compute; reflexivity].
Defined.
(** The clock after it: 29 of 30 microseconds. *)
Example restarted_clock : clock (e_clk restarted) = 29 ∧ now (world (e_machine restarted)) = 30.
Proof. vm_compute. done. Qed.

(** Without a next event the interval is not capped: the batch runs to clock 63 although the
    world time is 20. *)
Lemma batch_ahead_of_world_time :
  let s := end_of (run DEVICE_CLOCK_MAX_INTERVAL 100 (start [])) in
  run DEVICE_CLOCK_MAX_INTERVAL 100 (start []) = Ok (Ran false s) ∧ clock (e_clk s) = 63 ∧ now (world (e_machine s)) = 10.
Proof. vm_compute. done. Qed.
(** The same after a reset that forgets the next event, although the device has one: the stage
    caps the interval that the reset left. *)
Lemma batch_ahead_after_reset :
  let s := end_of (run 100 DEVICE_CLOCK_MAX_INTERVAL (caught_up [HAKO_EVENT_RESET; HAKO_EVENT_START])) in
  run 100 DEVICE_CLOCK_MAX_INTERVAL (caught_up [HAKO_EVENT_RESET; HAKO_EVENT_START]) = Ok (Ran false s) ∧
  clock (e_clk s) = 63 ∧ now (world (e_machine s)) = 30.
Proof. vm_compute. done. Qed.

(** At clock 35 the stage waits for three executions of the conductor. *)
Definition waiting : hstate (W := sim) (M := Z) := mkHState running_asset (10, []) 100.
Lemma ends_witness : ∃ s', Hakoniwa.athrill_hakoniwa_stage id (λ i _, i) (λ m, Ok (0, m)) 3 35 1 waiting = Ok (Proceed 35 s').
Proof.
  apply (stage_ends_when_world_advances id (λ i _, i) (λ m, Ok (0, m)) now core_laws 1 ltac:(done) 2 35 waiting).
  - done.
  - done.
  - done.
  - intros [|[|[|k]]] Hk; [by vm_compute..|lia].
  - vm_compute. done.
Defined.
End LockstepDemo.
