(* ===== verification/IdleSpinHalt.v ===== *)
(** * Halting idle and spinning cores ([src/src/main/athrill_idle_spin_halt.c])

    A core at the configured idle function, or one that has just branched to its own
    instruction, is halted as if it waited for an interrupt, so that the clocks up to the next
    one can be skipped.  Whether that is safe is for the target to say: it registers the
    functions [halt_ready] and [is_branch_to_self], either of which may be missing. *)

From Stdlib Require Import String Ascii.
From S2P Require Import Prelude Mpu MpuFacts Loader SymbolOps CpuControl Bus CpuCallback Token DeviceConfig Emulator.
Open Scope Z_scope.

Section idle.
Context {D T : Type} `{MpuConfig D} `{TargetMachine D T} `{HostFiles}.
#[local] Abbreviation machine := (machine D T).
(** [virtual_cpu.cores[core_id].core.is_halt = TRUE]. *)
Context (set_core_halt : Z → machine → machine).

Record AthrillIdleSpinHaltTargetOps := mkIdleOps {
  default_idle_function : option (list Z);
  is_branch_to_self : option (Z → Z → machine → bool);
  halt_ready : option (Z → machine → bool);
}.
(** The static variables. *)
Record idle_state := mkIdle { target_ops : option AthrillIdleSpinHaltTargetOps; idle_pc : Z; spin_halt : bool }.
Implicit Types (s : idle_state) (m : machine) (cfg : CpuEmuDevCfgType).

Definition athrill_idle_spin_halt_register_target (ops : option AthrillIdleSpinHaltTargetOps) s : idle_state :=
  mkIdle ops (idle_pc s) (spin_halt s).
Definition target_has_idle_halt s : bool :=
  match target_ops s with Some ops => bool_decide (is_Some (halt_ready ops)) | None => false end.
Definition target_has_spin_halt s : bool :=
  target_has_idle_halt s && match target_ops s with Some ops => bool_decide (is_Some (is_branch_to_self ops)) | None => false end.

(** The configured name, or the target's default when there is none. *)
Definition idle_name (configured : Std_ReturnType * option (list Z)) s : option (list Z) :=
  if negb (std_ok (fst configured)) then ops ← target_ops s; default_idle_function ops else snd configured.
Definition read_idle_function (ss : symbol_state) cfg s : outcome (CpuEmuDevCfgType * idle_state) :=
  '(err, name, cfg) ← cpuemu_get_devcfg_string (str_of "DEVICE_CONFIG_IDLE_FUNCTION") cfg;
  match idle_name (err, name) s with
  | None => Ok (cfg, s)
  | Some name =>
      if bool_decide (name = str_of "none") then Ok (cfg, s)
      else
        let skip := default 0 (snd (cpuemu_get_devcfg_value (str_of "DEBUG_FUNC_ENABLE_SKIP_CLOCK") cfg)) in
        if negb (skip =? 1) then Ok (cfg, s)
        else if negb (target_has_idle_halt s) then Ok (cfg, s)
        else match symbol_get_func name (zlen name) ss with
             | (_, Some (address, _)) => Ok (cfg, mkIdle (target_ops s) (Z.ldiff address 1) (spin_halt s))
             | (_, None) => Ok (cfg, s)
             end
  end.
Definition read_spin_halt cfg s : idle_state :=
  let enabled :=
    match cpuemu_get_devcfg_value (str_of "DEVICE_CONFIG_SPIN_HALT") cfg with
    | (STD_E_OK, v) => default 0 v
    | _ => default 0 (snd (cpuemu_get_devcfg_value (str_of "DEVICE_CONFIG_ARM_SPIN_HALT") cfg))
    end in
  mkIdle (target_ops s) (idle_pc s) (negb (enabled =? 0) && target_has_spin_halt s).
Definition athrill_idle_spin_halt_init (ss : symbol_state) cfg s : outcome (CpuEmuDevCfgType * idle_state) :=
  '(cfg, s) ← read_idle_function ss cfg (mkIdle (target_ops s) 0 false);
  Ok (cfg, read_spin_halt cfg s).

(** Calls through the table of the target. *)
Definition call_halt_ready s (core_id : Z) m : outcome bool :=
  match target_ops s ≫= halt_ready with Some f => Ok (f core_id m) | None => Fault NullDeref end.
Definition call_is_branch_to_self s (core_id pc : Z) m : outcome bool :=
  match target_ops s ≫= is_branch_to_self with Some f => Ok (f core_id pc m) | None => Fault NullDeref end.

Definition athrill_idle_spin_halt_idle_ready (core_id : Z) s m : outcome bool :=
  if (idle_pc s =? 0) || negb (target_has_idle_halt s) then Ok false
  else if cpu_get_pc core_id m =? idle_pc s then call_halt_ready s core_id m else Ok false.
Definition athrill_idle_spin_halt_before_execute (core_id : Z) s m : outcome (bool * machine) :=
  r ← athrill_idle_spin_halt_idle_ready core_id s m;
  Ok (if (r : bool) then (true, set_core_halt core_id m) else (false, m)).
Definition athrill_idle_spin_halt_after_execute (core_id pc : Z) s m : outcome machine :=
  if negb (spin_halt s) then Ok m
  else if negb (cpu_get_pc core_id m =? pc) then Ok m
  else
    r ← call_halt_ready s core_id m;
    if negb r then Ok m
    else b ← call_is_branch_to_self s core_id pc m; Ok (if (b : bool) then set_core_halt core_id m else m).

(** ** What the checks are for *)

Lemma has_idle_halt s : target_has_idle_halt s = true → ∃ f, target_ops s ≫= halt_ready = Some f.
Proof. unfold target_has_idle_halt. destruct (target_ops s) as [ops|]; [|done]. cbn. by case_bool_decide. Qed.
Lemma has_spin_halt s : target_has_spin_halt s = true →
  ∃ f g, target_ops s ≫= halt_ready = Some f ∧ target_ops s ≫= is_branch_to_self = Some g.
Proof.
  unfold target_has_spin_halt. intros [(f & Hf)%has_idle_halt Hs]%andb_true_iff. destruct (target_ops s) as [ops|]; [|done]. cbn in *.
  case_bool_decide as Hg; [|done]. destruct Hg as [g Hg]. by exists f, g.
Qed.

(** What [init] establishes: a target that is asked to halt can be asked. *)
Record idle_ok (cfg : CpuEmuDevCfgType) (s : idle_state) : Prop := {
  io_spin : spin_halt s = true → target_has_spin_halt s = true;
  io_idle : idle_pc s ≠ 0 → target_has_idle_halt s = true ∧ Z.even (idle_pc s) = true ∧
    cpuemu_get_devcfg_value (str_of "DEBUG_FUNC_ENABLE_SKIP_CLOCK") cfg = (STD_E_OK, Some 1);
}.
Lemma devcfg_value_ok key cfg v : snd (cpuemu_get_devcfg_value key cfg) = Some v → cpuemu_get_devcfg_value key cfg = (STD_E_OK, Some v).
Proof. unfold cpuemu_get_devcfg_value. by destruct (first_param _ _) as [[]|]; [intros [= ->]|]. Qed.
Lemma init_ok ss cfg s cfg' s' : athrill_idle_spin_halt_init ss cfg s = Ok (cfg', s') → idle_ok cfg' s' ∧ target_ops s' = target_ops s.
Proof.
  unfold athrill_idle_spin_halt_init. set (s0 := mkIdle (target_ops s) 0 false).
  destruct (read_idle_function ss cfg s0) as [[cfg1 s1]|] eqn:E; [|done]. cbn [mbind outcome_bind]. intros [= <- <-].
  assert (target_ops s1 = target_ops s ∧ (idle_pc s1 ≠ 0 → target_has_idle_halt s1 = true ∧ Z.even (idle_pc s1) = true ∧
    cpuemu_get_devcfg_value (str_of "DEBUG_FUNC_ENABLE_SKIP_CLOCK") cfg1 = (STD_E_OK, Some 1))) as [Ho Hi].
  { revert E. unfold read_idle_function. destruct (cpuemu_get_devcfg_string _ cfg) as [[[err name] cfg2]|]; [|done]. cbn [mbind outcome_bind].
    destruct (idle_name _ _) as [nm|]; [|by intros [= <- <-]]. case_bool_decide; [by intros [= <- <-]|].
    destruct (negb (_ =? 1)) eqn:Hskip; [by intros [= <- <-]|]. destruct (negb (target_has_idle_halt s0)) eqn:Hhas; [by intros [= <- <-]|].
    destruct (symbol_get_func _ _ _) as [? [[address ?]|]]; [|by intros [= <- <-]]. intros [= <- <-]. split; [done|]. intros _. split_and!.
    - by apply negb_false_iff in Hhas.
    - cbn [idle_pc]. rewrite <- Z.negb_odd, <- Z.bit0_odd, Z.ldiff_spec. cbn. by rewrite andb_false_r.
    - destruct (snd (cpuemu_get_devcfg_value _ cfg2)) as [v|] eqn:Hv; cbn in Hskip; [|done]. apply devcfg_value_ok in Hv. rewrite Hv. do 2 f_equal. lia. }
  split; [|done]. split; cbn [read_spin_halt spin_halt idle_pc].
  - intros [_ Hs]%andb_true_iff. exact Hs.
  - exact Hi.
Qed.

(** Around every instruction the policy does what its comments say and never calls a function
    the target did not provide: after [init], before an instruction a core is halted exactly
    when it is at the idle function and the target says it is safe; after one, exactly when
    spin halting is on, the core is at the same instruction and the target says that it is
    safe and that the instruction branches to itself; otherwise the machine is unchanged. *)
Theorem idle_spin_halt_safe ss cfg s cfg' s' core_id pc m : athrill_idle_spin_halt_init ss cfg s = Ok (cfg', s') →
  let ready := match target_ops s ≫= halt_ready with Some f => f core_id m | None => false end in
  let self := match target_ops s ≫= is_branch_to_self with Some f => f core_id pc m | None => false end in
  let idle := negb (idle_pc s' =? 0) && (cpu_get_pc core_id m =? idle_pc s') && ready in
  let spin := spin_halt s' && (cpu_get_pc core_id m =? pc) && ready && self in
  athrill_idle_spin_halt_before_execute core_id s' m = Ok (idle, if idle then set_core_halt core_id m else m) ∧
  athrill_idle_spin_halt_after_execute core_id pc s' m = Ok (if spin then set_core_halt core_id m else m).
Proof.
  intros [[Hspin Hidle] Hops]%init_ok. cbn zeta. rewrite <- Hops. split.
  - unfold athrill_idle_spin_halt_before_execute, athrill_idle_spin_halt_idle_ready, call_halt_ready.
    destruct (Z.eqb_spec (idle_pc s') 0) as [|Hpc]; [done|]. cbn [orb negb andb]. destruct (Hidle Hpc) as (Hh & _). rewrite Hh. cbn [negb].
    destruct (has_idle_halt _ Hh) as (f & ->). destruct (_ =? _); [|done]. cbn. by destruct (f core_id m).
  - unfold athrill_idle_spin_halt_after_execute, call_halt_ready, call_is_branch_to_self.
    destruct (spin_halt s'); [|done]. cbn [negb andb]. destruct (_ =? _); [|done]. cbn [negb andb].
    destruct (has_spin_halt _ (Hspin eq_refl)) as (f & g & -> & ->). cbn [mbind outcome_bind]. by destruct (f core_id m).
Qed.
End idle.

(** ** A target with an idle function *)

Module IdleDemo.
#[local] Existing Instance MpuDemo.config.
#[local] Instance files : HostFiles := {|
  file_contents := λ _, None; file_exist := λ _, false; getenv := λ _, None; osdep_supports_mapped_memory := true;
  osdep_open_mapped_file := λ _, None; osdep_map_open_file := λ _ _, None; shared_library := λ _, None;
|}.
(** The configuration, as [cpuemu_load_devcfg] stores it. *)
Definition token (t : string) : TokenValueType := mkTok TOKEN_TYPE_STRING (mkStr (zlen (str_of t)) (str_of t ++ [NUL])).
Definition number (n : Z) : TokenValueType := mkTok TOKEN_TYPE_VALUE_DEC (mkStr n []).
Definition cfg : CpuEmuDevCfgType := mkDevCfg 3
  [mkParam (token "DEVICE_CONFIG_IDLE_FUNCTION") (token "idle") (token "") 1;
   mkParam (token "DEBUG_FUNC_ENABLE_SKIP_CLOCK") (number 1) (token "") 1;
   mkParam (token "DEVICE_CONFIG_SPIN_HALT") (number 1) (token "") 1].
Definition symbols : symbol_state := symbol_func_add (mkSymbol (str_of "idle") 0x401 8 []) symbol_init.

(** The machine: the program counter and whether the core is halted. *)
#[local] Abbreviation target := (Z * bool)%type.
#[local] Instance idle_target : TargetMachine () target := {|
  ATHRILL_TARGET_BATCH_CLOCKS := 1; DEFAULT_CPU_FREQ := 100; athrill_device_enabled := false; os_linux := true;
  cpu_supply_clock := λ _ _ m, (STD_E_OK, m); cpu_supply_clocks := λ _ _ clk m, (STD_E_OK, clk, m);
  cpu_illegal_access := λ _ m, (false, m); core_is_halt := λ _ m, snd (m_tgt m); cpu_get_pc := λ _ m, fst (m_tgt m); cpu_get_sp := λ _ _, 0;
  core_elaps := λ _ _, 0; cpu_set_core_pc := λ _ _ m, m; cpu_init := λ m, m; device_reset := λ k m, (k, m);
  device_supply_clock := λ k m, (k, m); intc_raise_intr := λ _ m, m; athrill_syscall_device := λ _ m, m; flock := λ _ _ m, (true, m);
  athrill_hakoniwa_stage := hakoniwa_disabled;
|}.
Definition set_halt (_ : Z) (m : machine () target) : machine () target := mkMachine (fst (m_tgt m), true) (m_mpu m) (m_log m) (m_current m).
Definition at_pc (pc : Z) : machine () target := mkMachine (pc, false) MpuDemo.mpu bus_log_init 0.
Definition ops : AthrillIdleSpinHaltTargetOps (D := ()) (T := target) := mkIdleOps None (Some (λ _ pc _, pc =? 0x500)) (Some (λ _ _, true)).
Definition ready : CpuEmuDevCfgType * idle_state (D := ()) (T := target) :=
  match athrill_idle_spin_halt_init symbols cfg (mkIdle (Some ops) 0 false) with Ok r => r | Fault _ => (cfg, mkIdle None 0 false) end.

Lemma idle_witness : athrill_idle_spin_halt_before_execute set_halt 0 (snd ready) (at_pc 0x400) = Ok (true, set_halt 0 (at_pc 0x400)) ∧
  athrill_idle_spin_halt_after_execute set_halt 0 0x500 (snd ready) (at_pc 0x400) = Ok (at_pc 0x400).
Proof.
  assert (athrill_idle_spin_halt_init symbols cfg (mkIdle (Some ops) 0 false) = Ok ready ∧ idle_pc (snd ready) = 0x400 ∧ spin_halt (snd ready) = true)
    as (Hinit & Hpc & Hspin) by (vm_compute; done).
  pose proof (idle_spin_halt_safe set_halt symbols cfg (mkIdle (Some ops) 0 false) (fst ready) (snd ready) 0 0x500 (at_pc 0x400) Hinit) as Hr.
  cbn zeta in Hr. rewrite Hpc, Hspin in Hr. exact Hr.
Defined.
Example spin_halts : athrill_idle_spin_halt_after_execute set_halt 0 0x500 (snd ready) (at_pc 0x500) = Ok (set_halt 0 (at_pc 0x500)).
Proof. vm_compute. reflexivity. Qed.
End IdleDemo.
