(* ===== verification/HostFunction.v ===== *)
(** * Host functions ([src/src/main/athrill_host_function.c])

    A call of a configured guest function is served by a function of a host library, which
    reads arguments and guest memory, writes guest memory and sets the result through a table
    of calls, and may refuse the call, which the CPU then executes as usual.

    A host function is the tree of the calls it makes, each node continued by what the call
    returns ([host_prog]); it is interpreted over the machine.  The target's functions are a
    table with entries that may be missing. *)

From Stdlib Require Import String Ascii.
From S2P Require Import Prelude Mpu MpuFacts Loader SymbolOps CpuControl CpuControlFacts Bus CpuCallback Token DeviceConfig Emulator.
Open Scope Z_scope.

Definition HOST_FUNCTION_MAX : Z := 64.

(** The body of a host function.  A buffer is its bytes; [HReadNull], [HWriteNull]: the
    buffer is a null pointer. *)
Inductive host_prog :=
  | HArg (index : Z) (k : Z → host_prog)
  | HSetResult (value : Z) (k : host_prog)
  | HRead (address size : Z) (k : Std_ReturnType * list Z → host_prog)
  | HReadNull (address size : Z) (k : Std_ReturnType → host_prog)
  | HWrite (address : Z) (buffer : list Z) (k : Std_ReturnType → host_prog)
  | HWriteNull (address size : Z) (k : Std_ReturnType → host_prog)
  | HDone (handled : bool).

Section host.
Context {D T : Type} `{MpuConfig D} `{TargetMachine D T} `{HostFiles}.
#[local] Abbreviation machine := (machine D T).
(** The functions of host libraries. *)
Context {F : Type}.

Record AthrillHostFunctionTargetOps := mkHostOps {
  op_arg : option (Z → Z → machine → Std_ReturnType * Z);
  op_set_result : option (Z → Z → machine → machine);
  op_return_from_call : option (Z → machine → machine);
  op_canonical_address : option (Z → Z);
  op_invalidate_code : option (Z → Z → machine → machine);
}.
Record HostFunctionEntry := mkHostEntry {
  guest_name : list Z; host_name : list Z; address : Z; function : option F; handled : Z; refused : Z }.
Record host_state := mkHost {
  target_ops : option AthrillHostFunctionTargetOps;
  host_library : option (list Z → option F);
  host_functions : list HostFunctionEntry;
  host_function_count : Z;
}.
Record HostCallContext := mkContext { core_id : Z; call_failed : bool; result_set : bool; result : Z }.
Implicit Types (s : host_state) (m : machine) (c : HostCallContext) (cfg : CpuEmuDevCfgType).

Definition host_init : host_state := mkHost None None (replicate 64 (mkHostEntry [] [] 0 None 0 0)) 0.
Definition athrill_host_function_register_target (ops : option AthrillHostFunctionTargetOps) s : host_state :=
  mkHost ops (host_library s) (host_functions s) (host_function_count s).

(** A call through the table of the target. *)
Definition target_op {A} (op : AthrillHostFunctionTargetOps → option A) s : outcome A :=
  match target_ops s ≫= op with Some f => Ok f | None => Fault NullDeref end.

(** ** The calls of a host function *)

Definition fail_call c : HostCallContext := mkContext (core_id c) true (result_set c) (result c).
Definition host_call_arg (index : Z) s c m : outcome (Z * HostCallContext) :=
  if call_failed c then Ok (0, fail_call c)
  else
    f ← target_op op_arg s;
    let '(err, value) := f (core_id c) index m in
    Ok (if std_ok err then (value, c) else (0, fail_call c)).
Definition host_call_set_result (value : Z) c : HostCallContext := mkContext (core_id c) (call_failed c) true value.
Definition checked_address (address size : Z) : option Z :=
  if (ATHRILL_ADDR_MAX <? address) || (negb (size =? 0) && (ATHRILL_ADDR_MAX - (size - 1) <? address)) then None
  else Some (uaddr address).

(** [buffer]: whether it is not null.  On success the bytes read. *)
Definition athrill_host_function_memory_read (core_id address : Z) (buffer : bool) (size : Z) m
    : outcome (Std_ReturnType * list Z * machine) :=
  if negb buffer && negb (size =? 0) then Ok (STD_E_INVALID, [], m)
  else
    '(err, source, mpu) ← mpu_get_host_memory core_id address size false (m_mpu m);
    let m := with_mpu mpu m in
    if std_ok err && negb (size =? 0) then
      p ← deref_ptr (default None source);
      blk ← oob (host mpu !! p.1); bs ← oob (bytes_at blk p.2 size); Ok (err, bs, m)
    else Ok (err, [], m).
Definition host_call_read (address : Z) (buffer : bool) (size : Z) c m
    : outcome (Std_ReturnType * list Z * HostCallContext * machine) :=
  '(err, bs, m) ← match checked_address address size with
    | None => Ok (STD_E_SEGV, [], m)
    | Some a => athrill_host_function_memory_read (core_id c) a buffer size m
    end;
  Ok (err, bs, if std_ok err then c else fail_call c, m).
Definition host_call_write (address : Z) (buffer : option (list Z)) (size : Z) s c m
    : outcome (Std_ReturnType * HostCallContext * machine) :=
  if bool_decide (buffer = None) && negb (size =? 0) then Ok (STD_E_INVALID, fail_call c, m)
  else
    match checked_address address size with
    | None => Ok (STD_E_SEGV, fail_call c, m)
    | Some a =>
        '(err, destination, mpu) ← mpu_get_host_memory (core_id c) a size true (m_mpu m);
        let m := with_mpu mpu m in
        if negb (std_ok err) then Ok (err, fail_call c, m)
        else if size =? 0 then Ok (STD_E_OK, c, m)
        else
          p ← deref_ptr (default None destination);
          mpu ← host_write mpu p (default [] buffer);
          f ← target_op op_invalidate_code s;
          Ok (STD_E_OK, c, f a size (with_mpu mpu m))
    end.

Fixpoint run_host (p : host_prog) s c m : outcome (bool * HostCallContext * machine) :=
  match p with
  | HArg index k => '(v, c) ← host_call_arg index s c m; run_host (k v) s c m
  | HSetResult v k => run_host k s (host_call_set_result v c) m
  | HRead a size k => '(err, bs, c, m) ← host_call_read a true size c m; run_host (k (err, bs)) s c m
  | HReadNull a size k => '(err, _, c, m) ← host_call_read a false size c m; run_host (k err) s c m
  | HWrite a bs k => '(err, c, m) ← host_call_write a (Some bs) (zlen bs) s c m; run_host (k err) s c m
  | HWriteNull a size k => '(err, c, m) ← host_call_write a None size s c m; run_host (k err) s c m
  | HDone handled => Ok (handled, c, m)
  end.

(** ** The table *)

Definition validate_target s : bool :=
  match target_ops s with
  | Some ops => bool_decide (is_Some (op_arg ops)) && bool_decide (is_Some (op_set_result ops)) &&
      bool_decide (is_Some (op_return_from_call ops)) && bool_decide (is_Some (op_canonical_address ops)) &&
      bool_decide (is_Some (op_invalidate_code ops))
  | None => false
  end.

Definition add_entry (i : Z) (e : HostFunctionEntry) s : host_state :=
  mkHost (target_ops s) (host_library s) (zput (host_functions s) i e) (host_function_count s + 1).
(** The entry of a mapping, or the error it is refused with. *)
Definition make_entry (ss : symbol_state) (i : Z) (guest host : list Z) s : outcome (Std_ReturnType + HostFunctionEntry) :=
  match symbol_get_func guest (zlen guest) ss with
  | (_, None) => Ok (inl STD_E_NOENT)
  | (_, Some (a, _)) =>
      canonical ← target_op op_canonical_address s;
      let a := canonical a in
      if existsb (λ e, address e =? a) (take (Z.to_nat i) (host_functions s)) then Ok (inl STD_E_INVALID)
      else match host_library s ≫= (λ l, l host) with
           | None => Ok (inl STD_E_NOENT)
           | Some f => Ok (inr (mkHostEntry guest host a (Some f) 0 0))
           end
  end.
(** The mappings from the [i]th on; on success the number of mappings seen. *)
Fixpoint entries_loop (n : nat) (i : Z) (ss : symbol_state) cfg s : outcome (Std_ReturnType * Z * CpuEmuDevCfgType * host_state) :=
  match n with
  | O => Ok (STD_E_OK, i, cfg, s)
  | S n =>
      '(err, names, cfg) ← cpuemu_get_devcfg_string_pair_at (str_of "DEVICE_CONFIG_HOST_FUNCTION") i cfg;
      match names with
      | None => Ok (STD_E_OK, i, cfg, s)
      | Some (guest, host) =>
          r ← make_entry ss i guest host s;
          match r with
          | inl err => Ok (err, i, cfg, s)
          | inr e => entries_loop n (i + 1) ss cfg (add_entry i e s)
          end
      end
  end.
(** [libraries]: what opens as a host library. *)
Definition athrill_host_function_init (libraries : list Z → option (list Z → option F)) (ss : symbol_state) cfg s
    : outcome (Std_ReturnType * CpuEmuDevCfgType * host_state) :=
  '(err, path, cfg) ← cpuemu_get_devcfg_string (str_of "DEVICE_CONFIG_HOST_FUNCTION_LIBRARY") cfg;
  match path with
  | None =>
      '(err, _, cfg) ← cpuemu_get_devcfg_string_pair_at (str_of "DEVICE_CONFIG_HOST_FUNCTION") 0 cfg;
      Ok (if std_ok err then STD_E_INVALID else STD_E_OK, cfg, s)
  | Some path =>
      if negb (validate_target s) then Ok (STD_E_INVALID, cfg, s)
      else match libraries path with
           | None => Ok (STD_E_NOENT, cfg, mkHost (target_ops s) None (host_functions s) (host_function_count s))
           | Some library =>
               '(err, i, cfg, s) ← entries_loop (Z.to_nat HOST_FUNCTION_MAX) 0 ss cfg
                 (mkHost (target_ops s) (Some library) (host_functions s) (host_function_count s));
               if negb (std_ok err) then Ok (err, cfg, s)
               else if host_function_count s =? 0 then Ok (STD_E_INVALID, cfg, s)
               else if i =? HOST_FUNCTION_MAX then
                 '(err, _, cfg) ← cpuemu_get_devcfg_string_pair_at (str_of "DEVICE_CONFIG_HOST_FUNCTION") i cfg;
                 Ok (if std_ok err then STD_E_INVALID else STD_E_OK, cfg, s)
               else Ok (STD_E_OK, cfg, s)
           end
  end.

Definition athrill_host_function_find (a : Z) s : outcome Z :=
  if (host_function_count s =? 0) || bool_decide (target_ops s = None) then Ok (-1)
  else
    canonical ← target_op op_canonical_address s;
    Ok match find_index 0 (take (Z.to_nat (host_function_count s)) (host_functions s)) (λ e, address e =? canonical a) with
       | Some (i, _) => i
       | None => -1
       end.

Definition count_handled (e : HostFunctionEntry) : HostFunctionEntry :=
  mkHostEntry (guest_name e) (host_name e) (address e) (function e) (u64 (handled e + 1)) (refused e).
Definition count_refused (e : HostFunctionEntry) : HostFunctionEntry :=
  mkHostEntry (guest_name e) (host_name e) (address e) (function e) (handled e) (u64 (refused e + 1)).
Definition with_entry (i : Z) (e : HostFunctionEntry) s : host_state :=
  mkHost (target_ops s) (host_library s) (zput (host_functions s) i e) (host_function_count s).

(** [body]: what a function of the library does in this call. *)
Definition athrill_host_function_invoke (body : F → host_prog) (core function_id : Z) s m : outcome (bool * host_state * machine) :=
  if (function_id <? 0) || (host_function_count s <=? function_id) then Ok (false, s, m)
  else
    e ← oob (zget (host_functions s) function_id);
    f ← match function e with Some f => Ok f | None => Fault NullDeref end;
    '(ok, c, m) ← run_host (body f) s (mkContext core false false 0) m;
    if negb ok || call_failed c then Ok (false, with_entry function_id (count_refused e) s, m)
    else
      m ← (if result_set c then set_result ← target_op op_set_result s; Ok (set_result core (result c) m) else Ok m);
      return_from_call ← target_op op_return_from_call s;
      Ok (true, with_entry function_id (count_handled e) s, return_from_call core m).
End host.
