(* ===== verification/HostFunctionFacts.v ===== *)
(** * Host functions are confined, and the table finds them

    Whatever a host function does through the calls it is given, it stays inside the guest's
    plain memory, never writes to ROM, and changes the CPU only when the call is not refused.
    After a successful start-up the table finds every mapped function at its own address. *)

From Stdlib Require Import String Ascii.
From S2P Require Import Prelude Mpu MpuFacts Loader LoaderFacts SymbolOps CpuControl CpuControlFacts Bus CpuCallback Token DeviceConfig Emulator HostFunction.
From stdpp Require Import gmap.
Open Scope Z_scope.

(** Calls with arguments of their C types. *)
Fixpoint host_wf (p : host_prog) : Prop :=
  match p with
  | HArg _ k => ∀ v, in_width 64 v → host_wf (k v)
  | HSetResult _ k => host_wf k
  | HRead a size k => in_width 64 a ∧ in_width 32 size ∧ ∀ err bs, zlen bs ≤ size → host_wf (k (err, bs))
  | HReadNull a size k => in_width 64 a ∧ in_width 32 size ∧ ∀ r, host_wf (k r)
  | HWrite a bs k => in_width 64 a ∧ zlen bs < 2 ^ 32 ∧ ∀ r, host_wf (k r)
  | HWriteNull a size k => in_width 64 a ∧ in_width 32 size ∧ ∀ r, host_wf (k r)
  | HDone _ => True
  end.

Section facts.
Context {D T : Type} `{MpuConfig D} `{TargetMachine D T} `{HostFiles} {F : Type}.
#[local] Abbreviation machine := (machine D T).
#[local] Abbreviation host_state := (host_state (D := D) (T := T) (F := F)).
Implicit Types (s : host_state) (m : machine) (c : HostCallContext).

(** ** Confinement *)

(** What may change in the memory of the guest: neither the regions nor the bytes of ROM. *)
Record confined (u u' : mpu_state D) : Prop := {
  cf_dynamic : dynamic_map u' = dynamic_map u;
  cf_static : static_map u' = static_map u;
  cf_rom : ∀ i rom b, zget (dynamic_map u) i = Some rom → r_type rom = READONLY_MEMORY → r_data rom = Some b →
    Forall (λ r, r_data r ≠ Some b) (static_map u) → host u' !! b = host u !! b;
}.
Lemma confined_refl u : confined u u.
Proof. by split. Qed.
Lemma confined_trans u v w : confined u v → confined v w → confined u w.
Proof.
  intros [Hd Hs Hr] [Hd' Hs' Hr']. split; [congruence..|]. intros i rom b Hi Ht Hb Hst.
  rewrite (Hr' i rom b); [eauto|congruence|done|done|by rewrite Hs].
Qed.
Lemma confined_previous u v : same_but_previous u v → confined u v.
Proof. intros (i & j & ->). by split. Qed.

(** The memory the calls rely on.  The target's functions leave it alone and return
    arguments of their type. *)
Definition memory_ok (u : mpu_state D) : Prop := mpu_wf u ∧ unaliased u.
Lemma memory_ok_confined u v : confined u v → mpu_wf v → memory_ok u → memory_ok v.
Proof. intros [Hd _ _] Hv [_ Hun]. split; [done|]. unfold unaliased in *. by rewrite Hd. Qed.
Record target_ok (s : host_state) : Prop := {
  tg_memory : ∀ f, target_ops s ≫= op_invalidate_code = Some f → ∀ a n m, m_mpu (f a n m) = m_mpu m;
  tg_arg : ∀ f, target_ops s ≫= op_arg = Some f → ∀ core i m, in_width 64 (snd (f core i m));
}.

Lemma checked_ok a size x : in_width 64 a → in_width 32 size → checked_address a size = Some x →
  x = a ∧ is_addr a ∧ is_addr size ∧ a + size ≤ ADDR_SPACE.
Proof.
  intros [Ha _] [Hs Hs']. unfold checked_address. destruct (_ || _) eqn:E; [done|]. intros [= <-].
  apply orb_false_iff in E as [E1 E2]. unfold ATHRILL_ADDR_MAX in *. pose proof addr_space_range.
  assert (is_addr a) by (unfold is_addr; lia). rewrite uaddr_id by done. split_and!; [done..|unfold is_addr; lia|].
  destruct (Z.eqb_spec size 0); cbn in E2; unfold is_addr in *; lia.
Qed.

Lemma read_ok a buffer size c m : memory_ok (m_mpu m) → in_width 64 a → in_width 32 size →
  ∃ err bs m', host_call_read a buffer size c m = Ok (err, bs, if std_ok err then c else fail_call c, m') ∧
    confined (m_mpu m) (m_mpu m') ∧ mpu_wf (m_mpu m') ∧ zlen bs ≤ size.
Proof.
  intros [Hwf Hun] Ha Hs. assert (0 ≤ size) by (by destruct Hs). assert (zlen (@nil Z) ≤ size) by done. unfold host_call_read. destruct (checked_address a size) as [x|] eqn:Hx; cbn [mbind outcome_bind].
  2: { eexists _, _, _. split; [done|]. split_and!; [apply confined_refl|done|done]. }
  destruct (checked_ok a size x Ha Hs Hx) as (-> & Haddr & Hsize & _). unfold athrill_host_function_memory_read.
  destruct (negb buffer && negb (size =? 0)) eqn:Hnull.
  { eexists _, _, _. split; [done|]. split_and!; [apply confined_refl|done|done]. }
  destruct (get_host_memory_ok (core_id c) a size false (m_mpu m) Hwf Haddr Hsize) as (err & p & u & -> & Hsb & Hwf' & Hbad & Hgood).
  cbn [mbind outcome_bind]. pose proof (confined_previous _ _ Hsb) as Hcf. destruct (decide (size = 0)) as [->|Hz].
  { rewrite andb_false_r. eexists _, _, _. split; [done|]. split_and!; [exact Hcf|exact Hwf'|done]. }
  replace (size =? 0) with false by lia. rewrite andb_true_r. destruct (std_ok err) eqn:Herr.
  2: { exists err, [], (with_mpu u m). split; [cbn; by rewrite Herr|]. split_and!; [exact Hcf|exact Hwf'|done]. }
  assert (err = STD_E_OK) as -> by (by destruct err). destruct (Hgood eq_refl Hz) as (r & b & blk & _ & _ & Hb & -> & Hlo & Hhi & _).
  cbn. assert (host u !! b = Some blk) as -> by (destruct Hsb as (? & ? & ->); exact Hb).
  destruct (bytes_at_Some blk (a - r_start r) size) as (bs & Hbs & Hlen); [unfold is_addr in *; lia..|]. cbn [oob mbind outcome_bind]. rewrite Hbs.
  eexists _, _, _. split; [done|]. split_and!; [exact Hcf|exact Hwf'|lia].
Qed.

(** The target's functions are there. *)
Lemma target_op_ok s : validate_target s = true → is_Some (target_ops s ≫= op_arg) ∧ is_Some (target_ops s ≫= op_set_result) ∧
  is_Some (target_ops s ≫= op_return_from_call) ∧ is_Some (target_ops s ≫= op_canonical_address) ∧ is_Some (target_ops s ≫= op_invalidate_code).
Proof.
  unfold validate_target. destruct (target_ops s) as [ops|]; [|done]. cbn. intros Hb. repeat (apply andb_true_iff in Hb as [Hb ?]). repeat match goal with Hd : bool_decide _ = true |- _ => apply bool_decide_eq_true in Hd end. done.
Qed.

Lemma write_ok a buffer size s c m : memory_ok (m_mpu m) → validate_target s = true → target_ok s → in_width 64 a → in_width 32 size →
  match buffer with Some bs => zlen bs = size | None => True end →
  ∃ err m', host_call_write a buffer size s c m = Ok (err, if std_ok err then c else fail_call c, m') ∧
    confined (m_mpu m) (m_mpu m') ∧ mpu_wf (m_mpu m').
Proof.
  intros [Hwf Hun] Hv Hk Ha Hs Hbuf. unfold host_call_write. destruct (bool_decide (buffer = None) && negb (size =? 0)) eqn:Hnull.
  { exists STD_E_INVALID, m. split; [done|]. by split; [apply confined_refl|]. }
  destruct (checked_address a size) as [x|] eqn:Hx.
  2: { exists STD_E_SEGV, m. split; [done|]. by split; [apply confined_refl|]. }
  destruct (checked_ok a size x Ha Hs Hx) as (-> & Haddr & Hsize & _).
  destruct (get_host_memory_ok (core_id c) a size true (m_mpu m) Hwf Haddr Hsize) as (err & p & u & -> & Hsb & Hwf' & Hbad & Hgood).
  cbn [mbind outcome_bind]. pose proof (confined_previous _ _ Hsb) as Hcf.
  destruct (std_ok err) eqn:Herr; cbn [negb].
  2: { exists err, (with_mpu u m). split; [by rewrite Herr|]. split; [exact Hcf|exact Hwf']. }
  assert (err = STD_E_OK) as -> by (by destruct err).
  destruct (Z.eqb_spec size 0) as [|Hz]; [exists STD_E_OK, (with_mpu u m); split; [done|]; split; [exact Hcf|exact Hwf']|].
  destruct (Hgood eq_refl Hz) as (r & b & blk & Hf & Hd & Hb & -> & Hlo & Hhi & Hty). specialize (Hty eq_refl).
  destruct buffer as [bs|]; [|by case_bool_decide]. unfold host_write. cbn.
  assert (host u = host (m_mpu m)) as Hh by (destruct Hsb as (? & ? & ->); done). rewrite Hh, Hb.
  rewrite (proj2 (bytes_set_Some blk (a - r_start r) bs _)) by (split_and!; [lia|lia|done]). cbn [oob mbind outcome_bind].
  unfold target_op. destruct (target_op_ok s Hv) as (_ & _ & _ & _ & [f Hf']). rewrite Hf'. cbn [mbind outcome_bind].
  eexists STD_E_OK, _. split; [done|]. rewrite (tg_memory s Hk f Hf'). cbn [with_mpu m_mpu].
  pose proof (same_shape_put (host (m_mpu m)) b blk (a - r_start r) bs Hb ltac:(lia) ltac:(lia)) as Hsh.
  split.
  - eapply confined_trans; [exact Hcf|]. split; [done..|]. intros i rom b' Hi Hro Hb' Hst. cbn [host with_host]. rewrite Hh.
    apply lookup_insert_ne. intros ->. destruct Hcf as [Hdm Hsm _]. rewrite Hdm in Hi. rewrite Hsm in Hst.
    rewrite <- (search_tables_owner _ _ _ _ _ _ _ Hun Hst Hi Hb' Hd Hf) in Hro. congruence.
  - apply mpu_wf_host; [by rewrite Hh| |done]. intros b' Hb'. apply (same_shape_fresh u); [done|by rewrite Hh|done].
Qed.

(** Any host function: the calls never fault, stay confined, and a failed call is remembered. *)
Lemma run_ok p : host_wf p → ∀ s c m, memory_ok (m_mpu m) → validate_target s = true → target_ok s →
  ∃ ok c' m', run_host p s c m = Ok (ok, c', m') ∧ confined (m_mpu m) (m_mpu m') ∧ mpu_wf (m_mpu m') ∧
    (call_failed c = true → call_failed c' = true).
Proof.
  induction p as [idx k IH|v p IH|a n k IH|a n k IH|a bs k IH|a n k IH|h]; cbn [host_wf run_host]; intros Hp s c m Hm Hv Hk.
  - unfold host_call_arg. destruct (call_failed c) eqn:Hc; cbn [mbind outcome_bind].
    + destruct (IH 0 (Hp 0 ltac:(done)) s (fail_call c) m Hm Hv Hk) as (ok & c' & m' & -> & ? & ? & Hf). eexists _, _, _. split; [done|]. split_and!; [done..|]. intros _. by apply Hf.
    + unfold target_op. destruct (target_op_ok s Hv) as ([f Hfa] & _). rewrite Hfa. cbn [mbind outcome_bind].
      pose proof (tg_arg s Hk f Hfa (core_id c) idx m) as Hv0. destruct (f (core_id c) idx m) as [err v]. cbn [snd] in Hv0. destruct (std_ok err); cbn [mbind outcome_bind].
      * destruct (IH v (Hp v Hv0) s c m Hm Hv Hk) as (ok & c' & m' & -> & ? & ? & _). by eexists _, _, _.
      * destruct (IH 0 (Hp 0 ltac:(done)) s (fail_call c) m Hm Hv Hk) as (ok & c' & m' & -> & ? & ? & _). by eexists _, _, _.
  - destruct (IH Hp s (host_call_set_result v c) m Hm Hv Hk) as (ok & c' & m' & -> & ? & ? & Hf). by eexists _, _, _.
  - destruct Hp as (Ha & Hn & Hp). destruct (read_ok a true n c m Hm Ha Hn) as (err & bs & m1 & -> & Hcf & Hwf & Hbs). cbn [mbind outcome_bind].
    destruct (IH (err, bs) (Hp _ _ Hbs) s (if std_ok err then c else fail_call c) m1 (memory_ok_confined _ _ Hcf Hwf Hm) Hv Hk) as (ok & c' & m' & -> & Hcf' & ? & Hf).
    eexists _, _, _. split; [done|]. split_and!; [by eapply confined_trans|done|]. intros Hc. apply Hf. by destruct (std_ok err).
  - destruct Hp as (Ha & Hn & Hp). destruct (read_ok a false n c m Hm Ha Hn) as (err & bs & m1 & -> & Hcf & Hwf & _). cbn [mbind outcome_bind].
    destruct (IH err (Hp _) s (if std_ok err then c else fail_call c) m1 (memory_ok_confined _ _ Hcf Hwf Hm) Hv Hk) as (ok & c' & m' & -> & Hcf' & ? & Hf).
    eexists _, _, _. split; [done|]. split_and!; [by eapply confined_trans|done|]. intros Hc. apply Hf. by destruct (std_ok err).
  - destruct Hp as (Ha & Hn & Hp). pose proof (zlen_nonneg bs).
    destruct (write_ok a (Some bs) (zlen bs) s c m Hm Hv Hk Ha ltac:(split; lia) eq_refl) as (err & m1 & -> & Hcf & Hwf). cbn [mbind outcome_bind].
    destruct (IH err (Hp _) s (if std_ok err then c else fail_call c) m1 (memory_ok_confined _ _ Hcf Hwf Hm) Hv Hk) as (ok & c' & m' & -> & Hcf' & ? & Hf).
    eexists _, _, _. split; [done|]. split_and!; [by eapply confined_trans|done|]. intros Hc. apply Hf. by destruct (std_ok err).
  - destruct Hp as (Ha & Hn & Hp).
    destruct (write_ok a None n s c m Hm Hv Hk Ha Hn I) as (err & m1 & -> & Hcf & Hwf). cbn [mbind outcome_bind].
    destruct (IH err (Hp _) s (if std_ok err then c else fail_call c) m1 (memory_ok_confined _ _ Hcf Hwf Hm) Hv Hk) as (ok & c' & m' & -> & Hcf' & ? & Hf).
    eexists _, _, _. split; [done|]. split_and!; [by eapply confined_trans|done|]. intros Hc. apply Hf. by destruct (std_ok err).
  - eexists _, _, _. split; [done|]. by split_and!; [apply confined_refl|destruct Hm|].
Qed.

(** ** The table *)

(** The entries in use: each has a function, no two the same address. *)
Definition entry_ok (ss : symbol_state) (library : list Z → option F) (canonical : Z → Z) (e : HostFunctionEntry) : Prop :=
  ∃ n a size f, symbol_get_func (guest_name e) (zlen (guest_name e)) ss = (n, Some (a, size)) ∧ address e = canonical a ∧
    library (host_name e) = Some f ∧ function e = Some f.
Record table_ok (ss : symbol_state) (library : list Z → option F) (canonical : Z → Z) (s : host_state) : Prop := {
  to_ops : validate_target s = true ∧ target_ops s ≫= op_canonical_address = Some canonical ∧ host_library s = Some library;
  to_len : zlen (host_functions s) = HOST_FUNCTION_MAX;
  to_count : 0 ≤ host_function_count s ≤ HOST_FUNCTION_MAX;
  to_entries : ∀ i e, 0 ≤ i < host_function_count s → zget (host_functions s) i = Some e → entry_ok ss library canonical e;
  to_distinct : ∀ i j e e', 0 ≤ i < host_function_count s → 0 ≤ j < host_function_count s →
    zget (host_functions s) i = Some e → zget (host_functions s) j = Some e' → address e = address e' → i = j;
}.

Lemma zget_take_lt {A} (l : list A) n i : 0 ≤ i < n → zget (take (Z.to_nat n) l) i = zget l i.
Proof. intros Hi. rewrite zget_take. by replace (i <? n) with true by lia. Qed.

Lemma make_entry_ok ss i guest host s library canonical r :
  target_ops s ≫= op_canonical_address = Some canonical → host_library s = Some library →
  make_entry ss i guest host s = Ok (inr r) → entry_ok ss library canonical r ∧
  ∀ j e, 0 ≤ j < i → zget (host_functions s) j = Some e → address e ≠ address r.
Proof.
  intros Hc Hl. unfold make_entry, target_op. rewrite Hc, Hl. destruct (symbol_get_func _ _ _) as [n [[a size]|]] eqn:Hs; [|done].
  cbn [mbind outcome_bind option_bind]. destruct (existsb _ _) eqn:Hex; [done|]. destruct (library host) as [f|] eqn:Hf; [|done]. intros [= <-]. split.
  - by exists n, a, size, f.
  - intros j e Hj He Heq. assert (existsb (λ e, address e =? canonical a) (take (Z.to_nat i) (host_functions s)) = true) as Ht; [|congruence].
    apply existsb_exists. exists e. split; [|cbn in Heq; lia]. apply list_elem_of_In. apply zget_elem with j. by rewrite zget_take_lt.
Qed.

Lemma entries_loop_ok ss library canonical n : ∀ i cfg s err k cfg' s', i = host_function_count s → i + Z.of_nat n = HOST_FUNCTION_MAX →
  table_ok ss library canonical s → entries_loop n i ss cfg s = Ok (err, k, cfg', s') → table_ok ss library canonical s'.
Proof.
  induction n as [|n IH]; intros i cfg s err k cfg' s' Hi Hn Ht; cbn [entries_loop]; [by intros [= <- <- <- <-]|].
  destruct (cpuemu_get_devcfg_string_pair_at _ _ _) as [[[e names] cfg1]|]; [|done]. cbn [mbind outcome_bind].
  destruct names as [[guest hostn]|]; [|by intros [= <- <- <- <-]]. destruct (make_entry _ _ _ _ _) as [[err1|r]|] eqn:Hm; [by intros [= <- <- <- <-]| |done].
  cbn [mbind outcome_bind]. destruct Ht as [(Hv & Hc & Hl) Hlen Hcount Hent Hdis].
  destruct (make_entry_ok ss i guest hostn s library canonical r Hc Hl Hm) as [Hr Hnew]. apply IH; [cbn; lia|lia|].
  assert (∀ j e, 0 ≤ j < i + 1 → zget (host_functions (add_entry i r s)) j = Some e → j = i ∧ e = r ∨ j < i ∧ zget (host_functions s) j = Some e) as Hget.
  { intros j e' Hj. cbn. destruct (decide (j = i)) as [->|].
    - rewrite zget_zput_eq by lia. intros [= <-]. by left.
    - rewrite zget_zput_ne by lia. right. split; [lia|done]. }
  split; cbn [add_entry host_function_count target_ops host_library].
  - done.
  - cbn. by rewrite zlen_zput.
  - lia.
  - intros j e' Hj He. destruct (Hget j e') as [[-> ->]|[? ?]]; [lia|done|done|]. apply (Hent j); [lia|done].
  - intros j1 j2 e1 e2 Hj1 Hj2 H1' H2' Heq. destruct (Hget j1 e1) as [[-> ->]|[? ?]], (Hget j2 e2) as [[-> ->]|[? ?]]; try lia; try done.
    + destruct (Hnew j2 e2); [lia|done|congruence].
    + destruct (Hnew j1 e1); [lia|done|congruence].
    + apply (Hdis j1 j2 e1 e2); [lia|lia|done|done|done].
Qed.

(** After a successful start-up of the host functions with a library, every entry of the table
    stands for a mapping whose guest symbol and host function exist, at the canonical address
    of the symbol, and looking an address up finds the one entry at its canonical address, or
    -1 when there is none. *)
Theorem host_function_find_ok libraries ss cfg s cfg' s' a : host_function_count s = 0 → zlen (host_functions s) = HOST_FUNCTION_MAX →
  athrill_host_function_init libraries ss cfg s = Ok (STD_E_OK, cfg', s') → host_library s' ≠ None → host_library s = None →
  ∃ library canonical i, host_library s' = Some library ∧ table_ok ss library canonical s' ∧ 1 ≤ host_function_count s' ∧
    athrill_host_function_find a s' = Ok i ∧
    (i = -1 ∧ (∀ j e, 0 ≤ j < host_function_count s' → zget (host_functions s') j = Some e → address e ≠ canonical a) ∨
     0 ≤ i < host_function_count s' ∧ ∃ e, zget (host_functions s') i = Some e ∧ address e = canonical a ∧
       ∀ j e', 0 ≤ j < host_function_count s' → zget (host_functions s') j = Some e' → address e' = canonical a → j = i).
Proof.
  intros Hcount Hlen Hinit Hlib Hlib0.
  assert (∃ library canonical, host_library s' = Some library ∧ table_ok ss library canonical s' ∧ host_function_count s' ≠ 0) as (library & canonical & Hl & Ht & Hne).
  { revert Hinit. unfold athrill_host_function_init. destruct (cpuemu_get_devcfg_string _ cfg) as [[[err path] cfg1]|]; [|done]. cbn [mbind outcome_bind].
    destruct path as [path|].
    2: { destruct (cpuemu_get_devcfg_string_pair_at _ _ _) as [[[? ?] ?]|]; [|done]. cbn [mbind outcome_bind]. by intros [= _ _ <-]. }
    destruct (validate_target s) eqn:Hv; [|done]. cbn [negb]. destruct (libraries path) as [library|]; [|done].
    destruct (target_op_ok s Hv) as (_ & _ & _ & [canonical Hc] & _).
    destruct (entries_loop _ _ _ _ _) as [[[[err1 k] cfg2] s1]|] eqn:E; [|done]. cbn [mbind outcome_bind].
    assert (table_ok ss library canonical s1) as Ht.
    { eapply (entries_loop_ok ss library canonical (Z.to_nat HOST_FUNCTION_MAX)); [| | |exact E]; [cbn; lia|done|].
      split; cbn [host_function_count host_functions]; [done|done|rewrite Hcount; done|intros; lia|intros; lia]. }
    intros Hinit.
    exists library, canonical. destruct (std_ok err1) eqn:Herr; cbn [negb] in Hinit; [|by injection Hinit as ->]. destruct (Z.eqb_spec (host_function_count s1) 0); [done|].
    assert (s' = s1) as ->. { revert Hinit. destruct (k =? _); [|by intros [= _ <-]]. destruct (cpuemu_get_devcfg_string_pair_at _ _ _) as [[[? ?] ?]|]; [|done]. cbn [mbind outcome_bind]. by intros [= _ _ <-]. }
    pose proof Ht as [(_ & _ & ?) _ _ _ _]. done. }
  exists library, canonical. unfold athrill_host_function_find. pose proof Ht as [(Hv & Hc & _) Hlen' Hcnt Hent Hdis].
  replace (host_function_count s' =? 0) with false by lia. rewrite bool_decide_eq_false_2 by (intros Hn; by rewrite Hn in Hc). unfold target_op. rewrite Hc.
  cbn [orb mbind outcome_bind]. destruct (find_index _ _ _) as [[i e]|] eqn:Hf.
  - exists i. split_and!; [done|done|lia|done|]. right. destruct (find_index_0 _ _ _ _ Hf) as (Hi & He & Ha & _).
    assert (i < host_function_count s') by (unfold zlen in Hi; rewrite length_take in Hi; lia). rewrite zget_take_lt in He by lia.
    split; [lia|]. exists e. split_and!; [done|lia|]. intros j e' Hj He' Ha'. apply (Hdis j i e' e); [lia|lia|done|done|lia].
  - exists (-1). split_and!; [done|done|lia|done|]. left. split; [done|]. intros j e Hj He Ha.
    rewrite <- (zget_take_lt _ (host_function_count s') j) in He by lia. pose proof (find_index_None _ _ _ Hf j e He) as Hn. cbn in Hn. lia.
Qed.

(** ** A call *)

(** C19: A host function is confined: whatever it asks for, a call of an entry with a function ends,
    never faults, leaves the regions and the contents of ROM alone, and counts as handled or as
    refused.  It is handled exactly when the function says so and none of its calls failed;
    only then is its result given to the CPU and the call returned from. *)
Theorem host_function_invoke_confined body core id s m e f : memory_ok (m_mpu m) → validate_target s = true → target_ok s →
  0 ≤ id < host_function_count s → zget (host_functions s) id = Some e → function e = Some f → host_wf (body f) →
  ∃ claimed c m1 m', run_host (body f) s (mkContext core false false 0) m = Ok (claimed, c, m1) ∧
    confined (m_mpu m) (m_mpu m1) ∧ memory_ok (m_mpu m1) ∧
    let ok := claimed && negb (call_failed c) in
    athrill_host_function_invoke body core id s m = Ok (ok, with_entry id (if ok then count_handled e else count_refused e) s, m') ∧
    (ok = false → m' = m1) ∧
    (ok = true → ∃ set ret, target_ops s ≫= op_set_result = Some set ∧ target_ops s ≫= op_return_from_call = Some ret ∧
      m' = ret core (if result_set c then set core (result c) m1 else m1)).
Proof.
  intros Hm Hv Hk Hid He Hf Hp. destruct (run_ok (body f) Hp s (mkContext core false false 0) m Hm Hv Hk) as (ok & c & m1 & Hr & Hcf & Hwf & _).
  unfold athrill_host_function_invoke. replace (id <? 0) with false by lia. replace (_ <=? id) with false by lia. rewrite He.
  cbn [orb oob mbind outcome_bind]. rewrite Hf. cbn [mbind outcome_bind]. rewrite Hr. cbn [mbind outcome_bind].
  destruct (target_op_ok s Hv) as (_ & [set Hset] & [ret Hret] & _).
  assert (memory_ok (m_mpu m1)) as Hm1 by (by eapply memory_ok_confined). destruct (ok && negb (call_failed c)) eqn:Hok.
  - apply andb_true_iff in Hok as [-> Hcfl%negb_true_iff]. rewrite Hcfl. cbn [negb orb]. unfold target_op. rewrite Hset, Hret.
    exists true, c, m1, (ret core (if result_set c then set core (result c) m1 else m1)). split; [done|]. split; [done|]. split; [done|]. cbn zeta. rewrite Hcfl.
    split; [by destruct (result_set c)|]. split; [done|]. intros _. by exists set, ret.
  - assert (negb ok || call_failed c = true) as -> by (by destruct ok, (call_failed c)).
    exists ok, c, m1, m1. rewrite Hok. by split_and!.
Qed.
End facts.

(** ** A host function that copies from ROM to RAM *)

Module HostDemo.
#[local] Existing Instance MpuDemo.config.
#[local] Instance files : HostFiles := {|
  file_contents := λ _, None; file_exist := λ _, false; getenv := λ _, None; osdep_supports_mapped_memory := true;
  osdep_open_mapped_file := λ _, None; osdep_map_open_file := λ _ _, None; shared_library := λ _, None;
|}.
(** The library and two mappings, as [cpuemu_load_devcfg] stores them. *)
Definition token (t : string) : TokenValueType := mkTok TOKEN_TYPE_STRING (mkStr (zlen (str_of t)) (str_of t ++ [NUL])).
Definition cfg : CpuEmuDevCfgType := mkDevCfg 3
  [mkParam (token "DEVICE_CONFIG_HOST_FUNCTION_LIBRARY") (token "libhost.so") (token "") 1;
   mkParam (token "DEVICE_CONFIG_HOST_FUNCTION") (token "memcpy") (token "host_memcpy") 2;
   mkParam (token "DEVICE_CONFIG_HOST_FUNCTION") (token "memset") (token "host_memset") 2].
Definition symbols : symbol_state :=
  symbol_func_add (mkSymbol (str_of "memset") 0x501 8 []) (symbol_func_add (mkSymbol (str_of "memcpy") 0x401 8 []) symbol_init).
(** The library: two functions, by number. *)
Definition library (name : list Z) : option Z :=
  if bool_decide (name = str_of "host_memcpy") then Some 1 else if bool_decide (name = str_of "host_memset") then Some 2 else None.

(** The target: the result register and whether the call has returned. *)
#[local] Abbreviation target := (Z * bool)%type.
#[local] Instance host_target : TargetMachine () target := {|
  ATHRILL_TARGET_BATCH_CLOCKS := 1; DEFAULT_CPU_FREQ := 100; athrill_device_enabled := false; os_linux := true;
  cpu_supply_clock := λ _ _ m, (STD_E_OK, m); cpu_supply_clocks := λ _ _ clk m, (STD_E_OK, clk, m);
  cpu_illegal_access := λ _ m, (false, m); core_is_halt := λ _ _, false; cpu_get_pc := λ _ _, 0; cpu_get_sp := λ _ _, 0;
  core_elaps := λ _ _, 0; cpu_set_core_pc := λ _ _ m, m; cpu_init := λ m, m; device_reset := λ k m, (k, m);
  device_supply_clock := λ k m, (k, m); intc_raise_intr := λ _ m, m; athrill_syscall_device := λ _ m, m; flock := λ _ _ m, (true, m);
  athrill_hakoniwa_stage := hakoniwa_disabled;
|}.
Definition ops : AthrillHostFunctionTargetOps (D := ()) (T := target) :=
  mkHostOps (Some (λ _ i _, (STD_E_OK, if i =? 0 then 0 else 4))) (Some (λ _ v m, mkMachine (v, snd (m_tgt m)) (m_mpu m) (m_log m) (m_current m)))
    (Some (λ _ m, mkMachine (fst (m_tgt m), true) (m_mpu m) (m_log m) (m_current m))) (Some (λ a, Z.ldiff a 1)) (Some (λ _ _ m, m)).
Definition empty : host_state (D := ()) (T := target) (F := Z) := athrill_host_function_register_target (Some ops) host_init.
Definition started : outcome (Std_ReturnType * CpuEmuDevCfgType * host_state (D := ()) (T := target) (F := Z)) :=
  athrill_host_function_init (λ _, Some library) symbols cfg empty.
Definition table : host_state (D := ()) (T := target) (F := Z) := match started with Ok (_, _, s) => s | Fault _ => empty end.
Definition cfg' : CpuEmuDevCfgType := match started with Ok (_, c, _) => c | Fault _ => cfg end.

Lemma started_ok : started = Ok (STD_E_OK, cfg', table) ∧ host_function_count table = 2 ∧ validate_target table = true ∧ host_library table ≠ None.
Proof. vm_compute. done. Qed.

Lemma find_witness : ∃ lib canonical i, host_library table = Some lib ∧ table_ok symbols lib canonical table ∧ 1 ≤ host_function_count table ∧
  athrill_host_function_find 0x500 table = Ok i ∧
  (i = -1 ∧ (∀ j e, 0 ≤ j < host_function_count table → zget (host_functions table) j = Some e → address e ≠ canonical 0x500) ∨
   0 ≤ i < host_function_count table ∧ ∃ e, zget (host_functions table) i = Some e ∧ address e = canonical 0x500 ∧
     ∀ j e', 0 ≤ j < host_function_count table → zget (host_functions table) j = Some e' → address e' = canonical 0x500 → j = i).
Proof.
  destruct started_ok as (Hs & _ & _ & Hl).
  apply (host_function_find_ok (λ _, Some library) symbols cfg empty cfg' table 0x500); [done|done|exact Hs|exact Hl|done].
Defined.

(** [memcpy] copies four bytes, [memset] writes to ROM. *)
Definition body (f : Z) : host_prog :=
  if f =? 1 then HArg 1 (λ from, HRead from 4 (λ r, HWrite 0x100 (snd r) (λ _, HSetResult 7 (HDone true))))
  else HWrite 0 [1; 2; 3; 4] (λ _, HDone true).
Definition machine0 : machine () target := mkMachine (0, false) MpuDemo.mpu bus_log_init 0.
Definition entry (i : Z) : HostFunctionEntry (F := Z) := default (mkHostEntry [] [] 0 None 0 0) (zget (host_functions table) i).

Lemma body_wf : host_wf (body 1).
Proof. cbn. intros v Hv. split; [done|]. split; [done|]. intros err bs Hbs. split_and!; [done|lia|done]. Qed.
Lemma memory : memory_ok (m_mpu machine0).
Proof. split; [apply MpuDemo.wf|apply MpuDemo.no_alias]. Qed.
Lemma table_target : target_ok table.
Proof.
  assert (target_ops table = Some ops) as Ht by (vm_compute; reflexivity).
  split; rewrite Ht; intros f [= <-]; [done|]. clear. intros core i m. cbn [snd]. split; destruct (i =? 0); lia.
Qed.
#[local] Opaque table entry.
(** The copy is handled; the write to ROM fails and the call is refused. *)
Lemma confined_witness : ∃ claimed c m1 m', run_host (body 1) table (mkContext 0 false false 0) machine0 = Ok (claimed, c, m1) ∧
    confined (m_mpu machine0) (m_mpu m1) ∧ memory_ok (m_mpu m1) ∧
    let ok := claimed && negb (call_failed c) in
    athrill_host_function_invoke body 0 0 table machine0 = Ok (ok, with_entry 0 (if ok then count_handled (entry 0) else count_refused (entry 0)) table, m') ∧
    (ok = false → m' = m1) ∧
    (ok = true → ∃ set ret, target_ops table ≫= op_set_result = Some set ∧ target_ops table ≫= op_return_from_call = Some ret ∧
      m' = ret 0 (if result_set c then set 0 (result c) m1 else m1)).
Proof.
  destruct started_ok as (_ & Hcount & Hv & _).
  assert (zget (host_functions table) 0 = Some (entry 0) ∧ function (entry 0) = Some 1) as [He Hf] by (split; vm_compute; reflexivity).
  assert (0 ≤ 0 < host_function_count table) as Hid by (clear -Hcount; lia).
  exact (host_function_invoke_confined body 0 0 table machine0 (entry 0) 1 memory Hv table_target Hid He Hf body_wf).
Defined.
Example copy_handled : match athrill_host_function_invoke body 0 0 table machine0 with
  | Ok (ok, _, m) => ok = true ∧ m_tgt m = (7, true) ∧ take 4 (default [] (host (m_mpu m) !! 1%nat)) = [7; 7; 7; 7]
  | Fault _ => False
  end.
Proof. vm_compute. done. Qed.
Example rom_write_refused : match athrill_host_function_invoke body 0 1 table machine0 with
  | Ok (ok, _, m) => ok = false ∧ m_tgt m = (0, false) ∧ host (m_mpu m) !! 0%nat = Some (replicate 8 7)
  | Fault _ => False
  end.
Proof. vm_compute. done. Qed.
End HostDemo.
