(* ===== verification/Mpthread.v ===== *)
(** * Threads of devices ([src/src/device/peripheral/athrill_mpthread.c], [inc/athrill_mpthread.h])

    A device registers a thread with its operations, starts it and sends it back to waiting.
    The thread runs [mpthread_run]: under its own mutex it looks at its status, and either
    waits on its condition variable or releases the mutex and calls [do_proc].

    All of it but the operations happens under mutexes, so the code between taking a mutex
    and releasing it (or waiting, which releases it) is one atomic step of [mp_step].  A
    signal wakes a waiting thread and is lost otherwise; a thread may also wake without a
    signal, and a timed wait may end. *)

From S2P Require Import Prelude.
Open Scope Z_scope.

Definition MPTHREAD_MAX_NUM : Z := 1024.

Inductive MpthrStatusType := MPTHR_STATUS_INITIALIZING | MPTHR_STATUS_RUNNING | MPTHR_STATUS_WAITING.
#[export] Instance mpthr_status_eq_dec : EqDecision MpthrStatusType.
Proof. solve_decision. Defined.
Definition status_code (st : MpthrStatusType) : Z :=
  match st with MPTHR_STATUS_INITIALIZING => 0 | MPTHR_STATUS_RUNNING => 1 | MPTHR_STATUS_WAITING => 2 end.

(** Where a thread is: not created ([pthread_create] failed, which is not noticed), before
    [do_init], about to take the mutex and look at its status, waiting (in a timed wait or
    not), in [do_proc]. *)
Inductive thread_pos := thr_absent | thr_created | thr_ready | thr_waits (timed : bool) | thr_proc.

Section mpthread.
(** The operations of a thread. *)
Context {O : Type}.

Record MpthrInfoType := mkMpthr {
  timeout : Z; status : MpthrStatusType; op : O; pos : thread_pos }.
(** The part of the table in use: entry [id] is the thread of that identifier. *)
Abbreviation threads := (list MpthrInfoType).
Implicit Types (s : threads) (t : MpthrInfoType) (id : Z).

Definition mpthread_num s : Z := zlen s.
Definition mpthread_init : Std_ReturnType := STD_E_OK.

(** [created]: whether [pthread_create] made a thread. *)
Definition mpthread_register (created : bool) (o : O) s : Std_ReturnType * option Z * threads :=
  if MPTHREAD_MAX_NUM <=? mpthread_num s then (STD_E_LIMIT, None, s)
  else (STD_E_OK, Some (mpthread_num s),
        s ++ [mkMpthr 0 MPTHR_STATUS_INITIALIZING o (if created then thr_created else thr_absent)]).

(** The status, or an error code in its place. *)
Definition mpthread_get_status id s : Z :=
  match zget s id with Some t => status_code (status t) | None => 4 end.

Definition with_pos (p : thread_pos) t : MpthrInfoType := mkMpthr (timeout t) (status t) (op t) p.
(** [pthread_cond_signal]. *)
Definition signal t : MpthrInfoType := match pos t with thr_waits _ => with_pos thr_ready t | _ => t end.

Definition on_thread id (f : MpthrInfoType → MpthrInfoType) s : Std_ReturnType * threads :=
  match zget s id with Some t => (STD_E_OK, zput s id (f t)) | None => (STD_E_INVALID, s) end.
Definition mpthread_start_proc id s : Std_ReturnType * threads :=
  on_thread id (λ t, signal (mkMpthr (timeout t) MPTHR_STATUS_RUNNING (op t) (pos t))) s.
Definition mpthread_wait_proc id s : Std_ReturnType * threads :=
  on_thread id (λ t, mkMpthr 0 MPTHR_STATUS_WAITING (op t) (pos t)) s.
Definition mpthread_timedwait_proc id (timeout : Z) s : Std_ReturnType * threads :=
  on_thread id (λ t, mkMpthr (u32 timeout) MPTHR_STATUS_WAITING (op t) (pos t)) s.

(** The absolute time, in nanoseconds since the epoch, at which a timed wait ends. *)
Definition wait_deadline t : Z := 0 * 1000000000 + u32 (timeout t * 1000).

(** The loop of [mpthread_run] from its condition on. *)
Definition mpthread_run_check t : MpthrInfoType :=
  if bool_decide (status t = MPTHR_STATUS_RUNNING) then with_pos thr_proc t
  else with_pos (thr_waits (negb (timeout t =? 0))) t.

(** ** Executions *)

Inductive mp_event :=
  | mp_register (created : bool) (o : O)
  | mp_start id | mp_wait id | mp_timedwait id (tmo : Z)
  | mp_init_done id | mp_check id | mp_wakes id | mp_proc_done id.

Definition at_pos id (p : thread_pos) s : Prop := pos <$> zget s id = Some p.

Inductive mp_step s : mp_event → threads → Prop :=
  | step_register created o : mp_step s (mp_register created o) (snd (mpthread_register created o s))
  | step_start id : mp_step s (mp_start id) (snd (mpthread_start_proc id s))
  | step_wait id : mp_step s (mp_wait id) (snd (mpthread_wait_proc id s))
  | step_timedwait id tmo : mp_step s (mp_timedwait id tmo) (snd (mpthread_timedwait_proc id tmo s))
  | step_init id : at_pos id thr_created s →
      mp_step s (mp_init_done id) (snd (on_thread id (with_pos thr_ready) s))
  | step_check id : at_pos id thr_ready s →
      mp_step s (mp_check id) (snd (on_thread id mpthread_run_check s))
  | step_wakes id timed : at_pos id (thr_waits timed) s →
      mp_step s (mp_wakes id) (snd (on_thread id (with_pos thr_ready) s))
  | step_proc id : at_pos id thr_proc s →
      mp_step s (mp_proc_done id) (snd (on_thread id (with_pos thr_ready) s)).

Inductive mp_exec : threads → list mp_event → threads → Prop :=
  | mp_nil s : mp_exec s [] s
  | mp_cons s ev s1 evs s2 : mp_step s ev s1 → mp_exec s1 evs s2 → mp_exec s (ev :: evs) s2.

Definition mp_reachable s : Prop := ∃ evs, mp_exec [] evs s.

(** The event is a step of the thread itself, or a call that sends it back to waiting. *)
Definition own_step id (ev : mp_event) : bool :=
  match ev with mp_init_done i | mp_check i | mp_wakes i | mp_proc_done i => i =? id | _ => false end.
Definition stops id (ev : mp_event) : bool :=
  match ev with mp_wait i | mp_timedwait i _ => i =? id | _ => false end.

(** ** A started thread does not wait *)

Definition awake t : Prop := status t = MPTHR_STATUS_RUNNING → ∀ timed, pos t ≠ thr_waits timed.

Lemma on_thread_Forall (P : MpthrInfoType → Prop) id f s :
  Forall P s → (∀ t, zget s id = Some t → P t → P (f t)) → Forall P (snd (on_thread id f s)).
Proof.
  intros Hs Hf. unfold on_thread. destruct (zget s id) as [t|] eqn:E; [|done]. simpl.
  pose proof (zget_elem _ _ _ E) as Hin. rewrite Forall_forall in Hs.
  apply Forall_insert; [by apply Forall_forall|]. auto.
Qed.

Lemma signal_awake t : awake (signal t).
Proof. intros _ timed. unfold signal. destruct (pos t) eqn:E; simpl; congruence. Qed.

Lemma signal_running t : status t = MPTHR_STATUS_RUNNING → awake t →
  signal (mkMpthr (timeout t) MPTHR_STATUS_RUNNING (op t) (pos t)) = t.
Proof.
  intros Hs Ha. specialize (Ha Hs). unfold signal. destruct t as [? st ? p]. simpl in *. subst st.
  destruct p; try done. by destruct (Ha timed).
Qed.

Lemma mp_step_awake s ev s' : Forall awake s → mp_step s ev s' → Forall awake s'.
Proof.
  intros Hs Hst. inversion Hst; subst; try (apply on_thread_Forall; [done|]; intros t _ Ht).
  - unfold mpthread_register. destruct (_ <=? _); [done|]. simpl. apply Forall_app. split; [done|].
    by repeat constructor.
  - apply signal_awake.
  - done.
  - done.
  - done.
  - unfold mpthread_run_check, awake in *. by case_bool_decide.
  - done.
  - done.
Qed.

Lemma mp_exec_awake s evs s' : mp_exec s evs s' → Forall awake s → Forall awake s'.
Proof. induction 1; eauto using mp_step_awake. Qed.

(** How many of its own steps a started thread is from [do_proc]. *)
Definition distance t : nat :=
  match pos t with thr_created => 2 | thr_ready => 1 | _ => 0 end.
Definition started id (n : nat) s : Prop :=
  ∃ t, zget s id = Some t ∧ status t = MPTHR_STATUS_RUNNING ∧ pos t ≠ thr_absent ∧ awake t ∧ (distance t ≤ n)%nat.

Lemma on_thread_zget i id f s t : zget s id = Some t →
  zget (snd (on_thread i f s)) id = Some (if i =? id then f t else t).
Proof.
  intros Ht. unfold on_thread. destruct (Z.eqb_spec i id) as [->|Hne].
  - rewrite Ht. simpl. apply zget_zput_eq. by eapply zget_range.
  - destruct (zget s i) eqn:E; [|done]. simpl. rewrite zget_zput_ne; [done| |done].
    apply zget_range in E. lia.
Qed.

Lemma started_step id n s ev s' : started id n s → ¬ at_pos id thr_proc s → stops id ev = false → mp_step s ev s' →
  started id (if own_step id ev then pred n else n) s'.
Proof.
  intros (t & Ht & Hrun & Hp & Ha & Hd) Hnp Hno Hst.
  assert (Hpos : pos t ≠ thr_proc) by (intros E; apply Hnp; unfold at_pos; by rewrite Ht; simpl; f_equal).
  pose proof (Ha Hrun) as Hw.
  inversion Hst; subst; cbn [own_step stops] in *; unfold at_pos in *; unfold started.
  all: try (eexists; split; [by apply on_thread_zget|]).
  - unfold mpthread_register. destruct (_ <=? _); [by exists t|]. exists t. split; [|done]. simpl.
    rewrite zget_app_l; [done|]. by eapply zget_range.
  - destruct (id0 =? id); [|done]. by rewrite signal_running.
  - rewrite Hno. done.
  - rewrite Hno. done.
  - destruct (Z.eqb_spec id0 id) as [->|]; [|done]. rewrite Ht in H. injection H as E.
    unfold distance, awake in *. rewrite E in Hd. simpl in *. split_and!; [done..|lia].
  - destruct (Z.eqb_spec id0 id) as [->|]; [|done]. rewrite Ht in H. injection H as E.
    unfold mpthread_run_check. rewrite bool_decide_true by done. unfold distance, awake in *. simpl.
    split_and!; [done..|lia].
  - destruct (Z.eqb_spec id0 id) as [->|]; [|done]. rewrite Ht in H. injection H as E. by destruct (Hw timed).
  - destruct (Z.eqb_spec id0 id) as [->|]; [|done]. rewrite Ht in H. by injection H.
Qed.

(** The execution passes through a state in which the thread is in [do_proc]. *)
Inductive passes (id : Z) : threads → list mp_event → threads → Prop :=
  | passes_here s evs s' : at_pos id thr_proc s → mp_exec s evs s' → passes id s evs s'
  | passes_later s ev s1 evs s2 : mp_step s ev s1 → passes id s1 evs s2 → passes id s (ev :: evs) s2.

Lemma started_passes id evs : ∀ n s s', started id n s → mp_exec s evs s' →
  Forall (λ ev, stops id ev = false) evs → (n ≤ length (filter (λ ev, own_step id ev = true) evs))%nat →
  passes id s evs s'.
Proof.
  assert (Hdec : ∀ s, at_pos id thr_proc s ∨ ¬ at_pos id thr_proc s).
  { intros s. unfold at_pos. destruct (pos <$> zget s id) as [[]|]; naive_solver. }
  induction evs as [|ev evs IH]; intros n s s' Hs Hex Hno Hn; destruct (Hdec s) as [Hp|Hp];
    try (by apply passes_here).
  - simpl in Hn. destruct Hs as (t & Ht & Hrun & Hab & Ha & Hd). destruct Hp. unfold at_pos. rewrite Ht. simpl.
    f_equal. unfold distance in Hd. specialize (Ha Hrun). destruct (pos t); try done; try lia. by destruct (Ha timed).
  - apply Forall_cons in Hno as [Hev Hno]. inversion Hex as [|? ? s1 ? ? Hst Hrest]; subst.
    eapply passes_later; [done|]. eapply IH; [by eapply started_step|done|done|].
    rewrite filter_cons in Hn. destruct (decide (own_step id ev = true)) as [E|E]; simpl in Hn.
    + rewrite E. lia.
    + destruct (own_step id ev); [done|lia].
Qed.

(** no start of a device thread is lost: in every state threads can reach, once
    [mpthread_start_proc] has accepted a thread that was created, the thread comes to its
    [do_proc] within two steps of its own, whatever other threads do in between, unless
    it is sent back to waiting. *)
Theorem mpthread_start_reaches_proc (id : Z) s s1 (evs : list mp_event) s2
    (Hreach : mp_reachable s) (Hcreated : ¬ at_pos id thr_absent s)
    (Hstart : mpthread_start_proc id s = (STD_E_OK, s1)) (Hexec : mp_exec s1 evs s2)
    (Hstays : Forall (λ ev, stops id ev = false) evs)
    (Hown : (2 ≤ length (filter (λ ev, own_step id ev = true) evs))%nat) :
  passes id s1 evs s2.
Proof.
  eapply started_passes; [|done..]. unfold mpthread_start_proc, on_thread in Hstart.
  destruct (zget s id) as [t|] eqn:Ht; [|done]. injection Hstart as <-.
  eexists. split; [apply zget_zput_eq; by eapply zget_range|]. unfold at_pos in Hcreated. rewrite Ht in Hcreated.
  simpl in Hcreated. split_and!; [unfold signal; by destruct (pos t)| |apply signal_awake|].
  - unfold signal. simpl. destruct (pos t) eqn:E; simpl; rewrite ?E; done.
  - unfold signal, distance. simpl. destruct (pos t) eqn:E; simpl; rewrite ?E; lia.
Qed.

(** The end of a timed wait lies within the first five seconds of 1970. *)
Lemma timed_wait_is_over t : wait_deadline t < 5 * 1000000000.
Proof. unfold wait_deadline. pose proof (wrap_in_width 32 (timeout t * 1000)). unfold in_width in *. lia. Qed.

Lemma get_status_hides_error id s : mpthread_num s ≤ id → mpthread_get_status id s = 4.
Proof. intros. unfold mpthread_get_status. by rewrite zget_None by (unfold mpthread_num in *; lia). Qed.

Lemma mpthread_register_fresh created o s err id s' :
  mpthread_register created o s = (err, Some id, s') → err = STD_E_OK ∧ zget s id = None ∧ is_Some (zget s' id) ∧
    ∀ j, j ≠ id → zget s' j = zget s j.
Proof.
  unfold mpthread_register. destruct (_ <=? _); [done|]. intros [= <- <- <-]. unfold mpthread_num.
  split_and!; [done|by apply zget_None; lia| |].
  - rewrite zget_app_r by lia. by rewrite Z.sub_diag.
  - intros j Hj. destruct (decide (j < zlen s)); [by rewrite zget_app_l|].
    rewrite (zget_None s) by lia. apply zget_None. right. rewrite zlen_app. unfold zlen at 2. simpl. lia.
Qed.
End mpthread.
Arguments MpthrInfoType : clear implicits.

Module MpthreadDemo.
Definition two : list (MpthrInfoType ()) :=
  [mkMpthr 0 MPTHR_STATUS_INITIALIZING () thr_created; mkMpthr 0 MPTHR_STATUS_WAITING () (thr_waits false)].
Definition evs : list (@mp_event ()) := [mp_wait 0; mp_check 1; mp_init_done 0; mp_proc_done 1; mp_check 0].

(** A signal that finds the thread waiting wakes it; a status check between does not lose it. *)
Lemma start_witness :
  ∃ s1 s2, mpthread_start_proc 1 two = (STD_E_OK, s1) ∧ mp_exec s1 evs s2 ∧ passes 1 s1 evs s2.
Proof.
  assert (Hr : mp_reachable two).
  { exists [mp_register true (); mp_register true (); mp_init_done 1; mp_wait 1; mp_check 1].
    repeat (eapply mp_cons; [by constructor|]). by eapply mp_nil. }
  assert (Hx : ∃ s2, mp_exec (snd (mpthread_start_proc 1 two)) evs s2).
  { eexists. repeat (eapply mp_cons; [by constructor|]). by eapply mp_nil. }
  destruct Hx as [s2 Hx]. exists (snd (mpthread_start_proc 1 two)), s2. split_and!; [done..|].
  apply (mpthread_start_reaches_proc 1 two (snd (mpthread_start_proc 1 two)) evs s2).
  - exact Hr.
  - vm_compute. congruence.
  - reflexivity.
  - exact Hx.
  - repeat constructor.
  - vm_compute. lia.
Defined.
End MpthreadDemo.
