(* ===== verification/SerialFifo.v ===== *)
(** * Serial FIFO device ([src/src/device/peripheral/serial/fifo/serial_fifo.c], [serial_fifo.h])

    Each of eight channels has a register for status, command and data in each direction.  At
    every tick the device publishes the status and executes the command of the guest: it moves
    a byte out of the ring [rd], or into the ring [wr_dev_buffer], or all of [wr_dev_buffer]
    into the ring [wr].  Two threads per channel carry bytes between a pipe of the host and
    the rings [rd] and [wr].

    The code between [mpthread_lock] and [mpthread_unlock] is one atomic step, and so is each
    read of a counter outside of them ([serial_step]); the tick of the emulator thread is cut
    into pieces at those points.  The pipes, [malloc] and [device_raise_int] are parameters; a
    local variable that a failing access leaves unwritten holds [junk]. *)

From Stdlib Require Import String Ascii.
From S2P Require Import Prelude CommBuffer Mpu MpuFacts Bus Token DeviceConfig Emulator Mpthread.
Open Scope Z_scope.

Definition SERIAL_FIFO_MAX_CHANNEL_NUM : Z := 8.
Definition SERIAL_FIFO_WRITE_STATUS_OFF : Z := SERIAL_FIFO_MAX_CHANNEL_NUM * 0.
Definition SERIAL_FIFO_WRITE_CMD_OFF : Z := SERIAL_FIFO_MAX_CHANNEL_NUM * 1.
Definition SERIAL_FIFO_WRITE_PTR_OFF : Z := SERIAL_FIFO_MAX_CHANNEL_NUM * 2.
Definition SERIAL_FIFO_READ_STATUS_OFF : Z := SERIAL_FIFO_MAX_CHANNEL_NUM * 3.
Definition SERIAL_FIFO_READ_CMD_OFF : Z := SERIAL_FIFO_MAX_CHANNEL_NUM * 4.
Definition SERIAL_FIFO_READ_PTR_OFF : Z := SERIAL_FIFO_MAX_CHANNEL_NUM * 5.
(** The register of a channel at an offset. *)
Definition reg_addr (base off ch : Z) : Z := u32 (base + off + ch).
Definition SERIAL_FIFO_WRITE_STATUS_CAN_DATA : Z := 0.
Definition SERIAL_FIFO_WRITE_STATUS_DATA_FULL : Z := 1.
Definition SERIAL_FIFO_WRITE_CMD_NONE : Z := 0.
Definition SERIAL_FIFO_WRITE_CMD_MOVE : Z := 1.
Definition SERIAL_FIFO_WRITE_CMD_TX : Z := 2.
Definition SERIAL_FIFO_READ_STATUS_NO_DATA : Z := 0.
Definition SERIAL_FIFO_READ_STATUS_DATA_IN : Z := 1.
Definition SERIAL_FIFO_READ_CMD_NONE : Z := 0.
Definition SERIAL_FIFO_READ_CMD_MOVE : Z := 1.
Definition SERIAL_FIFO_RD_BUFFER_LEN : Z := 16.
Definition SERIAL_FIFO_WR_BUFFER_LEN : Z := 16.

(** A direction of a channel: its interrupt and the thread and pipe that serve it. *)
Record serial_dir := mkDir {
  intno : Z; intoff : Z; raise_delay_count : Z; raise_intr : bool; thread : Z; fifopath : option (list Z) }.
(** [is_extdev] and [disable_cpu_io] are numbers, not only 0 and 1. *)
Record AthrillSerialFifoType := mkSerial {
  is_extdev : Z; disable_cpu_io : Z;
  rd : CommFifoBufferType; rd_dev_buffer : CommFifoBufferType; rd_side : serial_dir;
  wr : CommFifoBufferType; wr_dev_buffer : CommFifoBufferType; wr_side : serial_dir;
}.
Implicit Types (c : AthrillSerialFifoType) (x : serial_dir).

Definition null_fifo : CommFifoBufferType := mkFifo 0 0 0 0 None.
Definition null_dir : serial_dir := mkDir 0 0 0 false 0 None.
Definition null_serial : AthrillSerialFifoType := mkSerial 0 0 null_fifo null_fifo null_dir null_fifo null_fifo null_dir.

Definition with_rd (f : CommFifoBufferType) c : AthrillSerialFifoType :=
  mkSerial (is_extdev c) (disable_cpu_io c) f (rd_dev_buffer c) (rd_side c) (wr c) (wr_dev_buffer c) (wr_side c).
Definition with_wr (f : CommFifoBufferType) c : AthrillSerialFifoType :=
  mkSerial (is_extdev c) (disable_cpu_io c) (rd c) (rd_dev_buffer c) (rd_side c) f (wr_dev_buffer c) (wr_side c).
Definition with_wr_dev (f : CommFifoBufferType) c : AthrillSerialFifoType :=
  mkSerial (is_extdev c) (disable_cpu_io c) (rd c) (rd_dev_buffer c) (rd_side c) (wr c) f (wr_side c).
Definition with_rd_side x c : AthrillSerialFifoType :=
  mkSerial (is_extdev c) (disable_cpu_io c) (rd c) (rd_dev_buffer c) x (wr c) (wr_dev_buffer c) (wr_side c).
Definition with_wr_side x c : AthrillSerialFifoType :=
  mkSerial (is_extdev c) (disable_cpu_io c) (rd c) (rd_dev_buffer c) (rd_side c) (wr c) (wr_dev_buffer c) x.
Definition with_flags (extdev nocpu : Z) c : AthrillSerialFifoType :=
  mkSerial extdev nocpu (rd c) (rd_dev_buffer c) (rd_side c) (wr c) (wr_dev_buffer c) (wr_side c).
Definition with_raise (delay : Z) (b : bool) x : serial_dir := mkDir (intno x) (intoff x) delay b (thread x) (fifopath x).
Definition with_thread (id : Z) x : serial_dir := mkDir (intno x) (intoff x) (raise_delay_count x) (raise_intr x) id (fifopath x).
Definition with_path (p : list Z) x : serial_dir := mkDir (intno x) (intoff x) (raise_delay_count x) (raise_intr x) (thread x) (Some p).

(** ** The tick of a channel *)

Section device.
Context {D T : Type} `{MpuConfig D}.
#[local] Abbreviation machine := (machine D T).
Context (device_raise_int : Z → machine → machine).
(** The address of the registers and the delay of an interrupt. *)
Context (serial_fifo_base_addr counter_fd : Z).
Implicit Types (m : machine) (ch : Z).

Definition put_reg (off ch v : Z) m : outcome machine :=
  '(_, s) ← mpu_put_data8 0 (reg_addr serial_fifo_base_addr off ch) v (m_mpu m); Ok (with_mpu s m).
Definition get_reg (off ch junk : Z) m : outcome (Z * machine) :=
  '(_, v, s) ← mpu_get_data8 0 (reg_addr serial_fifo_base_addr off ch) junk (m_mpu m); Ok (v, with_mpu s m).

(** [do_serial_fifo_cpu_read] in three pieces.  The second is skipped when the first finds
    the ring empty; the third says which byte it took off the ring. *)
Definition read_status ch c m : outcome (bool * machine) :=
  if COMM_FIFO_IS_EMPTY (rd c) then
    m ← put_reg SERIAL_FIFO_READ_STATUS_OFF ch SERIAL_FIFO_READ_STATUS_NO_DATA m; Ok (false, m)
  else
    m ← put_reg SERIAL_FIFO_READ_STATUS_OFF ch SERIAL_FIFO_READ_STATUS_DATA_IN m; Ok (true, m).
Definition read_level c : AthrillSerialFifoType :=
  if intoff (rd_side c) <=? count (rd c) then
    if raise_intr (rd_side c) then c else with_rd_side (with_raise counter_fd true (rd_side c)) c
  else c.
Definition read_command ch (junk : Z) c m : outcome (option Z * AthrillSerialFifoType * machine) :=
  '(cmd, m) ← get_reg SERIAL_FIFO_READ_CMD_OFF ch junk m;
  if cmd =? SERIAL_FIFO_READ_CMD_MOVE then
    '(err, f, out, _) ← comm_fifo_buffer_get (rd c) [u8 junk] 1;
    b ← oob (zget out 0);
    m ← (if std_ok err then put_reg SERIAL_FIFO_READ_PTR_OFF ch b m else Ok m);
    m ← put_reg SERIAL_FIFO_READ_CMD_OFF ch SERIAL_FIFO_READ_CMD_NONE m;
    Ok (if std_ok err then Some b else None, with_rd f c, m)
  else Ok (None, c, m).
Definition do_serial_fifo_cpu_read ch (junk : Z) c m : outcome (option Z * AthrillSerialFifoType * machine) :=
  '(found, m) ← read_status ch c m;
  read_command ch junk (if (found : bool) then read_level c else c) m.

(** The loop of [do_serial_fifo_cpu_write_tx]. *)
Fixpoint tx_loop (n : nat) (junk : Z) c : outcome AthrillSerialFifoType :=
  match n with
  | O => Ok c
  | S n =>
      if COMM_FIFO_IS_FULL (wr c) then Ok c
      else
        '(err, f, out, _) ← comm_fifo_buffer_get (wr_dev_buffer c) [u8 junk] 1;
        let c := with_wr_dev f c in
        if std_ok err then
          '(_, w, _) ← comm_fifo_buffer_add (wr c) out 1;
          b ← oob (zget out 0); tx_loop n b (with_wr w c)
        else Ok c
  end.
Definition do_serial_fifo_cpu_write_tx ch (junk : Z) c m : outcome (AthrillSerialFifoType * machine) :=
  c ← tx_loop (Z.to_nat (count (wr_dev_buffer c))) junk c;
  let c := if count (wr_dev_buffer c) <=? intoff (wr_side c)
           then with_wr_side (with_raise counter_fd true (wr_side c)) c else c in
  m ← (if count (wr_dev_buffer c) =? 0 then put_reg SERIAL_FIFO_WRITE_CMD_OFF ch SERIAL_FIFO_WRITE_CMD_NONE m else Ok m);
  Ok (c, m).

(** [do_serial_fifo_cpu_write] in two pieces; the second says which byte it accepted. *)
Definition write_status ch c m : outcome machine :=
  put_reg SERIAL_FIFO_WRITE_STATUS_OFF ch
    (if negb (COMM_FIFO_IS_FULL (wr_dev_buffer c)) then SERIAL_FIFO_WRITE_STATUS_CAN_DATA
     else SERIAL_FIFO_WRITE_STATUS_DATA_FULL) m.
Definition write_command ch (junk : Z) c m : outcome (option Z * AthrillSerialFifoType * machine) :=
  '(cmd, m) ← get_reg SERIAL_FIFO_WRITE_CMD_OFF ch junk m;
  if cmd =? SERIAL_FIFO_WRITE_CMD_MOVE then
    '(b, m) ← get_reg SERIAL_FIFO_WRITE_PTR_OFF ch junk m;
    '(err, f, _) ← comm_fifo_buffer_add (wr_dev_buffer c) [b] 1;
    m ← put_reg SERIAL_FIFO_WRITE_CMD_OFF ch SERIAL_FIFO_WRITE_CMD_NONE m;
    Ok (if std_ok err then Some b else None, with_wr_dev f c, m)
  else if cmd =? SERIAL_FIFO_WRITE_CMD_TX then
    '(c, m) ← do_serial_fifo_cpu_write_tx ch junk c m; Ok (None, c, m)
  else Ok (None, c, m).
Definition do_serial_fifo_cpu_write ch (junk : Z) c m : outcome (option Z * AthrillSerialFifoType * machine) :=
  m ← write_status ch c m; write_command ch junk c m.

(** One direction of [do_serial_fifo_cpu_intr]. *)
Definition raise_when_due x m : serial_dir * machine :=
  if raise_intr x then
    if raise_delay_count x =? 0 then (with_raise 0 false x, device_raise_int (intno x) m)
    else (with_raise (u32 (raise_delay_count x - 1)) true x, m)
  else (x, m).
Definition do_serial_fifo_cpu_intr c m : AthrillSerialFifoType * machine :=
  let '(x, m) := raise_when_due (rd_side c) m in
  let '(y, m) := raise_when_due (wr_side c) m in (with_wr_side y (with_rd_side x c), m).

Definition channel_tick ch (junk : Z) c m : outcome (AthrillSerialFifoType * machine) :=
  '(_, c, m) ← do_serial_fifo_cpu_read ch junk c m;
  '(_, c, m) ← do_serial_fifo_cpu_write ch junk c m;
  Ok (do_serial_fifo_cpu_intr c m).

Fixpoint channels_loop ch (junk : Z) (cs : list AthrillSerialFifoType) m : outcome (list AthrillSerialFifoType * machine) :=
  match cs with
  | [] => Ok ([], m)
  | c :: cs =>
      '(c, m) ← (if bool_decide (data (rd c) = None) || (disable_cpu_io c =? 1) then Ok (c, m)
                 else channel_tick ch junk c m);
      '(cs, m) ← channels_loop (ch + 1) junk cs m; Ok (c :: cs, m)
  end.
Definition athrill_device_supply_clock_serial_fifo (junk : Z) (cs : list AthrillSerialFifoType) m
    : outcome (list AthrillSerialFifoType * machine) :=
  if serial_fifo_base_addr =? 0 then Ok (cs, m) else channels_loop 0 junk cs m.

(** The channel handed to devices outside, by its number. *)
Definition athrill_device_get_serial_fifo_buffer (channel : Z) (cs : list AthrillSerialFifoType) : option Z :=
  if (serial_fifo_base_addr =? 0) || (SERIAL_FIFO_MAX_CHANNEL_NUM <=? channel) then None
  else c ← zget cs channel; match data (rd c) with Some _ => Some channel | None => None end.
End device.

(** ** The threads of a channel *)

Inductive serial_thread_op := rx_thread_ops | tx_thread_ops.

(** The channel a thread serves: the first that is not for an external device and names it.
    The loop ends at 8, which the caller asserts it does not. *)
Fixpoint served_channel (ring : AthrillSerialFifoType → CommFifoBufferType) (side : AthrillSerialFifoType → serial_dir)
    (id ch : Z) (cs : list AthrillSerialFifoType) : Z :=
  match cs with
  | [] => ch
  | c :: cs =>
      if bool_decide (data (ring c) = None) || (is_extdev c =? 1) || negb (thread (side c) =? id)
      then served_channel ring side id (ch + 1) cs else ch
  end.
Definition tx_served (id : Z) (cs : list AthrillSerialFifoType) : Z := served_channel wr wr_side id 0 cs.
Definition rx_served (id : Z) (cs : list AthrillSerialFifoType) : Z := served_channel rd rd_side id 0 cs.

(** One pass of the loop of [serial_fifo_tx_thread_do_proc]: the look at the counter, then
    under the mutex the byte. *)
Definition tx_sees_data c : bool := negb (count (wr c) =? 0).
Definition tx_take (junk : Z) c : outcome (Z * AthrillSerialFifoType) :=
  '(err, f, out, _) ← comm_fifo_buffer_get (wr c) [u8 junk] 1;
  _ ← assert_c (std_ok err);
  b ← oob (zget out 0); Ok (b, with_wr f c).
(** One pass of the loop of [serial_fifo_rx_thread_do_proc]. *)
Definition rx_sees_room c : bool := negb (COMM_FIFO_IS_FULL (rd c)).
Definition rx_put (b : Z) c : outcome AthrillSerialFifoType :=
  '(err, f, _) ← comm_fifo_buffer_add (rd c) [b] 1;
  _ ← assert_c (std_ok err); Ok (with_rd f c).

(** Where the emulator thread is in the tick of the channel, and each thread in its loop. *)
Inductive cpu_at := at_guest | at_read_level | at_read_command | at_write_status | at_write_command | at_intr.
Inductive tx_at := tx_polls | tx_takes | tx_writes (b : Z).
Inductive rx_at := rx_polls | rx_reads | rx_puts (b : Z).

(** What a step moves: a byte accepted from the guest, written to the pipe or lost when the
    write fails, read from the pipe, taken off the ring for the guest. *)
Inductive serial_event := ev_none | ev_accept (b : Z) | ev_write (b : Z) | ev_lose (b : Z) | ev_read (b : Z) | ev_deliver (b : Z).

Section threads.
Context {D T : Type} `{MpuConfig D}.
#[local] Abbreviation machine := (machine D T).
Context (device_raise_int : Z → machine → machine) (serial_fifo_base_addr counter_fd ch : Z).

Record serial_sys := mkSys { s_chan : AthrillSerialFifoType; s_machine : machine; s_cpu : cpu_at; s_tx : tx_at; s_rx : rx_at }.
Implicit Types (s : serial_sys) (m : machine) (t : tx_at) (r : rx_at).

Definition moved (ev : Z → serial_event) (b : option Z) : serial_event := match b with Some b => ev b | None => ev_none end.

(** Between ticks the guest and the other devices change the machine, not the channel. *)
Inductive serial_step : serial_sys → serial_event → serial_sys → Prop :=
  | step_guest c m m' t r : mpu_wf (m_mpu m') →
      serial_step (mkSys c m at_guest t r) ev_none (mkSys c m' at_guest t r)
  | step_read_status c m m' found t r : read_status serial_fifo_base_addr ch c m = Ok (found, m') →
      serial_step (mkSys c m at_guest t r) ev_none (mkSys c m' (if found then at_read_level else at_read_command) t r)
  | step_read_level c m t r :
      serial_step (mkSys c m at_read_level t r) ev_none (mkSys (read_level counter_fd c) m at_read_command t r)
  | step_read_command junk c m b c' m' t r : read_command serial_fifo_base_addr ch junk c m = Ok (b, c', m') →
      serial_step (mkSys c m at_read_command t r) (moved ev_deliver b) (mkSys c' m' at_write_status t r)
  | step_write_status c m m' t r : write_status serial_fifo_base_addr ch c m = Ok m' →
      serial_step (mkSys c m at_write_status t r) ev_none (mkSys c m' at_write_command t r)
  | step_write_command junk c m b c' m' t r : write_command serial_fifo_base_addr counter_fd ch junk c m = Ok (b, c', m') →
      serial_step (mkSys c m at_write_command t r) (moved ev_accept b) (mkSys c' m' at_intr t r)
  | step_intr c m c' m' t r : do_serial_fifo_cpu_intr device_raise_int c m = (c', m') →
      serial_step (mkSys c m at_intr t r) ev_none (mkSys c' m' at_guest t r)
  | step_tx_poll c m p r :
      serial_step (mkSys c m p tx_polls r) ev_none (mkSys c m p (if tx_sees_data c then tx_takes else tx_polls) r)
  | step_tx_take junk c m p r b c' : tx_take junk c = Ok (b, c') →
      serial_step (mkSys c m p tx_takes r) ev_none (mkSys c' m p (tx_writes b) r)
  | step_tx_write c m p r b : serial_step (mkSys c m p (tx_writes b) r) (ev_write b) (mkSys c m p tx_polls r)
  | step_tx_fails c m p r b : serial_step (mkSys c m p (tx_writes b) r) (ev_lose b) (mkSys c m p tx_polls r)
  | step_rx_poll c m p t :
      serial_step (mkSys c m p t rx_polls) ev_none (mkSys c m p t (if rx_sees_room c then rx_reads else rx_polls))
  | step_rx_read c m p t b : serial_step (mkSys c m p t rx_reads) (ev_read b) (mkSys c m p t (rx_puts b))
  | step_rx_fails c m p t : serial_step (mkSys c m p t rx_reads) ev_none (mkSys c m p t rx_polls)
  | step_rx_put c m p t b c' : rx_put b c = Ok c' →
      serial_step (mkSys c m p t (rx_puts b)) ev_none (mkSys c' m p t rx_polls).

Inductive serial_exec : serial_sys → list serial_event → serial_sys → Prop :=
  | serial_nil s : serial_exec s [] s
  | serial_cons s ev s1 tr s2 : serial_step s ev s1 → serial_exec s1 tr s2 → serial_exec s (ev :: tr) s2.
End threads.
Arguments serial_sys : clear implicits.

(** ** Initialization *)

Section init.
Context `{AddrWidth} `{HostFiles}.
(** What [malloc] returns for the [n]-th block and its size, and whether a thread is made. *)
Context (malloc : Z → Z → option (list Z)) (created : Z → bool).
#[local] Abbreviation threads := (list (MpthrInfoType serial_thread_op)).
Implicit Types (cfg : CpuEmuDevCfgType) (ts : threads).

Record serial_state := mkSerialState { serial_base : Z; serial_counter : Z; channels : list AthrillSerialFifoType }.
Definition serial_start : serial_state := mkSerialState 0 1024 (replicate 8 null_serial).

(** The number of a channel is one digit. *)
Definition serial_key (i : Z) (suffix : string) : list Z :=
  str_of "DEVICE_CONFIG_SERIAL_FILFO_" ++ [48 + i] ++ str_of suffix.

Definition create_ring (n size : Z) : outcome CommFifoBufferType :=
  match comm_fifo_buffer_create (malloc n size) size (Some null_fifo) with
  | (STD_E_OK, Some f) => Ok f
  | _ => Fault AssertFail
  end.
Definition required (r : Std_ReturnType * option Z) : outcome Z :=
  match r with (STD_E_OK, Some v) => Ok v | _ => Fault AssertFail end.
Definition required_string (key : list Z) cfg : outcome (list Z * CpuEmuDevCfgType) :=
  '(err, s, cfg) ← cpuemu_get_devcfg_string key cfg;
  match err, s with STD_E_OK, Some s => Ok (s, cfg) | _, _ => Fault AssertFail end.
Definition register_thread (o : serial_thread_op) ts : outcome (Z * threads) :=
  match mpthread_register (created (mpthread_num ts)) o ts with
  | (STD_E_OK, Some id, ts) => Ok (id, ts)
  | _ => Fault AssertFail
  end.
Definition start_thread (id : Z) ts : outcome threads :=
  let '(err, ts) := mpthread_start_proc id ts in _ ← assert_c (std_ok err); Ok ts.

Definition serial_fifo_thread_start (i : Z) c cfg ts : outcome (AthrillSerialFifoType * CpuEmuDevCfgType * threads) :=
  '(p, cfg) ← required_string (serial_key i "_RD_FIFO") cfg;
  '(q, cfg) ← required_string (serial_key i "_WR_FIFO") cfg;
  '(rx, ts) ← register_thread rx_thread_ops ts;
  '(tx, ts) ← register_thread tx_thread_ops ts;
  ts ← start_thread rx ts; ts ← start_thread tx ts;
  Ok (with_wr_side (with_thread tx (with_path q (wr_side c)))
        (with_rd_side (with_thread rx (with_path p (rd_side c))) c), cfg, ts).

(** The numbers of an int: [uint32] to [std_bool]. *)
Definition to_int (v : Z) : Z := if v <? 2 ^ 31 then v else v - 2 ^ 32.
Definition optional (key : list Z) (v : Z) cfg : Z := default v (snd (cpuemu_get_devcfg_value key cfg)).

Definition init_channel (i : Z) c cfg ts : outcome (AthrillSerialFifoType * CpuEmuDevCfgType * threads) :=
  match cpuemu_get_devcfg_value (serial_key i "_SIZE") cfg with
  | (STD_E_OK, Some size) =>
      let size := u32 size in
      r ← create_ring (4 * i) size; rb ← create_ring (4 * i + 1) SERIAL_FIFO_RD_BUFFER_LEN;
      w ← create_ring (4 * i + 2) size; wb ← create_ring (4 * i + 3) SERIAL_FIFO_WR_BUFFER_LEN;
      rno ← required (cpuemu_get_devcfg_value (serial_key i "_RD_INTNO") cfg);
      wno ← required (cpuemu_get_devcfg_value (serial_key i "_WR_INTNO") cfg);
      roff ← required (cpuemu_get_devcfg_value (serial_key i "_RD_INTOFF") cfg);
      woff ← required (cpuemu_get_devcfg_value (serial_key i "_WR_INTOFF") cfg);
      let nocpu := optional (serial_key i "_DISABLE_CPUIO") 0 cfg in
      let extdev := optional (serial_key i "_EXDEV_ENABLE") 0 cfg in
      let c := mkSerial (to_int (u32 extdev)) (to_int (u32 nocpu))
        r rb (mkDir (u32 rno) (u32 roff) 0 false (thread (rd_side c)) (fifopath (rd_side c)))
        w wb (mkDir (u32 wno) (u32 woff) 0 false (thread (wr_side c)) (fifopath (wr_side c))) in
      if u32 extdev =? 0 then serial_fifo_thread_start i c cfg ts else Ok (c, cfg, ts)
  | _ => Ok (with_rd (with_data (rd c) None) (with_wr (with_data (wr c) None) c), cfg, ts)
  end.
Fixpoint init_channels (i : Z) (cs : list AthrillSerialFifoType) cfg ts
    : outcome (list AthrillSerialFifoType * CpuEmuDevCfgType * threads) :=
  match cs with
  | [] => Ok ([], cfg, ts)
  | c :: cs =>
      '(c, cfg, ts) ← init_channel i c cfg ts;
      '(cs, cfg, ts) ← init_channels (i + 1) cs cfg ts; Ok (c :: cs, cfg, ts)
  end.
Definition athrill_device_init_serial_fifo (st : serial_state) cfg ts : outcome (serial_state * CpuEmuDevCfgType * threads) :=
  match cpuemu_get_devcfg_value_hex (str_of "DEVICE_CONFIG_SERIAL_FILFO_BASE_ADDR") cfg with
  | (STD_E_OK, Some base) =>
      let fd := u32 (optional (str_of "DEVICE_CONFIG_SERIAL_FIFO_FD") (serial_counter st) cfg) in
      '(cs, cfg, ts) ← init_channels 0 (channels st) cfg ts;
      Ok (mkSerialState base fd cs, cfg, ts)
  | _ => Ok (st, cfg, ts)
  end.
End init.
