(* ===== verification/SerialFifoFacts.v ===== *)
(** * Correctness of the serial FIFO device

    Under every interleaving of the emulator thread and the two threads of a channel no byte
    is lost, doubled or reordered between the ring that accepts it and the pipe, and the
    assertions of the threads hold; what a command of the guest does; each thread serves the
    channel it was registered for. *)

From Stdlib Require Import String Ascii.
From S2P Require Import Prelude CommBuffer Mpu MpuFacts Bus Token DeviceConfig Emulator Mpthread SerialFifo.
From stdpp Require Import gmap.
Open Scope Z_scope.

(** ** One byte on a ring *)

Lemma ring_get1 f j : fifo_wf f → 0 < count f → ∃ f' b r,
  comm_fifo_buffer_get f [j] 1 = Ok (STD_E_OK, f', [b], r) ∧ fifo_wf f' ∧ max_size f' = max_size f ∧
  contents f = b :: contents f' ∧ count f' = count f - 1.
Proof.
  intros Hwf Hc. destruct (fifo_buffer_get_room f Hwf Hc) as (f' & b & He & Hwf' & Hm & Hq).
  unfold comm_fifo_buffer_get. replace (count f =? 0) with false by lia.
  change (Z.to_nat 1) with 1%nat. cbn [fifo_get_loop]. rewrite He. simpl.
  eexists f', b, _. split_and!; [done..|].
  rewrite <- !contents_len, Hq by done. unfold zlen. simpl. lia.
Qed.
Lemma ring_get1_empty f j : count f = 0 → comm_fifo_buffer_get f [j] 1 = Ok (STD_E_NOENT, f, [j], 0).
Proof. intros Hc. unfold comm_fifo_buffer_get. by rewrite Hc. Qed.

Lemma ring_add1 f b : fifo_wf f → count f < max_size f → ∃ f' r,
  comm_fifo_buffer_add f [b] 1 = Ok (STD_E_OK, f', r) ∧ fifo_wf f' ∧ max_size f' = max_size f ∧
  contents f' = contents f ++ [b] ∧ count f' = count f + 1.
Proof.
  intros Hwf Hc. destruct (fifo_buffer_add_room f b Hwf Hc) as (f' & He & Hwf' & Hm & Hq).
  unfold comm_fifo_buffer_add. replace (max_size f <=? count f) with false by lia.
  change (Z.to_nat 1) with 1%nat. cbn [fifo_add_loop]. simpl. rewrite He. simpl.
  eexists f', _. split_and!; [done..|].
  rewrite <- !contents_len, Hq by done. unfold zlen. rewrite length_app. simpl. lia.
Qed.
Lemma ring_add1_full f b : max_size f ≤ count f → comm_fifo_buffer_add f [b] 1 = Ok (STD_E_LIMIT, f, 0).
Proof. intros Hc. unfold comm_fifo_buffer_add. by replace (max_size f <=? count f) with true by lia. Qed.

(** The rings of a channel in use. *)
Record chan_wf (c : AthrillSerialFifoType) : Prop := {
  cw_rd : fifo_wf (rd c); cw_wr : fifo_wf (wr c); cw_dev : fifo_wf (wr_dev_buffer c) }.

Section facts.
Context {D T : Type} `{MpuConfig D}.
#[local] Abbreviation machine := (machine D T).
Context (device_raise_int : Z → machine → machine) (base fd ch : Z).
Implicit Types (m : machine) (c : AthrillSerialFifoType).

(** ** Registers *)

Context (Hext : external_ok).

Lemma reg_is_addr off : is_addr (reg_addr base off ch).
Proof.
  unfold reg_addr, is_addr. pose proof addr_space_range.
  pose proof (wrap_in_width 32 (base + off + ch)). unfold in_width in *. lia.
Qed.
Lemma put_reg_ok off v m : mpu_wf (m_mpu m) → ∃ m', put_reg base off ch v m = Ok m' ∧ mpu_wf (m_mpu m').
Proof.
  intros Hm. unfold put_reg.
  destruct (mpu_put_data_ok W8 0 (reg_addr base off ch) v (m_mpu m) Hext Hm (reg_is_addr off)) as (e & s & He & Hs).
  unfold mpu_put_data8. rewrite He. simpl. by eexists.
Qed.
Lemma get_reg_ok off j m : mpu_wf (m_mpu m) → ∃ v m', get_reg base off ch j m = Ok (v, m') ∧ mpu_wf (m_mpu m').
Proof.
  intros Hm. unfold get_reg.
  destruct (mpu_get_data_ok W8 0 (reg_addr base off ch) j (m_mpu m) Hext Hm (reg_is_addr off)) as (e & v & s & He & Hs).
  unfold mpu_get_data8. rewrite He. simpl. by eexists _, _.
Qed.

(** ** Bytes in order: what the pieces of the tick do to the rings *)

(** A piece changes the channel from [c] to [c'] and keeps everything but the queues. *)
Definition queues c : list Z * list Z * list Z := (contents (rd c), contents (wr c), contents (wr_dev_buffer c)).
Definition sizes c : Z * Z * Z := (max_size (rd c), max_size (wr c), max_size (wr_dev_buffer c)).
Definition stays c c' : Prop := chan_wf c' ∧ sizes c' = sizes c.

Lemma read_command_ok j c m : chan_wf c → mpu_wf (m_mpu m) → ∃ b c' m',
  read_command base ch j c m = Ok (b, c', m') ∧ mpu_wf (m_mpu m') ∧ stays c c' ∧
  contents (rd c) = option_list b ++ contents (rd c') ∧ wr c' = wr c ∧ wr_dev_buffer c' = wr_dev_buffer c.
Proof.
  intros [Hr Hw Hd] Hm. unfold read_command.
  destruct (get_reg_ok SERIAL_FIFO_READ_CMD_OFF j m Hm) as (cmd & m1 & -> & Hm1). simpl.
  destruct (cmd =? _); [|by exists None, c, m1].
  destruct (decide (count (rd c) = 0)) as [E|E].
  - rewrite ring_get1_empty by done. simpl.
    destruct (put_reg_ok SERIAL_FIFO_READ_CMD_OFF SERIAL_FIFO_READ_CMD_NONE m1 Hm1) as (m2 & -> & Hm2). simpl.
    by exists None, (with_rd (rd c) c), m2.
  - pose proof (wf_count _ Hr). destruct (ring_get1 (rd c) (u8 j) Hr) as (f & b & r & -> & Hf & Hmx & Hq & _); [lia|]. simpl.
    destruct (put_reg_ok SERIAL_FIFO_READ_PTR_OFF b m1 Hm1) as (m2 & -> & Hm2). simpl.
    destruct (put_reg_ok SERIAL_FIFO_READ_CMD_OFF SERIAL_FIFO_READ_CMD_NONE m2 Hm2) as (m3 & -> & Hm3). simpl.
    exists (Some b), (with_rd f c), m3. split_and!; [done..| |done|done|done].
    split; [by split|]. unfold sizes. simpl. by rewrite Hmx.
Qed.

(** The TX command moves as many bytes as fit. *)
Lemma tx_loop_spec n : ∀ j c, chan_wf c → count (wr_dev_buffer c) = Z.of_nat n →
  ∃ c', tx_loop n j c = Ok c' ∧ stays c c' ∧ rd c' = rd c ∧ wr_side c' = wr_side c ∧
  let k := Z.to_nat (Z.min (count (wr_dev_buffer c)) (max_size (wr c) - count (wr c))) in
  contents (wr c') = contents (wr c) ++ take k (contents (wr_dev_buffer c)) ∧
  contents (wr_dev_buffer c') = drop k (contents (wr_dev_buffer c)).
Proof.
  induction n as [|n IH]; intros j c Hwf Hn; pose proof Hwf as [Hr Hw Hd];
    pose proof (wf_count _ Hw); pose proof (wf_count _ Hd); cbn [tx_loop].
  - exists c. rewrite Hn, Z.min_l by lia. simpl. by rewrite app_nil_r.
  - unfold COMM_FIFO_IS_FULL. destruct (Z.leb_spec (max_size (wr c)) (count (wr c))).
    + exists c. rewrite Z.min_r by lia. replace (Z.to_nat _) with O by lia. by rewrite app_nil_r.
    + destruct (ring_get1 (wr_dev_buffer c) (u8 j) Hd) as (f & b & r & -> & Hf & Hfm & Hfq & Hfc); [lia|]. simpl.
      destruct (ring_add1 (wr c) b Hw) as (w & r' & -> & Hw' & Hwm & Hwq & Hwc); [lia|]. simpl.
      destruct (IH b (with_wr w (with_wr_dev f c))) as (c' & -> & [Hst Hsz] & Hrd & Hsd & Hq1 & Hq2); [by split|simpl; lia|].
      exists c'. split; [done|]. split; [split; [done|]; rewrite Hsz; unfold sizes; simpl; congruence|]. split_and!; [done..| |].
      * rewrite Hq1. cbn [wr wr_dev_buffer with_wr with_wr_dev]. rewrite Hwq, Hfq, <- app_assoc. f_equal.
        replace (Z.to_nat (Z.min (count (wr_dev_buffer c)) _))
          with (S (Z.to_nat (Z.min (count f) (max_size w - count w)))) by lia. done.
      * rewrite Hq2. cbn [wr wr_dev_buffer with_wr with_wr_dev]. rewrite Hfq.
        replace (Z.to_nat (Z.min (count (wr_dev_buffer c)) _))
          with (S (Z.to_nat (Z.min (count f) (max_size w - count w)))) by lia. done.
Qed.

Lemma write_tx_spec j c m : chan_wf c → mpu_wf (m_mpu m) → ∃ c' m',
  do_serial_fifo_cpu_write_tx base fd ch j c m = Ok (c', m') ∧ mpu_wf (m_mpu m') ∧ stays c c' ∧ rd c' = rd c ∧
  let k := Z.to_nat (Z.min (count (wr_dev_buffer c)) (max_size (wr c) - count (wr c))) in
  contents (wr c') = contents (wr c) ++ take k (contents (wr_dev_buffer c)) ∧
  contents (wr_dev_buffer c') = drop k (contents (wr_dev_buffer c)).
Proof.
  intros Hwf Hm. pose proof (wf_count _ (cw_dev c Hwf)). unfold do_serial_fifo_cpu_write_tx.
  destruct (tx_loop_spec (Z.to_nat (count (wr_dev_buffer c))) j c Hwf) as (c' & -> & [Hst Hsz] & Hrd & _ & Hq); [lia|]. simpl.
  assert (∃ m', (if count (wr_dev_buffer c') =? 0
      then put_reg base SERIAL_FIFO_WRITE_CMD_OFF ch SERIAL_FIFO_WRITE_CMD_NONE m else Ok m) = Ok m' ∧ mpu_wf (m_mpu m'))
    as (m' & Hp & Hm') by (destruct (_ =? 0); [by apply put_reg_ok|eauto]).
  set (c2 := if _ <=? intoff _ then _ else c'). 
  assert (wr c2 = wr c' ∧ wr_dev_buffer c2 = wr_dev_buffer c' ∧ rd c2 = rd c') as (E1 & E2 & E3)
    by (unfold c2; by destruct (_ <=? intoff _)).
  simpl. rewrite E2, Hp. simpl. exists c2, m'. unfold stays, sizes in *. rewrite E1, E2, E3.
  split_and!; try done; try apply Hq. destruct Hst. split; congruence.
Qed.

Lemma write_command_ok j c m : chan_wf c → mpu_wf (m_mpu m) → ∃ b c' m',
  write_command base fd ch j c m = Ok (b, c', m') ∧ mpu_wf (m_mpu m') ∧ stays c c' ∧ rd c' = rd c ∧
  contents (wr c') ++ contents (wr_dev_buffer c') = contents (wr c) ++ contents (wr_dev_buffer c) ++ option_list b ∧
  (count (wr c) ≤ count (wr c')).
Proof.
  intros Hwf Hm. pose proof Hwf as [Hr Hw Hd]. unfold write_command.
  destruct (get_reg_ok SERIAL_FIFO_WRITE_CMD_OFF j m Hm) as (cmd & m1 & -> & Hm1). simpl.
  destruct (cmd =? SERIAL_FIFO_WRITE_CMD_MOVE).
  - destruct (get_reg_ok SERIAL_FIFO_WRITE_PTR_OFF j m1 Hm1) as (b & m2 & -> & Hm2). simpl.
    destruct (put_reg_ok SERIAL_FIFO_WRITE_CMD_OFF SERIAL_FIFO_WRITE_CMD_NONE m2 Hm2) as (m3 & Hp & Hm3).
    pose proof (wf_count _ Hd). destruct (decide (count (wr_dev_buffer c) = max_size (wr_dev_buffer c))) as [E|E].
    + rewrite ring_add1_full by lia. simpl. rewrite Hp. simpl.
      assert (with_wr_dev (wr_dev_buffer c) c = c) as -> by (by destruct c). exists None, c, m3.
      simpl. rewrite app_nil_r. by split_and!.
    + destruct (ring_add1 (wr_dev_buffer c) b Hd) as (f & r & -> & Hf & Hfm & Hfq & _); [lia|]. simpl. rewrite Hp. simpl.
      exists (Some b), (with_wr_dev f c), m3. split_and!; [done|done| |done| |done].
      * split; [by split|]. unfold sizes. simpl. by rewrite Hfm.
      * simpl. by rewrite Hfq.
  - destruct (cmd =? SERIAL_FIFO_WRITE_CMD_TX); [|exists None, c, m1; simpl; rewrite app_nil_r; by split_and!].
    destruct (write_tx_spec j c m1 Hwf Hm1) as (c' & m' & -> & Hm' & [Hst Hsz] & Hrd & Hq1 & Hq2). simpl.
    exists None, c', m'. split_and!; [done..| |].
    + simpl. rewrite Hq1, Hq2, app_nil_r, <- app_assoc. by rewrite take_drop.
    + rewrite <- !contents_len by (done || by destruct Hst). rewrite Hq1, zlen_app. pose proof (zlen_nonneg (take
        (Z.to_nat (Z.min (count (wr_dev_buffer c)) (max_size (wr c) - count (wr c)))) (contents (wr_dev_buffer c)))). lia.
Qed.

(** ** Interleavings *)

#[local] Abbreviation step := (serial_step device_raise_int base fd ch).
#[local] Abbreviation exec := (serial_exec device_raise_int base fd ch).
Implicit Types (s : serial_sys D T) (tr : list serial_event).

Definition accepted (ev : serial_event) : list Z := match ev with ev_accept b => [b] | _ => [] end.
Definition taken (ev : serial_event) : list Z := match ev with ev_write b | ev_lose b => [b] | _ => [] end.
Definition received (ev : serial_event) : list Z := match ev with ev_read b => [b] | _ => [] end.
Definition delivered (ev : serial_event) : list Z := match ev with ev_deliver b => [b] | _ => [] end.

(** The bytes under way in each direction, oldest first. *)
Definition tx_line s : list Z :=
  match s_tx s with tx_writes b => [b] | _ => [] end ++ contents (wr (s_chan s)) ++ contents (wr_dev_buffer (s_chan s)).
Definition rx_line s : list Z :=
  contents (rd (s_chan s)) ++ match s_rx s with rx_puts b => [b] | _ => [] end.

Record sys_wf s : Prop := {
  sw_chan : chan_wf (s_chan s);
  sw_mpu : mpu_wf (m_mpu (s_machine s));
  sw_tx : s_tx s = tx_takes → 0 < count (wr (s_chan s));
  sw_rx : s_rx s ≠ rx_polls → count (rd (s_chan s)) < max_size (rd (s_chan s));
}.

Context (Hint : ∀ n m, mpu_wf (m_mpu m) → mpu_wf (m_mpu (device_raise_int n m))).

Lemma intr_ok c m c' m' : do_serial_fifo_cpu_intr device_raise_int c m = (c', m') →
  mpu_wf (m_mpu m) → mpu_wf (m_mpu m') ∧ rd c' = rd c ∧ wr c' = wr c ∧ wr_dev_buffer c' = wr_dev_buffer c.
Proof.
  unfold do_serial_fifo_cpu_intr, raise_when_due.
  destruct (raise_intr (rd_side c)), (raise_intr (wr_side c));
    repeat match goal with |- context [(if ?b then _ else _)] => destruct b end; intros [= <- <-]; auto.
Qed.

Lemma tx_take_ok j c : chan_wf c → 0 < count (wr c) → ∃ b c', tx_take j c = Ok (b, c') ∧ stays c c' ∧
  rd c' = rd c ∧ wr_dev_buffer c' = wr_dev_buffer c ∧ contents (wr c) = b :: contents (wr c').
Proof.
  intros [Hr Hw Hd] Hc. unfold tx_take.
  destruct (ring_get1 (wr c) (u8 j) Hw Hc) as (f & b & r & -> & Hf & Hm & Hq & _). simpl.
  exists b, (with_wr f c). split_and!; [done| |done..]. split; [by split|]. unfold sizes. simpl. by rewrite Hm.
Qed.
Lemma rx_put_ok b c : chan_wf c → count (rd c) < max_size (rd c) → ∃ c', rx_put b c = Ok c' ∧ stays c c' ∧
  wr c' = wr c ∧ wr_dev_buffer c' = wr_dev_buffer c ∧ contents (rd c') = contents (rd c) ++ [b].
Proof.
  intros [Hr Hw Hd] Hc. unfold rx_put.
  destruct (ring_add1 (rd c) b Hr Hc) as (f & r & -> & Hf & Hm & Hq & _). simpl.
  exists (with_rd f c). split_and!; [done| |done..]. split; [by split|]. unfold sizes. simpl. by rewrite Hm.
Qed.

Lemma moved_list ev b : (∀ b, accepted (ev b) = [b]) → accepted (moved ev b) = option_list b.
Proof. destruct b; simpl; auto. Qed.

Lemma serial_step_ok s ev s' : sys_wf s → step s ev s' →
  sys_wf s' ∧ tx_line s ++ accepted ev = taken ev ++ tx_line s' ∧ rx_line s ++ received ev = delivered ev ++ rx_line s'.
Proof.
  intros [Hc Hm Htx Hrx] Hst. pose proof Hc as [Hr Hw Hd].
  inversion Hst; subst; clear Hst; cbn [s_chan s_machine s_tx s_rx] in *; unfold tx_line, rx_line; cbn [s_chan s_tx s_rx].
  - split; [by split|]. by rewrite !app_nil_r.
  - unfold read_status in *. destruct (COMM_FIFO_IS_EMPTY (rd c)).
    all: match goal with A : (_ ≫= _) = Ok _ |- _ => apply bind_ok in A as (m1 & Hp & [= <- <-]) end.
    all: edestruct (put_reg_ok) as (m2 & Hp2 & Hm2); [exact Hm|]; rewrite Hp2 in Hp; injection Hp as <-.
    all: split; [by split|]; by rewrite !app_nil_r.
  - unfold read_level. assert (∀ x, chan_wf (with_rd_side x c)) by (by split).
    repeat match goal with |- context [(if ?b then _ else _)] => destruct b end; simpl; rewrite !app_nil_r; split; try done; by split.
  - destruct (read_command_ok junk c m Hc Hm) as (b1 & c1 & m1 & E & Hm1 & [Hs1 Hz] & Hq & E1 & E2).
    assert (Hz1 : max_size (rd c1) = max_size (rd c)) by (by apply (f_equal (λ p, fst (fst p))) in Hz).
    rewrite E in *. simplify_eq. rewrite E1, E2, Hq.
    split; [split; simpl; [done|done|by rewrite E1|]|].
    + intros Hx. specialize (Hrx Hx). rewrite <- !contents_len in * by (done || by destruct Hs1).
      rewrite Hq, zlen_app in Hrx. pose proof (zlen_nonneg (option_list b)). lia.
    + destruct b; simpl; by rewrite !app_nil_r.
  - unfold write_status in *. edestruct put_reg_ok as (m2 & Hp2 & Hm2); [exact Hm|].
    match goal with A : put_reg _ _ _ _ _ = Ok _ |- _ => rewrite Hp2 in A; injection A as <- end.
    split; [by split|]. by rewrite !app_nil_r.
  - destruct (write_command_ok junk c m Hc Hm) as (b1 & c1 & m1 & E & Hm1 & [Hs1 Hz] & E1 & Hq & Hle).
    rewrite E in *. simplify_eq. rewrite E1. split; [split; simpl; [done|done| |by rewrite E1]|].
    + intros Hx. specialize (Htx Hx). lia.
    + destruct b; simpl; rewrite !app_nil_r; simpl in *; rewrite ?app_nil_r in *; rewrite Hq; by rewrite <- ?app_assoc.
  - edestruct intr_ok as (Hm1 & E1 & E2 & E3); [done|exact Hm|]. rewrite E1, E2, E3, !app_nil_r.
    split; [|done]. destruct Hc. split; simpl; [split|done|..]; by rewrite ?E1, ?E2, ?E3.
  - rewrite !app_nil_r. unfold tx_sees_data. pose proof (wf_count _ Hw).
    destruct (Z.eqb_spec (count (wr c)) 0); simpl; (split; [split; simpl; try done; lia|done]).
  - destruct (tx_take_ok junk c Hc (Htx eq_refl)) as (b1 & c1 & E & [Hs1 Hz] & E1 & E2 & Hq).
    rewrite E in *. simplify_eq. rewrite E1, E2, Hq. simpl. rewrite !app_nil_r. split; [|done].
    split; simpl; [done|done|done|]. by rewrite E1.
  - rewrite !app_nil_r. split; [by split|done].
  - rewrite !app_nil_r. split; [by split|done].
  - rewrite !app_nil_r. unfold rx_sees_room, COMM_FIFO_IS_FULL.
    destruct (Z.leb_spec (max_size (rd c)) (count (rd c))); simpl; (split; [split; simpl; done|by rewrite ?app_nil_r]).
  - rewrite !app_nil_r. split; [split; simpl; try done; intros _; by apply Hrx|done].
  - rewrite !app_nil_r. split; [by split|done].
  - destruct (rx_put_ok b c Hc (Hrx ltac:(done))) as (c1 & E & [Hs1 Hz] & E1 & E2 & Hq).
    rewrite E in *. simplify_eq. rewrite E1, E2, Hq. simpl. rewrite !app_nil_r. split; [|done].
    split; simpl; [done|done| |done]. by rewrite E1.
Qed.

Lemma serial_exec_ok s tr s' : exec s tr s' → sys_wf s →
  sys_wf s' ∧ tx_line s ++ concat (accepted <$> tr) = concat (taken <$> tr) ++ tx_line s' ∧
  rx_line s ++ concat (received <$> tr) = concat (delivered <$> tr) ++ rx_line s'.
Proof.
  induction 1 as [s|s ev s1 tr s2 Hst _ IH]; intros Hwf; [by rewrite !app_nil_r|].
  destruct (serial_step_ok _ _ _ Hwf Hst) as (Hwf1 & Ht1 & Hr1). destruct (IH Hwf1) as (Hwf2 & Ht2 & Hr2).
  split; [done|]. rewrite !fmap_cons. simpl. rewrite <- !app_assoc, <- Ht2, <- Hr2, !app_assoc. by rewrite Ht1, Hr1.
Qed.

Lemma serial_exec_app s tr1 s1 tr2 s2 : exec s tr1 s1 → exec s1 tr2 s2 → exec s (tr1 ++ tr2) s2.
Proof. induction 1; simpl; [done|]. intros Hx. econstructor; eauto. Qed.

(** C16: whatever the interleaving of the emulator thread, the transmit thread and the receive
    thread of a channel, the bytes a guest has moved into the device are, in order, those the
    transmit thread has taken off and those still under way; and the bytes the receive thread
    has read from its pipe are those delivered to the guest and those still under way.  So no
    byte is lost, doubled or reordered on the way. *)
Theorem serial_bytes_in_order s tr s' (Hwf : sys_wf s) (Hempty : tx_line s = [] ∧ rx_line s = []) (Hexec : exec s tr s') :
  concat (accepted <$> tr) = concat (taken <$> tr) ++ tx_line s' ∧
  concat (received <$> tr) = concat (delivered <$> tr) ++ rx_line s'.
Proof.
  destruct Hempty as [Ht Hr]. destruct (serial_exec_ok _ _ _ Hexec Hwf) as (_ & E1 & E2).
  by rewrite <- E1, <- E2, Ht, Hr.
Qed.

(** in every state the three threads of a channel can reach, each of them can go on: the
    next piece of the tick ends without a fault, and the assertions of the two host threads
    hold, that the ring still has a byte after it was seen not empty, and still has room after
    it was seen not full. *)
Theorem serial_threads_never_fail s tr s' (junk : Z) (Hwf : sys_wf s) (Hexec : exec s tr s') :
  let c := s_chan s' in let m := s_machine s' in
  match s_cpu s' with
  | at_guest => is_ok (read_status base ch c m)
  | at_read_command => is_ok (read_command base ch junk c m)
  | at_write_status => is_ok (write_status base ch c m)
  | at_write_command => is_ok (write_command base fd ch junk c m)
  | at_read_level | at_intr => True
  end ∧
  (s_tx s' = tx_takes → is_ok (tx_take junk c)) ∧ (∀ b, s_rx s' = rx_puts b → is_ok (rx_put b c)).
Proof.
  destruct (serial_exec_ok _ _ _ Hexec Hwf) as ([Hc Hm Htx Hrx] & _ & _). simpl.
  assert (Hput : ∀ off v, is_ok (put_reg base off ch v (s_machine s')))
    by (intros off v; destruct (put_reg_ok off v _ Hm) as (? & -> & _); by eexists).
  split_and!.
  - destruct (s_cpu s'); [|done| | | |done].
    + unfold read_status. by destruct (COMM_FIFO_IS_EMPTY _); apply is_ok_bind; [|eauto using is_ok_ret| |eauto using is_ok_ret].
    + destruct (read_command_ok junk _ _ Hc Hm) as (? & ? & ? & -> & _). by eexists.
    + apply Hput.
    + destruct (write_command_ok junk _ _ Hc Hm) as (? & ? & ? & -> & _). by eexists.
  - intros Hx. destruct (tx_take_ok junk _ Hc (Htx Hx)) as (? & ? & -> & _). by eexists.
  - intros b Hx. destruct (rx_put_ok b _ Hc) as (? & -> & _); [apply Hrx; congruence|]. by eexists.
Qed.
End facts.

(** ** Schedules: the steps as a function *)

Inductive turn := CpuGo (junk : Z) | TxGo (writes : bool) | RxGo (read : option Z).

Section schedule.
Context {D T : Type} `{MpuConfig D}.
Context (device_raise_int : Z → machine D T → machine D T) (base fd ch : Z).
Implicit Types (s : serial_sys D T).

Definition cpu_turn (junk : Z) s : outcome (serial_event * serial_sys D T) :=
  let '(mkSys c m p t r) := s in
  match p with
  | at_guest =>
      '(found, m) ← read_status base ch c m;
      Ok (ev_none, mkSys c m (if (found : bool) then at_read_level else at_read_command) t r)
  | at_read_level => Ok (ev_none, mkSys (read_level fd c) m at_read_command t r)
  | at_read_command =>
      '(b, c, m) ← read_command base ch junk c m; Ok (moved ev_deliver b, mkSys c m at_write_status t r)
  | at_write_status => m ← write_status base ch c m; Ok (ev_none, mkSys c m at_write_command t r)
  | at_write_command =>
      '(b, c, m) ← write_command base fd ch junk c m; Ok (moved ev_accept b, mkSys c m at_intr t r)
  | at_intr =>
      let '(c, m) := do_serial_fifo_cpu_intr device_raise_int c m in Ok (ev_none, mkSys c m at_guest t r)
  end.
Definition tx_turn (writes : bool) s : outcome (serial_event * serial_sys D T) :=
  let '(mkSys c m p t r) := s in
  match t with
  | tx_polls => Ok (ev_none, mkSys c m p (if tx_sees_data c then tx_takes else tx_polls) r)
  | tx_takes => '(b, c) ← tx_take 0 c; Ok (ev_none, mkSys c m p (tx_writes b) r)
  | tx_writes b => Ok (if writes then ev_write b else ev_lose b, mkSys c m p tx_polls r)
  end.
Definition rx_turn (read : option Z) s : outcome (serial_event * serial_sys D T) :=
  let '(mkSys c m p t r) := s in
  match r with
  | rx_polls => Ok (ev_none, mkSys c m p t (if rx_sees_room c then rx_reads else rx_polls))
  | rx_reads => Ok match read with
                   | Some b => (ev_read b, mkSys c m p t (rx_puts b))
                   | None => (ev_none, mkSys c m p t rx_polls)
                   end
  | rx_puts b => c ← rx_put b c; Ok (ev_none, mkSys c m p t rx_polls)
  end.
Definition take_turn (u : turn) s : outcome (serial_event * serial_sys D T) :=
  match u with CpuGo junk => cpu_turn junk s | TxGo writes => tx_turn writes s | RxGo read => rx_turn read s end.
Fixpoint schedule (us : list turn) s : outcome (list serial_event * serial_sys D T) :=
  match us with
  | [] => Ok ([], s)
  | u :: us => '(ev, s) ← take_turn u s; '(tr, s) ← schedule us s; Ok (ev :: tr, s)
  end.

Lemma take_turn_sound u s ev s' : take_turn u s = Ok (ev, s') → serial_step device_raise_int base fd ch s ev s'.
Proof.
  destruct s as [c m p t r], u; simpl; [destruct p|destruct t|destruct r]; intros E;
    repeat match goal with A : (_ ≫= _) = Ok _ |- _ => apply bind_ok in A as (? & ? & ?) end;
    repeat match goal with A : prod _ _ |- _ => destruct A end;
    try (destruct (do_serial_fifo_cpu_intr device_raise_int c m) as [c1 m1] eqn:?);
    try destruct read; try destruct writes; simplify_eq/=; by econstructor.
Qed.
Lemma schedule_sound us : ∀ s tr s', schedule us s = Ok (tr, s') → serial_exec device_raise_int base fd ch s tr s'.
Proof.
  induction us as [|u us IH]; intros s tr s'; simpl; [intros [= <- <-]; constructor|].
  intros ([ev s1] & Ht & ([tr1 s2] & Hs & [= <- <-])%bind_ok)%bind_ok. econstructor; eauto using take_turn_sound.
Qed.
End schedule.

(** ** Initialization: each thread serves the channel it was registered for *)

Section init_facts.
Context `{AddrWidth} `{HostFiles} (malloc : Z → Z → option (list Z)) (created : Z → bool).
#[local] Abbreviation threads := (list (MpthrInfoType serial_thread_op)).
Implicit Types (cfg : CpuEmuDevCfgType) (ts : threads) (c : AthrillSerialFifoType).

Definition runs (o : serial_thread_op) (id : Z) ts : Prop :=
  ∃ t, zget ts id = Some t ∧ op t = o ∧ status t = MPTHR_STATUS_RUNNING.
Definition in_use c : Prop := data (rd c) ≠ None ∧ data (wr c) ≠ None.
Definition defaulted c : Prop := in_use c ∧ is_extdev c = 0.
(** The channels that have threads have consecutive ones from [n] to [n']. *)
Fixpoint numbered (n : Z) (cs : list AthrillSerialFifoType) (n' : Z) : Prop :=
  match cs with
  | [] => n = n'
  | c :: cs =>
      (defaulted c ∧ thread (rd_side c) = n ∧ thread (wr_side c) = n + 1 ∧ numbered (n + 2) cs n') ∨
      (¬ defaulted c ∧ (data (rd c) = None ∧ data (wr c) = None ∨ in_use c) ∧ numbered n cs n')
  end.
Definition keeps_threads ts ts' : Prop := mpthread_num ts ≤ mpthread_num ts' ∧
  ∀ id, id < mpthread_num ts → zget ts' id = zget ts id.

Lemma register_thread_ok o ts id ts' : register_thread created o ts = Ok (id, ts') →
  id = mpthread_num ts ∧ mpthread_num ts' = mpthread_num ts + 1 ∧ keeps_threads ts ts' ∧
  ∃ t, zget ts' id = Some t ∧ op t = o.
Proof.
  unfold register_thread, mpthread_register. destruct (_ <=? _); [done|]. intros [= <- <-].
  unfold keeps_threads, mpthread_num. rewrite zlen_app. change (zlen [_]) with 1. split_and!; [done..|lia| |].
  - intros id Hid. by apply zget_app_l.
  - rewrite zget_app_r, Z.sub_diag by lia. by eexists.
Qed.
Lemma start_thread_ok id ts ts' o : start_thread id ts = Ok ts' → (∃ t, zget ts id = Some t ∧ op t = o) →
  mpthread_num ts' = mpthread_num ts ∧ runs o id ts' ∧ ∀ j, j ≠ id → zget ts' j = zget ts j.
Proof.
  unfold start_thread, mpthread_start_proc, on_thread. intros Hs (t & Ht & Ho). rewrite Ht in Hs. injection Hs as <-.
  pose proof (zget_range _ _ _ Ht). unfold mpthread_num. rewrite zlen_zput. split_and!; [done| |].
  - eexists. split; [by apply zget_zput_eq|]. unfold signal. simpl. by destruct (pos t).
  - intros j Hj. apply zget_zput_ne; [lia|done].
Qed.

Lemma thread_start_ok i c cfg ts c' cfg' ts' :
  serial_fifo_thread_start created i c cfg ts = Ok (c', cfg', ts') →
  let n := mpthread_num ts in
  rd c' = rd c ∧ wr c' = wr c ∧ is_extdev c' = is_extdev c ∧ thread (rd_side c') = n ∧ thread (wr_side c') = n + 1 ∧
  mpthread_num ts' = n + 2 ∧ keeps_threads ts ts' ∧ runs rx_thread_ops n ts' ∧ runs tx_thread_ops (n + 1) ts'.
Proof.
  unfold serial_fifo_thread_start. intros ([p cfg1] & _ & A)%bind_ok. apply bind_ok in A as ([q cfg2] & _ & A).
  apply bind_ok in A as ([rx ts1] & Hr1 & A). apply bind_ok in A as ([tx ts2] & Hr2 & A).
  apply bind_ok in A as (ts3 & Hs1 & A). apply bind_ok in A as (ts4 & Hs2 & [= <- <- <-]).
  destruct (register_thread_ok _ _ _ _ Hr1) as (-> & N1 & [_ K1] & T1).
  destruct (register_thread_ok _ _ _ _ Hr2) as (-> & N2 & [_ K2] & T2).
  destruct (start_thread_ok _ _ _ rx_thread_ops Hs1) as (N3 & R3 & K3); [by rewrite K2 by lia|].
  destruct (start_thread_ok _ _ _ tx_thread_ops Hs2) as (N4 & R4 & K4); [rewrite K3 by lia; done|].
  simpl. rewrite N1 in *. split_and!; [done..|lia| | |done].
  - split; [lia|]. intros id Hid. by rewrite K4, K3, K2, K1 by lia.
  - destruct R3 as (t & Ht & R3). exists t. split; [by rewrite K4 by lia|done].
Qed.

Lemma create_ring_data n size f : create_ring malloc n size = Ok f → data f ≠ None.
Proof.
  unfold create_ring, comm_fifo_buffer_create. destruct (malloc n size); [|done]. by intros [= <-].
Qed.

Lemma init_channel_ok i c cfg ts c' cfg' ts' : init_channel malloc created i c cfg ts = Ok (c', cfg', ts') →
  (defaulted c' ∧ thread (rd_side c') = mpthread_num ts ∧ thread (wr_side c') = mpthread_num ts + 1 ∧
   mpthread_num ts' = mpthread_num ts + 2 ∧ keeps_threads ts ts' ∧
   runs rx_thread_ops (thread (rd_side c')) ts' ∧ runs tx_thread_ops (thread (wr_side c')) ts') ∨
  (¬ defaulted c' ∧ (data (rd c') = None ∧ data (wr c') = None ∨ in_use c') ∧ ts' = ts).
Proof.
  unfold init_channel, defaulted, in_use. destruct (cpuemu_get_devcfg_value _ cfg) as [[] [size|]];
    try (intros [= <- <- <-]; right; simpl; split_and!; [by intros [[? ?] ?]|by left|done]).
  intros (r & Hr & A)%bind_ok. apply bind_ok in A as (rb & _ & A). apply bind_ok in A as (w & Hw & A).
  apply bind_ok in A as (wb & _ & A). do 4 apply bind_ok in A as (? & _ & A).
  apply create_ring_data in Hr. apply create_ring_data in Hw.
  match type of A with (if ?b then _ else _) = _ => destruct b eqn:E end.
  - apply thread_start_ok in A as (E1 & E2 & E3 & E4 & E5 & E6 & E7 & E8 & E9). left. rewrite E1, E2, E3, E4, E5. simpl.
    apply Z.eqb_eq in E. rewrite E. by split_and!.
  - injection A as <- <- <-. right. simpl. split_and!; [|by right|done].
    intros [_ Hx]. unfold to_int in Hx. apply Z.eqb_neq in E.
    pose proof (wrap_in_width 32 (optional (serial_key i "_EXDEV_ENABLE") 0 cfg) ltac:(lia)) as Hb. unfold in_width in Hb.
    match type of Hx with (if ?b then _ else _) = _ => destruct b end; lia.
Qed.

Lemma init_channels_ok cs : ∀ i cfg ts cs' cfg' ts', init_channels malloc created i cs cfg ts = Ok (cs', cfg', ts') →
  numbered (mpthread_num ts) cs' (mpthread_num ts') ∧ keeps_threads ts ts' ∧
  ∀ k c, zget cs' k = Some c → defaulted c →
    mpthread_num ts ≤ thread (rd_side c) ∧ runs rx_thread_ops (thread (rd_side c)) ts' ∧ runs tx_thread_ops (thread (wr_side c)) ts'.
Proof.
  induction cs as [|c cs IH]; intros i cfg ts cs' cfg' ts'; simpl.
  { intros [= <- <- <-]. split_and!; [done|done|]. intros k c Hk. by apply zget_range in Hk; unfold zlen in Hk; simpl in Hk; lia. }
  intros ([[c1 cfg1] ts1] & Hc & ([[cs1 cfg2] ts2] & Hcs & [= <- <- <-])%bind_ok)%bind_ok.
  destruct (IH _ _ _ _ _ _ Hcs) as (Hn & [Hle Hk] & Hr).
  assert (Hfirst : ∀ k c, zget (c1 :: cs1) k = Some c → k = 0 ∧ c = c1 ∨ zget cs1 (k - 1) = Some c).
  { intros k x Hx. pose proof (zget_range _ _ _ Hx). destruct (decide (k = 0)) as [->|].
    - injection Hx as <-. by left.
    - right. unfold zget in *. replace (k <? 0) with false in Hx by lia. replace (k - 1 <? 0) with false by lia.
      by replace (Z.to_nat k) with (S (Z.to_nat (k - 1))) in Hx by lia. }
  destruct (init_channel_ok _ _ _ _ _ _ _ Hc) as [(Hd & E1 & E2 & E3 & [E4 E5] & R1 & R2)|(Hd & Hu & ->)].
  - rewrite E3 in *. split_and!; [left; by split_and!|split; [lia|]; intros id Hid; by rewrite Hk, E5 by lia|].
    assert (Hkeep : ∀ o id, id < mpthread_num ts + 2 → runs o id ts1 → runs o id ts2)
      by (intros o id Hid (t & Ht & ?); exists t; by rewrite Hk by lia).
    intros k x [[_ ->]|Hx]%Hfirst Hdx.
    + rewrite E1, E2 in *. split_and!; [done|apply Hkeep; [lia|done]..].
    + destruct (Hr _ _ Hx Hdx) as (? & ? & ?). split_and!; [lia|done..].
  - split_and!; [right; by split_and!|done|]. intros k x [[_ ->]|Hx]%Hfirst Hdx; [done|eauto].
Qed.

Lemma numbered_le cs : ∀ n n', numbered n cs n' → n ≤ n'.
Proof. induction cs as [|c cs IH]; intros n n'; simpl; [lia|]. intros [(_ & _ & _ & ?%IH)|(_ & _ & ?%IH)]; lia. Qed.

Lemma numbered_served cs : ∀ n n' i c ch, numbered n cs n' →
  Forall (λ c, in_use c → is_extdev c = 0 ∨ is_extdev c = 1) cs → zget cs i = Some c → defaulted c →
  n ≤ thread (rd_side c) ∧ thread (wr_side c) = thread (rd_side c) + 1 ∧
  served_channel rd rd_side (thread (rd_side c)) ch cs = ch + i ∧ served_channel wr wr_side (thread (wr_side c)) ch cs = ch + i.
Proof.
  induction cs as [|c0 cs IH]; intros n n' i c ch Hn Hf Hi Hd.
  { apply zget_range in Hi. unfold zlen in Hi. simpl in Hi. lia. }
  apply Forall_cons in Hf as [Hf0 Hf]. cbn [served_channel]. pose proof (zget_range _ _ _ Hi) as Hb.
  destruct (decide (i = 0)) as [->|Hi0].
  - injection Hi as ->. simpl in Hn. destruct Hn as [(_ & E1 & E2 & _)|(? & _)]; [|done].
    destruct Hd as [[Hr Hw] Hx]. rewrite !bool_decide_false, Hx, !Z.eqb_refl by done. simpl. lia.
  - assert (Hi' : zget cs (i - 1) = Some c).
    { unfold zget in *. replace (i <? 0) with false in Hi by lia. replace (i - 1 <? 0) with false by lia.
      by replace (Z.to_nat i) with (S (Z.to_nat (i - 1))) in Hi by lia. }
    simpl in Hn. destruct Hn as [(Hd0 & E1 & E2 & Hn)|(Hd0 & Hu & Hn)];
      destruct (IH _ _ _ _ (ch + 1) Hn Hf Hi' Hd) as (A1 & A2 & A3 & A4); (split; [lia|]); (split; [done|]).
    + rewrite E1, E2, A2, A3. replace (n =? _) with false by lia. replace (n + 1 =? _) with false by lia.
      rewrite !orb_true_r. rewrite A2 in A4. rewrite A4. lia.
    + assert (∀ a b : bool, (bool_decide (data (rd c0) = None) || (is_extdev c0 =? 1) || a) &&
        (bool_decide (data (wr c0) = None) || (is_extdev c0 =? 1) || b) = true) as Hskip.
      { intros a b. destruct Hu as [[-> ->]|Hu]; [done|]. destruct (Hf0 Hu) as [E|E]; [by destruct Hd0|].
        rewrite E. simpl. by rewrite !orb_true_r. }
      specialize (Hskip (negb (thread (rd_side c0) =? thread (rd_side c))) (negb (thread (wr_side c0) =? thread (wr_side c)))).
      apply andb_true_iff in Hskip as [-> ->]. rewrite A3, A4. lia.
Qed.

Lemma start_channels i c : zget (channels serial_start) i = Some c → c = null_serial.
Proof. intros Hi%zget_elem. by apply elem_of_replicate in Hi as [-> _]. Qed.

(** after the start-up of the device, the thread registered for each direction of a channel
    without an external device is running its loop, and the channel it finds to serve is that
    channel, provided no channel in use has a number other than 0 and 1 as the mark of an
    external device. *)
Theorem serial_threads_serve_their_channel cfg ts st' cfg' ts' (i : Z) c
    (Hinit : athrill_device_init_serial_fifo malloc created serial_start cfg ts = Ok (st', cfg', ts'))
    (Hflags : Forall (λ c, in_use c → is_extdev c = 0 ∨ is_extdev c = 1) (channels st'))
    (Hi : zget (channels st') i = Some c) (Huse : in_use c) (Hint : is_extdev c = 0) :
  rx_served (thread (rd_side c)) (channels st') = i ∧ runs rx_thread_ops (thread (rd_side c)) ts' ∧
  tx_served (thread (wr_side c)) (channels st') = i ∧ runs tx_thread_ops (thread (wr_side c)) ts'.
Proof.
  unfold athrill_device_init_serial_fifo in Hinit. destruct (cpuemu_get_devcfg_value_hex _ cfg) as [[] [b|]];
    try (injection Hinit as <- <- <-; apply start_channels in Hi as ->; by destruct Huse).
  apply bind_ok in Hinit as ([[cs cfg1] ts1] & Hcs & [= <- <- <-]). cbn [channels] in Hflags, Hi.
  apply init_channels_ok in Hcs as (Hn & _ & Hr). destruct (Hr _ _ Hi (conj Huse Hint)) as (_ & R1 & R2).
  destruct (numbered_served _ _ _ _ _ 0 Hn Hflags Hi (conj Huse Hint)) as (_ & _ & S1 & S2).
  unfold rx_served, tx_served. cbn [channels]. by rewrite S1, S2.
Qed.
End init_facts.

(** ** A command that is refused *)

(** A byte moved while the device's ring is full is dropped, and the command is cleared as if
    it had been accepted. *)
Lemma move_when_full_drops {D T : Type} `{MpuConfig D} (base fd ch junk b : Z) c (m m1 m2 m3 : machine D T) :
  get_reg base SERIAL_FIFO_WRITE_CMD_OFF ch junk m = Ok (SERIAL_FIFO_WRITE_CMD_MOVE, m1) →
  get_reg base SERIAL_FIFO_WRITE_PTR_OFF ch junk m1 = Ok (b, m2) →
  put_reg base SERIAL_FIFO_WRITE_CMD_OFF ch SERIAL_FIFO_WRITE_CMD_NONE m2 = Ok m3 →
  max_size (wr_dev_buffer c) ≤ count (wr_dev_buffer c) →
  write_command base fd ch junk c m = Ok (None, c, m3).
Proof.
  intros E1 E2 E3 Hfull. unfold write_command. rewrite E1. simpl. rewrite E2. simpl.
  rewrite ring_add1_full by done. simpl. rewrite E3. simpl. by destruct c.
Qed.

(** ** A device with two channels *)

Module SerialDemo.
#[local] Existing Instance MpuDemo.config.
#[local] Instance files : HostFiles := {|
  file_contents := λ _, None; file_exist := λ _, false; getenv := λ _, None; osdep_supports_mapped_memory := true;
  osdep_open_mapped_file := λ _, None; osdep_map_open_file := λ _ _, None; shared_library := λ _, None;
|}.
Definition token (t : string) : TokenValueType := mkTok TOKEN_TYPE_STRING (mkStr (zlen (str_of t)) (str_of t ++ [NUL])).
Definition key (i : Z) (suffix : string) : TokenValueType :=
  mkTok TOKEN_TYPE_STRING (mkStr (zlen (serial_key i suffix)) (serial_key i suffix ++ [NUL])).
Definition number (ty : TokenEnumType) (n : Z) : TokenValueType := mkTok ty (mkStr n []).
Definition channel (i size : Z) : list param :=
  [mkParam (key i "_SIZE") (number TOKEN_TYPE_VALUE_DEC size) (token "") 1;
   mkParam (key i "_RD_INTNO") (number TOKEN_TYPE_VALUE_DEC 23) (token "") 1;
   mkParam (key i "_WR_INTNO") (number TOKEN_TYPE_VALUE_DEC 24) (token "") 1;
   mkParam (key i "_RD_INTOFF") (number TOKEN_TYPE_VALUE_DEC 1) (token "") 1;
   mkParam (key i "_WR_INTOFF") (number TOKEN_TYPE_VALUE_DEC 0) (token "") 1;
   mkParam (key i "_RD_FIFO") (token "rd") (token "") 1;
   mkParam (key i "_WR_FIFO") (token "wr") (token "") 1].
(** Channels 0 and 1, with a mark of an external device for channel 0. *)
Definition cfg (mark : Z) : CpuEmuDevCfgType :=
  let ps := mkParam (token "DEVICE_CONFIG_SERIAL_FILFO_BASE_ADDR") (number TOKEN_TYPE_VALUE_HEX 0x1000) (token "") 1 ::
            mkParam (key 0 "_EXDEV_ENABLE") (number TOKEN_TYPE_VALUE_DEC mark) (token "") 1 ::
            channel 0 2 ++ channel 1 1 in
  mkDevCfg (zlen ps) ps.
Definition malloc (_ size : Z) : option (list Z) := Some (replicate (Z.to_nat size) 0).
Definition init (mark : Z) : outcome (serial_state * CpuEmuDevCfgType * list (MpthrInfoType serial_thread_op)) :=
  athrill_device_init_serial_fifo malloc (λ _, true) serial_start (cfg mark) [].
Definition state (mark : Z) : serial_state :=
  match init mark with Ok (st, _, _) => st | Fault _ => serial_start end.
Definition chan (mark i : Z) : AthrillSerialFifoType := default null_serial (zget (channels (state mark)) i).

Lemma serve_witness :
  ∃ st cfg' ts, init 0 = Ok (st, cfg', ts) ∧
    rx_served (thread (rd_side (chan 0 1))) (channels st) = 1 ∧ tx_served (thread (wr_side (chan 0 1))) (channels st) = 1.
Proof.
  destruct (init 0) as [[[st cfg'] ts]|] eqn:E; [|exfalso; revert E; vm_compute; congruence].
  exists st, cfg', ts. split; [done|]. assert (Hst : st = state 0) by (unfold state; by rewrite E).
  destruct (serial_threads_serve_their_channel malloc (λ _, true) (cfg 0) [] st cfg' ts 1 (chan 0 1)) as (A & _ & B & _).
  - exact E.
  - rewrite Hst. apply Forall_forall. intros c Hc. 
    assert (Hx : forallb (λ c, is_extdev c =? 0) (channels (state 0)) = true) by (vm_compute; reflexivity).
    rewrite forallb_forall in Hx. intros _. left. apply Z.eqb_eq, Hx. by apply list_elem_of_In.
  - rewrite Hst. vm_compute. reflexivity.
  - split; vm_compute; congruence.
  - vm_compute. reflexivity.
  - by split.
Defined.

(** A mark of 2 starts no thread for channel 0, but the search of the threads does not skip
    it: the receive thread of channel 1 serves channel 0. *)
Lemma mark_two_serves_wrong_channel :
  is_extdev (chan 2 0) = 2 ∧ thread (rd_side (chan 2 1)) = 0 ∧ rx_served (thread (rd_side (chan 2 1))) (channels (state 2)) = 0.
Proof. by vm_compute. Qed.

(** ** A guest at channel 1 *)

(** The registers are in RAM. *)
Definition regs : MpuAddressRegionType :=
  mkRegion GLOBAL_MEMORY false MPU_ADDRESS_REGION_PERM_ALL 0x1000 48 0xFFFFFFFF (Some O) default_memory_operation.
Definition mpu (mem : list Z) : mpu_state () := mkMpu [regs] 1 [] {[O := mem]} 1 () (-1) (-1) [].
Definition start (mem : list Z) : machine () () := mkMachine () (mpu mem) bus_log_init 0.

Lemma regs_ok mem : zlen mem = 48 → mpu_wf (mpu mem).
Proof.
  intros Hl. split; simpl.
  - repeat constructor; rewrite ?MpuDemo.space; simpl; try lia; intros _ b [= <-]; exists mem; by rewrite Hl.
  - by repeat constructor.
  - constructor.
  - constructor.
  - intros i j r1 r2 Hne Hi Hj. apply zget_range in Hi, Hj. unfold zlen in *. simpl in *. lia.
  - intros b Hb. by rewrite lookup_singleton_ne by lia.
  - apply Forall_singleton; simpl; intros b [= <-]; lia.
Qed.
Lemma chan_ok : chan_wf (chan 0 1).
Proof.
  assert (Hring : ∀ n, 0 ≤ n < 2 ^ 32 → fifo_wf (mkFifo n 0 0 0 (Some (replicate (Z.to_nat n) 0)))).
  { intros n Hn. destruct (comm_fifo_buffer_create_spec (replicate (Z.to_nat n) 0) n null_fifo) as (f & [= <-] & Hf & _); [|done..].
    unfold zlen. rewrite length_replicate. lia. }
  split; [pose proof (Hring 1) as A|pose proof (Hring 1) as A|pose proof (Hring 16) as A]; apply A; lia.
Qed.

(** The guest has written 65 into the data register and the move command, and then asks for
    the transmission; the pipe delivers 66 in between. *)
Definition mem_move : list Z := <[9%nat := 1]> (<[17%nat := 65]> (replicate 48 0)).
Definition mem_tx : list Z := <[9%nat := 2]> (<[33%nat := 1]> (replicate 48 0)).
Definition s0 (mem : list Z) (c : AthrillSerialFifoType) : serial_sys () () := mkSys c (start mem) at_guest tx_polls rx_polls.
Definition raise (_ : Z) (m : machine () ()) : machine () () := m.
Definition sched (us : list turn) (s : serial_sys () ()) : outcome (list serial_event * serial_sys () ()) :=
  schedule raise 0x1000 4 1 us s.
Definition first_us : list turn :=
  [CpuGo 0; RxGo None; CpuGo 0; CpuGo 0; RxGo (Some 66); CpuGo 0; CpuGo 0].
Definition after_move : serial_sys () () :=
  match sched first_us (s0 mem_move (chan 0 1)) with Ok (_, s) => s | Fault _ => s0 mem_move (chan 0 1) end.
Definition before_tx : serial_sys () () :=
  mkSys (s_chan after_move) (start mem_tx) (s_cpu after_move) (s_tx after_move) (s_rx after_move).
Definition second_us : list turn :=
  [RxGo None; CpuGo 0; CpuGo 0; CpuGo 0; CpuGo 0; TxGo true; CpuGo 0; TxGo true; CpuGo 0; TxGo true; TxGo true].
Definition tr1 : list serial_event := match sched first_us (s0 mem_move (chan 0 1)) with Ok (tr, _) => tr | Fault _ => [] end.
Definition tr2 : list serial_event := match sched second_us before_tx with Ok (tr, _) => tr | Fault _ => [] end.
Definition last : serial_sys () () := match sched second_us before_tx with Ok (_, s) => s | Fault _ => before_tx end.

Lemma demo_exec : serial_exec raise 0x1000 4 1 (s0 mem_move (chan 0 1)) (tr1 ++ ev_none :: tr2) last.
Proof.
  eapply serial_exec_app; [eapply (schedule_sound _ _ _ _ first_us _ _ after_move); vm_compute; reflexivity|].
  apply serial_cons with before_tx; [|eapply (schedule_sound _ _ _ _ second_us _ _ last); vm_compute; reflexivity].
  assert (after_move = mkSys (s_chan after_move) (s_machine after_move) at_guest (s_tx after_move) (s_rx after_move)) as ->
    by (vm_compute; reflexivity).
  apply step_guest. by apply regs_ok.
Qed.
Lemma s0_ok : sys_wf (s0 mem_move (chan 0 1)).
Proof. split; [apply chan_ok|by apply regs_ok|done|done]. Qed.

Lemma order_witness :
  concat (accepted <$> tr1 ++ ev_none :: tr2) = concat (taken <$> tr1 ++ ev_none :: tr2) ++ tx_line last ∧
  concat (received <$> tr1 ++ ev_none :: tr2) = concat (delivered <$> tr1 ++ ev_none :: tr2) ++ rx_line last.
Proof.
  apply (serial_bytes_in_order raise 0x1000 4 1 MpuDemo.external (λ _ _ A, A) (s0 mem_move (chan 0 1)) _ last s0_ok).
  - split; vm_compute; reflexivity.
  - exact demo_exec.
Defined.

Lemma threads_witness : s_tx last = tx_polls ∧ is_ok (read_status 0x1000 1 (s_chan last) (s_machine last)).
Proof.
  destruct (serial_threads_never_fail raise 0x1000 4 1 MpuDemo.external (λ _ _ A, A) (s0 mem_move (chan 0 1))
    (tr1 ++ ev_none :: tr2) last 0 s0_ok demo_exec) as [A _].
  assert (E : s_cpu last = at_guest) by (vm_compute; reflexivity). rewrite E in A.
  split; [vm_compute; reflexivity|exact A].
Defined.

(** The guest follows the example of [serial_fifo.h] with a tick after each byte: it reads the
    status, and when it says that there is room writes the byte and the command.  The last
    component tells whether it has sent the byte. *)
Definition guest_send (b : Z) (c : AthrillSerialFifoType) (m : machine () ()) : outcome (AthrillSerialFifoType * machine () () * bool) :=
  '(st, m) ← get_reg 0x1000 SERIAL_FIFO_WRITE_STATUS_OFF 1 0 m;
  if st =? SERIAL_FIFO_WRITE_STATUS_CAN_DATA then
    m ← put_reg 0x1000 SERIAL_FIFO_WRITE_PTR_OFF 1 b m;
    m ← put_reg 0x1000 SERIAL_FIFO_WRITE_CMD_OFF 1 SERIAL_FIFO_WRITE_CMD_MOVE m;
    '(c, m) ← channel_tick raise 0x1000 4 1 0 c m; Ok (c, m, true)
  else Ok (c, m, false).
Fixpoint guest_sends (bs : list Z) (c : AthrillSerialFifoType) (m : machine () ()) : outcome (AthrillSerialFifoType * list bool) :=
  match bs with
  | [] => Ok (c, [])
  | b :: bs => '(c, m, sent) ← guest_send b c m; '(c, l) ← guest_sends bs c m; Ok (c, sent :: l)
  end.

(** The status is the one before the command of the same tick, so the guest sends a
    seventeenth byte into the ring of sixteen, and it is gone. *)
Lemma documented_protocol_loses_a_byte :
  match guest_sends (seqZ 1 17) (chan 0 1) (start (replicate 48 0)) with
  | Ok (c, sent) => sent = replicate 17 true ∧ contents (wr_dev_buffer c) = seqZ 1 16
  | Fault _ => False
  end.
Proof. vm_compute. by split. Qed.
End SerialDemo.
