(* ===== verification/SystemCall.v ===== *)
(** * System calls of the guest ([src/src/device/peripheral/athrill_syscall_device.c],
      [src/apl/include/athrill_syscall.h])

    The guest hands over the address of an argument structure; the device follows it to host
    memory, selects the call by its number and writes the results back into the structure.
    Buffers, names and addresses inside it are guest addresses, followed by
    [mpu_get_pointer], which checks one byte only.

    What is modelled is the Linux build.  The operating system is class [HostOS] over a state
    of its own; each call returns its result and [errno].  A range that is handed to the
    operating system must lie in its host buffer, as a range that is copied must.  Calls are
    written in a state monad that stops at [exit]; printing is left out. *)

From Stdlib Require Import String Ascii.
From S2P Require Import Prelude CommBuffer Mpu MpuMalloc Loader CpuControl Token DeviceConfig SerialFifo.
From stdpp Require Import gmap.
Open Scope Z_scope.

(** ** Numbers of the interface *)

Inductive AthrillSyscallApiIdType :=
  | SYS_API_ID_NONE | SYS_API_ID_SOCKET | SYS_API_ID_SENSE | SYS_API_ID_BIND | SYS_API_ID_LISTEN
  | SYS_API_ID_ACCEPT | SYS_API_ID_CONNECT | SYS_API_ID_SELECT | SYS_API_ID_SEND | SYS_API_ID_RECV
  | SYS_API_ID_SHUTDOWN | SYS_API_ID_SYSTEM | SYS_API_ID_MALLOC | SYS_API_ID_CALLOC
  | SYS_API_ID_REALLOC | SYS_API_ID_FREE | SYS_API_ID_OPEN_R | SYS_API_ID_READ_R
  | SYS_API_ID_WRITE_R | SYS_API_ID_CLOSE_R | SYS_API_ID_LSEEK_R | SYS_API_ID_SET_VIRTFS_TOP
  | SYS_API_ID_EV3_OPENDIR | SYS_API_ID_EV3_READDIR | SYS_API_ID_EV3_CLOSEDIR
  | SYS_API_ID_EV3_SERIAL_OPEN | SYS_API_ID_EXIT | SYS_API_ID_V850_SET_INTPRI
  | SYS_API_ID_RESET_TIME | SYS_API_ID_SHOW_TIME.
(** In the order of their numbers. *)
Definition api_ids : list AthrillSyscallApiIdType :=
  [SYS_API_ID_NONE; SYS_API_ID_SOCKET; SYS_API_ID_SENSE; SYS_API_ID_BIND; SYS_API_ID_LISTEN;
   SYS_API_ID_ACCEPT; SYS_API_ID_CONNECT; SYS_API_ID_SELECT; SYS_API_ID_SEND; SYS_API_ID_RECV;
   SYS_API_ID_SHUTDOWN; SYS_API_ID_SYSTEM; SYS_API_ID_MALLOC; SYS_API_ID_CALLOC;
   SYS_API_ID_REALLOC; SYS_API_ID_FREE; SYS_API_ID_OPEN_R; SYS_API_ID_READ_R;
   SYS_API_ID_WRITE_R; SYS_API_ID_CLOSE_R; SYS_API_ID_LSEEK_R; SYS_API_ID_SET_VIRTFS_TOP;
   SYS_API_ID_EV3_OPENDIR; SYS_API_ID_EV3_READDIR; SYS_API_ID_EV3_CLOSEDIR;
   SYS_API_ID_EV3_SERIAL_OPEN; SYS_API_ID_EXIT; SYS_API_ID_V850_SET_INTPRI;
   SYS_API_ID_RESET_TIME; SYS_API_ID_SHOW_TIME].
Definition SYS_API_ID_NUM : Z := 30.
Definition SYS_API_ERR_OK : Z := 0.
Definition SYS_API_ERR_AGAIN : Z := -11.
Definition SYS_API_ERR_INVAL : Z := -22.

(** A file descriptor set of the interface has 64 bits, one of the host 1024. *)
Definition SYS_FD_SET_SIZE : Z := 8.
Definition FD_SETSIZE : Z := 1024.

(** The flags of [open], each by the bit the interface gives it. *)
Inductive open_flag :=
  | O_APPEND | O_CREAT | O_EXCL | O_NOCTTY | O_NONBLOCK | O_SYNC | O_TRUNC | O_RDONLY | O_WRONLY | O_RDWR.
Definition open_flags : list open_flag :=
  [O_APPEND; O_CREAT; O_EXCL; O_NOCTTY; O_NONBLOCK; O_SYNC; O_TRUNC; O_RDONLY; O_WRONLY; O_RDWR].
Definition ATHRILL_OPEN_FLAGS (f : open_flag) : Z :=
  match f with
  | O_APPEND => 0x0001 | O_CREAT => 0x0002 | O_EXCL => 0x0004 | O_NOCTTY => 0x0008 | O_NONBLOCK => 0x0010
  | O_SYNC => 0x0020 | O_TRUNC => 0x0040 | O_RDONLY => 0x0080 | O_WRONLY => 0x0100 | O_RDWR => 0x0200
  end.
(** Every flag of [from] that is set in [flags] is set in the result as [to] encodes it. *)
Definition convert_flags (from to : open_flag → Z) (flags : Z) : Z :=
  fold_left (λ acc f, if Z.land flags (from f) =? 0 then acc else Z.lor acc (to f)) open_flags 0.
(** [target]: the encoding of the C library the guest program is compiled with. *)
Definition athrill_newlib_open_r_flag (target : open_flag → Z) (org_flags : Z) : Z :=
  convert_flags target ATHRILL_OPEN_FLAGS org_flags.
Definition athrill_syscall_open_r_flag (host_flag : open_flag → Z) (inf_flags : Z) : Z :=
  convert_flags ATHRILL_OPEN_FLAGS host_flag inf_flags.

Definition std_code (e : Std_ReturnType) : Z :=
  match e with
  | STD_E_OK => 0 | STD_E_DECODE => 1 | STD_E_EXEC => 2 | STD_E_SEGV => 3
  | STD_E_INVALID => 4 | STD_E_NOENT => 5 | STD_E_LIMIT => 6 | STD_E_PERM => 7
  end.

(** ** The operating system *)

Record file_stat := mkStat { st_yday : Z; st_hour : Z; st_min : Z; st_sec : Z; st_size : Z; st_isdir : bool }.

(** Most calls return a result and [errno].  A directory that opens is the list of the names
    it gives and the [errno] its end leaves; [os_drain] reads until nothing is left;
    [os_writable] is [select] for writing on one descriptor, without waiting. *)
Class HostOS (W : Type) := {
  os_flag : open_flag → Z;
  EAGAIN : Z; ESPIPE : Z; EEXIST : Z;
  os_socket : W → Z * Z * W;
  os_writable : Z → W → Z * Z * W;
  os_so_error : Z → W → Z * Z * Z * W;
  os_reuseaddr : Z → W → Z * W;
  os_bind : Z → Z → Z → W → Z * Z * W;
  os_listen : Z → Z → W → Z * Z * W;
  os_accept : Z → W → Z * Z * (Z * Z * Z) * W;
  os_connect : Z → Z → Z → W → Z * Z * W;
  os_select : Z → list Z → list Z → list Z → W → Z * Z * (list Z * list Z * list Z) * W;
  os_send : Z → list Z → W → Z * Z * W;
  os_recv : Z → Z → W → Z * Z * list Z * W;
  os_system : list Z → W → Z * W;
  os_mkdir : list Z → W → Z * Z * W;
  os_open : list Z → Z → Z → W → Z * W;
  os_close : Z → W → Z * W;
  os_read : Z → Z → W → Z * Z * list Z * W;
  os_write : Z → list Z → W → Z * W;
  os_lseek : Z → Z → Z → W → Z * W;
  os_opendir : list Z → W → option (list (list Z) * Z) * W;
  os_closedir : W → Z * W;
  os_stat : list Z → W → option file_stat * W;
  os_mkfifo : list Z → W → W;
  os_drain : Z → W → W;
  os_clock : W → Z * Z * W;
}.

(** ** State and monad *)

(** The stream of a directory table entry: a null pointer, an open stream, a closed one. *)
Inductive dir_stream := DirNull | DirOpen (names : list (list Z)) (errno : Z) | DirClosed.
Record dir_element := mkDirElement { is_used : bool; dir_path : list Z; dir : dir_stream }.
Definition SPECIAL_FD_NUM : Z := 1024.
Definition DIR_TABLE_NUM : Z := 10.
(** A descriptor and the channel of the serial device it stands for. *)
Record ExternalSerialFifoMapType := mkExtMap { file_descriptor : Z; ext_fifo : option Z }.

Section calls.
Context {D W : Type} `{MpuConfig D} `{HostFiles} `{HostOS W}.
(** The build option, and what [malloc] returns for a new region of the guest heap. *)
Context (ENABLE_EXTERNAL_BT_SERIAL : bool) (heap_mem : option (list Z)).

Record sys_state := mkSysState {
  sc_mpu : mpu_state D; sc_heap : MallocRegionType; sc_world : W; sc_cfg : CpuEmuDevCfgType; sc_serial : serial_state;
  virtual_file_top : option (list Z); special_fd_table : list Z; dir_table : list dir_element;
  external_serial_fifo_map : list ExternalSerialFifoMapType; start_time : Z * Z;
}.
Implicit Types (s : sys_state).

Definition set_mpu (m : mpu_state D) s : sys_state :=
  mkSysState m (sc_heap s) (sc_world s) (sc_cfg s) (sc_serial s) (virtual_file_top s) (special_fd_table s)
    (dir_table s) (external_serial_fifo_map s) (start_time s).
Definition set_heap (m : MallocRegionType) s : sys_state :=
  mkSysState (sc_mpu s) m (sc_world s) (sc_cfg s) (sc_serial s) (virtual_file_top s) (special_fd_table s)
    (dir_table s) (external_serial_fifo_map s) (start_time s).
Definition set_world (w : W) s : sys_state :=
  mkSysState (sc_mpu s) (sc_heap s) w (sc_cfg s) (sc_serial s) (virtual_file_top s) (special_fd_table s)
    (dir_table s) (external_serial_fifo_map s) (start_time s).
Definition set_cfg (c : CpuEmuDevCfgType) s : sys_state :=
  mkSysState (sc_mpu s) (sc_heap s) (sc_world s) c (sc_serial s) (virtual_file_top s) (special_fd_table s)
    (dir_table s) (external_serial_fifo_map s) (start_time s).
Definition set_channels (cs : list AthrillSerialFifoType) s : sys_state :=
  mkSysState (sc_mpu s) (sc_heap s) (sc_world s) (sc_cfg s)
    (mkSerialState (serial_base (sc_serial s)) (serial_counter (sc_serial s)) cs) (virtual_file_top s) (special_fd_table s)
    (dir_table s) (external_serial_fifo_map s) (start_time s).
Definition set_top (top : list Z) s : sys_state :=
  mkSysState (sc_mpu s) (sc_heap s) (sc_world s) (sc_cfg s) (sc_serial s) (Some top) (special_fd_table s)
    (dir_table s) (external_serial_fifo_map s) (start_time s).
Definition set_fds (l : list Z) s : sys_state :=
  mkSysState (sc_mpu s) (sc_heap s) (sc_world s) (sc_cfg s) (sc_serial s) (virtual_file_top s) l
    (dir_table s) (external_serial_fifo_map s) (start_time s).
Definition set_dirs (l : list dir_element) s : sys_state :=
  mkSysState (sc_mpu s) (sc_heap s) (sc_world s) (sc_cfg s) (sc_serial s) (virtual_file_top s) (special_fd_table s)
    l (external_serial_fifo_map s) (start_time s).
Definition set_ext_map (l : list ExternalSerialFifoMapType) s : sys_state :=
  mkSysState (sc_mpu s) (sc_heap s) (sc_world s) (sc_cfg s) (sc_serial s) (virtual_file_top s) (special_fd_table s)
    (dir_table s) l (start_time s).
Definition set_start_time (t : Z * Z) s : sys_state :=
  mkSysState (sc_mpu s) (sc_heap s) (sc_world s) (sc_cfg s) (sc_serial s) (virtual_file_top s) (special_fd_table s)
    (dir_table s) (external_serial_fifo_map s) t.

(** [inr status]: the process has exited. *)
Definition syscall (A : Type) : Type := sys_state → outcome ((A + Z) * sys_state).
#[global] Instance syscall_ret : MRet syscall := λ A a s, Ok (inl a, s).
#[global] Instance syscall_bind : MBind syscall := λ A B k m s,
  match m s with
  | Ok (inl a, s) => k a s
  | Ok (inr n, s) => Ok (inr n, s)
  | Fault f => Fault f
  end.
Definition get {A} (f : sys_state → A) : syscall A := λ s, Ok (inl (f s), s).
Definition modify (f : sys_state → sys_state) : syscall () := λ s, Ok (inl (), f s).
Definition lift {A} (m : outcome A) : syscall A := λ s, a ← m; Ok (inl a, s).
Definition exit_process (status : Z) : syscall () := λ s, Ok (inr status, s).
(** A call of the operating system. *)
Definition os {A} (f : W → A * W) : syscall A := λ s, let '(a, w) := f (sc_world s) in Ok (inl a, set_world w s).

(** ** Guest memory through host pointers *)

#[local] Abbreviation ptr := (nat * Z)%type.
Implicit Types (arg p : ptr).

Definition get_pointer (addr : Z) : syscall (Std_ReturnType * option ptr) := λ s,
  '(err, p, m) ← mpu_get_pointer 0 (uaddr addr) (sc_mpu s); Ok (inl (err, p), set_mpu m s).
(** The pointer of a call that asserts that there is one. *)
Definition need_pointer (addr : Z) : syscall ptr :=
  '(err, p) ← get_pointer addr; lift (_ ← assert_c (std_ok err); deref_ptr p).
Definition host_bytes p (n : Z) : syscall (list Z) := λ s,
  blk ← oob (host (sc_mpu s) !! p.1); bs ← oob (bytes_at blk p.2 n); Ok (inl bs, s).
Definition host_put p (bs : list Z) : syscall () := λ s, m ← host_write (sc_mpu s) p bs; Ok (inl (), set_mpu m s).
(** All of the buffer from the pointer on. *)
Definition host_rest p : syscall (list Z) := λ s,
  blk ← oob (host (sc_mpu s) !! p.1); bs ← oob (bytes_at blk p.2 (zlen blk - p.2)); Ok (inl bs, s).
Definition host_cstring p : syscall (list Z) :=
  bs ← host_rest p; if existsb (Z.eqb NUL) bs then mret (cstring bs) else lift (Fault OutOfBounds).
(** Copying a string into an array of [n] characters. *)
Definition fits_buffer (n : Z) (str : list Z) : syscall () :=
  if zlen str <? n then mret () else lift (Fault OutOfBounds).

(** The argument structure: words of its union, the result and the error. *)
Definition field arg (off n : Z) : syscall Z := bs ← host_bytes (arg.1, arg.2 + off) n; mret (le_val bs).
Definition put_field arg (off n v : Z) : syscall () := host_put (arg.1, arg.2 + off) (le_bytes (Z.to_nat n) v).
Definition api_id arg : syscall Z := field arg 0 4.
Definition body arg (k : Z) : syscall Z := field arg (12 + 4 * k) 4.
Definition body_int arg (k : Z) : syscall Z := v ← body arg k; mret (to_int v).
Definition put_body arg (k v : Z) : syscall () := put_field arg (12 + 4 * k) 4 v.
Definition put_ret arg (v : Z) : syscall () := put_field arg 4 4 v.
Definition put_errno arg (v : Z) : syscall () := put_field arg 8 4 v.
Definition ret_value arg : syscall Z := v ← field arg 4 4; mret (to_int v).
(** The result of a call that returns 0 or -1. *)
Definition put_result arg (r : Z * Z) : syscall () := put_ret arg (if r.1 <? 0 then - r.2 else SYS_API_ERR_OK).
(** A buffer the guest names, if its address is mapped; else the call returns at once. *)
Definition with_pointer (addr : Z) (k : ptr → syscall ()) : syscall () :=
  '(err, p) ← get_pointer addr; if std_ok err then p ← lift (deref_ptr p); k p else mret ().

(** ** Sockets *)

Definition athrill_syscall_none arg : syscall () := mret ().
Definition athrill_syscall_socket arg : syscall () :=
  r ← os os_socket; if r.1 <? 0 then mret () else put_ret arg r.1.

(** [FD_SET] on a set of the host. *)
Definition in_fd_set (fd : Z) : syscall () := lift (if (0 <=? fd) && (fd <? FD_SETSIZE) then Ok () else Fault OutOfBounds).
Definition athrill_syscall_sense arg : syscall () :=
  fd ← body_int arg 0; in_fd_set fd;;
  api ← body arg 1;
  if negb (api =? 6) then mret ()
  else
    r ← os (os_writable fd);
    if r.1 <? 0 then put_ret arg (- r.2)
    else if r.1 =? 0 then put_ret arg (- EAGAIN)
    else
      '(r, err, val) ← os (os_so_error fd);
      if r <? 0 then put_ret arg (- err) else put_ret arg (- val).

(** [struct sys_sockaddr_in]: family, port, address. *)
Definition sockaddr p : syscall (Z * Z) :=
  addr ← host_bytes (p.1, p.2 + 4) 4; port ← host_bytes (p.1, p.2 + 2) 2; mret (le_val addr, le_val port).
Definition athrill_syscall_bind arg : syscall () :=
  a ← body arg 1;
  with_pointer a (λ p,
    fd ← body_int arg 0;
    err ← os (os_reuseaddr fd);
    if negb (err =? 0) then mret ()
    else '(addr, port) ← sockaddr p; r ← os (os_bind fd addr port); put_result arg r).
Definition athrill_syscall_listen arg : syscall () :=
  fd ← body_int arg 0; backlog ← body_int arg 1; r ← os (os_listen fd backlog); put_result arg r.
(** The bytes of a number in the opposite order. *)
Definition swap_bytes (n v : Z) : Z := le_val (reverse (le_bytes (Z.to_nat n) v)).
Definition athrill_syscall_accept arg : syscall () :=
  a ← body arg 1;
  with_pointer a (λ p,
    l ← body arg 2;
    with_pointer l (λ lenp,
      fd ← body_int arg 0;
      '(ret, err, (addr, port, len)) ← os (os_accept fd);
      if ret <? 0 then put_ret arg (- err)
      else
        put_field p 0 1 2;; put_field p 2 2 (swap_bytes 2 port);; put_field p 4 4 (swap_bytes 4 addr);;
        put_field lenp 0 4 len;; put_ret arg ret)).
Definition athrill_syscall_connect arg : syscall () :=
  a ← body arg 1;
  with_pointer a (λ p,
    '(addr, port) ← sockaddr p; fd ← body_int arg 0;
    r ← os (os_connect fd addr port); put_result arg r).

(** The bits of a byte; [num] is 8, the smaller of both sets. *)
Fixpoint count_bits (n : nat) (j b : Z) : Z :=
  match n with
  | O => 0
  | S n => (if Z.land b (Z.shiftl 1 j) =? 0 then 0 else 1) + count_bits n (j + 1) b
  end.
Definition fd_set_copy (src : option (list Z)) : list Z * Z :=
  match src with
  | None => ([], 0)
  | Some bs => (take 8 bs, foldr (λ b n, count_bits 8 0 b + n) 0 (take 8 bs))
  end.
(** A set the guest names: the outer [None] ends the call, the inner is a null pointer. *)
Definition guest_set (addr : Z) : syscall (option (option ptr)) :=
  if addr =? 0 then mret (Some None)
  else '(err, p) ← get_pointer addr; if std_ok err then p ← lift (deref_ptr p); mret (Some (Some p)) else mret None.
Definition read_set (p : option ptr) : syscall (list Z) :=
  match p with Some p => host_bytes p SYS_FD_SET_SIZE | None => mret (replicate 8 0) end.
Definition clear_set (p : option ptr) : syscall () :=
  match p with Some p => host_put p (replicate 8 0) | None => mret () end.
Definition write_set (p : option ptr) (result : list Z) : syscall Z :=
  match p with
  | Some p => let '(bs, n) := fd_set_copy (Some result) in host_put p bs;; mret n
  | None => mret 0
  end.
Definition athrill_syscall_select arg : syscall () :=
  a ← body arg 1; rp ← guest_set a;
  match rp with
  | None => mret ()
  | Some rp =>
      a ← body arg 2; wp ← guest_set a;
      match wp with
      | None => mret ()
      | Some wp =>
          a ← body arg 3; ep ← guest_set a;
          match ep with
          | None => mret ()
          | Some ep =>
              r ← read_set rp; w ← read_set wp; e ← read_set ep;
              '(ret, err, (r, w, e)) ← os (os_select (SYS_FD_SET_SIZE * 8) r w e);
              if ret <? 0 then put_ret arg (- err)
              else
                clear_set rp;; clear_set wp;; clear_set ep;;
                n ← write_set rp r; n' ← write_set wp w; n'' ← write_set ep e; put_ret arg (n + n' + n'')
          end
      end
  end.

(** The result of the operating system is written last, whether it failed or not. *)
Definition athrill_syscall_send arg : syscall () :=
  a ← body arg 1;
  with_pointer a (λ p,
    fd ← body_int arg 0; len ← body arg 2; bs ← host_bytes p len;
    r ← os (os_send fd bs);
    (if r.1 <? 0 then put_ret arg (- r.2) else mret ());; put_ret arg r.1).
Definition athrill_syscall_recv arg : syscall () :=
  a ← body arg 1;
  with_pointer a (λ p,
    fd ← body_int arg 0; len ← body arg 2; _ ← host_bytes p len;
    '(ret, err, bs) ← os (os_recv fd len);
    host_put p (take (Z.to_nat len) bs);;
    (if ret <? 0 then put_ret arg (- err) else mret ());; put_ret arg ret).
Definition athrill_syscall_shutdown arg : syscall () :=
  put_ret arg SYS_API_ERR_OK;; fd ← body_int arg 0; _ ← os (os_close fd); mret ().
(** [id] in decimal. *)
Definition athrill_syscall_system arg : syscall () :=
  id ← body arg 0;
  r ← os (os_system (str_of "athrill_extfunc.sh " ++ print_dec id));
  if r <? 0 then mret () else put_ret arg SYS_API_ERR_OK.

(** ** The heap *)

Definition guest_malloc (size : Z) : syscall Z := λ s,
  '(a, m, h) ← mpu_malloc_get_memory size heap_mem (sc_mpu s) (sc_heap s); Ok (inl a, set_heap h (set_mpu m s)).
Definition guest_free (addr : Z) : syscall () := λ s,
  h ← mpu_malloc_rel_memory addr (sc_mpu s) (sc_heap s); Ok (inl (), set_heap h s).
Definition guest_block_size (addr : Z) : syscall Z := λ s,
  n ← mpu_malloc_ref_size addr (sc_mpu s) (sc_heap s); Ok (inl n, s).

Definition athrill_syscall_malloc arg : syscall () :=
  size ← body arg 0;
  if size =? 0 then put_body arg 1 0 else a ← guest_malloc size; put_body arg 1 a.
Definition athrill_syscall_calloc arg : syscall () :=
  nmemb ← body arg 0; size ← body arg 1;
  if (size =? 0) || (nmemb =? 0) then put_body arg 2 0
  else
    let size := u32 (size * nmemb) in
    a ← guest_malloc size; put_body arg 2 a;;
    if a =? 0 then mret () else p ← need_pointer a; host_put p (replicate (Z.to_nat size) 0).
(** As many bytes are copied as the old block has. *)
Definition athrill_syscall_realloc arg : syscall () :=
  size ← body arg 1;
  a ← guest_malloc size; put_body arg 2 a;;
  if a =? 0 then mret ()
  else
    old ← body arg 0;
    src ← need_pointer old; dest ← need_pointer a;
    n ← guest_block_size old;
    bs ← host_bytes src n; host_put dest bs;;
    guest_free old.
Definition athrill_syscall_free arg : syscall () := a ← body arg 0; guest_free a.

(** ** Files *)

Definition create_directory (dir : list Z) : syscall () := _ ← os (os_mkdir dir); mret ().
(** The name in the virtual file system, copied into an array of [n] characters. *)
Definition getVirtualFileName (n : Z) (file_name : list Z) : syscall (list Z) :=
  t ← get virtual_file_top;
  top ← match t with
        | Some top => mret top
        | None =>
            c ← get sc_cfg;
            '(_, v, c) ← lift (cpuemu_get_devcfg_string (str_of "DEVICE_CONFIG_VIRTFS_TOP") c);
            let top := default (str_of "_ev3rtfs") v in
            modify (set_cfg c);; modify (set_top top);; create_directory top;; mret top
        end;
  let path := top ++ str_of "/" ++ file_name in fits_buffer n path;; mret path.

Definition get_correspond_fd (fd : Z) : syscall Z :=
  lift (assert_c ((0 <=? fd) && (fd <? SPECIAL_FD_NUM)));;
  l ← get special_fd_table; v ← lift (oob (zget l fd)); mret (if v =? 0 then fd else v).
Definition set_correspond_fd (fd corresponding : Z) : syscall () :=
  lift (assert_c ((0 <=? fd) && (fd <? SPECIAL_FD_NUM)));;
  l ← get special_fd_table; l ← lift (oob (zset l fd corresponding)); modify (set_fds l).
Definition is_stream_fd (fd : Z) : syscall bool := v ← get_correspond_fd fd; mret (negb (v =? fd)).

Definition get_serial_fifo_from_fd (fd : Z) : syscall (option Z) :=
  if ENABLE_EXTERNAL_BT_SERIAL then
    m ← get external_serial_fifo_map;
    mret match find (λ e, fd =? file_descriptor e) m with Some e => ext_fifo e | None => None end
  else mret None.
Definition get_channel (ch : Z) : syscall AthrillSerialFifoType :=
  st ← get sc_serial; lift (oob (zget (channels st) ch)).
Definition put_channel (ch : Z) (c : AthrillSerialFifoType) : syscall () :=
  st ← get sc_serial; modify (set_channels (zput (channels st) ch c)).

Definition athrill_syscall_open_r arg : syscall () :=
  mode ← body_int arg 2; fl ← body arg 1; a ← body arg 0;
  p ← need_pointer a; name ← host_cstring p; path ← getVirtualFileName 255 name;
  fd ← os (os_open path (athrill_syscall_open_r_flag os_flag fl) mode); put_ret arg fd.

(** A read from a channel takes what the ring holds and reports failure when that is less
    than was asked for. *)
Definition read_channel arg p (size ch : Z) : syscall () :=
  put_ret arg 0;; put_errno arg 0;;
  c ← get_channel ch; out ← host_rest p;
  '(err, f, out, res) ← lift (comm_fifo_buffer_get (rd c) out size);
  put_channel ch (with_rd f c);; host_put p out;; put_ret arg res;;
  if bool_decide (err = STD_E_NOENT) then put_ret arg (-1);; put_errno arg 0 else mret ().
Definition read_file arg p (fd size : Z) : syscall () :=
  is_stream ← is_stream_fd fd;
  _ ← host_bytes p size;
  '(ret, err, bs) ← os (os_read fd size);
  host_put p (take (Z.to_nat size) bs);;
  let '(ret, err) := if (ret =? 0) && is_stream then (-1, 0) else (ret, err) in
  put_ret arg ret;; put_errno arg 0;;
  if (ret =? -1) && ((err =? EAGAIN) || (err =? ESPIPE)) then put_errno arg SYS_API_ERR_AGAIN else mret ().
Definition athrill_syscall_read_r arg : syscall () :=
  fd ← body_int arg 0; size ← body arg 2; a ← body arg 1;
  '(err, p) ← get_pointer a;
  if negb (std_ok err) then put_ret arg (std_code err)
  else
    p ← lift (deref_ptr p); ch ← get_serial_fifo_from_fd fd;
    match ch with Some ch => read_channel arg p size ch | None => read_file arg p fd size end.

Definition write_channel arg p (size ch : Z) : syscall () :=
  put_ret arg 0;;
  c ← get_channel ch; bs ← host_rest p;
  '(_, f, res) ← lift (comm_fifo_buffer_add (wr c) bs size);
  put_channel ch (with_wr f c);; put_ret arg res.
Definition athrill_syscall_write_r arg : syscall () :=
  fd ← body_int arg 0; size ← body arg 2; a ← body arg 1;
  '(err, p) ← get_pointer a;
  if negb (std_ok err) then put_ret arg (std_code err)
  else
    p ← lift (deref_ptr p); ch ← get_serial_fifo_from_fd fd;
    match ch with
    | Some ch => write_channel arg p size ch
    | None => fd ← get_correspond_fd fd; bs ← host_bytes p size; r ← os (os_write fd bs); put_ret arg r
    end.
Definition athrill_syscall_close_r arg : syscall () :=
  fd ← body_int arg 0;
  other ← get_correspond_fd fd;
  (if other =? fd then mret () else _ ← os (os_close other); set_correspond_fd fd 0);;
  r ← os (os_close fd); put_ret arg r.
(** The offset of the interface has no sign. *)
Definition athrill_syscall_lseek_r arg : syscall () :=
  fd ← body_int arg 0; offset ← body arg 1; whence ← body_int arg 2;
  r ← os (os_lseek fd offset whence); put_ret arg r.

Definition athrill_syscall_set_virtfs_top arg : syscall () :=
  put_ret arg (-1);;
  t ← get virtual_file_top;
  match t with
  | Some _ => mret ()
  | None =>
      a ← body arg 0; p ← need_pointer a; top ← host_cstring p;
      r ← os (os_mkdir top);
      if (r.1 =? -1) && negb (r.2 =? EEXIST) then mret () else modify (set_top top);; put_ret arg 0
  end.

(** ** Directories *)

Definition get_free_dir : syscall (option Z) :=
  l ← get dir_table;
  match find_index 0 l (λ e, negb (is_used e)) with
  | Some (i, e) => modify (set_dirs (zput l i (mkDirElement true (dir_path e) (dir e))));; mret (Some i)
  | None => mret None
  end.
(** The entry of an identifier, which is its index plus one. *)
Definition GETDIR (dirid : Z) : syscall (option (Z * dir_element)) :=
  let i := dirid - 1 in
  if (0 <=? i) && (i <? DIR_TABLE_NUM) then l ← get dir_table; e ← lift (oob (zget l i)); mret (Some (i, e)) else mret None.
Definition put_dir (i : Z) (e : dir_element) : syscall () := l ← get dir_table; modify (set_dirs (zput l i e)).

Definition athrill_syscall_ev3_opendir arg : syscall () :=
  i ← get_free_dir;
  match i with
  | None => put_ret arg (-34)
  | Some i =>
      a ← body arg 0; p ← need_pointer a; name ← host_cstring p; path ← getVirtualFileName 256 name;
      d ← os (os_opendir path);
      l ← get dir_table; e ← lift (oob (zget l i));
      match d with
      | None => put_dir i (mkDirElement false (dir_path e) DirNull);; put_body arg 1 (-17)
      | Some (names, err) => put_dir i (mkDirElement true path (DirOpen names err));; put_ret arg 0;; put_body arg 1 (i + 1)
      end
  end.

Definition dot (name : list Z) : bool := bool_decide (name = str_of ".") || bool_decide (name = str_of "..").
(** The next name that is not "." or "..", and what is left. *)
Fixpoint next_name (names : list (list Z)) : option (list Z) * list (list Z) :=
  match names with
  | [] => (None, [])
  | n :: names => if dot n then next_name names else (Some n, names)
  end.
Definition athrill_syscall_ev3_readdir arg : syscall () :=
  dirid ← body_int arg 0; de ← GETDIR dirid;
  match de with
  | None => put_ret arg (-18)
  | Some (i, e) =>
      '(names, err) ← lift match dir e with
        | DirOpen names err => Ok (names, err) | DirNull => Fault NullDeref | DirClosed => Fault UseAfterFree end;
      let '(n, names) := next_name names in
      put_dir i (mkDirElement (is_used e) (dir_path e) (DirOpen names err));;
      match n with
      | None => put_ret arg (if err =? 0 then -41 else -18)
      | Some n =>
          a ← body arg 4; p ← need_pointer a; host_put p (n ++ [NUL]);;
          let path := dir_path e ++ str_of "/" ++ n in
          fits_buffer 255 path;;
          st ← os (os_stat path);
          match st with
          | None => put_ret arg (-5)
          | Some st =>
              put_field arg 20 2 (st_yday st);;
              put_field arg 22 2 (st_hour st * 60 * 60 + st_min st * 60 + st_sec st);;
              put_field arg 16 4 (st_size st);;
              put_field arg 24 1 (if st_isdir st then 1 else 0);;
              put_ret arg 0
          end
      end
  end.
(** The entry keeps its stream after it is closed. *)
Definition athrill_syscall_ev3_closedir arg : syscall () :=
  dirid ← body_int arg 0; de ← GETDIR dirid;
  match de with
  | None => put_ret arg (-18)
  | Some (i, e) =>
      lift match dir e with DirOpen _ _ => Ok () | DirNull => Fault NullDeref | DirClosed => Fault UseAfterFree end;;
      r ← os os_closedir;
      if r =? 0 then put_dir i (mkDirElement false (dir_path e) DirClosed);; put_ret arg 0 else put_ret arg (-18)
  end.

(** ** Serial ports *)

Definition SYS_SERIAL_DEFAULT : Z := 0.
Definition SYS_SERIAL_UART : Z := 1.
Definition SYS_SERIAL_BT : Z := 2.

(** A pipe that exists is emptied first. *)
Definition create_pipe (path : list Z) (is_read : bool) : syscall Z :=
  st ← os (os_stat path);
  match st with
  | Some _ =>
      fd ← os (os_open path (Z.lor (os_flag O_RDONLY) (os_flag O_NONBLOCK)) 0);
      os (λ w, ((), os_drain fd w));; _ ← os (os_close fd); mret ()
  | None => os (λ w, ((), os_mkfifo path w))
  end;;
  os (os_open path (Z.lor (os_flag (if is_read then O_RDONLY else O_RDWR)) (os_flag O_NONBLOCK)) 0).
Definition create_pipe_pair (path : list Z) : syscall Z :=
  let path_out := path ++ str_of "_out" in let path_in := path ++ str_of "_in" in
  fits_buffer 255 path_out;; fits_buffer 255 path_in;;
  fd_out ← create_pipe path_out false; fd_in ← create_pipe path_in true;
  set_correspond_fd fd_in fd_out;; mret fd_in.

Definition get_serial_fifo (id : Z) : syscall (option Z) :=
  c ← get sc_cfg; st ← get sc_serial;
  mret match cpuemu_get_devcfg_value (str_of (if id =? 0 then "DEVICE_CONFIG_EV3_CH0_SERIAL_ID" else "DEVICE_CONFIG_EV3_CH1_SERIAL_ID")) c with
       | (STD_E_OK, Some scid) => athrill_device_get_serial_fifo_buffer (serial_base st) (u32 scid) (channels st)
       | _ => None
       end.
Definition serial_pipes (key base : string) : syscall Z :=
  c ← get sc_cfg;
  '(_, v, c) ← lift (cpuemu_get_devcfg_string (str_of key) c);
  modify (set_cfg c);; create_pipe_pair (default (str_of base) v).
Definition open_port (port : Z) : syscall Z :=
  if port =? SYS_SERIAL_DEFAULT then mret 0
  else if port =? SYS_SERIAL_UART then serial_pipes "DEVICE_CONFIG_UART_BASENAME" "__ev3rt_uart"
  else if port =? SYS_SERIAL_BT then serial_pipes "DEVICE_CONFIG_BT_BASENAME" "__ev3rt_bt"
  else mret (-1).
Definition athrill_syscall_ev3_serial_open arg : syscall () :=
  port ← body_int arg 0;
  if negb ENABLE_EXTERNAL_BT_SERIAL then fd ← open_port port; put_ret arg fd
  else
    let id := if port =? SYS_SERIAL_BT then 1 else 0 in
    f ← get_serial_fifo id;
    match f with
    | None => put_ret arg (-1)
    | Some f =>
        m ← get external_serial_fifo_map; e ← lift (oob (zget m id));
        if 0 <? file_descriptor e then put_ret arg (file_descriptor e)
        else
          fd ← open_port port;
          (if 0 <? fd then m ← get external_serial_fifo_map; modify (set_ext_map (zput m id (mkExtMap fd (Some f)))) else mret ());;
          put_ret arg fd
    end.

(** ** The rest *)

Definition athrill_syscall_exit arg : syscall () := status ← body_int arg 0; exit_process status.

(** A pointer whose address is not mapped is never set. *)
Definition table_pointer (addr : Z) : syscall ptr := '(_, p) ← get_pointer addr; lift (deref_ptr p).
Definition table_entry p (i : Z) : syscall Z := bs ← host_bytes (p.1, p.2 + 2 * i) 2; mret (le_val bs).
Fixpoint set_intpri (n : nat) (i : Z) (imr disint : ptr) : syscall () :=
  match n with
  | O => mret ()
  | S n =>
      a ← table_entry imr i; b ← table_entry disint i;
      (λ s, '(_, m) ← (if i =? 7 then mpu_put_data8 0 (0xFFFFF100 + 2 * i) (u8 (Z.lor a b)) (sc_mpu s)
                       else mpu_put_data16 0 (0xFFFFF100 + 2 * i) (Z.lor a b) (sc_mpu s)); Ok (inl (), set_mpu m s));;
      set_intpri n (i + 1) imr disint
  end.
Definition athrill_syscall_v850_set_intpri arg : syscall () :=
  a ← body arg 0; imr ← table_pointer a;
  b ← body arg 1; disint ← table_pointer b;
  set_intpri 8 0 imr disint.

(** The time is read; the milliseconds since the last reset are printed. *)
Definition athrill_syscall_reset_time arg : syscall () := t ← os os_clock; modify (set_start_time t).
Definition spent_msec (start cur : Z * Z) : Z :=
  u32 (if start.2 <=? cur.2 then (cur.1 - start.1) * 1000 + (cur.2 - start.2) / 1000000
       else (cur.1 - start.1 - 1) * 1000 + (1000000000 + cur.2 - start.2) / 1000000).
Definition athrill_syscall_show_time arg : syscall () := _ ← os os_clock; mret ().

(** ** The call *)

Definition syscall_table (api : AthrillSyscallApiIdType) : ptr → syscall () :=
  match api with
  | SYS_API_ID_NONE => athrill_syscall_none
  | SYS_API_ID_SOCKET => athrill_syscall_socket
  | SYS_API_ID_SENSE => athrill_syscall_sense
  | SYS_API_ID_BIND => athrill_syscall_bind
  | SYS_API_ID_LISTEN => athrill_syscall_listen
  | SYS_API_ID_ACCEPT => athrill_syscall_accept
  | SYS_API_ID_CONNECT => athrill_syscall_connect
  | SYS_API_ID_SELECT => athrill_syscall_select
  | SYS_API_ID_SEND => athrill_syscall_send
  | SYS_API_ID_RECV => athrill_syscall_recv
  | SYS_API_ID_SHUTDOWN => athrill_syscall_shutdown
  | SYS_API_ID_SYSTEM => athrill_syscall_system
  | SYS_API_ID_MALLOC => athrill_syscall_malloc
  | SYS_API_ID_CALLOC => athrill_syscall_calloc
  | SYS_API_ID_REALLOC => athrill_syscall_realloc
  | SYS_API_ID_FREE => athrill_syscall_free
  | SYS_API_ID_OPEN_R => athrill_syscall_open_r
  | SYS_API_ID_READ_R => athrill_syscall_read_r
  | SYS_API_ID_WRITE_R => athrill_syscall_write_r
  | SYS_API_ID_CLOSE_R => athrill_syscall_close_r
  | SYS_API_ID_LSEEK_R => athrill_syscall_lseek_r
  | SYS_API_ID_SET_VIRTFS_TOP => athrill_syscall_set_virtfs_top
  | SYS_API_ID_EV3_OPENDIR => athrill_syscall_ev3_opendir
  | SYS_API_ID_EV3_READDIR => athrill_syscall_ev3_readdir
  | SYS_API_ID_EV3_CLOSEDIR => athrill_syscall_ev3_closedir
  | SYS_API_ID_EV3_SERIAL_OPEN => athrill_syscall_ev3_serial_open
  | SYS_API_ID_EXIT => athrill_syscall_exit
  | SYS_API_ID_V850_SET_INTPRI => athrill_syscall_v850_set_intpri
  | SYS_API_ID_RESET_TIME => athrill_syscall_reset_time
  | SYS_API_ID_SHOW_TIME => athrill_syscall_show_time
  end.
Definition athrill_syscall_device (addr : Z) : syscall () :=
  with_pointer addr (λ arg,
    id ← api_id arg;
    match zget api_ids id with Some api => syscall_table api arg | None => mret () end).
End calls.
Arguments sys_state : clear implicits.
Arguments syscall D W A : clear implicits.
