(* ===== verification/SystemCallFacts.v ===== *)
(** * Correctness of the system calls

    No call of the guest changes the layout of guest memory or the size of a host buffer; the
    heap calls hand out blocks of the heap; flags of [open] pass the interface unchanged; what
    a call on a serial channel transfers.  Then the faults found in the calls. *)

From Stdlib Require Import String Ascii.
From S2P Require Import Prelude CommBuffer Mpu MpuFacts MpuMalloc MpuMallocFacts Loader Token DeviceConfig SerialFifo SystemCall.
From stdpp Require Import gmap.
Open Scope Z_scope.

(** ** The flags of [open] *)

Definition flag_bit (f : open_flag) : Z :=
  match f with
  | O_APPEND => 0 | O_CREAT => 1 | O_EXCL => 2 | O_NOCTTY => 3 | O_NONBLOCK => 4
  | O_SYNC => 5 | O_TRUNC => 6 | O_RDONLY => 7 | O_WRONLY => 8 | O_RDWR => 9
  end.
Lemma flag_is_bit f : ATHRILL_OPEN_FLAGS f = 2 ^ flag_bit f ∧ 0 ≤ flag_bit f.
Proof. by destruct f. Qed.
Lemma land_bit x k : 0 ≤ k → (Z.land x (2 ^ k) =? 0) = negb (Z.testbit x k).
Proof.
  intros Hk. assert (Z.land x (2 ^ k) = if Z.testbit x k then 2 ^ k else 0) as ->.
  { apply Z.bits_inj'. intros n Hn. rewrite Z.land_spec, Z.pow2_bits_eqb by done.
    destruct (Z.eqb_spec k n) as [<-|Hne]; destruct (Z.testbit x k) eqn:E;
      rewrite ?E, ?Z.pow2_bits_eqb, ?Z.bits_0, ?Z.eqb_refl, ?andb_false_r by done; try done.
    symmetry. by apply Z.eqb_neq. }
  destruct (Z.testbit x k); [|done]. apply Z.eqb_neq. pose proof (Z.pow_pos_nonneg 2 k). lia.
Qed.
Lemma flags_testbit (S : open_flag → bool) l f : ∀ acc,
  Z.testbit (fold_left (λ acc g, if S g then acc else Z.lor acc (ATHRILL_OPEN_FLAGS g)) l acc) (flag_bit f) =
  Z.testbit acc (flag_bit f) || existsb (λ g, negb (S g) && (flag_bit g =? flag_bit f)) l.
Proof.
  induction l as [|g l IH]; intros acc; simpl; [by rewrite orb_false_r|]. rewrite IH.
  destruct (S g); simpl; [done|]. destruct (flag_is_bit g) as [-> Hg].
  rewrite Z.lor_spec, Z.pow2_bits_eqb by done. by rewrite orb_assoc.
Qed.
Lemma interface_flag (S : open_flag → bool) f :
  (Z.land (fold_left (λ acc g, if S g then acc else Z.lor acc (ATHRILL_OPEN_FLAGS g)) open_flags 0) (ATHRILL_OPEN_FLAGS f) =? 0) = S f.
Proof.
  destruct (flag_is_bit f) as [-> Hf]. rewrite land_bit, flags_testbit, Z.bits_0 by done.
  destruct f; simpl; rewrite ?andb_false_r, ?andb_true_r; simpl; by rewrite ?orb_false_r, ?negb_involutive.
Qed.

(** the flags a guest program passes to [open], in the encoding of its own C library, reach
    the host as the same flags in the encoding of the host: going through the interface gives
    what a direct conversion would, whatever the two encodings are. *)
Theorem open_flags_roundtrip (target host_flag : open_flag → Z) (flags : Z) :
  athrill_syscall_open_r_flag host_flag (athrill_newlib_open_r_flag target flags) = convert_flags target host_flag flags.
Proof.
  assert (Hg : ∀ f, (Z.land (athrill_newlib_open_r_flag target flags) (ATHRILL_OPEN_FLAGS f) =? 0) = (Z.land flags (target f) =? 0))
    by (intros f; apply (interface_flag (λ f, Z.land flags (target f) =? 0))).
  revert Hg. generalize (athrill_newlib_open_r_flag target flags). intros g Hg.
  unfold athrill_syscall_open_r_flag, convert_flags. generalize 0 at 2 4.
  induction open_flags as [|f l IH]; intros acc; simpl; [done|]. by rewrite Hg.
Qed.

(** ** What no call changes *)

Section memory.
Context {D : Type} `{MpuConfig D}.
Implicit Types (m : mpu_state D) (h : MallocRegionType).

(** A region without its buffer; the layout of guest memory. *)
Definition region_layout (r : MpuAddressRegionType) : MpuAddressRegionEnumType * bool * Z * Z * Z * mpu_ops :=
  (r_type r, r_is_malloc r, r_start r, r_size r, r_mask r, r_ops r).
Definition layout m : list (MpuAddressRegionEnumType * bool * Z * Z * Z * mpu_ops) * list MpuAddressRegionType * nat :=
  (region_layout <$> dynamic_map m, static_map m, map_gen m).

(** The units of the heap stand for regions of 1 MiB. *)
Definition heap_sized m h : Prop := ∀ j i u x r,
  get_unit h j i = Ok u → u_region u = Some (map_gen m, x) → zget (dynamic_map m) x = Some r → r_size r = 2 ^ 20.
Definition mem_ok m h : Prop := mpu_wf m ∧ heap_sized m h.

Lemma heap_sized_layout m m' h : layout m' = layout m → heap_sized m h → heap_sized m' h.
Proof.
  intros Hl Hs j i u x r Hu Hr Hx. unfold layout in Hl. injection Hl as Hd _ Hg. rewrite Hg in Hr.
  unfold zget in Hx. destruct (x <? 0) eqn:E; [done|].
  apply (f_equal (.!! Z.to_nat x)) in Hd. rewrite !list_lookup_fmap, Hx in Hd. simpl in Hd.
  destruct (dynamic_map m !! Z.to_nat x) as [r'|] eqn:Hr'; [|done]. injection Hd as _ _ _ Hsz _ _.
  rewrite Hsz. eapply Hs; [done|done|]. unfold zget. by rewrite E.
Qed.

Lemma same_but_previous_layout m m' : same_but_previous m m' → layout m' = layout m.
Proof. by intros (i & j & ->). Qed.

Lemma mpu_get_pointer_keeps c addr m err p m' : is_addr addr → mpu_wf m →
  mpu_get_pointer c addr m = Ok (err, p, m') → mpu_wf m' ∧ layout m' = layout m.
Proof.
  intros Ha Hwf. unfold mpu_get_pointer.
  destruct (search_region_eq c addr 1 m Hwf) as (m1 & -> & Hsb); [by apply access_ok_short|].
  pose proof (same_but_previous_wf _ _ Hsb Hwf). pose proof (same_but_previous_layout _ _ Hsb).
  destruct (fst (search_tables addr 1 m)) as [r|]; [|by intros [= <- <- <-]].
  destruct (op_get_pointer (ops_of r)); [|by intros [= <- <- <-]].
  intros ([e q] & _ & [= <- <- <-])%bind_ok. done.
Qed.

Lemma mpu_put_data_keeps w c addr v m err m' : external_ok → is_addr addr → mpu_wf m →
  mpu_put_data w c addr v m = Ok (err, m') → mpu_wf m' ∧ layout m' = layout m.
Proof.
  intros Hext Ha Hwf Hp. destruct (mpu_put_data_ok w c addr v m Hext Hwf Ha) as (e & m1 & Hp1 & Hwf1).
  rewrite Hp in Hp1. injection Hp1 as <- <-. split; [done|]. clear Hwf1. revert Hp. unfold mpu_put_data.
  destruct (search_region_eq c addr (nbytes w) m Hwf) as (m1 & -> & Hsb); [by apply access_ok_width|].
  pose proof (same_but_previous_layout _ _ Hsb) as Hl.
  destruct (fst _) as [r|]; [|by intros [= <- <-]]. destruct (op_put (ops_of r) w); [|by intros [= <- <-]].
  case_decide; [by intros [= <- <-]|]. destruct (negb _); [by intros [= <- <-]|].
  intros ([e [h d]] & _ & [= <- <-])%bind_ok. done.
Qed.

Lemma host_write_keeps m p bs m' : mpu_wf m → host_write m p bs = Ok m' → mpu_wf m' ∧ layout m' = layout m.
Proof.
  intros Hwf. unfold host_write. destruct (host m !! p.1) as [blk|] eqn:Hb; [|done].
  intros (blk' & Hs & [= <-])%bind_ok. split; [|done].
  destruct (bytes_set blk p.2 bs) as [b|] eqn:E; [|done]. injection Hs as <-. apply bytes_set_Some in E as (H1 & H2 & ->).
  assert (Hsh : same_shape (host m) (<[p.1 := bytes_put blk p.2 bs]> (host m))) by (by apply same_shape_put).
  apply mpu_wf_host; [done|by apply (same_shape_fresh m)|done].
Qed.

Lemma find_group_unit n : ∀ j i h j' u, find_group n j i h = Ok (Some (j', u)) → get_unit h j' i = Ok u.
Proof.
  induction n as [|n IH]; intros j i h j' u; simpl; [done|]. intros (u0 & Hu & A)%bind_ok.
  destruct (0 <? bitfreenum u0); [by injection A as <- <-|eauto].
Qed.
Lemma find_free_unit n : ∀ i h i' j u, find_free n i h = Ok (Some (i', j, u)) → get_unit h j i' = Ok u.
Proof.
  induction n as [|n IH]; intros i h i' j u; simpl; [done|]. intros (o & Ho & A)%bind_ok.
  destruct o as [[j0 u0]|]; [|eauto]. injection A as <- <- <-. by eapply find_group_unit.
Qed.

Lemma put_unit_sized m h j i u0 u : heap_sized m h → get_unit h j i = Ok u0 → u_region u = u_region u0 →
  heap_sized m (put_unit h j i u).
Proof.
  intros Hs Hu0 Hr j' i' u' x r Hu' Hx Hz. rewrite (get_put_unit h j i u0) in Hu' by done.
  destruct ((j =? j') && (i =? i')); [|by eapply Hs]. injection Hu' as <-. eapply Hs; [exact Hu0|rewrite <- Hr; exact Hx|done].
Qed.

Lemma set_region_layout m x r b : zget (dynamic_map m) x = Some r → layout (set_region_data m x r b) = layout m.
Proof.
  intros Hx. unfold layout, set_region_data. simpl. f_equal. f_equal.
  apply list_eq. intros k. unfold zput. rewrite !list_lookup_fmap. pose proof (zget_range _ _ _ Hx).
  destruct (decide (k = Z.to_nat x)) as [->|]; [|by rewrite list_lookup_insert_ne].
  unfold zget in Hx. replace (x <? 0) with false in Hx by lia.
  rewrite list_lookup_insert_eq by (unfold zlen in *; lia). by rewrite Hx.
Qed.

Lemma mpu_malloc_get_keeps size blk m h a m' h' : zlen blk = 2 ^ 20 → mem_ok m h →
  mpu_malloc_get_memory size (Some blk) m h = Ok (a, m', h') → mem_ok m' h' ∧ layout m' = layout m.
Proof.
  intros Hblk Hok. pose proof Hok as [Hwf Hs]. unfold mpu_malloc_get_memory. destruct (_ <? 0); [by intros [= <- <- <-]|].
  intros (o & Hf & A)%bind_ok. destruct o as [[[i j] u]|]; [|by injection A as <- <- <-].
  apply find_free_unit in Hf. apply bind_ok in A as (d & _ & A). apply bind_ok in A as ([k bm] & _ & A).
  destruct (k <? 0).
  { injection A as <- <- <-. split; [|done]. split; [done|]. by eapply put_unit_sized. }
  apply bind_ok in A as ([x r] & Hd & A). apply bind_ok in A as (m1 & Hm1 & [= _ <- <-]).
  unfold deref_region in Hd. destruct (u_region u) as [[g y]|] eqn:Hr; [|done]. case_decide as Hg; [|done]. subst g.
  apply bind_ok in Hd as (r' & Hx & [= <- <-]). destruct (zget (dynamic_map m) y) as [r0|] eqn:Hz; [|done]. injection Hx as <-.
  assert (Hm1' : mpu_wf m1 ∧ layout m1 = layout m).
  { destruct (r_data r0); [by injection Hm1 as <-|]. simpl in Hm1. injection Hm1 as <-.
    split; [apply region_data_wf; [done|done|]; rewrite Hblk; symmetry; by eapply Hs|].
    change (layout (set_region_data (alloc_block m blk).2 y r0 (next_block m)) = layout (alloc_block m blk).2).
    by apply set_region_layout. }
  destruct Hm1' as [Hwf1 Hl]. split; [|done]. split; [done|].
  apply (heap_sized_layout m); [done|]. by eapply put_unit_sized.
Qed.

Lemma search_group_unit n : ∀ j i addr m h j' u r,
  search_group n j i addr m h = Ok (Some (j', u, r)) → get_unit h j' i = Ok u.
Proof.
  induction n as [|n IH]; intros j i addr m h j' u r; simpl; [done|]. intros (u0 & Hu & A)%bind_ok.
  apply bind_ok in A as ([x r0] & _ & A). destruct (_ && _); [by injection A as <- <- <-|eauto].
Qed.
Lemma search_class_unit n : ∀ i addr m h i' j u r,
  search_class n i addr m h = Ok (Some (i', j, u, r)) → get_unit h j i' = Ok u.
Proof.
  induction n as [|n IH]; intros i addr m h i' j u r; simpl; [done|]. intros (o & Ho & A)%bind_ok.
  destruct o as [[[j0 u0] r0]|]; [|eauto]. injection A as <- <- <- <-. by eapply search_group_unit.
Qed.
Lemma mpu_malloc_rel_keeps addr m h h' : mem_ok m h → mpu_malloc_rel_memory addr m h = Ok h' → mem_ok m h'.
Proof.
  intros [Hwf Hs]. unfold mpu_malloc_rel_memory. intros (o & Ho & A)%bind_ok.
  destruct o as [[[[i j] u] r]|]; [|by injection A as <-]. apply search_class_unit in Ho.
  apply bind_ok in A as (d & _ & A). destruct (u_bitmap u); [|done].
  apply bind_ok in A as (b & _ & A). apply bind_ok in A as (bm & _ & [= <-]). split; [done|]. by eapply put_unit_sized.
Qed.
End memory.

(** ** Every call keeps the memory unit well formed *)

Section keeps.
Context {D W : Type} `{MpuConfig D} `{HostFiles} `{HostOS W}.
Context (ext_serial : bool) (blk : list Z) (Hblk : zlen blk = 2 ^ 20) (Hext : external_ok).
Implicit Types (s : sys_state D W).

Definition sys_ok s : Prop := mem_ok (sc_mpu s) (sc_heap s).
Definition keeps {A} (f : syscall D W A) : Prop := ∀ s r s', sys_ok s → f s = Ok (r, s') →
  sys_ok s' ∧ layout (sc_mpu s') = layout (sc_mpu s).

Lemma unmoved_ret {A} (a : A) : keeps (mret a).
Proof. by intros s r s' Hs [= _ <-]. Qed.
Lemma unmoved_bind {A B} (f : syscall D W A) (k : A → syscall D W B) : keeps f → (∀ a, keeps (k a)) → keeps (f ≫= k).
Proof.
  intros Hf Hk s r s' Hs. unfold mbind, syscall_bind. destruct (f s) as [[[a|n] s1]|] eqn:E; [| |done].
  - intros E2. destruct (Hf _ _ _ Hs E) as [Hs1 L1]. destruct (Hk a _ _ _ Hs1 E2) as [Hs2 L2]. split; [done|congruence].
  - intros [= _ <-]. by eapply Hf.
Qed.
Lemma unmoved_get {A} (f : sys_state D W → A) : keeps (get f).
Proof. by intros s r s' Hs [= _ <-]. Qed.
Lemma unmoved_modify (f : sys_state D W → sys_state D W) :
  (∀ s, sc_mpu (f s) = sc_mpu s ∧ sc_heap (f s) = sc_heap s) → keeps (modify f).
Proof. intros Hf s r s' Hs [= _ <-]. destruct (Hf s) as [E1 E2]. unfold sys_ok. by rewrite E1, E2. Qed.
Lemma unmoved_lift {A} (m : outcome A) : keeps (lift m).
Proof. intros s r s' Hs (a & _ & [= _ <-])%bind_ok. done. Qed.
Lemma unmoved_exit n : keeps (exit_process n).
Proof. by intros s r s' Hs [= _ <-]. Qed.
Lemma unmoved_os {A} (f : W → A * W) : keeps (os f).
Proof. intros s r s' Hs. unfold os. destruct (f (sc_world s)). by intros [= _ <-]. Qed.
Lemma unmoved_pointer addr : keeps (get_pointer addr).
Proof.
  intros s r s' [Hwf Hh] ([[e p] m] & Hp & [= _ <-])%bind_ok.
  apply mpu_get_pointer_keeps in Hp as [Hw Hl]; [|apply uaddr_range|done].
  split; [|done]. split; [done|]. by apply (heap_sized_layout (sc_mpu s)).
Qed.
Lemma unmoved_bytes p n : keeps (host_bytes p n).
Proof. intros s r s' Hs (b & _ & (bs & _ & [= _ <-])%bind_ok)%bind_ok. done. Qed.
Lemma unmoved_rest p : keeps (host_rest p).
Proof. intros s r s' Hs (b & _ & (bs & _ & [= _ <-])%bind_ok)%bind_ok. done. Qed.
Lemma unmoved_put p bs : keeps (host_put p bs).
Proof.
  intros s r s' [Hwf Hh] (m & Hp & [= _ <-])%bind_ok. apply host_write_keeps in Hp as [Hw Hl]; [|done].
  split; [|done]. split; [done|]. by apply (heap_sized_layout (sc_mpu s)).
Qed.
Lemma unmoved_malloc size : keeps (guest_malloc (Some blk) size).
Proof.
  intros s r s' Hs ([[a m] h] & Hp & [= _ <-])%bind_ok. by apply (mpu_malloc_get_keeps size blk) in Hp.
Qed.
Lemma unmoved_free addr : keeps (guest_free addr).
Proof. intros s r s' Hs (h & Hp & [= _ <-])%bind_ok. split; [|done]. by eapply mpu_malloc_rel_keeps. Qed.
Lemma unmoved_size addr : keeps (guest_block_size addr).
Proof. intros s r s' Hs (n & _ & [= _ <-])%bind_ok. done. Qed.
Lemma unmoved_intpri_store i v : 0 ≤ i < 8 →
  keeps (λ s, '(_, m) ← (if i =? 7 then mpu_put_data8 0 (0xFFFFF100 + 2 * i) (u8 v) (sc_mpu s)
                        else mpu_put_data16 0 (0xFFFFF100 + 2 * i) v (sc_mpu s)); Ok (inl (), set_mpu m s)).
Proof.
  intros Hi s r s' [Hwf Hh] ([e m] & Hp & [= _ <-])%bind_ok.
  assert (Ha : is_addr (0xFFFFF100 + 2 * i)) by (unfold is_addr; pose proof addr_space_range; lia).
  assert (mpu_wf m ∧ layout m = layout (sc_mpu s)) as [Hw Hl]
    by (destruct (i =? 7); by eapply mpu_put_data_keeps in Hp).
  split; [|done]. split; [done|]. by apply (heap_sized_layout (sc_mpu s)).
Qed.
End keeps.

Ltac keep_call :=
  intros; cbn beta;
  lazymatch goal with
  | |- keeps (mret _) => apply unmoved_ret
  | |- keeps (mbind _ _) => apply unmoved_bind; keep_call
  | |- keeps (SystemCall.get _) => apply unmoved_get
  | |- keeps (modify _) => by apply unmoved_modify
  | |- keeps (lift _) => apply unmoved_lift
  | |- keeps (os _) => apply unmoved_os
  | |- keeps (exit_process _) => apply unmoved_exit
  | |- keeps (get_pointer _) => apply unmoved_pointer
  | |- keeps (host_bytes _ _) => apply unmoved_bytes
  | |- keeps (host_rest _) => apply unmoved_rest
  | |- keeps (host_put _ _) => apply unmoved_put
  | |- keeps (guest_malloc _ _) => apply unmoved_malloc; assumption
  | |- keeps (guest_free _) => apply unmoved_free
  | |- keeps (guest_block_size _) => apply unmoved_size
  | |- keeps (match ?x with _ => _ end) => destruct x; keep_call
  | |- keeps ?f => let h := head f in progress unfold h; keep_call
  end
with head f := lazymatch f with ?g _ => head g | _ => f end.

Section invariant.
Context {D W : Type} `{MpuConfig D} `{HostFiles} `{HostOS W}.
Context (ext_serial : bool) (blk : list Z) (Hblk : zlen blk = 2 ^ 20) (Hext : external_ok).
Implicit Types (s : sys_state D W).

Lemma unmoved_intpri n : ∀ i imr disint, 0 ≤ i → i + Z.of_nat n ≤ 8 → keeps (W := W) (set_intpri n i imr disint).
Proof.
  induction n as [|n IH]; intros i imr disint Hi Hn; cbn [set_intpri]; [apply unmoved_ret|].
  apply unmoved_bind; [keep_call|intros a]. apply unmoved_bind; [keep_call|intros b].
  apply unmoved_bind; [apply unmoved_intpri_store; [done|lia]|intros _]. apply IH; lia.
Qed.

Lemma unmoved_table api arg : keeps (W := W) (syscall_table ext_serial (Some blk) api arg).
Proof.
  destruct api; cbn [syscall_table]; try (solve [keep_call]).
  unfold athrill_syscall_v850_set_intpri. apply unmoved_bind; [keep_call|intros a]. apply unmoved_bind; [keep_call|intros imr].
  apply unmoved_bind; [keep_call|intros b]. apply unmoved_bind; [keep_call|intros dis]. apply unmoved_intpri; lia.
Qed.

(** Whatever the guest passes to a system call, and whatever the operating system answers,
    when the call returns or ends the process the memory unit is as well formed as before:
    every region keeps its place, size, kind and operations, every host buffer its length, and
    the heap still stands for regions of one megabyte. *)
Theorem syscalls_keep_memory_layout (addr : Z) s r s' (Hok : sys_ok s)
    (Hcall : athrill_syscall_device ext_serial (Some blk) addr s = Ok (r, s')) :
  sys_ok s' ∧ layout (sc_mpu s') = layout (sc_mpu s).
Proof.
  eapply (unmoved_bind (get_pointer addr)); [keep_call| |done|exact Hcall].
  intros [err p]. destruct (std_ok err); [|apply unmoved_ret]. apply unmoved_bind; [keep_call|intros arg].
  apply unmoved_bind; [keep_call|intros id]. destruct (zget api_ids id); [apply unmoved_table|apply unmoved_ret].
Qed.
End invariant.

(** ** What the heap calls and the calls on a channel do *)

Section effects.
Context {D W : Type} `{MpuConfig D} `{HostFiles} `{HostOS W}.
Context (ext_serial : bool).
#[local] Abbreviation ptr := (nat * Z)%type.
Implicit Types (s : sys_state D W) (m : mpu_state D) (arg p : ptr).

(** The host buffer at a pointer has [n] more bytes. *)
Definition has_room m p (n : Z) : Prop := ∃ b, host m !! p.1 = Some b ∧ 0 ≤ p.2 ∧ p.2 + n ≤ zlen b.
Definition bytes_of m p (n : Z) : option (list Z) := b ← host m !! p.1; bytes_at b p.2 n.
Definition field_of m arg (off n : Z) : option Z := le_val <$> bytes_of m (arg.1, arg.2 + off) n.

Lemma bytes_room m p n : has_room m p n → 0 ≤ n → ∃ bs, bytes_of m p n = Some bs ∧ zlen bs = n.
Proof.
  intros (b & Hb & A1 & A2) Hn. unfold bytes_of. rewrite Hb. simpl. by apply bytes_at_Some.
Qed.
Lemma host_bytes_eq p n s bs : bytes_of (sc_mpu s) p n = Some bs → host_bytes p n s = Ok (inl bs, s).
Proof.
  unfold bytes_of, host_bytes. destruct (host (sc_mpu s) !! p.1); [|done]. simpl. by intros ->.
Qed.
Lemma field_eq arg off n s v : field_of (sc_mpu s) arg off n = Some v → field arg off n s = Ok (inl v, s).
Proof.
  unfold field_of, field. destruct (bytes_of _ _ _) as [bs|] eqn:E; [|done]. intros [= <-].
  unfold mbind, syscall_bind. by rewrite (host_bytes_eq _ _ _ _ E).
Qed.

(** A write inside a buffer: its bytes change, and nothing in other buffers. *)
Lemma host_put_ok p bs s : has_room (sc_mpu s) p (zlen bs) → ∃ m,
  host_put p bs s = Ok (inl (), set_mpu m s) ∧ bytes_of m p (zlen bs) = Some bs ∧
  (∀ q n, has_room (sc_mpu s) q n → has_room m q n) ∧
  (∀ q n, q.1 ≠ p.1 ∨ q.2 + n ≤ p.2 ∨ p.2 + zlen bs ≤ q.2 → bytes_of m q n = bytes_of (sc_mpu s) q n) ∧
  host_write (sc_mpu s) p bs = Ok m.
Proof.
  intros (b & Hb & A1 & A2). unfold host_put, host_write, bytes_of, has_room. rewrite Hb.
  rewrite (proj2 (bytes_set_Some b p.2 bs (bytes_put b p.2 bs))) by done. cbn [oob mbind outcome_bind].
  eexists. split; [done|]. cbn [host with_host]. split_and!; [| | |done].
  - rewrite lookup_insert_eq. simpl. by apply bytes_at_put_same.
  - intros q n (bq & Hq & ? & ?). destruct (decide (q.1 = p.1)) as [E|].
    + rewrite E in *. rewrite Hb in Hq. injection Hq as <-. rewrite lookup_insert_eq. eexists. split; [done|].
      by rewrite bytes_put_len.
    + rewrite lookup_insert_ne by done. eauto.
  - intros q n Hq. destruct (decide (q.1 = p.1)) as [E|]; [|by rewrite lookup_insert_ne].
    rewrite E, lookup_insert_eq, Hb. simpl. destruct Hq as [?|Hq]; [done|]. by apply bytes_at_put_disjoint.
Qed.
Lemma put_field_ok arg off n v s : 0 ≤ n → has_room (sc_mpu s) (arg.1, arg.2 + off) n → ∃ m,
  put_field arg off n v s = Ok (inl (), set_mpu m s) ∧ field_of m arg off n = Some (v mod 2 ^ (8 * n)) ∧
  (∀ q k, has_room (sc_mpu s) q k → has_room m q k) ∧
  (∀ q k, q.1 ≠ arg.1 ∨ q.2 + k ≤ arg.2 + off ∨ arg.2 + off + n ≤ q.2 → bytes_of m q k = bytes_of (sc_mpu s) q k) ∧
  host_write (sc_mpu s) (arg.1, arg.2 + off) (le_bytes (Z.to_nat n) v) = Ok m.
Proof.
  intros Hn Hr. unfold put_field. assert (Hl : zlen (le_bytes (Z.to_nat n) v) = n) by (rewrite le_bytes_len; lia).
  destruct (host_put_ok (arg.1, arg.2 + off) (le_bytes (Z.to_nat n) v) s) as (m & E & B & R & O & Hw); [by rewrite Hl|].
  exists m. rewrite Hl in *. split_and!; [done| |done|done|done]. unfold field_of. rewrite B. simpl. f_equal.
  rewrite le_val_bytes. f_equal. f_equal. lia.
Qed.

(** A new region of the heap leaves the buffers there are. *)
Lemma get_memory_host size blk m h a m' h' : mpu_wf m → mpu_malloc_get_memory size (Some blk) m h = Ok (a, m', h') →
  ∀ b x, host m !! b = Some x → host m' !! b = Some x.
Proof.
  intros Hwf Hg b x Hb. unfold mpu_malloc_get_memory in Hg. destruct (_ <? 0); [by injection Hg as <- <- <-|].
  apply bind_ok in Hg as (o & _ & A). destruct o as [[[i j] u]|]; [|by injection A as <- <- <-].
  apply bind_ok in A as (d & _ & A). apply bind_ok in A as ([k bm] & _ & A).
  destruct (k <? 0); [by injection A as <- <- <-|].
  apply bind_ok in A as ([y r] & _ & A). apply bind_ok in A as (m1 & Hm1 & [= _ <- _]).
  destruct (r_data r); [by injection Hm1 as <-|]. simpl in Hm1. injection Hm1 as <-. simpl.
  rewrite lookup_insert_ne; [done|]. intros <-. by rewrite (wf_fresh m Hwf) in Hb.
Qed.

Lemma heap_wf_write m p bs m' h : heap_wf m h → host_write m p bs = Ok m' → heap_wf m' h ∧
  ∀ b x, block_addr m h b x → block_addr m' h b x.
Proof.
  intros [A1 A2 A3 A4 A5 A6] Hw. destruct (host_write_keeps _ _ _ _ A1 Hw) as [Hwf _].
  assert (Hd : dynamic_map m' = dynamic_map m ∧ map_gen m' = map_gen m).
  { unfold host_write in Hw. destruct (host m !! p.1); [|done]. by apply bind_ok in Hw as (? & _ & [= <-]). }
  destruct Hd as [Hd Hg].
  assert (Hr : ∀ u x r, unit_region_ok m u x r → unit_region_ok m' u x r)
    by (intros u x r [? ? ? ? ?]; split; [by rewrite Hg|by rewrite Hd|done..]).
  split.
  - split; try done. intros j i Hj Hi. destruct (A2 j i Hj Hi) as (u & x & r & bm & ? & ? & ?). exists u, x, r, bm. eauto.
  - intros [[j i] k] x (u & y & r & ? & ? & ->). exists u, y, r. eauto.
Qed.

Lemma block_addr_u32 m h j i k a : heap_wf m h → valid_block h (j, i, k) → block_addr m h (j, i, k) a → 0 < a → u32 a = a.
Proof.
  intros Hw (_ & Hi & Hk) (u & x & r & _ & [_ _ _ Hst Hend] & ->) Ha. apply wrap_id. unfold in_width.
  pose proof (block_fits i k Hi Hk). pose proof (class_bounds i Hi). lia.
Qed.


Lemma host_rest_ok p n s : has_room (sc_mpu s) p n → 0 ≤ n → ∃ rest,
  host_rest p s = Ok (inl rest, s) ∧ n ≤ zlen rest ∧ has_room (sc_mpu s) p (zlen rest).
Proof.
  intros (b & Hb & A1 & A2) Hn. unfold host_rest. rewrite Hb. cbn [oob mbind outcome_bind].
  destruct (bytes_at_Some b p.2 (zlen b - p.2)) as (bs & -> & Hl); [lia..|].
  exists bs. split; [done|]. split; [lia|]. exists b. split; [done|lia].
Qed.
Lemma bytes_of_take m p n l : bytes_of m p (zlen l) = Some l → 0 ≤ n ≤ zlen l → bytes_of m p n = Some (take (Z.to_nat n) l).
Proof.
  unfold bytes_of. destruct (host m !! p.1) as [b|]; [|done]. simpl. intros Hl Hn.
  pose proof (bytes_at_range _ _ _ _ Hl). revert Hl. unfold bytes_at.
  replace (_ && _ && _) with true by lia. intros [= <-]. replace (_ && _ && _) with true by lia.
  f_equal. rewrite take_take. f_equal. lia.
Qed.

(** Taking from a ring into a buffer that may be longer than what is asked for. *)
Lemma ring_get f out n : fifo_wf f → 0 ≤ n → n ≤ zlen out → n < 2 ^ 32 → 
  let q := contents f in let k := Z.min n (zlen q) in
  ∃ f', comm_fifo_buffer_get f out n =
    Ok (if (zlen q =? 0) || (zlen q <? n) then STD_E_NOENT else STD_E_OK, f', bytes_put out 0 (take (Z.to_nat k) q), k) ∧
    fifo_wf f' ∧ contents f' = drop (Z.to_nat k) q.
Proof.
  intros Hwf Hn Hle Hlt q k. pose proof (wf_count f Hwf) as Hc. pose proof (contents_len f Hwf) as Hl.
  unfold comm_fifo_buffer_get. fold q in Hl. rewrite <- Hl. destruct (Z.eqb_spec (zlen q) 0) as [E|E].
  - exists f. simpl. assert (k = 0) as -> by lia. rewrite bytes_put_nil. by split_and!.
  - destruct (fifo_get_loop_spec (Z.to_nat n) 0 f out 0) as (f' & -> & Hwf' & _ & Hq); [done|lia..|].
    rewrite Z2Nat.id, <- Hl in * by lia. fold q in Hq |- *. exists f'. rewrite Z.add_0_l.
    replace (Z.min (zlen q) n) with k by lia. split_and!; [done|done|]. by replace (Z.min (zlen q) n) with k in Hq by lia.
Qed.

(** Writing the result and, after a failed read, the result and the error again. *)
Lemma put_answer arg (failed : bool) (v : Z) s : has_room (sc_mpu s) (arg.1, arg.2 + 4) 8 → ∃ m,
  (put_ret arg v;; (if failed then put_ret arg (-1);; put_errno arg 0 else mret ())) s = Ok (inl (), set_mpu m s) ∧
  field_of m arg 4 4 = Some ((if failed then -1 else v) mod 2 ^ 32) ∧
  ∀ q n, q.1 ≠ arg.1 ∨ q.2 + n ≤ arg.2 + 4 ∨ arg.2 + 12 ≤ q.2 → bytes_of m q n = bytes_of (sc_mpu s) q n.
Proof.
  intros Hroom. assert (Hsub : ∀ m, has_room m (arg.1, arg.2 + 4) 8 → has_room m (arg.1, arg.2 + 4) 4 ∧ has_room m (arg.1, arg.2 + 8) 4).
  { intros m (b & ? & ? & ?). simpl in *. split; exists b; (split; [done|simpl; lia]). }
  unfold put_ret, put_errno, mbind, syscall_bind.
  destruct (put_field_ok arg 4 4 v s) as (m1 & -> & F1 & R1 & O1 & _); [lia|by apply Hsub|].
  destruct failed; [|exists m1; split_and!; [done|done|]; intros q n Hq; apply O1; lia].
  destruct (put_field_ok arg 4 4 (-1) (set_mpu m1 s)) as (m2 & -> & F2 & R2 & O2 & _); [lia|by apply Hsub, R1|].
  destruct (put_field_ok arg 8 4 0 (set_mpu m2 (set_mpu m1 s))) as (m3 & -> & _ & _ & O3 & _); [lia|by apply Hsub, R2, R1|].
  exists m3. split_and!; [done| |].
  - unfold field_of. rewrite O3; [exact F2|]. simpl. lia.
  - intros q n Hq. by rewrite O3, O2, O1 by lia.
Qed.

(** C40: a read of a serial channel moves the first bytes of its ring, as many as the guest asks
    for or the ring holds, into the guest's buffer, in order.  When the ring holds fewer bytes
    than asked for, or none, the guest is told that the read failed, and the bytes are gone.
    The buffer may lie anywhere, in the memory of the argument block too; it does not overlap
    the two words of the block that hold the result and the error. *)
Theorem read_channel_spec arg p (size ch : Z) c s
    (Harg : has_room (sc_mpu s) (arg.1, arg.2 + 4) 8) (Hp : has_room (sc_mpu s) p size)
    (Hapart : arg.1 ≠ p.1 ∨ p.2 + size ≤ arg.2 + 4 ∨ arg.2 + 12 ≤ p.2)
    (Hsize : 0 ≤ size < 2 ^ 31) (Hch : zget (channels (sc_serial s)) ch = Some c) (Hrd : fifo_wf (rd c)) :
  let q := contents (rd c) in
  let n := Z.min size (zlen q) in
  ∃ s' c', read_channel arg p size ch s = Ok (inl (), s') ∧
    zget (channels (sc_serial s')) ch = Some c' ∧ contents (rd c') = drop (Z.to_nat n) q ∧
    bytes_of (sc_mpu s') p n = Some (take (Z.to_nat n) q) ∧
    to_int <$> field_of (sc_mpu s') arg 4 4 = Some (if (zlen q =? 0) || (zlen q <? size) then -1 else size).
Proof.
  intros q n. pose proof (zlen_nonneg q). unfold read_channel, put_ret, put_errno, mbind, syscall_bind.
  assert (Hsub : ∀ m, has_room m (arg.1, arg.2 + 4) 8 → has_room m (arg.1, arg.2 + 4) 4 ∧ has_room m (arg.1, arg.2 + 8) 4).
  { intros m (b & ? & ? & ?). simpl in *. split; exists b; (split; [done|simpl; lia]). }
  destruct (put_field_ok arg 4 4 0 s) as (m1 & -> & _ & R1 & _); [lia|by apply Hsub|].
  destruct (put_field_ok arg 8 4 0 (set_mpu m1 s)) as (m2 & -> & _ & R2 & _); [lia|by apply Hsub, R1|].
  set (s2 := set_mpu m2 (set_mpu m1 s)).
  assert (get_channel ch s2 = Ok (inl c, s2)) as ->.
  { unfold get_channel, mbind, syscall_bind, get, lift. simpl. by rewrite Hch. }
  destruct (host_rest_ok p size s2) as (rest & -> & Hlen & Hroom); [by apply R2, R1|lia|].
  destruct (ring_get (rd c) rest size Hrd) as (f & Hget & Hf & Hq); [lia..|]. fold q in Hget, Hq. fold n in Hget, Hq.
  unfold lift. rewrite Hget. cbn [mbind outcome_bind].
  set (s3 := set_channels (zput (channels (sc_serial s)) ch (with_rd f c)) s2).
  change (put_channel ch (with_rd f c) s2) with (Ok (A := (() + Z) * sys_state D W) (inl (), s3)). cbn beta iota.
  set (taken := take (Z.to_nat n) q).
  assert (Htl : zlen taken = n) by (unfold taken, zlen in *; rewrite length_take; lia).
  assert (Hout : zlen (bytes_put rest 0 taken) = zlen rest) by (apply bytes_put_len; lia).
  destruct (host_put_ok p (bytes_put rest 0 taken) s3) as (m3 & -> & B3 & R3 & _); [by rewrite Hout|].
  destruct (put_answer arg (bool_decide ((if (zlen q =? 0) || (zlen q <? size) then STD_E_NOENT else STD_E_OK) = STD_E_NOENT)) n
    (set_mpu m3 s3)) as (m4 & Hans & F4 & O4); [by apply R3, R2, R1|].
  exists (set_mpu m4 (set_mpu m3 s3)), (with_rd f c). split; [exact Hans|]. split; [|split; [done|split]].
  - simpl. apply zget_zput_eq. by eapply zget_range.
  - change (sc_mpu (set_mpu m4 (set_mpu m3 s3))) with m4. rewrite O4 by lia.
    change (sc_mpu (set_mpu m3 s3)) with m3. rewrite (bytes_of_take m3 p n _ B3) by lia. f_equal.
    unfold bytes_put. simpl. rewrite take_app_le by (unfold zlen in Htl; lia). apply take_ge. unfold zlen in Htl. lia.
  - change (sc_mpu (set_mpu m4 (set_mpu m3 s3))) with m4. rewrite F4. simpl.
    destruct ((zlen q =? 0) || (zlen q <? size)) eqn:E; [done|]. rewrite bool_decide_false by done.
    rewrite Z.mod_small by lia. unfold to_int. replace (n <? 2 ^ 31) with true by lia. f_equal. lia.
Qed.


(** ** Faults of the calls *)

#[local] Ltac fields :=
  unfold body_int, body, mbind, syscall_bind;
  repeat match goal with A : field_of (sc_mpu ?s) ?arg ?off ?n = Some ?v |- context [field ?arg ?o ?n ?s] =>
    change o with off; rewrite (field_eq arg off n s v A); cbn [mret syscall_ret] end.

(** A read into memory that is not mapped answers with the code of the error, which is a
    positive number: the guest sees so many bytes read. *)
Lemma read_unmapped_reports_bytes arg fd size a m s :
  field_of (sc_mpu s) arg 12 4 = Some fd → field_of (sc_mpu s) arg 16 4 = Some a → field_of (sc_mpu s) arg 20 4 = Some size →
  mpu_get_pointer 0 (uaddr a) (sc_mpu s) = Ok (STD_E_SEGV, None, m) →
  athrill_syscall_read_r ext_serial arg s = put_ret arg 3 (set_mpu m s).
Proof.
  intros A1 A2 A3 E. unfold athrill_syscall_read_r. fields. unfold get_pointer. rewrite E. done.
Qed.

(** A descriptor outside the table ends the emulator, although [open] hands out -1. *)
Lemma read_bad_descriptor_aborts arg fd size a p m s :
  field_of (sc_mpu s) arg 12 4 = Some fd → field_of (sc_mpu s) arg 16 4 = Some a → field_of (sc_mpu s) arg 20 4 = Some size →
  mpu_get_pointer 0 (uaddr a) (sc_mpu s) = Ok (STD_E_OK, Some p, m) →
  to_int fd < 0 ∨ 1024 ≤ to_int fd →
  athrill_syscall_read_r false arg s = Fault AssertFail.
Proof.
  intros A1 A2 A3 E Hfd. unfold athrill_syscall_read_r. fields. unfold get_pointer. rewrite E. simpl.
  unfold read_file, is_stream_fd, get_correspond_fd, SPECIAL_FD_NUM, mbind, syscall_bind, lift.
  replace ((0 <=? to_int fd) && (to_int fd <? 1024)) with false by lia. done.
Qed.

(** The offset of a seek reaches the host without its sign: -1 is 4294967295 there. *)
Lemma lseek_offset_not_negative arg fd whence s :
  field_of (sc_mpu s) arg 12 4 = Some fd → field_of (sc_mpu s) arg 16 4 = Some (-1 mod 2 ^ 32) → field_of (sc_mpu s) arg 20 4 = Some whence →
  athrill_syscall_lseek_r arg s = (r ← os (os_lseek (to_int fd) 4294967295 (to_int whence)); put_ret arg r) s.
Proof. intros A1 A2 A3. unfold athrill_syscall_lseek_r. by fields. Qed.

(** The error number of a failed send is overwritten. *)
Lemma send_result_overwritten arg fd a len p m bs err w s :
  field_of (sc_mpu s) arg 16 4 = Some a → mpu_get_pointer 0 (uaddr a) (sc_mpu s) = Ok (STD_E_OK, Some p, m) →
  field_of m arg 12 4 = Some fd → field_of m arg 20 4 = Some len → bytes_of m p len = Some bs →
  os_send (to_int fd) bs (sc_world s) = (-1, err, w) → has_room m (arg.1, arg.2 + 4) 4 →
  ∃ s', athrill_syscall_send arg s = Ok (inl (), s') ∧ field_of (sc_mpu s') arg 4 4 = Some (-1 mod 2 ^ 32).
Proof.
  intros A1 E A2 A3 Hb Hs Hr. unfold athrill_syscall_send. fields. unfold with_pointer, get_pointer, mbind, syscall_bind, outcome_bind.
  rewrite E. simpl. set (s1 := set_mpu m s). change m with (sc_mpu s1) in A2, A3, Hb, Hr. fields.
  rewrite (host_bytes_eq _ _ _ _ Hb). unfold os. change (sc_world s1) with (sc_world s). rewrite Hs. simpl.
  set (s2 := set_world w s1). change (sc_mpu s1) with (sc_mpu s2) in Hr.
  destruct (put_field_ok arg 4 4 (- err) s2) as (m2 & E2 & _ & R2 & _); [lia|done|].
  destruct (put_field_ok arg 4 4 (-1) (set_mpu m2 s2)) as (m3 & E3 & F3 & _); [lia|by apply R2|].
  unfold put_ret. rewrite E2, E3. by eexists.
Qed.

(** Enlarging a null pointer ends the emulator, where C asks for a new block. *)
Lemma realloc_null_aborts blk arg size a (o : option ptr) m1 h1 m2 m3 err s :
  field_of (sc_mpu s) arg 16 4 = Some size → mpu_malloc_get_memory size blk (sc_mpu s) (sc_heap s) = Ok (a, m1, h1) → a ≠ 0 →
  put_field arg 20 4 a (set_heap h1 (set_mpu m1 s)) = Ok (inl (), set_mpu m2 (set_heap h1 (set_mpu m1 s))) →
  field_of m2 arg 12 4 = Some 0 → mpu_get_pointer 0 (uaddr 0) m2 = Ok (err, o, m3) → err ≠ STD_E_OK →
  athrill_syscall_realloc blk arg s = Fault AssertFail.
Proof.
  intros A1 Hg Ha Hput A2 Hp Herr. unfold athrill_syscall_realloc. fields. unfold guest_malloc. rewrite Hg. cbn [mbind outcome_bind].
  unfold put_body. change (12 + 4 * 2) with 20. rewrite Hput. apply Z.eqb_neq in Ha. rewrite Ha.
  set (s2 := set_mpu m2 _). change m2 with (sc_mpu s2) in A2, Hp. fields.
  unfold need_pointer, get_pointer, mbind, syscall_bind, outcome_bind. rewrite Hp. unfold lift.
  destruct err; try done.
Qed.

(** The number of bytes that [realloc] copies is that of the old block, also when the new one
    is smaller: what lies behind the new block is overwritten. *)
Lemma realloc_copies_old_block blk arg size a old src dest n m1 h1 m2 m3 m4 s :
  field_of (sc_mpu s) arg 16 4 = Some size → mpu_malloc_get_memory size blk (sc_mpu s) (sc_heap s) = Ok (a, m1, h1) → a ≠ 0 →
  put_field arg 20 4 a (set_heap h1 (set_mpu m1 s)) = Ok (inl (), set_mpu m2 (set_heap h1 (set_mpu m1 s))) →
  field_of m2 arg 12 4 = Some old → mpu_get_pointer 0 (uaddr old) m2 = Ok (STD_E_OK, Some src, m3) →
  mpu_get_pointer 0 (uaddr a) m3 = Ok (STD_E_OK, Some dest, m4) → mpu_malloc_ref_size old m4 h1 = Ok n →
  athrill_syscall_realloc blk arg s = (bs ← host_bytes src n; host_put dest bs;; guest_free old) (set_mpu m4 (set_heap h1 (set_mpu m1 s))).
Proof.
  intros A1 Hg Ha Hput A2 Hp Hq Hn. unfold athrill_syscall_realloc. fields. unfold guest_malloc. rewrite Hg. cbn [mbind outcome_bind].
  unfold put_body. change (12 + 4 * 2) with 20. rewrite Hput. apply Z.eqb_neq in Ha. rewrite Ha.
  set (s2 := set_mpu m2 _). change m2 with (sc_mpu s2) in A2, Hp. fields.
  unfold need_pointer, get_pointer, mbind, syscall_bind, outcome_bind. rewrite Hp. cbn.
  rewrite Hq. cbn. unfold guest_block_size. cbn. rewrite Hn. done.
Qed.

(** The product of both arguments of [calloc] wraps: 65536 elements of 65536 bytes are
    answered with a block for none. *)
Lemma calloc_size_wraps blk arg s :
  field_of (sc_mpu s) arg 12 4 = Some 65536 → field_of (sc_mpu s) arg 16 4 = Some 65536 →
  athrill_syscall_calloc blk arg s =
    (a ← guest_malloc blk 0; put_body arg 2 a;; if a =? 0 then mret () else p ← need_pointer a; host_put p []) s.
Proof. intros A1 A2. unfold athrill_syscall_calloc. fields. done. Qed.

(** A directory that was closed keeps its stream: closing it again is a use after free. *)
Lemma closedir_twice_use_after_free arg id e s :
  field_of (sc_mpu s) arg 12 4 = Some id → 1 ≤ to_int id ≤ 10 → zget (dir_table s) (to_int id - 1) = Some e → dir e = DirClosed →
  athrill_syscall_ev3_closedir arg s = Fault UseAfterFree.
Proof.
  intros A1 Hid He Hd. unfold athrill_syscall_ev3_closedir. fields. unfold GETDIR, DIR_TABLE_NUM.
  replace ((0 <=? to_int id - 1) && (to_int id - 1 <? 10)) with true by lia.
  unfold get, lift, mbind, syscall_bind. rewrite He. simpl. by rewrite Hd.
Qed.
End effects.

(** ** A guest with its arguments in a host buffer *)

Module CallDemo.
#[local] Existing Instance MpuDemo.config.
#[local] Instance files : HostFiles := {|
  file_contents := λ _, None; file_exist := λ _, false; getenv := λ _, None; osdep_supports_mapped_memory := true;
  osdep_open_mapped_file := λ _, None; osdep_map_open_file := λ _ _, None; shared_library := λ _, None;
|}.
(** A host whose sockets receive "hi" and send nothing. *)
#[local] Instance host_os : HostOS () := {|
  os_flag := ATHRILL_OPEN_FLAGS; EAGAIN := 11; ESPIPE := 29; EEXIST := 17;
  os_socket := λ w, (5, 0, w); os_writable := λ _ w, (1, 0, w); os_so_error := λ _ w, (0, 0, 0, w); os_reuseaddr := λ _ w, (0, w);
  os_bind := λ _ _ _ w, (0, 0, w); os_listen := λ _ _ w, (0, 0, w); os_accept := λ _ w, (-1, 11, (0, 0, 0), w);
  os_connect := λ _ _ _ w, (-1, 115, w); os_select := λ _ r w e x, (0, 0, (r, w, e), x); os_send := λ _ _ w, (-1, 11, w);
  os_recv := λ _ _ w, (2, 0, [104; 105], w); os_system := λ _ w, (0, w); os_mkdir := λ _ w, (0, 0, w);
  os_open := λ _ _ _ w, (3, w); os_close := λ _ w, (0, w); os_read := λ _ _ w, (0, 0, [], w); os_write := λ _ bs w, (zlen bs, w);
  os_lseek := λ _ o _ w, (o, w); os_opendir := λ _ w, (None, w); os_closedir := λ w, (0, w); os_stat := λ _ w, (None, w);
  os_mkfifo := λ _ w, w; os_drain := λ _ w, w; os_clock := λ w, (0, 0, w);
|}.

(** 64 bytes of RAM at 0x1000: a call of [recv] on descriptor 5 into the RAM behind the
    structure, for 8 bytes. *)
Definition ram : MpuAddressRegionType :=
  mkRegion GLOBAL_MEMORY false MPU_ADDRESS_REGION_PERM_ALL 0x1000 64 0xFFFFFFFF (Some O) default_memory_operation.
Definition words (l : list Z) : list Z := concat (le_bytes 4 <$> l).
Definition args : list Z := words [9; 0; 0; 5; 0x1020; 8; 0; 0] ++ replicate 32 0.
Definition mpu : mpu_state () := mkMpu [ram] 1 [] {[O := args]} 1 () (-1) (-1) [].
Definition start (m : mpu_state ()) (h : MallocRegionType) (st : serial_state) : sys_state () () :=
  mkSysState m h () (mkDevCfg 0 []) st None (replicate 1024 0) (replicate 10 (mkDirElement false [] DirNull))
    [mkExtMap 0 None; mkExtMap 0 None] (0, 0).

Lemma ram_ok : mpu_wf mpu.
Proof.
  split; simpl.
  - repeat constructor; rewrite ?MpuDemo.space; simpl; try lia; intros _ b [= <-]; by exists args.
  - by repeat constructor.
  - constructor.
  - constructor.
  - intros i j r1 r2 Hne Hi Hj. apply zget_range in Hi, Hj. unfold zlen in *. simpl in *. lia.
  - intros b Hb. by rewrite lookup_singleton_ne by lia.
  - apply Forall_singleton; simpl; intros b [= <-]; lia.
Qed.

Definition s0 : sys_state () () := start mpu malloc_region_init serial_start.
Definition after_recv : sys_state () () :=
  match athrill_syscall_device false (Some MallocDemo.block_1MiB) 0x1000 s0 with Ok (_, s) => s | Fault _ => s0 end.
Lemma layout_witness : layout (sc_mpu after_recv) = layout mpu ∧ bytes_of (sc_mpu after_recv) (O, 32) 3 = Some [104; 105; 0].
Proof.
  split; [|vm_compute; reflexivity].
  apply (syscalls_keep_memory_layout false MallocDemo.block_1MiB MallocDemo.block_len MpuDemo.external 0x1000 s0 (inl ()) after_recv).
  - split; [exact ram_ok|]. intros j i u x r Hu. apply get_unit_Some in Hu as (g & Hg & _).
    apply zget_range in Hg. unfold zlen in Hg. simpl in Hg. lia.
  - vm_compute. reflexivity.
Defined.

(** The heap of 10 MiB, and a structure that asks for 5000 bytes. *)
Lemma alloc_wf {D} `{MpuConfig D} (m : mpu_state D) h blk : heap_wf m h → heap_wf (snd (alloc_block m blk)) h.
Proof.
  intros [[W1 W2 W3 W4 W5 W6 W7] A2 A3 A4 A5 A6].
  assert (Hext : ∀ r, region_wf (host m) r → region_wf (<[next_block m := blk]> (host m)) r).
  { intros r [? ? ? ? Hb]. split; try done. intros Ho b Hbd. destruct (Hb Ho b Hbd) as (x & Hg & ?). exists x.
    split; [|done]. rewrite lookup_insert_ne; [done|]. intros <-. by rewrite W6 in Hg. }
  split; try done.
  2: { intros j i Hj Hi. destruct (A2 j i Hj Hi) as (u & x & r & bm & ? & [? ? ? ? ?] & ?). exists u, x, r, bm. by split_and!. }
  split; simpl.
  - eapply Forall_impl; [exact W1|exact Hext].
  - exact W2.
  - eapply Forall_impl; [exact W3|exact Hext].
  - exact W4.
  - exact W5.
  - intros b Hb. rewrite lookup_insert_ne by lia. apply W6. lia.
  - eapply Forall_impl; [exact W7|]. simpl. intros r Hr b Hb. specialize (Hr b Hb). lia.
Qed.
Definition heap_mpu : mpu_state () := snd (alloc_block MallocDemo.mpu (words [12; 0; 0; 5000; 0; 0; 0; 0])).
Definition s1 : sys_state () () := start heap_mpu MallocDemo.heap serial_start.


(** A guest with one RAM, its argument block at the start and its buffer behind it.  Channel 1
    holds three bytes and the guest asks for five: it is told that the read failed, and the
    three bytes are gone. *)
Definition ring : CommFifoBufferType := mkFifo 4 3 0 3 (Some [7; 8; 9; 0]).
Definition chan : AthrillSerialFifoType := with_rd ring null_serial.
Definition s2 : sys_state () () :=
  start (mkMpu [] 0 [] {[O := replicate 64 0]} 1 () (-1) (-1) []) malloc_region_init
    (mkSerialState 0x2000 0 [null_serial; chan]).
Lemma ring_ok : fifo_wf ring.
Proof. split; simpl; [lia|by eexists|lia|lia|]. intros _. by vm_compute. Qed.
Lemma short_read_witness : ∃ s' c', read_channel (O, 0) (O, 32) 5 1 s2 = Ok (inl (), s') ∧
    zget (channels (sc_serial s')) 1 = Some c' ∧ contents (rd c') = [] ∧
    bytes_of (sc_mpu s') (O, 32) 3 = Some [7; 8; 9] ∧ to_int <$> field_of (sc_mpu s') (O, 0) 4 4 = Some (-1).
Proof.
  apply (read_channel_spec (O, 0) (O, 32) 5 1 chan s2).
  - eexists. split; [reflexivity|]. unfold zlen. simpl. lia.
  - eexists. split; [reflexivity|]. unfold zlen. simpl. lia.
  - right. right. simpl. lia.
  - lia.
  - reflexivity.
  - exact ring_ok.
Defined.
End CallDemo.
