(* ===== verification/GdbRsp.v ===== *)
(** * The GDB remote serial protocol ([src/src/debugger/rsp/gdb_rsp.c])

    A server that a debugger on another machine, or in another process, controls: it reads
    packets from a socket, executes them on the memory, the break points, the registers and
    the CPU thread, and answers each with a packet.

    The arrays of the code are arrays of the model: the packet that is read, the frame that is
    sent, the response and the data of a packet are lists of their size, and a store outside
    of one is a fault.

    The functions are programs of the monad of [DbgExecutor]: waiting for the CPU thread, for
    a connection or for bytes suspends the program, which resumes with whatever state the
    other threads and the network have left.  A C string is the list of its characters
    before the NUL; a function that cuts the packet into pieces at a character works on the
    two pieces.

    Parameters: the socket (class [RspSocket]) and the adapter of the target, declared in
    [gdb_rsp_target.h] (class [GdbTarget]). *)

From Stdlib Require Import String.
From S2P Require Import Prelude CpuControl CpuCallback Mpu Bus Token DbgExecutor DwarfLine.
Open Scope Z_scope.

(** ** Parameters *)

(** Opening the server (whether there is a socket; whether [bind] and [listen] succeed),
    [accept] (a connection or none), [recv] of one byte (none: closed or failed), [send] (the
    number of bytes taken, or -1), [select] for reading without the time it waits. *)
Class RspSocket (C : Type) := {
  sock_create : C → bool * C;
  sock_bind_listen : Z → C → bool * C;
  sock_accept : C → bool * C;
  sock_recv : C → option Z * C;
  sock_send : C → list Z → Z * C;
  sock_readable : C → bool * C;
  sock_close_client : C → C;
  sock_close_server : C → C;
}.

(** The register image of the target.  A register that can be read gives the bytes written. *)
Class GdbTarget (T : Type) := {
  dbg_target_gdb_reg_count : Z;
  dbg_target_gdb_reg_size : Z → Z;
  dbg_target_gdb_read_reg : Z → Z → T → option (list Z);
  dbg_target_gdb_write_reg : Z → Z → list Z → T → bool * T;
  dbg_target_gdb_set_pc : Z → Z → T → T;
}.

Record rsp_state (D T C : Type) := mkRsp {
  r_dbg : dbg_state; r_mpu : mpu_state D; r_log : bus_log; r_tgt : T; r_conn : C }.
Arguments mkRsp {D T C} _ _ _ _ _.
Arguments r_dbg {D T C} _.
Arguments r_mpu {D T C} _.
Arguments r_log {D T C} _.
Arguments r_tgt {D T C} _.
Arguments r_conn {D T C} _.

Definition RSP_PACKET_SIZE : Z := 8192.
(** The buffer [data] of [dispatch_packet]. *)
Definition DATA_SIZE : Z := 4096.

(** ** Text *)

Definition hex_value (ch : Z) : option Z :=
  if (48 <=? ch) && (ch <=? 57) then Some (ch - 48)
  else if (97 <=? ch) && (ch <=? 102) then Some (ch - 97 + 10)
  else if (65 <=? ch) && (ch <=? 70) then Some (ch - 65 + 10)
  else None.

(** A digit of [hex_encode] and of the format [%x]. *)
Definition hex_digit (n : Z) : Z := if n <? 10 then 48 + n else 87 + n.
(** Two digits: the format [%02x] for a byte. *)
Definition hex_byte (b : Z) : list Z := [hex_digit (b / 16); hex_digit (b mod 16)].
Fixpoint hex_encode (data : list Z) : list Z :=
  match data with
  | [] => []
  | b :: data => hex_byte b ++ hex_encode data
  end.

(** The loop that reads [size] bytes from two digits each; a string that ends has a NUL there. *)
Fixpoint hex_decode (size : nat) (text : list Z) : option (list Z) :=
  match size with
  | O => Some []
  | S size =>
      hi ← hex_value (default NUL (head text));
      lo ← hex_value (default NUL (head (tail text)));
      bs ← hex_decode size (drop 2 text);
      Some (Z.lor (Z.shiftl hi 4) lo :: bs)
  end.

(** [unsigned long] has 64 bits. *)
Definition parse_hex_u32 (text : list Z) : option Z :=
  let '(v, rest, errno_ok) := strtoull16 text in
  if (zlen rest =? zlen text) || negb (zlen rest =? 0) || negb errno_ok || (0xffffffff <? v) then None
  else Some v.

(** [strchr]: what is before the character, and what is after it. *)
Fixpoint cut_at (c : Z) (text : list Z) : option (list Z * list Z) :=
  match text with
  | [] => None
  | x :: text =>
      if x =? c then Some ([], text)
      else '(before, rest) ← cut_at c text; Some (x :: before, rest)
  end.

(** [strspn] for one character; [strstr(text, sub) != NULL]; a string starts with a prefix. *)
Fixpoint strspn (c : Z) (text : list Z) : Z :=
  match text with x :: text => if x =? c then 1 + strspn c text else 0 | [] => 0 end.
Fixpoint starts_with (prefix text : list Z) : bool :=
  match prefix, text with
  | [], _ => true
  | p :: prefix, x :: text => (p =? x) && starts_with prefix text
  | _ :: _, [] => false
  end.
Fixpoint contains (sub text : list Z) : bool :=
  starts_with sub text || match text with [] => false | _ :: text => contains sub text end.
Definition is_string (text : list Z) (s : string) : bool := bool_decide (text = str_of s).

Definition sum_u8 (packet : list Z) : Z := foldl (λ acc ch, Z.land (acc + ch) 0xff) 0 packet.

Section server.
Context {D T C : Type} `{MpuConfig D} `{GdbTarget T} `{RspSocket C}.
#[local] Abbreviation St := (rsp_state D T C).
#[local] Abbreviation cmd := (cmd St).
Implicit Types (s : St).

Definition set_dbg (d : dbg_state) s : St := mkRsp d (r_mpu s) (r_log s) (r_tgt s) (r_conn s).
Definition set_mem (m : mpu_state D) (l : bus_log) s : St := mkRsp (r_dbg s) m l (r_tgt s) (r_conn s).
Definition set_tgt (t : T) s : St := mkRsp (r_dbg s) (r_mpu s) (r_log s) t (r_conn s).
Definition set_conn (c : C) s : St := mkRsp (r_dbg s) (r_mpu s) (r_log s) (r_tgt s) c.

(** A call of the socket. *)
Definition sock {A} (f : C → A * C) : cmd A :=
  c ← get r_conn; let '(a, c) := f c in modify (set_conn c);; mret a.

(** ** Packets *)

Definition read_byte : cmd (option Z) := sock sock_recv.
Definition send (bytes : list Z) : cmd Z := sock (λ c, sock_send c bytes).

(** Skip to the byte [stop]; whether it was found.  A connection that delivers more bytes
    than [n] is not finished: [None]. *)
Fixpoint skip_to (n : nat) (stop : Z) : cmd (option bool) :=
  match n with
  | O => mret None
  | S n =>
      b ← read_byte;
      match b with
      | None => mret (Some false)
      | Some ch => if ch =? stop then mret (Some true) else skip_to n stop
      end
  end.

(** The loop over the body of a packet, up to [#]: the buffer, whose bytes before [len] are
    filled, and the length and sum of the body; no length when the connection ends or the
    [capacity] bytes of the buffer are used up.  Every turn stores one byte, so [n] turns are
    enough when [n] exceeds the capacity; [read_packet] gives it that many. *)
Fixpoint read_body (n : nat) (packet : list Z) (capacity len checksum : Z) : cmd (option (list Z * option (Z * Z))) :=
  match n with
  | O => mret None
  | S n =>
      b ← read_byte;
      match b with
      | None => mret (Some (packet, None))
      | Some ch =>
          if ch =? 35 then mret (Some (packet, Some (len, checksum)))
          else
            let checksum := Z.land (checksum + ch) 0xff in
            if capacity <=? len + 1 then mret (Some (packet, None))
            else packet ← lift (oob (zset packet len ch)); read_body n packet capacity (len + 1) checksum
      end
  end.

Inductive packet_result :=
  | Closed
  | BadChecksum
  | Packet (len : Z).

(** The two digits are read with [strtoul], from an array that a NUL ends. *)
Definition checksum_ok (c1 c2 checksum : Z) : bool :=
  let text := cstring [c1; c2] in
  let '(v, rest, _) := strtoull16 text in
  (zlen rest =? 0) && (u32 v =? checksum).

(** The result and what the function leaves in the buffer [packet], which its caller declares
    as long as the [capacity] it passes.  An empty packet has length 0, which is also what a
    closed connection gives. *)
Definition read_packet (n : nat) (packet : list Z) (capacity : Z) : cmd (option (packet_result * list Z)) :=
  found ← skip_to n 36;
  match found with
  | None => mret None
  | Some false => mret (Some (Closed, packet))
  | Some true =>
      body ← read_body (S (Z.to_nat capacity)) packet capacity 0 0;
      match body with
      | None => mret None
      | Some (packet, None) => mret (Some (Closed, packet))
      | Some (packet, Some (len, checksum)) =>
          c1 ← read_byte;
          match c1 with
          | None => mret (Some (Closed, packet))
          | Some c1 =>
              c2 ← read_byte;
              match c2 with
              | None => mret (Some (Closed, packet))
              | Some c2 =>
                  if checksum_ok c1 c2 checksum then
                    packet ← lift (oob (zset packet len NUL));
                    _ ← send [43];
                    mret (Some (if len =? 0 then Closed else Packet len, packet))
                  else _ ← send [45]; mret (Some (BadChecksum, packet))
              end
          end
      end
  end.

(** The array [frame] of [send_packet].  Its contents are indeterminate; every byte that is
    sent has been written before ([send_packet_frame] in the facts). *)
Definition FRAME_SIZE : Z := RSP_PACKET_SIZE + 8.
Definition frame_array : list Z := replicate (Z.to_nat FRAME_SIZE) 0.
Definition send_packet (packet : list Z) : cmd Z :=
  let len := zlen packet in
  if RSP_PACKET_SIZE <? len then mret (-1)
  else
    frame ← lift (oob (zset frame_array 0 36));
    frame ← lift (oob (bytes_set frame 1 packet));
    (* sprintf ends the text with a NUL *)
    frame ← lift (oob (bytes_set frame (len + 1) (35 :: hex_byte (sum_u8 packet) ++ [NUL])));
    bytes ← lift (oob (bytes_at frame 0 (len + 4)));
    n ← send bytes;
    mret (if n =? len + 4 then 0 else -1).
Definition answer (s : string) : cmd Z := send_packet (str_of s).

Definition stop_reply (signal : Z) : cmd Z :=
  send_packet (str_of "T" ++ hex_byte signal ++ str_of "thread:1;").

(** ** The CPU and its memory *)

Definition on_dbg_run (f : run_state → outcome run_state) : cmd () :=
  d ← get r_dbg; r ← lift (f (d_run d)); modify (set_dbg (with_run r d)).
Definition rsp_set_debug_mode (on : bool) : cmd () :=
  d ← get r_dbg;
  let '(r, e) := cpuctrl_set_debug_mode on (d_run d) in
  modify (set_dbg (with_run r d));; tell (Clock e).
Definition rsp_set_force_break : cmd () := rsp_set_debug_mode true.

(** The wait for the CPU to stop, with the client still listened to.  Every turn lets the
    other threads run for up to 20 milliseconds; [n] bounds the turns. *)
Fixpoint await_stop (n : nat) (stop_signal : Z) : cmd (option Z) :=
  match n with
  | O => mret None
  | S n =>
      call os_sleep;;
      ready ← sock sock_readable;
      b ← (if ready : bool then b ← read_byte; mret (Some b) else mret None);
      match b with
      | Some None =>
          rsp_set_force_break;;
          call dbg_waitfor_cpu_stopped;;
          mret (Some (-1))
      | _ =>
          let interrupt := match b with Some (Some ch) => ch =? 3 | _ => false end in
          (if interrupt then rsp_set_force_break else mret ());;
          let stop_signal := if interrupt then 2 else stop_signal in
          d ← get r_dbg;
          if cpuctrl_is_debug_mode (d_run d) then
            call dbg_waitfor_cpu_stopped;;
            rc ← stop_reply stop_signal;
            mret (Some rc)
          else await_stop n stop_signal
      end
  end.

(** The loop of an [m] packet over [data]: the bytes read, or none on an error. *)
Fixpoint read_guest (n : nat) (address : Z) : cmd (option (list Z)) :=
  match n with
  | O => mret (Some [])
  | S n =>
      s ← get id;
      '(err, v, m, l) ← lift (bus_get_data8 0 (uaddr address) 0 (r_mpu s) (r_log s));
      modify (set_mem m l);;
      if std_ok err then
        rest ← read_guest n (u32 (address + 1));
        mret (bs ← rest; Some (u8 v :: bs))
      else mret None
  end.

(** The loop of an [M] packet: the bytes before a bad digit or a failing store are written. *)
Fixpoint write_guest (n : nat) (address : Z) (text : list Z) : cmd bool :=
  match n with
  | O => mret true
  | S n =>
      match hex_value (default NUL (head text)), hex_value (default NUL (head (tail text))) with
      | Some hi, Some lo =>
          s ← get id;
          '(err, m, l) ← lift (bus_put_data8 0 (uaddr address) (u8 (Z.lor (Z.shiftl hi 4) lo)) (r_mpu s) (r_log s));
          modify (set_mem m l);;
          if std_ok err then write_guest n (u32 (address + 1)) (drop 2 text) else mret false
      | _, _ => mret false
      end
  end.

(** ** Registers *)

(** Digits or [x]s appended to the text in [response], which has room for 8192 and the NUL. *)
Definition append_response (response text : list Z) : cmd (list Z) :=
  lift (if zlen response + zlen text <=? RSP_PACKET_SIZE then Ok (response ++ text) else Fault OutOfBounds).
(** The bytes of a register in [data], of which the target fills in the first. *)
Definition data_fits (size : Z) : cmd () := lift (if size <=? DATA_SIZE then Ok () else Fault OutOfBounds).
Definition unavailable (size : Z) : list Z := replicate (Z.to_nat (u32 (size * 2))) 120.

Definition register_text (size : Z) (v : option (list Z)) : cmd (list Z) :=
  match v with
  | Some bs => bs ← lift (oob (bytes_at bs 0 size)); mret (hex_encode bs)
  | None => mret (unavailable size)
  end.

Fixpoint read_registers (n : nat) (reg : Z) (response : list Z) : cmd (list Z) :=
  match n with
  | O => mret response
  | S n =>
      let size := dbg_target_gdb_reg_size reg in
      data_fits size;;
      v ← get (λ s, dbg_target_gdb_read_reg 0 reg (r_tgt s));
      (* the buffer was zeroed: a target that writes less leaves zeros *)
      t ← (match v with
           | Some bs => bs ← lift (oob (bytes_set (replicate (Z.to_nat size) 0) 0 bs)); mret (hex_encode bs)
           | None => mret (unavailable size)
           end);
      response ← append_response response t;
      read_registers n (reg + 1) response
  end.

(** Whether the target took the bytes of a register. *)
Definition write_register (reg : Z) (bs : list Z) : cmd bool :=
  t ← get r_tgt;
  let '(ok, t) := dbg_target_gdb_write_reg 0 reg bs t in modify (set_tgt t);; mret ok.

(** The loop of a [G] packet over the registers: the rest of the text, or the error. *)
Fixpoint write_registers (n : nat) (reg : Z) (cursor : list Z) : cmd (list Z + string) :=
  match n with
  | O => mret (inl cursor)
  | S n =>
      let size := dbg_target_gdb_reg_size reg in
      let digits := u32 (size * 2) in
      if zlen cursor <? digits then mret (inr "E01"%string)
      else if digits <=? strspn 120 cursor then write_registers n (reg + 1) (drop (Z.to_nat digits) cursor)
      else
        data_fits (s32 size);;
        match hex_decode (Z.to_nat (s32 size)) cursor with
        | None => mret (inr "E01"%string)
        | Some bs =>
            ok ← write_register reg bs;
            if (ok : bool) then write_registers n (reg + 1) (drop (Z.to_nat digits) cursor)
            else mret (inr "E02"%string)
        end
  end.

(** ** Packets that control the CPU *)

(** The loop of a [z] packet: the slots from [i] on; whether one held the address. *)
Fixpoint remove_break (n : nat) (i address : Z) : cmd bool :=
  match n with
  | O => mret false
  | S n =>
      d ← get r_dbg;
      if bool_decide (cpuctrl_get_break i (d_breaks d) = Some address) then
        '(_, b) ← lift (cpuctrl_del_break i (d_breaks d));
        modify (set_dbg (with_breaks b d));;
        mret true
      else remove_break n (i + 1) address
  end.

Definition insert_break (address : Z) : cmd bool :=
  d ← get r_dbg;
  let '(ok, b) := cpuctrl_set_break address BREAK_POINT_TYPE_FOREVER (d_breaks d) in
  modify (set_dbg (with_breaks b d));; mret ok.

(** A packet [Z<type>,<addr>,<size>] or [z<type>,<addr>,<size>], without its first letter. *)
Definition dispatch_break (insert : bool) (args : list Z) : cmd Z :=
  match cut_at 44 args with
  | None => answer "E01"
  | Some (type_text, rest) =>
      match cut_at 44 rest with
      | None => answer "E01"
      | Some (address_text, size_text) =>
          let type := u32 (strtoull16 type_text).1.1 in
          if negb (type =? 0) then send_packet []
          else
            match parse_hex_u32 address_text, parse_hex_u32 size_text with
            | Some address, Some size =>
                if size =? 0 then answer "E01"
                else if insert then ok ← insert_break address; answer (if (ok : bool) then "OK" else "E02")
                else
                  ok ← remove_break (Z.to_nat DBG_CPU_CONTROL_BREAK_SETSIZE) 0 address;
                  answer (if (ok : bool) then "OK" else "E03")
            | _, _ => send_packet []
            end
      end
  end.

(** Stepping or going on; [n] bounds the wait. *)
Definition resume (n : nat) (stepping : bool) : cmd (option Z) :=
  if stepping then
    on_dbg_run (cpuctrl_set_cont_clocks false 0);;
    rsp_set_debug_mode true;;
    call dbg_wakeup_cpu_and_wait_for_cpu_stopped;;
    rc ← stop_reply 5; mret (Some rc)
  else
    on_dbg_run (cpuctrl_set_cont_clocks false 0);;
    rsp_set_debug_mode false;;
    call dbg_wakeup_cpu;;
    await_stop n 5.

Definition dispatch_resume (n : nat) (packet : list Z) : cmd (option Z) :=
  let first := default NUL (head packet) in
  let args := tail packet in
  let stepping := (first =? 115) || starts_with (str_of "vCont;s") packet || contains (str_of ";s") packet in
  if negb (bool_decide (args = [])) && negb (first =? 118) then
    match parse_hex_u32 args with
    | None => rc ← answer "E01"; mret (Some rc)
    | Some address =>
        t ← get r_tgt; modify (set_tgt (dbg_target_gdb_set_pc 0 address t));;
        resume n stepping
    end
  else resume n stepping.

(** ** Packets for memory and registers *)

Definition dispatch_read_memory (args : list Z) : cmd Z :=
  match cut_at 44 args with
  | None => answer "E01"
  | Some (address_text, length_text) =>
      if 32 <=? zlen address_text then answer "E01"
      else
        match parse_hex_u32 address_text, parse_hex_u32 length_text with
        | Some address, Some length =>
            if DATA_SIZE <? length then answer "E01"
            else
              o ← read_guest (Z.to_nat length) address;
              match o with
              | None => answer "E02"
              | Some data => response ← append_response [] (hex_encode data); send_packet response
              end
        | _, _ => answer "E01"
        end
  end.

Definition dispatch_write_memory (args : list Z) : cmd Z :=
  match cut_at 44 args with
  | None => answer "E01"
  | Some (address_text, rest) =>
      match cut_at 58 rest with
      | None => answer "E01"
      | Some (length_text, text) =>
          match parse_hex_u32 address_text, parse_hex_u32 length_text with
          | Some address, Some length =>
              if (DATA_SIZE <? length) || negb (zlen text =? length * 2) then answer "E01"
              else ok ← write_guest (Z.to_nat length) address text; answer (if (ok : bool) then "OK" else "E02")
          | _, _ => answer "E01"
          end
      end
  end.

(** The text of an empty image is never written. *)
Definition dispatch_read_registers : cmd Z :=
  response ← read_registers (Z.to_nat dbg_target_gdb_reg_count) 0 [];
  if dbg_target_gdb_reg_count =? 0 then lift (Fault OutOfBounds) else send_packet response.

(** The number of a register that exists. *)
Definition register_number (text : list Z) : option Z :=
  regno ← parse_hex_u32 text; if dbg_target_gdb_reg_count <=? regno then None else Some regno.

Definition dispatch_read_register (args : list Z) : cmd Z :=
  match register_number args with
  | None => answer "E01"
  | Some regno =>
      let size := dbg_target_gdb_reg_size regno in
      data_fits size;;
      v ← get (λ s, dbg_target_gdb_read_reg 0 regno (r_tgt s));
      t ← register_text size v;
      response ← append_response [] t; send_packet response
  end.

Definition dispatch_write_register (args : list Z) : cmd Z :=
  match cut_at 61 args with
  | None => answer "E01"
  | Some (regno_text, value) =>
      match register_number regno_text with
      | None => answer "E01"
      | Some regno =>
          let size := dbg_target_gdb_reg_size regno in
          let digits := u32 (size * 2) in
          if negb (zlen value =? digits) then answer "E01"
          else if strspn 120 value =? digits then answer "OK"
          else
            data_fits (s32 size);;
            match hex_decode (Z.to_nat (s32 size)) value with
            | None => answer "E01"
            | Some bs => ok ← write_register regno bs; answer (if (ok : bool) then "OK" else "E02")
            end
      end
  end.

Definition dispatch_write_registers (args : list Z) : cmd Z :=
  r ← write_registers (Z.to_nat dbg_target_gdb_reg_count) 0 args;
  match r with
  | inr e => answer e
  | inl cursor => answer (if bool_decide (cursor = []) then "OK" else "E01")
  end.

(** ** One packet

    The result of the C function and [should_close]; none while the wait for a stop goes on.
    The C string in the buffer ends at its first NUL. *)
Definition dispatch_packet (n : nat) (bytes : list Z) : cmd (option (Z * bool)) :=
  let packet := cstring bytes in
  let first := default NUL (head packet) in
  let args := tail packet in
  let go (m : cmd Z) : cmd (option (Z * bool)) := rc ← m; mret (Some (rc, false)) in
  if starts_with (str_of "qSupported") packet then go (answer "PacketSize=2000;vContSupported+")
  else if is_string packet "?" then go (stop_reply 5)
  else if is_string packet "qAttached" then go (answer "1")
  else if is_string packet "qC" then go (answer "QC1")
  else if is_string packet "qfThreadInfo" then go (answer "m1")
  else if is_string packet "qsThreadInfo" then go (answer "l")
  else if first =? 72 then go (answer "OK")
  else if is_string packet "vCont?" then go (answer "vCont;c;s")
  else if is_string packet "D" then rc ← answer "OK"; mret (Some (rc, true))
  else if first =? 107 then mret (Some (1, true))
  else if first =? 103 then go dispatch_read_registers
  else if first =? 112 then go (dispatch_read_register args)
  else if first =? 80 then go (dispatch_write_register args)
  else if first =? 71 then go (dispatch_write_registers args)
  else if first =? 109 then go (dispatch_read_memory args)
  else if first =? 90 then go (dispatch_break true args)
  else if first =? 122 then go (dispatch_break false args)
  else if (first =? 99) || (first =? 115) || starts_with (str_of "vCont;c") packet || starts_with (str_of "vCont;s") packet then
    o ← dispatch_resume n packet; mret (rc ← o; Some (rc, false))
  else if first =? 77 then go (dispatch_write_memory args)
  else go (send_packet []).

(** ** The server *)

(** The loop over the packets of a connection: whether the server ends, and its buffer.  [n]
    bounds the packets, and each wait inside of one.  What [dispatch_packet] cuts in the
    buffer is not kept here: the next packet is stored over it, up to its NUL, before the
    buffer is read again. *)
Fixpoint serve_client (n : nat) (packet : list Z) : cmd (option (bool * list Z)) :=
  match n with
  | O => mret None
  | S n' =>
      p ← read_packet n packet (RSP_PACKET_SIZE + 1);
      match p with
      | None => mret None
      | Some (Closed, packet) => mret (Some (false, packet))
      | Some (BadChecksum, packet) => serve_client n' packet
      | Some (Packet _, packet) =>
          o ← dispatch_packet n packet;
          match o with
          | None => mret None
          | Some (result, should_close) =>
              if 0 <? result then mret (Some (true, packet))
              else if (result <? 0) || should_close then mret (Some (false, packet))
              else serve_client n' packet
          end
      end
  end.

(** Break points belong to the session before. *)
Definition new_session : cmd () :=
  d ← get r_dbg;
  b ← lift (cpuctrl_del_all_break BREAK_POINT_TYPE_FOREVER (d_breaks d));
  modify (set_dbg (with_breaks b d));;
  call dbg_waitfor_cpu_stopped.

Fixpoint accept_loop (n : nat) (packet : list Z) : cmd (option Z) :=
  match n with
  | O => mret None
  | S n' =>
      call os_sleep;;
      connected ← sock sock_accept;
      if negb connected then accept_loop n' packet
      else
        new_session;;
        o ← serve_client n packet;
        match o with
        | None => mret None
        | Some (true, _) =>
            modify (λ s, set_conn (sock_close_client (r_conn s)) s);;
            modify (λ s, set_conn (sock_close_server (r_conn s)) s);;
            mret (Some 1)
        | Some (false, packet) =>
            modify (λ s, set_conn (sock_close_client (r_conn s)) s);; accept_loop n' packet
        end
  end.

(** [packet] is what the array of [RSP_PACKET_SIZE + 1] bytes holds before it is used. *)
Definition gdb_rsp_run (n : nat) (port : Z) (packet : list Z) : cmd (option Z) :=
  created ← sock sock_create;
  if negb created then mret (Some (-1))
  else
    ok ← sock (sock_bind_listen port);
    if negb ok then modify (λ s, set_conn (sock_close_server (r_conn s)) s);; mret (Some (-1))
    else
      say [Lit "gdb server listening on port "; Dec port];;
      accept_loop n packet.
End server.
