(* ===== verification/GdbRspFacts.v ===== *)
(** * The GDB remote serial protocol: facts

    The server never leaves its buffers, whatever bytes arrive; a packet that is sent is the
    packet that is read; memory written by the client is the memory it reads back; the break
    points are the set the client made of them. *)

From Stdlib Require Import String.
From S2P Require Import Prelude SymbolOps CpuControl CpuControlFacts CpuCallback Mpu MpuFacts Bus Token TokenFacts DbgExecutor DbgExecutorFacts DwarfLine GdbRsp.
From stdpp Require Import gmap.
Open Scope Z_scope.

(** ** Running on from a known state *)

Section then_run.
Context {S : Type}.
Lemma get_then {A B} (f : S → A) (k : A → cmd S B) s : (get f ≫= k) s = k (f s) s.
Proof. apply after_nil. Qed.
Lemma modify_then {B} f (k : () → cmd S B) s : (modify f ≫= k) s = k () (f s).
Proof. apply after_nil. Qed.
Lemma lift_then {A B} (m : outcome A) a (k : A → cmd S B) s : m = Ok a → (lift m ≫= k) s = k a s.
Proof. intros ->. apply after_nil. Qed.
Lemma ret_then {A B} (a : A) (k : A → cmd S B) s : (mret a ≫= k) s = k a s.
Proof. apply after_nil. Qed.
Lemma lift_in_then {A B E} (m : outcome A) a (f : A → cmd S B) (k : B → cmd S E) s : m = Ok a →
  ((lift m ≫= f) ≫= k) s = (f a ≫= k) s.
Proof. intros ->. unfold mbind, cmd_bind, lift. cbn. by rewrite after_nil. Qed.
Lemma done_then {A B} (m : cmd S A) (k : A → cmd S B) s s' a : m s = Done [] s' a → (m ≫= k) s = k a s'.
Proof. intros Hm. unfold mbind, cmd_bind. rewrite Hm. apply after_nil. Qed.
(** A store inside of an array. *)
Lemma store_then {A B} (l : list A) i x (k : list A → cmd S B) s : 0 ≤ i < zlen l →
  (lift (oob (zset l i x)) ≫= k) s = k (zput l i x) s.
Proof. intros Hi. apply lift_then. by rewrite (proj2 (zset_Some _ _ _ _) (conj Hi eq_refl)). Qed.
Lemma stores_then {B} l off bs (k : list Z → cmd S B) s : 0 ≤ off → off + zlen bs ≤ zlen l →
  (lift (oob (bytes_set l off bs)) ≫= k) s = k (bytes_put l off bs) s.
Proof. intros Ho Hl. apply lift_then. by rewrite (proj2 (bytes_set_Some _ _ _ _) (conj Ho (conj Hl eq_refl))). Qed.
End then_run.

(** ** Programs that never crash

    [safe I r]: from here on the program never crashes, and it hands over and ends in states
    that satisfy [I], if it is resumed in such states. *)
Section safe.
Context {S : Type} (I : S → Prop).

Fixpoint safe {A} (r : result S A) : Prop :=
  match r with
  | Done _ s _ => I s
  | Crash _ _ => False
  | Exit _ => True
  | Call _ _ s k => I s ∧ ∀ s', I s' → safe (k s')
  end.
(** A program all of whose runs from [I] are safe; one whose result also satisfies [Q]. *)
Definition safe_cmd {A} (m : cmd S A) : Prop := ∀ s, I s → safe (m s).
Fixpoint returns {A} (Q : A → Prop) (r : result S A) : Prop :=
  match r with
  | Done _ s a => I s ∧ Q a
  | Crash _ _ => False
  | Exit _ => True
  | Call _ _ s k => I s ∧ ∀ s', I s' → returns Q (k s')
  end.

Lemma returns_after {A} (Q : A → Prop) o (r : result S A) : returns Q (after o r) ↔ returns Q r.
Proof. by destruct r. Qed.
Lemma safe_returns {A} (r : result S A) : safe r ↔ returns (λ _, True) r.
Proof.
  induction r as [o s a|o f|o|o c s k IH]; cbn; [tauto|tauto|tauto|].
  split; intros [Hs Hk]; (split; [exact Hs|]); intros s' Hs'; by apply IH, Hk.
Qed.
Lemma returns_bind {A B} (Q : A → Prop) (R : B → Prop) (f : A → cmd S B) (r : result S A) :
  returns Q r → (∀ a s, Q a → I s → returns R (f a s)) → returns R (result_bind f r).
Proof.
  intros Hr Hf. induction r as [o s a|o e|o|o c s k IH]; cbn in *; [|done|done|].
  - apply returns_after. by apply Hf; destruct Hr.
  - destruct Hr as [Hs Hk]. split; [exact Hs|]. intros s' Hs'. by apply IH, Hk.
Qed.
Lemma safe_bind {A B} (m : cmd S A) (f : A → cmd S B) : safe_cmd m → (∀ a, safe_cmd (f a)) → safe_cmd (m ≫= f).
Proof.
  intros Hm Hf s Hs. apply safe_returns, (returns_bind (λ _, True)); [by apply safe_returns, Hm|].
  intros a s' _ Hs'. by apply safe_returns, Hf.
Qed.
Lemma safe_bind_with {A B} (Q : A → Prop) (m : cmd S A) (f : A → cmd S B) :
  (∀ s, I s → returns Q (m s)) → (∀ a, Q a → safe_cmd (f a)) → safe_cmd (m ≫= f).
Proof.
  intros Hm Hf s Hs. apply safe_returns, (returns_bind Q); [by apply Hm|].
  intros a s' Ha Hs'. by apply safe_returns, Hf.
Qed.
(** A program whose result satisfies [Q], put together from such programs. *)
Definition gives {A} (Q : A → Prop) (m : cmd S A) : Prop := ∀ s, I s → returns Q (m s).
Lemma gives_bind {A B} (Q : A → Prop) (R : B → Prop) (m : cmd S A) (f : A → cmd S B) :
  gives Q m → (∀ a, Q a → gives R (f a)) → gives R (m ≫= f).
Proof. intros Hm Hf s Hs. apply (returns_bind Q); [by apply Hm|]. intros a s' Ha. by apply Hf. Qed.
Lemma gives_safe {A} (m : cmd S A) : safe_cmd m ↔ gives (λ _, True) m.
Proof. by split; intros Hm s Hs; apply safe_returns, Hm. Qed.
Lemma gives_then {A B} (R : B → Prop) (m : cmd S A) (f : A → cmd S B) :
  safe_cmd m → (∀ a, gives R (f a)) → gives R (m ≫= f).
Proof. intros Hm%gives_safe Hf. by apply (gives_bind (λ _, True)). Qed.
Lemma gives_ret {A} (Q : A → Prop) a : Q a → gives Q (mret a).
Proof. by intros Ha s Hs. Qed.
Lemma gives_store {A B} (R : B → Prop) (l : list A) i x (f : list A → cmd S B) :
  0 ≤ i < zlen l → gives R (f (zput l i x)) → gives R (lift (oob (zset l i x)) ≫= f).
Proof. intros Hi Hf s Hs. rewrite store_then by done. by apply Hf. Qed.
Lemma safe_ret {A} (a : A) : safe_cmd (mret a).
Proof. by intros s Hs. Qed.
Lemma safe_get {A} (f : S → A) : safe_cmd (get f).
Proof. by intros s Hs. Qed.
Lemma safe_modify f : (∀ s, I s → I (f s)) → safe_cmd (modify f).
Proof. intros Hf s Hs. by apply Hf. Qed.
Lemma safe_tell e : safe_cmd (tell e).
Proof. by intros s Hs. Qed.
Lemma safe_call c : safe_cmd (call c).
Proof. intros s Hs. by split. Qed.
Lemma safe_lift {A} (m : outcome A) : is_ok m → safe_cmd (lift m).
Proof. intros [a ->] s Hs. exact Hs. Qed.
(** A program that starts by looking at the state. *)
Lemma safe_state {A B} (f : S → A) (k : A → cmd S B) :
  (∀ s, I s → safe (k (f s) s)) → safe_cmd (get f ≫= k).
Proof. intros Hk s Hs. rewrite get_then. by apply Hk. Qed.
End safe.

Section facts.
Context {D T C : Type} `{MpuConfig D} `{GdbTarget T} `{RspSocket C}.
#[local] Abbreviation St := (rsp_state D T C).
#[local] Abbreviation cmd := (cmd St).
Implicit Types (s : St).

(** What holds between two packets. *)
Record rsp_wf (cores : Z) s : Prop := {
  rw_dbg : dbg_wf cores (r_dbg s);
  rw_core : 0 ≤ stopped_core_id (dbg_cpu_stopped_core (d_run (r_dbg s))) < cores;
  rw_mpu : mpu_wf (r_mpu s);
  rw_log : log_wf (r_log s);
}.

(** What the server relies on in the adapter of a target: it has registers, their image fits
    a packet, and a register that is read gives as many bytes as it has. *)
#[local] Abbreviation count := (dbg_target_gdb_reg_count (T := T)).
#[local] Abbreviation reg_size := (dbg_target_gdb_reg_size (T := T)).
Fixpoint image_size (n : nat) (reg : Z) : Z :=
  match n with O => 0 | S n => reg_size reg + image_size n (reg + 1) end.
Record target_ok : Prop := {
  to_count : 0 < count;
  to_size : ∀ reg, 0 ≤ reg < count → 0 ≤ reg_size reg;
  to_image : image_size (Z.to_nat count) 0 ≤ DATA_SIZE;
  to_read : ∀ core reg (t : T) bs, dbg_target_gdb_read_reg core reg t = Some bs → zlen bs = reg_size reg;
}.

(** ** The frame of a packet *)

Definition frame_of (packet : list Z) : list Z := 36 :: packet ++ 35 :: hex_byte (sum_u8 packet).
Lemma zlen_frame_of p : zlen (frame_of p) = zlen p + 4.
Proof. unfold frame_of, hex_byte, zlen. cbn [length]. rewrite length_app. cbn [length]. lia. Qed.
Lemma zlen_frame_array : zlen frame_array = FRAME_SIZE.
Proof. unfold zlen, frame_array. rewrite length_replicate. done. Qed.

(** A packet of at most [RSP_PACKET_SIZE] bytes fits the array; what is sent is its frame, and
    no byte of it comes from the array as it was. *)
Lemma send_packet_frame p s : zlen p ≤ RSP_PACKET_SIZE →
  send_packet p s = (n ← send (frame_of p); mret (if n =? zlen p + 4 then 0 else -1)) s.
Proof.
  intros Hp. pose proof (zlen_nonneg p) as Hn. unfold send_packet. cbv zeta. rewrite (proj2 (Z.ltb_ge _ _)) by done.
  pose proof zlen_frame_array as Hf. unfold FRAME_SIZE, RSP_PACKET_SIZE in *.
  set (tail := 35 :: hex_byte (sum_u8 p) ++ [NUL]). assert (zlen tail = 4) as Ht by done.
  rewrite store_then by lia. rewrite stores_then by (rewrite ?zlen_zput; lia).
  change (bytes_put (zput frame_array 0 36) 1 p) with (bytes_put (zput frame_array 0 36) (0 + 1) p).
  rewrite (bytes_put_cons frame_array 0 36 p) by lia.
  assert (zlen (36 :: p) = zlen p + 1) as Hz1 by (unfold zlen; cbn [length]; lia).
  assert (zlen (bytes_put frame_array 0 (36 :: p)) = 8192 + 8) as Hz2 by (rewrite bytes_put_len; lia).
  rewrite stores_then by lia.
  replace (zlen p + 1) with (0 + zlen (36 :: p)) by lia. rewrite bytes_put_app by lia.
  assert ((36 :: p) ++ tail = frame_of p ++ [NUL]) as ->. { unfold frame_of, tail. cbn [app]. by rewrite <- app_assoc. }
  pose proof (zlen_frame_of p) as Hz3.
  rewrite (lift_then _ (frame_of p)); [done|]. rewrite <- Hz3, bytes_at_put_prefix; [done|lia|]. rewrite zlen_app. change (zlen [NUL]) with 1. lia.
Qed.

(** ** The server stays inside its buffers *)

#[local] Opaque frame_array bytes_set zset.

Section safety.
Context (cores : Z) (Hext : external_ok) (Htarget : target_ok).
#[local] Abbreviation I := (rsp_wf cores).
#[local] Abbreviation ok := (safe_cmd I).

Lemma ok_sock {A} (f : C → A * C) : ok (sock f).
Proof.
  apply safe_state. intros s Hs. destruct (f (r_conn s)) as [a c]. apply safe_bind; [|intros; apply safe_ret|done].
  apply safe_modify. clear. by intros s [? ? ? ?].
Qed.
Lemma ok_modify_dbg d : (∀ s, I s → I (set_dbg d s)) → ok (modify (set_dbg d)).
Proof. apply safe_modify. Qed.

Lemma ok_send_packet p : ok (send_packet p).
Proof.
  intros s Hs. destruct (decide (zlen p ≤ RSP_PACKET_SIZE)) as [Hp|Hp].
  - rewrite send_packet_frame by done. revert s Hs. apply safe_bind; [apply ok_sock|intros; apply safe_ret].
  - unfold send_packet. cbv zeta. by rewrite (proj2 (Z.ltb_lt _ _)) by lia.
Qed.
Lemma ok_answer a : ok (answer a).
Proof. apply ok_send_packet. Qed.

(** A program that only uses the socket and the state. *)
Ltac safe_step :=
  match goal with
  | |- safe_cmd _ (mbind _ _) => apply safe_bind; [|intros ?]
  | |- safe_cmd _ (mret _) => apply safe_ret
  | |- safe_cmd _ (get _) => apply safe_get
  | |- safe_cmd _ (tell _) => apply safe_tell
  | |- safe_cmd _ (say _) => apply safe_tell
  | |- safe_cmd _ (call _) => apply safe_call
  | |- safe_cmd _ (sock _) => apply ok_sock
  | |- safe_cmd _ read_byte => apply ok_sock
  | |- safe_cmd _ (send _) => apply ok_sock
  | |- safe_cmd _ (send_packet _) => apply ok_send_packet
  | |- safe_cmd _ (answer _) => apply ok_answer
  | |- safe_cmd _ (stop_reply _) => apply ok_send_packet
  | |- safe_cmd _ (match ?x with _ => _ end) => destruct x
  | |- safe_cmd _ (let _ := _ in _) => cbv zeta
  end.

Lemma ok_set_debug_mode on : ok (rsp_set_debug_mode on).
Proof.
  apply safe_state. intros s [Hd Hc Hm Hl]. destruct (cpuctrl_set_debug_mode on (d_run (r_dbg s))) as [r e] eqn:E.
  assert (dbg_cpu_cont r = dbg_cpu_cont (d_run (r_dbg s)) ∧ dbg_cpu_debug_mode r = dbg_cpu_debug_mode (d_run (r_dbg s)) ∧
    dbg_cpu_stopped_core r = dbg_cpu_stopped_core (d_run (r_dbg s))) as (E1 & E2 & E3).
  { unfold cpuctrl_set_debug_mode in E. destruct on; by injection E as <- _. }
  cbn. split; [|cbn; by rewrite E3|done|done]. destruct Hd. split; cbn; rewrite ?E1, ?E2; done.
Qed.
Lemma ok_cont_clocks timeout clocks : ok (on_dbg_run (cpuctrl_set_cont_clocks timeout clocks)).
Proof.
  apply safe_state. intros s [Hd Hc Hm Hl]. unfold cpuctrl_set_cont_clocks.
  erewrite (proj2 (zset_Some _ _ _ _)); [|split; [by rewrite (dw_cont _ _ Hd)|reflexivity]].
  cbn. split; [|done..]. destruct Hd. split; cbn; rewrite ?zlen_zput; done.
Qed.

Lemma ok_await n sig : ok (await_stop n sig).
Proof.
  revert sig. induction n as [|n IH]; intros sig; cbn [await_stop]; [apply safe_ret|]. unfold rsp_set_force_break.
  repeat (apply IH || apply ok_set_debug_mode || safe_step).
Qed.

Lemma ok_resume n stepping : ok (resume n stepping).
Proof. unfold resume. repeat (apply ok_await || apply ok_set_debug_mode || apply ok_cont_clocks || safe_step). Qed.

Lemma ok_dispatch_resume n p : ok (dispatch_resume n p).
Proof.
  unfold dispatch_resume. cbv zeta. repeat (apply ok_resume || safe_step).
  apply safe_modify. by intros s [? ? ? ?].
Qed.

(** The bytes an [m] packet reads are as many as it asked for. *)
Lemma returns_read_guest n address s : I s → returns I (λ o, ∀ bs, o = Some bs → zlen bs = Z.of_nat n) (read_guest n address s).
Proof.
  revert address s. induction n as [|n IH]; intros address s Hs; cbn [read_guest]; [by split; [|intros ? [= <-]]|].
  rewrite get_then.
  destruct (mpu_get_data_ok W8 0 (uaddr address) 0 (r_mpu s) Hext (rw_mpu _ _ Hs) ltac:(done)) as (err & v & m & Hg & Hm).
  destruct (set_log_ok (mkAccess BUS_ACCESS_TYPE_READ (nbytes W8) (uaddr address) v) (r_log s) (rw_log _ _ Hs)) as (l & Hlog & Hl & _);
    [done|].
  rewrite (lift_then _ (err, v, m, l)).
  2: { unfold bus_get_data8, bus_get_data. cbn [id]. rewrite Hg. cbn [mbind outcome_bind]. by rewrite Hlog. }
  rewrite modify_then. assert (I (set_mem m l s)) as Hs' by (destruct Hs; by split). revert Hs'. generalize (set_mem m l s).
  intros s' Hs'. destruct (std_ok err); [|by split].
  eapply returns_bind; [by apply IH|]. intros o s2 Ho Hs2. split; [done|]. intros bs. destruct o as [b|]; [|done].
  intros [= <-]. specialize (Ho b eq_refl). unfold zlen in *. cbn. lia.
Qed.

Lemma ok_write_guest n address text : ok (write_guest n address text).
Proof.
  revert address text. induction n as [|n IH]; intros address text; cbn [write_guest]; [apply safe_ret|].
  destruct (hex_value _) as [hi|]; [|apply safe_ret]. destruct (hex_value _) as [lo|]; [|apply safe_ret].
  set (v := u8 _). apply safe_state. intros s Hs.
  destruct (mpu_put_data_ok W8 0 (uaddr address) v (r_mpu s) Hext (rw_mpu _ _ Hs) ltac:(done)) as (err & m & Hg & Hm).
  destruct (set_log_ok (mkAccess BUS_ACCESS_TYPE_WRITE (nbytes W8) (uaddr address) v) (r_log s) (rw_log _ _ Hs)) as (l & Hlog & Hl & _);
    [done|].
  rewrite (lift_then _ (err, m, l)).
  2: { unfold bus_put_data8, bus_put_data. cbn [id]. rewrite Hlog. cbn [mbind outcome_bind]. by rewrite Hg. }
  rewrite modify_then. assert (I (set_mem m l s)) as Hs' by (destruct Hs; by split). revert Hs'. generalize (set_mem m l s).
  destruct (std_ok err); [apply IH|apply safe_ret].
Qed.

Lemma hex_encode_len data : zlen (hex_encode data) = 2 * zlen data.
Proof. unfold zlen. induction data as [|b data IH]; [done|]. cbn [hex_encode hex_byte app length]. lia. Qed.

(** What [append_response] needs, and gives. *)
Lemma returns_append response text s : I s → zlen response + zlen text ≤ RSP_PACKET_SIZE →
  returns I (λ r, r = response ++ text) (append_response response text s).
Proof. intros Hs Hl. unfold append_response, lift. by rewrite (proj2 (Z.leb_le _ _) Hl). Qed.

Lemma parse_hex_range text v : parse_hex_u32 text = Some v → 0 ≤ v ≤ 0xffffffff.
Proof.
  unfold parse_hex_u32. destruct (strtoull16 text) as [[w rest] e] eqn:E. split_if; [done|]. intros [= <-].
  enough (0 ≤ w) by lia. clear -E. unfold strtoull16 in E. destruct (get_sign _) as [neg s1]. destruct (span_digits _ _) as [ds r].
  assert (0 ≤ digits_val 16 ds) as Hd.
  { clear E. unfold digits_val. assert (∀ acc, 0 ≤ acc → 0 ≤ foldl (λ v c, v * 16 + default 0 (digit_of c)) acc ds) as Hf; [|by apply Hf].
    induction ds as [|c ds IH]; intros acc Hacc; cbn [foldl]; [done|]. apply IH.
    assert (0 ≤ default 0 (digit_of c)) by (unfold digit_of; repeat split_if; cbn; unfold id; lia). lia. }
  destruct ds; [by injection E as <- _ _|]. revert E. repeat case_match; intros [= <- _ _]; [done| |done].
  by apply (wrap_in_width 64).
Qed.

Lemma ok_read_memory args : ok (dispatch_read_memory args).
Proof.
  unfold dispatch_read_memory. destruct (cut_at 44 args) as [[a l]|]; [|apply ok_answer].
  destruct (32 <=? _); [apply ok_answer|].
  destruct (parse_hex_u32 a) as [address|]; [|apply ok_answer]. destruct (parse_hex_u32 l) as [length|] eqn:El; [|apply ok_answer].
  destruct (Z.ltb_spec DATA_SIZE length) as [|Hlen]; [apply ok_answer|].
  apply (safe_bind_with _ (λ o, ∀ bs, o = Some bs → zlen bs = Z.of_nat (Z.to_nat length))); [intros; by apply returns_read_guest|].
  intros [data|] Ho; [|apply ok_answer]. specialize (Ho data eq_refl). pose proof (parse_hex_range _ _ El).
  apply (safe_bind_with _ (λ _, True)); [|intros; apply ok_send_packet]. intros s Hs.
  unfold append_response, lift. rewrite hex_encode_len.
  rewrite (proj2 (Z.leb_le _ _)); [done|]. unfold RSP_PACKET_SIZE, DATA_SIZE in *. change (zlen (@nil Z)) with 0. lia.
Qed.

Lemma ok_write_memory args : ok (dispatch_write_memory args).
Proof. unfold dispatch_write_memory. repeat (apply ok_write_guest || safe_step). Qed.

Lemma image_part n k : (∀ reg, k ≤ reg < k + Z.of_nat n → 0 ≤ reg_size reg) → 0 ≤ image_size n k ∧
  ∀ reg, k ≤ reg < k + Z.of_nat n → reg_size reg ≤ image_size n k.
Proof.
  revert k. induction n as [|n IH]; intros k Hs; cbn [image_size]; [split; [done|lia]|].
  destruct (IH (k + 1)) as [Hn Hle]; [intros; apply Hs; lia|]. pose proof (Hs k ltac:(lia)). split; [lia|].
  intros reg Hr. destruct (decide (reg = k)) as [->|]; [lia|]. pose proof (Hle reg ltac:(lia)). lia.
Qed.
Lemma reg_size_bound reg : 0 ≤ reg < count → 0 ≤ reg_size reg ≤ DATA_SIZE.
Proof.
  intros Hr. destruct (image_part (Z.to_nat count) 0) as [_ Hle]; [intros; apply (to_size Htarget); lia|].
  pose proof (to_image Htarget). pose proof (to_size Htarget reg Hr). pose proof (Hle reg ltac:(lia)). lia.
Qed.
Lemma reg_digits reg : 0 ≤ reg < count → u32 (reg_size reg * 2) = reg_size reg * 2 ∧ s32 (reg_size reg) = reg_size reg.
Proof.
  intros Hr%reg_size_bound. unfold DATA_SIZE in Hr. unfold s32. rewrite !wrap_id by (unfold in_width; lia). lia.
Qed.

Lemma unavailable_len reg : 0 ≤ reg < count → zlen (unavailable (reg_size reg)) = 2 * reg_size reg.
Proof.
  intros Hr. unfold unavailable, zlen. rewrite length_replicate, (proj1 (reg_digits reg Hr)). pose proof (reg_size_bound reg Hr). lia.
Qed.
Lemma data_fits_then {B} reg (k : () → cmd B) s : 0 ≤ reg < count → (data_fits (reg_size reg) ≫= k) s = k () s.
Proof. intros Hr. apply lift_then. pose proof (reg_size_bound reg Hr). by rewrite (proj2 (Z.leb_le _ _)) by lia. Qed.
Lemma append_then {B} response text (k : list Z → cmd B) s : zlen response + zlen text ≤ RSP_PACKET_SIZE →
  (append_response response text ≫= k) s = k (response ++ text) s.
Proof. intros Hl. apply lift_then. by rewrite (proj2 (Z.leb_le _ _)) by lia. Qed.

Lemma ok_read_registers n reg response : 0 ≤ reg → reg + Z.of_nat n ≤ count →
  zlen response + 2 * image_size n reg ≤ RSP_PACKET_SIZE → ok (read_registers n reg response).
Proof.
  revert reg response. induction n as [|n IH]; intros reg response Hr Hn Hfit s Hs; cbn [read_registers]; [done|].
  cbn [image_size] in Hfit. pose proof (reg_size_bound reg ltac:(lia)) as Hb. cbv zeta.
  destruct (image_part n (reg + 1)) as [Hpos _]; [intros; apply (to_size Htarget); lia|].
  rewrite data_fits_then, get_then by lia. destruct (dbg_target_gdb_read_reg 0 reg (r_tgt s)) as [bs|] eqn:E.
  - pose proof (to_read Htarget _ _ _ _ E) as Hl.
    rewrite (lift_in_then _ bs).
    2: { erewrite (proj2 (bytes_set_Some _ _ _ _)); [reflexivity|]. unfold bytes_put, zlen in *. rewrite length_replicate.
         split_and!; [done|lia|]. rewrite drop_ge, app_nil_r by (rewrite length_replicate; lia). done. }
    rewrite ret_then, append_then by (rewrite hex_encode_len; lia). apply IH; [lia|lia| |done]. rewrite zlen_app, hex_encode_len. lia.
  - rewrite ret_then, append_then by (rewrite unavailable_len; lia). apply IH; [lia|lia| |done]. rewrite zlen_app, unavailable_len; lia.
Qed.

Lemma ok_dispatch_read_registers : ok dispatch_read_registers.
Proof.
  unfold dispatch_read_registers. pose proof (to_count Htarget). rewrite (proj2 (Z.eqb_neq count 0)) by lia.
  apply safe_bind; [|intros; apply ok_send_packet]. apply ok_read_registers; [lia|lia|].
  pose proof (to_image Htarget). unfold RSP_PACKET_SIZE, DATA_SIZE in *. change (zlen (@nil Z)) with 0. lia.
Qed.

Lemma register_number_range text regno : register_number (T := T) text = Some regno → 0 ≤ regno < count.
Proof.
  unfold register_number. intros (v & Hv & Hr)%bind_Some. apply parse_hex_range in Hv. split_if_in Hr; [done|].
  injection Hr as <-. lia.
Qed.

Lemma ok_dispatch_read_register args : ok (dispatch_read_register args).
Proof.
  unfold dispatch_read_register. destruct (register_number args) as [regno|] eqn:E; [|apply ok_answer].
  pose proof (register_number_range _ _ E) as Hr. pose proof (reg_size_bound _ Hr). unfold DATA_SIZE in *.
  intros s Hs. cbv zeta. rewrite data_fits_then, get_then by done. destruct (dbg_target_gdb_read_reg 0 regno (r_tgt s)) as [bs|] eqn:Er.
  - pose proof (to_read Htarget _ _ _ _ Er) as Hl. cbn [register_text]. rewrite (lift_in_then _ bs).
    2: { unfold bytes_at. rewrite Hl. replace (_ && _ && _) with true by lia. cbn. f_equal. apply take_ge. unfold zlen in Hl. lia. }
    rewrite ret_then, append_then; [by apply ok_send_packet|]. rewrite hex_encode_len. change (zlen (@nil Z)) with 0. unfold RSP_PACKET_SIZE. lia.
  - cbn [register_text]. rewrite ret_then, append_then; [by apply ok_send_packet|]. rewrite unavailable_len by done.
    change (zlen (@nil Z)) with 0. unfold RSP_PACKET_SIZE. lia.
Qed.

Lemma ok_write_register reg bs : ok (write_register reg bs).
Proof.
  apply safe_state. intros s Hs. destruct (dbg_target_gdb_write_reg 0 reg bs (r_tgt s)) as [b t].
  rewrite modify_then. by destruct Hs.
Qed.

Lemma ok_dispatch_write_register args : ok (dispatch_write_register args).
Proof.
  unfold dispatch_write_register. destruct (cut_at 61 args) as [[r value]|]; [|apply ok_answer].
  destruct (register_number r) as [regno|] eqn:E; [|apply ok_answer]. pose proof (register_number_range _ _ E) as Hr. cbv zeta.
  destruct (reg_digits _ Hr) as [-> ->]. repeat (case_match; try apply ok_answer).
  - intros s Hs. rewrite data_fits_then by done. revert s Hs. apply safe_bind; [apply ok_write_register|intros; apply ok_answer].
  - intros s Hs. rewrite data_fits_then by done. by apply ok_answer.
Qed.

Lemma ok_write_registers n reg cursor : 0 ≤ reg → reg + Z.of_nat n ≤ count → ok (write_registers n reg cursor).
Proof.
  revert reg cursor. induction n as [|n IH]; intros reg cursor Hr Hn; cbn [write_registers]; [apply safe_ret|].
  cbv zeta. destruct (reg_digits reg ltac:(lia)) as [-> ->]. destruct (_ <? _); [apply safe_ret|].
  destruct (_ <=? _); [apply IH; lia|]. intros s Hs. rewrite data_fits_then by lia. revert s Hs.
  destruct (hex_decode _ _); [|apply safe_ret]. apply safe_bind; [apply ok_write_register|]. intros [|]; [apply IH; lia|apply safe_ret].
Qed.
Lemma ok_dispatch_write_registers args : ok (dispatch_write_registers args).
Proof.
  unfold dispatch_write_registers. apply safe_bind; [apply ok_write_registers; [lia|]|intros []; apply ok_answer].
  pose proof (to_count Htarget). lia.
Qed.

Lemma with_breaks_wf b s : I s → permanent b → I (set_dbg (with_breaks b (r_dbg s)) s).
Proof. intros [Hd ? ? ?] Hb. split; [|done..]. destruct Hd. by split. Qed.
Lemma ok_insert_break address : ok (insert_break address).
Proof.
  apply safe_state. intros s Hs. destruct (break_step_permanent (op_set address) (d_breaks (r_dbg s))) as (b & Hb & Hp);
    [apply (dw_breaks _ _ (rw_dbg _ _ Hs))|done|].
  cbn in Hb. destruct (cpuctrl_set_break _ _ _) as [r b']. injection Hb as ->. rewrite modify_then. by apply with_breaks_wf.
Qed.
Lemma ok_remove_break n i address : 0 ≤ i → i + Z.of_nat n ≤ 128 → ok (remove_break n i address).
Proof.
  revert i. induction n as [|n IH]; intros i Hi Hn; cbn [remove_break]; [apply safe_ret|].
  apply safe_state. intros s Hs. case_bool_decide; [|apply IH; [lia|lia|done]].
  destruct (break_step_permanent (op_del i) (d_breaks (r_dbg s))) as (b & Hb & Hp);
    [apply (dw_breaks _ _ (rw_dbg _ _ Hs))|unfold break_op_ok, DBG_CPU_CONTROL_BREAK_SETSIZE; lia|].
  cbn in Hb. destruct (cpuctrl_del_break i _) as [[r b']|] eqn:E; [|done]. injection Hb as ->.
  rewrite (lift_then _ (r, b)) by done. rewrite modify_then. by apply with_breaks_wf.
Qed.
Lemma ok_dispatch_break insert args : ok (dispatch_break insert args).
Proof.
  unfold dispatch_break. cbv zeta. repeat (apply ok_insert_break || (apply ok_remove_break; done) || safe_step).
Qed.

(** Every packet is executed safely. *)
Lemma ok_dispatch_packet n bytes : ok (dispatch_packet n bytes).
Proof.
  unfold dispatch_packet. cbv zeta.
  repeat first [ safe_step | apply ok_dispatch_read_registers | apply ok_dispatch_read_register | apply ok_dispatch_write_register
               | apply ok_dispatch_write_registers | apply ok_read_memory | apply ok_write_memory | apply ok_dispatch_break
               | apply ok_dispatch_resume ].
Qed.

Lemma ok_skip_to n stop : ok (skip_to n stop).
Proof. induction n as [|n IH]; cbn [skip_to]; [apply safe_ret|]. repeat (apply IH || safe_step). Qed.

(** The reader keeps to a buffer of its capacity, and leaves room for the NUL. *)
Lemma read_body_bounded n packet len checksum : zlen packet = RSP_PACKET_SIZE + 1 → 0 ≤ len ≤ RSP_PACKET_SIZE →
  gives I (λ o, ∀ p r, o = Some (p, r) → zlen p = RSP_PACKET_SIZE + 1 ∧ ∀ l c, r = Some (l, c) → 0 ≤ l ≤ RSP_PACKET_SIZE)
    (read_body n packet (RSP_PACKET_SIZE + 1) len checksum).
Proof.
  revert packet len checksum. induction n as [|n IH]; intros packet len checksum Hp Hl; cbn [read_body]; [by apply gives_ret|].
  apply gives_then; [apply ok_sock|]. intros [ch|]; [|apply gives_ret; by intros ? ? [= <- <-]].
  destruct (ch =? 35); [apply gives_ret; intros ? ? [= <- <-]; split; [done|]; by intros ? ? [= <- <-]|].
  cbv zeta. destruct (Z.leb_spec (RSP_PACKET_SIZE + 1) (len + 1)) as [|Hr]; [apply gives_ret; by intros ? ? [= <- <-]|].
  apply gives_store; [lia|]. apply IH; [by rewrite zlen_zput|lia].
Qed.
Lemma read_packet_bounded n packet : zlen packet = RSP_PACKET_SIZE + 1 →
  gives I (λ o, ∀ r p, o = Some (r, p) → zlen p = RSP_PACKET_SIZE + 1) (read_packet n packet (RSP_PACKET_SIZE + 1)).
Proof.
  intros Hp. unfold read_packet. apply gives_then; [apply ok_skip_to|].
  intros [[|]|]; [|apply gives_ret; by intros ? ? [= <- <-]|by apply gives_ret].
  eapply gives_bind; [apply read_body_bounded; [done|by unfold RSP_PACKET_SIZE]|]. intros [[p [[l c]|]]|] Ho.
  2: { destruct (Ho _ _ eq_refl) as [Hl _]. apply gives_ret. by intros ? ? [= <- <-]. }
  2: { by apply gives_ret. }
  destruct (Ho _ _ eq_refl) as [Hl Hlen]. specialize (Hlen _ _ eq_refl).
  apply gives_then; [apply ok_sock|]. intros [c1|]; [|apply gives_ret; by intros ? ? [= <- <-]].
  apply gives_then; [apply ok_sock|]. intros [c2|]; [|apply gives_ret; by intros ? ? [= <- <-]].
  destruct (checksum_ok _ _ _).
  - apply gives_store; [lia|].
    apply gives_then; [apply ok_sock|]. intros _. apply gives_ret. intros r q. destruct (l =? 0); intros [= <- <-]; by rewrite zlen_zput.
  - apply gives_then; [apply ok_sock|]. intros _. apply gives_ret. by intros ? ? [= <- <-].
Qed.

Lemma serve_client_bounded n packet : zlen packet = RSP_PACKET_SIZE + 1 →
  gives I (λ o, ∀ r p, o = Some (r, p) → zlen p = RSP_PACKET_SIZE + 1) (serve_client n packet).
Proof.
  revert packet. induction n as [|n IH]; intros packet Hp; cbn [serve_client]; [by apply gives_ret|].
  eapply gives_bind; [by apply read_packet_bounded|]. intros [[r p]|] Ho; [|by apply gives_ret]. specialize (Ho _ _ eq_refl).
  destruct r; [apply gives_ret; by intros ? ? [= <- <-]|by apply IH|].
  apply gives_then; [apply ok_dispatch_packet|]. intros [[result close]|]; [|by apply gives_ret].
  destruct (0 <? result); [apply gives_ret; by intros ? ? [= <- <-]|].
  destruct ((result <? 0) || close); [apply gives_ret; by intros ? ? [= <- <-]|by apply IH].
Qed.

Lemma ok_new_session : ok new_session.
Proof.
  apply safe_state. intros s Hs.
  destruct (break_step_permanent op_del_all (d_breaks (r_dbg s)) (dw_breaks _ _ (rw_dbg _ _ Hs))) as (b & Hb & Hp); [done|].
  rewrite (lift_then _ b) by exact Hb. rewrite modify_then. apply safe_call. by apply with_breaks_wf.
Qed.

Lemma ok_close f : ok (modify (λ s, set_conn (f (r_conn s)) s)).
Proof. apply safe_modify. by intros s [? ? ? ?]. Qed.
Lemma ok_accept_loop n packet : zlen packet = RSP_PACKET_SIZE + 1 → ok (accept_loop n packet).
Proof.
  revert packet. induction n as [|n IH]; intros packet Hp; cbn [accept_loop]; [apply safe_ret|].
  apply safe_bind; [apply safe_call|intros _]. apply safe_bind; [apply ok_sock|intros [|]]; cbn [negb]; [|by apply IH].
  apply safe_bind; [apply ok_new_session|intros _].
  eapply safe_bind_with; [by apply serve_client_bounded|]. intros [[[|] p]|] Ho; [| |apply safe_ret].
  - repeat (safe_step || apply ok_close).
  - apply safe_bind; [apply ok_close|intros _]. apply IH. by eapply Ho.
Qed.
End safety.

(** C26: whatever bytes a client of the debug server sends, in whatever pieces, whatever the
    network reports, and whatever the CPU thread does while the server waits for it, no store
    of the server leaves its arrays (the 8193 bytes of the packet and its NUL, the 8200 of the
    frame, the 8193 of the response, the 4096 of the data), it never indexes a table of the
    debugger out of range, and it leaves the memory map, the access log and the debugger's
    tables well formed after every packet; if the image of the target's registers fits a packet
    and the devices keep their contract. *)
Theorem gdb_rsp_run_safe cores n port packet s (Hext : external_ok) (Htarget : target_ok)
    (Hpacket : zlen packet = RSP_PACKET_SIZE + 1) (Hs : rsp_wf cores s) :
  safe (rsp_wf cores) (gdb_rsp_run n port packet s).
Proof.
  revert s Hs. change (safe_cmd (rsp_wf cores) (gdb_rsp_run n port packet)). unfold gdb_rsp_run.
  apply safe_bind; [apply ok_sock|intros [|]; [|apply safe_ret]]. cbn [negb].
  apply safe_bind; [apply ok_sock|intros [|]]; cbn [negb].
  - apply safe_bind; [apply safe_tell|intros _]. by apply ok_accept_loop.
  - apply safe_bind; [apply ok_close|intros _; apply safe_ret].
Qed.

(** ** A packet that is sent is the packet that is read *)

Lemma sock_run {A} (f : C → A * C) s a c : f (r_conn s) = (a, c) → sock f s = Done [] (set_conn c s) a.
Proof. intros Hf. unfold sock. rewrite get_then, Hf. by rewrite modify_then. Qed.

(** The socket delivers these bytes, and is then left as told. *)
Inductive delivers : C → list Z → C → Prop :=
  | delivers_nil c : delivers c [] c
  | delivers_cons c b c1 bs c2 : sock_recv c = (Some b, c1) → delivers c1 bs c2 → delivers c (b :: bs) c2.

Lemma delivers_app c bs1 bs2 c2 : delivers c (bs1 ++ bs2) c2 → ∃ c1, delivers c bs1 c1 ∧ delivers c1 bs2 c2.
Proof.
  revert c. induction bs1 as [|b bs1 IH]; intros c Hd; [eexists; split; [constructor|done]|].
  inversion Hd as [|? ? c1 ? ? Hr Hd']; subst. destruct (IH _ Hd') as (c' & H1' & H2'). exists c'. split; [by econstructor|done].
Qed.

Lemma skip_to_found n stop junk s c : stop ∉ junk → (length junk < n)%nat →
  delivers (r_conn s) (junk ++ [stop]) c → skip_to n stop s = Done [] (set_conn c s) (Some true).
Proof.
  revert junk s. induction n as [|n IH]; intros junk s Hj Hn Hd; [lia|]. cbn [skip_to].
  destruct junk as [|x junk]; cbn [app] in Hd; inversion Hd as [|? ? c1 ? ? Hr Hd']; subst.
  - inversion Hd'; subst. rewrite (done_then _ _ _ _ _ (sock_run _ _ _ _ Hr)). by rewrite Z.eqb_refl.
  - rewrite (done_then _ _ _ _ _ (sock_run _ _ _ _ Hr)). apply not_elem_of_cons in Hj as [Hx Hj].
    rewrite (proj2 (Z.eqb_neq x stop)) by done. cbn [length] in Hn. by apply (IH junk (set_conn c1 s)); [|lia|].
Qed.

Lemma read_body_all n packet capacity len sum bytes s c : 35 ∉ bytes → (length bytes < n)%nat →
  0 ≤ len → len + zlen bytes < capacity → zlen packet = capacity → delivers (r_conn s) (bytes ++ [35]) c →
  read_body n packet capacity len sum s = Done [] (set_conn c s)
    (Some (bytes_put packet len bytes, Some (len + zlen bytes, foldl (λ acc ch, Z.land (acc + ch) 0xff) sum bytes))).
Proof.
  revert n packet len sum s. induction bytes as [|x bytes IH]; intros n packet len sum s Hb Hn Hl Hc Hp Hd; cbn [app] in Hd;
    inversion Hd as [|? ? c1 ? ? Hr Hd']; subst; (destruct n as [|n]; [cbn in Hn; lia|]); cbn [read_body];
    rewrite (done_then _ _ _ _ _ (sock_run _ _ _ _ Hr)).
  - inversion Hd'; subst. rewrite bytes_put_nil. change (zlen (@nil Z)) with 0. by rewrite Z.add_0_r.
  - apply not_elem_of_cons in Hb as [Hx Hb]. cbn [length] in Hn. rewrite (proj2 (Z.eqb_neq x 35)) by done.
    assert (zlen (x :: bytes) = zlen bytes + 1) as Hz by (unfold zlen; cbn [length]; lia). pose proof (zlen_nonneg bytes). cbv zeta.
    rewrite (proj2 (Z.leb_gt _ _)) by lia.
    rewrite store_then by lia.
    rewrite (IH n _ (len + 1) _ (set_conn c1 s)) by (rewrite ?zlen_zput; done || lia).
    rewrite bytes_put_cons by lia. by replace (len + 1 + zlen bytes) with (len + zlen (x :: bytes)) by lia.
Qed.

(** The two digits of a sum are read back as the sum. *)
Lemma checksum_reads c : 0 ≤ c < 256 → checksum_ok (hex_digit (c / 16)) (hex_digit (c mod 16)) c = true.
Proof.
  intros Hc. assert (forallb (λ c, checksum_ok (hex_digit (c / 16)) (hex_digit (c mod 16)) c) (seqZ 0 256) = true) as Hall by by vm_compute.
  rewrite forallb_forall in Hall. apply Hall, list_elem_of_In, elem_of_seqZ. lia.
Qed.
Lemma sum_u8_range p : 0 ≤ sum_u8 p < 256.
Proof.
  unfold sum_u8. assert (∀ acc, 0 ≤ acc < 256 → 0 ≤ foldl (λ acc ch, Z.land (acc + ch) 0xff) acc p < 256) as Hf; [|by apply Hf].
  induction p as [|x p IH]; intros acc Hacc; cbn [foldl]; [done|]. apply IH.
  change 0xff with (Z.ones 8). rewrite Z.land_ones by lia. apply Z.mod_pos_bound. lia.
Qed.

Lemma read_packet_frame n buf p junk s c : 36 ∉ junk → (length junk < n)%nat → 35 ∉ p → p ≠ [] → zlen p ≤ RSP_PACKET_SIZE →
  zlen buf = RSP_PACKET_SIZE + 1 → delivers (r_conn s) (junk ++ frame_of p) c →
  read_packet n buf (RSP_PACKET_SIZE + 1) s =
    Done [] (set_conn (sock_send c [43]).2 s) (Some (Packet (zlen p), bytes_put buf 0 (p ++ [NUL]))).
Proof.
  intros Hj Hn Hp Hne Hlen Hbuf Hd. unfold frame_of in Hd.
  replace (junk ++ 36 :: p ++ 35 :: hex_byte (sum_u8 p)) with ((junk ++ [36]) ++ (p ++ [35]) ++ hex_byte (sum_u8 p)) in Hd
    by by rewrite <- !app_assoc.
  apply delivers_app in Hd as (c1 & Hd1 & (c2 & Hd2 & Hd3)%delivers_app). unfold read_packet.
  rewrite (done_then _ _ _ _ _ (skip_to_found _ _ _ _ _ Hj Hn Hd1)). cbv beta iota.
  erewrite (done_then _ _ _ _ _ (read_body_all _ buf _ 0 _ p (set_conn c1 s) c2 Hp _ _ _ Hbuf Hd2)). cbv beta iota.
  unfold hex_byte in Hd3. inversion Hd3 as [|? ? c3 ? ? Hr3 Hd4]; subst. inversion Hd4 as [|? ? c4 ? ? Hr4 Hd5]; subst.
  inversion Hd5; subst. rewrite (done_then _ _ _ _ _ (sock_run sock_recv (set_conn c2 s) _ _ Hr3)). cbv beta iota.
  rewrite (done_then _ _ _ _ _ (sock_run sock_recv (set_conn c3 s) _ _ Hr4)). cbv beta iota.
  change (foldl _ 0 p) with (sum_u8 p). rewrite checksum_reads by apply sum_u8_range. rewrite Z.add_0_l.
  pose proof (zlen_nonneg p). assert (0 < zlen p) by (destruct p; [done|unfold zlen; cbn [length]; lia]).
  rewrite store_then by (rewrite ?bytes_put_len; unfold RSP_PACKET_SIZE in *; lia).
  rewrite bytes_put_snoc by lia. rewrite (proj2 (Z.eqb_neq (zlen p) 0)) by lia.
  destruct (sock_send c [43]) as [m c5] eqn:Es. unfold send.
  by rewrite (done_then _ _ _ _ _ (sock_run (λ c0, sock_send c0 [43]) (set_conn c s) m c5 Es)).
  Unshelve. all: unfold RSP_PACKET_SIZE, zlen in *; lia.
Qed.
(** What [dispatch_packet] takes the buffer for. *)
Lemma cstring_of_packet buf p : Forall (λ c, c ≠ NUL) p → cstring (bytes_put buf 0 (p ++ [NUL])) = p.
Proof.
  intros Hp. unfold bytes_put. change (take (Z.to_nat 0) buf) with (@nil Z). cbn [app]. rewrite <- app_assoc. cbn [app].
  by apply cstring_app.
Qed.

Lemma send_packet_run p s : zlen p ≤ RSP_PACKET_SIZE →
  send_packet p s = Done [] (set_conn (sock_send (r_conn s) (frame_of p)).2 s)
    (if (sock_send (r_conn s) (frame_of p)).1 =? zlen p + 4 then 0 else -1).
Proof.
  intros Hp. rewrite send_packet_frame by done. unfold send.
  destruct (sock_send (r_conn s) (frame_of p)) as [m c] eqn:Es.
  by rewrite (done_then _ _ _ _ _ (sock_run (λ c, sock_send c (frame_of p)) s m c Es)).
Qed.

(** C27: The frame round trip: what the server sends for a packet of 1 to 8192 characters,
    none of them a [#], is one write, and whoever reads it with the server's own reader into a
    buffer of the server's size, after any bytes that are not a [$] (acknowledgements, noise),
    finds exactly that packet and a NUL in the buffer, answers [+], and leaves the bytes that
    follow unread.  (An empty packet is taken for the end of the connection.) *)
Theorem rsp_frame_roundtrip (t : St) (p : list Z) (Hp : 35 ∉ p) (Hne : p ≠ []) (Hlen : zlen p ≤ RSP_PACKET_SIZE) :
  ∃ w rc, send_packet p t = Done [] (set_conn (sock_send (r_conn t) w).2 t) rc ∧
    ∀ n junk buf s c, 36 ∉ junk → (length junk < n)%nat → zlen buf = RSP_PACKET_SIZE + 1 → delivers (r_conn s) (junk ++ w) c →
      read_packet n buf (RSP_PACKET_SIZE + 1) s =
        Done [] (set_conn (sock_send c [43]).2 s) (Some (Packet (zlen p), bytes_put buf 0 (p ++ [NUL]))).
Proof.
  exists (frame_of p). eexists. split; [by apply send_packet_run|]. intros. by eapply read_packet_frame.
Qed.

(** ** Memory written by the client is the memory it reads *)

Lemma hex_value_digit n : 0 ≤ n < 16 → hex_value (hex_digit n) = Some n.
Proof. intros Hn. unfold hex_value, hex_digit. destruct (Z.ltb_spec n 10); repeat split_if; (f_equal; lia) || lia. Qed.
Lemma byte_of_nibbles b : is_byte b → u8 (Z.lor (Z.shiftl (b / 16) 4) (b mod 16)) = b.
Proof.
  intros Hb. unfold is_byte in Hb.
  assert (forallb (λ b, u8 (Z.lor (Z.shiftl (b / 16) 4) (b mod 16)) =? b) (seqZ 0 256) = true) as Hall by by vm_compute.
  rewrite forallb_forall in Hall. apply Z.eqb_eq, Hall, list_elem_of_In, elem_of_seqZ. lia.
Qed.

(** Every byte of the range lies in one region of plain memory, which the first core may
    read and write. *)
Record plain_range (m : mpu_state D) (a n : Z) (r : MpuAddressRegionType) : Prop := {
  pr_addr : 0 ≤ a ∧ a + n < 2 ^ 32;
  pr_plain : ∀ i, 0 ≤ i < n → plain_at m (a + i) 1 r;
  pr_ram : r_type r ≠ READONLY_MEMORY;
  pr_perm : ∀ k i, 0 ≤ i < n → CPU_HAS_PERMISSION 0 (r_type r) k (a + i) 1 = true;
}.
Lemma plain_range_next m m' a n r : plain_range m a (1 + n) r → 0 ≤ n → dynamic_map m' = dynamic_map m →
  plain_range m' (a + 1) n r.
Proof.
  intros [Ha Hp Hr Hc] Hn Hm. split; [lia| |done|].
  - intros i Hi. replace (a + 1 + i) with (a + (1 + i)) by lia. unfold plain_at. rewrite Hm. apply Hp. lia.
  - intros k i Hi. replace (a + 1 + i) with (a + (1 + i)) by lia. apply Hc. lia.
Qed.
Lemma plain_range_first m a n r : plain_range m a (1 + n) r → 0 ≤ n → is_addr a ∧ uaddr a = a ∧ u32 (a + 1) = a + 1 ∧
  plain_at m a 1 r ∧ ∀ k, CPU_HAS_PERMISSION 0 (r_type r) k a 1 = true.
Proof.
  intros [Ha Hp Hr Hc] Hn. pose proof addr_space_range. assert (is_addr a) as Haa by (unfold is_addr; lia).
  specialize (Hp 0 ltac:(lia)). rewrite Z.add_0_r in Hp. split_and!; [done|by apply uaddr_id|apply wrap_id; unfold in_width; lia|done|].
  intros k. specialize (Hc k 0 ltac:(lia)). by rewrite Z.add_0_r in Hc.
Qed.

Lemma gstore_cons m a b bs x : 0 ≤ a → gstore (gstore m a [b]) (a + 1) bs x = gstore m a (b :: bs) x.
Proof.
  intros Ha. unfold gstore. assert (zlen (b :: bs) = 1 + zlen bs) as -> by (unfold zlen; cbn; lia).
  change (zlen [b]) with 1. pose proof (zlen_nonneg bs). destruct (decide (x = a)) as [->|Hne].
  - replace ((a + 1 <=? a) && _) with false by lia. replace ((a <=? a) && (a <? a + 1)) with true by lia.
    replace ((a <=? a) && (a <? a + (1 + zlen bs))) with true by lia. by rewrite Z.sub_diag.
  - replace ((a <=? x) && (x <? a + 1)) with false by lia.
    destruct ((a + 1 <=? x) && _) eqn:E1; destruct ((a <=? x) && _) eqn:E2; try lia; [|done].
    change (b :: bs) with ([b] ++ bs). rewrite zget_app_r by (change (zlen [b]) with 1; lia). f_equal. change (zlen [b]) with 1. lia.
Qed.

Lemma write_guest_run bs a r s : Forall is_byte bs → mpu_wf (r_mpu s) → unaliased (r_mpu s) → log_wf (r_log s) →
  plain_range (r_mpu s) a (zlen bs) r →
  ∃ m l, write_guest (length bs) a (hex_encode bs) s = Done [] (set_mem m l s) true ∧ mpu_wf m ∧ log_wf l ∧
    dynamic_map m = dynamic_map (r_mpu s) ∧
    ∀ x, is_addr x → guest_byte m x = gstore (guest_byte (r_mpu s)) a bs x.
Proof.
  intros Hb. revert a s. induction Hb as [|b bs Hb _ IH]; intros a s Hwf Hun Hlw Hpr; cbn [length write_guest].
  { exists (r_mpu s), (r_log s). split_and!; [by destruct s|done|done|done|]. intros x _. unfold gstore.
    change (zlen (@nil Z)) with 0. by replace ((a <=? x) && (x <? a + 0)) with false by lia. }
  assert (zlen (b :: bs) = 1 + zlen bs) as Hl by (unfold zlen; cbn; lia). rewrite Hl in Hpr. pose proof (zlen_nonneg bs) as Hz.
  destruct (plain_range_first _ _ _ _ Hpr Hz) as (Haa & Hu & Hw & Hp & Hperm).
  cbn [hex_encode hex_byte app head tail default from_option]. unfold is_byte in Hb. unfold id at 1 2.
  rewrite !hex_value_digit by (Z.div_mod_to_equations; lia). cbv beta iota.
  rewrite get_then, byte_of_nibbles, Hu by done. cbn [id].
  destruct (put_plain_ok W8 0 a b (r_mpu s) r) as (m & Hput & Hwf' & Hmap & Hbytes); [done..|apply Hpr|apply Hperm|].
  destruct (set_log_ok (mkAccess BUS_ACCESS_TYPE_WRITE (nbytes W8) a b) (r_log s) Hlw) as (l & Hlog & Hlw' & _); [done|].
  rewrite (lift_then _ (STD_E_OK, m, l)).
  2: { unfold bus_put_data8, bus_put_data. rewrite Hlog. cbn [mbind outcome_bind]. by rewrite Hput. }
  rewrite modify_then, Hw. cbn [std_ok]. change (drop 2 _) with (hex_encode bs).
  destruct (IH (a + 1) (set_mem m l s)) as (m' & l' & -> & ? & ? & Hmap' & Hbytes'); [done| |done| |].
  { cbn. unfold unaliased. by rewrite Hmap. }
  { by eapply plain_range_next. }
  exists m', l'. split_and!; [done|done|done|by rewrite Hmap'|]. intros x Hx. rewrite Hbytes' by done. cbn [r_mpu set_mem].
  rewrite <- gstore_cons by (unfold is_addr in Haa; lia). unfold gstore at 1 2. split_if; [done|]. rewrite Hbytes by done.
  change (le_bytes (Z.to_nat (nbytes W8)) b) with [b mod 256]. by rewrite Z.mod_small.
Qed.

Lemma read_guest_run n a r s : mpu_wf (r_mpu s) → log_wf (r_log s) → plain_range (r_mpu s) a (Z.of_nat n) r →
  ∃ bs m l, gload (guest_byte (r_mpu s)) a (Z.of_nat n) = Some bs ∧
    read_guest n a s = Done [] (set_mem m l s) (Some (map u8 bs)) ∧ mpu_wf m ∧ log_wf l.
Proof.
  revert a s. induction n as [|n IH]; intros a s Hwf Hlw Hpr; cbn [read_guest].
  { exists [], (r_mpu s), (r_log s). by destruct s. }
  replace (Z.of_nat (S n)) with (1 + Z.of_nat n) in Hpr |- * by lia.
  destruct (plain_range_first _ _ _ _ Hpr ltac:(lia)) as (Haa & Hu & Hw & Hp & Hperm).
  rewrite get_then, Hu. cbn [id].
  destruct (get_plain_ok W8 0 a 0 (r_mpu s) r) as (bs1 & m & Hload & Hget & Hsb); [done..|apply Hperm|].
  pose proof (same_but_previous_wf _ _ Hsb Hwf) as Hwf'.
  destruct (set_log_ok (mkAccess BUS_ACCESS_TYPE_READ (nbytes W8) a (le_val bs1)) (r_log s) Hlw) as (l & Hlog & Hlw' & _); [done|].
  rewrite (lift_then _ (STD_E_OK, le_val bs1, m, l)).
  2: { unfold bus_get_data8, bus_get_data. rewrite Hget. cbn [mbind outcome_bind]. by rewrite Hlog. }
  rewrite modify_then, Hw. cbn [std_ok].
  assert (dynamic_map m = dynamic_map (r_mpu s) ∧ guest_byte m = guest_byte (r_mpu s)) as [Hmap Hg] by (by destruct Hsb as (? & ? & ->)).
  destruct (IH (a + 1) (set_mem m l s)) as (bs & m' & l' & Hl & Hr & ? & ?); [done|done|eapply plain_range_next; [done|lia|done]|].
  cbn [r_mpu set_mem] in Hl. rewrite Hg in Hl. rewrite (done_then _ _ _ _ _ Hr).
  unfold gload in Hload. change (nbytes W8) with 1 in Hload. rewrite (seqZ_cons a 1), seqZ_nil in Hload by lia.
  cbn in Hload. destruct (guest_byte (r_mpu s) a) as [b|] eqn:Eb; [|done]. cbn in Hload. injection Hload as <-.
  exists (b :: bs), m', l'. split_and!; [|change (le_val [b]) with (b + 0); by rewrite Z.add_0_r|done|done].
  unfold gload. rewrite seqZ_cons by lia. replace (Z.pred (1 + Z.of_nat n)) with (Z.of_nat n) by lia.
  replace (Z.succ a) with (a + 1) by lia. cbn. rewrite Eb. cbn. unfold gload in Hl. by rewrite Hl.
Qed.

(** An argument of a packet: no separator and no NUL. *)
Definition plain_text (t : list Z) : Prop := Forall (λ c, c ≠ NUL ∧ c ≠ 44 ∧ c ≠ 58) t.

Lemma cut_at_app c before rest : c ∉ before → cut_at c (before ++ c :: rest) = Some (before, rest).
Proof.
  induction before as [|x before IH]; intros Hc; cbn [app cut_at]; [by rewrite Z.eqb_refl|].
  apply not_elem_of_cons in Hc as [Hx Hc]. rewrite (proj2 (Z.eqb_neq x c)) by done. by rewrite IH.
Qed.
Lemma cstring_no_nul t : Forall (λ c, c ≠ NUL) t → cstring t = t.
Proof. induction 1 as [|c t Hc _ IH]; [done|]. cbn. rewrite (proj2 (Z.eqb_neq c NUL)) by done. by rewrite IH. Qed.
Lemma hex_encode_plain bs : Forall is_byte bs → plain_text (hex_encode bs).
Proof.
  assert (∀ n, 0 ≤ n < 16 → hex_digit n ≠ NUL ∧ hex_digit n ≠ 44 ∧ hex_digit n ≠ 58) as Hd.
  { intros n Hn. unfold hex_digit, NUL. split_if; lia. }
  induction 1 as [|b bs Hb _ IH]; cbn [hex_encode hex_byte app]; [constructor|]. unfold is_byte in Hb.
  repeat (constructor; [apply Hd; Z.div_mod_to_equations; lia|]). exact IH.
Qed.
Lemma plain_not_in t c : plain_text t → c = 44 ∨ c = 58 → c ∉ t.
Proof. intros Ht Hc Hin. pose proof (proj1 (Forall_forall _ _) Ht c Hin) as (? & ? & ?). lia. Qed.
Lemma plain_no_nul t : plain_text t → Forall (λ c, c ≠ NUL) t.
Proof. intros Ht. eapply Forall_impl; [exact Ht|]. by intros ? []. Qed.

Lemma write_memory_run at_ lt bs a r s : plain_text at_ → plain_text lt → Forall is_byte bs →
  parse_hex_u32 at_ = Some a → parse_hex_u32 lt = Some (zlen bs) → zlen bs ≤ DATA_SIZE →
  mpu_wf (r_mpu s) → unaliased (r_mpu s) → log_wf (r_log s) → plain_range (r_mpu s) a (zlen bs) r →
  ∃ m l rc, dispatch_write_memory (at_ ++ 44 :: lt ++ 58 :: hex_encode bs) s =
      Done [] (set_conn (sock_send (r_conn s) (frame_of (str_of "OK"))).2 (set_mem m l s)) rc ∧
    mpu_wf m ∧ log_wf l ∧ dynamic_map m = dynamic_map (r_mpu s) ∧
    ∀ x, is_addr x → guest_byte m x = gstore (guest_byte (r_mpu s)) a bs x.
Proof.
  intros Ha Hl Hb Hpa Hpl Hlen Hwf Hun Hlw Hpr.
  destruct (write_guest_run bs a r s) as (m & l & Hw & Hwf' & Hlw' & Hmap & Hbytes); [done..|].
  unfold dispatch_write_memory. rewrite cut_at_app by (apply plain_not_in; auto).
  rewrite cut_at_app by (apply plain_not_in; auto). rewrite Hpa, Hpl, hex_encode_len.
  rewrite (proj2 (Z.ltb_ge _ _)) by done. rewrite (Z.mul_comm 2), Z.eqb_refl. cbn [orb negb].
  replace (Z.to_nat (zlen bs)) with (length bs) by (unfold zlen; lia). rewrite (done_then _ _ _ _ _ Hw).
  eexists m, l, _. split; [by apply (send_packet_run (str_of "OK") (set_mem m l s))|]. done.
Qed.

Lemma read_memory_run at_ lt a n r s : plain_text at_ → zlen at_ < 32 →
  parse_hex_u32 at_ = Some a → parse_hex_u32 lt = Some n → n ≤ DATA_SIZE →
  mpu_wf (r_mpu s) → log_wf (r_log s) → plain_range (r_mpu s) a n r →
  ∃ bs m l rc, gload (guest_byte (r_mpu s)) a n = Some bs ∧
    dispatch_read_memory (at_ ++ 44 :: lt) s =
      Done [] (set_conn (sock_send (r_conn s) (frame_of (hex_encode (map u8 bs)))).2 (set_mem m l s)) rc.
Proof.
  intros Ha H32 Hpa Hpl Hn Hwf Hlw Hpr. pose proof (parse_hex_range _ _ Hpl) as Hr.
  destruct (read_guest_run (Z.to_nat n) a r s) as (bs & m & l & Hload & Hrun & _); [done|done|by rewrite Z2Nat.id by lia|].
  rewrite Z2Nat.id in Hload by lia.
  assert (zlen bs = n) as Hl. { unfold gload in Hload. apply length_mapM in Hload. rewrite length_seqZ in Hload. unfold zlen. lia. }
  unfold dispatch_read_memory. rewrite cut_at_app by (apply plain_not_in; auto).
  rewrite (proj2 (Z.leb_gt _ _)) by done. rewrite Hpa, Hpl. rewrite (proj2 (Z.ltb_ge _ _)) by done.
  rewrite (done_then _ _ _ _ _ Hrun).
  assert (zlen (hex_encode (map u8 bs)) ≤ RSP_PACKET_SIZE).
  { rewrite hex_encode_len. unfold zlen in *. rewrite length_map. unfold RSP_PACKET_SIZE, DATA_SIZE in *. lia. }
  rewrite append_then by done. cbn [app]. rewrite send_packet_run by done. by eexists bs, m, l, _.
Qed.

(** The letter of a packet selects its handler. *)
Lemma is_string_letter c l (t : string) : head (str_of t) ≠ Some c → is_string (c :: l) t = false.
Proof. intros Hc. unfold is_string. apply bool_decide_eq_false_2. intros He. apply Hc. by rewrite <- He. Qed.
Lemma starts_with_letter c l p : head p ≠ Some c → p ≠ [] → starts_with p (c :: l) = false.
Proof. destruct p as [|x p]; [done|]. cbn. intros Hc _. rewrite (proj2 (Z.eqb_neq x c)); [done|congruence]. Qed.
Ltac by_letter :=
  unfold dispatch_packet; cbv zeta; rewrite !is_string_letter by done; rewrite ?starts_with_letter by done; cbn [head tail default from_option id].

Lemma dispatch_write n args s : Forall (λ c, c ≠ NUL) args →
  dispatch_packet n (77 :: args) s = (rc ← dispatch_write_memory args; mret (Some (rc, false))) s.
Proof. intros Ha. unfold dispatch_packet. rewrite cstring_no_nul by (by constructor). by_letter. done. Qed.
Lemma dispatch_read n args s : Forall (λ c, c ≠ NUL) args →
  dispatch_packet n (109 :: args) s = (rc ← dispatch_read_memory args; mret (Some (rc, false))) s.
Proof. intros Ha. unfold dispatch_packet. rewrite cstring_no_nul by (by constructor). by_letter. done. Qed.
Lemma dispatch_insert n args s : Forall (λ c, c ≠ NUL) args →
  dispatch_packet n (90 :: args) s = (rc ← dispatch_break true args; mret (Some (rc, false))) s.
Proof. intros Ha. unfold dispatch_packet. rewrite cstring_no_nul by (by constructor). by_letter. done. Qed.
Lemma dispatch_remove n args s : Forall (λ c, c ≠ NUL) args →
  dispatch_packet n (122 :: args) s = (rc ← dispatch_break false args; mret (Some (rc, false))) s.
Proof. intros Ha. unfold dispatch_packet. rewrite cstring_no_nul by (by constructor). by_letter. done. Qed.

(** What a client of the debug server writes to guest memory is what the guest sees and what
    the client reads back: an [M] packet over plain memory, of up to 4096 bytes, is answered
    with OK and changes exactly the bytes addressed; an [m] packet for the same range is
    answered with the digits of these bytes; neither touches the debugger or the target. *)
Theorem gdb_memory_roundtrip n at_ lt bs a r s (Hat : plain_text at_) (H32 : zlen at_ < 32) (Hlt : plain_text lt)
    (Hbs : Forall is_byte bs) (Ha : parse_hex_u32 at_ = Some a) (Hn : parse_hex_u32 lt = Some (zlen bs))
    (Hlen : zlen bs ≤ DATA_SIZE) (Hwf : mpu_wf (r_mpu s)) (Hun : unaliased (r_mpu s)) (Hlog : log_wf (r_log s))
    (Hplain : plain_range (r_mpu s) a (zlen bs) r) :
  ∃ m l rc c, dispatch_packet n (77 :: at_ ++ 44 :: lt ++ 58 :: hex_encode bs) s =
      Done [] (set_conn c (set_mem m l s)) (Some (rc, false)) ∧
    c = (sock_send (r_conn s) (frame_of (str_of "OK"))).2 ∧
    (∀ x, is_addr x → guest_byte m x = gstore (guest_byte (r_mpu s)) a bs x) ∧
    ∃ m' l' rc', dispatch_packet n (109 :: at_ ++ 44 :: lt) (set_conn c (set_mem m l s)) =
      Done [] (set_conn (sock_send c (frame_of (hex_encode bs))).2 (set_mem m' l' s)) (Some (rc', false)).
Proof.
  pose proof (plain_no_nul _ Hat) as Hz1. pose proof (plain_no_nul _ Hlt) as Hz2.
  pose proof (plain_no_nul _ (hex_encode_plain _ Hbs)) as Hz3.
  destruct (write_memory_run at_ lt bs a r s) as (m & l & rc & Hw & Hwf' & Hlw' & Hmap & Hbytes); [done..|].
  set (c := (sock_send (r_conn s) (frame_of (str_of "OK"))).2) in *. exists m, l, rc, c.
  split; [|split; [done|split; [done|]]].
  { rewrite dispatch_write. 2: { apply Forall_app; split; [done|]. constructor; [done|]. apply Forall_app; split; [done|]. by constructor. }
    by rewrite (done_then _ _ _ _ _ Hw). }
  destruct (read_memory_run at_ lt a (zlen bs) r (set_conn c (set_mem m l s))) as (bs' & m' & l' & rc' & Hload & Hr); [done..| |].
  { destruct Hplain as [? Hp ? ?]. split; [done| |done|done]. intros i Hi. unfold plain_at. cbn [r_mpu set_conn set_mem]. rewrite Hmap. by apply Hp. }
  exists m', l', rc'. rewrite dispatch_read by (apply Forall_app; split; [done|]; by constructor).
  rewrite (done_then _ _ _ _ _ Hr). cbn [r_mpu r_conn set_conn set_mem] in *.
  assert (bs' = bs) as ->.
  { rewrite (gload_spec (guest_byte m) a bs) in Hload; [by injection Hload|]. intros i Hi. destruct Hplain as [Hrange _ _ _].
    pose proof addr_space_range. rewrite Hbytes by (unfold is_addr; lia). unfold gstore.
    replace ((a <=? a + i) && _) with true by lia. f_equal. lia. }
  assert (map u8 bs = bs) as ->; [|done].
  clear -Hbs. induction Hbs as [|b bs Hb _ IH]; [done|]. cbn. rewrite IH. f_equal. by apply Z.mod_small.
Qed.

(** ** The break points are the set the client made *)

Definition listed (b : break_state) (a : Z) : Prop := ∃ i, cpuctrl_get_break i b = Some a.
(** The table holds exactly these addresses, each once. *)
Record breaks_are (b : break_state) (X : gset Z) : Prop := {
  ba_permanent : permanent b;
  ba_distinct : ∀ i j a, cpuctrl_get_break i b = Some a → cpuctrl_get_break j b = Some a → i = j;
  ba_set : ∀ a, listed b a ↔ a ∈ X;
}.

Lemma breaks_are_stop b X a : breaks_are b X → cpuctrl_is_break_point a b = true ↔ a ∈ X.
Proof. intros [Hp _ Hs]. rewrite permanent_hit by done. apply Hs. Qed.

(** The table after one slot has been overwritten. *)
Lemma get_break_put b i v n k : break_wf b → break_wf (mkBreaks (zput (break_points b) i v) n) → 0 ≤ i < 128 →
  cpuctrl_get_break k (mkBreaks (zput (break_points b) i v) n) =
    if k =? i then (if b_is_set v then Some (b_addr v) else None) else cpuctrl_get_break k b.
Proof.
  intros Hwf Hwf' Hi. unfold cpuctrl_get_break, DBG_CPU_CONTROL_BREAK_SETSIZE. cbn [break_points]. pose proof (bw_len _ Hwf).
  destruct (Z.leb_spec 128 k).
  - by replace (k =? i) with false by lia.
  - destruct (Z.eqb_spec k i) as [->|Hne]; [by rewrite zget_zput_eq by lia|]. by rewrite zget_zput_ne by lia.
Qed.

Lemma set_break_again a b : permanent b → listed b a → cpuctrl_set_break a BREAK_POINT_TYPE_FOREVER b = (true, b).
Proof.
  intros [Hwf _ Ht] (i & (x & Hx & Hset & Ha)%get_break_Some); [|done].
  unfold cpuctrl_set_break, search_break_point_with_type.
  destruct (find_index_exists (λ y, b_is_set y && bool_decide (b_type y = BREAK_POINT_TYPE_FOREVER) && (b_addr y =? a)) _ _ _ Hx)
    as (k & y & ->); [|done].
  rewrite Hset, (Ht _ _ Hx), Ha, Z.eqb_refl. by rewrite bool_decide_true.
Qed.

Lemma insert_break_set b X a : breaks_are b X →
  let '(ok, b') := cpuctrl_set_break a BREAK_POINT_TYPE_FOREVER b in
  (ok = true ∧ breaks_are b' ({[a]} ∪ X)) ∨
  (ok = false ∧ b' = b ∧ (a ∉ X) ∧ ∀ i x, zget (break_points b) i = Some x → b_is_set x = true).
Proof.
  intros Hba. pose proof Hba as [Hp Hd Hs]. pose proof (pm_wf _ Hp) as Hwf. destruct (decide (a ∈ X)) as [Hin|Hin].
  { rewrite set_break_again by (done || by apply Hs). left. split; [done|]. by replace ({[a]} ∪ X) with X by set_solver. }
  destruct (break_step_permanent (op_set a) b Hp I) as (b' & Hb & Hp'). cbn in Hb. injection Hb as Hb.
  pose proof (set_break_cases a BREAK_POINT_TYPE_FOREVER b Hwf) as Hc.
  destruct (cpuctrl_set_break a BREAK_POINT_TYPE_FOREVER b) as [ok b2]. cbn in Hb. subst b2.
  destruct Hc as [(-> & -> & i & x & Hx & Hset & _ & Ha)|[(-> & i & x & Hi & Hx & Hfree & _ & ->)|(-> & -> & Hfull)]];
    [|left; split; [done|]|by right].
  { destruct Hin. apply Hs. exists i. apply get_break_Some; [done|]. by exists x. }
  assert (cpuctrl_get_break i b = None) as Hnone.
  { destruct (cpuctrl_get_break i b) eqn:E; [|done]. apply get_break_Some in E as (y & Hy & ? & _); [congruence|done]. }
  pose proof (λ k, get_break_put b i _ _ k Hwf (pm_wf _ Hp') ltac:(lia)) as Hget. cbn in Hget.
  assert (∀ k, cpuctrl_get_break k b ≠ Some a) as Hno by (intros k Hk; apply Hin, Hs; by exists k).
  split; [done| |].
  - intros k j y. rewrite !Hget. destruct (Z.eqb_spec k i) as [->|], (Z.eqb_spec j i) as [->|]; [done|..].
    + by intros [= <-] ?%Hno.
    + intros Hk [= <-]. by apply Hno in Hk.
    + apply Hd.
  - intros y. rewrite elem_of_union, elem_of_singleton, <- Hs. unfold listed. setoid_rewrite Hget. split.
    + intros [k Hk]. destruct (Z.eqb_spec k i); [injection Hk as <-; by left|right; by exists k].
    + intros [->|[k Hk]]; [exists i; by rewrite Z.eqb_refl|]. exists k. rewrite (proj2 (Z.eqb_neq k i)); [done|congruence].
Qed.

Lemma remove_break_run b X a s : breaks_are b X → a ≠ 0 → d_breaks (r_dbg s) = b → 
  ∀ n i, 0 ≤ i → i + Z.of_nat n = 128 → (∀ j, j < i → cpuctrl_get_break j b ≠ Some a) →
  ∃ b', remove_break n i a s = Done [] (set_dbg (with_breaks b' (r_dbg s)) s) (bool_decide (a ∈ X)) ∧ breaks_are b' (X ∖ {[a]}).
Proof.
  intros Hba Ha <-. pose proof Hba as [Hp Hd Hs]. pose proof (pm_wf _ Hp) as Hwf. induction n as [|n IH]; intros i Hi Hn Hbefore.
  - exists (d_breaks (r_dbg s)). assert (a ∉ X) as Hin.
    { intros (j & Hj)%Hs. apply (Hbefore j); [|done]. apply get_break_Some in Hj as (x & Hx & _); [|done].
      apply zget_range in Hx. rewrite (bw_len _ Hwf) in Hx. lia. }
    rewrite bool_decide_false by done. split; [|by replace (X ∖ {[a]}) with X by set_solver].
    destruct s as [[] ? ? ? ?]. done.
  - cbn [remove_break]. rewrite get_then.
    destruct (decide (cpuctrl_get_break i (d_breaks (r_dbg s)) = Some a)) as [Hhit|Hhit];
      [rewrite (bool_decide_true (cpuctrl_get_break _ _ = _)) by done|
       rewrite (bool_decide_false (cpuctrl_get_break _ _ = _)) by done; apply (IH (i + 1)); [lia|lia|]].
    2: { intros j Hj. destruct (decide (j = i)) as [->|]; [done|apply Hbefore; lia]. }
    assert (a ∈ X) as Hin by (apply Hs; by exists i). rewrite bool_decide_true by done.
    assert (i ≠ 0) as Hi0.
    { intros ->. apply get_break_Some in Hhit as (x & Hx & _ & He); [|done]. rewrite (bw_zero _ Hwf) in Hx. injection Hx as <-. by apply Ha. }
    destruct (del_break_ok i (d_breaks (r_dbg s)) Hwf) as (x & Hx & Hdel & Hwf'); [lia|].
    destruct (break_step_permanent (op_del i) (d_breaks (r_dbg s)) Hp) as (b' & Hb & Hp'); [unfold break_op_ok, DBG_CPU_CONTROL_BREAK_SETSIZE; lia|].
    cbn in Hb. rewrite Hdel in Hb. injection Hb as <-. eexists. rewrite (lift_then _ _ _ _ Hdel), modify_then. split; [done|].
    pose proof (λ k, get_break_put (d_breaks (r_dbg s)) i _ _ k Hwf Hwf' ltac:(lia)) as Hget. cbn in Hget.
    split; [done| |].
    + intros k j y. rewrite !Hget. destruct (Z.eqb_spec k i), (Z.eqb_spec j i); try done. apply Hd.
    + intros y. rewrite elem_of_difference, elem_of_singleton, <- Hs. unfold listed. setoid_rewrite Hget. split.
      * intros [k Hk]. destruct (Z.eqb_spec k i) as [_|Hne]; [done|]. split; [by exists k|]. intros ->. by apply Hne, (Hd _ _ a).
      * intros [[k Hk] Hy]. exists k. destruct (Z.eqb_spec k i) as [Hki|]; [subst k; congruence|done].
Qed.

(** The table is this set, and the CPU stops at exactly its addresses. *)
Definition stops_exactly s (X : gset Z) : Prop :=
  breaks_are (d_breaks (r_dbg s)) X ∧ ∀ x, cpuctrl_is_break_point x (d_breaks (r_dbg s)) = true ↔ x ∈ X.
Lemma breaks_stop s X : breaks_are (d_breaks (r_dbg s)) X → stops_exactly s X.
Proof. intros Hb. split; [done|]. intros x. by apply breaks_are_stop. Qed.

Section break_packet.
Context (at_ kt : list Z) (a k : Z) (Hat : plain_text at_) (Hkt : plain_text kt).
Context (Ha : parse_hex_u32 at_ = Some a) (Hk : parse_hex_u32 kt = Some k) (Hk0 : k ≠ 0).

Lemma break_args_no_nul : Forall (λ c, c ≠ NUL) (48 :: 44 :: at_ ++ 44 :: kt).
Proof. repeat (constructor; [done|]). apply Forall_app. split; [by apply plain_no_nul|]. constructor; [done|by apply plain_no_nul]. Qed.

Lemma dispatch_break_args ins s : dispatch_break ins (48 :: 44 :: at_ ++ 44 :: kt) s =
  (if ins then ok ← insert_break a; answer (if (ok : bool) then "OK" else "E02")
   else ok ← remove_break (Z.to_nat DBG_CPU_CONTROL_BREAK_SETSIZE) 0 a; answer (if (ok : bool) then "OK" else "E03")) s.
Proof.
  unfold dispatch_break. change (cut_at 44 (48 :: 44 :: ?l)) with (Some ([48], l)). cbv beta iota.
  rewrite cut_at_app by (apply plain_not_in; auto). change (negb _) with false. rewrite Ha, Hk.
  rewrite (proj2 (Z.eqb_neq k 0)) by done. by destruct ins.
Qed.

Lemma insert_break_run s : insert_break a s =
  let '(ok, b) := cpuctrl_set_break a BREAK_POINT_TYPE_FOREVER (d_breaks (r_dbg s)) in
  Done [] (set_dbg (with_breaks b (r_dbg s)) s) ok.
Proof. unfold insert_break. rewrite get_then. destruct (cpuctrl_set_break _ _ _) as [ok b]. by rewrite modify_then. Qed.

Lemma insert_packet_run n X s : breaks_are (d_breaks (r_dbg s)) X →
  ∃ s1 rc, dispatch_packet n (90 :: 48 :: 44 :: at_ ++ 44 :: kt) s = Done [] s1 (Some (rc, false)) ∧
    ((r_conn s1 = (sock_send (r_conn s) (frame_of (str_of "OK"))).2 ∧ breaks_are (d_breaks (r_dbg s1)) ({[a]} ∪ X)) ∨
     (r_conn s1 = (sock_send (r_conn s) (frame_of (str_of "E02"))).2 ∧ breaks_are (d_breaks (r_dbg s1)) X ∧ (a ∉ X) ∧
      ∀ i x, zget (break_points (d_breaks (r_dbg s))) i = Some x → b_is_set x = true)).
Proof.
  intros Hb. rewrite dispatch_insert by apply break_args_no_nul.
  pose proof (insert_break_set _ X a Hb) as Hc. pose proof (insert_break_run s) as Hr.
  destruct (cpuctrl_set_break a BREAK_POINT_TYPE_FOREVER (d_breaks (r_dbg s))) as [ok b']. set (s' := set_dbg _ s) in Hr.
  assert (dispatch_break true (48 :: 44 :: at_ ++ 44 :: kt) s = send_packet (str_of (if ok then "OK" else "E02")) s') as He.
  { rewrite dispatch_break_args, (done_then _ _ _ _ _ Hr). by destruct ok. }
  rewrite send_packet_run in He by by destruct ok. rewrite (done_then _ _ _ _ _ He). eexists _, _. split; [done|].
  destruct Hc as [(-> & Hset)|(-> & -> & Hnot & Hfull)]; [left|right]; by split_and!.
Qed.

Lemma remove_packet_run n X s : breaks_are (d_breaks (r_dbg s)) X → a ≠ 0 →
  ∃ s2 rc, dispatch_packet n (122 :: 48 :: 44 :: at_ ++ 44 :: kt) s = Done [] s2 (Some (rc, false)) ∧
    r_conn s2 = (sock_send (r_conn s) (frame_of (str_of (if bool_decide (a ∈ X) then "OK" else "E03")))).2 ∧
    breaks_are (d_breaks (r_dbg s2)) (X ∖ {[a]}).
Proof.
  intros Hb Hne. rewrite dispatch_remove by apply break_args_no_nul.
  destruct (remove_break_run _ X a s Hb Hne eq_refl (Z.to_nat DBG_CPU_CONTROL_BREAK_SETSIZE) 0) as (b' & Hr & Hset); [done|done| |].
  { intros j Hj Hg. apply get_break_Some in Hg as (x & Hx & _); [|apply (pm_wf _ (ba_permanent _ _ Hb))]. apply zget_range in Hx. lia. }
  set (s' := set_dbg _ s) in Hr.
  assert (dispatch_break false (48 :: 44 :: at_ ++ 44 :: kt) s =
          send_packet (str_of (if bool_decide (a ∈ X) then "OK" else "E03")) s') as He.
  { rewrite dispatch_break_args, (done_then _ _ _ _ _ Hr). by destruct (bool_decide _). }
  rewrite send_packet_run in He by by destruct (bool_decide _). rewrite (done_then _ _ _ _ _ He). by eexists _, _.
Qed.

(** Break points of a client are a set: with an address and a kind in any hexadecimal form,
    a [Z0] packet adds the address to the set of addresses the program stops at, or answers E02
    and changes nothing when all slots are in use; a [z0] packet takes it out, and answers E03 if
    it was not in; no other address is affected and nothing is listed twice.  (Address 0,
    whose slot is never freed, can only be added.) *)
Theorem gdb_break_packets_refine_set n X s (Hb : breaks_are (d_breaks (r_dbg s)) X) :
  (∃ s1 rc, dispatch_packet n (str_of "Z0," ++ at_ ++ 44 :: kt) s = Done [] s1 (Some (rc, false)) ∧
    ((r_conn s1 = (sock_send (r_conn s) (frame_of (str_of "OK"))).2 ∧ stops_exactly s1 ({[a]} ∪ X)) ∨
     (r_conn s1 = (sock_send (r_conn s) (frame_of (str_of "E02"))).2 ∧ stops_exactly s1 X ∧ (a ∉ X) ∧
      ∀ i x, zget (break_points (d_breaks (r_dbg s))) i = Some x → b_is_set x = true))) ∧
  (a ≠ 0 → ∃ s2 rc, dispatch_packet n (str_of "z0," ++ at_ ++ 44 :: kt) s = Done [] s2 (Some (rc, false)) ∧
    r_conn s2 = (sock_send (r_conn s) (frame_of (str_of (if bool_decide (a ∈ X) then "OK" else "E03")))).2 ∧
    stops_exactly s2 (X ∖ {[a]})).
Proof.
  split.
  - destruct (insert_packet_run n X s Hb) as (s1 & rc & Hr & Hc). exists s1, rc. split; [exact Hr|].
    destruct Hc as [[? ?%breaks_stop]|(? & ?%breaks_stop & ? & ?)]; [by left|by right].
  - intros Hne. destruct (remove_packet_run n X s Hb Hne) as (s2 & rc & Hr & Hc & ?%breaks_stop). by exists s2, rc.
Qed.
End break_packet.

(** ** What the server gets wrong *)

(** Slot 0 of the table is never freed: removing the break point at address 0 is answered
    with OK, and nothing is removed. *)
Lemma remove_zero_answers_ok n s : permanent (d_breaks (r_dbg s)) →
  dispatch_packet n (str_of "z0,0,4") s =
    Done [] (set_conn (sock_send (r_conn s) (frame_of (str_of "OK"))).2 s)
      (Some (if (sock_send (r_conn s) (frame_of (str_of "OK"))).1 =? 6 then 0 else -1, false)).
Proof.
  intros Hp. change (str_of "z0,0,4") with (122 :: [48; 44] ++ [48] ++ 44 :: [52]).
  rewrite dispatch_remove by (by repeat constructor).
  assert (remove_break (Z.to_nat DBG_CPU_CONTROL_BREAK_SETSIZE) 0 0 s = Done [] s true) as Hr.
  { change (Z.to_nat DBG_CPU_CONTROL_BREAK_SETSIZE) with 128%nat. cbn [remove_break]. rewrite get_then.
    assert (cpuctrl_get_break 0 (d_breaks (r_dbg s)) = Some 0) as ->.
    { apply get_break_Some; [apply (pm_wf _ Hp)|]. eexists. split; [apply (bw_zero _ (pm_wf _ Hp))|]. done. }
    rewrite bool_decide_true, (lift_then _ (false, d_breaks (r_dbg s))), modify_then by done. by destruct s as [[] ? ? ? ?]. }
  assert (dispatch_break false ([48; 44] ++ [48] ++ 44 :: [52]) s = send_packet (str_of "OK") s) as He.
  { change ([48; 44] ++ [48] ++ 44 :: [52]) with (48 :: 44 :: [48] ++ 44 :: [52]).
    rewrite (dispatch_break_args [48] [52] 0 4) by (done || by repeat constructor). by rewrite (done_then _ _ _ _ _ Hr). }
  rewrite send_packet_run in He by done. by rewrite (done_then _ _ _ _ _ He).
Qed.

(** A sum is read with [strtoul]: a space or a sign before one digit passes, and so does a
    digit followed by a NUL. *)
Lemma malformed_checksum_accepted : checksum_ok 32 53 5 = true ∧ checksum_ok 43 53 5 = true ∧ checksum_ok 53 0 5 = true ∧ checksum_ok 0 0 0 = true.
Proof. done. Qed.

(** An empty packet is acknowledged, and then taken for the end of the connection. *)
Lemma empty_packet_closes n buf s c : (0 < n)%nat → zlen buf = RSP_PACKET_SIZE + 1 → delivers (r_conn s) (frame_of []) c →
  read_packet n buf (RSP_PACKET_SIZE + 1) s = Done [] (set_conn (sock_send c [43]).2 s) (Some (Closed, zput buf 0 NUL)).
Proof.
  intros Hn Hbuf Hd. unfold frame_of, hex_byte in Hd. cbn [app] in Hd.
  inversion Hd as [|? ? c1 ? ? Hr1 Hd1]; subst. inversion Hd1 as [|? ? c2 ? ? Hr2 Hd2]; subst.
  inversion Hd2 as [|? ? c3 ? ? Hr3 Hd3]; subst. inversion Hd3 as [|? ? c4 ? ? Hr4 Hd4]; subst. inversion Hd4; subst.
  unfold read_packet. assert (skip_to n 36 s = Done [] (set_conn c1 s) (Some true)) as Hs.
  { apply (skip_to_found n 36 []); [by apply not_elem_of_nil|done|]. by econstructor; [|constructor]. }
  rewrite (done_then _ _ _ _ _ Hs). cbv beta iota.
  erewrite (done_then _ _ _ _ _ (read_body_all _ buf _ 0 0 [] (set_conn c1 s) c2 _ _ _ _ Hbuf _)). cbv beta iota.
  rewrite (done_then _ _ _ _ _ (sock_run sock_recv (set_conn c2 s) _ _ Hr3)). cbv beta iota.
  rewrite (done_then _ _ _ _ _ (sock_run sock_recv (set_conn c3 s) _ _ Hr4)). cbv beta iota.
  change (checksum_ok _ _ _) with true. cbv beta iota. rewrite bytes_put_nil. change (0 + zlen (@nil Z)) with 0.
  rewrite store_then by (unfold RSP_PACKET_SIZE in *; lia).
  unfold send. destruct (sock_send c [43]) as [m c5] eqn:Es.
  by rewrite (done_then _ _ _ _ _ (sock_run (λ c0, sock_send c0 [43]) (set_conn c s) m c5 Es)).
  Unshelve. all: try (by apply not_elem_of_nil); try (unfold RSP_PACKET_SIZE, zlen; cbn [length]; lia). by econstructor; [|constructor].
Qed.

(** The adapter may have a register of any size; one of more than 4096 bytes leaves the buffer
    it is read into. *)
Lemma large_register_overruns n s : 0 < count → DATA_SIZE < reg_size 0 →
  ∃ o f, dispatch_packet n (str_of "g") s = Crash o f.
Proof.
  intros Hc Hs. unfold dispatch_packet. change (cstring (str_of "g")) with [103]. by_letter. cbn [Z.eqb Pos.eqb].
  unfold dispatch_read_registers. destruct (Z.to_nat count) as [|m] eqn:E; [lia|]. cbn [read_registers].
  unfold mbind at 1 2 3, cmd_bind at 1 2 3. cbv zeta. unfold data_fits. rewrite (proj2 (Z.leb_gt _ _)) by done. by eexists _, _.
Qed.
End facts.

(** ** A session on the memory of the earlier files

    The socket is a list of bytes to come and the writes made; the target has one register. *)

Module RspDemo.
#[local] Existing Instance MpuDemo.config.
#[local] Instance socket : RspSocket (list Z * list (list Z)) := {|
  sock_create := λ c, (true, c); sock_bind_listen := λ _ c, (true, c); sock_accept := λ c, (true, c);
  sock_recv := λ c, match c.1 with [] => (None, c) | b :: bs => (Some b, (bs, c.2)) end;
  sock_send := λ c w, (zlen w, (c.1, c.2 ++ [w]));
  sock_readable := λ c, (negb (bool_decide (c.1 = [])), c);
  sock_close_client := λ c, c; sock_close_server := λ c, c |}.
#[local] Instance target : GdbTarget Z := {|
  dbg_target_gdb_reg_count := 1; dbg_target_gdb_reg_size := λ _, 4;
  dbg_target_gdb_read_reg := λ _ _ t, Some (le_bytes 4 t);
  dbg_target_gdb_write_reg := λ _ _ bs _, (true, le_val bs);
  dbg_target_gdb_set_pc := λ _ pc _, pc |}.
#[local] Abbreviation St := (rsp_state () Z (list Z * list (list Z))).

Definition stopped : run_state :=
  mkRun [mkCont false 0] (mkStopped true 0) DBG_CPUCTRL_DBG_MODE_NORMAL [true].
Definition start (input : string) : St :=
  mkRsp (with_run stopped CallbackDemo.dbg) MpuDemo.mpu bus_log_init 0x12345678 (str_of input, []).

Definition garbage : list Z := replicate (Z.to_nat (RSP_PACKET_SIZE + 1)) 0xaa.

Lemma target_fine : target_ok.
Proof.
  split; [done|done|done|]. by intros core reg t bs [= <-].
Qed.
Lemma start_ok input : rsp_wf 1 (start input).
Proof.
  split; [|done|apply MpuDemo.wf|apply bus_log_init_wf]. pose proof CallbackDemo.dbg_ok as Hw. by destruct Hw.
Qed.

(** Bytes that are not a packet, a packet with a wrong sum, and two that the server executes. *)
Lemma run_safe_witness :
  safe (rsp_wf 1) (gdb_rsp_run 40 1234 garbage (start "+$?#00$g#67$M104,4:deadbeef#xx")).
Proof. apply (gdb_rsp_run_safe 1 40 1234 _ _ MpuDemo.external target_fine); [by vm_compute|apply start_ok]. Defined.

Lemma frame_witness :
  ∃ w rc, send_packet (str_of "OK") (start "") = Done [] (set_conn (sock_send (r_conn (start "")) w).2 (start "")) rc ∧
    ∀ n junk buf (s : St) c, 36 ∉ junk → (length junk < n)%nat → zlen buf = RSP_PACKET_SIZE + 1 → delivers (r_conn s) (junk ++ w) c →
      read_packet n buf (RSP_PACKET_SIZE + 1) s =
        Done [] (set_conn (sock_send c [43]).2 s) (Some (Packet (zlen (str_of "OK")), bytes_put buf 0 (str_of "OK" ++ [NUL]))).
Proof. apply (rsp_frame_roundtrip (start "") (str_of "OK")); [by vm_compute; set_solver|done|by vm_compute]. Defined.

Lemma ram_bytes_plain i : 0 ≤ i < 4 → plain_at MpuDemo.mpu (0x104 + i) 1 MpuDemo.ram.
Proof.
  intros Hi. assert (i = 0 ∨ i = 1 ∨ i = 2 ∨ i = 3) as [-> |[-> |[-> | ->]]] by lia;
    (split; [exists 1; reflexivity|]; split; [done|by eexists]).
Qed.
Lemma memory_witness :
  ∃ m l rc c, dispatch_packet 1 (str_of "M104,4:deadbeef") (start "") =
      Done [] (set_conn c (set_mem m l (start ""))) (Some (rc, false)) ∧
    c = (sock_send (r_conn (start "")) (frame_of (str_of "OK"))).2 ∧
    (∀ x, is_addr x → guest_byte m x = gstore (guest_byte MpuDemo.mpu) 0x104 [0xde; 0xad; 0xbe; 0xef] x) ∧
    ∃ m' l' rc', dispatch_packet 1 (str_of "m104,4") (set_conn c (set_mem m l (start ""))) =
      Done [] (set_conn (sock_send c (frame_of (str_of "deadbeef"))).2 (set_mem m' l' (start ""))) (Some (rc', false)).
Proof.
  refine (gdb_memory_roundtrip 1 (str_of "104") (str_of "4") [0xde; 0xad; 0xbe; 0xef] 0x104 MpuDemo.ram (start "")
    _ _ _ _ _ _ _ MpuDemo.wf MpuDemo.no_alias bus_log_init_wf _).
  - by repeat constructor.
  - by vm_compute.
  - by repeat constructor.
  - by repeat constructor.
  - by vm_compute.
  - by vm_compute.
  - by vm_compute.
  - split; [split; [done|by vm_compute]|exact ram_bytes_plain|done|done].
Defined.

Lemma start_breaks : breaks_are break_init {[0]}.
Proof.
  assert (∀ i a, cpuctrl_get_break i break_init = Some a → i = 0 ∧ a = 0) as Hone.
  { intros i a (b & Hb & Hs & <-)%get_break_Some; [|apply break_init_wf]. unfold break_init in Hb. cbn [break_points] in Hb.
    destruct (decide (i = 0)) as [->|]; [by injection Hb as <-|]. exfalso. pose proof (zget_range _ _ _ Hb).
    change (mkBreak true BREAK_POINT_TYPE_FOREVER 0 :: ?l) with ([mkBreak true BREAK_POINT_TYPE_FOREVER 0] ++ l) in Hb.
    rewrite zget_app_r in Hb by (change (zlen [_]) with 1; lia). apply zget_elem in Hb. apply elem_of_replicate in Hb as [-> _]. done. }
  split.
  - split; [apply break_init_wf|apply break_init_counted|]. intros i b Hb%zget_elem. unfold break_init in Hb. cbn [break_points] in Hb.
    apply elem_of_cons in Hb as [->|Hb]; [done|]. by apply elem_of_replicate in Hb as [-> _].
  - intros i j a [-> _]%Hone [-> _]%Hone. done.
  - intros a. rewrite elem_of_singleton. split; [by intros [i [_ ->]%Hone]|]. intros ->. by exists 0.
Qed.
Definition no_breaks : St := set_dbg (with_breaks break_init (r_dbg (start ""))) (start "").

Lemma breaks_witness :
  (∃ s1 rc, dispatch_packet 1 (str_of "Z0,208,4") no_breaks = Done [] s1 (Some (rc, false)) ∧
    ((r_conn s1 = (sock_send (r_conn no_breaks) (frame_of (str_of "OK"))).2 ∧ stops_exactly s1 ({[0x208]} ∪ {[0]})) ∨
     (r_conn s1 = (sock_send (r_conn no_breaks) (frame_of (str_of "E02"))).2 ∧ stops_exactly s1 {[0]} ∧ (0x208 ∉ ({[0]} : gset Z)) ∧
      ∀ i x, zget (break_points (d_breaks (r_dbg no_breaks))) i = Some x → b_is_set x = true))) ∧
  (0x208 ≠ 0 → ∃ s2 rc, dispatch_packet 1 (str_of "z0,208,4") no_breaks = Done [] s2 (Some (rc, false)) ∧
    r_conn s2 = (sock_send (r_conn no_breaks) (frame_of (str_of (if bool_decide (0x208 ∈ ({[0]} : gset Z)) then "OK" else "E03")))).2 ∧
    stops_exactly s2 ({[0]} ∖ {[0x208]})).
Proof.
  refine (gdb_break_packets_refine_set (str_of "208") (str_of "4") 0x208 4 _ _ _ _ _ 1 {[0]} no_breaks start_breaks).
  - by repeat constructor.
  - by repeat constructor.
  - by vm_compute.
  - by vm_compute.
  - done.
Defined.

(** A whole session: what the client sees. *)
Example session_answers :
  match run_with (λ _ s, s) (gdb_rsp_run 60 1234 garbage (start "$qC#b4+$p0#a0+$M104,2:beef#0c+$m104,2#60+$z0,208,4#d0$k#6b")) with
  | Done _ s r => (snd (r_conn s), r)
  | _ => ([], None)
  end =
  (map str_of ["+"; "$QC1#c5"; "+"; "$78563412#a4"; "+"; "$OK#9a"; "+"; "$beef#92"; "+"; "$E03#a8"; "+"]%string, Some 1).
Proof. by vm_compute. Qed.
End RspDemo.
