(* ===== verification/Options.v ===== *)
(** * The command line ([src/src/main/option/argument_parser.c], [option.c], [lib/file.c])

    The parser of short and long options, the options it fills in, and the reading of the
    file to load.

    A word of the command line is the list of its characters before the NUL; a pointer into a
    word is what follows it.  The static structure of options starts out zeroed.  The file
    system is the class [HostFiles]; what [malloc] returns for the file is an argument. *)

From Stdlib Require Import String.
From S2P Require Import Prelude Mpu MpuMalloc Loader CpuControl Token DeviceConfig.
Open Scope Z_scope.

(** ** The argument parser *)

Record ArgumentParserState := mkParserState {
  index : Z; character_index : Z; argument : option (list Z); error_option : Z }.
Record ArgumentParserLongOption := mkLong { lo_name : list Z; requires_argument : bool; lo_value : Z }.

Definition argument_parser_init : ArgumentParserState := mkParserState 1 0 None 0.

(** A character of a string, the terminating NUL included. *)
Definition char_at (s : list Z) (i : Z) : outcome Z :=
  if (0 <=? i) && (i <=? zlen s) then Ok (default NUL (zget s i)) else Fault OutOfBounds.

(** [strchr]: a position; the NUL is found at the end. *)
Fixpoint position (c : Z) (s : list Z) (i : Z) : option Z :=
  match s with
  | [] => if c =? NUL then Some i else None
  | x :: s => if x =? c then Some i else position c s (i + 1)
  end.

(** The name of a long option up to [=], and what follows the [=]. *)
Fixpoint split_equals (name : list Z) : list Z * option (list Z) :=
  match name with
  | [] => ([], None)
  | c :: name => if c =? 61 then ([], Some name) else let '(n, v) := split_equals name in (c :: n, v)
  end.

Section parser.
Context (argv : list (list Z)) (option_string : list Z) (long_options : list ArgumentParserLongOption).
Implicit Types (st : ArgumentParserState).

Definition find_long (name : list Z) : option ArgumentParserLongOption :=
  find (λ o, bool_decide (lo_name o = name)) long_options.

Definition question : Z := 63.

Definition next_long_option st (name : list Z) : ArgumentParserState * Z :=
  let '(n, equals) := split_equals name in
  match find_long n with
  | None => (mkParserState (index st + 1) 0 None 0, question)
  | Some o =>
      if requires_argument o then
        match equals, zget argv (index st + 1) with
        | Some v, _ => (mkParserState (index st + 1) 0 (Some v) 0, lo_value o)
        | None, Some v => (mkParserState (index st + 2) 0 (Some v) 0, lo_value o)
        | None, None => (mkParserState (index st + 1) 0 None (lo_value o), question)
        end
      else
        match equals with
        | Some _ => (mkParserState (index st + 1) 0 None (lo_value o), question)
        | None => (mkParserState (index st + 1) 0 None 0, lo_value o)
        end
  end.

(** The option at [ci] in the word [current]. *)
Definition next_short_option st (current : list Z) (ci : Z) : outcome (ArgumentParserState * Z) :=
  opt ← char_at current ci;
  let ci := ci + 1 in
  match (if opt =? 58 then None else position opt option_string 0) with
  | None =>
      c ← char_at current ci;
      Ok (if c =? NUL then mkParserState (index st + 1) 0 None opt else mkParserState (index st) ci None opt, question)
  | Some definition =>
      d ← char_at option_string (definition + 1);
      c ← char_at current ci;
      if d =? 58 then
        if negb (c =? NUL) then Ok (mkParserState (index st + 1) 0 (Some (drop (Z.to_nat ci) current)) 0, opt)
        else
          match zget argv (index st + 1) with
          | Some v => Ok (mkParserState (index st + 2) 0 (Some v) 0, opt)
          | None => Ok (mkParserState (index st + 1) 0 None opt, question)
          end
      else Ok (if c =? NUL then mkParserState (index st + 1) 0 None 0 else mkParserState (index st) ci None 0, opt)
  end.

(** -1 at the end of the options. *)
Definition argument_parser_next_long st : outcome (ArgumentParserState * Z) :=
  match zget argv (index st) with
  | None => Ok (mkParserState (index st) (character_index st) None 0, -1)
  | Some current =>
      if character_index st =? 0 then
        c0 ← char_at current 0;
        if negb (c0 =? 45) then Ok (mkParserState (index st) 0 None 0, -1)
        else
          c1 ← char_at current 1;
          if c1 =? NUL then Ok (mkParserState (index st) 0 None 0, -1)
          else if c1 =? 45 then
            c2 ← char_at current 2;
            if c2 =? NUL then Ok (mkParserState (index st + 1) 0 None 0, -1)
            else Ok (next_long_option st (drop 2 current))
          else next_short_option st current 1
      else next_short_option st current (character_index st)
  end.
End parser.
Definition argument_parser_next (argv : list (list Z)) (option_string : list Z) := argument_parser_next_long argv option_string [].

(** ** Numbers *)

Definition cmd_atoi (arg : list Z) : option Z :=
  let '(v, rest, ok) := strtol arg in if ok && bool_decide (rest = []) then Some (u64 v) else None.
Definition cmd_atoi32 (arg : list Z) : option Z :=
  let '(v, rest, ok) := strtol arg in if ok && bool_decide (rest = []) then Some (u32 v) else None.

(** ** The options *)

Record FileType := mkFile { filepath : TokenStringType; size : Z; data : option (list Z) }.

Record CmdOptionType := mkCmd {
  is_interaction : bool; core_id_num : Z; cmd_timeout : Z; is_binary_data : bool; is_remote : bool; gdb_port : Z;
  fifocfgpath : option (list Z); load_filepath : option (list Z); load_file : FileType;
  devcfgpath : option (list Z); memfilepath : option (list Z);
  hakoniwa_asset_name : option (list Z); hakoniwa_pdudef_path : option (list Z);
  hakoniwa_delta_usec : Z; hakoniwa_max_delay_usec : Z; hakoniwa_real_sleep_msec : Z; hakoniwa_disable_conductor : bool }.

Definition no_file : FileType := mkFile (mkStr 0 []) 0 None.
(** What [parse_args] starts from; the fields it does not assign are zero. *)
Definition cmd_default : CmdOptionType :=
  mkCmd false 0 0 false false 0 None None no_file None None None None 1000 20000 0 false.

(** The options of the command line. *)
Inductive option_setting :=
  | SetInteraction | SetRemote | SetPort (n : Z) | SetBinary | SetTimeout (n : Z) | SetCores (n : Z)
  | SetFifo (path : list Z) | SetMemory (path : list Z) | SetDevice (path : list Z)
  | SetAsset (name : list Z) | SetPdudef (path : list Z) | SetDelta (n : Z) | SetMaxDelay (n : Z)
  | SetNoConductor | SetRealSleep (n : Z).

Definition apply (s : option_setting) (c : CmdOptionType) : CmdOptionType :=
  let '(mkCmd i n t b r g ff lf f dv m a pd de md rs dc) := c in
  match s with
  | SetInteraction => mkCmd true n t b r g ff lf f dv m a pd de md rs dc
  | SetRemote => mkCmd i n t b true g ff lf f dv m a pd de md rs dc
  | SetPort g => mkCmd true n t b r g ff lf f dv m a pd de md rs dc
  | SetBinary => mkCmd i n t true r g ff lf f dv m a pd de md rs dc
  | SetTimeout t => mkCmd i n t b r g ff lf f dv m a pd de md rs dc
  | SetCores n => mkCmd i n t b r g ff lf f dv m a pd de md rs dc
  | SetFifo p => mkCmd i n t b r g (Some p) lf f dv m a pd de md rs dc
  | SetMemory p => mkCmd i n t b r g ff lf f dv (Some p) a pd de md rs dc
  | SetDevice p => mkCmd i n t b r g ff lf f (Some p) m a pd de md rs dc
  | SetAsset a => mkCmd i n t b r g ff lf f dv m (Some a) pd de md rs dc
  | SetPdudef p => mkCmd i n t b r g ff lf f dv m a (Some p) de md rs dc
  | SetDelta d => mkCmd i n t b r g ff lf f dv m a pd d md rs dc
  | SetMaxDelay d => mkCmd i n t b r g ff lf f dv m a pd de d rs dc
  | SetNoConductor => mkCmd i n t b r g ff lf f dv m a pd de md rs true
  | SetRealSleep n' => mkCmd i n t b r g ff lf f dv m a pd de md n' dc
  end.
Definition set_load_file (f : FileType) (c : CmdOptionType) : CmdOptionType :=
  let '(mkCmd i n t b r g ff _ _ dv m a pd de md rs dc) := c in
  mkCmd i n t b r g ff (Some (cstring (ts_str (filepath f)))) f dv m a pd de md rs dc.

(** The buffers for the paths have 4096 bytes; the length of the argument is not checked. *)
Definition PATH_BUFFER : Z := 4096.
Definition copy_path (arg : list Z) : outcome (list Z) :=
  if zlen arg <? PATH_BUFFER then Ok arg else Fault OutOfBounds.

Section options.
Context (ATHRILL_ENABLE_GDB_RSP : bool).

Definition option_string : list Z := str_of "irbt:p:d:c:m:g:".
Definition long_options : list ArgumentParserLongOption := [
  mkLong (str_of "hakoniwa") true 256; mkLong (str_of "pdudef") true 257; mkLong (str_of "delta-usec") true 258;
  mkLong (str_of "max-delay-usec") true 259; mkLong (str_of "disable-conductor") false 260;
  mkLong (str_of "real-sleep-msec") true 261 ].

(** The argument of an option that has one. *)
Definition need (arg : option (list Z)) : outcome (list Z) :=
  match arg with Some a => Ok a | None => Fault NullDeref end.
Definition number_option (f : list Z → option Z) (ok : Z → bool) (set : Z → option_setting) (arg : option (list Z)) : outcome (option option_setting) :=
  a ← need arg; Ok (match f a with Some n => if ok n then Some (set n) else None | None => None end).
Definition path_option (set : list Z → option_setting) (arg : option (list Z)) : outcome (option option_setting) :=
  a ← need arg; p ← copy_path a; Ok (Some (set p)).

(** The body of the loop of [parse_args]: none when the option or its argument is refused. *)
Definition read_option (opt : Z) (arg : option (list Z)) : outcome (option option_setting) :=
  if opt =? 105 then Ok (Some SetInteraction)
  else if opt =? 114 then Ok (Some SetRemote)
  else if opt =? 103 then
    if ATHRILL_ENABLE_GDB_RSP then number_option cmd_atoi32 (λ n, negb (n =? 0) && (n <=? 65535)) SetPort arg else Ok None
  else if opt =? 98 then Ok (Some SetBinary)
  else if opt =? 116 then number_option cmd_atoi (λ _, true) SetTimeout arg
  else if opt =? 99 then number_option cmd_atoi32 (λ _, true) SetCores arg
  else if opt =? 112 then path_option SetFifo arg
  else if opt =? 109 then path_option SetMemory arg
  else if opt =? 100 then path_option SetDevice arg
  else if opt =? 256 then Ok (SetAsset <$> arg)
  else if opt =? 257 then Ok (SetPdudef <$> arg)
  else if opt =? 258 then number_option cmd_atoi (λ n, negb (n =? 0)) SetDelta arg
  else if opt =? 259 then number_option cmd_atoi (λ n, negb (n =? 0)) SetMaxDelay arg
  else if opt =? 260 then Ok (Some SetNoConductor)
  else if opt =? 261 then number_option cmd_atoi (λ _, true) SetRealSleep arg
  else Ok None.

Inductive loop_result :=
  | Finished (c : CmdOptionType) (st : ArgumentParserState)
  | Refused
  | Unfinished.

Fixpoint option_loop (n : nat) (argv : list (list Z)) (st : ArgumentParserState) (c : CmdOptionType) : outcome loop_result :=
  match n with
  | O => Ok Unfinished
  | S n =>
      '(st, opt) ← argument_parser_next_long argv option_string long_options st;
      if opt =? -1 then Ok (Finished c st)
      else
        s ← read_option opt (argument st);
        match s with
        | None => Ok Refused
        | Some s => option_loop n argv st (apply s c)
        end
  end.

(** Every call that goes on takes a character or a word; this is more than there are. *)
Definition loop_fuel (argv : list (list Z)) : nat := S (foldr (λ w n, length w + 2 + n)%nat O argv).

(** One core when a debugger is served. *)
Definition one_core (c : CmdOptionType) : option CmdOptionType :=
  if ATHRILL_ENABLE_GDB_RSP && negb (gdb_port c =? 0) then
    if 1 <? core_id_num c then None else Some (apply (SetCores 1) c)
  else Some c.

(** ** The file to load *)

Context `{HostFiles} (block : option (list Z)).
Definition MAX_LOAD_FILE_SIZE : Z := 1024 * 1024 * 1024.

(** [block]: whether there is memory for the file.  The old data is freed. *)
Definition file_load (f : FileType) : bool * FileType :=
  match file_contents (cstring (ts_str (filepath f))) with
  | None => (false, f)
  | Some bytes =>
      if (zlen bytes <=? 0) || (MAX_LOAD_FILE_SIZE <? zlen bytes) then (false, f)
      else
        match block with
        | None => (false, mkFile (filepath f) (u32 (zlen bytes)) None)
        | Some _ => (true, mkFile (filepath f) (u32 (zlen bytes)) (Some bytes))
        end
  end.

(** The length of the path up to its last slash. *)
Fixpoint parent_loop (n : nat) (filepath : list Z) : Z :=
  match n with
  | O => 0
  | S n' => if bool_decide (filepath !! n' = Some 47) then Z.of_nat n else parent_loop n' filepath
  end.
Definition file_get_parent_folder_pathlen (filepath : list Z) : Z := parent_loop (length filepath) filepath.

Definition existing (p : option (list Z)) : bool := match p with Some p => file_exist p | None => true end.

(** What follows the options: the file to load is the next word.  None: the program ends with a
    message. *)
Definition load_word (argv : list (list Z)) (i : Z) (c : CmdOptionType) : option CmdOptionType :=
  match one_core c, zget argv i with
  | Some c, Some file =>
      if TOKEN_STRING_MAX_SIZE <=? zlen file then None
      else
        let '(ok, f) := file_load (mkFile (mkStr (zlen file) file) 0 None) in
        let c := set_load_file f c in
        if (ok : bool) && existing (fifocfgpath c) && existing (devcfgpath c) && existing (memfilepath c) then Some c else None
  | _, _ => None
  end.

Definition parse_args (argv : list (list Z)) : outcome (option CmdOptionType) :=
  r ← option_loop (loop_fuel argv) argv argument_parser_init cmd_default;
  match r with
  | Finished c st => Ok (load_word argv (index st) c)
  | Refused | Unfinished => Ok None
  end.
End options.
