(* ===== verification/OptionsFacts.v ===== *)
(** * The command line: facts

    The parser never reads behind the end of a word or of its option string, and ends; what is
    spelled in any of the forms of options is what is read, in that order. *)

From Stdlib Require Import String.
From S2P Require Import Prelude Mpu MpuMalloc Loader CpuControl Token TokenFacts DeviceConfig Options.
Open Scope Z_scope.

Lemma zget_drop {A} (l : list A) n i : 0 ≤ n → 0 ≤ i → zget (drop (Z.to_nat n) l) i = zget l (n + i).
Proof.
  intros Hn Hi. unfold zget. rewrite (proj2 (Z.ltb_ge i 0)), (proj2 (Z.ltb_ge (n + i) 0)), lookup_drop by lia. f_equal. lia.
Qed.

Section facts.
Context (ATHRILL_ENABLE_GDB_RSP : bool) (argv : list (list Z)).
Implicit Types (st : ArgumentParserState) (w : list Z).

(** ** The parser makes progress *)

(** The words are C strings, short enough for the buffers of the paths. *)
Definition word_ok w : Prop := Forall (λ c, c ≠ NUL) w ∧ zlen w < PATH_BUFFER.
Context (Hwords : Forall word_ok argv).

Lemma word_at i w : zget argv i = Some w → word_ok w.
Proof. intros Hw%zget_elem. exact (proj1 (Forall_forall _ _) Hwords w Hw). Qed.

Lemma char_at_ok w i : 0 ≤ i ≤ zlen w → word_ok w →
  ∃ c, char_at w i = Ok c ∧ (c = NUL ↔ i = zlen w) ∧ (i < zlen w → zget w i = Some c).
Proof.
  intros Hi [Hw _]. unfold char_at. replace (_ && _) with true by lia. eexists. split; [done|].
  destruct (decide (i < zlen w)) as [Hlt|Hge].
  - destruct (zget_is_Some w i) as [c Hc]; [lia|]. rewrite Hc. cbn. split; [|done].
    pose proof (proj1 (Forall_forall _ _) Hw c (zget_elem _ _ _ Hc)). unfold id. split; [done|lia].
  - rewrite zget_None by lia. cbn. split; [|lia]. split; [lia|done].
Qed.

(** Between two calls the parser is at the start of a word, or at a character of one. *)
Definition st_ok st : Prop :=
  0 ≤ index st ∧ (character_index st = 0 ∨ ∃ w, zget argv (index st) = Some w ∧ 1 ≤ character_index st < zlen w).

(** The words and characters that are left. *)
Definition words_left (i : Z) : Z := foldr (λ w n, zlen w + 2 + n) 0 (drop (Z.to_nat i) argv).
Definition measure st : Z := words_left (index st) - character_index st.

Lemma words_left_nonneg i : 0 ≤ words_left i.
Proof. unfold words_left. generalize (drop (Z.to_nat i) argv). intros l. induction l as [|w l IH]; cbn; [done|]. pose proof (zlen_nonneg w). lia. Qed.
Lemma words_left_next i w : 0 ≤ i → zget argv i = Some w → words_left i = zlen w + 2 + words_left (i + 1).
Proof.
  intros Hi Hw. unfold words_left, zget in *. rewrite (proj2 (Z.ltb_ge i 0)) in Hw by lia.
  rewrite (drop_S _ w) by done. cbn [foldr]. by replace (Z.to_nat (i + 1)) with (S (Z.to_nat i)) by lia.
Qed.
Lemma words_left_skip i : 0 ≤ i → words_left (i + 1) ≤ words_left i.
Proof.
  intros Hi. destruct (zget argv i) as [w|] eqn:E.
  - rewrite (words_left_next i w) by done. pose proof (zlen_nonneg w). lia.
  - unfold zget in E. rewrite (proj2 (Z.ltb_ge i 0)) in E by lia. apply lookup_ge_None in E.
    unfold words_left. rewrite !drop_ge by lia. done.
Qed.

(** An option that needs an argument comes with one that fits. *)
Definition arg_ok (opt : Z) (arg : option (list Z)) : Prop :=
  (∃ a, arg = Some a ∧ zlen a < PATH_BUFFER) ∨ In opt [105; 114; 98; 260; 63].

Lemma read_option_ok opt arg : arg_ok opt arg → is_ok (read_option ATHRILL_ENABLE_GDB_RSP opt arg).
Proof.
  assert (∀ a f ok set, is_ok (number_option f ok set (Some a))) as Hnum by (intros; eexists; done).
  assert (∀ a set, zlen a < PATH_BUFFER → is_ok (path_option set (Some a))) as Hpath.
  { intros a set Hl. unfold path_option, need, copy_path. cbn [mbind outcome_bind]. rewrite (proj2 (Z.ltb_lt _ _)) by done. by eexists. }
  intros [(a & -> & Ha)|Hin].
  - unfold read_option. repeat split_if; auto; by eexists.
  - repeat (destruct Hin as [<-|Hin]; [by eexists|]). done.
Qed.

(** What a call gives: the end, or progress and an option to read. *)
Definition step_ok st (r : ArgumentParserState * Z) : Prop :=
  r.2 = -1 ∨ (st_ok r.1 ∧ measure r.1 < measure st ∧ arg_ok r.2 (argument r.1)).

Lemma option_short_arg opt definition d : opt ≠ NUL → (opt =? 58) = false → position opt option_string 0 = Some definition →
  char_at option_string (definition + 1) = Ok d → (d =? 58) = false → In opt [105; 114; 98; 260; 63].
Proof.
  intros Hn H58. change option_string with [105; 114; 98; 116; 58; 112; 58; 100; 58; 99; 58; 109; 58; 103; 58].
  cbn [position]. rewrite (proj2 (Z.eqb_neq opt NUL)) by done. intros Hp Hd Hne.
  repeat match goal with H : (if ?x =? opt then _ else _) = Some _ |- _ => destruct (Z.eqb_spec x opt) end; try done; subst opt;
    try done; try (by injection Hp as <-; injection Hd as <-); cbn; tauto.
Qed.

Lemma next_long_ok st name : st_ok st → Forall (λ c, c ≠ NUL) name → zlen name + 2 < PATH_BUFFER → (∃ w, zget argv (index st) = Some w) →
  character_index st = 0 → step_ok st (next_long_option argv long_options st name).
Proof.
  intros [Hi _] Hname Hlen [w Hw] Hci. unfold next_long_option. destruct (split_equals name) as [n equals] eqn:E.
  assert (∀ v, equals = Some v → zlen v < PATH_BUFFER) as Hv.
  { clear -E Hlen. revert n equals E Hlen. unfold zlen. induction name as [|c name IH]; intros n equals; cbn [split_equals length].
    - by intros [= _ <-].
    - destruct (c =? 61); [intros [= _ <-] ? ? [= <-]; lia|]. destruct (split_equals name) as [n' v'] eqn:E'. intros [= _ <-] ? v ->.
      eapply (IH n' (Some v)); [done|lia|done]. }
  pose proof (words_left_next _ _ Hi Hw) as Hleft. pose proof (words_left_skip (index st + 1) ltac:(lia)) as Hskip.
  pose proof (zlen_nonneg w). unfold step_ok, measure, st_ok.
  assert (∀ a v, arg_ok v (Some a) ↔ zlen a < PATH_BUFFER ∨ In v [105; 114; 98; 260; 63]) as Harg by (clear; intros; unfold arg_ok; naive_solver).
  destruct (find_long long_options n) as [o|] eqn:Ef; [|cbn; right; split_and!; [lia|by left|lia|right; cbn; tauto]].
  apply find_some in Ef as [Hin _]. destruct (requires_argument o) eqn:Er.
  - destruct equals as [v|]; [|destruct (zget argv (index st + 1)) as [v|] eqn:Ev]; cbn; right; (split; [split; [lia|by left]|]).
    + split; [lia|]. left. eauto.
    + replace (index st + 2) with (index st + 1 + 1) by lia. split; [lia|]. left. exists v. split; [done|]. by apply (word_at (index st + 1)).
    + split; [lia|]. right; cbn; tauto.
  - assert (lo_value o = 260) as Ho by (repeat (destruct Hin as [<-|Hin]; [try done|]); done).
    destruct equals as [v|]; cbn; right; (split; [split; [lia|by left]|split; [lia|right; rewrite ?Ho; cbn; tauto]]).
Qed.

Lemma next_short_ok st current ci : zget argv (index st) = Some current → 0 ≤ index st → 1 ≤ ci < zlen current →
  (character_index st = ci ∨ character_index st = 0) →
  ∃ r, next_short_option argv option_string st current ci = Ok r ∧ step_ok st r.
Proof.
  intros Hw Hi Hci Hst. pose proof (word_at _ _ Hw) as Hok.
  destruct (char_at_ok current ci ltac:(lia) Hok) as (opt & Ho & Hn & Hopt). unfold next_short_option. rewrite Ho. cbn [mbind outcome_bind].
  assert (opt ≠ NUL) as Hnn by (rewrite Hn; lia).
  destruct (char_at_ok current (ci + 1) ltac:(lia) Hok) as (c & Hc & Hcn & _).
  pose proof (words_left_next _ _ Hi Hw) as Hleft. pose proof (words_left_skip (index st + 1) ltac:(lia)) as Hskip.
  assert (∀ a o, arg_ok o a → step_ok st (if c =? NUL then mkParserState (index st + 1) 0 a opt else mkParserState (index st) (ci + 1) a opt, o)) as Hgo.
  { intros a o Ha. right. unfold step_ok, measure, st_ok. destruct (Z.eqb_spec c NUL) as [->|Hne]; cbn.
    - split_and!; [lia|by left|lia|done].
    - split_and!; [lia|right; exists current; split; [done|]|lia|done].
      assert (ci + 1 ≠ zlen current) by (intros He; by apply Hne, Hcn). lia. }
  assert (∀ a o e, arg_ok o a → step_ok st (if c =? NUL then mkParserState (index st + 1) 0 a e else mkParserState (index st) (ci + 1) a e, o)) as Hgo'.
  { intros a o e Ha. specialize (Hgo a o Ha). by destruct (c =? NUL). }
  destruct (if opt =? 58 then None else position opt option_string 0) as [definition|] eqn:Ed.
  2: { rewrite Hc. cbn [mbind outcome_bind]. eexists. split; [done|]. apply Hgo. right; cbn; tauto. }
  destruct (opt =? 58) eqn:E58; [done|].
  destruct (char_at option_string (definition + 1)) as [d|] eqn:Edd.
  2: { exfalso. clear -Ed Edd Hnn. revert Ed Edd. change option_string with [105; 114; 98; 116; 58; 112; 58; 100; 58; 99; 58; 109; 58; 103; 58].
       cbn [position]. rewrite (proj2 (Z.eqb_neq opt NUL)) by done. intros Hp Hd.
       repeat match goal with H : (if ?x =? opt then _ else _) = Some _ |- _ => destruct (Z.eqb_spec x opt) end; try done; by injection Hp as <-. }
  cbn [mbind outcome_bind]. rewrite Hc. cbn [mbind outcome_bind]. destruct (d =? 58) eqn:E.
  - destruct (Z.eqb_spec c NUL) as [->|Hne]; cbn [negb].
    + destruct (zget argv (index st + 1)) as [v|] eqn:Ev; (eexists; split; [done|]); right; unfold measure, st_ok; cbn.
      * replace (index st + 2) with (index st + 1 + 1) by lia. split_and!; [lia|by left|lia|]. left. exists v. split; [done|]. by apply (word_at (index st + 1)).
      * split_and!; [lia|by left|lia|right; cbn; tauto].
    + eexists. split; [done|]. right. unfold measure, st_ok. cbn. split_and!; [lia|by left|lia|]. left. eexists. split; [done|].
      destruct Hok as [_ Hl]. unfold zlen in *. rewrite length_drop. lia.
  - eexists. split; [done|]. apply Hgo'. right. by eapply option_short_arg.
Qed.

Lemma next_ok st : st_ok st → ∃ r, argument_parser_next_long argv option_string long_options st = Ok r ∧ step_ok st r.
Proof.
  intros Hst. pose proof Hst as [Hi Hc]. unfold argument_parser_next_long. destruct (zget argv (index st)) as [current|] eqn:Hw.
  2: { eexists. split; [done|]. by left. }
  pose proof (word_at _ _ Hw) as Hok. destruct (Z.eqb_spec (character_index st) 0) as [H0|Hne].
  2: { destruct Hc as [?|(w & Hw' & Hci)]; [done|]. assert (w = current) as -> by congruence. apply next_short_ok; auto. }
  pose proof (zlen_nonneg current). destruct (char_at_ok current 0 ltac:(lia) Hok) as (c0 & -> & Hn0 & _). cbn [mbind outcome_bind].
  destruct (Z.eqb_spec c0 45) as [->|]; cbn [negb]; [|eexists; split; [done|]; by left].
  assert (0 ≠ zlen current) by (intros He; by apply Hn0 in He).
  destruct (char_at_ok current 1 ltac:(lia) Hok) as (c1 & -> & Hn1 & _). cbn [mbind outcome_bind].
  destruct (Z.eqb_spec c1 NUL) as [?|Hc1]; [eexists; split; [done|]; by left|].
  assert (1 ≠ zlen current) by (intros He; by apply Hc1, Hn1).
  destruct (c1 =? 45); [|apply next_short_ok; auto; lia].
  destruct (char_at_ok current 2 ltac:(lia) Hok) as (c2 & -> & Hn2 & _). cbn [mbind outcome_bind].
  destruct (c2 =? NUL); eexists; (split; [done|]); [by left|]. destruct Hok as [Hnul Hl].
  apply next_long_ok; [done|by apply Forall_drop|unfold zlen in *; rewrite length_drop; lia|by exists current|done].
Qed.

Lemma measure_pos st w : st_ok st → zget argv (index st) = Some w → 0 ≤ measure st.
Proof.
  intros [Hi Hc] Hw. unfold measure. rewrite (words_left_next _ w) by done. pose proof (words_left_nonneg (index st + 1)).
  pose proof (zlen_nonneg w). destruct Hc as [->|(w' & Hw' & ?)]; [lia|]. assert (w' = w) as -> by congruence. lia.
Qed.

Lemma option_loop_ends n st c : st_ok st → measure st < Z.of_nat n →
  ∃ r, option_loop ATHRILL_ENABLE_GDB_RSP n argv st c = Ok r ∧ r ≠ Unfinished.
Proof.
  revert st c. induction n as [|n IH]; intros st c Hst Hm.
  { exfalso. destruct Hst as [Hi Hc]. unfold measure in Hm. pose proof (words_left_nonneg (index st)).
    destruct Hc as [?|(w & Hw & ?)]; [lia|]. rewrite (words_left_next _ w) in Hm by done. pose proof (words_left_nonneg (index st + 1)). lia. }
  cbn [option_loop]. destruct (next_ok st Hst) as ([st' opt] & -> & Hstep). cbn [mbind outcome_bind].
  destruct (Z.eqb_spec opt (-1)); [by eexists|]. destruct Hstep as [?|(Hst' & Hlt & Harg)]; [done|]. cbn [fst snd] in *.
  destruct (read_option_ok _ _ Harg) as [s ->]. cbn [mbind outcome_bind]. destruct s as [s|]; [|by eexists]. apply IH; [done|lia].
Qed.

(** The command line is always read to its end: for any words that are shorter than the
    4096 bytes of a path buffer, the loop over the options ends within its bound, never reads
    behind the end of a word or of the option string, and never uses an argument that an
    option does not have, so [parse_args] returns with the options or a refusal. *)
Theorem parse_args_returns `{HostFiles} (block : option (list Z)) :
  (∃ r, option_loop ATHRILL_ENABLE_GDB_RSP (loop_fuel argv) argv argument_parser_init cmd_default = Ok r ∧ r ≠ Unfinished) ∧
  ∃ c, parse_args ATHRILL_ENABLE_GDB_RSP block argv = Ok c.
Proof.
  assert (∃ r, option_loop ATHRILL_ENABLE_GDB_RSP (loop_fuel argv) argv argument_parser_init cmd_default = Ok r ∧ r ≠ Unfinished) as (r & Hr & Hne).
  { apply option_loop_ends; [by split; [|left]|]. unfold measure. cbn [index character_index argument_parser_init].
    pose proof (words_left_skip 0 ltac:(lia)) as Hs. unfold words_left in *. change (0 + 1) with 1 in Hs. change (drop (Z.to_nat 0) argv) with argv in Hs.
    assert (foldr (λ w n, zlen w + 2 + n) 0 argv < Z.of_nat (loop_fuel argv)); [|lia]. unfold loop_fuel, zlen. clear. induction argv; cbn; lia. }
  split; [by exists r|]. unfold parse_args. rewrite Hr. cbn [mbind outcome_bind]. destruct r; by eexists.
Qed.
End facts.

(** ** What is spelled is read *)

(** Whether a character is an option without or with an argument. *)
Definition short_kind (c : Z) : option bool :=
  if (c =? 58) || (c =? NUL) then None
  else d ← position c option_string 0; Some (bool_decide (zget option_string (d + 1) = Some 58)).
Definition is_flag (c : Z) : Prop := short_kind c = Some false.

(** The forms of a list of options: flags in one word, an option behind its flags with its
    argument attached or in the next word, long options with [=] or the next word. *)
Inductive spelled : list (Z * option (list Z)) → list (list Z) → Prop :=
  | sp_nil : spelled [] []
  | sp_flags cs opts ws : cs ≠ [] → Forall is_flag cs → spelled opts ws →
      spelled (map (λ c, (c, None)) cs ++ opts) ((45 :: cs) :: ws)
  | sp_attached cs c v opts ws : Forall is_flag cs → short_kind c = Some true → v ≠ [] → spelled opts ws →
      spelled (map (λ c, (c, None)) cs ++ (c, Some v) :: opts) ((45 :: cs ++ c :: v) :: ws)
  | sp_separate cs c v opts ws : Forall is_flag cs → short_kind c = Some true → spelled opts ws →
      spelled (map (λ c, (c, None)) cs ++ (c, Some v) :: opts) ((45 :: cs ++ [c]) :: v :: ws)
  | sp_long o opts ws : In o long_options → requires_argument o = false → spelled opts ws →
      spelled ((lo_value o, None) :: opts) ((45 :: 45 :: lo_name o) :: ws)
  | sp_long_equals o v opts ws : In o long_options → requires_argument o = true → spelled opts ws →
      spelled ((lo_value o, Some v) :: opts) ((45 :: 45 :: lo_name o ++ 61 :: v) :: ws)
  | sp_long_separate o v opts ws : In o long_options → requires_argument o = true → spelled opts ws →
      spelled ((lo_value o, Some v) :: opts) ((45 :: 45 :: lo_name o) :: v :: ws).

Section spelling.
Context (ATHRILL_ENABLE_GDB_RSP : bool) (argv : list (list Z)).
Context (Hnul : Forall (Forall (λ c, c ≠ NUL)) argv).
#[local] Abbreviation next := (argument_parser_next_long argv option_string long_options).
#[local] Abbreviation at_word i := (mkParserState i 0 None 0).

(** A run of the parser that gives these options and stops in this state; the state before
    a call only matters up to what the call resets. *)
Inductive gives : ArgumentParserState → list (Z * option (list Z)) → ArgumentParserState → Prop :=
  | gives_nil st : gives st [] st
  | gives_cons st opt st1 opts st2 : next st = Ok (st1, opt) → opt ≠ -1 → gives st1 opts st2 →
      gives st ((opt, argument st1) :: opts) st2.

Lemma gives_app st o1 st1 o2 st2 : gives st o1 st1 → gives st1 o2 st2 → gives st (o1 ++ o2) st2.
Proof. induction 1; [done|]. intros. cbn. econstructor; [done|done|auto]. Qed.

Lemma word_no_nul i w : zget argv i = Some w → Forall (λ c, c ≠ NUL) w.
Proof. intros Hw%zget_elem. exact (proj1 (Forall_forall _ _) Hnul w Hw). Qed.

Lemma char_at_get w i c : zget w i = Some c → char_at w i = Ok c.
Proof. intros Hc. unfold char_at. pose proof (zget_range _ _ _ Hc). replace (_ && _) with true by lia. by rewrite Hc. Qed.
Lemma char_at_end w : char_at w (zlen w) = Ok NUL.
Proof. unfold char_at. pose proof (zlen_nonneg w). replace (_ && _) with true by lia. by rewrite zget_None by lia. Qed.

(** The option at a character, by its kind. *)
Lemma short_known c k : short_kind c = Some k → c ≠ NUL ∧ (c =? 58) = false ∧ c ≠ -1 ∧
  ∃ d x, position c option_string 0 = Some d ∧ char_at option_string (d + 1) = Ok x ∧ (x =? 58) = k.
Proof.
  unfold short_kind. destruct (Z.eqb_spec c 58); [done|]. destruct (Z.eqb_spec c NUL); [done|]. cbn [orb].
  destruct (position c option_string 0) as [d|] eqn:Ed; [|done]. cbn. intros [= <-]. split; [done|split; [done|]].
  revert Ed. change option_string with [105; 114; 98; 116; 58; 112; 58; 100; 58; 99; 58; 109; 58; 103; 58].
  cbn [position]. rewrite (proj2 (Z.eqb_neq c NUL)) by done. intros Hp. split.
  { intros ->. done. }
  repeat match goal with H : (if ?x =? c then _ else _) = Some _ |- _ => destruct (Z.eqb_spec x c) end; try done; injection Hp as <-;
    eexists _, _; (split; [reflexivity|]); split; reflexivity.
Qed.

Lemma next_in_word st w ci : zget argv (index st) = Some w → 1 ≤ ci → (character_index st = ci ∨ character_index st = 0 ∧ ci = 1 ∧
    ∃ c cs, w = 45 :: c :: cs ∧ c ≠ 45 ∧ c ≠ NUL) →
  next st = next_short_option argv option_string st w ci.
Proof.
  intros Hw Hci Hst. unfold argument_parser_next_long. rewrite Hw. destruct Hst as [<-|(Hc & -> & c & cs & -> & Hne & Hn0)].
  - by rewrite (proj2 (Z.eqb_neq (character_index st) 0)) by lia.
  - rewrite Hc. cbn [Z.eqb]. rewrite (char_at_get _ 0 45), (char_at_get _ 1 c) by done. cbn [mbind outcome_bind].
    rewrite (proj2 (Z.eqb_neq c NUL)), (proj2 (Z.eqb_neq c 45)) by done. done.
Qed.

(** Flags in a word from a position on, followed by the rest of the word. *)
Lemma flags_given cs : ∀ st w k rest, Forall is_flag cs → cs ≠ [] → zget argv (index st) = Some w → 1 ≤ k →
  next st = next_short_option argv option_string st w k →
  drop (Z.to_nat k) w = cs ++ rest →
  ∃ st', gives st (map (λ c, (c, None)) cs) st' ∧
    (if rest is [] then index st' = index st + 1 ∧ character_index st' = 0
     else index st' = index st ∧ character_index st' = k + zlen cs).
Proof.
  induction cs as [|c cs IH]; intros st w k rest Hf Hne Hw Hk Hnext Hd; [done|].
  inversion Hf as [|? ? Hc Hf']; subst. destruct (short_known _ _ Hc) as (Hn0 & H58 & Hm1 & d & x & Hp & Hx & Hx58).
  assert (zget w k = Some c) as Hgc.
  { pose proof (zget_drop w k 0 ltac:(lia) ltac:(lia)) as Hz. rewrite Hd in Hz. rewrite Z.add_0_r in Hz. by rewrite <- Hz. }
  pose proof (word_no_nul _ _ Hw) as Hwn.
  assert (drop (Z.to_nat (k + 1)) w = cs ++ rest) as Hd'.
  { replace (Z.to_nat (k + 1)) with (Z.to_nat k + 1)%nat by lia. rewrite <- drop_drop, Hd. done. }
  assert (zlen w = k + 1 + zlen (cs ++ rest)) as Hlen.
  { apply (f_equal length) in Hd'. rewrite length_drop in Hd'. pose proof (zget_range _ _ _ Hgc). unfold zlen in *. lia. }
  unfold next_short_option in Hnext. rewrite (char_at_get _ _ _ Hgc) in Hnext. cbn [mbind outcome_bind] in Hnext.
  rewrite H58, Hp, Hx in Hnext. cbn [mbind outcome_bind] in Hnext. rewrite Hx58 in Hnext.
  destruct (cs ++ rest) as [|y l] eqn:Ecs.
  - assert (cs = [] ∧ rest = []) as [-> ->] by (by destruct cs, rest).
    change (zlen []) with 0 in Hlen. replace (k + 1) with (zlen w) in Hnext by lia. rewrite char_at_end in Hnext. cbn [mbind outcome_bind] in Hnext. rewrite Z.eqb_refl in Hnext.
    exists (at_word (index st + 1)). split; [|done]. exact (gives_cons _ c _ [] _ Hnext Hm1 (gives_nil _)).
  - assert (zget w (k + 1) = Some y) as Hy.
    { pose proof (zget_drop w (k + 1) 0 ltac:(lia) ltac:(lia)) as Hz. rewrite Hd', Z.add_0_r in Hz. by rewrite <- Hz. }
    rewrite (char_at_get _ _ _ Hy) in Hnext. cbn [mbind outcome_bind] in Hnext.
    rewrite (proj2 (Z.eqb_neq y NUL)) in Hnext by (apply (proj1 (Forall_forall _ _) Hwn), (zget_elem _ _ _ Hy)).
    set (st1 := mkParserState (index st) (k + 1) None 0) in Hnext.
    destruct cs as [|c2 cs].
    + exists st1. split; [exact (gives_cons _ c _ [] _ Hnext Hm1 (gives_nil _))|]. cbn [app] in Ecs. rewrite Ecs. cbn. done.
    + destruct (IH st1 w (k + 1) rest) as (st' & Hg & Hend); [done|done|done|lia| |by rewrite Ecs|].
      * apply next_in_word; [done|lia|by left].
      * exists st'. split; [exact (gives_cons _ c _ _ _ Hnext Hm1 Hg)|]. cbn [index st1] in Hend. destruct rest; [done|].
        destruct Hend as [? ->]. split; [done|]. unfold zlen. cbn [length]. lia.
Qed.

(** An option with an argument at a position. *)
Lemma option_given c v st w k : short_kind c = Some true → zget argv (index st) = Some w → 1 ≤ k →
  next st = next_short_option argv option_string st w k → drop (Z.to_nat k) w = c :: v →
  ∀ a i, (v ≠ [] ∧ a = v ∧ i = index st + 1) ∨ (v = [] ∧ zget argv (index st + 1) = Some a ∧ i = index st + 2) →
  gives st [(c, Some a)] (mkParserState i 0 (Some a) 0).
Proof.
  intros Hc Hw Hk Hnext Hd a i Hcase. destruct (short_known _ _ Hc) as (Hn0 & H58 & Hm1 & d & x & Hp & Hx & Hx58).
  assert (zget w k = Some c) as Hgc.
  { pose proof (zget_drop w k 0 ltac:(lia) ltac:(lia)) as Hz. rewrite Hd in Hz. rewrite Z.add_0_r in Hz. by rewrite <- Hz. }
  assert (drop (Z.to_nat (k + 1)) w = v) as Hd'.
  { replace (Z.to_nat (k + 1)) with (Z.to_nat k + 1)%nat by lia. rewrite <- drop_drop, Hd. done. }
  assert (zlen w = k + 1 + zlen v) as Hlen.
  { apply (f_equal length) in Hd'. rewrite length_drop in Hd'. pose proof (zget_range _ _ _ Hgc). unfold zlen in *. lia. }
  unfold next_short_option in Hnext. rewrite (char_at_get _ _ _ Hgc) in Hnext. cbn [mbind outcome_bind] in Hnext.
  rewrite H58, Hp, Hx in Hnext. cbn [mbind outcome_bind] in Hnext. rewrite Hx58 in Hnext.
  destruct Hcase as [(Hv & -> & ->)|(-> & Ha & ->)].
  - destruct v as [|y v]; [done|]. assert (zget w (k + 1) = Some y) as Hy.
    { pose proof (zget_drop w (k + 1) 0 ltac:(lia) ltac:(lia)) as Hz. rewrite Hd', Z.add_0_r in Hz. by rewrite <- Hz. }
    rewrite (char_at_get _ _ _ Hy) in Hnext. cbn [mbind outcome_bind] in Hnext.
    rewrite (proj2 (Z.eqb_neq y NUL)), Hd' in Hnext
      by (apply (proj1 (Forall_forall _ _) (word_no_nul _ _ Hw)), (zget_elem _ _ _ Hy)).
    exact (gives_cons _ c _ [] _ Hnext Hm1 (gives_nil _)).
  - change (zlen []) with 0 in Hlen. replace (k + 1) with (zlen w) in Hnext by lia. rewrite char_at_end in Hnext.
    cbn [mbind outcome_bind] in Hnext. rewrite Z.eqb_refl, Ha in Hnext. exact (gives_cons _ c _ [] _ Hnext Hm1 (gives_nil _)).
Qed.

Lemma short_not_dash c k : short_kind c = Some k → c ≠ 45.
Proof. intros Hc ->. done. Qed.

(** Flags, possibly none, and an option with an argument, in a word. *)
Lemma group_given cs c v st w : Forall is_flag cs → short_kind c = Some true → zget argv (index st) = Some w → character_index st = 0 →
  w = 45 :: cs ++ c :: v →
  ∀ a i, (v ≠ [] ∧ a = v ∧ i = index st + 1) ∨ (v = [] ∧ zget argv (index st + 1) = Some a ∧ i = index st + 2) →
  gives st (map (λ c, (c, None)) cs ++ [(c, Some a)]) (mkParserState i 0 (Some a) 0).
Proof.
  intros Hf Hc Hw Hci Hww a i Hcase.
  assert (∀ y l, cs ++ c :: v = y :: l → y ≠ 45 ∧ y ≠ NUL) as Hfirst.
  { intros y l He. destruct cs as [|c0 cs]; injection He as <- _.
    - split; [by eapply short_not_dash|apply (short_known _ _ Hc)].
    - inversion Hf as [|? ? Hc0 _]; subst. split; [by eapply short_not_dash|apply (short_known _ _ Hc0)]. }
  assert (next st = next_short_option argv option_string st w 1) as Hnext.
  { apply next_in_word; [done|lia|]. right. split; [done|split; [done|]]. destruct (cs ++ c :: v) as [|y l] eqn:E; [by destruct cs|].
    destruct (Hfirst y l eq_refl). exists y, l. by rewrite Hww. }
  destruct cs as [|c0 cs].
  - apply (option_given c v st w 1); [done|done|lia|done|by rewrite Hww|done].
  - destruct (flags_given (c0 :: cs) st w 1 (c :: v)) as (st' & Hg & Hi & Hk); [done|done|done|lia|done|by rewrite Hww|].
    eapply gives_app; [exact Hg|]. apply (option_given c v st' w (1 + zlen (c0 :: cs))); [done|by rewrite Hi|unfold zlen; lia| | |by rewrite Hi].
    + apply next_in_word; [by rewrite Hi|unfold zlen; lia|by left].
    + rewrite Hww. replace (Z.to_nat (1 + zlen (c0 :: cs))) with (S (length (c0 :: cs))) by (unfold zlen; lia). cbn [drop].
      by rewrite drop_app_length.
Qed.

(** The names of the long options. *)
Lemma long_known o : In o long_options → find_long long_options (lo_name o) = Some o ∧ (61 ∉ lo_name o) ∧ lo_value o ≠ -1 ∧
  ∃ y l, lo_name o = y :: l ∧ y ≠ NUL.
Proof.
  assert (Forall (λ o, find_long long_options (lo_name o) = Some o ∧ (61 ∉ lo_name o) ∧ lo_value o ≠ -1 ∧ ∃ y l, lo_name o = y :: l ∧ y ≠ NUL) long_options) as Hall.
  { unfold long_options at 2.
    repeat (apply Forall_cons; split; [split; [reflexivity|split; [apply (bool_decide_unpack _); by vm_compute|split; [done|by eexists _, _]]]|]).
    constructor. }
  rewrite Forall_forall in Hall. intros Hin. by apply Hall, list_elem_of_In.
Qed.
Lemma split_equals_none n : 61 ∉ n → split_equals n = (n, None).
Proof.
  induction n as [|c n IH]; [done|]. intros [Hc Hn]%not_elem_of_cons. cbn. rewrite (proj2 (Z.eqb_neq c 61)) by done. by rewrite IH.
Qed.
Lemma split_equals_some n v : 61 ∉ n → split_equals (n ++ 61 :: v) = (n, Some v).
Proof.
  induction n as [|c n IH]; [done|]. intros [Hc Hn]%not_elem_of_cons. cbn. rewrite (proj2 (Z.eqb_neq c 61)) by done. by rewrite IH.
Qed.
Lemma next_long st name y l : zget argv (index st) = Some (45 :: 45 :: name) → character_index st = 0 → name = y :: l → y ≠ NUL →
  next st = Ok (next_long_option argv long_options st name).
Proof.
  intros Hw Hci -> Hy. unfold argument_parser_next_long. rewrite Hw, Hci. cbn [Z.eqb].
  rewrite (char_at_get _ 0 45), (char_at_get _ 1 45), (char_at_get _ 2 y) by done. cbn [mbind outcome_bind].
  by rewrite (proj2 (Z.eqb_neq y NUL)) by done.
Qed.
Lemma long_given o v (equals : bool) st : In o long_options → character_index st = 0 →
  zget argv (index st) = Some (45 :: 45 :: lo_name o ++ (if equals then 61 :: v else [])) →
  (if requires_argument o then equals = true ∨ zget argv (index st + 1) = Some v else equals = false) →
  ∃ i, gives st [(lo_value o, if requires_argument o then Some v else None)] (mkParserState i 0 (if requires_argument o then Some v else None) 0) ∧
    i = index st + if requires_argument o && negb equals then 2 else 1.
Proof.
  intros Hin Hci Hw Hv. destruct (long_known o Hin) as (Hfind & H61 & Hm1 & y & l & Hname & Hy).
  pose proof (next_long st _ y (l ++ (if equals then 61 :: v else [])) Hw Hci ltac:(by rewrite Hname) Hy) as Hnext.
  unfold next_long_option in Hnext. destruct equals.
  - rewrite split_equals_some, Hfind in Hnext by done. destruct (requires_argument o); [|done].
    eexists. split; [exact (gives_cons _ _ (mkParserState _ _ _ _) [] _ Hnext Hm1 (gives_nil _))|done].
  - rewrite app_nil_r, split_equals_none, Hfind in Hnext by done. destruct (requires_argument o).
    + destruct Hv as [?|Hv]; [done|]. rewrite Hv in Hnext. eexists. split; [exact (gives_cons _ _ (mkParserState _ _ _ _) [] _ Hnext Hm1 (gives_nil _))|done].
    + eexists. split; [exact (gives_cons _ _ (mkParserState _ _ _ _) [] _ Hnext Hm1 (gives_nil _))|done].
Qed.

Lemma zget_mid {A} (pre l post : list A) x : zget (pre ++ (x :: l) ++ post) (zlen pre) = Some x.
Proof. rewrite zget_app_r, Z.sub_diag by lia. done. Qed.
Lemma zget_mid2 {A} (pre l post : list A) x y : zget (pre ++ (x :: y :: l) ++ post) (zlen pre + 1) = Some y.
Proof. rewrite zget_app_r by lia. replace (zlen pre + 1 - zlen pre) with 1 by lia. done. Qed.

(** Options of the first words, and then those of the rest. *)
Lemma spelled_step g os opts ws st st1 pre post : argv = pre ++ (g ++ ws) ++ post → gives st os st1 →
  index st1 = zlen pre + zlen g → character_index st1 = 0 →
  (∀ st pre post, argv = pre ++ ws ++ post → index st = zlen pre → character_index st = 0 →
    ∃ st', gives st opts st' ∧ index st' = zlen pre + zlen ws ∧ character_index st' = 0) →
  ∃ st', gives st (os ++ opts) st' ∧ index st' = zlen pre + zlen (g ++ ws) ∧ character_index st' = 0.
Proof.
  intros Ha Hg Hi1 Hc1 IH. destruct (IH st1 (pre ++ g) post) as (st2 & Hg2 & Hi2 & Hc2); [by rewrite Ha, <- !app_assoc|by rewrite zlen_app|done|].
  exists st2. split; [by eapply gives_app|]. split; [|done]. rewrite Hi2, !zlen_app. lia.
Qed.

Lemma spelled_given opts ws : spelled opts ws → ∀ st pre post, argv = pre ++ ws ++ post → index st = zlen pre → character_index st = 0 →
  ∃ st', gives st opts st' ∧ index st' = zlen pre + zlen ws ∧ character_index st' = 0.
Proof.
  intros Hs. induction Hs as [|cs opts ws Hne Hf Hs IH|cs c v opts ws Hf Hc Hv Hs IH|cs c v opts ws Hf Hc Hs IH
    |o opts ws Hin Hr Hs IH|o v opts ws Hin Hr Hs IH|o v opts ws Hin Hr Hs IH]; intros st pre post Ha Hi Hci.
  - exists st. split; [constructor|]. change (zlen (@nil (list Z))) with 0. split; [lia|done].
  - pose proof (zget_mid pre ws post (45 :: cs)) as Hw. rewrite <- Ha, <- Hi in Hw.
    assert (next st = next_short_option argv option_string st (45 :: cs) 1) as Hnext.
    { destruct cs as [|c cs]; [done|]. apply next_in_word; [done|lia|]. right. split; [done|split; [done|]]. exists c, cs.
      inversion Hf; subst. split; [done|]. split; [by eapply short_not_dash|by eapply short_known]. }
    destruct (flags_given cs st (45 :: cs) 1 []) as (st1 & Hg & Hi1 & Hc1); [done|done|done|lia|done|by rewrite app_nil_r|].
    apply (spelled_step [45 :: cs] _ _ _ _ st1 pre post); [done|done|by rewrite Hi1, Hi|done|done].
  - pose proof (zget_mid pre ws post (45 :: cs ++ c :: v)) as Hw. rewrite <- Ha, <- Hi in Hw.
    pose proof (group_given cs c v st _ Hf Hc Hw Hci eq_refl v (index st + 1) ltac:(auto)) as Hg.
    rewrite (app_assoc (map _ cs) [(c, Some v)] opts : _ ++ (c, Some v) :: opts = _).
    apply (spelled_step [45 :: cs ++ c :: v] _ _ _ _ _ pre post Ha Hg); [by cbn; rewrite Hi|done|done].
  - pose proof (zget_mid pre (v :: ws) post (45 :: cs ++ [c])) as Hw. rewrite <- Ha, <- Hi in Hw.
    pose proof (zget_mid2 pre ws post (45 :: cs ++ [c]) v) as Hw2. rewrite <- Ha, <- Hi in Hw2.
    pose proof (group_given cs c [] st _ Hf Hc Hw Hci eq_refl v (index st + 2) ltac:(auto)) as Hg.
    rewrite (app_assoc (map _ cs) [(c, Some v)] opts : _ ++ (c, Some v) :: opts = _).
    apply (spelled_step [45 :: cs ++ [c]; v] _ _ _ _ _ pre post Ha Hg); [by cbn; rewrite Hi|done|done].
  - pose proof (zget_mid pre ws post (45 :: 45 :: lo_name o)) as Hw. rewrite <- Ha, <- Hi in Hw.
    destruct (long_given o [] false st Hin Hci) as (i & Hg & ->); [by rewrite app_nil_r|by rewrite Hr|]. rewrite Hr in Hg. cbn [andb negb] in Hg.
    apply (spelled_step [45 :: 45 :: lo_name o] [_] _ _ _ _ pre post Ha Hg); [by cbn; rewrite Hi|done|done].
  - pose proof (zget_mid pre ws post (45 :: 45 :: lo_name o ++ 61 :: v)) as Hw. rewrite <- Ha, <- Hi in Hw.
    destruct (long_given o v true st Hin Hci) as (i & Hg & ->); [done|rewrite Hr; by left|]. rewrite Hr in Hg. cbn [andb negb] in Hg.
    apply (spelled_step [45 :: 45 :: lo_name o ++ 61 :: v] [_] _ _ _ _ pre post Ha Hg); [by cbn; rewrite Hi|done|done].
  - pose proof (zget_mid pre (v :: ws) post (45 :: 45 :: lo_name o)) as Hw. rewrite <- Ha, <- Hi in Hw.
    pose proof (zget_mid2 pre ws post (45 :: 45 :: lo_name o) v) as Hw2. rewrite <- Ha, <- Hi in Hw2.
    destruct (long_given o v false st Hin Hci) as (i & Hg & ->); [by rewrite app_nil_r|rewrite Hr; by right|]. rewrite Hr in Hg. cbn [andb negb] in Hg.
    apply (spelled_step [45 :: 45 :: lo_name o; v] [_] _ _ _ _ pre post Ha Hg); [by cbn; rewrite Hi|done|done].
Qed.

(** The loop over options that are given and accepted. *)
Lemma option_loop_gives st opts st' ss : gives st opts st' →
  Forall2 (λ o s, read_option ATHRILL_ENABLE_GDB_RSP o.1 o.2 = Ok (Some s)) opts ss →
  ∀ n c st2, next st' = Ok (st2, -1) → (length opts < n)%nat →
  option_loop ATHRILL_ENABLE_GDB_RSP n argv st c = Ok (Finished (foldl (λ c s, apply s c) c ss) st2).
Proof.
  intros Hg. revert ss. induction Hg as [st|st opt st1 opts st2 Hnext Hne _ IH]; intros ss Hss n c st3 Hend Hn.
  - inversion Hss; subst. destruct n as [|n]; [lia|]. cbn [option_loop]. by rewrite Hend.
  - inversion Hss as [|? s ? ss' Hs Hss']; subst. destruct n as [|n]; [lia|]. cbn [length] in Hn. cbn [option_loop].
    rewrite Hnext. cbn [mbind outcome_bind]. rewrite (proj2 (Z.eqb_neq opt (-1))) by done. cbn [fst snd] in Hs. rewrite Hs.
    cbn [mbind outcome_bind foldl]. apply IH; [done|done|lia].
Qed.

Lemma spelled_length opts ws : spelled opts ws → (length opts ≤ foldr (λ w n, length w + 2 + n)%nat O ws)%nat.
Proof. induction 1; cbn [foldr length]; rewrite ?length_app, ?length_map in *; cbn [length] in *; rewrite ?length_app in *; cbn [length]; lia. Qed.
End spelling.

(** C28: The command line says what its words spell: if the words before the file are the
    spelling of some options (flags gathered in a word, an argument attached to its option or
    in the next word, a long option with [=] or with the next word) and each is accepted, then
    [parse_args] applies exactly these options, in this order, the later over the earlier, and
    takes the next word, which is no option, for the file to load. *)
Theorem parse_args_reads_spelling `{HostFiles} gdb block prog opts ws file rest ss
    (Hsp : spelled opts ws) (Hss : Forall2 (λ o s, read_option gdb o.1 o.2 = Ok (Some s)) opts ss)
    (Hnul : Forall (Forall (λ c, c ≠ NUL)) (prog :: ws ++ file :: rest)) (Hfile : head file ≠ Some 45) :
  parse_args gdb block (prog :: ws ++ file :: rest) =
    Ok (load_word gdb block (prog :: ws ++ file :: rest) (1 + zlen ws) (foldl (λ c s, apply s c) cmd_default ss)).
Proof.
  set (argv := prog :: ws ++ file :: rest) in *.
  destruct (spelled_given argv Hnul opts ws Hsp argument_parser_init [prog] (file :: rest)) as (st & Hg & Hi & Hc); [done..|].
  change (zlen [prog]) with 1 in Hi.
  assert (zget argv (index st) = Some file) as Hw.
  { rewrite Hi. unfold argv. pose proof (zlen_nonneg ws). change (prog :: ws ++ file :: rest) with ([prog] ++ ws ++ file :: rest).
    rewrite zget_app_r, zget_app_r by (change (zlen [prog]) with 1; lia). change (zlen [prog]) with 1.
    replace (1 + zlen ws - 1 - zlen ws) with 0 by lia. done. }
  assert (argument_parser_next_long argv option_string long_options st = Ok (mkParserState (index st) 0 None 0, -1)) as Hend.
  { unfold argument_parser_next_long. rewrite Hw, Hc. cbn [Z.eqb].
    assert (char_at file 0 = Ok (default NUL (head file))) as -> by (by destruct file).
    cbn [mbind outcome_bind]. destruct file as [|c file]; [done|]. cbn [head default from_option] in *.
    unfold id. by rewrite (proj2 (Z.eqb_neq c 45)) by congruence. }
  unfold parse_args. erewrite (option_loop_gives gdb argv _ _ _ _ Hg Hss _ _ _ Hend).
  - cbn [mbind outcome_bind index]. by rewrite Hi.
  - pose proof (spelled_length _ _ Hsp) as Hl. unfold loop_fuel, argv. cbn [foldr]. rewrite foldr_app.
    assert (∀ m, foldr (λ w n, length w + 2 + n)%nat m ws = foldr (λ w n, length w + 2 + n)%nat O ws + m)%nat as ->; [|lia].
    clear. intros m. induction ws as [|w ws IH]; cbn [foldr]; lia.
Qed.

(** A number that is printed is the number that is read. *)
Lemma timeout_read gdb n : 0 ≤ n < 2 ^ 63 → read_option gdb 116 (Some (print_dec n)) = Ok (Some (SetTimeout n)).
Proof.
  intros Hn. unfold read_option. cbn [Z.eqb Pos.eqb]. unfold number_option, need, cmd_atoi. cbn [mbind outcome_bind].
  rewrite strtol_print by lia. cbn. by rewrite wrap_id by (unfold in_width; lia).
Qed.

(** ** What the options get wrong *)

(** The path of an option is copied without a look at its length. *)
Lemma long_path_overruns gdb arg opt : PATH_BUFFER ≤ zlen arg → In opt [112; 109; 100] → read_option gdb opt (Some arg) = Fault OutOfBounds.
Proof.
  intros Hl Hin. assert (∀ set, path_option set (Some arg) = Fault OutOfBounds) as Hp.
  { intros set. unfold path_option, need, copy_path. cbn [mbind outcome_bind]. by rewrite (proj2 (Z.ltb_ge _ _)) by done. }
  repeat (destruct Hin as [<-|Hin]; [apply Hp|]). done.
Qed.
(** An empty number is zero; a port or a number of cores beyond 32 bits is cut. *)
Lemma empty_number_accepted gdb : read_option gdb 116 (Some []) = Ok (Some (SetTimeout 0)).
Proof. done. Qed.
Lemma port_is_cut : read_option true 103 (Some (print_dec (2 ^ 32 + 1234))) = Ok (Some (SetPort 1234)).
Proof. by vm_compute. Qed.

(** ** A command line *)

Module OptionsDemo.
#[local] Instance files : HostFiles := {|
  file_contents := λ p, if bool_decide (p = str_of "app.elf") then Some [127; 69; 76; 70] else None;
  file_exist := λ p, bool_decide (p = str_of "memory.txt");
  getenv := λ _, None; osdep_supports_mapped_memory := false; osdep_open_mapped_file := λ _, None;
  osdep_map_open_file := λ _ _, None; shared_library := λ _, None |}.
Definition words : list (list Z) := map str_of ["-ic"; "2"; "--delta-usec=500"; "-mmemory.txt"; "-t"; "77"; "-t100"]%string.
Definition opts : list (Z * option (list Z)) :=
  [(105, None); (99, Some (str_of "2")); (258, Some (str_of "500")); (109, Some (str_of "memory.txt")); (116, Some (str_of "77")); (116, Some (str_of "100"))].
Definition settings : list option_setting :=
  [SetInteraction; SetCores 2; SetDelta 500; SetMemory (str_of "memory.txt"); SetTimeout 77; SetTimeout 100].

Lemma words_spelled : spelled opts words.
Proof.
  apply (sp_separate [105] 99 (str_of "2")); [by repeat constructor|done|].
  apply (sp_long_equals (mkLong (str_of "delta-usec") true 258) (str_of "500")); [cbn; tauto|done|].
  apply (sp_attached [] 109 (str_of "memory.txt")); [done|done|done|].
  apply (sp_separate [] 116 (str_of "77")); [done|done|]. apply (sp_attached [] 116 (str_of "100")); [done..|]. constructor.
Qed.

Lemma spelling_witness :
  parse_args false (Some []) (str_of "athrill" :: words ++ str_of "app.elf" :: []) =
    Ok (load_word false (Some []) (str_of "athrill" :: words ++ str_of "app.elf" :: []) (1 + zlen words)
          (foldl (λ c s, apply s c) cmd_default settings)).
Proof.
  apply (parse_args_reads_spelling false (Some []) (str_of "athrill") opts words (str_of "app.elf") [] settings words_spelled).
  - repeat constructor.
  - by repeat constructor.
  - done.
Defined.

Example options_read :
  match parse_args false (Some []) (str_of "athrill" :: words ++ [str_of "app.elf"]) with
  | Ok (Some c) => (is_interaction c, core_id_num c, cmd_timeout c, hakoniwa_delta_usec c, size (load_file c)) = (true, 2, 100, 500, 4)
  | _ => False
  end.
Proof. by vm_compute. Qed.

Lemma returns_witness :
  (∃ r, option_loop false (loop_fuel (map str_of ["athrill"; "-z"; "--"]%string)) (map str_of ["athrill"; "-z"; "--"]%string) argument_parser_init cmd_default = Ok r ∧
     r ≠ Unfinished) ∧ ∃ c, parse_args false None (map str_of ["athrill"; "-z"; "--"]%string) = Ok c.
Proof. apply (parse_args_returns false (map str_of ["athrill"; "-z"; "--"]%string)). by repeat constructor. Defined.
End OptionsDemo.
