(* ===== verification/MrosList.v ===== *)
(** * The lists of the ROS device

    [src/src/device/peripheral/mros-dev/mros-src/inc/mros_list.h]: circular doubly linked
    lists whose links are members of the entries.  A list head counts and points to the
    entries in use and the free ones.

    An entry is its number; the [next] and [prev] members of all entries are two maps.  A
    pointer that is no entry's is refused.  The macros assign members one after the other, and
    so do the definitions: what they do to lists that are not well formed is what the code
    does.  [list_refines] relates them to sequences. *)

From S2P Require Import Prelude.
From stdpp Require Import gmap.
Open Scope Z_scope.

(** ** Links *)

Record links := mkLinks { l_next : gmap nat nat; l_prev : gmap nat nat }.

Definition next_of (p : nat) (h : links) : outcome nat := oob (l_next h !! p).
Definition prev_of (p : nat) (h : links) : outcome nat := oob (l_prev h !! p).
Definition link_next (p v : nat) (h : links) : outcome links :=
  _ ← next_of p h; Ok (mkLinks (<[p := v]> (l_next h)) (l_prev h)).
Definition link_prev (p v : nat) (h : links) : outcome links :=
  _ ← prev_of p h; Ok (mkLinks (l_next h) (<[p := v]> (l_prev h))).

(** ** Private macros; [first] is the pointer that they assign *)

Definition ListEntry_Init (entry : nat) (h : links) : outcome links :=
  h ← link_next entry entry h;
  link_prev entry entry h.

Definition ListEntry_InsertHead (first : option nat) (elm : nat) (h : links) : outcome (option nat * links) :=
  match first with
  | None => Ok (Some elm, h)
  | Some f =>
      h ← link_next elm f h;
      p ← prev_of f h; h ← link_prev elm p h;
      p ← prev_of f h; h ← link_next p elm h;
      h ← link_prev f elm h;
      Ok (Some elm, h)
  end.

Definition List_IsEmpty (first : nat) (h : links) : outcome bool :=
  n ← next_of first h; Ok (bool_decide (n = first)).

Definition ListEntry_Remove (first : option nat) (elm : nat) (h : links) : outcome (option nat * links) :=
  match first with
  | None => Ok (None, h)
  | Some f =>
      first ←
        (if bool_decide (f = elm) then
           alone ← List_IsEmpty f h;
           if (alone : bool) then Ok None else n ← next_of elm h; Ok (Some n)
         else Ok (Some f));
      n ← next_of elm h; p ← prev_of elm h; h ← link_prev n p h;
      p ← prev_of elm h; n ← next_of elm h; h ← link_next p n h;
      h ← ListEntry_Init elm h;
      Ok (first, h)
  end.

(** ** List heads *)

Record list_head := mkHead { entry_num : Z; entries : option nat; free : option nat; free_num : Z }.

Fixpoint init_loop (mem : list nat) (first : option nat) (h : links) : outcome (option nat * links) :=
  match mem with
  | [] => Ok (first, h)
  | tmp :: mem =>
      h ← ListEntry_Init tmp h;
      '(first, h) ← ListEntry_InsertHead first tmp h;
      init_loop mem first h
  end.
(** [mem] are the entries of the preallocated memory. *)
Definition List_Init (mem : list nat) (h : links) : outcome (list_head * links) :=
  '(first, h) ← init_loop mem None h;
  Ok (mkHead 0 None first (zlen mem), h).
Definition List_InitEmpty : list_head := mkHead 0 None None 0.

(** A counter that is wrong may allow an entry that is not there: then NULL is handed out. *)
Definition ListEntry_Alloc (hd : list_head) (h : links) : outcome (option nat * list_head * links) :=
  if 0 <? free_num hd then
    match free hd with
    | None => Ok (None, mkHead (entry_num hd) (entries hd) None (u32 (free_num hd - 1)), h)
    | Some tmp =>
        '(first, h) ← ListEntry_Remove (free hd) tmp h;
        Ok (Some tmp, mkHead (entry_num hd) (entries hd) first (u32 (free_num hd - 1)), h)
    end
  else Ok (None, hd, h).

Definition ListEntry_Free (hd : list_head) (entry : nat) (h : links) : outcome (list_head * links) :=
  h ← ListEntry_Init entry h;
  '(first, h) ← ListEntry_InsertHead (free hd) entry h;
  Ok (mkHead (entry_num hd) (entries hd) first (u32 (free_num hd + 1)), h).

Definition ListEntry_AddEntry (hd : list_head) (entry : nat) (h : links) : outcome (list_head * links) :=
  h ← ListEntry_Init entry h;
  '(first, h) ← ListEntry_InsertHead (entries hd) entry h;
  Ok (mkHead (u32 (entry_num hd + 1)) first (free hd) (free_num hd), h).

Definition ListEntry_RemoveEntry (hd : list_head) (entry : nat) (h : links) : outcome (list_head * links) :=
  '(first, h) ← ListEntry_Remove (entries hd) entry h;
  Ok (mkHead (u32 (entry_num hd - 1)) first (free hd) (free_num hd), h).

Definition ListEntry_GetFirst (hd : list_head) : option nat := entries hd.

(** [ListEntry_Foreach] around a test that leaves the loop. *)
Fixpoint foreach_find (n : nat) (var : option nat) (found : nat → outcome bool) (h : links) : outcome (option nat) :=
  match n with
  | O => Ok None
  | S n =>
      match var with
      | None => Fault NullDeref
      | Some v =>
          b ← found v;
          if (b : bool) then Ok (Some v)
          else nx ← next_of v h; foreach_find n (Some nx) found h
      end
  end.
Definition ListEntry_Foreach (hd : list_head) (found : nat → outcome bool) (h : links) : outcome (option nat) :=
  foreach_find (Z.to_nat (entry_num hd)) (entries hd) found h.

(** ** Rings

    [chain x l y]: from [x] the links lead through the entries of [l] to [y], and back. *)

Definition link (x y : nat) (h : links) : Prop := l_next h !! x = Some y ∧ l_prev h !! y = Some x.
Fixpoint chain (x : nat) (l : list nat) (y : nat) (h : links) : Prop :=
  match l with
  | [] => link x y h
  | z :: l => link x z h ∧ chain z l y h
  end.
Definition ring (l : list nat) (h : links) : Prop :=
  match l with
  | [] => True
  | f :: l => NoDup (f :: l) ∧ chain f l f h
  end.
(** The last entry of [f :: l]. *)
Fixpoint ends (f : nat) (l : list nat) : nat := match l with [] => f | x :: l => ends x l end.

Definition entry_ok (h : links) (x : nat) : Prop := is_Some (l_next h !! x) ∧ is_Some (l_prev h !! x).
(** Outside of [l] nothing changes, and no entry goes away. *)
Definition touches (l : list nat) (h h' : links) : Prop :=
  (∀ x, x ∉ l → l_next h' !! x = l_next h !! x ∧ l_prev h' !! x = l_prev h !! x) ∧
  ∀ x, entry_ok h x → entry_ok h' x.

Lemma chain_app x l1 y l2 z h : chain x (l1 ++ y :: l2) z h ↔ chain x l1 y h ∧ chain y l2 z h.
Proof. revert x. induction l1 as [|a l1 IH]; intros x; simpl; [done|]. rewrite IH. tauto. Qed.

Lemma ring_rotate l1 l2 h : ring (l1 ++ l2) h → ring (l2 ++ l1) h.
Proof.
  destruct l1 as [|x1 l1], l2 as [|x2 l2]; rewrite ?app_nil_r; [done..|].
  simpl. rewrite chain_app. intros [Hn [H1 H2]]. split; [|by apply chain_app].
  by rewrite app_comm_cons, Permutation_app_comm.
Qed.

Lemma ring_NoDup l h : ring l h → NoDup l.
Proof. destruct l; [constructor|by intros [? _]]. Qed.

Lemma ends_in f l : ends f l ∈ f :: l.
Proof. revert f. induction l as [|x l IH]; intros f; simpl; [left|right; apply IH]. Qed.

Lemma chain_ends f l y h : chain f l y h → link (ends f l) y h.
Proof. revert f. induction l as [|x l IH]; intros f; simpl; [done|]. intros [_ H]. by apply IH. Qed.

(** All links but the last are kept, the last is another one. *)
Lemma chain_relast f l y y' h h' :
  NoDup (f :: l) → chain f l y h →
  (∀ x, x ∈ f :: l → x ≠ ends f l → l_next h' !! x = l_next h !! x) →
  (∀ x, x ∈ l → l_prev h' !! x = l_prev h !! x) →
  link (ends f l) y' h' → chain f l y' h'.
Proof.
  revert f. induction l as [|x l IH]; intros f Hn Hc Hnx Hpv Hl; [done|].
  destruct Hc as [[H1 H2] Hc]. apply NoDup_cons in Hn as [Hf Hn]. split.
  - split; [rewrite Hnx; [done|left|]|rewrite Hpv; [done|left]].
    simpl. intros E. apply Hf. rewrite E. apply ends_in.
  - apply IH; [done|done| | |done].
    + intros z Hz. apply Hnx. by right.
    + intros z Hz. apply Hpv. by right.
Qed.

Lemma chain_frame f l y h h' :
  chain f l y h → (∀ x, x ∈ f :: l → l_next h' !! x = l_next h !! x) →
  (∀ x, x ∈ l ++ [y] → l_prev h' !! x = l_prev h !! x) → chain f l y h'.
Proof.
  revert f. induction l as [|x l IH]; intros f; simpl; intros Hc Hnx Hpv.
  - destruct Hc. split; [rewrite Hnx by left|rewrite Hpv by left]; done.
  - destruct Hc as [[H1 H2] Hc]. split; [split; [rewrite Hnx by left|rewrite Hpv by left]; done|].
    apply IH; [done|intros; apply Hnx; by right|intros; apply Hpv; by right].
Qed.
Lemma ring_frame l t h h' : ring l h → touches t h h' → (∀ x, x ∈ l → x ∉ t) → ring l h'.
Proof.
  intros Hr [Ht _] Hd. destruct l as [|f l]; [done|]. destruct Hr as [Hn Hc]. split; [done|].
  apply (chain_frame _ _ _ h); [done| |]; intros x Hx; apply Ht, Hd; [done|].
  apply elem_of_app in Hx as [?| ->%list_elem_of_singleton]; [by right|left].
Qed.

Lemma ring_same l h h' : ring l h → (∀ x, x ∈ l → l_next h' !! x = l_next h !! x ∧ l_prev h' !! x = l_prev h !! x) → ring l h'.
Proof.
  intros Hr Hs. destruct l as [|f l]; [done|]. destruct Hr as [Hn Hc]. split; [done|].
  apply (chain_frame _ _ _ h); [done| |]; intros x Hx; apply Hs; [done|].
  apply elem_of_app in Hx as [?| ->%list_elem_of_singleton]; [by right|left].
Qed.

Lemma link_entries f l y h x : chain f l y h → x ∈ f :: l → is_Some (l_next h !! x).
Proof.
  revert f. induction l as [|z l IH]; intros f Hc Hx; simpl in Hc.
  - apply list_elem_of_singleton in Hx as ->. destruct Hc as [-> _]. done.
  - destruct Hc as [[H1 _] Hc]. apply elem_of_cons in Hx as [->|Hx]; [by rewrite H1|by eapply IH].
Qed.
Lemma link_entries_prev f l y h x : chain f l y h → x ∈ l ++ [y] → is_Some (l_prev h !! x).
Proof.
  revert f. induction l as [|z l IH]; intros f Hc Hx; simpl in Hc, Hx.
  - apply list_elem_of_singleton in Hx as ->. destruct Hc as [_ ->]. done.
  - destruct Hc as [[_ H1] Hc]. apply elem_of_cons in Hx as [->|Hx]; [by rewrite H1|by eapply IH].
Qed.
Lemma ring_entry_ok l h x : ring l h → x ∈ l → entry_ok h x.
Proof.
  destruct l as [|f l]; [intros _ H; by apply elem_of_nil in H|]. intros [_ Hc] Hx. split.
  - by eapply link_entries.
  - eapply link_entries_prev; [done|]. apply elem_of_cons in Hx as [->|Hx]; apply elem_of_app; [right; left|by left].
Qed.

Lemma touches_refl l h : touches l h h.
Proof. by split. Qed.
Lemma touches_trans l h1 h2 h3 : touches l h1 h2 → touches l h2 h3 → touches l h1 h3.
Proof.
  intros [H1 E1] [H2 E2]. split; [|auto]. intros x Hx.
  destruct (H1 x Hx), (H2 x Hx). split; congruence.
Qed.
Lemma touches_mono l l' h h' : l ⊆ l' → touches l h h' → touches l' h h'.
Proof. intros Hl [H E]. split; [|done]. intros x Hx. apply H. set_solver. Qed.

Lemma set_next_ok p v h : entry_ok h p →
  ∃ h', link_next p v h = Ok h' ∧ l_prev h' = l_prev h ∧ l_next h' = <[p := v]> (l_next h) ∧ touches [p] h h'.
Proof.
  intros [[a Ha] _]. unfold link_next, next_of. rewrite Ha. simpl. eexists. split_and!; [done..|]. split; simpl.
  - intros x Hx%not_elem_of_cons. by rewrite lookup_insert_ne by naive_solver.
  - intros x [? ?]. split; simpl; [|done]. destruct (decide (p = x)) as [->|]; by simplify_map_eq.
Qed.
Lemma set_prev_ok p v h : entry_ok h p →
  ∃ h', link_prev p v h = Ok h' ∧ l_next h' = l_next h ∧ l_prev h' = <[p := v]> (l_prev h) ∧ touches [p] h h'.
Proof.
  intros [_ [a Ha]]. unfold link_prev, prev_of. rewrite Ha. simpl. eexists. split_and!; [done..|]. split; simpl.
  - intros x Hx%not_elem_of_cons. by rewrite lookup_insert_ne by naive_solver.
  - intros x [? ?]. split; simpl; [done|]. destruct (decide (p = x)) as [->|]; by simplify_map_eq.
Qed.

(** Take one assignment of a member. *)
Ltac assign h' := let E := fresh in let N := fresh "N" in let P := fresh "P" in let T := fresh "T" in
  match goal with
  | |- context [link_next ?p ?v ?h] => destruct (set_next_ok p v h) as (h' & E & P & N & T); [|rewrite E; cbn [mbind outcome_bind]; clear E]
  | |- context [link_prev ?p ?v ?h] => destruct (set_prev_ok p v h) as (h' & E & N & P & T); [|rewrite E; cbn [mbind outcome_bind]; clear E]
  end.

Lemma Init_ok e h : entry_ok h e → ∃ h', ListEntry_Init e h = Ok h' ∧ ring [e] h' ∧ touches [e] h h'.
Proof.
  intros He. unfold ListEntry_Init. assign h1; [done|]. assert (entry_ok h1 e) by by apply T.
  destruct (set_prev_ok e e h1) as (h2 & -> & N2 & P2 & T2); [done|].
  exists h2. split_and!; [done| |by eapply touches_trans]. split; [apply NoDup_singleton|].
  split; [rewrite N2, N|rewrite P2]; by rewrite lookup_insert_eq.
Qed.

Lemma InsertHead_ok e l h : ring l h → ring [e] h → e ∉ l →
  ∃ h', ListEntry_InsertHead (head l) e h = Ok (Some e, h') ∧ ring (e :: l) h' ∧ touches (e :: l) h h'.
Proof.
  intros Hr [_ He] Hel. destruct l as [|f l]; [exists h; split_and!; [done| |apply touches_refl]; split; [apply NoDup_singleton|done]|].
  assert (He' : entry_ok h e) by (destruct He; by split; eexists).
  assert (Hf : entry_ok h f) by (eapply ring_entry_ok; [done|left]).
  assert (Hz : entry_ok h (ends f l)) by (eapply ring_entry_ok; [done|apply ends_in]).
  pose proof Hr as [Hn Hc]. destruct (chain_ends _ _ _ _ Hc) as [Hzn Hzp].
  assert (Hez : e ≠ ends f l) by (intros ->; apply Hel, ends_in).
  assert (Hef : e ≠ f) by (intros ->; apply Hel; left).
  unfold ListEntry_InsertHead. cbn [head]. assign h1; [done|].
  unfold prev_of. rewrite P, Hzp. cbn [oob mbind outcome_bind]. assign h2; [by apply T|].
  rewrite P0, lookup_insert_ne, P, Hzp by done. cbn [oob mbind outcome_bind].
  assign h3; [by apply T0, T|]. assign h4; [by apply T1, T0, T|].
  exists h4. split_and!; [done| |].
  - split; [by constructor|]. cbn [chain]. split.
    + split; [rewrite N2, N1, lookup_insert_ne, N0, N, lookup_insert_eq by done|rewrite P2, lookup_insert_eq]; done.
    + apply (chain_relast _ _ f _ h); [done|done| | |].
      * intros x Hx Hxz. rewrite N2, N1, lookup_insert_ne, N0, N, lookup_insert_ne; [done|by intros ->|done].
      * intros x Hx. rewrite P2, P1, P0, P. apply NoDup_cons in Hn as [Hfl _].
        rewrite !lookup_insert_ne; [done| |]; intros ->; [|by apply Hfl]. apply Hel. by right.
      * split; [by rewrite N2, N1, lookup_insert_eq|].
        by rewrite P2, P1, P0, lookup_insert_ne, lookup_insert_eq by done.
  - pose proof (ends_in f l).
    repeat (eapply touches_trans; [eapply touches_mono; [|eassumption]; set_solver|]). apply touches_refl.
Qed.

(** Unlinking the first entry of a ring leaves the ring of the others. *)
Lemma unlink_ok e l h : ring (e :: l) h →
  ∃ h', (n ← next_of e h; p ← prev_of e h; h ← link_prev n p h;
         p ← prev_of e h; n ← next_of e h; h ← link_next p n h; ListEntry_Init e h) = Ok h' ∧
  ring l h' ∧ ring [e] h' ∧ touches (e :: l) h h'.
Proof.
  intros Hr. pose proof Hr as [Hn Hc]. destruct (chain_ends _ _ _ _ Hc) as [Hzn Hzp].
  assert (He : entry_ok h e) by (eapply ring_entry_ok; [done|left]).
  assert (Hz : entry_ok h (ends e l)) by (eapply ring_entry_ok; [done|apply ends_in]).
  destruct l as [|f l].
  - simpl in Hzn, Hzp. unfold next_of, prev_of. rewrite Hzn, Hzp. simpl.
    assign h1; [done|]. rewrite P, lookup_insert_eq, N, Hzn. simpl. assign h2; [by apply T|].
    destruct (Init_ok e h2) as (h3 & -> & R & T3); [by apply T0, T|].
    exists h3. refine (conj eq_refl (conj I (conj R _))). eapply touches_trans; [exact T|]. by eapply touches_trans.
  - destruct Hc as [[H1 H2] Hc]. cbn [ends] in *. unfold next_of, prev_of. rewrite H1, Hzp. cbn [oob mbind outcome_bind].
    assert (Hf : entry_ok h f) by (eapply ring_entry_ok; [done|right; left]).
    pose proof Hn as [Hel Hn']%NoDup_cons.
    assert (Hef : e ≠ f) by (intros ->; apply Hel; left).
    assert (Hez : e ≠ ends f l) by (intros E; apply Hel; rewrite E; apply ends_in).
    assign h1; [done|]. rewrite P, lookup_insert_ne, Hzp, N, H1 by done. cbn [oob mbind outcome_bind].
    assign h2; [by apply T|]. destruct (Init_ok e h2) as (h3 & -> & R & T3); [by apply T0, T|].
    exists h3. split_and!; [done| |done|].
    + split; [done|].
      assert (F : ∀ x, x ≠ e → l_next h3 !! x = l_next h2 !! x ∧ l_prev h3 !! x = l_prev h2 !! x).
      { intros x Hx. apply T3. by intros ->%list_elem_of_singleton. }
      apply (chain_relast _ _ e _ h); [done|done| | |].
      * intros x Hx Hxz. rewrite (proj1 (F x ltac:(intros ->; done))), N0, lookup_insert_ne, N; [done|congruence].
      * intros x Hx. rewrite (proj2 (F x ltac:(intros ->; apply Hel; by right))), P0, P, lookup_insert_ne; [done|].
        intros ->. by apply NoDup_cons in Hn' as [? _].
      * split; [by rewrite (proj1 (F _ (not_eq_sym Hez))), N0, lookup_insert_eq|].
        by rewrite (proj2 (F _ (not_eq_sym Hef))), P0, P, lookup_insert_eq.
    + pose proof (ends_in f l).
      repeat (eapply touches_trans; [eapply touches_mono; [|eassumption]; set_solver|]). apply touches_refl.
Qed.

Lemma Remove_ok e l1 l2 h : ring (l1 ++ e :: l2) h →
  ∃ h', ListEntry_Remove (head (l1 ++ e :: l2)) e h = Ok (head (l1 ++ l2), h') ∧
  ring (l1 ++ l2) h' ∧ ring [e] h' ∧ touches (l1 ++ e :: l2) h h'.
Proof.
  intros Hr. pose proof (ring_rotate _ _ _ Hr) as Hr'. cbn [app] in Hr'.
  destruct (unlink_ok _ _ _ Hr') as (h' & E & R & Re & T). exists h'.
  assert (E' : ∀ g : option nat, (n ← next_of e h; p ← prev_of e h; h0 ← link_prev n p h;
         p0 ← prev_of e h0; n0 ← next_of e h0; h1 ← link_next p0 n0 h0; h2 ← ListEntry_Init e h1; Ok (g, h2)) = Ok (g, h')).
  { intros g. clear -E. revert E. destruct (next_of e h); [cbn [mbind outcome_bind]|done].
    destruct (prev_of e h); [cbn [mbind outcome_bind]|done]. destruct (link_prev _ _ h) as [h0|]; [cbn [mbind outcome_bind]|done].
    destruct (prev_of e h0); [cbn [mbind outcome_bind]|done]. destruct (next_of e h0); [cbn [mbind outcome_bind]|done].
    destruct (link_next _ _ h0) as [h1|]; [cbn [mbind outcome_bind]|done]. by intros ->. }
  split_and!.
  - destruct l1 as [|f l1]; cbn [app head].
    + unfold ListEntry_Remove. rewrite bool_decide_true by done. unfold List_IsEmpty.
      destruct l2 as [|x l2]; cbn [head].
      * assert (Hx : next_of e h = Ok e) by (destruct Hr as [_ [H _]]; unfold next_of; by rewrite H).
        rewrite Hx at 1. cbn [mbind outcome_bind]. rewrite bool_decide_true by done. cbn [mbind outcome_bind]. apply E'.
      * assert (Hx : next_of e h = Ok x) by (destruct Hr as [_ [[H _] _]]; unfold next_of; by rewrite H).
        rewrite Hx at 1. cbn [mbind outcome_bind]. rewrite bool_decide_false.
        -- rewrite Hx at 1. cbn [mbind outcome_bind]. apply E'.
        -- intros ->. apply ring_NoDup, NoDup_cons in Hr as [Hne _]. apply Hne. left.
    + unfold ListEntry_Remove. rewrite bool_decide_false.
      * cbn [mbind outcome_bind]. apply E'.
      * intros ->. apply ring_NoDup in Hr. cbn [app] in Hr. apply NoDup_cons in Hr as [Hne _]. apply Hne. set_solver.
  - by apply ring_rotate.
  - done.
  - eapply touches_mono; [|done]. set_solver.
Qed.

(** ** Lists and the sequences they represent *)

Definition represents (hd : list_head) (u f : list nat) (h : links) : Prop :=
  ring u h ∧ ring f h ∧ NoDup (u ++ f) ∧ entries hd = head u ∧ free hd = head f ∧
  entry_num hd = zlen u ∧ free_num hd = zlen f.

Lemma represents_frame hd u f t h h' :
  represents hd u f h → touches t h h' → (∀ x, x ∈ u ++ f → x ∉ t) → represents hd u f h'.
Proof.
  intros (Hu & Hf & Hr) T Hd. refine (conj _ (conj _ Hr)); (eapply ring_frame; [done..|set_solver]).
Qed.

Lemma represents_empty h : represents List_InitEmpty [] [] h.
Proof. split_and!; [exact I|exact I|constructor|done..]. Qed.

Lemma init_loop_ok mem done_ h :
  NoDup (mem ++ done_) → (∀ x, x ∈ mem → entry_ok h x) → ring done_ h →
  ∃ h', init_loop mem (head done_) h = Ok (head (reverse mem ++ done_), h') ∧
  ring (reverse mem ++ done_) h' ∧ touches (mem ++ done_) h h'.
Proof.
  revert done_ h. induction mem as [|e mem IH]; intros d h Hn Hok Hr; simpl.
  { exists h. split_and!; [done|done|apply touches_refl]. }
  cbn [app] in Hn. apply NoDup_cons in Hn as [He Hn].
  destruct (Init_ok e h) as (h1 & -> & R1 & T1); [by apply Hok; left|]. cbn [mbind outcome_bind].
  assert (Hr1 : ring d h1) by (eapply ring_frame; [done..|set_solver]).
  destruct (InsertHead_ok e d h1) as (h2 & -> & R2 & T2); [done..|set_solver|]. cbn [mbind outcome_bind].
  destruct (IH (e :: d) h2) as (h3 & E3 & R3 & T3); [| |done|].
  - apply NoDup_app in Hn as (Hm & Hd & Hnd). apply NoDup_app. split_and!; [done|set_solver|]. constructor; [set_solver|done].
  - intros x Hx. apply T2, T1, Hok. by right.
  - rewrite reverse_cons, <- app_assoc. cbn [app]. exists h3. split_and!; [done..|].
    repeat (eapply touches_trans; [eapply touches_mono; [|eassumption]; set_solver|]). apply touches_refl.
Qed.

Lemma List_Init_ok mem h : NoDup mem → (∀ x, x ∈ mem → entry_ok h x) →
  ∃ hd h', List_Init mem h = Ok (hd, h') ∧ represents hd [] (reverse mem) h' ∧ touches mem h h'.
Proof.
  intros Hn Hok. unfold List_Init. destruct (init_loop_ok mem [] h) as (h' & E & R & T); [by rewrite app_nil_r|done|exact I|].
  cbn [head] in E. rewrite app_nil_r in *. rewrite E. cbn [mbind outcome_bind]. eexists _, _. split; [done|]. split; [|done].
  split_and!; [exact I|done|by rewrite reverse_Permutation|done..|]. unfold zlen. by rewrite length_reverse.
Qed.

Lemma Alloc_ok hd u e f h : represents hd u (e :: f) h → zlen f + 1 < 2 ^ 32 →
  ∃ hd' h', ListEntry_Alloc hd h = Ok (Some e, hd', h') ∧ represents hd' u f h' ∧ ring [e] h' ∧ (e ∉ u ++ f) ∧ touches (e :: f) h h'.
Proof.
  intros (Hu & Hf & Hn & E1 & E2 & E3 & E4) Hb. unfold ListEntry_Alloc. pose proof (zlen_nonneg f).
  rewrite E4. replace (zlen (e :: f)) with (zlen f + 1) by (unfold zlen; simpl; lia).
  replace (0 <? zlen f + 1) with true by lia. rewrite E2. cbn [head].
  destruct (Remove_ok e [] f h Hf) as (h' & E & R & Re & T). cbn [app head] in E. rewrite E. cbn [mbind outcome_bind].
  rewrite Permutation_app_comm in Hn. cbn [app] in Hn. apply NoDup_cons in Hn as [He Hn]. rewrite Permutation_app_comm in Hn.
  eexists _, h'. split_and!; [done| |done|set_solver|done]. split_and!; [|done|done|done|done|done|].
  - eapply ring_frame; [done..|]. intros x Hx Hxe. cbn [app] in Hxe. apply elem_of_cons in Hxe as [->|Hxf]; [set_solver|].
    apply NoDup_app in Hn as (_ & Hd & _). by apply (Hd x).
  - simpl. unfold u32, wrap. rewrite Z.mod_small; lia.
Qed.
Lemma Alloc_none hd u h : represents hd u [] h → ListEntry_Alloc hd h = Ok (None, hd, h).
Proof. intros (_ & _ & _ & _ & _ & _ & E). unfold ListEntry_Alloc. by rewrite E. Qed.

Lemma AddEntry_ok hd u f e h : represents hd u f h → entry_ok h e → e ∉ u ++ f → zlen u + 1 < 2 ^ 32 →
  ∃ hd' h', ListEntry_AddEntry hd e h = Ok (hd', h') ∧ represents hd' (e :: u) f h' ∧ touches (e :: u) h h'.
Proof.
  intros (Hu & Hf & Hn & E1 & E2 & E3 & E4) He Hne Hb. unfold ListEntry_AddEntry. pose proof (zlen_nonneg u).
  destruct (Init_ok e h He) as (h1 & -> & R1 & T1). cbn [mbind outcome_bind]. rewrite E1.
  assert (Hu1 : ring u h1) by (eapply ring_frame; [done..|set_solver]).
  destruct (InsertHead_ok e u h1) as (h2 & -> & R2 & T2); [done..|set_solver|]. cbn [mbind outcome_bind].
  eexists _, h2. split; [done|]. assert (T : touches (e :: u) h h2) by (eapply touches_trans; [eapply touches_mono; [|done]; set_solver|done]).
  split; [|done]. split_and!; [done| |by constructor|done|done| |done].
  - eapply ring_frame; [done..|]. intros x Hx Hxe. apply elem_of_cons in Hxe as [->|Hxu]; [set_solver|].
    apply NoDup_app in Hn as (_ & Hd & _). by apply (Hd x).
  - simpl. rewrite E3. unfold u32, wrap. rewrite Z.mod_small by lia. unfold zlen. simpl. lia.
Qed.

Lemma Free_ok hd u f e h : represents hd u f h → entry_ok h e → e ∉ u ++ f → zlen f + 1 < 2 ^ 32 →
  ∃ hd' h', ListEntry_Free hd e h = Ok (hd', h') ∧ represents hd' u (e :: f) h' ∧ touches (e :: f) h h'.
Proof.
  intros (Hu & Hf & Hn & E1 & E2 & E3 & E4) He Hne Hb. unfold ListEntry_Free. pose proof (zlen_nonneg f).
  destruct (Init_ok e h He) as (h1 & -> & R1 & T1). cbn [mbind outcome_bind]. rewrite E2.
  assert (Hf1 : ring f h1) by (eapply ring_frame; [done..|set_solver]).
  destruct (InsertHead_ok e f h1) as (h2 & -> & R2 & T2); [done..|set_solver|]. cbn [mbind outcome_bind].
  eexists _, h2. split; [done|]. assert (T : touches (e :: f) h h2) by (eapply touches_trans; [eapply touches_mono; [|done]; set_solver|done]).
  split; [|done]. split_and!; [|done| |done|done|done|].
  - eapply ring_frame; [done..|]. intros x Hx Hxe. apply elem_of_cons in Hxe as [->|Hxf]; [set_solver|].
    apply NoDup_app in Hn as (_ & Hd & _). by apply (Hd x).
  - rewrite Permutation_app_comm. cbn [app]. constructor; [set_solver|]. by rewrite Permutation_app_comm.
  - simpl. rewrite E4. unfold u32, wrap. rewrite Z.mod_small by lia. unfold zlen. simpl. lia.
Qed.

Lemma RemoveEntry_ok hd u1 e u2 f h : represents hd (u1 ++ e :: u2) f h → zlen (u1 ++ u2) + 1 < 2 ^ 32 →
  ∃ hd' h', ListEntry_RemoveEntry hd e h = Ok (hd', h') ∧ represents hd' (u1 ++ u2) f h' ∧ ring [e] h' ∧
  (e ∉ (u1 ++ u2) ++ f) ∧ touches (u1 ++ e :: u2) h h'.
Proof.
  intros (Hu & Hf & Hn & E1 & E2 & E3 & E4) Hb. unfold ListEntry_RemoveEntry. rewrite E1.
  destruct (Remove_ok e u1 u2 h Hu) as (h' & -> & R & Re & T). cbn [mbind outcome_bind].
  pose proof (zlen_nonneg (u1 ++ u2)).
  assert (Hp : u1 ++ e :: u2 ≡ₚ e :: u1 ++ u2) by by rewrite Permutation_middle.
  rewrite Hp in Hn. cbn [app] in Hn. apply NoDup_cons in Hn as [He Hn].
  eexists _, h'. split_and!; [done| |done|done|done]. split_and!; [done| |done|done|done| |done].
  - eapply ring_frame; [done..|]. intros x Hx Hxe. rewrite Hp in Hxe. apply elem_of_cons in Hxe as [->|Hxu]; [set_solver|].
    apply NoDup_app in Hn as (_ & Hd & _). by apply (Hd x).
  - simpl. rewrite E3. unfold zlen. rewrite Hp. simpl. fold (zlen (u1 ++ u2)). unfold u32, wrap.
    replace (Z.of_nat (S (length (u1 ++ u2))) - 1) with (zlen (u1 ++ u2)) by (unfold zlen; lia). by rewrite Z.mod_small by lia.
Qed.

(** The search of a loop, over the sequence. *)
Fixpoint find_in (l : list nat) (found : nat → outcome bool) : outcome (option nat) :=
  match l with
  | [] => Ok None
  | x :: l => b ← found x; if (b : bool) then Ok (Some x) else find_in l found
  end.

Lemma foreach_find_ok found h y : ∀ l x, chain x l y h →
  foreach_find (length (x :: l)) (Some x) found h = find_in (x :: l) found.
Proof.
  induction l as [|z l IH]; intros x Hc.
  - destruct Hc as [H _]. cbn. destruct (found x) as [[]|]; [done| |done]. unfold next_of. by rewrite H.
  - destruct Hc as [[H _] Hc]. cbn [length foreach_find find_in]. destruct (found x) as [[]|]; [done| |done].
    cbn [mbind outcome_bind]. unfold next_of. rewrite H. cbn [oob mbind outcome_bind]. apply (IH _ Hc).
Qed.
Lemma Foreach_ok hd u f h found : represents hd u f h → ListEntry_Foreach hd found h = find_in u found.
Proof.
  intros (Hu & _ & _ & E1 & _ & E3 & _). unfold ListEntry_Foreach. rewrite E1, E3. unfold zlen. rewrite Nat2Z.id.
  destruct u as [|x u]; [done|]. destruct Hu as [_ Hc]. by eapply foreach_find_ok.
Qed.

(** ** Runs *)

(** Take an entry into use, if there is one; give one back. *)
Inductive list_op := Take | Give (entry : nat).
Definition list_step (op : list_op) (hd : list_head) (h : links) : outcome (list_head * links) :=
  match op with
  | Take => '(e, hd, h) ← ListEntry_Alloc hd h; match e with None => Ok (hd, h) | Some e => ListEntry_AddEntry hd e h end
  | Give e => '(hd, h) ← ListEntry_RemoveEntry hd e h; ListEntry_Free hd e h
  end.
Fixpoint list_run (ops : list list_op) (hd : list_head) (h : links) : outcome (list_head * links) :=
  match ops with [] => Ok (hd, h) | op :: ops => '(hd, h) ← list_step op hd h; list_run ops hd h end.

(** The same on sequences: what is in use, and what is free.  Only what is in use is given back. *)
Definition seq_step (op : list_op) (uf : list nat * list nat) : option (list nat * list nat) :=
  let '(u, f) := uf in
  match op with
  | Take => Some (match f with [] => (u, []) | e :: f => (e :: u, f) end)
  | Give e => '(i, _) ← list_find (e =.) u; Some (take i u ++ drop (S i) u, e :: f)
  end.
Fixpoint seq_run (ops : list list_op) (uf : list nat * list nat) : option (list nat * list nat) :=
  match ops with [] => Some uf | op :: ops => uf ← seq_step op uf; seq_run ops uf end.

Lemma list_step_ok op hd h u f u' f' mem : represents hd u f h → u ++ f ≡ₚ mem → zlen mem < 2 ^ 32 - 1 → (∀ x, x ∈ mem → entry_ok h x) →
  seq_step op (u, f) = Some (u', f') →
  ∃ hd' h', list_step op hd h = Ok (hd', h') ∧ represents hd' u' f' h' ∧ u' ++ f' ≡ₚ mem ∧ ∀ x, x ∈ mem → entry_ok h' x.
Proof.
  intros R Hp Hb Hok Hs. assert (Hl : zlen u + zlen f = zlen mem) by (unfold zlen; rewrite <- Hp, length_app; lia).
  pose proof (zlen_nonneg u). pose proof (zlen_nonneg f). destruct op as [|e]; cbn [list_step seq_step] in *.
  - destruct f as [|e f].
    + injection Hs as <- <-. rewrite (Alloc_none _ _ _ R). cbn [mbind outcome_bind]. by exists hd, h.
    + injection Hs as <- <-. assert (Hf : zlen (e :: f) = zlen f + 1) by (unfold zlen; simpl; lia).
      destruct (Alloc_ok _ _ _ _ _ R) as (hd1 & h1 & -> & R1 & Re & Hne & T1); [lia|]. cbn [mbind outcome_bind].
      destruct (AddEntry_ok _ _ _ e _ R1) as (hd2 & h2 & -> & R2 & T2); [by eapply ring_entry_ok; [exact Re|left]|done|lia|].
      exists hd2, h2. split; [done|]. split; [done|]. split; [by rewrite <- Hp, <- Permutation_middle|].
      intros x Hx. by apply T2, T1, Hok.
  - destruct (list_find (e =.) u) as [[i x]|] eqn:E; [|done]. apply list_find_Some in E as (Hi & <- & _). injection Hs as <- <-.
    rewrite <- (take_drop_middle u i e Hi) in R, Hp, Hl. set (u1 := take i u) in *. set (u2 := drop (S i) u) in *.
    assert (Hz : zlen (u1 ++ e :: u2) = zlen (u1 ++ u2) + 1) by (unfold zlen; rewrite !length_app; simpl; lia).
    destruct (RemoveEntry_ok _ _ _ _ _ _ R) as (hd1 & h1 & -> & R1 & Re & Hne & T1); [lia|]. cbn [mbind outcome_bind].
    destruct (Free_ok _ _ _ e _ R1) as (hd2 & h2 & -> & R2 & T2); [by eapply ring_entry_ok; [exact Re|left]|done|unfold zlen in *; lia|].
    exists hd2, h2. split; [done|]. split; [done|]. split.
    + by rewrite <- Hp, <- !Permutation_middle.
    + intros x Hx. by apply T2, T1, Hok.
Qed.

Lemma list_run_ok ops mem u' f' : ∀ u f hd h, represents hd u f h → u ++ f ≡ₚ mem → zlen mem < 2 ^ 32 - 1 → (∀ x, x ∈ mem → entry_ok h x) →
  seq_run ops (u, f) = Some (u', f') → ∃ hd' h', list_run ops hd h = Ok (hd', h') ∧ represents hd' u' f' h' ∧ u' ++ f' ≡ₚ mem.
Proof.
  induction ops as [|op ops IH]; intros u f hd h R Hp Hb Hok Hs; cbn [seq_run] in Hs.
  - injection Hs as <- <-. by exists hd, h.
  - destruct (seq_step op (u, f)) as [[u1 f1]|] eqn:E; [|done]. cbn [mbind option_bind] in Hs.
    destruct (list_step_ok _ _ _ _ _ _ _ mem R Hp Hb Hok E) as (hd1 & h1 & E1 & R1 & Hp1 & Hok1). cbn [list_run]. rewrite E1. cbn [mbind outcome_bind].
    by apply (IH u1 f1).
Qed.

(** C36: The macros of the lists implement sequences: however entries are taken and given back
    after the initialisation of an array, the rings, pointers and counters are those of the
    sequence in use, the newest first, and of the free ones; no entry is lost or in both. *)
Theorem lists_implement_sequences mem ops u f h : NoDup mem → zlen mem < 2 ^ 32 - 1 → (∀ x, x ∈ mem → entry_ok h x) →
  seq_run ops ([], reverse mem) = Some (u, f) →
  ∃ hd0 h0 hd h', List_Init mem h = Ok (hd0, h0) ∧ list_run ops hd0 h0 = Ok (hd, h') ∧ represents hd u f h' ∧ u ++ f ≡ₚ mem ∧
  ∀ found, ListEntry_Foreach hd found h' = find_in u found.
Proof.
  intros Hn Hb Hok Hs. destruct (List_Init_ok mem h Hn Hok) as (hd0 & h0 & E0 & R0 & T0).
  destruct (list_run_ok ops mem u f [] (reverse mem) hd0 h0 R0) as (hd & h' & E & R & Hp);
    [cbn; apply reverse_Permutation|done|intros x Hx; by apply T0, Hok|done|].
  exists hd0, h0, hd, h'. refine (conj E0 (conj E (conj R (conj Hp _)))). intros found. by eapply Foreach_ok.
Qed.
Lemma lists_witness :
  let h := mkLinks {[0%nat := 0%nat; 1%nat := 0%nat; 2%nat := 0%nat]} {[0%nat := 0%nat; 1%nat := 0%nat; 2%nat := 0%nat]} in
  ∃ hd0 h0 hd h', List_Init [0; 1; 2]%nat h = Ok (hd0, h0) ∧ list_run [Take; Take; Give 2; Take; Take; Take]%nat hd0 h0 = Ok (hd, h') ∧
  represents hd [0; 2; 1]%nat [] h' ∧ [0; 2; 1]%nat ++ [] ≡ₚ [0; 1; 2]%nat ∧ ∀ found, ListEntry_Foreach hd found h' = find_in [0; 2; 1]%nat found.
Proof.
  intros h. refine (lists_implement_sequences [0; 1; 2]%nat [Take; Take; Give 2; Take; Take; Take]%nat [0; 2; 1]%nat [] h _ eq_refl _ eq_refl).
  - repeat (apply NoDup_cons; split; [set_solver|]). apply NoDup_nil_2.
  - intros x Hx. cbn in Hx. repeat (apply elem_of_cons in Hx as [->|Hx]; [split; eexists; vm_compute; reflexivity|]). by apply elem_of_nil in Hx.
Defined.
