(* ===== verification/MrosTopic.v ===== *)
(** * Topics, nodes and topic memory of the ROS device

    [src/src/device/peripheral/mros-dev/mros-src/]: the formal names of [lib/mros_name.c], the
    memory of [lib/mros_memory.c], the topics of [topic/cimpl/mros_topic_cimpl.c] with their
    queues, and the nodes of [node/cimpl/mros_node_cimpl.c].

    C strings are their bytes without the NUL; [char] arrays are lists of bytes.  The names
    in the entries are such arrays, and what an earlier use of the entry left in them counts.
    A block from [malloc] is new; that there is none left ends the process ([ASSERT]), and is
    not modelled.  Pointers to constant strings ([md5sum], [definition]) are addresses. *)

From S2P Require Import Prelude MrosList.
From stdpp Require Import gmap.
Open Scope Z_scope.

(** ** [inc/mros_types.h] and [mros_usr_config.h] *)

Definition MROS_E_OK : Z := 0.
Definition MROS_E_NOENT : Z := 2.
Definition MROS_E_NOMEM : Z := 12.
Definition MROS_E_INVAL : Z := 22.
Definition MROS_E_RANGE : Z := 34.
Definition MROS_E_NOTCONN : Z := 112.
Definition MROS_ID_NONE : Z := 0.
Definition MROS_ID (index : Z) : Z := u32 (index + 1).
Definition MROS_INDEX (id : Z) : Z := u32 (id - 1).

Definition MROS_TOPIC_MAX_NUM : Z := 1024.
Definition MROS_TOPIC_NAME_MAXLEN : Z := 1024.
Definition MROS_TOPIC_TYPENAME_MAXLEN : Z := 1024.
Definition MROS_NODE_MAX_NUM : Z := 1024.
Definition MROS_NODE_NAME_MAXLEN : Z := 1024.
Definition MROS_TASKID_NONE : Z := 0.

(** The link members of an array of [n] entries, before they are initialised. *)
Definition static_links (n : nat) : links :=
  let m := list_to_map (zip (seq 0 n) (replicate n 0%nat)) in mkLinks m m.

(** ** Strings *)

(** [!strcmp(a, s)] for an array [a]: the comparison may run off its end. *)
Fixpoint strcmp_eq (a s : list Z) : outcome bool :=
  match a with
  | [] => Fault OutOfBounds
  | c :: a =>
      match s with
      | [] => Ok (c =? 0)
      | d :: s => if c =? d then strcmp_eq a s else Ok false
      end
  end.
(** [memcpy] to the start of an array, and one byte of it. *)
Definition memcpy_at (a : list Z) (off : Z) (bytes : list Z) : outcome (list Z) := oob (bytes_set a off bytes).
Definition put_char (a : list Z) (off c : Z) : outcome (list Z) := oob (bytes_set a off [c]).
(** The string in an array. *)
Fixpoint string_in (a : list Z) : outcome (list Z) :=
  match a with
  | [] => Fault OutOfBounds
  | c :: a => if c =? 0 then Ok [] else s ← string_in a; Ok (c :: s)
  end.

Definition SLASH : Z := 47.
Fixpoint skip_slashes (s : list Z) : list Z := match s with c :: s' => if c =? SLASH then skip_slashes s' else s | [] => [] end.
(** One slash, then the name without the slashes that it begins with. *)
Definition mros_name_formalize (src dst : list Z) : outcome (list Z * Z) :=
  let copy := skip_slashes src in
  dst ← put_char dst 0 SLASH;
  dst ← memcpy_at dst 1 copy;
  dst ← put_char dst (zlen copy + 1) 0;
  Ok (dst, zlen copy + 1).

(** ** Memory entries *)

Record mRosMemoryEntryType := mkMem { memsize : Z; mem_size : Z; memp : list Z }.
Record mros_heap := mkHeap { m_links : links; m_data : gmap nat mRosMemoryEntryType; m_next : nat }.
Definition heap_init : mros_heap := mkHeap (mkLinks ∅ ∅) ∅ 0.

(** The bytes of the new block are not determined; zeros stand for them. *)
Definition mros_mem_alloc (sz : Z) (m : mros_heap) : nat * mros_heap :=
  let p := m_next m in
  let l := m_links m in
  (p, mkHeap (mkLinks (<[p := p]> (l_next l)) (<[p := p]> (l_prev l)))
        (<[p := mkMem sz sz (replicate (Z.to_nat sz) 0)]> (m_data m)) (S p)).
Definition mros_mem_free (p : nat) (m : mros_heap) : mros_heap :=
  let l := m_links m in
  mkHeap (mkLinks (delete p (l_next l)) (delete p (l_prev l))) (delete p (m_data m)) (m_next m).
Definition mem_at (p : nat) (m : mros_heap) : outcome mRosMemoryEntryType := oob (m_data m !! p).
Definition set_heap_links (l : links) (m : mros_heap) : mros_heap := mkHeap l (m_data m) (m_next m).
Definition set_mem_entry (p : nat) (e : mRosMemoryEntryType) (m : mros_heap) : mros_heap :=
  mkHeap (m_links m) (<[p := e]> (m_data m)) (m_next m).

(** Put into and take from a queue of memory entries. *)
Definition queue_add (q : list_head) (p : nat) (m : mros_heap) : outcome (list_head * mros_heap) :=
  '(q, l) ← ListEntry_AddEntry q p (m_links m); Ok (q, set_heap_links l m).
Definition queue_take (q : list_head) (m : mros_heap) : outcome (nat * list_head * mros_heap) :=
  match ListEntry_GetFirst q with
  | None => Fault NullDeref
  | Some p => '(q, l) ← ListEntry_RemoveEntry q p (m_links m); Ok (p, q, set_heap_links l m)
  end.

(** ** Topics *)

Record mRosTopicEntryType := mkTopic {
  topic_id : Z; namelen : Z; topic_name : list Z; typenamelen : Z; topic_typename : list Z;
  md5sum : Z; definition : Z; type_id : Z; queue_maxsize : Z; queue_head : list_head }.

Record mRosTopicManagerType := mkTopics {
  t_head : list_head; topic_entries : list mRosTopicEntryType; max_topic : Z;
  t_links : links; topic_name_buffer : list Z }.

Definition set_entries es t := mkTopics (t_head t) es (max_topic t) (t_links t) (topic_name_buffer t).
Definition set_list hd l t := mkTopics hd (topic_entries t) (max_topic t) l (topic_name_buffer t).
Definition set_buffer b t := mkTopics (t_head t) (topic_entries t) (max_topic t) (t_links t) b.

Definition TOPIC_OBJ (id : Z) (t : mRosTopicManagerType) : outcome mRosTopicEntryType :=
  oob (zget (topic_entries t) (MROS_INDEX id)).
Definition set_topic (id : Z) (e : mRosTopicEntryType) (t : mRosTopicManagerType) : mRosTopicManagerType :=
  set_entries (zput (topic_entries t) (MROS_INDEX id) e) t.
(** The entry a list pointer leads to. *)
Definition topic_ptr (p : nat) (t : mRosTopicManagerType) : outcome mRosTopicEntryType := oob (topic_entries t !! p).

(** The static variables before [mros_topic_init]. *)
Definition topic_static : mRosTopicEntryType :=
  mkTopic 0 0 (replicate (Z.to_nat MROS_TOPIC_NAME_MAXLEN) 0) 0 (replicate (Z.to_nat MROS_TOPIC_TYPENAME_MAXLEN) 0) 0 0 0 0 List_InitEmpty.
Definition topics_static : mRosTopicManagerType :=
  mkTopics List_InitEmpty (replicate (Z.to_nat MROS_TOPIC_MAX_NUM) topic_static) 0
    (static_links (Z.to_nat MROS_TOPIC_MAX_NUM)) (replicate (Z.to_nat (MROS_TOPIC_NAME_MAXLEN + 1)) 0).

Definition topic_entry_init (i : nat) (e : mRosTopicEntryType) : mRosTopicEntryType :=
  mkTopic (MROS_ID (Z.of_nat i)) 0 (topic_name e) 0 (topic_typename e) (md5sum e) (definition e) (type_id e) 1 List_InitEmpty.
Definition mros_topic_init (t : mRosTopicManagerType) : outcome mRosTopicManagerType :=
  '(hd, l) ← List_Init (seq 0 (length (topic_entries t))) (t_links t);
  Ok (mkTopics hd (imap topic_entry_init (topic_entries t)) MROS_TOPIC_MAX_NUM l (topic_name_buffer t)).

Definition mros_topic_get_first (t : mRosTopicManagerType) : option nat :=
  if entry_num (t_head t) =? 0 then None else ListEntry_GetFirst (t_head t).
Definition mros_topic_get_next (t : mRosTopicManagerType) (obj : nat) : outcome (option nat) :=
  match ListEntry_GetFirst (t_head t) with
  | None => Ok None
  | Some first => n ← next_of obj (t_links t); Ok (if bool_decide (n = first) then None else Some n)
  end.
Definition mros_topic_get_id (t : mRosTopicManagerType) (obj : nat) : outcome Z :=
  e ← topic_ptr obj t; Ok (topic_id e).

(** The result, and [*id]. *)
Definition mros_topic_get (name : list Z) (t : mRosTopicManagerType) : outcome (Z * Z) :=
  r ← ListEntry_Foreach (t_head t)
        (λ p, e ← topic_ptr p t; if zlen name =? namelen e then strcmp_eq (topic_name e) name else Ok false)
        (t_links t);
  match r with
  | Some p => e ← topic_ptr p t; Ok (if topic_id e =? MROS_ID_NONE then MROS_E_NOENT else MROS_E_OK, topic_id e)
  | None => Ok (MROS_E_NOENT, MROS_ID_NONE)
  end.

(** [id] is what [*id] holds before. *)
Definition mros_topic_create (name typename : list Z) (id : Z) (t : mRosTopicManagerType) : outcome (Z * Z * mRosTopicManagerType) :=
  if MROS_TOPIC_NAME_MAXLEN + 1 <=? zlen name then Ok (MROS_E_NOMEM, id, t)
  else if MROS_TOPIC_NAME_MAXLEN <=? zlen typename then Ok (MROS_E_NOMEM, id, t)
  else
    '(buf, len) ← mros_name_formalize name (topic_name_buffer t);
    let t := set_buffer buf t in
    formal ← string_in buf;
    '(ret, id) ← mros_topic_get formal t;
    if ret =? MROS_E_OK then Ok (MROS_E_OK, id, t)
    else
      '(p, hd, l) ← ListEntry_Alloc (t_head t) (t_links t);
      let t := set_list hd l t in
      match p with
      | None => Ok (MROS_E_NOMEM, id, t)
      | Some p =>
          e ← topic_ptr p t;
          bytes ← oob (bytes_at buf 0 len);
          tname ← memcpy_at (topic_name e) 0 bytes;
          ttype ← memcpy_at (topic_typename e) 0 typename;
          ttype ← put_char ttype (zlen typename) 0;
          let e' := mkTopic (topic_id e) len tname (zlen typename) ttype (md5sum e) (definition e) (type_id e) (queue_maxsize e) (queue_head e) in
          let t := set_entries (<[p := e']> (topic_entries t)) t in
          '(hd, l) ← ListEntry_AddEntry (t_head t) p (t_links t);
          Ok (MROS_E_OK, topic_id e, set_list hd l t)
      end.

(** The accessors by identifier: one guard, one member. *)
Definition by_id {A} (id : Z) (t : mRosTopicManagerType) (k : mRosTopicEntryType → A) (none : A) : outcome A :=
  if max_topic t <? id then Ok none else e ← TOPIC_OBJ id t; Ok (k e).
Definition change_by_id (id : Z) (t : mRosTopicManagerType) (k : mRosTopicEntryType → mRosTopicEntryType) : outcome (Z * mRosTopicManagerType) :=
  if max_topic t <? id then Ok (MROS_E_RANGE, t) else e ← TOPIC_OBJ id t; Ok (MROS_E_OK, set_topic id (k e) t).

Definition set_quesize (sz : Z) (e : mRosTopicEntryType) : mRosTopicEntryType :=
  mkTopic (topic_id e) (namelen e) (topic_name e) (typenamelen e) (topic_typename e) (md5sum e) (definition e) (type_id e) sz (queue_head e).
Definition set_queue (q : list_head) (e : mRosTopicEntryType) : mRosTopicEntryType :=
  mkTopic (topic_id e) (namelen e) (topic_name e) (typenamelen e) (topic_typename e) (md5sum e) (definition e) (type_id e) (queue_maxsize e) q.

Definition mros_topic_set_quesize_byname (name : list Z) (sz : Z) (t : mRosTopicManagerType) : outcome (Z * mRosTopicManagerType) :=
  '(ret, id) ← mros_topic_get name t;
  if negb (ret =? MROS_E_OK) then Ok (ret, t)
  else e ← TOPIC_OBJ id t; Ok (MROS_E_OK, set_topic id (set_quesize sz e) t).
Definition mros_topic_set_quesize_byid (id sz : Z) (t : mRosTopicManagerType) : outcome (Z * mRosTopicManagerType) :=
  change_by_id id t (set_quesize sz).
Definition mros_topic_set_typeid (id v : Z) (t : mRosTopicManagerType) : outcome (Z * mRosTopicManagerType) :=
  change_by_id id t (λ e, mkTopic (topic_id e) (namelen e) (topic_name e) (typenamelen e) (topic_typename e) (md5sum e) (definition e) v (queue_maxsize e) (queue_head e)).
Definition mros_topic_get_typeid (id v : Z) (t : mRosTopicManagerType) : outcome (Z * Z) :=
  by_id id t (λ e, (MROS_E_OK, type_id e)) (MROS_E_RANGE, v).
Definition mros_topic_set_definition (id v : Z) (t : mRosTopicManagerType) : outcome (Z * mRosTopicManagerType) :=
  change_by_id id t (λ e, mkTopic (topic_id e) (namelen e) (topic_name e) (typenamelen e) (topic_typename e) (md5sum e) v (type_id e) (queue_maxsize e) (queue_head e)).
Definition mros_topic_get_definition (id v : Z) (t : mRosTopicManagerType) : outcome (Z * Z) :=
  by_id id t (λ e, (MROS_E_OK, definition e)) (MROS_E_RANGE, v).
Definition mros_topic_set_md5sum (id v : Z) (t : mRosTopicManagerType) : outcome (Z * mRosTopicManagerType) :=
  change_by_id id t (λ e, mkTopic (topic_id e) (namelen e) (topic_name e) (typenamelen e) (topic_typename e) v (definition e) (type_id e) (queue_maxsize e) (queue_head e)).
Definition mros_topic_get_md5sum (id v : Z) (t : mRosTopicManagerType) : outcome (Z * Z) :=
  by_id id t (λ e, (MROS_E_OK, md5sum e)) (MROS_E_RANGE, v).
(** A pointer to the array, or NULL. *)
Definition mros_topic_get_topic_name (id : Z) (t : mRosTopicManagerType) : outcome (option (list Z)) :=
  by_id id t (λ e, Some (topic_name e)) None.
Definition mros_topic_get_topic_typename (id : Z) (t : mRosTopicManagerType) : outcome (option (list Z)) :=
  by_id id t (λ e, Some (topic_typename e)) None.

Definition remove_entry (id : Z) (t : mRosTopicManagerType) : outcome (Z * mRosTopicManagerType) :=
  _ ← TOPIC_OBJ id t;
  let p := Z.to_nat (MROS_INDEX id) in
  '(hd, l) ← ListEntry_RemoveEntry (t_head t) p (t_links t);
  '(hd, l) ← ListEntry_Free hd p l;
  Ok (MROS_E_OK, set_list hd l t).
Definition mros_topic_remove_byname (name : list Z) (t : mRosTopicManagerType) : outcome (Z * mRosTopicManagerType) :=
  '(ret, id) ← mros_topic_get name t;
  if negb (ret =? MROS_E_OK) then Ok (ret, t) else remove_entry id t.
Definition mros_topic_remove_byid (id : Z) (t : mRosTopicManagerType) : outcome (Z * mRosTopicManagerType) :=
  if max_topic t <? id then Ok (MROS_E_RANGE, t) else remove_entry id t.

(** A full queue gives up the entry that it would hand out next. *)
Definition mros_topic_add_data (id : Z) (data : nat) (t : mRosTopicManagerType) (m : mros_heap) : outcome (Z * mRosTopicManagerType * mros_heap) :=
  if max_topic t <? id then Ok (MROS_E_RANGE, t, m)
  else
    e ← TOPIC_OBJ id t;
    '(q, m) ←
      (if queue_maxsize e <=? entry_num (queue_head e) then
         '(p, q, m) ← queue_take (queue_head e) m;
         Ok (q, mros_mem_free p m)
       else Ok (queue_head e, m));
    '(q, m) ← queue_add q data m;
    Ok (MROS_E_OK, set_topic id (set_queue q e) t, m).
Definition mros_topic_get_data (id : Z) (t : mRosTopicManagerType) (m : mros_heap) : outcome (Z * option nat * mRosTopicManagerType * mros_heap) :=
  if max_topic t <? id then Ok (MROS_E_RANGE, None, t, m)
  else
    e ← TOPIC_OBJ id t;
    if entry_num (queue_head e) <=? 0 then Ok (MROS_E_NOENT, None, t, m)
    else
      '(p, q, m) ← queue_take (queue_head e) m;
      Ok (MROS_E_OK, Some p, set_topic id (set_queue q e) t, m).

(** ** Nodes *)

Inductive mRosNodeEnumType := MROS_NODE_TYPE_INNER | MROS_NODE_TYPE_OUTER | MROS_NODE_TYPE_NUM.
#[export] Instance mRosNodeEnumType_eq_dec : EqDecision mRosNodeEnumType.
Proof. solve_decision. Defined.

Record mRosNodeEntryType := mkNode { node_id : Z; task_id : Z; node_name : list Z; node_namelen : Z }.
Record node_list := mkNodes { n_head : list_head; node_entries : list mRosNodeEntryType; n_links : links; max_node : Z }.
Record mRosNodeManagerType := mkNodeMgr { inner : node_list; outer : node_list; node_name_buffer : list Z }.

Definition node_static : mRosNodeEntryType := mkNode 0 0 (replicate (Z.to_nat MROS_NODE_NAME_MAXLEN) 0) 0.
Definition nodes_static : mRosNodeManagerType :=
  let l := mkNodes List_InitEmpty (replicate (Z.to_nat MROS_NODE_MAX_NUM) node_static) (static_links (Z.to_nat MROS_NODE_MAX_NUM)) 0 in
  mkNodeMgr l l (replicate (Z.to_nat (MROS_NODE_NAME_MAXLEN + 1)) 0).

(** The array of node lists has two elements. *)
Definition nodes_of (type : mRosNodeEnumType) (n : mRosNodeManagerType) : outcome node_list :=
  match type with
  | MROS_NODE_TYPE_INNER => Ok (inner n)
  | MROS_NODE_TYPE_OUTER => Ok (outer n)
  | MROS_NODE_TYPE_NUM => Fault OutOfBounds
  end.
Definition set_nodes (type : mRosNodeEnumType) (l : node_list) (n : mRosNodeManagerType) : mRosNodeManagerType :=
  match type with
  | MROS_NODE_TYPE_INNER => mkNodeMgr l (outer n) (node_name_buffer n)
  | _ => mkNodeMgr (inner n) l (node_name_buffer n)
  end.

Definition nodes_init (i : Z) (l : node_list) : outcome node_list :=
  '(hd, k) ← List_Init (seq 0 (length (node_entries l))) (n_links l);
  Ok (mkNodes hd (imap (λ j e, mkNode (u32 (MROS_ID (Z.of_nat j) + i * MROS_NODE_MAX_NUM)) (task_id e) (node_name e) 0) (node_entries l))
        k MROS_NODE_MAX_NUM).
Definition mros_node_init (n : mRosNodeManagerType) : outcome mRosNodeManagerType :=
  i ← nodes_init 0 (inner n); o ← nodes_init 1 (outer n);
  Ok (mkNodeMgr i o (node_name_buffer n)).

Definition NODE_TYPE (id : Z) (n : mRosNodeManagerType) : mRosNodeEnumType :=
  if id <=? max_node (inner n) then MROS_NODE_TYPE_INNER else MROS_NODE_TYPE_OUTER.
Definition NODE_MAX_ID (type : mRosNodeEnumType) (n : mRosNodeManagerType) : Z :=
  match type with MROS_NODE_TYPE_INNER => max_node (inner n) | _ => u32 (max_node (inner n) + max_node (outer n)) end.
Definition NODE_INDEX (type : mRosNodeEnumType) (id : Z) (n : mRosNodeManagerType) : Z :=
  match type with MROS_NODE_TYPE_INNER => MROS_INDEX id | _ => MROS_INDEX (u32 (id - max_node (inner n))) end.
Definition NODE_OBJ (type : mRosNodeEnumType) (id : Z) (n : mRosNodeManagerType) : outcome mRosNodeEntryType :=
  l ← nodes_of type n; oob (zget (node_entries l) (NODE_INDEX type id n)).

Definition node_search (l : node_list) (found : mRosNodeEntryType → outcome bool) : outcome (Z * Z) :=
  r ← ListEntry_Foreach (n_head l) (λ p, e ← oob (node_entries l !! p); found e) (n_links l);
  match r with
  | Some p => e ← oob (node_entries l !! p); Ok (if node_id e =? MROS_ID_NONE then MROS_E_NOENT else MROS_E_OK, node_id e)
  | None => Ok (MROS_E_NOENT, MROS_ID_NONE)
  end.
Definition mros_node_get_node (name : list Z) (len : Z) (type : mRosNodeEnumType) (n : mRosNodeManagerType) : outcome (Z * Z) :=
  l ← nodes_of type n;
  node_search l (λ e, if len =? node_namelen e then strcmp_eq (node_name e) name else Ok false).
Definition mros_node_get_byname (name : list Z) (n : mRosNodeManagerType) : outcome (Z * Z) :=
  '(ret, id) ← mros_node_get_node name (zlen name) MROS_NODE_TYPE_INNER n;
  if negb (ret =? MROS_E_OK) then mros_node_get_node name (zlen name) MROS_NODE_TYPE_OUTER n else Ok (ret, id).
(** [task] is the task that calls ([mros_get_taskid]). *)
Definition mros_node_get_bytid (task : Z) (n : mRosNodeManagerType) : outcome (Z * Z) :=
  node_search (inner n) (λ e, Ok (task =? task_id e)).

Definition mros_node_type (id : Z) (n : mRosNodeManagerType) : mRosNodeEnumType :=
  let type := NODE_TYPE id n in if NODE_MAX_ID type n <? id then MROS_NODE_TYPE_NUM else type.
Definition mros_node_name (id : Z) (n : mRosNodeManagerType) : outcome (option (list Z)) :=
  let type := NODE_TYPE id n in
  if decide (type = MROS_NODE_TYPE_INNER) then e ← NODE_OBJ type id n; Ok (Some (node_name e)) else Ok None.

Definition node_new (task : Z) (name : option (Z * list Z)) (type : mRosNodeEnumType) (id : Z) (n : mRosNodeManagerType) : outcome (Z * Z * mRosNodeManagerType) :=
  l ← nodes_of type n;
  '(p, hd, k) ← ListEntry_Alloc (n_head l) (n_links l);
  match p with
  | None => Ok (MROS_E_NOMEM, id, set_nodes type (mkNodes hd (node_entries l) k (max_node l)) n)
  | Some p =>
      e ← oob (node_entries l !! p);
      e' ← match name with
           | Some (len, buf) => bytes ← oob (bytes_at buf 0 len); nm ← memcpy_at (node_name e) 0 bytes; Ok (mkNode (node_id e) task nm len)
           | None => Ok (mkNode (node_id e) task (node_name e) 0)
           end;
      '(hd, k) ← ListEntry_AddEntry hd p k;
      Ok (MROS_E_OK, node_id e, set_nodes type (mkNodes hd (<[p := e']> (node_entries l)) k (max_node l)) n)
  end.
Definition mros_node_create (name : option (list Z)) (task : Z) (type : mRosNodeEnumType) (id : Z) (n : mRosNodeManagerType) : outcome (Z * Z * mRosNodeManagerType) :=
  if decide (type = MROS_NODE_TYPE_NUM) then Ok (MROS_E_RANGE, id, n)
  else match name with
  | None => node_new task None type id n
  | Some s =>
      if MROS_NODE_NAME_MAXLEN + 1 <=? zlen s then Ok (MROS_E_NOMEM, id, n)
      else
        '(buf, len) ← mros_name_formalize s (node_name_buffer n);
        let n := mkNodeMgr (inner n) (outer n) buf in
        formal ← string_in buf;
        '(ret, id) ← mros_node_get_byname formal n;
        if ret =? MROS_E_OK then Ok (MROS_E_OK, id, n) else node_new task (Some (len, buf)) type id n
  end.
Definition mros_node_create_inner (name : list Z) (task id : Z) (n : mRosNodeManagerType) : outcome (Z * Z * mRosNodeManagerType) :=
  mros_node_create (Some name) task MROS_NODE_TYPE_INNER id n.
Definition mros_node_create_outer (id : Z) (n : mRosNodeManagerType) : outcome (Z * Z * mRosNodeManagerType) :=
  mros_node_create None MROS_TASKID_NONE MROS_NODE_TYPE_OUTER id n.

Definition mros_node_remove (id : Z) (n : mRosNodeManagerType) : outcome (Z * mRosNodeManagerType) :=
  let type := NODE_TYPE id n in
  if NODE_MAX_ID type n <? id then Ok (MROS_E_RANGE, n)
  else
    l ← nodes_of type n;
    _ ← NODE_OBJ type id n;
    let p := Z.to_nat (NODE_INDEX type id n) in
    '(hd, k) ← ListEntry_RemoveEntry (n_head l) p (n_links l);
    '(hd, k) ← ListEntry_Free hd p k;
    Ok (MROS_E_OK, set_nodes type (mkNodes hd (node_entries l) k (max_node l)) n).
