(* ===== verification/MrosTopicFacts.v ===== *)
(** * Topics: facts

    Names are found: after any topics were created, the table is the list of their formal
    names, and both functions that search it agree with a search of that list
    ([topics_are_a_registry]).  The entries of removed topics keep the bytes of their names,
    and a shorter name that gets such an entry is not found ([reused_topic_is_lost]).  A name
    without a slash that has the full length writes behind the buffer
    ([longest_name_overflows]).  A queue is a bounded stack whose newest element makes room
    ([queue_add_spec], [queue_get_spec]). *)

From S2P Require Import Prelude MrosList MrosTopic.
From stdpp Require Import gmap.
Open Scope Z_scope.

(** ** Formal names *)

(** A C string: bytes but no NUL. *)
Definition is_string (s : list Z) : Prop := Forall (λ c, c ≠ 0) s.
Definition formal (s : list Z) : list Z := SLASH :: skip_slashes s.

Lemma skip_slashes_suffix s : ∃ k, skip_slashes s = drop k s.
Proof.
  induction s as [|c s [k IH]]; simpl; [by exists 0%nat|]. destruct (c =? SLASH); [by exists (S k)|by exists 0%nat].
Qed.
Lemma formal_string s : is_string s → is_string (formal s).
Proof.
  intros H. constructor; [done|]. destruct (skip_slashes_suffix s) as [k ->]. by apply Forall_drop.
Qed.

Lemma string_in_ok s rest : is_string s → string_in (s ++ 0 :: rest) = Ok s.
Proof.
  induction 1 as [|c s Hc _ IH]; [done|]. cbn [app string_in].
  destruct (Z.eqb_spec c 0); [done|]. by rewrite IH.
Qed.

Lemma bytes_put_between (a b c bs : list Z) : length b = length bs → bytes_put (a ++ b ++ c) (zlen a) bs = a ++ bs ++ c.
Proof.
  intros Hl. unfold bytes_put, zlen. rewrite Nat2Z.id. rewrite take_app_length. f_equal. f_equal.
  rewrite <- Hl, drop_app_ge by lia. replace (length a + length b - length a)%nat with (length b) by lia.
  by rewrite drop_app_length.
Qed.
Lemma memcpy_ok (a b c bs : list Z) : length b = length bs → memcpy_at (a ++ b ++ c) (zlen a) bs = Ok (a ++ bs ++ c).
Proof.
  intros Hl. unfold memcpy_at. assert (E : bytes_set (a ++ b ++ c) (zlen a) bs = Some (a ++ bs ++ c)).
  { apply bytes_set_Some. rewrite !zlen_app. pose proof (zlen_nonneg a). pose proof (zlen_nonneg c).
    assert (zlen b = zlen bs) by (unfold zlen; lia). split_and!; [lia|lia|by rewrite bytes_put_between]. }
  by rewrite E.
Qed.

(** Any list at least [n] long, cut behind its first [n] elements. *)
Lemma cut {A} (l : list A) n : (n ≤ length l)%nat → ∃ l1 l2, l = l1 ++ l2 ∧ length l1 = n ∧ length l2 = (length l - n)%nat.
Proof. intros H. exists (take n l), (drop n l). rewrite take_drop, length_take, length_drop. split_and!; [done|lia|lia]. Qed.

Lemma formalize_ok s buf : zlen (formal s) < zlen buf →
  ∃ rest, mros_name_formalize s buf = Ok (formal s ++ 0 :: rest, zlen (formal s)) ∧
  length (formal s ++ 0 :: rest) = length buf.
Proof.
  intros Hl. unfold mros_name_formalize, formal in *. set (copy := skip_slashes s) in *.
  destruct (cut buf (S (S (length copy)))) as (b1 & rest & -> & Hb1 & _); [unfold zlen in *; simpl in *; lia|].
  destruct b1 as [|x b1]; [done|]. injection Hb1 as Hb1.
  destruct (cut b1 (length copy)) as (b2 & b3 & -> & Hb2 & Hb3); [lia|].
  destruct b3 as [|y [|? ?]]; [rewrite length_app in *; simpl in *; lia| |rewrite !length_app in *; simpl in *; lia].
  unfold put_char. change (oob (bytes_set ?a ?o ?b)) with (memcpy_at a o b).
  change ((x :: b2 ++ [y]) ++ rest) with (([] ++ [x] ++ (b2 ++ [y]) ++ rest)).
  change 0 with (@zlen Z []) at 1. rewrite memcpy_ok by done. cbn [mbind outcome_bind].
  rewrite <- app_assoc. change ([] ++ [SLASH] ++ b2 ++ [y] ++ rest) with ([SLASH] ++ b2 ++ [y] ++ rest).
  change 1 with (@zlen Z [SLASH]) at 1. rewrite memcpy_ok by done. cbn [mbind outcome_bind].
  replace (zlen copy + 1) with (zlen ([SLASH] ++ copy)) by (unfold zlen; simpl; lia).
  rewrite (app_assoc [SLASH]), memcpy_ok by done. cbn [mbind outcome_bind].
  exists rest. split; [do 2 f_equal; unfold zlen; simpl; lia|]. cbn [app length]. repeat (rewrite ?length_app; cbn [length app]). lia.
Qed.

(** ** Comparison with the names in the entries *)

Lemma strcmp_name_ok nm s pad : is_string nm → is_string s →
  strcmp_eq (nm ++ 0 :: pad) s = Ok (bool_decide (nm = s)).
Proof.
  intros Hn. revert s. induction Hn as [|c nm Hc _ IH]; intros s Hs.
  - destruct Hs as [|d s Hd _]; cbn [app strcmp_eq]; [by rewrite bool_decide_true|]. destruct (Z.eqb_spec 0 d); [by subst|]. by rewrite bool_decide_false.
  - destruct Hs as [|d s Hd Hs]; cbn [app strcmp_eq].
    + destruct (Z.eqb_spec c 0); [done|]. by rewrite bool_decide_false.
    + destruct (Z.eqb_spec c d) as [->|]; [|by rewrite bool_decide_false by congruence].
      rewrite IH by done. f_equal. apply bool_decide_ext. split; congruence.
Qed.

(** ** The table of topics is a list of names

    The names newest first; the [i]-th of [n] has the identifier [N - n + i + 1]. *)

Definition registry := list (list Z).
Definition reg_find (N : nat) (reg : registry) (nm : list Z) : option Z :=
  '(i, _) ← list_find (nm =.) reg; Some (Z.of_nat N - zlen reg + Z.of_nat i + 1).
Definition reg_get (N : nat) (reg : registry) (nm : list Z) : Z * Z :=
  match reg_find N reg nm with Some id => (MROS_E_OK, id) | None => (MROS_E_NOENT, MROS_ID_NONE) end.
Definition reg_create (N : nat) (reg : registry) (nm : list Z) : Z * Z * registry :=
  match reg_find N reg nm with
  | Some id => (MROS_E_OK, id, reg)
  | None => if zlen reg <? Z.of_nat N then (MROS_E_OK, Z.of_nat N - zlen reg, nm :: reg) else (MROS_E_NOMEM, MROS_ID_NONE, reg)
  end.

(** An entry in use with the name [nm], and one that was never used. *)
Record entry_named (p : nat) (nm : list Z) (e : mRosTopicEntryType) : Prop := {
  named_id : topic_id e = Z.of_nat p + 1;
  named_len : namelen e = zlen nm;
  named_str : is_string nm;
  named_name : ∃ pad, topic_name e = nm ++ 0 :: pad }.
Record entry_fresh (p : nat) (e : mRosTopicEntryType) : Prop := {
  fresh_id : topic_id e = Z.of_nat p + 1;
  fresh_name : topic_name e = replicate (Z.to_nat MROS_TOPIC_NAME_MAXLEN) 0;
  fresh_type : zlen (topic_typename e) = MROS_TOPIC_TYPENAME_MAXLEN }.

Record registered (N : nat) (t : mRosTopicManagerType) (reg : registry) : Prop := {
  reg_len : (length reg ≤ N)%nat;
  reg_max : Z.of_nat N < 2 ^ 32 - 1;
  reg_list : represents (t_head t) (seq (N - length reg) (length reg)) (reverse (seq 0 (N - length reg))) (t_links t);
  reg_buffer : zlen (topic_name_buffer t) = MROS_TOPIC_NAME_MAXLEN + 1;
  reg_used : ∀ i nm, reg !! i = Some nm → ∃ e, topic_entries t !! (N - length reg + i)%nat = Some e ∧ entry_named (N - length reg + i) nm e;
  reg_free : ∀ p, (p < N - length reg)%nat → ∃ e, topic_entries t !! p = Some e ∧ entry_fresh p e }.

Lemma find_in_named reg (es : list mRosTopicEntryType) nm k :
  (∀ i nm, reg !! i = Some nm → ∃ e, es !! (k + i)%nat = Some e ∧ entry_named (k + i) nm e) → is_string nm →
  find_in (seq k (length reg)) (λ p, e ← oob (es !! p); if zlen nm =? namelen e then strcmp_eq (topic_name e) nm else Ok false)
  = Ok ((λ '(i, _), (k + i)%nat) <$> list_find (nm =.) reg).
Proof.
  revert k. induction reg as [|x reg IH]; intros k Hu Hs; [done|]. cbn [length seq find_in].
  destruct (Hu 0%nat x eq_refl) as (e & He & [Hid Hlen Hstr [pad Hname]]). rewrite Nat.add_0_r in He. rewrite He. cbn [oob mbind outcome_bind].
  assert (Hb : (if zlen nm =? namelen e then strcmp_eq (topic_name e) nm else Ok false) = Ok (bool_decide (nm = x))).
  { rewrite Hlen, Hname. destruct (Z.eqb_spec (zlen nm) (zlen x)) as [El|El].
    - rewrite strcmp_name_ok by done. f_equal. apply bool_decide_ext. split; congruence.
    - rewrite bool_decide_false; [done|]. by intros ->. }
  rewrite Hb. cbn [mbind outcome_bind list_find]. destruct (decide (nm = x)) as [E|E].
  - rewrite bool_decide_true by done. simpl. by rewrite Nat.add_0_r.
  - rewrite bool_decide_false by done. rewrite IH; [|intros i y Hy; destruct (Hu (S i) y Hy) as (e' & H1 & H2); exists e'; by replace (S k + i)%nat with (k + S i)%nat by lia|done].
    f_equal. destruct (list_find _ reg) as [[i y]|]; simpl; [|done]. f_equal. lia.
Qed.

Lemma topic_get_ok N t reg nm : registered N t reg → is_string nm → mros_topic_get nm t = Ok (reg_get N reg nm).
Proof.
  intros R Hs. unfold mros_topic_get. rewrite (Foreach_ok _ _ _ _ _ (reg_list _ _ _ R)).
  change (λ p, e ← topic_ptr p t; _) with (λ p, e ← oob (topic_entries t !! p); if zlen nm =? namelen e then strcmp_eq (topic_name e) nm else Ok false).
  rewrite find_in_named with (reg := reg); [|apply (reg_used _ _ _ R)|done]. cbn [mbind outcome_bind]. unfold reg_get, reg_find.
  destruct (list_find (nm =.) reg) as [[i y]|] eqn:E; [|done]. cbn [fmap option_fmap option_map mbind option_bind].
  apply list_find_Some in E as (Hi & -> & _). destruct (reg_used _ _ _ R i y Hi) as (e & He & [Hid _ _ _]).
  unfold topic_ptr. rewrite He. cbn [oob mbind outcome_bind]. rewrite Hid.
  pose proof (reg_len _ _ _ R). pose proof (lookup_lt_Some _ _ _ Hi). unfold MROS_ID_NONE, zlen.
  destruct (Z.eqb_spec (Z.of_nat (N - length reg + i) + 1) 0); [lia|]. do 2 f_equal. lia.
Qed.

Lemma memcpy_prefix a bs : zlen bs ≤ zlen a → memcpy_at a 0 bs = Ok (bs ++ drop (length bs) a).
Proof.
  intros H. rewrite <- (take_drop (length bs) a) at 1. apply (memcpy_ok [] _ _ bs).
  rewrite length_take. unfold zlen in H. lia.
Qed.
Lemma put_char_ok a off c : 0 ≤ off < zlen a → ∃ a', put_char a off c = Ok a' ∧ zlen a' = zlen a.
Proof.
  intros H. unfold put_char. exists (bytes_put a off [c]). split; [|rewrite bytes_put_len; unfold zlen in *; simpl in *; lia].
  assert (E : bytes_set a off [c] = Some (bytes_put a off [c])) by (apply bytes_set_Some; unfold zlen in *; simpl; split_and!; [lia|lia|done]). by rewrite E.
Qed.

(** The name and the type name go into an entry that was never used. *)
Lemma fill_entry p e nm rest ty : entry_fresh p e → is_string nm → zlen nm < MROS_TOPIC_NAME_MAXLEN → zlen ty < MROS_TOPIC_TYPENAME_MAXLEN →
  ∃ e', (bytes ← oob (bytes_at (nm ++ 0 :: rest) 0 (zlen nm)); tname ← memcpy_at (topic_name e) 0 bytes;
         ttype ← memcpy_at (topic_typename e) 0 ty; ttype ← put_char ttype (zlen ty) 0;
         Ok (mkTopic (topic_id e) (zlen nm) tname (zlen ty) ttype (md5sum e) (definition e) (type_id e) (queue_maxsize e) (queue_head e))) = Ok e' ∧
  entry_named p nm e'.
Proof.
  intros [Hid Hname Htype] Hs Hn Ht. unfold MROS_TOPIC_NAME_MAXLEN, MROS_TOPIC_TYPENAME_MAXLEN in *.
  assert (Eb : bytes_at (nm ++ 0 :: rest) 0 (zlen nm) = Some nm).
  { unfold bytes_at. rewrite zlen_app. pose proof (zlen_nonneg nm). pose proof (zlen_nonneg (0 :: rest)).
    replace (_ && _ && _) with true by lia. f_equal. unfold zlen. rewrite Nat2Z.id. change (drop (Z.to_nat 0) ?l) with l. by rewrite take_app_length. }
  rewrite Eb. cbn [oob mbind outcome_bind].
  rewrite Hname, (memcpy_prefix (replicate _ _)) by (unfold zlen in *; rewrite length_replicate; lia). cbn [mbind outcome_bind].
  rewrite memcpy_prefix by lia. cbn [mbind outcome_bind].
  destruct (put_char_ok (ty ++ drop (length ty) (topic_typename e)) (zlen ty) 0) as (tt & -> & _).
  { rewrite zlen_app. unfold zlen in *. rewrite length_drop. lia. }
  cbn [mbind outcome_bind]. eexists. split; [done|]. split; cbn; [done|done|done|].
  exists (replicate (Z.to_nat 1024 - S (length nm)) 0). rewrite drop_replicate. f_equal.
  replace (Z.to_nat 1024 - length nm)%nat with (S (Z.to_nat 1024 - S (length nm))) by (unfold zlen in Hn; lia). done.
Qed.

Lemma seq_reverse_S k : reverse (seq 0 (S k)) = k :: reverse (seq 0 k).
Proof. rewrite seq_S, reverse_app. done. Qed.

Lemma topic_create_ok N t reg name ty id : registered N t reg → is_string name →
  zlen name ≤ MROS_TOPIC_NAME_MAXLEN → zlen (formal name) < MROS_TOPIC_NAME_MAXLEN → zlen ty < MROS_TOPIC_TYPENAME_MAXLEN →
  let '(ret, id', reg') := reg_create N reg (formal name) in
  ∃ t', mros_topic_create name ty id t = Ok (ret, id', t') ∧ registered N t' reg'.
Proof.
  intros R Hs Hl Hf Ht. unfold reg_create, mros_topic_create.
  replace (MROS_TOPIC_NAME_MAXLEN + 1 <=? zlen name) with false by lia.
  replace (MROS_TOPIC_NAME_MAXLEN <=? zlen ty) with false by (unfold MROS_TOPIC_NAME_MAXLEN, MROS_TOPIC_TYPENAME_MAXLEN in *; lia).
  destruct (formalize_ok name (topic_name_buffer t)) as (rest & -> & Hlen); [rewrite (reg_buffer _ _ _ R); lia|].
  cbn [mbind outcome_bind]. set (buf := formal name ++ 0 :: rest) in *.
  assert (R1 : registered N (set_buffer buf t) reg).
  { destruct R. split; try assumption. change (zlen buf = MROS_TOPIC_NAME_MAXLEN + 1). unfold zlen in *. by rewrite Hlen. }
  pose proof (formal_string _ Hs) as Hfs. assert (Es : string_in buf = Ok (formal name)) by by apply string_in_ok. rewrite Es. cbn [mbind outcome_bind].
  rewrite (topic_get_ok _ _ _ _ R1 Hfs). unfold reg_get. destruct (reg_find N reg (formal name)) as [i|]; [by eexists|].
  cbn [mbind outcome_bind]. change (MROS_E_NOENT =? MROS_E_OK) with false. cbv iota.
  cbn [t_head t_links set_buffer]. pose proof (reg_list _ _ _ R) as Hr. pose proof (reg_len _ _ _ R) as Hn.
  destruct (N - length reg)%nat as [|k] eqn:Ek.
  - rewrite (Alloc_none _ _ _ Hr). cbn [mbind outcome_bind]. replace (zlen reg <? Z.of_nat N) with false by (unfold zlen; lia).
    eexists. split; [done|]. destruct R1. split; cbn in *; rewrite ?Ek in *; assumption.
  - replace (zlen reg <? Z.of_nat N) with true by (unfold zlen; lia). rewrite seq_reverse_S in Hr.
    destruct (Alloc_ok _ _ _ _ _ Hr) as (hd & l & -> & Hr2 & Re & Hne & _).
    { unfold zlen. rewrite length_reverse, length_seq. pose proof (reg_max _ _ _ R). lia. }
    cbn [mbind outcome_bind]. destruct (reg_free _ _ _ R k) as (e & He & Hfr); [lia|].
    unfold topic_ptr. cbn [topic_entries set_list set_buffer]. rewrite He. cbn [oob mbind outcome_bind].
    destruct (fill_entry k e (formal name) rest ty Hfr Hfs Hf Ht) as (e' & Ef & Hnamed).
    destruct (AddEntry_ok hd _ _ k l Hr2) as (hd2 & l2 & Ea & Hr3 & _).
    { eapply ring_entry_ok; [exact Re|left]. } { done. } { unfold zlen. rewrite length_seq. pose proof (reg_max _ _ _ R). lia. }
    fold buf in Ef. revert Ef. destruct (oob (bytes_at buf 0 _)) as [bytes|]; [cbn [mbind outcome_bind]|done].
    destruct (memcpy_at (topic_name e) 0 bytes) as [tn|]; [cbn [mbind outcome_bind]|done].
    destruct (memcpy_at (topic_typename e) 0 ty) as [tt|]; [cbn [mbind outcome_bind]|done].
    destruct (put_char tt _ 0) as [tt2|]; [cbn [mbind outcome_bind]|done]. intros [= Ef]. rewrite Ef.
    cbn [t_head t_links set_list set_entries set_buffer]. rewrite Ea. cbn [mbind outcome_bind].
    eexists. split; [do 3 f_equal; rewrite (fresh_id _ _ Hfr); unfold zlen; lia|].
    assert (Hk : (N - length (formal name :: reg) = k)%nat) by (simpl; lia).
    split; rewrite ?Hk; cbn [t_head t_links set_list set_entries set_buffer topic_entries topic_name_buffer length].
    + lia.
    + apply (reg_max _ _ _ R).
    + exact Hr3.
    + apply (reg_buffer _ _ _ R1).
    + intros [|i] nm Hi; cbn in Hi.
      * injection Hi as <-. exists e'. rewrite Nat.add_0_r, list_lookup_insert_eq; [done|]. by eapply lookup_lt_Some.
      * destruct (reg_used _ _ _ R i nm Hi) as (e2 & H1 & H2). rewrite Ek in H1, H2. exists e2.
        rewrite list_lookup_insert_ne by lia. by replace (k + S i)%nat with (S k + i)%nat by lia.
    + intros p Hp. destruct (reg_free _ _ _ R p) as (e2 & H1 & H2); [lia|]. exists e2. by rewrite list_lookup_insert_ne by lia.
Qed.

(** ** From the start *)

Lemma static_entry_ok n p : (p < n)%nat → entry_ok (static_links n) p.
Proof.
  intros Hp. unfold static_links, entry_ok. cbn.
  assert (E : (list_to_map (zip (seq 0 n) (replicate n 0%nat)) : gmap nat nat) !! p = Some 0%nat).
  { apply elem_of_list_to_map_1.
    - rewrite fst_zip by (by rewrite length_seq, length_replicate). apply NoDup_seq.
    - apply list_elem_of_lookup. exists p. rewrite lookup_zip_with, lookup_seq_lt, lookup_replicate_2 by done. done. }
  rewrite E. done.
Qed.

Lemma topic_init_ok t n : topic_entries t = replicate n topic_static → t_links t = static_links n →
  zlen (topic_name_buffer t) = MROS_TOPIC_NAME_MAXLEN + 1 → Z.of_nat n < 2 ^ 32 - 1 →
  ∃ t', mros_topic_init t = Ok t' ∧ registered n t' [].
Proof.
  intros He Hl Hb Hn. unfold mros_topic_init. rewrite He, Hl, length_replicate.
  destruct (List_Init_ok (seq 0 n) (static_links n)) as (hd & l & -> & R & _).
  { apply NoDup_seq. } { intros p Hp%elem_of_seq. apply static_entry_ok. lia. }
  cbn [mbind outcome_bind]. eexists. split; [done|]. split; cbn [length]; rewrite ?Nat.sub_0_r; cbn [seq].
  - lia.
  - done.
  - exact R.
  - exact Hb.
  - intros i nm Hi. done.
  - intros p Hp. cbn [topic_entries]. rewrite list_lookup_imap, lookup_replicate_2 by done. eexists. split; [done|].
    split; [|done|done]. cbn. unfold MROS_ID, u32, wrap. rewrite Z.mod_small; lia.
Qed.

Fixpoint create_all (l : list (list Z * list Z)) (t : mRosTopicManagerType) : outcome (list (Z * Z) * mRosTopicManagerType) :=
  match l with
  | [] => Ok ([], t)
  | (name, ty) :: l =>
      '(ret, id, t) ← mros_topic_create name ty MROS_ID_NONE t;
      '(rs, t) ← create_all l t; Ok ((ret, id) :: rs, t)
  end.
Fixpoint reg_create_all (N : nat) (l : list (list Z)) (reg : registry) : list (Z * Z) * registry :=
  match l with
  | [] => ([], reg)
  | name :: l =>
      let '(ret, id, reg) := reg_create N reg (formal name) in
      let '(rs, reg) := reg_create_all N l reg in ((ret, id) :: rs, reg)
  end.
(** Names and type names that fit with their NUL. *)
Definition topic_arguments_fit (x : list Z * list Z) : Prop :=
  is_string x.1 ∧ zlen x.1 ≤ MROS_TOPIC_NAME_MAXLEN ∧ zlen (formal x.1) < MROS_TOPIC_NAME_MAXLEN ∧ zlen x.2 < MROS_TOPIC_TYPENAME_MAXLEN.

Lemma create_all_ok N l : Forall topic_arguments_fit l → ∀ t reg, registered N t reg →
  ∃ t', create_all l t = Ok ((reg_create_all N l.*1 reg).1, t') ∧ registered N t' (reg_create_all N l.*1 reg).2.
Proof.
  induction 1 as [|[name ty] l (H1 & H2 & H3 & H4) _ IH]; intros t reg R; [by exists t|]. cbn in *.
  pose proof (topic_create_ok N t reg name ty MROS_ID_NONE R H1 H2 H3 H4) as Hc.
  destruct (reg_create N reg (formal name)) as [[ret id] reg']. destruct Hc as (t1 & -> & R1). cbn [mbind outcome_bind].
  destruct (IH t1 reg' R1) as (t2 & -> & R2). cbn [mbind outcome_bind].
  destruct (reg_create_all N l.*1 reg') as [rs reg2]. by exists t2.
Qed.

(** C37: Topics are registered by their formal names: whatever topics are created after the
    initialisation, the identifiers handed out and every later search are those of the list of
    the names; the same name always gives the same identifier, a new one the next free one, and
    a full table refuses.  Creating a topic brings its name into the formal spelling (one slash
    in front) and so finds it under every spelling; [mros_topic_get] does not, and finds a topic
    under its formal name only.  By [topic_arguments_fit] the names given are at most 1024
    characters and shorter than 1024 when formal, and type names fit their field: the guard of
    the code also lets a name of 1024 characters without a slash pass, which overflows the
    buffer ([longest_name_overflows]). *)
Theorem topics_are_a_registry (l : list (list Z * list Z)) : Forall topic_arguments_fit l →
  let N := Z.to_nat MROS_TOPIC_MAX_NUM in let '(rs, reg) := reg_create_all N l.*1 [] in
  ∃ t0 t, mros_topic_init topics_static = Ok t0 ∧ create_all l t0 = Ok (rs, t) ∧
  ∀ nm, is_string nm → mros_topic_get nm t = Ok (reg_get N reg nm).
Proof.
  intros Hl N. destruct (topic_init_ok topics_static N) as (t0 & E0 & R0); [done..|by vm_compute|by vm_compute|].
  destruct (create_all_ok N l Hl t0 [] R0) as (t & E & R). destruct (reg_create_all N l.*1 []) as [rs reg].
  exists t0, t. split_and!; [done|done|]. intros nm Hs. by apply topic_get_ok.
Qed.

Lemma topics_are_a_registry_witness :
  let a := [97] in let b := [47; 47; 98] in
  Forall topic_arguments_fit [(a, []); (b, []); (47 :: a, [])] ∧
  ∃ t0 t, mros_topic_init topics_static = Ok t0 ∧
  create_all [(a, []); (b, []); (47 :: a, [])] t0 = Ok ([(0, 1024); (0, 1023); (0, 1024)], t) ∧
  ∀ nm, is_string nm → mros_topic_get nm t = Ok (reg_get 1024 [[47; 98]; [47; 97]] nm).
Proof.
  intros a b. assert (H : Forall topic_arguments_fit [(a, []); (b, []); (47 :: a, [])]).
  { repeat (apply Forall_cons; split); [..|apply Forall_nil; done];
      (split_and!; [repeat (apply Forall_cons; split); [..|apply Forall_nil; done]; done|vm_compute; congruence|by vm_compute|by vm_compute]). }
  split; [exact H|]. exact (topics_are_a_registry [(a, []); (b, []); (47 :: a, [])] H).
Defined.

(** An entry that was given back keeps the name that it had: "/b" in the entry of "/abc" is the
    string "/bbc", and its topic is created again. *)
Theorem reused_topic_is_lost :
  (t ← mros_topic_init topics_static;
   '(r1, id1, t) ← mros_topic_create [97; 98; 99] [] 0 t;
   '(r2, t) ← mros_topic_remove_byid id1 t;
   '(r3, id3, t) ← mros_topic_create [98] [] 0 t;
   '(r4, id4) ← mros_topic_get [47; 98] t;
   '(r5, id5, t) ← mros_topic_create [98] [] 0 t;
   Ok [(r1, id1); (r3, id3); (r4, id4); (r5, id5)])
  = Ok [(MROS_E_OK, 1024); (MROS_E_OK, 1024); (MROS_E_NOENT, MROS_ID_NONE); (MROS_E_OK, 1023)].
Proof. vm_compute. reflexivity. Qed.

(** A name of the full length that has no slash in front gets one, and its NUL is written
    behind the buffer. *)
Theorem longest_name_overflows name ty id t : zlen (topic_name_buffer t) = MROS_TOPIC_NAME_MAXLEN + 1 →
  zlen name = MROS_TOPIC_NAME_MAXLEN → skip_slashes name = name → zlen ty < MROS_TOPIC_NAME_MAXLEN →
  mros_topic_create name ty id t = Fault OutOfBounds.
Proof.
  intros Hb Hl Hs Ht. unfold mros_topic_create.
  replace (MROS_TOPIC_NAME_MAXLEN + 1 <=? zlen name) with false by lia.
  replace (MROS_TOPIC_NAME_MAXLEN <=? zlen ty) with false by lia.
  unfold mros_name_formalize. rewrite Hs. unfold MROS_TOPIC_NAME_MAXLEN in *.
  destruct (put_char_ok (topic_name_buffer t) 0 SLASH) as (b1 & -> & H1); [lia|]. cbn [mbind outcome_bind].
  unfold memcpy_at. destruct (bytes_set b1 1 name) as [b2|] eqn:E2; [|done]. apply bytes_set_Some in E2 as (_ & _ & ->).
  cbn [oob mbind outcome_bind]. unfold put_char.
  destruct (bytes_set (bytes_put b1 1 name) (zlen name + 1) [0]) as [b3|] eqn:E3; [|done].
  apply bytes_set_Some in E3 as (_ & H3 & _). rewrite bytes_put_len in H3 by lia. unfold zlen in *. simpl in H3. lia.
Qed.

(** ** Queues of topic data *)

Lemma queue_add_ok q l p m : represents q l [] (m_links m) → entry_ok (m_links m) p → p ∉ l → zlen l + 1 < 2 ^ 32 →
  ∃ q' m', queue_add q p m = Ok (q', m') ∧ represents q' (p :: l) [] (m_links m') ∧ m_data m' = m_data m.
Proof.
  intros R Hp Hn Hb. unfold queue_add. destruct (AddEntry_ok q l [] p (m_links m)) as (q' & h' & -> & R' & _); [done|done|by rewrite app_nil_r|done|].
  cbn [mbind outcome_bind]. by eexists _, _.
Qed.
Lemma queue_take_ok q p l m : represents q (p :: l) [] (m_links m) → zlen l + 1 < 2 ^ 32 →
  ∃ q' m', queue_take q m = Ok (p, q', m') ∧ represents q' l [] (m_links m') ∧ m_data m' = m_data m ∧ (p ∉ l) ∧ ∀ x, entry_ok (m_links m) x → entry_ok (m_links m') x.
Proof.
  intros R Hb. pose proof R as (_ & _ & _ & He & _). unfold queue_take, ListEntry_GetFirst. rewrite He. cbn [head].
  destruct (RemoveEntry_ok q [] p l [] (m_links m) R Hb) as (q' & h' & -> & R' & _ & Hn & _ & T). cbn [mbind outcome_bind].
  eexists _, _. split; [done|]. split; [done|]. split; [done|]. split; [|done]. cbn in Hn. by rewrite app_nil_r in Hn.
Qed.
Lemma represents_free q l p m : represents q l [] (m_links m) → p ∉ l → represents q l [] (m_links (mros_mem_free p m)).
Proof.
  intros (Hr & _ & Hrest) Hn. refine (conj _ (conj I Hrest)). eapply ring_same; [done|]. intros x Hx. cbn.
  by rewrite !lookup_delete_ne by (intros ->; done).
Qed.

Lemma topic_add_ok id p T m e l : id ≤ max_topic T → TOPIC_OBJ id T = Ok e → represents (queue_head e) l [] (m_links m) →
  entry_ok (m_links m) p → p ∉ l → zlen l + 1 < 2 ^ 32 → 0 < queue_maxsize e →
  let full := queue_maxsize e <=? zlen l in
  ∃ q m', mros_topic_add_data id p T m = Ok (MROS_E_OK, set_topic id (set_queue q e) T, m') ∧
  represents q (p :: if full then tail l else l) [] (m_links m') ∧
  m_data m' = if full then match head l with Some x => delete x (m_data m) | None => m_data m end else m_data m.
Proof.
  intros Hid He R Hp Hn Hb Hmax full. unfold mros_topic_add_data. replace (max_topic T <? id) with false by lia.
  rewrite He. cbn [mbind outcome_bind]. pose proof R as (_ & _ & _ & _ & _ & Hnum & _). rewrite Hnum. fold full.
  destruct full eqn:Ef; unfold full in Ef.
  - destruct l as [|x l]; [unfold zlen in Ef; simpl in Ef; lia|]. apply not_elem_of_cons in Hn as [Hpx Hn].
    assert (Hl : zlen (x :: l) = zlen l + 1) by (unfold zlen; simpl; lia).
    destruct (queue_take_ok (queue_head e) x l m R) as (q1 & m1 & -> & R1 & D1 & Hx & Hok); [lia|]. cbn [mbind outcome_bind].
    destruct (queue_add_ok q1 l p (mros_mem_free x m1)) as (q2 & m2 & -> & R2 & D2); [by apply represents_free| |done|lia|].
    { destruct (Hok p Hp) as [H1 H2]. split; cbn; by rewrite lookup_delete_ne by (intros ->; done). }
    cbn [mbind outcome_bind]. exists q2, m2. split; [done|]. split; [done|]. rewrite D2. cbn. by rewrite D1.
  - cbn [mbind outcome_bind]. destruct (queue_add_ok (queue_head e) l p m R Hp Hn Hb) as (q2 & m2 & -> & R2 & D2). cbn [mbind outcome_bind].
    by exists q2, m2.
Qed.

(** The queue of a topic is a bounded stack: data that are added are the next to be handed
    out, and when the queue is full it is the newest of the older ones that is given up and
    freed, the others wait. *)
Theorem topic_queue_is_a_stack id p T m e l : 0 < id ≤ max_topic T → id < 2 ^ 32 → TOPIC_OBJ id T = Ok e → represents (queue_head e) l [] (m_links m) →
  entry_ok (m_links m) p → p ∉ l → zlen l + 1 < 2 ^ 32 → 0 < queue_maxsize e →
  let full := queue_maxsize e <=? zlen l in let older := if full then tail l else l in
  ∃ q m' T' q2 m2, mros_topic_add_data id p T m = Ok (MROS_E_OK, T', m') ∧ TOPIC_OBJ id T' = Ok (set_queue q e) ∧
  represents q (p :: older) [] (m_links m') ∧ (∀ x, x ∈ l → full = true → head l = Some x → m_data m' !! x = None) ∧
  mros_topic_get_data id T' m' = Ok (MROS_E_OK, Some p, set_topic id (set_queue q2 e) T', m2) ∧
  represents q2 older [] (m_links m2) ∧ m_data m2 = m_data m'.
Proof.
  intros Hid Hi32 He R Hp Hn Hb Hmax full older.
  destruct (topic_add_ok id p T m e l) as (q & m' & E1 & R1 & D1); [lia|done..|]. fold full older in R1, D1.
  set (T' := set_topic id (set_queue q e) T) in *.
  assert (E2 : TOPIC_OBJ id T' = Ok (set_queue q e)).
  { unfold T', TOPIC_OBJ, set_topic in *. cbn. assert (Ei : MROS_INDEX id = id - 1) by (unfold MROS_INDEX, u32, wrap; apply Z.mod_small; lia).
    rewrite Ei in *. destruct (zget (topic_entries T) (id - 1)) eqn:Eg; [|done]. apply zget_range in Eg. by rewrite zget_zput_eq by lia. }
  assert (Hlen : zlen older + 1 < 2 ^ 32) by (unfold older; destruct full; [destruct l; unfold zlen in *; simpl in *; lia|done]).
  destruct (queue_take_ok q p older m' R1 Hlen) as (q2 & m2 & Et & R2 & D2 & _).
  exists q, m', T', q2, m2. split; [exact E1|]. split; [exact E2|]. split; [exact R1|]. split.
  { intros x Hx Hf Hh. rewrite D1, Hf, Hh. apply lookup_delete_eq. }
  split; [|done]. unfold mros_topic_get_data. change (max_topic T') with (max_topic T). replace (max_topic T <? id) with false by lia.
  rewrite E2. cbn [mbind outcome_bind]. pose proof R1 as (_ & _ & _ & _ & _ & Hnum & _). change (queue_head (set_queue q e)) with q.
  rewrite Hnum. destruct (Z.leb_spec (zlen (p :: older)) 0); [unfold zlen in *; simpl in *; lia|]. rewrite Et. cbn [mbind outcome_bind].
  do 3 f_equal.
Qed.

(** Blocks 0 and 1; the queue holds block 0 and is full. *)
Definition two_blocks : mros_heap := (mros_mem_alloc 4 (mros_mem_alloc 4 heap_init).2).2.
Definition full_topic : mRosTopicEntryType := mkTopic 1 0 [] 0 [] 0 0 0 1 (mkHead 1 (Some 0%nat) None 0).
Definition one_topic : mRosTopicManagerType := mkTopics List_InitEmpty [full_topic] MROS_TOPIC_MAX_NUM (static_links 1) [].
Lemma topic_queue_witness : let m := two_blocks in let T := one_topic in let p := 1%nat in
  ∃ q m' T' q2 m2, mros_topic_add_data 1 p T m = Ok (MROS_E_OK, T', m') ∧ TOPIC_OBJ 1 T' = Ok (set_queue q full_topic) ∧
  represents q [p] [] (m_links m') ∧ (∀ x, x ∈ [0%nat] → true = true → head [0%nat] = Some x → m_data m' !! x = None) ∧
  mros_topic_get_data 1 T' m' = Ok (MROS_E_OK, Some p, set_topic 1 (set_queue q2 full_topic) T', m2) ∧
  represents q2 [] [] (m_links m2) ∧ m_data m2 = m_data m'.
Proof.
  intros m T p.
  assert (R : represents (queue_head full_topic) [0%nat] [] (m_links m)).
  { refine (conj _ (conj I (conj _ (conj eq_refl (conj eq_refl (conj eq_refl eq_refl)))))); [|apply NoDup_singleton].
    split; [apply NoDup_singleton|]. split; vm_compute; reflexivity. }
  assert (Hp : entry_ok (m_links m) p) by (split; eexists; vm_compute; reflexivity).
  assert (Hn : p ∉ [0%nat]) by (intros H%list_elem_of_singleton; discriminate H).
  assert (Hid : 0 < 1 ≤ max_topic T) by (split; [reflexivity|vm_compute; discriminate]).
  exact (topic_queue_is_a_stack 1 p T m full_topic [0%nat] Hid eq_refl eq_refl R Hp Hn eq_refl eq_refl).
Defined.
