(* ===== verification/MrosComm.v ===== *)
(** * TCP clients and topic data on the wire

    [src/src/device/peripheral/mros-dev/mros-src/]: sockets and clients
    ([comm/cimpl/mros_comm_socket_cimpl.c], [comm/cimpl/mros_comm_tcp_client_cimpl.c]), the
    table of clients ([comm/cimpl/mros_comm_tcp_client_factory_cimpl.c]) and the topic data
    they carry ([protocol/cimpl/mros_protocol_operation_cimpl.c]).

    The theorems: the loops that send and receive all end, whatever the host answers
    ([send_all_returns], [receive_all_returns]), and what is received has the size asked for;
    a message whose length wraps around overflows its memory ([wrapped_length_overflows]).

    The socket calls of the host are the operations of a class over a state of the host.  They
    release the lock of the middleware while they wait; what the other tasks do then is not
    modelled.  Messages are shorter than 2^31 bytes, which the counters of the loops hold. *)

From S2P Require Import Prelude MrosList MrosTopic.
From stdpp Require Import gmap.
Open Scope Z_scope.

Definition MROS_E_SYSERR : Z := -1.
Definition MROS_COMM_DEFAULT_TIMEOUT : Z := 1500.
Definition MROS_TOPIC_RAWDATA_HEADER_SIZE : Z := 4.

(** [select] gives its result and whether the descriptor is in the set, [recv] its result and
    the bytes that it stored. *)
Class SockOps (W : Type) := {
  sys_socket : W → Z * W;
  sys_connect : Z → Z → Z → W → Z * W;
  sys_select : Z → Z → bool → W → Z * bool * W;
  sys_send : Z → list Z → W → Z * W;
  sys_recv : Z → Z → W → Z * list Z * W;
  sys_close : Z → W → W }.

Record mRosCommTcpClientType := mkClient {
  sock_fd : Z; timeout : Z; blocking : bool; remote_addr : Z; remote_port : Z; connected : bool }.
Definition set_connected (b : bool) (c : mRosCommTcpClientType) : mRosCommTcpClientType :=
  mkClient (sock_fd c) (timeout c) (blocking c) (remote_addr c) (remote_port c) b.

Section comm.
Context {W : Type} {ops : SockOps W}.
Implicit Types (c : mRosCommTcpClientType) (w : W).

(** ** Sockets *)

Definition mros_comm_socket_select (fd tmo : Z) (read : bool) w : Z * W :=
  let '(ret, isset, w) := sys_select fd tmo read w in
  (if ret <? 0 then MROS_E_SYSERR else if (ret =? 0) || negb isset then MROS_E_NOENT else MROS_E_OK, w).
Definition mros_comm_socket_wait_readable (fd tmo : Z) w : Z * W := mros_comm_socket_select fd tmo true w.
Definition mros_comm_socket_wait_writable (fd tmo : Z) w : Z * W := mros_comm_socket_select fd tmo false w.

(** A TCP socket: the descriptor is stored even when it is not one. *)
Definition mros_comm_socket_init c w : Z * mRosCommTcpClientType * W :=
  let '(fd, w) := sys_socket w in
  if fd <? 0 then (MROS_E_INVAL, mkClient fd (timeout c) (blocking c) (remote_addr c) (remote_port c) (connected c), w)
  else (MROS_E_OK, mkClient fd MROS_COMM_DEFAULT_TIMEOUT true (remote_addr c) (remote_port c) (connected c), w).
Definition mros_comm_socket_close c w : mRosCommTcpClientType * W :=
  (mkClient (-1) (timeout c) (blocking c) (remote_addr c) (remote_port c) (connected c), sys_close (sock_fd c) w).

(** ** Clients *)

Definition mros_comm_tcp_client_ip32_init c (ipaddr port : Z) w : Z * mRosCommTcpClientType * W :=
  mros_comm_socket_init (mkClient (sock_fd c) (timeout c) (blocking c) ipaddr port false) w.
Definition mros_comm_tcp_client_close c w : mRosCommTcpClientType * W :=
  mros_comm_socket_close (set_connected false c) w.
Definition mros_comm_tcp_client_connect c w : Z * mRosCommTcpClientType * W :=
  if connected c then (MROS_E_INVAL, c, w)
  else
    let '(ret, c, w) := if sock_fd c <? 0 then mros_comm_socket_init c w else (MROS_E_OK, c, w) in
    if negb (ret =? MROS_E_OK) then (ret, c, w)
    else
      let '(ret, w) := sys_connect (sock_fd c) (remote_addr c) (remote_port c) w in
      if negb (ret =? MROS_E_OK) then (MROS_E_NOTCONN, c, w) else (MROS_E_OK, set_connected true c, w).
Definition mros_comm_tcp_client_is_connected c : bool := connected c.

Definition client_unusable c : bool := (sock_fd c <? 0) || negb (connected c).
(** Before each call on a socket that does not block. *)
Definition wait_writable c w : Z * W :=
  if blocking c then (MROS_E_OK, w) else mros_comm_socket_wait_writable (sock_fd c) (timeout c) w.

(** The result and [*res], when it is written.  [fuel] is enough when it is the number of bytes:
    each round moves one at least. *)
Fixpoint send_loop (fuel : nat) c (data : list Z) (written : Z) w : outcome (Z * option Z * mRosCommTcpClientType * W) :=
  if negb (written <? zlen data) then Ok (MROS_E_OK, Some written, c, w)
  else match fuel with
  | O => Fault Hang
  | S fuel =>
      let '(ret, w) := wait_writable c w in
      if negb (ret =? MROS_E_OK) then Ok (ret, None, c, w)
      else
        let '(retlen, w) := sys_send (sock_fd c) (drop (Z.to_nat written) data) w in
        if 0 <? retlen then send_loop fuel c data (written + retlen) w
        else if retlen =? 0 then Ok (MROS_E_SYSERR, Some written, set_connected false c, w)
        else Ok (MROS_E_SYSERR, Some written, c, w)
  end.
Definition mros_comm_tcp_client_send_all c (data : list Z) w : outcome (Z * option Z * mRosCommTcpClientType * W) :=
  if client_unusable c then Ok (MROS_E_INVAL, None, c, w) else send_loop (length data) c data 0 w.

(** The result and the bytes received so far.  It waits until it could write. *)
Fixpoint receive_loop (fuel : nat) c (len : Z) (got : list Z) w : outcome (Z * list Z * mRosCommTcpClientType * W) :=
  if negb (zlen got <? len) then Ok (MROS_E_OK, got, c, w)
  else match fuel with
  | O => Fault Hang
  | S fuel =>
      let '(ret, w) := wait_writable c w in
      if negb (ret =? MROS_E_OK) then Ok (ret, got, c, w)
      else
        let '(retlen, bytes, w) := sys_recv (sock_fd c) (len - zlen got) w in
        if 0 <? retlen then receive_loop fuel c len (got ++ bytes) w
        else if retlen =? 0 then Ok (MROS_E_SYSERR, got, set_connected false c, w)
        else Ok (MROS_E_SYSERR, got, c, w)
  end.
Definition mros_comm_tcp_client_receive_all c (len : Z) w : outcome (Z * list Z * mRosCommTcpClientType * W) :=
  if client_unusable c then Ok (MROS_E_INVAL, [], c, w) else receive_loop (Z.to_nat len) c len [] w.

(** ** Topic data *)

Definition mros_protocol_get_buffersize (body_size : Z) : Z := u32 (body_size + MROS_TOPIC_RAWDATA_HEADER_SIZE).
Definition mros_protocol_get_body (buffer : list Z) : list Z := drop (Z.to_nat MROS_TOPIC_RAWDATA_HEADER_SIZE) buffer.

(** The first four bytes of the buffer become the length of the rest; the buffer is changed. *)
Definition mros_protocol_topic_data_send c (data : list Z) w : outcome (Z * list Z * mRosCommTcpClientType * W) :=
  data ← memcpy_at data 0 (le_bytes 4 (u32 (zlen data - MROS_TOPIC_RAWDATA_HEADER_SIZE)));
  '(ret, _, c, w) ← mros_comm_tcp_client_send_all c data w;
  Ok (ret, data, c, w).

Definition mros_protocol_topic_data_receive c (m : mros_heap) w : outcome (Z * option nat * mRosCommTcpClientType * mros_heap * W) :=
  let '(ret, w) := mros_comm_socket_wait_readable (sock_fd c) 0 w in
  if negb (ret =? MROS_E_OK) then Ok (ret, None, c, m, w)
  else
    '(ret, rawdata, c, w) ← mros_comm_tcp_client_receive_all c MROS_TOPIC_RAWDATA_HEADER_SIZE w;
    if negb (ret =? MROS_E_OK) then Ok (ret, None, c, m, w)
    else
      let len := le_val rawdata in
      let '(p, m) := mros_mem_alloc (u32 (len + MROS_TOPIC_RAWDATA_HEADER_SIZE)) m in
      e ← mem_at p m;
      memory ← memcpy_at (memp e) 0 rawdata;
      '(ret, body, c, w) ← mros_comm_tcp_client_receive_all c len w;
      memory ← memcpy_at memory MROS_TOPIC_RAWDATA_HEADER_SIZE body;
      let m := set_mem_entry p (mkMem (memsize e) (mem_size e) memory) m in
      Ok (ret, if ret =? MROS_E_OK then Some p else None, c, m, w).
End comm.

(** ** The table of clients

    The members of an entry that its lists use, the client and the topic that it is for. *)

Record mRosRquestObjectType := mkReqObj { req_topic : Z; req_ipaddr : Z; req_port : Z; api_reqp : option nat }.
Record mRosCommTcpClientReqEntryType := mkReq { client : mRosCommTcpClientType; reqobj : mRosRquestObjectType }.
Record client_table := mkClients { k_head : list_head; k_entries : list mRosCommTcpClientReqEntryType; k_links : links }.

Definition client_at (p : nat) (k : client_table) : outcome mRosCommTcpClientReqEntryType := oob (k_entries k !! p).
Definition set_client (p : nat) (c : mRosCommTcpClientType) (k : client_table) : outcome client_table :=
  e ← client_at p k; Ok (mkClients (k_head k) (<[p := mkReq c (reqobj e)]> (k_entries k)) (k_links k)).

Definition mros_comm_tcp_client_factory_init (k : client_table) : outcome client_table :=
  '(hd, l) ← List_Init (seq 0 (length (k_entries k))) (k_links k); Ok (mkClients hd (k_entries k) l).
Definition mros_comm_tcp_client_alloc (k : client_table) : outcome (option nat * client_table) :=
  '(p, hd, l) ← ListEntry_Alloc (k_head k) (k_links k);
  match p with
  | None => Ok (None, mkClients hd (k_entries k) l)
  | Some p => '(hd, l) ← ListEntry_AddEntry hd p l; Ok (Some p, mkClients hd (k_entries k) l)
  end.
Definition mros_comm_tcp_client_alloc_copy (c : mRosCommTcpClientType) (k : client_table) : outcome (option nat * client_table) :=
  '(p, k) ← mros_comm_tcp_client_alloc k;
  match p with
  | None => Ok (None, k)
  | Some p => k ← set_client p c k; Ok (Some p, k)
  end.
Definition mros_comm_tcp_client_free (p : nat) (k : client_table) : outcome client_table :=
  '(hd, l) ← ListEntry_RemoveEntry (k_head k) p (k_links k);
  '(hd, l) ← ListEntry_Free hd p l;
  Ok (mkClients hd (k_entries k) l).

(** ** Facts *)

Section facts.
Context {W : Type} {ops : SockOps W}.
Implicit Types (c : mRosCommTcpClientType) (w : W).

Lemma send_loop_returns fuel c data written w : 0 ≤ written → zlen data - written ≤ Z.of_nat fuel → is_ok (send_loop fuel c data written w).
Proof.
  revert c written w. induction fuel as [|fuel IH]; intros c written w Hw Hf; cbn [send_loop].
  - destruct (Z.ltb_spec written (zlen data)); [lia|]. by eexists.
  - destruct (negb (written <? zlen data)); [by eexists|]. destruct (wait_writable c w) as [ret w1]. destruct (negb (ret =? MROS_E_OK)); [by eexists|].
    destruct (sys_send _ _ w1) as [retlen w2]. destruct (Z.ltb_spec 0 retlen); [apply IH; lia|]. destruct (retlen =? 0); by eexists.
Qed.
(** Sending ends, whatever the host answers. *)
Theorem send_all_returns c data w : is_ok (mros_comm_tcp_client_send_all c data w).
Proof.
  unfold mros_comm_tcp_client_send_all. destruct (client_unusable c); [by eexists|]. apply send_loop_returns; unfold zlen; lia.
Qed.

(** [recv] stores the bytes that it reports, and no more than asked for. *)
Definition recv_contract : Prop := ∀ fd len w, let '(ret, bytes, _) := sys_recv fd len w in 0 < ret → zlen bytes = ret ∧ ret ≤ len.

Lemma receive_loop_returns fuel c len got w : recv_contract → zlen got ≤ len → len - zlen got ≤ Z.of_nat fuel →
  ∃ ret got' c' w', receive_loop fuel c len got w = Ok (ret, got', c', w') ∧ zlen got' ≤ len ∧ (ret = MROS_E_OK → zlen got' = len).
Proof.
  intros Hc. revert c got w. induction fuel as [|fuel IH]; intros c got w Hg Hf; cbn [receive_loop].
  - destruct (Z.ltb_spec (zlen got) len); [lia|]. eexists _, _, _, _. split; [done|]. split; [lia|]. intros _. lia.
  - destruct (Z.ltb_spec (zlen got) len); [cbn [negb]|eexists _, _, _, _; split; [done|]; split; [lia|]; intros _; lia].
    destruct (wait_writable c w) as [ret w1]. destruct (Z.eqb_spec ret MROS_E_OK); cbn [negb].
    2: { eexists _, _, _, _. split; [done|]. split; [lia|]. done. }
    pose proof (Hc (sock_fd c) (len - zlen got) w1) as Hr. destruct (sys_recv _ _ w1) as [[retlen bytes] w2].
    destruct (Z.ltb_spec 0 retlen).
    + destruct (Hr ltac:(lia)) as [Hb Hl]. apply IH; rewrite zlen_app; lia.
    + destruct (retlen =? 0); eexists _, _, _, _; (split; [done|]; split; [lia|done]).
Qed.
(** Receiving ends, never takes more than asked for, and success means all of it. *)
Theorem receive_all_returns c len w : recv_contract → 0 ≤ len →
  ∃ ret got c' w', mros_comm_tcp_client_receive_all c len w = Ok (ret, got, c', w') ∧ zlen got ≤ len ∧ (ret = MROS_E_OK → zlen got = len).
Proof.
  intros Hc Hl. unfold mros_comm_tcp_client_receive_all. destruct (client_unusable c).
  - eexists _, _, _, _. split; [done|]. split; [done|]. done.
  - apply receive_loop_returns; [done|done|]. change (zlen []) with 0. lia.
Qed.

(** A message that says that 2^32 - 1 bytes follow gets three bytes of memory, and its header
    does not fit. *)
Theorem wrapped_length_overflows c m w w1 c1 w2 : mros_comm_socket_wait_readable (sock_fd c) 0 w = (MROS_E_OK, w1) →
  mros_comm_tcp_client_receive_all c MROS_TOPIC_RAWDATA_HEADER_SIZE w1 = Ok (MROS_E_OK, [255; 255; 255; 255], c1, w2) →
  mros_protocol_topic_data_receive c m w = Fault OutOfBounds.
Proof.
  intros E1 E2. unfold mros_protocol_topic_data_receive. rewrite E1. change (negb (MROS_E_OK =? MROS_E_OK)) with false. cbv iota.
  rewrite E2. cbn [mbind outcome_bind]. change (negb (MROS_E_OK =? MROS_E_OK)) with false. cbv iota. unfold mros_mem_alloc. cbv beta iota zeta.
  change (u32 (le_val [255; 255; 255; 255] + MROS_TOPIC_RAWDATA_HEADER_SIZE)) with 3.
  unfold mem_at. cbn [m_data]. rewrite lookup_insert_eq. reflexivity.
Qed.
End facts.
