(* ===== verification/MrosConnector.v ===== *)
(** * Connectors between nodes and topics, and the delivery of topic data

    [src/src/device/peripheral/mros-dev/mros-src/]: the connectors of
    [topic/cimpl/mros_topic_connector_cimpl.c] and their two managers
    ([topic/cimpl/mros_topic_connector_factory_cimpl.c]), and the two functions that move
    topic data, [transfer/cimpl/mros_topic_data_publisher_cimpl.c] from the connectors of
    publishers to the topics and [transfer/cimpl/mros_topic_data_subscriber_cimpl.c] from the
    topics to the connectors of subscribers; [mros_topic_callback] is that of
    [mros-athrill/api/ros_cimpl.c].

    A manager keeps a ring of topic roots, and each root a ring of connectors per node type.
    What a callback is given is an event.  The operations of a connection are the functions of
    [MrosComm], which are the only ones the program puts there. *)

From S2P Require Import Prelude MrosList MrosTopic MrosComm.
From stdpp Require Import gmap.
Open Scope Z_scope.

(** ** Data *)

Record mRosTopicConnectorType := mkConnector { c_topic : Z; c_node : Z; c_func : Z }.
Record mRosTopicConnectorEntryType := mkEntry {
  c_value : mRosTopicConnectorType; c_queue_maxsize : Z; c_queue_head : list_head; c_commp : option nat }.
Record mRosTopicConnectorEntryRootType := mkRoot { r_topic : Z; r_inner : list_head; r_outer : list_head }.

Record mRosTopicConnectorManagerType := mkManager {
  is_initialized : bool; is_error : bool; max_connector : Z;
  conn_head : list_head; conn_entries : list mRosTopicConnectorEntryType; conn_links : links;
  topic_head : list_head; root_entries : list mRosTopicConnectorEntryRootType; root_links : links }.

Definition set_is_error b g := mkManager (is_initialized g) b (max_connector g) (conn_head g) (conn_entries g) (conn_links g) (topic_head g) (root_entries g) (root_links g).
Definition set_conns hd es l g := mkManager (is_initialized g) (is_error g) (max_connector g) hd es l (topic_head g) (root_entries g) (root_links g).
Definition set_roots hd es l g := mkManager (is_initialized g) (is_error g) (max_connector g) (conn_head g) (conn_entries g) (conn_links g) hd es l.

Inductive mRosTopicConnectorEnumType := MROS_TOPIC_CONNECTOR_PUB | MROS_TOPIC_CONNECTOR_SUB.

(** [Callback func topic length data]: a callback, with what it may ask for and its argument.
    [Request type obj]: the master is asked to register a connector, and waited for. *)
Inductive mros_event :=
  | Callback (func topic length : Z) (data : list Z)
  | Request (type : mRosTopicConnectorEnumType) (obj : nat).

Section connector.
Context {W : Type} {ops : SockOps W}.

Record mros := mkMros {
  topics : mRosTopicManagerType; nodes : mRosNodeManagerType;
  pub_mgr : mRosTopicConnectorManagerType; sub_mgr : mRosTopicConnectorManagerType;
  heap : mros_heap; clients : client_table; callbacks : list mros_event; world : W }.
Definition set_topics t s := mkMros t (nodes s) (pub_mgr s) (sub_mgr s) (heap s) (clients s) (callbacks s) (world s).
Definition set_node_mgr n s := mkMros (topics s) n (pub_mgr s) (sub_mgr s) (heap s) (clients s) (callbacks s) (world s).
Definition set_mros_heap m s := mkMros (topics s) (nodes s) (pub_mgr s) (sub_mgr s) m (clients s) (callbacks s) (world s).
Definition set_clients k s := mkMros (topics s) (nodes s) (pub_mgr s) (sub_mgr s) (heap s) k (callbacks s) (world s).
Definition set_net w s := mkMros (topics s) (nodes s) (pub_mgr s) (sub_mgr s) (heap s) (clients s) (callbacks s) w.
Definition note_event e s := mkMros (topics s) (nodes s) (pub_mgr s) (sub_mgr s) (heap s) (clients s) (callbacks s ++ [e]) (world s).

Definition mgr_of (type : mRosTopicConnectorEnumType) (s : mros) : mRosTopicConnectorManagerType :=
  match type with MROS_TOPIC_CONNECTOR_PUB => pub_mgr s | MROS_TOPIC_CONNECTOR_SUB => sub_mgr s end.
Definition set_mgr (type : mRosTopicConnectorEnumType) (g : mRosTopicConnectorManagerType) (s : mros) : mros :=
  match type with
  | MROS_TOPIC_CONNECTOR_PUB => mkMros (topics s) (nodes s) g (sub_mgr s) (heap s) (clients s) (callbacks s) (world s)
  | MROS_TOPIC_CONNECTOR_SUB => mkMros (topics s) (nodes s) (pub_mgr s) g (heap s) (clients s) (callbacks s) (world s)
  end.

(** ** Pointers *)

Definition conn_at (p : nat) (g : mRosTopicConnectorManagerType) : outcome mRosTopicConnectorEntryType := oob (conn_entries g !! p).
Definition root_at (p : nat) (g : mRosTopicConnectorManagerType) : outcome mRosTopicConnectorEntryRootType := oob (root_entries g !! p).
Definition put_conn (p : nat) (e : mRosTopicConnectorEntryType) (g : mRosTopicConnectorManagerType) := set_conns (conn_head g) (<[p := e]> (conn_entries g)) (conn_links g) g.
Definition put_root (p : nat) (e : mRosTopicConnectorEntryRootType) (g : mRosTopicConnectorManagerType) := set_roots (topic_head g) (<[p := e]> (root_entries g)) (root_links g) g.
(** [head\[type\]]: an array of two. *)
Definition head_of (type : mRosNodeEnumType) (r : mRosTopicConnectorEntryRootType) : outcome list_head :=
  match type with MROS_NODE_TYPE_INNER => Ok (r_inner r) | MROS_NODE_TYPE_OUTER => Ok (r_outer r) | MROS_NODE_TYPE_NUM => Fault OutOfBounds end.
Definition set_head_of (type : mRosNodeEnumType) (hd : list_head) (r : mRosTopicConnectorEntryRootType) : mRosTopicConnectorEntryRootType :=
  match type with MROS_NODE_TYPE_INNER => mkRoot (r_topic r) hd (r_outer r) | _ => mkRoot (r_topic r) (r_inner r) hd end.

(** ** Managers *)

Definition mros_topic_connector_init (g : mRosTopicConnectorManagerType) : outcome mRosTopicConnectorManagerType :=
  let conns := map (λ e, mkEntry (mkConnector MROS_ID_NONE MROS_ID_NONE MROS_ID_NONE) 1 List_InitEmpty (c_commp e)) (conn_entries g) in
  let roots := map (λ _, mkRoot MROS_ID_NONE List_InitEmpty List_InitEmpty) (root_entries g) in
  '(th, tl) ← List_Init (seq 0 (length roots)) (root_links g);
  '(ch, cl) ← List_Init (seq 0 (length conns)) (conn_links g);
  Ok (mkManager (is_initialized g) false (zlen conns) ch conns cl th roots tl).
Definition mros_topic_connector_factory_create (type : mRosTopicConnectorEnumType) (s : mros) : outcome mros :=
  let g := mgr_of type s in
  if is_initialized g then Ok s
  else
    g ← mros_topic_connector_init g;
    Ok (set_mgr type (mkManager true (is_error g) (max_connector g) (conn_head g) (conn_entries g) (conn_links g) (topic_head g) (root_entries g) (root_links g)) s).
Definition mros_topic_connector_factory_get (type : mRosTopicConnectorEnumType) (s : mros) : option mRosTopicConnectorManagerType :=
  let g := mgr_of type s in if is_initialized g then Some g else None.

(** ** Iteration *)

Definition mros_topic_connector_get_topic_first (g : mRosTopicConnectorManagerType) : option nat :=
  if entry_num (topic_head g) =? 0 then None else ListEntry_GetFirst (topic_head g).
Definition mros_topic_connector_get_topic_next (g : mRosTopicConnectorManagerType) (obj : nat) : outcome (option nat) :=
  match ListEntry_GetFirst (topic_head g) with
  | None => Ok None
  | Some first => n ← next_of obj (root_links g); Ok (if bool_decide (n = first) then None else Some n)
  end.
Definition mros_topic_connector_get_first (g : mRosTopicConnectorManagerType) (type : mRosNodeEnumType) (topic_obj : nat) : outcome (option nat) :=
  r ← root_at topic_obj g; hd ← head_of type r;
  Ok (if entry_num hd =? 0 then None else ListEntry_GetFirst hd).
Definition mros_topic_connector_get_next (n : mRosNodeManagerType) (g : mRosTopicConnectorManagerType) (topic_obj obj : nat) : outcome (option nat) :=
  e ← conn_at obj g; r ← root_at topic_obj g;
  hd ← head_of (mros_node_type (c_node (c_value e)) n) r;
  match ListEntry_GetFirst hd with
  | None => Ok None
  | Some first => nx ← next_of obj (conn_links g); Ok (if bool_decide (nx = first) then None else Some nx)
  end.

(** ** Search *)

Definition mros_topic_connector_get_topic_head (g : mRosTopicConnectorManagerType) (id : Z) : outcome (option nat) :=
  ListEntry_Foreach (topic_head g) (λ p, r ← root_at p g; Ok (r_topic r =? id)) (root_links g).
Definition mros_topic_connector_get_topic_obj (g : mRosTopicConnectorManagerType) (id : Z) : outcome (option nat) :=
  mros_topic_connector_get_topic_head g id.
Definition mros_topic_connector_create_topic_head (g : mRosTopicConnectorManagerType) (id : Z) : outcome (option nat * mRosTopicConnectorManagerType) :=
  '(p, hd, l) ← ListEntry_Alloc (topic_head g) (root_links g);
  let g := set_roots hd (root_entries g) l g in
  match p with
  | None => Ok (None, g)
  | Some p =>
      _ ← root_at p g;
      let g := put_root p (mkRoot id List_InitEmpty List_InitEmpty) g in
      '(hd, l) ← ListEntry_AddEntry (topic_head g) p (root_links g);
      Ok (Some p, set_roots hd (root_entries g) l g)
  end.
Definition mros_topic_connector_get_node (n : mRosNodeManagerType) (g : mRosTopicConnectorManagerType) (topic_p : nat) (id : Z) : outcome (option nat) :=
  r ← root_at topic_p g; hd ← head_of (mros_node_type id n) r;
  ListEntry_Foreach hd (λ p, e ← conn_at p g; Ok (c_node (c_value e) =? id)) (conn_links g).
(** The test is on the loop variable, which no loop over a ring leaves NULL: without the topic,
    the root that is NULL is used. *)
Definition mros_topic_connector_get_obj (n : mRosNodeManagerType) (g : mRosTopicConnectorManagerType) (c : mRosTopicConnectorType) : outcome (option nat) :=
  root ← mros_topic_connector_get_topic_head g (c_topic c);
  match root with
  | Some r => mros_topic_connector_get_node n g r (c_node c)
  | None => if bool_decide (entries (topic_head g) = None) then Ok None else Fault NullDeref
  end.

(** ** Removal and addition *)

Definition mros_topic_connector_remove (c : mRosTopicConnectorType) (n : mRosNodeManagerType) (k : client_table) (g : mRosTopicConnectorManagerType) : outcome (Z * client_table * mRosTopicConnectorManagerType) :=
  root ← mros_topic_connector_get_topic_head g (c_topic c);
  match root with
  | None => Ok (MROS_E_NOENT, k, g)
  | Some tp =>
      entry ← mros_topic_connector_get_node n g tp (c_node c);
      match entry with
      | None => Ok (MROS_E_NOENT, k, g)
      | Some p =>
          let type := mros_node_type (c_node c) n in
          r ← root_at tp g; hd ← head_of type r;
          '(hd, l) ← ListEntry_RemoveEntry hd p (conn_links g);
          let g := set_conns (conn_head g) (conn_entries g) l (put_root tp (set_head_of type hd r) g) in
          g ← (if entry_num hd =? 0 then
                 '(th, tl) ← ListEntry_RemoveEntry (topic_head g) tp (root_links g);
                 Ok (set_roots th (root_entries g) tl g)
               else Ok g);
          e ← conn_at p g;
          '(k, g) ← match c_commp e with
                    | Some c => k ← mros_comm_tcp_client_free c k; Ok (k, put_conn p (mkEntry (c_value e) (c_queue_maxsize e) (c_queue_head e) None) g)
                    | None => Ok (k, g)
                    end;
          '(ch, cl) ← ListEntry_Free (conn_head g) p (conn_links g);
          Ok (MROS_E_OK, k, set_conns ch (conn_entries g) cl g)
      end
  end.

Definition mros_topic_connector_add (c : mRosTopicConnectorType) (queue_length : Z) (n : mRosNodeManagerType) (k : client_table) (g : mRosTopicConnectorManagerType) : outcome (Z * client_table * mRosTopicConnectorManagerType) :=
  org ← mros_topic_connector_get_topic_head g (c_topic c);
  '(topic_p, g) ← match org with
                  | None => mros_topic_connector_create_topic_head g (c_topic c)
                  | Some p => Ok (Some p, g)
                  end;
  match topic_p with
  | None => '(_, k, g) ← mros_topic_connector_remove c n k g; Ok (MROS_E_NOMEM, k, g)
  | Some tp =>
      entry ← mros_topic_connector_get_node n g tp (c_node c);
      match entry with
      | Some _ => Ok (MROS_E_OK, k, g)
      | None =>
          '(p, ch, l) ← ListEntry_Alloc (conn_head g) (conn_links g);
          let g := set_conns ch (conn_entries g) l g in
          match p with
          | None => '(_, k, g) ← mros_topic_connector_remove c n k g; Ok (MROS_E_NOMEM, k, g)
          | Some p =>
              _ ← conn_at p g;
              let type := mros_node_type (c_node c) n in
              r ← root_at tp g; hd ← head_of type r;
              '(hd, l) ← ListEntry_AddEntry hd p (conn_links g);
              let g := set_conns (conn_head g) (<[p := mkEntry c queue_length List_InitEmpty None]> (conn_entries g)) l
                         (put_root tp (set_head_of type hd r) g) in
              Ok (MROS_E_OK, k, g)
          end
      end
  end.

(** ** Members *)

Definition mros_topic_connector_get (g : mRosTopicConnectorManagerType) (obj : nat) : outcome mRosTopicConnectorType :=
  e ← conn_at obj g; Ok (c_value e).
Definition mros_topic_connector_get_connection (g : mRosTopicConnectorManagerType) (obj : nat) : outcome (option nat) :=
  e ← conn_at obj g; Ok (c_commp e).
Definition mros_topic_connector_set_connection (g : mRosTopicConnectorManagerType) (obj : nat) (c : option nat) : outcome mRosTopicConnectorManagerType :=
  e ← conn_at obj g; Ok (put_conn obj (mkEntry (c_value e) (c_queue_maxsize e) (c_queue_head e) c) g).
Definition mros_topic_connector_get_topic (g : mRosTopicConnectorManagerType) (topic_obj : nat) : outcome Z :=
  r ← root_at topic_obj g; Ok (r_topic r).

(** ** Data of a connector *)

(** Drop the first entry of a full queue; a queue without entries only counts down. *)
Definition queue_drop (q : list_head) (m : mros_heap) : outcome (list_head * mros_heap) :=
  match ListEntry_GetFirst q with
  | None => Ok (mkHead (u32 (entry_num q - 1)) None (free q) (free_num q), m)
  | Some p => '(q, l) ← ListEntry_RemoveEntry q p (m_links m); Ok (q, mros_mem_free p (set_heap_links l m))
  end.
Definition set_conn_queue (q : list_head) (e : mRosTopicConnectorEntryType) : mRosTopicConnectorEntryType :=
  mkEntry (c_value e) (c_queue_maxsize e) q (c_commp e).

(** Room in the queue of an inner connector; then a new entry of [len] bytes at its head. *)
Definition mros_topic_connector_alloc_data (type : mRosTopicConnectorEnumType) (obj : nat) (len : Z) (s : mros) : outcome (Z * option nat * mros) :=
  e ← conn_at obj (mgr_of type s);
  if decide (mros_node_type (c_node (c_value e)) (nodes s) ≠ MROS_NODE_TYPE_INNER) then Ok (MROS_E_INVAL, None, s)
  else
    '(q, m) ← (if c_queue_maxsize e <=? entry_num (c_queue_head e) then queue_drop (c_queue_head e) (heap s)
               else Ok (c_queue_head e, heap s));
    let '(p, m) := mros_mem_alloc len m in
    '(q, m) ← queue_add q p m;
    Ok (MROS_E_OK, Some p, set_mros_heap m (set_mgr type (put_conn obj (set_conn_queue q e) (mgr_of type s)) s)).
(** The same, and the bytes. *)
Definition mros_topic_connector_put_data (type : mRosTopicConnectorEnumType) (obj : nat) (data : list Z) (s : mros) : outcome (Z * mros) :=
  '(ret, p, s) ← mros_topic_connector_alloc_data type obj (zlen data) s;
  match p with
  | None => Ok (ret, s)
  | Some p => Ok (ret, set_mros_heap (set_mem_entry p (mkMem (zlen data) (zlen data) data) (heap s)) s)
  end.

(** [mros_topic_callback]: the message begins after two lengths. *)
Definition mros_topic_callback (topic func : Z) (data : list Z) (s : mros) : mros :=
  note_event (Callback func topic (u32 (zlen data - 8)) (drop 8 data)) s.

(** The result, and the bytes of the data, into which the length is written. *)
Definition mros_topic_connector_send_data (type : mRosTopicConnectorEnumType) (obj : nat) (data : list Z) (s : mros) : outcome (Z * list Z * mros) :=
  e ← conn_at obj (mgr_of type s);
  if decide (mros_node_type (c_node (c_value e)) (nodes s) = MROS_NODE_TYPE_INNER) then
    _ ← mros_topic_get_typeid (c_topic (c_value e)) 0 (topics s);
    Ok (MROS_E_OK, data, mros_topic_callback (c_topic (c_value e)) (c_func (c_value e)) data s)
  else
    match c_commp e with
    | None => Ok (MROS_E_NOTCONN, data, s)
    | Some k =>
        r ← client_at k (clients s);
        '(ret, data, c, w) ← mros_protocol_topic_data_send (client r) data (world s);
        let '(g, c, w) :=
          if negb (ret =? MROS_E_OK) then let '(c, w) := mros_comm_tcp_client_close c w in (set_is_error true (mgr_of type s), c, w)
          else (mgr_of type s, c, w) in
        ks ← set_client k c (clients s);
        Ok (ret, data, set_net w (set_clients ks (set_mgr type g s)))
    end.

(** A connector of another node that is not connected gives [MROS_NULL] as its result, which is
    the value of [MROS_E_OK]. *)
Definition mros_topic_connector_receive_data (type : mRosTopicConnectorEnumType) (obj : nat) (s : mros) : outcome (Z * option nat * mros) :=
  e ← conn_at obj (mgr_of type s);
  if decide (mros_node_type (c_node (c_value e)) (nodes s) = MROS_NODE_TYPE_INNER) then
    if entry_num (c_queue_head e) =? 0 then Ok (MROS_E_NOENT, None, s)
    else
      '(p, q, m) ← queue_take (c_queue_head e) (heap s);
      Ok (MROS_E_OK, Some p, set_mros_heap m (set_mgr type (put_conn obj (set_conn_queue q e) (mgr_of type s)) s))
  else
    match c_commp e with
    | None => Ok (MROS_E_OK, None, s)
    | Some k =>
        r ← client_at k (clients s);
        '(ret, p, c, m, w) ← mros_protocol_topic_data_receive (client r) (heap s) (world s);
        let '(g, c, w) :=
          if negb (ret =? MROS_E_OK) && negb (ret =? MROS_E_NOENT) then
            let '(c, w) := mros_comm_tcp_client_close c w in (set_is_error true (mgr_of type s), c, w)
          else (mgr_of type s, c, w) in
        ks ← set_client k c (clients s);
        Ok (ret, p, set_net w (set_clients ks (set_mros_heap m (set_mgr type g s))))
    end.

(** ** Connectors whose connection is gone *)

Definition is_disconnected (ks : client_table) (e : mRosTopicConnectorEntryType) : outcome bool :=
  match c_commp e with
  | None => Ok false
  | Some k => r ← client_at k ks; Ok (negb (mros_comm_tcp_client_is_connected (client r)))
  end.
Definition mros_topic_connector_purge_one (type : mRosTopicConnectorEnumType) (topic_root : nat) (s : mros) : outcome (bool * mros) :=
  let g := mgr_of type s in
  r ← root_at topic_root g;
  gone ← ListEntry_Foreach (r_outer r) (λ p, e ← conn_at p g; is_disconnected (clients s) e) (conn_links g);
  match gone with
  | None => Ok (false, s)
  | Some p =>
      e ← conn_at p g;
      match c_commp e with
      | None => Ok (false, s)
      | Some k =>
          ks ← mros_comm_tcp_client_free k (clients s);
          '(_, n) ← mros_node_remove (c_node (c_value e)) (nodes s);
          '(hd, l) ← ListEntry_RemoveEntry (r_outer r) p (conn_links g);
          '(ch, l) ← ListEntry_Free (conn_head g) p l;
          let g := put_root topic_root (mkRoot (r_topic r) (r_inner r) hd) g in
          let g := set_conns ch (<[p := mkEntry (c_value e) (c_queue_maxsize e) (c_queue_head e) None]> (conn_entries g)) l g in
          Ok (true, set_mgr type g (set_node_mgr n (set_clients ks s)))
      end
  end.

Fixpoint purge_root (fuel : nat) (type : mRosTopicConnectorEnumType) (root : nat) (s : mros) : outcome mros :=
  match fuel with
  | O => Fault Hang
  | S fuel =>
      '(removed, s) ← mros_topic_connector_purge_one type root s;
      if (removed : bool) then purge_root fuel type root s else Ok s
  end.
Fixpoint purge_loop (fuel : nat) (type : mRosTopicConnectorEnumType) (first root : nat) (s : mros) : outcome mros :=
  match fuel with
  | O => Fault Hang
  | S fuel =>
      s ← purge_root (S (length (conn_entries (mgr_of type s)))) type root s;
      n ← next_of root (root_links (mgr_of type s));
      if bool_decide (n = first) then Ok s else purge_loop fuel type first n s
  end.
Definition mros_topic_connector_purge (type : mRosTopicConnectorEnumType) (s : mros) : outcome mros :=
  let g := mgr_of type s in
  if negb (is_error g) then Ok s
  else if entry_num (topic_head g) =? 0 then Ok s
  else
    match ListEntry_GetFirst (topic_head g) with
    | None => Fault NullDeref
    | Some first =>
        s ← purge_loop (length (root_entries g)) type first first s;
        Ok (set_mgr type (set_is_error false (mgr_of type s)) s)
    end.

(** ** Publishers: from the connectors to the topics *)

(** One connector: its data goes to the topic. *)
Definition publish_one (type : mRosTopicConnectorEnumType) (topic : Z) (obj : nat) (s : mros) : outcome mros :=
  '(ret, p, s) ← mros_topic_connector_receive_data type obj s;
  if negb (ret =? MROS_E_OK) then Ok s
  else match p with
  | None => Fault NullDeref
  | Some p =>
      '(ret, t, m) ← mros_topic_add_data topic p (topics s) (heap s);
      let m := if negb (ret =? MROS_E_OK) then mros_mem_free p m else m in
      Ok (set_mros_heap m (set_topics t s))
  end.
Fixpoint publish_loop (fuel : nat) (type : mRosTopicConnectorEnumType) (topic : Z) (topic_obj : nat) (obj : option nat) (s : mros) : outcome mros :=
  match obj with
  | None => Ok s
  | Some p =>
      match fuel with
      | O => Fault Hang
      | S fuel =>
          s ← publish_one type topic p s;
          next ← mros_topic_connector_get_next (nodes s) (mgr_of type s) topic_obj p;
          publish_loop fuel type topic topic_obj next s
      end
  end.
Definition mros_topic_publish (ntype : mRosNodeEnumType) (topic_obj : nat) (s : mros) : outcome mros :=
  let g := pub_mgr s in
  topic ← mros_topic_connector_get_topic g topic_obj;
  obj ← mros_topic_connector_get_first g ntype topic_obj;
  publish_loop (length (conn_entries g)) MROS_TOPIC_CONNECTOR_PUB topic topic_obj obj s.

(** The topics met, as far as the array goes, and what [f] does at each. *)
Fixpoint topic_loop (fuel : nat) (type : mRosTopicConnectorEnumType) (f : nat → mros → outcome mros) (obj : option nat) (met : list nat) (s : mros) : outcome (list nat * mros) :=
  match obj with
  | None => Ok (met, s)
  | Some p =>
      match fuel with
      | O => Fault Hang
      | S fuel =>
          let met := if zlen met <? MROS_TOPIC_MAX_NUM then met ++ [p] else met in
          s ← f p s;
          next ← mros_topic_connector_get_topic_next (mgr_of type s) p;
          topic_loop fuel type f next met s
      end
  end.
Fixpoint each_topic (f : nat → mros → outcome mros) (l : list nat) (s : mros) : outcome mros :=
  match l with [] => Ok s | p :: l => s ← f p s; each_topic f l s end.

Definition mros_topic_data_publisher_run (s : mros) : outcome mros :=
  match mros_topic_connector_factory_get MROS_TOPIC_CONNECTOR_PUB s with
  | None => Ok s
  | Some g =>
      '(met, s) ← topic_loop (length (root_entries g)) MROS_TOPIC_CONNECTOR_PUB (mros_topic_publish MROS_NODE_TYPE_INNER)
                    (mros_topic_connector_get_topic_first g) [] s;
      s ← each_topic (mros_topic_publish MROS_NODE_TYPE_OUTER) met s;
      mros_topic_connector_purge MROS_TOPIC_CONNECTOR_PUB s
  end.

(** ** Subscribers: from the topics to the connectors *)

Fixpoint subscribe_loop (fuel : nat) (topic_obj : nat) (obj : option nat) (data : nat) (s : mros) : outcome mros :=
  match obj with
  | None => Ok s
  | Some p =>
      match fuel with
      | O => Fault Hang
      | S fuel =>
          e ← mem_at data (heap s);
          bytes ← oob (bytes_at (memp e) 0 (mem_size e));
          '(_, bytes, s) ← mros_topic_connector_send_data MROS_TOPIC_CONNECTOR_SUB p bytes s;
          let s := set_mros_heap (set_mem_entry data (mkMem (memsize e) (mem_size e) (bytes_put (memp e) 0 bytes)) (heap s)) s in
          next ← mros_topic_connector_get_next (nodes s) (sub_mgr s) topic_obj p;
          subscribe_loop fuel topic_obj next data s
      end
  end.
Definition mros_topic_subscribe (ntype : mRosNodeEnumType) (topic_obj data : nat) (s : mros) : outcome mros :=
  let g := sub_mgr s in
  obj ← mros_topic_connector_get_first g ntype topic_obj;
  subscribe_loop (length (conn_entries g)) topic_obj obj data s.

Definition subscribe_topic (topic_obj : nat) (s : mros) : outcome mros :=
  topic ← mros_topic_connector_get_topic (sub_mgr s) topic_obj;
  '(ret, p, t, m) ← mros_topic_get_data topic (topics s) (heap s);
  let s := set_mros_heap m (set_topics t s) in
  match p with
  | Some p =>
      s ← mros_topic_subscribe MROS_NODE_TYPE_INNER topic_obj p s;
      s ← mros_topic_subscribe MROS_NODE_TYPE_OUTER topic_obj p s;
      Ok (set_mros_heap (mros_mem_free p (heap s)) s)
  | None => Ok s
  end.
Definition mros_topic_data_subscriber_run (s : mros) : outcome mros :=
  match mros_topic_connector_factory_get MROS_TOPIC_CONNECTOR_SUB s with
  | None => Ok s
  | Some g =>
      '(met, s) ← topic_loop (length (root_entries g)) MROS_TOPIC_CONNECTOR_SUB (λ _ s, Ok s)
                    (mros_topic_connector_get_topic_first g) [] s;
      s ← each_topic subscribe_topic met s;
      mros_topic_connector_purge MROS_TOPIC_CONNECTOR_SUB s
  end.

(** ** The interface to the device ([ros_cimpl.c])

    Up to the request to the master, for which the caller sleeps.  [task] is its task.  The
    result is the connector, or NULL. *)

Definition ros_init (name : list Z) (task : Z) (s : mros) : outcome mros :=
  '(_, _, n) ← mros_node_create_inner name task 0 (nodes s); Ok (set_node_mgr n s).

(** "std_msgs/String", and the address of the digest. *)
Definition STD_MSGS_STRING : list Z := [115; 116; 100; 95; 109; 115; 103; 115; 47; 83; 116; 114; 105; 110; 103].
Definition ros_register (type : mRosTopicConnectorEnumType) (topic : list Z) (queue_size func task digest : Z) (s : mros) : outcome (option (nat * Z) * mros) :=
  '(ret, node) ← mros_node_get_bytid task (nodes s);
  if negb (ret =? MROS_E_OK) then Ok (None, s)
  else
    '(ret, id, t) ← mros_topic_create topic STD_MSGS_STRING 0 (topics s);
    let s := set_topics t s in
    if negb (ret =? MROS_E_OK) then Ok (None, s)
    else
      '(_, t) ← mros_topic_set_typeid id 0 (topics s);
      '(_, t) ← mros_topic_set_definition id 0 t;
      _ ← mros_topic_get_typeid id 0 t;
      '(_, t) ← mros_topic_set_md5sum id digest t;
      let s := set_topics t s in
      match mros_topic_connector_factory_get type s with
      | None => Ok (None, s)
      | Some g =>
          let c := mkConnector id node func in
          '(ret, ks, g) ← mros_topic_connector_add c (u32 queue_size) (nodes s) (clients s) g;
          let s := set_clients ks (set_mgr type g s) in
          if negb (ret =? MROS_E_OK) then Ok (None, s)
          else
            obj ← mros_topic_connector_get_obj (nodes s) g c;
            match obj with
            | None => Ok (None, s)
            | Some obj => Ok (Some (obj, id), note_event (Request type obj) s)
            end
      end.
Definition ros_topic_subscribe (topic : list Z) (queue_size fp task digest : Z) (s : mros) : outcome (option (nat * Z) * mros) :=
  ros_register MROS_TOPIC_CONNECTOR_SUB topic queue_size fp task digest s.
Definition ros_topic_advertise (topic : list Z) (queue_size task digest : Z) (s : mros) : outcome (option (nat * Z) * mros) :=
  ros_register MROS_TOPIC_CONNECTOR_PUB topic queue_size MROS_ID_NONE task digest s.

(** When no entry is given, the pointer that is written through was never set. *)
Definition ros_topic_publish (pub : nat) (data : list Z) (s : mros) : outcome mros :=
  let size := mros_protocol_get_buffersize (u32 (zlen data + 4)) in
  '(_, p, s) ← mros_topic_connector_alloc_data MROS_TOPIC_CONNECTOR_PUB pub size s;
  match p with
  | None => Fault NullDeref
  | Some p =>
      e ← mem_at p (heap s);
      memory ← memcpy_at (memp e) 4 (le_bytes 4 (zlen data));
      memory ← memcpy_at memory 8 data;
      Ok (set_mros_heap (set_mem_entry p (mkMem (memsize e) (mem_size e) memory) (heap s)) s)
  end.
End connector.
Arguments mros : clear implicits.
