(* ===== verification/MrosConnectorFacts.v ===== *)
(** * Connectors: facts

    The two functions that move topic data follow the rings: they treat each connector of each
    topic once, in the order of the rings ([publisher_visits_every_connector] for the first,
    [subscriber_run_ok] for the second).  What a publisher of a quiet system publishes is given
    to every subscriber of the topic on this node, and nothing is left behind
    ([published_is_delivered]). *)

From S2P Require Import Prelude MrosList MrosTopic MrosTopicFacts MrosComm MrosConnector.
From stdpp Require Import gmap.
Open Scope Z_scope.

(** ** Rings, walked *)

Lemma list_ring_next l1 c l2 h : ring (l1 ++ c :: l2) h →
  next_of c h = Ok (default (default c (head l1)) (head l2)).
Proof.
  intros Hr. apply ring_rotate in Hr as Hr'. cbn [app] in Hr'. destruct Hr' as [_ Hc]. unfold next_of.
  destruct l2 as [|d l2]; cbn in Hc.
  - destruct l1 as [|f l1]; cbn in Hc; [by destruct Hc as [-> _]|]. destruct Hc as [[-> _] _]. done.
  - destruct Hc as [[-> _] _]. done.
Qed.
(** The step of a walk: on to the next entry, and out when it is the first again. *)
Lemma walk_next l1 c l2 h f : ring (l1 ++ c :: l2) h → head (l1 ++ c :: l2) = Some f →
  (n ← next_of c h; Ok (if bool_decide (n = f) then None else Some n)) = Ok (head l2).
Proof.
  intros Hr Hf. rewrite (list_ring_next _ _ _ _ Hr). cbn [mbind outcome_bind]. f_equal.
  apply ring_NoDup in Hr. destruct l2 as [|d l2]; cbn [head default from_option id].
  - destruct l1 as [|x l1]; cbn in *; injection Hf as <-; by rewrite bool_decide_true.
  - rewrite bool_decide_false; [done|]. intros ->. destruct l1 as [|x l1]; cbn in *; injection Hf as <-;
      apply NoDup_cons in Hr as [Hn _]; apply Hn; set_solver.
Qed.

Lemma NoDup_bounded (l : list nat) n : NoDup l → (∀ x, x ∈ l → (x < n)%nat) → (length l ≤ n)%nat.
Proof.
  intros Hn Hb. rewrite <- (length_seq n 0). apply submseteq_length. apply NoDup_submseteq; [done|].
  intros x Hx. apply elem_of_seq. specialize (Hb x Hx). lia.
Qed.

(** ** The layout of a manager *)

Record topic_layout := mkLayout { l_root : nat; l_topic : Z; l_inner : list nat; l_outer : list nat }.
Definition conns_of (ntype : mRosNodeEnumType) (x : topic_layout) : list nat :=
  match ntype with MROS_NODE_TYPE_INNER => l_inner x | MROS_NODE_TYPE_OUTER => l_outer x | MROS_NODE_TYPE_NUM => [] end.

Definition values (g : mRosTopicConnectorManagerType) : list mRosTopicConnectorType := map c_value (conn_entries g).
Record laid_out (n : mRosNodeManagerType) (g : mRosTopicConnectorManagerType) (L : list topic_layout) : Prop := {
  lo_roots : ∃ fr, represents (topic_head g) (map l_root L) fr (root_links g);
  lo_root : ∀ x, x ∈ L → ∃ hi ho, root_entries g !! l_root x = Some (mkRoot (l_topic x) hi ho) ∧
    represents hi (l_inner x) [] (conn_links g) ∧ represents ho (l_outer x) [] (conn_links g);
  lo_conn : ∀ x ntype c, x ∈ L → c ∈ conns_of ntype x → ∃ v, values g !! c = Some v ∧ mros_node_type (c_node v) n = ntype ∧ c_topic v = l_topic x }.

(** What the movement of data leaves alone. *)
Record same_shape (g g' : mRosTopicConnectorManagerType) : Prop := {
  ss_init : is_initialized g' = is_initialized g;
  ss_values : values g' = values g;
  ss_conn_links : conn_links g' = conn_links g;
  ss_topic_head : topic_head g' = topic_head g;
  ss_roots : root_entries g' = root_entries g;
  ss_root_links : root_links g' = root_links g }.
#[export] Instance same_shape_preorder : PreOrder same_shape.
Proof. split; [by split|]. intros a b c [] []. split; congruence. Qed.

Lemma laid_out_shape n g g' L : same_shape g g' → laid_out n g L → laid_out n g' L.
Proof. intros [H1 H2 H3 H4 H5 H6] [R1 R2 R3]. split; rewrite ?H2, ?H3, ?H4, ?H5, ?H6; done. Qed.

Lemma head_of_layout n g L x ntype : laid_out n g L → x ∈ L → ntype ≠ MROS_NODE_TYPE_NUM →
  ∃ r hd, root_at (l_root x) g = Ok r ∧ head_of ntype r = Ok hd ∧ represents hd (conns_of ntype x) [] (conn_links g).
Proof.
  intros HL Hx Hn. destruct (lo_root _ _ _ HL x Hx) as (hi & ho & E & Hi & Ho). unfold root_at. rewrite E. cbn [oob].
  destruct ntype; [| |done]; eexists _, _; split_and!; done.
Qed.

Lemma get_first_ok n g L x ntype : laid_out n g L → x ∈ L → ntype ≠ MROS_NODE_TYPE_NUM →
  mros_topic_connector_get_first g ntype (l_root x) = Ok (head (conns_of ntype x)).
Proof.
  intros HL Hx Hn. destruct (head_of_layout _ _ _ _ _ HL Hx Hn) as (r & hd & E1 & E2 & Hr).
  unfold mros_topic_connector_get_first. rewrite E1. cbn [mbind outcome_bind]. rewrite E2. cbn [mbind outcome_bind].
  destruct Hr as (_ & _ & _ & Ee & _ & En & _). rewrite En. unfold ListEntry_GetFirst. rewrite Ee.
  destruct (conns_of ntype x); [done|]. unfold zlen. simpl length. destruct (Z.eqb_spec (Z.of_nat (S (length l))) 0); [lia|done].
Qed.

Lemma get_next_ok n g L x ntype l1 c l2 : laid_out n g L → x ∈ L → ntype ≠ MROS_NODE_TYPE_NUM → conns_of ntype x = l1 ++ c :: l2 →
  mros_topic_connector_get_next n g (l_root x) c = Ok (head l2).
Proof.
  intros HL Hx Hn Hc. destruct (lo_conn _ _ _ HL x ntype c Hx) as (v & Hv & Ht & _); [rewrite Hc; set_solver|].
  unfold values in Hv. rewrite list_lookup_fmap in Hv. destruct (conn_entries g !! c) as [e|] eqn:Ee; [|done]. injection Hv as Hv.
  destruct (head_of_layout _ _ _ _ _ HL Hx Hn) as (r & hd & E1 & E2 & Hr).
  unfold mros_topic_connector_get_next, conn_at. rewrite Ee. cbn [oob mbind outcome_bind]. rewrite E1. cbn [mbind outcome_bind].
  rewrite Hv, Ht, E2. cbn [mbind outcome_bind]. destruct Hr as (Hring & _ & _ & Ef & _). unfold ListEntry_GetFirst. rewrite Ef, Hc in *.
  destruct (head (l1 ++ c :: l2)) as [f|] eqn:Hf; [by apply walk_next with l1|]. by destruct l1.
Qed.

Lemma topic_first_ok n g L : laid_out n g L → mros_topic_connector_get_topic_first g = head (map l_root L).
Proof.
  intros HL. destruct (lo_roots _ _ _ HL) as (fr & _ & _ & _ & Ee & _ & En & _). unfold mros_topic_connector_get_topic_first, ListEntry_GetFirst.
  rewrite En, Ee. destruct L; [done|]. unfold zlen. simpl length. by destruct (Z.eqb_spec (Z.of_nat (S (length (map l_root L)))) 0); [lia|].
Qed.
Lemma topic_next_ok n g L l1 x l2 : laid_out n g L → L = l1 ++ x :: l2 →
  mros_topic_connector_get_topic_next g (l_root x) = Ok (head (map l_root l2)).
Proof.
  intros HL ->. destruct (lo_roots _ _ _ HL) as (fr & Hr & _ & _ & Ee & _). rewrite map_app in *. cbn [map] in *.
  unfold mros_topic_connector_get_topic_next, ListEntry_GetFirst. rewrite Ee.
  destruct (head (map l_root l1 ++ l_root x :: map l_root l2)) as [f|] eqn:Hf; [by apply walk_next with (map l_root l1)|]. by destruct l1.
Qed.

Lemma conns_fit n g L x ntype : laid_out n g L → x ∈ L → ntype ≠ MROS_NODE_TYPE_NUM → (length (conns_of ntype x) ≤ length (conn_entries g))%nat.
Proof.
  intros HL Hx Hn. destruct (head_of_layout _ _ _ _ _ HL Hx Hn) as (r & hd & _ & _ & Hr & _).
  apply NoDup_bounded; [by eapply ring_NoDup|]. intros c Hc. destruct (lo_conn _ _ _ HL x ntype c Hx Hc) as (v & Hv & _).
  apply lookup_lt_Some in Hv. unfold values in Hv. by rewrite length_fmap in Hv.
Qed.
Lemma roots_fit n g L : laid_out n g L → (length L ≤ length (root_entries g))%nat.
Proof.
  intros HL. destruct (lo_roots _ _ _ HL) as (fr & Hr & _). rewrite <- (length_map l_root).
  apply NoDup_bounded; [by eapply ring_NoDup|]. intros p Hp. apply list_elem_of_fmap in Hp as (x & -> & Hx).
  destruct (lo_root _ _ _ HL x Hx) as (hi & ho & E & _). by eapply lookup_lt_Some.
Qed.

(** ** The movement of data keeps the layout *)

Section moves.
Context {W : Type} {ops : SockOps W}.
Implicit Types s : mros W.

Record keeps s s' : Prop := {
  k_nodes : nodes s' = nodes s;
  k_pub : same_shape (pub_mgr s) (pub_mgr s');
  k_sub : same_shape (sub_mgr s) (sub_mgr s') }.
#[local] Instance keeps_preorder : PreOrder keeps.
Proof.
  split; [by split|]. intros a b c [H1 H2 H3] [K1 K2 K3]. split; [congruence|by etrans|by etrans].
Qed.
Lemma keeps_same s s' : nodes s' = nodes s → pub_mgr s' = pub_mgr s → sub_mgr s' = sub_mgr s → keeps s s'.
Proof. intros H1 H2 H3. split; [done|by rewrite H2|by rewrite H3]. Qed.

Lemma put_conn_shape g obj e e' : conn_entries g !! obj = Some e → c_value e' = c_value e → same_shape g (put_conn obj e' g).
Proof.
  intros He Hv. split; try done. unfold values. cbn. rewrite list_fmap_insert. apply list_insert_id.
  rewrite list_lookup_fmap, He. cbn. congruence.
Qed.
Lemma set_mgr_keeps type g s : same_shape (mgr_of type s) g → keeps s (set_mgr type g s).
Proof. destruct type; intros H; split; done. Qed.
Lemma set_is_error_shape b g : same_shape g (set_is_error b g).
Proof. by split. Qed.

Lemma receive_keeps type obj s r p s' : mros_topic_connector_receive_data type obj s = Ok (r, p, s') → keeps s s' ∧ topics s' = topics s.
Proof.
  unfold mros_topic_connector_receive_data, conn_at. destruct (conn_entries (mgr_of type s) !! obj) as [e|] eqn:Ee; [cbn [oob mbind outcome_bind]|done].
  destruct (decide _).
  - destruct (_ =? 0); [intros [= <- <- <-]; by split|].
    destruct (queue_take _ _) as [[[p0 q] m]|]; [cbn [mbind outcome_bind]|done]. intros [= <- <- <-].
    split; [|by destruct type]. transitivity (set_mgr type (put_conn obj (set_conn_queue q e) (mgr_of type s)) s); [apply (set_mgr_keeps type); eapply put_conn_shape; [exact Ee|done]|by apply keeps_same].
  - destruct (c_commp e) as [k|]; [|intros [= <- <- <-]; by split].
    destruct (client_at k _) as [rq|]; [cbn [mbind outcome_bind]|done].
    destruct (mros_protocol_topic_data_receive _ _ _) as [[[[[ret po] c] m] w]|]; [cbn [mbind outcome_bind]|done].
    destruct (negb _ && negb _).
    + destruct (mros_comm_tcp_client_close c w) as [c' w']. destruct (set_client _ _ _) as [ks|]; [cbn [mbind outcome_bind]|done].
      intros [= <- <- <-]. split; [|by destruct type]. etrans; [apply (set_mgr_keeps type), (set_is_error_shape true)|by apply keeps_same].
    + destruct (set_client _ _ _) as [ks|]; [cbn [mbind outcome_bind]|done].
      intros [= <- <- <-]. split; [|by destruct type]. etrans; [apply (set_mgr_keeps type); reflexivity|by apply keeps_same].
Qed.

Lemma publish_one_keeps type topic obj s s' : publish_one type topic obj s = Ok s' → keeps s s'.
Proof.
  unfold publish_one. destruct (mros_topic_connector_receive_data _ _ _) as [[[r p] s1]|] eqn:E; [cbn [mbind outcome_bind]|done].
  apply receive_keeps in E as [K _]. destruct (negb _); [by intros [= <-]|]. destruct p as [p|]; [|done].
  destruct (mros_topic_add_data _ _ _ _) as [[[ret t] m]|]; [cbn [mbind outcome_bind]|done]. intros [= <-]. etrans; [done|by apply keeps_same].
Qed.

Lemma send_keeps type obj data s r b s' : mros_topic_connector_send_data type obj data s = Ok (r, b, s') → keeps s s' ∧ topics s' = topics s ∧ heap s' = heap s.
Proof.
  unfold mros_topic_connector_send_data, conn_at. destruct (conn_entries (mgr_of type s) !! obj) as [e|] eqn:Ee; [cbn [oob mbind outcome_bind]|done].
  destruct (decide _).
  - destruct (mros_topic_get_typeid _ _ _); [cbn [mbind outcome_bind]|done]. intros [= <- <- <-]. split; [by apply keeps_same|done].
  - destruct (c_commp e) as [k|]; [|intros [= <- <- <-]; by split].
    destruct (client_at k _) as [rq|]; [cbn [mbind outcome_bind]|done].
    destruct (mros_protocol_topic_data_send _ _ _) as [[[[ret d] c] w]|]; [cbn [mbind outcome_bind]|done].
    destruct (negb _).
    + destruct (mros_comm_tcp_client_close c w) as [c' w']. destruct (set_client _ _ _) as [ks|]; [cbn [mbind outcome_bind]|done].
      intros [= <- <- <-]. split; [|by destruct type]. etrans; [apply (set_mgr_keeps type), (set_is_error_shape true)|by apply keeps_same].
    + destruct (set_client _ _ _) as [ks|]; [cbn [mbind outcome_bind]|done].
      intros [= <- <- <-]. split; [|by destruct type]. etrans; [apply (set_mgr_keeps type); reflexivity|by apply keeps_same].
Qed.

(** The body of the loop of a subscription. *)
Definition send_one (data obj : nat) s : outcome (mros W) :=
  e ← mem_at data (heap s);
  bytes ← oob (bytes_at (memp e) 0 (mem_size e));
  '(_, bytes, s) ← mros_topic_connector_send_data MROS_TOPIC_CONNECTOR_SUB obj bytes s;
  Ok (set_mros_heap (set_mem_entry data (mkMem (memsize e) (mem_size e) (bytes_put (memp e) 0 bytes)) (heap s)) s).
Lemma send_one_keeps data obj s s' : send_one data obj s = Ok s' → keeps s s'.
Proof.
  unfold send_one. destruct (mem_at _ _) as [e|]; [cbn [mbind outcome_bind]|done]. destruct (oob _) as [b|]; [cbn [mbind outcome_bind]|done].
  destruct (mros_topic_connector_send_data _ _ _ _) as [[[r b'] s1]|] eqn:E; [cbn [mbind outcome_bind]|done].
  apply send_keeps in E as [K _]. intros [= <-]. etrans; [done|by apply keeps_same].
Qed.

(** ** The loops follow the rings *)

Lemma laid_out_keeps type L s s' : keeps s s' → laid_out (nodes s) (mgr_of type s) L → laid_out (nodes s') (mgr_of type s') L.
Proof. intros [-> K1 K2] H. destruct type; by eapply laid_out_shape. Qed.

Lemma publish_loop_each type topic L x ntype : ∀ l2 l1 fuel s, laid_out (nodes s) (mgr_of type s) L → x ∈ L → ntype ≠ MROS_NODE_TYPE_NUM →
  conns_of ntype x = l1 ++ l2 → (length l2 ≤ fuel)%nat →
  publish_loop fuel type topic (l_root x) (head l2) s = each_topic (publish_one type topic) l2 s.
Proof.
  induction l2 as [|c l2 IH]; intros l1 fuel s HL Hx Hn Hc Hf; [by destruct fuel|].
  destruct fuel as [|fuel]; [simpl in Hf; lia|]. cbn [head publish_loop each_topic].
  destruct (publish_one type topic c s) as [s'|] eqn:E; [cbn [mbind outcome_bind]|done].
  assert (HL' : laid_out (nodes s') (mgr_of type s') L) by (eapply laid_out_keeps; [by eapply publish_one_keeps|done]).
  rewrite (get_next_ok _ _ _ _ _ _ _ _ HL' Hx Hn Hc). cbn [mbind outcome_bind].
  apply (IH (l1 ++ [c])); [done..|by rewrite <- app_assoc|simpl in Hf; lia].
Qed.
Lemma subscribe_loop_each L x ntype data : ∀ l2 l1 fuel s, laid_out (nodes s) (sub_mgr s) L → x ∈ L → ntype ≠ MROS_NODE_TYPE_NUM →
  conns_of ntype x = l1 ++ l2 → (length l2 ≤ fuel)%nat →
  subscribe_loop fuel (l_root x) (head l2) data s = each_topic (send_one data) l2 s.
Proof.
  induction l2 as [|c l2 IH]; intros l1 fuel s HL Hx Hn Hc Hf; [by destruct fuel|].
  destruct fuel as [|fuel]; [simpl in Hf; lia|]. cbn [head subscribe_loop each_topic].
  destruct (send_one data c s) as [s'|] eqn:E.
  - assert (HL' : laid_out (nodes s') (mgr_of MROS_TOPIC_CONNECTOR_SUB s') L) by (eapply laid_out_keeps; [by eapply send_one_keeps|done]).
    revert E. unfold send_one. destruct (mem_at _ _) as [e|]; [cbn [mbind outcome_bind]|done]. destruct (oob _) as [b|]; [cbn [mbind outcome_bind]|done].
    destruct (mros_topic_connector_send_data _ _ _ _) as [[[r b'] s1]|]; [cbn [mbind outcome_bind]|done]. intros [= E]. rewrite E.
    cbn [mgr_of] in HL'. rewrite (get_next_ok _ _ _ _ _ _ _ _ HL' Hx Hn Hc). cbn [mbind outcome_bind].
    apply (IH (l1 ++ [c])); [done..|by rewrite <- app_assoc|simpl in Hf; lia].
  - revert E. unfold send_one. destruct (mem_at _ _) as [e|]; [cbn [mbind outcome_bind]|by intros [= ->]]. destruct (oob _) as [b|]; [cbn [mbind outcome_bind]|by intros [= ->]].
    destruct (mros_topic_connector_send_data _ _ _ _) as [[[r b'] s1]|]; [done|by intros [= ->]].
Qed.

Lemma mros_topic_publish_each L x ntype s : laid_out (nodes s) (pub_mgr s) L → x ∈ L → ntype ≠ MROS_NODE_TYPE_NUM →
  mros_topic_publish ntype (l_root x) s = each_topic (publish_one MROS_TOPIC_CONNECTOR_PUB (l_topic x)) (conns_of ntype x) s.
Proof.
  intros HL Hx Hn. unfold mros_topic_publish, mros_topic_connector_get_topic.
  destruct (lo_root _ _ _ HL x Hx) as (hi & ho & E & _). unfold root_at. rewrite E. cbn [oob mbind outcome_bind r_topic].
  rewrite (get_first_ok _ _ _ _ _ HL Hx Hn). cbn [mbind outcome_bind].
  apply (publish_loop_each _ _ L x ntype _ []); [done..|by eapply conns_fit].
Qed.
Lemma mros_topic_subscribe_each L x ntype data s : laid_out (nodes s) (sub_mgr s) L → x ∈ L → ntype ≠ MROS_NODE_TYPE_NUM →
  mros_topic_subscribe ntype (l_root x) data s = each_topic (send_one data) (conns_of ntype x) s.
Proof.
  intros HL Hx Hn. unfold mros_topic_subscribe. rewrite (get_first_ok _ _ _ _ _ HL Hx Hn). cbn [mbind outcome_bind].
  apply (subscribe_loop_each L x ntype _ _ []); [done..|by eapply conns_fit].
Qed.

Lemma each_keeps f l s s' : (∀ p a b, f p a = Ok b → keeps a b) → each_topic f l s = Ok s' → keeps s s'.
Proof.
  intros Hf. revert s. induction l as [|p l IH]; intros s; cbn; [by intros [= <-]|].
  destruct (f p s) as [s1|] eqn:E; [cbn [mbind outcome_bind]|done]. intros H. etrans; [by eapply Hf|by apply IH].
Qed.

Lemma topic_loop_each type f L : (∀ x a b, x ∈ L → laid_out (nodes a) (mgr_of type a) L → f (l_root x) a = Ok b → keeps a b) →
  ∀ l2 l1 fuel met s, laid_out (nodes s) (mgr_of type s) L → L = l1 ++ l2 → (length l2 ≤ fuel)%nat →
  zlen met + zlen l2 ≤ MROS_TOPIC_MAX_NUM →
  topic_loop fuel type f (head (map l_root l2)) met s = s' ← each_topic f (map l_root l2) s; Ok (met ++ map l_root l2, s').
Proof.
  intros Hk. induction l2 as [|x l2 IH]; intros l1 fuel met s HL HE Hf Hm.
  { destruct fuel; cbn; by rewrite app_nil_r. }
  destruct fuel as [|fuel]; [simpl in Hf; lia|]. cbn [map head topic_loop each_topic].
  assert (Hz : zlen met + 1 + zlen l2 ≤ MROS_TOPIC_MAX_NUM) by (unfold zlen in *; simpl in Hm; lia).
  pose proof (zlen_nonneg l2). replace (zlen met <? MROS_TOPIC_MAX_NUM) with true by lia.
  destruct (f (l_root x) s) as [s'|] eqn:E; [cbn [mbind outcome_bind]|done].
  assert (HL' : laid_out (nodes s') (mgr_of type s') L) by (eapply laid_out_keeps; [eapply Hk; [|exact HL|exact E]; rewrite HE; set_solver|done]).
  rewrite (topic_next_ok _ _ _ _ _ _ HL' HE). cbn [mbind outcome_bind].
  rewrite (IH (l1 ++ [x])); [by rewrite <- app_assoc|done|by rewrite <- app_assoc|simpl in Hf; lia|].
  rewrite zlen_app. unfold zlen in *. simpl. lia.
Qed.

(** Each connector of a node type, topic by topic. *)
Fixpoint publish_all (ntype : mRosNodeEnumType) (L : list topic_layout) s : outcome (mros W) :=
  match L with
  | [] => Ok s
  | x :: L => s ← each_topic (publish_one MROS_TOPIC_CONNECTOR_PUB (l_topic x)) (conns_of ntype x) s; publish_all ntype L s
  end.

Lemma mros_topic_publish_keeps L x ntype s s' : laid_out (nodes s) (pub_mgr s) L → x ∈ L → ntype ≠ MROS_NODE_TYPE_NUM →
  mros_topic_publish ntype (l_root x) s = Ok s' → keeps s s'.
Proof.
  intros HL Hx Hn. rewrite (mros_topic_publish_each _ _ _ _ HL Hx Hn). apply each_keeps. intros p a b. apply publish_one_keeps.
Qed.
Lemma publish_each_all L ntype : ntype ≠ MROS_NODE_TYPE_NUM → ∀ L1 s, laid_out (nodes s) (pub_mgr s) L → (∀ x, x ∈ L1 → x ∈ L) →
  each_topic (mros_topic_publish ntype) (map l_root L1) s = publish_all ntype L1 s ∧ ∀ s', publish_all ntype L1 s = Ok s' → keeps s s'.
Proof.
  intros Hn. induction L1 as [|x L1 IH]; intros s HL Hs; [split; [done|by intros s' [= <-]]|]. cbn [map each_topic publish_all].
  assert (Hx : x ∈ L) by (apply Hs; left). rewrite (mros_topic_publish_each _ _ _ _ HL Hx Hn).
  destruct (each_topic (publish_one _ _) _ s) as [s1|] eqn:E; [cbn [mbind outcome_bind]|by split].
  assert (K : keeps s s1) by (eapply each_keeps; [|done]; intros p a b; apply publish_one_keeps).
  destruct (IH s1) as [-> H2]; [by apply (laid_out_keeps MROS_TOPIC_CONNECTOR_PUB L s)|intros; apply Hs; by right|].
  split; [done|]. intros s' H. etrans; [done|by apply H2].
Qed.

(** The publisher's run visits every connector of the manager exactly once: topic by topic
    those of this node, then those of other nodes, in the order of the rings; each moves one
    datum to its topic.  Then broken connections are purged. *)
Theorem publisher_visits_every_connector L s : is_initialized (pub_mgr s) = true → laid_out (nodes s) (pub_mgr s) L →
  zlen L ≤ MROS_TOPIC_MAX_NUM →
  mros_topic_data_publisher_run s =
    s1 ← publish_all MROS_NODE_TYPE_INNER L s; s2 ← publish_all MROS_NODE_TYPE_OUTER L s1;
    mros_topic_connector_purge MROS_TOPIC_CONNECTOR_PUB s2.
Proof.
  intros Hi HL Hb. unfold mros_topic_data_publisher_run, mros_topic_connector_factory_get. cbn [mgr_of]. rewrite Hi.
  rewrite (topic_first_ok _ _ _ HL), (topic_loop_each _ _ L) with (l1 := []); [|..|exact HL|done|by eapply roots_fit|done].
  2: { intros x a b Hx Ha. by apply (mros_topic_publish_keeps L). }
  destruct (publish_each_all L MROS_NODE_TYPE_INNER ltac:(done) L s HL ltac:(done)) as [-> K].
  destruct (publish_all MROS_NODE_TYPE_INNER L s) as [s1|] eqn:E; [cbn [mbind outcome_bind app]|done].
  assert (HL' : laid_out (nodes s1) (pub_mgr s1) L) by (apply (laid_out_keeps MROS_TOPIC_CONNECTOR_PUB L s); [by apply K|done]).
  by rewrite (proj1 (publish_each_all L MROS_NODE_TYPE_OUTER ltac:(done) L s1 HL' ltac:(done))).
Qed.

(** One topic of the subscriber's run, along its rings. *)
Definition deliver (x : topic_layout) s : outcome (mros W) :=
  '(ret, p, t, m) ← mros_topic_get_data (l_topic x) (topics s) (heap s);
  let s := set_mros_heap m (set_topics t s) in
  match p with
  | Some p => s ← each_topic (send_one p) (l_inner x ++ l_outer x) s; Ok (set_mros_heap (mros_mem_free p (heap s)) s)
  | None => Ok s
  end.
Fixpoint deliver_all (L : list topic_layout) s : outcome (mros W) :=
  match L with [] => Ok s | x :: L => s ← deliver x s; deliver_all L s end.

Lemma each_topic_app (f : nat → mros W → outcome (mros W)) l1 l2 s : each_topic f (l1 ++ l2) s = s ← each_topic f l1 s; each_topic f l2 s.
Proof. revert s. induction l1 as [|p l1 IH]; intros s; cbn; [done|]. destruct (f p s); cbn; [apply IH|done]. Qed.

Lemma subscribe_topic_ok L x s : laid_out (nodes s) (sub_mgr s) L → x ∈ L →
  subscribe_topic (l_root x) s = deliver x s ∧ ∀ s', deliver x s = Ok s' → keeps s s'.
Proof.
  intros HL Hx. unfold subscribe_topic, deliver, mros_topic_connector_get_topic.
  destruct (lo_root _ _ _ HL x Hx) as (hi & ho & E & _). unfold root_at. rewrite E. cbn [oob mbind outcome_bind r_topic].
  destruct (mros_topic_get_data _ _ _) as [[[[ret p] t] m]|]; [cbn [mbind outcome_bind]|by split].
  destruct p as [p|]; [|split; [done|]; intros s' [= <-]; by apply keeps_same].
  set (s0 := set_mros_heap m (set_topics t s)). assert (K0 : keeps s s0) by by apply keeps_same.
  assert (HL0 : laid_out (nodes s0) (sub_mgr s0) L) by done.
  rewrite (mros_topic_subscribe_each L x MROS_NODE_TYPE_INNER p s0 HL0 Hx) by done. rewrite each_topic_app. cbn [conns_of].
  destruct (each_topic (send_one p) (l_inner x) s0) as [s1|] eqn:E1; [cbn [mbind outcome_bind]|by split].
  assert (K1 : keeps s s1) by (etrans; [exact K0|]; eapply each_keeps; [|exact E1]; intros q a b; apply send_one_keeps).
  assert (HL1 : laid_out (nodes s1) (sub_mgr s1) L) by by apply (laid_out_keeps MROS_TOPIC_CONNECTOR_SUB L s).
  rewrite (mros_topic_subscribe_each L x MROS_NODE_TYPE_OUTER p s1 HL1 Hx) by done. cbn [conns_of]. split; [done|].
  intros s'. destruct (each_topic (send_one p) (l_outer x) s1) as [s2|] eqn:E2; [cbn [mbind outcome_bind]|done]. intros [= <-].
  etrans; [exact K1|]. etrans; [eapply each_keeps; [|exact E2]; intros q a b; apply send_one_keeps|by apply keeps_same].
Qed.
Lemma subscribe_each_all L : ∀ L1 s, laid_out (nodes s) (sub_mgr s) L → (∀ x, x ∈ L1 → x ∈ L) →
  each_topic subscribe_topic (map l_root L1) s = deliver_all L1 s.
Proof.
  induction L1 as [|x L1 IH]; intros s HL Hs; [done|]. cbn [map each_topic deliver_all].
  destruct (subscribe_topic_ok L x s HL ltac:(apply Hs; left)) as [-> K].
  destruct (deliver x s) as [s1|] eqn:E; [cbn [mbind outcome_bind]|done].
  apply IH; [by apply (laid_out_keeps MROS_TOPIC_CONNECTOR_SUB L s); [apply K|]|intros; apply Hs; by right].
Qed.
Lemma each_ok (l : list nat) s : each_topic (λ _ s, Ok s) l s = Ok s.
Proof. induction l; [done|]. cbn. done. Qed.

Lemma subscriber_run_ok L s : is_initialized (sub_mgr s) = true → laid_out (nodes s) (sub_mgr s) L → zlen L ≤ MROS_TOPIC_MAX_NUM →
  mros_topic_data_subscriber_run s = s1 ← deliver_all L s; mros_topic_connector_purge MROS_TOPIC_CONNECTOR_SUB s1.
Proof.
  intros Hi HL Hb. unfold mros_topic_data_subscriber_run, mros_topic_connector_factory_get. cbn [mgr_of]. rewrite Hi.
  rewrite (topic_first_ok _ _ _ HL), (topic_loop_each _ _ L) with (l1 := []); [|..|exact HL|done|by eapply roots_fit|done].
  - rewrite each_ok. cbn [mbind outcome_bind app]. by rewrite (subscribe_each_all L L s HL).
  - intros x a b _ _ [= <-]. reflexivity.
Qed.

(** ** A quiet system

    No data is under way and no connector of another node exists; queues hold one entry at
    least. *)

Definition queue_empty (q : list_head) : Prop := entries q = None ∧ entry_num q = 0.
Record quiet (Lp Ls : list topic_layout) s : Prop := {
  q_pub_init : is_initialized (pub_mgr s) = true;
  q_sub_init : is_initialized (sub_mgr s) = true;
  q_pub_error : is_error (pub_mgr s) = false;
  q_sub_error : is_error (sub_mgr s) = false;
  q_pub : laid_out (nodes s) (pub_mgr s) Lp;
  q_sub : laid_out (nodes s) (sub_mgr s) Ls;
  q_few : zlen Lp ≤ MROS_TOPIC_MAX_NUM ∧ zlen Ls ≤ MROS_TOPIC_MAX_NUM;
  q_inner : ∀ x, x ∈ Lp ++ Ls → l_outer x = [];
  q_distinct : NoDup (map l_topic Lp) ∧ NoDup (map l_topic Ls);
  q_conns : ∀ x c, x ∈ Lp → c ∈ l_inner x → ∃ e, conn_entries (pub_mgr s) !! c = Some e ∧ queue_empty (c_queue_head e) ∧ 0 < c_queue_maxsize e;
  q_topics : ∀ x, x ∈ Lp ++ Ls → l_topic x ≤ max_topic (topics s) ∧ 0 < l_topic x < 2 ^ 32 ∧
    ∃ e, TOPIC_OBJ (l_topic x) (topics s) = Ok e ∧ queue_empty (queue_head e) ∧ 0 < queue_maxsize e;
  q_heap : ∀ p, (m_next (heap s) ≤ p)%nat → m_data (heap s) !! p = None }.

Lemma queue_add_empty q p m : queue_empty q → entry_ok (m_links m) p →
  ∃ m', queue_add q p m = Ok (mkHead 1 (Some p) (free q) (free_num q), m') ∧ ring [p] (m_links m') ∧ m_data m' = m_data m ∧ m_next m' = m_next m.
Proof.
  intros [He Hn] Hp. unfold queue_add, ListEntry_AddEntry. destruct (Init_ok p _ Hp) as (l & -> & R & _). cbn [mbind outcome_bind].
  rewrite He, Hn. cbn [mbind outcome_bind]. eexists. split; [reflexivity|done].
Qed.
Lemma queue_take_one f fn p m : ring [p] (m_links m) →
  ∃ m', queue_take (mkHead 1 (Some p) f fn) m = Ok (p, mkHead 0 None f fn, m') ∧ ring [p] (m_links m') ∧ m_data m' = m_data m ∧ m_next m' = m_next m.
Proof.
  intros Hr. unfold queue_take, ListEntry_GetFirst, ListEntry_RemoveEntry. cbn [entries].
  destruct (Remove_ok p [] [] (m_links m) Hr) as (l & E & _ & R & _). cbn [app head] in E. rewrite E. cbn [mbind outcome_bind]. eexists. split; [reflexivity|done].
Qed.
Lemma queue_empty_eta q : queue_empty q → mkHead 0 None (free q) (free_num q) = q.
Proof. destruct q. intros [H1 H2]. cbn in *. by subst. Qed.

(** The message in its buffer: the place of the length, the length of the string, the string. *)
Definition message (data : list Z) : list Z := [0; 0; 0; 0] ++ le_bytes 4 (zlen data) ++ data.

Lemma message_written data : ∃ m1,
  memcpy_at (replicate (Z.to_nat (zlen data + 8)) 0) 4 (le_bytes 4 (zlen data)) = Ok m1 ∧ memcpy_at m1 8 data = Ok (message data).
Proof.
  replace (Z.to_nat (zlen data + 8)) with (4 + (4 + length data))%nat by (unfold zlen; lia). rewrite !replicate_add.
  exists (replicate 4 0 ++ le_bytes 4 (zlen data) ++ replicate (length data) 0). split.
  - by apply (memcpy_ok (replicate 4 0)).
  - rewrite app_assoc. rewrite <- (app_nil_r (replicate (length data) 0)). rewrite (memcpy_ok (replicate 4 0 ++ le_bytes 4 (zlen data)) _ _ data) by by rewrite length_replicate.
    unfold message. by rewrite app_nil_r, <- app_assoc.
Qed.

Lemma publish_quiet Lp Ls s xp pub data : quiet Lp Ls s → xp ∈ Lp → pub ∈ l_inner xp → zlen data + 8 < 2 ^ 32 →
  let p := m_next (heap s) in ∃ e m, conn_entries (pub_mgr s) !! pub = Some e ∧ queue_empty (c_queue_head e) ∧
  let q := mkHead 1 (Some p) (free (c_queue_head e)) (free_num (c_queue_head e)) in
  ros_topic_publish pub data s = Ok (set_mros_heap m (set_mgr MROS_TOPIC_CONNECTOR_PUB (put_conn pub (set_conn_queue q e) (pub_mgr s)) s)) ∧
  ring [p] (m_links m) ∧ m_next m = S p ∧
  m_data m = <[p := mkMem (zlen data + 8) (zlen data + 8) (message data)]> (m_data (heap s)).
Proof.
  intros Q Hx Hp Hb p. destruct (q_conns _ _ _ Q xp pub Hx Hp) as (e & He & Hq & Hmax). exists e.
  destruct (lo_conn _ _ _ (q_pub _ _ _ Q) xp MROS_NODE_TYPE_INNER pub Hx Hp) as (v & Hv & Ht & _).
  unfold values in Hv. rewrite list_lookup_fmap, He in Hv. injection Hv as Hv. pose proof (zlen_nonneg data).
  assert (Es : mros_protocol_get_buffersize (u32 (zlen data + 4)) = zlen data + 8).
  { unfold mros_protocol_get_buffersize, MROS_TOPIC_RAWDATA_HEADER_SIZE, u32, wrap. rewrite !Z.mod_small; [lia|lia|rewrite Z.mod_small; lia]. }
  unfold ros_topic_publish. rewrite Es. unfold mros_topic_connector_alloc_data, conn_at. cbn [mgr_of]. rewrite He. cbn [oob mbind outcome_bind].
  rewrite Hv, Ht, decide_False by auto. pose proof Hq as [Hq1 Hq2]. rewrite Hq2. replace (c_queue_maxsize e <=? 0) with false by lia. cbn [mbind outcome_bind].
  unfold mros_mem_alloc. fold p. cbv beta iota zeta.
  set (m0 := mkHeap _ _ _). assert (Hok : entry_ok (m_links m0) p) by (split; apply mk_is_Some with p; apply lookup_insert_eq).
  destruct (queue_add_empty (c_queue_head e) p m0 Hq Hok) as (m1 & -> & R & Hd & Hn). cbn [mbind outcome_bind].
  cbn [heap set_mros_heap set_mgr]. unfold mem_at.
  assert (Em : m_data m0 !! p = Some (mkMem (zlen data + 8) (zlen data + 8) (replicate (Z.to_nat (zlen data + 8)) 0))) by (cbn; by rewrite lookup_insert_eq).
  rewrite Hd, Em. cbn [oob mbind outcome_bind memp].
  destruct (message_written data) as (b1 & -> & E2). cbn [mbind outcome_bind]. rewrite E2. cbn [mbind outcome_bind].
  eexists. split; [done|]. split; [done|]. split; [reflexivity|]. cbn. rewrite Hn, Hd. cbn. by rewrite insert_insert_eq.
Qed.

(** ** The publisher's run moves it to the topic *)

Definition idle s (c : nat) : Prop := ∃ e, conn_entries (pub_mgr s) !! c = Some e ∧
  mros_node_type (c_node (c_value e)) (nodes s) = MROS_NODE_TYPE_INNER ∧ entry_num (c_queue_head e) = 0.

Lemma publish_one_idle t c s : idle s c → publish_one MROS_TOPIC_CONNECTOR_PUB t c s = Ok s.
Proof.
  intros (e & He & Ht & Hn). unfold publish_one, mros_topic_connector_receive_data, conn_at. cbn [mgr_of]. rewrite He. cbn [oob mbind outcome_bind].
  rewrite decide_True by done. by rewrite Hn.
Qed.
Lemma each_idle t l s : (∀ c, c ∈ l → idle s c) → each_topic (publish_one MROS_TOPIC_CONNECTOR_PUB t) l s = Ok s.
Proof.
  induction l as [|c l IH]; intros H; [done|]. cbn [each_topic]. rewrite publish_one_idle by (apply H; left). cbn [mbind outcome_bind].
  apply IH. intros d Hd. apply H. by right.
Qed.
Lemma publish_all_idle L s : (∀ x c, x ∈ L → c ∈ l_inner x → idle s c) → publish_all MROS_NODE_TYPE_INNER L s = Ok s.
Proof.
  induction L as [|x L IH]; intros H; [done|]. cbn [publish_all conns_of]. rewrite each_idle by (intros c; apply H; left). cbn [mbind outcome_bind].
  apply IH. intros y c Hy. apply H. by right.
Qed.
Lemma publish_all_app ntype L1 L2 s : publish_all ntype (L1 ++ L2) s = s ← publish_all ntype L1 s; publish_all ntype L2 s.
Proof. revert s. induction L1 as [|x L1 IH]; intros s; cbn; [done|]. destruct (each_topic _ _ s); cbn; [apply IH|done]. Qed.
Lemma publish_all_outer L s : (∀ x, x ∈ L → l_outer x = []) → publish_all MROS_NODE_TYPE_OUTER L s = Ok s.
Proof.
  induction L as [|x L IH]; intros H; [done|]. cbn [publish_all conns_of]. rewrite (H x) by left. cbn. apply IH. intros y Hy. apply H. by right.
Qed.

Lemma set_conn_back pub e q m s : conn_entries (pub_mgr s) !! pub = Some e →
  set_mgr MROS_TOPIC_CONNECTOR_PUB (put_conn pub e (mgr_of MROS_TOPIC_CONNECTOR_PUB (set_mros_heap m (set_mgr MROS_TOPIC_CONNECTOR_PUB (put_conn pub (set_conn_queue q e) (pub_mgr s)) s))))
    (set_mros_heap m (set_mgr MROS_TOPIC_CONNECTOR_PUB (put_conn pub (set_conn_queue q e) (pub_mgr s)) s)) = set_mros_heap m s.
Proof.
  intros He. destruct s as [t n [i er mc ch ce cl th re rl] g m0 k cb w]. cbn in *.
  unfold put_conn, set_conns, set_mros_heap, set_mgr. cbn. do 2 f_equal. rewrite list_insert_insert_eq. by apply list_insert_id.
Qed.

Lemma topic_add_empty t te p T m : t ≤ max_topic T → TOPIC_OBJ t T = Ok te → queue_empty (queue_head te) → 0 < queue_maxsize te → entry_ok (m_links m) p →
  ∃ m', mros_topic_add_data t p T m = Ok (MROS_E_OK, set_topic t (set_queue (mkHead 1 (Some p) (free (queue_head te)) (free_num (queue_head te))) te) T, m') ∧
  ring [p] (m_links m') ∧ m_data m' = m_data m ∧ m_next m' = m_next m.
Proof.
  intros Ht Ho Hq Hmax Hp. unfold mros_topic_add_data. replace (max_topic T <? t) with false by lia. rewrite Ho. cbn [mbind outcome_bind].
  pose proof Hq as [_ Hn]. rewrite Hn. replace (queue_maxsize te <=? 0) with false by lia. cbn [mbind outcome_bind].
  destruct (queue_add_empty _ p m Hq Hp) as (m' & -> & R). cbn [mbind outcome_bind]. by exists m'.
Qed.

Lemma publish_one_moves pub e m t te s : let p := m_next (heap s) in
  conn_entries (pub_mgr s) !! pub = Some e → mros_node_type (c_node (c_value e)) (nodes s) = MROS_NODE_TYPE_INNER → queue_empty (c_queue_head e) →
  ring [p] (m_links m) →
  t ≤ max_topic (topics s) → TOPIC_OBJ t (topics s) = Ok te → queue_empty (queue_head te) → 0 < queue_maxsize te →
  ∃ m', publish_one MROS_TOPIC_CONNECTOR_PUB t pub
    (set_mros_heap m (set_mgr MROS_TOPIC_CONNECTOR_PUB (put_conn pub (set_conn_queue (mkHead 1 (Some p) (free (c_queue_head e)) (free_num (c_queue_head e))) e) (pub_mgr s)) s))
  = Ok (set_mros_heap m' (set_topics (set_topic t (set_queue (mkHead 1 (Some p) (free (queue_head te)) (free_num (queue_head te))) te) (topics s)) s)) ∧
  ring [p] (m_links m') ∧ m_data m' = m_data m ∧ m_next m' = m_next m.
Proof.
  intros p He Hty Hq Hr Ht Ho Htq Hmax. set (q := mkHead 1 (Some p) _ _). set (s1 := set_mros_heap m _).
  unfold publish_one, mros_topic_connector_receive_data, conn_at.
  assert (E1 : conn_entries (mgr_of MROS_TOPIC_CONNECTOR_PUB s1) !! pub = Some (set_conn_queue q e)).
  { cbn. apply list_lookup_insert_eq. by eapply lookup_lt_Some. }
  rewrite E1. cbn [oob mbind outcome_bind]. rewrite decide_True by exact Hty.
  change (entry_num (c_queue_head (set_conn_queue q e)) =? 0) with false. cbv iota.
  destruct (queue_take_one (free (c_queue_head e)) (free_num (c_queue_head e)) p m Hr) as (m2 & E2 & R2 & D2 & N2).
  change (queue_take (c_queue_head (set_conn_queue q e)) (heap s1) = Ok (p, mkHead 0 None (free (c_queue_head e)) (free_num (c_queue_head e)), m2)) in E2.
  rewrite E2. cbn [mbind outcome_bind].
  change (negb (MROS_E_OK =? MROS_E_OK)) with false. cbv iota.
  rewrite queue_empty_eta by done.
  replace (set_conn_queue (c_queue_head e) (set_conn_queue q e)) with e by by destruct e.
  unfold s1. rewrite (set_conn_back pub e q m s He).
  change (topics (set_mros_heap m2 (set_mros_heap m s))) with (topics s). change (heap (set_mros_heap m2 (set_mros_heap m s))) with m2.
  destruct (topic_add_empty t te p (topics s) m2 Ht Ho Htq Hmax) as (m3 & -> & R3 & D3 & N3); [by eapply ring_entry_ok; [exact R2|left]|].
  cbn [mbind outcome_bind]. exists m3. split; [done|]. split; [done|]. split; congruence.
Qed.

Lemma conn_topic type n L s x y ntype c : laid_out n (mgr_of type s) L → x ∈ L → y ∈ L → c ∈ conns_of ntype x → c ∈ conns_of ntype y → l_topic x = l_topic y.
Proof.
  intros HL Hx Hy Hcx Hcy. destruct (lo_conn _ _ _ HL x ntype c Hx Hcx) as (v & Hv & _ & <-).
  destruct (lo_conn _ _ _ HL y ntype c Hy Hcy) as (v' & Hv' & _ & <-). by simplify_eq.
Qed.
Lemma topics_differ L1 x L2 y : NoDup (map l_topic (L1 ++ x :: L2)) → y ∈ L1 ++ L2 → l_topic y ≠ l_topic x.
Proof.
  rewrite map_app. cbn. rewrite <- Permutation_middle. intros [Hn _]%NoDup_cons Hy E. apply Hn. rewrite <- E, <- map_app.
  apply list_elem_of_fmap. by exists y.
Qed.

Lemma publisher_run_quiet Lp Ls s xp pub e m : let p := m_next (heap s) in quiet Lp Ls s → xp ∈ Lp → pub ∈ l_inner xp →
  conn_entries (pub_mgr s) !! pub = Some e → queue_empty (c_queue_head e) → ring [p] (m_links m) →
  ∃ te m', TOPIC_OBJ (l_topic xp) (topics s) = Ok te ∧ queue_empty (queue_head te) ∧
  mros_topic_data_publisher_run
    (set_mros_heap m (set_mgr MROS_TOPIC_CONNECTOR_PUB (put_conn pub (set_conn_queue (mkHead 1 (Some p) (free (c_queue_head e)) (free_num (c_queue_head e))) e) (pub_mgr s)) s))
  = Ok (set_mros_heap m' (set_topics (set_topic (l_topic xp) (set_queue (mkHead 1 (Some p) (free (queue_head te)) (free_num (queue_head te))) te) (topics s)) s)) ∧
  ring [p] (m_links m') ∧ m_data m' = m_data m ∧ m_next m' = m_next m.
Proof.
  intros p Q Hx Hpub He Hq Hr. set (s1 := set_mros_heap m _).
  destruct (q_topics _ _ _ Q xp) as (Hmax & Hid & te & Hte & Htq & Hts); [set_solver|].
  destruct (lo_conn _ _ _ (q_pub _ _ _ Q) xp MROS_NODE_TYPE_INNER pub Hx Hpub) as (v & Hv & Hty & _).
  unfold values in Hv. rewrite list_lookup_fmap, He in Hv. injection Hv as Hv. rewrite <- Hv in Hty.
  destruct (publish_one_moves pub e m (l_topic xp) te s He Hty Hq Hr Hmax Hte Htq Hts) as (m' & E1 & R & D & N). fold p s1 in E1.
  set (s2 := set_mros_heap m' _) in *. exists te, m'. split; [done|]. split; [done|]. split; [|done].
  assert (K1 : keeps s s1). { split; [done| |done]. cbn. eapply put_conn_shape; [exact He|done]. }
  assert (HL1 : laid_out (nodes s1) (pub_mgr s1) Lp) by (apply (laid_out_keeps MROS_TOPIC_CONNECTOR_PUB Lp s s1 K1), (q_pub _ _ _ Q)).
  assert (Hidle : ∀ x c, x ∈ Lp → c ∈ l_inner x → idle s c).
  { intros x c Hx1 Hc. destruct (q_conns _ _ _ Q x c Hx1 Hc) as (e' & He' & [_ Hn] & _). exists e'. split_and!; [done| |done].
    destruct (lo_conn _ _ _ (q_pub _ _ _ Q) x MROS_NODE_TYPE_INNER c Hx1 Hc) as (v' & Hv' & Hty' & _).
    unfold values in Hv'. rewrite list_lookup_fmap, He' in Hv'. injection Hv' as Hv'. by rewrite Hv'. }
  assert (Hidle1 : ∀ c, c ≠ pub → idle s c → idle s1 c).
  { intros c Hc (e' & He' & Hrest). exists e'. split; [|done]. cbn. by rewrite list_lookup_insert_ne. }
  rewrite (publisher_visits_every_connector Lp s1); [|exact (q_pub_init _ _ _ Q)|done|apply (q_few _ _ _ Q)].
  apply list_elem_of_split in Hx as (A & B & EL).
  assert (Hne : ∀ x c, x ∈ A ++ B → c ∈ l_inner x → c ≠ pub).
  { intros x c Hx1 Hc ->. pose proof (proj1 (q_distinct _ _ _ Q)) as Hd. rewrite EL in Hd. apply (topics_differ _ _ _ _ Hd Hx1).
    apply (conn_topic MROS_TOPIC_CONNECTOR_PUB _ Lp s x xp MROS_NODE_TYPE_INNER pub (q_pub _ _ _ Q)); [rewrite EL; set_solver|rewrite EL; set_solver|done|done]. }
  apply list_elem_of_split in Hpub as (l1 & l2 & El).
  assert (Hnd : NoDup (l_inner xp)).
  { destruct (lo_root _ _ _ (q_pub _ _ _ Q) xp) as (hi & ho & _ & (Hri & _) & _); [rewrite EL; set_solver|]. by eapply ring_NoDup. }
  assert (Hl : ∀ c, c ∈ l1 ++ l2 → c ≠ pub ∧ idle s c).
  { intros c Hc. rewrite El, <- Permutation_middle in Hnd. apply NoDup_cons in Hnd as [Hn _]. split; [by intros ->|].
    apply (Hidle xp); [rewrite EL; set_solver|rewrite El; set_solver]. }
  rewrite EL at 1. rewrite publish_all_app, publish_all_idle.
  2: { intros x c Hx1 Hc. apply Hidle1; [apply (Hne x); [set_solver|done]|apply (Hidle x); [rewrite EL; set_solver|done]]. }
  cbn [mbind outcome_bind publish_all conns_of]. rewrite El, each_topic_app, each_idle by (intros c Hc; apply Hidle1; apply Hl; set_solver).
  cbn [mbind outcome_bind each_topic]. rewrite E1. cbn [mbind outcome_bind].
  rewrite each_idle by (intros c Hc; apply Hl; set_solver). cbn [mbind outcome_bind].
  rewrite publish_all_idle by (intros x c Hx1 Hc; apply (Hidle x); [rewrite EL; set_solver|done]). cbn [mbind outcome_bind].
  rewrite publish_all_outer by (intros x Hx1; apply (q_inner _ _ _ Q); set_solver). cbn [mbind outcome_bind].
  unfold mros_topic_connector_purge. cbn [mgr_of]. change (is_error (pub_mgr s2)) with (is_error (pub_mgr s)). by rewrite (q_pub_error _ _ _ Q).
Qed.

(** ** The subscriber's run gives it to the callbacks *)

Lemma index_of t : 0 < t < 2 ^ 32 → MROS_INDEX t = t - 1.
Proof. intros H. unfold MROS_INDEX, u32, wrap. apply Z.mod_small. lia. Qed.
Lemma topic_obj_set_eq t e T : 0 < t < 2 ^ 32 → is_ok (TOPIC_OBJ t T) → TOPIC_OBJ t (set_topic t e T) = Ok e.
Proof.
  intros Ht [e0 He]. unfold TOPIC_OBJ, set_topic in *. cbn. rewrite index_of in * by done.
  destruct (zget (topic_entries T) (t - 1)) eqn:E; [|done]. apply zget_range in E. by rewrite zget_zput_eq by lia.
Qed.
Lemma topic_obj_set_ne t t' e T : 0 < t < 2 ^ 32 → 0 < t' < 2 ^ 32 → t ≠ t' → TOPIC_OBJ t' (set_topic t e T) = TOPIC_OBJ t' T.
Proof. intros Ht Ht' Hne. unfold TOPIC_OBJ, set_topic. cbn. rewrite !index_of by done. rewrite zget_zput_ne; [done|lia..]. Qed.
Lemma topic_set_back t e te T : 0 < t < 2 ^ 32 → TOPIC_OBJ t T = Ok te → set_topic t te (set_topic t e T) = T.
Proof.
  intros Ht He. unfold TOPIC_OBJ, set_topic in *. rewrite index_of in * by done. destruct T as [hd es mx l b]. cbn in *. unfold set_entries. cbn. f_equal.
  unfold zput. rewrite list_insert_insert_eq. apply list_insert_id. rewrite <- (zget_lookup es). rewrite Z2Nat.id by lia. by destruct (zget es (t - 1)); simplify_eq/=.
Qed.

Lemma state_eta s : set_mros_heap (heap s) (set_topics (topics s) s) = s.
Proof. by destruct s. Qed.

Lemma deliver_empty x s e : l_topic x ≤ max_topic (topics s) → TOPIC_OBJ (l_topic x) (topics s) = Ok e → queue_empty (queue_head e) → deliver x s = Ok s.
Proof.
  intros Hm He [_ Hn]. unfold deliver, mros_topic_get_data. replace (max_topic (topics s) <? l_topic x) with false by lia.
  rewrite He. cbn [mbind outcome_bind]. rewrite Hn. cbn. by rewrite state_eta.
Qed.
Lemma deliver_all_empty L s : (∀ x, x ∈ L → l_topic x ≤ max_topic (topics s) ∧ ∃ e, TOPIC_OBJ (l_topic x) (topics s) = Ok e ∧ queue_empty (queue_head e)) → deliver_all L s = Ok s.
Proof.
  induction L as [|x L IH]; intros H; [done|]. cbn [deliver_all]. destruct (H x) as (Hm & e & He & Hq); [left|].
  rewrite (deliver_empty x s e) by done. cbn [mbind outcome_bind]. apply IH. intros y Hy. apply H. by right.
Qed.
Lemma deliver_all_app L1 L2 s : deliver_all (L1 ++ L2) s = s ← deliver_all L1 s; deliver_all L2 s.
Proof. revert s. induction L1 as [|x L1 IH]; intros s; cbn; [done|]. destruct (deliver x s); cbn; [apply IH|done]. Qed.

(** What the connector [c] of the manager [g] is called with. *)
Definition called (g : mRosTopicConnectorManagerType) (topic : Z) (data : list Z) (c : nat) (ev : mros_event) : Prop :=
  ∃ v, values g !! c = Some v ∧ ev = Callback (c_func v) topic (zlen data) data.

Lemma message_parts data : zlen data + 8 < 2 ^ 32 → u32 (zlen (message data) - 8) = zlen data ∧ drop 8 (message data) = data.
Proof.
  intros Hb. pose proof (zlen_nonneg data). split; [|done]. unfold message. rewrite !zlen_app, le_bytes_len.
  change (zlen [0; 0; 0; 0]) with 4. unfold u32, wrap. rewrite Z.mod_small; lia.
Qed.

Lemma send_one_inner L x p c s data n : laid_out (nodes s) (sub_mgr s) L → x ∈ L → c ∈ l_inner x → l_topic x ≤ max_topic (topics s) →
  is_ok (TOPIC_OBJ (l_topic x) (topics s)) → zlen data + 8 < 2 ^ 32 → n = zlen data + 8 →
  m_data (heap s) !! p = Some (mkMem n n (message data)) →
  ∃ ev, called (sub_mgr s) (l_topic x) data c ev ∧ send_one p c s = Ok (note_event ev s).
Proof.
  intros HL Hx Hc Hm [te Hte] Hb Hn Hp. destruct (lo_conn _ _ _ HL x MROS_NODE_TYPE_INNER c Hx Hc) as (v & Hv & Hty & Htop).
  exists (Callback (c_func v) (l_topic x) (zlen data) data). split; [by exists v|].
  unfold values in Hv. rewrite list_lookup_fmap in Hv. destruct (conn_entries (sub_mgr s) !! c) as [e|] eqn:He; [|done]. injection Hv as Hv.
  unfold send_one, mem_at. rewrite Hp. cbn [oob mbind outcome_bind memp mem_size memsize].
  assert (Ez : zlen (message data) = n) by (unfold message; rewrite !zlen_app, le_bytes_len; change (zlen [0; 0; 0; 0]) with 4; lia).
  pose proof (zlen_nonneg data).
  assert (Eb : bytes_at (message data) 0 n = Some (message data)).
  { unfold bytes_at. rewrite Ez. replace (_ && _ && _) with true by lia. f_equal. rewrite <- Ez. unfold zlen. rewrite Nat2Z.id. apply firstn_all. }
  rewrite Eb. cbn [oob mbind outcome_bind]. unfold mros_topic_connector_send_data, conn_at. cbn [mgr_of]. rewrite He. cbn [oob mbind outcome_bind].
  rewrite Hv, Hty, decide_True by done. rewrite Htop. unfold mros_topic_get_typeid, by_id. replace (max_topic (topics s) <? l_topic x) with false by lia.
  rewrite Hte. cbn [mbind outcome_bind]. unfold mros_topic_callback. destruct (message_parts data Hb) as [-> ->]. f_equal.
  assert (Ep : bytes_put (message data) 0 (message data) = message data).
  { unfold bytes_put. change (Z.to_nat 0) with 0%nat. cbn [take Nat.add]. rewrite drop_all. by rewrite app_nil_r. }
  rewrite Ep. unfold set_mem_entry. cbn [heap note_event]. rewrite insert_id by done. destruct s as [? ? ? ? [? ? ?] ? ? ?]. done.
Qed.

Lemma send_each L x p data n : x ∈ L → zlen data + 8 < 2 ^ 32 → n = zlen data + 8 → ∀ l s, (∀ c, c ∈ l → c ∈ l_inner x) →
  laid_out (nodes s) (sub_mgr s) L → l_topic x ≤ max_topic (topics s) → is_ok (TOPIC_OBJ (l_topic x) (topics s)) →
  m_data (heap s) !! p = Some (mkMem n n (message data)) →
  ∃ evs, Forall2 (called (sub_mgr s) (l_topic x) data) l evs ∧
  each_topic (send_one p) l s = Ok (mkMros (topics s) (nodes s) (pub_mgr s) (sub_mgr s) (heap s) (clients s) (callbacks s ++ evs) (world s)).
Proof.
  intros Hx Hb Hn. induction l as [|c l IH]; intros s Hl HL Hm Ho Hp.
  - exists []. split; [constructor|]. cbn. rewrite app_nil_r. by destruct s.
  - destruct (send_one_inner L x p c s data n) as (ev & Hev & E); [done|done|by apply Hl; left|done..|].
    cbn [each_topic]. rewrite E. cbn [mbind outcome_bind].
    destruct (IH (note_event ev s)) as (evs & Hevs & ->); [intros d Hd; apply Hl; by right|done..|].
    exists (ev :: evs). split; [by constructor|]. cbn. by rewrite <- app_assoc.
Qed.

Lemma deliver_one L x p f fn te data n m s : x ∈ L → laid_out (nodes s) (sub_mgr s) L → l_outer x = [] →
  l_topic x ≤ max_topic (topics s) → 0 < l_topic x < 2 ^ 32 → TOPIC_OBJ (l_topic x) (topics s) = Ok te → queue_head te = mkHead 0 None f fn →
  ring [p] (m_links m) → m_data m !! p = Some (mkMem n n (message data)) → n = zlen data + 8 → zlen data + 8 < 2 ^ 32 →
  ∃ evs m', Forall2 (called (sub_mgr s) (l_topic x) data) (l_inner x) evs ∧
  deliver x (set_mros_heap m (set_topics (set_topic (l_topic x) (set_queue (mkHead 1 (Some p) f fn) te) (topics s)) s)) =
    Ok (mkMros (topics s) (nodes s) (pub_mgr s) (sub_mgr s) m' (clients s) (callbacks s ++ evs) (world s)) ∧
  m_data m' = delete p (m_data m) ∧ m_next m' = m_next m.
Proof.
  intros Hx HL Ho Hm Hid Hte Hq Hr Hp Hn Hb. set (te1 := set_queue _ te). set (T1 := set_topic (l_topic x) te1 (topics s)).
  assert (E1 : TOPIC_OBJ (l_topic x) T1 = Ok te1) by (apply topic_obj_set_eq; [done|by exists te]).
  destruct (queue_take_one f fn p m Hr) as (m1 & E2 & R1 & D1 & N1).
  unfold deliver, mros_topic_get_data. cbn [topics heap set_mros_heap set_topics].
  change (max_topic T1) with (max_topic (topics s)). replace (max_topic (topics s) <? l_topic x) with false by lia. rewrite E1. cbn [mbind outcome_bind].
  change (entry_num (queue_head te1) <=? 0) with false. cbv iota. change (queue_head te1) with (mkHead 1 (Some p) f fn). rewrite E2. cbn [mbind outcome_bind].
  assert (Eq : set_queue (mkHead 0 None f fn) te1 = te) by (rewrite <- Hq; by destruct te). rewrite Eq. unfold T1. rewrite topic_set_back by done.
  cbn [mbind outcome_bind]. rewrite Ho, app_nil_r. set (s0 := set_mros_heap m1 _).
  assert (Es0 : s0 = mkMros (topics s) (nodes s) (pub_mgr s) (sub_mgr s) m1 (clients s) (callbacks s) (world s)) by done.
  destruct (send_each L x p data n Hx Hb Hn (l_inner x) s0) as (evs & Hevs & ->); [done|done|done|by exists te|by rewrite Es0; cbn; rewrite D1|].
  exists evs, (mros_mem_free p m1). split; [done|]. cbn [mbind outcome_bind]. split; [done|]. cbn. by rewrite D1, N1.
Qed.

(** C35: What is published is delivered: in a quiet system, after a publisher of this node
    publishes and both runs are done, every subscriber of the topic on this node has been
    called once, in the order of the ring, with the bytes published; the memory is free again
    and the system quiet. *)
Theorem published_is_delivered Lp Ls s xp xs pub data : quiet Lp Ls s → xp ∈ Lp → xs ∈ Ls → l_topic xs = l_topic xp →
  pub ∈ l_inner xp → zlen data + 8 < 2 ^ 32 →
  ∃ s1 s2 s3 evs, ros_topic_publish pub data s = Ok s1 ∧ mros_topic_data_publisher_run s1 = Ok s2 ∧
  mros_topic_data_subscriber_run s2 = Ok s3 ∧ callbacks s3 = callbacks s ++ evs ∧
  Forall2 (called (sub_mgr s) (l_topic xs) data) (l_inner xs) evs ∧ m_data (heap s3) = m_data (heap s) ∧ quiet Lp Ls s3.
Proof.
  intros Q Hxp Hxs Htop Hpub Hb. set (p := m_next (heap s)).
  destruct (publish_quiet _ _ _ _ _ _ Q Hxp Hpub Hb) as (e & m & He & Hq & E1 & R1 & N1 & D1). fold p in E1, R1, N1, D1.
  destruct (publisher_run_quiet _ _ _ _ _ _ _ Q Hxp Hpub He Hq R1) as (te & m2 & Hte & Htq & E2 & R2 & D2 & N2). fold p in E2.
  destruct (q_topics _ _ _ Q xs) as (Hmax & Hid & _); [set_solver|]. rewrite <- Htop in *.
  pose proof (q_heap _ _ _ Q p) as Hfresh. specialize (Hfresh ltac:(done)).
  set (s2 := set_mros_heap m2 _) in E2.
  assert (HL2 : laid_out (nodes s2) (sub_mgr s2) Ls) by exact (q_sub _ _ _ Q).
  pose proof Hxs as (A & B & EL)%list_elem_of_split.
  assert (Hothers : ∀ x, x ∈ A ++ B → l_topic x ≠ l_topic xs ∧ x ∈ Ls).
  { intros x Hx. split; [|rewrite EL; set_solver]. pose proof (proj2 (q_distinct _ _ _ Q)) as Hd. rewrite EL in Hd. by apply (topics_differ _ _ _ _ Hd). }
  destruct (deliver_one Ls xs p (free (queue_head te)) (free_num (queue_head te)) te data (zlen data + 8) m2 s)
    as (evs & m3 & Hevs & E3 & D3 & N3); [done|apply (q_sub _ _ _ Q)|apply (q_inner _ _ _ Q); set_solver|done|done|done|by rewrite queue_empty_eta|done| |done|done|].
  { by rewrite D2, D1, lookup_insert_eq. }
  fold s2 in E3. set (s3 := mkMros _ _ _ _ _ _ _ _) in E3.
  assert (D : m_data m3 = m_data (heap s)) by (rewrite D3, D2, D1, delete_insert_eq; by apply delete_id).
  eexists _, s2, s3, evs. split; [exact E1|]. split; [exact E2|]. split; [|split_and!; [done|done|done|]].
  - rewrite (subscriber_run_ok Ls s2); [|exact (q_sub_init _ _ _ Q)|done|apply (q_few _ _ _ Q)].
    rewrite EL, deliver_all_app, deliver_all_empty.
    2: { intros x Hx. destruct (Hothers x) as [Hne Hx1]; [set_solver|]. destruct (q_topics _ _ _ Q x) as (Hm & Hid' & e' & He' & Hq' & _); [set_solver|].
         split; [done|]. exists e'. split; [|done]. cbn. by rewrite topic_obj_set_ne. }
    cbn [mbind outcome_bind deliver_all]. rewrite E3. cbn [mbind outcome_bind]. rewrite deliver_all_empty.
    2: { intros x Hx. destruct (Hothers x) as [Hne Hx1]; [set_solver|]. destruct (q_topics _ _ _ Q x) as (Hm & Hid' & e' & He' & Hq' & _); [set_solver|]. by eauto. }
    cbn [mbind outcome_bind]. unfold mros_topic_connector_purge. cbn [mgr_of]. change (is_error (sub_mgr s3)) with (is_error (sub_mgr s)). by rewrite (q_sub_error _ _ _ Q).
  - destruct Q. split; try done. cbn. intros k Hk. rewrite D. apply q_heap0. rewrite N3, N2, N1 in Hk. unfold p in Hk. lia.
Qed.
End moves.

(** ** Connectors of other nodes *)

Section others.
Context {W : Type} {ops : SockOps W}.
Implicit Types s : mros W.

(** The publisher's run does not survive a connector of another node that has no connection:
    its result is 0, which is [MROS_E_OK], and there are no data. *)
Theorem unconnected_publisher_crashes t c e s : conn_entries (pub_mgr s) !! c = Some e →
  mros_node_type (c_node (c_value e)) (nodes s) ≠ MROS_NODE_TYPE_INNER → c_commp e = None →
  publish_one MROS_TOPIC_CONNECTOR_PUB t c s = Fault NullDeref.
Proof.
  intros He Ht Hc. unfold publish_one, mros_topic_connector_receive_data, conn_at. cbn [mgr_of]. rewrite He. cbn [oob mbind outcome_bind].
  rewrite decide_False by done. by rewrite Hc.
Qed.
End others.

(** ** A small system: one node that publishes and subscribes to "/a" *)

Module Demo.
#[local] Instance demo_ops : SockOps () := {|
  sys_socket := λ w, (-1, w); sys_connect := λ _ _ _ w, (-1, w); sys_select := λ _ _ _ w, (-1, false, w);
  sys_send := λ _ _ w, (-1, w); sys_recv := λ _ _ w, (-1, [], w); sys_close := λ _ w, w |}.
Definition demo_topic := mkTopic 0 0 (replicate 8 0) 0 (replicate 16 0) 0 0 0 0 List_InitEmpty.
Definition demo_nodes := mkNodes List_InitEmpty [mkNode 0 0 (replicate 8 0) 0] (static_links 1) 0.
Definition demo_mgr :=
  mkManager false false 2 List_InitEmpty (replicate 2 (mkEntry (mkConnector 0 0 0) 0 List_InitEmpty None)) (static_links 2)
    List_InitEmpty (replicate 2 (mkRoot 0 List_InitEmpty List_InitEmpty)) (static_links 2).
Definition demo_start : mros () :=
  mkMros (mkTopics List_InitEmpty (replicate 2 demo_topic) 0 (static_links 2) (replicate 9 0))
    (mkNodeMgr demo_nodes demo_nodes (replicate 9 0)) demo_mgr demo_mgr heap_init (mkClients List_InitEmpty [] (static_links 0)) [] ().
Definition demo_run : outcome (mros ()) :=
  t ← mros_topic_init (topics demo_start); n ← mros_node_init (nodes demo_start);
  let s := set_node_mgr n (set_topics t demo_start) in
  s ← mros_topic_connector_factory_create MROS_TOPIC_CONNECTOR_PUB s;
  s ← mros_topic_connector_factory_create MROS_TOPIC_CONNECTOR_SUB s;
  s ← ros_init [110] 5 s;
  '(_, s) ← ros_topic_advertise [97] 1 5 0 s;
  '(_, s) ← ros_topic_subscribe [97] 1 77 5 0 s;
  Ok s.
Definition demo : mros () := Eval vm_compute in match demo_run with Ok s => s | Fault _ => demo_start end.
Definition demo_layout : topic_layout := mkLayout 1 2 [1%nat] [].

Ltac demo_represents := refine (conj _ (conj I (conj _ (conj _ (conj _ (conj _ _)))))); [first [exact I|split; [apply NoDup_singleton|split; vm_compute; reflexivity]]|repeat constructor; set_solver|vm_compute; reflexivity..].
Lemma demo_laid_out type : laid_out (nodes demo) (mgr_of type demo) [demo_layout].
Proof.
  split.
  - exists [0%nat]. refine (conj _ (conj _ (conj _ _))); [split; [apply NoDup_singleton|destruct type; split; vm_compute; reflexivity]..| |destruct type; split_and!; vm_compute; reflexivity].
    cbn. apply NoDup_cons. split; [set_solver|apply NoDup_singleton].
  - intros x ->%list_elem_of_singleton. destruct type; (eexists _, _; split; [vm_compute; reflexivity|]; split; demo_represents).
  - intros x ntype c ->%list_elem_of_singleton Hc. destruct ntype; cbn in Hc; [|by apply elem_of_nil in Hc..].
    apply list_elem_of_singleton in Hc as ->. destruct type; (eexists; split; [vm_compute; reflexivity|split; vm_compute; reflexivity]).
Qed.
Lemma demo_quiet : quiet [demo_layout] [demo_layout] demo.
Proof.
  split; [reflexivity..| | | | | | | |].
  - apply (demo_laid_out MROS_TOPIC_CONNECTOR_PUB).
  - apply (demo_laid_out MROS_TOPIC_CONNECTOR_SUB).
  - split; vm_compute; discriminate.
  - intros x Hx. cbn in Hx. by repeat (apply elem_of_cons in Hx as [->|Hx]); [..|apply elem_of_nil in Hx].
  - split; apply NoDup_singleton.
  - intros x c ->%list_elem_of_singleton Hc. apply list_elem_of_singleton in Hc as ->. eexists. split; [vm_compute; reflexivity|]. split; [split; vm_compute; reflexivity|vm_compute; reflexivity].
  - intros x Hx. assert (x = demo_layout) as -> by (cbn in Hx; set_solver). split; [vm_compute; discriminate|]. split; [split; vm_compute; reflexivity|].
    eexists. split; [vm_compute; reflexivity|]. split; [split; vm_compute; reflexivity|vm_compute; reflexivity].
  - intros p _. reflexivity.
Qed.

Lemma delivered_witness : quiet [demo_layout] [demo_layout] demo ∧
  ∃ s1 s2 s3 evs, ros_topic_publish 1 [104; 105] demo = Ok s1 ∧ mros_topic_data_publisher_run s1 = Ok s2 ∧
  mros_topic_data_subscriber_run s2 = Ok s3 ∧ callbacks s3 = callbacks demo ++ evs ∧
  Forall2 (called (sub_mgr demo) 2 [104; 105]) [1%nat] evs ∧ m_data (heap s3) = m_data (heap demo) ∧ quiet [demo_layout] [demo_layout] s3.
Proof.
  split; [exact demo_quiet|].
  exact (published_is_delivered [demo_layout] [demo_layout] demo demo_layout demo_layout 1 [104; 105] demo_quiet
    ltac:(left) ltac:(left) eq_refl ltac:(left) eq_refl).
Defined.
Lemma visits_witness : mros_topic_data_publisher_run demo =
  s1 ← publish_all MROS_NODE_TYPE_INNER [demo_layout] demo; s2 ← publish_all MROS_NODE_TYPE_OUTER [demo_layout] s1;
  mros_topic_connector_purge MROS_TOPIC_CONNECTOR_PUB s2.
Proof.
  exact (publisher_visits_every_connector [demo_layout] demo eq_refl (demo_laid_out MROS_TOPIC_CONNECTOR_PUB) ltac:(vm_compute; discriminate)).
Defined.

(** What was published is what the callback is given. *)
Example demo_delivers :
  (s ← ros_topic_publish 1 [104; 105] demo; s ← mros_topic_data_publisher_run s; s ← mros_topic_data_subscriber_run s; Ok (callbacks s))
  = Ok [Request MROS_TOPIC_CONNECTOR_PUB 1; Request MROS_TOPIC_CONNECTOR_SUB 1; Callback 77 2 2 [104; 105]].
Proof. vm_compute. reflexivity. Qed.

(** When the last publisher of another node is removed from a topic, the topic is taken out of
    the manager, and the publishers of this node with it: nothing they publish arrives. *)
Theorem removal_hides_publishers :
  (s ← ros_topic_publish 1 [104; 105] demo;
   '(_, id, n) ← mros_node_create_outer 0 (nodes s);
   let c := mkConnector 2 id 0 in
   '(r1, k, g) ← mros_topic_connector_add c 1 n (clients s) (pub_mgr s);
   '(r2, k, g) ← mros_topic_connector_remove c n k g;
   s ← mros_topic_data_publisher_run (set_mgr MROS_TOPIC_CONNECTOR_PUB g (set_node_mgr n s));
   s ← mros_topic_data_subscriber_run s;
   Ok (r1, r2, mros_topic_connector_get_topic_first (pub_mgr s), callbacks s))
  = Ok (MROS_E_OK, MROS_E_OK, None, [Request MROS_TOPIC_CONNECTOR_PUB 1; Request MROS_TOPIC_CONNECTOR_SUB 1]).
Proof. vm_compute. reflexivity. Qed.
End Demo.
