(* ===== verification/MrosPacket.v ===== *)
(** * Packets of the ROS device

    [src/src/device/peripheral/mros-dev/mros-src/packet/]: the texts of the templates, the
    encoder [cimpl/version/kinetic/mros_packet_encoder_cimpl.c] and the decoder
    [cimpl/version/kinetic/mros_packet_decoder_cimpl.c]: requests and answers in XML over HTTP,
    and the connection headers of TCPROS.

    A packet is its buffer of [total_size] bytes; pointers into it are offsets, and what a
    search or a comparison reads is checked.  The name resolution of
    [mros_comm_inet_get_ipaddr] ([sscanf], [gethostbyname]) is a parameter. *)

From Stdlib Require Import String Ascii.
From S2P Require Import Prelude Token MrosTopic.
Open Scope Z_scope.

(** ** Data *)

Inductive mRosPacketDataEnumType :=
  | MROS_PACKET_DATA_REGISTER_PUBLISHER_REQ | MROS_PACKET_DATA_REGISTER_SUBSCRIBER_REQ
  | MROS_PACKET_DATA_REQUEST_TOPIC_REQ | MROS_PACKET_DATA_REQUEST_TOPIC_RES | MROS_PACKET_DATA_PUBLISHER_UPDATE_REQ
  | MROS_PACKET_DATA_TCPROS_TOPIC_REQ | MROS_PACKET_DATA_TCPROS_TOPIC_RES | MROS_PACKET_DATA_TOPIC | MROS_PACKET_DATA_NUM.
#[export] Instance mRosPacketDataEnumType_eq_dec : EqDecision mRosPacketDataEnumType.
Proof. solve_decision. Defined.

Record mRosPacketType := mkPacket { total_size : Z; data_size : Z; data : list Z }.
Definition set_data (d : list Z) (p : mRosPacketType) : mRosPacketType := mkPacket (total_size p) (data_size p) d.
Definition set_data_size (n : Z) (p : mRosPacketType) : mRosPacketType := mkPacket (total_size p) n (data p).

Record mRosEncodeArgType := mkArg { arg_type : mRosPacketDataEnumType; argv : list (list Z); argi : list Z }.

Definition MROS_TCPROS_RAWDATA_HEADER_SIZE : Z := 4.
Definition MROS_TOPIC_HEADER_SIZE : Z := 4.

(** ** Templates *)

Definition ln (s : string) : list Z := str_of s ++ [10].

Definition MROS_PACKET_FMT_HTTP_POST : list Z :=
  ln "POST /RPC2 HTTP/1.1" ++ ln "Host: " ++ ln "Accept-Encoding: " ++ ln "User-Agent: " ++ ln "Content-Type: " ++
  ln "Content-Length: %u" ++ [10].
Definition MROS_PACKET_FMT_HTTP_OK : list Z :=
  ln "HTTP/1.1 200 OK" ++ ln "Host: " ++ ln "Accept-Encoding: " ++ ln "User-Agent: " ++ ln "Content-Type: " ++
  ln "Content-Length: %u" ++ [10].
Definition MROS_PACKET_XMLRPC_REQ_END_STR : list Z := str_of "</methodCall>".
Definition MROS_PACKET_XMLRPC_RES_END_STR : list Z := str_of "</methodResponse>".

Definition xml_param : list Z := ln "<param>" ++ ln "<value>%s</value>" ++ ln "</param>".
Definition MROS_PACKET_FMT_XML_REGISTER_REQ : list Z :=
  ln "<?xml version='1.0'?>" ++ ln "<methodCall>" ++ ln "<methodName>%s</methodName>" ++ ln "<params>" ++
  xml_param ++ xml_param ++ xml_param ++ xml_param ++ str_of "</params>" ++ ln "</methodCall>".
Definition MROS_PACKET_FMT_XML_REQUEST_TOPIC_REQ : list Z :=
  ln "<?xml version='1.0'?>" ++ ln "<methodCall>" ++ ln "<methodName>%s</methodName>" ++ ln "<params>" ++
  xml_param ++ xml_param ++ ln "<param>" ++ str_of "<value>" ++ ln "<array>" ++ str_of "<data>" ++ str_of "<value>" ++
  ln "<array>" ++ str_of "<data>" ++ str_of "<value>%s</value>" ++ ln "</data>" ++ str_of "</array>" ++ str_of "</value>" ++
  ln "</data>" ++ str_of "</array>" ++ ln "</value>" ++ ln "</param>" ++ str_of "</params>" ++ ln "</methodCall>".
Definition MROS_PACKET_FMT_XML_REQUEST_TOPIC_RES : list Z :=
  ln "<?xml version='1.0'?>" ++ ln "<methodResponse>" ++ ln "<params>" ++ ln "<param>" ++ str_of "<value>" ++
  str_of "<array>" ++ str_of "<data>" ++ str_of "<value>" ++ str_of "<i4>1</i4>" ++ ln "</value>" ++
  ln "<value></value>" ++ str_of "<value>" ++ ln "<array>" ++ str_of "<data>" ++ ln "<value>%s</value>" ++
  ln "<value>%s</value>" ++ ln "<value><i4>%u</i4></value>" ++ str_of "</data>" ++ str_of "</array>" ++ ln "</value>" ++
  str_of "</data>" ++ str_of "</array>" ++ str_of "</value>" ++ ln "</param>" ++ ln "</params>" ++ ln "</methodResponse>".

Definition MROS_PACKET_FMT_TCPROS_CALLER_ID : list Z := str_of "callerid=%s".
Definition MROS_PACKET_FMT_TCPROS_TOPIC : list Z := str_of "topic=%s".
Definition MROS_PACKET_FMT_TCPROS_TYPE : list Z := str_of "type=%s".
Definition MROS_PACKET_FMT_TCPROS_MD5SUM : list Z := str_of "md5sum=%s".
Definition MROS_PACKET_FMT_TCPROS_TCPNODELAY : list Z := str_of "tcp_nodelay=%s".
Definition MROS_PACKET_FMT_TCPROS_TOPIC_REQ : list Z :=
  str_of "SIZE" ++ str_of "SIZE" ++ str_of "callerid=%s" ++ str_of "SIZE" ++ str_of "tcp_nodelay=1" ++
  str_of "SIZE" ++ str_of "topic=%s" ++ str_of "SIZE" ++ str_of "type=%s" ++ str_of "SIZE" ++ str_of "md5sum=%s".
Definition MROS_PACKET_FMT_TCPROS_TOPIC_RES : list Z :=
  str_of "SIZE" ++ str_of "SIZE" ++ str_of "callerid=%s" ++
  str_of "SIZE" ++ str_of "topic=%s" ++ str_of "SIZE" ++ str_of "type=%s" ++ str_of "SIZE" ++ str_of "md5sum=%s".

(** [printf] with the conversions that the templates use: each takes the next argument, whose
    text is given. *)
Fixpoint format (fmt : list Z) (args : list (list Z)) : list Z :=
  match fmt with
  | 37 :: 115 :: fmt => default [] (head args) ++ format fmt (tail args)
  | 37 :: 117 :: fmt => default [] (head args) ++ format fmt (tail args)
  | c :: fmt => c :: format fmt args
  | [] => []
  end.
(** [snprintf(&packet->data[0], packet->total_size, ...)]: the length is that of the whole text. *)
Definition snprintf (p : mRosPacketType) (text : list Z) : outcome (mRosPacketType * Z) :=
  if total_size p =? 0 then Ok (p, u32 (zlen text))
  else d ← memcpy_at (data p) 0 (take (Z.to_nat (total_size p - 1)) text ++ [0]); Ok (set_data d p, u32 (zlen text)).

(** ** Encoder *)

Definition add_len (p : mRosPacketType) (off len : Z) : outcome mRosPacketType :=
  d ← memcpy_at (data p) off (le_bytes 4 len); Ok (set_data d p).

Fixpoint digit_loop (fuel : nat) (value digit : Z) : Z :=
  match fuel with
  | O => digit
  | S fuel => if value =? 0 then digit else digit_loop fuel (value / 10) (digit + 1)
  end.
(** A [uint32] has ten digits at most. *)
Definition get_digit (value : Z) : Z := digit_loop 10 value 0.
Definition get_arglen (a : mRosEncodeArgType) : Z :=
  u32 (foldl (λ l s, l + zlen s + 1) 0 (argv a) + foldl (λ l v, l + get_digit v + 1) 0 (argi a)).

(** The entry of [mros_xml_fmt_table] after [mros_packet_encoder_init]: the answer to a topic
    request has none. *)
Definition xml_fmt_len (type : mRosPacketDataEnumType) : Z :=
  match type with
  | MROS_PACKET_DATA_REGISTER_PUBLISHER_REQ | MROS_PACKET_DATA_REGISTER_SUBSCRIBER_REQ => zlen MROS_PACKET_FMT_XML_REGISTER_REQ + 1
  | MROS_PACKET_DATA_REQUEST_TOPIC_REQ => zlen MROS_PACKET_FMT_XML_REQUEST_TOPIC_REQ + 1
  | _ => 0
  end.
(** That of [mros_http_post_fmt], which the answer uses as well. *)
Definition http_fmt_len : Z := zlen MROS_PACKET_FMT_HTTP_POST + 1.

(** An XML text, first alone for its length, then behind its HTTP header. *)
Definition encode_xml (http xml : list Z) (args : outcome (list (list Z))) (a : mRosEncodeArgType) (p : mRosPacketType) : outcome (Z * mRosPacketType) :=
  let len := u32 (get_arglen a + http_fmt_len + xml_fmt_len (arg_type a)) in
  if total_size p <? len then Ok (MROS_E_NOMEM, p)
  else
    args ← args;
    '(p, xml_len) ← snprintf p (format xml args);
    '(p, n) ← snprintf p (format (http ++ xml) (print_dec xml_len :: args));
    Ok (MROS_E_OK, set_data_size n p).
(** The first [n] strings; the array has five elements, those not given are wild. *)
Definition args_of (n : nat) (a : mRosEncodeArgType) : outcome (list (list Z)) :=
  if (n <=? length (argv a))%nat then Ok (take n (argv a)) else Fault OutOfBounds.

Definition encode_register_publisher_req (a : mRosEncodeArgType) (p : mRosPacketType) : outcome (Z * mRosPacketType) :=
  encode_xml MROS_PACKET_FMT_HTTP_POST MROS_PACKET_FMT_XML_REGISTER_REQ (args_of 5 a) a p.
Definition encode_register_subscriber_req (a : mRosEncodeArgType) (p : mRosPacketType) : outcome (Z * mRosPacketType) :=
  encode_xml MROS_PACKET_FMT_HTTP_POST MROS_PACKET_FMT_XML_REGISTER_REQ (args_of 5 a) a p.
Definition encode_request_topic_req (a : mRosEncodeArgType) (p : mRosPacketType) : outcome (Z * mRosPacketType) :=
  encode_xml MROS_PACKET_FMT_HTTP_POST MROS_PACKET_FMT_XML_REQUEST_TOPIC_REQ (args_of 4 a) a p.
Definition encode_request_topic_res (a : mRosEncodeArgType) (p : mRosPacketType) : outcome (Z * mRosPacketType) :=
  encode_xml MROS_PACKET_FMT_HTTP_OK MROS_PACKET_FMT_XML_REQUEST_TOPIC_RES
    (args ← args_of 2 a; port ← oob (argi a !! 0%nat); Ok (args ++ [print_dec port])) a p.

(** The fields written over the text, each behind the one before. *)
Fixpoint add_lens (off : Z) (lens : list Z) (p : mRosPacketType) : outcome mRosPacketType :=
  match lens with
  | [] => Ok p
  | len :: lens => p ← add_len p off len; add_lens (off + 4 + len) lens p
  end.
(** The texts of the fields are printed one by one for their lengths, then all of them. *)
Fixpoint print_lens (texts : list (list Z)) (p : mRosPacketType) : outcome (list Z * mRosPacketType) :=
  match texts with
  | [] => Ok ([], p)
  | t :: texts => '(p, n) ← snprintf p t; '(ns, p) ← print_lens texts p; Ok (n :: ns, p)
  end.
Definition encode_tcpros (fmt : list Z) (fields : list (list Z) → list (list Z)) (a : mRosEncodeArgType) (p : mRosPacketType) : outcome (Z * mRosPacketType) :=
  let len := u32 (get_arglen a + (zlen fmt + 1)) in
  if total_size p <? len then Ok (MROS_E_NOMEM, p)
  else
    args ← args_of 4 a;
    '(lens, p) ← print_lens (fields args) p;
    '(p, n) ← snprintf p (format fmt args);
    let p := set_data_size n p in
    p ← add_len p 0 (u32 (n - 4));
    p ← add_lens 4 lens p;
    Ok (MROS_E_OK, p).
Definition req_fields (args : list (list Z)) : list (list Z) :=
  [format MROS_PACKET_FMT_TCPROS_CALLER_ID args; format MROS_PACKET_FMT_TCPROS_TCPNODELAY [str_of "1"];
   format MROS_PACKET_FMT_TCPROS_TOPIC (drop 1 args); format MROS_PACKET_FMT_TCPROS_TYPE (drop 2 args);
   format MROS_PACKET_FMT_TCPROS_MD5SUM (drop 3 args)].
Definition res_fields (args : list (list Z)) : list (list Z) :=
  [format MROS_PACKET_FMT_TCPROS_CALLER_ID args; format MROS_PACKET_FMT_TCPROS_TOPIC (drop 1 args);
   format MROS_PACKET_FMT_TCPROS_TYPE (drop 2 args); format MROS_PACKET_FMT_TCPROS_MD5SUM (drop 3 args)].
Definition encode_tcpros_topic_req (a : mRosEncodeArgType) (p : mRosPacketType) : outcome (Z * mRosPacketType) :=
  encode_tcpros MROS_PACKET_FMT_TCPROS_TOPIC_REQ req_fields a p.
Definition encode_tcpros_topic_res (a : mRosEncodeArgType) (p : mRosPacketType) : outcome (Z * mRosPacketType) :=
  encode_tcpros MROS_PACKET_FMT_TCPROS_TOPIC_RES res_fields a p.

Definition encode_topic_data (a : mRosEncodeArgType) (p : mRosPacketType) : outcome (Z * mRosPacketType) :=
  if total_size p <? MROS_TOPIC_HEADER_SIZE then Ok (MROS_E_NOMEM, p)
  else
    n ← oob (argi a !! 0%nat);
    p ← add_len p 0 (u32 (n - MROS_TOPIC_HEADER_SIZE));
    Ok (MROS_E_OK, set_data_size MROS_TOPIC_HEADER_SIZE p).

Definition mros_packet_encode (a : mRosEncodeArgType) (p : mRosPacketType) : outcome (Z * mRosPacketType) :=
  match arg_type a with
  | MROS_PACKET_DATA_NUM => Ok (MROS_E_RANGE, p)
  | MROS_PACKET_DATA_PUBLISHER_UPDATE_REQ => Ok (MROS_E_INVAL, p)
  | MROS_PACKET_DATA_REGISTER_PUBLISHER_REQ => encode_register_publisher_req a p
  | MROS_PACKET_DATA_REGISTER_SUBSCRIBER_REQ => encode_register_subscriber_req a p
  | MROS_PACKET_DATA_REQUEST_TOPIC_REQ => encode_request_topic_req a p
  | MROS_PACKET_DATA_REQUEST_TOPIC_RES => encode_request_topic_res a p
  | MROS_PACKET_DATA_TCPROS_TOPIC_REQ => encode_tcpros_topic_req a p
  | MROS_PACKET_DATA_TCPROS_TOPIC_RES => encode_tcpros_topic_res a p
  | MROS_PACKET_DATA_TOPIC => encode_topic_data a p
  end.

(** ** Searching in a buffer *)

(** [!strncmp(a, key, strlen(key))]. *)
Fixpoint prefix_at (a key : list Z) : outcome bool :=
  match key with
  | [] => Ok true
  | k :: key =>
      match a with
      | [] => Fault OutOfBounds
      | c :: a => if c =? k then prefix_at a key else Ok false
      end
  end.
(** [strstr]: the offset in the buffer of which [a] is the rest from [off]. *)
Fixpoint strstr_from (a : list Z) (off : Z) (key : list Z) : outcome (option Z) :=
  b ← prefix_at a key;
  if (b : bool) then Ok (Some off)
  else match a with
       | [] => Fault OutOfBounds
       | c :: a => if c =? 0 then Ok None else strstr_from a (off + 1) key
       end.
Definition strstr (d : list Z) (off : Z) (key : list Z) : outcome (option Z) := strstr_from (drop (Z.to_nat off) d) off key.
Definition find_string_after (d : list Z) (off : Z) (key : list Z) : outcome (option Z) :=
  r ← strstr d off key; Ok (option_map (λ p, p + zlen key) r).
(** The string at an offset. *)
Definition string_at (d : list Z) (off : Z) : outcome (list Z) := string_in (drop (Z.to_nat off) d).
Definition byte_at (d : list Z) (off : Z) : outcome Z := oob (zget d off).

Definition PORT_MAX_STR_LEN : Z := 6.
Definition MROS_PACKET_HTT_OK_CODE_LEN : Z := 3.
Definition MROS_PACKET_HTT_OK_CODE : list Z := str_of "200".

(** ** XML *)

Definition s32_of (v : Z) : Z := let x := u32 v in if x <? 2 ^ 31 then x else x - 2 ^ 32.

(** The end of a message, from the last place where it fits, not at the very start. *)
Fixpoint end_loop (fuel : nat) (d : list Z) (off : Z) (key : list Z) : outcome bool :=
  match fuel with
  | O => Ok false
  | S fuel =>
      if negb (0 <? off) then Ok false
      else b ← prefix_at (drop (Z.to_nat off) d) key; if (b : bool) then Ok true else end_loop fuel d (off - 1) key
  end.
Definition has_end (p : mRosPacketType) (key : list Z) : outcome bool :=
  if data_size p <=? zlen key then Ok false
  else let off := s32_of (data_size p - zlen key) in end_loop (Z.to_nat off) (data p) off key.
Definition mros_xmlpacket_has_request_end (p : mRosPacketType) : outcome bool := has_end p MROS_PACKET_XMLRPC_REQ_END_STR.
Definition mros_xmlpacket_has_response_end (p : mRosPacketType) : outcome bool := has_end p MROS_PACKET_XMLRPC_RES_END_STR.

(** Without a second space the length is that of NULL minus a pointer, and not three. *)
Definition mros_xmlpacket_result (p : mRosPacketType) : outcome Z :=
  h ← find_string_after (data p) 0 (str_of "HTTP/");
  match h with
  | None => Ok MROS_E_INVAL
  | Some h =>
      h ← find_string_after (data p) h (str_of " ");
      match h with
      | None => Ok MROS_E_INVAL
      | Some h =>
          t ← strstr (data p) h (str_of " ");
          match t with
          | None => Ok MROS_E_INVAL
          | Some t =>
              if negb (t - h =? MROS_PACKET_HTT_OK_CODE_LEN) then Ok MROS_E_INVAL
              else b ← prefix_at (drop (Z.to_nat h) (data p)) MROS_PACKET_HTT_OK_CODE; Ok (if (b : bool) then MROS_E_OK else MROS_E_INVAL)
          end
      end
  end.
Definition mros_xmlpacket_pubres_result (p : mRosPacketType) : outcome Z := mros_xmlpacket_result p.
Definition mros_xmlpacket_subres_result (p : mRosPacketType) : outcome Z := mros_xmlpacket_result p.
Definition mros_xmlpacket_reqtopicres_result (p : mRosPacketType) : outcome Z := mros_xmlpacket_result p.

(** What lies between a key and the next "<": where it begins and ends. *)
Record mRosPacketMemberInfoType := mkMember { m_head : Z; m_tail : Z; m_len : Z }.
Definition mros_xmlpacket_get_member_info (d : list Z) (off : Z) (key : list Z) : outcome (option mRosPacketMemberInfoType) :=
  h ← find_string_after d off key;
  match h with
  | None => Ok None
  | Some h =>
      t ← strstr d h (str_of "<");
      Ok (option_map (λ t, mkMember h t (u32 (t - h))) t)
  end.

Definition REQTOPIC_VALUE_TAG_START_NOSTRING : list Z := str_of "<value>".
Definition REQTOPIC_VALUE_TAG_START : list Z := str_of "<value><string>".

Definition mros_xmlpacket_slave_request_get_method (p : mRosPacketType) : outcome (mRosPacketDataEnumType * option mRosPacketMemberInfoType) :=
  m ← mros_xmlpacket_get_member_info (data p) 0 (str_of "<methodName>");
  match m with
  | None => Ok (MROS_PACKET_DATA_NUM, None)
  | Some m =>
      let text := drop (Z.to_nat (m_head m)) (data p) in
      is_req ← (if zlen (str_of "requestTopic") =? m_len m then prefix_at text (str_of "requestTopic") else Ok false);
      if (is_req : bool) then Ok (MROS_PACKET_DATA_REQUEST_TOPIC_REQ, Some m)
      else
        is_up ← (if zlen (str_of "publisherUpdate") =? m_len m then prefix_at text (str_of "publisherUpdate") else Ok false);
        if (is_up : bool) then Ok (MROS_PACKET_DATA_PUBLISHER_UPDATE_REQ, Some m) else Ok (MROS_PACKET_DATA_NUM, Some m)
  end.

(** The two members that follow the method: those of both requests lie at the same place. *)
Definition decode_members (p : mRosPacketType) (method : mRosPacketMemberInfoType) : outcome (option (mRosPacketMemberInfoType * mRosPacketMemberInfoType)) :=
  has_string ← find_string_after (data p) 0 REQTOPIC_VALUE_TAG_START;
  let key := match has_string with Some _ => REQTOPIC_VALUE_TAG_START | None => REQTOPIC_VALUE_TAG_START_NOSTRING end in
  node ← mros_xmlpacket_get_member_info (data p) (m_tail method) key;
  match node with
  | None => Ok None
  | Some node =>
      topic ← mros_xmlpacket_get_member_info (data p) (m_tail node) key;
      Ok (option_map (λ t, (node, t)) topic)
  end.
Definition mros_xmlpacket_request_topic_req_decode := decode_members.
Definition mros_xmlpacket_publisher_update_req_decode := decode_members.

(** The type of the request with its members: the name of the caller and of the topic. *)
Definition mros_xmlpacket_slave_request_decode (p : mRosPacketType) : outcome (mRosPacketDataEnumType * option (mRosPacketMemberInfoType * mRosPacketMemberInfoType)) :=
  '(type, method) ← mros_xmlpacket_slave_request_get_method p;
  match type, method with
  | MROS_PACKET_DATA_REQUEST_TOPIC_REQ, Some m =>
      r ← mros_xmlpacket_request_topic_req_decode p m; Ok (match r with Some _ => type | None => MROS_PACKET_DATA_NUM end, r)
  | MROS_PACKET_DATA_PUBLISHER_UPDATE_REQ, Some m =>
      r ← mros_xmlpacket_publisher_update_req_decode p m; Ok (match r with Some _ => type | None => MROS_PACKET_DATA_NUM end, r)
  | _, _ => Ok (MROS_PACKET_DATA_NUM, None)
  end.

Section uri.
(** [mros_comm_inet_get_ipaddr]: the address of a host, if it has one. *)
Variable get_ipaddr : list Z → option Z.

(** A NUL behind the digits, and their value. *)
Definition port_at (d : list Z) (head len : Z) : outcome (list Z * Z) :=
  d ← put_char d (head + len - 1) 0;
  s ← string_at d head;
  Ok (d, s32_of (strtol s).1.1).

(** "http://host:port/" or "http://host:port</": where it ended, the buffer with the NULs that
    end the host and the port, and both.  Without a slash the length is that of NULL minus a
    pointer. *)
Definition mros_xmlpacket_get_first_uri (d : list Z) (off : Z) : outcome (list Z * option (Z * Z * Z)) :=
  h ← find_string_after d off (str_of "http://");
  match h with
  | None => Ok (d, None)
  | Some h =>
      t ← find_string_after d h (str_of ":");
      match t with
      | None => Ok (d, None)
      | Some t =>
          d ← put_char d (t - 1) 0;
          host ← string_at d h;
          match get_ipaddr host with
          | None => Ok (d, None)
          | Some ip =>
              e ← strstr d t (str_of "/");
              match e with
              | None => Fault OutOfBounds
              | Some e =>
                  b ← byte_at d (e - 1);
                  let len := if b =? 60 then e - t else e - t + 1 in
                  if PORT_MAX_STR_LEN <? u32 len then Ok (d, None)
                  else '(d, port) ← port_at d t len; Ok (d, Some (e, ip, port))
              end
          end
      end
  end.
Definition mros_xmlpacket_subres_get_first_uri (p : mRosPacketType) := mros_xmlpacket_get_first_uri (data p) 0.
Definition mros_xmlpacket_subres_get_next_uri (ptr : Z) (d : list Z) := mros_xmlpacket_get_first_uri d ptr.
Definition mros_xmlpacket_pubupreq_get_first_uri (d : list Z) (off : Z) := mros_xmlpacket_get_first_uri d off.
Definition mros_xmlpacket_pubupreq_get_next_uri (ptr : Z) (d : list Z) := mros_xmlpacket_get_first_uri d ptr.

(** Either of two keys. *)
Definition find_either (d : list Z) (off : Z) (key1 key2 : list Z) : outcome (option Z) :=
  r ← find_string_after d off key1;
  match r with Some p => Ok (Some p) | None => find_string_after d off key2 end.

(** The host and the port in the values that follow "TCPROS".  Without a "<" behind the port
    the length is that of NULL minus a pointer, which is too long. *)
Definition mros_xmlpacket_reqtopicres_get_uri (d : list Z) (off : Z) : outcome (list Z * option (Z * Z * Z)) :=
  h ← find_string_after d off (str_of "<array>");
  match h with
  | None => Ok (d, None)
  | Some h =>
  h ← find_string_after d h (str_of "<array>");
  match h with
  | None => Ok (d, None)
  | Some h =>
  h ← find_string_after d h (str_of "</value>");
  match h with
  | None => Ok (d, None)
  | Some h =>
  h ← find_either d h (str_of "<value><string>") (str_of "<value>");
  match h with
  | None => Ok (d, None)
  | Some h =>
      t ← strstr d h (str_of "<");
      match t with
      | None => Fault OutOfBounds
      | Some t =>
          d ← put_char d t 0;
          host ← string_at d h;
          match get_ipaddr host with
          | None => Ok (d, None)
          | Some ip =>
              p ← find_either d (t + 1) (str_of "<value><int>") (str_of "<value><i4>");
              match p with
              | None => Ok (d, None)
              | Some p =>
                  e ← strstr d p (str_of "<");
                  match e with
                  | None => Ok (d, None)
                  | Some e =>
                      let len := e - p + 1 in
                      if PORT_MAX_STR_LEN <? u32 len then Ok (d, None)
                      else '(d, port) ← port_at d p len; Ok (d, Some (e, ip, port))
                  end
              end
          end
      end
  end end end end.
Definition mros_xmlpacket_reqtopicres_get_first_uri (p : mRosPacketType) := mros_xmlpacket_reqtopicres_get_uri (data p) 0.
Definition mros_xmlpacket_reqtopicres_get_next_uri (ptr : Z) (d : list Z) := mros_xmlpacket_reqtopicres_get_uri d ptr.
End uri.

(** ** TCPROS *)

Definition get_body_size (p : mRosPacketType) : outcome Z := b ← oob (bytes_at (data p) 0 4); Ok (le_val b).
Definition mros_tcprospacket_get_body_size := get_body_size.
Definition mros_topicpacket_get_body_size := get_body_size.

(** A field: where its value begins, and its length. *)
Record mRosTcpRosPacketType := mkTcpRos {
  callerid : option (Z * Z); tcp_nodely : option (Z * Z); topic : option (Z * Z); type : option (Z * Z); md5sum_ : option (Z * Z) }.
Definition tcpros_none : mRosTcpRosPacketType := mkTcpRos None None None None None.

(** The value behind a key, when the entry at [off] begins with it. *)
Definition field_at (d : list Z) (off entrylen : Z) (key : list Z) (old : option (Z * Z)) : outcome (option (Z * Z)) :=
  b ← prefix_at (drop (Z.to_nat off) d) key;
  Ok (if (b : bool) then Some (off + zlen key, u16 (entrylen - zlen key)) else old).
Definition decode_entry (d : list Z) (off entrylen : Z) (r : mRosTcpRosPacketType) : outcome mRosTcpRosPacketType :=
  c ← field_at d off entrylen (str_of "callerid=") (callerid r);
  m ← field_at d off entrylen (str_of "md5sum=") (md5sum_ r);
  n ← field_at d off entrylen (str_of "tcp_nodely=") (tcp_nodely r);
  t ← field_at d off entrylen (str_of "topic=") (topic r);
  y ← field_at d off entrylen (str_of "type=") (type r);
  Ok (mkTcpRos c n t y m).
Fixpoint decode_loop (fuel : nat) (d : list Z) (len off : Z) (r : mRosTcpRosPacketType) : outcome mRosTcpRosPacketType :=
  if negb (off <? len) then Ok r
  else match fuel with
  | O => Fault Hang
  | S fuel =>
      b ← oob (bytes_at d off 4);
      let entrylen := le_val b in
      let off := u32 (off + 4) in
      if len <=? off then Ok r
      else r ← decode_entry d off entrylen r; decode_loop fuel d len (u32 (off + entrylen)) r
  end.
Definition terminate (f : option (Z * Z)) (d : list Z) : outcome (list Z) :=
  match f with Some (p, n) => put_char d (p + n) 0 | None => Ok d end.
Definition terminate_all (r : mRosTcpRosPacketType) (d : list Z) : outcome (list Z) :=
  d ← terminate (callerid r) d; d ← terminate (md5sum_ r) d; d ← terminate (tcp_nodely r) d; d ← terminate (topic r) d; terminate (type r) d.
(** Offsets repeat only in a loop that does not end: [fuel] is the number of offsets. *)
Definition mros_tcprospacket_decode (p : mRosPacketType) : outcome (mRosPacketType * mRosTcpRosPacketType) :=
  r ← decode_loop (S (Z.to_nat (data_size p))) (data p) (data_size p) 0 tcpros_none;
  d ← terminate_all r (data p);
  Ok (set_data d p, r).
