(* ===== verification/MrosPacketFacts.v ===== *)
(** * Packets: facts

    The header of a TCPROS connection that is encoded is decoded to the same names
    ([tcpros_header_roundtrip]), except that the key of "tcp_nodelay" is misspelt in the
    decoder and never found.  An entry whose length leads back to itself keeps the decoder
    going for ever ([decode_hangs]); a list of publishers gives its first address only
    ([second_uri_is_lost]); the answer to a request is measured without its text
    ([answer_exceeds_its_packet]). *)

From Stdlib Require Import String Ascii.
From S2P Require Import Prelude Token MrosTopic MrosTopicFacts MrosPacket.
Open Scope Z_scope.

(** ** Writing *)

Definition SIZE : list Z := str_of "SIZE".
Definition entry (f : list Z) : list Z := le_bytes 4 (zlen f) ++ f.
Definition entries_of (fs : list (list Z)) : list Z := concat (map entry fs).
Definition blank_of (fs : list (list Z)) : list Z := concat (map (app SIZE) fs).

Lemma add_lens_ok fs : ∀ ts n pre post, 
  add_lens (zlen pre) (map zlen fs) (mkPacket ts n (pre ++ blank_of fs ++ post)) = Ok (mkPacket ts n (pre ++ entries_of fs ++ post)).
Proof.
  induction fs as [|f fs IH]; intros ts n pre post; [done|]. cbn [map add_lens]. unfold add_len. cbn [data].
  unfold blank_of. cbn [map concat]. fold (blank_of fs). rewrite <- !app_assoc.
  rewrite (memcpy_ok pre SIZE _ (le_bytes 4 (zlen f))) by done. cbn [mbind outcome_bind]. unfold set_data. cbn [total_size data_size].
  replace (zlen pre + 4 + zlen f) with (zlen (pre ++ le_bytes 4 (zlen f) ++ f)) by (rewrite !zlen_app, le_bytes_len; lia).
  assert (E : pre ++ le_bytes 4 (zlen f) ++ f ++ blank_of fs ++ post = (pre ++ le_bytes 4 (zlen f) ++ f) ++ blank_of fs ++ post) by by rewrite <- !app_assoc.
  rewrite E, IH. unfold entries_of, entry. cbn [map concat]. by rewrite <- !app_assoc.
Qed.

Lemma snprintf_ok p text : zlen text < total_size p → total_size p = zlen (data p) → total_size p < 2 ^ 32 →
  ∃ rest, snprintf p text = Ok (mkPacket (total_size p) (data_size p) (text ++ 0 :: rest), zlen text) ∧ zlen (text ++ 0 :: rest) = zlen (data p).
Proof.
  intros Hl Ht Hb. unfold snprintf. pose proof (zlen_nonneg text). destruct (Z.eqb_spec (total_size p) 0); [lia|].
  rewrite take_ge by (unfold zlen in *; lia).
  rewrite memcpy_prefix by (rewrite zlen_app; change (zlen [0]) with 1; lia). cbn [mbind outcome_bind].
  exists (drop (length (text ++ [0])) (data p)). split.
  - unfold set_data, u32, wrap. rewrite <- app_assoc, Z.mod_small by lia. done.
  - rewrite zlen_app. unfold zlen in *. cbn [length]. rewrite length_drop, length_app in *. cbn [length]. lia.
Qed.

Lemma print_lens_ok ts p : Forall (λ t, zlen t < total_size p) ts → total_size p = zlen (data p) → total_size p < 2 ^ 32 →
  ∃ d, print_lens ts p = Ok (map zlen ts, mkPacket (total_size p) (data_size p) d) ∧ zlen d = zlen (data p).
Proof.
  intros H. revert p H. induction ts as [|t ts IH]; intros p H Ht Hb.
  - exists (data p). by destruct p.
  - apply Forall_cons in H as [H1 H2]. cbn [print_lens]. destruct (snprintf_ok p t H1 Ht Hb) as (rest & -> & Hl). cbn [mbind outcome_bind].
    destruct (IH (mkPacket (total_size p) (data_size p) (t ++ 0 :: rest)) H2) as (d & -> & Hd); [cbn; congruence|exact Hb|]. cbn [mbind outcome_bind total_size data_size].
    exists d. split; [done|]. cbn [data] in Hd. congruence.
Qed.

(** The templates and keys as the lists that they are. *)
Ltac literal c := let v := eval vm_compute in c in change c with v.
Lemma req_text c t y m : format MROS_PACKET_FMT_TCPROS_TOPIC_REQ [c; t; y; m] = SIZE ++ blank_of (req_fields [c; t; y; m]).
Proof.
  unfold req_fields, blank_of. literal SIZE. literal MROS_PACKET_FMT_TCPROS_TOPIC_REQ. literal MROS_PACKET_FMT_TCPROS_CALLER_ID.
  literal MROS_PACKET_FMT_TCPROS_TCPNODELAY. literal MROS_PACKET_FMT_TCPROS_TOPIC. literal MROS_PACKET_FMT_TCPROS_TYPE. literal MROS_PACKET_FMT_TCPROS_MD5SUM.
  literal (str_of "1"). cbn [format head tail default from_option id app drop map concat]. rewrite !app_nil_r. done.
Qed.
Lemma req_fields_eq c t y m : req_fields [c; t; y; m] =
  [str_of "callerid=" ++ c; str_of "tcp_nodelay=1"; str_of "topic=" ++ t; str_of "type=" ++ y; str_of "md5sum=" ++ m].
Proof.
  unfold req_fields. literal MROS_PACKET_FMT_TCPROS_CALLER_ID. literal MROS_PACKET_FMT_TCPROS_TCPNODELAY. literal MROS_PACKET_FMT_TCPROS_TOPIC.
  literal MROS_PACKET_FMT_TCPROS_TYPE. literal MROS_PACKET_FMT_TCPROS_MD5SUM. literal (str_of "1"). literal (str_of "callerid="). literal (str_of "tcp_nodelay=1").
  literal (str_of "topic="). literal (str_of "type="). literal (str_of "md5sum="). cbn [format head tail default from_option id app drop map]. rewrite !app_nil_r. done.
Qed.

Lemma zlen_entries fs : zlen (entries_of fs) = foldr (λ f n, 4 + zlen f + n) 0 fs.
Proof. induction fs as [|f fs IH]; [done|]. unfold entries_of in *. cbn [map concat foldr]. rewrite zlen_app, IH. unfold entry. rewrite zlen_app, le_bytes_len. lia. Qed.
Lemma zlen_blank fs : zlen (blank_of fs) = zlen (entries_of fs).
Proof.
  induction fs as [|f fs IH]; [done|]. unfold blank_of, entries_of in *. cbn [map concat]. rewrite !zlen_app, IH. unfold entry.
  rewrite zlen_app, le_bytes_len. change (zlen SIZE) with 4. lia.
Qed.

Definition req_arg (c t y m : list Z) : mRosEncodeArgType := mkArg MROS_PACKET_DATA_TCPROS_TOPIC_REQ [c; t; y; m] [].
(** What the guard of the encoder asks for, without the wrap. *)
Definition req_room (c t y m : list Z) : Z := zlen c + zlen t + zlen y + zlen m + 4 + zlen MROS_PACKET_FMT_TCPROS_TOPIC_REQ + 1.

Lemma zlen_req c t y m : zlen (entries_of (req_fields [c; t; y; m])) = zlen c + zlen t + zlen y + zlen m + 60.
Proof.
  rewrite req_fields_eq, zlen_entries. cbn [foldr]. rewrite !zlen_app.
  change (zlen (str_of "callerid=")) with 9. change (zlen (str_of "tcp_nodelay=1")) with 13. change (zlen (str_of "topic=")) with 6.
  change (zlen (str_of "type=")) with 5. change (zlen (str_of "md5sum=")) with 7. lia.
Qed.

Lemma encode_req_ok c t y m p : req_room c t y m ≤ total_size p → total_size p = zlen (data p) → total_size p < 2 ^ 32 →
  let body := entries_of (req_fields [c; t; y; m]) in
  ∃ rest, mros_packet_encode (req_arg c t y m) p = Ok (MROS_E_OK, mkPacket (total_size p) (4 + zlen body) (le_bytes 4 (zlen body) ++ body ++ 0 :: rest)).
Proof.
  intros Hr Ht Hb body. unfold req_room in Hr. change (zlen MROS_PACKET_FMT_TCPROS_TOPIC_REQ) with 72 in Hr.
  pose proof (zlen_nonneg c). pose proof (zlen_nonneg t). pose proof (zlen_nonneg y). pose proof (zlen_nonneg m).
  unfold mros_packet_encode, req_arg. cbn [arg_type]. unfold encode_tcpros_topic_req, encode_tcpros, get_arglen. cbn [argv argi foldl].
  change (zlen MROS_PACKET_FMT_TCPROS_TOPIC_REQ) with 72.
  assert (Ea : u32 (0 + zlen c + 1 + zlen t + 1 + zlen y + 1 + zlen m + 1 + 0) = zlen c + zlen t + zlen y + zlen m + 4) by (unfold u32, wrap; rewrite Z.mod_small; lia).
  rewrite Ea. assert (Eb : u32 (zlen c + zlen t + zlen y + zlen m + 4 + (72 + 1)) = zlen c + zlen t + zlen y + zlen m + 77) by (unfold u32, wrap; rewrite Z.mod_small; lia).
  rewrite Eb. replace (total_size p <? zlen c + zlen t + zlen y + zlen m + 77) with false by lia.
  unfold args_of. cbn [argv length Nat.leb take]. cbn [mbind outcome_bind].
  pose proof (zlen_req c t y m) as Hz. fold body in Hz.
  assert (Hfs : Forall (λ f, zlen f < total_size p) (req_fields [c; t; y; m])).
  { rewrite req_fields_eq. repeat (apply Forall_cons; split); [..|apply Forall_nil; done]; rewrite ?zlen_app;
      rewrite ?(eq_refl : zlen (str_of "callerid=") = 9), ?(eq_refl : zlen (str_of "tcp_nodelay=1") = 13), ?(eq_refl : zlen (str_of "topic=") = 6),
        ?(eq_refl : zlen (str_of "type=") = 5), ?(eq_refl : zlen (str_of "md5sum=") = 7); lia. }
  destruct (print_lens_ok _ p Hfs Ht Hb) as (d1 & -> & Hd1). cbn [mbind outcome_bind].
  rewrite req_text. set (p1 := mkPacket _ _ d1).
  assert (Htext : zlen (SIZE ++ blank_of (req_fields [c; t; y; m])) = 4 + zlen body) by (rewrite zlen_app, zlen_blank; done).
  set (text := SIZE ++ blank_of (req_fields [c; t; y; m])) in *.
  assert (Hs1 : zlen text < total_size p1) by (rewrite Htext; change (total_size p1) with (total_size p); lia).
  assert (Hs2 : total_size p1 = zlen (data p1)) by (change (total_size p1) with (total_size p); change (data p1) with d1; lia).
  destruct (snprintf_ok p1 text Hs1 Hs2 Hb) as (rest & -> & _).
  rewrite Htext. cbn [mbind outcome_bind]. unfold p1, set_data_size, add_len. cbn [total_size data_size data].
  replace (4 + zlen body - 4) with (zlen body) by lia. assert (Eu : u32 (zlen body) = zlen body) by (unfold u32, wrap; rewrite Z.mod_small; lia). rewrite Eu.
  unfold text. rewrite <- app_assoc. rewrite (memcpy_ok [] SIZE (blank_of _ ++ 0 :: rest) (le_bytes 4 (zlen body)) eq_refl : memcpy_at (SIZE ++ _) 0 _ = _). cbn [mbind outcome_bind app]. unfold set_data. cbn [total_size data_size].
  pose proof (add_lens_ok (req_fields [c; t; y; m]) (total_size p) (4 + zlen body) (le_bytes 4 (zlen body)) (0 :: rest)) as El.
  rewrite le_bytes_len in El. change (Z.of_nat 4) with 4 in El. rewrite El. cbn [mbind outcome_bind]. exists rest. reflexivity.
Qed.

(** ** Reading *)

Lemma drop_zlen {A} (pre l : list A) : drop (Z.to_nat (zlen pre)) (pre ++ l) = l.
Proof. unfold zlen. rewrite Nat2Z.id. apply drop_app_length. Qed.

Lemma decode_step pre f post fuel len r : 0 < zlen f → zlen pre + 4 + zlen f ≤ len → len < 2 ^ 32 →
  let d := pre ++ entry f ++ post in
  decode_loop (S fuel) d len (zlen pre) r =
    r' ← decode_entry d (zlen (pre ++ le_bytes 4 (zlen f))) (zlen f) r; decode_loop fuel d len (zlen (pre ++ entry f)) r'.
Proof.
  intros Hf Hl Hb d. pose proof (zlen_nonneg pre). cbn [decode_loop]. replace (zlen pre <? len) with true by lia. cbn [negb].
  assert (Eb : bytes_at d (zlen pre) 4 = Some (le_bytes 4 (zlen f))).
  { unfold bytes_at, d, entry. rewrite !zlen_app, le_bytes_len. pose proof (zlen_nonneg post). replace (_ && _ && _) with true by lia.
    rewrite <- app_assoc, drop_zlen. done. }
  rewrite Eb. cbn [oob mbind outcome_bind]. rewrite le_val_bytes. rewrite (Z.mod_small (zlen f)) by (change (2 ^ (8 * Z.of_nat 4)) with (2 ^ 32); lia).
  assert (Eo : u32 (zlen pre + 4) = zlen (pre ++ le_bytes 4 (zlen f))) by (rewrite zlen_app, le_bytes_len; unfold u32, wrap; rewrite Z.mod_small; lia).
  rewrite Eo. destruct (Z.leb_spec len (zlen (pre ++ le_bytes 4 (zlen f)))) as [H1|H1]; [rewrite zlen_app, le_bytes_len in H1; lia|].
  assert (En : u32 (zlen (pre ++ le_bytes 4 (zlen f)) + zlen f) = zlen (pre ++ entry f)).
  { unfold entry. rewrite !zlen_app, le_bytes_len. unfold u32, wrap. rewrite Z.mod_small; lia. }
  by rewrite En.
Qed.

(** What the entries of a request leave in the record; none is one of "tcp_nodely=". *)
Ltac keys := literal (str_of "callerid="); literal (str_of "md5sum="); literal (str_of "tcp_nodely="); literal (str_of "topic="); literal (str_of "type=").
Lemma field_hit d off key v post n old : drop (Z.to_nat off) d = key ++ v ++ post → field_at d off n key old = Ok (Some (off + zlen key, u16 (n - zlen key))).
Proof.
  intros E. unfold field_at. rewrite E. assert (H : ∀ k l, prefix_at (k ++ l) k = Ok true).
  { induction k as [|c k IH]; intros l; [by destruct l|]. cbn [app prefix_at]. by rewrite Z.eqb_refl. }
  by rewrite H.
Qed.
Lemma field_miss d off key a n old : drop (Z.to_nat off) d = a → prefix_at a key = Ok false → field_at d off n key old = Ok old.
Proof. intros E H. unfold field_at. by rewrite E, H. Qed.

Ltac miss E k := rewrite (field_miss _ _ (str_of k) _ _ _ E) by (keys; literal (str_of "tcp_nodelay=1"); cbn [app prefix_at]; reflexivity); cbn [mbind outcome_bind].
Ltac hit E := rewrite (field_hit _ _ _ _ _ _ _ E); cbn [mbind outcome_bind].
Lemma entry_callerid d off v post n r : drop (Z.to_nat off) d = str_of "callerid=" ++ v ++ post →
  decode_entry d off n r = Ok (mkTcpRos (Some (off + 9, u16 (n - 9))) (tcp_nodely r) (topic r) (type r) (md5sum_ r)).
Proof. intros E. unfold decode_entry. hit E. miss E "md5sum="%string. miss E "tcp_nodely="%string. miss E "topic="%string. miss E "type="%string. done. Qed.
Lemma entry_md5sum d off v post n r : drop (Z.to_nat off) d = str_of "md5sum=" ++ v ++ post →
  decode_entry d off n r = Ok (mkTcpRos (callerid r) (tcp_nodely r) (topic r) (type r) (Some (off + 7, u16 (n - 7)))).
Proof. intros E. unfold decode_entry. miss E "callerid="%string. hit E. miss E "tcp_nodely="%string. miss E "topic="%string. miss E "type="%string. done. Qed.
Lemma entry_topic d off v post n r : drop (Z.to_nat off) d = str_of "topic=" ++ v ++ post →
  decode_entry d off n r = Ok (mkTcpRos (callerid r) (tcp_nodely r) (Some (off + 6, u16 (n - 6))) (type r) (md5sum_ r)).
Proof. intros E. unfold decode_entry. miss E "callerid="%string. miss E "md5sum="%string. miss E "tcp_nodely="%string. hit E. miss E "type="%string. done. Qed.
Lemma entry_type d off v post n r : drop (Z.to_nat off) d = str_of "type=" ++ v ++ post →
  decode_entry d off n r = Ok (mkTcpRos (callerid r) (tcp_nodely r) (topic r) (Some (off + 5, u16 (n - 5))) (md5sum_ r)).
Proof. intros E. unfold decode_entry. miss E "callerid="%string. miss E "md5sum="%string. miss E "tcp_nodely="%string. miss E "topic="%string. hit E. done. Qed.
Lemma entry_nodelay d off post n r : drop (Z.to_nat off) d = str_of "tcp_nodelay=1" ++ post → decode_entry d off n r = Ok r.
Proof.
  intros E. unfold decode_entry. miss E "callerid="%string. miss E "md5sum="%string. miss E "tcp_nodely="%string. miss E "topic="%string. miss E "type="%string.
  by destruct r.
Qed.

(** ** The strings that decoding leaves *)

Lemma terminate_ok a s x b : terminate (Some (zlen a, zlen s)) (a ++ s ++ x :: b) = Ok (a ++ s ++ 0 :: b).
Proof.
  unfold terminate, put_char. change (oob (bytes_set ?d ?o ?v)) with (memcpy_at d o v).
  rewrite <- zlen_app, (app_assoc a s). change (x :: b) with ([x] ++ b). rewrite (memcpy_ok (a ++ s) [x] b [0]) by done. by rewrite <- app_assoc.
Qed.
Lemma terminate_at a s x b d n : d = a ++ s ++ x :: b → n = zlen a → terminate (Some (n, zlen s)) d = Ok (a ++ s ++ 0 :: b).
Proof. intros -> ->. apply terminate_ok. Qed.
Lemma string_at_ok a s b d n : d = a ++ s ++ 0 :: b → n = zlen a → is_string s → string_at d n = Ok s.
Proof. intros -> -> Hs. unfold string_at. rewrite drop_zlen. by apply string_in_ok. Qed.

(** Four strings in a buffer, and the bytes between them. *)
Section terminates.
Context (P1 c : list Z) (n2 : Z) (T2 t : list Z) (n4 : Z) (T4 y : list Z) (n5 : Z) (T5 m : list Z) (z : Z) (rest : list Z).
Let P3 := P1 ++ c ++ n2 :: T2.
Let P4 := P3 ++ t ++ n4 :: T4.
Let P5 := P4 ++ y ++ n5 :: T5.
Definition found : mRosTcpRosPacketType :=
  mkTcpRos (Some (zlen P1, zlen c)) None (Some (zlen P3, zlen t)) (Some (zlen P4, zlen y)) (Some (zlen P5, zlen m)).
Lemma terminates_ok : ∃ d',
  terminate_all found (P5 ++ m ++ z :: rest) = Ok d' ∧
  (is_string c → string_at d' (zlen P1) = Ok c) ∧ (is_string t → string_at d' (zlen P3) = Ok t) ∧
  (is_string y → string_at d' (zlen P4) = Ok y) ∧ (is_string m → string_at d' (zlen P5) = Ok m).
Proof using Type.
  unfold terminate_all, found. cbn [callerid md5sum_ tcp_nodely topic type].
  rewrite (terminate_at P1 c n2 (T2 ++ t ++ n4 :: T4 ++ y ++ n5 :: T5 ++ m ++ z :: rest)); [|unfold P5, P4, P3; by repeat (rewrite <- app_assoc; cbn [app])|done].
  cbn [mbind outcome_bind].
  rewrite (terminate_at (P1 ++ c ++ 0 :: T2 ++ t ++ n4 :: T4 ++ y ++ n5 :: T5) m z rest);
    [|by repeat (rewrite <- app_assoc; cbn [app])|unfold P5, P4, P3; repeat (rewrite ?zlen_app; unfold zlen; cbn [length]; rewrite ?length_app; cbn [length]); lia].
  cbn [mbind outcome_bind].
  lazymatch goal with |- context [terminate None ?d] => change (terminate None d) with (Ok d : outcome (list Z)) end. cbn [mbind outcome_bind].
  rewrite (terminate_at (P1 ++ c ++ 0 :: T2) t n4 (T4 ++ y ++ n5 :: T5 ++ m ++ 0 :: rest));
    [|by repeat (rewrite <- app_assoc; cbn [app])|unfold P3, zlen; rewrite !length_app; done].
  cbn [mbind outcome_bind].
  rewrite (terminate_at (P1 ++ c ++ 0 :: T2 ++ t ++ 0 :: T4) y n5 (T5 ++ m ++ 0 :: rest));
    [|by repeat (rewrite <- app_assoc; cbn [app])|unfold P4, P3, zlen; repeat (rewrite ?length_app; cbn [length]); lia].
  eexists. split; [done|]. split_and!; intros Hs.
  - eapply (string_at_ok P1); [by repeat (rewrite <- app_assoc; cbn [app])|done|done].
  - eapply (string_at_ok (P1 ++ c ++ 0 :: T2)); [by repeat (rewrite <- app_assoc; cbn [app])|unfold P3, zlen; rewrite !length_app; done|done].
  - eapply (string_at_ok (P1 ++ c ++ 0 :: T2 ++ t ++ 0 :: T4)); [by repeat (rewrite <- app_assoc; cbn [app])|unfold P4, P3, zlen; repeat (rewrite ?length_app; cbn [length]); lia|done].
  - eapply (string_at_ok (P1 ++ c ++ 0 :: T2 ++ t ++ 0 :: T4 ++ y ++ 0 :: T5)); [by repeat (rewrite <- app_assoc; cbn [app])|unfold P5, P4, P3, zlen; repeat (rewrite ?length_app; cbn [length]); lia|done].
Qed.
End terminates.

Lemma le_bytes_cons v : ∃ b l, le_bytes 4 v = b :: l ∧ zlen l = 3.
Proof. by eexists _, _. Qed.

(** One field more, at [off] and up to [off']. *)
Lemma decode_field pre f post off' r' fuel len off r : off = zlen pre → 0 < zlen f → off + 4 + zlen f ≤ len → len < 2 ^ 32 → off' = off + 4 + zlen f →
  (∀ d, drop (Z.to_nat (off + 4)) d = f ++ post → decode_entry d (off + 4) (zlen f) r = Ok r') →
  decode_loop (S fuel) (pre ++ entry f ++ post) len off r = decode_loop fuel (pre ++ entry f ++ post) len off' r'.
Proof.
  intros -> Hf Hl Hb -> H. rewrite decode_step by done.
  assert (Eo : zlen (pre ++ le_bytes 4 (zlen f)) = zlen pre + 4) by by rewrite zlen_app, le_bytes_len. rewrite Eo, H.
  - cbn [mbind outcome_bind]. f_equal. unfold entry. rewrite !zlen_app, le_bytes_len. lia.
  - rewrite <- Eo. unfold entry. rewrite <- app_assoc, (app_assoc pre). apply drop_zlen.
Qed.
Lemma decode_loop_end fuel d len off r : off = len → decode_loop fuel d len off r = Ok r.
Proof. intros ->. destruct fuel; cbn [decode_loop]; by rewrite Z.ltb_irrefl. Qed.

(** The body of a request, with the places of its strings. *)
Lemma decode_req_ok c t y m post k : zlen c < 65536 → zlen t < 65536 → zlen y < 65536 → zlen m < 65536 →
  let fs := [str_of "callerid=" ++ c; str_of "tcp_nodelay=1"; str_of "topic=" ++ t; str_of "type=" ++ y; str_of "md5sum=" ++ m] in
  decode_loop (5 + k) (entries_of fs ++ post) (zlen (entries_of fs)) 0 tcpros_none =
    Ok (mkTcpRos (Some (13, zlen c)) None (Some (zlen c + 40, zlen t)) (Some (zlen c + zlen t + 49, zlen y)) (Some (zlen c + zlen t + zlen y + 60, zlen m))).
Proof.
  intros Hc Ht Hy Hm fs.
  pose proof (zlen_nonneg c). pose proof (zlen_nonneg t). pose proof (zlen_nonneg y). pose proof (zlen_nonneg m).
  set (e1 := str_of "callerid=" ++ c) in fs. set (e2 := str_of "tcp_nodelay=1") in fs. set (e3 := str_of "topic=" ++ t) in fs.
  set (e4 := str_of "type=" ++ y) in fs. set (e5 := str_of "md5sum=" ++ m) in fs.
  assert (L1 : zlen e1 = 9 + zlen c) by (unfold e1; by rewrite zlen_app). assert (L2 : zlen e2 = 13) by done.
  assert (L3 : zlen e3 = 6 + zlen t) by (unfold e3; by rewrite zlen_app). assert (L4 : zlen e4 = 5 + zlen y) by (unfold e4; by rewrite zlen_app).
  assert (L5 : zlen e5 = 7 + zlen m) by (unfold e5; by rewrite zlen_app).
  assert (Lb : zlen (entries_of fs) = zlen c + zlen t + zlen y + zlen m + 60) by (unfold fs; rewrite zlen_entries; cbn [foldr]; lia).
  assert (Le : ∀ f, zlen (entry f) = 4 + zlen f) by (intros f; unfold entry; by rewrite zlen_app, le_bytes_len).
  assert (Hu : ∀ v, 0 ≤ v < 65536 → u16 v = v) by (intros v Hv; unfold u16, wrap; apply Z.mod_small; exact Hv).
  rewrite Lb. replace (entries_of fs ++ post) with (entry e1 ++ entry e2 ++ entry e3 ++ entry e4 ++ entry e5 ++ post)
    by (unfold fs, entries_of; cbn [map concat]; rewrite app_nil_r; by rewrite <- !app_assoc).
  set (r1 := mkTcpRos (Some (13, zlen c)) None None None None). set (r2 := mkTcpRos (Some (13, zlen c)) None (Some (zlen c + 40, zlen t)) None None).
  set (r3 := mkTcpRos (Some (13, zlen c)) None (Some (zlen c + 40, zlen t)) (Some (zlen c + zlen t + 49, zlen y)) None).
  set (len := zlen c + zlen t + zlen y + zlen m + 60). set (o2 := zlen c + 13). set (o3 := zlen c + 30). set (o4 := zlen c + zlen t + 40). set (o5 := zlen c + zlen t + zlen y + 49).
  change (5 + k)%nat with (S (4 + k)). transitivity (decode_loop (4 + k) (entry e1 ++ entry e2 ++ entry e3 ++ entry e4 ++ entry e5 ++ post) len o2 r1).
  { apply (decode_field [] e1 (entry e2 ++ entry e3 ++ entry e4 ++ entry e5 ++ post)); [done|unfold len, o2; lia..|].
    intros d E. unfold e1 in E. rewrite <- app_assoc in E. rewrite (entry_callerid d _ c _ _ _ E), L1, Hu by lia. unfold r1. do 3 f_equal. f_equal; lia. }
  change (4 + k)%nat with (S (3 + k)). transitivity (decode_loop (3 + k) (entry e1 ++ entry e2 ++ entry e3 ++ entry e4 ++ entry e5 ++ post) len o3 r1).
  { apply (decode_field (entry e1) e2 (entry e3 ++ entry e4 ++ entry e5 ++ post)); [rewrite ?zlen_app, ?Le; unfold len, o2, o3; lia..|].
    intros d E. by rewrite (entry_nodelay d _ _ _ _ E). }
  change (3 + k)%nat with (S (2 + k)). transitivity (decode_loop (2 + k) (entry e1 ++ entry e2 ++ entry e3 ++ entry e4 ++ entry e5 ++ post) len o4 r2).
  { rewrite (app_assoc (entry e1)). apply (decode_field (entry e1 ++ entry e2) e3 (entry e4 ++ entry e5 ++ post)); [rewrite ?zlen_app, ?Le; unfold len, o3, o4; lia..|].
    intros d E. unfold e3 in E. rewrite <- app_assoc in E. rewrite (entry_topic d _ t _ _ _ E), L3, Hu by lia. unfold r2, o3. cbn [callerid tcp_nodely topic type md5sum_ r1]. do 3 f_equal. f_equal; lia. }
  change (2 + k)%nat with (S (1 + k)). transitivity (decode_loop (1 + k) (entry e1 ++ entry e2 ++ entry e3 ++ entry e4 ++ entry e5 ++ post) len o5 r3).
  { rewrite (app_assoc (entry e1)), (app_assoc _ (entry e3)). apply (decode_field ((entry e1 ++ entry e2) ++ entry e3) e4 (entry e5 ++ post)); [rewrite ?zlen_app, ?Le; unfold len, o4, o5; lia..|].
    intros d E. unfold e4 in E. rewrite <- app_assoc in E. rewrite (entry_type d _ y _ _ _ E), L4, Hu by lia. unfold r3, o4. cbn [callerid tcp_nodely topic type md5sum_ r2]. do 3 f_equal. f_equal; lia. }
  change (1 + k)%nat with (S k). eapply eq_trans; [|apply (decode_loop_end k (entry e1 ++ entry e2 ++ entry e3 ++ entry e4 ++ entry e5 ++ post) len len); reflexivity].
  rewrite (app_assoc (entry e1)), (app_assoc _ (entry e3)), (app_assoc _ (entry e4)). apply (decode_field (((entry e1 ++ entry e2) ++ entry e3) ++ entry e4) e5 post); [rewrite ?zlen_app, ?Le; unfold len, o5; lia..|].
  intros d E. unfold e5 in E. rewrite <- app_assoc in E. rewrite (entry_md5sum d _ m _ _ _ E), L5, Hu by lia. unfold o5. cbn [callerid tcp_nodely topic type md5sum_ r3]. do 3 f_equal. f_equal; lia.
Qed.

(** Where the strings of a body lie, and what stands between them. *)
Lemma body_places c t y m : ∃ P1 n2 T2 n4 T4 n5 T5,
  entries_of (req_fields [c; t; y; m]) = (((P1 ++ c ++ n2 :: T2) ++ t ++ n4 :: T4) ++ y ++ n5 :: T5) ++ m ∧
  zlen P1 = 13 ∧ zlen (P1 ++ c ++ n2 :: T2) = zlen c + 40 ∧ zlen ((P1 ++ c ++ n2 :: T2) ++ t ++ n4 :: T4) = zlen c + zlen t + 49 ∧
  zlen (((P1 ++ c ++ n2 :: T2) ++ t ++ n4 :: T4) ++ y ++ n5 :: T5) = zlen c + zlen t + zlen y + 60.
Proof.
  rewrite req_fields_eq. destruct (le_bytes_cons (zlen (str_of "tcp_nodelay=1"))) as (n2 & l2 & E2 & L2).
  destruct (le_bytes_cons (zlen (str_of "type=" ++ y))) as (n4 & l4 & E4 & L4). destruct (le_bytes_cons (zlen (str_of "md5sum=" ++ m))) as (n5 & l5 & E5 & L5).
  exists (le_bytes 4 (zlen (str_of "callerid=" ++ c)) ++ str_of "callerid="), n2, (l2 ++ str_of "tcp_nodelay=1" ++ le_bytes 4 (zlen (str_of "topic=" ++ t)) ++ str_of "topic="),
    n4, (l4 ++ str_of "type="), n5, (l5 ++ str_of "md5sum="). split.
  - unfold entries_of, entry. cbn [map concat]. rewrite E2, E4, E5. rewrite app_nil_r. repeat (rewrite <- ?app_assoc; cbn [app]). done.
  - assert (Hk : ∀ (b : Z) l, zlen (b :: l) = 1 + zlen l) by (intros; unfold zlen; cbn [length]; lia).
    rewrite !zlen_app, !Hk, !zlen_app, !le_bytes_len, L2, L4, L5. change (zlen (str_of "callerid=")) with 9. change (zlen (str_of "tcp_nodelay=1")) with 13.
    change (zlen (str_of "topic=")) with 6. change (zlen (str_of "type=")) with 5. change (zlen (str_of "md5sum=")) with 7. lia.
Qed.

(** The string of a field that was found. *)
Definition text_of (q : mRosPacketType) (f : option (Z * Z)) : outcome (option (list Z)) :=
  match f with Some (o, _) => s ← string_at (data q) o; Ok (Some s) | None => Ok None end.

(** C38: The header of a TCPROS connection survives encoding and decoding: a packet with room
    for it is filled with a length and a body; a receiver that reads that length, and puts
    that many bytes into a buffer with room for one more, finds the names of the caller, the
    topic, the type and the checksum as they were given, each ended by a NUL.  The fifth field,
    which the encoder writes, the decoder does not find: it looks for a key that is spelt
    differently. *)
Theorem tcpros_header_roundtrip (c t y m : list Z) (p : mRosPacketType) :
  Forall is_string [c; t; y; m] → Forall (λ s, zlen s < 65536) [c; t; y; m] →
  req_room c t y m ≤ total_size p → total_size p = zlen (data p) → total_size p < 2 ^ 32 →
  ∃ q n, mros_packet_encode (req_arg c t y m) p = Ok (MROS_E_OK, q) ∧ mros_tcprospacket_get_body_size q = Ok n ∧
    data_size q = MROS_TCPROS_RAWDATA_HEADER_SIZE + n ∧
    ∀ size z rest, ∃ q' r,
      mros_tcprospacket_decode (mkPacket size n (take (Z.to_nat n) (drop 4 (data q)) ++ z :: rest)) = Ok (q', r) ∧
      text_of q' (callerid r) = Ok (Some c) ∧ text_of q' (topic r) = Ok (Some t) ∧ text_of q' (type r) = Ok (Some y) ∧
      text_of q' (md5sum_ r) = Ok (Some m) ∧ tcp_nodely r = None.
Proof.
  intros Hs Hl Hr Ht Hb. repeat (apply Forall_cons in Hs as [? Hs]). repeat (apply Forall_cons in Hl as [? Hl]).
  destruct (encode_req_ok c t y m p Hr Ht Hb) as (rest0 & ->). set (body := entries_of (req_fields [c; t; y; m])).
  pose proof (zlen_req c t y m) as Hz. fold body in Hz.
  pose proof (zlen_nonneg c). pose proof (zlen_nonneg t). pose proof (zlen_nonneg y). pose proof (zlen_nonneg m).
  unfold req_room in Hr. change (zlen MROS_PACKET_FMT_TCPROS_TOPIC_REQ) with 72 in Hr.
  exists (mkPacket (total_size p) (4 + zlen body) (le_bytes 4 (zlen body) ++ body ++ 0 :: rest0)), (zlen body).
  refine (conj eq_refl (conj _ (conj eq_refl _))).
  { unfold mros_tcprospacket_get_body_size, get_body_size. cbn [data]. unfold bytes_at. rewrite zlen_app, le_bytes_len.
    pose proof (zlen_nonneg (body ++ 0 :: rest0)). replace (_ && _ && _) with true by lia. change (Z.to_nat 0) with 0%nat. rewrite drop_0.
    rewrite (take_app_length' (le_bytes 4 (zlen body))) by done. cbn [oob mbind outcome_bind]. rewrite le_val_bytes, Z.mod_small; [done|].
    change (2 ^ (8 * Z.of_nat 4)) with (2 ^ 32). lia. }
  intros size z rest. cbn [data]. change (drop 4 (le_bytes 4 (zlen body) ++ body ++ 0 :: rest0)) with (body ++ 0 :: rest0).
  rewrite (take_app_length' body) by (unfold zlen; lia).
  unfold mros_tcprospacket_decode. cbn [data data_size]. set (r := mkTcpRos (Some (13, zlen c)) None (Some (zlen c + 40, zlen t)) (Some (zlen c + zlen t + 49, zlen y)) (Some (zlen c + zlen t + zlen y + 60, zlen m))).
  assert (Ed : decode_loop (S (Z.to_nat (zlen body))) (body ++ z :: rest) (zlen body) 0 tcpros_none = Ok r).
  { replace (S (Z.to_nat (zlen body))) with (5 + (Z.to_nat (zlen body) - 4))%nat by lia. unfold body. rewrite req_fields_eq. by apply decode_req_ok. }
  rewrite Ed. cbn [mbind outcome_bind].
  destruct (body_places c t y m) as (P1 & n2 & T2 & n4 & T4 & n5 & T5 & Eb & L1 & L3 & L4 & L5). fold body in Eb.
  destruct (terminates_ok P1 c n2 T2 t n4 T4 y n5 T5 m z rest) as (d' & Et & Hc & Htt & Hy & Hm).
  unfold found in Et. rewrite L1, L3, L4, L5 in *. fold r in Et. rewrite Eb. rewrite <- (app_assoc _ m).
  rewrite Et. cbn [mbind outcome_bind]. eexists _, r. split; [reflexivity|]. unfold text_of, r, set_data. cbn [data callerid topic type md5sum_ tcp_nodely].
  rewrite Hc, Htt, Hy, Hm by done. done.
Qed.
Lemma tcpros_header_roundtrip_witness :
  let c := str_of "/n" in let t := str_of "/chat" in let y := str_of "String" in let m := str_of "992c" in
  req_room c t y m ≤ 128 ∧
  ∃ q n, mros_packet_encode (req_arg c t y m) (mkPacket 128 0 (replicate 128 0)) = Ok (MROS_E_OK, q) ∧ mros_tcprospacket_get_body_size q = Ok n ∧
    data_size q = MROS_TCPROS_RAWDATA_HEADER_SIZE + n ∧
    ∀ size z rest, ∃ q' r,
      mros_tcprospacket_decode (mkPacket size n (take (Z.to_nat n) (drop 4 (data q)) ++ z :: rest)) = Ok (q', r) ∧
      text_of q' (callerid r) = Ok (Some c) ∧ text_of q' (topic r) = Ok (Some t) ∧ text_of q' (type r) = Ok (Some y) ∧
      text_of q' (md5sum_ r) = Ok (Some m) ∧ tcp_nodely r = None.
Proof.
  split; [by vm_compute|]. apply (tcpros_header_roundtrip (str_of "/n") (str_of "/chat") (str_of "String") (str_of "992c") (mkPacket 128 0 (replicate 128 0))).
  - by repeat (apply Forall_cons; split; [apply Forall_forall; intros x Hx; repeat (apply elem_of_cons in Hx as [->|Hx]; [done|]); by apply not_elem_of_nil in Hx|]); apply Forall_nil.
  - by repeat (apply Forall_cons; split; [done|]); apply Forall_nil.
  - by vm_compute.
  - reflexivity.
  - reflexivity.
Defined.

(** ** What the code does not guard *)

(** An entry whose length is -4 leads back to itself: the decoder never returns. *)
Theorem decode_hangs : mros_tcprospacket_decode (mkPacket 16 8 ([252; 255; 255; 255] ++ str_of "topic=/a")) = Fault Hang.
Proof. by vm_compute. Qed.

(** The slash behind the first port becomes the NUL that ends it, and the search for the next
    address begins at it: a list of two publishers gives one. *)
Definition two_uris : list Z := str_of "<value>http://a:80/</value><value>http://b:81/</value>" ++ [0].
Theorem second_uri_is_lost :
  match mros_xmlpacket_get_first_uri (λ _, Some 1) two_uris 0 with
  | Ok (d, Some (e, _, port)) => port = 80 ∧ (r ← mros_xmlpacket_subres_get_next_uri (λ _, Some 1) e d; Ok r.2) = Ok None
  | _ => False
  end.
Proof. vm_compute. done. Qed.

(** The guard of the answer to a topic request counts no byte of its XML text: it fills the
    packet, cut short, and the size that it leaves is larger than the packet. *)
Definition answer : mRosEncodeArgType := mkArg MROS_PACKET_DATA_REQUEST_TOPIC_RES [str_of "TCPROS"; str_of "10.0.0.1"] [11411].
Theorem answer_exceeds_its_packet :
  match mros_packet_encode answer (mkPacket 256 0 (replicate 256 0)) with
  | Ok (e, q) => e = MROS_E_OK ∧ total_size q < data_size q
  | Fault _ => False
  end.
Proof. by vm_compute. Qed.

(** A request is found whole by the check that the server makes before it decodes it. *)
Definition reg : mRosEncodeArgType :=
  mkArg MROS_PACKET_DATA_REGISTER_PUBLISHER_REQ [str_of "registerPublisher"; str_of "/n"; str_of "/chat"; str_of "String"; str_of "http://a:1"] [].
Example request_has_its_end :
  match mros_packet_encode reg (mkPacket 1024 0 (replicate 1024 0)) with
  | Ok (_, q) => mros_xmlpacket_has_request_end q = Ok true
  | Fault _ => False
  end.
Proof. by vm_compute. Qed.
